(* ===== verification/_CoqProject ===== *)
-Q . S2P
Prelude.v
Transitions.v
Ids.v
Json.v
Evaluate.v
ExprLex.v
ExprParse.v
ExprGrammar.v
ExprComplete.v
ExprProps.v
Recovery.v
RecoveryProps.v
SignatureProps.v
Writers.v
Graph.v
CanonicalJson.v
JsonProps.v
Report.v
GraphRules.v
GraphWalks.v
GraphValid.v
Normalize.v
NormalizeProps.v
DocumentProps.v
TaskDag.v
TaskOrder.v
TaskValid.v
TaskWave.v
TaskProps.v
Tick.v
TickGraph.v
TickSteps.v
TickRelease.v
TickRun.v
TickProps.v
TickLive.v
TickHistory.v
PipelineProps.v
StateJson.v
StateJsonProps.v
Projection.v
ProjectionStore.v
ProjectionFrame.v
ProjectionSteps.v
PayloadCanon.v
StoreWrites.v
StoreJournal.v
StoreProps.v
ReplayCompare.v
ReplayProps.v
Redaction.v
ConfigLayers.v
ConfigMerge.v
ConfigResolve.v
ConfigProps.v
ConfigReports.v
SqlList.v
Scheduling.v
SchedulingInv.v
SchedulingSteps.v
SchedulingOps.v
SchedulingCapacity.v
SchedulingTotal.v
SchedulingClaims.v
SchedulingFaults.v
Revise.v
ReviseText.v
ReviseSpec.v
ReviseProps.v
GraphStore.v
GraphStoreProps.v
WaveStore.v
WaveService.v
Integration.v
WaveInv.v
WaveProps.v
WavePropagate.v
IntegrationProps.v
Replan.v
ReplanProps.v
