(* ===== verification/Prelude.v ===== *)
(** * Heniek: verification of the pipeline control plane

    Heniek runs software tasks through pipelines of stages executed by coding
    agents.  A pipeline is authored as a document, validated and normalized to a
    graph.  A daemon persists every fact as an event in a SQLite journal, keeps
    a projection of the journal in tables, and after each observation asks the
    pure package [packages/pipeline] what to do next; the answer is a plan of
    decisions, transitions, attempts and intents that the daemon stores and
    carries out.  This library verifies the decisions, the documents and the
    configuration they start from, the journal and projection they are recorded
    in, and the store that shares agent accounts out among runs.

    ** The parts and how they interact

    - A pipeline document is checked by structural rules
      ([pipeline/src/graph/validate.ts]) and normalized to the graph the
      scheduler reads ([graph/normalize.ts]); [parse.ts] puts the two together
      and reports diagnostics in a fixed order ([reporter.ts],
      [diagnostics.ts], with [packages/config/src/canonical/json.ts]).
    - The edges of the graph carry conditions, written as expressions and
      compiled once ([expression/lex.ts], [expression/parse.ts]) into flat node
      arrays that are evaluated against the run's JSON state
      ([expression/evaluate.ts]).
    - The scheduler ([scheduler/tick.ts]) is one function from a snapshot of the
      run (stages, observations, evaluator answers, limits, recovery counters)
      to a plan.  A tick applies the observations, sweeps a cancelled or expired
      run, re-arms retries, releases stages until nothing changes, dispatches
      ready stages within the concurrency limit and gives the verdict of a
      finished run.  Every move of a stage goes through the transition table
      ([scheduler/transitions.ts]); every row it emits has a derived id
      ([scheduler/ids.ts]).
    - When an attempt fails the scheduler consults the recovery policy
      ([recovery/classify.ts], [limits.ts], [signature.ts], [decide.ts]).
    - Above pipelines, whole tasks form a graph of their own.  The graph is
      validated ([task-graph/validate.ts]) and its next wave planned from a
      snapshot of capacities ([task-graph/plan.ts]).  The graph of a run is
      revised while it runs: an agent proposes a new graph, deterministic code
      validates the proposal against the current revision, the state of its tasks
      and the requirements they cover ([task-graph/revise.ts]), and a store keeps
      the decisions and the history of revisions
      ([state/src/task-graph/store.ts], called by the daemon's
      [task-graph-revision-service.ts]).
    - A wave scheduler carries the graph out
      ([daemon/src/runtime/task-wave-scheduler-service.ts] over the store
      [state/src/task-graph/wave-store.ts]): it asks each task's pipeline how it
      fares, blocks the tasks behind a failure, plans the next wave, dispatches it
      under leases of workers, accounts, workspaces and repositories, and releases
      them when a task settles.
    - The integration service ([task-integration-service.ts] over
      [state/src/task-graph/integration-store.ts]) merges what succeeded tasks have
      changed onto the branches of the run, one task after the other: it prepares a
      candidate, has it verified with what is there and publishes it; what it finds
      unclear it reconciles with what the repositories hold.
    - When a running task finds that its graph lacks a dependency, the coordinator
      of the run ([daemon/src/runtime/epic-runtime-coordinator.ts] over
      [state/src/task-graph/replanning-store.ts]) records the finding, has the
      affected tasks cancelled, submits the new graph to the revision store and
      lets the scheduler go on with it.
    - The state package ([packages/state]) appends an event per command,
      loads the rows the event is about, folds the event over them with the
      reducer and writes the difference back, in one transaction
      ([journal/append.ts], [projection/reducer.ts], [projection/state.ts],
      [command/commit.ts]).  Replaying the journal with the same reducer must
      give the same tables ([replay/replay.ts], [replay/compare.ts]).
    - A run is executed by an agent account.  The scheduling store
      ([state/src/scheduling/store.ts]) queues the candidates of a run (a primary
      account and its fallbacks), claims the best one that has a free slot,
      fences the attempt with a lease that is renewed, expired, restored and
      released, falls back when an attempt fails, asks the user when all is full,
      and finds the live attempts after a restart.
    - The configuration of a run is resolved from documents in seven layers
      under a policy of hard limits, privacy settings and overridable pointers
      ([packages/config/src/layers/]); what is shown of it is redacted
      ([packages/secrets/src/redaction.ts]).

    ** Files

    Definitions, by part of the program:
    - [Prelude]: strings, comparators, insertion-ordered maps and sets (the
      JavaScript [Map] and [Set]), stable sorting (the JavaScript [sort]), the
      state-and-error monad [ST], tactics and hints;
    - [Transitions] ([transitions.ts], [contracts/src/pipeline/state.ts],
      [contracts/src/kernel/state.ts]); [Ids] ([ids.ts]);
    - [Json], [Evaluate], [ExprLex], [ExprParse]: JSON values with binary64
      numbers, and the three files of [expression/];
    - [Recovery] ([recovery/classify.ts], [limits.ts], [signature.ts],
      [decide.ts]);
    - [Graph] (the normalized graph of [contracts/src/pipeline/schemas.ts]);
    - [CanonicalJson] (canonical text and pointers of [packages/config]),
      [Report] (diagnostics and the reporter), [GraphRules]
      ([graph/validate.ts]), [Normalize] ([graph/normalize.ts], [parse.ts]);
    - [Tick] ([scheduler/tick.ts], whole);
    - [TaskDag] ([task-graph/validate.ts]) and [TaskWave] ([task-graph/plan.ts]);
    - [StateJson] ([state/src/json.ts]), [Projection]
      ([projection/reducer.ts]), [ProjectionStore] ([projection/state.ts],
      [command/commit.ts], [journal/], [replay/replay.ts]), [ReplayCompare]
      ([replay/compare.ts]);
    - [Redaction] ([secrets/src/redaction.ts], [patterns.ts]; with its claim) and
      [ConfigLayers] ([config/src/layers/]: [layer.ts], [policy.ts],
      [defaults.ts], [merge.ts], [render.ts]);
    - [Scheduling] ([state/src/scheduling/store.ts], whole, with its tables in
      [migrations/list.ts]);
    - [Revise] ([task-graph/revise.ts], whole, with the records of
      [contracts/src/task-graph/revision.ts] and [contracts/src/run/task.ts]) and
      [GraphStore] ([state/src/task-graph/store.ts], its tables in
      [migrations/task-graph-revision.ts], and the daemon's service);
    - [WaveStore] ([state/src/task-graph/wave-store.ts], whole, with its tables in
      [migrations/task-wave-scheduler.ts]) and [WaveService]
      ([task-wave-scheduler-service.ts]);
    - [Integration] ([state/src/task-graph/integration-store.ts], whole, with its
      tables in [migrations/task-integration.ts] and
      [migrations/task-integration-reconciliation.ts], and
      [task-integration-service.ts], whole);
    - [Replan] ([state/src/task-graph/replanning-store.ts], whole, with its tables
      in [migrations/hidden-dependency-replanning.ts], and
      [epic-runtime-coordinator.ts]).

    Proofs:
    - [ExprGrammar] (the grammar as a relation; soundness), [ExprComplete]
      (completeness), [ExprProps] (the tokenizer, claims);
    - [RecoveryProps] and [SignatureProps] (claims of the recovery policy);
    - [Writers] (the writer monad the rules report in), [JsonProps] (canonical
      text identifies values), [GraphWalks] (the cycle search and the state
      flow), [GraphValid] (the rules' specification), [NormalizeProps],
      [DocumentProps] (normalization), [PipelineProps] (from document to
      scheduler);
    - [TickGraph] (edge indexes, the reachability closure), [TickSteps] (the
      abstract machine a tick refines, as a step relation with phases),
      [TickRelease] (release loop and dispatch), [TickRun] (the phases composed),
      [TickProps] (with concrete runs), [TickLive] and [TickHistory] (claims: one
      tick, progress, runs of ticks);
    - [TaskOrder] (the topological order), [TaskValid] (the specification of a
      valid task graph), [TaskProps] (the planning loop, claims);
    - [StateJsonProps] (the store's JSON round trip), [ProjectionFrame] (what an event reads and writes),
      [ProjectionSteps] (how rows advance; the invariant), [PayloadCanon] (an
      event and its journal entry fold alike), [StoreWrites] (the interface
      [Stored] of a table, its seven instances, and diff and statements against
      it), [StoreJournal] (the tables together, written and loaded, with the
      journal), [StoreProps], [ReplayProps] (claims);
    - [ConfigMerge] (what a path of a merged, edited or sanitized document holds;
      pointers name paths), [ConfigResolve] (the chain of a leaf and its winner),
      [ConfigProps], [ConfigReports] (claims);
    - [SqlList] (runs of the operation monad; tables as lists),
      [SchedulingInv] (the store's invariant and how rows evolve),
      [SchedulingSteps] (which row a claim takes; the primitive writes),
      [SchedulingOps] (every operation keeps the invariant), [SchedulingCapacity]
      (slots of an account), [SchedulingTotal] (no constraint refuses a claim),
      [SchedulingClaims], [SchedulingFaults] (claims);
    - [ReviseText] (canonical texts identify tasks, changes and mappings),
      [ReviseSpec] (what an acceptable proposal is, and that the diagnostics say
      so), [ReviseProps] (structural waves, claims),
      [GraphStoreProps] (the store against the interface [ValidatorLaws] of its
      validator, the validator against that interface, and the claims);
    - [WaveInv] (the invariant of the wave store and that its statements keep it),
      [WaveProps] (the operations, claims), [WavePropagate] (propagation, what it
      means for a revision, concrete waves, claims);
    - [IntegrationProps] (the scheduler leaves gates alone, the invariant of the
      ledger, safe programs, concrete runs, claims);
    - [ReplanProps] (the invariant of the coordinator's interleavings, a concrete
      run, claims).

    ** What the theorems show

    - Scheduler.  On well-formed inputs every tick returns a plan; its log of
      transitions replays from the input's states to the patched ones through
      the permitted table; terminal stages do not change except by a manual
      rerun; a stage is released only when its dependencies, conditions and
      reads are met, and none is left waiting for nothing; dispatch respects the
      concurrency limit and uses it; a cancelled or expired tick stops all it
      can; attempts are sound and their ids never repeat, also over a run of
      ticks; the verdict is characterised.  Two theorems record runs reported as
      succeeded although their deadline or a cancellation stopped them.
    - Documents.  The rules report no error exactly when the document meets
      their specification; normalization keeps the meaning of the document and
      is canonical; an accepted document gives a graph on which the scheduler
      never stalls, unless its input has stages that were deselected without being
      cancelled.
    - Conditions.  The compiler accepts exactly the documented grammar, always
      ends, and evaluating the compiled array is evaluating the tree.
    - Recovery.  Repairs happen under exactly the documented guards and are
      bounded by the budget; signatures identify failures; the strictest limit
      wins.
    - Tasks.  A graph is declared valid exactly when it meets the specification;
      waves are safe, complete, work conserving, and always make progress.
    - Task-graph revisions.  The structural wave of a task is the length of the
      longest chain of dependencies that ends in it.  A proposal is accepted
      exactly when it meets the specification of an acceptable revision, however
      its parts are ordered; an accepted one becomes the successor with the
      computed hash.  Along a history every graph is valid, each revision cites
      the hash of the one before, and no requirement is lost; started tasks are
      carried over unchanged unless they were interrupted by the finding the
      proposal cites.  The store holds one such history per run and its projection
      names the latest revision; submitting a proposal always records a decision.
    - Task waves.  After any interleaving of the service's calls a task that runs
      holds exactly one lease of each resource its dispatch names, one that has
      settled holds none, and an exclusive resource has one holder at a time with
      growing fences; tasks move along the lifecycle only and terminal phases are
      final; a wave stays within the limits and dispatching it again changes
      nothing; propagation ends and blocks exactly the tasks behind a failure, each
      with a reason its dependencies give.  One theorem characterises the
      observations that make a tick throw; one records that an interrupted task
      with a dependent can no longer be replaced once its cancellation has been
      propagated.
    - Integration.  However ticks of the service overlap with each other and with
      the scheduler, and whatever its driver answers, the entries of a run are
      numbered without gaps, an entry is prepared only when all before it are
      integrated or failed, none goes back, and the gates of every task say exactly
      where its integration is.  One theorem records that a change of the order of
      the dispatches makes every tick throw; a concrete run shows a reconciliation
      that publishes an entry whose verification was only ever rejected.
    - Replanning.  However ticks, reports and the scheduler interleave, a run has
      at most one open replan, replans advance along their lifecycle, and a resumed
      one names a revision of the graph that its finding triggered; a replan whose
      tasks are quiet is decided by the next tick, resumed exactly when the proposal
      is acceptable; a crash between the revision and the resumption is repaired by
      any later tick.  One theorem records that a run is stranded when an interrupted task succeeds.
    - Store.  The scope of an event suffices to fold it; a commit implements the
      reducer, and only the publication guards and the schema can refuse what
      the reducer accepts; after any commands whose payloads the journal keeps the
      tables hold the replay of the journal and the replay check says so, which it does exactly when the two
      agree; artifacts only come from asserted publications and never change,
      fences only grow; JSON texts read back.  Two theorems record stores whose
      replay differs or fails.
    - Account scheduling.  After any operations, failed ones included, the tables
      satisfy the store's invariant (at most one live attempt per run, each with
      its lease, queues and states agreeing) and history is only extended; an
      account never runs more than its limit; a claim takes the best claimable
      candidate, says none only when there is none, and is never refused by the
      schema; renewals are exactly those of the holder, and a stale fence is
      refused for ever; a restart finds every live attempt.  Three theorems
      record runs that cannot be cancelled, runs stranded by a second question,
      and an answer after which every claim throws.
    - Configuration.  The provenance says exactly which document supplied which
      value; the strictest hard limit wins where no ordered privacy overrides it,
      privacy is never weakened and a denied override has no effect, at every path
      no document shadows; the
      result is well-formed JSON and can be rendered whatever the documents
      hold; the errors reported are characterised; redaction leaves nothing its
      patterns match.  Two theorems record a denied override that erases a
      setting and a repeated setting that is reported as an error.

    ** How the code is modelled

    Mutable objects that one call threads through others ([TickContext], the
    parser object, the maps of a loop) are states of the monad [ST] or explicit
    accumulators; [throw] is a value of the error type.  A [MutableStage] is only
    ever reached through its key in [working], which keeps aliases faithful.
    Strings are sequences of code units below 256 (message texts with a dash
    beyond that range are written as their UTF-8 bytes); counters and times are
    unbounded integers, which the contracts keep within the safe range; numbers
    inside JSON state are binary64 floats.  Object fields the code never reads
    are left out of the records.

    A record the state package uses as a map is a [gmap]; its keys are ids, none
    of them the name of an inherited property.  A SQLite table is a finite map
    from primary keys to columns; a statement checks its key, its revision and
    the guards of the migrations ([first_revision], [causal_update]), and a
    failed transaction leaves the database as it was.  The schema's other
    constraints are the class [SchemaChecks], an arbitrary test of a row: the
    theorems hold whatever it refuses.

    The tables of the scheduling store are lists of rows in insertion order, and
    its operations run in a state-and-error monad over them: a thrown operation
    leaves the database as it was, which is what its transaction does.  The
    unique, foreign-key and CHECK constraints of migration 10 are tested by the
    insertions (the [json_valid] checks are not: what is stored comes from
    [JSON.stringify]).  Times are milliseconds, of which the ISO texts order as
    the instants do within the years 0 to 9999; [Date.parse] is a class.  Ids come
    from a generator that never repeats one ([determinism.ts]).

    The tables of task-graph revisions are modelled the same way; the columns that
    hold the JSON of a record or a decision hold the value.  In the canonical text
    of a revision integers are printed in decimal and the environment of a check is
    a finite map.

    The wave store is modelled the same way.  Its service waits for the pipelines
    of its tasks; the code between two waits runs without interruption and is one
    [Stretch], and the theorems hold for every sequence of stretches, so for every
    interleaving of ticks, cancellations and answers.  What a driver answers and
    the texts the clock gives are arbitrary; [localeCompare] is a class without
    laws.  The coordinator is modelled on top of it as a state machine ([Event],
    [epic_step]): the databases with the ticks that wait, each holding the replan
    and the rows it has read.  A stretch of the coordinator is several transactions,
    so what it committed before it throws stays.

    The integration service asks its driver in the middle of loops.  Its code is a
    value of [Svc], a tree of store operations and questions, built with the code's
    structure; [runSync] runs the operations up to the next question, and
    [integration_step] lets any waiting tick go on with any answer, so ticks overlap
    in every way they can.  A tick is a finite tree: it asks finitely many questions.

    A document given to the resolution may hold any value ([Unknown]); the
    result of sanitizing it is JSON.  The regular expressions of
    [secrets/src/patterns.ts] are the class [Patterns], arbitrary tests of a
    text: the theorems hold whatever they match.

    SHA-256 ([node:crypto]) is not part of the repository: it is the class
    [Sha256] or an argument, an arbitrary function.  The one theorem that needs
    it not to collide says so for the two texts concerned.

    Loops that are not structural take fuel, and the theorems of totality show
    that the bound chosen is never reached: [releaseLoop] (a pass that progresses
    moves a stage or asks an evaluator; stages leave [pending] once, questions
    are asked once), [walkDescendants] (each edge is pushed at most once for each
    first visit, twice the edges plus one), [lexLoop] (each step consumes a
    character), the parser's loops (each iteration consumes a token; nesting
    stops at depth 16), [evaluateNode] (operands stand before their node),
    [orderLoop] (a task is ordered once), [terminalReasons] (a path without
    repetition is no longer than the number of tasks), [propagationReason] (the
    tasks on the way are distinct), [propagateLoop] (every pass but the last blocks
    a task) and [json_parse] (each step consumes text; [json_round_trip] shows the bound is enough for every
    text the store writes).

    ** What is not modelled

    The YAML reader, schema validation, rendering and suggestions of documents,
    and [admission/admit.ts].  Segment fusion ([fusion/]), and the recovery trace
    and canonical state.  Of the state package, the other stores (native bridge,
    interactions, artifacts), opening and migrating databases, and the reads made for other packages: each is a SQL statement of its own.  Profile
    resolution ([config/src/profiles/]), the redaction of free text and of
    objects that are not JSON, and the secret stores.  The daemon, the runner
    and the adapters, which perform I/O. *)

From Stdlib Require Export ZArith Lia.
From Stdlib Require Import Ascii String.
From stdpp Require Export base list strings pretty sorting relations.

(** ** Strings

    A JavaScript string is a sequence of UTF-16 code units; the model uses
    [string], whose characters are the code units below 256.  [<] on strings
    compares code units lexicographically, which is [String.compare]. *)

Definition str_ltb (s t : string) : bool :=
  match String.compare s t with Lt => true | _ => false end.

Definition str_eqb (s t : string) : bool := bool_decide (s = t).

(** The double quote character, and a text between two of them. *)
Definition quote : string := String (ascii_of_N 34) EmptyString.
Definition quoted (s : string) : string := quote +:+ s +:+ quote.

(** The comparator [left < right ? -1 : left > right ? 1 : 0]. *)
Definition compareCodepoints (left right : string) : Z :=
  if str_ltb left right then -1 else if str_ltb right left then 1 else 0.

Lemma ascii_compare_refl c : Ascii.compare c c = Eq.
Proof. unfold Ascii.compare. apply N.compare_refl. Qed.

Lemma str_compare_refl s : String.compare s s = Eq.
Proof. induction s as [|c s IH]; simpl; [done|]. by rewrite ascii_compare_refl. Qed.

Lemma str_compare_eq s t : String.compare s t = Eq <-> s = t.
Proof.
  split; [apply String.compare_eq_iff|]. intros ->. apply str_compare_refl.
Qed.

Lemma str_compare_lt_trans s t u :
  String.compare s t = Lt -> String.compare t u = Lt -> String.compare s u = Lt.
Proof.
  revert t u. induction s as [|a s IH]; intros [|b t] [|c u]; simpl; try done.
  unfold Ascii.compare.
  destruct (N.compare_spec (N_of_ascii a) (N_of_ascii b)) as [Hab|Hab|Hab]; [| |done];
    destruct (N.compare_spec (N_of_ascii b) (N_of_ascii c)) as [Hbc|Hbc|Hbc]; try done;
    intros H1 H2;
    destruct (N.compare_spec (N_of_ascii a) (N_of_ascii c)) as [Hac|Hac|Hac];
    try done; try lia; eauto.
Qed.

Lemma str_ltb_spec s t : str_ltb s t = true <-> String.compare s t = Lt.
Proof. unfold str_ltb. destruct (String.compare s t); split; congruence. Qed.

Lemma str_ltb_irrefl s : str_ltb s s = false.
Proof. unfold str_ltb. by rewrite str_compare_refl. Qed.

Lemma str_ltb_trans s t u :
  str_ltb s t = true -> str_ltb t u = true -> str_ltb s u = true.
Proof. rewrite !str_ltb_spec. apply str_compare_lt_trans. Qed.

Lemma str_ltb_asym s t : str_ltb s t = true -> str_ltb t s = false.
Proof.
  intros H. destruct (str_ltb t s) eqn:E; [|done].
  pose proof (str_ltb_trans _ _ _ H E) as F. by rewrite str_ltb_irrefl in F.
Qed.

(** Trichotomy: strings that neither precede one another are equal. *)
Lemma str_ltb_total s t :
  str_ltb s t = false -> str_ltb t s = false -> s = t.
Proof.
  unfold str_ltb. rewrite (String.compare_antisym t s).
  destruct (String.compare s t) eqn:E; simpl; try done.
  intros _ _. by apply str_compare_eq.
Qed.

(** Negative transitivity, the shape sorting needs. *)
Lemma str_ltb_false_trans s t u :
  str_ltb t s = false -> str_ltb u t = false -> str_ltb u s = false.
Proof.
  intros H1 H2. destruct (str_ltb u s) eqn:E; [|done].
  destruct (str_ltb s t) eqn:E2.
  - pose proof (str_ltb_trans _ _ _ E E2). congruence.
  - pose proof (str_ltb_total _ _ E2 H1). subst. congruence.
Qed.

Lemma str_eqb_true s t : str_eqb s t = true <-> s = t.
Proof. unfold str_eqb. apply bool_decide_eq_true. Qed.

Lemma str_eqb_refl s : str_eqb s s = true.
Proof. by apply str_eqb_true. Qed.

Lemma str_eqb_false s t : str_eqb s t = false <-> s <> t.
Proof. unfold str_eqb. apply bool_decide_eq_false. Qed.

(** [`${n}`] for an integer-valued number. *)
Definition num_text (n : Z) : string := pretty n.

Lemma num_text_inj n m : num_text n = num_text m -> n = m.
Proof. apply (inj pretty). Qed.

(** [values.join(separator)]. *)
Definition js_join (separator : string) (values : list string) : string :=
  String.concat separator values.

(** [text.split(separator)] for a non-empty separator: cut at the leftmost
    occurrences, left to right, without overlap. *)
Fixpoint js_split_go (separator : string) (skip : nat) (current : string) (text : string)
    : list string :=
  match text with
  | EmptyString => [current]
  | String c rest =>
      match skip with
      | S k => js_split_go separator k current rest
      | O =>
          if String.prefix separator text
          then current :: js_split_go separator (String.length separator - 1) EmptyString rest
          else js_split_go separator 0 (String.append current (String c EmptyString)) rest
      end
  end.

Definition js_split (separator text : string) : list string :=
  js_split_go separator 0 EmptyString text.

(** ** Sorting

    [Array.prototype.sort] is stable.  [lt x y] stands for "the comparator
    puts [x] strictly before [y]"; an element is placed after every element it
    does not strictly precede. *)

Section Sorting.
Context {A : Type} (lt : A -> A -> bool).

Fixpoint insert_by (x : A) (l : list A) : list A :=
  match l with
  | [] => [x]
  | y :: l' => if lt x y then x :: y :: l' else y :: insert_by x l'
  end.

Definition sort_by (l : list A) : list A :=
  fold_left (fun acc x => insert_by x acc) l [].

Lemma insert_by_perm x l : insert_by x l ≡ₚ x :: l.
Proof.
  induction l as [|y l IH]; simpl; [done|].
  destruct (lt x y); [done|]. rewrite IH. apply Permutation_swap.
Qed.

Lemma sort_fold_perm l acc :
  fold_left (fun acc x => insert_by x acc) l acc ≡ₚ l ++ acc.
Proof.
  revert acc. induction l as [|x l IH]; intros acc; simpl; [done|].
  rewrite IH, insert_by_perm. symmetry. apply Permutation_middle.
Qed.

Lemma sort_by_perm l : sort_by l ≡ₚ l.
Proof. unfold sort_by. rewrite sort_fold_perm. by rewrite app_nil_r. Qed.

Lemma elem_of_sort_by x l : x ∈ sort_by l <-> x ∈ l.
Proof. by rewrite sort_by_perm. Qed.

Lemma sort_by_length l : length (sort_by l) = length l.
Proof. by rewrite sort_by_perm. Qed.

(** "[x] may stand before [y]". *)
Definition not_after (x y : A) : Prop := lt y x = false.

Hypothesis lt_asym : forall x y, lt x y = true -> lt y x = false.
Hypothesis lt_ntrans : forall x y z, lt y x = false -> lt z y = false -> lt z x = false.

Lemma insert_by_sorted x l :
  StronglySorted not_after l -> StronglySorted not_after (insert_by x l).
Proof.
  induction 1 as [|y l Hl IH Hy]; simpl; [repeat constructor|].
  destruct (lt x y) eqn:E.
  - constructor; [by constructor|]. constructor; [by apply lt_asym|].
    eapply Forall_impl; [exact Hy|]. intros z Hz. unfold not_after in *.
    eapply lt_ntrans; [|exact Hz]. by apply lt_asym.
  - constructor; [done|]. rewrite insert_by_perm. by constructor.
Qed.

Lemma sort_fold_sorted l acc :
  StronglySorted not_after acc ->
  StronglySorted not_after (fold_left (fun acc x => insert_by x acc) l acc).
Proof.
  revert acc. induction l as [|x l IH]; intros acc H; simpl; [done|].
  by apply IH, insert_by_sorted.
Qed.

Lemma sort_by_sorted l : StronglySorted not_after (sort_by l).
Proof. apply sort_fold_sorted. constructor. Qed.

(** When [lt] separates the elements, the sorted order is canonical: it does
    not depend on the order of the input. *)
Lemma sort_by_canonical l1 l2 :
  (forall x y, x ∈ l1 -> y ∈ l1 -> lt x y = false -> lt y x = false -> x = y) ->
  l1 ≡ₚ l2 -> sort_by l1 = sort_by l2.
Proof.
  intros Hsep Hp. apply (StronglySorted_unique_strong not_after).
  - intros x y. rewrite !elem_of_sort_by, <-Hp. intros Hx Hy H1 H2. by apply Hsep.
  - apply sort_by_sorted.
  - apply sort_by_sorted.
  - by rewrite !sort_by_perm.
Qed.
End Sorting.

(** Sorting by a string key ([left.k < right.k ? -1 : ...]). *)
Definition key_lt {A} (key : A -> string) (x y : A) : bool := str_ltb (key x) (key y).

Definition sort_key {A} (key : A -> string) (l : list A) : list A := sort_by (key_lt key) l.

(** [values.sort()] on strings. *)
Definition sort_strings (l : list string) : list string := sort_key id l.

Lemma sort_key_perm {A} (key : A -> string) l : sort_key key l ≡ₚ l.
Proof. apply sort_by_perm. Qed.

Lemma elem_of_sort_key {A} (key : A -> string) x l : x ∈ sort_key key l <-> x ∈ l.
Proof. apply elem_of_sort_by. Qed.

Lemma elem_of_sort_strings x l : x ∈ sort_strings l <-> x ∈ l.
Proof. apply elem_of_sort_by. Qed.

Lemma key_lt_asym {A} (key : A -> string) x y :
  key_lt key x y = true -> key_lt key y x = false.
Proof. apply str_ltb_asym. Qed.

Lemma key_lt_ntrans {A} (key : A -> string) x y z :
  key_lt key y x = false -> key_lt key z y = false -> key_lt key z x = false.
Proof. apply str_ltb_false_trans. Qed.

Lemma sort_key_sorted {A} (key : A -> string) l :
  StronglySorted (not_after (key_lt key)) (sort_key key l).
Proof. apply sort_by_sorted; [apply key_lt_asym|apply key_lt_ntrans]. Qed.

(** Sorting by a key that is injective on the elements is canonical. *)
Lemma sort_key_canonical {A} (key : A -> string) l1 l2 :
  (forall x y, x ∈ l1 -> y ∈ l1 -> key x = key y -> x = y) ->
  l1 ≡ₚ l2 -> sort_key key l1 = sort_key key l2.
Proof.
  intros Hinj. apply sort_by_canonical; [apply key_lt_asym|apply key_lt_ntrans|].
  intros x y Hx Hy H1 H2. apply Hinj; [done..|]. by apply str_ltb_total.
Qed.

Lemma sort_strings_canonical l1 l2 : l1 ≡ₚ l2 -> sort_strings l1 = sort_strings l2.
Proof. by apply sort_key_canonical. Qed.

(** ** [Map] and [Set]

    A JavaScript [Map] iterates in insertion order and [set] on a present key
    keeps its position: an association list updated in place.  A [Set] is the
    list of its elements in insertion order. *)

Section JsMap.
Context {V : Type}.
Implicit Types (m : list (string * V)) (k : string) (v : V).

Fixpoint map_get m k : option V :=
  match m with
  | [] => None
  | (k', v) :: m' => if str_eqb k k' then Some v else map_get m' k
  end.

Definition map_has m k : bool := match map_get m k with Some _ => true | None => false end.

Fixpoint map_set m k v : list (string * V) :=
  match m with
  | [] => [(k, v)]
  | (k', v') :: m' => if str_eqb k k' then (k', v) :: m' else (k', v') :: map_set m' k v
  end.

Definition map_keys m : list string := map fst m.
Definition map_values m : list V := map snd m.

(** [new Map(entries)]. *)
Definition map_of (entries : list (string * V)) : list (string * V) :=
  fold_left (fun m e => map_set m e.1 e.2) entries [].

Lemma map_get_set m k v k' :
  map_get (map_set m k v) k' = if str_eqb k' k then Some v else map_get m k'.
Proof.
  induction m as [|[k0 v0] m IH]; simpl; [done|].
  destruct (str_eqb k k0) eqn:E; simpl.
  - apply str_eqb_true in E as ->. by destruct (str_eqb k' k0).
  - destruct (str_eqb k' k0) eqn:E'; [|by apply IH].
    apply str_eqb_true in E' as ->. destruct (str_eqb k0 k) eqn:E2; [|done].
    apply str_eqb_true in E2 as ->. by rewrite str_eqb_refl in E.
Qed.

Lemma map_get_set_eq m k v : map_get (map_set m k v) k = Some v.
Proof. by rewrite map_get_set, str_eqb_refl. Qed.

Lemma map_get_set_ne m k v k' : k' <> k -> map_get (map_set m k v) k' = map_get m k'.
Proof. intros H. rewrite map_get_set. by apply str_eqb_false in H as ->. Qed.

Lemma map_get_elem m k v : map_get m k = Some v -> (k, v) ∈ m.
Proof.
  induction m as [|[k0 v0] m IH]; simpl; [done|].
  destruct (str_eqb k k0) eqn:E.
  - apply str_eqb_true in E as ->. intros [= ->]. by left.
  - intros H. right. by apply IH.
Qed.

Lemma map_get_Some_keys m k v : map_get m k = Some v -> k ∈ map_keys m.
Proof.
  intros H%map_get_elem. unfold map_keys. apply (list_elem_of_fmap_2 fst) in H. done.
Qed.

Lemma map_get_keys m k : k ∈ map_keys m <-> is_Some (map_get m k).
Proof.
  split; [|intros [v Hv]; by eapply map_get_Some_keys].
  induction m as [|[k0 v0] m IH]; simpl; [by rewrite elem_of_nil|].
  rewrite elem_of_cons. intros [->|H].
  - rewrite str_eqb_refl. by eexists.
  - destruct (str_eqb k k0); [by eexists|]. by apply IH.
Qed.

Lemma map_get_None m k : k ∉ map_keys m <-> map_get m k = None.
Proof. rewrite map_get_keys, eq_None_not_Some. done. Qed.

Lemma map_keys_set_in m k v : k ∈ map_keys m -> map_keys (map_set m k v) = map_keys m.
Proof.
  induction m as [|[k0 v0] m IH]; simpl; [by rewrite elem_of_nil|].
  intros H. destruct (str_eqb k k0) eqn:E; simpl; [done|]. f_equal. apply IH.
  apply str_eqb_false in E. by apply elem_of_cons in H as [->|H].
Qed.

Lemma map_set_out m k v : k ∉ map_keys m -> map_set m k v = m ++ [(k, v)].
Proof.
  induction m as [|[k' v'] m IH]; simpl; [done|]. intros [Hne Hm]%not_elem_of_cons.
  rewrite (proj2 (str_eqb_false _ _) Hne). by rewrite IH.
Qed.

Lemma map_keys_set_out m k v :
  k ∉ map_keys m -> map_keys (map_set m k v) = map_keys m ++ [k].
Proof.
  induction m as [|[k0 v0] m IH]; simpl; [done|].
  rewrite not_elem_of_cons. intros [Hne H].
  apply str_eqb_false in Hne as ->. simpl. f_equal. by apply IH.
Qed.

Lemma elem_of_map_keys_set m k v k' :
  k' ∈ map_keys (map_set m k v) <-> k' = k \/ k' ∈ map_keys m.
Proof.
  rewrite !map_get_keys, map_get_set. destruct (str_eqb k' k) eqn:E.
  - apply str_eqb_true in E as ->. split; [by left|]. intros _. by eexists.
  - apply str_eqb_false in E. naive_solver.
Qed.

Lemma map_set_NoDup m k v : NoDup (map_keys m) -> NoDup (map_keys (map_set m k v)).
Proof.
  intros H. destruct (decide (k ∈ map_keys m)).
  - by rewrite map_keys_set_in.
  - rewrite map_keys_set_out by done. apply NoDup_app. split; [done|].
    split; [|apply NoDup_singleton]. intros x Hx ->%list_elem_of_singleton. done.
Qed.

Lemma map_set_set m k v w : map_set (map_set m k v) k w = map_set m k w.
Proof.
  induction m as [|[k0 v0] m IH]; simpl; [by rewrite str_eqb_refl|].
  destruct (str_eqb k k0) eqn:E; simpl; rewrite E; [done|]. by f_equal.
Qed.

(** Replacing one value changes a count by what the two values contribute. *)
Lemma count_map_set (P : V -> bool) m k v v0 :
  map_get m k = Some v0 ->
  (length (filter (fun x => P x = true) (map_values (map_set m k v))) + (if P v0 then 1 else 0) =
   length (filter (fun x => P x = true) (map_values m)) + (if P v then 1 else 0))%nat.
Proof.
  induction m as [|[k' v'] m IH]; simpl; [done|].
  destruct (str_eqb k k') eqn:E; simpl.
  - intros [= ->]. rewrite !filter_cons.
    destruct (P v), (P v0); repeat case_decide; simpl; try done; lia.
  - intros H. specialize (IH H). rewrite !filter_cons. repeat case_decide; simpl; lia.
Qed.

Lemma elem_map_get m k v : NoDup (map_keys m) -> (k, v) ∈ m -> map_get m k = Some v.
Proof.
  induction m as [|[k0 v0] m IH]; simpl; [by rewrite elem_of_nil|].
  rewrite NoDup_cons. intros [Hnin Hnd] [Heq|H]%elem_of_cons.
  - injection Heq as -> ->. by rewrite str_eqb_refl.
  - destruct (str_eqb k k0) eqn:E; [|by apply IH].
    apply str_eqb_true in E as ->. destruct Hnin.
    apply (list_elem_of_fmap_2 fst) in H. done.
Qed.

Lemma elem_of_map_values m v :
  v ∈ map_values m -> exists k, (k, v) ∈ m.
Proof. intros ([k w] & -> & H)%list_elem_of_fmap. by exists k. Qed.

Lemma map_of_NoDup_fold entries m :
  NoDup (map_keys m) ->
  NoDup (map_keys (fold_left (fun m e => map_set m e.1 e.2) entries m)).
Proof.
  revert m. induction entries as [|e es IH]; intros m H; simpl; [done|].
  by apply IH, map_set_NoDup.
Qed.

Lemma map_of_NoDup entries : NoDup (map_keys (map_of entries)).
Proof. apply map_of_NoDup_fold. constructor. Qed.

Lemma elem_of_map_of_fold entries m k :
  k ∈ map_keys (fold_left (fun m e => map_set m e.1 e.2) entries m) <->
  k ∈ map_keys m \/ k ∈ map fst entries.
Proof.
  revert m. induction entries as [|e es IH]; intros m; simpl.
  - rewrite elem_of_nil. naive_solver.
  - rewrite IH, elem_of_map_keys_set, elem_of_cons. naive_solver.
Qed.

Lemma elem_of_map_of entries k : k ∈ map_keys (map_of entries) <-> k ∈ map fst entries.
Proof.
  unfold map_of. rewrite elem_of_map_of_fold. simpl. rewrite elem_of_nil. naive_solver.
Qed.

Lemma map_of_get_elem_fold entries m k v :
  map_get (fold_left (fun m e => map_set m e.1 e.2) entries m) k = Some v ->
  (k, v) ∈ entries \/ map_get m k = Some v.
Proof.
  revert m. induction entries as [|[k0 v0] es IH]; intros m; simpl; [by right|].
  intros [H|H]%IH; [left; by right|]. rewrite map_get_set in H.
  destruct (str_eqb k k0) eqn:E; [|by right].
  apply str_eqb_true in E as ->. injection H as ->. left. by left.
Qed.

Lemma map_of_get_elem entries k v : map_get (map_of entries) k = Some v -> (k, v) ∈ entries.
Proof. intros [H|H]%map_of_get_elem_fold; done. Qed.
End JsMap.

Definition set_has (s : list string) (x : string) : bool := bool_decide (x ∈ s).
Definition set_add (s : list string) (x : string) : list string :=
  if set_has s x then s else s ++ [x].
Definition set_delete (s : list string) (x : string) : list string :=
  filter (fun y => y <> x) s.
(** [new Set(values)]. *)
Definition set_of (values : list string) : list string := fold_left set_add values [].

Lemma set_has_true s x : set_has s x = true <-> x ∈ s.
Proof. apply bool_decide_eq_true. Qed.

Lemma set_has_false s x : set_has s x = false <-> x ∉ s.
Proof. apply bool_decide_eq_false. Qed.

Lemma set_has_snoc s x y : set_has (s ++ [x]) y = set_has s y || str_eqb y x.
Proof.
  apply eq_true_iff_eq. rewrite orb_true_iff, !set_has_true, str_eqb_true, elem_of_app.
  by rewrite list_elem_of_singleton.
Qed.

Lemma elem_of_set_add s x y : y ∈ set_add s x <-> y = x \/ y ∈ s.
Proof.
  unfold set_add. destruct (set_has s x) eqn:E.
  - apply set_has_true in E. naive_solver.
  - rewrite elem_of_app, list_elem_of_singleton. naive_solver.
Qed.

Lemma set_add_NoDup s x : NoDup s -> NoDup (set_add s x).
Proof.
  unfold set_add. intros H. destruct (set_has s x) eqn:E; [done|].
  apply set_has_false in E. apply NoDup_app. split; [done|].
  split; [|apply NoDup_singleton]. by intros y Hy ->%list_elem_of_singleton.
Qed.

Lemma set_of_fold_NoDup l s : NoDup s -> NoDup (fold_left set_add l s).
Proof. revert s. induction l; simpl; auto using set_add_NoDup. Qed.

Lemma set_of_NoDup l : NoDup (set_of l).
Proof. apply set_of_fold_NoDup. constructor. Qed.

Lemma elem_of_set_of_fold l s x : x ∈ fold_left set_add l s <-> x ∈ l \/ x ∈ s.
Proof.
  revert s. induction l as [|y l IH]; intros s; simpl.
  - rewrite elem_of_nil. naive_solver.
  - rewrite IH, elem_of_set_add, elem_of_cons. naive_solver.
Qed.

Lemma elem_of_set_of l x : x ∈ set_of l <-> x ∈ l.
Proof. unfold set_of. rewrite elem_of_set_of_fold, elem_of_nil. naive_solver. Qed.

Lemma forallb_elem {A} (p : A -> bool) l : forallb p l = true <-> forall x, x ∈ l -> p x = true.
Proof.
  rewrite forallb_forall. split; intros H x Hx; apply H; by apply list_elem_of_In.
Qed.

Lemma existsb_none {A} (p : A -> bool) l : (forall x, x ∈ l -> p x = false) -> existsb p l = false.
Proof.
  induction l as [|x l IH]; intros H; simpl; [done|]. rewrite (H x) by (by left). simpl.
  apply IH. intros y Hy. apply H. by right.
Qed.

(** Elements of a list without repeated keys are determined by their key. *)
Lemma NoDup_map_inj {A B} (f : A -> B) (l : list A) x y :
  NoDup (map f l) -> x ∈ l -> y ∈ l -> f x = f y -> x = y.
Proof.
  induction l as [|a l IH]; simpl; [by intros _ ?%elem_of_nil|].
  rewrite NoDup_cons. intros [Hn Hl] [->|Hx]%elem_of_cons [->|Hy]%elem_of_cons Hf; [done|..|auto];
    destruct Hn; [rewrite Hf|rewrite <-Hf]; by apply list_elem_of_fmap_2.
Qed.

Lemma tc_r_inv' {A} (R : relation A) x z : tc R x z -> R x z \/ exists y, tc R x y /\ R y z.
Proof.
  induction 1 as [x z H|x y z H _ [IH|(w & IH & Hw)]]; [by left|right..].
  - exists y. by split; [apply tc_once|].
  - exists w. split; [|done]. by eapply tc_l.
Qed.

Lemma tc_flip {A} (R : relation A) x y : tc (flip R) x y -> tc R y x.
Proof.
  induction 1 as [x y H|x y z H _ IH]; [by apply tc_once|]. eapply tc_r; [exact IH|exact H].
Qed.

(** In a relation without cycles whose sources are finitely many, walking back
    comes to an end. *)
Lemma acyclic_sn {A} (R : relation A) (sources : list A) x :
  (forall y z, R y z -> y ∈ sources) -> (forall y, ~ tc R y y) -> sn (flip R) x.
Proof.
  intros Hdom Hac. apply tc_finite_sn.
  - intros y Hy%tc_flip. by apply (Hac y).
  - exists sources. intros y Hy%tc_flip. destruct Hy; eauto.
Qed.

(** A path of at least one step ends with a step. *)
Lemma tc_r_inv {A} (R : relation A) x z : tc R x z -> exists y, R y z.
Proof. induction 1 as [x y H|x y z _ _ IH]; eauto. Qed.

(** ** State and exceptions

    Code that mutates a context and may throw is [ST]: a function from the
    context to either the thrown value or the result and the new context. *)

Definition ST (S E A : Type) : Type := S -> E + (A * S).

Section Monad.
Context {S E : Type}.

Definition ret {A} (a : A) : ST S E A := fun s => inr (a, s).
Definition bind {A B} (m : ST S E A) (k : A -> ST S E B) : ST S E B :=
  fun s => match m s with inl e => inl e | inr (a, s') => k a s' end.
Definition get : ST S E S := fun s => inr (s, s).
Definition modify (f : S -> S) : ST S E unit := fun s => inr (tt, f s).
Definition throw {A} (e : E) : ST S E A := fun _ => inl e.

(** [value!]: using an absent value throws. *)
Definition orThrow {A} (e : E) (o : option A) : ST S E A :=
  match o with Some a => ret a | None => throw e end.

Fixpoint forM {A} (l : list A) (f : A -> ST S E unit) : ST S E unit :=
  match l with
  | [] => ret tt
  | x :: l' => bind (f x) (fun _ => forM l' f)
  end.

Fixpoint mapM {A B} (f : A -> ST S E B) (l : list A) : ST S E (list B) :=
  match l with
  | [] => ret []
  | x :: l' => bind (f x) (fun y => bind (mapM f l') (fun ys => ret (y :: ys)))
  end.

(** Weakest precondition for total correctness: [m] does not throw and ends
    in a result and a context that satisfy [Q]. *)
Definition wp {A} (m : ST S E A) (Q : A -> S -> Prop) (s : S) : Prop :=
  match m s with inl _ => False | inr (a, s') => Q a s' end.

Lemma wp_ret {A} (a : A) Q s : Q a s -> wp (ret a) Q s.
Proof. done. Qed.

Lemma wp_bind {A B} (m : ST S E A) (k : A -> ST S E B) Q s :
  wp m (fun a s' => wp (k a) Q s') s -> wp (bind m k) Q s.
Proof. unfold wp, bind. by destruct (m s) as [|[a s']]. Qed.

Lemma wp_get Q s : Q s s -> wp get Q s.
Proof. done. Qed.

Lemma wp_modify f Q s : Q tt (f s) -> wp (modify f) Q s.
Proof. done. Qed.

Lemma wp_orThrow {A} e (o : option A) a Q s :
  o = Some a -> Q a s -> wp (orThrow e o) Q s.
Proof. by intros ->. Qed.

Lemma wp_mono {A} (m : ST S E A) (P Q : A -> S -> Prop) s :
  wp m P s -> (forall a s', P a s' -> Q a s') -> wp m Q s.
Proof. unfold wp. destruct (m s) as [|[a s']]; [done|]. eauto. Qed.

(** Loop rule: an invariant of the body is an invariant of the loop. *)
Lemma wp_forM {A} (l : list A) (f : A -> ST S E unit) (I : S -> Prop) s :
  I s ->
  (forall x s', x ∈ l -> I s' -> wp (f x) (fun _ => I) s') ->
  wp (forM l f) (fun _ => I) s.
Proof.
  revert s. induction l as [|x l IH]; intros s HI Hf; simpl; [by apply wp_ret|].
  apply wp_bind. eapply wp_mono; [apply Hf; [by left|done]|].
  intros ? s' HI'. apply IH; [done|]. intros y s'' Hy. apply Hf. by right.
Qed.

(** Loop rule with the processed prefix in the invariant. *)
Lemma wp_forM_prefix {A} (l : list A) (f : A -> ST S E unit) (I : list A -> S -> Prop) s :
  I [] s ->
  (forall done x rest s', l = done ++ x :: rest -> I done s' ->
     wp (f x) (fun _ => I (done ++ [x])) s') ->
  wp (forM l f) (fun _ => I l) s.
Proof.
  intros HI Hf.
  enough (forall rest done s', l = done ++ rest -> I done s' ->
            wp (forM rest f) (fun _ => I l) s') as H by by eapply (H l []).
  clear s HI. induction rest as [|x rest IH]; intros done s' Hl HI; simpl.
  - rewrite app_nil_r in Hl. subst. by apply wp_ret.
  - apply wp_bind. eapply wp_mono; [by eapply Hf|]. intros ? s'' HI'.
    apply (IH (done ++ [x])); [|done]. by rewrite <-app_assoc.
Qed.

Lemma wp_mapM {A B} (f : A -> ST S E B) (l : list A) (I : S -> Prop) s :
  I s ->
  (forall x s', x ∈ l -> I s' -> wp (f x) (fun _ => I) s') ->
  wp (mapM f l) (fun _ => I) s.
Proof.
  revert s. induction l as [|x l IH]; intros s HI Hf; simpl; [by apply wp_ret|].
  apply wp_bind. eapply wp_mono; [apply Hf; [by left|done]|].
  intros b s' HI'. apply wp_bind. eapply wp_mono.
  - apply IH; [done|]. intros y s'' Hy. apply Hf. by right.
  - intros bs s'' HI''. by apply wp_ret.
Qed.

(** [wp] and the equation about the run say the same. *)
Lemma wp_elim {A} (m : ST S E A) Q s :
  wp m Q s -> exists a s', m s = inr (a, s') /\ Q a s'.
Proof. unfold wp. destruct (m s) as [|[a s']]; [done|]. eauto. Qed.

Lemma wp_intro {A} (m : ST S E A) (Q : A -> S -> Prop) s a s' :
  m s = inr (a, s') -> Q a s' -> wp m Q s.
Proof. unfold wp. by intros ->. Qed.

(** [wpe m Q E s]: run from [s], [m] returns a value and a state in [Q] or
    throws an error in [E]. *)
Definition wpe {A} (m : ST S E A) (Q : A -> S -> Prop) (R : E -> Prop) (s : S) : Prop :=
  match m s with inl e => R e | inr (a, s') => Q a s' end.

Lemma wpe_ret {A} (a : A) Q R s : Q a s -> wpe (ret a) Q R s.
Proof. done. Qed.

Lemma wpe_throw {A} e (Q : A -> S -> Prop) (R : E -> Prop) s : R e -> wpe (throw e) Q R s.
Proof. done. Qed.

Lemma wpe_get Q R s : Q s s -> wpe get Q R s.
Proof. done. Qed.

Lemma wpe_modify f Q R s : Q tt (f s) -> wpe (modify f) Q R s.
Proof. done. Qed.

Lemma wpe_bind {A B} (m : ST S E A) (k : A -> ST S E B) Q R s :
  wpe m (fun a s' => wpe (k a) Q R s') R s -> wpe (bind m k) Q R s.
Proof. unfold wpe, bind. by destruct (m s) as [e|[a s']]. Qed.

Lemma wpe_mono {A} (m : ST S E A) (Q Q' : A -> S -> Prop) R s :
  wpe m Q R s -> (forall a s', Q a s' -> Q' a s') -> wpe m Q' R s.
Proof. unfold wpe. destruct (m s) as [e|[a s']]; auto. Qed.
End Monad.

Declare Scope st_scope.
Delimit Scope st_scope with st.
Notation "'let*' x ':=' m 'in' k" := (bind m (fun x => k))
  (at level 10, x pattern, m at level 100, k at level 200) : st_scope.
Notation "m ';;;' k" := (bind m (fun _ => k))
  (at level 199, right associativity) : st_scope.

(** One step of symbolic execution under [wp]. *)
Ltac wp_step :=
  lazymatch goal with
  | |- wp (bind _ _) _ _ => apply wp_bind
  | |- wp get _ _ => apply wp_get
  | |- wp (modify _) _ _ => apply wp_modify
  | |- wp (ret _) _ _ => apply wp_ret
  | |- wp (orThrow _ _) _ _ => eapply wp_orThrow; [eassumption|]
  end.

Ltac wp_steps := cbv beta zeta; repeat (wp_step; cbv beta zeta).

(** Case analysis on the scrutinee of an [if] or [match] under [wp]. *)
Ltac wp_case H :=
  match goal with
  | |- wp (if ?b then _ else _) _ _ => destruct b eqn:H
  | |- wp (match ?x with _ => _ end) _ _ => destruct x eqn:H
  end.

Create HintDb heniek.
#[export] Hint Resolve str_ltb_irrefl str_eqb_refl map_get_set_eq : heniek.
Create Rewrite HintDb heniek.
#[export] Hint Rewrite @map_get_set_eq @elem_of_sort_strings @elem_of_sort_by : heniek.
