(* ===== verification/Transitions.v ===== *)
(** * The fixed stage state machine

    Vocabulary of [packages/contracts/src/pipeline/state.ts] and
    [vocabulary.ts], the vocabulary kernel [contracts/src/kernel/state.ts], and
    the transition table of [packages/pipeline/src/scheduler/transitions.ts]. *)

From S2P Require Import Prelude.

(** ** Stage states ([contracts/src/pipeline/state.ts]) *)

Inductive PipelineStageState :=
| pending | ready | queued | running | waiting | retrying
| succeeded | failed | cancelled | blocked.

#[export] Instance PipelineStageState_eq_dec : EqDecision PipelineStageState.
Proof. solve_decision. Defined.

Definition stage_state_text (s : PipelineStageState) : string :=
  match s with
  | pending => "pending" | ready => "ready" | queued => "queued" | running => "running"
  | waiting => "waiting" | retrying => "retrying" | succeeded => "succeeded"
  | failed => "failed" | cancelled => "cancelled" | blocked => "blocked"
  end.

Definition state_eqb (s t : PipelineStageState) : bool := bool_decide (s = t).

(** ** [defineStates] ([contracts/src/kernel/state.ts])

    A vocabulary keeps its values, non-terminal ones first, and its terminal
    set; a repeated value throws. *)

Record StateVocabulary := {
  voc_values : list string;
  voc_terminal : list string;
  voc_nonTerminal : list string
}.

Fixpoint firstDuplicate (seen values : list string) : option string :=
  match values with
  | [] => None
  | value :: rest =>
      if set_has seen value then Some value else firstDuplicate (set_add seen value) rest
  end.

Definition defineStates (terminal nonTerminal : list string) : string + StateVocabulary :=
  let values := nonTerminal ++ terminal in
  match firstDuplicate [] values with
  | Some value => inl (String.append "Duplicate state value: " value)
  | None =>
      inr {| voc_values := values; voc_terminal := set_of terminal;
             voc_nonTerminal := set_of nonTerminal |}
  end.

Definition isTerminalValue (v : StateVocabulary) (value : string) : bool :=
  set_has (voc_terminal v) value.

Definition nonTerminalStates : list PipelineStageState :=
  [pending; ready; queued; running; waiting; retrying].
Definition terminalStates : list PipelineStageState :=
  [succeeded; failed; cancelled; blocked].
(** [PipelineStageState.values]: the non-terminal values, then the terminal ones. *)
Definition stageStateValues : list PipelineStageState := nonTerminalStates ++ terminalStates.

(** [isTerminalStageState]. *)
Definition isTerminalStageState (s : PipelineStageState) : bool :=
  bool_decide (s ∈ terminalStates).

(** ** Transition reasons and decision actions ([vocabulary.ts]) *)

Inductive PipelineTransitionReason :=
| dependencies_satisfied | root_eligible | dispatch_intent | attempt_started
| attempt_waiting | attempt_succeeded | attempt_failed | retry_scheduled
| retry_exhausted | condition_not_selected | condition_blocked
| dependency_unsatisfied | cancel_requested | cancellation_settled
| deadline_exceeded | manual_rerun | pipeline_cancelled.

#[export] Instance PipelineTransitionReason_eq_dec : EqDecision PipelineTransitionReason.
Proof. solve_decision. Defined.

(** [SchedulerTransitionReason]: the V1 reasons and the recovery tokens V2 adds. *)
Inductive SchedulerTransitionReason :=
| base_reason (r : PipelineTransitionReason)
| recovery_proposed_reason | recovery_approved_reason | recovery_rejected_reason
| repair_exhausted_reason | unchanged_failure_exhausted_reason.

#[export] Instance SchedulerTransitionReason_eq_dec : EqDecision SchedulerTransitionReason.
Proof. solve_decision. Defined.

Inductive SchedulerDecisionAction :=
| act_release | act_queue | act_start | act_wait | act_succeed | act_fail | act_retry
| act_rearm | act_cancel | act_block | act_select_edge | act_reject_edge
| act_request_evaluator | act_request_cancel | act_rerun | act_terminal
| act_propose_recovery | act_approve_recovery | act_reject_recovery | act_dispatch_recovery.

#[export] Instance SchedulerDecisionAction_eq_dec : EqDecision SchedulerDecisionAction.
Proof. solve_decision. Defined.

Definition action_text (a : SchedulerDecisionAction) : string :=
  match a with
  | act_release => "release" | act_queue => "queue" | act_start => "start"
  | act_wait => "wait" | act_succeed => "succeed" | act_fail => "fail"
  | act_retry => "retry" | act_rearm => "rearm" | act_cancel => "cancel"
  | act_block => "block" | act_select_edge => "select_edge"
  | act_reject_edge => "reject_edge" | act_request_evaluator => "request_evaluator"
  | act_request_cancel => "request_cancel" | act_rerun => "rerun"
  | act_terminal => "terminal" | act_propose_recovery => "propose_recovery"
  | act_approve_recovery => "approve_recovery" | act_reject_recovery => "reject_recovery"
  | act_dispatch_recovery => "dispatch_recovery"
  end.

(** ** The permitted transitions ([transitions.ts]) *)

Record PermittedTransition := {
  pt_from : PipelineStageState;
  pt_to : PipelineStageState;
  pt_reasons : list PipelineTransitionReason
}.

Definition mkPT (f t : PipelineStageState) (rs : list PipelineTransitionReason) :=
  {| pt_from := f; pt_to := t; pt_reasons := rs |}.

Definition PERMITTED_TRANSITIONS : list PermittedTransition :=
  [ mkPT pending ready [dependencies_satisfied; root_eligible];
    mkPT pending cancelled
      [condition_not_selected; cancel_requested; pipeline_cancelled; deadline_exceeded];
    mkPT pending blocked [condition_blocked; dependency_unsatisfied];
    mkPT ready queued [dispatch_intent];
    mkPT ready cancelled
      [cancel_requested; pipeline_cancelled; deadline_exceeded; condition_not_selected];
    mkPT ready blocked [condition_blocked; dependency_unsatisfied; deadline_exceeded];
    mkPT queued running [attempt_started];
    mkPT queued cancelled [cancellation_settled];
    mkPT running waiting [attempt_waiting];
    mkPT running succeeded [attempt_succeeded];
    mkPT running failed [attempt_failed; retry_exhausted];
    mkPT running retrying [retry_scheduled];
    mkPT running cancelled [cancellation_settled];
    mkPT running blocked [condition_blocked];
    mkPT waiting running [attempt_started];
    mkPT waiting succeeded [attempt_succeeded];
    mkPT waiting failed [attempt_failed; retry_exhausted];
    mkPT waiting retrying [retry_scheduled];
    mkPT waiting cancelled [cancellation_settled];
    mkPT waiting blocked [condition_blocked];
    mkPT waiting waiting [attempt_waiting];
    mkPT retrying ready [retry_scheduled];
    mkPT retrying failed [retry_exhausted];
    mkPT retrying cancelled [cancel_requested; pipeline_cancelled; deadline_exceeded];
    mkPT succeeded pending [manual_rerun];
    mkPT failed pending [manual_rerun];
    mkPT cancelled pending [manual_rerun];
    mkPT blocked pending [manual_rerun] ].

(** The map key [`${from}->${to}`]. *)
Definition transitionKey (from to : PipelineStageState) : string :=
  stage_state_text from +:+ "->" +:+ stage_state_text to.

(** A set of reasons in insertion order. *)
Definition reason_add (s : list PipelineTransitionReason) (r : PipelineTransitionReason) :=
  if bool_decide (r ∈ s) then s else s ++ [r].

(** [REASON_INDEX]: the table folded into a map from key to reason set. *)
Definition REASON_INDEX : list (string * list PipelineTransitionReason) :=
  fold_left
    (fun map entry =>
       let key := transitionKey (pt_from entry) (pt_to entry) in
       let reasons := default [] (map_get map key) in
       map_set map key (fold_left reason_add (pt_reasons entry) reasons))
    PERMITTED_TRANSITIONS [].

Definition isPermittedTransition (from to : PipelineStageState)
    (reason : PipelineTransitionReason) : bool :=
  match map_get REASON_INDEX (transitionKey from to) with
  | None => false
  | Some reasons => bool_decide (reason ∈ reasons)
  end.

(** [transitionAdjacency]: from each state, the sorted texts of its targets. *)
Definition transitionAdjacency : list (string * list string) :=
  let empty := map (fun s => (stage_state_text s, [])) stageStateValues in
  let filled :=
    fold_left
      (fun map entry =>
         let key := stage_state_text (pt_from entry) in
         map_set map key
           (set_add (default [] (map_get map key)) (stage_state_text (pt_to entry))))
      PERMITTED_TRANSITIONS (map_of empty) in
  map (fun s => (stage_state_text s,
                 sort_strings (default [] (map_get filled (stage_state_text s)))))
    stageStateValues.

(** ** Facts the scheduler uses *)

Lemma state_eqb_true s t : state_eqb s t = true <-> s = t.
Proof. apply bool_decide_eq_true. Qed.

Lemma state_eqb_false s t : state_eqb s t = false <-> s <> t.
Proof. apply bool_decide_eq_false. Qed.

Lemma stage_state_text_inj s t : stage_state_text s = stage_state_text t -> s = t.
Proof. by destruct s, t. Qed.

Lemma action_text_inj a b : action_text a = action_text b -> a = b.
Proof. by destruct a, b. Qed.

(** Every reason, to check a statement about the table by computation. *)
Definition all_reasons : list PipelineTransitionReason :=
  [ dependencies_satisfied; root_eligible; dispatch_intent; attempt_started;
    attempt_waiting; attempt_succeeded; attempt_failed; retry_scheduled;
    retry_exhausted; condition_not_selected; condition_blocked;
    dependency_unsatisfied; cancel_requested; cancellation_settled;
    deadline_exceeded; manual_rerun; pipeline_cancelled ].

Lemma all_states_complete s : s ∈ stageStateValues.
Proof. destruct s; by apply (bool_decide_unpack _). Qed.

Lemma all_reasons_complete r : r ∈ all_reasons.
Proof. destruct r; by apply (bool_decide_unpack _). Qed.

(** A boolean statement about every (from, to, reason) holds when the finite
    check evaluates to [true]. *)
Lemma transition_table_check (P : PipelineStageState -> PipelineStageState ->
    PipelineTransitionReason -> bool) :
  forallb (fun f => forallb (fun t => forallb (P f t) all_reasons) stageStateValues)
    stageStateValues = true ->
  forall f t r, P f t r = true.
Proof.
  intros H f t r. rewrite forallb_forall in H.
  specialize (H f (proj1 (list_elem_of_In _ _) (all_states_complete f))).
  rewrite forallb_forall in H.
  specialize (H t (proj1 (list_elem_of_In _ _) (all_states_complete t))).
  rewrite forallb_forall in H.
  exact (H r (proj1 (list_elem_of_In _ _) (all_reasons_complete r))).
Qed.

(** The index says exactly what the table lists. *)
Lemma isPermittedTransition_existsb from to reason :
  isPermittedTransition from to reason =
  existsb (fun e => state_eqb (pt_from e) from && state_eqb (pt_to e) to &&
    bool_decide (reason ∈ pt_reasons e)) PERMITTED_TRANSITIONS.
Proof.
  apply eqb_prop. revert from to reason. apply transition_table_check.
  vm_compute. reflexivity.
Qed.

Lemma isPermittedTransition_table from to reason :
  isPermittedTransition from to reason = true <->
  exists entry, entry ∈ PERMITTED_TRANSITIONS /\ pt_from entry = from /\ pt_to entry = to /\
    reason ∈ pt_reasons entry.
Proof.
  rewrite isPermittedTransition_existsb, existsb_exists.
  split; intros (e & Hin & Hb); exists e.
  - apply andb_prop in Hb as [[H1 H2]%andb_prop H3%bool_decide_eq_true].
    apply state_eqb_true in H1, H2. split; [by apply list_elem_of_In|done].
  - destruct Hb as (H1 & H2 & H3). split; [by apply list_elem_of_In|].
    apply andb_true_intro. split; [apply andb_true_intro; split; by apply state_eqb_true|].
    by apply bool_decide_eq_true.
Qed.

(** Only a manual rerun leaves a terminal state, and it leads to [pending]. *)
Lemma permitted_from_terminal from to reason :
  isPermittedTransition from to reason = true ->
  isTerminalStageState from = true -> to = pending /\ reason = manual_rerun.
Proof.
  intros H1 H2.
  assert (implb (isPermittedTransition from to reason && isTerminalStageState from)
    (bool_decide (to = pending /\ reason = manual_rerun)) = true) as H.
  { revert from to reason H1 H2. intros f t r _ _. revert f t r.
    apply transition_table_check. vm_compute. reflexivity. }
  rewrite H1, H2 in H. by apply bool_decide_eq_true in H.
Qed.

(** A transition into [pending] is a manual rerun of a terminal stage. *)
Lemma permitted_to_pending from to reason :
  isPermittedTransition from to reason = true -> to = pending ->
  isTerminalStageState from = true /\ reason = manual_rerun.
Proof.
  intros H1 ->.
  assert (implb (isPermittedTransition from pending reason)
    (bool_decide (isTerminalStageState from = true /\ reason = manual_rerun)) = true) as H.
  { enough (forall f t r, implb (isPermittedTransition f t r && state_eqb t pending)
      (bool_decide (isTerminalStageState f = true /\ r = manual_rerun)) = true) as Hx.
    { specialize (Hx from pending reason). by rewrite andb_true_r in Hx. }
    apply transition_table_check. vm_compute. reflexivity. }
  rewrite H1 in H. by apply bool_decide_eq_true in H.
Qed.

(** [s] may become [t] for some reason. *)
Definition may_become (s t : PipelineStageState) : Prop :=
  exists reason, isPermittedTransition s t reason = true.

(** One permitted move in front of a path. *)
Lemma via reason t s u :
  isPermittedTransition s t reason = true -> rtc may_become t u -> rtc may_become s u.
Proof. intros H. apply rtc_l. by exists reason. Qed.

Ltac via reason t := apply (via reason t); [vm_compute; reflexivity|].

Lemma reach_running : rtc may_become pending running.
Proof. via root_eligible ready. via dispatch_intent queued. by via attempt_started running. Qed.

(** What [transitionAdjacency] lists for a state. *)
Definition adjacent (s : PipelineStageState) : list string :=
  default [] (map_get transitionAdjacency (stage_state_text s)).

Lemma adjacent_may_become s t : stage_state_text t ∈ adjacent s <-> may_become s t.
Proof.
  assert (forall f u, set_has (adjacent f) (stage_state_text u) =
    existsb (isPermittedTransition f u) all_reasons) as H.
  { intros f u. apply eqb_prop. revert f u.
    enough (forall f u (r : PipelineTransitionReason),
      Bool.eqb (set_has (adjacent f) (stage_state_text u))
        (existsb (isPermittedTransition f u) all_reasons) = true) as Hx.
    { intros f u. exact (Hx f u manual_rerun). }
    apply transition_table_check. vm_compute. reflexivity. }
  rewrite <-set_has_true, H, existsb_exists. split.
  - intros (r & _ & Hr). by exists r.
  - intros [r Hr]. exists r. split; [|done]. apply list_elem_of_In, all_reasons_complete.
Qed.

(** The stage lifecycle: a transition is permitted exactly when the table lists it;
    the adjacency served to callers lists exactly the permitted moves; the only
    way out of a terminal state is a manual rerun, back to pending; every state
    can occur, and from every state a terminal one can be reached. *)
Theorem stage_lifecycle :
  (forall from to reason, isPermittedTransition from to reason = true <->
     exists entry, entry ∈ PERMITTED_TRANSITIONS /\ pt_from entry = from /\
       pt_to entry = to /\ reason ∈ pt_reasons entry) /\
  (forall s t, stage_state_text t ∈ adjacent s <-> may_become s t) /\
  (forall s t reason, isTerminalStageState s = true ->
     isPermittedTransition s t reason = true <-> t = pending /\ reason = manual_rerun) /\
  (forall s, rtc may_become pending s) /\
  (forall s, exists t, isTerminalStageState t = true /\ rtc may_become s t).
Proof.
  split_and!.
  - apply isPermittedTransition_table.
  - apply adjacent_may_become.
  - intros s t reason Hs. split; [intros H; by eapply permitted_from_terminal|].
    intros [-> ->]. destruct s; try discriminate Hs; vm_compute; reflexivity.
  - intros []; try done; try apply reach_running.
    + by via root_eligible ready.
    + via root_eligible ready. by via dispatch_intent queued.
    + etransitivity; [apply reach_running|]. by via attempt_waiting waiting.
    + etransitivity; [apply reach_running|]. by via retry_scheduled retrying.
    + etransitivity; [apply reach_running|]. by via attempt_succeeded succeeded.
    + etransitivity; [apply reach_running|]. by via attempt_failed failed.
    + by via pipeline_cancelled cancelled.
    + by via condition_blocked blocked.
  - intros s. exists (if isTerminalStageState s then s else cancelled).
    destruct s; (split; [reflexivity|]); try done;
      first [by via pipeline_cancelled cancelled | by via cancellation_settled cancelled].
Qed.

#[global] Opaque REASON_INDEX.
