(* ===== verification/Ids.v ===== *)
(** * Derived identities

    [packages/pipeline/src/scheduler/ids.ts]: attempt, decision and intent ids
    are texts computed from their coordinates, so that a repeated tick collides
    with the rows of the first one instead of minting a second side effect. *)

From Stdlib Require Import Ascii.
From S2P Require Import Prelude Transitions.

(** The intent kinds of the outbox. *)
Inductive IntentKind := ik_dispatch | ik_cancel | ik_evaluator | ik_recovery_dispatch.

#[export] Instance IntentKind_eq_dec : EqDecision IntentKind.
Proof. solve_decision. Defined.

Definition intent_kind_text (k : IntentKind) : string :=
  match k with
  | ik_dispatch => "dispatch" | ik_cancel => "cancel" | ik_evaluator => "evaluator"
  | ik_recovery_dispatch => "recovery_dispatch"
  end.

Definition edgeKey (fromStageId toStageId : string) : string :=
  fromStageId +:+ "->" +:+ toStageId.

Definition deriveAttemptId (runId : string) (graphRevision : Z) (stageId : string)
    (generation attemptOrdinal : Z) : string :=
  "pa:" +:+ runId +:+ ":" +:+ num_text graphRevision +:+ ":" +:+ stageId +:+ ":" +:+
  num_text generation +:+ ":" +:+ num_text attemptOrdinal.

Definition deriveDecisionId (runId : string) (graphRevision : Z) (stageId : string)
    (generation attemptOrdinal : Z) (action : string) : string :=
  "pd:" +:+ runId +:+ ":" +:+ num_text graphRevision +:+ ":" +:+ stageId +:+ ":" +:+
  num_text generation +:+ ":" +:+ num_text attemptOrdinal +:+ ":" +:+ action.

Definition deriveIntentId (runId : string) (graphRevision : Z) (kind : IntentKind)
    (key : string) : string :=
  "pi:" +:+ runId +:+ ":" +:+ num_text graphRevision +:+ ":" +:+ intent_kind_text kind +:+
  ":" +:+ key.

Definition deriveRecoveryDecisionId (runId : string) (graphRevision : Z) (stageId : string)
    (generation attemptOrdinal : Z) (action : string) : string :=
  "prd:" +:+ runId +:+ ":" +:+ num_text graphRevision +:+ ":" +:+ stageId +:+ ":" +:+
  num_text generation +:+ ":" +:+ num_text attemptOrdinal +:+ ":" +:+ action.

(** The key of a dispatch or cancel intent, [`${stageId}:${generation}:${attemptOrdinal}`]. *)
Definition attemptKey (stageId : string) (generation attemptOrdinal : Z) : string :=
  stageId +:+ ":" +:+ num_text generation +:+ ":" +:+ num_text attemptOrdinal.

(** ** Fields separated by colons *)

Fixpoint str_has (c : ascii) (s : string) : bool :=
  match s with
  | EmptyString => false
  | String d s' => bool_decide (c = d) || str_has c s'
  end.

Definition colon : ascii := ":"%char.

Lemma str_app_cons c s t : String c s +:+ t = String c (s +:+ t).
Proof. done. Qed.

Lemma str_app_nil s : "" +:+ s = s.
Proof. done. Qed.

Lemma str_has_app c s t : str_has c (s +:+ t) = str_has c s || str_has c t.
Proof. induction s as [|d s IH]; [done|]. rewrite str_app_cons. simpl. by rewrite IH, orb_assoc. Qed.

Lemma str_app_inv_head s t u : s +:+ t = s +:+ u -> t = u.
Proof. apply (inj (String.append s)). Qed.

Lemma str_length_app s t : String.length (s +:+ t) = (String.length s + String.length t)%nat.
Proof. induction s as [|c s IH]; [done|]. rewrite str_app_cons. simpl. by rewrite IH. Qed.

Lemma str_app_assoc s t u : (s +:+ t) +:+ u = s +:+ t +:+ u.
Proof. induction s as [|c s IH]; [done|]. rewrite !str_app_cons. by f_equal. Qed.

(** What follows the last separator of a text is determined by the text. *)
Lemma last_separated_inj sep s t a b :
  str_has sep a = false -> str_has sep b = false ->
  s +:+ String sep a = t +:+ String sep b -> s = t /\ a = b.
Proof.
  assert (forall u v, str_has sep (u +:+ String sep v) = true) as Hsep.
  { intros u v. rewrite str_has_app. simpl. rewrite bool_decide_true by done. by rewrite orb_true_r. }
  intros Ha Hb. revert t. induction s as [|c s IH]; intros [|d t];
    rewrite ?str_app_cons, ?str_app_nil, ?str_app_cons.
  - by intros [= ->].
  - intros [= <- E]. by rewrite E, Hsep in Ha.
  - intros [= -> E]. by rewrite <-E, Hsep in Hb.
  - intros [= -> E]. apply IH in E as [-> ->]. done.
Qed.

(** The last field of a text is determined by the text. *)
Lemma last_field_inj s t a b :
  str_has colon a = false -> str_has colon b = false ->
  s +:+ ":" +:+ a = t +:+ ":" +:+ b -> s = t /\ a = b.
Proof. apply last_separated_inj. Qed.

(** The first field of a text is determined by the text. *)
Lemma first_field_inj a b s t :
  str_has colon a = false -> str_has colon b = false ->
  a +:+ ":" +:+ s = b +:+ ":" +:+ t -> a = b /\ s = t.
Proof.
  revert b. induction a as [|c a IH]; intros [|d b]; intros Ha Hb;
    rewrite ?str_app_cons, ?str_app_nil, ?str_app_cons; simpl in Ha, Hb.
  - by intros [= ->].
  - intros [= <- E]. simpl in Hb. done.
  - intros [= -> E]. simpl in Ha. done.
  - apply orb_false_elim in Ha as [_ Ha]. apply orb_false_elim in Hb as [_ Hb].
    intros [= -> E]. apply IH in E as [-> ->]; done.
Qed.

Lemma pretty_N_char_no_colon x : bool_decide (colon = pretty_N_char x) = false.
Proof.
  unfold pretty_N_char. by repeat case_match.
Qed.

Lemma pretty_N_go_no_colon x s :
  str_has colon s = false -> str_has colon (pretty_N_go x s) = false.
Proof.
  revert s. induction (N.lt_wf_0 x) as [x _ IH]. intros s Hs.
  assert (x = 0 \/ 0 < x)%N as [->|Hx] by lia; [by rewrite pretty_N_go_0|].
  rewrite pretty_N_go_step by done. apply IH.
  - by apply N.div_lt.
  - cbn [str_has]. by rewrite pretty_N_char_no_colon.
Qed.

Lemma num_text_no_colon n : str_has colon (num_text n) = false.
Proof.
  unfold num_text, pretty, pretty_Z. destruct n as [|p|p]; [done| |].
  - apply pretty_N_go_no_colon. done.
  - rewrite str_has_app. apply orb_false_intro; [done|]. by apply pretty_N_go_no_colon.
Qed.

Lemma action_text_no_colon a : str_has colon (action_text a) = false.
Proof. by destruct a. Qed.

Lemma intent_kind_no_colon k : str_has colon (intent_kind_text k) = false.
Proof. by destruct k. Qed.

Lemma intent_kind_text_inj k l : intent_kind_text k = intent_kind_text l -> k = l.
Proof. by destruct k, l. Qed.

#[export] Hint Resolve num_text_no_colon action_text_no_colon intent_kind_no_colon : heniek.

(** Two fields from the right: a stage id may contain any character. *)
Lemma attemptKey_inj s t g1 g2 o1 o2 :
  attemptKey s g1 o1 = attemptKey t g2 o2 -> s = t /\ g1 = g2 /\ o1 = o2.
Proof.
  unfold attemptKey. intros H.
  rewrite <-(str_app_assoc ":"), <-(str_app_assoc ":"), <-!(str_app_assoc s),
    <-!(str_app_assoc t) in H.
  apply last_field_inj in H as [H H3]; [|auto with heniek..].
  rewrite !str_app_assoc in H.
  apply last_field_inj in H as [H H2]; [|auto with heniek..].
  split; [done|]. split; by apply num_text_inj.
Qed.

(** Run and revision are the leading fields. *)
Lemma run_prefix_inj r1 r2 v1 v2 s t :
  str_has colon r1 = false -> str_has colon r2 = false ->
  r1 +:+ ":" +:+ num_text v1 +:+ ":" +:+ s = r2 +:+ ":" +:+ num_text v2 +:+ ":" +:+ t ->
  r1 = r2 /\ v1 = v2 /\ s = t.
Proof.
  intros H1 H2 H.
  apply first_field_inj in H as [-> H]; [|done..].
  apply first_field_inj in H as [Hv ->]; [|auto with heniek..].
  apply num_text_inj in Hv. done.
Qed.

(** For a fixed run and revision, an intent id determines kind and key. *)
Lemma deriveIntentId_inj run rev k1 k2 key1 key2 :
  deriveIntentId run rev k1 key1 = deriveIntentId run rev k2 key2 -> k1 = k2 /\ key1 = key2.
Proof.
  unfold deriveIntentId. intros H. do 5 apply str_app_inv_head in H.
  apply first_field_inj in H as [Hk ->]; [|auto with heniek..].
  by apply intent_kind_text_inj in Hk.
Qed.

(** An attempt id is the attempt key behind a fixed prefix. *)
Lemma deriveAttemptId_key run rev s g o :
  deriveAttemptId run rev s g o = "pa:" +:+ run +:+ ":" +:+ num_text rev +:+ ":" +:+ attemptKey s g o.
Proof. done. Qed.

(** For a fixed run and revision, an attempt id determines its coordinates. *)
Lemma deriveAttemptId_coordinates run rev s t g1 g2 o1 o2 :
  deriveAttemptId run rev s g1 o1 = deriveAttemptId run rev t g2 o2 ->
  s = t /\ g1 = g2 /\ o1 = o2.
Proof.
  rewrite !deriveAttemptId_key. intros H. do 5 apply str_app_inv_head in H.
  by apply attemptKey_inj.
Qed.
