(* ===== verification/Json.v ===== *)
(** * JSON values and numbers

    The [JsonValue] of [packages/pipeline/src/expression/evaluate.ts], with the
    number type of JavaScript: IEEE 754 binary64 as [spec_float] at precision
    53 and exponent bound 1024. *)

From Stdlib Require Import Ascii SpecFloat.
From S2P Require Import Prelude.

(** ** Numbers *)

Definition number := spec_float.

#[export] Instance number_eq_dec : EqDecision number.
Proof. unfold number. solve_decision. Defined.

(** An integer as a double, rounded to nearest even. *)
Definition num_of_Z (z : Z) : number := binary_normalize 53 1024 z 0 false.

(** [Number.isFinite]. *)
Definition num_isFinite (x : number) : bool :=
  match x with S754_zero _ | S754_finite _ _ _ => true | _ => false end.

Definition num_lt (x y : number) : bool := SFltb x y.
Definition num_le (x y : number) : bool := SFleb x y.

(** [Object.is] on numbers: [NaN] is itself, [+0] is not [-0]. *)
Definition num_same (x y : number) : bool := bool_decide (x = y).

(** The quotient [n / 10^k] of decimal text, correctly rounded: [SFdiv] rounds
    the exact quotient of two integers once. *)
Definition num_of_decimal (negative : bool) (digits : N) (scale : N) : number :=
  match digits with
  | N0 => S754_zero negative
  | Npos n =>
      match (10 ^ scale)%N with
      | N0 => S754_nan
      | Npos d => SFdiv 53 1024 (S754_finite negative n 0) (S754_finite false d 0)
      end
  end.

Definition digit_value (c : ascii) : N := (N_of_ascii c - 48)%N.

(** Digits after an accumulator; [seen_dot] counts the fraction digits. *)
Fixpoint decimal_go (acc scale : N) (seen_dot : bool) (s : string) : N * N :=
  match s with
  | EmptyString => (acc, scale)
  | String c rest =>
      if bool_decide (c = "."%char) then decimal_go acc scale true rest
      else decimal_go (acc * 10 + digit_value c)%N (if seen_dot then scale + 1 else scale)%N
             seen_dot rest
  end.

(** [Number(text)] for the number texts the lexer produces,
    [-?digits(.digits)?]. *)
Definition numberOfText (text : string) : number :=
  match text with
  | String c rest =>
      if bool_decide (c = "-"%char)
      then let '(n, k) := decimal_go 0 0 false rest in num_of_decimal true n k
      else let '(n, k) := decimal_go 0 0 false text in num_of_decimal false n k
  | EmptyString => S754_zero false
  end.

(** ** Values *)

Inductive JsonScalar :=
| SString (s : string)
| SNumber (n : number)
| SBoolean (b : bool)
| SNull.

#[export] Instance JsonScalar_eq_dec : EqDecision JsonScalar.
Proof. solve_decision. Defined.

Inductive JsonValue :=
| JScalar (s : JsonScalar)
| JArray (elements : list JsonValue)
| JObject (fields : list (string * JsonValue)).

(** [typeof] on a scalar; [typeof null] is ["object"]. *)
Definition typeof_scalar (s : JsonScalar) : string :=
  match s with
  | SString _ => "string" | SNumber _ => "number" | SBoolean _ => "boolean"
  | SNull => "object"
  end.

(** [Object.is] on scalars. *)
Definition scalar_is (x y : JsonScalar) : bool := bool_decide (x = y).

Lemma scalar_is_true x y : scalar_is x y = true <-> x = y.
Proof. apply bool_decide_eq_true. Qed.
