(* ===== verification/Evaluate.v ===== *)
(** * Evaluation of compiled conditions

    [packages/pipeline/src/expression/evaluate.ts]: a condition is a flat,
    index-addressed node array evaluated against canonical JSON state; every
    missing or incompatible path is a typed failure. *)

From Stdlib Require Import SpecFloat.
From S2P Require Import Prelude Json.

Inductive PipelineComparisonOperator := op_eq | op_ne | op_lt | op_lte | op_gt | op_gte.
Inductive PipelineLogicalOperator := op_and | op_or.

Definition logical_text (o : PipelineLogicalOperator) : string :=
  match o with op_and => "and" | op_or => "or" end.

(** One node of the array; [operand], [left] and [right] are indices. *)
Inductive ExpressionNode :=
| NLiteral (value : JsonScalar)
| NPath (path : list string)
| NNot (operand : Z)
| NCompare (operator : PipelineComparisonOperator) (left right : Z)
| NLogical (operator : PipelineLogicalOperator) (left right : Z).

Record ExpressionCondition := { cond_nodes : list ExpressionNode; cond_root : Z }.

Inductive EvaluationCode := missing_path | incompatible_type | invalid_expression.

Definition evaluation_code_text (c : EvaluationCode) : string :=
  match c with
  | missing_path => "missing_path" | incompatible_type => "incompatible_type"
  | invalid_expression => "invalid_expression"
  end.

(** A result or a typed failure. *)
Inductive Evaluated (A : Type) :=
| EvalOk (value : A)
| EvalFail (code : EvaluationCode) (message : string) (path : option (list string)).
Arguments EvalOk {A} _.
Arguments EvalFail {A} _ _ _.

Definition ExpressionEvaluation := Evaluated bool.

Definition describeType (value : JsonValue) : string :=
  match value with
  | JScalar SNull => "null"
  | JArray _ => "array"
  | JObject _ => "object"
  | JScalar s => typeof_scalar s
  end.

(** [readPath]: the walk keeps the segments read so far for the failure. *)
Fixpoint readPath_go (current : JsonValue) (read path : list string)
    : JsonValue + list string :=
  match path with
  | [] => inl current
  | segment :: rest =>
      let read' := read ++ [segment] in
      match current with
      | JArray elements =>
          if str_eqb segment "length"
          then readPath_go (JScalar (SNumber (num_of_Z (Z.of_nat (length elements)))))
                 read' rest
          else inr read'
      | JObject fields =>
          match map_get fields segment with
          | Some next => readPath_go next read' rest
          | None => inr read'
          end
      | JScalar _ => inr read'
      end
  end.

Definition readPath (state : JsonValue) (path : list string) : JsonValue + list string :=
  readPath_go state [] path.

Definition asComparable (value : JsonValue) : option JsonScalar :=
  match value with JScalar s => Some s | _ => None end.

Definition compareValues (operator : PipelineComparisonOperator) (left right : JsonScalar)
    : bool + string :=
  match operator with
  | op_eq => inl (scalar_is left right)
  | op_ne => inl (negb (scalar_is left right))
  | _ =>
      match left, right with
      | SNumber l, SNumber r =>
          if num_isFinite l && num_isFinite r then
            inl (match operator with
                 | op_lt => num_lt l r
                 | op_lte => num_le l r
                 | op_gt => num_lt r l
                 | _ => num_le r l
                 end)
          else inr ("ordered comparison requires finite numbers, got " +:+
                    typeof_scalar left +:+ " and " +:+ typeof_scalar right)
      | _, _ => inr ("ordered comparison requires finite numbers, got " +:+
                    typeof_scalar left +:+ " and " +:+ typeof_scalar right)
      end
  end.

(** What one node does with the results of its operands.  [recurse] is the
    evaluation of an operand index; [None] means it does not come back. *)
Definition evaluateStep (state : JsonValue) (recurse : Z -> option (Evaluated JsonValue))
    (node : ExpressionNode) : option (Evaluated JsonValue) :=
  match node with
  | NLiteral value => Some (EvalOk (JScalar value))
  | NPath path =>
      match readPath state path with
      | inl value => Some (EvalOk value)
      | inr read =>
          Some (EvalFail missing_path ("missing state path " +:+ js_join "." read) (Some read))
      end
  | NNot operand =>
      match recurse operand with
      | None => None
      | Some (EvalFail c m p) => Some (EvalFail c m p)
      | Some (EvalOk (JScalar (SBoolean b))) => Some (EvalOk (JScalar (SBoolean (negb b))))
      | Some (EvalOk v) =>
          Some (EvalFail incompatible_type
                  ("unary ! requires a boolean, got " +:+ describeType v) None)
      end
  | NCompare operator l r =>
      match recurse l with
      | None => None
      | Some (EvalFail c m p) => Some (EvalFail c m p)
      | Some (EvalOk lv) =>
          match recurse r with
          | None => None
          | Some (EvalFail c m p) => Some (EvalFail c m p)
          | Some (EvalOk rv) =>
              match asComparable lv, asComparable rv with
              | Some ls, Some rs =>
                  match compareValues operator ls rs with
                  | inl b => Some (EvalOk (JScalar (SBoolean b)))
                  | inr message => Some (EvalFail incompatible_type message None)
                  end
              | _, _ =>
                  Some (EvalFail incompatible_type
                          ("comparison requires JSON scalars, got " +:+ describeType lv +:+
                           " and " +:+ describeType rv) None)
              end
          end
      end
  | NLogical operator l r =>
      match recurse l with
      | None => None
      | Some (EvalFail c m p) => Some (EvalFail c m p)
      | Some (EvalOk (JScalar (SBoolean lb))) =>
          match operator, lb with
          | op_and, false => Some (EvalOk (JScalar (SBoolean false)))
          | op_or, true => Some (EvalOk (JScalar (SBoolean true)))
          | _, _ =>
              match recurse r with
              | None => None
              | Some (EvalFail c m p) => Some (EvalFail c m p)
              | Some (EvalOk (JScalar (SBoolean rb))) =>
                  Some (EvalOk (JScalar (SBoolean
                    (match operator with op_and => lb && rb | op_or => lb || rb end))))
              | Some (EvalOk rv) =>
                  Some (EvalFail incompatible_type
                          ("logical " +:+ logical_text operator +:+
                           " requires booleans, got " +:+ describeType rv +:+ " on the right")
                          None)
              end
          end
      | Some (EvalOk lv) =>
          Some (EvalFail incompatible_type
                  ("logical " +:+ logical_text operator +:+ " requires booleans, got " +:+
                   describeType lv +:+ " on the left") None)
      end
  end.

(** [evaluateNode].  The recursion follows indices, so a cyclic array does not
    come back; [fuel] bounds the nesting and [None] is a run that exceeds it. *)
Fixpoint evaluateNode (fuel : nat) (nodes : list ExpressionNode) (index : Z)
    (state : JsonValue) : option (Evaluated JsonValue) :=
  match fuel with
  | O => None
  | S fuel' =>
      if (index <? 0)%Z || (Z.of_nat (length nodes) <=? index)%Z then
        Some (EvalFail invalid_expression
                ("expression node index " +:+ num_text index +:+ " is out of range") None)
      else
        match nodes !! Z.to_nat index with
        | None => None
        | Some node =>
            evaluateStep state (fun i => evaluateNode fuel' nodes i state) node
        end
  end.

(** A nesting deeper than the array revisits a node and never ends, so one more
    than its length is enough for every run that comes back. *)
Definition evaluationFuel (nodes : list ExpressionNode) : nat := S (length nodes).

Definition evaluateExpressionCondition (condition : ExpressionCondition) (state : JsonValue)
    : option ExpressionEvaluation :=
  match evaluateNode (evaluationFuel (cond_nodes condition)) (cond_nodes condition)
          (cond_root condition) state with
  | None => None
  | Some (EvalFail c m p) => Some (EvalFail c m p)
  | Some (EvalOk (JScalar (SBoolean b))) => Some (EvalOk b)
  | Some (EvalOk v) =>
      Some (EvalFail incompatible_type
              ("expression root must be boolean, got " +:+ describeType v) None)
  end.

(** ** Well-formed arrays and termination *)

(** Children stand before their parent, the order the parser emits. *)
Definition operands (node : ExpressionNode) : list Z :=
  match node with
  | NLiteral _ | NPath _ => []
  | NNot o => [o]
  | NCompare _ l r | NLogical _ l r => [l; r]
  end.

Definition node_ordered (position : nat) (node : ExpressionNode) : bool :=
  forallb (fun o => (0 <=? o)%Z && (o <? Z.of_nat position)%Z) (operands node).

Fixpoint nodes_ordered_from (position : nat) (nodes : list ExpressionNode) : bool :=
  match nodes with
  | [] => true
  | node :: rest => node_ordered position node && nodes_ordered_from (S position) rest
  end.

Definition condition_ordered (condition : ExpressionCondition) : bool :=
  nodes_ordered_from 0 (cond_nodes condition).

Lemma nodes_ordered_from_lookup p nodes i node :
  nodes_ordered_from p nodes = true -> nodes !! i = Some node ->
  node_ordered (p + i) node = true.
Proof.
  revert p i. induction nodes as [|n nodes IH]; intros p i; [done|].
  simpl. intros [H1 H2]%andb_prop. destruct i as [|i]; simpl.
  - intros [= ->]. by rewrite Nat.add_0_r.
  - intros H. rewrite <-Nat.add_succ_comm. by apply IH.
Qed.

(** [evaluateStep] asks only for the operands of its node. *)
Lemma evaluateStep_ext state f g node :
  (forall o, o ∈ operands node -> f o = g o) ->
  evaluateStep state f node = evaluateStep state g node.
Proof.
  destruct node as [v|p|o|op l r|op l r]; simpl; intros H; try done.
  - by rewrite (H o) by (by left).
  - rewrite (H l) by (by left). rewrite (H r) by (right; by left). done.
  - rewrite (H l) by (by left). rewrite (H r) by (right; by left). done.
Qed.

Lemma evaluateStep_total state f node :
  (forall o, o ∈ operands node -> is_Some (f o)) ->
  is_Some (evaluateStep state f node).
Proof.
  destruct node as [v|p|o|op l r|op l r]; simpl; intros H.
  - by eexists.
  - destruct (readPath state p); by eexists.
  - destruct (H o) as [? ->]; [by left|]. by repeat case_match; eexists.
  - destruct (H l) as [? ->]; [by left|]. destruct (H r) as [? ->]; [right; by left|].
    by repeat case_match; eexists.
  - destruct (H l) as [? ->]; [by left|]. destruct (H r) as [? ->]; [right; by left|].
    by repeat case_match; eexists.
Qed.

Lemma node_ordered_operand i node o :
  node_ordered i node = true -> o ∈ operands node -> (0 <= o < Z.of_nat i)%Z.
Proof.
  unfold node_ordered. rewrite forallb_forall. intros H Ho%list_elem_of_In.
  apply H in Ho. lia.
Qed.

(** On an ordered array the nesting below index [i] is at most [i], so more
    fuel than [i] evaluates it, and always to the same result. *)
Lemma evaluateNode_ordered nodes state fuel i :
  nodes_ordered_from 0 nodes = true -> (i < fuel)%nat -> (i < length nodes)%nat ->
  is_Some (evaluateNode fuel nodes (Z.of_nat i) state) /\
  evaluateNode fuel nodes (Z.of_nat i) state =
    evaluateNode (evaluationFuel nodes) nodes (Z.of_nat i) state.
Proof.
  intros Hord. revert fuel.
  induction (lt_wf i) as [i _ IH]. intros fuel Hfuel Hlen.
  destruct fuel as [|fuel]; [lia|]. simpl.
  assert ((Z.of_nat i <? 0)%Z || (Z.of_nat (length nodes) <=? Z.of_nat i)%Z = false) as ->.
  { apply orb_false_intro; lia. }
  rewrite Nat2Z.id. destruct (lookup_lt_is_Some_2 nodes i Hlen) as [node Hnode].
  rewrite Hnode.
  pose proof (nodes_ordered_from_lookup _ _ _ _ Hord Hnode) as Hno. simpl in Hno.
  assert (forall o f, o ∈ operands node -> (i <= f)%nat ->
    is_Some (evaluateNode f nodes o state) /\
    evaluateNode f nodes o state = evaluateNode (evaluationFuel nodes) nodes o state) as Hop.
  { intros o f Ho Hf. pose proof (node_ordered_operand _ _ _ Hno Ho).
    replace o with (Z.of_nat (Z.to_nat o)) by lia. apply IH; lia. }
  split.
  - apply evaluateStep_total. intros o Ho. apply Hop; [done|lia].
  - apply evaluateStep_ext. intros o Ho.
    transitivity (evaluateNode (evaluationFuel nodes) nodes o state).
    + apply Hop; [done|lia].
    + symmetry. apply Hop; [done|]. lia.
Qed.

(** An ordered condition always evaluates: the scheduler gets a verdict. *)
Lemma evaluateExpressionCondition_total condition state :
  condition_ordered condition = true ->
  is_Some (evaluateExpressionCondition condition state).
Proof.
  intros Hord. unfold evaluateExpressionCondition.
  assert (is_Some (evaluateNode (evaluationFuel (cond_nodes condition)) (cond_nodes condition)
    (cond_root condition) state)) as [r Hr].
  { destruct (decide (0 <= cond_root condition < Z.of_nat (length (cond_nodes condition)))%Z)
      as [Hin|Hout].
    - replace (cond_root condition) with (Z.of_nat (Z.to_nat (cond_root condition))) by lia.
      apply evaluateNode_ordered; [done| |]; unfold evaluationFuel; lia.
    - unfold evaluationFuel. cbn [evaluateNode].
      assert ((cond_root condition <? 0)%Z ||
        (Z.of_nat (length (cond_nodes condition)) <=? cond_root condition)%Z = true) as ->.
      { apply orb_true_intro. lia. }
      by eexists. }
  rewrite Hr. by repeat case_match; eexists.
Qed.
