(* ===== verification/ExprLex.v ===== *)
(** * The tokenizer of condition expressions

    [packages/pipeline/src/expression/lex.ts].  The scanning position is kept
    as the pair of [index] and the text from it on, so [source[index]] is the
    first character of that text and [undefined] is its end. *)

From Stdlib Require Import Ascii.
From S2P Require Import Prelude.

Inductive TokenKind :=
| tk_identifier | tk_number | tk_string | tk_true | tk_false | tk_null | tk_dot
| tk_operator | tk_and | tk_or | tk_not | tk_lparen | tk_rparen | tk_end.

#[export] Instance TokenKind_eq_dec : EqDecision TokenKind.
Proof. solve_decision. Defined.

Record Token := { tok_kind : TokenKind; tok_offset : nat; tok_text : string }.

Definition token (kind : TokenKind) (offset : nat) (text : string) : Token :=
  {| tok_kind := kind; tok_offset := offset; tok_text := text |}.

Record LexError := { err_message : string; err_offset : nat }.

Definition lex_error (message : string) (offset : nat) : LexError :=
  {| err_message := message; err_offset := offset |}.

Definition MAX_EXPRESSION_LENGTH : nat := 1000.

Definition COMPARISON_OPERATORS : list string := ["=="; "!="; "<"; "<="; ">"; ">="].
Definition ARITHMETIC_CHARACTERS : list string := ["+"; "-"; "*"; "/"; "%"].
Definition VALUE_END_KINDS : list TokenKind :=
  [tk_identifier; tk_number; tk_string; tk_true; tk_false; tk_null; tk_rparen].

Definition endsValue (tokens : list Token) : bool :=
  match last tokens with
  | None => false
  | Some t => bool_decide (tok_kind t ∈ VALUE_END_KINDS)
  end.

Definition char_between (low high c : ascii) : bool :=
  (N_of_ascii low <=? N_of_ascii c)%N && (N_of_ascii c <=? N_of_ascii high)%N.

Definition isDigit (c : ascii) : bool := char_between "0" "9" c.

Definition isIdentifierStart (c : ascii) : bool :=
  char_between "A" "Z" c || char_between "a" "z" c || Ascii.eqb c "_".

Definition isIdentifierPart (c : ascii) : bool := isIdentifierStart c || isDigit c.

(** A test of [source[index] ?? ""], false past the end. *)
Definition head_is (p : ascii -> bool) (text : string) : bool :=
  match text with EmptyString => false | String c _ => p c end.

(** [while (p(source[index] ?? "")) index += 1]: the text passed and the rest. *)
Fixpoint span (p : ascii -> bool) (text : string) : string * string :=
  match text with
  | EmptyString => ("", "")
  | String c rest =>
      if p c then let '(taken, after) := span p rest in (String c taken, after)
      else ("", text)
  end.

(** Spaces, tabs and line breaks. *)
Definition isSpace (c : ascii) : bool :=
  bool_decide (N_of_ascii c ∈ [32; 9; 10; 13]%N).

Definition isNewline (c : ascii) : bool := bool_decide (N_of_ascii c ∈ [10; 13]%N).

Definition one (c : ascii) : string := String c EmptyString.

(** The body of a string literal opened at [start] by [q], from [index] on: the
    decoded value, the index after the closing quote and the text there. *)
Fixpoint scanString (q : ascii) (start index : nat) (value text : string)
    : LexError + (string * nat * string) :=
  match text with
  | EmptyString => inl (lex_error "Unterminated string literal." start)
  | String inner rest =>
      if Ascii.eqb inner "\" then
        match rest with
        | EmptyString => inl (lex_error "Unterminated string literal." start)
        | String escaped rest' =>
            if negb (Ascii.eqb escaped q) && negb (Ascii.eqb escaped "\") then
              inl (lex_error
                     ("Unsupported escape " +:+ quoted ("\" +:+ one escaped) +:+
                      " — only \\ and \" +:+ one q +:+ " are recognised inside a string.")
                     index)
            else scanString q start (index + 2) (value +:+ one escaped) rest'
        end
      else if Ascii.eqb inner q then inr (value, (index + 1)%nat, rest)
      else if isNewline inner then inl (lex_error "Unterminated string literal." start)
      else scanString q start (index + 1) (value +:+ one inner) rest
  end.

(** A number literal from [start]: its text and the text after it. *)
Definition scanNumber (start : nat) (text : string) : LexError + (string * string) :=
  let '(sign, unsigned) :=
    match text with
    | String c rest => if Ascii.eqb c "-" then (one c, rest) else ("", text)
    | EmptyString => ("", text)
    end in
  let '(digits, rest) := span isDigit unsigned in
  let whole := sign +:+ digits in
  match rest with
  | String c rest' =>
      if Ascii.eqb c "." then
        if head_is isDigit rest' then
          let '(fraction, rest'') := span isDigit rest' in
          inr (whole +:+ "." +:+ fraction, rest'')
        else inl (lex_error "A number must have at least one digit after the decimal point."
                    (start + String.length whole))
      else inr (whole, rest)
  | EmptyString => inr (whole, rest)
  end.

Definition keywordKind (text : string) : TokenKind :=
  if str_eqb text "true" then tk_true
  else if str_eqb text "false" then tk_false
  else if str_eqb text "null" then tk_null
  else tk_identifier.

(** The state of the scan: [index], the text from it on, and [tokens]. *)
Record LexState := { lx_index : nat; lx_text : string; lx_tokens : list Token }.

(** Emit a token of [width] source characters and go on with [rest]. *)
Definition lex_push (s : LexState) (kind : TokenKind) (text : string) (width : nat)
    (rest : string) : LexError + LexState :=
  inr {| lx_index := lx_index s + width; lx_text := rest;
         lx_tokens := lx_tokens s ++ [token kind (lx_index s) text] |}.

(** [&] and [|], where [rest] follows the first character. *)
Definition lexLogical (s : LexState) (character : ascii) (rest : string)
    : LexError + LexState :=
  let unsupported :=
    inl (lex_error ("Unsupported operator " +:+ quoted (one character) +:+ " — use " +:+
                    quoted "&&" +:+ " and " +:+ quoted "||" +:+ ".") (lx_index s)) in
  match rest with
  | String second rest' =>
      let pair := String character (one second) in
      if str_eqb pair "&&" then lex_push s tk_and pair 2 rest'
      else if str_eqb pair "||" then lex_push s tk_or pair 2 rest'
      else unsupported
  | EmptyString => unsupported
  end.

(** [=], [!], [<] and [>]. *)
Definition lexComparison (s : LexState) (character : ascii) (rest : string)
    : LexError + LexState :=
  let single :=
    if Ascii.eqb character "!" then lex_push s tk_not "!" 1 rest
    else if Ascii.eqb character "="
    then inl (lex_error ("Unsupported operator " +:+ quoted "=" +:+ " — use " +:+
                         quoted "==" +:+ " to compare.") (lx_index s))
    else lex_push s tk_operator (one character) 1 rest in
  match rest with
  | String second rest' =>
      let pair := String character (one second) in
      if set_has COMPARISON_OPERATORS pair then lex_push s tk_operator pair 2 rest'
      else single
  | EmptyString => single
  end.

(** One iteration of the loop of [lexExpression] at a character. *)
Definition lexStep (s : LexState) (character : ascii) (rest : string) : LexError + LexState :=
  let start := lx_index s in
  let text := String character rest in
  if isSpace character
  then inr {| lx_index := start + 1; lx_text := rest; lx_tokens := lx_tokens s |}
  else if Ascii.eqb character "(" then lex_push s tk_lparen "(" 1 rest
  else if Ascii.eqb character ")" then lex_push s tk_rparen ")" 1 rest
  else if Ascii.eqb character "." then lex_push s tk_dot "." 1 rest
  else if Ascii.eqb character "&" || Ascii.eqb character "|" then lexLogical s character rest
  else if Ascii.eqb character "=" || Ascii.eqb character "!" || Ascii.eqb character "<" ||
          Ascii.eqb character ">" then lexComparison s character rest
  else if str_eqb (one character) quote || Ascii.eqb character "'" then
    match scanString character start (start + 1) "" rest with
    | inl e => inl e
    | inr (value, index, rest') => lex_push s tk_string value (index - start) rest'
    end
  else if set_has ARITHMETIC_CHARACTERS (one character) &&
          negb (Ascii.eqb character "-" && head_is isDigit rest &&
                negb (endsValue (lx_tokens s))) then
    inl (lex_error ("Unsupported operator " +:+ quoted (one character) +:+
                    " — condition expressions compare and combine values, they do not compute them.")
           start)
  else if isDigit character || Ascii.eqb character "-" then
    match scanNumber start text with
    | inl e => inl e
    | inr (number, rest') => lex_push s tk_number number (String.length number) rest'
    end
  else if isIdentifierStart character then
    let '(name, rest') := span isIdentifierPart text in
    lex_push s (keywordKind name) name (String.length name) rest'
  else inl (lex_error ("Unexpected character " +:+ quoted (one character) +:+ " in condition.")
              start).

(** The loop; [fuel] bounds the iterations and [None] is a scan that exceeds it. *)
Fixpoint lexLoop (fuel : nat) (s : LexState) : option (LexError + LexState) :=
  match lx_text s with
  | EmptyString => Some (inr s)
  | String character rest =>
      match fuel with
      | O => None
      | S fuel' =>
          match lexStep s character rest with
          | inl e => Some (inl e)
          | inr s' => lexLoop fuel' s'
          end
      end
  end.

(** Every iteration consumes a character, so the length of the source is
    enough fuel. *)
Definition lexExpression (source : string) : option (LexError + list Token) :=
  if (MAX_EXPRESSION_LENGTH <? String.length source)%nat then
    Some (inl (lex_error
      ("Condition expression exceeds the maximum supported length of " +:+
       pretty MAX_EXPRESSION_LENGTH +:+ " characters.") MAX_EXPRESSION_LENGTH))
  else
    match lexLoop (String.length source)
            {| lx_index := 0; lx_text := source; lx_tokens := [] |} with
    | None => None
    | Some (inl e) => Some (inl e)
    | Some (inr s) =>
        Some (inr (lx_tokens s ++ [token tk_end (String.length source) ""]))
    end.
