(* ===== verification/ExprParse.v ===== *)
(** * The compiler of condition expressions

    [packages/pipeline/src/expression/parse.ts]: a recursive-descent parser
    that emits the flat node array as it goes.  [this.position] is kept as the
    list of tokens from it on. *)

From Stdlib Require Import Ascii.
From S2P Require Import Prelude Json Evaluate ExprLex.

Local Open Scope st_scope.

Definition MAX_EXPRESSION_NODES : nat := 128.
Definition MAX_PATH_SEGMENTS : nat := 8.
Definition MAX_EXPRESSION_DEPTH : nat := 16.

Definition COMPARISON_OPERATOR_NAMES : list (string * PipelineComparisonOperator) :=
  [ ("==", op_eq); ("!=", op_ne); ("<", op_lt); ("<=", op_lte); (">", op_gt); (">=", op_gte) ].

Definition SEGMENT_KINDS : list TokenKind := [tk_identifier; tk_true; tk_false; tk_null].

(** [ExpressionParser]: the emitted [nodes] and the tokens still to read. *)
Record ExpressionParser := { px_nodes : list ExpressionNode; px_rest : list Token }.

(** [ExpressionSyntaxError], or a run that exceeds its fuel. *)
Inductive ParseStop :=
| ExpressionSyntaxError (error : LexError)
| ParseFuel.

Definition P (A : Type) : Type := ST ExpressionParser ParseStop A.

Definition syntaxError {A} (message : string) (offset : nat) : P A :=
  throw (ExpressionSyntaxError (lex_error message offset)).

Definition peek : P Token :=
  let* s := get in
  match px_rest s with
  | [] => syntaxError "Condition expression is incomplete." 0
  | t :: _ => ret t
  end.

Definition is_kind (k : TokenKind) (t : Token) : bool := bool_decide (tok_kind t = k).

Definition dropToken (s : ExpressionParser) : ExpressionParser :=
  {| px_nodes := px_nodes s; px_rest := tail (px_rest s) |}.

Definition advance : P Token :=
  let* token := peek in
  (if is_kind tk_end token then ret tt else modify dropToken) ;;;
  ret token.

Definition pushNode (node : ExpressionNode) (s : ExpressionParser) : ExpressionParser :=
  {| px_nodes := px_nodes s ++ [node]; px_rest := px_rest s |}.

Definition emit (node : ExpressionNode) : P Z :=
  let* s := get in
  if (MAX_EXPRESSION_NODES <=? length (px_nodes s))%nat then
    let* token := peek in
    syntaxError ("Condition expression exceeds the maximum supported size of " +:+
                 pretty MAX_EXPRESSION_NODES +:+ " nodes.") (tok_offset token)
  else
    modify (pushNode node) ;;;
    ret (Z.of_nat (length (px_nodes s))).

(** The loop of [parsePath] after its first segment. *)
Fixpoint pathLoop (fuel : nat) (segments : list string) : P (list string) :=
  let* token := peek in
  if is_kind tk_dot token then
    match fuel with
    | O => throw ParseFuel
    | S fuel' =>
        let* dot := advance in
        let* segment := peek in
        if negb (bool_decide (tok_kind segment ∈ SEGMENT_KINDS)) then
          syntaxError
            "A state reference segment must be a name, for example `verify.blockingFindings`."
            (if is_kind tk_end segment then tok_offset dot else tok_offset segment)
        else
          let segments' := segments ++ [tok_text segment] in
          advance ;;;
          if (MAX_PATH_SEGMENTS <? length segments')%nat then
            syntaxError ("A state reference may have at most " +:+ pretty MAX_PATH_SEGMENTS +:+
                         " segments.") (tok_offset segment)
          else pathLoop fuel' segments'
    end
  else ret segments.

(** Every iteration of a loop consumes a token, so the tokens left are enough
    fuel. *)
Definition loopFuel : P nat := let* s := get in ret (length (px_rest s)).

Definition parsePath : P Z :=
  let* first := peek in
  advance ;;;
  let* fuel := loopFuel in
  let* segments := pathLoop fuel [tok_text first] in
  emit (NPath segments).

(** [this.tokens[this.position + 1]?.kind === "dot"]. *)
Definition dotFollows (s : ExpressionParser) : bool :=
  match px_rest s with _ :: next :: _ => is_kind tk_dot next | _ => false end.

Definition keywordLiteral (k : TokenKind) : JsonScalar :=
  match k with
  | tk_null => SNull
  | tk_true => SBoolean true
  | _ => SBoolean false
  end.

(** The parsing functions below a nesting level; [parseExpression] of the next
    level is the argument. *)
Section Levels.
Context (parseExpression : nat -> P Z).

Definition parsePrimary (depth : nat) : P Z :=
  let* token := peek in
  match tok_kind token with
  | tk_lparen =>
      advance ;;;
      let* inner := parseExpression (S depth) in
      let* closing := peek in
      if negb (is_kind tk_rparen closing) then
        syntaxError ("Missing " +:+ quoted ")" +:+ ".") (tok_offset closing)
      else advance ;;; ret inner
  | tk_number =>
      advance ;;;
      let value := numberOfText (tok_text token) in
      if negb (num_isFinite value) then
        syntaxError (quoted (tok_text token) +:+ " is not a finite number.") (tok_offset token)
      else emit (NLiteral (SNumber value))
  | tk_string => advance ;;; emit (NLiteral (SString (tok_text token)))
  | tk_true | tk_false | tk_null =>
      let* s := get in
      if dotFollows s then parsePath
      else advance ;;; emit (NLiteral (keywordLiteral (tok_kind token)))
  | tk_identifier => parsePath
  | tk_end => syntaxError "Condition expression is incomplete." (tok_offset token)
  | _ => syntaxError ("Unexpected " +:+ quoted (tok_text token) +:+ " in condition.")
           (tok_offset token)
  end.

(** A chain of [!]; each consumes a token. *)
Fixpoint unaryLoop (fuel : nat) (depth : nat) : P Z :=
  let* token := peek in
  if is_kind tk_not token then
    match fuel with
    | O => throw ParseFuel
    | S fuel' =>
        advance ;;;
        let* operand := unaryLoop fuel' depth in
        emit (NNot operand)
    end
  else parsePrimary depth.

Definition parseUnary (depth : nat) : P Z :=
  let* fuel := loopFuel in unaryLoop fuel depth.

Definition parseComparison (depth : nat) : P Z :=
  let* l := parseUnary depth in
  let* token := peek in
  if negb (is_kind tk_operator token) then ret l
  else
    advance ;;;
    match map_get COMPARISON_OPERATOR_NAMES (tok_text token) with
    | None => syntaxError ("Unsupported comparison " +:+ quoted (tok_text token) +:+ ".")
                (tok_offset token)
    | Some operator =>
        let* r := parseUnary depth in
        let* next := peek in
        if is_kind tk_operator next then
          syntaxError
            "Comparisons cannot be chained — write `a < b && b < c` instead of `a < b < c`."
            (tok_offset next)
        else emit (NCompare operator l r)
    end.

Fixpoint andLoop (fuel : nat) (depth : nat) (l : Z) : P Z :=
  let* token := peek in
  if is_kind tk_and token then
    match fuel with
    | O => throw ParseFuel
    | S fuel' =>
        advance ;;;
        let* r := parseComparison depth in
        let* l' := emit (NLogical op_and l r) in
        andLoop fuel' depth l'
    end
  else ret l.

Definition parseAnd (depth : nat) : P Z :=
  let* l := parseComparison depth in
  let* fuel := loopFuel in
  andLoop fuel depth l.

Fixpoint orLoop (fuel : nat) (depth : nat) (l : Z) : P Z :=
  let* token := peek in
  if is_kind tk_or token then
    match fuel with
    | O => throw ParseFuel
    | S fuel' =>
        advance ;;;
        let* r := parseAnd depth in
        let* l' := emit (NLogical op_or l r) in
        orLoop fuel' depth l'
    end
  else ret l.

Definition parseOr (depth : nat) : P Z :=
  let* l := parseAnd depth in
  let* fuel := loopFuel in
  orLoop fuel depth l.
End Levels.

Fixpoint parseExpression (fuel : nat) (depth : nat) : P Z :=
  if (MAX_EXPRESSION_DEPTH <? depth)%nat then
    let* token := peek in
    syntaxError ("Condition nesting exceeds the maximum supported depth of " +:+
                 pretty MAX_EXPRESSION_DEPTH +:+ ".") (tok_offset token)
  else
    match fuel with
    | O => throw ParseFuel
    | S fuel' => parseOr (parseExpression fuel') depth
    end.

Definition expectEnd : P unit :=
  let* token := peek in
  if negb (is_kind tk_end token) then
    syntaxError
      (if is_kind tk_rparen token then "Unmatched " +:+ quoted ")" +:+ "."
       else "Unexpected " +:+ quoted (tok_text token) +:+ " after the condition.")
      (tok_offset token)
  else ret tt.

(** One nesting level per depth from 0 to [MAX_EXPRESSION_DEPTH]. *)
Definition depthFuel : nat := S MAX_EXPRESSION_DEPTH.

Definition parseTokens (tokens : list Token) : ParseStop + (list ExpressionNode * Z) :=
  match (let* root := parseExpression depthFuel 0 in expectEnd ;;; ret root)
          {| px_nodes := []; px_rest := tokens |} with
  | inl stop => inl stop
  | inr (root, s) => inr (px_nodes s, root)
  end.

Definition parseConditionExpression (source : string)
    : option (LexError + (list ExpressionNode * Z)) :=
  match lexExpression source with
  | None => None
  | Some (inl error) => Some (inl error)
  | Some (inr tokens) =>
      match parseTokens tokens with
      | inl (ExpressionSyntaxError error) => Some (inl error)
      | inl ParseFuel => None
      | inr result => Some (inr result)
      end
  end.

(** The character [\n] or [\r] becomes a space. *)
Fixpoint singleLine (source : string) : string :=
  match source with
  | EmptyString => ""
  | String c rest => String (if isNewline c then " "%char else c) (singleLine rest)
  end.

Fixpoint spaces (n : nat) : string :=
  match n with O => "" | S n' => String " " (spaces n') end.

(** The source on one line with a caret under [offset]. *)
Definition renderExpressionExcerpt (source : string) (offset : Z) : string :=
  let clamped := Z.max 0 (Z.min offset (Z.of_nat (String.length source))) in
  singleLine source +:+ one (ascii_of_N 10) +:+ spaces (Z.to_nat clamped) +:+ "^".
