(* ===== verification/ExprGrammar.v ===== *)
(** * The grammar of condition expressions and the parser's soundness

    The grammar in the header of [parse.ts] as an inductive relation between
    token lists and syntax trees, the node array a tree compiles to, and the
    proof that whatever [parseTokens] accepts is derivable and compiled so. *)

From S2P Require Import Prelude Json Evaluate ExprLex ExprParse.

(** ** Trees and their node arrays *)

Inductive Expr :=
| ELiteral (value : JsonScalar)
| EPath (path : list string)
| ENot (operand : Expr)
| ECompare (operator : PipelineComparisonOperator) (l r : Expr)
| ELogical (operator : PipelineLogicalOperator) (l r : Expr).

Fixpoint size (e : Expr) : nat :=
  match e with
  | ELiteral _ | EPath _ => 1
  | ENot o => S (size o)
  | ECompare _ l r | ELogical _ l r => S (size l + size r)
  end.

(** The index of the root of a tree compiled after [n] nodes. *)
Definition root_at (n : nat) (e : Expr) : Z := (Z.of_nat (n + size e) - 1)%Z.

(** The nodes of a tree, children first, when [n] nodes stand before it. *)
Fixpoint compile (n : nat) (e : Expr) : list ExpressionNode :=
  match e with
  | ELiteral v => [NLiteral v]
  | EPath p => [NPath p]
  | ENot o => compile n o ++ [NNot (root_at n o)]
  | ECompare op l r =>
      compile n l ++ compile (n + size l) r ++
      [NCompare op (root_at n l) (root_at (n + size l) r)]
  | ELogical op l r =>
      compile n l ++ compile (n + size l) r ++
      [NLogical op (root_at n l) (root_at (n + size l) r)]
  end.

Lemma compile_length n e : length (compile n e) = size e.
Proof.
  revert n. induction e; intros n; simpl; rewrite ?length_app; simpl;
    rewrite ?IHe, ?IHe1, ?length_app, ?IHe2; simpl; lia.
Qed.

Lemma size_pos e : (0 < size e)%nat.
Proof. destruct e; simpl; lia. Qed.

(** ** The grammar *)

(** The segments of a path after its first: [( "." ident )*]. *)
Inductive segments_of : list Token -> list string -> Prop :=
| segments_nil : segments_of [] []
| segments_cons dot t ts names :
    tok_kind dot = tk_dot -> tok_kind t ∈ SEGMENT_KINDS -> segments_of ts names ->
    segments_of (dot :: t :: ts) (tok_text t :: names).

(** The nonterminals; a tail carries the tree to its left. *)
Inductive Form :=
| FOr | FOrTail (l : Expr) | FAnd | FAndTail (l : Expr) | FComparison | FUnary | FPrimary.

(** [derives d F ts e]: the tokens [ts] read as the nonterminal [F] at nesting
    depth [d] with syntax tree [e]. *)
Inductive derives : nat -> Form -> list Token -> Expr -> Prop :=
| D_or d ts ts' l e :
    derives d FAnd ts l -> derives d (FOrTail l) ts' e -> derives d FOr (ts ++ ts') e
| D_or_nil d l : derives d (FOrTail l) [] l
| D_or_cons d l o ts r ts' e :
    tok_kind o = tk_or -> derives d FAnd ts r ->
    derives d (FOrTail (ELogical op_or l r)) ts' e -> derives d (FOrTail l) (o :: ts ++ ts') e
| D_and d ts ts' l e :
    derives d FComparison ts l -> derives d (FAndTail l) ts' e -> derives d FAnd (ts ++ ts') e
| D_and_nil d l : derives d (FAndTail l) [] l
| D_and_cons d l o ts r ts' e :
    tok_kind o = tk_and -> derives d FComparison ts r ->
    derives d (FAndTail (ELogical op_and l r)) ts' e -> derives d (FAndTail l) (o :: ts ++ ts') e
| D_unary d ts e : derives d FUnary ts e -> derives d FComparison ts e
| D_comparison d ts o operator ts' l r :
    derives d FUnary ts l -> tok_kind o = tk_operator ->
    map_get COMPARISON_OPERATOR_NAMES (tok_text o) = Some operator ->
    derives d FUnary ts' r -> derives d FComparison (ts ++ o :: ts') (ECompare operator l r)
| D_not d o ts e :
    tok_kind o = tk_not -> derives d FUnary ts e -> derives d FUnary (o :: ts) (ENot e)
| D_primary d ts e : derives d FPrimary ts e -> derives d FUnary ts e
| D_paren d lp ts rp e :
    tok_kind lp = tk_lparen -> (d < MAX_EXPRESSION_DEPTH)%nat -> derives (S d) FOr ts e ->
    tok_kind rp = tk_rparen -> derives d FPrimary (lp :: ts ++ [rp]) e
| D_number d t :
    tok_kind t = tk_number -> num_isFinite (numberOfText (tok_text t)) = true ->
    derives d FPrimary [t] (ELiteral (SNumber (numberOfText (tok_text t))))
| D_string d t : tok_kind t = tk_string -> derives d FPrimary [t] (ELiteral (SString (tok_text t)))
| D_keyword d t :
    tok_kind t ∈ [tk_true; tk_false; tk_null] ->
    derives d FPrimary [t] (ELiteral (keywordLiteral (tok_kind t)))
| D_path d t ts names :
    tok_kind t ∈ SEGMENT_KINDS -> segments_of ts names ->
    tok_kind t = tk_identifier \/ names <> [] ->
    (length names < MAX_PATH_SEGMENTS)%nat ->
    derives d FPrimary (t :: ts) (EPath (tok_text t :: names)).

(** ** Soundness *)

(** A syntax error at most [bound] characters into the source. *)
Definition good_stop (bound : nat) (stop : ParseStop) : Prop :=
  match stop with
  | ExpressionSyntaxError error => (err_offset error <= bound)%nat
  | ParseFuel => False
  end.

Definition bounded (bound : nat) (ts : list Token) : Prop :=
  Forall (fun t => tok_offset t <= bound)%nat ts.

Section Sound.
Context (bound : nat).
Local Open Scope st_scope.
Local Abbreviation wps m Q s := (wpe m Q (good_stop bound) s).

Lemma wpe_peek Q s :
  bounded bound (px_rest s) ->
  (forall t r, px_rest s = t :: r -> (tok_offset t <= bound)%nat -> Q t s) -> wps peek Q s.
Proof.
  intros Hb HQ. unfold peek. apply wpe_bind, wpe_get.
  destruct (px_rest s) as [|t r] eqn:E; [apply wpe_throw; simpl; lia|].
  apply wpe_ret. inversion Hb; subst. by eapply HQ.
Qed.

(** Reading past a token that is not the end. *)
Lemma wpe_advance Q (R : ParseStop -> Prop) s t r :
  px_rest s = t :: r -> tok_kind t <> tk_end -> Q t (dropToken s) -> wpe advance Q R s.
Proof.
  intros E Hk HQ. unfold advance, peek. apply wpe_bind, wpe_bind, wpe_get. rewrite E.
  apply wpe_ret, wpe_bind. unfold is_kind. rewrite bool_decide_false by done.
  apply wpe_modify, wpe_ret. done.
Qed.

Lemma wpe_syntaxError {A} message offset (Q : A -> ExpressionParser -> Prop) s :
  (offset <= bound)%nat -> wps (syntaxError message offset) Q s.
Proof. done. Qed.

(** What parsing a nonterminal achieves: from [s], with [base] emitted before
    it, a derivable token prefix is consumed and its tree compiled after
    [base]. *)
Definition parsed (F : Form) (d : nat) (base : list ExpressionNode) (rest : list Token)
    (a : Z) (s' : ExpressionParser) : Prop :=
  exists ts e, rest = ts ++ px_rest s' /\ derives d F ts e /\
    px_nodes s' = base ++ compile (length base) e /\
    a = root_at (length base) e /\ (length (px_nodes s') <= MAX_EXPRESSION_NODES)%nat.

Lemma wpe_emit node (Q : Z -> ExpressionParser -> Prop) s :
  bounded bound (px_rest s) ->
  ((length (px_nodes s) < MAX_EXPRESSION_NODES)%nat ->
   Q (Z.of_nat (length (px_nodes s))) (pushNode node s)) ->
  wps (emit node) Q s.
Proof.
  intros Hb HQ. unfold emit. apply wpe_bind, wpe_get. case_match eqn:E.
  - apply wpe_bind, wpe_peek; [done|]. intros t r _ Ho. by apply wpe_syntaxError.
  - apply wpe_bind, wpe_modify, wpe_ret, HQ. by apply Nat.leb_gt.
Qed.

(** Emitting the last node of a tree whose other nodes are in place. *)
Lemma wpe_emit_parsed node F d base rest ts e s :
  bounded bound (px_rest s) ->
  rest = ts ++ px_rest s -> derives d F ts e ->
  px_nodes s ++ [node] = base ++ compile (length base) e ->
  wps (emit node) (parsed F d base rest) s.
Proof.
  intros Hb Hr Hd Hn. apply wpe_emit; [done|]. intros Hl.
  assert (length (px_nodes s) + 1 = length base + size e)%nat as Hs.
  { rewrite <-(compile_length (length base) e), <-length_app, <-Hn, length_app. done. }
  exists ts, e. split_and!; try done.
  - unfold root_at. lia.
  - unfold pushNode. simpl. rewrite length_app. simpl. lia.
Qed.

Lemma bounded_app ts ts' : bounded bound (ts ++ ts') -> bounded bound ts'.
Proof. apply Forall_app. Qed.

Lemma bounded_tail t ts : bounded bound (t :: ts) -> bounded bound ts.
Proof. by inversion 1. Qed.

Lemma segment_not_end k : k ∈ SEGMENT_KINDS -> k <> tk_end.
Proof. intros H ->. by apply (bool_decide_eq_true_2 _) in H. Qed.

Definition dot_next (ts : list Token) : bool :=
  match ts with t :: _ => is_kind tk_dot t | [] => false end.

Lemma pathLoop_sound fuel names s (Q : list string -> ExpressionParser -> Prop) :
  bounded bound (px_rest s) -> (length (px_rest s) <= fuel)%nat ->
  (0 < length names <= MAX_PATH_SEGMENTS)%nat ->
  (forall ts more s', px_rest s = ts ++ px_rest s' -> segments_of ts more ->
     px_nodes s' = px_nodes s -> (length (names ++ more) <= MAX_PATH_SEGMENTS)%nat ->
     dot_next (px_rest s') = false -> Q (names ++ more) s') ->
  wps (pathLoop fuel names) Q s.
Proof.
  revert names s. induction fuel as [|fuel IH]; intros names s Hb Hf Hn HQ.
  - simpl. apply wpe_bind, wpe_peek; [done|]. intros t r E _. rewrite E in Hf. simpl in Hf. lia.
  - cbn [pathLoop]. apply wpe_bind, wpe_peek; [done|]. intros t r E Ho.
    unfold is_kind. case_bool_decide as Hk.
    2:{ apply wpe_ret. rewrite <-(app_nil_r names).
        apply (HQ [] []); [done|constructor|done|rewrite app_nil_r; lia|].
        rewrite E. simpl. unfold is_kind. by rewrite bool_decide_false. }
    apply wpe_bind. eapply wpe_advance; [done|congruence|].
    rewrite E in Hb. apply bounded_tail in Hb.
    apply wpe_bind, wpe_peek; simpl; rewrite E; [done|]. simpl.
    intros g r' -> Hg. case_bool_decide as Hs; simpl.
    2:{ apply wpe_syntaxError. by case_bool_decide. }
    apply wpe_bind. eapply wpe_advance; [simpl; by rewrite E|by apply segment_not_end|].
    case_match eqn:Hl; [by apply wpe_syntaxError|]. apply Nat.ltb_ge in Hl.
    apply IH; simpl; rewrite ?E; simpl.
    + by apply bounded_tail in Hb.
    + rewrite E in Hf. simpl in Hf. lia.
    + rewrite length_app in *. simpl in *. lia.
    + intros ts more s' Hr Hm Hnd Hlen Hdot. rewrite <-app_assoc in *. simpl in *.
      apply (HQ (t :: g :: ts) (tok_text g :: more)); try done.
      * rewrite E, Hr. done.
      * by constructor.
Qed.

Lemma parsePath_sound d s t r :
  bounded bound (px_rest s) -> px_rest s = t :: r -> tok_kind t ∈ SEGMENT_KINDS ->
  tok_kind t = tk_identifier \/ dot_next r = true ->
  wps parsePath (parsed FPrimary d (px_nodes s) (px_rest s)) s.
Proof.
  intros Hb E Hk Hid. unfold parsePath. apply wpe_bind, wpe_peek; [done|].
  intros t' r' E' _. rewrite E in E'. injection E' as <- <-.
  apply wpe_bind. eapply wpe_advance; [done|by apply segment_not_end|].
  rewrite E in Hb. apply bounded_tail in Hb. unfold loopFuel.
  apply wpe_bind, wpe_bind, wpe_get, wpe_ret, wpe_bind, pathLoop_sound;
    simpl; rewrite ?E; simpl; [done|lia|unfold MAX_PATH_SEGMENTS; lia|].
  intros ts more s' -> Hm Hn Hl Hdot. simpl in Hl.
  eapply wpe_emit_parsed with (ts := t :: ts) (e := EPath (tok_text t :: more)).
  - by apply bounded_app in Hb.
  - done.
  - apply D_path; try done. destruct Hid as [?|Hid]; [by left|right].
    intros ->. inversion Hm; subst. simpl in Hid. congruence.
  - by rewrite Hn.
Qed.

Section Levels.
Context (pe : nat -> P Z) (d : nat).
(** The parser of the next nesting level does its work or refuses the depth. *)
Context (Hpe : forall s, bounded bound (px_rest s) ->
  wps (pe (S d)) (fun a s' => (d < MAX_EXPRESSION_DEPTH)%nat /\
    parsed FOr (S d) (px_nodes s) (px_rest s) a s') s).

(** A literal of one token. *)
Lemma literal_sound s t r v :
  bounded bound (px_rest s) -> px_rest s = t :: r -> tok_kind t <> tk_end ->
  derives d FPrimary [t] (ELiteral v) ->
  wps (advance ;;; emit (NLiteral v)) (parsed FPrimary d (px_nodes s) (px_rest s)) s.
Proof.
  intros Hb E Hk Hd. apply wpe_bind. eapply wpe_advance; [done|done|].
  rewrite E in *. eapply wpe_emit_parsed with (ts := [t]) (e := ELiteral v); try done;
    simpl; rewrite E; try done. by apply bounded_tail in Hb.
Qed.

Lemma paren_sound s t r :
  bounded bound (px_rest s) -> px_rest s = t :: r -> tok_kind t = tk_lparen ->
  wps (advance ;;;
       let* inner := pe (S d) in
       let* closing := peek in
       if negb (is_kind tk_rparen closing) then
         syntaxError ("Missing " +:+ quoted ")" +:+ ".") (tok_offset closing)
       else advance ;;; ret inner)
    (parsed FPrimary d (px_nodes s) (px_rest s)) s.
Proof.
  intros Hb E Hk. apply wpe_bind. eapply wpe_advance; [done|congruence|].
  rewrite E in *. apply bounded_tail in Hb.
  apply wpe_bind. eapply wpe_mono; [apply Hpe; simpl; by rewrite E|].
  simpl. rewrite E. simpl. intros a s1 (Hdep & ts & e & -> & Hd & Hn & Ha & Hl).
  apply bounded_app in Hb. apply wpe_bind, wpe_peek; [done|]. intros rp r1 E1 Ho.
  unfold is_kind. case_bool_decide as Hrp; simpl; [|by apply wpe_syntaxError].
  apply wpe_bind. eapply wpe_advance; [done|congruence|]. apply wpe_ret.
  exists (t :: ts ++ [rp]), e. simpl. rewrite E1. simpl. rewrite <-app_assoc.
  split_and!; try done. by apply D_paren.
Qed.

Lemma keyword_sound s t r :
  bounded bound (px_rest s) -> px_rest s = t :: r -> tok_kind t ∈ [tk_true; tk_false; tk_null] ->
  wps (let* s0 := get in
       if dotFollows s0 then parsePath
       else advance ;;; emit (NLiteral (keywordLiteral (tok_kind t))))
    (parsed FPrimary d (px_nodes s) (px_rest s)) s.
Proof.
  intros Hb E Hk. assert (tok_kind t ∈ SEGMENT_KINDS) as Hs by (by right).
  apply wpe_bind, wpe_get. destruct (dotFollows s) eqn:Hd.
  - eapply parsePath_sound; try done. right. unfold dotFollows in Hd. rewrite E in Hd.
    by destruct r.
  - eapply literal_sound; try done; [by apply segment_not_end|]. by apply D_keyword.
Qed.

Lemma parsePrimary_sound s :
  bounded bound (px_rest s) ->
  wps (parsePrimary pe d) (parsed FPrimary d (px_nodes s) (px_rest s)) s.
Proof.
  intros Hb. unfold parsePrimary. apply wpe_bind, wpe_peek; [done|].
  intros t r E Ho. pose proof (literal_sound s t r) as HL.
  destruct (tok_kind t) eqn:Hk;
    try (by apply wpe_syntaxError); try (by eapply paren_sound).
  - eapply parsePath_sound; rewrite ?Hk; try done; [by left|by left].
  - specialize (HL (SNumber (numberOfText (tok_text t))) Hb E ltac:(congruence)).
    destruct (num_isFinite _) eqn:Hf; simpl.
    + apply HL. by apply D_number.
    + apply wpe_bind. eapply wpe_advance; [done|congruence|]. by apply wpe_syntaxError.
  - apply HL; [done|done|congruence|]. by apply D_string.
  - rewrite <-Hk. eapply keyword_sound; rewrite ?Hk; try done. by left.
  - rewrite <-Hk. eapply keyword_sound; rewrite ?Hk; try done. right. by left.
  - rewrite <-Hk. eapply keyword_sound; rewrite ?Hk; try done. right. right. by left.
Qed.
Lemma unaryLoop_sound fuel s :
  bounded bound (px_rest s) -> (length (px_rest s) <= fuel)%nat ->
  wps (unaryLoop pe fuel d) (parsed FUnary d (px_nodes s) (px_rest s)) s.
Proof.
  revert s. induction fuel as [|fuel IH]; intros s Hb Hf;
    cbn [unaryLoop]; apply wpe_bind, wpe_peek; try done; intros t r E Ho;
    rewrite E in Hf; simpl in Hf; [lia|].
  unfold is_kind. case_bool_decide as Hk.
  - apply wpe_bind. eapply wpe_advance; [done|congruence|]. rewrite E in Hb.
    apply bounded_tail in Hb.
    apply wpe_bind. eapply wpe_mono; [apply IH; simpl; rewrite E; simpl; [done|lia]|].
    simpl. rewrite E. simpl. intros a s1 (ts & e & -> & Hd & Hn & -> & Hl).
    eapply wpe_emit_parsed with (ts := t :: ts) (e := ENot e).
    + by apply bounded_app in Hb.
    + done.
    + by apply D_not.
    + by rewrite Hn, <-app_assoc.
  - eapply wpe_mono; [by apply parsePrimary_sound|].
    intros a s' (ts & e & Hr & Hd & Hrest). exists ts, e. split_and!; try done; try apply Hrest.
    by apply D_primary.
Qed.

Lemma parseUnary_sound s :
  bounded bound (px_rest s) ->
  wps (parseUnary pe d) (parsed FUnary d (px_nodes s) (px_rest s)) s.
Proof.
  intros Hb. unfold parseUnary, loopFuel. apply wpe_bind, wpe_bind, wpe_get, wpe_ret.
  by apply unaryLoop_sound.
Qed.

Lemma parseComparison_sound s :
  bounded bound (px_rest s) ->
  wps (parseComparison pe d) (parsed FComparison d (px_nodes s) (px_rest s)) s.
Proof.
  intros Hb. unfold parseComparison. apply wpe_bind.
  eapply wpe_mono; [by apply parseUnary_sound|].
  intros a s1 (ts & l & Hr & Hd & Hn & -> & Hl). rewrite Hr in *. apply bounded_app in Hb.
  apply wpe_bind, wpe_peek; [done|]. intros o r E Ho.
  unfold is_kind. case_bool_decide as Hk; cbn [negb].
  2:{ apply wpe_ret. exists ts, l. split_and!; try done. by apply D_unary. }
  apply wpe_bind. eapply wpe_advance; [done|congruence|].
  destruct (map_get COMPARISON_OPERATOR_NAMES (tok_text o)) as [operator|] eqn:Hop; [|by apply wpe_syntaxError].
  rewrite E in *. apply bounded_tail in Hb. apply wpe_bind.
  eapply wpe_mono; [apply parseUnary_sound; simpl; by rewrite E|].
  simpl. rewrite E. simpl. intros b s2 (ts' & e & -> & Hd' & Hn' & -> & Hl').
  apply bounded_app in Hb. apply wpe_bind, wpe_peek; [done|]. intros u r2 E2 Hu.
  case_bool_decide; [by apply wpe_syntaxError|].
  eapply wpe_emit_parsed with (ts := ts ++ o :: ts') (e := ECompare operator l e); [done| | |].
  - by rewrite <-app_assoc.
  - by apply D_comparison.
  - rewrite Hn', Hn, length_app, compile_length. simpl. by rewrite <-!app_assoc.
Qed.

(** The loops: the tree to the left is already compiled after [base]. *)
Definition left_done (base : list ExpressionNode) (l : Expr) (s : ExpressionParser) : Prop :=
  px_nodes s = base ++ compile (length base) l /\
  (length (px_nodes s) <= MAX_EXPRESSION_NODES)%nat.

(** An operand parsed after [l], and the logical node that joins them. *)
Lemma join_sound F op base l ts r s (Q : Z -> ExpressionParser -> Prop) rest s0 :
  px_nodes s0 = base ++ compile (length base) l ->
  bounded bound (px_rest s) -> rest = ts ++ px_rest s -> derives d F ts r ->
  px_nodes s = px_nodes s0 ++ compile (length (px_nodes s0)) r ->
  (forall s', px_rest s' = px_rest s -> left_done base (ELogical op l r) s' ->
     Q (root_at (length base) (ELogical op l r)) s') ->
  wps (emit (NLogical op (root_at (length base) l) (root_at (length (px_nodes s0)) r))) Q s.
Proof.
  intros Hn0 Hb Hr Hd Hn HQ. apply wpe_emit; [done|]. intros Hlt.
  assert (length (px_nodes s) = length base + size l + size r)%nat as Hlen.
  { rewrite Hn, Hn0, !length_app, !compile_length. done. }
  replace (Z.of_nat (length (px_nodes s))) with (root_at (length base) (ELogical op l r)).
  2:{ unfold root_at. simpl. lia. }
  apply HQ; [done|]. split.
  - unfold pushNode. simpl. rewrite Hn, Hn0, length_app, compile_length. simpl.
    by rewrite <-!app_assoc.
  - unfold pushNode. simpl. rewrite length_app. simpl. lia.
Qed.

Lemma andLoop_sound fuel l base s :
  bounded bound (px_rest s) -> (length (px_rest s) <= fuel)%nat -> left_done base l s ->
  wps (andLoop pe fuel d (root_at (length base) l))
    (parsed (FAndTail l) d base (px_rest s)) s.
Proof.
  revert l s. induction fuel as [|fuel IH]; intros l s Hb Hf [Hn Hl];
    cbn [andLoop]; apply wpe_bind, wpe_peek; try done; intros t r E Ho;
    rewrite E in Hf; simpl in Hf; [lia|].
  unfold is_kind. case_bool_decide as Hk.
  2:{ apply wpe_ret. exists [], l. split_and!; try done. apply D_and_nil. }
  apply wpe_bind. eapply wpe_advance; [done|congruence|]. rewrite E in Hb.
  apply bounded_tail in Hb. apply wpe_bind.
  eapply wpe_mono; [apply parseComparison_sound; simpl; by rewrite E|].
  simpl. rewrite E. simpl. intros a s1 (ts & e & -> & Hd & Hn1 & -> & Hl1).
  apply bounded_app in Hb. rewrite length_app in Hf.
  apply wpe_bind. eapply join_sound; try done. intros s2 Hr2 Hdone.
  eapply wpe_mono; [apply IH; try done; rewrite Hr2; [done|lia]|].
  intros b s3 (ts' & e' & Hr3 & Hd3 & Hn3 & Hb3 & Hl3).
  exists (t :: ts ++ ts'), e'. split_and!; try done.
  - simpl. by rewrite <-app_assoc, <-Hr3, Hr2.
  - by eapply D_and_cons.
Qed.

Lemma parseAnd_sound s :
  bounded bound (px_rest s) ->
  wps (parseAnd pe d) (parsed FAnd d (px_nodes s) (px_rest s)) s.
Proof.
  intros Hb. unfold parseAnd, loopFuel. apply wpe_bind.
  eapply wpe_mono; [by apply parseComparison_sound|].
  intros a s1 (ts & l & Hr & Hd & Hn & -> & Hl). rewrite Hr in *. apply bounded_app in Hb.
  apply wpe_bind, wpe_bind, wpe_get, wpe_ret.
  eapply wpe_mono; [by apply andLoop_sound|].
  intros b s2 (ts' & e & Hr2 & Hd2 & Hrest). exists (ts ++ ts'), e.
  split_and!; try apply Hrest.
  - by rewrite <-app_assoc, <-Hr2.
  - by eapply D_and.
Qed.

Lemma orLoop_sound fuel l base s :
  bounded bound (px_rest s) -> (length (px_rest s) <= fuel)%nat -> left_done base l s ->
  wps (orLoop pe fuel d (root_at (length base) l))
    (parsed (FOrTail l) d base (px_rest s)) s.
Proof.
  revert l s. induction fuel as [|fuel IH]; intros l s Hb Hf [Hn Hl];
    cbn [orLoop]; apply wpe_bind, wpe_peek; try done; intros t r E Ho;
    rewrite E in Hf; simpl in Hf; [lia|].
  unfold is_kind. case_bool_decide as Hk.
  2:{ apply wpe_ret. exists [], l. split_and!; try done. apply D_or_nil. }
  apply wpe_bind. eapply wpe_advance; [done|congruence|]. rewrite E in Hb.
  apply bounded_tail in Hb. apply wpe_bind.
  eapply wpe_mono; [apply parseAnd_sound; simpl; by rewrite E|].
  simpl. rewrite E. simpl. intros a s1 (ts & e & -> & Hd & Hn1 & -> & Hl1).
  apply bounded_app in Hb. rewrite length_app in Hf.
  apply wpe_bind. eapply join_sound; try done. intros s2 Hr2 Hdone.
  eapply wpe_mono; [apply IH; try done; rewrite Hr2; [done|lia]|].
  intros b s3 (ts' & e' & Hr3 & Hd3 & Hn3 & Hb3 & Hl3).
  exists (t :: ts ++ ts'), e'. split_and!; try done.
  - simpl. by rewrite <-app_assoc, <-Hr3, Hr2.
  - by eapply D_or_cons.
Qed.

Lemma parseOr_sound s :
  bounded bound (px_rest s) ->
  wps (parseOr pe d) (parsed FOr d (px_nodes s) (px_rest s)) s.
Proof.
  intros Hb. unfold parseOr, loopFuel. apply wpe_bind.
  eapply wpe_mono; [by apply parseAnd_sound|].
  intros a s1 (ts & l & Hr & Hd & Hn & -> & Hl). rewrite Hr in *. apply bounded_app in Hb.
  apply wpe_bind, wpe_bind, wpe_get, wpe_ret.
  eapply wpe_mono; [by apply orLoop_sound|].
  intros b s2 (ts' & e & Hr2 & Hd2 & Hrest). exists (ts ++ ts'), e.
  split_and!; try apply Hrest.
  - by rewrite <-app_assoc, <-Hr2.
  - by eapply D_or.
Qed.
End Levels.

Lemma parseExpression_sound fuel d s :
  (MAX_EXPRESSION_DEPTH < d + fuel)%nat -> bounded bound (px_rest s) ->
  wps (parseExpression fuel d) (fun a s' => (d <= MAX_EXPRESSION_DEPTH)%nat /\
    parsed FOr d (px_nodes s) (px_rest s) a s') s.
Proof.
  revert d s. induction fuel as [|fuel IH]; intros d s Hf Hb; cbn [parseExpression];
    case_match eqn:Hd; try (apply wpe_bind, wpe_peek; [done|]; intros; by apply wpe_syntaxError);
    apply Nat.ltb_ge in Hd; [lia|].
  eapply wpe_mono; [apply parseOr_sound; [|done]|].
  - intros s' Hb'. eapply wpe_mono; [apply IH; [lia|done]|]. intros a s1 [H1 H2]. split; [lia|done].
  - done.
Qed.

(** Whatever the parser accepts is derivable, compiled in order, root last. *)
Lemma parseTokens_sound tokens :
  bounded bound tokens ->
  match parseTokens tokens with
  | inl stop => good_stop bound stop
  | inr (nodes, root) =>
      exists ts last e, tokens = ts ++ last /\ option_map tok_kind (head last) = Some tk_end /\
        derives 0 FOr ts e /\ nodes = compile 0 e /\ root = root_at 0 e /\
        (size e <= MAX_EXPRESSION_NODES)%nat
  end.
Proof.
  intros Hb. set (s0 := {| px_nodes := []; px_rest := tokens |}).
  assert (wps (let* root := parseExpression depthFuel 0 in expectEnd ;;; ret root)
    (fun root s => exists ts e, tokens = ts ++ px_rest s /\
      option_map tok_kind (head (px_rest s)) = Some tk_end /\ derives 0 FOr ts e /\
      px_nodes s = compile 0 e /\ root = root_at 0 e /\
      (size e <= MAX_EXPRESSION_NODES)%nat) s0) as Hw.
  { apply wpe_bind.
    eapply wpe_mono; [apply parseExpression_sound; [unfold depthFuel; lia|done]|].
    intros a s (_ & ts & e & Hr & Hd & Hn & -> & Hl). simpl in *.
    unfold expectEnd. rewrite Hr in Hb. apply bounded_app in Hb.
    apply wpe_bind, wpe_bind, wpe_peek; [done|]. intros t r E Ho. unfold is_kind.
    case_bool_decide as Hk; simpl; [|by apply wpe_syntaxError].
    apply wpe_ret, wpe_ret. exists ts, e. rewrite E in *. simpl. rewrite Hk.
    rewrite Hn, compile_length in Hl. split_and!; try done. }
  unfold parseTokens. fold s0. unfold wpe in Hw.
  destruct ((let* root := parseExpression depthFuel 0 in expectEnd ;;; ret root) s0)
    as [stop|[root s]]; [done|].
  destruct Hw as (ts & e & Hw). by exists ts, (px_rest s), e.
Qed.
End Sound.
