(* ===== verification/ExprComplete.v ===== *)
(** * Completeness of the expression parser

    Every token list the grammar derives, within the size limit, is accepted
    and compiled to the nodes of its tree. *)

From S2P Require Import Prelude Json Evaluate ExprLex ExprParse ExprGrammar.

Local Open Scope st_scope.

(** The token kinds that may not follow a complete [F]: they would extend it. *)
Definition extends (F : Form) : list TokenKind :=
  match F with
  | FOr | FOrTail _ => [tk_or; tk_and; tk_operator; tk_dot]
  | FAnd | FAndTail _ => [tk_and; tk_operator; tk_dot]
  | FComparison => [tk_operator; tk_dot]
  | FUnary | FPrimary => [tk_dot]
  end.

Definition follows (F : Form) (rest : list Token) : Prop :=
  match rest with [] => False | t :: _ => tok_kind t ∉ extends F end.

Lemma follows_weaken F G rest :
  extends G ⊆ extends F -> follows F rest -> follows G rest.
Proof. destruct rest; simpl; [done|]. set_solver. Qed.

Lemma follows_orTail d l ts e rest :
  derives d (FOrTail l) ts e -> follows FOr rest -> follows FAnd (ts ++ rest).
Proof.
  inversion 1; subst; simpl; [apply follows_weaken; simpl; set_solver|].
  intros _. replace (tok_kind o) with tk_or by done. by apply (bool_decide_eq_false _).
Qed.

Lemma follows_andTail d l ts e rest :
  derives d (FAndTail l) ts e -> follows FAnd rest -> follows FComparison (ts ++ rest).
Proof.
  inversion 1; subst; simpl; [apply follows_weaken; simpl; set_solver|].
  intros _. replace (tok_kind o) with tk_and by done. by apply (bool_decide_eq_false _).
Qed.

(** [m] returns: it never throws. *)
Definition never (stop : ParseStop) : Prop := False.

Section Runs.
Context {A : Type}.
Implicit Types (Q : Token -> ExpressionParser -> Prop).

Lemma run_peek Q s t r : px_rest s = t :: r -> Q t s -> wpe peek Q never s.
Proof. intros E HQ. unfold peek. apply wpe_bind, wpe_get. rewrite E. by apply wpe_ret. Qed.

Lemma run_emit node (Q : Z -> ExpressionParser -> Prop) s :
  (length (px_nodes s) < MAX_EXPRESSION_NODES)%nat ->
  Q (Z.of_nat (length (px_nodes s))) (pushNode node s) -> wpe (emit node) Q never s.
Proof.
  intros Hl HQ. unfold emit. apply wpe_bind, wpe_get.
  rewrite (proj2 (Nat.leb_gt _ _) Hl). by apply wpe_bind, wpe_modify, wpe_ret.
Qed.
End Runs.

(** The parser function of a nonterminal, [k] the fuel of its loop. *)
Definition form_parser (f : nat) (F : Form) (d : nat) (base k : nat) : P Z :=
  match F with
  | FOr => parseOr (parseExpression f) d
  | FOrTail l => orLoop (parseExpression f) k d (root_at base l)
  | FAnd => parseAnd (parseExpression f) d
  | FAndTail l => andLoop (parseExpression f) k d (root_at base l)
  | FComparison => parseComparison (parseExpression f) d
  | FUnary => unaryLoop (parseExpression f) k d
  | FPrimary => parsePrimary (parseExpression f) d
  end.

(** The nodes in place before [F] is parsed: a tail has its left tree. *)
Definition nodes_before (F : Form) (base : list ExpressionNode) : list ExpressionNode :=
  match F with
  | FOrTail l | FAndTail l => base ++ compile (length base) l
  | _ => base
  end.

(** The parser of [F] consumes exactly [ts] and compiles [e]. *)
Definition accepts (d : nat) (F : Form) (ts : list Token) (e : Expr) : Prop :=
  forall f k base rest s,
    (MAX_EXPRESSION_DEPTH <= d + f)%nat -> (length (ts ++ rest) <= k)%nat ->
    (length base + size e <= MAX_EXPRESSION_NODES)%nat -> follows F rest ->
    px_rest s = ts ++ rest -> px_nodes s = nodes_before F base ->
    wpe (form_parser f F d (length base) k)
      (fun a s' => a = root_at (length base) e /\ px_rest s' = rest /\
        px_nodes s' = base ++ compile (length base) e) never s.

(** Using an [accepts] hypothesis for the first part of the tokens. *)
Lemma run_sub d F ts e f k base rest s (Q : Z -> ExpressionParser -> Prop) :
  accepts d F ts e ->
  (MAX_EXPRESSION_DEPTH <= d + f)%nat -> (length (ts ++ rest) <= k)%nat ->
  (length base + size e <= MAX_EXPRESSION_NODES)%nat -> follows F rest ->
  px_rest s = ts ++ rest -> px_nodes s = nodes_before F base ->
  (forall s', px_rest s' = rest -> px_nodes s' = base ++ compile (length base) e ->
     Q (root_at (length base) e) s') ->
  wpe (form_parser f F d (length base) k) Q never s.
Proof.
  intros H H1 H2 H3 H4 H5 H6 HQ. eapply wpe_mono; [by eapply H|].
  intros a s' (-> & Hr & Hn). by apply HQ.
Qed.

Lemma derives_size_tail d F ts e : derives d F ts e ->
  match F with FOrTail l | FAndTail l => (size l <= size e)%nat | _ => True end.
Proof. induction 1; simpl in *; try done; lia. Qed.

(** ** One lemma per production *)

Lemma run_unary d ts e f base rest s (Q : Z -> ExpressionParser -> Prop) :
  accepts d FUnary ts e -> (MAX_EXPRESSION_DEPTH <= d + f)%nat ->
  (length base + size e <= MAX_EXPRESSION_NODES)%nat -> follows FUnary rest ->
  px_rest s = ts ++ rest -> px_nodes s = base ->
  (forall s', px_rest s' = rest -> px_nodes s' = base ++ compile (length base) e ->
     Q (root_at (length base) e) s') ->
  wpe (parseUnary (parseExpression f) d) Q never s.
Proof.
  intros H H1 H2 H3 Hr Hn HQ. unfold parseUnary, loopFuel.
  apply wpe_bind, wpe_bind, wpe_get, wpe_ret.
  eapply (run_sub d FUnary); eauto. by rewrite Hr.
Qed.

(** The logical node that joins a parsed operand to the tree on its left. *)
Lemma run_join op base l r s (Q : Z -> ExpressionParser -> Prop) :
  px_nodes s = (base ++ compile (length base) l) ++ compile (length base + size l) r ->
  (length base + S (size l + size r) <= MAX_EXPRESSION_NODES)%nat ->
  (forall s', px_rest s' = px_rest s ->
     px_nodes s' = base ++ compile (length base) (ELogical op l r) ->
     Q (root_at (length base) (ELogical op l r)) s') ->
  wpe (emit (NLogical op (root_at (length base) l) (root_at (length base + size l) r)))
    Q never s.
Proof.
  intros Hn Hl HQ.
  assert (length (px_nodes s) = length base + size l + size r)%nat as Hlen.
  { by rewrite Hn, !length_app, !compile_length. }
  apply run_emit; [lia|].
  replace (Z.of_nat (length (px_nodes s))) with (root_at (length base) (ELogical op l r)).
  2:{ unfold root_at. simpl. lia. }
  apply HQ; [done|]. unfold pushNode. simpl. by rewrite Hn, <-!app_assoc.
Qed.

Lemma accepts_or d ts ts' l e :
  derives d (FOrTail l) ts' e ->
  accepts d FAnd ts l -> accepts d (FOrTail l) ts' e -> accepts d FOr (ts ++ ts') e.
Proof.
  intros Hd H1 H2 f k base rest s Hf Hk Hs Hfol Hr Hn. simpl in Hn |- *.
  unfold parseOr, loopFuel. rewrite <-app_assoc in Hr.
  pose proof (derives_size_tail _ _ _ _ Hd) as Hsz. simpl in Hsz.
  apply wpe_bind. rewrite <-Hn in *.
  eapply (run_sub d FAnd _ _ f (length (px_rest s)) (px_nodes s)); try done; try lia.
  - by rewrite Hr.
  - by eapply follows_orTail.
  - intros s1 Hr1 Hn1. apply wpe_bind, wpe_bind, wpe_get, wpe_ret.
    eapply (run_sub d (FOrTail l)); try done. by rewrite Hr1.
Qed.

Lemma accepts_and d ts ts' l e :
  derives d (FAndTail l) ts' e ->
  accepts d FComparison ts l -> accepts d (FAndTail l) ts' e -> accepts d FAnd (ts ++ ts') e.
Proof.
  intros Hd H1 H2 f k base rest s Hf Hk Hs Hfol Hr Hn. simpl in Hn |- *.
  unfold parseAnd, loopFuel. rewrite <-app_assoc in Hr.
  pose proof (derives_size_tail _ _ _ _ Hd) as Hsz. simpl in Hsz.
  apply wpe_bind. rewrite <-Hn in *.
  eapply (run_sub d FComparison _ _ f (length (px_rest s)) (px_nodes s)); try done; try lia.
  - by rewrite Hr.
  - by eapply follows_andTail.
  - intros s1 Hr1 Hn1. apply wpe_bind, wpe_bind, wpe_get, wpe_ret.
    eapply (run_sub d (FAndTail l)); try done. by rewrite Hr1.
Qed.

(** A loop stops at a token that does not continue it. *)
Lemma head_follows F rest k :
  follows F rest -> k ∈ extends F -> exists t r, rest = t :: r /\ tok_kind t <> k.
Proof. destruct rest as [|t r]; simpl; [done|]. intros H Hk. exists t, r. set_solver. Qed.

Lemma accepts_or_nil d l : accepts d (FOrTail l) [] l.
Proof.
  intros f k base rest s Hf Hk Hs Hfol Hr Hn.
  destruct (head_follows _ _ tk_or Hfol ltac:(set_solver)) as (t & r & -> & Ht).
  destruct k as [|k]; [simpl in Hk; lia|]. simpl. apply wpe_bind.
  eapply run_peek; [done|]. unfold is_kind. rewrite bool_decide_false by done.
  by apply wpe_ret.
Qed.

Lemma accepts_and_nil d l : accepts d (FAndTail l) [] l.
Proof.
  intros f k base rest s Hf Hk Hs Hfol Hr Hn.
  destruct (head_follows _ _ tk_and Hfol ltac:(set_solver)) as (t & r & -> & Ht).
  destruct k as [|k]; [simpl in Hk; lia|]. simpl. apply wpe_bind.
  eapply run_peek; [done|]. unfold is_kind. rewrite bool_decide_false by done.
  by apply wpe_ret.
Qed.

(** Reading the operator token in front of an operand. *)
Lemma run_advance s t r (Q : Token -> ExpressionParser -> Prop) :
  px_rest s = t :: r -> tok_kind t <> tk_end ->
  (forall s', px_rest s' = r -> px_nodes s' = px_nodes s -> Q t s') ->
  wpe advance Q never s.
Proof.
  intros E Hk HQ. eapply wpe_advance; [done|done|]. apply HQ; [|done]. simpl. by rewrite E.
Qed.

Lemma accepts_or_cons d l o ts r ts' e :
  tok_kind o = tk_or -> derives d (FOrTail (ELogical op_or l r)) ts' e ->
  accepts d FAnd ts r -> accepts d (FOrTail (ELogical op_or l r)) ts' e ->
  accepts d (FOrTail l) (o :: ts ++ ts') e.
Proof.
  intros Ho Hd H1 H2 f k base rest s Hf Hk Hs Hfol Hr Hn.
  pose proof (derives_size_tail _ _ _ _ Hd) as Hsz. simpl in Hsz, Hr, Hn, Hk.
  rewrite <-app_assoc in Hr, Hk. destruct k as [|k]; [lia|].
  cbn [form_parser orLoop]. apply wpe_bind. eapply run_peek; [done|].
  unfold is_kind. rewrite bool_decide_true by done. apply wpe_bind.
  eapply run_advance; [done|congruence|]. intros s1 Hr1 Hn1. rewrite Hn in Hn1.
  apply wpe_bind. eapply (run_sub d FAnd _ _ f k (base ++ compile (length base) l)); try done.
  - lia.
  - rewrite length_app, compile_length. lia.
  - by eapply follows_orTail.
  - intros s2 Hr2 Hn2. rewrite length_app, compile_length in *. apply wpe_bind.
    eapply run_join; [done|lia|]. intros s3 Hr3 Hn3.
    eapply (run_sub d (FOrTail (ELogical op_or l r))); try done.
    + rewrite length_app in Hk |- *. lia.
    + by rewrite Hr3.
Qed.

Lemma accepts_and_cons d l o ts r ts' e :
  tok_kind o = tk_and -> derives d (FAndTail (ELogical op_and l r)) ts' e ->
  accepts d FComparison ts r -> accepts d (FAndTail (ELogical op_and l r)) ts' e ->
  accepts d (FAndTail l) (o :: ts ++ ts') e.
Proof.
  intros Ho Hd H1 H2 f k base rest s Hf Hk Hs Hfol Hr Hn.
  pose proof (derives_size_tail _ _ _ _ Hd) as Hsz. simpl in Hsz, Hr, Hn, Hk.
  rewrite <-app_assoc in Hr, Hk. destruct k as [|k]; [lia|].
  cbn [form_parser andLoop]. apply wpe_bind. eapply run_peek; [done|].
  unfold is_kind. rewrite bool_decide_true by done. apply wpe_bind.
  eapply run_advance; [done|congruence|]. intros s1 Hr1 Hn1. rewrite Hn in Hn1.
  apply wpe_bind.
  eapply (run_sub d FComparison _ _ f k (base ++ compile (length base) l)); try done.
  - lia.
  - rewrite length_app, compile_length. lia.
  - by eapply follows_andTail.
  - intros s2 Hr2 Hn2. rewrite length_app, compile_length in *. apply wpe_bind.
    eapply run_join; [done|lia|]. intros s3 Hr3 Hn3.
    eapply (run_sub d (FAndTail (ELogical op_and l r))); try done.
    + rewrite length_app in Hk |- *. lia.
    + by rewrite Hr3.
Qed.

Lemma accepts_unary d ts e : accepts d FUnary ts e -> accepts d FComparison ts e.
Proof.
  intros H f k base rest s Hf Hk Hs Hfol Hr Hn. simpl in Hn |- *. unfold parseComparison.
  apply wpe_bind. eapply run_unary; try done.
  { eapply follows_weaken; [|done]. simpl. set_solver. }
  intros s1 Hr1 Hn1.
  destruct (head_follows _ _ tk_operator Hfol ltac:(set_solver)) as (t & r & -> & Ht).
  apply wpe_bind. eapply run_peek; [done|]. unfold is_kind.
  rewrite bool_decide_false by done. by apply wpe_ret.
Qed.

Lemma accepts_comparison d ts o operator ts' l r :
  tok_kind o = tk_operator ->
  map_get COMPARISON_OPERATOR_NAMES (tok_text o) = Some operator ->
  accepts d FUnary ts l -> accepts d FUnary ts' r ->
  accepts d FComparison (ts ++ o :: ts') (ECompare operator l r).
Proof.
  intros Ho Hop H1 H2 f k base rest s Hf Hk Hs Hfol Hr Hn.
  cbn [nodes_before size form_parser] in *. rewrite <-app_assoc in Hr.
  unfold parseComparison. apply wpe_bind. eapply (run_unary d ts l); try done; [lia| |].
  { simpl. rewrite Ho. by apply (bool_decide_eq_false _). }
  intros s1 Hr1 Hn1. apply wpe_bind. eapply run_peek; [done|]. unfold is_kind.
  rewrite bool_decide_true by done. cbn [negb]. apply wpe_bind.
  eapply run_advance; [done|congruence|]. intros s2 Hr2 Hn2. rewrite Hop.
  apply wpe_bind. rewrite Hn1 in Hn2. eapply (run_unary d ts' r); try done.
  { rewrite length_app, compile_length. lia. }
  { eapply follows_weaken; [|done]. simpl. set_solver. }
  intros s3 Hr3 Hn3. rewrite length_app, compile_length in *.
  destruct (head_follows _ _ tk_operator Hfol ltac:(set_solver)) as (t & q & -> & Ht).
  apply wpe_bind. eapply run_peek; [done|]. rewrite bool_decide_false by done.
  assert (length (px_nodes s3) = length base + size l + size r)%nat as Hlen.
  { by rewrite Hn3, !length_app, !compile_length. }
  apply run_emit; [lia|]. split_and!; [|done|].
  - unfold root_at. simpl. lia.
  - simpl. by rewrite Hn3, <-!app_assoc.
Qed.

Lemma accepts_not d o ts e :
  tok_kind o = tk_not -> accepts d FUnary ts e -> accepts d FUnary (o :: ts) (ENot e).
Proof.
  intros Ho H f k base rest s Hf Hk Hs Hfol Hr Hn. simpl in Hk, Hn, Hs, Hr.
  destruct k as [|k]; [lia|]. cbn [form_parser unaryLoop].
  apply wpe_bind. eapply run_peek; [done|]. unfold is_kind. rewrite bool_decide_true by done.
  apply wpe_bind. eapply run_advance; [done|congruence|]. intros s1 Hr1 Hn1.
  apply wpe_bind. eapply (run_sub d FUnary _ _ f k base); try done; [lia|lia|by rewrite Hn1|].
  intros s2 Hr2 Hn2.
  assert (length (px_nodes s2) = length base + size e)%nat as Hlen.
  { by rewrite Hn2, length_app, compile_length. }
  apply run_emit; [lia|]. split_and!; [|done|].
  - unfold root_at. simpl. lia.
  - simpl. by rewrite Hn2, <-app_assoc.
Qed.

(** The kinds a primary starts with. *)
Lemma primary_head d ts e :
  derives d FPrimary ts e -> exists t r, ts = t :: r /\ tok_kind t <> tk_not.
Proof.
  inversion 1; subst; eexists _, _; (split; [done|]); try congruence.
  - intros E. match goal with H : tok_kind t ∈ _ |- _ => rewrite E in H;
      by apply (bool_decide_eq_true_2 _) in H end.
  - intros E. match goal with H : tok_kind t ∈ _ |- _ => rewrite E in H;
      by apply (bool_decide_eq_true_2 _) in H end.
Qed.

Lemma accepts_primary d ts e :
  derives d FPrimary ts e -> accepts d FPrimary ts e -> accepts d FUnary ts e.
Proof.
  intros (t & r & -> & Ht)%primary_head H f k base rest s Hf Hk Hs Hfol Hr Hn.
  simpl in Hk, Hr. destruct k as [|k]; [lia|]. cbn [form_parser unaryLoop].
  apply wpe_bind. eapply run_peek; [done|]. unfold is_kind.
  rewrite bool_decide_false by done. by apply (H f (S k) base rest).
Qed.

Lemma accepts_paren d lp ts rp e :
  tok_kind lp = tk_lparen -> tok_kind rp = tk_rparen -> (d < MAX_EXPRESSION_DEPTH)%nat ->
  accepts (S d) FOr ts e -> accepts d FPrimary (lp :: ts ++ [rp]) e.
Proof.
  intros Hlp Hrp Hd H f k base rest s Hf Hk Hs Hfol Hr Hn. simpl in Hr, Hn.
  rewrite <-app_assoc in Hr. simpl in Hr. destruct f as [|f]; [lia|].
  cbn [form_parser]. unfold parsePrimary. apply wpe_bind. eapply run_peek; [done|].
  rewrite Hlp. apply wpe_bind. eapply run_advance; [done|congruence|]. intros s1 Hr1 Hn1.
  apply wpe_bind. cbn [parseExpression]. rewrite (proj2 (Nat.ltb_ge _ _)) by lia.
  eapply (run_sub (S d) FOr _ _ f _ base); try done; [lia| |by rewrite Hn1|].
  { simpl. rewrite Hrp. by apply (bool_decide_eq_false _). }
  intros s2 Hr2 Hn2. apply wpe_bind. eapply run_peek; [done|]. unfold is_kind.
  rewrite bool_decide_true by done. apply wpe_bind.
  eapply run_advance; [done|congruence|]. intros s3 Hr3 Hn3. apply wpe_ret.
  by rewrite Hn3.
Qed.

(** A literal of one token. *)
Lemma run_literal s t base rest v :
  px_rest s = t :: rest -> tok_kind t <> tk_end -> px_nodes s = base ->
  (length base + 1 <= MAX_EXPRESSION_NODES)%nat ->
  wpe (advance ;;; emit (NLiteral v))
    (fun a s' => a = root_at (length base) (ELiteral v) /\ px_rest s' = rest /\
      px_nodes s' = base ++ compile (length base) (ELiteral v)) never s.
Proof.
  intros Hr Hk <- Hl. apply wpe_bind. eapply run_advance; [done|done|]. intros s1 Hr1 Hn1.
  apply run_emit; rewrite Hn1; [lia|]. split_and!; [|done|].
  - unfold root_at. simpl. lia.
  - simpl. by rewrite Hn1.
Qed.

Lemma run_pathLoop ts more fuel names rest s (Q : list string -> ExpressionParser -> Prop) :
  segments_of ts more -> (length (ts ++ rest) <= fuel)%nat ->
  (length (names ++ more) <= MAX_PATH_SEGMENTS)%nat -> follows FPrimary rest ->
  px_rest s = ts ++ rest ->
  (forall s', px_rest s' = rest -> px_nodes s' = px_nodes s -> Q (names ++ more) s') ->
  wpe (pathLoop fuel names) Q never s.
Proof.
  intros Hseg. revert fuel names s. induction Hseg as [|dot t ts more Hd Ht Hseg IH];
    intros fuel names s Hk Hl Hfol Hr HQ.
  - destruct (head_follows _ _ tk_dot Hfol ltac:(set_solver)) as (u & r & -> & Hu).
    destruct fuel as [|fuel]; [simpl in Hk; lia|]. cbn [pathLoop]. apply wpe_bind.
    eapply run_peek; [done|]. unfold is_kind. rewrite bool_decide_false by done.
    apply wpe_ret. specialize (HQ s). rewrite app_nil_r in HQ. by apply HQ.
  - simpl in Hk, Hr. destruct fuel as [|fuel]; [lia|]. cbn [pathLoop]. apply wpe_bind.
    eapply run_peek; [done|]. unfold is_kind. rewrite bool_decide_true by done.
    apply wpe_bind. eapply run_advance; [done|congruence|]. intros s1 Hr1 Hn1.
    apply wpe_bind. eapply run_peek; [done|]. rewrite bool_decide_true by done. cbn [negb].
    apply wpe_bind. eapply run_advance; [done|by apply segment_not_end|]. intros s2 Hr2 Hn2.
    replace (names ++ tok_text t :: more) with ((names ++ [tok_text t]) ++ more) in *
      by (by rewrite <-app_assoc).
    rewrite (proj2 (Nat.ltb_ge _ _)) by (rewrite length_app in Hl; lia).
    eapply IH; try done; [lia|]. intros s3 Hr3 Hn3. apply HQ; [done|congruence].
Qed.

Lemma run_parsePath s t ts names base rest :
  tok_kind t ∈ SEGMENT_KINDS -> segments_of ts names ->
  (length names < MAX_PATH_SEGMENTS)%nat -> follows FPrimary rest ->
  px_rest s = t :: ts ++ rest -> px_nodes s = base ->
  (length base + 1 <= MAX_EXPRESSION_NODES)%nat ->
  wpe parsePath
    (fun a s' => a = root_at (length base) (EPath (tok_text t :: names)) /\ px_rest s' = rest /\
      px_nodes s' = base ++ compile (length base) (EPath (tok_text t :: names))) never s.
Proof.
  intros Ht Hseg Hl Hfol Hr <- Hs. unfold parsePath, loopFuel.
  apply wpe_bind. eapply run_peek; [done|]. apply wpe_bind.
  eapply run_advance; [done|by apply segment_not_end|]. intros s1 Hr1 Hn1.
  apply wpe_bind, wpe_bind, wpe_get, wpe_ret, wpe_bind.
  eapply run_pathLoop; [done|by rewrite Hr1|exact Hl|done|done|]. intros s2 Hr2 Hn2.
  rewrite Hn1 in Hn2. apply run_emit; rewrite Hn2; [lia|]. split_and!; [|done|].
  - unfold root_at. simpl. lia.
  - simpl. by rewrite Hn2.
Qed.

Lemma accepts_keyword d t :
  tok_kind t ∈ [tk_true; tk_false; tk_null] ->
  accepts d FPrimary [t] (ELiteral (keywordLiteral (tok_kind t))).
Proof.
  intros Hk f k base rest s Hf Hfuel Hs Hfol Hr Hn. simpl in Hr, Hn, Hs.
  destruct (head_follows _ _ tk_dot Hfol ltac:(set_solver)) as (u & r & -> & Hu).
  assert (dotFollows s = false) as Hdot.
  { unfold dotFollows, is_kind. rewrite Hr. by rewrite bool_decide_false. }
  pose proof (run_literal s t base (u :: r) (keywordLiteral (tok_kind t)) Hr) as HL.
  cbn [form_parser]. unfold parsePrimary. apply wpe_bind. eapply run_peek; [done|].
  rewrite !elem_of_cons, elem_of_nil in Hk.
  destruct Hk as [Hk|[Hk|[Hk|[]]]]; rewrite Hk in *; apply wpe_bind, wpe_get; rewrite Hdot;
    by apply HL.
Qed.

Lemma accepts_path d t ts names :
  tok_kind t ∈ SEGMENT_KINDS -> segments_of ts names ->
  tok_kind t = tk_identifier \/ names <> [] -> (length names < MAX_PATH_SEGMENTS)%nat ->
  accepts d FPrimary (t :: ts) (EPath (tok_text t :: names)).
Proof.
  intros Ht Hseg Hid Hl f k base rest s Hf Hk Hs Hfol Hr Hn. simpl in Hr, Hn, Hs.
  pose proof (run_parsePath s t ts names base rest Ht Hseg Hl Hfol Hr Hn Hs) as HP.
  cbn [form_parser]. unfold parsePrimary. apply wpe_bind. eapply run_peek; [done|].
  assert (tok_kind t = tk_identifier \/ dotFollows s = true) as Hdot.
  { destruct Hid as [?|Hne]; [by left|right]. unfold dotFollows, is_kind. rewrite Hr.
    inversion Hseg; subst; [done|]. simpl. by rewrite bool_decide_true. }
  clear Hid. unfold SEGMENT_KINDS in Ht. rewrite !elem_of_cons, elem_of_nil in Ht.
  destruct Ht as [Hk'|[Hk'|[Hk'|[Hk'|[]]]]]; rewrite Hk' in Hdot |- *;
    try (apply wpe_bind, wpe_get); destruct Hdot as [?|Hdot]; try done; by rewrite Hdot.
Qed.

Lemma accepts_number d t :
  tok_kind t = tk_number -> num_isFinite (numberOfText (tok_text t)) = true ->
  accepts d FPrimary [t] (ELiteral (SNumber (numberOfText (tok_text t)))).
Proof.
  intros Hk Hfin f k base rest s Hf Hfuel Hs Hfol Hr Hn. simpl in Hr, Hn, Hs.
  cbn [form_parser]. unfold parsePrimary. apply wpe_bind. eapply run_peek; [done|].
  rewrite Hk, Hfin. cbn [negb]. apply run_literal with (t := t); try done. congruence.
Qed.

Lemma accepts_string d t :
  tok_kind t = tk_string -> accepts d FPrimary [t] (ELiteral (SString (tok_text t))).
Proof.
  intros Hk f k base rest s Hf Hfuel Hs Hfol Hr Hn. simpl in Hr, Hn, Hs.
  cbn [form_parser]. unfold parsePrimary. apply wpe_bind. eapply run_peek; [done|].
  rewrite Hk. apply run_literal with (t := t); try done. congruence.
Qed.

#[local] Hint Resolve accepts_or accepts_or_nil accepts_or_cons accepts_and accepts_and_nil
  accepts_and_cons accepts_unary accepts_comparison accepts_not accepts_primary accepts_paren
  accepts_number accepts_string accepts_keyword accepts_path : heniek.

Lemma derives_accepts d F ts e : derives d F ts e -> accepts d F ts e.
Proof. induction 1; eauto with heniek. Qed.

(** A derivable expression followed by the end token is accepted. *)
Lemma parseTokens_complete ts last r e :
  derives 0 FOr ts e -> tok_kind last = tk_end -> (size e <= MAX_EXPRESSION_NODES)%nat ->
  parseTokens (ts ++ last :: r) = inr (compile 0 e, root_at 0 e).
Proof.
  intros Hd Hlast Hs. set (s0 := {| px_nodes := []; px_rest := ts ++ last :: r |}).
  assert (wpe (let* root := parseExpression depthFuel 0 in expectEnd ;;; ret root)
    (fun root s => root = root_at 0 e /\ px_nodes s = compile 0 e) never s0) as Hw.
  { apply wpe_bind.
    change (parseExpression depthFuel 0)
      with (form_parser MAX_EXPRESSION_DEPTH FOr 0 0 (length (ts ++ last :: r))).
    apply (run_sub 0 FOr ts e MAX_EXPRESSION_DEPTH (length (ts ++ last :: r)) [] (last :: r));
      try done; [by apply derives_accepts| |].
    - simpl. rewrite Hlast. by apply (bool_decide_eq_false _).
    - intros s' Hr Hn. unfold expectEnd. apply wpe_bind, wpe_bind. eapply run_peek; [done|].
      unfold is_kind. rewrite bool_decide_true by done. by apply wpe_ret, wpe_ret. }
  unfold parseTokens. fold s0. unfold wpe in Hw.
  destruct ((let* root := parseExpression depthFuel 0 in expectEnd ;;; ret root) s0)
    as [stop|[root s]]; [done|]. by destruct Hw as [-> ->].
Qed.
