(* ===== verification/ExprProps.v ===== *)
(** * Conditions mean what they say

    The claims about [lex.ts], [parse.ts] and [evaluate.ts] together: parsing
    always ends, accepts exactly the documented grammar, compiles each tree to
    an ordered node array, and evaluating that array is evaluating the tree. *)

From Stdlib Require Import Ascii SpecFloat.
From S2P Require Import Prelude Ids ExprLex Json Evaluate ExprParse ExprGrammar ExprComplete.

(** ** The tokenizer terminates and reports in range

    Every iteration of the loop consumes at least one character, so the scan
    ends; every token and every error lies inside the source; the end token
    stands last and nowhere else. *)

Lemma span_app p text taken after : span p text = (taken, after) -> taken +:+ after = text.
Proof.
  revert taken. induction text as [|c text IH]; simpl; intros taken.
  - by intros [= <- <-].
  - destruct (p c); [|by intros [= <- <-]].
    destruct (span p text) as [t a]. intros [= <- <-]. rewrite str_app_cons. f_equal. by apply IH.
Qed.

Lemma span_length p text taken after :
  span p text = (taken, after) ->
  (String.length taken + String.length after = String.length text)%nat.
Proof. intros H%span_app. by rewrite <-H, str_length_app. Qed.

(** A step that stays inside the source of length [bound]. *)
Definition step_in (bound : nat) (index : nat) (tokens : list Token)
    (r : LexError + LexState) : Prop :=
  match r with
  | inl e => (err_offset e <= bound)%nat
  | inr s' => (lx_index s' + String.length (lx_text s') = bound /\ index < lx_index s')%nat /\
      exists new, lx_tokens s' = tokens ++ new /\
        Forall (fun t => tok_offset t = index /\ tok_kind t <> tk_end) new
  end.

Lemma step_push bound s kind text width rest :
  kind <> tk_end -> (0 < width)%nat ->
  (lx_index s + width + String.length rest = bound)%nat ->
  step_in bound (lx_index s) (lx_tokens s) (lex_push s kind text width rest).
Proof.
  intros Hk Hw Hb. split; simpl; [lia|]. eexists. split; [done|]. by repeat constructor.
Qed.

Lemma scanString_in q start index value text :
  (start <= index)%nat ->
  match scanString q start index value text with
  | inl e => (err_offset e <= index + String.length text)%nat
  | inr (_, index', rest) =>
      (index < index' /\ index' + String.length rest = index + String.length text)%nat
  end.
Proof.
  intros Hs. remember (String.length text) as n eqn:Hn.
  revert start index value text Hs Hn. induction (lt_wf n) as [n _ IH].
  intros start index value text Hs ->. destruct text as [|c rest]; simpl; [lia|].
  destruct (Ascii.eqb c "\").
  - destruct rest as [|e rest]; simpl; [lia|]. destruct (_ && _); simpl; [lia|].
    specialize (IH (String.length rest) ltac:(simpl; lia) start (index + 2)%nat (value +:+ one e) rest
      ltac:(lia) eq_refl).
    destruct (scanString _ _ _ _ _) as [?|[[? ?] ?]]; lia.
  - destruct (Ascii.eqb c q); [simpl; lia|]. destruct (isNewline c); simpl; [lia|].
    specialize (IH (String.length rest) ltac:(simpl; lia) start (index + 1)%nat (value +:+ one c) rest
      ltac:(lia) eq_refl).
    destruct (scanString _ _ _ _ _) as [?|[[? ?] ?]]; lia.
Qed.

(** A number is a nonempty piece of the source. *)
Lemma scanNumber_in start text :
  head_is isDigit text = true \/
    (exists rest, text = String "-" rest /\ head_is isDigit rest = true) ->
  match scanNumber start text with
  | inl e => (err_offset e <= start + String.length text)%nat
  | inr (number, rest) =>
      (0 < String.length number /\ String.length number + String.length rest = String.length text)%nat
  end.
Proof.
  intros Hd. unfold scanNumber.
  destruct (match text with
    | String c rest => if Ascii.eqb c "-" then (one c, rest) else ("", text)
    | "" => ("", text) end) as [sign unsigned] eqn:Hsign.
  assert ((String.length sign + String.length unsigned = String.length text)%nat /\
    head_is isDigit unsigned = true) as [Hlen Hhead].
  { destruct Hd as [Hd|(rest & -> & Hd)].
    - destruct text as [|c rest]; [done|]. simpl in Hd.
      destruct (Ascii.eqb_spec c "-") as [->|]; [done|]. by simplify_eq.
    - simpl in Hsign. by simplify_eq. }
  destruct (span isDigit unsigned) as [digits after] eqn:Hspan.
  assert (0 < String.length digits)%nat as Hpos.
  { destruct unsigned as [|c u]; [done|]. simpl in Hhead, Hspan. rewrite Hhead in Hspan.
    destruct (span isDigit u). simplify_eq. simpl. lia. }
  apply span_length in Hspan.
  destruct after as [|c after']; simpl in *; rewrite ?str_length_app; [lia|].
  destruct (Ascii.eqb c "."); [|rewrite ?str_length_app; simpl; lia].
  destruct (head_is isDigit after'); [|simpl; rewrite ?str_length_app; lia].
  destruct (span isDigit after') as [fraction after''] eqn:Hfrac.
  apply span_length in Hfrac. rewrite !str_length_app. simpl. lia.
Qed.

Lemma lexLogical_in bound s c rest :
  (lx_index s + S (String.length rest) = bound)%nat ->
  step_in bound (lx_index s) (lx_tokens s) (lexLogical s c rest).
Proof.
  intros Hb. unfold lexLogical. destruct rest as [|d rest]; simpl in *; [lia|].
  destruct (str_eqb _ "&&"); [apply step_push; [done|lia|lia]|].
  destruct (str_eqb _ "||"); [apply step_push; [done|lia|lia]|]. simpl. lia.
Qed.

Lemma lexComparison_in bound s c rest :
  (lx_index s + S (String.length rest) = bound)%nat ->
  step_in bound (lx_index s) (lx_tokens s) (lexComparison s c rest).
Proof.
  intros Hb. unfold lexComparison.
  assert (step_in bound (lx_index s) (lx_tokens s)
    (if Ascii.eqb c "!" then lex_push s tk_not "!" 1 rest
     else if Ascii.eqb c "="
     then inl (lex_error ("Unsupported operator " +:+ quoted "=" +:+ " — use " +:+
                          quoted "==" +:+ " to compare.") (lx_index s))
     else lex_push s tk_operator (one c) 1 rest)) as Hsingle.
  { destruct (Ascii.eqb c "!"); [apply step_push; [done|lia|lia]|].
    destruct (Ascii.eqb c "="); [simpl; lia|apply step_push; [done|lia|lia]]. }
  destruct rest as [|d rest]; [done|]. destruct (set_has _ _); [|done].
  apply step_push; [done|lia|]. simpl in Hb. lia.
Qed.

Lemma keywordKind_not_end text : keywordKind text <> tk_end.
Proof. unfold keywordKind. by repeat destruct (str_eqb _ _). Qed.

Lemma lexStep_in bound s c rest :
  (lx_index s + S (String.length rest) = bound)%nat ->
  step_in bound (lx_index s) (lx_tokens s) (lexStep s c rest).
Proof.
  intros Hb. unfold lexStep.
  destruct (isSpace c).
  { split; simpl; [lia|]. exists []. by rewrite app_nil_r. }
  destruct (Ascii.eqb c "("); [apply step_push; [done|lia|lia]|].
  destruct (Ascii.eqb c ")"); [apply step_push; [done|lia|lia]|].
  destruct (Ascii.eqb c "."); [apply step_push; [done|lia|lia]|].
  destruct (_ || _); [by apply lexLogical_in|].
  destruct (_ || _); [by apply lexComparison_in|].
  destruct (_ || _).
  { pose proof (scanString_in c (lx_index s) (lx_index s + 1) "" rest ltac:(lia)) as H.
    destruct (scanString _ _ _ _ _) as [e|[[v i] r]]; [simpl; lia|].
    apply step_push; [done|lia|lia]. }
  destruct (set_has ARITHMETIC_CHARACTERS (one c) && _) eqn:Harith; [simpl; lia|].
  destruct (isDigit c || Ascii.eqb c "-") eqn:Hnum.
  { assert (head_is isDigit (String c rest) = true \/
      exists u, String c rest = String "-" u /\ head_is isDigit u = true) as Hstart.
    { simpl. destruct (isDigit c) eqn:Hd; [by left|right]. simpl in Hnum.
      apply Ascii.eqb_eq in Hnum as ->. exists rest. split; [done|].
      simpl in Harith. by destruct (head_is isDigit rest). }
    pose proof (scanNumber_in (lx_index s) (String c rest) Hstart) as H.
    destruct (scanNumber _ _) as [e|[number r]]; simpl in H |- *; [lia|].
    apply step_push; [done|lia|lia]. }
  destruct (isIdentifierStart c) eqn:Hid; [|simpl; lia].
  destruct (span isIdentifierPart (String c rest)) as [name r] eqn:Hspan.
  assert (0 < String.length name)%nat.
  { simpl in Hspan. unfold isIdentifierPart at 1 in Hspan. rewrite Hid in Hspan. simpl in Hspan.
    destruct (span isIdentifierPart rest). simplify_eq. simpl. lia. }
  apply span_length in Hspan. simpl in Hspan.
  apply step_push; [apply keywordKind_not_end|lia|lia].
Qed.

(** Tokens inside a source of [bound] characters, none of them the end. *)
Definition inner_tokens (bound : nat) (ts : list Token) : Prop :=
  Forall (fun t => tok_offset t <= bound /\ tok_kind t <> tk_end)%nat ts.

Lemma lexLoop_in bound fuel s :
  (lx_index s + String.length (lx_text s) = bound)%nat ->
  (String.length (lx_text s) <= fuel)%nat -> inner_tokens bound (lx_tokens s) ->
  exists r, lexLoop fuel s = Some r /\
    match r with
    | inl e => (err_offset e <= bound)%nat
    | inr s' => inner_tokens bound (lx_tokens s')
    end.
Proof.
  revert s. induction fuel as [|fuel IH]; intros s Hb Hf Ht.
  - destruct (lx_text s) eqn:E; [|simpl in Hf; lia]. simpl. rewrite E. by eexists.
  - simpl. destruct (lx_text s) as [|c rest] eqn:E; [by eexists|]. simpl in Hb, Hf.
    pose proof (lexStep_in bound s c rest Hb) as Hstep.
    destruct (lexStep s c rest) as [e|s']; [by eexists|].
    destruct Hstep as [[Hb' Hi] (new & Hnew & Hok)]. apply IH; [done|lia|].
    rewrite Hnew. apply Forall_app. split; [done|].
    eapply Forall_impl; [done|]. simpl. intros t [-> Hk]. split; [lia|done].
Qed.

Lemma lexExpression_total source :
  exists r, lexExpression source = Some r /\
    match r with
    | inl e => (err_offset e <= String.length source)%nat
    | inr tokens => exists ts, tokens = ts ++ [token tk_end (String.length source) ""] /\
        inner_tokens (String.length source) ts
    end.
Proof.
  unfold lexExpression. destruct (Nat.ltb_spec MAX_EXPRESSION_LENGTH (String.length source)).
  - eexists. split; [done|]. simpl. lia.
  - destruct (lexLoop_in (String.length source) (String.length source)
      {| lx_index := 0; lx_text := source; lx_tokens := [] |}) as (r & -> & Hr); try done.
    { constructor. }
    destruct r as [e|s']; eexists; (split; [done|]); [done|]. by exists (lx_tokens s').
Qed.


(** ** The compiled array is ordered *)

Lemma root_at_last n e : root_at n e = (Z.of_nat (n + length (compile n e)) - 1)%Z.
Proof. by rewrite compile_length. Qed.

Lemma nodes_ordered_app n l1 l2 :
  nodes_ordered_from n (l1 ++ l2) =
  nodes_ordered_from n l1 && nodes_ordered_from (n + length l1) l2.
Proof.
  revert n. induction l1 as [|x l1 IH]; intros n; simpl.
  - by rewrite Nat.add_0_r.
  - by rewrite IH, <-Nat.add_succ_comm, andb_assoc.
Qed.

Lemma root_at_before n e m : (n + size e <= m)%nat ->
  (0 <=? root_at n e)%Z && (root_at n e <? Z.of_nat m)%Z = true.
Proof.
  intros H. pose proof (size_pos e). apply andb_true_intro.
  split; [apply Z.leb_le|apply Z.ltb_lt]; unfold root_at; lia.
Qed.

Lemma compile_ordered n e : nodes_ordered_from n (compile n e) = true.
Proof.
  revert n. induction e as [v|p|e IH|op l IHl r IHr|op l IHl r IHr]; intros n; simpl; try done;
    rewrite !nodes_ordered_app, ?compile_length; simpl; rewrite ?IH, ?IHl, ?IHr;
    unfold node_ordered; simpl; by rewrite !root_at_before by lia.
Qed.

(** ** Claims about parsing *)

(** Syntax errors of an accepted token list stay inside it. *)
Lemma inner_bounded bound ts :
  inner_tokens bound ts -> bounded bound (ts ++ [token tk_end bound ""]).
Proof.
  intros H. apply Forall_app. split; [|by repeat constructor].
  eapply Forall_impl; [done|]. by intros t [? _].
Qed.

(** The only end token of a token list is its last. *)
Lemma end_is_last bound ts off ts1 last :
  inner_tokens bound ts -> ts ++ [token tk_end off ""] = ts1 ++ last ->
  option_map tok_kind (head last) = Some tk_end ->
  ts1 = ts /\ last = [token tk_end off ""].
Proof.
  intros Ht E Hl. destruct last as [|t last]; [done|]. simpl in Hl. injection Hl as Hl.
  revert ts1 E. induction Ht as [|u ts [_ Hu] Ht IH]; intros [|x ts1] E.
  - by injection E as <- <-.
  - injection E as _ E. by destruct ts1.
  - injection E as -> _. done.
  - injection E as <- E. by destruct (IH ts1 E) as [-> ->].
Qed.

(** What the parser does with the outcome of the lexer, in one equation. *)
Lemma parse_outcome source :
  exists r, parseConditionExpression source = Some r /\
    match r with
    | inl e => (err_offset e <= String.length source)%nat
    | inr (nodes, root) =>
        exists ts e,
          lexExpression source = Some (inr (ts ++ [token tk_end (String.length source) ""])) /\
          derives 0 FOr ts e /\ (size e <= MAX_EXPRESSION_NODES)%nat /\
          nodes = compile 0 e /\ root = root_at 0 e
    end.
Proof.
  destruct (lexExpression_total source) as (r & Hlex & Hr). unfold parseConditionExpression.
  rewrite Hlex. destruct r as [e|tokens]; [by eexists|]. destruct Hr as (ts & -> & Hts).
  pose proof (parseTokens_sound _ _ (inner_bounded _ _ Hts)) as Hs.
  destruct (parseTokens _) as [[e|]|[nodes root]]; [by eexists|done|].
  eexists. split; [done|]. destruct Hs as (ts1 & last & e & E & Hl & Hd & Hn & Hroot & Hsz).
  destruct (end_is_last _ _ _ _ _ Hts E Hl) as [-> ->]. by exists ts, e.
Qed.

(** Compiling a condition always ends, with an error inside the source or with
    an array of 1 to 128 nodes in which every operand stands before its node and
    the root is last; such an array evaluates to a verdict on every state, so
    no accepted condition can hang or overrun the evaluator. *)
Theorem parse_total source :
  exists r, parseConditionExpression source = Some r /\
    match r with
    | inl error => (err_offset error <= String.length source)%nat
    | inr (nodes, root) =>
        let condition := {| cond_nodes := nodes; cond_root := root |} in
        (0 < length nodes <= MAX_EXPRESSION_NODES)%nat /\
        root = (Z.of_nat (length nodes) - 1)%Z /\
        condition_ordered condition = true /\
        forall state, is_Some (evaluateExpressionCondition condition state)
    end.
Proof.
  destruct (parse_outcome source) as (r & Hr & H). exists r. split; [done|].
  destruct r as [e|[nodes root]]; [done|]. destruct H as (ts & e & _ & _ & Hs & -> & ->).
  rewrite compile_length. pose proof (size_pos e). split_and!; try done; try lia.
  - apply compile_ordered.
  - intros state. apply evaluateExpressionCondition_total, compile_ordered.
Qed.

(** C35: The parser implements the documented grammar: a source compiles to [nodes]
    and [root] exactly when its tokens derive a syntax tree of at most 128 nodes
    -- with the documented precedences, left-associative connectives,
    non-associative comparison, at most 16 nested parentheses and 8 path
    segments -- whose children-first compilation they are. *)
Theorem parse_iff_grammar source nodes root :
  parseConditionExpression source = Some (inr (nodes, root)) <->
  exists ts e,
    lexExpression source = Some (inr (ts ++ [token tk_end (String.length source) ""])) /\
    derives 0 FOr ts e /\ (size e <= MAX_EXPRESSION_NODES)%nat /\
    nodes = compile 0 e /\ root = root_at 0 e.
Proof.
  split.
  - intros Hp. destruct (parse_outcome source) as (r & Hr & H). rewrite Hp in Hr.
    by injection Hr as <-.
  - intros (ts & e & Hlex & Hd & Hs & -> & ->). unfold parseConditionExpression.
    rewrite Hlex. by rewrite (parseTokens_complete ts (token tk_end _ "") [] e).
Qed.

(** ** Evaluation of trees *)

(** Sequencing of typed failures. *)
Definition eval_bind {A B} (r : Evaluated A) (k : A -> Evaluated B) : Evaluated B :=
  match r with EvalOk a => k a | EvalFail c m p => EvalFail c m p end.

Definition ok_bool (b : bool) : Evaluated JsonValue := EvalOk (JScalar (SBoolean b)).

(** A boolean, or the failure [message] makes of the value's type. *)
Definition want_bool (message : string -> string) (v : JsonValue) : Evaluated bool :=
  match v with
  | JScalar (SBoolean b) => EvalOk b
  | _ => EvalFail incompatible_type (message (describeType v)) None
  end.

(** The meaning of a syntax tree on a state. *)
Fixpoint denote (state : JsonValue) (e : Expr) : Evaluated JsonValue :=
  match e with
  | ELiteral v => EvalOk (JScalar v)
  | EPath p =>
      match readPath state p with
      | inl v => EvalOk v
      | inr read => EvalFail missing_path ("missing state path " +:+ js_join "." read) (Some read)
      end
  | ENot o =>
      eval_bind (denote state o) (fun v =>
      eval_bind (want_bool (fun t => "unary ! requires a boolean, got " +:+ t) v) (fun b =>
      ok_bool (negb b)))
  | ECompare op l r =>
      eval_bind (denote state l) (fun lv =>
      eval_bind (denote state r) (fun rv =>
      match asComparable lv, asComparable rv with
      | Some ls, Some rs =>
          match compareValues op ls rs with
          | inl b => ok_bool b
          | inr message => EvalFail incompatible_type message None
          end
      | _, _ =>
          EvalFail incompatible_type
            ("comparison requires JSON scalars, got " +:+ describeType lv +:+ " and " +:+
             describeType rv) None
      end))
  | ELogical op l r =>
      let wants side t :=
        "logical " +:+ logical_text op +:+ " requires booleans, got " +:+ t +:+ side in
      eval_bind (denote state l) (fun lv =>
      eval_bind (want_bool (wants " on the left") lv) (fun lb =>
      if match op with op_and => negb lb | op_or => lb end then ok_bool lb
      else
        eval_bind (denote state r) (fun rv =>
        eval_bind (want_bool (wants " on the right") rv) ok_bool)))
  end.

Definition denote_condition (state : JsonValue) (e : Expr) : ExpressionEvaluation :=
  eval_bind (denote state e)
    (want_bool (fun t => "expression root must be boolean, got " +:+ t)).

(** An array holding the compilation of [e] after its first [n] nodes. *)
Definition holds_at (nodes : list ExpressionNode) (n : nat) (e : Expr) : Prop :=
  exists pre post, nodes = pre ++ compile n e ++ post /\ length pre = n.

Lemma holds_at_left nodes n c e rest :
  holds_at nodes n c -> compile n c = compile n e ++ rest -> holds_at nodes n e.
Proof.
  intros (pre & post & -> & Hl) E. exists pre, (rest ++ post). by rewrite E, <-!app_assoc.
Qed.

Lemma holds_at_right nodes n c l r node :
  holds_at nodes n c -> compile n c = compile n l ++ compile (n + size l) r ++ [node] ->
  holds_at nodes (n + size l) r.
Proof.
  intros (pre & post & -> & Hl) E. exists (pre ++ compile n l), (node :: post).
  rewrite E, <-!app_assoc. split; [done|]. by rewrite length_app, compile_length, Hl.
Qed.

(** The last node of the compilation is the one at the root index. *)
Lemma holds_at_root nodes n e front node :
  holds_at nodes n e -> compile n e = front ++ [node] ->
  (0 <= root_at n e < Z.of_nat (length nodes))%Z /\
  nodes !! Z.to_nat (root_at n e) = Some node.
Proof.
  intros (pre & post & -> & Hl) E.
  assert (size e = S (length front)) as Hs.
  { rewrite <-(compile_length n e), E, length_app. simpl. lia. }
  unfold root_at. rewrite E, !length_app. simpl. split; [lia|].
  replace (Z.to_nat (Z.of_nat (n + size e) - 1)) with (length (pre ++ front)).
  2:{ rewrite length_app. lia. }
  rewrite <-app_assoc. rewrite (app_assoc pre front). apply list_lookup_middle. done.
Qed.

(** One step of [evaluateNode] at the root of a compiled tree. *)
Lemma evaluate_root nodes n e front node fuel state :
  holds_at nodes n e -> compile n e = front ++ [node] ->
  evaluateNode (S fuel) nodes (root_at n e) state =
  evaluateStep state (fun i => evaluateNode fuel nodes i state) node.
Proof.
  intros H E. destruct (holds_at_root _ _ _ _ _ H E) as [Hr Hn]. simpl.
  rewrite Hn. by rewrite (proj2 (orb_false_iff _ _)) by (split; lia).
Qed.

Lemma evaluate_compiled_at nodes state n e fuel :
  holds_at nodes n e -> (size e <= fuel)%nat ->
  evaluateNode fuel nodes (root_at n e) state = Some (denote state e).
Proof.
  revert n fuel. induction e as [v|p|e IH|op l IHl r IHr|op l IHl r IHr];
    intros n fuel H Hf; (destruct fuel as [|fuel]; [simpl in Hf; lia|]).
  - by rewrite (evaluate_root _ _ _ [] _ _ _ H eq_refl).
  - rewrite (evaluate_root _ _ _ [] _ _ _ H eq_refl). simpl. by destruct (readPath state p).
  - rewrite (evaluate_root _ _ _ _ _ _ _ H eq_refl). simpl in Hf |- *.
    rewrite IH; [|by eapply holds_at_left|lia].
    destruct (denote state e) as [[[]| |]|]; done.
  - rewrite (evaluate_root _ _ _ (compile n l ++ compile (n + size l) r) _ _ _ H)
      by (simpl; by rewrite <-app_assoc).
    simpl in Hf |- *. rewrite IHl; [|by eapply holds_at_left|lia].
    rewrite IHr; [|by eapply holds_at_right|lia].
    destruct (denote state l) as [lv|]; [|done]. destruct (denote state r) as [rv|]; [|done].
    simpl. destruct (asComparable lv) as [ls|], (asComparable rv) as [rs|]; try done.
    by destruct (compareValues op ls rs).
  - rewrite (evaluate_root _ _ _ (compile n l ++ compile (n + size l) r) _ _ _ H)
      by (simpl; by rewrite <-app_assoc).
    simpl in Hf |- *. rewrite IHl; [|by eapply holds_at_left|lia].
    rewrite IHr; [|by eapply holds_at_right|lia].
    destruct (denote state l) as [[[| |[]|]| |]|], op; try done; simpl;
      destruct (denote state r) as [[[| |[]|]| |]|]; done.
Qed.

(** Evaluating a compiled condition is evaluating its syntax tree: the flat,
    index-addressed evaluation of the array a tree compiles to returns, on every
    state, what the tree denotes -- same value, same typed failure, same
    short-circuiting. *)
Theorem evaluate_compiled (e : Expr) (state : JsonValue) :
  evaluateExpressionCondition {| cond_nodes := compile 0 e; cond_root := root_at 0 e |} state =
  Some (denote_condition state e).
Proof.
  unfold evaluateExpressionCondition. cbn [cond_nodes cond_root]. rewrite evaluate_compiled_at.
  - unfold denote_condition. by destruct (denote state e) as [[[]| |]|].
  - exists [], []. by rewrite app_nil_r.
  - unfold evaluationFuel. rewrite compile_length. lia.
Qed.
