(* ===== verification/Recovery.v ===== *)
(** * Bounded-repair recovery policy

    [packages/pipeline/src/recovery]: [classify.ts], [limits.ts],
    [signature.ts] and [decide.ts].  A failure is classified, fingerprinted,
    charged against a repair budget, and turned into a recovery decision. *)

From Stdlib Require Import Ascii.
From S2P Require Import Prelude Transitions Ids.

(** ** Classification ([classify.ts]) *)

Inductive PipelineFailureCategory :=
| cat_transient | cat_provider | cat_validation | cat_conflict | cat_security | cat_terminal.

#[export] Instance PipelineFailureCategory_eq_dec : EqDecision PipelineFailureCategory.
Proof. solve_decision. Defined.

Definition category_text (c : PipelineFailureCategory) : string :=
  match c with
  | cat_transient => "transient" | cat_provider => "provider"
  | cat_validation => "validation" | cat_conflict => "conflict"
  | cat_security => "security" | cat_terminal => "terminal"
  end.

Record ClassifyFailureInput := {
  ci_classification : string;
  ci_phase : string;
  ci_code : string;
  ci_retryable : bool;
  ci_backendClassification : option string;
  ci_validationFailures : option (list string)
}.

Record PipelineFailurePlain := {
  pf_category : PipelineFailureCategory;
  pf_classification : string;
  pf_phase : string;
  pf_code : string;
  pf_retryable : bool;
  pf_runnerRetryable : bool;
  pf_backendClassification : option string;
  pf_validationFailures : option (list string)
}.

Definition PROVIDER_BACKEND : list string :=
  [ "account_unavailable"; "profile_unavailable"; "model_unavailable";
    "engine_unavailable"; "provider_throttled"; "context_capacity_exhausted" ].
Definition SECURITY_BACKEND : list string := [ "authentication_failed"; "permission_denied" ].
Definition TERMINAL_BACKEND : list string :=
  [ "hard_limit_exceeded"; "cancelled"; "invalid_request"; "ambiguous"; "unknown" ].
Definition CONFLICT : list string :=
  [ "stale_revision"; "stale_sha"; "merge_conflict"; "reconciliation_required" ].
Definition VALIDATION : list string :=
  [ "validation_failed"; "collection_failed"; "finalize_failed" ].
Definition TRANSIENT : list string :=
  [ "timeout"; "process_failed"; "prepare_failed"; "start_failed"; "workspace_failed";
    "recovery_required"; "operation_failed" ].
Definition TERMINAL_CLASS : list string :=
  [ "cancelled"; "rejected"; "unknown"; "malformed_contract" ].

(** [backend !== undefined && SET.has(backend)]. *)
Definition backend_in (set : list string) (backend : option string) : bool :=
  match backend with Some b => set_has set b | None => false end.

Definition mapCategory (input : ClassifyFailureInput) : PipelineFailureCategory :=
  let backend := ci_backendClassification input in
  if backend_in SECURITY_BACKEND backend then cat_security
  else if backend_in TERMINAL_BACKEND backend then cat_terminal
  else
    let classification := ci_classification input in
    if set_has TERMINAL_CLASS classification then cat_terminal
    else if set_has CONFLICT classification then cat_conflict
    else if set_has VALIDATION classification then cat_validation
    else if str_eqb classification "profile_failed" || str_eqb classification "forge_failed" ||
            (str_eqb classification "backend_failed" && backend_in PROVIDER_BACKEND backend)
    then cat_provider
    else if set_has TRANSIENT classification ||
            (str_eqb classification "backend_failed" &&
             match backend with
             | None => true
             | Some b => negb (set_has PROVIDER_BACKEND b) && negb (set_has SECURITY_BACKEND b)
             end)
    then cat_transient
    else cat_terminal.

Definition category_eqb (a b : PipelineFailureCategory) : bool := bool_decide (a = b).

Definition classifyFailure (input : ClassifyFailureInput) : PipelineFailurePlain :=
  let category := mapCategory input in
  let runnerRetryable := ci_retryable input in
  let retryable := runnerRetryable && negb (category_eqb category cat_security) &&
                   negb (category_eqb category cat_terminal) in
  {| pf_category := category;
     pf_classification := ci_classification input;
     pf_phase := ci_phase input;
     pf_code := ci_code input;
     pf_retryable := retryable;
     pf_runnerRetryable := runnerRetryable;
     pf_backendClassification := ci_backendClassification input;
     pf_validationFailures := ci_validationFailures input |}.

(** ** Limits ([limits.ts]) *)

Record ResolveRepairBudgetInput := {
  rb_effectiveMaxRepairAttempts : option Z;
  rb_stageMaxRepairAttempts : option Z;
  rb_pipelineMaxRepairAttempts : option Z;
  rb_validationMaxAttempts : option Z
}.

(** [Math.min(first, ...rest)]. *)
Definition math_min (first : Z) (rest : list Z) : Z := fold_left Z.min rest first.

Definition resolveRepairBudget (input : ResolveRepairBudgetInput) : Z :=
  let candidates :=
    option_list (rb_effectiveMaxRepairAttempts input) ++
    option_list (rb_stageMaxRepairAttempts input) ++
    option_list (rb_pipelineMaxRepairAttempts input) ++
    option_list (rb_validationMaxAttempts input) in
  match candidates with
  | [] => 0
  | first :: rest => math_min first rest
  end.

Record ResolveEffectiveConcurrencyInput := {
  rc_effectiveMaxConcurrentWorkers : option Z;
  rc_pipelineMaxConcurrentWorkers : option Z
}.

Definition resolveEffectiveConcurrency (input : ResolveEffectiveConcurrencyInput) : option Z :=
  let candidates :=
    option_list (rc_effectiveMaxConcurrentWorkers input) ++
    option_list (rc_pipelineMaxConcurrentWorkers input) in
  match candidates with
  | [] => None
  | first :: rest => Some (math_min first rest)
  end.

(** ** Failure signatures ([signature.ts]) *)

(** The hexadecimal SHA-256 digest of a text ([node:crypto], outside the
    repository). *)
Class Sha256 := sha256_hex : string -> string.

(** [JSON.stringify] on a string. *)
Definition hex_digit (n : N) : ascii :=
  ascii_of_N (if (n <? 10)%N then n + 48 else n + 87)%N.

Definition json_char (c : ascii) : string :=
  let n := N_of_ascii c in
  if (n =? 34)%N then "\" +:+ quote else if (n =? 92)%N then "\\"
  else if (n =? 8)%N then "\b" else if (n =? 9)%N then "\t"
  else if (n =? 10)%N then "\n" else if (n =? 12)%N then "\f"
  else if (n =? 13)%N then "\r"
  else if (n <? 32)%N
  then "\u00" +:+ String (hex_digit (n / 16)%N) (String (hex_digit (n mod 16)%N) "")
  else String c "".

Fixpoint json_chars (s : string) : string :=
  match s with
  | EmptyString => ""
  | String c rest => json_char c +:+ json_chars rest
  end.

Definition json_string (s : string) : string := quote +:+ json_chars s +:+ quote.

(** The JSON fragment signature payloads use: texts, arrays and records. *)
Inductive PayloadJson :=
| PText (s : string)
| PArray (entries : list PayloadJson)
| PRecord (fields : list (string * PayloadJson)).

Fixpoint canonicalStringify (value : PayloadJson) : string :=
  match value with
  | PText s => json_string s
  | PArray entries => "[" +:+ js_join "," (map canonicalStringify entries) +:+ "]"
  | PRecord fields =>
      let rendered := map (fun f => (fst f, canonicalStringify (snd f))) fields in
      "{" +:+
      js_join "," (map (fun f => json_string (fst f) +:+ ":" +:+ snd f)
                     (sort_key fst rendered)) +:+
      "}"
  end.

Record PipelineFailureSignaturePlain := {
  sg_digest : string;
  sg_category : PipelineFailureCategory;
  sg_classification : string;
  sg_phase : string;
  sg_code : string;
  sg_backendClassification : option string;
  sg_validationFailures : option (list string)
}.

(** The payload a signature hashes. *)
Definition signaturePayload (failure : PipelineFailurePlain) : PayloadJson :=
  PRecord
    ([ ("category", PText (category_text (pf_category failure)));
       ("classification", PText (pf_classification failure));
       ("phase", PText (pf_phase failure));
       ("code", PText (pf_code failure)) ] ++
     match pf_backendClassification failure with
     | Some b => [("backendClassification", PText b)]
     | None => []
     end ++
     match pf_validationFailures failure with
     | Some vs => [("validationFailures", PArray (map PText (sort_strings vs)))]
     | None => []
     end).

Definition buildFailureSignature `{Sha256} (failure : PipelineFailurePlain)
    : PipelineFailureSignaturePlain :=
  {| sg_digest := sha256_hex (canonicalStringify (signaturePayload failure));
     sg_category := pf_category failure;
     sg_classification := pf_classification failure;
     sg_phase := pf_phase failure;
     sg_code := pf_code failure;
     sg_backendClassification := pf_backendClassification failure;
     sg_validationFailures := sort_strings <$> pf_validationFailures failure |}.

(** ** Decisions ([decide.ts]) *)

Inductive SessionPolicy := session_fresh | session_resume.
Inductive RetryMode := mode_fresh | mode_resume | mode_delegate.
Inductive ExecutionMode := autonomous | hitl.
Inductive ValidationStrategy :=
| strategy_pause | strategy_fail | strategy_repair | strategy_repair_fresh | strategy_delegate.

#[export] Instance SessionPolicy_eq_dec : EqDecision SessionPolicy.
Proof. solve_decision. Defined.
#[export] Instance RetryMode_eq_dec : EqDecision RetryMode.
Proof. solve_decision. Defined.
#[export] Instance ExecutionMode_eq_dec : EqDecision ExecutionMode.
Proof. solve_decision. Defined.

Record PipelineRetryDirectivePlain := {
  rd_mode : RetryMode;
  rd_sessionPolicy : SessionPolicy;
  rd_priorAttemptId : option string;
  rd_priorBackendExecutionId : option string;
  rd_delegateTo : option string;
  rd_recoveryContextDigest : option string
}.

Record StageRecoveryCounters := {
  rc_repairsUsed : Z;
  rc_lastSignatureDigest : option string;
  rc_identicalSignatureCount : Z;
  rc_pendingProposalId : option string;
  rc_pendingDirective : option PipelineRetryDirectivePlain
}.

Record OnValidationFailurePolicy := {
  vp_strategy : ValidationStrategy;
  vp_session : option SessionPolicy;
  vp_maxAttempts : option Z;
  vp_delegateTo : option string
}.

Record DecideRecoveryInput := {
  di_runId : string;
  di_stageId : string;
  di_graphRevision : Z;
  di_generation : Z;
  di_attemptOrdinal : Z;
  di_now : string;
  di_failure : PipelineFailurePlain;
  di_stageType : string;
  di_sessionPolicy : option SessionPolicy;
  di_onValidationFailure : option OnValidationFailurePolicy;
  di_executionMode : ExecutionMode;
  di_counters : StageRecoveryCounters;
  di_repairBudget : Z;
  di_priorAttemptId : option string;
  di_priorBackendExecutionId : option string;
  di_resumeAvailable : bool
}.

Inductive RecoveryAction :=
| ra_propose | ra_approve | ra_reject | ra_dispatch | ra_block | ra_fail | ra_exhaust.

#[export] Instance RecoveryAction_eq_dec : EqDecision RecoveryAction.
Proof. solve_decision. Defined.

Definition recovery_action_text (a : RecoveryAction) : string :=
  match a with
  | ra_propose => "propose" | ra_approve => "approve" | ra_reject => "reject"
  | ra_dispatch => "dispatch" | ra_block => "block" | ra_fail => "fail"
  | ra_exhaust => "exhaust"
  end.

Inductive RecoveryOutcome :=
| ro_pause | ro_fail | ro_repair | ro_repair_fresh | ro_delegate | ro_exhausted
| ro_unchanged_exhausted | ro_rejected | ro_blocked.

Record PipelineRecoveryDecisionPlain := {
  pr_decisionId : string;
  pr_runId : string;
  pr_stageId : string;
  pr_graphRevision : Z;
  pr_generation : Z;
  pr_attemptOrdinal : Z;
  pr_action : RecoveryAction;
  pr_outcome : RecoveryOutcome;
  pr_failure : option PipelineFailurePlain;
  pr_signature : option PipelineFailureSignaturePlain;
  pr_directive : option PipelineRetryDirectivePlain;
  pr_proposalId : option string;
  pr_repairsUsed : Z;
  pr_repairBudget : Z;
  pr_identicalSignatureCount : Z;
  pr_detail : option string;
  pr_recordedAt : string
}.

Inductive FailReason :=
| fr_attempt_failed | fr_repair_exhausted | fr_unchanged_failure_exhausted
| fr_recovery_rejected.
Inductive BlockReason := br_condition_blocked | br_resume_unavailable | br_pause.
Inductive RetryReason := rr_retry_scheduled | rr_recovery_approved.

Inductive DecideRecoveryResult :=
| DRFail (reason : FailReason) (recoveryDecision : PipelineRecoveryDecisionPlain)
    (nextCounters : StageRecoveryCounters)
| DRBlock (reason : BlockReason) (blockReason : string)
    (recoveryDecision : PipelineRecoveryDecisionPlain) (nextCounters : StageRecoveryCounters)
| DRPropose (directive : PipelineRetryDirectivePlain)
    (recoveryDecision : PipelineRecoveryDecisionPlain) (nextCounters : StageRecoveryCounters)
| DRRetry (reason : RetryReason) (directive : PipelineRetryDirectivePlain)
    (recoveryDecision : PipelineRecoveryDecisionPlain) (nextCounters : StageRecoveryCounters).

Definition result_decision (r : DecideRecoveryResult) : PipelineRecoveryDecisionPlain :=
  match r with
  | DRFail _ d _ | DRBlock _ _ d _ | DRPropose _ d _ | DRRetry _ _ d _ => d
  end.

Definition result_counters (r : DecideRecoveryResult) : StageRecoveryCounters :=
  match r with
  | DRFail _ _ c | DRBlock _ _ _ c | DRPropose _ _ c | DRRetry _ _ _ c => c
  end.

Definition deriveProposalId (runId : string) (graphRevision : Z) (stageId : string)
    (generation attemptOrdinal : Z) : string :=
  "prp:" +:+ runId +:+ ":" +:+ num_text graphRevision +:+ ":" +:+ stageId +:+ ":" +:+
  num_text generation +:+ ":" +:+ num_text attemptOrdinal.

Definition updateSignatureCounters (counters : StageRecoveryCounters) (digest : string)
    : StageRecoveryCounters :=
  let identicalSignatureCount :=
    if bool_decide (rc_lastSignatureDigest counters = Some digest)
    then (rc_identicalSignatureCount counters + 1)%Z else 1%Z in
  {| rc_repairsUsed := rc_repairsUsed counters;
     rc_lastSignatureDigest := Some digest;
     rc_identicalSignatureCount := identicalSignatureCount;
     rc_pendingProposalId := rc_pendingProposalId counters;
     rc_pendingDirective := rc_pendingDirective counters |}.

Definition buildDecision (input : DecideRecoveryInput) (action : RecoveryAction)
    (outcome : RecoveryOutcome) (signature : PipelineFailureSignaturePlain)
    (counters : StageRecoveryCounters) (directive : option PipelineRetryDirectivePlain)
    (proposalId detail : option string) : PipelineRecoveryDecisionPlain :=
  {| pr_decisionId :=
       deriveRecoveryDecisionId (di_runId input) (di_graphRevision input) (di_stageId input)
         (di_generation input) (di_attemptOrdinal input) (recovery_action_text action);
     pr_runId := di_runId input;
     pr_stageId := di_stageId input;
     pr_graphRevision := di_graphRevision input;
     pr_generation := di_generation input;
     pr_attemptOrdinal := di_attemptOrdinal input;
     pr_action := action;
     pr_outcome := outcome;
     pr_failure := Some (di_failure input);
     pr_signature := Some signature;
     pr_directive := directive;
     pr_proposalId := proposalId;
     pr_repairsUsed := rc_repairsUsed counters;
     pr_repairBudget := di_repairBudget input;
     pr_identicalSignatureCount := rc_identicalSignatureCount counters;
     pr_detail := detail;
     pr_recordedAt := di_now input |}.

(** The strategy of a repair: outcome, mode, session policy and delegate. *)
Record Strategy := {
  sp_outcome : RecoveryOutcome;
  sp_mode : RetryMode;
  sp_sessionPolicy : SessionPolicy;
  sp_delegateTo : option string
}.

(** [StrategyPlan]: [inl] carries the early result, [inr] the strategy. *)
Definition planValidationStrategy (input : DecideRecoveryInput)
    (signature : PipelineFailureSignaturePlain) (counters : StageRecoveryCounters)
    : DecideRecoveryResult + Strategy :=
  match di_onValidationFailure input with
  | None =>
      inl (DRFail fr_attempt_failed
             (buildDecision input ra_fail ro_fail signature counters None None
                (Some "missing_on_validation_failure_policy")) counters)
  | Some policy =>
      match vp_strategy policy with
      | strategy_pause =>
          inl (DRBlock br_pause "validation_pause"
                 (buildDecision input ra_block ro_pause signature counters None None
                    (Some "validation_pause")) counters)
      | strategy_fail =>
          inl (DRFail fr_attempt_failed
                 (buildDecision input ra_fail ro_fail signature counters None None None)
                 counters)
      | strategy_repair =>
          inr {| sp_outcome := ro_repair; sp_mode := mode_resume;
                 sp_sessionPolicy := default session_resume (vp_session policy);
                 sp_delegateTo := None |}
      | strategy_repair_fresh =>
          inr {| sp_outcome := ro_repair_fresh; sp_mode := mode_fresh;
                 sp_sessionPolicy := session_fresh; sp_delegateTo := None |}
      | strategy_delegate =>
          match vp_delegateTo policy with
          | Some (String _ _ as target) =>
              inr {| sp_outcome := ro_delegate; sp_mode := mode_delegate;
                     sp_sessionPolicy := session_fresh; sp_delegateTo := Some target |}
          | _ =>
              inl (DRFail fr_attempt_failed
                     (buildDecision input ra_fail ro_fail signature counters None None
                        (Some "missing_delegate_to")) counters)
          end
      end
  end.

Definition planNonValidationStrategy (input : DecideRecoveryInput) : Strategy :=
  if str_eqb (di_stageType input) "agent" then
    let sessionPolicy := default session_fresh (di_sessionPolicy input) in
    {| sp_outcome := match sessionPolicy with
                     | session_resume => ro_repair | session_fresh => ro_repair_fresh end;
       sp_mode := match sessionPolicy with
                  | session_resume => mode_resume | session_fresh => mode_fresh end;
       sp_sessionPolicy := sessionPolicy;
       sp_delegateTo := None |}
  else {| sp_outcome := ro_repair_fresh; sp_mode := mode_fresh;
          sp_sessionPolicy := session_fresh; sp_delegateTo := None |}.

Definition buildDirective (input : DecideRecoveryInput) (plan : Strategy)
    (signature : PipelineFailureSignaturePlain) : PipelineRetryDirectivePlain :=
  {| rd_mode := sp_mode plan;
     rd_sessionPolicy := sp_sessionPolicy plan;
     rd_priorAttemptId :=
       match sp_mode plan with mode_resume => di_priorAttemptId input | _ => None end;
     rd_priorBackendExecutionId :=
       match sp_mode plan with mode_resume => di_priorBackendExecutionId input | _ => None end;
     rd_delegateTo := sp_delegateTo plan;
     rd_recoveryContextDigest := Some (sg_digest signature) |}.

(** What [decideRecovery] does once a strategy is chosen. *)
Definition decideWithStrategy (input : DecideRecoveryInput)
    (signature : PipelineFailureSignaturePlain) (counters : StageRecoveryCounters)
    (strategy : Strategy) : DecideRecoveryResult :=
  if bool_decide (sp_mode strategy = mode_resume) && negb (di_resumeAvailable input) then
    DRBlock br_resume_unavailable "resume_unavailable"
      (buildDecision input ra_block ro_blocked signature counters None None
         (Some "resume_unavailable")) counters
  else
    let directive := buildDirective input strategy signature in
    match di_executionMode input with
    | hitl =>
        let proposalId :=
          deriveProposalId (di_runId input) (di_graphRevision input) (di_stageId input)
            (di_generation input) (di_attemptOrdinal input) in
        let nextCounters :=
          {| rc_repairsUsed := rc_repairsUsed counters;
             rc_lastSignatureDigest := rc_lastSignatureDigest counters;
             rc_identicalSignatureCount := rc_identicalSignatureCount counters;
             rc_pendingProposalId := Some proposalId;
             rc_pendingDirective := Some directive |} in
        DRPropose directive
          (buildDecision input ra_propose (sp_outcome strategy) signature nextCounters
             (Some directive) (Some proposalId) None) nextCounters
    | autonomous =>
        let nextCounters :=
          {| rc_repairsUsed := (rc_repairsUsed counters + 1)%Z;
             rc_lastSignatureDigest := rc_lastSignatureDigest counters;
             rc_identicalSignatureCount := rc_identicalSignatureCount counters;
             rc_pendingProposalId := None;
             rc_pendingDirective := Some directive |} in
        DRRetry rr_retry_scheduled directive
          (buildDecision input ra_dispatch (sp_outcome strategy) signature nextCounters
             (Some directive) None None) nextCounters
    end.

Definition decideRecovery `{Sha256} (input : DecideRecoveryInput) : DecideRecoveryResult :=
  let signature := buildFailureSignature (di_failure input) in
  let counters := updateSignatureCounters (di_counters input) (sg_digest signature) in
  let failure := di_failure input in
  if category_eqb (pf_category failure) cat_security ||
     category_eqb (pf_category failure) cat_terminal || negb (pf_retryable failure) then
    DRFail fr_attempt_failed
      (buildDecision input ra_fail ro_fail signature counters None None None) counters
  else if (di_repairBudget input =? 0)%Z ||
          (di_repairBudget input <=? rc_repairsUsed counters)%Z then
    DRFail fr_repair_exhausted
      (buildDecision input ra_exhaust ro_exhausted signature counters None None
         (Some "repair_exhausted")) counters
  else if (di_repairBudget input <=? rc_identicalSignatureCount counters)%Z then
    DRFail fr_unchanged_failure_exhausted
      (buildDecision input ra_exhaust ro_unchanged_exhausted signature counters None None
         (Some "unchanged_failure_exhausted")) counters
  else if category_eqb (pf_category failure) cat_validation then
    match planValidationStrategy input signature counters with
    | inl result => result
    | inr strategy => decideWithStrategy input signature counters strategy
    end
  else decideWithStrategy input signature counters (planNonValidationStrategy input).
