(* ===== verification/RecoveryProps.v ===== *)
(** * What the recovery policy guarantees

    Properties of [classify.ts], [limits.ts], [signature.ts] and [decide.ts]:
    which failures are repaired, that repair is bounded, and that a signature
    identifies a failure. *)

From Stdlib Require Import Ascii.
From S2P Require Import Prelude Transitions Ids Recovery.
Local Open Scope Z_scope.

(** ** Budgets *)

Lemma math_min_first first rest : math_min first rest <= first.
Proof.
  unfold math_min. revert first. induction rest as [|y rest IH]; intros first; simpl; [lia|].
  etrans; [apply IH|lia].
Qed.

Lemma math_min_le first rest x : x ∈ first :: rest -> math_min first rest <= x.
Proof.
  revert first. induction rest as [|y rest IH]; intros first;
    rewrite elem_of_cons; intros [->|Hx]; try apply math_min_first; [by apply elem_of_nil in Hx|].
  change (math_min first (y :: rest)) with (math_min (Z.min first y) rest).
  apply elem_of_cons in Hx as [->|Hx].
  - etrans; [apply math_min_first|lia].
  - apply IH. by right.
Qed.

Lemma math_min_in first rest : math_min first rest ∈ first :: rest.
Proof.
  unfold math_min. revert first. induction rest as [|y rest IH]; intros first; simpl; [by left|].
  specialize (IH (Z.min first y)). rewrite elem_of_cons in IH.
  rewrite !elem_of_cons. destruct IH as [->|IH]; [|by auto].
  destruct (Z.min_spec first y) as [[_ ->]|[_ ->]]; auto.
Qed.

Lemma concurrency_strictest (conc : ResolveEffectiveConcurrencyInput) :
  match resolveEffectiveConcurrency conc with
  | None => rc_effectiveMaxConcurrentWorkers conc = None /\
            rc_pipelineMaxConcurrentWorkers conc = None
  | Some m =>
      (rc_effectiveMaxConcurrentWorkers conc = Some m \/
       rc_pipelineMaxConcurrentWorkers conc = Some m) /\
      (forall x, rc_effectiveMaxConcurrentWorkers conc = Some x -> m <= x) /\
      (forall x, rc_pipelineMaxConcurrentWorkers conc = Some x -> m <= x)
  end.
Proof.
  unfold resolveEffectiveConcurrency, math_min.
  destruct (rc_effectiveMaxConcurrentWorkers conc) as [a|],
    (rc_pipelineMaxConcurrentWorkers conc) as [b|];
    simpl; split_and!; try done; try (intros ? [= <-]; lia); auto.
  destruct (Z.min_spec a b) as [[_ ->]|[_ ->]]; auto.
Qed.

(** The limits an input declares. *)
Definition declared_limits (input : ResolveRepairBudgetInput) : list Z :=
  option_list (rb_effectiveMaxRepairAttempts input) ++
  option_list (rb_stageMaxRepairAttempts input) ++
  option_list (rb_pipelineMaxRepairAttempts input) ++
  option_list (rb_validationMaxAttempts input).

(** The strictest limit wins: the repair budget is zero when no limit is
    declared, and otherwise is one of the declared limits and at most every other;
    likewise the effective concurrency is undefined without limits and otherwise
    the least one. *)
Theorem limits_strictest (input : ResolveRepairBudgetInput)
    (conc : ResolveEffectiveConcurrencyInput) :
  (declared_limits input = [] -> resolveRepairBudget input = 0) /\
  (declared_limits input <> [] -> resolveRepairBudget input ∈ declared_limits input) /\
  (forall x, x ∈ declared_limits input -> resolveRepairBudget input <= x) /\
  match resolveEffectiveConcurrency conc with
  | None => rc_effectiveMaxConcurrentWorkers conc = None /\
            rc_pipelineMaxConcurrentWorkers conc = None
  | Some m =>
      (rc_effectiveMaxConcurrentWorkers conc = Some m \/
       rc_pipelineMaxConcurrentWorkers conc = Some m) /\
      (forall x, rc_effectiveMaxConcurrentWorkers conc = Some x -> m <= x) /\
      (forall x, rc_pipelineMaxConcurrentWorkers conc = Some x -> m <= x)
  end.
Proof.
  unfold resolveRepairBudget. fold (declared_limits input).
  split_and!; [..|apply concurrency_strictest]; destruct (declared_limits input) as [|first rest];
    try done.
  - intros _. apply math_min_in.
  - by intros x ?%elem_of_nil.
  - intros x. apply math_min_le.
Qed.

(** ** Which failures are repaired *)

(** The result schedules or proposes a repair. *)
Definition is_repair (r : DecideRecoveryResult) : bool :=
  match r with DRRetry _ _ _ _ | DRPropose _ _ _ => true | _ => false end.

Definition is_retry (r : DecideRecoveryResult) : bool :=
  match r with DRRetry _ _ _ _ => true | _ => false end.

(** The counters after the failure has been counted. *)
Definition countedCounters `{Sha256} (input : DecideRecoveryInput) : StageRecoveryCounters :=
  updateSignatureCounters (di_counters input) (sg_digest (buildFailureSignature (di_failure input))).

(** The strategy that applies to the failure, if its policy has one. *)
Definition strategy_of (input : DecideRecoveryInput) : option Strategy :=
  if category_eqb (pf_category (di_failure input)) cat_validation then
    match di_onValidationFailure input with
    | None => None
    | Some policy =>
        match vp_strategy policy with
        | strategy_pause | strategy_fail => None
        | strategy_repair =>
            Some {| sp_outcome := ro_repair; sp_mode := mode_resume;
                    sp_sessionPolicy := default session_resume (vp_session policy);
                    sp_delegateTo := None |}
        | strategy_repair_fresh =>
            Some {| sp_outcome := ro_repair_fresh; sp_mode := mode_fresh;
                    sp_sessionPolicy := session_fresh; sp_delegateTo := None |}
        | strategy_delegate =>
            match vp_delegateTo policy with
            | Some (String _ _ as target) =>
                Some {| sp_outcome := ro_delegate; sp_mode := mode_delegate;
                        sp_sessionPolicy := session_fresh; sp_delegateTo := Some target |}
            | _ => None
            end
        end
    end
  else Some (planNonValidationStrategy input).

Lemma planValidation_strategy input sg counters :
  category_eqb (pf_category (di_failure input)) cat_validation = true ->
  match planValidationStrategy input sg counters with
  | inl r => strategy_of input = None /\ is_repair r = false /\ result_counters r = counters
  | inr s => strategy_of input = Some s
  end.
Proof.
  intros Hc. unfold planValidationStrategy, strategy_of. rewrite Hc.
  destruct (di_onValidationFailure input) as [policy|]; [|done].
  destruct (vp_strategy policy); try done.
  by destruct (vp_delegateTo policy) as [[|]|].
Qed.

(** Within budget: the failure may be charged another repair. *)
Record within_budget `{Sha256} (input : DecideRecoveryInput) : Prop := {
  wb_category : pf_category (di_failure input) <> cat_security /\
    pf_category (di_failure input) <> cat_terminal;
  wb_retryable : pf_retryable (di_failure input) = true;
  wb_budget : di_repairBudget input <> 0;
  wb_used : rc_repairsUsed (di_counters input) < di_repairBudget input;
  wb_identical : rc_identicalSignatureCount (countedCounters input) < di_repairBudget input
}.

(** Either the failure is out of budget and nothing is repaired, or the
    strategy decides. *)
Lemma decideRecovery_cases `{Sha256} input :
  (~ within_budget input /\ is_repair (decideRecovery input) = false /\
   result_counters (decideRecovery input) = countedCounters input) \/
  (within_budget input /\
   match strategy_of input with
   | None => is_repair (decideRecovery input) = false /\
             result_counters (decideRecovery input) = countedCounters input
   | Some s => decideRecovery input =
       decideWithStrategy input (buildFailureSignature (di_failure input)) (countedCounters input) s
   end).
Proof.
  unfold decideRecovery. fold (countedCounters input).
  destruct (_ || _ || _) eqn:E1.
  { left. split; [|done]. intros [[H1 H2] H3 _ _ _]. unfold category_eqb in E1.
    rewrite H3, !bool_decide_eq_false_2 in E1 by done. done. }
  apply orb_false_elim in E1 as [[E1 E2]%orb_false_elim E3%negb_false_iff].
  apply bool_decide_eq_false in E1, E2.
  destruct (_ || _) eqn:E4.
  { left. split; [|done]. intros [_ _ H3 H4 _]. simpl in E4. lia. }
  destruct (di_repairBudget input <=? rc_identicalSignatureCount (countedCounters input)) eqn:E5.
  { left. split; [|done]. intros [_ _ _ _ H5]. lia. }
  right. split; [split; [done|done|lia|simpl in E4; lia|lia]|].
  destruct (category_eqb (pf_category (di_failure input)) cat_validation) eqn:Ec.
  - pose proof (planValidation_strategy input (buildFailureSignature (di_failure input))
      (countedCounters input) Ec) as Hp.
    destruct (planValidationStrategy _ _ _) as [r|s]; [by destruct Hp as [-> Hp]|by rewrite Hp].
  - unfold strategy_of. by rewrite Ec.
Qed.

(** C36: Repair is guarded: [decideRecovery] schedules or proposes a repair exactly
    when the failure is neither a security nor a terminal one, is retryable, the
    repairs used and the identical-signature count (this failure included) are both
    below a non-zero budget, the policy has a repair strategy, and a resume is only
    chosen when one is available; the repair is a retry in autonomous mode and a
    proposal in HITL mode. *)
Theorem recovery_guarded `{Sha256} (input : DecideRecoveryInput) :
  (is_repair (decideRecovery input) = true <->
   within_budget input /\ exists s, strategy_of input = Some s /\
     (sp_mode s = mode_resume -> di_resumeAvailable input = true)) /\
  (is_repair (decideRecovery input) = true ->
   is_retry (decideRecovery input) = bool_decide (di_executionMode input = autonomous)).
Proof.
  destruct (decideRecovery_cases input) as [(Hn & Hr & _)|[Hw Hs]].
  { rewrite Hr. split; [|done]. split; [done|]. by intros [? _]. }
  destruct (strategy_of input) as [s|].
  - rewrite Hs. unfold decideWithStrategy.
    destruct (bool_decide (sp_mode s = mode_resume) && negb (di_resumeAvailable input)) eqn:E.
    + split; [|done]. split; [done|]. intros (_ & s' & [= <-] & Hres).
      apply andb_prop in E as [E1%bool_decide_eq_true E2%negb_true_iff].
      rewrite Hres in E2 by done. done.
    + assert (sp_mode s = mode_resume -> di_resumeAvailable input = true) as Hres.
      { intros Hm. rewrite bool_decide_eq_true_2 in E by done. by apply negb_false_iff in E. }
      destruct (di_executionMode input); simpl; naive_solver.
  - destruct Hs as [Hr _]. rewrite Hr. split; [|done]. split; [done|]. by intros (_ & s & ? & _).
Qed.

(** ** Repair is bounded *)

Definition with_counters (counters : StageRecoveryCounters) (i : DecideRecoveryInput)
    : DecideRecoveryInput :=
  {| di_runId := di_runId i; di_stageId := di_stageId i; di_graphRevision := di_graphRevision i;
     di_generation := di_generation i; di_attemptOrdinal := di_attemptOrdinal i;
     di_now := di_now i; di_failure := di_failure i; di_stageType := di_stageType i;
     di_sessionPolicy := di_sessionPolicy i; di_onValidationFailure := di_onValidationFailure i;
     di_executionMode := di_executionMode i; di_counters := counters;
     di_repairBudget := di_repairBudget i; di_priorAttemptId := di_priorAttemptId i;
     di_priorBackendExecutionId := di_priorBackendExecutionId i;
     di_resumeAvailable := di_resumeAvailable i |}.

(** A stage's failures decided one after the other, each from the counters the
    one before left. *)
Fixpoint decide_all `{Sha256} (counters : StageRecoveryCounters)
    (failures : list DecideRecoveryInput) : list DecideRecoveryResult :=
  match failures with
  | [] => []
  | i :: rest =>
      let r := decideRecovery (with_counters counters i) in
      r :: decide_all (result_counters r) rest
  end.

Lemma counted_with `{Sha256} counters i :
  countedCounters (with_counters counters i) =
  updateSignatureCounters counters (sg_digest (buildFailureSignature (di_failure i))).
Proof. done. Qed.

Definition retries (rs : list DecideRecoveryResult) : Z :=
  Z.of_nat (length (filter (fun r => is_retry r = true) rs)).

(** What one decision does to the counters. *)
Lemma decide_counters `{Sha256} input :
  let r := decideRecovery input in
  rc_lastSignatureDigest (result_counters r) = rc_lastSignatureDigest (countedCounters input) /\
  rc_identicalSignatureCount (result_counters r) = rc_identicalSignatureCount (countedCounters input) /\
  rc_repairsUsed (result_counters r) =
    rc_repairsUsed (di_counters input) + (if is_retry r then 1 else 0) /\
  (is_retry r = true -> within_budget input).
Proof.
  cbv zeta. destruct (decideRecovery_cases input) as [(_ & Hr & Hc)|[Hw Hs]].
  { rewrite Hc. destruct (decideRecovery input); try done; simpl; split_and!; try done; lia. }
  destruct (strategy_of input) as [s|].
  - rewrite Hs. unfold decideWithStrategy. destruct (_ && _); [simpl; split_and!; (done || lia)|].
    destruct (di_executionMode input); simpl; split_and!; (done || lia).
  - destruct Hs as [Hr Hc]. rewrite Hc.
    destruct (decideRecovery input); try done; simpl; split_and!; try done; lia.
Qed.

Lemma retries_cons r rs : retries (r :: rs) = (if is_retry r then 1 else 0) + retries rs.
Proof.
  unfold retries. rewrite filter_cons. destruct (is_retry r); case_decide; try done; simpl; lia.
Qed.

(** Repair terminates: however many failures a stage reports, at most as many
    autonomous retries are scheduled as the budget leaves after the repairs already
    used, starting from zero at most the budget itself. *)
Theorem recovery_bounded `{Sha256} (budget : Z) (counters : StageRecoveryCounters)
    (failures : list DecideRecoveryInput) :
  (forall i, i ∈ failures -> di_repairBudget i <= budget) ->
  retries (decide_all counters failures) <= Z.max 0 (budget - rc_repairsUsed counters).
Proof.
  revert counters. induction failures as [|i failures IH]; intros counters Hb.
  { unfold retries. simpl. lia. }
  cbn [decide_all]. cbv zeta. rewrite retries_cons.
  pose proof (decide_counters (with_counters counters i)) as (_ & _ & Hu & Hw). simpl in Hu, Hw.
  assert (di_repairBudget i <= budget) as Hi by (apply Hb; left).
  specialize (IH (result_counters (decideRecovery (with_counters counters i)))
    (fun j Hj => Hb j (ltac:(by right)))).
  destruct (is_retry _); [|lia]. destruct (Hw eq_refl) as [_ _ _ Hused _]. simpl in Hused. lia.
Qed.

(** Failures with one and the same signature. *)
Definition same_signature `{Sha256} (digest : string) (failures : list DecideRecoveryInput) : Prop :=
  forall i, i ∈ failures -> sg_digest (buildFailureSignature (di_failure i)) = digest.

Lemma retries_identical_by `{Sha256} budget digest counters failures :
  (forall i, i ∈ failures -> di_repairBudget i <= budget) -> same_signature digest failures ->
  rc_lastSignatureDigest counters = Some digest ->
  retries (decide_all counters failures) <=
    Z.max 0 (budget - 1 - rc_identicalSignatureCount counters).
Proof.
  revert counters. induction failures as [|i failures IH]; intros counters Hb Hs Hl.
  { unfold retries. simpl. lia. }
  cbn [decide_all]. cbv zeta. rewrite retries_cons.
  pose proof (decide_counters (with_counters counters i)) as (Hd & Hn & _ & Hw).
  pose proof (counted_with counters i) as Hc. rewrite (Hs i) in Hc by left.
  rewrite Hc in Hd, Hn. unfold updateSignatureCounters in Hn.
  rewrite bool_decide_eq_true_2 in Hn by done. simpl in Hd, Hn.
  specialize (IH (result_counters (decideRecovery (with_counters counters i)))
    (fun j Hj => Hb j (ltac:(by right))) (fun j Hj => Hs j (ltac:(by right))) Hd).
  rewrite Hn in IH. destruct (is_retry _); [|lia].
  destruct (Hw eq_refl) as [_ _ _ _ Hid]. rewrite Hc in Hid. unfold updateSignatureCounters in Hid.
  rewrite bool_decide_eq_true_2 in Hid by done. simpl in Hid.
  assert (di_repairBudget i <= budget) by (apply Hb; left). lia.
Qed.

(** Unchanged failures do not use up the budget: a stage that keeps failing with
    the same signature is retried at most [budget - 1] times, whatever its
    history. *)
Theorem recovery_unchanged_bounded `{Sha256} (budget : Z) (digest : string)
    (counters : StageRecoveryCounters) (failures : list DecideRecoveryInput) :
  (forall i, i ∈ failures -> di_repairBudget i <= budget) -> same_signature digest failures ->
  0 <= rc_identicalSignatureCount counters ->
  retries (decide_all counters failures) <= Z.max 0 (budget - 1).
Proof.
  intros Hb Hs H0.
  destruct (decide (rc_lastSignatureDigest counters = Some digest)) as [Hl|Hl].
  { etrans; [by eapply retries_identical_by|lia]. }
  destruct failures as [|i failures]; [unfold retries; simpl; lia|].
  cbn [decide_all]. cbv zeta. rewrite retries_cons.
  pose proof (decide_counters (with_counters counters i)) as (Hd & Hn & _ & Hw).
  pose proof (counted_with counters i) as Hc. rewrite (Hs i) in Hc by left.
  rewrite Hc in Hd, Hn. unfold updateSignatureCounters in Hn.
  rewrite bool_decide_eq_false_2 in Hn by done. simpl in Hd, Hn.
  pose proof (retries_identical_by budget digest
    (result_counters (decideRecovery (with_counters counters i))) failures
    (fun j Hj => Hb j (ltac:(by right))) (fun j Hj => Hs j (ltac:(by right))) Hd) as Hrest.
  rewrite Hn in Hrest. destruct (is_retry _); [|lia].
  destruct (Hw eq_refl) as [_ _ _ _ Hid]. rewrite Hc in Hid. unfold updateSignatureCounters in Hid.
  rewrite bool_decide_eq_false_2 in Hid by done. simpl in Hid.
  assert (di_repairBudget i <= budget) by (apply Hb; left). lia.
Qed.

(** ** A concrete stage *)

(** A digest for the concrete decisions: the text itself. *)
Definition text_digest : Sha256 := fun text => text.

Definition flaky (code : string) : PipelineFailurePlain :=
  classifyFailure
    {| ci_classification := "timeout"; ci_phase := "execute"; ci_code := code;
       ci_retryable := true; ci_backendClassification := None; ci_validationFailures := None |}.

Definition no_counters : StageRecoveryCounters :=
  {| rc_repairsUsed := 0; rc_lastSignatureDigest := None; rc_identicalSignatureCount := 0;
     rc_pendingProposalId := None; rc_pendingDirective := None |}.

Definition failing (budget : Z) (code : string) : DecideRecoveryInput :=
  {| di_runId := "run"; di_stageId := "build"; di_graphRevision := 1; di_generation := 1;
     di_attemptOrdinal := 1; di_now := "now"; di_failure := flaky code;
     di_stageType := "command"; di_sessionPolicy := None; di_onValidationFailure := None;
     di_executionMode := autonomous; di_counters := no_counters; di_repairBudget := budget;
     di_priorAttemptId := None; di_priorBackendExecutionId := None;
     di_resumeAvailable := false |}.

Lemma recovery_bounded_witness :
  retries (@decide_all text_digest no_counters
    [failing 2 "a"; failing 2 "b"; failing 2 "c"; failing 2 "d"]) = 2 /\
  retries (@decide_all text_digest no_counters
    [failing 2 "a"; failing 2 "b"; failing 2 "c"; failing 2 "d"]) <= Z.max 0 (2 - 0).
Proof.
  split; [vm_compute; reflexivity|].
  apply (@recovery_bounded text_digest 2 no_counters).
  intros i Hi. repeat (apply elem_of_cons in Hi as [->|Hi]; [vm_compute; discriminate|]).
  by apply elem_of_nil in Hi.
Defined.

Lemma recovery_unchanged_bounded_witness :
  retries (@decide_all text_digest no_counters
    [failing 3 "a"; failing 3 "a"; failing 3 "a"; failing 3 "a"]) = 2 /\
  retries (@decide_all text_digest no_counters
    [failing 3 "a"; failing 3 "a"; failing 3 "a"; failing 3 "a"]) <= Z.max 0 (3 - 1).
Proof.
  split; [vm_compute; reflexivity|].
  apply (@recovery_unchanged_bounded text_digest 3
    (@sg_digest (@buildFailureSignature text_digest (flaky "a"))) no_counters).
  - intros i Hi. repeat (apply elem_of_cons in Hi as [->|Hi]; [vm_compute; discriminate|]).
    by apply elem_of_nil in Hi.
  - intros i Hi. repeat (apply elem_of_cons in Hi as [->|Hi]; [reflexivity|]).
    by apply elem_of_nil in Hi.
  - vm_compute. discriminate.
Defined.
