(* ===== verification/SignatureProps.v ===== *)
(** * Failure signatures identify failures

    [buildFailureSignature] of [signature.ts]: the canonical text is injective
    in the fields it covers and does not depend on the order of the validation
    failures. *)

From Stdlib Require Import Ascii.
From S2P Require Import Prelude Transitions Ids Recovery RecoveryProps.

(** ** Prefix codes *)

(** A rendering whose end is determined by the text: appended to anything, both
    the value and the rest can be read back. *)
Definition prefix_code {A} (r : A -> string) : Prop :=
  forall a b u v, r a +:+ u = r b +:+ v -> a = b /\ u = v.

Definition all_chars : list ascii := map ascii_of_nat (seq 0 256).

Lemma all_chars_complete c : c ∈ all_chars.
Proof.
  unfold all_chars. apply list_elem_of_fmap. exists (nat_of_ascii c).
  split; [by rewrite ascii_nat_embedding|]. apply elem_of_seq.
  pose proof (nat_ascii_bounded c). lia.
Qed.

Lemma forall_chars (P : ascii -> ascii -> bool) :
  forallb (fun c => forallb (P c) all_chars) all_chars = true -> forall c d, P c d = true.
Proof.
  intros H c d. rewrite forallb_forall in H.
  specialize (H c (proj1 (list_elem_of_In _ _) (all_chars_complete c))).
  rewrite forallb_forall in H. exact (H d (proj1 (list_elem_of_In _ _) (all_chars_complete d))).
Qed.

(** Two texts that agree up to the end of one of them. *)
Fixpoint comparable (s t : string) : bool :=
  match s, t with
  | EmptyString, _ | _, EmptyString => true
  | String c s', String d t' => Ascii.eqb c d && comparable s' t'
  end.

Lemma comparable_app s t u v : s +:+ u = t +:+ v -> comparable s t = true.
Proof.
  revert t. induction s as [|c s IH]; intros [|d t]; rewrite ?str_app_cons; simpl; try done.
  intros [= -> H]. rewrite Ascii.eqb_refl. simpl. by apply IH.
Qed.

(** Escaped characters form a prefix code, and none starts with a quote. *)
Lemma json_char_code : prefix_code json_char.
Proof.
  intros c d u v H.
  assert (c = d) as ->.
  { apply comparable_app in H. revert c d H.
    assert (forall c d, implb (comparable (json_char c) (json_char d)) (Ascii.eqb c d) = true) as Hx.
    { apply forall_chars. vm_compute. reflexivity. }
    intros c d H. specialize (Hx c d). rewrite H in Hx. by apply Ascii.eqb_eq. }
  by apply str_app_inv_head in H.
Qed.

Lemma json_char_no_quote c u v : json_char c +:+ u <> quote +:+ v.
Proof.
  intros H. apply comparable_app in H. revert H.
  assert (forall c d : ascii, negb (comparable (json_char c) quote) = true) as Hx.
  { apply forall_chars. vm_compute. reflexivity. }
  specialize (Hx c c). intros H. by rewrite H in Hx.
Qed.

(** Quoted strings are a prefix code. *)
Lemma json_string_code : prefix_code json_string.
Proof.
  intros s t u v. unfold json_string. rewrite !str_app_assoc. intros H%str_app_inv_head.
  revert t H. induction s as [|c s IH]; intros [|d t]; simpl; rewrite ?str_app_nil, ?str_app_assoc.
  - intros H%str_app_inv_head. done.
  - intros H. symmetry in H. by apply json_char_no_quote in H.
  - intros H. by apply json_char_no_quote in H.
  - intros [-> H]%json_char_code. by apply IH in H as [-> ->].
Qed.

(** The rendering never starts with the character [c]. *)
Definition not_starting {A} (c : ascii) (r : A -> string) : Prop :=
  forall a u v, r a +:+ u <> String c v.

Lemma json_string_starts c : c <> ascii_of_N 34 -> not_starting c json_string.
Proof. intros Hc s u v. unfold json_string. rewrite str_app_assoc. intros [= H _]. done. Qed.

(** The elements of a comma-separated list after its first one. *)
Definition comma_tail {A} (r : A -> string) (l : list A) : string :=
  foldr (fun a s => "," +:+ r a +:+ s) "" l.

Lemma join_cons {A} (r : A -> string) a l :
  js_join "," (map r (a :: l)) = r a +:+ comma_tail r l.
Proof.
  unfold js_join. revert a. induction l as [|b l IH]; intros a.
  - simpl. induction (r a) as [|c s IHs]; [done|]. rewrite str_app_cons. by rewrite <-IHs.
  - change (String.concat "," (map r (a :: b :: l))) with
      (r a +:+ "," +:+ String.concat "," (map r (b :: l))).
    rewrite IH. done.
Qed.

(** A delimited list of a prefix code is a prefix code. *)
Lemma tail_code {A} (r : A -> string) close l l' u v :
  prefix_code r -> close <> ","%char ->
  comma_tail r l +:+ String close u = comma_tail r l' +:+ String close v -> l = l' /\ u = v.
Proof.
  intros Hr Hc. revert l'. induction l as [|a l IH]; intros [|b l']; simpl.
  - rewrite !str_app_nil. by intros [= ->].
  - rewrite str_app_nil, !str_app_assoc. intros [= H _]. done.
  - rewrite str_app_nil, !str_app_assoc. intros [= H _]. by symmetry in H.
  - rewrite !str_app_assoc. intros H%str_app_inv_head.
    apply Hr in H as [-> H]. by apply IH in H as [-> ->].
Qed.

Lemma list_code {A} (r : A -> string) close l l' u v :
  prefix_code r -> close <> ","%char -> not_starting close r ->
  js_join "," (map r l) +:+ String close u = js_join "," (map r l') +:+ String close v ->
  l = l' /\ u = v.
Proof.
  intros Hr Hc Hn. destruct l as [|a l], l' as [|b l']; rewrite ?join_cons, ?str_app_assoc.
  - unfold js_join. simpl. rewrite !str_app_nil. by intros [= ->].
  - unfold js_join. simpl. rewrite str_app_nil. intros H. symmetry in H. by apply Hn in H.
  - unfold js_join. simpl. rewrite str_app_nil. intros H. by apply Hn in H.
  - intros H. apply Hr in H as [-> H]. apply tail_code in H as [-> ->]; done.
Qed.

(** ** The signature text *)

(** The values a signature payload carries. *)
Inductive SigValue :=
| VText (s : string)
| VTexts (l : list string).

Definition value_text (v : SigValue) : string :=
  match v with
  | VText s => json_string s
  | VTexts l => "[" +:+ js_join "," (map json_string l) +:+ "]"
  end.

Lemma close_app (s u : string) c : (s +:+ String c "") +:+ u = s +:+ String c u.
Proof. by rewrite str_app_assoc. Qed.

Lemma value_text_code : prefix_code value_text.
Proof.
  intros [s|l] [t|l'] u v; unfold value_text; rewrite ?str_app_assoc, ?close_app.
  - by intros [-> ->]%json_string_code.
  - intros H. by apply json_string_starts in H.
  - intros H. symmetry in H. by apply json_string_starts in H.
  - intros [= H]. rewrite ?close_app in H.
    apply list_code in H as [-> ->]; by auto using json_string_code.
Qed.

(** A [key:value] entry of the signature record. *)
Definition sig_entry (f : string * SigValue) : string :=
  json_string (fst f) +:+ ":" +:+ value_text (snd f).

Lemma sig_entry_code : prefix_code sig_entry.
Proof.
  intros [k v] [k' v'] t t'. unfold sig_entry. simpl. rewrite !str_app_assoc.
  intros [-> H]%json_string_code. apply str_app_inv_head in H.
  by apply value_text_code in H as [-> ->].
Qed.

(** The fields a signature covers, in the order of their names. *)
Definition sig_fields (f : PipelineFailurePlain) : list (string * SigValue) :=
  match pf_backendClassification f with
  | Some b => [("backendClassification", VText b)] | None => []
  end ++
  [ ("category", VText (category_text (pf_category f)));
    ("classification", VText (pf_classification f));
    ("code", VText (pf_code f)); ("phase", VText (pf_phase f)) ] ++
  match pf_validationFailures f with
  | Some vs => [("validationFailures", VTexts (sort_strings vs))] | None => []
  end.

Lemma signature_text f :
  canonicalStringify (signaturePayload f) =
  "{" +:+ js_join "," (map sig_entry (sig_fields f)) +:+ "}".
Proof.
  unfold signaturePayload, sig_fields.
  destruct (pf_backendClassification f), (pf_validationFailures f); simpl;
    rewrite ?map_map; reflexivity.
Qed.

Lemma signature_text_inj f g :
  canonicalStringify (signaturePayload f) = canonicalStringify (signaturePayload g) ->
  sig_fields f = sig_fields g.
Proof.
  rewrite !signature_text. intros [= H].
  apply list_code in H as [-> _]; [done|apply sig_entry_code|done|].
  intros [k v] u w. unfold sig_entry. simpl. rewrite str_app_assoc.
  by apply json_string_starts.
Qed.

Lemma category_text_inj a b : category_text a = category_text b -> a = b.
Proof. by destruct a, b. Qed.

(** ** The claim *)

(** Two failures a signature cannot tell apart: equal category,
    classification, phase, code and backend classification, and the same
    validation failures up to order. *)
Definition same_failure (f g : PipelineFailurePlain) : Prop :=
  pf_category f = pf_category g /\ pf_classification f = pf_classification g /\
  pf_phase f = pf_phase g /\ pf_code f = pf_code g /\
  pf_backendClassification f = pf_backendClassification g /\
  match pf_validationFailures f, pf_validationFailures g with
  | Some v, Some w => v ≡ₚ w
  | None, None => True
  | _, _ => False
  end.

Lemma sort_strings_perm_iff v w : sort_strings v = sort_strings w <-> v ≡ₚ w.
Proof.
  split; [|apply sort_strings_canonical].
  intros H. unfold sort_strings in H.
  etransitivity; [symmetry; apply sort_key_perm|]. rewrite H. apply sort_key_perm.
Qed.

Lemma sig_fields_iff f g : sig_fields f = sig_fields g <-> same_failure f g.
Proof.
  unfold sig_fields, same_failure. split.
  - destruct (pf_backendClassification f), (pf_backendClassification g),
      (pf_validationFailures f), (pf_validationFailures g); simpl; intros H; simplify_eq;
      repeat split; try done;
      repeat match goal with
      | H : category_text _ = category_text _ |- _ => apply category_text_inj in H
      | H : sort_strings _ = sort_strings _ |- _ => apply sort_strings_perm_iff in H
      end; done.
  - intros (-> & -> & -> & -> & -> & Hv).
    destruct (pf_validationFailures f), (pf_validationFailures g); try done.
    by rewrite (proj2 (sort_strings_perm_iff _ _) Hv).
Qed.

(** A failure signature identifies a failure.  Where SHA-256 does not
    collide on the two canonical texts, two failures have the same signature
    digest exactly when they agree on category, classification, phase, code and
    backend classification and their validation failures are permutations of
    each other; so the escaped canonical text is injective in those fields, and
    the order in which a validator reports never changes the digest. *)
Theorem signature_digest_iff `{Sha256} (f g : PipelineFailurePlain) :
  (sha256_hex (canonicalStringify (signaturePayload f)) =
   sha256_hex (canonicalStringify (signaturePayload g)) ->
   canonicalStringify (signaturePayload f) = canonicalStringify (signaturePayload g)) ->
  sg_digest (buildFailureSignature f) = sg_digest (buildFailureSignature g) <->
  same_failure f g.
Proof.
  intros Hsha. rewrite <-sig_fields_iff. split.
  - intros Hd. by apply signature_text_inj, Hsha.
  - intros Hf. unfold buildFailureSignature, sg_digest. by rewrite !signature_text, Hf.
Qed.

Definition validator_failure (names : list string) : PipelineFailurePlain :=
  classifyFailure
    {| ci_classification := "validation_failed"; ci_phase := "validate"; ci_code := "E1";
       ci_retryable := true; ci_backendClassification := None;
       ci_validationFailures := Some names |}.

(** Reordered validators give one digest, another validator gives another. *)
Lemma signature_digest_iff_witness :
  sg_digest (@buildFailureSignature text_digest (validator_failure ["lint"; "unit"])) =
  sg_digest (@buildFailureSignature text_digest (validator_failure ["unit"; "lint"])) /\
  sg_digest (@buildFailureSignature text_digest (validator_failure ["lint"])) <>
  sg_digest (@buildFailureSignature text_digest (validator_failure ["unit"])).
Proof.
  split.
  - apply (@signature_digest_iff text_digest); [done|]. repeat split. simpl. apply perm_swap.
  - intros Hd. apply (@signature_digest_iff text_digest) in Hd; [|done].
    destruct Hd as (_ & _ & _ & _ & _ & Hp). simpl in Hp.
    apply Permutation_singleton_r in Hp. discriminate.
Defined.
