(* ===== verification/Writers.v ===== *)
(** * Grouping and pairwise order

    Both graph validators group the items that write one target and demand that
    any two of them are ordered.  The lemmas about lists of diagnostics, about
    grouping and about that rule are shared here. *)

From S2P Require Import Prelude.

(** ** Lists of diagnostics *)

Lemma flat_map_nil {A B} (f : A -> list B) l : flat_map f l = [] <-> forall x, x ∈ l -> f x = [].
Proof.
  induction l as [|y l IH]; simpl.
  - split; [by intros _ x ?%elem_of_nil|done].
  - rewrite app_nil, IH. split.
    + intros [H1 H2] x [->|?]%elem_of_cons; auto.
    + intros H. split; [apply H; by left|]. intros x Hx. apply H. by right.
Qed.

Lemma if_nil {A} (b : bool) (x : A) : (if b then [x] else []) = [] <-> b = false.
Proof. by destruct b. Qed.

Lemma map_has_keys {A} (m : list (string * A)) k : map_has m k = true <-> k ∈ map_keys m.
Proof.
  rewrite map_get_keys. unfold map_has.
  destruct (map_get m k); split; (done || by intros [? [=]]).
Qed.

Lemma map_has_false {A} (m : list (string * A)) k : map_has m k = false <-> k ∉ map_keys m.
Proof. rewrite <-map_has_keys. by destruct (map_has m k). Qed.

Lemma fold_left_flat_map {A B C} (f : C -> B -> C) (g : A -> list B) l c :
  fold_left (fun c a => fold_left f (g a) c) l c = fold_left f (flat_map g l) c.
Proof.
  revert c. induction l as [|a l IH]; intros c; simpl; [done|]. by rewrite fold_left_app, IH.
Qed.

Lemma fold_left_map {A B C} (f : C -> B -> C) (g : A -> B) l c :
  fold_left f (map g l) c = fold_left (fun c a => f c (g a)) l c.
Proof. revert c. induction l as [|a l IH]; intros c; simpl; [done|]. apply IH. Qed.

(** ** Groups *)

(** The first components of the pairs with second component [p]. *)
Definition children (edges : list (string * string)) (p : string) : list string :=
  map fst (List.filter (fun e => str_eqb (snd e) p) edges).

Lemma children_snoc edges t p q :
  children (edges ++ [(t, p)]) q = children edges q ++ if str_eqb p q then [t] else [].
Proof.
  unfold children. rewrite List.filter_app, map_app. simpl. by destruct (str_eqb p q).
Qed.

Lemma elem_of_children edges p c : c ∈ children edges p <-> (c, p) ∈ edges.
Proof.
  unfold children. rewrite list_elem_of_In, in_map_iff. split.
  - intros ([c' p'] & <- & [Hin Hp]%filter_In). simpl in Hp. apply str_eqb_true in Hp as ->.
    by apply list_elem_of_In.
  - intros Hin. exists (c, p). split; [done|]. apply filter_In.
    split; [by apply list_elem_of_In|]. apply str_eqb_refl.
Qed.

(** No group repeats an element exactly when no pair is repeated. *)
Lemma children_NoDup pairs : (forall r, NoDup (children pairs r)) <-> NoDup pairs.
Proof.
  induction pairs as [|[t r] pairs IH].
  - split; intros; constructor.
  - rewrite NoDup_cons, <-IH. unfold children in *. simpl. split.
    + intros H. split.
      * specialize (H r). rewrite str_eqb_refl in H. simpl in H. apply NoDup_cons in H as [H _].
        intros Hin. apply H. by apply (elem_of_children pairs).
      * intros r'. specialize (H r'). destruct (str_eqb r r'); [|done].
        simpl in H. by apply NoDup_cons in H as [_ ?].
    + intros [H1 H2] r'. destruct (str_eqb r r') eqn:E; [|done]. simpl.
      apply str_eqb_true in E as ->. constructor; [|done].
      intros Hin. apply H1. by apply (elem_of_children pairs).
Qed.

(** Append [fst e] to the group of [snd e]. *)
Definition group_add (w : list (string * list string)) (e : string * string)
    : list (string * list string) :=
  map_set w (snd e) (default [] (map_get w (snd e)) ++ [fst e]).

(** [w] holds the groups of [pairs]. *)
Definition groups (pairs : list (string * string)) (w : list (string * list string)) : Prop :=
  (forall r, default [] (map_get w r) = children pairs r) /\ NoDup (map_keys w).

Lemma group_fold pairs w done : groups done w -> groups (done ++ pairs) (fold_left group_add pairs w).
Proof.
  revert w done. induction pairs as [|[t r] pairs IH]; intros w done [H Hnd]; simpl.
  - by rewrite app_nil_r.
  - specialize (IH (group_add w (t, r)) (done ++ [(t, r)])).
    rewrite <-app_assoc in IH. apply IH. split; [|by apply map_set_NoDup].
    intros r'. unfold group_add. simpl. rewrite map_get_set, children_snoc, <-H.
    destruct (str_eqb r' r) eqn:E.
    + apply str_eqb_true in E as ->. by rewrite str_eqb_refl.
    + rewrite (proj2 (str_eqb_false r r')), app_nil_r; [done|].
      apply str_eqb_false in E. congruence.
Qed.

Lemma group_all pairs : groups pairs (fold_left group_add pairs []).
Proof. apply (group_fold pairs [] []). split; [done|constructor]. Qed.

(** A property of every group. *)
Lemma groups_forall pairs w (P : list string -> Prop) :
  groups pairs w -> P [] ->
  (forall e, e ∈ w -> P (snd e)) <-> forall r, P (children pairs r).
Proof.
  intros [Hw Hnd] Hnil. split.
  - intros H r. rewrite <-Hw. destruct (map_get w r) as [l|] eqn:E; [|done].
    apply (H (r, l)). by apply map_get_elem.
  - intros H [r l] Hin. apply elem_map_get in Hin; [|done]. specialize (H r).
    by rewrite <-Hw, Hin in H.
Qed.

(** ** Pairwise order *)

(** Every pair of positions of [l] is related one way or the other. *)
Fixpoint all_pairs (R : string -> string -> bool) (l : list string) : Prop :=
  match l with
  | [] => True
  | x :: l' => (forall y, y ∈ l' -> R x y || R y x = true) /\ all_pairs R l'
  end.

(** For an irreflexive relation: no repetitions, and distinct entries related. *)
Lemma all_pairs_iff R l :
  (forall x, x ∈ l -> R x x = false) ->
  all_pairs R l <-> NoDup l /\ forall x y, x ∈ l -> y ∈ l -> x <> y -> R x y = true \/ R y x = true.
Proof.
  induction l as [|x l IH]; intros Hirr; simpl.
  - split; [intros _|done]. split; [constructor|by intros x y ?%elem_of_nil].
  - rewrite IH by (intros y Hy; apply Hirr; by right). rewrite NoDup_cons. split.
    + intros (H1 & H2 & H3). split; [split; [|done]|].
      * intros Hin. specialize (H1 x Hin). rewrite Hirr in H1 by (by left). done.
      * intros a b [->|Ha]%elem_of_cons [->|Hb]%elem_of_cons Hne; try done; [| |by apply H3].
        -- by apply orb_prop, H1.
        -- by destruct (orb_prop _ _ (H1 a Ha)); [right|left].
    + intros ((H1 & H2) & H3). split_and!; [|done|].
      * intros y Hy. apply orb_true_iff. apply H3; [by left|by right|]. congruence.
      * intros a b Ha Hb. apply H3; by right.
Qed.

(** Items with an id that write targets. *)
Section Writers.
Context {A : Type} (ident : A -> string) (writes : A -> list string).

(** [(t, r)]: the item [t] writes the target [r]. *)
Definition write_pairs (items : list A) : list (string * string) :=
  flat_map (fun n => map (pair (ident n)) (writes n)) items.

Lemma elem_of_write_pairs items t r :
  (t, r) ∈ write_pairs items <-> exists n, n ∈ items /\ ident n = t /\ r ∈ writes n.
Proof.
  unfold write_pairs. rewrite list_elem_of_In, in_flat_map. split.
  - intros (n & Hn & (r' & [= <- <-] & Hr)%in_map_iff). exists n. by rewrite !list_elem_of_In.
  - intros (n & Hn & <- & Hr). exists n. rewrite <-list_elem_of_In. split; [done|].
    apply in_map. by apply list_elem_of_In.
Qed.

Lemma write_pairs_NoDup items :
  NoDup (map ident items) ->
  NoDup (write_pairs items) <-> forall n, n ∈ items -> NoDup (writes n).
Proof.
  induction items as [|n items IH]; simpl; intros Hids.
  - split; [by intros _ n ?%elem_of_nil|constructor].
  - apply NoDup_cons in Hids as [H1 H2]. rewrite NoDup_app, IH by done.
    assert (NoDup (map (pair (ident n)) (writes n)) <-> NoDup (writes n)) as ->.
    { apply NoDup_fmap. intros a b. by intros [= ->]. }
    split.
    + intros (Ha & _ & Hb) m [->|Hm]%elem_of_cons; auto.
    + intros H. split_and!; [apply H; by left| |intros m Hm; apply H; by right].
      intros [t r] (r' & [= -> ->] & Hr)%list_elem_of_fmap (m & Hm & E & _)%elem_of_write_pairs.
      apply H1. rewrite <-E. apply list_elem_of_fmap. by exists m.
Qed.

(** The pairs rule over all groups, for a relation that is irreflexive on the
    items: no item writes a target twice, and two items that write one target
    are related. *)
Lemma writers_ordered items w (R : string -> string -> bool) :
  NoDup (map ident items) -> groups (write_pairs items) w ->
  (forall n, n ∈ items -> R (ident n) (ident n) = false) ->
  (forall e, e ∈ w -> all_pairs R (sort_strings (snd e))) <->
  (forall n, n ∈ items -> NoDup (writes n)) /\
  (forall m n r, m ∈ items -> n ∈ items -> ident m <> ident n -> r ∈ writes m -> r ∈ writes n ->
     R (ident m) (ident n) = true \/ R (ident n) (ident m) = true).
Proof.
  intros Hids Hw Hirr.
  rewrite (groups_forall _ _ (fun l => all_pairs R (sort_strings l)) Hw) by done.
  assert (forall t r, t ∈ children (write_pairs items) r <->
    exists n, n ∈ items /\ ident n = t /\ r ∈ writes n) as Hc.
  { intros t r. rewrite elem_of_children. apply elem_of_write_pairs. }
  rewrite <-write_pairs_NoDup, <-children_NoDup by done.
  assert (forall r, all_pairs R (sort_strings (children (write_pairs items) r)) <->
    NoDup (children (write_pairs items) r) /\
    forall x y, x ∈ children (write_pairs items) r -> y ∈ children (write_pairs items) r ->
      x <> y -> R x y = true \/ R y x = true) as Hr.
  { intros r. rewrite all_pairs_iff.
    - unfold sort_strings. setoid_rewrite elem_of_sort_key. by rewrite sort_key_perm.
    - intros x. rewrite elem_of_sort_strings. intros (n & Hn & <- & _)%Hc. by apply Hirr. }
  setoid_rewrite Hr. setoid_rewrite Hc. split.
  - intros H. split; [apply H|]. intros m n r Hm Hn Hne Hrm Hrn. 
    destruct (H r) as [_ Ho]. apply Ho; [by exists m|by exists n|done].
  - intros [H1 H2] r. split; [done|].
    intros x y (m & Hm & <- & ?) (n & Hn & <- & ?) Hne. by apply (H2 m n r).
Qed.
End Writers.
