(* ===== verification/Graph.v ===== *)
(** * The normalized pipeline graph

    The [PipelineGraph/v1] contract of
    [packages/contracts/src/pipeline/schemas.ts]: stages, edges with their
    compiled conditions, and limits.  The scheduler and the graph validator
    consume it. *)

From S2P Require Import Prelude Json Evaluate Recovery.

Inductive PipelineStageType :=
| st_agent | st_command | st_approval | st_integration | st_verify | st_publish.

#[export] Instance PipelineStageType_eq_dec : EqDecision PipelineStageType.
Proof. solve_decision. Defined.

Definition stage_type_text (t : PipelineStageType) : string :=
  match t with
  | st_agent => "agent" | st_command => "command" | st_approval => "approval"
  | st_integration => "integration" | st_verify => "verify" | st_publish => "publish"
  end.

Inductive PipelineRepositoryStateCheck := repo_clean | repo_no_untracked | repo_no_staged.

(** [CompletionRequirement]: one constructor per [kind]. *)
Inductive CompletionRequirement :=
| cr_result_envelope
| cr_non_empty_diff
| cr_artifact (name : string)
| cr_schema_check (name : string)
| cr_sections (names : list string)
| cr_command (argv : list string) (exitCode : option Z)
| cr_repository_state (state : PipelineRepositoryStateCheck)
| cr_verdict (profile : string).

(** [PipelineCondition]: a compiled expression or an evaluator handover. *)
Inductive PipelineCondition :=
| CExpression (condition : ExpressionCondition)
| CEvaluator (profile question : string).

Record PipelineLimits := {
  pl_maxPipelineDurationMs : option Z;
  pl_maxConcurrentWorkers : option Z;
  pl_maxRepairAttempts : option Z;
  pl_maxGraphRevisions : option Z
}.

Record StageLimits := {
  sl_maxDurationMs : option Z;
  sl_maxRepairAttempts : option Z
}.

Record CommandDocument := {
  cd_argv : list string;
  cd_cwd : option string;
  cd_env : option (list (string * string))
}.

Record PipelineStage := {
  ps_id : string;
  ps_type : PipelineStageType;
  ps_mode : ExecutionMode;
  ps_optional : bool;
  ps_profile : option string;
  ps_session : option SessionPolicy;
  ps_limits : option StageLimits;
  ps_command : option CommandDocument;
  ps_completion : option (list CompletionRequirement);
  ps_onValidationFailure : option OnValidationFailurePolicy;
  ps_reads : list string;
  ps_writes : list string;
  ps_overridable : list string
}.

Record PipelineEdge := {
  pe_from : string;
  pe_to : string;
  pe_condition : option PipelineCondition
}.

(** [PipelineContext]: the handoff thresholds. *)
Record PipelineContext := {
  pc_handoffSoftThreshold : option number;
  pc_handoffHardThreshold : option number
}.

Record PipelineGraph := {
  pg_pipelineId : string;
  pg_name : option string;
  pg_description : option string;
  pg_mode : ExecutionMode;
  pg_limits : PipelineLimits;
  pg_context : PipelineContext;
  pg_stages : list PipelineStage;
  pg_edges : list PipelineEdge
}.

(** ** The graph as a relation *)

Definition stageIds (g : PipelineGraph) : list string := map ps_id (pg_stages g).

(** [a -> b] is an edge of the graph. *)
Definition edge_rel (g : PipelineGraph) (a b : string) : Prop :=
  exists e, e ∈ pg_edges g /\ pe_from e = a /\ pe_to e = b.

Definition acyclic (g : PipelineGraph) : Prop := forall x, ~ tc (edge_rel g) x x.
