(* ===== verification/CanonicalJson.v ===== *)
(** * Canonical JSON text

    [canonicalJsonStringify] and the JSON Pointer helpers of
    [packages/config/src/json.ts], with the language's [Number::toString]. *)

From Stdlib Require Import Ascii SpecFloat.
From S2P Require Import Prelude Json Recovery.

(** ** Numbers as text *)

Definition newline : string := String (ascii_of_N 10) EmptyString.

Fixpoint repeat_text (s : string) (n : nat) : string :=
  match n with O => "" | S m => s +:+ repeat_text s m end.

Definition digits_text (n : N) : string := pretty n.

(** The least [j] with [10 ^ (j + 1) * num >= den]. *)
Fixpoint leadingZeros (fuel : nat) (num den : N) : N :=
  match fuel with
  | O => 0
  | S fuel' => if (den <=? num * 10)%N then 0 else 1 + leadingZeros fuel' (num * 10) den
  end.

(** The [n] with [10 ^ (n - 1) <= num / den < 10 ^ n]. *)
Definition decimalPoint (num den : N) : Z :=
  if (den <=? num)%N then Z.of_nat (String.length (digits_text (num / den)))
  else - Z.of_N (leadingZeros 400 num den).

(** The double nearest to [s * 10 ^ p]. *)
Definition num_of_scaled (negative : bool) (s : N) (p : Z) : number :=
  if (0 <=? p)%Z then num_of_decimal negative (s * 10 ^ Z.to_N p) 0
  else num_of_decimal negative s (Z.to_N (- p)).

(** The [k]-digit integers next to [num / den * 10 ^ (k - n)], the nearer one
    first. *)
Definition digitCandidates (num den : N) (n k : Z) : list N :=
  let '(a, b) :=
    if (0 <=? k - n)%Z then (num * 10 ^ Z.to_N (k - n), den)%N
    else (num, den * 10 ^ Z.to_N (n - k))%N in
  let s := (a / b)%N in
  if (2 * (a mod b) <=? b)%N then [s; s + 1]%N else [s + 1; s]%N.

(** The shortest decimal [s * 10 ^ (n - k)] with [k] digits that reads back as
    [x]: the first [k] for which there is one.  Seventeen digits always suffice
    for a double.  A power of ten above [x] has one digit and the next [n]. *)
Fixpoint shortestDigits (fuel : nat) (x : number) (negative : bool) (num den : N) (n k : Z)
    : N * Z * Z :=
  match fuel with
  | O => (0%N, k, n)
  | S fuel' =>
      match List.find (fun s => num_same (num_of_scaled negative s (n - k)) x)
              (digitCandidates num den n k) with
      | Some s => if (s =? 10 ^ Z.to_N k)%N then (1%N, 1%Z, (n + 1)%Z) else (s, k, n)
      | None => shortestDigits fuel' x negative num den n (k + 1)
      end
  end.

(** [Number::toString] in radix 10, from the digits [s], their number [k] and
    the position [n] of the decimal point. *)
Definition layoutDigits (s : N) (k n : Z) : string :=
  let digits := digits_text s in
  let take (m : Z) := String.substring 0 (Z.to_nat m) digits in
  let drop (m : Z) :=
    String.substring (Z.to_nat m) (String.length digits - Z.to_nat m) digits in
  if (k <=? n)%Z && (n <=? 21)%Z then digits +:+ repeat_text "0" (Z.to_nat (n - k))
  else if (0 <? n)%Z && (n <=? 21)%Z then take n +:+ "." +:+ drop n
  else if (-6 <? n)%Z && (n <=? 0)%Z then "0." +:+ repeat_text "0" (Z.to_nat (- n)) +:+ digits
  else
    let e := (n - 1)%Z in
    let sign := if (e <? 0)%Z then "-" else "+" in
    let exponent := "e" +:+ sign +:+ digits_text (Z.to_N (Z.abs e)) in
    if (k =? 1)%Z then digits +:+ exponent else take 1%Z +:+ "." +:+ drop 1%Z +:+ exponent.

Definition number_text (x : number) : string :=
  match x with
  | S754_nan => "NaN"
  | S754_infinity negative => if negative then "-Infinity" else "Infinity"
  | S754_zero _ => "0"
  | S754_finite negative m e =>
      let '(num, den) :=
        if (0 <=? e)%Z then (Npos m * 2 ^ Z.to_N e, 1)%N else (Npos m, 2 ^ Z.to_N (- e))%N in
      let '(s, k, n) := shortestDigits 17 x negative num den (decimalPoint num den) 1 in
      (if negative then "-" else "") +:+ layoutDigits s k n
  end.

(** ** [canonicalJsonStringify] *)

(** [JSON.stringify] on a scalar. *)
Definition scalar_text (s : JsonScalar) : string :=
  match s with
  | SString t => json_string t
  | SNumber n => number_text n
  | SBoolean true => "true"
  | SBoolean false => "false"
  | SNull => "null"
  end.

(** Lines between two brackets, one indentation step further in. *)
Definition bracketed (opening closing : string) (depth : nat) (lines : list string) : string :=
  match lines with
  | [] => opening +:+ closing
  | _ =>
      let indent := repeat_text "  " (S depth) in
      opening +:+ newline +:+
      js_join ("," +:+ newline) (map (fun l => indent +:+ l) lines) +:+
      newline +:+ repeat_text "  " depth +:+ closing
  end.

Definition field_line (f : string * string) : string :=
  json_string (fst f) +:+ ": " +:+ snd f.

Fixpoint stringifyIndented (depth : nat) (value : JsonValue) : string :=
  match value with
  | JScalar s => scalar_text s
  | JArray items => bracketed "[" "]" depth (map (stringifyIndented (S depth)) items)
  | JObject fields =>
      bracketed "{" "}" depth
        (map field_line
           (sort_key fst (map (fun f => (fst f, stringifyIndented (S depth) (snd f))) fields)))
  end.

(** The values that do not make the walk throw: no number is [NaN] or infinite. *)
Fixpoint representable (value : JsonValue) : bool :=
  match value with
  | JScalar (SNumber n) => num_isFinite n
  | JScalar _ => true
  | JArray items => forallb representable items
  | JObject fields => forallb (fun f => representable (snd f)) fields
  end.

(** [None] is the [TypeError] of a non-finite number. *)
Definition canonicalJsonStringify (value : JsonValue) : option string :=
  if representable value then Some (stringifyIndented 0 value +:+ newline) else None.

(** ** JSON pointers *)

Definition escape_char (c : ascii) : string :=
  if bool_decide (c = "~"%char) then "~0"
  else if bool_decide (c = "/"%char) then "~1"
  else String c "".

(** [segment.replace(/~/g, "~0").replace(/\//g, "~1")]: the first replacement
    produces no slash, so the two act character by character. *)
Fixpoint escapePointerSegment (segment : string) : string :=
  match segment with
  | EmptyString => ""
  | String c rest => escape_char c +:+ escapePointerSegment rest
  end.

Definition joinPointer (base segment : string) : string :=
  base +:+ "/" +:+ escapePointerSegment segment.

(** [joinPointer(base, index)]. *)
Definition joinIndex (base : string) (index : nat) : string :=
  joinPointer base (num_text (Z.of_nat index)).
