(* ===== verification/JsonProps.v ===== *)
(** * Canonical JSON text identifies values

    [canonicalJsonStringify]: two values have the same text exactly when they
    are the same up to the order of object keys. *)

From Stdlib Require Import Ascii SpecFloat.
From S2P Require Import Prelude Ids Json Recovery SignatureProps CanonicalJson.

(** ** Reading numbers back *)

Definition is_digit (c : ascii) : bool :=
  (48 <=? N_of_ascii c)%N && (N_of_ascii c <=? 57)%N.

(** Digits with at most one point, up to an exponent mark or the end. *)
Fixpoint readDecimal (acc scale : N) (dot : bool) (text : string) : option (N * N * string) :=
  match text with
  | EmptyString => Some (acc, scale, "")
  | String c rest =>
      if is_digit c then
        readDecimal (acc * 10 + digit_value c)%N (if dot then scale + 1 else scale)%N dot rest
      else if bool_decide (c = "."%char) && negb dot then readDecimal acc scale true rest
      else if bool_decide (c = "e"%char) then Some (acc, scale, rest)
      else None
  end.

Definition readExponent (text : string) : option Z :=
  match text with
  | EmptyString => Some 0%Z
  | String c rest =>
      match readDecimal 0 0 true rest with
      | Some (n, _, EmptyString) =>
          if bool_decide (c = "-"%char) then Some (- Z.of_N n)%Z
          else if bool_decide (c = "+"%char) then Some (Z.of_N n) else None
      | _ => None
      end
  end.

(** [Number(text)] on decimal literals. *)
Definition readNumber (text : string) : option number :=
  let '(negative, body) :=
    match text with
    | String c rest => if bool_decide (c = "-"%char) then (true, rest) else (false, text)
    | EmptyString => (false, text)
    end in
  match readDecimal 0 0 false body with
  | Some (digits, scale, exponent) =>
      match readExponent exponent with
      | Some e => Some (num_of_scaled negative digits (e - Z.of_N scale))
      | None => None
      end
  | None => None
  end.

(** The characters of a numeric literal, and those it may start with. *)
Definition numeric_start (c : ascii) : bool := is_digit c || bool_decide (c = "-"%char).

Fixpoint numeric (text : string) : bool :=
  match text with
  | EmptyString => true
  | String c rest => (numeric_start c || bool_decide (c ∈ ["."; "e"; "+"]%char)) && numeric rest
  end.

Definition numeral (text : string) : bool :=
  match text with EmptyString => false | String c _ => numeric_start c && numeric text end.

(** The text of the number is a numeral that reads back as the number: what the
    language promises of every finite number but the negative zero. *)
Definition num_prints (n : number) : bool :=
  bool_decide (readNumber (number_text n) = Some n) && numeral (number_text n).

(** Every number in the value prints, and no object repeats a key. *)
Fixpoint json_prints (value : JsonValue) : bool :=
  match value with
  | JScalar (SNumber n) => num_prints n
  | JScalar _ => true
  | JArray items => forallb json_prints items
  | JObject fields =>
      bool_decide (NoDup (map fst fields)) && forallb (fun f => json_prints (snd f)) fields
  end.

(** The value with the fields of every object in the order of their names. *)
Fixpoint json_sorted (value : JsonValue) : JsonValue :=
  match value with
  | JScalar s => JScalar s
  | JArray items => JArray (map json_sorted items)
  | JObject fields => JObject (sort_key fst (map (fun f => (fst f, json_sorted (snd f))) fields))
  end.

(** Induction over a value and the values inside it. *)
Section JsonInd.
Context (P : JsonValue -> Prop).
Context (Hscalar : forall s, P (JScalar s)).
Context (Harray : forall items, Forall P items -> P (JArray items)).
Context (Hobject : forall fields, Forall (fun f => P (snd f)) fields -> P (JObject fields)).

Fixpoint json_ind' (v : JsonValue) : P v :=
  match v with
  | JScalar s => Hscalar s
  | JArray items =>
      Harray items
        ((fix go l : Forall P l :=
            match l with
            | [] => List.Forall_nil _
            | x :: l' => List.Forall_cons _ x l' (json_ind' x) (go l')
            end) items)
  | JObject fields =>
      Hobject fields
        ((fix go l : Forall (fun f => P (snd f)) l :=
            match l with
            | [] => List.Forall_nil _
            | x :: l' => List.Forall_cons _ x l' (json_ind' (snd x)) (go l')
            end) fields)
  end.
End JsonInd.

(** ** Texts that end where the value ends *)

(** What may follow a value: nothing, a comma or a line break. *)
Definition delimited (u : string) : Prop :=
  match u with
  | EmptyString => True
  | String c _ => c = ","%char \/ c = ascii_of_N 10
  end.

Lemma numeric_code a b u v :
  numeric a = true -> numeric b = true -> delimited u -> delimited v ->
  a +:+ u = b +:+ v -> a = b /\ u = v.
Proof.
  assert (forall c s t, numeric (String c s) = true -> delimited (String c t) -> False) as Hc.
  { intros c s t [H _]%andb_prop [->| ->]; by vm_compute in H. }
  revert b. induction a as [|c a IH]; intros [|d b] Ha Hb Hu Hv;
    rewrite ?str_app_cons, ?str_app_nil.
  - done.
  - intros ->. by destruct (Hc _ _ _ Hb Hu).
  - intros <-. by destruct (Hc _ _ _ Ha Hv).
  - apply andb_prop in Ha as [_ Ha]. apply andb_prop in Hb as [_ Hb].
    intros [= -> E]. by destruct (IH b Ha Hb Hu Hv E) as [-> ->].
Qed.

Lemma numeral_start a : numeral a = true ->
  exists c s, a = String c s /\ numeric_start c = true /\ numeric a = true.
Proof. destruct a as [|c s]; [done|]. intros [H1 H2]%andb_prop. by exists c, s. Qed.

Lemma num_prints_inj n m : num_prints n = true -> num_prints m = true ->
  number_text n = number_text m -> n = m.
Proof.
  unfold num_prints. intros [H1%bool_decide_eq_true _]%andb_prop
    [H2%bool_decide_eq_true _]%andb_prop E. rewrite E in H1. congruence.
Qed.

Definition scalar_prints (s : JsonScalar) : bool :=
  match s with SNumber n => num_prints n | _ => true end.

(** The first character of a value's text tells its kind. *)
Lemma scalar_head s : scalar_prints s = true ->
  exists c t, scalar_text s = String c t /\
    match s with
    | SString _ => c = ascii_of_N 34
    | SNumber _ => numeric_start c = true
    | SBoolean b => c = if b then "t"%char else "f"%char
    | SNull => c = "n"%char
    end.
Proof.
  destruct s as [s|n|[|]|]; simpl; intros H; try (by eexists _, _).
  apply andb_prop in H as [_ (c & t & E & Hc & _)%numeral_start]. by exists c, t.
Qed.

Lemma scalar_code s t u v :
  scalar_prints s = true -> scalar_prints t = true -> delimited u -> delimited v ->
  scalar_text s +:+ u = scalar_text t +:+ v -> s = t /\ u = v.
Proof.
  intros Hs Ht Hu Hv E.
  destruct (scalar_head s Hs) as (c & a & Ea & Hc), (scalar_head t Ht) as (d & b & Eb & Hd).
  assert (c = d) as Hcd.
  { rewrite Ea, Eb, !str_app_cons in E. by injection E. }
  destruct s as [s|n|[|]|], t as [t|m|[|]|]; subst; try done; simpl in E.
  - apply json_string_code in E. naive_solver.
  - apply andb_prop in Hs as [Hs1 (? & ? & _ & _ & Hs2)%numeral_start].
    apply andb_prop in Ht as [Ht1 (? & ? & _ & _ & Ht2)%numeral_start].
    apply numeric_code in E as [E ->]; [|done..]. split; [|done]. f_equal.
    apply bool_decide_eq_true in Hs1, Ht1. rewrite E in Hs1. congruence.
  - by apply (str_app_inv_head "true") in E.
  - by apply (str_app_inv_head "false") in E.
  - by apply (str_app_inv_head "null") in E.
Qed.

(** ** Bracketed lines *)

Definition line_tail (indent : string) (lines : list string) : string :=
  foldr (fun l s => "," +:+ newline +:+ indent +:+ l +:+ s) "" lines.

Lemma join_lines indent l lines :
  js_join ("," +:+ newline) (map (fun l => indent +:+ l) (l :: lines)) =
  indent +:+ l +:+ line_tail indent lines.
Proof.
  unfold js_join. revert l. induction lines as [|m lines IH]; intros l.
  - simpl. induction indent as [|c i IHi]; [|rewrite !str_app_cons; by rewrite <-IHi].
    rewrite !str_app_nil. induction l as [|c l IHl]; [done|]. rewrite str_app_cons. by rewrite <-IHl.
  - change (String.concat ("," +:+ newline) (map (fun l => indent +:+ l) (l :: m :: lines)))
      with ((indent +:+ l) +:+ ("," +:+ newline) +:+
        String.concat ("," +:+ newline) (map (fun l => indent +:+ l) (m :: lines))).
    rewrite IH. simpl. by rewrite !str_app_assoc.
Qed.

Lemma bracketed_cons o c depth l lines :
  bracketed o c depth (l :: lines) =
  o +:+ newline +:+ repeat_text "  " (S depth) +:+ l +:+
  line_tail (repeat_text "  " (S depth)) lines +:+ newline +:+ repeat_text "  " depth +:+ c.
Proof. unfold bracketed. rewrite join_lines. by rewrite !str_app_assoc. Qed.

Lemma line_tail_delimited indent lines u v :
  delimited (line_tail indent lines +:+ newline +:+ u +:+ v).
Proof. destruct lines as [|l lines]; [by right|by left]. Qed.

Section Lines.
Context {A : Type} (f : A -> string) (R : A -> A -> Prop) (l l' : list A).
Context (Hf : forall x y u v, x ∈ l -> y ∈ l' -> delimited u -> delimited v ->
  f x +:+ u = f y +:+ v -> R x y /\ u = v).

Lemma line_tail_code indent closing k k' u v :
  (forall x, x ∈ k -> x ∈ l) -> (forall x, x ∈ k' -> x ∈ l') ->
  line_tail indent (map f k) +:+ newline +:+ closing +:+ u =
  line_tail indent (map f k') +:+ newline +:+ closing +:+ v -> Forall2 R k k' /\ u = v.
Proof.
  revert k'. induction k as [|x k IH]; intros [|y k'] Hk Hk'; simpl; rewrite ?str_app_nil.
  - intros H%str_app_inv_head%str_app_inv_head. by split; [constructor|].
  - rewrite !str_app_assoc. by intros [= ].
  - rewrite !str_app_assoc. by intros [= ].
  - rewrite !str_app_assoc.
    intros H%str_app_inv_head%str_app_inv_head%str_app_inv_head.
    apply Hf in H as [HR H]; [|apply Hk; by left|apply Hk'; by left|apply line_tail_delimited..].
    apply IH in H as [HR' ->]; [|intros z Hz; by apply Hk; right|intros z Hz; by apply Hk'; right].
    by split; [constructor|].
Qed.

Lemma bracketed_sub (c d : ascii) depth k k' u v :
  (forall x, x ∈ k -> x ∈ l) -> (forall x, x ∈ k' -> x ∈ l') -> d <> ascii_of_N 10 ->
  bracketed (String c "") (String d "") depth (map f k) +:+ u =
  bracketed (String c "") (String d "") depth (map f k') +:+ v -> Forall2 R k k' /\ u = v.
Proof.
  intros Hk Hk' Hd.
  destruct k as [|x k], k' as [|y k']; rewrite ?map_cons, ?bracketed_cons;
    cbn [map bracketed]; rewrite !str_app_assoc.
  - intros H%str_app_inv_head%str_app_inv_head. by split; [constructor|].
  - intros H%str_app_inv_head. by injection H as ->.
  - intros H%str_app_inv_head. by injection H as <-.
  - intros H%str_app_inv_head%str_app_inv_head%str_app_inv_head.
    apply Hf in H as [HR H];
      [|apply Hk; by left|apply Hk'; by left|apply line_tail_delimited..].
    apply line_tail_code in H as [HR' H];
      [|intros z Hz; by apply Hk; right|intros z Hz; by apply Hk'; right].
    apply str_app_inv_head in H. by split; [constructor|].
Qed.

Lemma bracketed_code (c d : ascii) depth u v :
  d <> ascii_of_N 10 ->
  bracketed (String c "") (String d "") depth (map f l) +:+ u =
  bracketed (String c "") (String d "") depth (map f l') +:+ v -> Forall2 R l l' /\ u = v.
Proof. by apply bracketed_sub. Qed.
End Lines.

(** ** Values *)

Lemma insert_by_map {A B} (ka : A -> string) (kb : B -> string) (g : A -> B) x l :
  (forall x, kb (g x) = ka x) ->
  insert_by (key_lt kb) (g x) (map g l) = map g (insert_by (key_lt ka) x l).
Proof.
  intros Hk. induction l as [|y l IH]; simpl; [done|]. unfold key_lt at 1 3. rewrite !Hk.
  case_match; simpl; [done|]. by rewrite IH.
Qed.

Lemma sort_key_map {A B} (ka : A -> string) (kb : B -> string) (g : A -> B) l :
  (forall x, kb (g x) = ka x) -> sort_key kb (map g l) = map g (sort_key ka l).
Proof.
  intros Hk. unfold sort_key, sort_by.
  enough (forall acc, fold_left (fun acc x => insert_by (key_lt kb) x acc) (map g l) (map g acc) =
    map g (fold_left (fun acc x => insert_by (key_lt ka) x acc) l acc)) as H by (apply (H [])).
  induction l as [|x l IH]; intros acc; simpl; [done|].
  by rewrite (insert_by_map ka kb g x acc Hk), IH.
Qed.

(** An object's lines are those of its fields in the order of their names. *)
Definition object_line (depth : nat) (f : string * JsonValue) : string :=
  field_line (fst f, stringifyIndented depth (snd f)).

Lemma stringify_object depth fields :
  stringifyIndented depth (JObject fields) =
  bracketed "{" "}" depth (map (object_line (S depth)) (sort_key fst fields)).
Proof.
  cbn [stringifyIndented].
  rewrite (sort_key_map (A:=string * JsonValue) fst fst) by done. by rewrite map_map.
Qed.

Lemma json_sorted_object fields :
  json_sorted (JObject fields) =
  JObject (map (fun f => (fst f, json_sorted (snd f))) (sort_key fst fields)).
Proof.
  cbn [json_sorted]. by rewrite (sort_key_map (A:=string * JsonValue) fst fst).
Qed.

(** The first character of a value's text. *)
Definition value_head (v : JsonValue) (c : ascii) : Prop :=
  match v with
  | JScalar _ => c <> "["%char /\ c <> "{"%char
  | JArray _ => c = "["%char
  | JObject _ => c = "{"%char
  end.

Lemma bracketed_head c t depth lines : exists s, bracketed (String c "") t depth lines = String c s.
Proof. destruct lines; simpl; by eexists. Qed.

Lemma value_starts depth v :
  json_prints v = true -> exists c t, stringifyIndented depth v = String c t /\ value_head v c.
Proof.
  destruct v as [s|items|fields]; intros H.
  - destruct (scalar_head s) as (c & t & E & Hc); [by destruct s|]. exists c, t.
    split; [done|]. destruct s as [s|n|[|]|]; subst; try done; split; intros ->; done.
  - cbn [stringifyIndented]. destruct (bracketed_head "[" "]" depth
      (map (stringifyIndented (S depth)) items)) as [s E]. by exists "["%char, s.
  - rewrite stringify_object. destruct (bracketed_head "{" "}" depth
      (map (object_line (S depth)) (sort_key fst fields))) as [s E]. by exists "{"%char, s.
Qed.

Lemma Forall2_map_eq {A B} (g : A -> B) l l' :
  Forall2 (fun x y => g x = g y) l l' -> map g l = map g l'.
Proof. induction 1 as [|x y l l' E _ IH]; simpl; [done|]. by rewrite E, IH. Qed.

Lemma object_line_code depth f f' u v :
  (forall u v, delimited u -> delimited v ->
     stringifyIndented depth (snd f) +:+ u = stringifyIndented depth (snd f') +:+ v ->
     json_sorted (snd f) = json_sorted (snd f') /\ u = v) ->
  delimited u -> delimited v -> object_line depth f +:+ u = object_line depth f' +:+ v ->
  (fst f, json_sorted (snd f)) = (fst f', json_sorted (snd f')) /\ u = v.
Proof.
  intros Hv Hu Hu' H. unfold object_line, field_line in H. cbn [fst snd] in H.
  rewrite !str_app_assoc in H. apply json_string_code in H as [-> H].
  apply str_app_inv_head in H. by apply Hv in H as [-> ->].
Qed.

(** A value can be read back from its text and what follows it. *)
Lemma stringify_code v :
  forall w depth t u, json_prints v = true -> json_prints w = true ->
    delimited t -> delimited u ->
    stringifyIndented depth v +:+ t = stringifyIndented depth w +:+ u ->
    json_sorted v = json_sorted w /\ t = u.
Proof.
  induction v as [s|items IH|fields IH] using json_ind'; intros w depth t u Hv Hw Ht Hu E;
    destruct (value_starts depth _ Hv) as (c & a & Ea & Hc),
      (value_starts depth _ Hw) as (d & b & Eb & Hd);
    assert (c = d) as Hcd by (rewrite Ea, Eb, !str_app_cons in E; by injection E);
    destruct w as [s'|items'|fields']; simpl in Hc, Hd; subst; try (by destruct Hc);
    try (by destruct Hd); try done; clear Ea Eb.
  - apply scalar_code in E as [-> ->]; [done| | |done|done]; [by destruct s|by destruct s'].
  - cbn [stringifyIndented json_prints] in *. rewrite !forallb_forall in Hv, Hw.
    rewrite Forall_forall in IH.
    apply (bracketed_code (stringifyIndented (S depth)) (fun x y => json_sorted x = json_sorted y))
      in E as [E ->]; [| |done].
    + split; [|done]. simpl. f_equal. by apply Forall2_map_eq.
    + intros x y t' u' Hx Hy Ht' Hu' E'.
      apply (IH x Hx y (S depth) t' u'); [apply Hv|apply Hw|..]; try done; by apply list_elem_of_In.
  - rewrite !stringify_object in E. cbn [json_prints] in Hv, Hw.
    apply andb_prop in Hv as [_ Hv]. apply andb_prop in Hw as [_ Hw].
    rewrite forallb_forall in Hv, Hw. rewrite Forall_forall in IH.
    apply (bracketed_code (object_line (S depth))
      (fun x y => (fst x, json_sorted (snd x)) = (fst y, json_sorted (snd y)))) in E as [E ->];
      [| |done].
    + split; [|done]. rewrite !json_sorted_object. f_equal. by apply Forall2_map_eq.
    + intros x y t' u'. rewrite !elem_of_sort_key. intros Hx Hy. apply object_line_code.
      intros t2 u2 Ht2 Hu2. apply (IH x Hx (snd y) (S depth)); [apply Hv|apply Hw|..]; try done;
        by apply list_elem_of_In.
Qed.

(** Sorting the fields does not change the text. *)
Lemma stringify_sorted v depth :
  json_prints v = true -> stringifyIndented depth (json_sorted v) = stringifyIndented depth v.
Proof.
  revert depth. induction v as [s|items IH|fields IH] using json_ind'; intros depth Hv; [done|..].
  - cbn [json_sorted stringifyIndented json_prints] in *. f_equal. rewrite map_map.
    rewrite forallb_forall in Hv. rewrite Forall_forall in IH. apply map_ext_in.
    intros x Hx. apply IH; [by apply list_elem_of_In|by apply Hv].
  - rewrite json_sorted_object, !stringify_object. cbn [json_prints] in Hv.
    apply andb_prop in Hv as [Hnd Hv]. apply bool_decide_eq_true in Hnd.
    rewrite forallb_forall in Hv. rewrite Forall_forall in IH. f_equal.
    rewrite (sort_key_map (A:=string * JsonValue) fst fst) by done.
    rewrite (sort_key_canonical fst (sort_key fst fields) fields).
    + rewrite map_map. apply map_ext_in. intros f Hf%list_elem_of_In. rewrite elem_of_sort_key in Hf.
      unfold object_line. simpl. do 2 f_equal. apply IH; [done|]. by apply Hv, list_elem_of_In.
    + intros x y. rewrite !elem_of_sort_key. by apply NoDup_map_inj.
    + apply sort_key_perm.
Qed.

Lemma prints_representable v : json_prints v = true -> representable v = true.
Proof.
  induction v as [s|items IH|fields IH] using json_ind'; cbn [json_prints representable].
  - destruct s as [|n| |]; try done. unfold num_prints. intros [_ H]%andb_prop.
    destruct n as [|[|]| |]; try done.
  - rewrite !forallb_forall. rewrite Forall_forall in IH. intros H x Hx.
    apply IH; [by apply list_elem_of_In|by apply H].
  - intros [_ H]%andb_prop. rewrite forallb_forall in *. rewrite Forall_forall in IH. intros f Hf.
    apply IH; [by apply list_elem_of_In|by apply H].
Qed.

Lemma canonical_text v :
  json_prints v = true -> canonicalJsonStringify v = Some (stringifyIndented 0 v +:+ newline).
Proof. intros H. unfold canonicalJsonStringify. by rewrite prints_representable. Qed.

Lemma canonical_text_iff v w :
  json_prints v = true -> json_prints w = true ->
  stringifyIndented 0 v +:+ newline = stringifyIndented 0 w +:+ newline <->
  json_sorted v = json_sorted w.
Proof.
  intros Hv Hw. split.
  - intros H. apply (stringify_code v w 0 newline newline) in H as [H _]; try done; by right.
  - intros H. f_equal. by rewrite <-(stringify_sorted v), <-(stringify_sorted w), H by done.
Qed.

(** For values without repeated keys whose numbers print to numerals that
    read back, [canonicalJsonStringify] returns a text, and two values have the
    same text exactly when they are equal up to the order of the keys of their
    objects: the text can be compared and hashed in place of the value, and
    the value can be read back from it. *)
Theorem canonical_json_iff v w :
  json_prints v = true -> json_prints w = true ->
  exists s t, canonicalJsonStringify v = Some s /\ canonicalJsonStringify w = Some t /\
    (s = t <-> json_sorted v = json_sorted w).
Proof.
  intros Hv Hw. eexists _, _. split; [by apply canonical_text|].
  split; [by apply canonical_text|]. by apply canonical_text_iff.
Qed.

Lemma canonical_json_iff_witness :
  exists s t,
    canonicalJsonStringify (JObject [("b", JArray [JScalar (SNumber (num_of_Z 12))]);
                                     ("a", JScalar (SString "x"))]) = Some s /\
    canonicalJsonStringify (JObject [("a", JScalar (SString "x"));
                                     ("b", JArray [JScalar (SNumber (num_of_Z 12))])]) = Some t /\
    s = t.
Proof.
  destruct (canonical_json_iff
    (JObject [("b", JArray [JScalar (SNumber (num_of_Z 12))]); ("a", JScalar (SString "x"))])
    (JObject [("a", JScalar (SString "x")); ("b", JArray [JScalar (SNumber (num_of_Z 12))])]))
    as (s & t & Hs & Ht & H); [vm_compute; reflexivity..|].
  exists s, t. split; [done|]. split; [done|]. apply H. vm_compute. reflexivity.
Defined.
