(* ===== verification/Report.v ===== *)
(** * Diagnostics of the pipeline reader

    [packages/pipeline/src/reporter.ts] and [diagnostics.ts], with the shared
    record and ordering of [packages/config/src/diagnostics.ts]. *)

From S2P Require Import Prelude.

Inductive DiagnosticSeverity := sev_error | sev_warning | sev_info.

#[export] Instance DiagnosticSeverity_eq_dec : EqDecision DiagnosticSeverity.
Proof. solve_decision. Defined.

Definition SEVERITY_RANK (s : DiagnosticSeverity) : Z :=
  match s with sev_error => 0 | sev_warning => 1 | sev_info => 2 end.

Record PipelineDiagnostic := {
  pd_code : string;
  pd_severity : DiagnosticSeverity;
  pd_message : string;
  pd_sourcePath : option string;
  pd_line : option Z;
  pd_column : option Z;
  pd_pointer : option string;
  pd_suggestion : option string
}.

(** [createPipelineDiagnostic]. *)
Definition createPipelineDiagnostic (code : string) (severity : DiagnosticSeverity)
    (message : string) (sourcePath : option string) (line column : option Z)
    (pointer suggestion : option string) : PipelineDiagnostic :=
  {| pd_code := code; pd_severity := severity; pd_message := message;
     pd_sourcePath := sourcePath; pd_line := line; pd_column := column;
     pd_pointer := pointer; pd_suggestion := suggestion |}.

(** The first comparison that does not tie decides. *)
Fixpoint first_delta (deltas : list Z) : Z :=
  match deltas with
  | [] => 0
  | d :: rest => if (d =? 0)%Z then first_delta rest else d
  end.

Definition compareDiagnostics (a b : PipelineDiagnostic) : Z :=
  first_delta
    [ SEVERITY_RANK (pd_severity a) - SEVERITY_RANK (pd_severity b);
      compareCodepoints (pd_code a) (pd_code b);
      compareCodepoints (default "" (pd_pointer a)) (default "" (pd_pointer b));
      default 0 (pd_line a) - default 0 (pd_line b);
      default 0 (pd_column a) - default 0 (pd_column b);
      compareCodepoints (pd_message a) (pd_message b) ]%Z.

Definition comparePipelineDiagnostics (a b : PipelineDiagnostic) : Z :=
  first_delta
    [ compareDiagnostics a b;
      compareCodepoints (default "" (pd_suggestion a)) (default "" (pd_suggestion b)) ].

Definition sortPipelineDiagnostics (diagnostics : list PipelineDiagnostic)
    : list PipelineDiagnostic :=
  sort_by (fun a b => (comparePipelineDiagnostics a b <? 0)%Z) diagnostics.

Definition hasErrorDiagnostic (diagnostics : list PipelineDiagnostic) : bool :=
  existsb (fun d => bool_decide (pd_severity d = sev_error)) diagnostics.

(** What a reporter is created with: the path and the position resolver, which
    reads the composed YAML document.  Its mutable part, the diagnostics
    collected so far, is the list the rules append to. *)
Record Reporter := {
  rp_sourcePath : option string;
  rp_resolvePosition : string -> option (Z * Z)
}.

Definition report (r : Reporter) (code : string) (severity : DiagnosticSeverity)
    (message pointer suggestion : string) : PipelineDiagnostic :=
  let position := rp_resolvePosition r pointer in
  createPipelineDiagnostic code severity message (rp_sourcePath r)
    (fst <$> position) (snd <$> position) (Some pointer) (Some suggestion).

(** [reporter.error(...)]. *)
Definition error (r : Reporter) (code message pointer suggestion : string)
    : list PipelineDiagnostic :=
  [report r code sev_error message pointer suggestion].

Definition collect (collected : list PipelineDiagnostic) : list PipelineDiagnostic :=
  sortPipelineDiagnostics collected.
