(* ===== verification/GraphRules.v ===== *)
(** * The semantic rules of a pipeline graph

    [packages/pipeline/src/graph/validate.ts]: the rules over the whole graph
    that no schema can express.  Each rule is the list of diagnostics it
    reports, in the order it reports them. *)

From Stdlib Require Import Ascii.
From S2P Require Import Prelude Json Recovery Graph CanonicalJson Report.

(** The result of normalization that the rules read
    ([NormalizedPipeline] of [graph/normalize.ts]). *)
Record NormalizedPipeline := {
  np_graph : PipelineGraph;
  np_edgePointers : list string;
  np_stagePointers : list (string * string)
}.

(** [values.forEach((value, index) => ...)], collecting diagnostics. *)
Definition each_indexed {A B} (f : nat -> A -> list B) (l : list A) : list B :=
  concat (imap f l).

#[export] Instance ValidationStrategy_eq_dec : EqDecision ValidationStrategy.
Proof. solve_decision. Defined.

(** ** Words *)

Definition strategy_text (s : ValidationStrategy) : string :=
  match s with
  | strategy_pause => "pause" | strategy_fail => "fail" | strategy_repair => "repair"
  | strategy_repair_fresh => "repair_fresh" | strategy_delegate => "delegate"
  end.

Definition is_vowel (c : ascii) : bool :=
  bool_decide (c ∈ ["a"; "e"; "i"; "o"; "u"; "A"; "E"; "I"; "O"; "U"]%char).

Definition article (word : string) : string :=
  match word with
  | String c _ => if is_vowel c then "An" else "A"
  | EmptyString => "A"
  end.

(** The text up to the first dot. *)
Fixpoint namespaceOf (reference : string) : string :=
  match reference with
  | EmptyString => ""
  | String c rest => if bool_decide (c = "."%char) then "" else String c (namespaceOf rest)
  end.

(** The references of at least two segments that start [reference], longest
    first. *)
Fixpoint prefixLoop (length : nat) (segments : list string) : list string :=
  match length with
  | O | S O => []
  | S shorter => js_join "." (take length segments) :: prefixLoop shorter segments
  end.

Definition prefixesOf (reference : string) : list string :=
  let segments := js_split "." reference in
  prefixLoop (length segments) segments.

Definition formatList (values : list string) : string :=
  let sorted := map quoted (sort_strings (set_of values)) in
  match sorted with
  | [only] => only
  | _ =>
      js_join ", " (take (length sorted - 1) sorted) +:+ " and " +:+
      default "" (last sorted)
  end.

Definition STATE_NAMESPACES : list string := ["task"; "artifacts"; "decisions"].
Definition WRITABLE_NAMESPACES : list string := ["artifacts"; "decisions"].
Definition PROFILE_STAGE_TYPES : list PipelineStageType := [st_agent; st_verify].
Definition PROFILE_FREE_STAGE_TYPES : list PipelineStageType := [st_command; st_approval].

(** ** Walks over the graph *)

Definition addSuccessor (successors : list (string * list string)) (edge : PipelineEdge)
    : list (string * list string) :=
  match map_get successors (pe_from edge) with
  | Some children => map_set successors (pe_from edge) (children ++ [pe_to edge])
  | None => successors
  end.

Definition buildSuccessors (graph : PipelineGraph) : list (string * list string) :=
  let empty := map_of (map (fun stage => (ps_id stage, [])) (pg_stages graph)) in
  map (fun e => (fst e, sort_strings (snd e))) (fold_left addSuccessor (pg_edges graph) empty).

Inductive VisitState := vs_visiting | vs_done.

(** [path.indexOf(child)] and [path.slice(start)]. *)
Fixpoint indexOf (value : string) (l : list string) : option nat :=
  match l with
  | [] => None
  | x :: rest => if str_eqb x value then Some 0%nat else S <$> indexOf value rest
  end.

Definition cycleFrom (child : string) (path : list string) : list string :=
  drop (default (length path - 1)%nat (indexOf child path)) path ++ [child].

(** The search below one root: the top frame is the head of [stack].  The
    result is the cycle that was found or the states of the visited stages. *)
Fixpoint cycleLoop (fuel : nat) (successors : list (string * list string))
    (state : list (string * VisitState)) (path : list string) (stack : list (string * nat))
    : option (list string + list (string * VisitState)) :=
  match stack with
  | [] => Some (inr state)
  | (id, index) :: below =>
      match fuel with
      | O => None
      | S fuel' =>
          match default [] (map_get successors id) !! index with
          | None => cycleLoop fuel' successors (map_set state id vs_done) (removelast path) below
          | Some child =>
              match map_get state child with
              | Some vs_visiting => Some (inl (cycleFrom child path))
              | Some vs_done => cycleLoop fuel' successors state path ((id, S index) :: below)
              | None =>
                  cycleLoop fuel' successors (map_set state child vs_visiting) (path ++ [child])
                    ((child, 0%nat) :: (id, S index) :: below)
              end
          end
      end
  end.

(** Every iteration finishes a stage or follows an edge of a visited one, and
    no stage is visited twice. *)
Definition cycleFuel (graph : PipelineGraph) : nat :=
  S (length (pg_stages graph) + length (pg_edges graph)).

Fixpoint cycleRoots (fuel : nat) (successors : list (string * list string))
    (state : list (string * VisitState)) (roots : list string) : option (option (list string)) :=
  match roots with
  | [] => Some None
  | root :: rest =>
      match map_get state root with
      | Some vs_done => cycleRoots fuel successors state rest
      | _ =>
          match cycleLoop fuel successors (map_set state root vs_visiting) [root]
                  [(root, 0%nat)] with
          | None => None
          | Some (inl cycle) => Some (Some cycle)
          | Some (inr state') => cycleRoots fuel successors state' rest
          end
      end
  end.

Definition findCycle (graph : PipelineGraph) : option (option (list string)) :=
  cycleRoots (cycleFuel graph) (buildSuccessors graph) [] (map ps_id (pg_stages graph)).

(** The children of one stage of the reachability walk. *)
Definition reachChild (s : list string * list string) (child : string)
    : list string * list string :=
  let '(reached, queue) := s in
  if set_has reached child then s else (set_add reached child, queue ++ [child]).

Fixpoint reachLoop (fuel : nat) (successors : list (string * list string))
    (reached queue : list string) : option (list string) :=
  match queue with
  | [] => Some reached
  | current :: rest =>
      match fuel with
      | O => None
      | S fuel' =>
          let '(reached', queue') :=
            fold_left reachChild (default [] (map_get successors current)) (reached, rest) in
          reachLoop fuel' successors reached' queue'
      end
  end.

(** A stage enters the queue once, when it is reached. *)
Definition reachFuel (graph : PipelineGraph) : nat :=
  S (length (pg_stages graph) + length (pg_edges graph)).

Definition addPredecessor (predecessors : list (string * list string)) (edge : PipelineEdge)
    : list (string * list string) :=
  match map_get predecessors (pe_to edge) with
  | Some parents => map_set predecessors (pe_to edge) (parents ++ [pe_from edge])
  | None => predecessors
  end.

Definition buildPredecessors (graph : PipelineGraph) : list (string * list string) :=
  fold_left addPredecessor (pg_edges graph)
    (map_of (map (fun stage => (ps_id stage, [])) (pg_stages graph))).

Fixpoint ancestorLoop (fuel : nat) (predecessors : list (string * list string))
    (collected queue : list string) : option (list string) :=
  match queue with
  | [] => Some collected
  | current :: rest =>
      match fuel with
      | O => None
      | S fuel' =>
          if set_has collected current then ancestorLoop fuel' predecessors collected rest
          else ancestorLoop fuel' predecessors (set_add collected current)
                 (rest ++ default [] (map_get predecessors current))
      end
  end.

(** Each edge is enqueued once from the stage itself and once more when its
    target is first collected. *)
Definition ancestorFuel (graph : PipelineGraph) : nat := S (2 * length (pg_edges graph)).

Fixpoint ancestorStages (fuel : nat) (predecessors : list (string * list string))
    (stages : list PipelineStage) (ancestors : list (string * list string))
    : option (list (string * list string)) :=
  match stages with
  | [] => Some ancestors
  | stage :: rest =>
      match ancestorLoop fuel predecessors [] (default [] (map_get predecessors (ps_id stage))) with
      | None => None
      | Some collected =>
          ancestorStages fuel predecessors rest (map_set ancestors (ps_id stage) collected)
      end
  end.

Definition computeAncestors (graph : PipelineGraph) : option (list (string * list string)) :=
  ancestorStages (ancestorFuel graph) (buildPredecessors graph) (pg_stages graph) [].

(** ** The rules *)

Section Rules.
Context (r : Reporter).

Definition stagePointer (stagePointers : list (string * string)) (id : string) : string :=
  default "/stages" (map_get stagePointers id).

Definition edgePointer (edgePointers : list string) (index : nat) : string :=
  default "/edges" (edgePointers !! index).

Definition validateStageIds (normalized : NormalizedPipeline) : list PipelineDiagnostic :=
  let counts :=
    fold_left (fun m stage => map_set m (ps_id stage) (default 0 (map_get m (ps_id stage)) + 1)%Z)
      (pg_stages (np_graph normalized)) [] in
  flat_map (fun e =>
      if (1 <? snd e)%Z then
        error r "pipeline.duplicate-stage-id"
          ("Stage id " +:+ quoted (fst e) +:+ " is declared " +:+ num_text (snd e) +:+ " times.")
          (stagePointer (np_stagePointers normalized) (fst e))
          "Give each stage a unique id; a later stage referring to this one cannot say which it means."
      else []) counts.

(** Every profile a stage names, with where it names it. *)
Definition stageProfiles (stage : PipelineStage) (pointer : string) : list (string * string) :=
  match ps_profile stage with
  | Some profile => [(profile, joinPointer pointer "profile")]
  | None => []
  end ++
  match ps_onValidationFailure stage with
  | Some policy =>
      match vp_delegateTo policy with
      | Some profile =>
          [(profile, joinPointer (joinPointer pointer "on_validation_failure") "delegate_to")]
      | None => []
      end
  | None => []
  end ++
  match ps_completion stage with
  | Some requirements =>
      each_indexed (fun index requirement =>
          match requirement with
          | cr_verdict profile =>
              [(profile,
                joinIndex (joinPointer (joinPointer pointer "completion") "require") index)]
          | _ => []
          end) requirements
  | None => []
  end.

Definition validateStageProfiles (stage : PipelineStage) (pointer : string)
    (known : option (list string)) : list PipelineDiagnostic :=
  match known with
  | None => []
  | Some known =>
      flat_map (fun reference =>
          if set_has known (fst reference) then []
          else
            error r "pipeline.profile-not-declared"
              ("Profile " +:+ quoted (fst reference) +:+
               " is not declared in the resolved configuration.")
              (snd reference)
              ("Declare " +:+ quoted (fst reference) +:+
               " under `profiles:`, or name one that already exists."))
        (stageProfiles stage pointer)
  end.

Definition validateValidationFailurePolicy (stage : PipelineStage) (pointer : string)
    : list PipelineDiagnostic :=
  match ps_onValidationFailure stage with
  | None => []
  | Some policy =>
      let delegatePointer :=
        joinPointer (joinPointer pointer "on_validation_failure") "delegate_to" in
      let delegates := bool_decide (vp_strategy policy = strategy_delegate) in
      (if delegates && negb (bool_decide (is_Some (vp_delegateTo policy))) then
         error r "pipeline.delegate-target-required"
           ("A " +:+ quoted "delegate" +:+
            " repair strategy must name the profile the repair is delegated to.")
           delegatePointer
           "Add `delegate_to: <profile>`, or choose `repair` to retry with this stage's own profile."
       else []) ++
      (if negb delegates && bool_decide (is_Some (vp_delegateTo policy)) then
         error r "pipeline.delegate-target-not-allowed"
           (article (strategy_text (vp_strategy policy)) +:+ " " +:+
            quoted (strategy_text (vp_strategy policy)) +:+
            " repair strategy never delegates, so `delegate_to` would be ignored.")
           delegatePointer
           "Remove `delegate_to`, or set `strategy: delegate`."
       else [])
  end.

Definition validateStageShape (stagePointers : list (string * string))
    (known : option (list string)) (stage : PipelineStage) : list PipelineDiagnostic :=
  let pointer := stagePointer stagePointers (ps_id stage) in
  let type := stage_type_text (ps_type stage) in
  let has_profile := bool_decide (is_Some (ps_profile stage)) in
  let has_command := match ps_command stage with Some _ => true | None => false end in
  let is_command := bool_decide (ps_type stage = st_command) in
  (if bool_decide (ps_type stage ∈ PROFILE_STAGE_TYPES) && negb has_profile then
     error r "pipeline.profile-required"
       (article type +:+ " " +:+ quoted type +:+
        " stage runs a worker, so it must name a profile.")
       (joinPointer pointer "profile")
       "Add `profile: <name>`, for example `profile: sol-critic`."
   else []) ++
  (if bool_decide (ps_type stage ∈ PROFILE_FREE_STAGE_TYPES) && has_profile then
     error r "pipeline.profile-not-allowed"
       (article type +:+ " " +:+ quoted type +:+
        " stage does not run a worker, so a profile would never be used.")
       (joinPointer pointer "profile")
       "Remove `profile`, or change the stage type to `agent` if it should run a worker."
   else []) ++
  (if is_command && negb has_command then
     error r "pipeline.command-required"
       ("A " +:+ quoted "command" +:+ " stage must declare what to run.")
       (joinPointer pointer "command")
       "Add `command: { argv: [...] }`, for example `argv: [pnpm, test]`."
   else []) ++
  (if negb is_command && has_command then
     error r "pipeline.command-not-allowed"
       (article type +:+ " " +:+ quoted type +:+ " stage does not run a command.")
       (joinPointer pointer "command")
       "Remove `command`, or change the stage type to `command`."
   else []) ++
  validateStageProfiles stage pointer known ++
  validateValidationFailurePolicy stage pointer.

Definition validateStageShapes (graph : PipelineGraph) (stagePointers : list (string * string))
    (knownProfileIds : option (list string)) : list PipelineDiagnostic :=
  flat_map (validateStageShape stagePointers (set_of <$> knownProfileIds)) (pg_stages graph).

Definition validateContext (graph : PipelineGraph) : list PipelineDiagnostic :=
  match pc_handoffSoftThreshold (pg_context graph), pc_handoffHardThreshold (pg_context graph) with
  | Some soft, Some hard =>
      if num_lt hard soft then
        error r "pipeline.context-thresholds-inverted"
          ("The soft handoff threshold (" +:+ number_text soft +:+
           ") is above the hard threshold (" +:+ number_text hard +:+ ").")
          "/context/handoff_soft_threshold"
          "The soft threshold warns first, so it must be the lower of the two — for example `0.65` and `0.80`."
      else []
  | _, _ => []
  end.

(** [limit !== undefined && bound !== undefined && limit > bound]. *)
Definition exceeds (limit bound : option Z) : bool :=
  match limit, bound with Some l, Some b => (b <? l)%Z | _, _ => false end.

Definition limit_text (limit : option Z) : string := num_text (default 0%Z limit).

Definition validateStageLimits (graph : PipelineGraph) (stagePointers : list (string * string))
    (stage : PipelineStage) : list PipelineDiagnostic :=
  let pipelineRepairs := pl_maxRepairAttempts (pg_limits graph) in
  let pipelineDuration := pl_maxPipelineDurationMs (pg_limits graph) in
  let pointer := stagePointer stagePointers (ps_id stage) in
  let stageRepairs := ps_limits stage ≫= sl_maxRepairAttempts in
  let stageDuration := ps_limits stage ≫= sl_maxDurationMs in
  let attempts := ps_onValidationFailure stage ≫= vp_maxAttempts in
  let effectiveRepairs :=
    match stageRepairs with Some n => Some n | None => pipelineRepairs end in
  (if exceeds stageRepairs pipelineRepairs then
     error r "pipeline.limit-not-stricter"
       ("Stage " +:+ quoted (ps_id stage) +:+ " allows " +:+ limit_text stageRepairs +:+
        " repair attempts, more than the pipeline limit of " +:+ limit_text pipelineRepairs +:+ ".")
       (joinPointer (joinPointer pointer "limits") "max_repair_attempts")
       ("Lower it to " +:+ limit_text pipelineRepairs +:+
        " or below — the strictest applicable limit is the one that applies.")
   else []) ++
  (if exceeds stageDuration pipelineDuration then
     error r "pipeline.limit-not-stricter"
       ("Stage " +:+ quoted (ps_id stage) +:+ " may run for " +:+ limit_text stageDuration +:+
        "ms, longer than the whole pipeline's " +:+ limit_text pipelineDuration +:+ "ms.")
       (joinPointer (joinPointer pointer "limits") "max_duration")
       "Shorten the stage limit so it fits inside `limits.max_pipeline_duration`."
   else []) ++
  (if exceeds attempts effectiveRepairs then
     error r "pipeline.repair-attempts-exceed-limit"
       ("Stage " +:+ quoted (ps_id stage) +:+ " declares " +:+ limit_text attempts +:+
        " repair attempts, more than the " +:+ limit_text effectiveRepairs +:+
        " its limits allow.")
       (joinPointer (joinPointer pointer "on_validation_failure") "max_attempts")
       ("Lower `max_attempts` to " +:+ limit_text effectiveRepairs +:+
        " or below, or raise the repair limit.")
   else []).

Definition validateLimits (graph : PipelineGraph) (stagePointers : list (string * string))
    : list PipelineDiagnostic :=
  flat_map (validateStageLimits graph stagePointers) (pg_stages graph).

(** The diagnostics of one edge; the caller's [resolved] is whether there are
    none. *)
Definition edgeEndpoints (edgePointers : list string) (declared : string -> bool)
    (index : nat) (edge : PipelineEdge) : list PipelineDiagnostic :=
  let pointer := edgePointer edgePointers index in
  let unknown (id side : string) :=
    if declared id then []
    else
      error r "pipeline.unknown-stage-reference"
        ("No stage with id " +:+ quoted id +:+ " is declared.")
        pointer
        ("Declare a stage with id " +:+ quoted id +:+ ", or point this " +:+ side +:+
         " at an existing stage.") in
  unknown (pe_from edge) "dependency" ++ unknown (pe_to edge) "transition" ++
  (if str_eqb (pe_from edge) (pe_to edge) then
     error r "pipeline.self-edge"
       ("Stage " +:+ quoted (pe_from edge) +:+ " depends on itself.")
       pointer
       "Remove the self-reference; a stage cannot wait for its own completion."
   else []).

(** [resolved] turns false with each diagnostic, so it is their absence. *)
Definition validateEdgeEndpoints (graph : PipelineGraph) (edgePointers : list string)
    (stagesById : list (string * PipelineStage)) : list PipelineDiagnostic * bool :=
  let diagnostics := each_indexed (edgeEndpoints edgePointers (map_has stagesById))
                       (pg_edges graph) in
  (diagnostics, (length diagnostics =? 0)%nat).

Definition endpointsKey (edge : PipelineEdge) : string := pe_from edge +:+ " " +:+ pe_to edge.

Definition addEndpoints (byEndpoints : list (string * list nat)) (e : nat * PipelineEdge)
    : list (string * list nat) :=
  map_set byEndpoints (endpointsKey (snd e))
    (default [] (map_get byEndpoints (endpointsKey (snd e))) ++ [fst e]).

Definition edgeGroups (graph : PipelineGraph) : list (string * list nat) :=
  fold_left addEndpoints (imap pair (pg_edges graph)) [].

Definition validateDuplicateEdges (graph : PipelineGraph) (edgePointers : list string)
    : list PipelineDiagnostic :=
  flat_map (fun group =>
      if (length (snd group) <? 2)%nat then []
      else
        let ends := js_split " " (fst group) in
        flat_map (fun index =>
            error r "pipeline.duplicate-edge"
              (quoted (default "undefined" (ends !! 0%nat)) +:+ " leads to " +:+
               quoted (default "undefined" (ends !! 1%nat)) +:+
               " more than once, under different conditions.")
              (edgePointer edgePointers index)
              "Combine them into one edge — use `||` inside a single expression if either condition should allow the transition.")
          (drop 1 (snd group)))
    (edgeGroups graph).

Definition validateConditionProfiles (graph : PipelineGraph) (edgePointers : list string)
    (knownProfileIds : option (list string)) : list PipelineDiagnostic :=
  match knownProfileIds with
  | None => []
  | Some ids =>
      let known := set_of ids in
      each_indexed (fun index edge =>
          match pe_condition edge with
          | Some (CEvaluator profile _) =>
              if set_has known profile then []
              else
                error r "pipeline.profile-not-declared"
                  ("Evaluator profile " +:+ quoted profile +:+
                   " is not declared in the resolved configuration.")
                  (joinPointer (joinPointer (edgePointer edgePointers index) "when") "evaluator")
                  ("Declare " +:+ quoted profile +:+
                   " under `profiles:`, or name one that already exists.")
          | _ => []
          end) (pg_edges graph)
  end.

Definition validateAcyclic (graph : PipelineGraph) (stagePointers : list (string * string))
    : option (list PipelineDiagnostic) :=
  match findCycle graph with
  | None => None
  | Some None => Some []
  | Some (Some cycle) =>
      Some (error r "pipeline.cycle"
              ("These stages depend on each other in a cycle: " +:+ js_join " → " cycle +:+ ".")
              (stagePointer stagePointers (default "" (head cycle)))
              "Break the cycle by removing one dependency; a pipeline is a DAG, so no stage may wait for a stage that waits for it.")
  end.

Definition validateStageReachability (graph : PipelineGraph)
    (stagePointers : list (string * string)) : option (list PipelineDiagnostic) :=
  let incoming := set_of (map pe_to (pg_edges graph)) in
  let entries := map ps_id (List.filter (fun stage => negb (set_has incoming (ps_id stage)))
                              (pg_stages graph)) in
  match entries with
  | [] =>
      Some (error r "pipeline.no-entry-stage"
              "Every stage depends on another stage, so the pipeline has nowhere to start."
              "/stages"
              "Leave at least one stage with no `needs` and no incoming edge.")
  | _ =>
      match reachLoop (reachFuel graph) (buildSuccessors graph) (set_of entries) entries with
      | None => None
      | Some reached =>
          Some (flat_map (fun stage =>
              if set_has reached (ps_id stage) then []
              else
                error r "pipeline.unreachable-stage"
                  ("Stage " +:+ quoted (ps_id stage) +:+
                   " cannot be reached from any starting stage.")
                  (stagePointer stagePointers (ps_id stage))
                  ("Connect " +:+ quoted (ps_id stage) +:+
                   " to the graph with `needs` or an edge, or remove it."))
            (pg_stages graph))
      end
  end.

(** ** State flow *)

Definition unknownNamespace (reference pointer suggestion : string) : list PipelineDiagnostic :=
  error r "pipeline.unknown-state-namespace"
    (quoted reference +:+ " starts with " +:+ quoted (namespaceOf reference) +:+
     ", which is not part of the canonical run state.")
    pointer suggestion.

Definition writable (reference : string) : bool :=
  set_has STATE_NAMESPACES (namespaceOf reference) &&
  set_has WRITABLE_NAMESPACES (namespaceOf reference).

(** The namespace diagnostics of one stage. *)
Definition stageNamespaces (stagePointers : list (string * string)) (stage : PipelineStage)
    : list PipelineDiagnostic :=
  let pointer := stagePointer stagePointers (ps_id stage) in
  each_indexed (fun index reference =>
      if set_has STATE_NAMESPACES (namespaceOf reference) then []
      else unknownNamespace reference (joinIndex (joinPointer pointer "reads") index)
             "Read from `task.`, `artifacts.`, or `decisions.`.")
    (ps_reads stage) ++
  each_indexed (fun index reference =>
      let at_write := joinIndex (joinPointer pointer "writes") index in
      if negb (set_has STATE_NAMESPACES (namespaceOf reference))
      then unknownNamespace reference at_write "Write to `artifacts.` or `decisions.`."
      else if negb (set_has WRITABLE_NAMESPACES (namespaceOf reference))
      then
        error r "pipeline.write-not-allowed"
          (quoted reference +:+ " is supplied by the run, so a stage cannot write it.")
          at_write "Write to `artifacts.` or `decisions.` instead."
      else [])
    (ps_writes stage).

(** The stages that write each reference, from the writes that were allowed. *)
Definition addProducer (stageId : string) (producers : list (string * list string))
    (reference : string) : list (string * list string) :=
  if writable reference
  then map_set producers reference (default [] (map_get producers reference) ++ [stageId])
  else producers.

Definition producersOf (graph : PipelineGraph) : list (string * list string) :=
  fold_left (fun producers stage =>
      fold_left (addProducer (ps_id stage)) (ps_writes stage) producers)
    (pg_stages graph) [].

Definition readProduced (producers : list (string * list string)) (reference : string)
    : list string :=
  flat_map (fun prefix => default [] (map_get producers prefix)) (prefixesOf reference).

Definition validateReadsAreProduced (graph : PipelineGraph)
    (stagePointers : list (string * string)) (ancestors producers : list (string * list string))
    : list PipelineDiagnostic :=
  flat_map (fun stage =>
      let pointer := stagePointer stagePointers (ps_id stage) in
      let upstream := default [] (map_get ancestors (ps_id stage)) in
      each_indexed (fun index reference =>
          if negb (set_has STATE_NAMESPACES (namespaceOf reference)) ||
             str_eqb (namespaceOf reference) "task"
          then []
          else
            let producedBy := readProduced producers reference in
            let at_read := joinIndex (joinPointer pointer "reads") index in
            match producedBy with
            | [] =>
                error r "pipeline.read-not-produced"
                  ("Nothing in this pipeline writes " +:+ quoted reference +:+ ".")
                  at_read
                  ("Add a stage that writes " +:+ quoted reference +:+ ", or remove the read.")
            | _ =>
                if existsb (set_has upstream) producedBy then []
                else
                  error r "pipeline.read-not-produced"
                    (quoted reference +:+ " is written by " +:+ formatList producedBy +:+
                     ", which " +:+ quoted (ps_id stage) +:+ " does not depend on.")
                    at_read
                    ("Add a dependency so " +:+ quoted (ps_id stage) +:+ " runs after " +:+
                     formatList producedBy +:+ ".")
            end)
        (ps_reads stage))
    (pg_stages graph).

Definition isAncestor (ancestors : list (string * list string)) (stage candidate : string)
    : bool :=
  match map_get ancestors stage with Some values => set_has values candidate | None => false end.

(** Where the conflict of [second] is reported. *)
Definition conflictPointer (graph : PipelineGraph) (stagePointers : list (string * string))
    (second reference : string) : string :=
  let pointer := stagePointer stagePointers second in
  match find (fun stage => str_eqb (ps_id stage) second) (pg_stages graph) with
  | Some stage =>
      match indexOf reference (ps_writes stage) with
      | Some index => joinIndex (joinPointer pointer "writes") index
      | None => pointer
      end
  | None => pointer
  end.

(** The unordered pairs of writers of one reference, outer before inner. *)
Fixpoint writeConflicts (graph : PipelineGraph) (stagePointers : list (string * string))
    (ancestors : list (string * list string)) (reference : string) (sorted : list string)
    : list PipelineDiagnostic :=
  match sorted with
  | [] => []
  | first :: rest =>
      flat_map (fun second =>
          if isAncestor ancestors second first || isAncestor ancestors first second then []
          else
            error r "pipeline.conflicting-writes"
              (quoted first +:+ " and " +:+ quoted second +:+ " both write " +:+
               quoted reference +:+ " and may run at the same time.")
              (conflictPointer graph stagePointers second reference)
              "Order the two stages so one runs after the other, or have them write different targets.")
        rest ++
      writeConflicts graph stagePointers ancestors reference rest
  end.

(** A reference with fewer than two writers has no pairs. *)
Definition validateWriteConflicts (graph : PipelineGraph) (stagePointers : list (string * string))
    (ancestors producers : list (string * list string)) : list PipelineDiagnostic :=
  flat_map (fun e =>
      if (length (snd e) <? 2)%nat then []
      else writeConflicts graph stagePointers ancestors (fst e) (sort_strings (snd e)))
    (sort_key fst producers).

Definition validateStateFlow (graph : PipelineGraph) (stagePointers : list (string * string))
    (ancestors : list (string * list string)) : list PipelineDiagnostic :=
  let producers := producersOf graph in
  flat_map (stageNamespaces stagePointers) (pg_stages graph) ++
  validateReadsAreProduced graph stagePointers ancestors producers ++
  validateWriteConflicts graph stagePointers ancestors producers.

(** The rules that run before the walks, given the diagnostics of the endpoints. *)
Definition localRules (normalized : NormalizedPipeline) (knownProfileIds : option (list string))
    (endpoints : list PipelineDiagnostic) : list PipelineDiagnostic :=
  let graph := np_graph normalized in
  let stagePointers := np_stagePointers normalized in
  let edgePointers := np_edgePointers normalized in
  validateStageIds normalized ++
  validateStageShapes graph stagePointers knownProfileIds ++
  validateContext graph ++
  validateLimits graph stagePointers ++
  endpoints ++
  validateDuplicateEdges graph edgePointers ++
  validateConditionProfiles graph edgePointers knownProfileIds.

(** [None]: a walk exceeded its fuel. *)
Definition validatePipelineGraph (normalized : NormalizedPipeline)
    (knownProfileIds : option (list string)) : option (list PipelineDiagnostic) :=
  let graph := np_graph normalized in
  let stagePointers := np_stagePointers normalized in
  let edgePointers := np_edgePointers normalized in
  let stagesById := map_of (map (fun stage => (ps_id stage, stage)) (pg_stages graph)) in
  let '(endpoints, endpointsResolve) := validateEdgeEndpoints graph edgePointers stagesById in
  let local := localRules normalized knownProfileIds endpoints in
  if negb endpointsResolve then Some local
  else
    match validateAcyclic graph stagePointers,
          validateStageReachability graph stagePointers,
          computeAncestors graph with
    | Some acyclic, Some reachability, Some ancestors =>
        Some (local ++ acyclic ++ reachability ++
              validateStateFlow graph stagePointers ancestors)
    | _, _, _ => None
    end.
End Rules.
