(* ===== verification/GraphWalks.v ===== *)
(** * The walks of the graph validator

    [findCycle], [computeAncestors] and the reachability walk of
    [graph/validate.ts] on a graph whose edges join declared stages: they end,
    and they decide acyclicity, the ancestor relation and reachability. *)

From S2P Require Import Prelude Json Recovery Graph Writers CanonicalJson Report GraphRules.

(** Every edge joins two declared stages. *)
Definition endpoints_ok (g : PipelineGraph) : Prop :=
  forall e, e ∈ pg_edges g -> pe_from e ∈ stageIds g /\ pe_to e ∈ stageIds g.

(** ** Adjacency *)

Definition out_pairs (g : PipelineGraph) : list (string * string) :=
  map (fun e => (pe_to e, pe_from e)) (pg_edges g).
Definition in_pairs (g : PipelineGraph) : list (string * string) :=
  map (fun e => (pe_from e, pe_to e)) (pg_edges g).

Lemma elem_of_out g a b : b ∈ children (out_pairs g) a <-> edge_rel g a b.
Proof.
  rewrite elem_of_children. unfold out_pairs, edge_rel. rewrite list_elem_of_fmap.
  split; [intros (e & [= -> ->] & He)|intros (e & He & <- & <-)]; by exists e.
Qed.

Lemma elem_of_in g a b : b ∈ children (in_pairs g) a <-> edge_rel g b a.
Proof.
  rewrite elem_of_children. unfold in_pairs, edge_rel. rewrite list_elem_of_fmap.
  split; [intros (e & [= -> ->] & He)|intros (e & He & <- & <-)]; by exists e.
Qed.

(** A fold that appends to the entries that exist. *)
Definition push_present (m : list (string * list string)) (e : string * string)
    : list (string * list string) :=
  match map_get m (snd e) with
  | Some values => map_set m (snd e) (values ++ [fst e])
  | None => m
  end.

Lemma push_present_get pairs m k :
  map_get (fold_left push_present pairs m) k =
  (fun values => values ++ children pairs k) <$> map_get m k.
Proof.
  revert m. induction pairs as [|[v p] pairs IH]; intros m; simpl.
  - destruct (map_get m k); simpl; [by rewrite app_nil_r|done].
  - rewrite IH. unfold push_present, children. simpl. destruct (str_eqb p k) eqn:E.
    + apply str_eqb_true in E as ->. destruct (map_get m k) as [l|] eqn:Em; [|by rewrite Em].
      rewrite map_get_set_eq. simpl. by rewrite <-app_assoc.
    + apply str_eqb_false in E. destruct (map_get m p); [|done].
      by rewrite map_get_set_ne by congruence.
Qed.

Lemma empty_entries_fold (ids : list string) (m : list (string * list string)) k :
  map_get (fold_left (fun m e => map_set m (fst e) (snd e)) (map (fun id => (id, [])) ids) m) k =
  if bool_decide (k ∈ ids) then Some [] else map_get m k.
Proof.
  revert m. induction ids as [|i ids IH]; intros m; simpl; [done|].
  rewrite IH, map_get_set. destruct (str_eqb k i) eqn:E.
  - apply str_eqb_true in E as ->. rewrite (bool_decide_eq_true_2 (_ ∈ _ :: _)) by (by left).
    by case_bool_decide.
  - apply str_eqb_false in E. do 2 case_bool_decide; try done; exfalso; set_solver.
Qed.

Lemma empty_entries g k :
  map_get (map_of (map (fun stage => (ps_id stage, @nil string)) (pg_stages g))) k =
  if bool_decide (k ∈ stageIds g) then Some [] else None.
Proof.
  unfold map_of, stageIds.
  rewrite <-(map_map ps_id (fun id => (id, []))). by rewrite empty_entries_fold.
Qed.

Lemma map_get_map {A B} (f : A -> B) (m : list (string * A)) k :
  map_get (map (fun e => (fst e, f (snd e))) m) k = f <$> map_get m k.
Proof.
  induction m as [|[k' v] m IH]; simpl; [done|]. by destruct (str_eqb k k').
Qed.

Lemma buildSuccessors_get g k :
  map_get (buildSuccessors g) k =
  if bool_decide (k ∈ stageIds g) then Some (sort_strings (children (out_pairs g) k)) else None.
Proof.
  unfold buildSuccessors. rewrite map_get_map.
  assert (forall m, fold_left addSuccessor (pg_edges g) m =
    fold_left push_present (out_pairs g) m) as ->.
  { intros m. unfold out_pairs. by rewrite fold_left_map. }
  rewrite push_present_get, empty_entries. by case_bool_decide.
Qed.

Lemma buildPredecessors_get g k :
  map_get (buildPredecessors g) k =
  if bool_decide (k ∈ stageIds g) then Some (children (in_pairs g) k) else None.
Proof.
  unfold buildPredecessors.
  assert (forall m, fold_left addPredecessor (pg_edges g) m =
    fold_left push_present (in_pairs g) m) as ->.
  { intros m. unfold in_pairs. by rewrite fold_left_map. }
  rewrite push_present_get, empty_entries. by case_bool_decide.
Qed.

Definition succs (g : PipelineGraph) (k : string) : list string :=
  default [] (map_get (buildSuccessors g) k).
Definition preds (g : PipelineGraph) (k : string) : list string :=
  default [] (map_get (buildPredecessors g) k).

Section Adjacency.
Context (g : PipelineGraph) (Hg : endpoints_ok g).

Lemma edge_declared a b : edge_rel g a b -> a ∈ stageIds g /\ b ∈ stageIds g.
Proof. intros (e & He & <- & <-). by apply Hg. Qed.

Lemma elem_of_succs a b : b ∈ succs g a <-> edge_rel g a b.
Proof.
  unfold succs. rewrite buildSuccessors_get. case_bool_decide as Ha; simpl.
  - by rewrite elem_of_sort_strings, elem_of_out.
  - split; [by intros ?%elem_of_nil|]. by intros [? _]%edge_declared.
Qed.

Lemma elem_of_preds a b : b ∈ preds g a <-> edge_rel g b a.
Proof.
  unfold preds. rewrite buildPredecessors_get. case_bool_decide as Ha; simpl.
  - apply elem_of_in.
  - split; [by intros ?%elem_of_nil|]. by intros [_ ?]%edge_declared.
Qed.

Lemma succs_length a : (length (succs g a) <= length (children (out_pairs g) a))%nat.
Proof.
  unfold succs. rewrite buildSuccessors_get. case_bool_decide; simpl; [|lia].
  unfold sort_strings. by rewrite sort_key_perm.
Qed.

Lemma preds_length a : (length (preds g a) <= length (children (in_pairs g) a))%nat.
Proof. unfold preds. rewrite buildPredecessors_get. case_bool_decide; simpl; lia. Qed.
End Adjacency.

(** ** Counting what a walk may still do *)

(** The pairs whose second component has not been seen. *)
Definition unseen (pairs : list (string * string)) (seen : list string) : nat :=
  length (List.filter (fun e => negb (set_has seen (snd e))) pairs).

Lemma unseen_add pairs seen x :
  x ∉ seen ->
  (length (children pairs x) + unseen pairs (set_add seen x) = unseen pairs seen)%nat.
Proof.
  intros Hx. unfold unseen, children, set_add. rewrite (proj2 (set_has_false _ _) Hx).
  rewrite length_map. induction pairs as [|[c p] pairs IH]; simpl; [done|].
  rewrite set_has_snoc. destruct (str_eqb p x) eqn:E; simpl.
  - apply str_eqb_true in E as ->. rewrite (proj2 (set_has_false _ _) Hx). simpl. lia.
  - rewrite orb_false_r. destruct (set_has seen p); simpl; lia.
Qed.

Lemma unseen_le pairs seen : (unseen pairs seen <= length pairs)%nat.
Proof. apply List.filter_length_le. Qed.

Lemma children_le pairs x : (length (children pairs x) <= length pairs)%nat.
Proof. unfold children. rewrite length_map. apply List.filter_length_le. Qed.

(** ** Ancestors *)

(** What the walk keeps: everything collected or queued is an ancestor of [s],
    and the predecessors of [s] and of every collected stage are collected or
    queued. *)
Record ancestor_inv (g : PipelineGraph) (s : string) (collected queue : list string) : Prop := {
  ai_sound : forall x, x ∈ collected ++ queue -> tc (edge_rel g) x s;
  ai_first : forall b, edge_rel g b s -> b ∈ collected ++ queue;
  ai_closed : forall a b, a ∈ collected -> edge_rel g b a -> b ∈ collected ++ queue
}.

Section Ancestors.
Context (g : PipelineGraph) (Hg : endpoints_ok g).

Lemma ancestorLoop_returns fuel collected queue :
  (length queue + unseen (in_pairs g) collected <= fuel)%nat ->
  is_Some (ancestorLoop fuel (buildPredecessors g) collected queue).
Proof.
  revert collected queue.
  induction fuel as [|fuel IH]; intros collected [|x queue] Hf; simpl in *; try done; [lia|].
  destruct (set_has collected x) eqn:E; apply IH; [lia|].
  apply set_has_false in E. pose proof (unseen_add (in_pairs g) collected x E).
  rewrite length_app. pose proof (preds_length g x). unfold preds in *. lia.
Qed.

Lemma ancestorLoop_inv fuel collected queue r s :
  ancestor_inv g s collected queue ->
  ancestorLoop fuel (buildPredecessors g) collected queue = Some r -> ancestor_inv g s r [].
Proof.
  revert collected queue.
  induction fuel as [|fuel IH]; intros collected [|x queue] Hinv; simpl; try (by intros [= ->]).
  destruct Hinv as [H1 H2 H3]. destruct (set_has collected x) eqn:E; apply IH.
  - apply set_has_true in E. split; [set_solver..|]. intros a b Ha Hb.
    specialize (H3 a b Ha Hb). set_solver.
  - fold (preds g x). split.
    + intros y. rewrite !elem_of_app, elem_of_set_add, elem_of_preds by done.
      intros [[->|Hy]|[Hy|Hy]]; [apply H1; set_solver..|].
      eapply tc_l; [exact Hy|]. apply H1. set_solver.
    + intros b Hb%H2. rewrite !elem_of_app, elem_of_set_add. set_solver.
    + intros a b. rewrite elem_of_set_add, !elem_of_app, elem_of_set_add, elem_of_preds by done.
      intros [->|Ha] Hb; [by auto|]. specialize (H3 a b Ha Hb). set_solver.
Qed.

Lemma ancestor_inv_complete s r x : ancestor_inv g s r [] -> x ∈ r <-> tc (edge_rel g) x s.
Proof.
  intros [H1 H2 H3]. rewrite app_nil_r in *. split; [apply H1|].
  induction 1 as [x y Hxy|x y z Hxy _ IH]; [by apply H2|]. by eapply H3; [apply IH|].
Qed.

Lemma ancestorLoop_stage s :
  exists r, ancestorLoop (ancestorFuel g) (buildPredecessors g) [] (preds g s) = Some r /\
    forall x, x ∈ r <-> tc (edge_rel g) x s.
Proof.
  destruct (ancestorLoop_returns (ancestorFuel g) [] (preds g s)) as [r Hr].
  { unfold ancestorFuel. pose proof (preds_length g s). pose proof (children_le (in_pairs g) s).
    pose proof (unseen_le (in_pairs g) []). unfold in_pairs in *. rewrite length_map in *. lia. }
  exists r. split; [done|]. intros x. apply ancestor_inv_complete.
  eapply ancestorLoop_inv; [|exact Hr]. split; simpl.
  - intros y Hy. apply tc_once. by apply elem_of_preds in Hy.
  - intros b Hb. by apply elem_of_preds.
  - by intros a b ?%elem_of_nil.
Qed.

Lemma ancestorStages_spec stages ancestors :
  exists m, ancestorStages (ancestorFuel g) (buildPredecessors g) stages ancestors = Some m /\
    forall k, map_get m k =
      (if bool_decide (k ∈ map ps_id stages)
       then ancestorLoop (ancestorFuel g) (buildPredecessors g) [] (preds g k)
       else map_get ancestors k).
Proof.
  revert ancestors. induction stages as [|s stages IH]; intros ancestors;
    cbn [ancestorStages map]; [by eexists|].
  fold (preds g (ps_id s)). destruct (ancestorLoop_stage (ps_id s)) as (r & Hr & _). rewrite Hr.
  destruct (IH (map_set ancestors (ps_id s) r)) as (m & -> & Hm). exists m. split; [done|].
  intros k. rewrite Hm, map_get_set. destruct (str_eqb k (ps_id s)) eqn:E.
  - apply str_eqb_true in E as ->. rewrite Hr, (bool_decide_eq_true_2 (_ ∈ _ :: _)) by (by left).
    by case_bool_decide.
  - apply str_eqb_false in E. do 2 case_bool_decide; try done; exfalso; set_solver.
Qed.

Lemma computeAncestors_spec :
  exists m, computeAncestors g = Some m /\
    forall s, s ∈ stageIds g ->
      exists r, map_get m s = Some r /\ forall x, x ∈ r <-> tc (edge_rel g) x s.
Proof.
  destruct (ancestorStages_spec (pg_stages g) []) as (m & Hm & Hget).
  exists m. split; [done|]. intros s Hs. rewrite Hget, bool_decide_eq_true_2 by done.
  apply ancestorLoop_stage.
Qed.
End Ancestors.

(** ** Reachability *)

Section Reach.
Context (g : PipelineGraph) (Hg : endpoints_ok g).

(** Everything reached has been expanded or is queued. *)
Record reach_inv (reached queue : list string) : Prop := {
  ri_queue : forall x, x ∈ queue -> x ∈ reached;
  ri_closed : forall a b, a ∈ reached -> a ∉ queue -> edge_rel g a b -> b ∈ reached
}.

Lemma reachChild_fold children reached queue :
  (forall c, c ∈ children -> exists a, edge_rel g a c) ->
  let '(reached', queue') := fold_left reachChild children (reached, queue) in
  (forall x, x ∈ reached' <-> x ∈ reached \/ x ∈ children) /\
  (forall x, x ∈ queue' <-> x ∈ queue \/ (x ∈ reached' /\ x ∉ reached)) /\
  (length queue' + unseen (in_pairs g) reached' <= length queue + unseen (in_pairs g) reached)%nat.
Proof.
  revert reached queue. induction children as [|c children IH]; intros reached queue Hc; simpl.
  - split_and!; [set_solver|set_solver|lia].
  - destruct (set_has reached c) eqn:E.
    + specialize (IH reached queue). destruct (fold_left _ _ _) as [reached' queue'].
      destruct IH as (H1 & H2 & H3); [intros d Hd; apply Hc; by right|].
      apply set_has_true in E. split_and!; [set_solver|done|lia].
    + apply set_has_false in E. specialize (IH (set_add reached c) (queue ++ [c])).
      destruct (fold_left _ _ _) as [reached' queue'].
      destruct IH as (H1 & H2 & H3); [intros d Hd; apply Hc; by right|].
      split_and!.
      * intros x. rewrite H1, elem_of_set_add, elem_of_cons. naive_solver.
      * intros x. rewrite H2, elem_of_app, list_elem_of_singleton, elem_of_set_add.
        destruct (decide (x = c)) as [->|]; [|naive_solver].
        split; [|naive_solver]. intros _. right. split; [|done]. apply H1. rewrite elem_of_set_add. auto.
      * pose proof (unseen_add (in_pairs g) reached c E). rewrite length_app in H3. simpl in H3.
        destruct (Hc c) as [a Ha%elem_of_in]; [by left|].
        assert (length (Writers.children (in_pairs g) c) <> 0%nat).
        { destruct (Writers.children (in_pairs g) c); [by apply elem_of_nil in Ha|done]. }
        lia.
Qed.

Lemma reachLoop_spec fuel reached queue :
  reach_inv reached queue ->
  (length queue + unseen (in_pairs g) reached <= fuel)%nat ->
  exists r, reachLoop fuel (buildSuccessors g) reached queue = Some r /\ reach_inv r [] /\
    forall x, x ∈ reached -> x ∈ r.
Proof.
  revert reached queue. induction fuel as [|fuel IH]; intros reached [|c queue] [H1 H2] Hf;
    simpl in *; try (by eexists; split_and!); [lia|].
  pose proof (reachChild_fold (succs g c) reached queue) as Hfold. unfold succs in Hfold at 1 2.
  destruct (fold_left _ _ _) as [reached' queue'].
  destruct Hfold as (Hr & Hq & Hl). { intros d Hd. exists c. by apply elem_of_succs. }
  destruct (IH reached' queue') as (r & -> & Hinv & Hsub).
  - split.
    + intros x [Hx|[Hx _]]%Hq; [|done]. apply Hr. left. apply H1. by right.
    + intros a b Ha Hnq Hab. apply Hr. destruct (decide (a = c)) as [->|Hne].
      * right. by apply elem_of_succs.
      * left. assert (a ∈ reached) as Har.
        { destruct (decide (a ∈ reached)); [done|]. destruct Hnq. apply Hq. by right. }
        apply (H2 a b Har); [|done]. rewrite elem_of_cons. intros [?|?]; [done|].
        apply Hnq, Hq. by left.
  - lia.
  - exists r. split_and!; [done|done|]. intros x Hx. apply Hsub, Hr. by left.
Qed.

(** On an acyclic graph every stage is reached from the entries. *)
Lemma reach_acyclic reached x :
  acyclic g -> reach_inv reached [] ->
  (forall s, s ∈ stageIds g -> (forall p, ~ edge_rel g p s) -> s ∈ reached) ->
  x ∈ stageIds g -> x ∈ reached.
Proof.
  intros Hac [_ Hclosed] Hentry.
  assert (sn (flip (edge_rel g)) x) as Hsn.
  { apply (acyclic_sn _ (stageIds g)); [|done]. intros a b Hab.
    by apply (edge_declared g Hg) in Hab as [? _]. }
  induction Hsn as [x _ IH]. intros Hx.
  destruct (preds g x) as [|p l] eqn:E.
  - apply Hentry; [done|]. intros p Hp. apply (elem_of_preds g Hg) in Hp. rewrite E in Hp.
    by apply elem_of_nil in Hp.
  - assert (edge_rel g p x) as Hp by (apply (elem_of_preds g Hg); rewrite E; by left).
    apply (Hclosed p x); [|by apply not_elem_of_nil|done]. apply IH; [done|].
    by apply (edge_declared g Hg) in Hp as [? _].
Qed.
End Reach.

(** ** Cycles *)

(** Each frame's stage is a successor of the stage of the frame below it. *)
Fixpoint frame_chain (g : PipelineGraph) (stack : list string) : Prop :=
  match stack with
  | child :: ((parent :: _) as rest) => edge_rel g parent child /\ frame_chain g rest
  | _ => True
  end.

Lemma frame_chain_path g id rest x :
  frame_chain g (id :: rest) -> x ∈ id :: rest -> x = id \/ tc (edge_rel g) x id.
Proof.
  revert id. induction rest as [|p rest IH]; intros id Hc Hx.
  - apply elem_of_cons in Hx as [->|?%elem_of_nil]; [by left|done].
  - destruct Hc as [He Hc]. apply elem_of_cons in Hx as [->|Hx]; [by left|right].
    destruct (IH p Hc Hx) as [->|Ht]; [by apply tc_once|by eapply tc_r].
Qed.

Definition is_done (state : list (string * VisitState)) (x : string) : Prop :=
  map_get state x = Some vs_done.

(** The successors a frame has passed are done, but for the one being visited
    in the frame above. *)
Fixpoint frames_ok (g : PipelineGraph) (state : list (string * VisitState))
    (above : option string) (stack : list (string * nat)) : Prop :=
  match stack with
  | [] => True
  | (id, index) :: below =>
      (forall i c, (i < index)%nat -> succs g id !! i = Some c ->
         is_done state c \/ above = Some c) /\
      frames_ok g state (Some id) below
  end.

Lemma frames_ok_mono g state state' above above' stack :
  (forall c, is_done state c \/ above = Some c -> is_done state' c \/ above' = Some c) ->
  (forall c, is_done state c -> is_done state' c) ->
  frames_ok g state above stack -> frames_ok g state' above' stack.
Proof.
  intros H Hd. revert above above' H. induction stack as [|[id index] below IH];
    intros above above' H; simpl; [done|].
  intros [H1 H2]. split; [intros i c Hi Hc; by eapply H, H1|].
  eapply IH; [|exact H2]. intros c [Hc|Hc]; [left; by apply Hd|by right].
Qed.

Record dfs_inv (g : PipelineGraph) (state : list (string * VisitState)) (path : list string)
    (stack : list (string * nat)) : Prop := {
  di_visiting : forall x, map_get state x = Some vs_visiting <-> x ∈ map fst stack;
  di_path : path = rev (map fst stack);
  di_nodup : NoDup (map fst stack);
  di_chain : frame_chain g (map fst stack);
  di_closed : forall a b, is_done state a -> edge_rel g a b -> is_done state b;
  di_acyclic : forall a, is_done state a -> ~ tc (edge_rel g) a a;
  di_frames : frames_ok g state None stack
}.

Lemma done_closed g state a b :
  (forall a b, is_done state a -> edge_rel g a b -> is_done state b) ->
  is_done state a -> tc (edge_rel g) a b -> is_done state b.
Proof. intros Hc Ha Ht. revert Ha. induction Ht as [a b Hab|a b c Hab _ IH]; eauto. Qed.

Section Cycle.
Context (g : PipelineGraph) (Hg : endpoints_ok g).

(** A frame without successors left: its stage is done. *)
Lemma dfs_pop state path id index below :
  dfs_inv g state path ((id, index) :: below) -> succs g id !! index = None ->
  dfs_inv g (map_set state id vs_done) (removelast path) below.
Proof.
  intros [Hv Hp Hn Hc Hcl Hac [Hf Hb]] Hnone. simpl in *.
  apply NoDup_cons in Hn as [Hid Hn]. apply lookup_ge_None in Hnone.
  assert (map_get state id = Some vs_visiting) as Hidv by (apply Hv; by left).
  assert (forall c, is_done (map_set state id vs_done) c <-> c = id \/ is_done state c) as Hd.
  { intros c. unfold is_done. rewrite map_get_set. destruct (str_eqb c id) eqn:E.
    - apply str_eqb_true in E as ->. naive_solver.
    - apply str_eqb_false in E. naive_solver. }
  assert (forall c, edge_rel g id c -> is_done state c) as Hsucc.
  { intros c [i Hi]%(elem_of_succs g Hg)%list_elem_of_lookup.
    destruct (Hf i c) as [?|?]; [|done|done|done]. apply lookup_lt_Some in Hi. lia. }
  assert (forall b, tc (edge_rel g) id b -> is_done state b) as Htc.
  { intros b Ht. destruct Ht as [b|c b Hidc Hcb]; [by apply Hsucc|].
    by eapply done_closed; [exact Hcl|apply Hsucc|]. }
  split.
  - intros x. rewrite map_get_set. destruct (str_eqb x id) eqn:E.
    + apply str_eqb_true in E as ->. split; [done|]. by intros ?%Hid.
    + apply str_eqb_false in E. rewrite Hv. set_solver.
  - rewrite Hp. simpl. by rewrite removelast_last.
  - done.
  - by destruct (map fst below); [|destruct Hc].
  - intros a b [->|Ha]%Hd Hab; apply Hd; right; [by apply Hsucc|by eapply Hcl].
  - intros a [->|Ha]%Hd; [|by apply Hac]. intros Ht%Htc. unfold is_done in Ht. congruence.
  - eapply frames_ok_mono; [| |exact Hb]; intros c; rewrite Hd; [|by right].
    intros [?|[= ->]]; left; auto.
Qed.

(** A successor that is already done. *)
Lemma dfs_skip state path id index below child :
  dfs_inv g state path ((id, index) :: below) -> succs g id !! index = Some child ->
  is_done state child -> dfs_inv g state path ((id, S index) :: below).
Proof.
  intros [Hv Hp Hn Hc Hcl Hac [Hf Hb]] Hi Hd. split; try done. split; [|done].
  intros i c Hlt Hic. destruct (decide (i = index)) as [->|]; [left; by simplify_eq|].
  apply (Hf i c); [lia|done].
Qed.

(** A successor that has not been visited. *)
Lemma dfs_push state path id index below child :
  dfs_inv g state path ((id, index) :: below) -> succs g id !! index = Some child ->
  map_get state child = None ->
  dfs_inv g (map_set state child vs_visiting) (path ++ [child])
    ((child, 0%nat) :: (id, S index) :: below).
Proof.
  intros [Hv Hp Hn Hc Hcl Hac [Hf Hb]] Hi Hnew.
  assert (edge_rel g id child) as He.
  { apply (elem_of_succs g Hg). by eapply list_elem_of_lookup_2. }
  assert (forall c, is_done (map_set state child vs_visiting) c <-> is_done state c) as Hd.
  { intros c. unfold is_done. rewrite map_get_set. destruct (str_eqb c child) eqn:E; [|done].
    apply str_eqb_true in E as ->. rewrite Hnew. done. }
  split; simpl in *.
  - intros x. rewrite map_get_set, (elem_of_cons _ x child), <-Hv.
    destruct (str_eqb x child) eqn:E.
    + apply str_eqb_true in E as ->. naive_solver.
    + apply str_eqb_false in E. naive_solver.
  - by rewrite Hp.
  - apply NoDup_cons. split; [|done]. rewrite <-Hv. congruence.
  - done.
  - intros a b. rewrite !Hd. apply Hcl.
  - intros a. rewrite Hd. apply Hac.
  - split; [intros i c Hlt; lia|]. split.
    + intros i c Hlt Hic. destruct (decide (i = index)) as [->|]; [right; by simplify_eq|].
      left. apply Hd. destruct (Hf i c) as [?|?]; [lia|done|done|done].
    + eapply frames_ok_mono; [| |exact Hb]; intros c; rewrite Hd; done.
Qed.

(** A successor that is being visited closes a cycle. *)
Lemma dfs_cycle state path id index below child :
  dfs_inv g state path ((id, index) :: below) -> succs g id !! index = Some child ->
  map_get state child = Some vs_visiting -> ~ acyclic g.
Proof.
  intros [Hv _ _ Hc _ _ _] Hi Hvis%Hv Hac.
  assert (edge_rel g id child) as He.
  { apply (elem_of_succs g Hg). by eapply list_elem_of_lookup_2. }
  destruct (frame_chain_path g id (map fst below) child Hc Hvis) as [->|Ht].
  - apply (Hac id). by apply tc_once.
  - apply (Hac child). by eapply tc_r.
Qed.

(** ** Termination of the search *)

(** One pair per edge, at its source, and one per stage: what visiting a stage
    may cost. *)
Definition visit_pairs : list (string * string) :=
  out_pairs g ++ map (fun id => (id, id)) (stageIds g).

Definition frames_cost (stack : list (string * nat)) : nat :=
  foldr (fun f n => S (length (succs g (fst f)) - snd f) + n)%nat 0%nat stack.

Definition dfs_cost (state : list (string * VisitState)) (stack : list (string * nat)) : nat :=
  (unseen visit_pairs (map_keys state) + frames_cost stack)%nat.

(** Visiting a declared stage is paid for by its pairs. *)
Lemma visit_cost (state : list (string * VisitState)) x v :
  x ∈ stageIds g -> map_get state x = None ->
  (S (length (succs g x)) + unseen visit_pairs (map_keys (map_set state x v)) <=
   unseen visit_pairs (map_keys state))%nat.
Proof.
  intros Hx Hnew. apply map_get_None in Hnew.
  rewrite map_keys_set_out by done. pose proof (unseen_add visit_pairs _ _ Hnew) as H.
  unfold set_add in H. rewrite (proj2 (set_has_false _ _) Hnew) in H.
  assert (S (length (succs g x)) <= length (children visit_pairs x))%nat; [|lia].
  unfold visit_pairs, children. rewrite List.filter_app, map_app, length_app.
  pose proof (succs_length g x) as Hs. unfold children in Hs.
  assert (x ∈ children (map (fun id => (id, id)) (stageIds g)) x) as Hc.
  { rewrite elem_of_children, list_elem_of_fmap. by exists x. }
  unfold children in Hc. destruct (map fst (List.filter _ (map _ (stageIds g)))) as [|y l].
  - by apply elem_of_nil in Hc.
  - simpl. lia.
Qed.

(** The search below one root ends: with a cycle, which the graph then has, or
    with everything visited done. *)
Lemma cycleLoop_spec fuel state path stack :
  dfs_inv g state path stack -> (dfs_cost state stack <= fuel)%nat ->
  (exists cycle, cycleLoop fuel (buildSuccessors g) state path stack = Some (inl cycle) /\
     ~ acyclic g) \/
  (exists state', cycleLoop fuel (buildSuccessors g) state path stack = Some (inr state') /\
     dfs_inv g state' [] [] /\ forall x, is_Some (map_get state x) -> is_done state' x).
Proof.
  revert state path stack.
  induction fuel as [|fuel IH]; intros state path [|[id index] below] Hinv Hcost;
    cbn [cycleLoop].
  1,3: right; exists state; split; [done|]; pose proof (di_path _ _ _ _ Hinv) as ->;
    split; [done|]; intros x [[|] Hx]; [|done];
    by apply (di_visiting _ _ _ _ Hinv), elem_of_nil in Hx.
  { unfold dfs_cost, frames_cost in Hcost. simpl in Hcost. lia. }
  fold (succs g id). destruct (succs g id !! index) as [child|] eqn:Hi.
  - assert (index < length (succs g id))%nat as Hlt by (by eapply lookup_lt_Some).
    destruct (map_get state child) as [[|]|] eqn:Hs.
    + left. eexists. split; [done|]. by eapply dfs_cycle.
    + apply IH; [by eapply dfs_skip|]. unfold dfs_cost, frames_cost in *. simpl in *. lia.
    + assert (child ∈ stageIds g) as Hch.
      { apply (edge_declared g Hg id child), (elem_of_succs g Hg).
        by eapply list_elem_of_lookup_2. }
      destruct (IH (map_set state child vs_visiting) (path ++ [child])
        ((child, 0%nat) :: (id, S index) :: below)) as [Hl|(state' & Hr & Hi' & Hvis)].
      * by apply dfs_push.
      * pose proof (visit_cost state child vs_visiting Hch Hs).
        unfold dfs_cost, frames_cost in *. simpl in *. lia.
      * by left.
      * right. exists state'. split_and!; [done|done|]. intros x [v Hx]. apply Hvis.
        rewrite map_get_set. destruct (str_eqb x child); by eexists.
  - destruct (IH (map_set state id vs_done) (removelast path) below)
      as [Hl|(state' & Hr & Hi' & Hvis)].
    + by eapply dfs_pop.
    + assert (id ∈ map_keys state) as Hid.
      { apply map_get_keys. exists vs_visiting. apply (di_visiting _ _ _ _ Hinv). by left. }
      unfold dfs_cost, frames_cost in *. rewrite map_keys_set_in by done. simpl in *. lia.
    + by left.
    + right. exists state'. split_and!; [done|done|]. intros x [v Hx]. apply Hvis.
      rewrite map_get_set. destruct (str_eqb x id); by eexists.
Qed.

(** The search below a root that has not been visited. *)
Lemma dfs_start state root :
  dfs_inv g state [] [] -> map_get state root = None ->
  dfs_inv g (map_set state root vs_visiting) [root] [(root, 0%nat)].
Proof.
  intros [Hv _ _ _ Hcl Hac _] Hs.
  assert (forall c, is_done (map_set state root vs_visiting) c <-> is_done state c) as Hd.
  { intros c. unfold is_done. rewrite map_get_set. destruct (str_eqb c root) eqn:E; [|done].
    apply str_eqb_true in E as ->. rewrite Hs. done. }
  split; simpl; try done.
  - intros x. rewrite map_get_set, list_elem_of_singleton. destruct (str_eqb x root) eqn:E.
    + apply str_eqb_true in E as ->. done.
    + apply str_eqb_false in E. rewrite Hv. simpl. rewrite elem_of_nil. naive_solver.
  - apply NoDup_singleton.
  - intros a b. rewrite !Hd. apply Hcl.
  - intros a. rewrite Hd. apply Hac.
  - split; [intros i c Hlt; lia|done].
Qed.

Lemma cycleRoots_spec state roots :
  dfs_inv g state [] [] -> (forall r, r ∈ roots -> r ∈ stageIds g) ->
  (exists cycle, cycleRoots (cycleFuel g) (buildSuccessors g) state roots = Some (Some cycle) /\
     ~ acyclic g) \/
  (exists state', cycleRoots (cycleFuel g) (buildSuccessors g) state roots = Some None /\
     dfs_inv g state' [] [] /\
     forall x, x ∈ roots \/ is_Some (map_get state x) -> is_done state' x).
Proof.
  revert state. induction roots as [|root roots IH]; intros state Hinv Hroots; cbn [cycleRoots].
  - right. exists state. split_and!; [done|done|]. intros x [?%elem_of_nil|[[|] Hx]]; [done| |done].
    by apply (di_visiting _ _ _ _ Hinv), elem_of_nil in Hx.
  - assert (root ∈ stageIds g) as Hroot by (apply Hroots; by left).
    assert (forall r, r ∈ roots -> r ∈ stageIds g) as Hrest by (intros r Hr; apply Hroots; by right).
    destruct (map_get state root) as [[|]|] eqn:Hs.
    + by apply (di_visiting _ _ _ _ Hinv), elem_of_nil in Hs.
    + destruct (IH state Hinv Hrest) as [Hl|(state' & -> & Hi & Hvis)]; [by left|right].
      exists state'. split_and!; [done|done|]. intros x [[->|Hx]%elem_of_cons|Hx]; apply Hvis;
        [right; by eexists|by left|by right].
    + assert (dfs_inv g (map_set state root vs_visiting) [root] [(root, 0%nat)]) as Hstart
        by (by apply dfs_start).
      destruct (cycleLoop_spec (cycleFuel g) _ _ _ Hstart) as [(cycle & -> & ?)|Hr].
      * pose proof (visit_cost state root vs_visiting Hroot Hs).
        pose proof (unseen_le visit_pairs (map_keys state)).
        unfold dfs_cost, frames_cost, cycleFuel, visit_pairs, out_pairs, stageIds in *.
        rewrite length_app, !length_map in *. simpl. lia.
      * left. by exists cycle.
      * destruct Hr as (state1 & -> & Hi1 & Hv1).
        destruct (IH state1 Hi1 Hrest) as [Hl|(state' & -> & Hi & Hvis)]; [by left|right].
        exists state'. split_and!; [done|done|]. intros x Hx. apply Hvis.
        assert (x ∈ roots \/ is_Some (map_get (map_set state root vs_visiting) x)) as [?|Hx'].
        { rewrite map_get_set. destruct (str_eqb x root) eqn:E; [right; by eexists|].
          apply str_eqb_false in E. destruct Hx as [[->|?]%elem_of_cons|?]; [done|by left|by right]. }
        -- by left.
        -- right. eexists. by apply Hv1.
Qed.

(** The search decides acyclicity. *)
Lemma findCycle_spec :
  exists result, findCycle g = Some result /\ (result = None <-> acyclic g).
Proof.
  unfold findCycle. fold (stageIds g). destruct (cycleRoots_spec [] (stageIds g)) as [Hl|Hr].
  - split; simpl; try done; [|constructor]. intros x. rewrite elem_of_nil. done.
  - done.
  - destruct Hl as (cycle & -> & Hn). by exists (Some cycle).
  - destruct Hr as (state & -> & Hinv & Hvis). exists None. split; [done|]. split; [|done].
    intros _ x Ht. assert (x ∈ stageIds g) as Hx.
    { apply tc_r_inv in Ht as [y Hyx]. by apply (edge_declared g Hg) in Hyx as [_ ?]. }
    apply (di_acyclic _ _ _ _ Hinv x); [|done]. apply Hvis. by left.
Qed.
End Cycle.
