(* ===== verification/GraphValid.v ===== *)
(** * What a valid pipeline graph is

    The abstract specification of [validatePipelineGraph] and, rule by rule, the
    proof that a rule is silent exactly when its clause holds. *)

From Stdlib Require Import Ascii.
From S2P Require Import Prelude Ids Json Recovery Graph Writers CanonicalJson Report GraphRules GraphWalks.

(** ** The specification *)

(** [w] is [r] or one of its dotted prefixes of at least two segments. *)
Definition covers (w r : string) : Prop :=
  str_has "."%char w = true /\ (w = r \/ exists rest, r = w +:+ "." +:+ rest).

(** The profiles a stage names: its own, its delegate's, its verdicts'. *)
Inductive names_profile (s : PipelineStage) (p : string) : Prop :=
| np_worker : ps_profile s = Some p -> names_profile s p
| np_delegate policy : ps_onValidationFailure s = Some policy ->
    vp_delegateTo policy = Some p -> names_profile s p
| np_verdict requirements : ps_completion s = Some requirements ->
    cr_verdict p ∈ requirements -> names_profile s p.

Record stage_shape (known : option (list string)) (s : PipelineStage) : Prop := {
  sh_worker : ps_type s = st_agent \/ ps_type s = st_verify -> is_Some (ps_profile s);
  sh_no_worker : ps_type s = st_command \/ ps_type s = st_approval -> ps_profile s = None;
  sh_command : ps_type s = st_command <-> ps_command s <> None;
  sh_profiles : forall ids p, known = Some ids -> names_profile s p -> p ∈ ids;
  sh_delegate : forall policy, ps_onValidationFailure s = Some policy ->
    vp_strategy policy = strategy_delegate <-> is_Some (vp_delegateTo policy)
}.

(** [l] is at most [b] where both are declared. *)
Definition within (l b : option Z) : Prop :=
  forall x y, l = Some x -> b = Some y -> (x <= y)%Z.

Definition stage_repairs (s : PipelineStage) : option Z := ps_limits s ≫= sl_maxRepairAttempts.

Record stage_limited (g : PipelineGraph) (s : PipelineStage) : Prop := {
  sl_repairs : within (stage_repairs s) (pl_maxRepairAttempts (pg_limits g));
  sl_duration : within (ps_limits s ≫= sl_maxDurationMs) (pl_maxPipelineDurationMs (pg_limits g));
  sl_attempts : within (ps_onValidationFailure s ≫= vp_maxAttempts)
    (match stage_repairs s with Some n => Some n | None => pl_maxRepairAttempts (pg_limits g) end)
}.

Record graph_valid (known : option (list string)) (g : PipelineGraph) : Prop := {
  gv_nonempty : pg_stages g <> [];
  gv_ids : NoDup (stageIds g);
  gv_shapes : forall s, s ∈ pg_stages g -> stage_shape known s;
  gv_thresholds : forall soft hard, pc_handoffSoftThreshold (pg_context g) = Some soft ->
    pc_handoffHardThreshold (pg_context g) = Some hard -> num_lt hard soft = false;
  gv_limits : forall s, s ∈ pg_stages g -> stage_limited g s;
  gv_endpoints : endpoints_ok g;
  gv_single : NoDup (map (fun e => (pe_from e, pe_to e)) (pg_edges g));
  gv_evaluators : forall e p q ids, e ∈ pg_edges g -> pe_condition e = Some (CEvaluator p q) ->
    known = Some ids -> p ∈ ids;
  gv_acyclic : acyclic g;
  gv_reads_in : forall s r, s ∈ pg_stages g -> r ∈ ps_reads s ->
    namespaceOf r ∈ ["task"; "artifacts"; "decisions"];
  gv_writes_in : forall s w, s ∈ pg_stages g -> w ∈ ps_writes s ->
    namespaceOf w ∈ ["artifacts"; "decisions"];
  gv_reads : forall s r, s ∈ pg_stages g -> r ∈ ps_reads s -> namespaceOf r <> "task" ->
    exists a w, a ∈ pg_stages g /\ tc (edge_rel g) (ps_id a) (ps_id s) /\
      w ∈ ps_writes a /\ covers w r;
  gv_writes : forall s, s ∈ pg_stages g -> NoDup (ps_writes s);
  gv_ordered : forall a b w, a ∈ pg_stages g -> b ∈ pg_stages g -> ps_id a <> ps_id b ->
    w ∈ ps_writes a -> w ∈ ps_writes b ->
    tc (edge_rel g) (ps_id a) (ps_id b) \/ tc (edge_rel g) (ps_id b) (ps_id a)
}.

(** ** References and their prefixes *)

(** [text.split(".")] with the segment begun so far. *)
Fixpoint segments (current text : string) : list string :=
  match text with
  | EmptyString => [current]
  | String c rest =>
      if bool_decide (c = "."%char) then current :: segments "" rest
      else segments (current +:+ String c "") rest
  end.

Lemma js_split_go_segments current text : js_split_go "." 0 current text = segments current text.
Proof.
  revert current. induction text as [|c text IH]; intros current; [done|].
  cbn [js_split_go segments String.prefix]. destruct (Ascii.ascii_dec "." c) as [<-|Hne].
  - rewrite bool_decide_eq_true_2 by done.
    transitivity (current :: js_split_go "." 0 "" text); [by destruct text|by rewrite IH].
  - rewrite bool_decide_eq_false_2 by congruence. by rewrite <-IH.
Qed.

Lemma js_split_segments text : js_split "." text = segments "" text.
Proof. apply js_split_go_segments. Qed.

Lemma segments_nonempty current text : segments current text <> [].
Proof. revert current. induction text as [|c text IH]; intros; simpl; [done|]. by case_bool_decide. Qed.

Lemma segments_app current w rest :
  segments current (w +:+ "." +:+ rest) = segments current w ++ segments "" rest.
Proof.
  revert current. induction w as [|c w IH]; intros current.
  - done.
  - rewrite str_app_cons. simpl. case_bool_decide; simpl; by rewrite IH.
Qed.

Lemma str_app_nil_r s : s +:+ "" = s.
Proof. induction s as [|c s IH]; [done|]. rewrite str_app_cons. by rewrite IH. Qed.

Lemma join_cons_ne sep x l : l <> [] -> js_join sep (x :: l) = x +:+ sep +:+ js_join sep l.
Proof. by destruct l. Qed.

Lemma join_app sep l l' :
  l <> [] -> l' <> [] -> js_join sep (l ++ l') = js_join sep l +:+ sep +:+ js_join sep l'.
Proof.
  intros Hl Hl'. induction l as [|x l IH]; [done|]. destruct l as [|y l].
  - change ([x] ++ l') with (x :: l'). by rewrite join_cons_ne.
  - change ((x :: y :: l) ++ l') with (x :: (y :: l) ++ l').
    rewrite !join_cons_ne by done. rewrite IH by done. by rewrite !str_app_assoc.
Qed.

Lemma join_segments current text : js_join "." (segments current text) = current +:+ text.
Proof.
  revert current. induction text as [|c text IH]; intros current; simpl.
  - by rewrite str_app_nil_r.
  - case_bool_decide as Hc.
    + subst c. rewrite join_cons_ne by apply segments_nonempty. by rewrite IH, str_app_nil.
    + rewrite IH, str_app_assoc. done.
Qed.

(** A text has a dot exactly when it has two segments. *)
Lemma segments_dot current text :
  str_has "."%char text = true <-> (2 <= length (segments current text))%nat.
Proof.
  revert current. induction text as [|c text IH]; intros current; simpl; [split; [done|lia]|].
  destruct (decide (c = "."%char)) as [->|Hne].
  - rewrite !bool_decide_eq_true_2 by done. simpl.
    pose proof (segments_nonempty "" text). destruct (segments "" text); [done|].
    simpl. split; [lia|done].
  - rewrite !bool_decide_eq_false_2 by congruence. apply IH.
Qed.

Lemma join_dot l : (2 <= length l)%nat -> str_has "."%char (js_join "." l) = true.
Proof.
  destruct l as [|x [|y l]]; cbn [length]; [lia..|]. intros _. rewrite join_cons_ne by done.
  rewrite !str_has_app. apply orb_true_r.
Qed.

Lemma elem_of_prefixLoop n segs p :
  p ∈ prefixLoop n segs <-> exists k, (2 <= k <= n)%nat /\ p = js_join "." (take k segs).
Proof.
  induction n as [|[|n] IH].
  1,2: split; [by intros ?%elem_of_nil|intros (k & ? & _); lia].
  cbn [prefixLoop]. rewrite elem_of_cons, IH. split.
  - intros [->|(k & ? & ->)]; eexists; (split; [|done]); lia.
  - intros (k & Hk & ->). destruct (decide (k = S (S n))) as [->|]; [by left|].
    right. exists k. split; [lia|done].
Qed.

(** [prefixesOf] lists the references that cover [r]. *)
Lemma elem_of_prefixesOf w r : w ∈ prefixesOf r <-> covers w r.
Proof.
  unfold prefixesOf. rewrite js_split_segments, elem_of_prefixLoop. unfold covers.
  split.
  - intros (k & [H2 Hk] & ->). set (segs := segments "" r) in *.
    assert (r = js_join "." segs) as Hr by (by unfold segs; rewrite join_segments).
    assert (take k segs <> []) as Hne.
    { intros E. apply (f_equal length) in E. rewrite length_take in E. simpl in E. lia. }
    split.
    + apply join_dot. rewrite length_take. lia.
    + destruct (decide (k = length segs)) as [->|Hlt]; [left; by rewrite firstn_all|right].
      exists (js_join "." (drop k segs)). rewrite <-join_app, take_drop; [done|done|].
      intros E. apply (f_equal length) in E. rewrite length_drop in E. simpl in E. lia.
  - rewrite (segments_dot ""). intros [Hw [->|(rest & ->)]].
    + exists (length (segments "" r)). split; [lia|]. by rewrite firstn_all, join_segments.
    + exists (length (segments "" w)). rewrite segments_app. split.
      * rewrite length_app. lia.
      * rewrite take_app_length. by rewrite join_segments.
Qed.

(** ** Silent rules *)

Lemma each_indexed_nil {A B} (f : nat -> A -> list B) l :
  each_indexed f l = [] <-> forall i x, l !! i = Some x -> f i x = [].
Proof.
  unfold each_indexed. revert f. induction l as [|y l IH]; intros f; simpl.
  - split; [by intros _ [|i] x|done].
  - rewrite app_nil. rewrite IH. split.
    + intros [H1 H2] [|i] x; simpl; [by intros [= ->]|]. apply H2.
    + intros H. split; [by apply (H 0%nat)|]. intros i x Hx. by apply (H (S i)).
Qed.

Lemma each_elem_nil {A B} (f : nat -> A -> list B) (P : A -> Prop) l :
  (forall i x, x ∈ l -> f i x = [] <-> P x) ->
  each_indexed f l = [] <-> forall x, x ∈ l -> P x.
Proof.
  intros Hf. rewrite each_indexed_nil. split.
  - intros H x Hx. pose proof Hx as [i Hi]%list_elem_of_lookup. by apply (Hf i x Hx), H.
  - intros H i x Hi. apply list_elem_of_lookup_2 in Hi. by apply Hf, H.
Qed.

Lemma flat_elem_nil {A B} (f : A -> list B) (P : A -> Prop) l :
  (forall x, x ∈ l -> f x = [] <-> P x) -> flat_map f l = [] <-> forall x, x ∈ l -> P x.
Proof.
  intros Hf. rewrite flat_map_nil. split; intros H x Hx; by apply (Hf x Hx), H.
Qed.

Lemma filter_absent (x : string) l : x ∉ l -> filter (fun i => i = x) l = [].
Proof.
  intros Hx. destruct (filter (fun i => i = x) l) as [|y k] eqn:E; [done|].
  assert (y ∈ filter (fun i => i = x) l) as [-> Hy]%list_elem_of_filter by (rewrite E; by left).
  done.
Qed.

Lemma and_iff_both A A' B B' : (A <-> A') -> (B <-> B') -> A /\ B <-> A' /\ B'.
Proof. tauto. Qed.

Lemma error_if r (b : bool) c m p s : (if b then error r c m p s else []) = [] <-> b = false.
Proof. by destruct b. Qed.

Lemma error_unless r (b : bool) c m p s : (if b then [] else error r c m p s) = [] <-> b = true.
Proof. by destruct b. Qed.

Section Silent.
Context (r : Reporter).

(** *** Every rule reports errors *)

Definition errors (ds : list PipelineDiagnostic) : Prop :=
  forall d, d ∈ ds -> pd_severity d = sev_error.

Lemma errors_nil : errors [].
Proof. by intros d ?%elem_of_nil. Qed.

Lemma errors_error c m p s : errors (error r c m p s).
Proof. by intros d ->%list_elem_of_singleton. Qed.

Lemma errors_app ds ds' : errors ds -> errors ds' -> errors (ds ++ ds').
Proof. intros H1 H2 d [?|?]%elem_of_app; auto. Qed.

Lemma errors_silent ds : errors ds -> hasErrorDiagnostic ds = false <-> ds = [].
Proof.
  intros He. destruct ds as [|d ds]; [done|]. split; [|done]. simpl.
  by rewrite bool_decide_eq_true_2 by (apply He; by left).
Qed.

Lemma errors_flat {A} (f : A -> list PipelineDiagnostic) l :
  (forall x, errors (f x)) -> errors (flat_map f l).
Proof.
  intros H d. rewrite list_elem_of_In, in_flat_map. intros (x & _ & Hd).
  apply (H x). by apply list_elem_of_In.
Qed.

Lemma errors_each {A} (f : nat -> A -> list PipelineDiagnostic) l :
  (forall i x, errors (f i x)) -> errors (each_indexed f l).
Proof.
  intros H d. unfold each_indexed. rewrite list_elem_of_In, in_concat.
  intros (ds & Hds%list_elem_of_In & Hd%list_elem_of_In).
  apply elem_of_lookup_imap in Hds as (i & x & -> & _). by apply (H i x).
Qed.

Lemma errors_iff ds : errors ds -> hasErrorDiagnostic ds = false <-> ds = [].
Proof.
  intros H. destruct ds as [|d ds]; [done|]. simpl.
  by rewrite bool_decide_eq_true_2 by (apply H; by left).
Qed.

(** Decompose a rule into the diagnostics it may report. *)
Ltac solve_errors :=
  repeat first
    [ apply errors_nil | apply errors_error | apply errors_app
    | apply errors_each; intros ? ? | apply errors_flat; intros ?
    | progress cbv zeta beta | case_match ].

(** *** Stage ids *)

Lemma counts_get (stages : list PipelineStage) m k :
  map_get (fold_left (fun m stage => map_set m (ps_id stage)
    (default 0 (map_get m (ps_id stage)) + 1)%Z) stages m) k =
  if bool_decide (k ∈ map ps_id stages)
  then Some (default 0 (map_get m k) + Z.of_nat (length (filter (fun i => i = k) (map ps_id stages))))%Z
  else map_get m k.
Proof.
  revert m. induction stages as [|s stages IH]; intros m; simpl; [done|].
  rewrite IH, map_get_set, filter_cons. destruct (str_eqb k (ps_id s)) eqn:E.
  - apply str_eqb_true in E as ->. rewrite decide_True by done.
    rewrite (bool_decide_eq_true_2 (_ ∈ _ :: _)) by (by left). simpl.
    case_bool_decide as Hin; [f_equal; lia|]. by rewrite filter_absent.
  - apply str_eqb_false in E. rewrite decide_False by congruence.
    do 2 case_bool_decide; try done; exfalso; set_solver.
Qed.

Lemma filter_count_NoDup (l : list string) :
  (forall k, k ∈ l -> (length (filter (fun i => i = k) l) <= 1)%nat) <-> NoDup l.
Proof.
  induction l as [|x l IH]; [split; [constructor|by intros _ k ?%elem_of_nil]|].
  rewrite NoDup_cons, <-IH. split.
  - intros H. split.
    + intros Hx. specialize (H x (list_elem_of_here _ _)). rewrite filter_cons_True in H by done.
      simpl in H. assert (x ∈ filter (fun i => i = x) l) as Hf by (by apply list_elem_of_filter).
      destruct (filter (fun i => i = x) l); [by apply elem_of_nil in Hf|]. simpl in H. lia.
    + intros k Hk. specialize (H k (list_elem_of_further _ _ _ Hk)). rewrite filter_cons in H.
      case_decide; simpl in H; lia.
  - intros [Hx H] k Hk. rewrite filter_cons. case_decide as Ek.
    + subst k. by rewrite filter_absent.
    + apply elem_of_cons in Hk as [->|Hk]; [done|]. by apply H.
Qed.

Lemma validateStageIds_nil n : validateStageIds r n = [] <-> NoDup (stageIds (np_graph n)).
Proof.
  unfold validateStageIds. set (m := fold_left _ _ _).
  assert (forall k, map_get m k = if bool_decide (k ∈ stageIds (np_graph n))
    then Some (Z.of_nat (length (filter (fun i => i = k) (stageIds (np_graph n))))) else None) as Hm.
  { intros k. unfold m. rewrite counts_get. simpl. fold (stageIds (np_graph n)).
    by case_bool_decide. }
  assert (NoDup (map_keys m)) as Hnd.
  { unfold m. clear m Hm. enough (forall stages w, NoDup (map_keys w) ->
      NoDup (map_keys (fold_left (fun m stage => map_set m (ps_id stage)
        (default 0 (map_get m (ps_id stage)) + 1)%Z) stages w))) as H by (apply H; constructor).
    induction stages as [|s stages IH]; intros w Hw; simpl; [done|]. by apply IH, map_set_NoDup. }
  rewrite <-filter_count_NoDup, (flat_elem_nil _ (fun e => (snd e <= 1)%Z)).
  2:{ intros e _. rewrite error_if. lia. }
  split.
  - intros H k Hk. specialize (Hm k). rewrite bool_decide_eq_true_2 in Hm by done.
    apply map_get_elem, H in Hm. simpl in Hm. lia.
  - intros H [k c] He. apply elem_map_get in He; [|done]. rewrite Hm in He.
    case_bool_decide as Hk; [|done]. simplify_eq. specialize (H k Hk). simpl. lia.
Qed.

(** *** Stage shapes *)

Lemma elem_of_stageProfiles s pointer p :
  (exists q, (p, q) ∈ stageProfiles s pointer) <-> names_profile s p.
Proof.
  unfold stageProfiles. split.
  - intros (q & [H|[H|H]%elem_of_app]%elem_of_app).
    + destruct (ps_profile s) as [p'|] eqn:E; [|by apply elem_of_nil in H].
      apply list_elem_of_singleton in H as [= -> ->]. by apply np_worker.
    + destruct (ps_onValidationFailure s) as [policy|] eqn:E; [|by apply elem_of_nil in H].
      destruct (vp_delegateTo policy) as [p'|] eqn:E'; [|by apply elem_of_nil in H].
      apply list_elem_of_singleton in H as [= -> ->]. by eapply np_delegate.
    + destruct (ps_completion s) as [reqs|] eqn:E; [|by apply elem_of_nil in H].
      unfold each_indexed in H. rewrite list_elem_of_In, in_concat in H.
      destruct H as (l & Hl%list_elem_of_In & Hin%list_elem_of_In).
      apply elem_of_lookup_imap in Hl as (i & req & -> & Hreq%list_elem_of_lookup_2).
      destruct req; try by apply elem_of_nil in Hin.
      apply list_elem_of_singleton in Hin as [= -> ->]. by eapply np_verdict.
  - intros [H|policy H1 H2|reqs H1 H2].
    + rewrite H. eexists. apply elem_of_app. left. by left.
    + rewrite H1, H2. eexists. rewrite !elem_of_app. right. left. by left.
    + rewrite H1. apply list_elem_of_lookup in H2 as [i Hi].
      eexists. rewrite !elem_of_app. right. right. unfold each_indexed.
      rewrite list_elem_of_In, in_concat. eexists. rewrite <-!list_elem_of_In. split.
      * apply elem_of_lookup_imap. exists i, (cr_verdict p). by split.
      * by left.
Qed.

Lemma validateStageProfiles_nil s pointer known :
  validateStageProfiles r s pointer (set_of <$> known) = [] <->
  forall ids p, known = Some ids -> names_profile s p -> p ∈ ids.
Proof.
  destruct known as [ids|]; simpl; [|split; [by intros _ ids p|done]].
  rewrite flat_map_nil. split.
  - intros H ids' p [= <-] Hn. apply (elem_of_stageProfiles s pointer) in Hn as [q Hq].
    apply H, error_unless in Hq. simpl in Hq. by rewrite set_has_true, elem_of_set_of in Hq.
  - intros H [p q] Hin. apply error_unless. simpl. apply set_has_true, elem_of_set_of.
    apply (H ids p eq_refl). apply (elem_of_stageProfiles s pointer). by exists q.
Qed.

Lemma validateValidationFailurePolicy_nil s pointer :
  validateValidationFailurePolicy r s pointer = [] <->
  forall policy, ps_onValidationFailure s = Some policy ->
    vp_strategy policy = strategy_delegate <-> is_Some (vp_delegateTo policy).
Proof.
  unfold validateValidationFailurePolicy.
  destruct (ps_onValidationFailure s) as [policy|]; [|split; [by intros _ ?|done]].
  rewrite app_nil, !error_if, !andb_false_iff, !negb_false_iff, !bool_decide_eq_true,
    !bool_decide_eq_false. split.
  - intros [H1 H2] ? [= <-]. destruct (decide (vp_strategy policy = strategy_delegate)); naive_solver.
  - intros H. specialize (H policy eq_refl).
    destruct (decide (vp_strategy policy = strategy_delegate)),
      (decide (is_Some (vp_delegateTo policy))); naive_solver.
Qed.

Lemma validateStageShape_nil pointers known s :
  validateStageShape r pointers (set_of <$> known) s = [] <-> stage_shape known s.
Proof.
  unfold validateStageShape.
  rewrite !app_nil, !error_if, validateStageProfiles_nil, validateValidationFailurePolicy_nil,
    !andb_false_iff, !negb_false_iff, !bool_decide_eq_true, !bool_decide_eq_false.
  unfold PROFILE_STAGE_TYPES, PROFILE_FREE_STAGE_TYPES.
  assert (forall t a b : PipelineStageType, t ∉ [a; b] <-> ~ (t = a \/ t = b)) as Hn.
  { intros t a b. rewrite !elem_of_cons, elem_of_nil. naive_solver. }
  rewrite !Hn. split.
  - intros (H1 & H2 & H3 & H4 & H5 & H6). split; [| | |done|done].
    + intros Ht. by destruct H1.
    + intros Ht. destruct H2; [done|]. by apply eq_None_not_Some.
    + destruct (ps_command s); split; try done; by destruct H3, H4.
  - intros [H1 H2 H3 H4 H5]. split_and!; try done.
    + destruct (decide (is_Some (ps_profile s))); [by right|left; auto].
    + destruct (decide (is_Some (ps_profile s))) as [Hp|]; [left|by right].
      intros Ht%H2. rewrite Ht in Hp. by destruct Hp.
    + destruct (decide (ps_type s = st_command)) as [Ht|]; [right|by left].
      apply H3 in Ht. by destruct (ps_command s).
    + destruct (decide (ps_type s = st_command)) as [|Ht]; [by left|right].
      destruct (ps_command s); [|done]. by destruct Ht; apply H3.
Qed.

(** *** Thresholds and limits *)

Lemma validateContext_nil g :
  validateContext r g = [] <->
  forall soft hard, pc_handoffSoftThreshold (pg_context g) = Some soft ->
    pc_handoffHardThreshold (pg_context g) = Some hard -> num_lt hard soft = false.
Proof.
  unfold validateContext. destruct (pc_handoffSoftThreshold _) as [soft|],
    (pc_handoffHardThreshold _) as [hard|]; rewrite ?error_if; naive_solver.
Qed.

Lemma exceeds_within l b : exceeds l b = false <-> within l b.
Proof.
  unfold exceeds, within. destruct l as [x|], b as [y|]; try naive_solver.
  rewrite Z.ltb_ge. naive_solver.
Qed.

Lemma validateStageLimits_nil g pointers s :
  validateStageLimits r g pointers s = [] <-> stage_limited g s.
Proof.
  unfold validateStageLimits. rewrite !app_nil, !error_if, !exceeds_within.
  split; [by intros (? & ? & ?)|by intros [? ? ?]].
Qed.

(** *** Edges *)

Lemma stagesById_has (g : PipelineGraph) k :
  map_has (map_of (map (fun stage => (ps_id stage, stage)) (pg_stages g))) k = true <->
  k ∈ stageIds g.
Proof. by rewrite map_has_keys, elem_of_map_of, map_map. Qed.

Lemma edgeEndpoints_nil g pointers i e :
  edgeEndpoints r pointers
    (map_has (map_of (map (fun stage => (ps_id stage, stage)) (pg_stages g)))) i e = [] <->
  (pe_from e ∈ stageIds g /\ pe_to e ∈ stageIds g) /\ pe_from e <> pe_to e.
Proof.
  unfold edgeEndpoints. rewrite !app_nil, !error_unless, error_if, !stagesById_has, str_eqb_false.
  naive_solver.
Qed.

Lemma validateEdgeEndpoints_spec g pointers :
  let '(diagnostics, resolved) := validateEdgeEndpoints r g pointers
    (map_of (map (fun stage => (ps_id stage, stage)) (pg_stages g))) in
  (resolved = true <-> diagnostics = []) /\
  (diagnostics = [] <-> endpoints_ok g /\ forall e, e ∈ pg_edges g -> pe_from e <> pe_to e).
Proof.
  unfold validateEdgeEndpoints. split.
  - rewrite Nat.eqb_eq. by destruct (each_indexed _ _).
  - rewrite (each_elem_nil _ _ _ (fun i e _ => edgeEndpoints_nil g pointers i e)).
    unfold endpoints_ok. naive_solver.
Qed.

Lemma validateConditionProfiles_nil g pointers known :
  validateConditionProfiles r g pointers known = [] <->
  forall e p q ids, e ∈ pg_edges g -> pe_condition e = Some (CEvaluator p q) ->
    known = Some ids -> p ∈ ids.
Proof.
  unfold validateConditionProfiles. destruct known as [ids|]; [|split; [by intros _ ????|done]].
  rewrite (each_elem_nil _ (fun e => forall p q, pe_condition e = Some (CEvaluator p q) -> p ∈ ids)).
  - split; [intros H e p q ? He Hc [= <-]; by eapply H|]. intros H e He p q Hc. by eapply H.
  - intros i e _. destruct (pe_condition e) as [[c|p q]|]; [naive_solver| |naive_solver].
    rewrite error_unless, set_has_true, elem_of_set_of. naive_solver.
Qed.

Lemma addEndpoints_fold (l : list (nat * PipelineEdge)) m k :
  length (default [] (map_get (fold_left addEndpoints l m) k)) =
  (length (default [] (map_get m k)) +
   length (filter (fun i => i = k) (map (fun e => endpointsKey (snd e)) l)))%nat.
Proof.
  revert m. induction l as [|e l IH]; intros m; cbn [fold_left map]; [by rewrite filter_nil|].
  rewrite IH. unfold addEndpoints at 1. rewrite map_get_set, filter_cons.
  destruct (str_eqb k (endpointsKey (snd e))) eqn:E.
  - apply str_eqb_true in E as ->. rewrite decide_True by done. simpl.
    rewrite length_app. simpl. lia.
  - apply str_eqb_false in E. rewrite decide_False by congruence. lia.
Qed.

Lemma addEndpoints_NoDup (l : list (nat * PipelineEdge)) m :
  NoDup (map_keys m) -> NoDup (map_keys (fold_left addEndpoints l m)).
Proof.
  revert m. induction l as [|e l IH]; intros m Hm; simpl; [done|]. by apply IH, map_set_NoDup.
Qed.

Lemma map_imap_pair {A B} (f : A -> B) (l : list A) :
  map (fun e => f (snd e)) (imap pair l) = map f l.
Proof.
  apply list_eq. intros i. rewrite !list_lookup_fmap, list_lookup_imap. by destruct (l !! i).
Qed.

Lemma validateDuplicateEdges_nil g pointers :
  validateDuplicateEdges r g pointers = [] <-> NoDup (map endpointsKey (pg_edges g)).
Proof.
  unfold validateDuplicateEdges.
  rewrite (flat_elem_nil _ (fun group => (length (snd group) < 2)%nat)).
  2:{ intros [k l] _. cbn [snd]. destruct (length l <? 2)%nat eqn:E.
      - apply Nat.ltb_lt in E. done.
      - apply Nat.ltb_ge in E. destruct l as [|a [|b l]]; simpl in *; try lia.
        split; [done|lia]. }
  unfold edgeGroups. set (w := fold_left _ _ _).
  assert (forall k, length (default [] (map_get w k)) =
    length (filter (fun i => i = k) (map endpointsKey (pg_edges g)))) as Hw.
  { intros k. unfold w. by rewrite addEndpoints_fold, map_imap_pair. }
  assert (NoDup (map_keys w)) as Hnd by (apply addEndpoints_NoDup; constructor).
  rewrite <-filter_count_NoDup. split.
  - intros H k _. rewrite <-Hw. destruct (map_get w k) as [l|] eqn:E; simpl; [|lia].
    apply map_get_elem, H in E. simpl in E. lia.
  - intros H [k l] He. apply elem_map_get in He; [|done]. specialize (Hw k).
    rewrite He in Hw. simpl in *. destruct (decide (k ∈ map endpointsKey (pg_edges g))) as [Hk|Hk].
    + specialize (H k Hk). lia.
    + rewrite filter_absent in Hw by done. simpl in Hw. lia.
Qed.

(** A separator that a field does not hold ends the field. *)
Lemma field_inj sep a b s t :
  str_has sep a = false -> str_has sep b = false ->
  a +:+ String sep s = b +:+ String sep t -> a = b /\ s = t.
Proof.
  revert b. induction a as [|c a IH]; intros [|d b] Ha Hb;
    rewrite ?str_app_cons, ?str_app_nil; simpl in Ha, Hb.
  - by intros [= ->].
  - intros [= <- E]. by rewrite bool_decide_eq_true_2 in Hb.
  - intros [= -> E]. by rewrite bool_decide_eq_true_2 in Ha.
  - apply orb_false_elim in Ha as [_ Ha]. apply orb_false_elim in Hb as [_ Hb].
    intros [= -> E]. apply IH in E as [-> ->]; done.
Qed.

Definition plain_ids (g : PipelineGraph) : bool :=
  forallb (fun s => negb (str_has " "%char (ps_id s))) (pg_stages g).

Lemma plain_id g k : plain_ids g = true -> k ∈ stageIds g -> str_has " "%char k = false.
Proof.
  unfold plain_ids. rewrite forallb_forall. intros H (s & -> & Hs%list_elem_of_In)%list_elem_of_fmap.
  by apply negb_true_iff, H.
Qed.

Lemma endpoints_single g :
  plain_ids g = true -> endpoints_ok g ->
  NoDup (map endpointsKey (pg_edges g)) <->
  NoDup (map (fun e => (pe_from e, pe_to e)) (pg_edges g)).
Proof.
  intros Hp Hg. unfold endpoints_ok in Hg. induction (pg_edges g) as [|e es IH]; [split; constructor|].
  cbn [map]. rewrite !NoDup_cons, IH by (intros e' He'; apply Hg; by right).
  apply and_iff_compat_r, not_iff_compat. rewrite !list_elem_of_fmap. split.
  - intros (e' & Hk & He'). exists e'. split; [|done]. unfold endpointsKey in Hk.
    apply (field_inj " "%char) in Hk as [E1 E2]; [by rewrite E1, E2| |];
      apply (plain_id g); try done; apply Hg; [by left|by right].
  - intros (e' & [= H1 H2] & He'). exists e'. split; [|done]. unfold endpointsKey. congruence.
Qed.

(** *** Cycles and reachability *)

Lemma validateAcyclic_spec g pointers :
  endpoints_ok g ->
  exists ds, validateAcyclic r g pointers = Some ds /\ errors ds /\ (ds = [] <-> acyclic g).
Proof.
  intros Hg. destruct (findCycle_spec g Hg) as (result & Hf & Hres).
  unfold validateAcyclic. rewrite Hf.
  destruct result as [cycle|]; (eexists; split; [done|]; split; [solve_errors|]).
  - split; [done|]. intros Hac. by apply Hres in Hac.
  - split; [intros _|done]. by apply Hres.
Qed.

Lemma elem_of_entries (g : PipelineGraph) k :
  k ∈ map ps_id (List.filter (fun stage => negb (set_has (set_of (map pe_to (pg_edges g)))
                                                   (ps_id stage))) (pg_stages g)) <->
  k ∈ stageIds g /\ forall p, ~ edge_rel g p k.
Proof.
  unfold stageIds. rewrite !list_elem_of_fmap.
  assert (k ∈ set_of (map pe_to (pg_edges g)) <-> exists p, edge_rel g p k) as Hin.
  { rewrite elem_of_set_of, list_elem_of_fmap. unfold edge_rel. split.
    - intros (e & -> & He). by exists (pe_from e), e.
    - intros (p & e & He & _ & <-). by exists e. }
  split.
  - intros (s & -> & [Hs Hn]%list_elem_of_In%filter_In).
    apply negb_true_iff, set_has_false in Hn. split; [exists s; by rewrite list_elem_of_In|].
    intros p Hp. apply Hn, Hin. by exists p.
  - intros [(s & -> & Hs) Hn]. exists s. split; [done|]. apply list_elem_of_In, filter_In.
    split; [by apply list_elem_of_In|]. apply negb_true_iff, set_has_false.
    intros [p Hp]%Hin. by apply (Hn p).
Qed.

Lemma validateStageReachability_spec g pointers :
  endpoints_ok g ->
  exists ds, validateStageReachability r g pointers = Some ds /\ errors ds /\
    (acyclic g -> ds = [] <-> pg_stages g <> []).
Proof.
  intros Hg. unfold validateStageReachability.
  pose proof (elem_of_entries g) as Hent. set (entries := map ps_id (List.filter _ _)) in *.
  assert (length entries <= length (pg_stages g))%nat as Hlen.
  { unfold entries. rewrite length_map. apply List.filter_length_le. }
  destruct (reachLoop_spec g Hg (reachFuel g) (set_of entries) entries) as (reached & Hr & Hinv & Hsub).
  { split; [intros x; by rewrite elem_of_set_of|].
    intros a b Ha Hn. by destruct Hn; apply elem_of_set_of. }
  { unfold reachFuel. pose proof (unseen_le (in_pairs g) (set_of entries)) as Hu.
    unfold in_pairs in *. rewrite length_map in Hu. lia. }
  assert (acyclic g -> forall x, x ∈ stageIds g -> x ∈ reached) as Hall.
  { intros Hac x. apply (reach_acyclic g Hg reached x Hac Hinv). intros s Hs Hn.
    apply Hsub, elem_of_set_of, Hent. done. }
  destruct entries as [|e es] eqn:He.
  - eexists. split; [done|]. split; [apply errors_error|]. intros Hac. split; [done|].
    intros Hne. exfalso. destruct (pg_stages g) as [|s ss] eqn:Hst; [done|].
    assert (ps_id s ∈ stageIds g) as Hs by (unfold stageIds; rewrite Hst; by left).
    assert (reached = []) as -> by (simpl in Hr; by simplify_eq).
    by apply (Hall Hac), elem_of_nil in Hs.
  - rewrite Hr. eexists. split; [done|]. split; [solve_errors|]. intros Hac. split.
    + intros _ Hnil. rewrite Hnil in Hlen. simpl in Hlen. lia.
    + intros _. apply flat_map_nil. intros s Hs. apply error_unless, set_has_true, Hall; [done|].
      by apply list_elem_of_fmap_2.
Qed.

(** *** State flow *)

Lemma stageNamespaces_nil pointers s :
  stageNamespaces r pointers s = [] <->
  (forall x, x ∈ ps_reads s -> namespaceOf x ∈ ["task"; "artifacts"; "decisions"]) /\
  (forall x, x ∈ ps_writes s -> namespaceOf x ∈ ["artifacts"; "decisions"]).
Proof.
  unfold stageNamespaces. rewrite app_nil. apply and_iff_both.
  - apply each_elem_nil. intros i x _. unfold unknownNamespace.
    by rewrite error_unless, set_has_true.
  - apply each_elem_nil. intros i x _.
    assert (namespaceOf x ∈ ["artifacts"; "decisions"] ->
      set_has STATE_NAMESPACES (namespaceOf x) = true) as Hsub.
    { intros H. apply set_has_true. by right. }
    destruct (set_has STATE_NAMESPACES (namespaceOf x)) eqn:E; simpl.
    + rewrite error_if, negb_false_iff. apply set_has_true.
    + split; [done|]. by intros ?%Hsub.
Qed.

Lemma writable_namespace x : namespaceOf x ∈ ["artifacts"; "decisions"] -> writable x = true.
Proof.
  intros H. unfold writable. rewrite andb_true_iff, !set_has_true. split; [by right|done].
Qed.

Lemma producersOf_groups g :
  (forall s x, s ∈ pg_stages g -> x ∈ ps_writes s -> namespaceOf x ∈ ["artifacts"; "decisions"]) ->
  groups (write_pairs ps_id ps_writes (pg_stages g)) (producersOf g).
Proof.
  intros Hw. assert (producersOf g =
    fold_left group_add (write_pairs ps_id ps_writes (pg_stages g)) []) as ->; [|apply group_all].
  unfold producersOf, write_pairs. rewrite <-fold_left_flat_map.
  generalize (@nil (string * list string)) as w.
  induction (pg_stages g) as [|s ss IH]; intros w; simpl; [done|].
  rewrite IH by (intros s' x Hs'; apply Hw; by right). f_equal. rewrite fold_left_map.
  assert (forall x, x ∈ ps_writes s -> writable x = true) as Hs.
  { intros x Hx. apply writable_namespace, (Hw s x); [by left|done]. }
  clear -Hs. revert w. induction (ps_writes s) as [|x xs IH]; intros w; simpl; [done|].
  unfold addProducer at 2. rewrite Hs by (by left).
  rewrite IH by (intros y Hy; apply Hs; by right). done.
Qed.

Section Flow.
Context (g : PipelineGraph) (ancestors : list (string * list string)).
Context (Hanc : forall s, s ∈ stageIds g ->
  exists l, map_get ancestors s = Some l /\ forall x, x ∈ l <-> tc (edge_rel g) x s).
Context (Hwrites : forall s x, s ∈ pg_stages g -> x ∈ ps_writes s ->
  namespaceOf x ∈ ["artifacts"; "decisions"]).

Lemma elem_of_readProduced k reference :
  k ∈ readProduced (producersOf g) reference <->
  exists a w, a ∈ pg_stages g /\ ps_id a = k /\ w ∈ ps_writes a /\ covers w reference.
Proof.
  destruct (producersOf_groups g Hwrites) as [Hp _]. unfold readProduced.
  rewrite list_elem_of_In, in_flat_map. setoid_rewrite <-list_elem_of_In. setoid_rewrite Hp.
  setoid_rewrite elem_of_children. setoid_rewrite elem_of_write_pairs.
  setoid_rewrite elem_of_prefixesOf. naive_solver.
Qed.

Lemma stage_upstream s x :
  s ∈ pg_stages g ->
  x ∈ default [] (map_get ancestors (ps_id s)) <-> tc (edge_rel g) x (ps_id s).
Proof.
  intros Hs. destruct (Hanc (ps_id s)) as (l & -> & Hl); [by apply list_elem_of_fmap_2|]. apply Hl.
Qed.

Lemma validateReadsAreProduced_nil pointers :
  (forall s x, s ∈ pg_stages g -> x ∈ ps_reads s ->
     namespaceOf x ∈ ["task"; "artifacts"; "decisions"]) ->
  validateReadsAreProduced r g pointers ancestors (producersOf g) = [] <->
  forall s x, s ∈ pg_stages g -> x ∈ ps_reads s -> namespaceOf x <> "task" ->
    exists a w, a ∈ pg_stages g /\ tc (edge_rel g) (ps_id a) (ps_id s) /\
      w ∈ ps_writes a /\ covers w x.
Proof.
  intros Hreads. unfold validateReadsAreProduced.
  rewrite (flat_elem_nil _ (fun s => forall x, x ∈ ps_reads s -> namespaceOf x <> "task" ->
    exists a w, a ∈ pg_stages g /\ tc (edge_rel g) (ps_id a) (ps_id s) /\
      w ∈ ps_writes a /\ covers w x)); [naive_solver|].
  intros s Hs. apply each_elem_nil. intros i x Hx.
  rewrite (proj2 (set_has_true STATE_NAMESPACES _)) by (by apply (Hreads s)). simpl.
  destruct (str_eqb (namespaceOf x) "task") eqn:E.
  { apply str_eqb_true in E. done. }
  apply str_eqb_false in E.
  assert (match readProduced (producersOf g) x with
    | [] => false | _ => existsb (set_has (default [] (map_get ancestors (ps_id s))))
        (readProduced (producersOf g) x) end = true <->
    exists a w, a ∈ pg_stages g /\ tc (edge_rel g) (ps_id a) (ps_id s) /\
      w ∈ ps_writes a /\ covers w x) as Hiff.
  { transitivity (existsb (set_has (default [] (map_get ancestors (ps_id s))))
      (readProduced (producersOf g) x) = true); [by destruct (readProduced _ _)|].
    rewrite existsb_exists. setoid_rewrite <-list_elem_of_In.
    setoid_rewrite elem_of_readProduced. setoid_rewrite set_has_true.
    setoid_rewrite (stage_upstream s _ Hs). naive_solver. }
  destruct (readProduced (producersOf g) x) as [|p ps].
  - split; [done|]. intros H. by apply Hiff in H; [|done].
  - rewrite error_unless, Hiff. naive_solver.
Qed.

Lemma isAncestor_spec s x :
  s ∈ pg_stages g -> isAncestor ancestors (ps_id s) x = true <-> tc (edge_rel g) x (ps_id s).
Proof.
  intros Hs. destruct (Hanc (ps_id s)) as (l & E & Hl); [by apply list_elem_of_fmap_2|].
  unfold isAncestor. by rewrite E, set_has_true.
Qed.

Lemma writeConflicts_nil pointers reference l :
  writeConflicts r g pointers ancestors reference l = [] <-> all_pairs (isAncestor ancestors) l.
Proof.
  induction l as [|x l IH]; simpl; [done|]. rewrite app_nil, flat_map_nil, IH.
  apply and_iff_compat_r, forall_proper. intros y. rewrite error_unless, orb_comm. done.
Qed.

Lemma validateWriteConflicts_nil pointers :
  NoDup (stageIds g) -> acyclic g ->
  validateWriteConflicts r g pointers ancestors (producersOf g) = [] <->
  (forall s, s ∈ pg_stages g -> NoDup (ps_writes s)) /\
  (forall a b w, a ∈ pg_stages g -> b ∈ pg_stages g -> ps_id a <> ps_id b ->
    w ∈ ps_writes a -> w ∈ ps_writes b ->
    tc (edge_rel g) (ps_id a) (ps_id b) \/ tc (edge_rel g) (ps_id b) (ps_id a)).
Proof.
  intros Hids Hac. unfold validateWriteConflicts.
  rewrite (flat_elem_nil _ (fun e => all_pairs (isAncestor ancestors) (sort_strings (snd e)))).
  2:{ intros [k l] _. cbn [fst snd]. destruct (length l <? 2)%nat eqn:E.
      - apply Nat.ltb_lt in E. destruct l as [|a [|b l]]; simpl in *; [done| |lia].
        split; [|done]. intros _. split; [by intros y ?%elem_of_nil|done].
      - apply writeConflicts_nil. }
  setoid_rewrite elem_of_sort_key.
  rewrite (writers_ordered ps_id ps_writes (pg_stages g) _ _ Hids (producersOf_groups g Hwrites)).
  - apply and_iff_compat_l. split; intros H a b w Ha Hb Hne Hwa Hwb;
      destruct (H a b w Ha Hb Hne Hwa Hwb) as [Hx|Hx];
      [right|left|right|left]; by apply isAncestor_spec in Hx || apply isAncestor_spec.
  - intros s Hs. destruct (isAncestor _ _ _) eqn:E; [|done]. exfalso.
    apply isAncestor_spec in E; [|done]. by apply (Hac (ps_id s)).
Qed.
End Flow.

Lemma localRules_errors n known endpoints : errors endpoints -> errors (localRules r n known endpoints).
Proof.
  intros He. unfold localRules, validateStageIds, validateStageShapes, validateStageShape,
    validateStageProfiles, validateValidationFailurePolicy, validateContext, validateLimits,
    validateStageLimits, validateDuplicateEdges, validateConditionProfiles.
  solve_errors. done.
Qed.

Lemma writeConflicts_errors g pointers ancestors reference l :
  errors (writeConflicts r g pointers ancestors reference l).
Proof. induction l as [|x l IH]; simpl; solve_errors. done. Qed.

Lemma flow_errors g pointers ancestors : errors (validateStateFlow r g pointers ancestors).
Proof.
  unfold validateStateFlow, stageNamespaces, unknownNamespace, validateReadsAreProduced,
    validateWriteConflicts.
  solve_errors; apply writeConflicts_errors.
Qed.

(** ** The rules decide the specification *)

Lemma localRules_nil n known endpoints :
  localRules r n known endpoints = [] <->
  (NoDup (stageIds (np_graph n)) /\
   (forall s, s ∈ pg_stages (np_graph n) -> stage_shape known s) /\
   (forall soft hard, pc_handoffSoftThreshold (pg_context (np_graph n)) = Some soft ->
     pc_handoffHardThreshold (pg_context (np_graph n)) = Some hard -> num_lt hard soft = false) /\
   (forall s, s ∈ pg_stages (np_graph n) -> stage_limited (np_graph n) s) /\
   endpoints = [] /\
   NoDup (map endpointsKey (pg_edges (np_graph n))) /\
   forall e p q ids, e ∈ pg_edges (np_graph n) -> pe_condition e = Some (CEvaluator p q) ->
     known = Some ids -> p ∈ ids).
Proof.
  unfold localRules, validateStageShapes, validateLimits. rewrite !app_nil, validateStageIds_nil.
  rewrite (flat_elem_nil _ _ _ (fun s _ => validateStageShape_nil (np_stagePointers n) known s)).
  rewrite (flat_elem_nil _ _ _
    (fun s _ => validateStageLimits_nil (np_graph n) (np_stagePointers n) s)).
  by rewrite validateContext_nil, validateDuplicateEdges_nil, validateConditionProfiles_nil.
Qed.

Lemma no_self_edge g e : acyclic g -> e ∈ pg_edges g -> pe_from e <> pe_to e.
Proof.
  intros Hac He E. apply (Hac (pe_from e)). apply tc_once. exists e. by split_and!.
Qed.

Lemma validateStateFlow_nil g pointers ancestors :
  (forall s, s ∈ stageIds g ->
    exists l, map_get ancestors s = Some l /\ forall x, x ∈ l <-> tc (edge_rel g) x s) ->
  NoDup (stageIds g) -> acyclic g ->
  validateStateFlow r g pointers ancestors = [] <->
  (forall s x, s ∈ pg_stages g -> x ∈ ps_reads s ->
    namespaceOf x ∈ ["task"; "artifacts"; "decisions"]) /\
  (forall s x, s ∈ pg_stages g -> x ∈ ps_writes s -> namespaceOf x ∈ ["artifacts"; "decisions"]) /\
  (forall s x, s ∈ pg_stages g -> x ∈ ps_reads s -> namespaceOf x <> "task" ->
    exists a w, a ∈ pg_stages g /\ tc (edge_rel g) (ps_id a) (ps_id s) /\
      w ∈ ps_writes a /\ covers w x) /\
  (forall s, s ∈ pg_stages g -> NoDup (ps_writes s)) /\
  (forall a b w, a ∈ pg_stages g -> b ∈ pg_stages g -> ps_id a <> ps_id b ->
    w ∈ ps_writes a -> w ∈ ps_writes b ->
    tc (edge_rel g) (ps_id a) (ps_id b) \/ tc (edge_rel g) (ps_id b) (ps_id a)).
Proof.
  intros Hanc Hids Hac. unfold validateStateFlow. rewrite !app_nil.
  rewrite (flat_elem_nil _ _ _ (fun s _ => stageNamespaces_nil pointers s)). split.
  - intros (Hns & Hr & Hw).
    assert (forall s x, s ∈ pg_stages g -> x ∈ ps_writes s ->
      namespaceOf x ∈ ["artifacts"; "decisions"]) as Hwr by (intros s x Hs; by apply Hns).
    assert (forall s x, s ∈ pg_stages g -> x ∈ ps_reads s ->
      namespaceOf x ∈ ["task"; "artifacts"; "decisions"]) as Hrd by (intros s x Hs; by apply Hns).
    rewrite validateReadsAreProduced_nil in Hr by done.
    rewrite validateWriteConflicts_nil in Hw by done. by split_and!; try apply Hw.
  - intros (Hrd & Hwr & Hr & Hw). split_and!.
    + intros s Hs. split; intros x; [by apply Hrd|by apply Hwr].
    + by apply validateReadsAreProduced_nil.
    + by apply validateWriteConflicts_nil.
Qed.

Lemma endpoints_keys g :
  NoDup (map endpointsKey (pg_edges g)) ->
  NoDup (map (fun e => (pe_from e, pe_to e)) (pg_edges g)).
Proof.
  intros H. apply (NoDup_fmap_1 (fun p : string * string => fst p +:+ " " +:+ snd p)).
  rewrite <-list_fmap_compose. exact H.
Qed.

(** The rules always return, and report nothing but errors.  A graph they are
    silent on is valid; the converse needs ids without spaces, because the
    duplicate-edge rule joins the two ids of an edge with one. *)
Lemma validatePipelineGraph_spec n known :
  exists ds, validatePipelineGraph r n known = Some ds /\ errors ds /\
    (ds = [] -> graph_valid known (np_graph n)) /\
    (plain_ids (np_graph n) = true -> graph_valid known (np_graph n) -> ds = []).
Proof.
  unfold validatePipelineGraph.
  pose proof (validateEdgeEndpoints_spec (np_graph n) (np_edgePointers n)) as Hend.
  destruct (validateEdgeEndpoints _ _ _ _) as [endpoints resolved] eqn:Hep.
  destruct Hend as [Hres Hend]. set (g := np_graph n) in *.
  assert (errors endpoints) as Herr.
  { injection Hep as <- _. unfold edgeEndpoints. solve_errors. }
  pose proof (localRules_errors n known endpoints Herr) as Hloc.
  pose proof (localRules_nil n known endpoints) as Hnil. fold g in Hnil.
  destruct resolved; simpl.
  - assert (endpoints = []) as -> by (by apply Hres).
    destruct (proj1 Hend eq_refl) as [Hg _].
    destruct (validateAcyclic_spec g (np_stagePointers n) Hg) as (d1 & -> & E1 & H1).
    destruct (validateStageReachability_spec g (np_stagePointers n) Hg) as (d2 & -> & E2 & H2).
    destruct (computeAncestors_spec g Hg) as (anc & -> & Hanc).
    eexists. split; [done|]. split.
    { do 3 (apply errors_app; [done|]). apply flow_errors. }
    rewrite !app_nil, Hnil, H1. split.
    + intros ((Hids & ? & ? & ? & _ & Hk & ?) & Hac & Hre & Hfl).
      apply (H2 Hac) in Hre.
      apply validateStateFlow_nil in Hfl as (? & ? & ? & ? & ?); [|done..].
      split; try done. by apply endpoints_keys.
    + intros Hplain Hv. pose proof (gv_acyclic _ _ Hv) as Hac. pose proof (gv_ids _ _ Hv) as Hids.
      split_and!; try apply Hv; try done.
      * apply endpoints_single; [done|done|apply Hv].
      * apply (H2 Hac), Hv.
      * apply validateStateFlow_nil; [done..|]. split_and!; apply Hv.
  - eexists. split; [done|]. split; [done|]. rewrite Hnil. split.
    + intros (_ & _ & _ & _ & E & _). by apply Hres in E.
    + intros _ Hv. destruct Hend as [_ Hend]. rewrite Hend in Hres.
      * by destruct Hres as [_ Hres]; specialize (Hres eq_refl).
      * split; [apply Hv|]. intros e. apply no_self_edge, Hv.
Qed.
End Silent.

(** C40: On every graph the rules of [validatePipelineGraph] return, whatever the
    reporter and the known profiles.  When they report no error the graph is
    valid: it has stages with distinct ids and well-formed settings, single
    edges between existing stages, no cycle, limits within those of the
    pipeline, reads that an ancestor writes and ordered writers.  A valid graph
    whose ids hold no space gets no diagnostic at all. *)
Theorem graph_rules_exact r n known :
  exists ds, validatePipelineGraph r n known = Some ds /\
    (hasErrorDiagnostic ds = false -> graph_valid known (np_graph n)) /\
    (plain_ids (np_graph n) = true -> graph_valid known (np_graph n) -> ds = []).
Proof.
  destruct (validatePipelineGraph_spec r n known) as (ds & Hds & He & Ha & Hb).
  exists ds. split; [done|]. split; [|done]. intros H. apply Ha.
  by apply (errors_silent ds He).
Qed.
