(* ===== verification/Normalize.v ===== *)
(** * From pipeline documents to graphs

    [packages/pipeline/src/graph/normalize.ts] and the part of [parse.ts] that
    follows the YAML reader: a document that met its schema becomes a graph in
    canonical order, or diagnostics. *)

From Stdlib Require Import Ascii.
From S2P Require Import Prelude Json Evaluate ExprLex ExprParse Recovery Graph CanonicalJson Report GraphRules.

(** ** Documents ([PipelineDefinition/v1]) *)

Inductive ConditionDocument :=
| wd_expression (expression : string)
| wd_evaluator (evaluator question : string).

Record TransitionDocument := { trd_when : ConditionDocument; trd_then : string }.

Record EdgeDocument := {
  edd_from : string;
  edd_to : string;
  edd_when : option ConditionDocument
}.

Inductive CompletionRequirementDocument :=
| rd_valid_result_envelope
| rd_non_empty_diff
| rd_artifact (artifact : string)
| rd_schema_check (schema_check : string)
| rd_sections (sections : list string)
| rd_command (argv : list string) (exit_code : option Z)
| rd_repository_state (repository_state : PipelineRepositoryStateCheck)
| rd_verdict (verdict : string).

Record PipelineLimitsDocument := {
  pld_max_pipeline_duration : option string;
  pld_max_concurrent_workers : option Z;
  pld_max_repair_attempts : option Z;
  pld_max_graph_revisions : option Z
}.

Record StageLimitsDocument := {
  sld_max_duration : option string;
  sld_max_repair_attempts : option Z
}.

Record ValidationFailureDocument := {
  vfd_strategy : ValidationStrategy;
  vfd_session : option SessionPolicy;
  vfd_max_attempts : option Z;
  vfd_delegate_to : option string
}.

Record StageDocument := {
  sd_id : string;
  sd_type : PipelineStageType;
  sd_profile : option string;
  sd_optional : option bool;
  sd_mode : option ExecutionMode;
  sd_needs : option (list string);
  sd_reads : option (list string);
  sd_writes : option (list string);
  sd_overridable : option (list string);
  sd_session : option SessionPolicy;
  sd_limits : option StageLimitsDocument;
  sd_command : option CommandDocument;
  sd_completion : option (list CompletionRequirementDocument);
  sd_on_validation_failure : option ValidationFailureDocument;
  sd_transitions : option (list TransitionDocument)
}.

Record PipelineDocument := {
  doc_id : string;
  doc_name : option string;
  doc_description : option string;
  doc_mode : option ExecutionMode;
  doc_limits : option PipelineLimitsDocument;
  doc_context : option PipelineContext;
  doc_stages : list StageDocument;
  doc_edges : option (list EdgeDocument)
}.

(** ** Durations ([hardLimitMagnitude] of [config/src/layers/policy.ts])

    On a string; milliseconds are exact integers here, as they are in the code
    below [2 ^ 53]. *)

Definition DURATION_UNIT_MS (unit : string) : option Z :=
  if str_eqb unit "ms" then Some 1%Z
  else if str_eqb unit "s" then Some 1000%Z
  else if str_eqb unit "m" then Some 60000%Z
  else if str_eqb unit "h" then Some 3600000%Z
  else if str_eqb unit "d" then Some 86400000%Z
  else None.

(** The leading digits of a text and the rest. *)
Fixpoint takeDigits (text : string) : string * string :=
  match text with
  | String c rest =>
      if ((48 <=? N_of_ascii c) && (N_of_ascii c <=? 57))%N
      then let '(digits, after) := takeDigits rest in (String c digits, after)
      else ("", text)
  | EmptyString => ("", text)
  end.

Fixpoint digitsValue (acc : Z) (digits : string) : Z :=
  match digits with
  | EmptyString => acc
  | String c rest => digitsValue (acc * 10 + Z.of_N (digit_value c))%Z rest
  end.

Definition hardLimitMagnitude (value : string) : option Z :=
  let '(digits, unit) := takeDigits value in
  match digits with
  | EmptyString => None
  | _ => (fun ms => digitsValue 0 digits * ms)%Z <$> DURATION_UNIT_MS unit
  end.

(** ** Canonical text *)

Definition json_text (s : string) : JsonValue := JScalar (SString s).
Definition json_int (z : Z) : JsonValue := JScalar (SNumber (num_of_Z z)).

Definition comparison_text (o : PipelineComparisonOperator) : string :=
  match o with
  | op_eq => "eq" | op_ne => "ne" | op_lt => "lt"
  | op_lte => "lte" | op_gt => "gt" | op_gte => "gte"
  end.

(** Compiled conditions and requirements as the JSON objects they are, their
    keys in the order of their names. *)
Definition nodeJson (node : ExpressionNode) : JsonValue :=
  match node with
  | NLiteral value => JObject [("kind", json_text "literal"); ("value", JScalar value)]
  | NPath path => JObject [("kind", json_text "path"); ("path", JArray (map json_text path))]
  | NNot operand => JObject [("kind", json_text "not"); ("operand", json_int operand)]
  | NCompare operator l r =>
      JObject [("kind", json_text "compare"); ("left", json_int l);
               ("operator", json_text (comparison_text operator)); ("right", json_int r)]
  | NLogical operator l r =>
      JObject [("kind", json_text "logical"); ("left", json_int l);
               ("operator", json_text (logical_text operator)); ("right", json_int r)]
  end.

Definition conditionJson (condition : PipelineCondition) : JsonValue :=
  match condition with
  | CExpression c =>
      JObject [("kind", json_text "expression"); ("nodes", JArray (map nodeJson (cond_nodes c)));
               ("root", json_int (cond_root c))]
  | CEvaluator profile question =>
      JObject [("kind", json_text "evaluator"); ("profile", json_text profile);
               ("question", json_text question)]
  end.

Definition repository_state_text (s : PipelineRepositoryStateCheck) : string :=
  match s with
  | repo_clean => "clean" | repo_no_untracked => "no_untracked_files"
  | repo_no_staged => "no_staged_changes"
  end.

Definition requirementJson (requirement : CompletionRequirement) : JsonValue :=
  match requirement with
  | cr_result_envelope => JObject [("kind", json_text "result_envelope")]
  | cr_non_empty_diff => JObject [("kind", json_text "non_empty_diff")]
  | cr_artifact name => JObject [("kind", json_text "artifact"); ("name", json_text name)]
  | cr_schema_check name => JObject [("kind", json_text "schema_check"); ("name", json_text name)]
  | cr_sections names =>
      JObject [("kind", json_text "sections"); ("names", JArray (map json_text names))]
  | cr_command argv exitCode =>
      JObject ([("argv", JArray (map json_text argv))] ++
               match exitCode with Some n => [("exitCode", json_int n)] | None => [] end ++
               [("kind", json_text "command")])
  | cr_repository_state state =>
      JObject [("kind", json_text "repository_state");
               ("state", json_text (repository_state_text state))]
  | cr_verdict profile => JObject [("kind", json_text "verdict"); ("profile", json_text profile)]
  end.

(** [canonicalText]; the conditions and requirements of a graph hold finite
    numbers only, so its [TypeError] does not arise. *)
Definition canonicalText (value : JsonValue) : string := default "" (canonicalJsonStringify value).

(** ** Stages *)

Definition addUnique {A} (key : A -> string) (byKey : list (string * A)) (value : A)
    : list (string * A) :=
  if map_has byKey (key value) then byKey else map_set byKey (key value) value.

Definition sortUnique {A} (key : A -> string) (values : list A) : list A :=
  map snd (sort_key fst (fold_left (addUnique key) values [])).

Definition normalizeCompletionRequirement (requirement : CompletionRequirementDocument)
    : CompletionRequirement :=
  match requirement with
  | rd_valid_result_envelope => cr_result_envelope
  | rd_non_empty_diff => cr_non_empty_diff
  | rd_artifact name => cr_artifact name
  | rd_schema_check name => cr_schema_check name
  | rd_sections names => cr_sections names
  | rd_command argv exit_code => cr_command argv exit_code
  | rd_repository_state state => cr_repository_state state
  | rd_verdict profile => cr_verdict profile
  end.

Definition optionalDuration (value : option string) : option Z := value ≫= hardLimitMagnitude.

Definition normalizeStageLimits (stage : StageDocument) : option StageLimits :=
  (fun limits => {| sl_maxDurationMs := optionalDuration (sld_max_duration limits);
                    sl_maxRepairAttempts := sld_max_repair_attempts limits |})
    <$> sd_limits stage.

Definition normalizeValidationFailure (stage : StageDocument) : option OnValidationFailurePolicy :=
  (fun policy => {| vp_strategy := vfd_strategy policy;
                    vp_session := vfd_session policy;
                    vp_maxAttempts := vfd_max_attempts policy;
                    vp_delegateTo := vfd_delegate_to policy |})
    <$> sd_on_validation_failure stage.

Definition normalizeStage (pipelineMode : ExecutionMode) (stage : StageDocument) : PipelineStage :=
  {| ps_id := sd_id stage;
     ps_type := sd_type stage;
     ps_mode := default pipelineMode (sd_mode stage);
     ps_optional := default false (sd_optional stage);
     ps_profile := sd_profile stage;
     ps_session := sd_session stage;
     ps_limits := normalizeStageLimits stage;
     ps_command := sd_command stage;
     ps_completion :=
       (fun require => sortUnique (fun r => canonicalText (requirementJson r))
                         (map normalizeCompletionRequirement require)) <$> sd_completion stage;
     ps_onValidationFailure := normalizeValidationFailure stage;
     ps_reads := sortUnique id (default [] (sd_reads stage));
     ps_writes := sortUnique id (default [] (sd_writes stage));
     ps_overridable := sortUnique id (default [] (sd_overridable stage)) |}.

(** ** Edges *)

Record LocatedEdge := { le_edge : PipelineEdge; le_pointer : string }.

Section Edges.
Context (r : Reporter).

(** The condition with the diagnostics of compiling it; [None] is a compiler
    that exceeds its fuel. *)
Definition normalizeCondition (condition : ConditionDocument) (pointer : string)
    : option (option PipelineCondition * list PipelineDiagnostic) :=
  match condition with
  | wd_evaluator profile question => Some (Some (CEvaluator profile question), [])
  | wd_expression expression =>
      match parseConditionExpression expression with
      | None => None
      | Some (inl failure) =>
          Some (None,
                error r "pipeline.expression-invalid"
                  (err_message failure +:+ " (at character " +:+
                   num_text (Z.of_nat (err_offset failure) + 1) +:+ " of the condition)")
                  (joinPointer (joinPointer pointer "when") "expression")
                  ("Fix the condition at the marked character:" +:+ newline +:+
                   renderExpressionExcerpt expression (Z.of_nat (err_offset failure))))
      | Some (inr (nodes, root)) =>
          Some (Some (CExpression {| cond_nodes := nodes; cond_root := root |}), [])
      end
  end.

Definition buildEdge (from to : string) (condition : option ConditionDocument) (pointer : string)
    : option (LocatedEdge * list PipelineDiagnostic) :=
  match condition with
  | None =>
      Some ({| le_edge := {| pe_from := from; pe_to := to; pe_condition := None |};
               le_pointer := pointer |}, [])
  | Some c =>
      match normalizeCondition c pointer with
      | None => None
      | Some (compiled, diagnostics) =>
          Some ({| le_edge := {| pe_from := from; pe_to := to; pe_condition := compiled |};
                   le_pointer := pointer |}, diagnostics)
      end
  end.

(** The edges of the document as they are spelled: endpoints, condition and
    where they stand. *)
Definition stageEdges (stageIndex : nat) (stage : StageDocument)
    : list (string * string * option ConditionDocument * string) :=
  let stagePointer := joinIndex "/stages" stageIndex in
  imap (fun needIndex dependency =>
      (dependency, sd_id stage, None, joinIndex (joinPointer stagePointer "needs") needIndex))
    (default [] (sd_needs stage)) ++
  imap (fun transitionIndex transition =>
      (sd_id stage, trd_then transition, Some (trd_when transition),
       joinIndex (joinPointer stagePointer "transitions") transitionIndex))
    (default [] (sd_transitions stage)).

Definition spelledEdges (document : PipelineDocument)
    : list (string * string * option ConditionDocument * string) :=
  each_indexed stageEdges (doc_stages document) ++
  imap (fun edgeIndex edge =>
      (edd_from edge, edd_to edge, edd_when edge, joinIndex "/edges" edgeIndex))
    (default [] (doc_edges document)).

Fixpoint buildEdges (spelled : list (string * string * option ConditionDocument * string))
    : option (list LocatedEdge * list PipelineDiagnostic) :=
  match spelled with
  | [] => Some ([], [])
  | (from, to, condition, pointer) :: rest =>
      match buildEdge from to condition pointer, buildEdges rest with
      | Some (edge, diagnostics), Some (edges, more) => Some (edge :: edges, diagnostics ++ more)
      | _, _ => None
      end
  end.

Definition collectEdges (document : PipelineDocument)
    : option (list LocatedEdge * list PipelineDiagnostic) :=
  buildEdges (spelledEdges document).
End Edges.

Definition conditionKey (edge : PipelineEdge) : string :=
  match pe_condition edge with
  | None => ""
  | Some condition => canonicalText (conditionJson condition)
  end.

Definition compareLocatedEdges (left right : LocatedEdge) : Z :=
  first_delta
    [ compareCodepoints (pe_from (le_edge left)) (pe_from (le_edge right));
      compareCodepoints (pe_to (le_edge left)) (pe_to (le_edge right));
      compareCodepoints (conditionKey (le_edge left)) (conditionKey (le_edge right)) ].

(** The template joins the three texts with the character [U+0000]. *)
Definition NUL : ascii := ascii_of_N 0.

Definition dedupeKey (edge : PipelineEdge) : string :=
  pe_from edge +:+ String NUL (pe_to edge +:+ String NUL (conditionKey edge)).

Fixpoint dedupeEdges (seen : list string) (edges : list LocatedEdge) : list LocatedEdge :=
  match edges with
  | [] => []
  | entry :: rest =>
      if set_has seen (dedupeKey (le_edge entry)) then dedupeEdges seen rest
      else entry :: dedupeEdges (set_add seen (dedupeKey (le_edge entry))) rest
  end.

(** ** The whole document *)

Definition addPointer (pointers : list (string * string)) (e : nat * StageDocument)
    : list (string * string) :=
  if map_has pointers (sd_id (snd e)) then pointers
  else map_set pointers (sd_id (snd e)) (joinIndex "/stages" (fst e)).

Definition normalizeLimits (limits : option PipelineLimitsDocument) : PipelineLimits :=
  {| pl_maxPipelineDurationMs := optionalDuration (limits ≫= pld_max_pipeline_duration);
     pl_maxConcurrentWorkers := limits ≫= pld_max_concurrent_workers;
     pl_maxRepairAttempts := limits ≫= pld_max_repair_attempts;
     pl_maxGraphRevisions := limits ≫= pld_max_graph_revisions |}.

Definition normalizePipelineDocument (r : Reporter) (document : PipelineDocument)
    : option (NormalizedPipeline * list PipelineDiagnostic) :=
  let pipelineMode := default autonomous (doc_mode document) in
  match collectEdges r document with
  | None => None
  | Some (located, diagnostics) =>
      let sorted := sort_by (fun a b => (compareLocatedEdges a b <? 0)%Z) located in
      let deduped := dedupeEdges [] sorted in
      Some ({| np_graph :=
                 {| pg_pipelineId := doc_id document;
                    pg_name := doc_name document;
                    pg_description := doc_description document;
                    pg_mode := pipelineMode;
                    pg_limits := normalizeLimits (doc_limits document);
                    pg_context :=
                      {| pc_handoffSoftThreshold := doc_context document ≫= pc_handoffSoftThreshold;
                         pc_handoffHardThreshold := doc_context document ≫= pc_handoffHardThreshold |};
                    pg_stages :=
                      sort_key ps_id (map (normalizeStage pipelineMode) (doc_stages document));
                    pg_edges := map le_edge deduped |};
               np_edgePointers := map le_pointer deduped;
               np_stagePointers := fold_left addPointer (imap pair (doc_stages document)) [] |},
            diagnostics)
  end.

(** ** [parsePipelineDocument] after the YAML reader

    [document] is the value the reader loaded and [inherited] the diagnostics it
    raised on the way, which are not errors. *)

Inductive ParsePipelineResult :=
| ParseOk (graph : PipelineGraph) (diagnostics : list PipelineDiagnostic)
| ParseFailed (diagnostics : list PipelineDiagnostic).

Definition parseLoadedDocument (r : Reporter) (knownProfileIds : option (list string))
    (document : PipelineDocument) (inherited : list PipelineDiagnostic)
    : option ParsePipelineResult :=
  match normalizePipelineDocument r document with
  | None => None
  | Some (normalized, normalizing) =>
      match validatePipelineGraph r normalized knownProfileIds with
      | None => None
      | Some validating =>
          let diagnostics := collect (inherited ++ normalizing ++ validating) in
          if hasErrorDiagnostic diagnostics then Some (ParseFailed diagnostics)
          else Some (ParseOk (np_graph normalized) diagnostics)
      end
  end.
