(* ===== verification/NormalizeProps.v ===== *)
(** * What normalization guarantees

    Lemmas about [graph/normalize.ts]: compiling the edges of a document, the
    order and the deduplication of edges, and canonical text as an identity of
    conditions. *)

From Stdlib Require Import Ascii SpecFloat.
From S2P Require Import Prelude Ids Json Evaluate ExprLex ExprParse ExprGrammar ExprProps Recovery Graph Writers CanonicalJson JsonProps Report GraphRules GraphWalks GraphValid Normalize.

(** ** Compiling edges *)

(** The condition a document's condition compiles to, where it compiles. *)
Definition compileCondition (c : ConditionDocument) : option PipelineCondition :=
  match c with
  | wd_evaluator profile question => Some (CEvaluator profile question)
  | wd_expression expression =>
      match parseConditionExpression expression with
      | Some (inr (nodes, root)) => Some (CExpression {| cond_nodes := nodes; cond_root := root |})
      | _ => None
      end
  end.

Definition compileEdge (from to : string) (c : option ConditionDocument) : PipelineEdge :=
  {| pe_from := from; pe_to := to; pe_condition := c ≫= compileCondition |}.

(** Every expression of the edge compiles. *)
Definition compiles (c : option ConditionDocument) : Prop :=
  forall d, c = Some d -> is_Some (compileCondition d).

Definition spelling : Type := (string * string * option ConditionDocument * string)%type.

Definition spelled_edge (s : spelling) : PipelineEdge :=
  let '(from, to, c, _) := s in compileEdge from to c.

Definition spelled_located (s : spelling) : LocatedEdge :=
  {| le_edge := spelled_edge s; le_pointer := snd s |}.

Lemma normalizeCondition_spec r c pointer :
  exists ds, normalizeCondition r c pointer = Some (compileCondition c, ds) /\
    errors ds /\ (ds = [] <-> is_Some (compileCondition c)).
Proof.
  destruct c as [expression|profile question]; simpl.
  - destruct (parse_outcome expression) as (o & -> & _). destruct o as [e|[nodes root]].
    + eexists. split; [done|]. split; [apply errors_error|]. split; [done|by intros [? ?]].
    + eexists. split; [done|]. split; [apply errors_nil|done].
  - eexists. split; [done|]. split; [apply errors_nil|done].
Qed.

Lemma buildEdge_spec r from to c pointer :
  exists ds, buildEdge r from to c pointer =
      Some ({| le_edge := compileEdge from to c; le_pointer := pointer |}, ds) /\
    errors ds /\ (ds = [] <-> compiles c).
Proof.
  unfold buildEdge, compileEdge. destruct c as [c|]; simpl.
  - destruct (normalizeCondition_spec r c pointer) as (ds & -> & He & Hd).
    exists ds. split; [done|]. split; [done|]. rewrite Hd. unfold compiles. naive_solver.
  - exists []. split; [done|]. split; [apply errors_nil|]. split; [by intros _ ?|done].
Qed.

Lemma buildEdges_spec r (l : list spelling) :
  exists ds, buildEdges r l = Some (map spelled_located l, ds) /\ errors ds /\
    (ds = [] <-> forall s, s ∈ l -> compiles (snd (fst s))).
Proof.
  induction l as [|[[[from to] c] pointer] l IH]; cbn [buildEdges map].
  - exists []. split; [done|]. split; [apply errors_nil|]. split; [by intros _ s ?%elem_of_nil|done].
  - destruct (buildEdge_spec r from to c pointer) as (d1 & -> & E1 & H1).
    destruct IH as (d2 & -> & E2 & H2). exists (d1 ++ d2). split; [done|].
    split; [by apply errors_app|]. rewrite app_nil, H1, H2. split.
    + intros [Ha Hb] s [->|Hs]%elem_of_cons; auto.
    + intros H. split; [apply (H (from, to, c, pointer)); by left|].
      intros s Hs. apply H. by right.
Qed.

(** What the document says, without where it says it. *)
Inductive doc_edge (d : PipelineDocument) (from to : string) : option ConditionDocument -> Prop :=
| de_need stage : stage ∈ doc_stages d -> to = sd_id stage ->
    from ∈ default [] (sd_needs stage) -> doc_edge d from to None
| de_transition stage t : stage ∈ doc_stages d -> from = sd_id stage ->
    t ∈ default [] (sd_transitions stage) -> to = trd_then t -> doc_edge d from to (Some (trd_when t))
| de_edge e : e ∈ default [] (doc_edges d) -> from = edd_from e -> to = edd_to e ->
    doc_edge d from to (edd_when e).

Lemma elem_of_imap {A B} (f : nat -> A -> B) l y :
  y ∈ imap f l <-> exists i x, l !! i = Some x /\ y = f i x.
Proof. rewrite elem_of_lookup_imap. naive_solver. Qed.

Lemma elem_of_each {A B} (f : nat -> A -> list B) l y :
  y ∈ each_indexed f l <-> exists i x, l !! i = Some x /\ y ∈ f i x.
Proof.
  unfold each_indexed. rewrite list_elem_of_In, in_concat. setoid_rewrite <-list_elem_of_In.
  setoid_rewrite elem_of_imap. naive_solver.
Qed.

Lemma elem_of_spelledEdges d from to c :
  (exists pointer, (from, to, c, pointer) ∈ spelledEdges d) <-> doc_edge d from to c.
Proof.
  unfold spelledEdges, stageEdges. split.
  - intros (pointer & [H|H]%elem_of_app).
    + apply elem_of_each in H as (i & s & Hs%list_elem_of_lookup_2 & [H|H]%elem_of_app);
        apply elem_of_imap in H as (j & x & Hx%list_elem_of_lookup_2 & [= -> -> -> ->]).
      * by apply (de_need d _ _ s).
      * by apply (de_transition d _ _ s x).
    + apply elem_of_imap in H as (i & e & He%list_elem_of_lookup_2 & [= -> -> -> ->]).
      by apply (de_edge d _ _ e).
  - intros [s [i Hi]%list_elem_of_lookup -> [j Hj]%list_elem_of_lookup
      |s t [i Hi]%list_elem_of_lookup -> [j Hj]%list_elem_of_lookup ->
      |e [i Hi]%list_elem_of_lookup -> ->]; eexists; apply elem_of_app.
    + left. apply elem_of_each. exists i, s. split; [done|]. apply elem_of_app. left.
      apply elem_of_imap. by exists j, from.
    + left. apply elem_of_each. exists i, s. split; [done|]. apply elem_of_app. right.
      apply elem_of_imap. by exists j, t.
    + right. apply elem_of_imap. by exists i, e.
Qed.

(** The edges of a document before they are sorted. *)
Definition document_edges (d : PipelineDocument) : list PipelineEdge :=
  map spelled_edge (spelledEdges d).

Lemma elem_of_document_edges d e :
  e ∈ document_edges d <-> exists c, doc_edge d (pe_from e) (pe_to e) c /\
    e = compileEdge (pe_from e) (pe_to e) c.
Proof.
  unfold document_edges. rewrite list_elem_of_fmap. split.
  - intros ([[[from to] c] pointer] & -> & H). exists c. simpl. split; [|done].
    apply elem_of_spelledEdges. by exists pointer.
  - intros (c & [pointer H]%elem_of_spelledEdges & E). by exists (pe_from e, pe_to e, c, pointer).
Qed.

(** ** Compiled conditions *)

(** Conditions as the compiler produces them. *)
Definition compiled (c : PipelineCondition) : Prop :=
  match c with
  | CExpression c =>
      condition_ordered c = true /\ (length (cond_nodes c) <= MAX_EXPRESSION_NODES)%nat /\
      cond_root c = (Z.of_nat (length (cond_nodes c)) - 1)%Z /\ (0 < length (cond_nodes c))%nat
  | CEvaluator _ _ => True
  end.

Lemma compileCondition_compiled d c : compileCondition d = Some c -> compiled c.
Proof.
  destruct d as [expression|profile question]; simpl; [|by intros [= <-]].
  destruct (parse_outcome expression) as (o & -> & H). destruct o as [e|[nodes root]]; [done|].
  destruct H as (ts & e & _ & _ & Hs & -> & ->). intros [= <-]. simpl.
  rewrite compile_length. pose proof (size_pos e). split; [apply compile_ordered|].
  unfold root_at. split_and!; try lia; done.
Qed.

(** ** Canonical text as an identity of conditions *)

Definition small (z : Z) : Prop := (0 <= z < 256)%Z.

Lemma small_ints_distinct : NoDup (map num_of_Z (seqZ 0 256)).
Proof. apply (bool_decide_unpack _). vm_compute. exact I. Qed.

Lemma json_int_inj a b : small a -> small b -> json_int a = json_int b -> a = b.
Proof.
  intros Ha Hb [= H]. apply (NoDup_map_inj num_of_Z (seqZ 0 256)); [apply small_ints_distinct|..];
    try done; apply elem_of_seqZ; unfold small in *; lia.
Qed.

Lemma json_text_inj a b : json_text a = json_text b -> a = b.
Proof. by intros [=]. Qed.

Lemma map_inj_on {A B} (f : A -> B) l l' :
  (forall x y, x ∈ l -> y ∈ l' -> f x = f y -> x = y) -> map f l = map f l' -> l = l'.
Proof.
  revert l'. induction l as [|x l IH]; intros [|y l'] Hf; simpl; try done. intros [= H1 H2].
  f_equal; [apply Hf; [by left|by left|done]|]. apply IH; [|done].
  intros a b Ha Hb. apply Hf; by right.
Qed.

(** The operands of a node are small. *)
Definition node_small (node : ExpressionNode) : Prop := forall o, o ∈ operands node -> small o.

Lemma comparison_text_inj a b : comparison_text a = comparison_text b -> a = b.
Proof. by destruct a, b. Qed.

Lemma logical_text_inj a b : logical_text a = logical_text b -> a = b.
Proof. by destruct a, b. Qed.

Ltac small_operand :=
  apply json_int_inj;
  [match goal with H : node_small _ |- _ => apply H; set_solver end..|unfold json_int; congruence].

Lemma nodeJson_inj n m : node_small n -> node_small m -> nodeJson n = nodeJson m -> n = m.
Proof.
  destruct n, m; simpl; try done; intros Hn Hm [=]; subst; f_equal;
    auto using comparison_text_inj, logical_text_inj; try small_operand.
  apply (map_inj_on json_text); [|done]. intros; by apply json_text_inj.
Qed.

Lemma compiled_small c n : compiled (CExpression c) -> n ∈ cond_nodes c -> node_small n.
Proof.
  intros (Ho & Hlen & _) [i Hi]%list_elem_of_lookup o Hn.
  pose proof (nodes_ordered_from_lookup 0 _ i n Ho Hi) as H. unfold node_ordered in H.
  rewrite forallb_forall in H. apply list_elem_of_In, H, andb_prop in Hn as [H1 H2].
  apply lookup_lt_Some in Hi. apply Z.leb_le in H1. apply Z.ltb_lt in H2. unfold small, MAX_EXPRESSION_NODES in *. lia.
Qed.

Lemma conditionJson_inj c d : compiled c -> compiled d -> conditionJson c = conditionJson d -> c = d.
Proof.
  destruct c as [c|p q], d as [d|p' q']; simpl; try done; [|by intros _ _ [= -> ->]].
  intros Hc Hd [= Hn Hr]. destruct c as [nodes root], d as [nodes' root']. f_equal.
  assert (nodes = nodes') as ->.
  { apply (map_inj_on nodeJson); [|done]. intros x y Hx Hy.
    apply nodeJson_inj; [exact (compiled_small _ x Hc Hx)|exact (compiled_small _ y Hd Hy)]. }
  f_equal. destruct Hc as (_ & _ & Hc & _), Hd as (_ & _ & Hd & _). simpl in Hc, Hd. congruence.
Qed.

(** Objects are built with their keys in order, so canonical text sorts
    nothing. *)
Lemma json_sorted_texts l : map json_sorted (map json_text l) = map json_text l.
Proof. by rewrite map_map. Qed.

Lemma nodeJson_sorted n : json_sorted (nodeJson n) = nodeJson n.
Proof. destruct n; try reflexivity. cbn [nodeJson json_sorted map fst snd]. by rewrite json_sorted_texts. Qed.

Lemma conditionJson_sorted c : json_sorted (conditionJson c) = conditionJson c.
Proof.
  destruct c as [c|p q]; [|reflexivity]. cbn [conditionJson json_sorted map fst snd].
  rewrite map_map, (map_ext _ nodeJson) by apply nodeJson_sorted. reflexivity.
Qed.

Lemma canonicalText_inj v w :
  json_prints v = true -> json_prints w = true ->
  canonicalText v = canonicalText w -> json_sorted v = json_sorted w.
Proof.
  intros Hv Hw. unfold canonicalText. rewrite !canonical_text by done. simpl.
  by apply canonical_text_iff.
Qed.

Lemma canonicalText_nonempty v : json_prints v = true -> canonicalText v <> "".
Proof.
  intros Hv. unfold canonicalText. rewrite canonical_text by done. simpl.
  destruct (value_starts 0 v Hv) as (c & t & -> & _). by rewrite str_app_cons.
Qed.

(** The condition of the edge was compiled and its literals print. *)
Definition edge_prints (e : PipelineEdge) : bool :=
  match pe_condition e with Some c => json_prints (conditionJson c) | None => true end.

Definition edge_compiled (e : PipelineEdge) : Prop :=
  forall c, pe_condition e = Some c -> compiled c.

Lemma conditionKey_inj e e' :
  edge_compiled e -> edge_compiled e' -> edge_prints e = true -> edge_prints e' = true ->
  conditionKey e = conditionKey e' -> pe_condition e = pe_condition e'.
Proof.
  unfold edge_compiled, edge_prints, conditionKey. intros Hc Hc' Hp Hp'.
  destruct (pe_condition e) as [c|], (pe_condition e') as [c'|]; [| | |done].
  - intros E%canonicalText_inj; [|done..]. rewrite !conditionJson_sorted in E.
    f_equal. apply conditionJson_inj; auto.
  - intros E. by apply canonicalText_nonempty in E.
  - intros E. symmetry in E. by apply canonicalText_nonempty in E.
Qed.

(** ** The order of edges *)

(** Comparators that compare keys one after the other. *)
Definition lex_lt (k k' : list string) : bool := (first_delta (zip_with compareCodepoints k k') <? 0)%Z.

Lemma lex_lt_cons a b k k' :
  lex_lt (a :: k) (b :: k') = str_ltb a b || (str_eqb a b && lex_lt k k').
Proof.
  unfold lex_lt. simpl. unfold compareCodepoints. destruct (str_ltb a b) eqn:E1; [done|].
  destruct (str_ltb b a) eqn:E2; simpl.
  - destruct (str_eqb a b) eqn:E3; [|done]. apply str_eqb_true in E3 as ->.
    by rewrite str_ltb_irrefl in E2.
  - rewrite (str_ltb_total _ _ E1 E2), str_eqb_refl. done.
Qed.

Lemma lex_lt_asym k k' : lex_lt k k' = true -> lex_lt k' k = false.
Proof.
  revert k'. induction k as [|a k IH]; intros [|b k']; try done. rewrite !lex_lt_cons.
  intros [H|[->%str_eqb_true H]%andb_prop]%orb_prop.
  - rewrite (str_ltb_asym _ _ H). destruct (str_eqb b a) eqn:E; [|done].
    apply str_eqb_true in E as ->. by rewrite str_ltb_irrefl in H.
  - by rewrite str_ltb_irrefl, (IH _ H), andb_false_r.
Qed.

Lemma lex_lt_trans k1 k2 k3 :
  length k1 = length k2 -> length k2 = length k3 ->
  lex_lt k1 k2 = true -> lex_lt k2 k3 = true -> lex_lt k1 k3 = true.
Proof.
  revert k2 k3. induction k1 as [|a k1 IH]; intros [|b k2] [|c k3]; try done.
  rewrite !lex_lt_cons. intros [= L1] [= L2].
  intros [H|[->%str_eqb_true H]%andb_prop]%orb_prop [H'|[->%str_eqb_true H']%andb_prop]%orb_prop.
  - by rewrite (str_ltb_trans _ _ _ H H').
  - by rewrite H.
  - by rewrite H'.
  - by rewrite str_eqb_refl, (IH _ _ L1 L2 H H'), orb_true_r.
Qed.

Lemma lex_lt_total k k' :
  length k = length k' -> lex_lt k k' = false -> lex_lt k' k = false -> k = k'.
Proof.
  revert k'. induction k as [|a k IH]; intros [|b k']; try done. rewrite !lex_lt_cons.
  intros [= L] [H1 H2]%orb_false_elim [H3 H4]%orb_false_elim.
  pose proof (str_ltb_total _ _ H1 H3) as ->. rewrite str_eqb_refl in *. f_equal. by apply IH.
Qed.

Lemma lex_lt_ntrans k1 k2 k3 :
  length k1 = length k2 -> length k2 = length k3 ->
  lex_lt k2 k1 = false -> lex_lt k3 k2 = false -> lex_lt k3 k1 = false.
Proof.
  intros L1 L2 H1 H2. destruct (lex_lt k3 k1) eqn:E; [|done].
  destruct (lex_lt k1 k2) eqn:E2.
  - by rewrite (lex_lt_trans k3 k1 k2) in H2 by (try done; congruence).
  - rewrite (lex_lt_total k1 k2) in E by done. congruence.
Qed.

Definition edge_keys (e : PipelineEdge) : list string := [pe_from e; pe_to e; conditionKey e].

Definition located_lt (a b : LocatedEdge) : bool :=
  lex_lt (edge_keys (le_edge a)) (edge_keys (le_edge b)).

Lemma located_lt_asym a b : located_lt a b = true -> located_lt b a = false.
Proof. apply lex_lt_asym. Qed.

Lemma located_lt_ntrans a b c :
  located_lt b a = false -> located_lt c b = false -> located_lt c a = false.
Proof. by apply lex_lt_ntrans. Qed.

(** The edges a graph keeps, from the edges as they are collected. *)
Definition kept (located : list LocatedEdge) : list LocatedEdge :=
  dedupeEdges [] (sort_by located_lt located).

Section Dedupe.
Implicit Types (l : list LocatedEdge) (seen : list string).

Lemma dedupe_sublist seen l : sublist (dedupeEdges seen l) l.
Proof.
  revert seen. induction l as [|x l IH]; intros seen; simpl; [constructor|].
  destruct (set_has _ _); by constructor.
Qed.

Lemma dedupe_fresh seen l y :
  y ∈ dedupeEdges seen l -> dedupeKey (le_edge y) ∉ seen.
Proof.
  revert seen. induction l as [|x l IH]; intros seen; simpl; [by rewrite elem_of_nil|].
  destruct (set_has seen _) eqn:E; [apply IH|]. apply set_has_false in E.
  intros [->|H]%elem_of_cons; [done|]. apply IH in H. rewrite elem_of_set_add in H. tauto.
Qed.

Lemma dedupe_NoDup seen l : NoDup (map (fun x => dedupeKey (le_edge x)) (dedupeEdges seen l)).
Proof.
  revert seen. induction l as [|x l IH]; intros seen; simpl; [constructor|].
  destruct (set_has seen _); [done|]. simpl. constructor; [|done].
  intros (y & E & Hy)%list_elem_of_fmap. apply dedupe_fresh in Hy. apply Hy.
  rewrite <-E, elem_of_set_add. by left.
Qed.

Lemma dedupe_covers seen l x :
  x ∈ l -> dedupeKey (le_edge x) ∉ seen ->
  exists y, y ∈ dedupeEdges seen l /\ dedupeKey (le_edge y) = dedupeKey (le_edge x).
Proof.
  revert seen. induction l as [|z l IH]; intros seen; [by rewrite elem_of_nil|]. simpl.
  intros Hx Hs. destruct (set_has seen _) eqn:E.
  - apply set_has_true in E. apply IH; [|done]. apply elem_of_cons in Hx as [->|]; done.
  - destruct (decide (dedupeKey (le_edge z) = dedupeKey (le_edge x))) as [Ek|Hk].
    + exists z. by split; [left|].
    + apply elem_of_cons in Hx as [->|Hx]; [done|].
      destruct (IH (set_add seen (dedupeKey (le_edge z))) Hx) as (y & Hy & Ey).
      { rewrite elem_of_set_add. intros [?|?]; congruence. }
      exists y. by split; [right|].
Qed.
End Dedupe.

Lemma StronglySorted_sublist {A} (R : relation A) l l' :
  sublist l l' -> StronglySorted R l' -> StronglySorted R l.
Proof.
  induction 1 as [|x l l' Hs IH|x l l' Hs IH]; [done|..]; inversion_clear 1; [|auto].
  constructor; [auto|]. rewrite Forall_forall in *. intros y Hy.
  match goal with H : forall _, _ |- _ => apply H end. by eapply elem_of_sublist.
Qed.

Section Kept.
Context (located : list LocatedEdge).
Hypothesis keys_inj : forall a b, a ∈ located -> b ∈ located ->
  edge_keys (le_edge a) = edge_keys (le_edge b) -> le_edge a = le_edge b.
Hypothesis names_plain : forall a, a ∈ located ->
  str_has NUL (pe_from (le_edge a)) = false /\ str_has NUL (pe_to (le_edge a)) = false.

Lemma dedupeKey_keys a b :
  a ∈ located -> b ∈ located ->
  dedupeKey (le_edge a) = dedupeKey (le_edge b) -> le_edge a = le_edge b.
Proof.
  intros Ha Hb E. destruct (names_plain a Ha), (names_plain b Hb).
  apply field_inj in E as [Ef E]; [|done..]. apply field_inj in E as [Et Ec]; [|done..].
  apply keys_inj; [done..|]. unfold edge_keys. congruence.
Qed.

Lemma kept_located x : x ∈ kept located -> x ∈ located.
Proof.
  intros H. apply (elem_of_sort_by located_lt).
  eapply elem_of_sublist; [exact H|apply dedupe_sublist].
Qed.

Lemma elem_of_kept e : e ∈ map le_edge (kept located) <-> e ∈ map le_edge located.
Proof.
  rewrite !list_elem_of_fmap. split.
  - intros (x & -> & Hx). exists x. split; [done|]. by apply kept_located.
  - intros (x & -> & Hx).
    destruct (dedupe_covers [] (sort_by located_lt located) x) as (y & Hy & E);
      [by apply elem_of_sort_by|apply not_elem_of_nil|].
    exists y. split; [|done]. symmetry. apply dedupeKey_keys; [by apply kept_located|done..].
Qed.

Lemma kept_NoDup : NoDup (map le_edge (kept located)).
Proof.
  apply (NoDup_fmap_1 dedupeKey). rewrite <-list_fmap_compose. apply dedupe_NoDup.
Qed.

Lemma kept_sorted :
  StronglySorted (not_after (fun a b => lex_lt (edge_keys a) (edge_keys b)))
    (map le_edge (kept located)).
Proof.
  assert (StronglySorted (not_after located_lt) (kept located)) as H.
  { eapply StronglySorted_sublist; [apply dedupe_sublist|].
    apply sort_by_sorted; [apply located_lt_asym|apply located_lt_ntrans]. }
  induction H as [|x l Hl IH Hx]; simpl; constructor; [done|].
  rewrite Forall_fmap. exact Hx.
Qed.
End Kept.

(** The list of kept edges is determined by the set of collected edges. *)
Lemma kept_canonical l l' :
  (forall a b, a ∈ l -> b ∈ l -> edge_keys (le_edge a) = edge_keys (le_edge b) ->
     le_edge a = le_edge b) ->
  (forall a, a ∈ l ->
     str_has NUL (pe_from (le_edge a)) = false /\ str_has NUL (pe_to (le_edge a)) = false) ->
  (forall e, e ∈ map le_edge l <-> e ∈ map le_edge l') ->
  map le_edge (kept l) = map le_edge (kept l').
Proof.
  intros Hinj Hplain Hset.
  assert (forall a, a ∈ l' -> exists b, b ∈ l /\ le_edge a = le_edge b) as Hl'.
  { intros a Ha. assert (le_edge a ∈ map le_edge l) as (b & E & Hb)%list_elem_of_fmap.
    - apply Hset. by apply list_elem_of_fmap_2.
    - by exists b. }
  assert (forall a b, a ∈ l' -> b ∈ l' -> edge_keys (le_edge a) = edge_keys (le_edge b) ->
    le_edge a = le_edge b) as Hinj'.
  { intros a b Ha Hb. apply Hl' in Ha as (a' & ? & ->). apply Hl' in Hb as (b' & ? & ->).
    by apply Hinj. }
  assert (forall a, a ∈ l' -> str_has NUL (pe_from (le_edge a)) = false /\
    str_has NUL (pe_to (le_edge a)) = false) as Hplain'.
  { intros a Ha. apply Hl' in Ha as (a' & ? & ->). by apply Hplain. }
  eapply (StronglySorted_unique_strong _);
    [|apply kept_sorted|apply kept_sorted|].
  - intros e e'. rewrite !elem_of_kept, Hset by done.
    intros (a & -> & Ha)%list_elem_of_fmap (b & -> & Hb)%list_elem_of_fmap H1 H2.
    apply Hinj'; [done..|]. by apply lex_lt_total.
  - apply NoDup_Permutation; [apply kept_NoDup..|]. intros e. by rewrite !elem_of_kept.
Qed.

(** ** Sorted sets *)

Section SortUnique.
Context {A : Type} (key : A -> string).

(** The map from keys to the first value that has the key. *)
Definition keyed (m : list (string * A)) : Prop :=
  NoDup (map_keys m) /\ forall k v, (k, v) ∈ m -> k = key v.

Lemma addUnique_keyed m v : keyed m -> keyed (addUnique key m v).
Proof.
  intros [Hnd Hk]. unfold addUnique. destruct (map_has m (key v)) eqn:E; [done|].
  split; [by apply map_set_NoDup|]. intros k w. rewrite map_set_out.
  - rewrite elem_of_app, list_elem_of_singleton. intros [H|[= -> ->]]; [by apply Hk|done].
  - apply map_get_None. unfold map_has in E. by destruct (map_get m (key v)).
Qed.

Lemma addUnique_values m v w :
  w ∈ map snd (addUnique key m v) -> w = v \/ w ∈ map snd m.
Proof.
  unfold addUnique. destruct (map_has m (key v)) eqn:E; [by right|]. rewrite map_set_out.
  - rewrite map_app, elem_of_app. simpl. rewrite list_elem_of_singleton. tauto.
  - apply map_get_None. unfold map_has in E. by destruct (map_get m (key v)).
Qed.

Lemma addUnique_keys m v k : k ∈ map_keys (addUnique key m v) <-> k = key v \/ k ∈ map_keys m.
Proof.
  unfold addUnique. destruct (map_has m (key v)) eqn:E.
  - split; [by right|]. intros [->|]; [|done]. apply map_get_keys. unfold map_has in E.
    by destruct (map_get m (key v)).
  - apply elem_of_map_keys_set.
Qed.

Lemma unique_fold l m :
  keyed m ->
  let m' := fold_left (addUnique key) l m in
  keyed m' /\ (forall w, w ∈ map snd m' -> w ∈ l \/ w ∈ map snd m) /\
  (forall k, k ∈ map_keys m' <-> k ∈ map key l \/ k ∈ map_keys m).
Proof.
  revert m. induction l as [|v l IH]; intros m Hm; simpl.
  - split; [done|]. setoid_rewrite elem_of_nil. split; [by right|tauto].
  - destruct (IH (addUnique key m v) (addUnique_keyed m v Hm)) as (H1 & H2 & H3).
    split; [done|]. split.
    + intros w [H|H]%H2; [left; by right|]. apply addUnique_values in H as [->|H]; [|by right].
      left. by left.
    + intros k. rewrite H3, addUnique_keys, elem_of_cons. tauto.
Qed.

Definition unique (l : list A) : list (string * A) := fold_left (addUnique key) l [].

Lemma elem_of_unique l :
  (forall x y, x ∈ l -> y ∈ l -> key x = key y -> x = y) ->
  NoDup (unique l) /\ forall k v, (k, v) ∈ unique l <-> v ∈ l /\ k = key v.
Proof.
  intros Hinj. destruct (unique_fold l []) as ((Hnd & Hk) & Hv & Hkeys).
  { split; [constructor|]. by intros k v ?%elem_of_nil. }
  fold (unique l) in *. simpl in Hkeys, Hv. split; [by apply (NoDup_fmap_1 fst)|].
  assert (forall k v, (k, v) ∈ unique l -> v ∈ l) as Hval.
  { intros k v H. destruct (Hv v) as [?|[]%elem_of_nil]; [|done].
    apply list_elem_of_fmap. by exists (k, v). }
  intros k v. split; [intros H; by split; [eapply Hval|apply Hk]|]. intros [Hl ->].
  assert (key v ∈ map_keys (unique l)) as ([k w] & E & Hw)%list_elem_of_fmap.
  { apply Hkeys. left. by apply list_elem_of_fmap_2. }
  simpl in E. subst k. pose proof (Hk _ _ Hw) as E.
  by pose proof (Hinj v w Hl (Hval _ _ Hw) E) as <-.
Qed.

Lemma sortUnique_canonical l l' :
  (forall x y, x ∈ l -> y ∈ l -> key x = key y -> x = y) ->
  (forall x, x ∈ l <-> x ∈ l') -> sortUnique key l = sortUnique key l'.
Proof.
  intros Hinj Hset. destruct (elem_of_unique l Hinj) as [Hnd He].
  destruct (elem_of_unique l') as [Hnd' He'].
  { intros x y Hx Hy. apply Hinj; by apply Hset. }
  unfold sortUnique. f_equal. apply sort_key_canonical.
  - intros [k x] [k' y] [Hx ->]%He [Hy ->]%He. simpl. intros E. by rewrite (Hinj x y Hx Hy E).
  - apply NoDup_Permutation; [done..|]. intros [k v]. by rewrite He, He', Hset.
Qed.
End SortUnique.
