(* ===== verification/DocumentProps.v ===== *)
(** * Documents and their graphs

    What [normalizePipelineDocument] and [parsePipelineDocument] guarantee: the
    graph says what the document says, equivalent documents have one graph, and
    an accepted document has a valid graph. *)

From Stdlib Require Import Ascii SpecFloat.
From S2P Require Import Prelude Ids Json Evaluate ExprLex ExprParse Recovery Graph CanonicalJson JsonProps Report GraphRules GraphValid Normalize NormalizeProps.

(** ** The edges of a document *)

(** No endpoint of the edge holds the separator of the dedupe key, and the
    literals of its condition print. *)
Definition edge_plain (e : PipelineEdge) : bool :=
  negb (str_has NUL (pe_from e)) && negb (str_has NUL (pe_to e)) && edge_prints e.

Definition plain_document (d : PipelineDocument) : bool := forallb edge_plain (document_edges d).

Definition located_edges (d : PipelineDocument) : list LocatedEdge :=
  map spelled_located (spelledEdges d).

Lemma located_document d : map le_edge (located_edges d) = document_edges d.
Proof. unfold located_edges, document_edges. by rewrite map_map. Qed.

Lemma located_elem d a : a ∈ located_edges d -> le_edge a ∈ document_edges d.
Proof. rewrite <-located_document. apply list_elem_of_fmap_2. Qed.

Lemma document_edge_compiled d e : e ∈ document_edges d -> edge_compiled e.
Proof.
  intros (c & _ & ->)%elem_of_document_edges k. simpl.
  destruct c as [c|]; [|done]. apply compileCondition_compiled.
Qed.

Section PlainEdges.
Context (d : PipelineDocument) (Hd : plain_document d = true).

Lemma plain_edge e :
  e ∈ document_edges d ->
  str_has NUL (pe_from e) = false /\ str_has NUL (pe_to e) = false /\ edge_prints e = true.
Proof.
  unfold plain_document in Hd. rewrite forallb_forall in Hd.
  intros H%list_elem_of_In%Hd. apply andb_prop in H as [[H1 H2]%andb_prop H3].
  by rewrite negb_true_iff in H1, H2.
Qed.

Lemma located_names a :
  a ∈ located_edges d ->
  str_has NUL (pe_from (le_edge a)) = false /\ str_has NUL (pe_to (le_edge a)) = false.
Proof. intros H%located_elem%plain_edge. tauto. Qed.

Lemma located_keys a b :
  a ∈ located_edges d -> b ∈ located_edges d ->
  edge_keys (le_edge a) = edge_keys (le_edge b) -> le_edge a = le_edge b.
Proof.
  intros Ha%located_elem Hb%located_elem [= Ef Et Ec].
  destruct (plain_edge _ Ha) as (_ & _ & Hpa), (plain_edge _ Hb) as (_ & _ & Hpb).
  apply conditionKey_inj in Ec; try done; [|by eapply document_edge_compiled..].
  destruct (le_edge a), (le_edge b). simpl in *. congruence.
Qed.
End PlainEdges.

(** ** Normalization *)

Definition document_graph (d : PipelineDocument) : PipelineGraph :=
  let pipelineMode := default autonomous (doc_mode d) in
  {| pg_pipelineId := doc_id d; pg_name := doc_name d; pg_description := doc_description d;
     pg_mode := pipelineMode; pg_limits := normalizeLimits (doc_limits d);
     pg_context :=
       {| pc_handoffSoftThreshold := doc_context d ≫= pc_handoffSoftThreshold;
          pc_handoffHardThreshold := doc_context d ≫= pc_handoffHardThreshold |};
     pg_stages := sort_key ps_id (map (normalizeStage pipelineMode) (doc_stages d));
     pg_edges := map le_edge (kept (located_edges d)) |}.

(** Every expression of the document compiles. *)
Definition document_compiles (d : PipelineDocument) : Prop :=
  forall from to c, doc_edge d from to c -> compiles c.

Lemma normalize_spec r d :
  exists n ds, normalizePipelineDocument r d = Some (n, ds) /\
    np_graph n = document_graph d /\
    np_edgePointers n = map le_pointer (kept (located_edges d)) /\
    errors ds /\ (ds = [] <-> document_compiles d).
Proof.
  destruct (buildEdges_spec r (spelledEdges d)) as (ds & Hb & He & Hds).
  unfold normalizePipelineDocument, collectEdges. rewrite Hb. eexists _, ds.
  split; [done|]. split; [done|]. split; [done|]. split; [done|]. rewrite Hds. split.
  - intros H from to c [p Hp]%elem_of_spelledEdges. apply (H _ Hp).
  - intros H [[[from to] c] p] Hs. apply (H from to c). apply elem_of_spelledEdges. by exists p.
Qed.

(** The pointer beside an edge is where the document spells that edge. *)
Lemma pointer_spelled d i e p :
  map le_edge (kept (located_edges d)) !! i = Some e ->
  map le_pointer (kept (located_edges d)) !! i = Some p ->
  exists c, (pe_from e, pe_to e, c, p) ∈ spelledEdges d /\ e = compileEdge (pe_from e) (pe_to e) c.
Proof.
  rewrite !list_lookup_fmap. intros (x & Hx & ->)%fmap_Some (x' & Hx' & ->)%fmap_Some.
  assert (x' = x) as -> by congruence. apply list_elem_of_lookup_2, kept_located in Hx.
  apply list_elem_of_fmap in Hx as ([[[from to] c] p] & -> & Hs). by exists c.
Qed.

(** Normalization always returns, and reports errors exactly when some
    condition of the document does not compile.  The graph has the stages of
    the document, each normalized, and its edges are exactly those the document
    spells as needs, transitions or edges, each kept once, with the pointer of
    a place that spells it; ids without [U+0000] and literals that print as
    numerals are assumed. *)
Theorem normalize_faithful r d :
  plain_document d = true ->
  exists n ds, normalizePipelineDocument r d = Some (n, ds) /\
    (hasErrorDiagnostic ds = false <-> document_compiles d) /\
    pg_stages (np_graph n) ≡ₚ map (normalizeStage (default autonomous (doc_mode d))) (doc_stages d) /\
    (forall e, e ∈ pg_edges (np_graph n) <->
       exists c, doc_edge d (pe_from e) (pe_to e) c /\ e = compileEdge (pe_from e) (pe_to e) c) /\
    NoDup (pg_edges (np_graph n)) /\
    (forall i e p, pg_edges (np_graph n) !! i = Some e -> np_edgePointers n !! i = Some p ->
       exists c, (pe_from e, pe_to e, c, p) ∈ spelledEdges d /\
         e = compileEdge (pe_from e) (pe_to e) c).
Proof.
  intros Hd. destruct (normalize_spec r d) as (n & ds & E & Hg & Hp & He & Hds).
  exists n, ds. split; [done|]. rewrite (errors_silent ds He), Hg, Hp.
  split; [done|]. split; [apply sort_key_perm|]. split; [|split].
  - intros e. simpl. rewrite elem_of_kept, located_document by eauto using located_keys, located_names.
    apply elem_of_document_edges.
  - apply kept_NoDup.
  - intros i e p. apply pointer_spelled.
Qed.

(** ** Equivalent documents *)

(** Requirements with the exit codes the schema allows. *)
Definition requirement_ok (q : CompletionRequirement) : bool :=
  match q with
  | cr_command _ (Some code) => (0 <=? code)%Z && (code <? 256)%Z
  | _ => true
  end.

Lemma small_ints_print : forallb (fun z => num_prints (num_of_Z z)) (seqZ 0 256) = true.
Proof. vm_compute. reflexivity. Qed.

Lemma small_prints z : small z -> num_prints (num_of_Z z) = true.
Proof.
  intros Hz. pose proof small_ints_print as H. rewrite forallb_forall in H. apply H.
  apply list_elem_of_In, elem_of_seqZ. unfold small in Hz. lia.
Qed.

Lemma texts_print l : forallb json_prints (map json_text l) = true.
Proof. induction l; [done|]. simpl. done. Qed.

Lemma requirement_small argv code :
  requirement_ok (cr_command argv (Some code)) = true -> small code.
Proof.
  intros [H1 H2]%andb_prop. apply Z.leb_le in H1. apply Z.ltb_lt in H2. done.
Qed.

Lemma requirement_prints q : requirement_ok q = true -> json_prints (requirementJson q) = true.
Proof.
  destruct q as [| | | |names|argv [code|]| |]; intros H; try reflexivity.
  - cbn. by rewrite texts_print.
  - apply requirement_small, small_prints in H. cbn -[num_prints num_of_Z].
    by rewrite texts_print, H.
  - cbn. by rewrite texts_print.
Qed.

Lemma requirementJson_sorted q : json_sorted (requirementJson q) = requirementJson q.
Proof.
  destruct q as [| | | |names|argv [code|]| |]; try reflexivity;
    cbn [requirementJson json_sorted map fst snd app]; by rewrite json_sorted_texts.
Qed.

Lemma requirementJson_inj q q' :
  requirement_ok q = true -> requirement_ok q' = true ->
  requirementJson q = requirementJson q' -> q = q'.
Proof.
  destruct q as [| | | |names|argv [code|]|[]|], q' as [| | | |names'|argv' [code'|]|[]|]; intros H H' [=];
    subst; try done; f_equal;
    try (by apply (map_inj_on json_text); [intros; by apply json_text_inj|]).
  f_equal. apply json_int_inj; [by eapply requirement_small..|]. unfold json_int. congruence.
Qed.

Lemma requirement_key q q' :
  requirement_ok q = true -> requirement_ok q' = true ->
  canonicalText (requirementJson q) = canonicalText (requirementJson q') -> q = q'.
Proof.
  intros H H' E. apply canonicalText_inj in E; [|by apply requirement_prints..].
  rewrite !requirementJson_sorted in E. by apply requirementJson_inj.
Qed.

(** Two lists with the same elements. *)
Definition same_elements {A} (l l' : list A) : Prop := forall x, x ∈ l <-> x ∈ l'.

(** Stages that differ in the order and repetition of what they list, and in
    where they spell their defaults; what they say about edges is compared for
    the whole document. *)
Record stage_equiv (s s' : StageDocument) : Prop := {
  se_id : sd_id s = sd_id s';
  se_type : sd_type s = sd_type s';
  se_profile : sd_profile s = sd_profile s';
  se_optional : default false (sd_optional s) = default false (sd_optional s');
  se_mode : sd_mode s = sd_mode s';
  se_session : sd_session s = sd_session s';
  se_limits : sd_limits s = sd_limits s';
  se_command : sd_command s = sd_command s';
  se_failure : sd_on_validation_failure s = sd_on_validation_failure s';
  se_reads : same_elements (default [] (sd_reads s)) (default [] (sd_reads s'));
  se_writes : same_elements (default [] (sd_writes s)) (default [] (sd_writes s'));
  se_overridable : same_elements (default [] (sd_overridable s)) (default [] (sd_overridable s'));
  se_completion : is_Some (sd_completion s) <-> is_Some (sd_completion s');
  se_requirements : same_elements (default [] (sd_completion s)) (default [] (sd_completion s'))
}.

Record doc_equiv (d d' : PipelineDocument) : Prop := {
  dq_id : doc_id d = doc_id d';
  dq_name : doc_name d = doc_name d';
  dq_description : doc_description d = doc_description d';
  dq_mode : default autonomous (doc_mode d) = default autonomous (doc_mode d');
  dq_limits : doc_limits d = doc_limits d';
  dq_context : doc_context d = doc_context d';
  dq_stages : exists l, l ≡ₚ doc_stages d' /\ Forall2 stage_equiv (doc_stages d) l;
  dq_edges : forall from to c, doc_edge d from to c <-> doc_edge d' from to c
}.

(** The exit codes of a stage are those the schema allows. *)
Definition stage_schema (s : StageDocument) : bool :=
  forallb (fun q => requirement_ok (normalizeCompletionRequirement q)) (default [] (sd_completion s)).

Lemma normalize_requirements_set l l' :
  same_elements l l' ->
  same_elements (map normalizeCompletionRequirement l) (map normalizeCompletionRequirement l').
Proof. unfold same_elements. intros H q. rewrite !list_elem_of_fmap. by setoid_rewrite H. Qed.

Lemma normalizeStage_equiv mode s s' :
  stage_schema s = true -> stage_equiv s s' -> normalizeStage mode s = normalizeStage mode s'.
Proof.
  intros Hs []. unfold normalizeStage, normalizeStageLimits, normalizeValidationFailure.
  f_equal; try congruence; [|by apply sortUnique_canonical; [intros; by simplify_eq/=|]..].
  unfold stage_schema in Hs. rewrite forallb_forall in Hs.
  destruct (sd_completion s) as [l|], (sd_completion s') as [l'|]; simpl in *;
    [|by destruct se_completion0 as [H _], H|by destruct se_completion0 as [_ H], H|done].
  f_equal. apply sortUnique_canonical; [|by apply normalize_requirements_set].
  intros q q' (x & -> & Hx%list_elem_of_In)%list_elem_of_fmap
    (x' & -> & Hx'%list_elem_of_In)%list_elem_of_fmap.
  apply requirement_key; by apply Hs.
Qed.

Lemma normalize_stages_equiv mode l l' k :
  forallb stage_schema l = true -> NoDup (map sd_id l) -> Forall2 stage_equiv l k -> k ≡ₚ l' ->
  sort_key ps_id (map (normalizeStage mode) l) = sort_key ps_id (map (normalizeStage mode) l').
Proof.
  intros Hs Hnd Hf Hp. rewrite forallb_forall in Hs. apply sort_key_canonical.
  - intros x y (s & -> & Hx)%list_elem_of_fmap (s' & -> & Hy)%list_elem_of_fmap E.
    by rewrite (NoDup_map_inj sd_id l s s' Hnd Hx Hy E).
  - rewrite <-Hp. clear Hp Hnd. induction Hf as [|s s' l k H Hf IH]; simpl; [done|].
    rewrite (normalizeStage_equiv mode s s'); [|apply Hs; by left|done].
    constructor. apply IH. intros x Hx. apply Hs. by right.
Qed.

Lemma document_edges_equiv d d' :
  doc_equiv d d' -> same_elements (document_edges d) (document_edges d').
Proof.
  intros H e. rewrite !elem_of_document_edges. by setoid_rewrite (dq_edges d d' H).
Qed.

(** Normalization is canonical: documents with the same stages in another
    order, the same reads, writes, overridable fields and requirements in
    another order or repeated, and the same relations spelled differently (a
    need or an unconditional edge, a transition or a conditional edge) have
    equal graphs. *)
Theorem normalize_canonical r r' d d' :
  plain_document d = true -> forallb stage_schema (doc_stages d) = true ->
  NoDup (map sd_id (doc_stages d)) -> doc_equiv d d' ->
  exists n n' ds ds', normalizePipelineDocument r d = Some (n, ds) /\
    normalizePipelineDocument r' d' = Some (n', ds') /\ np_graph n = np_graph n'.
Proof.
  intros Hp Hs Hnd He.
  destruct (normalize_spec r d) as (n & ds & E & Hg & _).
  destruct (normalize_spec r' d') as (n' & ds' & E' & Hg' & _).
  exists n, n', ds, ds'. split; [done|]. split; [done|]. rewrite Hg, Hg'.
  pose proof (document_edges_equiv d d' He) as Hset.
  destruct He as [H1 H2 H3 Hm H5 H6 (l & Hl & Hf) _]. unfold document_graph.
  rewrite H1, H2, H3, Hm, H5, H6. f_equal; [by eapply normalize_stages_equiv|].
  apply kept_canonical; [by apply located_keys|by apply located_names|].
  by rewrite !located_document.
Qed.

(** ** A document in two spellings *)

Definition sample_stage (id : string) (needs reads writes : list string)
    (transitions : list TransitionDocument) : StageDocument :=
  {| sd_id := id; sd_type := st_approval; sd_profile := None; sd_optional := None;
     sd_mode := None; sd_needs := Some needs; sd_reads := Some reads; sd_writes := Some writes;
     sd_overridable := None; sd_session := None; sd_limits := None; sd_command := None;
     sd_completion := None; sd_on_validation_failure := None;
     sd_transitions := Some transitions |}.

Definition sample_document (stages : list StageDocument) (edges : list EdgeDocument)
    : PipelineDocument :=
  {| doc_id := "sample"; doc_name := None; doc_description := None; doc_mode := None;
     doc_limits := None; doc_context := None; doc_stages := stages; doc_edges := Some edges |}.

Definition score_condition : ConditionDocument := wd_expression "decisions.score >= 2".

(** Needs and transitions on the stages. *)
Definition sample_needs : PipelineDocument :=
  sample_document
    [ sample_stage "plan" [] [] ["artifacts.plan"; "decisions.score"]
        [{| trd_when := score_condition; trd_then := "ship" |}];
      sample_stage "build" ["plan"] ["artifacts.plan"] [] [];
      sample_stage "ship" ["build"] [] [] [] ]
    [].

(** The same relations as edges, the lists in another order. *)
Definition sample_edges : PipelineDocument :=
  sample_document
    [ sample_stage "ship" [] [] [] [];
      sample_stage "build" [] ["artifacts.plan"; "artifacts.plan"] [] [];
      sample_stage "plan" [] [] ["decisions.score"; "artifacts.plan"] [] ]
    [ {| edd_from := "build"; edd_to := "ship"; edd_when := None |};
      {| edd_from := "plan"; edd_to := "ship"; edd_when := Some score_condition |};
      {| edd_from := "plan"; edd_to := "build"; edd_when := None |} ].

Lemma normalize_faithful_witness :
  exists n ds, normalizePipelineDocument {| rp_sourcePath := None; rp_resolvePosition := fun _ => None |}
      sample_needs = Some (n, ds) /\
    hasErrorDiagnostic ds = false /\ length (pg_edges (np_graph n)) = 3%nat.
Proof.
  destruct (normalize_faithful {| rp_sourcePath := None; rp_resolvePosition := fun _ => None |}
    sample_needs) as (n & ds & E & _); [vm_compute; reflexivity|].
  exists n, ds. split; [done|]. vm_compute in E. injection E as <- <-. done.
Defined.

Lemma sample_equiv : doc_equiv sample_needs sample_edges.
Proof.
  split; try done.
  - exists (rev (doc_stages sample_edges)). split; [symmetry; apply Permutation_rev|].
    do 3 (apply Forall2_cons_2; [split; try done; intros x; simpl;
      rewrite ?elem_of_cons, ?elem_of_nil; tauto|]). apply Forall2_nil_2.
  - intros from to c. rewrite <-!elem_of_spelledEdges. cbn.
    split; intros [p H]; repeat (apply elem_of_cons in H as [[= -> -> -> ->]|H]); try (by apply elem_of_nil in H);
      eexists; repeat (apply elem_of_cons; first [left; reflexivity|right]).
Qed.

Lemma normalize_canonical_witness :
  exists n n' ds ds',
    normalizePipelineDocument {| rp_sourcePath := None; rp_resolvePosition := fun _ => None |}
      sample_needs = Some (n, ds) /\
    normalizePipelineDocument {| rp_sourcePath := None; rp_resolvePosition := fun _ => None |}
      sample_edges = Some (n', ds') /\ np_graph n = np_graph n'.
Proof.
  apply (normalize_canonical _ _ sample_needs sample_edges);
    [vm_compute; reflexivity..|by apply (bool_decide_unpack _); vm_compute|apply sample_equiv].
Defined.
