(* ===== verification/TaskDag.v ===== *)
(** * Whole-task graphs and their validation

    [packages/pipeline/src/task-graph/validate.ts]: the topological order of a
    task graph, ancestors, and the diagnostics of [validateTaskDag].  A task
    node carries the fields the validator and the wave planner read. *)

From S2P Require Import Prelude.

(** ** The graph *)

Record ExecutionTask := {
  et_taskId : string;
  et_dependencies : list string;
  et_writeSet : list string
}.

Record TaskDagNode := {
  tn_task : ExecutionTask;
  tn_profileId : string;
  tn_accountId : option string
}.

Record TaskDag := {
  td_graphId : string;
  td_graphRevision : Z;
  td_nodes : list TaskDagNode
}.

Definition node_id (node : TaskDagNode) : string := et_taskId (tn_task node).
Definition node_deps (node : TaskDagNode) : list string := et_dependencies (tn_task node).
Definition node_writes (node : TaskDagNode) : list string := et_writeSet (tn_task node).

(** ** Planning state *)

Inductive TaskPlanningOutcome :=
| to_not_started | to_active | to_succeeded | to_failed | to_cancelled | to_blocked.

Inductive CompletionGate := cg_pending | cg_passed | cg_failed.
Inductive IntegrationGate := ig_pending | ig_passed | ig_reconciliation_required.

#[export] Instance TaskPlanningOutcome_eq_dec : EqDecision TaskPlanningOutcome.
Proof. solve_decision. Defined.
#[export] Instance CompletionGate_eq_dec : EqDecision CompletionGate.
Proof. solve_decision. Defined.
#[export] Instance IntegrationGate_eq_dec : EqDecision IntegrationGate.
Proof. solve_decision. Defined.

Definition outcome_text (o : TaskPlanningOutcome) : string :=
  match o with
  | to_not_started => "not_started" | to_active => "active" | to_succeeded => "succeeded"
  | to_failed => "failed" | to_cancelled => "cancelled" | to_blocked => "blocked"
  end.

Record TaskPlanningState := {
  tp_taskId : string;
  tp_outcome : TaskPlanningOutcome;
  tp_completionContract : CompletionGate;
  tp_integration : IntegrationGate;
  tp_combinedVerification : CompletionGate
}.

(** ** Diagnostics *)

Record TaskDagDiagnostic := {
  dg_code : string;
  dg_message : string;
  dg_taskIds : list string
}.

Definition diagnostic (code message : string) (taskIds : list string) : TaskDagDiagnostic :=
  {| dg_code := code; dg_message := message; dg_taskIds := sort_strings taskIds |}.

(** [insertSorted]: before the first value it is smaller than. *)
Fixpoint insertSorted (values : list string) (value : string) : list string :=
  match values with
  | [] => [value]
  | candidate :: rest =>
      if (compareCodepoints value candidate <? 0)%Z then value :: values
      else candidate :: insertSorted rest value
  end.

(** ** Topological order *)

(** The node map of a graph: the first node of each id, in order. *)
Definition addNode (nodes : list (string * TaskDagNode)) (node : TaskDagNode)
    : list (string * TaskDagNode) :=
  if map_has nodes (node_id node) then nodes else map_set nodes (node_id node) node.

Definition nodeMap (dag : TaskDag) : list (string * TaskDagNode) :=
  fold_left addNode (td_nodes dag) [].

Record Topology := {
  tg_indegree : list (string * Z);
  tg_successors : list (string * list string)
}.

(** Count one dependency of the task [taskId]. *)
Definition addDependency (nodes : list (string * TaskDagNode)) (taskId : string)
    (g : Topology) (predecessor : string) : Topology :=
  if negb (map_has nodes predecessor) || str_eqb predecessor taskId then g
  else
    {| tg_indegree :=
         map_set (tg_indegree g) taskId (default 0 (map_get (tg_indegree g) taskId) + 1)%Z;
       tg_successors :=
         match map_get (tg_successors g) predecessor with
         | Some values => map_set (tg_successors g) predecessor (values ++ [taskId])
         | None => tg_successors g
         end |}.

Definition addDependencies (nodes : list (string * TaskDagNode)) (g : Topology)
    (node : TaskDagNode) : Topology :=
  if map_has nodes (node_id node)
  then fold_left (addDependency nodes (node_id node)) (node_deps node) g
  else g.

Definition emptyTopology (nodes : list (string * TaskDagNode)) : Topology :=
  {| tg_indegree := map (fun id => (id, 0%Z)) (map_keys nodes);
     tg_successors := map (fun id => (id, [])) (map_keys nodes) |}.

Definition buildTopology (dag : TaskDag) (nodes : list (string * TaskDagNode)) : Topology :=
  let g := fold_left (addDependencies nodes) (td_nodes dag) (emptyTopology nodes) in
  {| tg_indegree := tg_indegree g;
     tg_successors := map (fun e => (fst e, sort_strings (snd e))) (tg_successors g) |}.

(** One successor of the task just ordered: its indegree drops, and at zero it
    becomes ready. *)
Definition settleSuccessor (s : list (string * Z) * list string) (successor : string)
    : list (string * Z) * list string :=
  let '(indegree, ready) := s in
  let next := (default 0 (map_get indegree successor) - 1)%Z in
  (map_set indegree successor next,
   if (next =? 0)%Z then insertSorted ready successor else ready).

(** The loop over [ready]; [None] is a run that exceeds its fuel. *)
Fixpoint orderLoop (fuel : nat) (successors : list (string * list string))
    (indegree : list (string * Z)) (ready order : list string)
    : option (list string * list (string * Z)) :=
  match ready with
  | [] => Some (order, indegree)
  | taskId :: rest =>
      match fuel with
      | O => None
      | S fuel' =>
          let '(indegree', ready') :=
            fold_left settleSuccessor (default [] (map_get successors taskId)) (indegree, rest) in
          orderLoop fuel' successors indegree' ready' (order ++ [taskId])
      end
  end.

(** The result of [buildTopologicalOrder]. *)
Record TopologicalOrder := { tq_order : list string; tq_cyclic : list string }.

(** Every iteration orders one task, so the number of tasks is enough fuel. *)
Definition buildTopologicalOrder (dag : TaskDag) (nodes : list (string * TaskDagNode))
    : option TopologicalOrder :=
  let g := buildTopology dag nodes in
  let ready :=
    sort_strings (map fst (List.filter (fun e => (snd e =? 0)%Z) (tg_indegree g))) in
  match orderLoop (length nodes) (tg_successors g) (tg_indegree g) ready [] with
  | None => None
  | Some (order, indegree) =>
      Some {| tq_order := order;
              tq_cyclic :=
                sort_strings (map fst (List.filter (fun e => (0 <? snd e)%Z) indegree)) |}
  end.

(** ** Ancestors *)

Definition addAncestors (ancestors : list (string * list string)) (values : list string)
    (predecessor : string) : list string :=
  fold_left set_add (default [] (map_get ancestors predecessor)) (set_add values predecessor).

Definition dependenciesOf (nodes : list (string * TaskDagNode)) (taskId : string)
    : list string :=
  match map_get nodes taskId with Some node => node_deps node | None => [] end.

Definition computeAncestors (order : list string) (nodes : list (string * TaskDagNode))
    : list (string * list string) :=
  fold_left (fun ancestors taskId =>
      map_set ancestors taskId
        (fold_left (addAncestors ancestors) (dependenciesOf nodes taskId) []))
    order [].

(** ** Validation *)

Definition settledState (state : TaskPlanningState) : bool :=
  bool_decide (tp_outcome state = to_succeeded) &&
  bool_decide (tp_completionContract state = cg_passed) &&
  bool_decide (tp_integration state = ig_passed) &&
  bool_decide (tp_combinedVerification state = cg_passed).

Definition stateMap (states : list TaskPlanningState) : list (string * TaskPlanningState) :=
  map_of (map (fun s => (tp_taskId s, s)) states).

Definition validateTerminalDependencies (dag : TaskDag) (nodes : list (string * TaskDagNode))
    (states : list TaskPlanningState) : list TaskDagDiagnostic :=
  let byTask := stateMap states in
  flat_map (fun node =>
      match map_get byTask (node_id node) with
      | Some state =>
          if bool_decide (tp_outcome state = to_active) ||
             bool_decide (tp_outcome state = to_succeeded)
          then
            flat_map (fun predecessorId =>
                if negb (map_has nodes predecessorId) then []
                else
                  let settled :=
                    match map_get byTask predecessorId with
                    | Some predecessor => settledState predecessor
                    | None => false
                    end in
                  if settled then []
                  else
                    [ diagnostic "task-dag.invalid-terminal-dependency"
                        ("Task " +:+ quoted (node_id node) +:+ " is " +:+
                         outcome_text (tp_outcome state) +:+ " although prerequisite " +:+
                         quoted predecessorId +:+ " is not fully settled and verified.")
                        [predecessorId; node_id node] ])
              (node_deps node)
          else []
      | None => []
      end)
    (td_nodes dag).

(** Duplicate ids, in the order of the nodes. *)
Fixpoint duplicateNodes (seen : list string) (nodes : list TaskDagNode)
    : list TaskDagDiagnostic :=
  match nodes with
  | [] => []
  | node :: rest =>
      (if set_has seen (node_id node)
       then [ diagnostic "task-dag.duplicate-node"
                ("Task " +:+ quoted (node_id node) +:+ " appears more than once.")
                [node_id node] ]
       else []) ++ duplicateNodes (set_add seen (node_id node)) rest
  end.

(** The dependency diagnostics of one task. *)
Fixpoint dependencyDiagnostics (nodes : list (string * TaskDagNode)) (taskId : string)
    (seen dependencies : list string) : list TaskDagDiagnostic :=
  match dependencies with
  | [] => []
  | predecessor :: rest =>
      (if str_eqb predecessor taskId
       then [ diagnostic "task-dag.self-dependency"
                ("Task " +:+ quoted taskId +:+ " depends on itself.") [taskId] ]
       else if negb (map_has nodes predecessor)
       then [ diagnostic "task-dag.missing-node"
                ("Task " +:+ quoted taskId +:+ " depends on missing task " +:+
                 quoted predecessor +:+ ".") [predecessor; taskId] ]
       else []) ++
      (if set_has seen predecessor
       then [ diagnostic "task-dag.duplicate-dependency"
                ("Task " +:+ quoted taskId +:+ " repeats dependency " +:+ quoted predecessor +:+
                 ".") [predecessor; taskId] ]
       else []) ++
      dependencyDiagnostics nodes taskId (set_add seen predecessor) rest
  end.

(** The tasks that write each repository. *)
Definition addWriter (taskId : string) (writers : list (string * list string))
    (repositoryId : string) : list (string * list string) :=
  map_set writers repositoryId (default [] (map_get writers repositoryId) ++ [taskId]).

Definition writersOf (nodes : list (string * TaskDagNode)) : list (string * list string) :=
  fold_left (fun writers node => fold_left (addWriter (node_id node)) (node_writes node) writers)
    (map_values nodes) [].

Definition ancestorOf (ancestors : list (string * list string)) (task candidate : string)
    : bool :=
  match map_get ancestors task with Some values => set_has values candidate | None => false end.

(** The unordered pairs of writers of one repository, outer before inner. *)
Fixpoint writerConflicts (ancestors : list (string * list string)) (repositoryId : string)
    (sorted : list string) : list TaskDagDiagnostic :=
  match sorted with
  | [] => []
  | first :: rest =>
      flat_map (fun second =>
          if ancestorOf ancestors first second || ancestorOf ancestors second first then []
          else
            [ diagnostic "task-dag.conflicting-writes"
                ("Tasks " +:+ quoted first +:+ " and " +:+ quoted second +:+
                 " both write repository " +:+ quoted repositoryId +:+
                 " without dependency ordering.") [first; second] ])
        rest ++
      writerConflicts ancestors repositoryId rest
  end.

Definition conflictDiagnostics (order : list string) (nodes : list (string * TaskDagNode))
    : list TaskDagDiagnostic :=
  let ancestors := computeAncestors order nodes in
  flat_map (fun e => writerConflicts ancestors (fst e) (sort_strings (snd e)))
    (sort_key fst (writersOf nodes)).

(** The diagnostics of the planning states. *)
Fixpoint stateDiagnostics (nodes : list (string * TaskDagNode)) (stateIds : list string)
    (states : list TaskPlanningState) : list TaskDagDiagnostic :=
  match states with
  | [] =>
      flat_map (fun taskId =>
          if set_has stateIds taskId then []
          else [ diagnostic "task-dag.missing-task-state"
                   ("Task " +:+ quoted taskId +:+ " has no planning-state observation.")
                   [taskId] ])
        (map_keys nodes)
  | state :: rest =>
      (if set_has stateIds (tp_taskId state)
       then [ diagnostic "task-dag.duplicate-task-state"
                ("Task " +:+ quoted (tp_taskId state) +:+
                 " has more than one planning-state observation.") [tp_taskId state] ]
       else []) ++
      (if negb (map_has nodes (tp_taskId state))
       then [ diagnostic "task-dag.unknown-task-state"
                ("Planning state refers to unknown task " +:+ quoted (tp_taskId state) +:+ ".")
                [tp_taskId state] ]
       else []) ++
      stateDiagnostics nodes (set_add stateIds (tp_taskId state)) rest
  end.

(** The character that separates joined task ids. *)
Definition nul : string := String (Ascii.ascii_of_N 0) EmptyString.

Definition diagnostic_lt (l r : TaskDagDiagnostic) : bool :=
  if str_eqb (dg_code l) (dg_code r)
  then str_ltb (js_join nul (dg_taskIds l)) (js_join nul (dg_taskIds r))
  else str_ltb (dg_code l) (dg_code r).

Record TaskDagValidationResult := {
  tv_graphId : string;
  tv_graphRevision : Z;
  tv_valid : bool;
  tv_topologicalOrder : list string;
  tv_diagnostics : list TaskDagDiagnostic
}.

Definition cycleDiagnostics (cyclic : list string) : list TaskDagDiagnostic :=
  match cyclic with
  | [] => []
  | _ =>
      [ diagnostic "task-dag.cycle"
          ("Task graph contains a cycle involving " +:+ js_join ", " (map quoted cyclic) +:+ ".")
          cyclic ]
  end.

(** The diagnostics of [validateTaskDag] before they are sorted. *)
Definition dagDiagnostics (dag : TaskDag) (states : option (list TaskPlanningState))
    (topology : TopologicalOrder) : list TaskDagDiagnostic :=
  let nodes := nodeMap dag in
  (if (length (td_nodes dag) =? 0)%nat
   then [ diagnostic "task-dag.empty" "Task graph must contain at least one task." [] ]
   else []) ++
  duplicateNodes [] (td_nodes dag) ++
  flat_map (fun node => dependencyDiagnostics nodes (node_id node) [] (node_deps node))
    (td_nodes dag) ++
  cycleDiagnostics (tq_cyclic topology) ++
  (if (length (tq_order topology) =? length nodes)%nat
   then conflictDiagnostics (tq_order topology) nodes else []) ++
  match states with
  | None => []
  | Some ss => stateDiagnostics nodes [] ss ++ validateTerminalDependencies dag nodes ss
  end.

Definition validateTaskDag (dag : TaskDag) (states : option (list TaskPlanningState))
    : option TaskDagValidationResult :=
  match buildTopologicalOrder dag (nodeMap dag) with
  | None => None
  | Some topology =>
      let diagnostics := sort_by diagnostic_lt (dagDiagnostics dag states topology) in
      let valid := (length diagnostics =? 0)%nat in
      Some {| tv_graphId := td_graphId dag;
              tv_graphRevision := td_graphRevision dag;
              tv_valid := valid;
              tv_topologicalOrder := if valid then tq_order topology else [];
              tv_diagnostics := diagnostics |}
  end.
