(* ===== verification/TaskOrder.v ===== *)
(** * The topological order of a task graph

    [buildTopologicalOrder] of [task-graph/validate.ts] is Kahn's algorithm:
    it ends, it orders every task after the tasks it depends on, and it leaves
    tasks over exactly when the dependencies have a cycle. *)

From S2P Require Import Prelude Writers TaskDag.

(** ** Edges and counting *)

(** [(t, p)]: the task [t] depends on [p]. *)
Definition dep_pairs (dag : TaskDag) : list (string * string) :=
  flat_map (fun n => map (pair (node_id n)) (node_deps n)) (td_nodes dag).

(** The dependencies the order counts: between two tasks of the graph. *)
Definition counted_dep (nodes : list (string * TaskDagNode)) (e : string * string) : bool :=
  map_has nodes (snd e) && negb (str_eqb (snd e) (fst e)).

Definition dep_edges (dag : TaskDag) (nodes : list (string * TaskDagNode))
    : list (string * string) :=
  List.filter (counted_dep nodes) (dep_pairs dag).

Definition cnt {A} (P : A -> bool) (l : list A) : nat := length (List.filter P l).

Lemma cnt_cons {A} (P : A -> bool) x l : cnt P (x :: l) = ((if P x then 1 else 0) + cnt P l)%nat.
Proof. unfold cnt. simpl. by destruct (P x). Qed.

Lemma cnt_perm {A} (P : A -> bool) l l' : l ≡ₚ l' -> cnt P l = cnt P l'.
Proof.
  induction 1 as [|x l l' _ IH|x y l|l l' l'' _ IH1 _ IH2]; rewrite ?cnt_cons; try done; lia.
Qed.

Lemma cnt_zero {A} (P : A -> bool) l : cnt P l = 0%nat <-> forall x, x ∈ l -> P x = false.
Proof.
  induction l as [|y l IH].
  - split; [by intros _ x ?%elem_of_nil|done].
  - rewrite cnt_cons. split.
    + intros H x [->|Hx]%elem_of_cons; [by destruct (P y)|]. apply IH; [|done].
      by destruct (P y).
    + intros H. rewrite (H y) by (by left). apply IH. intros x Hx. apply H. by right.
Qed.

(** The dependencies of [t] on tasks not yet ordered. *)
Definition undone (edges : list (string * string)) (order : list string) (t : string) : nat :=
  cnt (fun e => str_eqb (fst e) t && negb (set_has order (snd e))) edges.

(** Ordering [x] removes its edges from the undone ones. *)
Lemma undone_snoc edges order x t :
  x ∉ order ->
  undone edges order t =
  (undone edges (order ++ [x]) t + cnt (fun c => str_eqb c t) (children edges x))%nat.
Proof.
  intros Hx. unfold undone, children. induction edges as [|[c p] edges IH]; [done|].
  rewrite !cnt_cons. simpl.
  rewrite set_has_snoc.
  destruct (str_eqb p x) eqn:Hp; simpl.
  - apply str_eqb_true in Hp as ->. apply set_has_false in Hx. rewrite Hx, cnt_cons. simpl.
    rewrite IH. destruct (str_eqb c t); simpl; lia.
  - rewrite orb_false_r, IH. destruct (str_eqb c t), (set_has order p); simpl; lia.
Qed.

(** ** The indegrees and successors *)

(** What the counting loop has established for the edges it has passed. *)
Record counts (keys : list string) (edges : list (string * string)) (g : Topology) : Prop := {
  ct_indegree_keys : map_keys (tg_indegree g) = keys;
  ct_successor_keys : map_keys (tg_successors g) = keys;
  ct_indegree : forall t, t ∈ keys ->
    map_get (tg_indegree g) t = Some (Z.of_nat (cnt (fun e => str_eqb (fst e) t) edges));
  ct_successors : forall p, p ∈ keys ->
    map_get (tg_successors g) p = Some (children edges p)
}.

Lemma map_get_const {A} (keys : list string) (v : A) t :
  t ∈ keys -> map_get (map (fun id => (id, v)) keys) t = Some v.
Proof.
  induction keys as [|k keys IH]; [by intros ?%elem_of_nil|].
  intros Ht. simpl. destruct (str_eqb t k) eqn:E; [done|]. apply IH.
  apply str_eqb_false in E. by apply elem_of_cons in Ht as [?|?].
Qed.

Lemma map_keys_const {A} (keys : list string) (v : A) :
  map_keys (map (fun id => (id, v)) keys) = keys.
Proof. unfold map_keys. rewrite map_map. apply map_id. Qed.

Lemma counts_empty nodes : counts (map_keys nodes) [] (emptyTopology nodes).
Proof.
  split; simpl; try apply map_keys_const; intros; by rewrite map_get_const.
Qed.

Lemma cnt_snoc {A} (P : A -> bool) l x : cnt P (l ++ [x]) = (cnt P l + if P x then 1 else 0)%nat.
Proof. unfold cnt. rewrite List.filter_app, length_app. simpl. by destruct (P x). Qed.

Lemma addDependency_counts nodes edges g t p :
  NoDup (map_keys nodes) -> t ∈ map_keys nodes -> counts (map_keys nodes) edges g ->
  counts (map_keys nodes) (edges ++ List.filter (counted_dep nodes) [(t, p)])
    (addDependency nodes t g p).
Proof.
  intros Hnd Ht [K1 K2 H1 H2]. unfold addDependency. simpl. unfold counted_dep. simpl.
  destruct (map_has nodes p) eqn:Hp; simpl; [|by rewrite app_nil_r].
  destruct (str_eqb p t) eqn:Hpt; simpl; [by rewrite app_nil_r|].
  apply map_has_keys in Hp. rewrite (H1 t Ht), (H2 p Hp). split; simpl.
  - by rewrite map_keys_set_in; [|rewrite K1].
  - by rewrite map_keys_set_in; [|rewrite K2].
  - intros u Hu. rewrite map_get_set, cnt_snoc. simpl. destruct (str_eqb u t) eqn:E.
    + apply str_eqb_true in E as ->. rewrite str_eqb_refl. f_equal. lia.
    + assert (str_eqb t u = false) as ->.
      { apply str_eqb_false. apply str_eqb_false in E. congruence. }
      rewrite H1 by done. f_equal. lia.
  - intros q Hq. rewrite map_get_set, children_snoc. destruct (str_eqb q p) eqn:E.
    + apply str_eqb_true in E as ->. by rewrite str_eqb_refl.
    + assert (str_eqb p q = false) as ->.
      { apply str_eqb_false. apply str_eqb_false in E. congruence. }
      rewrite H2 by done. by rewrite app_nil_r.
Qed.

Lemma addDependencies_counts nodes edges g n :
  NoDup (map_keys nodes) -> node_id n ∈ map_keys nodes -> counts (map_keys nodes) edges g ->
  counts (map_keys nodes)
    (edges ++ List.filter (counted_dep nodes) (map (pair (node_id n)) (node_deps n)))
    (addDependencies nodes g n).
Proof.
  intros Hnd Hn Hg. unfold addDependencies. rewrite (proj2 (map_has_keys _ _) Hn).
  revert edges g Hg. induction (node_deps n) as [|p deps IH]; intros edges g Hg; simpl.
  - by rewrite app_nil_r.
  - apply (addDependency_counts _ _ _ (node_id n) p) in Hg; [|done|done].
    apply IH in Hg. rewrite <-app_assoc, <-List.filter_app in Hg. exact Hg.
Qed.

Lemma fold_dependencies_counts nodes ns edges g :
  NoDup (map_keys nodes) -> (forall n, n ∈ ns -> node_id n ∈ map_keys nodes) ->
  counts (map_keys nodes) edges g ->
  counts (map_keys nodes)
    (edges ++ List.filter (counted_dep nodes)
       (flat_map (fun n => map (pair (node_id n)) (node_deps n)) ns))
    (fold_left (addDependencies nodes) ns g).
Proof.
  intros Hnd. revert edges g. induction ns as [|n ns IH]; intros edges g Hin Hg; simpl.
  - by rewrite app_nil_r.
  - rewrite List.filter_app, app_assoc. apply IH.
    + intros m Hm. apply Hin. by right.
    + apply addDependencies_counts; [done| |done]. apply Hin. by left.
Qed.

(** ** The node map *)

Lemma addNode_keys nodes n k :
  k ∈ map_keys (addNode nodes n) <-> k = node_id n \/ k ∈ map_keys nodes.
Proof.
  unfold addNode. destruct (map_has nodes (node_id n)) eqn:E.
  - apply map_has_keys in E. split; [by right|]. by intros [->|?].
  - apply elem_of_map_keys_set.
Qed.

Lemma addNode_NoDup nodes n : NoDup (map_keys nodes) -> NoDup (map_keys (addNode nodes n)).
Proof.
  intros H. unfold addNode. destruct (map_has _ _); [done|]. by apply map_set_NoDup.
Qed.

Lemma fold_addNode ns nodes :
  NoDup (map_keys nodes) ->
  NoDup (map_keys (fold_left addNode ns nodes)) /\
  forall k, k ∈ map_keys (fold_left addNode ns nodes) <-> k ∈ map node_id ns \/ k ∈ map_keys nodes.
Proof.
  revert nodes. induction ns as [|n ns IH]; intros nodes Hnd; simpl.
  - split; [done|]. intros k. rewrite elem_of_nil. naive_solver.
  - destruct (IH (addNode nodes n) (addNode_NoDup _ _ Hnd)) as [H1 H2]. split; [done|].
    intros k. rewrite H2, addNode_keys, elem_of_cons. naive_solver.
Qed.

Lemma nodeMap_NoDup dag : NoDup (map_keys (nodeMap dag)).
Proof. apply fold_addNode. constructor. Qed.

Lemma nodeMap_keys dag k : k ∈ map_keys (nodeMap dag) <-> k ∈ map node_id (td_nodes dag).
Proof.
  unfold nodeMap. destruct (fold_addNode (td_nodes dag) []) as [_ H]; [constructor|].
  rewrite H, elem_of_nil. naive_solver.
Qed.

Lemma node_in_keys dag n : n ∈ td_nodes dag -> node_id n ∈ map_keys (nodeMap dag).
Proof. intros H. apply nodeMap_keys, list_elem_of_fmap. eauto. Qed.

(** [buildTopology] counts the dependencies of the graph. *)
Record topology_ok (keys : list string) (edges : list (string * string)) (g : Topology)
    : Prop := {
  tk_keys : map_keys (tg_indegree g) = keys;
  tk_indegree : forall t, t ∈ keys -> map_get (tg_indegree g) t = Some (Z.of_nat (undone edges [] t));
  tk_successors : forall p, p ∈ keys ->
    exists l, map_get (tg_successors g) p = Some l /\ l ≡ₚ children edges p
}.

Lemma map_get_map_values {A B} (f : A -> B) (m : list (string * A)) k :
  map_get (map (fun e => (fst e, f (snd e))) m) k = f <$> map_get m k.
Proof. induction m as [|[k' v] m IH]; [done|]. simpl. by destruct (str_eqb k k'). Qed.

Lemma undone_nil edges t : undone edges [] t = cnt (fun e => str_eqb (fst e) t) edges.
Proof.
  unfold undone. induction edges as [|e edges IH]; [done|]. rewrite !cnt_cons, IH.
  by rewrite andb_true_r.
Qed.

Lemma buildTopology_ok dag :
  topology_ok (map_keys (nodeMap dag)) (dep_edges dag (nodeMap dag))
    (buildTopology dag (nodeMap dag)).
Proof.
  pose proof (fold_dependencies_counts (nodeMap dag) (td_nodes dag) [] _
    (nodeMap_NoDup dag) (node_in_keys dag) (counts_empty (nodeMap dag))) as [K1 K2 H1 H2].
  simpl in H1, H2. split; simpl; [done| |].
  - intros t Ht. by rewrite undone_nil, H1.
  - intros p Hp. rewrite map_get_map_values, H2 by done. simpl. eexists. split; [done|].
    unfold sort_strings. apply sort_key_perm.
Qed.

Lemma dep_edges_keys dag t p :
  (t, p) ∈ dep_edges dag (nodeMap dag) ->
  t ∈ map_keys (nodeMap dag) /\ p ∈ map_keys (nodeMap dag) /\ p <> t.
Proof.
  unfold dep_edges, dep_pairs. rewrite list_elem_of_In, filter_In, in_flat_map.
  unfold counted_dep. simpl.
  intros [(n & Hn & Hp) [H1 H2]%andb_prop]. apply in_map_iff in Hp as (q & [= <- <-] & _).
  apply map_has_keys in H1. apply negb_true_iff, str_eqb_false in H2.
  split_and!; try done. apply node_in_keys. by apply list_elem_of_In.
Qed.

(** ** The loop *)

Lemma insertSorted_perm l x : insertSorted l x ≡ₚ x :: l.
Proof.
  induction l as [|y l IH]; [done|]. simpl. destruct (_ <? 0)%Z; [done|].
  rewrite IH. apply Permutation_swap.
Qed.

(** Every task of [order] comes after the tasks it depends on. *)
Definition topo_sorted (edges : list (string * string)) (order : list string) : Prop :=
  forall l1 t l2 p, order = l1 ++ t :: l2 -> (t, p) ∈ edges -> p ∈ l1.

Section Loop.
Context (keys : list string) (edges : list (string * string)).
Context (Hkeys : NoDup keys).
Context (Hedges : forall t p, (t, p) ∈ edges -> t ∈ keys /\ p ∈ keys /\ p <> t).

(** The state of the loop with [pending] successors of the last ordered task
    still to settle. *)
Record loop_ok (order ready pending : list string) (indegree : list (string * Z)) : Prop := {
  lo_NoDup : NoDup (order ++ ready);
  lo_keys : forall t, t ∈ order ++ ready -> t ∈ keys;
  lo_indegree_keys : map_keys indegree = keys;
  lo_indegree : forall t, t ∈ keys -> map_get indegree t =
    Some (Z.of_nat (undone edges order t + cnt (fun c => str_eqb c t) pending));
  lo_ready : forall t, t ∈ keys ->
    (undone edges order t + cnt (fun c => str_eqb c t) pending = 0)%nat <-> t ∈ order ++ ready
}.

Lemma settle_one order ready c pending indegree indegree' ready' :
  c ∈ keys -> loop_ok order ready (c :: pending) indegree ->
  settleSuccessor (indegree, ready) c = (indegree', ready') ->
  loop_ok order ready' pending indegree'.
Proof.
  intros Hc [H1 H2 H3 H4 H5] [= <- <-]. rewrite (H4 c Hc), cnt_cons, str_eqb_refl. simpl.
  set (v := (undone edges order c + cnt (fun d => str_eqb d c) pending)%nat).
  replace (Z.of_nat (undone edges order c + S (cnt (λ c0, str_eqb c0 c) pending)) - 1)%Z
    with (Z.of_nat v) by lia.
  assert (c ∉ order ++ ready) as Hnew.
  { intros Hin%H5; [|done]. rewrite cnt_cons, str_eqb_refl in Hin. lia. }
  assert (forall t, t ∈ keys -> t <> c ->
    cnt (fun d => str_eqb d t) (c :: pending) = cnt (fun d => str_eqb d t) pending) as Hother.
  { intros t _ Hne. rewrite cnt_cons. by rewrite (proj2 (str_eqb_false c t)) by congruence. }
  assert (forall t, t ∈ keys ->
    map_get (map_set indegree c (Z.of_nat v)) t =
    Some (Z.of_nat (undone edges order t + cnt (fun d => str_eqb d t) pending))) as Hind.
  { intros t Ht. destruct (decide (t = c)) as [->|Hne]; [by rewrite map_get_set_eq|].
    rewrite map_get_set_ne, H4 by done. by rewrite Hother. }
  assert (map_keys (map_set indegree c (Z.of_nat v)) = keys) as Hk.
  { by rewrite map_keys_set_in; [|rewrite H3]. }
  destruct (Z.eqb_spec (Z.of_nat v) 0) as [Hz|Hz].
  - assert (order ++ insertSorted ready c ≡ₚ c :: order ++ ready) as Hp.
    { rewrite insertSorted_perm. by rewrite Permutation_middle. }
    split; try done.
    + rewrite Hp. by constructor.
    + intros t. rewrite Hp, elem_of_cons. intros [->|?]; auto.
    + intros t Ht. rewrite Hp, elem_of_cons. destruct (decide (t = c)) as [->|Hne].
      * split; [by left|]. intros _. fold v. lia.
      * rewrite <-H5, Hother by done. naive_solver.
  - split; try done. intros t Ht. destruct (decide (t = c)) as [->|Hne].
    + fold v. split; [lia|done].
    + by rewrite <-H5, Hother.
Qed.

Lemma settle_all order ready pending indegree :
  (forall c, c ∈ pending -> c ∈ keys) -> loop_ok order ready pending indegree ->
  let '(indegree', ready') := fold_left settleSuccessor pending (indegree, ready) in
  loop_ok order ready' [] indegree'.
Proof.
  revert indegree ready. induction pending as [|c pending IH]; intros indegree ready Hin Hok.
  - done.
  - cbn [fold_left]. destruct (settleSuccessor (indegree, ready) c) as [i r] eqn:E.
    apply IH; [intros d Hd; apply Hin; by right|].
    eapply settle_one; [|done|done]. apply Hin. by left.
Qed.

(** Taking the next ready task. *)
Lemma loop_take order x ready indegree l :
  l ≡ₚ children edges x -> loop_ok order (x :: ready) [] indegree ->
  loop_ok (order ++ [x]) ready l indegree.
Proof.
  intros Hl [H1 H2 H3 H4 H5].
  assert (x ∉ order) as Hx.
  { intros Hin. apply NoDup_app in H1 as (_ & Hdis & _). apply (Hdis x Hin). by left. }
  assert (forall t, (undone edges (order ++ [x]) t + cnt (fun c => str_eqb c t) l =
    undone edges order t + cnt (fun c => str_eqb c t) [])%nat) as Hsame.
  { intros t. rewrite (undone_snoc edges order x t Hx), (cnt_perm _ _ _ Hl).
    replace (cnt (fun c => str_eqb c t) []) with 0%nat by done. lia. }
  split; try done; rewrite <-?app_assoc; try done.
  - intros t Ht. by rewrite Hsame, H4.
  - intros t Ht. rewrite Hsame. by apply H5.
Qed.

Lemma topo_snoc order x :
  topo_sorted edges order -> (forall p, (x, p) ∈ edges -> p ∈ order) ->
  topo_sorted edges (order ++ [x]).
Proof.
  intros Ht Hx l1 t l2 p E Hp. destruct l2 as [|y l2 _] using rev_ind.
  - apply app_inj_tail in E as [-> ->]. by apply Hx.
  - rewrite app_comm_cons, app_assoc in E. apply app_inj_tail in E as [-> ->].
    by eapply Ht.
Qed.

Lemma undone_zero order t : undone edges order t = 0%nat <-> forall p, (t, p) ∈ edges -> p ∈ order.
Proof.
  unfold undone. rewrite cnt_zero. split.
  - intros H p Hp. specialize (H _ Hp). simpl in H. rewrite str_eqb_refl in H. simpl in H.
    apply negb_false_iff in H. by apply set_has_true.
  - intros H [u p] Hin. simpl. destruct (str_eqb u t) eqn:E; [|done].
    apply str_eqb_true in E as ->. simpl. apply negb_false_iff, set_has_true. by apply H.
Qed.

(** The loop ends with every task whose dependencies it could order, in order. *)
Lemma orderLoop_ok successors fuel indegree ready order :
  (forall p, p ∈ keys -> exists l, map_get successors p = Some l /\ l ≡ₚ children edges p) ->
  (length keys <= length order + fuel)%nat ->
  topo_sorted edges order -> loop_ok order ready [] indegree ->
  exists order' indegree', orderLoop fuel successors indegree ready order = Some (order', indegree') /\
    topo_sorted edges order' /\ loop_ok order' [] [] indegree'.
Proof.
  intros Hsucc. revert indegree ready order.
  induction fuel as [|fuel IH]; intros indegree [|x ready] order Hf Ht Hok; simpl;
    try (by exists order, indegree).
  - exfalso. destruct Hok as [H1 H2 _ _ _].
    assert (length (order ++ x :: ready) <= length keys)%nat as Hle.
    { apply submseteq_length, NoDup_submseteq; [done|]. exact H2. }
    rewrite length_app in Hle. simpl in Hle. lia.
  - destruct (Hsucc x) as (l & -> & Hl).
    { apply (lo_keys _ _ _ _ Hok). apply elem_of_app. right. by left. }
    simpl. pose proof (loop_take _ _ _ _ _ Hl Hok) as Htake.
    apply settle_all in Htake.
    2:{ intros c Hc. rewrite Hl in Hc. apply elem_of_children in Hc. by destruct (Hedges _ _ Hc). }
    destruct (fold_left settleSuccessor l (indegree, ready)) as [indegree' ready'].
    apply IH; [rewrite length_app; simpl; lia| |done].
    apply topo_snoc; [done|]. apply undone_zero.
    assert (x ∈ keys) as Hx by (apply (lo_keys _ _ _ _ Hok), elem_of_app; right; by left).
    pose proof (proj2 (lo_ready _ _ _ _ Hok x Hx)) as Hz. unfold cnt in Hz. simpl in Hz.
    assert (x ∈ order ++ x :: ready) as Hin by (apply elem_of_app; right; by left).
    specialize (Hz Hin). lia.
Qed.
End Loop.

(** ** The order and the cycles *)

(** The keys of the entries that satisfy [P]. *)
Lemma elem_of_filtered_keys {A} (P : string * A -> bool) m t :
  NoDup (map_keys m) ->
  t ∈ sort_strings (map fst (List.filter P m)) <->
  exists v, map_get m t = Some v /\ P (t, v) = true.
Proof.
  intros Hnd. rewrite elem_of_sort_strings, list_elem_of_In, in_map_iff. split.
  - intros ([t' v] & <- & [Hin HP]%filter_In). exists v. split; [|done].
    apply elem_map_get; [done|]. by apply list_elem_of_In.
  - intros (v & Hv & HP). exists (t, v). split; [done|]. apply filter_In. split; [|done].
    apply list_elem_of_In. by apply map_get_elem.
Qed.

Lemma filtered_keys_NoDup {A} (P : string * A -> bool) m :
  NoDup (map_keys m) -> NoDup (sort_strings (map fst (List.filter P m))).
Proof.
  intros Hnd. unfold sort_strings. rewrite sort_key_perm.
  induction m as [|[k v] m IH]; [constructor|]. simpl in *. apply NoDup_cons in Hnd as [H1 H2].
  destruct (P (k, v)); [|by apply IH]. simpl. constructor; [|by apply IH].
  intros Hin. apply H1. apply list_elem_of_In, in_map_iff in Hin as (e & <- & [He _]%filter_In).
  apply list_elem_of_In. unfold map_keys. by apply in_map.
Qed.

(** [p] is a counted dependency of [t]. *)
Definition depends (dag : TaskDag) (p t : string) : Prop := (t, p) ∈ dep_edges dag (nodeMap dag).

Record order_ok (dag : TaskDag) (q : TopologicalOrder) : Prop := {
  oo_NoDup : NoDup (tq_order q);
  oo_sorted : topo_sorted (dep_edges dag (nodeMap dag)) (tq_order q);
  oo_in : forall t, t ∈ tq_order q -> t ∈ map_keys (nodeMap dag);
  oo_complete : forall t, t ∈ map_keys (nodeMap dag) ->
    (forall p, depends dag p t -> p ∈ tq_order q) -> t ∈ tq_order q;
  oo_cyclic : forall t, t ∈ tq_cyclic q <-> t ∈ map_keys (nodeMap dag) /\ t ∉ tq_order q
}.

Lemma buildTopologicalOrder_ok dag :
  exists q, buildTopologicalOrder dag (nodeMap dag) = Some q /\ order_ok dag q.
Proof.
  pose proof (buildTopology_ok dag) as [K Hind Hsucc]. pose proof (nodeMap_NoDup dag) as Hnd.
  set (keys := map_keys (nodeMap dag)) in *. set (edges := dep_edges dag (nodeMap dag)) in *.
  set (g := buildTopology dag (nodeMap dag)) in *.
  set (ready := sort_strings (map fst (List.filter (fun e => (snd e =? 0)%Z) (tg_indegree g)))).
  assert (forall t, t ∈ ready <-> t ∈ keys /\ undone edges [] t = 0%nat) as Hready.
  { intros t. unfold ready. rewrite elem_of_filtered_keys by (by rewrite K). split.
    - intros (v & Hv & Hz). assert (t ∈ keys) as Ht.
      { rewrite <-K. by apply map_get_Some_keys in Hv. }
      rewrite Hind in Hv by done. simplify_eq. simpl in Hz. apply Z.eqb_eq in Hz. split; [done|lia].
    - intros [Ht Hz]. eexists. split; [by apply Hind|]. by rewrite Hz. }
  destruct (orderLoop_ok keys edges Hnd (dep_edges_keys dag) (tg_successors g) (length (nodeMap dag))
    (tg_indegree g) ready []) as (order & indegree & Hloop & Htopo & Hok).
  - done.
  - unfold keys, map_keys. by rewrite length_map.
  - intros l1 t l2 p E. by destruct l1.
  - split; simpl; try done.
    + apply filtered_keys_NoDup. by rewrite K.
    + by intros t [? _]%Hready.
    + intros t Ht. rewrite Hind by done. do 2 f_equal. unfold cnt. simpl. lia.
    + intros t Ht. rewrite Hready. unfold cnt. simpl. split; [intros ?; split; [done|lia]|].
      intros [_ ?]. lia.
  - exists {| tq_order := order;
              tq_cyclic := sort_strings (map fst (List.filter (fun e => (0 <? snd e)%Z) indegree)) |}.
    unfold buildTopologicalOrder. fold g. fold ready. rewrite Hloop. split; [done|].
    destruct Hok as [H1 H2 H3 H4 H5]. rewrite app_nil_r in H1.
    split; simpl; try done.
    + intros t Ht. apply H2. by rewrite app_nil_r.
    + intros t Ht Hp. apply undone_zero in Hp. specialize (H5 t Ht).
      rewrite app_nil_r in H5. apply H5. unfold cnt. simpl. unfold undone in *. fold edges in Hp. lia.
    + intros t. rewrite elem_of_filtered_keys by (by rewrite H3). split.
      * intros (v & Hv & Hpos). assert (t ∈ keys) as Ht.
        { rewrite <-H3. by apply map_get_Some_keys in Hv. }
        split; [done|]. rewrite H4 in Hv by done. simplify_eq. simpl in Hpos.
        apply Z.ltb_lt in Hpos. specialize (H5 t Ht). rewrite app_nil_r in H5.
        intros Hin%H5. lia.
      * intros [Ht Hno]. eexists. split; [by apply H4|]. simpl. apply Z.ltb_lt.
        specialize (H5 t Ht). rewrite app_nil_r in H5.
        destruct (decide (undone edges order t + cnt (λ c, str_eqb c t) [] = 0)%nat) as [Hz|];
          [|lia]. by apply H5 in Hz.
Qed.

(** A topologically sorted order has no cycle through its tasks. *)
Lemma topo_index (edges : list (string * string)) order p t :
  NoDup order -> topo_sorted edges order -> (t, p) ∈ edges -> t ∈ order ->
  exists i j, order !! i = Some p /\ order !! j = Some t /\ (i < j)%nat.
Proof.
  intros Hnd Hs He Ht. apply list_elem_of_split in Ht as (l1 & l2 & ->).
  pose proof (Hs l1 t l2 p eq_refl He) as Hp. apply list_elem_of_lookup in Hp as [i Hi].
  pose proof (lookup_lt_Some _ _ _ Hi). exists i, (length l1).
  rewrite lookup_app_l by lia. by rewrite list_lookup_middle.
Qed.

Lemma topo_tc dag q p t :
  order_ok dag q -> tc (depends dag) p t -> t ∈ tq_order q ->
  exists i j, tq_order q !! i = Some p /\ tq_order q !! j = Some t /\ (i < j)%nat.
Proof.
  intros Hq. induction 1 as [p t H|p u t H _ IH]; intros Ht.
  - apply (topo_index (dep_edges dag (nodeMap dag))); try done; apply Hq.
  - destruct (IH Ht) as (i & j & Hi & Hj & Hij).
    destruct (topo_index (dep_edges dag (nodeMap dag)) (tq_order q) p u) as (a & b & Ha & Hb & Hab);
      [apply Hq|apply Hq|done|by eapply list_elem_of_lookup_2|].
    exists a, j. split_and!; try done. pose proof (NoDup_lookup _ _ _ _ (oo_NoDup _ _ Hq) Hb Hi). lia.
Qed.

(** The graph has no cycle. *)
Definition dag_acyclic (dag : TaskDag) : Prop := forall t, ~ tc (depends dag) t t.

Lemma cyclic_iff dag q : order_ok dag q -> (tq_cyclic q = [] <-> dag_acyclic dag).
Proof.
  intros Hq. split.
  - intros Hc t Ht. assert (t ∈ map_keys (nodeMap dag)) as Hk.
    { apply tc_r_inv in Ht as [u Hu]. by destruct (dep_edges_keys _ _ _ Hu). }
    assert (t ∈ tq_order q) as Hin.
    { destruct (decide (t ∈ tq_order q)); [done|]. exfalso.
      apply (not_elem_of_nil t). rewrite <-Hc. by apply (oo_cyclic _ _ Hq). }
    destruct (topo_tc _ _ _ _ Hq Ht Hin) as (i & j & Hi & Hj & Hij).
    pose proof (NoDup_lookup _ _ _ _ (oo_NoDup _ _ Hq) Hi Hj). lia.
  - intros Hac. assert (forall t, t ∈ map_keys (nodeMap dag) -> t ∈ tq_order q) as Hall.
    { intros t. assert (sn (flip (depends dag)) t) as Hsn.
      { apply (acyclic_sn _ (map_keys (nodeMap dag))); [|done].
        intros y z Hyz. by destruct (dep_edges_keys _ _ _ Hyz) as (_ & ? & _). }
      induction Hsn as [t _ IH]. intros Ht. apply (oo_complete _ _ Hq); [done|].
      intros p Hp. apply IH; [done|]. by destruct (dep_edges_keys _ _ _ Hp) as (_ & ? & _). }
    destruct (tq_cyclic q) as [|t l] eqn:E; [done|].
    assert (t ∈ tq_cyclic q) as Ht by (rewrite E; by left).
    apply (oo_cyclic _ _ Hq) in Ht as [Hk Hno]. by apply Hall in Hk.
Qed.

(** The order covers the graph exactly when there is no cycle. *)
Lemma order_full_iff dag q :
  order_ok dag q ->
  (length (tq_order q) = length (nodeMap dag) <-> dag_acyclic dag).
Proof.
  intros Hq. rewrite <-(cyclic_iff _ _ Hq).
  assert (length (nodeMap dag) = length (map_keys (nodeMap dag))) as ->.
  { unfold map_keys. by rewrite length_map. }
  assert (tq_order q ⊆+ map_keys (nodeMap dag)) as Hsub.
  { apply NoDup_submseteq; [apply Hq|]. apply Hq. }
  split.
  - intros Hl. destruct (tq_cyclic q) as [|t l] eqn:E; [done|].
    assert (t ∈ tq_cyclic q) as Ht by (rewrite E; by left).
    apply (oo_cyclic _ _ Hq) in Ht as [Hk Hno]. exfalso. apply Hno.
    apply submseteq_length_Permutation in Hsub; [by rewrite Hsub|lia].
  - intros Hc. apply Permutation_length. apply NoDup_Permutation; [apply Hq|apply nodeMap_NoDup|].
    intros t. split; [apply Hq|]. intros Hk. destruct (decide (t ∈ tq_order q)); [done|].
    exfalso. apply (not_elem_of_nil t). rewrite <-Hc. by apply (oo_cyclic _ _ Hq).
Qed.
