(* ===== verification/TaskValid.v ===== *)
(** * What a valid task graph is

    The abstract specification of [validateTaskDag] and the lemmas that relate
    each group of diagnostics to it. *)

From S2P Require Import Prelude Writers TaskDag TaskOrder.

(** ** The specification *)

(** The task [t] lists [p] among its dependencies. *)
Definition requires (dag : TaskDag) (p t : string) : Prop :=
  exists n, n ∈ td_nodes dag /\ node_id n = t /\ p ∈ node_deps n.

Record dag_shape (dag : TaskDag) : Prop := {
  ds_nonempty : td_nodes dag <> [];
  ds_ids : NoDup (map node_id (td_nodes dag));
  ds_deps : forall n, n ∈ td_nodes dag ->
    NoDup (node_deps n) /\
    forall p, p ∈ node_deps n -> p <> node_id n /\ p ∈ map node_id (td_nodes dag)
}.

(** A well-formed graph without cycles, in which two tasks that write the same
    repository are ordered by their dependencies. *)
Record dag_valid (dag : TaskDag) : Prop := {
  dv_shape : dag_shape dag;
  dv_acyclic : forall t, ~ tc (requires dag) t t;
  dv_writes : forall n, n ∈ td_nodes dag -> NoDup (node_writes n);
  dv_ordered : forall m n r, m ∈ td_nodes dag -> n ∈ td_nodes dag -> node_id m <> node_id n ->
    r ∈ node_writes m -> r ∈ node_writes n ->
    tc (requires dag) (node_id m) (node_id n) \/ tc (requires dag) (node_id n) (node_id m)
}.

(** A task that succeeded and passed its three gates. *)
Record fully_settled (s : TaskPlanningState) : Prop := {
  fs_outcome : tp_outcome s = to_succeeded;
  fs_completion : tp_completionContract s = cg_passed;
  fs_integration : tp_integration s = ig_passed;
  fs_verification : tp_combinedVerification s = cg_passed
}.

Lemma settledState_iff s : settledState s = true <-> fully_settled s.
Proof.
  unfold settledState. rewrite !andb_true_iff, !bool_decide_eq_true. split.
  - by intros [[[? ?] ?] ?].
  - by intros [? ? ? ?].
Qed.

Definition task_settled (states : list TaskPlanningState) (t : string) : Prop :=
  exists s, map_get (stateMap states) t = Some s /\ fully_settled s.

(** One state per task, and a task only runs or succeeds after its
    dependencies settled. *)
Record states_valid (dag : TaskDag) (states : list TaskPlanningState) : Prop := {
  sv_unique : NoDup (map tp_taskId states);
  sv_tasks : forall t, t ∈ map tp_taskId states <-> t ∈ map node_id (td_nodes dag);
  sv_terminal : forall n s p, n ∈ td_nodes dag -> map_get (stateMap states) (node_id n) = Some s ->
    tp_outcome s = to_active \/ tp_outcome s = to_succeeded ->
    p ∈ node_deps n -> p ∈ map node_id (td_nodes dag) -> task_settled states p
}.

(** ** Shape *)

Lemma duplicateNodes_nil seen nodes :
  duplicateNodes seen nodes = [] <->
  NoDup (map node_id nodes) /\ forall n, n ∈ nodes -> node_id n ∉ seen.
Proof.
  revert seen. induction nodes as [|n nodes IH]; intros seen; simpl.
  - split; [intros _|done]. split; [constructor|by intros n ?%elem_of_nil].
  - rewrite app_nil, if_nil, set_has_false, IH, NoDup_cons. split.
    + intros (H1 & H2 & H3). split; [split; [|done]|].
      * intros (m & Hm & Hin)%list_elem_of_fmap. apply (H3 m Hin), elem_of_set_add.
        left. congruence.
      * intros m [->|Hm]%elem_of_cons; [done|]. intros Hin. apply (H3 m Hm), elem_of_set_add.
        by right.
    + intros ((H1 & H2) & H3). split_and!; [apply H3; by left|done|].
      intros m Hm [E|Hin]%elem_of_set_add; [|by apply (H3 m); [right|]].
      apply H1, list_elem_of_fmap. by exists m.
Qed.

Lemma dependencyDiagnostics_nil nodes t seen deps :
  dependencyDiagnostics nodes t seen deps = [] <->
  NoDup deps /\ (forall p, p ∈ deps -> p ∉ seen) /\
  forall p, p ∈ deps -> p <> t /\ p ∈ map_keys nodes.
Proof.
  revert seen. induction deps as [|p deps IH]; intros seen; simpl.
  - split; [intros _|done]. split_and!; [constructor|..]; by intros p ?%elem_of_nil.
  - rewrite !app_nil, if_nil, set_has_false, IH, NoDup_cons.
    assert ((if str_eqb p t
       then [ diagnostic "task-dag.self-dependency"
                ("Task " +:+ quoted t +:+ " depends on itself.") [t] ]
       else if negb (map_has nodes p)
       then [ diagnostic "task-dag.missing-node"
                ("Task " +:+ quoted t +:+ " depends on missing task " +:+
                 quoted p +:+ ".") [p; t] ]
       else []) = [] <-> p <> t /\ p ∈ map_keys nodes) as ->.
    { rewrite <-str_eqb_false, <-map_has_keys.
      destruct (str_eqb p t), (map_has nodes p); simpl; naive_solver. }
    setoid_rewrite elem_of_set_add. setoid_rewrite elem_of_cons.
    destruct (decide (p ∈ deps)); naive_solver.
Qed.

Lemma shape_diagnostics_nil dag :
  ((if (length (td_nodes dag) =? 0)%nat
    then [ diagnostic "task-dag.empty" "Task graph must contain at least one task." [] ]
    else []) = [] /\
   duplicateNodes [] (td_nodes dag) = [] /\
   flat_map (fun node => dependencyDiagnostics (nodeMap dag) (node_id node) [] (node_deps node))
     (td_nodes dag) = []) <-> dag_shape dag.
Proof.
  rewrite if_nil, duplicateNodes_nil, flat_map_nil.
  setoid_rewrite dependencyDiagnostics_nil. setoid_rewrite nodeMap_keys. split.
  - intros (H1 & [H2 _] & H3). split; [|done|].
    + intros E. by rewrite E in H1.
    + intros n Hn. destruct (H3 n Hn) as (? & _ & ?). done.
  - intros [H1 H2 H3]. split_and!; [|done|by intros n _ ?%elem_of_nil|].
    + by destruct (td_nodes dag).
    + intros n Hn. destruct (H3 n Hn). split_and!; try done. by intros p _ ?%elem_of_nil.
Qed.

(** ** Well-shaped graphs *)

Section Shaped.
Context (dag : TaskDag) (Hshape : dag_shape dag).

Lemma fold_addNode_fresh ns m :
  NoDup (map node_id ns) -> (forall n, n ∈ ns -> node_id n ∉ map_keys m) ->
  fold_left addNode ns m = m ++ map (fun n => (node_id n, n)) ns.
Proof.
  revert m. induction ns as [|n ns IH]; intros m Hnd Hm; simpl; [by rewrite app_nil_r|].
  simpl in Hnd. apply NoDup_cons in Hnd as [H1 H2].
  assert (node_id n ∉ map_keys m) as Hn by (apply Hm; by left).
  assert (addNode m n = m ++ [(node_id n, n)]) as ->.
  { unfold addNode. rewrite (proj2 (map_has_false _ _) Hn). by apply map_set_out. }
  rewrite IH; [by rewrite <-app_assoc|done|]. intros x Hx. unfold map_keys. rewrite map_app.
  intros [Hin|Ex%list_elem_of_singleton]%elem_of_app; [by apply (Hm x); [right|]|].
  apply H1. simpl in Ex. rewrite <-Ex. apply list_elem_of_fmap. by exists x.
Qed.

Lemma nodeMap_eq : nodeMap dag = map (fun n => (node_id n, n)) (td_nodes dag).
Proof.
  unfold nodeMap. rewrite fold_addNode_fresh; [done|apply Hshape|].
  intros n _. apply not_elem_of_nil.
Qed.

Lemma nodeMap_get n : n ∈ td_nodes dag -> map_get (nodeMap dag) (node_id n) = Some n.
Proof.
  intros Hn. apply elem_map_get; [apply nodeMap_NoDup|]. rewrite nodeMap_eq.
  apply list_elem_of_fmap. by exists n.
Qed.

Lemma nodeMap_values : map_values (nodeMap dag) = td_nodes dag.
Proof. rewrite nodeMap_eq. unfold map_values. rewrite map_map. apply map_id. Qed.

Lemma depends_requires p t : depends dag p t <-> requires dag p t.
Proof.
  unfold depends, dep_edges, dep_pairs, requires.
  rewrite list_elem_of_In, filter_In, in_flat_map. unfold counted_dep. simpl. split.
  - intros [(n & Hn & (q & [= <- <-] & Hq)%in_map_iff) _]. exists n.
    by rewrite !list_elem_of_In.
  - intros (n & Hn & <- & Hp). destruct (ds_deps _ Hshape n Hn) as [_ Hd].
    destruct (Hd p Hp) as [Hne Hin]. split.
    + exists n. rewrite <-list_elem_of_In. split; [done|]. apply in_map.
      by apply list_elem_of_In.
    + apply andb_true_intro. split.
      * by apply map_has_keys, nodeMap_keys.
      * by apply negb_true_iff, str_eqb_false.
Qed.

Lemma tc_ext {A} (R R' : relation A) x y :
  (forall a b, R a b <-> R' a b) -> tc R x y <-> tc R' x y.
Proof.
  intros H. split; induction 1 as [a b Hab|a b c Hab _ IH];
    try (by apply tc_once, H); eapply tc_l; [by apply H|done|by apply H|done].
Qed.

Lemma tc_depends_requires p t : tc (depends dag) p t <-> tc (requires dag) p t.
Proof. apply tc_ext, depends_requires. Qed.

Lemma dependenciesOf_elem t p : t ∈ map_keys (nodeMap dag) ->
  p ∈ dependenciesOf (nodeMap dag) t <-> requires dag p t.
Proof.
  intros Ht. apply nodeMap_keys, list_elem_of_fmap in Ht as (n & -> & Hn).
  unfold dependenciesOf. rewrite nodeMap_get by done. split.
  - intros Hp. by exists n.
  - intros (m & Hm & E & Hp). pose proof (nodeMap_get m Hm) as H1. rewrite E in H1.
    rewrite nodeMap_get in H1 by done. by simplify_eq.
Qed.
End Shaped.

(** ** Ancestors *)

Lemma elem_of_addAncestors ancestors deps values a :
  a ∈ fold_left (addAncestors ancestors) deps values <->
  a ∈ values \/ exists p, p ∈ deps /\ (a = p \/ a ∈ default [] (map_get ancestors p)).
Proof.
  revert values. induction deps as [|p deps IH]; intros values; simpl.
  - split; [by left|]. intros [?|(p & ?%elem_of_nil & _)]; done.
  - rewrite IH. unfold addAncestors at 1. rewrite elem_of_set_of_fold, elem_of_set_add.
    setoid_rewrite elem_of_cons. naive_solver.
Qed.

(** On an ordered graph, [computeAncestors] is the transitive closure. *)
Section Ancestors.
Context (dag : TaskDag) (q : TopologicalOrder).
Context (Hshape : dag_shape dag) (Hq : order_ok dag q).

Definition ancestors_ok (ancestors : list (string * list string)) (done : list string) : Prop :=
  forall t, t ∈ done -> exists l, map_get ancestors t = Some l /\
    forall a, a ∈ l <-> tc (requires dag) a t.

Lemma ancestors_step ancestors l1 t :
  ancestors_ok ancestors l1 -> t ∈ map_keys (nodeMap dag) ->
  (forall p, requires dag p t -> p ∈ l1) ->
  ancestors_ok
    (map_set ancestors t (fold_left (addAncestors ancestors) (dependenciesOf (nodeMap dag) t) []))
    (l1 ++ [t]).
Proof.
  intros Hok Ht Hp u Hu. rewrite map_get_set. destruct (str_eqb u t) eqn:E.
  - apply str_eqb_true in E as ->. eexists. split; [done|]. intros a.
    rewrite elem_of_addAncestors, elem_of_nil.
    setoid_rewrite dependenciesOf_elem; [|done|done]. split.
    + intros [[]|(p & Hpt & [->|Ha])]; [by apply tc_once|].
      destruct (Hok p (Hp p Hpt)) as (l & E & Hl). rewrite E in Ha. simpl in Ha.
      eapply tc_r; [by apply Hl|done].
    + intros Ha. right. apply tc_r_inv' in Ha as [Ha|(p & Ha & Hpt)].
      * exists a. auto.
      * exists p. split; [done|]. right. destruct (Hok p (Hp p Hpt)) as (l & E & Hl).
        rewrite E. by apply Hl.
  - apply str_eqb_false in E. apply elem_of_app in Hu as [Hu|Hu%list_elem_of_singleton]; [|done].
    by apply Hok.
Qed.

Lemma computeAncestors_ok :
  ancestors_ok (computeAncestors (tq_order q) (nodeMap dag)) (tq_order q).
Proof.
  unfold computeAncestors.
  assert (forall l2 l1 ancestors, tq_order q = l1 ++ l2 -> ancestors_ok ancestors l1 ->
    ancestors_ok (fold_left (fun ancestors taskId =>
      map_set ancestors taskId
        (fold_left (addAncestors ancestors) (dependenciesOf (nodeMap dag) taskId) []))
      l2 ancestors) (tq_order q)) as H.
  { induction l2 as [|t l2 IH]; intros l1 ancestors E Hok; simpl.
    - by rewrite E, app_nil_r.
    - apply (IH (l1 ++ [t])); [by rewrite <-app_assoc|].
      apply ancestors_step; [done| |].
      + apply (oo_in _ _ Hq). rewrite E. apply elem_of_app. right. by left.
      + intros p Hp. apply (oo_sorted _ _ Hq l1 t l2 p E). by apply depends_requires. }
  apply (H _ []); [done|]. by intros t ?%elem_of_nil.
Qed.

Lemma ancestorOf_spec a t :
  t ∈ tq_order q ->
  ancestorOf (computeAncestors (tq_order q) (nodeMap dag)) t a = true <-> tc (requires dag) a t.
Proof.
  intros Ht. destruct (computeAncestors_ok t Ht) as (l & E & Hl). unfold ancestorOf.
  by rewrite E, set_has_true.
Qed.
End Ancestors.

(** ** Writers *)

Lemma writersOf_groups nodes :
  groups (write_pairs node_id node_writes (map_values nodes)) (writersOf nodes).
Proof.
  assert (writersOf nodes =
    fold_left group_add (write_pairs node_id node_writes (map_values nodes)) []) as ->.
  { unfold writersOf, write_pairs. rewrite <-fold_left_flat_map.
    generalize (@nil (string * list string)) as w.
    induction (map_values nodes) as [|n ns IH]; intros w; simpl; [done|].
    by rewrite IH, fold_left_map. }
  apply group_all.
Qed.

Lemma writerConflicts_nil ancestors r l :
  writerConflicts ancestors r l = [] <-> all_pairs (ancestorOf ancestors) l.
Proof.
  induction l as [|x l IH]; simpl; [done|]. rewrite app_nil, flat_map_nil, IH.
  apply and_iff_compat_r. apply forall_proper. intros y.
  destruct (_ || _); naive_solver.
Qed.

(** ** Conflicting writes *)

Section Conflicts.
Context (dag : TaskDag) (q : TopologicalOrder).
Context (Hshape : dag_shape dag) (Hq : order_ok dag q) (Hac : dag_acyclic dag).

Lemma order_covers t : t ∈ tq_order q <-> t ∈ map_keys (nodeMap dag).
Proof.
  split; [apply Hq|]. intros Hk. destruct (decide (t ∈ tq_order q)) as [|Hno]; [done|].
  exfalso. apply (not_elem_of_nil t). rewrite <-(proj2 (cyclic_iff _ _ Hq) Hac).
  by apply (oo_cyclic _ _ Hq).
Qed.

Lemma ancestorOf_node a n :
  n ∈ td_nodes dag ->
  ancestorOf (computeAncestors (tq_order q) (nodeMap dag)) (node_id n) a = true <->
  tc (requires dag) a (node_id n).
Proof. intros Hn. apply ancestorOf_spec; [done|done|]. by apply order_covers, node_in_keys. Qed.

Lemma conflictDiagnostics_nil :
  conflictDiagnostics (tq_order q) (nodeMap dag) = [] <->
  (forall n, n ∈ td_nodes dag -> NoDup (node_writes n)) /\
  (forall m n r, m ∈ td_nodes dag -> n ∈ td_nodes dag -> node_id m <> node_id n ->
    r ∈ node_writes m -> r ∈ node_writes n ->
    tc (requires dag) (node_id m) (node_id n) \/ tc (requires dag) (node_id n) (node_id m)).
Proof.
  unfold conflictDiagnostics. rewrite flat_map_nil. setoid_rewrite elem_of_sort_key.
  setoid_rewrite writerConflicts_nil.
  pose proof (writersOf_groups (nodeMap dag)) as Hw. rewrite nodeMap_values in Hw by done.
  rewrite (writers_ordered node_id node_writes (td_nodes dag) _ _ (ds_ids _ Hshape) Hw).
  - apply and_iff_compat_l. split; intros H m n r Hm Hn Hne Hrm Hrn;
      destruct (H m n r Hm Hn Hne Hrm Hrn) as [Ha|Ha];
      [right|left|right|left]; by apply ancestorOf_node in Ha || apply ancestorOf_node.
  - intros n Hn. destruct (ancestorOf _ _ _) eqn:E; [|done]. exfalso.
    apply ancestorOf_node in E; [|done]. apply (Hac (node_id n)). by apply tc_depends_requires.
Qed.
End Conflicts.

(** ** Planning states *)

Lemma stateDiagnostics_nil nodes seen states :
  stateDiagnostics nodes seen states = [] <->
  NoDup (map tp_taskId states) /\ (forall s, s ∈ states -> tp_taskId s ∉ seen) /\
  (forall s, s ∈ states -> tp_taskId s ∈ map_keys nodes) /\
  (forall t, t ∈ map_keys nodes -> t ∈ seen \/ t ∈ map tp_taskId states).
Proof.
  revert seen. induction states as [|s states IH]; intros seen; simpl.
  - rewrite flat_map_nil. split.
    + intros H. split_and!; [constructor|by intros s ?%elem_of_nil..|].
      intros t Ht. left. apply H in Ht. apply set_has_true. by destruct (set_has seen t).
    + intros (_ & _ & _ & H) t Ht. destruct (H t Ht) as [Hs|?%elem_of_nil]; [|done].
      apply set_has_true in Hs. by rewrite Hs.
  - rewrite !app_nil, !if_nil, set_has_false, negb_false_iff, map_has_keys, IH, NoDup_cons.
    split.
    + intros (H1 & H2 & H3 & H4 & H5 & H6). split_and!; [|done|..].
      * intros (u & Hu & Hin)%list_elem_of_fmap. apply (H4 u Hin), elem_of_set_add.
        left. congruence.
      * intros u [->|Hu]%elem_of_cons; [done|]. intros Hin. apply (H4 u Hu), elem_of_set_add.
        by right.
      * intros u [->|Hu]%elem_of_cons; auto.
      * intros t Ht. rewrite elem_of_cons. destruct (H6 t Ht) as [[?|?]%elem_of_set_add|?]; auto.
    + intros ((H1 & H2) & H3 & H4 & H5). split_and!; [apply H3; by left|apply H4; by left|done|..].
      * intros u Hu [E|Hin]%elem_of_set_add; [|by apply (H3 u); [right|]].
        apply H1, list_elem_of_fmap. by exists u.
      * intros u Hu. apply H4. by right.
      * intros t Ht. rewrite elem_of_set_add.
        destruct (H5 t Ht) as [?|[?|?]%elem_of_cons]; auto.
Qed.

Lemma terminalDependencies_nil dag states :
  validateTerminalDependencies dag (nodeMap dag) states = [] <->
  forall n s p, n ∈ td_nodes dag -> map_get (stateMap states) (node_id n) = Some s ->
    tp_outcome s = to_active \/ tp_outcome s = to_succeeded ->
    p ∈ node_deps n -> p ∈ map node_id (td_nodes dag) -> task_settled states p.
Proof.
  unfold validateTerminalDependencies, task_settled. rewrite flat_map_nil. split.
  - intros H n s p Hn Hs Ho Hp Hk. specialize (H n Hn). rewrite Hs in H.
    assert (bool_decide (tp_outcome s = to_active) || bool_decide (tp_outcome s = to_succeeded)
      = true) as E.
    { apply orb_true_iff. rewrite !bool_decide_eq_true. done. }
    rewrite E, flat_map_nil in H. specialize (H p Hp).
    apply nodeMap_keys, map_has_keys in Hk. rewrite Hk in H. simpl in H.
    destruct (map_get (stateMap states) p) as [sp|]; [|done].
    exists sp. rewrite <- settledState_iff. by destruct (settledState sp).
  - intros H n Hn. destruct (map_get (stateMap states) (node_id n)) as [s|] eqn:Hs; [|done].
    case_match eqn:E; [|done]. apply orb_true_iff in E. rewrite !bool_decide_eq_true in E.
    apply flat_map_nil. intros p Hp. destruct (map_has (nodeMap dag) p) eqn:Hk; [|done].
    apply map_has_keys, nodeMap_keys in Hk. destruct (H n s p Hn Hs E Hp Hk) as (sp & -> & Hset).
    apply settledState_iff in Hset. simpl. by rewrite Hset.
Qed.

Lemma state_diagnostics_nil dag states :
  stateDiagnostics (nodeMap dag) [] states ++
    validateTerminalDependencies dag (nodeMap dag) states = [] <-> states_valid dag states.
Proof.
  rewrite app_nil, stateDiagnostics_nil, terminalDependencies_nil. split.
  - intros ((H1 & _ & H2 & H3) & H4). split; try done. intros t. split.
    + intros (s & -> & Hs)%list_elem_of_fmap. by apply nodeMap_keys, H2.
    + intros Ht. apply nodeMap_keys in Ht. by destruct (H3 t Ht) as [?%elem_of_nil|?].
  - intros [H1 H2 H3]. split_and!; try done.
    + intros s _. apply not_elem_of_nil.
    + intros s Hs. apply nodeMap_keys, H2, list_elem_of_fmap. by exists s.
    + intros t Ht. right. by apply H2, nodeMap_keys.
Qed.

(** ** All diagnostics together *)

Definition states_ok (dag : TaskDag) (states : option (list TaskPlanningState)) : Prop :=
  match states with None => True | Some ss => states_valid dag ss end.

Lemma dag_acyclic_requires dag :
  dag_shape dag -> dag_acyclic dag <-> forall t, ~ tc (requires dag) t t.
Proof. intros Hs. unfold dag_acyclic. by setoid_rewrite (tc_depends_requires dag Hs). Qed.

Lemma dagDiagnostics_nil dag states q :
  order_ok dag q ->
  dagDiagnostics dag states q = [] <-> dag_valid dag /\ states_ok dag states.
Proof.
  intros Hq. unfold dagDiagnostics. rewrite !app_nil.
  assert (match states with
    | None => []
    | Some ss => stateDiagnostics (nodeMap dag) [] ss ++
        validateTerminalDependencies dag (nodeMap dag) ss
    end = [] <-> states_ok dag states) as ->.
  { destruct states as [ss|]; [apply state_diagnostics_nil|done]. }
  pose proof (shape_diagnostics_nil dag) as Hsh.
  assert (cycleDiagnostics (tq_cyclic q) = [] <-> dag_acyclic dag) as ->.
  { rewrite <-(cyclic_iff _ _ Hq). by destruct (tq_cyclic q). }
  split.
  - intros (H1 & H2 & H3 & H4 & H5 & H6). split; [|done].
    assert (dag_shape dag) as Hs by (by apply Hsh).
    rewrite (proj2 (Nat.eqb_eq _ _) (proj2 (order_full_iff _ _ Hq) H4)) in H5.
    apply (conflictDiagnostics_nil dag q Hs Hq H4) in H5 as [H5 H7].
    split; try done. by apply dag_acyclic_requires.
  - intros [[H1 H2 H3 H4] H5]. apply Hsh in H1 as H6. destruct H6 as (H6 & H7 & H8).
    apply dag_acyclic_requires in H2; [|done]. split_and!; try done.
    rewrite (proj2 (Nat.eqb_eq _ _) (proj2 (order_full_iff _ _ Hq) H2)).
    by apply (conflictDiagnostics_nil dag q H1 Hq H2).
Qed.
