(* ===== verification/TaskWave.v ===== *)
(** * Wave planning

    [packages/pipeline/src/task-graph/plan.ts]: from one immutable snapshot,
    the tasks that may start now and, for every other task, why it may not. *)

From S2P Require Import Prelude TaskDag.

(** ** The snapshot *)

Record ProfileCapacity := { pcap_profileId : string; pcap_available : bool }.

Record AccountCapacity := {
  acap_accountId : string;
  acap_activeRuns : Z;
  acap_maxConcurrentRuns : Z
}.

Record WriterLease := {
  wl_repositoryId : string;
  wl_available : bool;
  wl_holderTaskId : option string
}.

Record TaskWavePlanningSnapshot := {
  ws_dag : TaskDag;
  ws_waveOrdinal : Z;
  ws_unresolvedGraphRevision : bool;
  ws_tasks : list TaskPlanningState;
  ws_profiles : list ProfileCapacity;
  ws_accounts : list AccountCapacity;
  ws_writerLeases : list WriterLease;
  ws_activeWorkers : Z;
  ws_maxConcurrentWorkers : Z;
  ws_recordedAt : string
}.

(** ** Reasons *)

Inductive TaskWaveBlockingCode :=
| graph_invalid | task_not_pending | graph_revision_pending | predecessor_pending
| predecessor_failed | predecessor_cancelled | predecessor_blocked
| completion_contract_pending | completion_contract_failed | integration_pending
| integration_reconciliation_required | combined_verification_pending
| combined_verification_failed | writer_lease_unavailable | profile_unavailable
| account_capacity_unknown | account_capacity_exhausted | run_concurrency_exhausted.

Definition blocking_code_text (c : TaskWaveBlockingCode) : string :=
  match c with
  | graph_invalid => "graph_invalid"
  | task_not_pending => "task_not_pending"
  | graph_revision_pending => "graph_revision_pending"
  | predecessor_pending => "predecessor_pending"
  | predecessor_failed => "predecessor_failed"
  | predecessor_cancelled => "predecessor_cancelled"
  | predecessor_blocked => "predecessor_blocked"
  | completion_contract_pending => "completion_contract_pending"
  | completion_contract_failed => "completion_contract_failed"
  | integration_pending => "integration_pending"
  | integration_reconciliation_required => "integration_reconciliation_required"
  | combined_verification_pending => "combined_verification_pending"
  | combined_verification_failed => "combined_verification_failed"
  | writer_lease_unavailable => "writer_lease_unavailable"
  | profile_unavailable => "profile_unavailable"
  | account_capacity_unknown => "account_capacity_unknown"
  | account_capacity_exhausted => "account_capacity_exhausted"
  | run_concurrency_exhausted => "run_concurrency_exhausted"
  end.

Record Reason := {
  re_code : TaskWaveBlockingCode;
  re_sourceTaskId : option string;
  re_repositoryId : option string;
  re_profileId : option string;
  re_accountId : option string
}.

Definition reason (code : TaskWaveBlockingCode) : Reason :=
  {| re_code := code; re_sourceTaskId := None; re_repositoryId := None;
     re_profileId := None; re_accountId := None |}.

Definition reason_source (code : TaskWaveBlockingCode) (taskId : string) : Reason :=
  {| re_code := code; re_sourceTaskId := Some taskId; re_repositoryId := None;
     re_profileId := None; re_accountId := None |}.

Definition reason_repository (code : TaskWaveBlockingCode) (repositoryId : string) : Reason :=
  {| re_code := code; re_sourceTaskId := None; re_repositoryId := Some repositoryId;
     re_profileId := None; re_accountId := None |}.

Definition reason_profile (code : TaskWaveBlockingCode) (profileId : string) : Reason :=
  {| re_code := code; re_sourceTaskId := None; re_repositoryId := None;
     re_profileId := Some profileId; re_accountId := None |}.

Definition reason_account (code : TaskWaveBlockingCode) (accountId : string) : Reason :=
  {| re_code := code; re_sourceTaskId := None; re_repositoryId := None;
     re_profileId := None; re_accountId := Some accountId |}.

Definition reasonKey (value : Reason) : string :=
  js_join nul
    [ blocking_code_text (re_code value); default "" (re_sourceTaskId value);
      default "" (re_repositoryId value); default "" (re_profileId value);
      default "" (re_accountId value) ].

Definition canonicalReasons (values : list Reason) : list Reason :=
  sort_key reasonKey (map_values (map_of (map (fun value => (reasonKey value, value)) values))).

(** [terminalReasons]; the recursion follows dependencies and [fuel] bounds its
    depth, [None] a run that exceeds it. *)
Fixpoint terminalReasons (fuel : nat) (nodes : list (string * TaskDagNode))
    (states : list (string * TaskPlanningState)) (visiting : list string) (taskId : string)
    : option (list Reason) :=
  match fuel with
  | O => None
  | S fuel' =>
      if set_has visiting taskId then Some []
      else
        let recurse := terminalReasons fuel' nodes states (set_add visiting taskId) in
        let one predecessorId :=
          match map_get states predecessorId with
          | None => Some []
          | Some predecessor =>
              match tp_outcome predecessor with
              | to_failed => Some [reason_source predecessor_failed predecessorId]
              | to_cancelled => Some [reason_source predecessor_cancelled predecessorId]
              | to_blocked =>
                  match recurse predecessorId with
                  | None => None
                  | Some [] => Some [reason_source predecessor_blocked predecessorId]
                  | Some inherited => Some inherited
                  end
              | to_not_started => recurse predecessorId
              | to_active | to_succeeded => Some []
              end
          end in
        match list.mapM one (dependenciesOf nodes taskId) with
        | None => None
        | Some values => Some (canonicalReasons (concat values))
        end
  end.

(** The visited tasks are distinct tasks of the graph. *)
Definition reasonFuel (nodes : list (string * TaskDagNode)) : nat := S (length nodes).

(** What is still missing of one dependency. *)
Definition predecessorReasons (states : list (string * TaskPlanningState))
    (predecessorId : string) : list Reason :=
  match map_get states predecessorId with
  | None => [reason_source predecessor_pending predecessorId]
  | Some predecessor =>
      if negb (bool_decide (tp_outcome predecessor = to_succeeded))
      then [reason_source predecessor_pending predecessorId]
      else
        (if bool_decide (tp_completionContract predecessor = cg_passed) then []
         else [reason_source
                 (if bool_decide (tp_completionContract predecessor = cg_failed)
                  then completion_contract_failed else completion_contract_pending)
                 predecessorId]) ++
        (if bool_decide (tp_integration predecessor = ig_passed) then []
         else [reason_source
                 (if bool_decide (tp_integration predecessor = ig_reconciliation_required)
                  then integration_reconciliation_required else integration_pending)
                 predecessorId]) ++
        (if bool_decide (tp_combinedVerification predecessor = cg_passed) then []
         else [reason_source
                 (if bool_decide (tp_combinedVerification predecessor = cg_failed)
                  then combined_verification_failed else combined_verification_pending)
                 predecessorId])
  end.

Definition dependencyReasons (node : TaskDagNode) (nodes : list (string * TaskDagNode))
    (states : list (string * TaskPlanningState)) : option (list Reason) :=
  match terminalReasons (reasonFuel nodes) nodes states [] (node_id node) with
  | None => None
  | Some [] =>
      Some (canonicalReasons
              (flat_map (predecessorReasons states) (sort_strings (node_deps node))))
  | Some terminal => Some terminal
  end.

(** ** The plan *)

Inductive TaskClassification := tc_selected | tc_deferred | tc_settled | tc_invalid.

#[export] Instance TaskClassification_eq_dec : EqDecision TaskClassification.
Proof. solve_decision. Defined.

Record TaskEligibilityDecision := {
  ed_taskId : string;
  ed_classification : TaskClassification;
  ed_blockingReasons : list Reason
}.

Record TaskWavePlan := {
  wp_graphId : string;
  wp_graphRevision : Z;
  wp_waveOrdinal : Z;
  wp_validation : TaskDagValidationResult;
  wp_selectedTaskIds : list string;
  wp_decisions : list TaskEligibilityDecision;
  wp_plannedAt : string
}.

Fixpoint duplicateResourceIds (kind : string) (seen ids : list string)
    : list TaskDagDiagnostic :=
  match ids with
  | [] => []
  | id :: rest =>
      (if set_has seen id
       then [ {| dg_code := "task-wave.duplicate-" +:+ kind +:+ "-observation";
                 dg_message := "Wave snapshot contains more than one " +:+ kind +:+
                               " observation for " +:+ quoted id +:+ ".";
                 dg_taskIds := [] |} ]
       else []) ++ duplicateResourceIds kind (set_add seen id) rest
  end.

Definition resourceDiagnostics (snapshot : TaskWavePlanningSnapshot) : list TaskDagDiagnostic :=
  sort_key dg_code
    (duplicateResourceIds "profile" [] (map pcap_profileId (ws_profiles snapshot)) ++
     duplicateResourceIds "account" [] (map acap_accountId (ws_accounts snapshot)) ++
     duplicateResourceIds "writer-lease" [] (map wl_repositoryId (ws_writerLeases snapshot))).

Definition planValidation (snapshot : TaskWavePlanningSnapshot)
    (base : TaskDagValidationResult) : TaskDagValidationResult :=
  let resources := resourceDiagnostics snapshot in
  let clean := (length resources =? 0)%nat in
  {| tv_graphId := tv_graphId base;
     tv_graphRevision := tv_graphRevision base;
     tv_valid := tv_valid base && clean;
     tv_topologicalOrder := if clean then tv_topologicalOrder base else [];
     tv_diagnostics := tv_diagnostics base ++ resources |}.

(** The maps a plan reads. *)
Record WaveMaps := {
  wm_nodes : list (string * TaskDagNode);
  wm_states : list (string * TaskPlanningState);
  wm_profiles : list (string * ProfileCapacity);
  wm_accounts : list (string * AccountCapacity);
  wm_leases : list (string * WriterLease)
}.

Definition waveMaps (snapshot : TaskWavePlanningSnapshot) : WaveMaps :=
  {| wm_nodes := map_of (map (fun n => (node_id n, n)) (td_nodes (ws_dag snapshot)));
     wm_states := stateMap (ws_tasks snapshot);
     wm_profiles := map_of (map (fun p => (pcap_profileId p, p)) (ws_profiles snapshot));
     wm_accounts := map_of (map (fun a => (acap_accountId a, a)) (ws_accounts snapshot));
     wm_leases := map_of (map (fun l => (wl_repositoryId l, l)) (ws_writerLeases snapshot)) |}.

(** The mutable part of the loop. *)
Record WaveState := {
  wv_accountRemaining : list (string * Z);
  wv_workerSlots : Z;
  wv_decisions : list TaskEligibilityDecision;
  wv_selected : list string
}.

Definition initialWave (snapshot : TaskWavePlanningSnapshot) : WaveState :=
  {| wv_accountRemaining :=
       map_of (map (fun a => (acap_accountId a,
                              Z.max 0 (acap_maxConcurrentRuns a - acap_activeRuns a)))
                 (ws_accounts snapshot));
     wv_workerSlots := Z.max 0 (ws_maxConcurrentWorkers snapshot - ws_activeWorkers snapshot);
     wv_decisions := [];
     wv_selected := [] |}.

Definition decide_task (s : WaveState) (taskId : string) (classification : TaskClassification)
    (reasons : list Reason) : WaveState :=
  {| wv_accountRemaining := wv_accountRemaining s;
     wv_workerSlots := wv_workerSlots s;
     wv_decisions := wv_decisions s ++
       [ {| ed_taskId := taskId; ed_classification := classification;
            ed_blockingReasons := reasons |} ];
     wv_selected := wv_selected s |}.

(** The task takes a worker slot and a run of its account. *)
Definition select_task (s : WaveState) (taskId : string) (node : TaskDagNode) : WaveState :=
  {| wv_accountRemaining :=
       match tn_accountId node with
       | None => wv_accountRemaining s
       | Some accountId =>
           map_set (wv_accountRemaining s) accountId
             (default 0 (map_get (wv_accountRemaining s) accountId) - 1)%Z
       end;
     wv_workerSlots := (wv_workerSlots s - 1)%Z;
     wv_decisions := wv_decisions s ++
       [ {| ed_taskId := taskId; ed_classification := tc_selected; ed_blockingReasons := [] |} ];
     wv_selected := wv_selected s ++ [taskId] |}.

(** Why [node] may not start now. *)
Definition taskBlockers (snapshot : TaskWavePlanningSnapshot) (maps : WaveMaps) (s : WaveState)
    (node : TaskDagNode) : option (list Reason) :=
  match dependencyReasons node (wm_nodes maps) (wm_states maps) with
  | None => None
  | Some dependencies =>
      Some ((if ws_unresolvedGraphRevision snapshot then [reason graph_revision_pending] else []) ++
            dependencies ++
            (match map_get (wm_profiles maps) (tn_profileId node) with
             | Some profile =>
                 if pcap_available profile then []
                 else [reason_profile profile_unavailable (tn_profileId node)]
             | None => [reason_profile profile_unavailable (tn_profileId node)]
             end) ++
            flat_map (fun repositoryId =>
                match map_get (wm_leases maps) repositoryId with
                | Some lease =>
                    if wl_available lease then []
                    else [reason_repository writer_lease_unavailable repositoryId]
                | None => [reason_repository writer_lease_unavailable repositoryId]
                end)
              (sort_strings (node_writes node)) ++
            (match tn_accountId node with
             | None => []
             | Some accountId =>
                 match map_get (wm_accounts maps) accountId with
                 | None => [reason_account account_capacity_unknown accountId]
                 | Some _ =>
                     if (default 0 (map_get (wv_accountRemaining s) accountId) <=? 0)%Z
                     then [reason_account account_capacity_exhausted accountId] else []
                 end
             end) ++
            (if (wv_workerSlots s <=? 0)%Z then [reason run_concurrency_exhausted] else []))
  end.

(** One iteration of the loop over the order. *)
Definition planTask (snapshot : TaskWavePlanningSnapshot) (maps : WaveMaps) (valid : bool)
    (s : WaveState) (taskId : string) : option WaveState :=
  match map_get (wm_nodes maps) taskId with
  | None => Some s
  | Some node =>
      if negb valid then Some (decide_task s taskId tc_invalid [reason graph_invalid])
      else
        match map_get (wm_states maps) taskId with
        | Some state =>
            if bool_decide (tp_outcome state = to_not_started) then
              match taskBlockers snapshot maps s node with
              | None => None
              | Some blockers =>
                  match canonicalReasons blockers with
                  | [] => Some (select_task s taskId node)
                  | canonical => Some (decide_task s taskId tc_deferred canonical)
                  end
              end
            else Some (decide_task s taskId tc_settled [reason_source task_not_pending taskId])
        | None => Some (decide_task s taskId tc_settled [reason_source task_not_pending taskId])
        end
  end.

Fixpoint planTasks (snapshot : TaskWavePlanningSnapshot) (maps : WaveMaps) (valid : bool)
    (s : WaveState) (order : list string) : option WaveState :=
  match order with
  | [] => Some s
  | taskId :: rest =>
      match planTask snapshot maps valid s taskId with
      | None => None
      | Some s' => planTasks snapshot maps valid s' rest
      end
  end.

Definition planTaskWave (snapshot : TaskWavePlanningSnapshot) : option TaskWavePlan :=
  match validateTaskDag (ws_dag snapshot) (Some (ws_tasks snapshot)) with
  | None => None
  | Some base =>
      let validation := planValidation snapshot base in
      let maps := waveMaps snapshot in
      let order :=
        if tv_valid validation then tv_topologicalOrder validation
        else sort_strings (map_keys (wm_nodes maps)) in
      match planTasks snapshot maps (tv_valid validation) (initialWave snapshot) order with
      | None => None
      | Some s =>
          Some {| wp_graphId := td_graphId (ws_dag snapshot);
                  wp_graphRevision := td_graphRevision (ws_dag snapshot);
                  wp_waveOrdinal := ws_waveOrdinal snapshot;
                  wp_validation := validation;
                  wp_selectedTaskIds := wv_selected s;
                  wp_decisions := wv_decisions s;
                  wp_plannedAt := ws_recordedAt snapshot |}
      end
  end.
