(* ===== verification/TaskProps.v ===== *)
(** * Task graphs and waves: the claims

    [validateTaskDag] decides its specification and returns a dependency order;
    [planTaskWave] selects only tasks that may start together, reports on every
    task, leaves no capacity unused, and always makes progress. *)

From S2P Require Import Prelude Writers TaskDag TaskOrder TaskValid TaskWave.

(** ** The steps of wave planning

    Reasons come back, blockers say what they mean, and the planning loop keeps
    its capacity accounts. *)

(** ** Reasons *)

Lemma canonicalReasons_elem r l : r ∈ canonicalReasons l -> r ∈ l.
Proof.
  unfold canonicalReasons. rewrite elem_of_sort_key. intros (k & Hk)%elem_of_map_values.
  apply elem_map_get in Hk; [|apply map_of_NoDup]. apply map_of_get_elem in Hk.
  apply list_elem_of_fmap in Hk as (v & [= _ ->] & Hv). done.
Qed.

Lemma canonicalReasons_nil l : canonicalReasons l = [] <-> l = [].
Proof.
  split; [|by intros ->]. intros H. destruct l as [|r l]; [done|]. exfalso.
  unfold canonicalReasons in H. set (entries := map (fun v => (reasonKey v, v)) (r :: l)) in H.
  assert (reasonKey r ∈ map_keys (map_of entries)) as Hin.
  { apply elem_of_map_of. left. }
  apply map_get_keys in Hin as [v Hv]. apply map_get_elem in Hv.
  apply (not_elem_of_nil v). rewrite <-H. apply elem_of_sort_key, list_elem_of_fmap.
  by exists (reasonKey r, v).
Qed.

Lemma dependenciesOf_absent nodes t : t ∉ map_keys nodes -> dependenciesOf nodes t = [].
Proof. intros H. unfold dependenciesOf. apply map_get_None in H. by rewrite H. Qed.

(** The recursion over blocked and waiting predecessors comes back. *)
Lemma terminalReasons_total nodes states fuel visiting t :
  NoDup visiting -> (forall v, v ∈ visiting -> v ∈ map_keys nodes) ->
  (length nodes < length visiting + fuel)%nat ->
  is_Some (terminalReasons fuel nodes states visiting t).
Proof.
  revert visiting t. induction fuel as [|fuel IH]; intros visiting t Hnd Hsub Hf.
  - exfalso. assert (length visiting <= length (map_keys nodes))%nat as Hle.
    { apply submseteq_length, NoDup_submseteq; [done|exact Hsub]. }
    unfold map_keys in Hle. rewrite length_map in Hle. lia.
  - cbn [terminalReasons]. destruct (set_has visiting t) eqn:Hv; [by eexists|].
    destruct (decide (t ∈ map_keys nodes)) as [Ht|Ht].
    2:{ rewrite dependenciesOf_absent by done. by eexists. }
    assert (forall p, is_Some (terminalReasons fuel nodes states (set_add visiting t) p)) as Hrec.
    { intros p. apply set_has_false in Hv. apply IH.
      - by apply set_add_NoDup.
      - intros v [->|?]%elem_of_set_add; auto.
      - unfold set_add. rewrite (proj2 (set_has_false _ _) Hv), length_app. simpl. lia. }
    match goal with |- is_Some (match list.mapM ?f ?l with _ => _ end) =>
      assert (is_Some (list.mapM f l)) as [values ->]; [|by eexists] end.
    apply mapM_is_Some, Forall_forall. intros p _. simpl.
    destruct (Hrec p) as [rs Hrs]. rewrite Hrs.
    by repeat case_match; eexists.
Qed.

(** With every dependency succeeded there is nothing to inherit. *)
Lemma terminalReasons_succeeded nodes states fuel t :
  (forall p, p ∈ dependenciesOf nodes t ->
     exists s, map_get states p = Some s /\ tp_outcome s = to_succeeded) ->
  terminalReasons (S fuel) nodes states [] t = Some [].
Proof.
  intros H. cbn [terminalReasons].
  match goal with |- (if ?b then _ else _) = _ => replace b with false by done end.
  match goal with |- match list.mapM ?f ?l with _ => _ end = _ =>
    assert (list.mapM f l = Some (map (fun _ => []) l)) as -> end.
  - apply mapM_Some. induction (dependenciesOf nodes t) as [|p deps IH]; simpl; constructor.
    + destruct (H p) as (s & -> & ->); [by left|done].
    + apply IH. intros q Hq. apply H. by right.
  - f_equal. apply canonicalReasons_nil.
    induction (dependenciesOf nodes t) as [|p deps IH]; simpl; [done|].
    apply IH. intros q Hq. apply H. by right.
Qed.

Lemma predecessorReasons_nil states p :
  predecessorReasons states p = [] <->
  exists s, map_get states p = Some s /\ fully_settled s.
Proof.
  setoid_rewrite <- settledState_iff.
  unfold predecessorReasons, settledState. destruct (map_get states p) as [s|].
  2:{ split; [done|]. by intros (? & ? & _). }
  split.
  - intros H. exists s. split; [done|].
    repeat case_bool_decide; simpl in H; try done.
  - intros (s' & [= <-] & H). repeat case_bool_decide; done.
Qed.

Lemma dependencyReasons_total node nodes states :
  is_Some (dependencyReasons node nodes states).
Proof.
  unfold dependencyReasons.
  destruct (terminalReasons_total nodes states (reasonFuel nodes) [] (node_id node)) as [rs ->].
  - constructor.
  - by intros v ?%elem_of_nil.
  - unfold reasonFuel. simpl. lia.
  - destruct rs; by eexists.
Qed.

(** No reason against the dependencies: all of them settled and verified. *)
Lemma dependencyReasons_settled node nodes states :
  dependencyReasons node nodes states = Some [] ->
  forall p, p ∈ node_deps node -> exists s, map_get states p = Some s /\ fully_settled s.
Proof.
  unfold dependencyReasons. destruct (terminalReasons _ _ _ _ _) as [[|r rs]|]; try done.
  intros [= H] p Hp. rewrite canonicalReasons_nil, flat_map_nil in H.
  apply predecessorReasons_nil, H. by apply elem_of_sort_strings.
Qed.

Lemma dependencyReasons_clear node nodes states :
  map_get nodes (node_id node) = Some node ->
  (forall p, p ∈ node_deps node -> exists s, map_get states p = Some s /\ fully_settled s) ->
  dependencyReasons node nodes states = Some [].
Proof.
  intros Hn H. unfold dependencyReasons, reasonFuel. rewrite terminalReasons_succeeded.
  - f_equal. apply canonicalReasons_nil, flat_map_nil. intros p Hp.
    rewrite elem_of_sort_strings in Hp. by apply predecessorReasons_nil, H.
  - unfold dependenciesOf. rewrite Hn. intros p Hp. destruct (H p Hp) as (s & Hs & Hset).
    exists s. split; [done|]. by apply fs_outcome.
Qed.

(** ** Blockers *)

(** What the snapshot itself must grant a task, capacity apart. *)
Record granted (snapshot : TaskWavePlanningSnapshot) (node : TaskDagNode) : Prop := {
  gr_revision : ws_unresolvedGraphRevision snapshot = false;
  gr_deps : forall p, p ∈ node_deps node -> task_settled (ws_tasks snapshot) p;
  gr_profile : exists profile,
    map_get (wm_profiles (waveMaps snapshot)) (tn_profileId node) = Some profile /\
    pcap_available profile = true;
  gr_leases : forall r, r ∈ node_writes node -> exists lease,
    map_get (wm_leases (waveMaps snapshot)) r = Some lease /\ wl_available lease = true;
  gr_account : forall a, tn_accountId node = Some a ->
    is_Some (map_get (wm_accounts (waveMaps snapshot)) a)
}.

(** A run of the task's account is left. *)
Definition account_free (s : WaveState) (node : TaskDagNode) : Prop :=
  forall a, tn_accountId node = Some a -> (0 < default 0%Z (map_get (wv_accountRemaining s) a))%Z.

Lemma taskBlockers_total snapshot maps s node : is_Some (taskBlockers snapshot maps s node).
Proof.
  unfold taskBlockers.
  by destruct (dependencyReasons_total node (wm_nodes maps) (wm_states maps)) as [rs ->]; eexists.
Qed.

Lemma taskBlockers_nil snapshot s node :
  taskBlockers snapshot (waveMaps snapshot) s node = Some [] ->
  granted snapshot node /\ account_free s node /\ (0 < wv_workerSlots s)%Z.
Proof.
  unfold taskBlockers. destruct (dependencyReasons _ _ _) as [deps|] eqn:Hdeps; [|done].
  intros [= H]. rewrite !app_nil in H. destruct H as (H1 & -> & H3 & H4 & H5 & H6).
  split_and!.
  - split.
    + by destruct (ws_unresolvedGraphRevision snapshot).
    + intros p Hp. by apply (dependencyReasons_settled _ _ _ Hdeps).
    + destruct (map_get _ _) as [profile|]; [|done]. exists profile.
      by destruct (pcap_available profile).
    + intros r Hr. rewrite flat_map_nil in H4. specialize (H4 r).
      rewrite elem_of_sort_strings in H4. specialize (H4 Hr).
      destruct (map_get _ r) as [lease|]; [|done]. exists lease. by destruct (wl_available lease).
    + intros a Ha. rewrite Ha in H5. simpl.
      destruct (map_get (map_of _) a); [by eexists|done].
  - intros a Ha. rewrite Ha in H5. destruct (map_get (map_of _) a); [|done].
    destruct (Z.leb_spec (default 0%Z (map_get (wv_accountRemaining s) a)) 0); [done|lia].
  - destruct (Z.leb_spec (wv_workerSlots s) 0); [done|lia].
Qed.

(** Granted and with capacity left, nothing blocks. *)
Lemma taskBlockers_clear snapshot s node :
  map_get (wm_nodes (waveMaps snapshot)) (node_id node) = Some node ->
  granted snapshot node -> account_free s node -> (0 < wv_workerSlots s)%Z ->
  taskBlockers snapshot (waveMaps snapshot) s node = Some [].
Proof.
  intros Hn [H1 H2 H3 H4 H5] Hacc Hslots. unfold taskBlockers.
  rewrite dependencyReasons_clear by done. rewrite H1.
  destruct H3 as (profile & -> & ->). f_equal. simpl.
  assert (flat_map (fun repositoryId =>
      match map_get (wm_leases (waveMaps snapshot)) repositoryId with
      | Some lease => if wl_available lease then []
          else [reason_repository writer_lease_unavailable repositoryId]
      | None => [reason_repository writer_lease_unavailable repositoryId]
      end) (sort_strings (node_writes node)) = []) as Hl.
  { apply flat_map_nil. intros r. rewrite elem_of_sort_strings. intros Hr.
    by destruct (H4 r Hr) as (lease & -> & ->). }
  simpl in Hl. rewrite Hl. simpl.
  destruct (Z.leb_spec (wv_workerSlots s) 0); [lia|]. rewrite app_nil_r.
  destruct (tn_accountId node) as [a|] eqn:Ha; [|done].
  destruct (H5 a eq_refl) as [cap Hcap]. simpl in Hcap. rewrite Hcap.
  specialize (Hacc a Ha).
  by destruct (Z.leb_spec (default 0%Z (map_get (wv_accountRemaining s) a)) 0); [lia|].
Qed.

(** ** The loop on a valid graph *)

Lemma map_of_get {A} (entries : list (string * A)) k v :
  NoDup (map fst entries) -> (k, v) ∈ entries -> map_get (map_of entries) k = Some v.
Proof.
  intros Hnd Hin. assert (k ∈ map_keys (map_of entries)) as Hk.
  { apply elem_of_map_of, list_elem_of_fmap. by exists (k, v). }
  apply map_get_keys in Hk as [w Hw]. rewrite Hw. apply map_of_get_elem in Hw.
  assert (map_get entries k = Some v) as E1 by (by apply elem_map_get).
  assert (map_get entries k = Some w) as E2 by (by apply elem_map_get). congruence.
Qed.

Lemma wm_nodes_get snapshot n :
  NoDup (map node_id (td_nodes (ws_dag snapshot))) -> n ∈ td_nodes (ws_dag snapshot) ->
  map_get (wm_nodes (waveMaps snapshot)) (node_id n) = Some n.
Proof.
  intros Hnd Hn. apply map_of_get.
  - by rewrite map_map.
  - apply list_elem_of_fmap. by exists n.
Qed.

Lemma wm_nodes_elem snapshot t n :
  map_get (wm_nodes (waveMaps snapshot)) t = Some n ->
  n ∈ td_nodes (ws_dag snapshot) /\ node_id n = t.
Proof.
  intros H. apply map_of_get_elem in H. by apply list_elem_of_fmap in H as (m & [= -> ->] & ?).
Qed.

(** The task may start as far as the snapshot goes. *)
Definition startable (snapshot : TaskWavePlanningSnapshot) (t : string) : Prop :=
  exists n s, n ∈ td_nodes (ws_dag snapshot) /\ node_id n = t /\
    map_get (stateMap (ws_tasks snapshot)) t = Some s /\ tp_outcome s = to_not_started /\
    granted snapshot n.

(** The account of a task. *)
Definition accountOf (snapshot : TaskWavePlanningSnapshot) (t : string) : option string :=
  match map_get (wm_nodes (waveMaps snapshot)) t with
  | Some node => tn_accountId node
  | None => None
  end.

(** The selected tasks that run on the account [a]. *)
Definition on_account (snapshot : TaskWavePlanningSnapshot) (a : string) (selected : list string)
    : nat :=
  cnt (fun t => bool_decide (accountOf snapshot t = Some a)) selected.

(** The runs the account [a] still has in a state of the loop. *)
Definition remaining (s : WaveState) (a : string) : Z :=
  default 0%Z (map_get (wv_accountRemaining s) a).

(** No capacity is left for the task. *)
Definition exhausted (snapshot : TaskWavePlanningSnapshot) (s : WaveState) (t : string) : Prop :=
  (wv_workerSlots s <= 0)%Z \/ exists a, accountOf snapshot t = Some a /\ (remaining s a <= 0)%Z.

Record wave_ok (snapshot : TaskWavePlanningSnapshot) (done : list string) (s : WaveState)
    : Prop := {
  wo_selected : forall t, t ∈ wv_selected s -> t ∈ done /\ startable snapshot t;
  wo_NoDup : NoDup (wv_selected s);
  wo_slots : (wv_workerSlots s =
    wv_workerSlots (initialWave snapshot) - Z.of_nat (length (wv_selected s)))%Z;
  wo_slots_pos : (0 <= wv_workerSlots s)%Z;
  wo_account : forall a, (remaining s a =
    remaining (initialWave snapshot) a - Z.of_nat (on_account snapshot a (wv_selected s)))%Z;
  wo_account_pos : forall a, (0 <= remaining s a)%Z;
  wo_decisions : map ed_taskId (wv_decisions s) = done;
  wo_trace : forall d, d ∈ wv_decisions s ->
    (ed_classification d = tc_selected <-> ed_taskId d ∈ wv_selected s) /\
    (ed_blockingReasons d = [] <-> ed_classification d = tc_selected);
  wo_conserve : forall t, t ∈ done -> startable snapshot t ->
    t ∈ wv_selected s \/ exhausted snapshot s t
}.

Lemma initial_remaining_pos snapshot a : (0 <= remaining (initialWave snapshot) a)%Z.
Proof.
  unfold remaining. destruct (map_get _ a) as [v|] eqn:E; simpl; [|lia].
  apply map_of_get_elem, list_elem_of_fmap in E as (c & [= _ ->] & _). lia.
Qed.

Lemma wave_ok_initial snapshot : wave_ok snapshot [] (initialWave snapshot).
Proof.
  split; simpl; try done.
  - by intros t ?%elem_of_nil.
  - constructor.
  - lia.
  - lia.
  - intros a. unfold on_account, cnt. simpl. lia.
  - apply initial_remaining_pos.
  - by intros d ?%elem_of_nil.
  - by intros t ?%elem_of_nil.
Qed.

(** A decision that selects nothing. *)
Lemma wave_ok_decide snapshot done s t classification reasons :
  t ∉ done -> classification <> tc_selected -> reasons <> [] ->
  (startable snapshot t -> exhausted snapshot s t) -> wave_ok snapshot done s ->
  wave_ok snapshot (done ++ [t]) (decide_task s t classification reasons).
Proof.
  intros Ht Hc Hr Hex [H1 H2 H3 H4 H5 H6 H7 H8 H9]. split; simpl; try done.
  - intros u Hu. destruct (H1 u Hu). split; [|done]. apply elem_of_app. by left.
  - rewrite map_app, H7. done.
  - intros d [Hd|Hd%list_elem_of_singleton]%elem_of_app; [by apply H8|]. subst d. simpl.
    split; [|done]. split; [done|]. intros Hin. exfalso. apply Ht. by apply H1.
  - intros u [Hu|Hu%list_elem_of_singleton]%elem_of_app Hs; [by apply H9|]. subst u.
    right. by apply Hex.
Qed.

Lemma remaining_select s t n a :
  remaining (select_task s t n) a =
  (remaining s a - if bool_decide (tn_accountId n = Some a) then 1 else 0)%Z.
Proof.
  unfold remaining, select_task. simpl. destruct (tn_accountId n) as [b|].
  - rewrite map_get_set. destruct (str_eqb a b) eqn:E.
    + apply str_eqb_true in E as ->. rewrite bool_decide_true by done. done.
    + apply str_eqb_false in E. rewrite bool_decide_false by congruence. lia.
  - rewrite bool_decide_false by done. lia.
Qed.

Lemma wave_ok_select snapshot done s n :
  n ∈ td_nodes (ws_dag snapshot) -> accountOf snapshot (node_id n) = tn_accountId n ->
  node_id n ∉ done -> startable snapshot (node_id n) -> account_free s n ->
  (0 < wv_workerSlots s)%Z -> wave_ok snapshot done s ->
  wave_ok snapshot (done ++ [node_id n]) (select_task s (node_id n) n).
Proof.
  intros Hn Hacct Ht Hst Hfree Hpos [H1 H2 H3 H4 H5 H6 H7 H8 H9].
  assert (node_id n ∉ wv_selected s) as Hnew by (intros Hin; apply Ht; by apply H1).
  split; try (intros a; rewrite remaining_select).
  - simpl. intros u [Hu|Hu%list_elem_of_singleton]%elem_of_app; [|subst u].
    + destruct (H1 u Hu). split; [|done]. apply elem_of_app. by left.
    + split; [|done]. apply elem_of_app. right. by left.
  - simpl. apply NoDup_app. split_and!; [done| |apply NoDup_singleton].
    intros u Hu ->%list_elem_of_singleton. done.
  - simpl. rewrite length_app, H3. simpl. lia.
  - simpl. lia.
  - unfold on_account. simpl. rewrite cnt_snoc, Hacct, H5. unfold on_account.
    case_bool_decide; lia.
  - case_bool_decide as E; [|rewrite Z.sub_0_r; apply H6]. apply Hfree in E.
    unfold remaining. lia.
  - simpl. by rewrite map_app, H7.
  - simpl. intros d [Hd|Hd%list_elem_of_singleton]%elem_of_app.
    + destruct (H8 d Hd) as [Hs Hr]. split; [|done]. rewrite Hs, elem_of_app.
      split; [by left|]. intros [?|E%list_elem_of_singleton]; [done|]. exfalso. apply Ht.
      rewrite <-E, <-H7. apply list_elem_of_fmap. by exists d.
    + subst d. simpl. split; [|done]. split; [|done]. intros _. apply elem_of_app.
      right. by left.
  - simpl. intros u [Hu|Hu%list_elem_of_singleton]%elem_of_app Hs; [|subst u].
    + destruct (H9 u Hu Hs) as [?|[Hw|(a & Ha & Hle)]].
      * left. apply elem_of_app. by left.
      * lia.
      * right. right. exists a. split; [done|]. rewrite remaining_select. case_bool_decide; lia.
    + left. apply elem_of_app. right. by left.
Qed.

Section ValidLoop.
Context (snapshot : TaskWavePlanningSnapshot).
Context (Hids : NoDup (map node_id (td_nodes (ws_dag snapshot)))).

Lemma accountOf_node n :
  n ∈ td_nodes (ws_dag snapshot) -> accountOf snapshot (node_id n) = tn_accountId n.
Proof. intros Hn. unfold accountOf. by rewrite wm_nodes_get. Qed.

Lemma not_exhausted s n :
  n ∈ td_nodes (ws_dag snapshot) -> ~ exhausted snapshot s (node_id n) ->
  account_free s n /\ (0 < wv_workerSlots s)%Z.
Proof.
  intros Hn Hno. split.
  - intros a Ha. fold (remaining s a).
    destruct (Z.le_gt_cases (remaining s a) 0); [|lia]. exfalso. apply Hno. right.
    exists a. by rewrite accountOf_node.
  - destruct (Z.le_gt_cases (wv_workerSlots s) 0); [|lia]. exfalso. apply Hno. by left.
Qed.

Lemma exhausted_dec s t : exhausted snapshot s t \/ ~ exhausted snapshot s t.
Proof.
  unfold exhausted. destruct (decide (wv_workerSlots s <= 0)%Z); [by left; left|].
  destruct (accountOf snapshot t) as [a|]; [|right; intros [?|(a & [=] & _)]; done].
  destruct (decide (remaining s a <= 0)%Z); [left; right; by exists a|].
  right. intros [?|(b & [= <-] & ?)]; done.
Qed.

Lemma planTask_ok done s t :
  t ∈ map node_id (td_nodes (ws_dag snapshot)) -> t ∉ done -> wave_ok snapshot done s ->
  exists s', planTask snapshot (waveMaps snapshot) true s t = Some s' /\
    wave_ok snapshot (done ++ [t]) s'.
Proof.
  intros (n & -> & Hn)%list_elem_of_fmap Ht Hok. unfold planTask.
  rewrite wm_nodes_get by done. cbn [negb].
  assert (forall st, startable snapshot (node_id n) ->
    map_get (wm_states (waveMaps snapshot)) (node_id n) = Some st ->
    tp_outcome st = to_not_started /\ granted snapshot n) as Hst.
  { intros st (m & st' & Hm & E & Hs & Ho & Hg) Hs'.
    assert (m = n) as -> by (by eapply NoDup_map_inj). simpl in Hs'. rewrite Hs in Hs'.
    by simplify_eq. }
  destruct (map_get (wm_states (waveMaps snapshot)) (node_id n)) as [st|] eqn:Hstate.
  2:{ eexists. split; [done|]. apply wave_ok_decide; try done.
      intros (m & st & _ & _ & Hs & _). simpl in Hstate. congruence. }
  case_bool_decide as Ho.
  2:{ eexists. split; [done|]. apply wave_ok_decide; try done.
      intros Hs. by destruct (Hst st Hs eq_refl). }
  destruct (taskBlockers_total snapshot (waveMaps snapshot) s n) as [blockers Hb].
  rewrite Hb. destruct (canonicalReasons blockers) as [|r rs] eqn:Hc.
  - apply canonicalReasons_nil in Hc as ->. apply taskBlockers_nil in Hb as (Hg & Hf & Hw).
    eexists. split; [done|]. apply wave_ok_select; try done.
    + by apply accountOf_node.
    + by exists n, st.
  - eexists. split; [done|]. apply wave_ok_decide; try done. intros Hs.
    destruct (exhausted_dec s (node_id n)) as [|Hno]; [done|]. exfalso.
    destruct (not_exhausted s n Hn Hno) as [Hf Hw]. destruct (Hst st Hs eq_refl) as [_ Hg].
    rewrite taskBlockers_clear in Hb; try done; [|by apply wm_nodes_get].
    injection Hb as <-. done.
Qed.

Lemma planTasks_ok order done s :
  NoDup (done ++ order) -> (forall t, t ∈ order -> t ∈ map node_id (td_nodes (ws_dag snapshot))) ->
  wave_ok snapshot done s ->
  exists s', planTasks snapshot (waveMaps snapshot) true s order = Some s' /\
    wave_ok snapshot (done ++ order) s'.
Proof.
  revert done s. induction order as [|t order IH]; intros done s Hnd Hin Hok; simpl.
  - rewrite app_nil_r. by exists s.
  - destruct (planTask_ok done s t) as (s' & -> & Hok'); [apply Hin; by left| |done|].
    { apply NoDup_app in Hnd as (_ & Hdis & _). intros Hd. apply (Hdis t Hd). by left. }
    destruct (IH (done ++ [t]) s') as (s'' & Hs'' & Hok''); [by rewrite <-app_assoc| |done|].
    { intros u Hu. apply Hin. by right. }
    exists s''. by rewrite <-app_assoc in Hok''.
Qed.
End ValidLoop.

(** On an invalid graph every task is reported invalid and none selected. *)
Lemma planTasks_invalid snapshot order s :
  (forall t, t ∈ order -> t ∈ map_keys (wm_nodes (waveMaps snapshot))) ->
  exists s', planTasks snapshot (waveMaps snapshot) false s order = Some s' /\
    wv_selected s' = wv_selected s /\
    wv_decisions s' = wv_decisions s ++
      map (fun t => {| ed_taskId := t; ed_classification := tc_invalid;
                       ed_blockingReasons := [reason graph_invalid] |}) order.
Proof.
  revert s. induction order as [|t order IH]; intros s Hin; simpl.
  - exists s. by rewrite app_nil_r.
  - unfold planTask. assert (t ∈ map_keys (wm_nodes (waveMaps snapshot))) as Ht.
    { apply Hin. by left. }
    apply map_get_keys in Ht as [n ->]. cbn [negb].
    destruct (IH (decide_task s t tc_invalid [reason graph_invalid])) as (s' & -> & Hs & Hd).
    { intros u Hu. apply Hin. by right. }
    exists s'. simpl in Hs, Hd. by rewrite <-app_assoc in Hd.
Qed.


(** ** Validation *)

Lemma sort_by_nil {A} (lt : A -> A -> bool) l : (length (sort_by lt l) =? 0)%nat = true <-> l = [].
Proof. rewrite Nat.eqb_eq, sort_by_length. by destruct l. Qed.

(** The order is an enumeration of the tasks, dependencies first. *)
Definition dependency_order (dag : TaskDag) (order : list string) : Prop :=
  order ≡ₚ map node_id (td_nodes dag) /\
  forall l1 t l2 p, order = l1 ++ t :: l2 -> requires dag p t -> p ∈ l1.

Lemma valid_order dag q :
  dag_valid dag -> order_ok dag q -> dependency_order dag (tq_order q).
Proof.
  intros [Hshape Hac _ _] Hq. apply dag_acyclic_requires in Hac; [|done]. split.
  - apply NoDup_Permutation; [apply Hq|apply Hshape|]. intros t.
    rewrite (order_covers dag q Hq Hac). apply nodeMap_keys.
  - intros l1 t l2 p E Hp. apply (oo_sorted _ _ Hq l1 t l2 p E). by apply depends_requires.
Qed.

Lemma validate_outcome dag states :
  exists r, validateTaskDag dag states = Some r /\
    (tv_valid r = true <-> dag_valid dag /\ states_ok dag states) /\
    (tv_valid r = true -> dependency_order dag (tv_topologicalOrder r)).
Proof.
  destruct (buildTopologicalOrder_ok dag) as (q & Hb & Hq). unfold validateTaskDag.
  rewrite Hb. eexists. split; [done|]. simpl.
  rewrite sort_by_nil, (dagDiagnostics_nil dag states q Hq). split; [done|].
  intros H. rewrite (proj2 (sort_by_nil _ _)) by (by apply dagDiagnostics_nil).
  by apply valid_order; [apply H|].
Qed.

(** C33: Task-graph validation is exact: it always returns, and declares a graph valid
    exactly when the graph is nonempty with distinct ids, every task's
    dependencies are distinct existing other tasks, there is no dependency
    cycle, no task lists a repository twice in its write set, and any two tasks
    that write the same repository are ordered by their dependencies -- and, when
    planning states are given, they are one per task and no task runs or succeeded
    before its dependencies settled.  The order of a valid graph enumerates its
    tasks with dependencies first. *)
Theorem taskdag_valid_iff (dag : TaskDag) (states : option (list TaskPlanningState)) :
  exists r, validateTaskDag dag states = Some r /\
    (tv_valid r = true <-> dag_valid dag /\ states_ok dag states) /\
    (tv_valid r = true -> dependency_order dag (tv_topologicalOrder r)).
Proof. apply validate_outcome. Qed.

(** ** Waves *)

(** The resource observations are unambiguous. *)
Definition resources_ok (snapshot : TaskWavePlanningSnapshot) : Prop :=
  resourceDiagnostics snapshot = [].

(** A plan, and the loop behind it. *)
Lemma plan_outcome snapshot :
  exists plan, planTaskWave snapshot = Some plan /\
    (tv_valid (wp_validation plan) = true <->
     dag_valid (ws_dag snapshot) /\ states_valid (ws_dag snapshot) (ws_tasks snapshot) /\
     resources_ok snapshot) /\
    (tv_valid (wp_validation plan) = true ->
     dependency_order (ws_dag snapshot) (tv_topologicalOrder (wp_validation plan)) /\
     exists s, wave_ok snapshot (tv_topologicalOrder (wp_validation plan)) s /\
       wp_selectedTaskIds plan = wv_selected s /\ wp_decisions plan = wv_decisions s) /\
    (tv_valid (wp_validation plan) = false ->
     wp_selectedTaskIds plan = [] /\
     wp_decisions plan =
       map (fun t => {| ed_taskId := t; ed_classification := tc_invalid;
                        ed_blockingReasons := [reason graph_invalid] |})
         (sort_strings (map_keys (wm_nodes (waveMaps snapshot))))).
Proof.
  destruct (validate_outcome (ws_dag snapshot) (Some (ws_tasks snapshot)))
    as (base & Hbase & Hvalid & Horder). unfold planTaskWave. rewrite Hbase.
  set (validation := planValidation snapshot base).
  assert (tv_valid validation = true <-> tv_valid base = true /\ resources_ok snapshot) as Hv.
  { unfold validation, planValidation, resources_ok. simpl. rewrite andb_true_iff, Nat.eqb_eq.
    by rewrite length_zero_iff_nil. }
  assert (resources_ok snapshot ->
    tv_topologicalOrder validation = tv_topologicalOrder base) as Eo.
  { intros Hr. unfold validation, planValidation. simpl. unfold resources_ok in Hr.
    by rewrite Hr. }
  clearbody validation. destruct (tv_valid validation) eqn:E.
  - destruct (proj1 Hv eq_refl) as [Hb Hr]. specialize (Horder Hb). specialize (Eo Hr).
    rewrite Eo. apply Hvalid in Hb as Hb'. destruct Hb' as [Hdag Hst].
    destruct (planTasks_ok snapshot (ds_ids _ (dv_shape _ Hdag)) (tv_topologicalOrder base) []
      (initialWave snapshot)) as (s & -> & Hok).
    + simpl. rewrite (proj1 Horder). apply Hdag.
    + intros t Ht. by rewrite (proj1 Horder) in Ht.
    + apply wave_ok_initial.
    + eexists. split; [done|]. simpl. rewrite E, Eo. split_and!; try done. intros _.
      split; [done|]. by exists s.
  - destruct (planTasks_invalid snapshot
      (sort_strings (map_keys (wm_nodes (waveMaps snapshot)))) (initialWave snapshot))
      as (s & -> & Hs & Hd).
    { intros t. by rewrite elem_of_sort_strings. }
    eexists. split; [done|]. simpl. rewrite E. split_and!; try done. rewrite Hv, Hvalid.
    simpl. naive_solver.
Qed.

Lemma plan_valid snapshot plan :
  planTaskWave snapshot = Some plan -> tv_valid (wp_validation plan) = true ->
  dag_valid (ws_dag snapshot) /\ states_valid (ws_dag snapshot) (ws_tasks snapshot) /\
  dependency_order (ws_dag snapshot) (tv_topologicalOrder (wp_validation plan)) /\
  exists s, wave_ok snapshot (tv_topologicalOrder (wp_validation plan)) s /\
    wp_selectedTaskIds plan = wv_selected s /\ wp_decisions plan = wv_decisions s.
Proof.
  intros Hp Hv. destruct (plan_outcome snapshot) as (plan' & Hp' & Hiff & Hval & _).
  rewrite Hp in Hp'. injection Hp' as <-. destruct (Hval Hv) as [Ho Hs].
  apply Hiff in Hv as (? & ? & _). done.
Qed.

(** A settled task has only settled ancestors: no task succeeds before its
    dependencies, so settlement goes back along the dependencies. *)
Lemma settled_ancestors dag states a t :
  dag_shape dag -> states_valid dag states -> tc (requires dag) a t ->
  task_settled states t -> task_settled states a.
Proof.
  intros Hshape Hst. induction 1 as [p t Hp|a p t Hap _ IH]; intros (s & Hs & Hset).
  - destruct Hp as (n & Hn & <- & Hp). destruct (ds_deps _ Hshape n Hn) as [_ Hd].
    eapply (sv_terminal _ _ Hst n s p); try done; [|by apply Hd].
    right. by apply fs_outcome.
  - specialize (IH (ex_intro _ s (conj Hs Hset))). destruct IH as (sp & Hsp & Hpset).
    destruct Hap as (n & Hn & <- & Hp). destruct (ds_deps _ Hshape n Hn) as [_ Hd].
    eapply (sv_terminal _ _ Hst n sp a); try done; [|by apply Hd].
    right. by apply fs_outcome.
Qed.

(** A task that may start has only settled ancestors. *)
Lemma startable_ancestors snapshot a t :
  dag_shape (ws_dag snapshot) -> states_valid (ws_dag snapshot) (ws_tasks snapshot) ->
  startable snapshot t -> tc (requires (ws_dag snapshot)) a t -> task_settled (ws_tasks snapshot) a.
Proof.
  intros Hshape Hst (n & s & Hn & <- & _ & _ & Hg) Ha.
  assert (forall p, requires (ws_dag snapshot) p (node_id n) -> task_settled (ws_tasks snapshot) p)
    as Hone.
  { intros p (m & Hm & E & Hp). apply (gr_deps _ _ Hg).
    assert (m = n) as -> by (eapply NoDup_map_inj; [apply (ds_ids _ Hshape)|..]; done). done. }
  apply tc_r_inv' in Ha as [Ha|(p & Hap & Hp)]; [by apply Hone|].
  eapply settled_ancestors; [done|done|done|]. by apply Hone.
Qed.

Lemma startable_not_settled snapshot t : startable snapshot t -> ~ task_settled (ws_tasks snapshot) t.
Proof.
  intros (n & s & _ & _ & Hs & Ho & _) (s' & Hs' & Hset). rewrite Hs in Hs'. simplify_eq.
  apply fs_outcome in Hset. congruence.
Qed.

(** C34: A wave is safe to start: the tasks it selects are distinct, not yet started,
    with every dependency succeeded, integrated and verified, a profile that is
    available, free writer leases and a known account, and no graph revision
    pending; they number at most the free worker slots, and on each account at
    most its free runs; no selected task depends on another, and no two of them
    write the same repository. *)
Theorem wave_selection_safe snapshot plan :
  planTaskWave snapshot = Some plan ->
  NoDup (wp_selectedTaskIds plan) /\
  (forall t, t ∈ wp_selectedTaskIds plan -> startable snapshot t) /\
  (Z.of_nat (length (wp_selectedTaskIds plan)) <=
     Z.max 0 (ws_maxConcurrentWorkers snapshot - ws_activeWorkers snapshot))%Z /\
  (forall a, (Z.of_nat (on_account snapshot a (wp_selectedTaskIds plan)) <=
     remaining (initialWave snapshot) a)%Z) /\
  (forall t u, t ∈ wp_selectedTaskIds plan -> u ∈ wp_selectedTaskIds plan ->
     ~ tc (requires (ws_dag snapshot)) t u) /\
  (forall m n r, m ∈ td_nodes (ws_dag snapshot) -> n ∈ td_nodes (ws_dag snapshot) ->
     node_id m ∈ wp_selectedTaskIds plan -> node_id n ∈ wp_selectedTaskIds plan ->
     r ∈ node_writes m -> r ∈ node_writes n -> m = n).
Proof.
  intros Hp. destruct (tv_valid (wp_validation plan)) eqn:Hv.
  2:{ destruct (plan_outcome snapshot) as (plan' & Hp' & _ & _ & Hinv). rewrite Hp in Hp'.
      injection Hp' as <-. destruct (Hinv Hv) as [-> _]. unfold on_account, cnt. simpl.
      split_and!; try (by intros ? ?%elem_of_nil); try (by intros ? ? ?%elem_of_nil); try lia.
      - constructor.
      - intros a. apply initial_remaining_pos.
      - by intros m n r _ _ ?%elem_of_nil. }
  destruct (plan_valid _ _ Hp Hv) as (Hdag & Hst & Ho & s & Hok & -> & _).
  destruct Hok as [H1 H2 H3 H4 H5 H6 _ _ _].
  assert (forall t u, t ∈ wv_selected s -> u ∈ wv_selected s ->
    ~ tc (requires (ws_dag snapshot)) t u) as Hind.
  { intros t u [_ Ht]%H1 [_ Hu]%H1 Htc. apply (startable_not_settled _ _ Ht).
    by eapply startable_ancestors; [apply Hdag|..]. }
  split_and!; try done.
  - intros t Ht. by apply H1.
  - simpl in H3. lia.
  - intros a. specialize (H5 a). specialize (H6 a). lia.
  - intros m n r Hm Hn Hsm Hsn Hrm Hrn. destruct (decide (node_id m = node_id n)) as [E|Hne].
    + eapply NoDup_map_inj; [apply (ds_ids _ (dv_shape _ Hdag))|..]; done.
    + exfalso. destruct (dv_ordered _ Hdag m n r Hm Hn Hne Hrm Hrn) as [Htc|Htc];
        [apply (Hind (node_id m) (node_id n))|apply (Hind (node_id n) (node_id m))]; done.
Qed.

(** Every wave has a complete trace: planning always returns; on a valid snapshot
    it decides every task once, in dependency order, a task is in the wave
    exactly when it is classified selected, and every other task has at least
    one blocking reason; on an invalid snapshot nothing is selected and every
    task is reported invalid. *)
Theorem wave_trace snapshot :
  exists plan, planTaskWave snapshot = Some plan /\
    (tv_valid (wp_validation plan) = true <->
     dag_valid (ws_dag snapshot) /\ states_valid (ws_dag snapshot) (ws_tasks snapshot) /\
     resources_ok snapshot) /\
    (tv_valid (wp_validation plan) = true ->
     dependency_order (ws_dag snapshot) (map ed_taskId (wp_decisions plan)) /\
     forall d, d ∈ wp_decisions plan ->
       (ed_classification d = tc_selected <-> ed_taskId d ∈ wp_selectedTaskIds plan) /\
       (ed_blockingReasons d = [] <-> ed_classification d = tc_selected)) /\
    (tv_valid (wp_validation plan) = false ->
     wp_selectedTaskIds plan = [] /\
     forall d, d ∈ wp_decisions plan ->
       ed_classification d = tc_invalid /\ ed_blockingReasons d = [reason graph_invalid]).
Proof.
  destruct (plan_outcome snapshot) as (plan & Hp & Hiff & Hval & Hinv).
  exists plan. split_and!; [done|done|..].
  - intros Hv. destruct (Hval Hv) as (Ho & s & Hok & -> & ->).
    rewrite (wo_decisions _ _ _ Hok). split; [done|]. apply Hok.
  - intros Hv. destruct (Hinv Hv) as [-> ->]. split; [done|].
    by intros d (t & -> & _)%list_elem_of_fmap.
Qed.

(** A wave leaves no capacity unused: on a valid snapshot, a task that may start but
    is not selected found all worker slots taken, or all free runs of its account. *)
Theorem wave_work_conserving snapshot plan t :
  planTaskWave snapshot = Some plan -> tv_valid (wp_validation plan) = true ->
  startable snapshot t -> t ∉ wp_selectedTaskIds plan ->
  Z.of_nat (length (wp_selectedTaskIds plan)) =
    Z.max 0 (ws_maxConcurrentWorkers snapshot - ws_activeWorkers snapshot) \/
  exists a, accountOf snapshot t = Some a /\
    Z.of_nat (on_account snapshot a (wp_selectedTaskIds plan)) =
      remaining (initialWave snapshot) a.
Proof.
  intros Hp Hv Hs Hno. destruct (plan_valid _ _ Hp Hv) as (_ & _ & Ho & s & Hok & E & _).
  rewrite E in *. destruct (wo_conserve _ _ _ Hok t) as [?|[Hw|(a & Ha & Hr)]]; try done.
  - rewrite (proj1 Ho). destruct Hs as (n & _ & Hn & <- & _). apply list_elem_of_fmap.
    by exists n.
  - left. pose proof (wo_slots _ _ _ Hok) as H3. pose proof (wo_slots_pos _ _ _ Hok).
    simpl in H3. lia.
  - right. exists a. split; [done|]. pose proof (wo_account _ _ _ Hok a).
    pose proof (wo_account_pos _ _ _ Hok a). lia.
Qed.

(** ** Progress *)

Definition not_started (snapshot : TaskWavePlanningSnapshot) (t : string) : Prop :=
  exists s, map_get (stateMap (ws_tasks snapshot)) t = Some s /\ tp_outcome s = to_not_started.

(** Nothing but the tasks themselves holds a wave back: no revision is pending,
    every profile, lease and account a task names is free, a worker is free, and
    every task is either not started or settled. *)
Record open_snapshot (snapshot : TaskWavePlanningSnapshot) : Prop := {
  os_revision : ws_unresolvedGraphRevision snapshot = false;
  os_workers : (ws_activeWorkers snapshot < ws_maxConcurrentWorkers snapshot)%Z;
  os_profile : forall n, n ∈ td_nodes (ws_dag snapshot) -> exists profile,
    map_get (wm_profiles (waveMaps snapshot)) (tn_profileId n) = Some profile /\
    pcap_available profile = true;
  os_leases : forall n r, n ∈ td_nodes (ws_dag snapshot) -> r ∈ node_writes n -> exists lease,
    map_get (wm_leases (waveMaps snapshot)) r = Some lease /\ wl_available lease = true;
  os_account : forall n a, n ∈ td_nodes (ws_dag snapshot) -> tn_accountId n = Some a ->
    is_Some (map_get (wm_accounts (waveMaps snapshot)) a) /\
    (0 < remaining (initialWave snapshot) a)%Z;
  os_states : forall s, s ∈ ws_tasks snapshot ->
    tp_outcome s = to_not_started \/ fully_settled s
}.

Lemma first_such {A} (P : A -> Prop) `{!forall x, Decision (P x)} l x :
  x ∈ l -> P x -> exists l1 y l2, l = l1 ++ y :: l2 /\ P y /\ forall z, z ∈ l1 -> ~ P z.
Proof.
  induction l as [|a l IH]; [by intros ?%elem_of_nil|]. intros Hx HP.
  destruct (decide (P a)) as [Ha|Ha].
  - exists [], a, l. split_and!; try done. by intros z ?%elem_of_nil.
  - apply elem_of_cons in Hx as [->|Hx]; [done|]. destruct (IH Hx HP) as (l1 & y & l2 & -> & Hy & Hl).
    exists (a :: l1), y, l2. split_and!; try done. intros z [->|Hz]%elem_of_cons; auto.
Qed.

#[local] Instance not_started_dec snapshot t : Decision (not_started snapshot t).
Proof.
  unfold not_started. destruct (map_get (stateMap (ws_tasks snapshot)) t) as [s|].
  - destruct (decide (tp_outcome s = to_not_started)); [left; by exists s|right].
    intros (s' & [= <-] & ?). done.
  - right. by intros (s & [=] & _).
Defined.

Lemma stateMap_elem states t s : map_get (stateMap states) t = Some s -> s ∈ states /\ tp_taskId s = t.
Proof.
  intros H. apply map_of_get_elem in H. by apply list_elem_of_fmap in H as (u & [= -> ->] & ?).
Qed.

Lemma stateMap_has states t : t ∈ map tp_taskId states -> is_Some (map_get (stateMap states) t).
Proof. intros H. apply map_get_keys, elem_of_map_of. by rewrite map_map. Qed.

(** The first task of the order that has not started may start. *)
Lemma first_startable snapshot order l1 t l2 :
  states_valid (ws_dag snapshot) (ws_tasks snapshot) ->
  dependency_order (ws_dag snapshot) order -> open_snapshot snapshot ->
  order = l1 ++ t :: l2 -> not_started snapshot t -> (forall u, u ∈ l1 -> ~ not_started snapshot u) ->
  startable snapshot t.
Proof.
  intros Hst [Hperm Hdeps] Hopen E (s & Hs & Ho) Hfirst.
  assert (t ∈ map node_id (td_nodes (ws_dag snapshot))) as Ht.
  { rewrite <-Hperm, E. apply elem_of_app. right. by left. }
  apply list_elem_of_fmap in Ht as (n & -> & Hn). exists n, s. split_and!; try done.
  split; try (by apply Hopen).
  - intros p Hp. assert (p ∈ l1) as Hp1 by (apply (Hdeps l1 (node_id n) l2 p E); by exists n).
    assert (p ∈ map tp_taskId (ws_tasks snapshot)) as Hpt.
    { apply (sv_tasks _ _ Hst). rewrite <-Hperm, E. apply elem_of_app. by left. }
    apply stateMap_has in Hpt as [sp Hsp]. exists sp. split; [done|].
    destruct (stateMap_elem _ _ _ Hsp) as [Hin _].
    destruct (os_states _ Hopen sp Hin) as [Hns|]; [|done].
    exfalso. apply (Hfirst p Hp1). by exists sp.
  - intros r. by apply (os_leases _ Hopen).
  - intros a Ha. by apply (os_account _ Hopen n a).
Qed.

(** Waves make progress: on a valid snapshot in which nothing outside the tasks holds
    them back and every started task has settled, the next wave is empty only
    when no task is left to start. *)
Theorem wave_progress snapshot plan t :
  planTaskWave snapshot = Some plan -> tv_valid (wp_validation plan) = true ->
  open_snapshot snapshot -> not_started snapshot t -> wp_selectedTaskIds plan <> [].
Proof.
  intros Hp Hv Hopen Ht Hnil.
  destruct (plan_valid _ _ Hp Hv) as (Hdag & Hst & Ho & s & Hok & E & _).
  assert (t ∈ tv_topologicalOrder (wp_validation plan)) as Hin.
  { rewrite (proj1 Ho). apply (sv_tasks _ _ Hst). destruct Ht as (st & Hs & _).
    apply stateMap_elem in Hs as [Hs <-]. apply list_elem_of_fmap. by exists st. }
  destruct (first_such (not_started snapshot) _ t Hin Ht) as (l1 & u & l2 & El & Hu & Hfirst).
  pose proof (first_startable _ _ _ _ _ Hst Ho Hopen El Hu Hfirst) as Hs.
  rewrite E in Hnil. destruct (wo_conserve _ _ _ Hok u) as [Hsel|[Hw|(a & Ha & Hr)]]; try done.
  - rewrite El. apply elem_of_app. right. by left.
  - rewrite Hnil in Hsel. by apply elem_of_nil in Hsel.
  - pose proof (wo_slots _ _ _ Hok) as Hsl. rewrite Hnil in Hsl. simpl in Hsl.
    pose proof (os_workers _ Hopen). lia.
  - pose proof (wo_account _ _ _ Hok a) as Hacc. rewrite Hnil in Hacc.
    unfold on_account, cnt in Hacc. simpl in Hacc. destruct Hs as (n & st & Hn & <- & _).
    rewrite accountOf_node in Ha; [|apply (ds_ids _ (dv_shape _ Hdag))|done].
    destruct (os_account _ Hopen n a Hn Ha) as [_ ?]. lia.
Qed.

(** ** A concrete graph *)

Definition task (id : string) (deps writes : list string) : TaskDagNode :=
  {| tn_task := {| et_taskId := id; et_dependencies := deps; et_writeSet := writes |};
     tn_profileId := "codex"; tn_accountId := Some "team" |}.

Definition task_state (id : string) (o : TaskPlanningOutcome) : TaskPlanningState :=
  let gate := if bool_decide (o = to_succeeded) then cg_passed else cg_pending in
  {| tp_taskId := id; tp_outcome := o; tp_completionContract := gate;
     tp_integration := if bool_decide (o = to_succeeded) then ig_passed else ig_pending;
     tp_combinedVerification := gate |}.

(** [api] and [web] after [schema]; [docs] after both, writing what [api] does. *)
Definition release_snapshot (workers : Z) : TaskWavePlanningSnapshot :=
  {| ws_dag :=
       {| td_graphId := "release"; td_graphRevision := 1;
          td_nodes := [ task "web" ["schema"] ["web-repo"]; task "schema" [] ["core-repo"];
                        task "docs" ["api"; "web"] ["api-repo"];
                        task "api" ["schema"] ["api-repo"] ] |};
     ws_waveOrdinal := 2;
     ws_unresolvedGraphRevision := false;
     ws_tasks := [ task_state "schema" to_succeeded; task_state "api" to_not_started;
                   task_state "web" to_not_started; task_state "docs" to_not_started ];
     ws_profiles := [ {| pcap_profileId := "codex"; pcap_available := true |} ];
     ws_accounts := [ {| acap_accountId := "team"; acap_activeRuns := 0;
                         acap_maxConcurrentRuns := 3 |} ];
     ws_writerLeases :=
       [ {| wl_repositoryId := "web-repo"; wl_available := true; wl_holderTaskId := None |};
         {| wl_repositoryId := "api-repo"; wl_available := true; wl_holderTaskId := None |};
         {| wl_repositoryId := "core-repo"; wl_available := true; wl_holderTaskId := None |} ];
     ws_activeWorkers := 0;
     ws_maxConcurrentWorkers := workers;
     ws_recordedAt := "2026-01-01T00:00:00Z" |}.

(** With two workers the wave is [api] and [web]; they share no repository. *)
Lemma wave_selection_safe_witness :
  exists plan, planTaskWave (release_snapshot 2) = Some plan /\
    wp_selectedTaskIds plan = ["api"; "web"] /\
    ~ tc (requires (ws_dag (release_snapshot 2))) "api" "web".
Proof.
  eexists. split; [vm_compute; reflexivity|]. split; [reflexivity|].
  edestruct (wave_selection_safe (release_snapshot 2)) as (_ & _ & _ & _ & Hind & _);
    [vm_compute; reflexivity|].
  apply Hind; apply (bool_decide_unpack _); vm_compute; reflexivity.
Defined.

Lemma release_granted workers n :
  n ∈ [ task "web" ["schema"] ["web-repo"]; task "api" ["schema"] ["api-repo"] ] ->
  granted (release_snapshot workers) n.
Proof.
  intros Hn. split; simpl; try done.
  - intros p Hp. exists (task_state "schema" to_succeeded).
    assert (p = "schema") as ->; [|done].
    repeat (apply elem_of_cons in Hn as [->|Hn]; [by apply list_elem_of_singleton in Hp|]).
    by apply elem_of_nil in Hn.
  - exists {| pcap_profileId := "codex"; pcap_available := true |}.
    by repeat (apply elem_of_cons in Hn as [->|Hn]; [done|]); apply elem_of_nil in Hn.
  - intros r Hr. exists {| wl_repositoryId := r; wl_available := true; wl_holderTaskId := None |}.
    by repeat (apply elem_of_cons in Hn as [->|Hn]; [by apply list_elem_of_singleton in Hr as ->|]);
      apply elem_of_nil in Hn.
  - intros a Ha. exists {| acap_accountId := "team"; acap_activeRuns := 0;
      acap_maxConcurrentRuns := 3 |}.
    by repeat (apply elem_of_cons in Hn as [->|Hn]; [simpl in Ha; by simplify_eq|]);
      apply elem_of_nil in Hn.
Qed.

(** With one worker only [api] starts, and [web] found the slot taken. *)
Lemma wave_work_conserving_witness :
  exists plan, planTaskWave (release_snapshot 1) = Some plan /\
    wp_selectedTaskIds plan = ["api"] /\
    (Z.of_nat (length (wp_selectedTaskIds plan)) = 1 \/
     exists a, accountOf (release_snapshot 1) "web" = Some a /\
       Z.of_nat (on_account (release_snapshot 1) a (wp_selectedTaskIds plan)) =
         remaining (initialWave (release_snapshot 1)) a)%Z.
Proof.
  eexists. split; [vm_compute; reflexivity|]. split; [reflexivity|].
  eapply (wave_work_conserving (release_snapshot 1) _ "web").
  - vm_compute. reflexivity.
  - reflexivity.
  - exists (task "web" ["schema"] ["web-repo"]), (task_state "web" to_not_started).
    split_and!; try reflexivity; [by left|]. apply release_granted. by left.
  - apply (bool_decide_unpack _). vm_compute. reflexivity.
Defined.

Lemma release_open : open_snapshot (release_snapshot 2).
Proof.
  split; simpl; try done.
  - intros n Hn. exists {| pcap_profileId := "codex"; pcap_available := true |}.
    by repeat (apply elem_of_cons in Hn as [->|Hn]; [done|]); apply elem_of_nil in Hn.
  - intros n r Hn Hr.
    exists {| wl_repositoryId := r; wl_available := true; wl_holderTaskId := None |}.
    by repeat (apply elem_of_cons in Hn as [->|Hn]; [by apply list_elem_of_singleton in Hr as ->|]);
      apply elem_of_nil in Hn.
  - intros n a Hn Ha. assert (a = "team") as ->; [|by split; [eexists|]].
    by repeat (apply elem_of_cons in Hn as [->|Hn]; [simpl in Ha; by simplify_eq|]);
      apply elem_of_nil in Hn.
  - intros s Hs. repeat (apply elem_of_cons in Hs as [->|Hs]; [by (left + right)|]).
    by apply elem_of_nil in Hs.
Qed.

Lemma wave_progress_witness :
  exists plan, planTaskWave (release_snapshot 2) = Some plan /\ wp_selectedTaskIds plan <> [].
Proof.
  eexists. split; [vm_compute; reflexivity|].
  eapply (wave_progress (release_snapshot 2) _ "docs").
  - vm_compute. reflexivity.
  - reflexivity.
  - apply release_open.
  - exists (task_state "docs" to_not_started). split; reflexivity.
Defined.
