(* ===== verification/Tick.v ===== *)
(** * The deterministic pipeline scheduler

    [packages/pipeline/src/scheduler/tick.ts], whole.  One tick turns an input
    snapshot into a plan.  The mutable [TickContext] is the state of the [ST]
    monad and a thrown exception is a value of [Thrown].  A [MutableStage] is
    addressed by its key in [working], so an alias of a stage object and the
    map entry are the same thing, as in the source.

    Literal [schemaVersion: 1] fields carry no information and are left out;
    those that vary ([1 | 2]) are kept. *)

From S2P Require Import Prelude Transitions Ids Json Evaluate Recovery Graph.
Local Open Scope st_scope.
Local Open Scope Z_scope.

(** ** Data *)

(** [StageSnapshot]; [MutableStage] has the same fields. *)
Record StageSnapshot := {
  ss_runId : string;
  ss_stageId : string;
  ss_graphRevision : Z;
  ss_generation : Z;
  ss_state : PipelineStageState;
  ss_attemptOrdinal : Z;
  ss_currentAttemptId : option string;
  ss_lastTransitionReason : option PipelineTransitionReason;
  ss_blockReason : option string;
  ss_selected : bool;
  ss_updatedAt : string
}.

Inductive ObservationKind :=
| ob_attempt_started | ob_attempt_waiting | ob_attempt_succeeded | ob_attempt_failed
| ob_cancellation_settled | ob_evaluator_decided | ob_cancel_requested | ob_manual_rerun
| ob_recovery_proposed | ob_recovery_approved | ob_recovery_rejected.

#[export] Instance ObservationKind_eq_dec : EqDecision ObservationKind.
Proof. solve_decision. Defined.

Record SchedulerObservation := {
  so_schemaVersion : Z;
  so_observationId : string;
  so_kind : ObservationKind;
  so_stageId : option string;
  so_attemptId : option string;
  so_retryable : option bool;
  so_edgeKey : option string;
  so_selected : option bool;
  so_recordedAt : string;
  so_failure : option PipelineFailurePlain;
  so_signature : option PipelineFailureSignaturePlain;
  so_recoveryDecisionId : option string;
  so_proposalId : option string;
  so_approved : option bool;
  so_classification : option string;
  so_phase : option string;
  so_code : option string;
  so_backendClassification : option string;
  so_validationFailures : option (list string);
  so_resumeAvailable : option bool;
  so_priorBackendExecutionId : option string
}.

Record SchedulerDecision := {
  sd_schemaVersion : Z;
  sd_decisionId : string;
  sd_runId : string;
  sd_stageId : option string;
  sd_graphRevision : Z;
  sd_generation : Z;
  sd_attemptOrdinal : Z;
  sd_action : SchedulerDecisionAction;
  sd_reason : SchedulerTransitionReason;
  sd_fromState : option PipelineStageState;
  sd_toState : option PipelineStageState;
  sd_attemptId : option string;
  sd_intentId : option string;
  sd_detail : option string;
  sd_recordedAt : string;
  sd_recoveryDecisionId : option string;
  sd_signatureDigest : option string
}.

(** The payload of an intent, one constructor per [kind] the scheduler emits. *)
Inductive IntentPayload :=
| PayloadDispatch (stageId stageType attemptId : string) (generation attemptOrdinal : Z)
    (retryDirective : option PipelineRetryDirectivePlain)
| PayloadCancel (stageId attemptId : string) (generation attemptOrdinal : Z)
| PayloadEvaluator (fromStageId toStageId profile question edgeKey : string).

Record SchedulerIntent := {
  si_schemaVersion : Z;
  si_intentId : string;
  si_runId : string;
  si_graphRevision : Z;
  si_kind : IntentKind;
  si_payload : IntentPayload;
  si_createdAt : string
}.

Record StageAttempt := {
  sa_schemaVersion : Z;
  sa_attemptId : string;
  sa_runId : string;
  sa_pipelineId : string;
  sa_stageId : string;
  sa_graphRevision : Z;
  sa_generation : Z;
  sa_attemptOrdinal : Z;
  sa_stageType : string;
  sa_createdAt : string;
  sa_sessionPolicy : option SessionPolicy;
  sa_priorAttemptId : option string;
  sa_recoveryDecisionId : option string;
  sa_delegatedProfileId : option string;
  sa_retryDirective : option PipelineRetryDirectivePlain
}.

Record StageTransition := {
  tr_stageId : string;
  tr_from : PipelineStageState;
  tr_to : PipelineStageState;
  tr_reason : PipelineTransitionReason;
  tr_attemptId : option string;
  tr_generation : Z;
  tr_blockReason : option string
}.

Inductive TerminalOutcome := out_succeeded | out_failed | out_cancelled | out_blocked.

#[export] Instance TerminalOutcome_eq_dec : EqDecision TerminalOutcome.
Proof. solve_decision. Defined.

Record ScheduleTerminal := {
  te_outcome : TerminalOutcome;
  te_reason : string;
  te_blockedStageId : option string
}.

(** [pendingProposalJson: unknown]: an object with a [mode] key is read as a
    directive, anything else is ignored. *)
Inductive PendingProposalJson :=
| proposal_with_mode (directive : PipelineRetryDirectivePlain)
| proposal_other.

Record StageRecoveryStatePlain := {
  rs_stageId : string;
  rs_generation : Z;
  rs_repairsUsed : Z;
  rs_lastSignatureDigest : option string;
  rs_identicalSignatureCount : Z;
  rs_pendingProposalId : option string;
  rs_pendingProposalJson : option PendingProposalJson;
  rs_pendingDirective : option PipelineRetryDirectivePlain
}.

Record EffectiveLimitsPlain := {
  el_maxRepairAttempts : option Z;
  el_maxConcurrentWorkers : option Z;
  el_maxPipelineDurationMs : option Z;
  el_maxGraphRevisions : option Z;
  el_stageDurationMsByStageId : option (list (string * Z))
}.

Record EvaluatorDecisionEntry := {
  ed_edgeKey : string;
  ed_selected : bool;
  ed_recordedAt : string
}.

Record SchedulerInput := {
  in_schemaVersion : Z;
  in_runId : string;
  in_pipelineId : string;
  in_graphRevision : Z;
  in_scheduleRevision : Z;
  in_graph : PipelineGraph;
  in_now : string;
  in_deadlineAt : option string;
  in_stages : list StageSnapshot;
  in_observations : list SchedulerObservation;
  in_canonicalState : JsonValue;
  in_pendingEvaluatorEdgeKeys : list string;
  in_evaluatorDecisions : list EvaluatorDecisionEntry;
  in_recoveryState : option (list StageRecoveryStatePlain);
  in_effectiveLimits : option EffectiveLimitsPlain;
  in_executionMode : option ExecutionMode
}.

Record SchedulerPlan := {
  plan_schemaVersion : Z;
  plan_runId : string;
  plan_graphRevision : Z;
  plan_expectedScheduleRevision : Z;
  plan_nextScheduleRevision : Z;
  plan_recordedAt : string;
  plan_transitions : list StageTransition;
  plan_decisions : list SchedulerDecision;
  plan_intents : list SchedulerIntent;
  plan_attempts : list StageAttempt;
  plan_stagePatches : list StageSnapshot;
  plan_consumedObservationIds : list string;
  plan_terminal : option ScheduleTerminal;
  plan_recoveryDecisions : option (list PipelineRecoveryDecisionPlain);
  plan_recoveryState : option (list StageRecoveryStatePlain)
}.

(** [StageRecoveryCounters & { generation }]. *)
Record RecoveryEntry := {
  re_generation : Z;
  re_counters : StageRecoveryCounters
}.

(** The fields of [TickContext] no code assigns after construction. *)
Record TickEnv := {
  env_input : SchedulerInput;
  env_graph : PipelineGraph;
  env_stagesById : list (string * PipelineStage);
  env_incoming : list (string * list PipelineEdge);
  env_outgoing : list (string * list PipelineEdge);
  env_descendants : list (string * list string);
  env_v2 : bool;
  env_deadlineExceeded : bool
}.

Record TickContext := {
  tc_env : TickEnv;
  tc_working : list (string * StageSnapshot);
  tc_evaluatorDecisions : list (string * bool);
  tc_pendingEvaluators : list string;
  tc_recoveryByKey : list (string * RecoveryEntry);
  tc_transitions : list StageTransition;
  tc_decisions : list SchedulerDecision;
  tc_intents : list SchedulerIntent;
  tc_attempts : list StageAttempt;
  tc_recoveryDecisions : list PipelineRecoveryDecisionPlain;
  tc_consumedObservationIds : list string;
  tc_cancelRequested : bool
}.

(** Assignment to one field of the context. *)
Definition upd_working (f : list (string * StageSnapshot) -> list (string * StageSnapshot)) (c : TickContext) : TickContext :=
  {| tc_env := tc_env c;
     tc_working := f (tc_working c);
     tc_evaluatorDecisions := tc_evaluatorDecisions c;
     tc_pendingEvaluators := tc_pendingEvaluators c;
     tc_recoveryByKey := tc_recoveryByKey c;
     tc_transitions := tc_transitions c;
     tc_decisions := tc_decisions c;
     tc_intents := tc_intents c;
     tc_attempts := tc_attempts c;
     tc_recoveryDecisions := tc_recoveryDecisions c;
     tc_consumedObservationIds := tc_consumedObservationIds c;
     tc_cancelRequested := tc_cancelRequested c |}.
Definition upd_evaluatorDecisions (f : list (string * bool) -> list (string * bool)) (c : TickContext) : TickContext :=
  {| tc_env := tc_env c;
     tc_working := tc_working c;
     tc_evaluatorDecisions := f (tc_evaluatorDecisions c);
     tc_pendingEvaluators := tc_pendingEvaluators c;
     tc_recoveryByKey := tc_recoveryByKey c;
     tc_transitions := tc_transitions c;
     tc_decisions := tc_decisions c;
     tc_intents := tc_intents c;
     tc_attempts := tc_attempts c;
     tc_recoveryDecisions := tc_recoveryDecisions c;
     tc_consumedObservationIds := tc_consumedObservationIds c;
     tc_cancelRequested := tc_cancelRequested c |}.
Definition upd_pendingEvaluators (f : list string -> list string) (c : TickContext) : TickContext :=
  {| tc_env := tc_env c;
     tc_working := tc_working c;
     tc_evaluatorDecisions := tc_evaluatorDecisions c;
     tc_pendingEvaluators := f (tc_pendingEvaluators c);
     tc_recoveryByKey := tc_recoveryByKey c;
     tc_transitions := tc_transitions c;
     tc_decisions := tc_decisions c;
     tc_intents := tc_intents c;
     tc_attempts := tc_attempts c;
     tc_recoveryDecisions := tc_recoveryDecisions c;
     tc_consumedObservationIds := tc_consumedObservationIds c;
     tc_cancelRequested := tc_cancelRequested c |}.
Definition upd_recoveryByKey (f : list (string * RecoveryEntry) -> list (string * RecoveryEntry)) (c : TickContext) : TickContext :=
  {| tc_env := tc_env c;
     tc_working := tc_working c;
     tc_evaluatorDecisions := tc_evaluatorDecisions c;
     tc_pendingEvaluators := tc_pendingEvaluators c;
     tc_recoveryByKey := f (tc_recoveryByKey c);
     tc_transitions := tc_transitions c;
     tc_decisions := tc_decisions c;
     tc_intents := tc_intents c;
     tc_attempts := tc_attempts c;
     tc_recoveryDecisions := tc_recoveryDecisions c;
     tc_consumedObservationIds := tc_consumedObservationIds c;
     tc_cancelRequested := tc_cancelRequested c |}.
Definition upd_transitions (f : list StageTransition -> list StageTransition) (c : TickContext) : TickContext :=
  {| tc_env := tc_env c;
     tc_working := tc_working c;
     tc_evaluatorDecisions := tc_evaluatorDecisions c;
     tc_pendingEvaluators := tc_pendingEvaluators c;
     tc_recoveryByKey := tc_recoveryByKey c;
     tc_transitions := f (tc_transitions c);
     tc_decisions := tc_decisions c;
     tc_intents := tc_intents c;
     tc_attempts := tc_attempts c;
     tc_recoveryDecisions := tc_recoveryDecisions c;
     tc_consumedObservationIds := tc_consumedObservationIds c;
     tc_cancelRequested := tc_cancelRequested c |}.
Definition upd_decisions (f : list SchedulerDecision -> list SchedulerDecision) (c : TickContext) : TickContext :=
  {| tc_env := tc_env c;
     tc_working := tc_working c;
     tc_evaluatorDecisions := tc_evaluatorDecisions c;
     tc_pendingEvaluators := tc_pendingEvaluators c;
     tc_recoveryByKey := tc_recoveryByKey c;
     tc_transitions := tc_transitions c;
     tc_decisions := f (tc_decisions c);
     tc_intents := tc_intents c;
     tc_attempts := tc_attempts c;
     tc_recoveryDecisions := tc_recoveryDecisions c;
     tc_consumedObservationIds := tc_consumedObservationIds c;
     tc_cancelRequested := tc_cancelRequested c |}.
Definition upd_intents (f : list SchedulerIntent -> list SchedulerIntent) (c : TickContext) : TickContext :=
  {| tc_env := tc_env c;
     tc_working := tc_working c;
     tc_evaluatorDecisions := tc_evaluatorDecisions c;
     tc_pendingEvaluators := tc_pendingEvaluators c;
     tc_recoveryByKey := tc_recoveryByKey c;
     tc_transitions := tc_transitions c;
     tc_decisions := tc_decisions c;
     tc_intents := f (tc_intents c);
     tc_attempts := tc_attempts c;
     tc_recoveryDecisions := tc_recoveryDecisions c;
     tc_consumedObservationIds := tc_consumedObservationIds c;
     tc_cancelRequested := tc_cancelRequested c |}.
Definition upd_attempts (f : list StageAttempt -> list StageAttempt) (c : TickContext) : TickContext :=
  {| tc_env := tc_env c;
     tc_working := tc_working c;
     tc_evaluatorDecisions := tc_evaluatorDecisions c;
     tc_pendingEvaluators := tc_pendingEvaluators c;
     tc_recoveryByKey := tc_recoveryByKey c;
     tc_transitions := tc_transitions c;
     tc_decisions := tc_decisions c;
     tc_intents := tc_intents c;
     tc_attempts := f (tc_attempts c);
     tc_recoveryDecisions := tc_recoveryDecisions c;
     tc_consumedObservationIds := tc_consumedObservationIds c;
     tc_cancelRequested := tc_cancelRequested c |}.
Definition upd_recoveryDecisions (f : list PipelineRecoveryDecisionPlain -> list PipelineRecoveryDecisionPlain) (c : TickContext) : TickContext :=
  {| tc_env := tc_env c;
     tc_working := tc_working c;
     tc_evaluatorDecisions := tc_evaluatorDecisions c;
     tc_pendingEvaluators := tc_pendingEvaluators c;
     tc_recoveryByKey := tc_recoveryByKey c;
     tc_transitions := tc_transitions c;
     tc_decisions := tc_decisions c;
     tc_intents := tc_intents c;
     tc_attempts := tc_attempts c;
     tc_recoveryDecisions := f (tc_recoveryDecisions c);
     tc_consumedObservationIds := tc_consumedObservationIds c;
     tc_cancelRequested := tc_cancelRequested c |}.
Definition upd_consumedObservationIds (f : list string -> list string) (c : TickContext) : TickContext :=
  {| tc_env := tc_env c;
     tc_working := tc_working c;
     tc_evaluatorDecisions := tc_evaluatorDecisions c;
     tc_pendingEvaluators := tc_pendingEvaluators c;
     tc_recoveryByKey := tc_recoveryByKey c;
     tc_transitions := tc_transitions c;
     tc_decisions := tc_decisions c;
     tc_intents := tc_intents c;
     tc_attempts := tc_attempts c;
     tc_recoveryDecisions := tc_recoveryDecisions c;
     tc_consumedObservationIds := f (tc_consumedObservationIds c);
     tc_cancelRequested := tc_cancelRequested c |}.
Definition upd_cancelRequested (f : bool -> bool) (c : TickContext) : TickContext :=
  {| tc_env := tc_env c;
     tc_working := tc_working c;
     tc_evaluatorDecisions := tc_evaluatorDecisions c;
     tc_pendingEvaluators := tc_pendingEvaluators c;
     tc_recoveryByKey := tc_recoveryByKey c;
     tc_transitions := tc_transitions c;
     tc_decisions := tc_decisions c;
     tc_intents := tc_intents c;
     tc_attempts := tc_attempts c;
     tc_recoveryDecisions := tc_recoveryDecisions c;
     tc_consumedObservationIds := tc_consumedObservationIds c;
     tc_cancelRequested := f (tc_cancelRequested c) |}.

(** What a tick can throw: [assertPermittedTransition]'s error, a property of
    [undefined], or a run that does not return. *)
Inductive Thrown :=
| UndeclaredTransition (from to : PipelineStageState) (reason : PipelineTransitionReason)
| UndefinedValue
| Diverges.

Definition T (A : Type) : Type := ST TickContext Thrown A.

(** Aliases for the fields read through the context. *)
Definition tc_input (c : TickContext) : SchedulerInput := env_input (tc_env c).
Definition tc_graph (c : TickContext) : PipelineGraph := env_graph (tc_env c).
Definition tc_v2 (c : TickContext) : bool := env_v2 (tc_env c).
Definition tc_deadlineExceeded (c : TickContext) : bool := env_deadlineExceeded (tc_env c).

(** [ctx.v2 ? 2 : 1]. *)
Definition version (v2 : bool) : Z := if v2 then 2 else 1.

(** [ctx.working.get(stageId)!], a missing entry throwing at the first use. *)
Definition workingStage (stageId : string) : T StageSnapshot :=
  let* c := get in orThrow UndefinedValue (map_get (tc_working c) stageId).

(** [ctx.stagesById.get(stageId)!]. *)
Definition stageDefinition (stageId : string) : T PipelineStage :=
  let* c := get in orThrow UndefinedValue (map_get (env_stagesById (tc_env c)) stageId).

(** Assignment to the fields of the stage object kept under [stageId]. *)
Definition writeStage (stageId : string) (stage : StageSnapshot) : T unit :=
  modify (upd_working (fun w => map_set w stageId stage)).

(** ** Recovery counters *)

Definition recoveryKey (stageId : string) (generation : Z) : string :=
  stageId +:+ ":" +:+ num_text generation.

Definition emptyCounters : StageRecoveryCounters :=
  {| rc_repairsUsed := 0; rc_lastSignatureDigest := None; rc_identicalSignatureCount := 0;
     rc_pendingProposalId := None; rc_pendingDirective := None |}.

Definition getRecoveryCounters (stage : StageSnapshot) : T RecoveryEntry :=
  let* c := get in
  let key := recoveryKey (ss_stageId stage) (ss_generation stage) in
  match map_get (tc_recoveryByKey c) key with
  | Some existing => ret existing
  | None =>
      let created := {| re_generation := ss_generation stage; re_counters := emptyCounters |} in
      modify (upd_recoveryByKey (fun m => map_set m key created)) ;;;
      ret created
  end.

Definition setRecoveryCounters (stage : StageSnapshot) (counters : StageRecoveryCounters)
    : T unit :=
  modify (upd_recoveryByKey (fun m =>
    map_set m (recoveryKey (ss_stageId stage) (ss_generation stage))
      {| re_generation := ss_generation stage; re_counters := counters |})).

(** [key.slice(0, key.lastIndexOf(":"))]: the text before the last colon; a
    text without one loses its last character ([slice(0, -1)]). *)
Fixpoint beforeLastColon (s : string) : option string :=
  match s with
  | EmptyString => None
  | String c rest =>
      match beforeLastColon rest with
      | Some p => Some (String c p)
      | None => if bool_decide (c = colon) then Some EmptyString else None
      end
  end.

Fixpoint dropLastCharacter (s : string) : string :=
  match s with
  | EmptyString => EmptyString
  | String _ EmptyString => EmptyString
  | String c rest => String c (dropLastCharacter rest)
  end.

Definition recoveryKeyStage (key : string) : string :=
  default (dropLastCharacter key) (beforeLastColon key).

Definition recovery_state_lt (l r : StageRecoveryStatePlain) : bool :=
  if str_eqb (rs_stageId l) (rs_stageId r) then (rs_generation l <? rs_generation r)
  else str_ltb (rs_stageId l) (rs_stageId r).

Definition freezeRecoveryState (c : TickContext) : list StageRecoveryStatePlain :=
  sort_by recovery_state_lt
    (map (fun e : string * RecoveryEntry =>
       let '(key, entry) := e in
       let counters := re_counters entry in
       {| rs_stageId := recoveryKeyStage key;
          rs_generation := re_generation entry;
          rs_repairsUsed := rc_repairsUsed counters;
          rs_lastSignatureDigest := rc_lastSignatureDigest counters;
          rs_identicalSignatureCount := rc_identicalSignatureCount counters;
          rs_pendingProposalId := rc_pendingProposalId counters;
          rs_pendingProposalJson := proposal_with_mode <$> rc_pendingDirective counters;
          rs_pendingDirective := rc_pendingDirective counters |})
       (tc_recoveryByKey c)).

(** ** Snapshots and graph indexes *)

Definition freezeSnapshot (stage : StageSnapshot) : StageSnapshot :=
  {| ss_runId := ss_runId stage; ss_stageId := ss_stageId stage;
     ss_graphRevision := ss_graphRevision stage; ss_generation := ss_generation stage;
     ss_state := ss_state stage; ss_attemptOrdinal := ss_attemptOrdinal stage;
     ss_currentAttemptId := ss_currentAttemptId stage;
     ss_lastTransitionReason := ss_lastTransitionReason stage;
     ss_blockReason := ss_blockReason stage; ss_selected := ss_selected stage;
     ss_updatedAt := ss_updatedAt stage |}.

Definition cloneStage (snapshot : StageSnapshot) : StageSnapshot :=
  {| ss_runId := ss_runId snapshot; ss_stageId := ss_stageId snapshot;
     ss_graphRevision := ss_graphRevision snapshot; ss_generation := ss_generation snapshot;
     ss_state := ss_state snapshot; ss_attemptOrdinal := ss_attemptOrdinal snapshot;
     ss_currentAttemptId := ss_currentAttemptId snapshot;
     ss_lastTransitionReason := ss_lastTransitionReason snapshot;
     ss_blockReason := ss_blockReason snapshot; ss_selected := ss_selected snapshot;
     ss_updatedAt := ss_updatedAt snapshot |}.

(** [map.get(key)!.push(x)]: throws on a missing key. *)
Definition push_at {A} (m : list (string * list A)) (key : string) (x : A)
    : Thrown + list (string * list A) :=
  match map_get m key with
  | Some xs => inr (map_set m key (xs ++ [x]))
  | None => inl UndefinedValue
  end.

Definition emptyEdgeMap {A} (graph : PipelineGraph) : list (string * list A) :=
  fold_left (fun m stage => map_set m (ps_id stage) []) (pg_stages graph) [].

Fixpoint pushEdges (edges : list PipelineEdge)
    (incoming outgoing : list (string * list PipelineEdge))
    : Thrown + (list (string * list PipelineEdge) * list (string * list PipelineEdge)) :=
  match edges with
  | [] => inr (incoming, outgoing)
  | edge :: rest =>
      match push_at incoming (pe_to edge) edge with
      | inl e => inl e
      | inr incoming' =>
          match push_at outgoing (pe_from edge) edge with
          | inl e => inl e
          | inr outgoing' => pushEdges rest incoming' outgoing'
          end
      end
  end.

Definition buildEdgeMaps (graph : PipelineGraph)
    : Thrown + (list (string * list PipelineEdge) * list (string * list PipelineEdge)) :=
  pushEdges (pg_edges graph) (emptyEdgeMap graph) (emptyEdgeMap graph).

Fixpoint pushSuccessors (edges : list PipelineEdge) (successors : list (string * list string))
    : Thrown + list (string * list string) :=
  match edges with
  | [] => inr successors
  | edge :: rest =>
      match push_at successors (pe_from edge) (pe_to edge) with
      | inl e => inl e
      | inr successors' => pushSuccessors rest successors'
      end
  end.

(** The depth-first walk.  The head of [stack] is the element [pop] takes, so
    pushing children one by one puts them in reverse in front.  Each node's
    children are pushed once, so twice the number of edges bounds the pops. *)
Fixpoint walkDescendants (fuel : nat) (successors : list (string * list string))
    (stack seen : list string) : Thrown + list string :=
  match stack with
  | [] => inr seen
  | next :: stack' =>
      match fuel with
      | O => inl Diverges
      | S fuel' =>
          if set_has seen next then walkDescendants fuel' successors stack' seen
          else walkDescendants fuel' successors
                 (rev (default [] (map_get successors next)) ++ stack') (set_add seen next)
      end
  end.

Definition walkFuel (graph : PipelineGraph) : nat := S (2 * length (pg_edges graph)).

Fixpoint descendantsOf (fuel : nat) (successors : list (string * list string))
    (stages : list PipelineStage) (result : list (string * list string))
    : Thrown + list (string * list string) :=
  match stages with
  | [] => inr result
  | stage :: rest =>
      match map_get successors (ps_id stage) with
      | None => inl UndefinedValue
      | Some children =>
          match walkDescendants fuel successors (rev children) [] with
          | inl e => inl e
          | inr seen =>
              descendantsOf fuel successors rest (map_set result (ps_id stage) (sort_strings seen))
          end
      end
  end.

Definition buildDescendants (graph : PipelineGraph) : Thrown + list (string * list string) :=
  match pushSuccessors (pg_edges graph) (emptyEdgeMap graph) with
  | inl e => inl e
  | inr successors => descendantsOf (walkFuel graph) successors (pg_stages graph) []
  end.

(** ** Decisions and transitions *)

(** The second argument of [recordDecision]. *)
Record DecisionFields := {
  df_stageId : string;
  df_action : SchedulerDecisionAction;
  df_reason : SchedulerTransitionReason;
  df_fromState : option PipelineStageState;
  df_toState : option PipelineStageState;
  df_attemptId : option string;
  df_intentId : option string;
  df_detail : option string;
  df_generation : Z;
  df_attemptOrdinal : Z;
  df_recoveryDecisionId : option string;
  df_signatureDigest : option string
}.

Definition decisionIdOf (c : TickContext) (f : DecisionFields) : string :=
  deriveDecisionId (in_runId (tc_input c)) (in_graphRevision (tc_input c)) (df_stageId f)
    (df_generation f) (df_attemptOrdinal f) (action_text (df_action f)).

Definition buildSchedulerDecision (c : TickContext) (f : DecisionFields) : SchedulerDecision :=
  {| sd_schemaVersion := version (tc_v2 c);
     sd_decisionId := decisionIdOf c f;
     sd_runId := in_runId (tc_input c);
     sd_stageId := Some (df_stageId f);
     sd_graphRevision := in_graphRevision (tc_input c);
     sd_generation := df_generation f;
     sd_attemptOrdinal := df_attemptOrdinal f;
     sd_action := df_action f;
     sd_reason := df_reason f;
     sd_fromState := df_fromState f;
     sd_toState := df_toState f;
     sd_attemptId := df_attemptId f;
     sd_intentId := df_intentId f;
     sd_detail := df_detail f;
     sd_recordedAt := in_now (tc_input c);
     sd_recoveryDecisionId := df_recoveryDecisionId f;
     sd_signatureDigest := df_signatureDigest f |}.

Definition recordDecision (f : DecisionFields) : T unit :=
  let* c := get in
  let decisionId := decisionIdOf c f in
  if existsb (fun decision => str_eqb (sd_decisionId decision) decisionId) (tc_decisions c)
  then ret tt
  else modify (upd_decisions (fun ds => ds ++ [buildSchedulerDecision c f])).

(** The options of [applyTransition]; an absent option is [None] or [false]. *)
Record TransitionOptions := {
  opt_action : SchedulerDecisionAction;
  opt_attemptId : option string;
  opt_intentId : option string;
  opt_detail : option string;
  opt_blockReason : option string;
  opt_clearAttempt : bool;
  opt_selected : option bool;
  opt_decisionReason : option SchedulerTransitionReason;
  opt_recoveryDecisionId : option string;
  opt_signatureDigest : option string
}.

(** [{ action, attemptId }] with every other option absent. *)
Definition options (action : SchedulerDecisionAction) (attemptId : option string)
    : TransitionOptions :=
  {| opt_action := action; opt_attemptId := attemptId; opt_intentId := None;
     opt_detail := None; opt_blockReason := None; opt_clearAttempt := false;
     opt_selected := None; opt_decisionReason := None; opt_recoveryDecisionId := None;
     opt_signatureDigest := None |}.

Definition with_blockReason (r : string) (o : TransitionOptions) : TransitionOptions :=
  {| opt_action := opt_action o; opt_attemptId := opt_attemptId o;
     opt_intentId := opt_intentId o; opt_detail := opt_detail o;
     opt_blockReason := Some r; opt_clearAttempt := opt_clearAttempt o;
     opt_selected := opt_selected o; opt_decisionReason := opt_decisionReason o;
     opt_recoveryDecisionId := opt_recoveryDecisionId o;
     opt_signatureDigest := opt_signatureDigest o |}.

Definition with_clearAttempt (o : TransitionOptions) : TransitionOptions :=
  {| opt_action := opt_action o; opt_attemptId := opt_attemptId o;
     opt_intentId := opt_intentId o; opt_detail := opt_detail o;
     opt_blockReason := opt_blockReason o; opt_clearAttempt := true;
     opt_selected := opt_selected o; opt_decisionReason := opt_decisionReason o;
     opt_recoveryDecisionId := opt_recoveryDecisionId o;
     opt_signatureDigest := opt_signatureDigest o |}.

Definition with_selected (b : bool) (o : TransitionOptions) : TransitionOptions :=
  {| opt_action := opt_action o; opt_attemptId := opt_attemptId o;
     opt_intentId := opt_intentId o; opt_detail := opt_detail o;
     opt_blockReason := opt_blockReason o; opt_clearAttempt := opt_clearAttempt o;
     opt_selected := Some b; opt_decisionReason := opt_decisionReason o;
     opt_recoveryDecisionId := opt_recoveryDecisionId o;
     opt_signatureDigest := opt_signatureDigest o |}.

Definition with_intentId (i : string) (o : TransitionOptions) : TransitionOptions :=
  {| opt_action := opt_action o; opt_attemptId := opt_attemptId o;
     opt_intentId := Some i; opt_detail := opt_detail o;
     opt_blockReason := opt_blockReason o; opt_clearAttempt := opt_clearAttempt o;
     opt_selected := opt_selected o; opt_decisionReason := opt_decisionReason o;
     opt_recoveryDecisionId := opt_recoveryDecisionId o;
     opt_signatureDigest := opt_signatureDigest o |}.

(** [decisionReason], [recoveryDecisionId] and [signatureDigest] together. *)
Definition with_recovery (reason : SchedulerTransitionReason) (decisionId : string)
    (digest : option string) (o : TransitionOptions) : TransitionOptions :=
  {| opt_action := opt_action o; opt_attemptId := opt_attemptId o;
     opt_intentId := opt_intentId o; opt_detail := opt_detail o;
     opt_blockReason := opt_blockReason o; opt_clearAttempt := opt_clearAttempt o;
     opt_selected := opt_selected o; opt_decisionReason := Some reason;
     opt_recoveryDecisionId := Some decisionId; opt_signatureDigest := digest |}.

(** [left ?? right]. *)
Definition coalesce {A} (left right : option A) : option A :=
  match left with Some a => Some a | None => right end.

(** The stage fields [applyTransition] assigns. *)
Definition transitionedStage (now : string) (stage : StageSnapshot) (to : PipelineStageState)
    (reason : PipelineTransitionReason) (o : TransitionOptions) : StageSnapshot :=
  {| ss_runId := ss_runId stage;
     ss_stageId := ss_stageId stage;
     ss_graphRevision := ss_graphRevision stage;
     ss_generation := ss_generation stage;
     ss_state := to;
     ss_attemptOrdinal := ss_attemptOrdinal stage;
     ss_currentAttemptId :=
       if opt_clearAttempt o then None
       else coalesce (opt_attemptId o) (ss_currentAttemptId stage);
     ss_lastTransitionReason := Some reason;
     ss_blockReason :=
       match opt_blockReason o with
       | Some r => Some r
       | None => if state_eqb to blocked then ss_blockReason stage else None
       end;
     ss_selected := default (ss_selected stage) (opt_selected o);
     ss_updatedAt := now |}.

(** [assertPermittedTransition] of [transitions.ts]. *)
Definition assertPermittedTransition (from to : PipelineStageState)
    (reason : PipelineTransitionReason) : T unit :=
  if isPermittedTransition from to reason then ret tt
  else throw (UndeclaredTransition from to reason).

Definition applyTransition (stageId : string) (to : PipelineStageState)
    (reason : PipelineTransitionReason) (o : TransitionOptions) : T unit :=
  let* c := get in
  let* before := workingStage stageId in
  assertPermittedTransition (ss_state before) to reason ;;;
  let from := ss_state before in
  let stage := transitionedStage (in_now (tc_input c)) before to reason o in
  writeStage stageId stage ;;;
  modify (upd_transitions (fun ts => ts ++
    [{| tr_stageId := ss_stageId stage; tr_from := from; tr_to := to; tr_reason := reason;
        tr_attemptId := opt_attemptId o; tr_generation := ss_generation stage;
        tr_blockReason := opt_blockReason o |}])) ;;;
  recordDecision
    {| df_stageId := ss_stageId stage;
       df_action := opt_action o;
       df_reason := default (base_reason reason) (opt_decisionReason o);
       df_fromState := Some from;
       df_toState := Some to;
       df_attemptId := coalesce (opt_attemptId o) (ss_currentAttemptId stage);
       df_intentId := opt_intentId o;
       df_detail := coalesce (opt_detail o) (opt_blockReason o);
       df_generation := ss_generation stage;
       df_attemptOrdinal := ss_attemptOrdinal stage;
       df_recoveryDecisionId := opt_recoveryDecisionId o;
       df_signatureDigest := opt_signatureDigest o |}.

Definition maxRepairAttemptsFor (stage : PipelineStage) (graph : PipelineGraph)
    (effectiveLimits : option EffectiveLimitsPlain) : Z :=
  resolveRepairBudget
    {| rb_effectiveMaxRepairAttempts := effectiveLimits ≫= el_maxRepairAttempts;
       rb_stageMaxRepairAttempts := ps_limits stage ≫= sl_maxRepairAttempts;
       rb_pipelineMaxRepairAttempts := pl_maxRepairAttempts (pg_limits graph);
       rb_validationMaxAttempts := ps_onValidationFailure stage ≫= vp_maxAttempts |}.

(** ** Releasing stages *)

Definition producedWrites (c : TickContext) (excludingStageId : string) : list string :=
  fold_left
    (fun writes stage =>
       if str_eqb (ps_id stage) excludingStageId then writes
       else match map_get (tc_working c) (ps_id stage) with
            | Some projection =>
                if state_eqb (ss_state projection) succeeded
                then fold_left set_add (ps_writes stage) writes else writes
            | None => writes
            end)
    (pg_stages (tc_graph c)) [].

Inductive EdgeResolution :=
| edge_pending | edge_selected | edge_rejected | edge_blocked (reason : string) | edge_waived.

#[export] Instance EdgeResolution_eq_dec : EqDecision EdgeResolution.
Proof. solve_decision. Defined.

(** The evaluator branch at the end of [resolveIncomingEdge]. *)
Definition requestEvaluator (edge : PipelineEdge) (profile question : string)
    : T EdgeResolution :=
  let* c := get in
  let key := edgeKey (pe_from edge) (pe_to edge) in
  match map_get (tc_evaluatorDecisions c) key with
  | Some selected => ret (if selected then edge_selected else edge_rejected)
  | None =>
      if set_has (tc_pendingEvaluators c) key then ret edge_pending
      else
        let intentId :=
          deriveIntentId (in_runId (tc_input c)) (in_graphRevision (tc_input c))
            ik_evaluator key in
        if existsb (fun intent => str_eqb (si_intentId intent) intentId) (tc_intents c)
        then ret edge_pending
        else
          modify (upd_intents (fun intents => intents ++
            [{| si_schemaVersion := version (tc_v2 c); si_intentId := intentId;
                si_runId := in_runId (tc_input c);
                si_graphRevision := in_graphRevision (tc_input c);
                si_kind := ik_evaluator;
                si_payload := PayloadEvaluator (pe_from edge) (pe_to edge) profile question key;
                si_createdAt := in_now (tc_input c) |}])) ;;;
          modify (upd_pendingEvaluators (fun s => set_add s key)) ;;;
          let* target := workingStage (pe_to edge) in
          recordDecision
            {| df_stageId := pe_to edge; df_action := act_request_evaluator;
               df_reason := base_reason dependencies_satisfied;
               df_fromState := None; df_toState := None; df_attemptId := None;
               df_intentId := Some intentId; df_detail := Some key;
               df_generation := ss_generation target;
               df_attemptOrdinal := ss_attemptOrdinal target;
               df_recoveryDecisionId := None; df_signatureDigest := None |} ;;;
          ret edge_pending
  end.

Definition resolveIncomingEdge (edge : PipelineEdge) : T EdgeResolution :=
  let* c := get in
  let* predecessor := workingStage (pe_from edge) in
  if negb (ss_selected predecessor) && state_eqb (ss_state predecessor) cancelled
  then ret edge_rejected
  else if state_eqb (ss_state predecessor) blocked
  then ret (edge_blocked (default "predecessor_blocked" (ss_blockReason predecessor)))
  else if state_eqb (ss_state predecessor) failed
  then
    let* predecessorStage := stageDefinition (pe_from edge) in
    if ps_optional predecessorStage then ret edge_waived
    else ret (edge_blocked ("required predecessor " +:+ pe_from edge +:+ " failed"))
  else if state_eqb (ss_state predecessor) cancelled
  then
    if bool_decide (ss_lastTransitionReason predecessor = Some condition_not_selected)
    then ret edge_rejected
    else ret (edge_blocked ("predecessor " +:+ pe_from edge +:+ " cancelled"))
  else if negb (state_eqb (ss_state predecessor) succeeded) then ret edge_pending
  else
    match pe_condition edge with
    | None => ret edge_selected
    | Some (CExpression condition) =>
        match evaluateExpressionCondition condition (in_canonicalState (tc_input c)) with
        | None => throw Diverges
        | Some (EvalFail code message _) =>
            ret (edge_blocked (evaluation_code_text code +:+ ":" +:+ message))
        | Some (EvalOk value) => ret (if value then edge_selected else edge_rejected)
        end
    | Some (CEvaluator profile question) => requestEvaluator edge profile question
    end.

Definition unsatisfiedReads (c : TickContext) (stage : PipelineStage) : option string :=
  let available := producedWrites c (ps_id stage) in
  find (fun read =>
    existsb (fun candidate => negb (str_eqb (ps_id candidate) (ps_id stage)) &&
               bool_decide (read ∈ ps_writes candidate)) (pg_stages (tc_graph c)) &&
    negb (set_has available read)) (ps_reads stage).

(** [resolutions.find(status === "blocked")], with its reason. *)
Fixpoint firstBlocked (resolutions : list EdgeResolution) : option string :=
  match resolutions with
  | [] => None
  | edge_blocked reason :: _ => Some reason
  | _ :: rest => firstBlocked rest
  end.

Definition maybeReleaseStage (stageId : string) : T unit :=
  let* stage := workingStage stageId in
  if negb (ss_selected stage) || negb (state_eqb (ss_state stage) pending) then ret tt
  else
    let* c := get in
    if tc_cancelRequested c || tc_deadlineExceeded c then ret tt
    else
      match default [] (map_get (env_incoming (tc_env c)) stageId) with
      | [] => applyTransition stageId ready root_eligible (options act_release None)
      | edges =>
          let* resolutions := mapM resolveIncomingEdge edges in
          if existsb (fun r => bool_decide (r = edge_pending)) resolutions then ret tt
          else
            match firstBlocked resolutions with
            | Some reason =>
                applyTransition stageId blocked dependency_unsatisfied
                  (with_blockReason reason (options act_block None))
            | None =>
                if negb (existsb (fun r => bool_decide (r = edge_selected)) resolutions)
                then applyTransition stageId cancelled condition_not_selected
                       (with_selected false (with_clearAttempt (options act_cancel None)))
                else
                  let* definition := stageDefinition stageId in
                  let* c' := get in
                  match unsatisfiedReads c' definition with
                  | Some missingRead =>
                      applyTransition stageId blocked dependency_unsatisfied
                        (with_blockReason ("unsatisfied read " +:+ missingRead)
                           (options act_block None))
                  | None =>
                      applyTransition stageId ready dependencies_satisfied
                        (options act_release None)
                  end
            end
      end.

(** ** Cancellation *)

Definition cancelInactiveStage (stageId : string) (reason : PipelineTransitionReason) : T unit :=
  let* stage := workingStage stageId in
  if state_eqb (ss_state stage) pending || state_eqb (ss_state stage) ready ||
     state_eqb (ss_state stage) retrying
  then applyTransition stageId cancelled reason (with_clearAttempt (options act_cancel None))
  else ret tt.

(** [queued], [running] or [waiting]: the stage holds a worker. *)
Definition isActive (s : PipelineStageState) : bool :=
  state_eqb s queued || state_eqb s running || state_eqb s waiting.

Definition requestCancelForActive (stageId : string) : T unit :=
  let* stage := workingStage stageId in
  if negb (isActive (ss_state stage)) then ret tt
  else
    match ss_currentAttemptId stage with
    | None => ret tt
    | Some attemptId =>
        let* c := get in
        let intentId :=
          deriveIntentId (in_runId (tc_input c)) (in_graphRevision (tc_input c)) ik_cancel
            (attemptKey (ss_stageId stage) (ss_generation stage) (ss_attemptOrdinal stage)) in
        if existsb (fun intent => str_eqb (si_intentId intent) intentId) (tc_intents c)
        then ret tt
        else
          modify (upd_intents (fun intents => intents ++
            [{| si_schemaVersion := version (tc_v2 c); si_intentId := intentId;
                si_runId := in_runId (tc_input c);
                si_graphRevision := in_graphRevision (tc_input c);
                si_kind := ik_cancel;
                si_payload := PayloadCancel (ss_stageId stage) attemptId
                                (ss_generation stage) (ss_attemptOrdinal stage);
                si_createdAt := in_now (tc_input c) |}])) ;;;
          recordDecision
            {| df_stageId := ss_stageId stage; df_action := act_request_cancel;
               df_reason := base_reason cancel_requested;
               df_fromState := None; df_toState := None; df_attemptId := Some attemptId;
               df_intentId := Some intentId; df_detail := None;
               df_generation := ss_generation stage;
               df_attemptOrdinal := ss_attemptOrdinal stage;
               df_recoveryDecisionId := None; df_signatureDigest := None |}
    end.

(** ** Observations *)

(** The fields a manual rerun resets, with the state it leaves. *)
Definition rerunStage (now : string) (stage : StageSnapshot) : StageSnapshot :=
  {| ss_runId := ss_runId stage;
     ss_stageId := ss_stageId stage;
     ss_graphRevision := ss_graphRevision stage;
     ss_generation := ss_generation stage + 1;
     ss_state := pending;
     ss_attemptOrdinal := 0;
     ss_currentAttemptId := None;
     ss_lastTransitionReason := Some manual_rerun;
     ss_blockReason := None;
     ss_selected := true;
     ss_updatedAt := now |}.

(** The body of [processManualRerun]'s loop. *)
Definition rerunTarget (targetId : string) : T unit :=
  let* stage := workingStage targetId in
  if negb (isTerminalStageState (ss_state stage)) && negb (state_eqb (ss_state stage) pending)
  then ret tt
  else
    let* c := get in
    let from := ss_state stage in
    let stage' := rerunStage (in_now (tc_input c)) stage in
    setRecoveryCounters stage' emptyCounters ;;;
    (if negb (state_eqb from pending) then
       assertPermittedTransition from pending manual_rerun ;;;
       writeStage targetId stage' ;;;
       modify (upd_transitions (fun ts => ts ++
         [{| tr_stageId := ss_stageId stage'; tr_from := from; tr_to := pending;
             tr_reason := manual_rerun; tr_attemptId := None;
             tr_generation := ss_generation stage'; tr_blockReason := None |}]))
     else writeStage targetId stage') ;;;
    recordDecision
      {| df_stageId := ss_stageId stage'; df_action := act_rerun;
         df_reason := base_reason manual_rerun;
         df_fromState := Some from; df_toState := Some pending; df_attemptId := None;
         df_intentId := None; df_detail := None;
         df_generation := ss_generation stage'; df_attemptOrdinal := 0;
         df_recoveryDecisionId := None; df_signatureDigest := None |}.

Definition processManualRerun (stageId : string) : T unit :=
  let* c := get in
  match map_get (tc_working c) stageId with
  | None => ret tt
  | Some _ =>
      let targets :=
        sort_strings (stageId :: default [] (map_get (env_descendants (tc_env c)) stageId)) in
      forM targets rerunTarget
  end.

(** [observation.flag === true]. *)
Definition is_true (o : option bool) : bool := default false o.

Definition resolveFailureFromObservation (observation : SchedulerObservation)
    : option PipelineFailurePlain :=
  match so_failure observation with
  | Some failure => Some failure
  | None =>
      match so_classification observation, so_phase observation, so_code observation with
      | Some classification, Some phase, Some code =>
          Some (classifyFailure
            {| ci_classification := classification; ci_phase := phase; ci_code := code;
               ci_retryable := is_true (so_retryable observation);
               ci_backendClassification := so_backendClassification observation;
               ci_validationFailures := so_validationFailures observation |})
      | _, _, _ => None
      end
  end.

Definition failTransitionReason (r : FailReason) : PipelineTransitionReason :=
  match r with
  | fr_repair_exhausted | fr_unchanged_failure_exhausted => retry_exhausted
  | _ => attempt_failed
  end.

Definition failDecisionReason (r : FailReason) : SchedulerTransitionReason :=
  match r with
  | fr_repair_exhausted => repair_exhausted_reason
  | fr_unchanged_failure_exhausted => unchanged_failure_exhausted_reason
  | fr_recovery_rejected => recovery_rejected_reason
  | fr_attempt_failed => base_reason attempt_failed
  end.

Definition applyRecoveryDecision (stageId : string) (observation : SchedulerObservation)
    (result : DecideRecoveryResult) : T unit :=
  let* stage := workingStage stageId in
  let decision := result_decision result in
  modify (upd_recoveryDecisions (fun ds => ds ++ [decision])) ;;;
  setRecoveryCounters stage (result_counters result) ;;;
  let attemptId := coalesce (so_attemptId observation) (ss_currentAttemptId stage) in
  let digest := sg_digest <$> pr_signature decision in
  match result with
  | DRFail reason _ _ =>
      applyTransition stageId failed (failTransitionReason reason)
        (with_recovery (failDecisionReason reason) (pr_decisionId decision) digest
           (options act_fail attemptId))
  | DRBlock _ blockReason _ _ =>
      applyTransition stageId blocked condition_blocked
        (with_recovery (base_reason condition_blocked) (pr_decisionId decision) digest
           (with_blockReason blockReason (options act_block attemptId)))
  | DRPropose _ _ _ =>
      applyTransition stageId waiting attempt_waiting
        (with_recovery recovery_proposed_reason (pr_decisionId decision) digest
           (options act_propose_recovery attemptId))
  | DRRetry reason _ _ _ =>
      applyTransition stageId retrying retry_scheduled
        (with_recovery
           (match reason with
            | rr_recovery_approved => recovery_approved_reason
            | rr_retry_scheduled => base_reason retry_scheduled
            end) (pr_decisionId decision) digest
           (options (match reason with
                     | rr_recovery_approved => act_approve_recovery
                     | rr_retry_scheduled => act_retry
                     end) attemptId))
  end.

(** The input [processAttemptFailed] hands to [decideRecovery]. *)
Definition recoveryInput (c : TickContext) (stage : StageSnapshot) (definition : PipelineStage)
    (observation : SchedulerObservation) (failure : PipelineFailurePlain)
    (counters : StageRecoveryCounters) : DecideRecoveryInput :=
  {| di_runId := in_runId (tc_input c);
     di_stageId := ss_stageId stage;
     di_graphRevision := in_graphRevision (tc_input c);
     di_generation := ss_generation stage;
     di_attemptOrdinal := ss_attemptOrdinal stage;
     di_now := in_now (tc_input c);
     di_failure := failure;
     di_stageType := stage_type_text (ps_type definition);
     di_sessionPolicy := ps_session definition;
     di_onValidationFailure := ps_onValidationFailure definition;
     di_executionMode := default (ps_mode definition) (in_executionMode (tc_input c));
     di_counters := counters;
     di_repairBudget :=
       maxRepairAttemptsFor definition (tc_graph c) (in_effectiveLimits (tc_input c));
     di_priorAttemptId := coalesce (so_attemptId observation) (ss_currentAttemptId stage);
     di_priorBackendExecutionId := so_priorBackendExecutionId observation;
     di_resumeAvailable := is_true (so_resumeAvailable observation) |}.

Definition processAttemptFailed `{Sha256} (stageId : string)
    (observation : SchedulerObservation) : T unit :=
  let* stage := workingStage stageId in
  if negb (state_eqb (ss_state stage) running) && negb (state_eqb (ss_state stage) waiting)
  then ret tt
  else
    let* definition := stageDefinition (ss_stageId stage) in
    let* c := get in
    match resolveFailureFromObservation observation with
    | Some failure =>
        let* counters := getRecoveryCounters stage in
        applyRecoveryDecision stageId observation
          (decideRecovery (recoveryInput c stage definition observation failure
                             (re_counters counters)))
    | None =>
        let maxRepairs :=
          maxRepairAttemptsFor definition (tc_graph c) (in_effectiveLimits (tc_input c)) in
        let repairsUsed := Z.max 0 (ss_attemptOrdinal stage - 1) in
        let canRetry := is_true (so_retryable observation) && (repairsUsed <? maxRepairs) in
        let attemptId := coalesce (so_attemptId observation) (ss_currentAttemptId stage) in
        if canRetry
        then applyTransition stageId retrying retry_scheduled (options act_retry attemptId)
        else applyTransition stageId failed
               (if (maxRepairs <=? repairsUsed) && is_true (so_retryable observation)
                then retry_exhausted else attempt_failed)
               (options act_fail attemptId)
    end.

(** The recovery decision the approve and reject handlers record. *)
Definition operatorDecision (c : TickContext) (stage : StageSnapshot)
    (definition : PipelineStage) (action : RecoveryAction) (outcome : RecoveryOutcome)
    (directive : option PipelineRetryDirectivePlain) (proposalId : option string)
    (counters : StageRecoveryCounters) : PipelineRecoveryDecisionPlain :=
  {| pr_decisionId :=
       deriveRecoveryDecisionId (in_runId (tc_input c)) (in_graphRevision (tc_input c))
         (ss_stageId stage) (ss_generation stage) (ss_attemptOrdinal stage)
         (recovery_action_text action);
     pr_runId := in_runId (tc_input c);
     pr_stageId := ss_stageId stage;
     pr_graphRevision := in_graphRevision (tc_input c);
     pr_generation := ss_generation stage;
     pr_attemptOrdinal := ss_attemptOrdinal stage;
     pr_action := action;
     pr_outcome := outcome;
     pr_failure := None;
     pr_signature := None;
     pr_directive := directive;
     pr_proposalId := proposalId;
     pr_repairsUsed := rc_repairsUsed counters;
     pr_repairBudget :=
       maxRepairAttemptsFor definition (tc_graph c) (in_effectiveLimits (tc_input c));
     pr_identicalSignatureCount := rc_identicalSignatureCount counters;
     pr_detail := None;
     pr_recordedAt := in_now (tc_input c) |}.

(** Counters with the pending fields replaced. *)
Definition counters_with (repairsUsed : Z) (directive : option PipelineRetryDirectivePlain)
    (counters : StageRecoveryCounters) : StageRecoveryCounters :=
  {| rc_repairsUsed := repairsUsed;
     rc_lastSignatureDigest := rc_lastSignatureDigest counters;
     rc_identicalSignatureCount := rc_identicalSignatureCount counters;
     rc_pendingProposalId := None;
     rc_pendingDirective := directive |}.

Definition directive_outcome (d : PipelineRetryDirectivePlain) : RecoveryOutcome :=
  match rd_mode d with
  | mode_delegate => ro_delegate
  | mode_resume => ro_repair
  | mode_fresh => ro_repair_fresh
  end.

Definition processRecoveryApproved (stageId : string) (observation : SchedulerObservation)
    : T unit :=
  let* stage := workingStage stageId in
  if negb (state_eqb (ss_state stage) waiting) then ret tt
  else
    let* entry := getRecoveryCounters stage in
    let counters := re_counters entry in
    match so_proposalId observation, rc_pendingProposalId counters,
          rc_pendingDirective counters with
    | Some proposalId, Some pendingProposalId, Some directive =>
        if negb (str_eqb proposalId pendingProposalId) then ret tt
        else
          let* c := get in
          let* definition := stageDefinition (ss_stageId stage) in
          let nextCounters :=
            counters_with (rc_repairsUsed counters + 1) (Some directive) counters in
          let recoveryDecision :=
            operatorDecision c stage definition ra_approve (directive_outcome directive)
              (Some directive) (Some proposalId) nextCounters in
          modify (upd_recoveryDecisions (fun ds => ds ++ [recoveryDecision])) ;;;
          setRecoveryCounters stage nextCounters ;;;
          applyTransition stageId retrying retry_scheduled
            (with_recovery recovery_approved_reason (pr_decisionId recoveryDecision) None
               (options act_approve_recovery
                  (coalesce (so_attemptId observation) (ss_currentAttemptId stage))))
    | _, _, _ => ret tt
    end.

Definition processRecoveryRejected (stageId : string) (observation : SchedulerObservation)
    : T unit :=
  let* stage := workingStage stageId in
  if negb (state_eqb (ss_state stage) waiting) then ret tt
  else
    let* entry := getRecoveryCounters stage in
    let counters := re_counters entry in
    let mismatch :=
      match so_proposalId observation, rc_pendingProposalId counters with
      | Some proposalId, Some pendingProposalId => negb (str_eqb proposalId pendingProposalId)
      | _, _ => false
      end in
    if mismatch then ret tt
    else
      let* c := get in
      let* definition := stageDefinition (ss_stageId stage) in
      let recoveryDecision :=
        operatorDecision c stage definition ra_reject ro_rejected None
          (so_proposalId observation) counters in
      modify (upd_recoveryDecisions (fun ds => ds ++ [recoveryDecision])) ;;;
      setRecoveryCounters stage (counters_with (rc_repairsUsed counters) None counters) ;;;
      applyTransition stageId failed attempt_failed
        (with_recovery recovery_rejected_reason (pr_decisionId recoveryDecision) None
           (options act_reject_recovery
              (coalesce (so_attemptId observation) (ss_currentAttemptId stage)))).

(** [edgeKey.split("->")[1] ?? observation.stageId ?? "unknown"]. *)
Definition evaluatorTarget (key : string) (stageId : option string) : string :=
  default "unknown" (coalesce (js_split "->" key !! 1%nat) stageId).

Definition processEvaluatorDecided (observation : SchedulerObservation) : T unit :=
  match so_edgeKey observation, so_selected observation with
  | Some key, Some selected =>
      modify (upd_evaluatorDecisions (fun m => map_set m key selected)) ;;;
      modify (upd_pendingEvaluators (fun s => set_delete s key)) ;;;
      let stageId := evaluatorTarget key (so_stageId observation) in
      let* c := get in
      let stage := map_get (tc_working c) stageId in
      recordDecision
        {| df_stageId := stageId;
           df_action := if selected then act_select_edge else act_reject_edge;
           df_reason := base_reason
             (if selected then dependencies_satisfied else condition_not_selected);
           df_fromState := None; df_toState := None; df_attemptId := None;
           df_intentId := None; df_detail := Some key;
           df_generation := default 1 (ss_generation <$> stage);
           df_attemptOrdinal := default 0 (ss_attemptOrdinal <$> stage);
           df_recoveryDecisionId := None; df_signatureDigest := None |}
  | _, _ => ret tt
  end.

(** The second [switch] of [processObservation], for a known stage. *)
Definition processStageObservation `{Sha256} (stageId : string)
    (observation : SchedulerObservation) : T unit :=
  let* stage := workingStage stageId in
  let attemptId := coalesce (so_attemptId observation) (ss_currentAttemptId stage) in
  match so_kind observation with
  | ob_attempt_started =>
      if state_eqb (ss_state stage) queued || state_eqb (ss_state stage) waiting
      then applyTransition stageId running attempt_started (options act_start attemptId)
      else ret tt
  | ob_attempt_waiting =>
      if state_eqb (ss_state stage) running
      then applyTransition stageId waiting attempt_waiting (options act_wait attemptId)
      else ret tt
  | ob_attempt_succeeded =>
      if state_eqb (ss_state stage) running || state_eqb (ss_state stage) waiting
      then applyTransition stageId succeeded attempt_succeeded (options act_succeed attemptId)
      else ret tt
  | ob_attempt_failed => processAttemptFailed stageId observation
  | ob_recovery_approved => processRecoveryApproved stageId observation
  | ob_recovery_rejected => processRecoveryRejected stageId observation
  | ob_cancellation_settled =>
      if isActive (ss_state stage)
      then applyTransition stageId cancelled cancellation_settled (options act_cancel attemptId)
      else ret tt
  | _ => ret tt
  end.

Definition processObservation `{Sha256} (observation : SchedulerObservation) : T unit :=
  modify (upd_consumedObservationIds (fun ids => ids ++ [so_observationId observation])) ;;;
  match so_kind observation with
  | ob_cancel_requested => modify (upd_cancelRequested (fun _ => true))
  | ob_manual_rerun =>
      match so_stageId observation with
      | Some stageId => processManualRerun stageId
      | None => ret tt
      end
  | ob_evaluator_decided => processEvaluatorDecided observation
  | _ =>
      match so_stageId observation with
      | None => ret tt
      | Some stageId =>
          let* c := get in
          match map_get (tc_working c) stageId with
          | None => ret tt
          | Some _ => processStageObservation stageId observation
          end
      end
  end.

(** ** Re-arming, queueing and the verdict *)

Definition rearmStage (stageId : string) : T unit :=
  let* stage := workingStage stageId in
  if negb (state_eqb (ss_state stage) retrying) then ret tt
  else
    let* c := get in
    if tc_cancelRequested c || tc_deadlineExceeded c then ret tt
    else applyTransition stageId ready retry_scheduled
           (with_clearAttempt (options act_rearm None)).

Definition rearmRetries (retryingAtTickStart : list string) : T unit :=
  forM (sort_strings retryingAtTickStart) rearmStage.

Definition bumpAttemptOrdinal (stage : StageSnapshot) : StageSnapshot :=
  {| ss_runId := ss_runId stage; ss_stageId := ss_stageId stage;
     ss_graphRevision := ss_graphRevision stage; ss_generation := ss_generation stage;
     ss_state := ss_state stage; ss_attemptOrdinal := ss_attemptOrdinal stage + 1;
     ss_currentAttemptId := ss_currentAttemptId stage;
     ss_lastTransitionReason := ss_lastTransitionReason stage;
     ss_blockReason := ss_blockReason stage; ss_selected := ss_selected stage;
     ss_updatedAt := ss_updatedAt stage |}.

(** The attempt row of a dispatch. *)
Definition buildAttempt (c : TickContext) (stage : StageSnapshot) (definition : PipelineStage)
    (attemptId : string) (directive : option PipelineRetryDirectivePlain) : StageAttempt :=
  {| sa_schemaVersion :=
       version (tc_v2 c || match directive with Some _ => true | None => false end);
     sa_attemptId := attemptId;
     sa_runId := in_runId (tc_input c);
     sa_pipelineId := in_pipelineId (tc_input c);
     sa_stageId := ss_stageId stage;
     sa_graphRevision := in_graphRevision (tc_input c);
     sa_generation := ss_generation stage;
     sa_attemptOrdinal := ss_attemptOrdinal stage;
     sa_stageType := stage_type_text (ps_type definition);
     sa_createdAt := in_now (tc_input c);
     sa_sessionPolicy := rd_sessionPolicy <$> directive;
     sa_priorAttemptId := directive ≫= rd_priorAttemptId;
     sa_recoveryDecisionId :=
       match directive with
       | None => None
       | Some _ =>
           pr_decisionId <$>
           find (fun decision => str_eqb (pr_stageId decision) (ss_stageId stage))
             (rev (tc_recoveryDecisions c))
       end;
     sa_delegatedProfileId := directive ≫= rd_delegateTo;
     sa_retryDirective := directive |}.

(** The body of [queueReadyStages]'s loop after its guards. *)
Definition dispatchStage (stageId : string) : T unit :=
  let* definition := stageDefinition stageId in
  let* ready_stage := workingStage stageId in
  let stage := bumpAttemptOrdinal ready_stage in
  writeStage stageId stage ;;;
  let* c := get in
  let attemptId :=
    deriveAttemptId (in_runId (tc_input c)) (in_graphRevision (tc_input c)) (ss_stageId stage)
      (ss_generation stage) (ss_attemptOrdinal stage) in
  let intentId :=
    deriveIntentId (in_runId (tc_input c)) (in_graphRevision (tc_input c)) ik_dispatch
      (attemptKey (ss_stageId stage) (ss_generation stage) (ss_attemptOrdinal stage)) in
  let* entry := getRecoveryCounters stage in
  let counters := re_counters entry in
  let directive := rc_pendingDirective counters in
  let attempt := buildAttempt c stage definition attemptId directive in
  match directive with
  | Some _ => setRecoveryCounters stage (counters_with (rc_repairsUsed counters) None counters)
  | None => ret tt
  end ;;;
  modify (upd_attempts (fun attempts => attempts ++ [attempt])) ;;;
  modify (upd_intents (fun intents => intents ++
    [{| si_schemaVersion := version (tc_v2 c); si_intentId := intentId;
        si_runId := in_runId (tc_input c);
        si_graphRevision := in_graphRevision (tc_input c);
        si_kind := ik_dispatch;
        si_payload := PayloadDispatch (ss_stageId stage) (stage_type_text (ps_type definition))
                        attemptId (ss_generation stage) (ss_attemptOrdinal stage) directive;
        si_createdAt := in_now (tc_input c) |}])) ;;;
  applyTransition stageId queued dispatch_intent
    (with_intentId intentId (options act_queue (Some attemptId))).

Definition countActive (stages : list StageSnapshot) : Z :=
  Z.of_nat (length (filter (fun s => isActive (ss_state s) = true) stages)).

(** [maxConcurrent !== undefined && inFlight >= maxConcurrent]. *)
Definition atCapacity (maxConcurrent : option Z) (inFlight : Z) : bool :=
  match maxConcurrent with Some m => m <=? inFlight | None => false end.

(** The loop: [continue] goes on with the rest, [break] ends it. *)
Fixpoint queueLoop (maxConcurrent : option Z) (inFlight : Z) (stageIds : list string) : T unit :=
  match stageIds with
  | [] => ret tt
  | stageId :: rest =>
      let* stage := workingStage stageId in
      if negb (state_eqb (ss_state stage) ready) || negb (ss_selected stage)
      then queueLoop maxConcurrent inFlight rest
      else
        let* c := get in
        if tc_cancelRequested c || tc_deadlineExceeded c
        then queueLoop maxConcurrent inFlight rest
        else if atCapacity maxConcurrent inFlight then ret tt
        else dispatchStage stageId ;;; queueLoop maxConcurrent (inFlight + 1) rest
  end.

Definition tickConcurrency (c : TickContext) : option Z :=
  resolveEffectiveConcurrency
    {| rc_effectiveMaxConcurrentWorkers :=
         in_effectiveLimits (tc_input c) ≫= el_maxConcurrentWorkers;
       rc_pipelineMaxConcurrentWorkers := pl_maxConcurrentWorkers (pg_limits (tc_graph c)) |}.

Definition queueReadyStages : T unit :=
  let* c := get in
  queueLoop (tickConcurrency c) (countActive (map_values (tc_working c)))
    (sort_strings (map_keys (tc_working c))).

Definition has_state (s : PipelineStageState) (stage : StageSnapshot) : bool :=
  state_eqb (ss_state stage) s.

(** [state === "failed" && !stagesById.get(stageId)!.optional] for some stage. *)
Fixpoint requiredFailed (stagesById : list (string * PipelineStage))
    (stages : list StageSnapshot) : Thrown + bool :=
  match stages with
  | [] => inr false
  | stage :: rest =>
      if negb (has_state failed stage) then requiredFailed stagesById rest
      else match map_get stagesById (ss_stageId stage) with
           | None => inl UndefinedValue
           | Some definition =>
               if negb (ps_optional definition) then inr true
               else requiredFailed stagesById rest
           end
  end.

Definition terminalVerdict (outcome : TerminalOutcome) (reason : string) : ScheduleTerminal :=
  {| te_outcome := outcome; te_reason := reason; te_blockedStageId := None |}.

Definition computeTerminal : T (option ScheduleTerminal) :=
  let* c := get in
  let stages := map_values (tc_working c) in
  if existsb (fun stage => negb (isTerminalStageState (ss_state stage))) stages then ret None
  else
    match find (has_state blocked) stages with
    | Some stage =>
        ret (Some {| te_outcome := out_blocked;
                     te_reason := default "stage_blocked" (ss_blockReason stage);
                     te_blockedStageId := Some (ss_stageId stage) |})
    | None =>
        if tc_cancelRequested c || forallb (has_state cancelled) stages
        then ret (Some (terminalVerdict out_cancelled
               (if tc_deadlineExceeded c then "deadline_exceeded" else "cancel_requested")))
        else
          match requiredFailed (env_stagesById (tc_env c)) stages with
          | inl e => throw e
          | inr true => ret (Some (terminalVerdict out_failed "required_stage_failed"))
          | inr false =>
              let anySucceeded := existsb (has_state succeeded) stages in
              if anySucceeded ||
                 forallb (fun s => has_state cancelled s || has_state failed s) stages
              then
                if negb anySucceeded && forallb (has_state cancelled) stages
                then ret (Some (terminalVerdict out_cancelled "all_stages_cancelled"))
                else ret (Some (terminalVerdict out_succeeded "graph_complete"))
              else ret (Some (terminalVerdict out_succeeded "graph_complete"))
          end
    end.

(** ** The tick *)

Definition decision_lt (l r : SchedulerDecision) : bool :=
  let leftStage := default "" (sd_stageId l) in
  let rightStage := default "" (sd_stageId r) in
  if negb (str_eqb leftStage rightStage) then str_ltb leftStage rightStage
  else str_ltb (sd_decisionId l) (sd_decisionId r).

Definition sortDecisions (decisions : list SchedulerDecision) : list SchedulerDecision :=
  sort_by decision_lt decisions.

(** A stage without a snapshot starts pending. *)
Definition defaultStage (input : SchedulerInput) (stageId : string) : StageSnapshot :=
  {| ss_runId := in_runId input; ss_stageId := stageId;
     ss_graphRevision := in_graphRevision input; ss_generation := 1; ss_state := pending;
     ss_attemptOrdinal := 0; ss_currentAttemptId := None; ss_lastTransitionReason := None;
     ss_blockReason := None; ss_selected := true; ss_updatedAt := in_now input |}.

Definition initialWorking (input : SchedulerInput) : list (string * StageSnapshot) :=
  let snapshots :=
    fold_left (fun w snapshot => map_set w (ss_stageId snapshot) (cloneStage snapshot))
      (in_stages input) [] in
  fold_left
    (fun w stage =>
       if map_has w (ps_id stage) then w
       else map_set w (ps_id stage) (defaultStage input (ps_id stage)))
    (pg_stages (in_graph input)) snapshots.

Definition initialDirective (entry : StageRecoveryStatePlain)
    : option PipelineRetryDirectivePlain :=
  match rs_pendingDirective entry with
  | Some directive => Some directive
  | None =>
      match rs_pendingProposalJson entry with
      | Some (proposal_with_mode directive) => Some directive
      | _ => None
      end
  end.

Definition initialRecovery (input : SchedulerInput) : list (string * RecoveryEntry) :=
  fold_left
    (fun m entry =>
       map_set m (recoveryKey (rs_stageId entry) (rs_generation entry))
         {| re_generation := rs_generation entry;
            re_counters :=
              {| rc_repairsUsed := rs_repairsUsed entry;
                 rc_lastSignatureDigest := rs_lastSignatureDigest entry;
                 rc_identicalSignatureCount := rs_identicalSignatureCount entry;
                 rc_pendingProposalId := rs_pendingProposalId entry;
                 rc_pendingDirective := initialDirective entry |} |})
    (default [] (in_recoveryState input)) [].

Definition createTickContext (input : SchedulerInput) (v2 : bool) : Thrown + TickContext :=
  let graph := in_graph input in
  match buildEdgeMaps graph with
  | inl e => inl e
  | inr (incoming, outgoing) =>
      match buildDescendants graph with
      | inl e => inl e
      | inr descendants =>
          inr {| tc_env :=
                   {| env_input := input;
                      env_graph := graph;
                      env_stagesById :=
                        map_of (map (fun stage => (ps_id stage, stage)) (pg_stages graph));
                      env_incoming := incoming;
                      env_outgoing := outgoing;
                      env_descendants := descendants;
                      env_v2 := v2;
                      env_deadlineExceeded :=
                        match in_deadlineAt input with
                        | Some deadline => negb (str_ltb (in_now input) deadline)
                        | None => false
                        end |};
                 tc_working := initialWorking input;
                 tc_evaluatorDecisions :=
                   map_of (map (fun entry => (ed_edgeKey entry, ed_selected entry))
                             (in_evaluatorDecisions input));
                 tc_pendingEvaluators := set_of (in_pendingEvaluatorEdgeKeys input);
                 tc_recoveryByKey := initialRecovery input;
                 tc_transitions := [];
                 tc_decisions := [];
                 tc_intents := [];
                 tc_attempts := [];
                 tc_recoveryDecisions := [];
                 tc_consumedObservationIds := [];
                 tc_cancelRequested := false |}
      end
  end.

Definition observation_lt (l r : SchedulerObservation) : bool :=
  if negb (str_eqb (so_recordedAt l) (so_recordedAt r))
  then str_ltb (so_recordedAt l) (so_recordedAt r)
  else str_ltb (so_observationId l) (so_observationId r).

(** [new Set(...)] of the stages that are [retrying] when the tick starts. *)
Definition retryingStages (c : TickContext) : list string :=
  set_of (map ss_stageId (filter (fun s => has_state retrying s = true)
                            (map_values (tc_working c)))).

(** The sweep under cancellation or a passed deadline. *)
Definition cancellationSweep : T unit :=
  let* c := get in
  let cancelReason := if tc_deadlineExceeded c then deadline_exceeded else pipeline_cancelled in
  if tc_cancelRequested c || tc_deadlineExceeded c then
    forM (sort_strings (map_keys (tc_working c))) (fun stageId =>
      cancelInactiveStage stageId cancelReason ;;;
      requestCancelForActive stageId)
  else ret tt.

Definition releasePass : T unit :=
  let* c := get in
  forM (sort_strings (map_keys (tc_working c))) maybeReleaseStage.

Definition progressMeasure (c : TickContext) : nat :=
  (length (tc_transitions c) + length (tc_intents c))%nat.

(** [while (progressed)]: [fuel] bounds the passes. *)
Fixpoint releaseLoop (fuel : nat) : T unit :=
  match fuel with
  | O => throw Diverges
  | S fuel' =>
      let* before := get in
      releasePass ;;;
      let* after := get in
      if (progressMeasure before <? progressMeasure after)%nat then releaseLoop fuel'
      else ret tt
  end.

(** A pass that makes progress releases a stage or requests an evaluator for an
    edge, so one pass more than stages and edges together is enough. *)
Definition releaseFuel (c : TickContext) : nat :=
  S (length (tc_working c) + length (pg_edges (tc_graph c))).

Definition terminalReason (o : TerminalOutcome) : PipelineTransitionReason :=
  match o with
  | out_blocked => dependency_unsatisfied
  | out_cancelled => pipeline_cancelled
  | out_failed => attempt_failed
  | out_succeeded => attempt_succeeded
  end.

(** The decision row of a verdict. *)
Definition recordTerminal (terminal : ScheduleTerminal) : T unit :=
  let* c := get in
  let* stageId :=
    match te_blockedStageId terminal with
    | Some id => ret id
    | None => let* first := orThrow UndefinedValue (head (pg_stages (tc_graph c))) in
              ret (ps_id first)
    end in
  recordDecision
    {| df_stageId := stageId; df_action := act_terminal;
       df_reason := base_reason (terminalReason (te_outcome terminal));
       df_fromState := None; df_toState := None; df_attemptId := None; df_intentId := None;
       df_detail := Some (te_reason terminal); df_generation := 1; df_attemptOrdinal := 0;
       df_recoveryDecisionId := None; df_signatureDigest := None |}.

(** The plan a finished context freezes into. *)
Definition buildPlan (c : TickContext) (terminal : option ScheduleTerminal) : SchedulerPlan :=
  let withRecovery := tc_v2 c || negb (Nat.eqb (length (tc_recoveryDecisions c)) 0) in
  {| plan_schemaVersion := version (tc_v2 c);
     plan_runId := in_runId (tc_input c);
     plan_graphRevision := in_graphRevision (tc_input c);
     plan_expectedScheduleRevision := in_scheduleRevision (tc_input c);
     plan_nextScheduleRevision := in_scheduleRevision (tc_input c) + 1;
     plan_recordedAt := in_now (tc_input c);
     plan_transitions := tc_transitions c;
     plan_decisions := sortDecisions (tc_decisions c);
     plan_intents := sort_key si_intentId (tc_intents c);
     plan_attempts := sort_key sa_attemptId (tc_attempts c);
     plan_stagePatches := sort_key ss_stageId (map freezeSnapshot (map_values (tc_working c)));
     plan_consumedObservationIds := sort_strings (tc_consumedObservationIds c);
     plan_terminal := terminal;
     plan_recoveryDecisions :=
       if withRecovery then Some (sort_key pr_decisionId (tc_recoveryDecisions c)) else None;
     plan_recoveryState := if withRecovery then Some (freezeRecoveryState c) else None |}.

(** The phases of [runTick] up to the verdict. *)
Definition runPhases `{Sha256} : T (option ScheduleTerminal) :=
  let* start := get in
  let retryingAtTickStart := retryingStages start in
  forM (sort_by observation_lt (in_observations (tc_input start))) processObservation ;;;
  cancellationSweep ;;;
  rearmRetries retryingAtTickStart ;;;
  let* c := get in
  releaseLoop (releaseFuel c) ;;;
  queueReadyStages ;;;
  cancellationSweep ;;;
  let* terminal := computeTerminal in
  match terminal with
  | Some t => recordTerminal t
  | None => ret tt
  end ;;;
  ret terminal.

Definition runTick `{Sha256} (ctx : TickContext) : Thrown + SchedulerPlan :=
  match runPhases ctx with
  | inl e => inl e
  | inr (terminal, c) => inr (buildPlan c terminal)
  end.

Definition is_some {A} (o : option A) : bool := match o with Some _ => true | None => false end.

Definition isV2Observation (observation : SchedulerObservation) : bool :=
  is_some (so_failure observation) ||
  match so_kind observation with
  | ob_recovery_approved | ob_recovery_rejected | ob_recovery_proposed => true
  | _ => false
  end.

Definition isV2Input (input : SchedulerInput) : bool :=
  (in_schemaVersion input =? 2) || is_some (in_recoveryState input) ||
  is_some (in_effectiveLimits input) || is_some (in_executionMode input) ||
  existsb isV2Observation (in_observations input).

Definition tickScheduler `{Sha256} (input : SchedulerInput) : Thrown + SchedulerPlan :=
  match createTickContext input (isV2Input input) with
  | inl e => inl e
  | inr ctx => runTick ctx
  end.

(** [{ ...input, schemaVersion: 2 }]. *)
Definition input_v2 (input : SchedulerInput) : SchedulerInput :=
  {| in_schemaVersion := 2; in_runId := in_runId input; in_pipelineId := in_pipelineId input;
     in_graphRevision := in_graphRevision input;
     in_scheduleRevision := in_scheduleRevision input; in_graph := in_graph input;
     in_now := in_now input; in_deadlineAt := in_deadlineAt input;
     in_stages := in_stages input; in_observations := in_observations input;
     in_canonicalState := in_canonicalState input;
     in_pendingEvaluatorEdgeKeys := in_pendingEvaluatorEdgeKeys input;
     in_evaluatorDecisions := in_evaluatorDecisions input;
     in_recoveryState := in_recoveryState input;
     in_effectiveLimits := in_effectiveLimits input;
     in_executionMode := in_executionMode input |}.

(** [{ ...plan, schemaVersion: 2, recoveryDecisions: plan.recoveryDecisions ?? [] }]. *)
Definition plan_v2 (plan : SchedulerPlan) : SchedulerPlan :=
  {| plan_schemaVersion := 2; plan_runId := plan_runId plan;
     plan_graphRevision := plan_graphRevision plan;
     plan_expectedScheduleRevision := plan_expectedScheduleRevision plan;
     plan_nextScheduleRevision := plan_nextScheduleRevision plan;
     plan_recordedAt := plan_recordedAt plan; plan_transitions := plan_transitions plan;
     plan_decisions := plan_decisions plan; plan_intents := plan_intents plan;
     plan_attempts := plan_attempts plan; plan_stagePatches := plan_stagePatches plan;
     plan_consumedObservationIds := plan_consumedObservationIds plan;
     plan_terminal := plan_terminal plan;
     plan_recoveryDecisions := Some (default [] (plan_recoveryDecisions plan));
     plan_recoveryState := plan_recoveryState plan |}.

Definition tickSchedulerV2 `{Sha256} (input : SchedulerInput) : Thrown + SchedulerPlan :=
  match createTickContext (input_v2 input) true with
  | inl e => inl e
  | inr ctx => match runTick ctx with inl e => inl e | inr plan => inr (plan_v2 plan) end
  end.

(** Initial pending projections for every stage in a graph. *)
Definition initialStageSnapshots (runId : string) (graphRevision : Z) (graph : PipelineGraph)
    (now : string) : list StageSnapshot :=
  sort_key ss_stageId
    (map (fun stage =>
       {| ss_runId := runId; ss_stageId := ps_id stage; ss_graphRevision := graphRevision;
          ss_generation := 1; ss_state := pending; ss_attemptOrdinal := 0;
          ss_currentAttemptId := None; ss_lastTransitionReason := None;
          ss_blockReason := None; ss_selected := true; ss_updatedAt := now |})
       (pg_stages graph)).
