(* ===== verification/TickGraph.v ===== *)
(** * Graph indexes of the scheduler

    [buildEdgeMaps] and [buildDescendants] of [tick.ts] against the edge
    relation of the graph, and the well-formed inputs on which
    [createTickContext] succeeds. *)

From S2P Require Import Prelude Transitions Ids Json Evaluate Recovery Graph Tick.

(** ** Well-formed inputs *)

Definition condition_ok (o : option PipelineCondition) : bool :=
  match o with Some (CExpression c) => condition_ordered c | _ => true end.

(** Every edge joins two stages and its expression is in evaluation order; a
    graph has a stage ([minItems: 1]). *)
Definition edge_ok (g : PipelineGraph) (e : PipelineEdge) : bool :=
  set_has (stageIds g) (pe_from e) && set_has (stageIds g) (pe_to e) &&
  condition_ok (pe_condition e).

Definition graph_ok (g : PipelineGraph) : bool :=
  negb (Nat.eqb (length (pg_stages g)) 0) && forallb (edge_ok g) (pg_edges g).

Definition input_ok (input : SchedulerInput) : bool :=
  graph_ok (in_graph input) &&
  forallb (fun s => set_has (stageIds (in_graph input)) (ss_stageId s)) (in_stages input).

Lemma edge_ok_elim g e :
  graph_ok g = true -> e ∈ pg_edges g ->
  pe_from e ∈ stageIds g /\ pe_to e ∈ stageIds g /\ condition_ok (pe_condition e) = true.
Proof.
  unfold graph_ok. intros [_ H]%andb_prop He. rewrite forallb_forall in H.
  apply list_elem_of_In, H in He. unfold edge_ok in He.
  apply andb_prop in He as [[H1 H2]%andb_prop H3].
  by rewrite <-!set_has_true.
Qed.

Lemma edge_ok_In g e (l : list PipelineEdge) :
  graph_ok g = true -> l ⊆ pg_edges g -> e ∈ l ->
  pe_from e ∈ stageIds g /\ pe_to e ∈ stageIds g.
Proof. intros Hg Hl He. destruct (edge_ok_elim g e Hg) as (?&?&?); auto. Qed.

(** ** Edge maps *)

Lemma emptyEdgeMap_get {A} (stages : list PipelineStage) (m : list (string * list A)) k :
  map_get (fold_left (fun m stage => map_set m (ps_id stage) []) stages m) k =
  if bool_decide (k ∈ map ps_id stages) then Some [] else map_get m k.
Proof.
  revert m. induction stages as [|s stages IH]; intros m; simpl; [done|].
  rewrite IH, map_get_set. destruct (str_eqb k (ps_id s)) eqn:E.
  - apply str_eqb_true in E as ->. rewrite (bool_decide_eq_true_2 (_ ∈ _ :: _)) by (by left).
    by case_bool_decide.
  - apply str_eqb_false in E. do 2 case_bool_decide; try done; exfalso; set_solver.
Qed.

(** The values [push_at] appends along a list of keyed pushes. *)
Definition pushes {A} (key : PipelineEdge -> string) (val : PipelineEdge -> A)
    (edges : list PipelineEdge) (k : string) : list A :=
  map val (filter (fun e => key e = k) edges).

Lemma pushes_cons_eq {A} key (val : PipelineEdge -> A) e edges :
  pushes key val (e :: edges) (key e) = val e :: pushes key val edges (key e).
Proof. unfold pushes. by rewrite filter_cons_True. Qed.

Lemma pushes_cons_ne {A} key (val : PipelineEdge -> A) e edges k :
  key e <> k -> pushes key val (e :: edges) k = pushes key val edges k.
Proof. intros H. unfold pushes. by rewrite filter_cons_False. Qed.

Lemma push_at_get {A} (m : list (string * list A)) key x xs k :
  map_get m key = Some xs ->
  exists m', push_at m key x = inr m' /\
    map_get m' k = if str_eqb k key then Some (xs ++ [x]) else map_get m k.
Proof.
  intros H. unfold push_at. rewrite H. eexists. split; [done|]. apply map_get_set.
Qed.

(** Appending one pushed value to what the rest of the loop appends. *)
Lemma push_then {A} key (val : PipelineEdge -> A) e edges (m m' : list (string * list A)) k xs :
  map_get m (key e) = Some xs ->
  map_get m' k = (if str_eqb k (key e) then Some (xs ++ [val e]) else map_get m k) ->
  (fun ys => ys ++ pushes key val edges k) <$> map_get m' k =
  (fun ys => ys ++ pushes key val (e :: edges) k) <$> map_get m k.
Proof.
  intros Hx Hm'. destruct (str_eqb k (key e)) eqn:E; rewrite Hm'.
  - apply str_eqb_true in E as ->. rewrite Hx, pushes_cons_eq. simpl.
    by rewrite <-app_assoc.
  - apply str_eqb_false in E. rewrite pushes_cons_ne by done. done.
Qed.

Lemma map_get_keys_of {A} (m m' : list (string * A)) k key v :
  map_get m' k = (if str_eqb k key then Some v else map_get m k) ->
  is_Some (map_get m k) -> is_Some (map_get m' k).
Proof. intros ->. by destruct (str_eqb k key). Qed.

Lemma pushEdges_get edges incoming outgoing :
  (forall e, e ∈ edges -> is_Some (map_get incoming (pe_to e)) /\
                          is_Some (map_get outgoing (pe_from e))) ->
  exists i o, pushEdges edges incoming outgoing = inr (i, o) /\
    (forall k, map_get i k =
       (fun ys => ys ++ pushes pe_to id edges k) <$> map_get incoming k) /\
    (forall k, map_get o k =
       (fun ys => ys ++ pushes pe_from id edges k) <$> map_get outgoing k).
Proof.
  revert incoming outgoing. induction edges as [|e edges IH]; intros inc out H; simpl.
  - exists inc, out. split; [done|]. unfold pushes. simpl.
    split; intros k; [destruct (map_get inc k)|destruct (map_get out k)]; simpl;
      by rewrite ?app_nil_r.
  - destruct (H e) as [[xs Hx] [ys Hy]]; [by left|].
    unfold push_at. rewrite Hx, Hy.
    destruct (IH (map_set inc (pe_to e) (xs ++ [e])) (map_set out (pe_from e) (ys ++ [e])))
      as (i & o & -> & Hi & Ho).
    { intros e' He'. destruct (H e') as [H1 H2]; [by right|].
      split; (eapply map_get_keys_of; [apply map_get_set|done]). }
    exists i, o. split; [done|].
    split; intros k; [rewrite Hi|rewrite Ho]; eapply push_then; eauto using map_get_set.
Qed.

Lemma pushSuccessors_get edges m :
  (forall e, e ∈ edges -> is_Some (map_get m (pe_from e))) ->
  exists m', pushSuccessors edges m = inr m' /\
    (forall k, map_get m' k = (fun ys => ys ++ pushes pe_from pe_to edges k) <$> map_get m k).
Proof.
  revert m. induction edges as [|e edges IH]; intros m H; simpl.
  - exists m. split; [done|]. intros k. unfold pushes. simpl.
    destruct (map_get m k); simpl; by rewrite ?app_nil_r.
  - destruct (H e) as [xs Hx]; [by left|]. unfold push_at. rewrite Hx.
    destruct (IH (map_set m (pe_from e) (xs ++ [pe_to e]))) as (m' & -> & Hm').
    { intros e' He'. eapply map_get_keys_of; [apply map_get_set|]. apply H. by right. }
    exists m'. split; [done|]. intros k. rewrite Hm'.
    eapply push_then; eauto using map_get_set.
Qed.

Lemma emptyEdgeMap_stage {A} g k :
  map_get (@emptyEdgeMap A g) k = if bool_decide (k ∈ stageIds g) then Some [] else None.
Proof. unfold emptyEdgeMap. by rewrite emptyEdgeMap_get. Qed.

(** [incoming] and [outgoing] list the edges of each stage in graph order. *)
Lemma buildEdgeMaps_spec g :
  graph_ok g = true ->
  exists i o, buildEdgeMaps g = inr (i, o) /\
    (forall k, map_get i k = if bool_decide (k ∈ stageIds g)
       then Some (filter (fun e => pe_to e = k) (pg_edges g)) else None) /\
    (forall k, map_get o k = if bool_decide (k ∈ stageIds g)
       then Some (filter (fun e => pe_from e = k) (pg_edges g)) else None).
Proof.
  intros Hg. unfold buildEdgeMaps.
  destruct (pushEdges_get (pg_edges g) (emptyEdgeMap g) (emptyEdgeMap g))
    as (i & o & -> & Hi & Ho).
  { intros e He. destruct (edge_ok_elim g e Hg He) as (H1 & H2 & _).
    rewrite !emptyEdgeMap_stage, !bool_decide_eq_true_2 by done. by split; eexists. }
  exists i, o. split; [done|].
  split; intros k; [rewrite Hi|rewrite Ho]; rewrite emptyEdgeMap_stage;
    case_bool_decide; simpl; [|done| |done]; unfold pushes; by rewrite map_id.
Qed.

(** ** Descendants *)

(** The successor list of each stage, as [buildDescendants] builds it. *)
Definition successors_of (g : PipelineGraph) (m : list (string * list string)) : Prop :=
  forall k, map_get m k = if bool_decide (k ∈ stageIds g)
    then Some (pushes pe_from pe_to (pg_edges g) k) else None.

Lemma elem_of_pushes g a b :
  b ∈ pushes pe_from pe_to (pg_edges g) a <-> edge_rel g a b.
Proof.
  unfold pushes, edge_rel. rewrite list_elem_of_fmap. split.
  - intros (e & -> & [H1 H2]%list_elem_of_filter). eauto.
  - intros (e & H1 & H2 & <-). exists e. split; [done|]. by apply list_elem_of_filter.
Qed.

(** The successors the walk looks up. *)
Lemma successors_default g m k b :
  graph_ok g = true -> successors_of g m ->
  b ∈ default [] (map_get m k) <-> edge_rel g k b.
Proof.
  intros Hg Hm. rewrite Hm. case_bool_decide as Hk; simpl.
  - apply elem_of_pushes.
  - split; [by intros ?%elem_of_nil|]. intros (e & He & <- & <-).
    by destruct (edge_ok_elim g e Hg He).
Qed.

(** Edges whose source has not been expanded: what the walk may still push. *)
Definition unexpanded (g : PipelineGraph) (seen : list string) : nat :=
  length (filter (fun e => pe_from e ∉ seen) (pg_edges g)).

Lemma unexpanded_add g seen x :
  x ∉ seen ->
  (length (pushes pe_from pe_to (pg_edges g) x) + unexpanded g (set_add seen x) =
   unexpanded g seen)%nat.
Proof.
  intros Hx. unfold unexpanded, pushes. rewrite length_map.
  induction (pg_edges g) as [|e es IH]; [done|].
  destruct (decide (pe_from e = x)) as [Hex|Hne].
  - rewrite (filter_cons_True (fun e => pe_from e = _)) by done.
    rewrite (filter_cons_False (fun e => pe_from e ∉ set_add _ _))
      by (rewrite elem_of_set_add; naive_solver).
    rewrite (filter_cons_True (fun e => pe_from e ∉ seen)) by (by rewrite Hex). simpl. lia.
  - rewrite (filter_cons_False (fun e => pe_from e = _)) by done.
    destruct (decide (pe_from e ∈ seen)).
    + rewrite !filter_cons_False by (rewrite ?elem_of_set_add; naive_solver). done.
    + rewrite !filter_cons_True by (rewrite ?elem_of_set_add; naive_solver). simpl. lia.
Qed.

Lemma successors_length g m x :
  graph_ok g = true -> successors_of g m ->
  length (default [] (map_get m x)) = length (pushes pe_from pe_to (pg_edges g) x).
Proof.
  intros Hg Hm. rewrite Hm. case_bool_decide as Hx; [done|]. simpl.
  destruct (pushes _ _ _ _) as [|b l] eqn:E; [done|].
  assert (b ∈ pushes pe_from pe_to (pg_edges g) x) as (e & He & <- & _)%elem_of_pushes
    by (rewrite E; left).
  by destruct (edge_ok_elim g e Hg He).
Qed.

(** The walk ends within its fuel. *)
Lemma walkDescendants_returns g m fuel stack seen :
  graph_ok g = true -> successors_of g m ->
  (length stack + unexpanded g seen <= fuel)%nat ->
  exists r, walkDescendants fuel m stack seen = inr r.
Proof.
  intros Hg Hm. revert stack seen.
  induction fuel as [|fuel IH]; intros [|x stack] seen Hf; simpl in *; try (by eexists); [lia|].
  destruct (set_has seen x) eqn:E.
  - apply IH. lia.
  - apply set_has_false in E. apply IH. rewrite length_app, length_rev.
    rewrite (successors_length g) by done. pose proof (unexpanded_add g seen x E). lia.
Qed.

Lemma walkDescendants_NoDup fuel m stack seen r :
  NoDup seen -> walkDescendants fuel m stack seen = inr r -> NoDup r.
Proof.
  revert stack seen. induction fuel as [|fuel IH]; intros [|x stack] seen Hn; simpl;
    try (by intros [= ->]).
  destruct (set_has seen x); apply IH; [done|]. by apply set_add_NoDup.
Qed.

(** What the walk keeps: everything seen or stacked is reachable from [s], and
    the successors of [s] and of every seen node are seen or stacked. *)
Record walk_inv (g : PipelineGraph) (s : string) (stack seen : list string) : Prop := {
  walk_sound : forall x, x ∈ seen ++ stack -> tc (edge_rel g) s x;
  walk_first : forall b, edge_rel g s b -> b ∈ seen ++ stack;
  walk_closed : forall a b, a ∈ seen -> edge_rel g a b -> b ∈ seen ++ stack
}.

Lemma walkDescendants_inv g m fuel stack seen r s :
  graph_ok g = true -> successors_of g m ->
  walk_inv g s stack seen -> walkDescendants fuel m stack seen = inr r ->
  walk_inv g s [] r.
Proof.
  intros Hg Hm. revert stack seen.
  induction fuel as [|fuel IH]; intros [|x stack] seen Hinv; simpl;
    try (by intros [= ->]).
  destruct Hinv as [H1 H2 H3].
  assert (forall y, y ∈ rev (default [] (map_get m x)) <-> edge_rel g x y) as Hrev.
  { intros y. rewrite list_elem_of_In, <-in_rev, <-list_elem_of_In. by apply successors_default. }
  destruct (set_has seen x) eqn:E; apply IH.
  - apply set_has_true in E. split; [set_solver..|]. intros a b Ha Hb.
    specialize (H3 a b Ha Hb). set_solver.
  - split.
    + intros y. rewrite !elem_of_app, elem_of_set_add, Hrev.
      intros [[->|Hy]|[Hy|Hy]]; [apply H1; set_solver..| |apply H1; set_solver].
      eapply tc_r; [|exact Hy]. apply H1. set_solver.
    + intros b Hb%H2. rewrite !elem_of_app, elem_of_set_add. set_solver.
    + intros a b. rewrite elem_of_set_add, !elem_of_app, elem_of_set_add, Hrev.
      intros [->|Ha] Hb; [by auto|]. specialize (H3 a b Ha Hb). set_solver.
Qed.

Lemma walk_inv_complete g s r x :
  walk_inv g s [] r -> x ∈ r <-> tc (edge_rel g) s x.
Proof.
  intros [H1 H2 H3]. rewrite app_nil_r in *. split; [apply H1|].
  revert x. apply tc_ind_r; [by apply H2|]. intros a b _ Hab Ha. by eapply H3.
Qed.

(** One entry per stage: its proper descendants, sorted. *)
Definition descendants_of (g : PipelineGraph) (k : string) (o : option (list string)) : Prop :=
  exists l, o = Some l /\ (StronglySorted (not_after (key_lt id)) l /\ NoDup l) /\
    forall x, x ∈ l <-> tc (edge_rel g) k x.

Lemma walk_start g m s :
  graph_ok g = true -> successors_of g m -> s ∈ stageIds g ->
  walk_inv g s (rev (pushes pe_from pe_to (pg_edges g) s)) [].
Proof.
  intros Hg Hm Hs.
  assert (forall y, y ∈ rev (pushes pe_from pe_to (pg_edges g) s) <-> edge_rel g s y) as Hrev.
  { intros y. rewrite list_elem_of_In, <-in_rev, <-list_elem_of_In. apply elem_of_pushes. }
  split; simpl.
  - intros x Hx%Hrev. by apply tc_once.
  - intros b Hb. by apply Hrev.
  - by intros a b ?%elem_of_nil.
Qed.

Lemma walk_stage g m s :
  graph_ok g = true -> successors_of g m -> s ∈ stageIds g ->
  exists r, walkDescendants (walkFuel g) m (rev (pushes pe_from pe_to (pg_edges g) s)) [] = inr r
    /\ NoDup r /\ forall x, x ∈ r <-> tc (edge_rel g) s x.
Proof.
  intros Hg Hm Hs.
  destruct (walkDescendants_returns g m (walkFuel g)
    (rev (pushes pe_from pe_to (pg_edges g) s)) []) as [r Hr]; [done..| |].
  { unfold walkFuel, unexpanded, pushes. rewrite length_rev, length_map.
    pose proof (length_filter (fun e => pe_from e = s) (pg_edges g)).
    pose proof (length_filter (fun e => pe_from e ∉ []) (pg_edges g)). lia. }
  exists r. split; [done|]. split; [eapply walkDescendants_NoDup; [constructor|done]|].
  intros x. apply walk_inv_complete.
  eapply walkDescendants_inv; [done..| |exact Hr]. by eapply walk_start.
Qed.

Lemma descendantsOf_spec g m stages result :
  graph_ok g = true -> successors_of g m -> map ps_id stages ⊆ stageIds g ->
  exists d, descendantsOf (walkFuel g) m stages result = inr d /\
    (forall k, k ∈ map ps_id stages -> descendants_of g k (map_get d k)) /\
    (forall k, k ∉ map ps_id stages -> map_get d k = map_get result k).
Proof.
  intros Hg Hm. revert result. induction stages as [|s stages IH]; intros result Hsub;
    cbn [descendantsOf map].
  - exists result. split; [done|]. split; [by intros k ?%elem_of_nil|done].
  - assert (ps_id s ∈ stageIds g) as Hs by (apply Hsub; left).
    rewrite Hm, bool_decide_eq_true_2 by done.
    destruct (walk_stage g m (ps_id s)) as (r & -> & Hnd & Hr); [done..|].
    destruct (IH (map_set result (ps_id s) (sort_strings r))) as (d & -> & H1 & H2).
    { intros x Hx. apply Hsub. by right. }
    exists d. split; [done|]. split; intros k.
    + rewrite elem_of_cons. destruct (decide (k ∈ map ps_id stages)) as [Hk|Hk]; [by auto|].
      intros [->|?]; [|done]. rewrite H2, map_get_set_eq by done.
      exists (sort_strings r). split; [done|].
      split; [split; [apply sort_key_sorted|by rewrite (sort_key_perm id r)]|].
      intros x. by rewrite elem_of_sort_strings.
    + rewrite not_elem_of_cons. intros [Hne Hk]. rewrite H2 by done. by apply map_get_set_ne.
Qed.

(** [buildDescendants] succeeds and computes the transitive closure. *)
Lemma buildDescendants_spec g :
  graph_ok g = true ->
  exists d, buildDescendants g = inr d /\
    (forall k, k ∈ stageIds g -> descendants_of g k (map_get d k)) /\
    (forall k, k ∉ stageIds g -> map_get d k = None).
Proof.
  intros Hg. unfold buildDescendants.
  destruct (pushSuccessors_get (pg_edges g) (emptyEdgeMap g)) as (m & -> & Hm).
  { intros e He. destruct (edge_ok_elim g e Hg He) as (H1 & _).
    rewrite emptyEdgeMap_stage, bool_decide_eq_true_2 by done. by eexists. }
  apply (descendantsOf_spec g m (pg_stages g) []); [done| |done].
  intros k. rewrite Hm, emptyEdgeMap_stage. by case_bool_decide.
Qed.

(** ** The initial context *)

(** What the read-only part of a context is, for a well-formed input. *)
Record env_for (input : SchedulerInput) (v2 : bool) (e : TickEnv) : Prop := {
  ef_input : env_input e = input;
  ef_graph : env_graph e = in_graph input;
  ef_v2 : env_v2 e = v2;
  ef_deadline : env_deadlineExceeded e =
    match in_deadlineAt input with
    | Some deadline => negb (str_ltb (in_now input) deadline)
    | None => false
    end;
  ef_graph_ok : graph_ok (in_graph input) = true;
  ef_definition : forall k, k ∈ stageIds (in_graph input) ->
    exists d, map_get (env_stagesById e) k = Some d /\ ps_id d = k /\
      d ∈ pg_stages (in_graph input);
  ef_incoming : forall k, default [] (map_get (env_incoming e) k) =
    filter (fun ed => pe_to ed = k) (pg_edges (in_graph input));
  ef_descendants : forall k, k ∈ stageIds (in_graph input) ->
    descendants_of (in_graph input) k (map_get (env_descendants e) k)
}.

Lemma stagesById_get (stages : list PipelineStage) k :
  k ∈ map ps_id stages ->
  exists d, map_get (map_of (map (fun s => (ps_id s, s)) stages)) k = Some d /\
    ps_id d = k /\ d ∈ stages.
Proof.
  intros Hk.
  assert (k ∈ map_keys (map_of (map (fun s => (ps_id s, s)) stages))) as [d Hd]%map_get_keys.
  { apply elem_of_map_of. by rewrite map_map. }
  exists d. split; [done|]. apply map_of_get_elem in Hd.
  apply list_elem_of_fmap in Hd as (s & [= -> ->] & Hs). done.
Qed.

Lemma incoming_absent g k :
  graph_ok g = true -> k ∉ stageIds g -> filter (fun e => pe_to e = k) (pg_edges g) = [].
Proof.
  intros Hg Hk. destruct (filter _ _) as [|e l] eqn:E; [done|].
  assert (e ∈ filter (fun e => pe_to e = k) (pg_edges g)) as [<- He]%list_elem_of_filter
    by (rewrite E; left).
  by destruct (edge_ok_elim g e Hg He) as (_ & ? & _).
Qed.

(** The context a tick starts from. *)
Record initial_context (input : SchedulerInput) (v2 : bool) (c : TickContext) : Prop := {
  ic_env : env_for input v2 (tc_env c);
  ic_working : tc_working c = initialWorking input;
  ic_transitions : tc_transitions c = [];
  ic_decisions : tc_decisions c = [];
  ic_intents : tc_intents c = [];
  ic_attempts : tc_attempts c = [];
  ic_recoveryDecisions : tc_recoveryDecisions c = [];
  ic_consumed : tc_consumedObservationIds c = [];
  ic_cancel : tc_cancelRequested c = false;
  ic_evaluators : tc_evaluatorDecisions c =
    map_of (map (fun e => (ed_edgeKey e, ed_selected e)) (in_evaluatorDecisions input));
  ic_pending : tc_pendingEvaluators c = set_of (in_pendingEvaluatorEdgeKeys input);
  ic_recovery : tc_recoveryByKey c = initialRecovery input
}.

Lemma createTickContext_ok input v2 :
  input_ok input = true ->
  exists c, createTickContext input v2 = inr c /\ initial_context input v2 c.
Proof.
  intros [Hg _]%andb_prop. unfold createTickContext.
  destruct (buildEdgeMaps_spec _ Hg) as (i & o & -> & Hi & _).
  destruct (buildDescendants_spec _ Hg) as (d & -> & Hd & _).
  eexists. split; [done|]. split; try done. split; simpl; try done.
  - intros k Hk. by apply stagesById_get.
  - intros k. rewrite Hi. case_bool_decide; simpl; [done|]. by rewrite incoming_absent.
Qed.
