(* ===== verification/TickSteps.v ===== *)
(** * The scheduler as a step relation

    The abstract machine a tick refines: a context evolves by bookkeeping,
    stage moves, manual reruns, evaluator requests, cancel requests and
    dispatches, each allowed in one phase of [runTick] and under a guard.  The
    monadic code of [Tick.v] is related to it once, operation by operation, and
    the properties of a tick are then proved by induction on steps. *)

From S2P Require Import Prelude Transitions Ids Json Evaluate Recovery Graph Tick TickGraph.
Local Open Scope Z_scope.

(** The phases of [runTick], in order; [Sweep] runs twice. *)
Inductive Phase := Observe | Sweep | Rearm | Release | Dispatch | Verdict.

(** Cancellation was requested or the deadline has passed. *)
Definition closing (c : TickContext) : bool := tc_cancelRequested c || tc_deadlineExceeded c.

(** At most one element with a fresh key was appended. *)
Definition appended {A} (key : A -> string) (l l' : list A) : Prop :=
  l' = l \/ exists x, (key x ∉ map key l) /\ l' = l ++ [x].

(** ** The release rule

    What [resolveIncomingEdge] and [maybeReleaseStage] decide, as functions of
    the context. *)

Definition edge_verdict (c : TickContext) (edge : PipelineEdge) : EdgeResolution :=
  match map_get (tc_working c) (pe_from edge) with
  | None => edge_pending
  | Some p =>
      match ss_state p with
      | blocked => edge_blocked (default "predecessor_blocked" (ss_blockReason p))
      | failed =>
          if default false (ps_optional <$> map_get (env_stagesById (tc_env c)) (pe_from edge))
          then edge_waived
          else edge_blocked ("required predecessor " +:+ pe_from edge +:+ " failed")
      | cancelled =>
          if negb (ss_selected p) ||
             bool_decide (ss_lastTransitionReason p = Some condition_not_selected)
          then edge_rejected
          else edge_blocked ("predecessor " +:+ pe_from edge +:+ " cancelled")
      | succeeded =>
          match pe_condition edge with
          | None => edge_selected
          | Some (CExpression condition) =>
              match evaluateExpressionCondition condition (in_canonicalState (tc_input c)) with
              | None => edge_pending
              | Some (EvalFail code message _) =>
                  edge_blocked (evaluation_code_text code +:+ ":" +:+ message)
              | Some (EvalOk value) => if value then edge_selected else edge_rejected
              end
          | Some (CEvaluator _ _) =>
              match map_get (tc_evaluatorDecisions c) (edgeKey (pe_from edge) (pe_to edge)) with
              | Some selected => if selected then edge_selected else edge_rejected
              | None => edge_pending
              end
          end
      | _ => edge_pending
      end
  end.

Definition incoming_edges (c : TickContext) (id : string) : list PipelineEdge :=
  default [] (map_get (env_incoming (tc_env c)) id).

(** The move of a pending stage: target, reason and block reason; [None] when
    it has to wait for a predecessor or an evaluator. *)
Definition release_rule (c : TickContext) (id : string)
    : option (PipelineStageState * PipelineTransitionReason * option string) :=
  match incoming_edges c id with
  | [] => Some (ready, root_eligible, None)
  | edges =>
      let verdicts := map (edge_verdict c) edges in
      if existsb (fun r => bool_decide (r = edge_pending)) verdicts then None
      else
        match firstBlocked verdicts with
        | Some reason => Some (blocked, dependency_unsatisfied, Some reason)
        | None =>
            if negb (existsb (fun r => bool_decide (r = edge_selected)) verdicts)
            then Some (cancelled, condition_not_selected, None)
            else
              match map_get (env_stagesById (tc_env c)) id with
              | None => None
              | Some definition =>
                  match unsatisfiedReads c definition with
                  | Some read =>
                      Some (blocked, dependency_unsatisfied, Some ("unsatisfied read " +:+ read))
                  | None => Some (ready, dependencies_satisfied, None)
                  end
              end
        end
  end.

(** ** Effects *)

(** The effect of [applyTransition] on stages and transitions. *)
Definition moved (c : TickContext) (id : string) (s : StageSnapshot) (to : PipelineStageState)
    (reason : PipelineTransitionReason) (o : TransitionOptions) : TickContext :=
  upd_transitions (fun ts => ts ++
    [{| tr_stageId := ss_stageId s; tr_from := ss_state s; tr_to := to; tr_reason := reason;
        tr_attemptId := opt_attemptId o; tr_generation := ss_generation s;
        tr_blockReason := opt_blockReason o |}])
    (upd_working (fun w =>
       map_set w id (transitionedStage (in_now (tc_input c)) s to reason o)) c).

(** The effect of a manual rerun of one stage. *)
Definition rerun (c : TickContext) (id : string) (s : StageSnapshot) : TickContext :=
  let s' := rerunStage (in_now (tc_input c)) s in
  upd_transitions (fun ts => ts ++
    (if state_eqb (ss_state s) pending then []
     else [{| tr_stageId := ss_stageId s; tr_from := ss_state s; tr_to := pending;
              tr_reason := manual_rerun; tr_attemptId := None;
              tr_generation := ss_generation s'; tr_blockReason := None |}]))
    (upd_working (fun w => map_set w id s') c).

Definition intent_of (c : TickContext) (kind : IntentKind) (key : string)
    (payload : IntentPayload) : SchedulerIntent :=
  {| si_schemaVersion := version (tc_v2 c);
     si_intentId := deriveIntentId (in_runId (tc_input c)) (in_graphRevision (tc_input c)) kind key;
     si_runId := in_runId (tc_input c);
     si_graphRevision := in_graphRevision (tc_input c);
     si_kind := kind;
     si_payload := payload;
     si_createdAt := in_now (tc_input c) |}.

Definition fresh_intent (c : TickContext) (i : SchedulerIntent) : Prop :=
  si_intentId i ∉ map si_intentId (tc_intents c).

Definition evaluator_intent (c : TickContext) (e : PipelineEdge) (profile question : string)
    : SchedulerIntent :=
  let key := edgeKey (pe_from e) (pe_to e) in
  intent_of c ik_evaluator key (PayloadEvaluator (pe_from e) (pe_to e) profile question key).

Definition requested (c : TickContext) (e : PipelineEdge) (profile question : string)
    : TickContext :=
  upd_pendingEvaluators (fun s => set_add s (edgeKey (pe_from e) (pe_to e)))
    (upd_intents (fun l => l ++ [evaluator_intent c e profile question]) c).

Definition stage_key (s : StageSnapshot) : string :=
  attemptKey (ss_stageId s) (ss_generation s) (ss_attemptOrdinal s).

Definition cancel_intent (c : TickContext) (s : StageSnapshot) (attemptId : string)
    : SchedulerIntent :=
  intent_of c ik_cancel (stage_key s)
    (PayloadCancel (ss_stageId s) attemptId (ss_generation s) (ss_attemptOrdinal s)).

(** The attempt id of a stage's current coordinates. *)
Definition attempt_of (c : TickContext) (s : StageSnapshot) : string :=
  deriveAttemptId (in_runId (tc_input c)) (in_graphRevision (tc_input c)) (ss_stageId s)
    (ss_generation s) (ss_attemptOrdinal s).

Definition dispatch_intent_of (c : TickContext) (s : StageSnapshot) (d : PipelineStage)
    (directive : option PipelineRetryDirectivePlain) : SchedulerIntent :=
  intent_of c ik_dispatch (stage_key s)
    (PayloadDispatch (ss_stageId s) (stage_type_text (ps_type d)) (attempt_of c s)
       (ss_generation s) (ss_attemptOrdinal s) directive).

Definition queue_options (c : TickContext) (s : StageSnapshot) : TransitionOptions :=
  with_intentId
    (deriveIntentId (in_runId (tc_input c)) (in_graphRevision (tc_input c)) ik_dispatch
       (stage_key s))
    (options act_queue (Some (attempt_of c s))).

(** The effect of dispatching a ready stage: next ordinal, attempt, intent and
    the move to [queued], all at once. *)
Definition dispatched (c : TickContext) (id : string) (s : StageSnapshot) (d : PipelineStage)
    (directive : option PipelineRetryDirectivePlain) : TickContext :=
  let s' := bumpAttemptOrdinal s in
  moved
    (upd_intents (fun l => l ++ [dispatch_intent_of c s' d directive])
       (upd_attempts (fun l => l ++ [buildAttempt c s' d (attempt_of c s') directive]) c))
    id s' queued dispatch_intent (queue_options c s').

(** ** Steps *)

(** An observation of the input asks to rerun [id] or an ancestor of it. *)
Definition rerun_requested (input : SchedulerInput) (id : string) : Prop :=
  exists o root, o ∈ in_observations input /\ so_kind o = ob_manual_rerun /\
    so_stageId o = Some root /\ (id = root \/ tc (edge_rel (in_graph input)) root id).

(** An observation of the input carries an evaluator's verdict on an edge. *)
Definition evaluator_observed (input : SchedulerInput) (key : string) (selected : bool) : Prop :=
  exists o, o ∈ in_observations input /\ so_kind o = ob_evaluator_decided /\
    so_edgeKey o = Some key /\ so_selected o = Some selected.

(** An observation of the input asks to cancel the run. *)
Definition cancel_observed (input : SchedulerInput) : Prop :=
  exists o, o ∈ in_observations input /\ so_kind o = ob_cancel_requested.

(** Bookkeeping: stages, transitions, attempts and intents stay; a decision
    may be appended under a fresh id; flags change only while observing. *)
Record quiet (ph : Phase) (c c' : TickContext) : Prop := {
  q_env : tc_env c' = tc_env c;
  q_working : tc_working c' = tc_working c;
  q_transitions : tc_transitions c' = tc_transitions c;
  q_attempts : tc_attempts c' = tc_attempts c;
  q_intents : tc_intents c' = tc_intents c;
  q_decisions : appended sd_decisionId (tc_decisions c) (tc_decisions c');
  q_cancel : tc_cancelRequested c' = tc_cancelRequested c \/
    (ph = Observe /\ tc_cancelRequested c' = true /\ cancel_observed (tc_input c));
  q_verdicts : tc_evaluatorDecisions c' = tc_evaluatorDecisions c \/
    exists key selected, evaluator_observed (tc_input c) key selected /\
      tc_evaluatorDecisions c' = map_set (tc_evaluatorDecisions c) key selected;
  q_pending : tc_pendingEvaluators c' ⊆ tc_pendingEvaluators c;
  q_flags : ph <> Observe ->
    tc_cancelRequested c' = tc_cancelRequested c /\
    tc_evaluatorDecisions c' = tc_evaluatorDecisions c /\
    tc_pendingEvaluators c' = tc_pendingEvaluators c
}.

(** When a stage may move, by phase. *)
Definition move_guard (ph : Phase) (c : TickContext) (id : string) (s : StageSnapshot)
    (to : PipelineStageState) (reason : PipelineTransitionReason) (o : TransitionOptions) : Prop :=
  match ph with
  | Observe => isActive (ss_state s) = true /\ opt_selected o = None
  | Sweep => closing c = true /\ to = cancelled /\ opt_selected o = None /\
      (ss_state s = pending \/ ss_state s = ready \/ ss_state s = retrying)
  | Rearm => closing c = false /\ ss_state s = retrying /\ to = ready /\ opt_selected o = None
  | Release => closing c = false /\ ss_selected s = true /\ ss_state s = pending /\
      release_rule c id = Some (to, reason, opt_blockReason o) /\
      (opt_selected o = Some false <-> to = cancelled)
  | Dispatch | Verdict => False
  end.

Inductive tick_step (ph : Phase) (c : TickContext) : TickContext -> Prop :=
| step_quiet c' : quiet ph c c' -> tick_step ph c c'
| step_move id s to reason o :
    map_get (tc_working c) id = Some s ->
    isPermittedTransition (ss_state s) to reason = true ->
    move_guard ph c id s to reason o ->
    tick_step ph c (moved c id s to reason o)
| step_rerun id s :
    ph = Observe -> rerun_requested (tc_input c) id -> map_get (tc_working c) id = Some s ->
    isTerminalStageState (ss_state s) = true \/ ss_state s = pending ->
    tick_step ph c (rerun c id s)
| step_evaluator e profile question :
    ph = Release -> e ∈ pg_edges (tc_graph c) ->
    pe_condition e = Some (CEvaluator profile question) ->
    edgeKey (pe_from e) (pe_to e) ∉ tc_pendingEvaluators c ->
    fresh_intent c (evaluator_intent c e profile question) ->
    tick_step ph c (requested c e profile question)
| step_cancel_intent id s attemptId :
    ph = Sweep -> closing c = true -> map_get (tc_working c) id = Some s ->
    isActive (ss_state s) = true -> ss_currentAttemptId s = Some attemptId ->
    fresh_intent c (cancel_intent c s attemptId) ->
    tick_step ph c (upd_intents (fun l => l ++ [cancel_intent c s attemptId]) c)
| step_dispatch id s d directive :
    ph = Dispatch -> closing c = false -> map_get (tc_working c) id = Some s ->
    ss_state s = ready -> ss_selected s = true ->
    map_get (env_stagesById (tc_env c)) id = Some d ->
    tick_step ph c (dispatched c id s d directive).

Definition steps (ph : Phase) : relation TickContext := rtc (tick_step ph).

(** ** Well-formed contexts *)

Record wf (c : TickContext) : Prop := {
  wf_env : env_for (tc_input c) (tc_v2 c) (tc_env c);
  wf_nodup : NoDup (map_keys (tc_working c));
  wf_keys : forall k, k ∈ map_keys (tc_working c) <-> k ∈ stageIds (tc_graph c);
  wf_ids : forall k s, map_get (tc_working c) k = Some s -> ss_stageId s = k
}.

Lemma wf_stage c k : wf c -> k ∈ stageIds (tc_graph c) ->
  exists s, map_get (tc_working c) k = Some s /\ ss_stageId s = k.
Proof.
  intros Hc Hk. apply (wf_keys c Hc), map_get_keys in Hk as [s Hs].
  exists s. split; [done|]. by eapply wf_ids.
Qed.

Lemma wf_graph c : wf c -> graph_ok (tc_graph c) = true /\ tc_graph c = in_graph (tc_input c).
Proof.
  intros [Henv _ _ _]. unfold tc_graph. rewrite (ef_graph _ _ _ Henv).
  split; [apply (ef_graph_ok _ _ _ Henv)|done].
Qed.

Lemma wf_definition c k : wf c -> k ∈ stageIds (tc_graph c) ->
  exists d, map_get (env_stagesById (tc_env c)) k = Some d /\ ps_id d = k.
Proof.
  intros Hc Hk. destruct (wf_graph c Hc) as [_ Hg]. rewrite Hg in Hk.
  destruct (ef_definition _ _ _ (wf_env c Hc) k Hk) as (d & ? & ? & _). eauto.
Qed.

Lemma wf_working_definition c k s : wf c -> map_get (tc_working c) k = Some s ->
  exists d, map_get (env_stagesById (tc_env c)) k = Some d /\ ps_id d = k.
Proof.
  intros Hc Hs. apply wf_definition; [done|]. apply (wf_keys c Hc), map_get_keys. by eexists.
Qed.

Lemma incoming_edges_spec c id e : wf c ->
  e ∈ incoming_edges c id <-> e ∈ pg_edges (tc_graph c) /\ pe_to e = id.
Proof.
  intros Hc. unfold incoming_edges. rewrite (ef_incoming _ _ _ (wf_env c Hc)).
  destruct (wf_graph c Hc) as [_ <-]. rewrite list_elem_of_filter. naive_solver.
Qed.

(** ** What a step does to one stage *)

Inductive stage_evolves (ph : Phase) (s : StageSnapshot) : StageSnapshot -> Prop :=
| evolve_move now to reason o :
    isPermittedTransition (ss_state s) to reason = true -> to <> pending ->
    stage_evolves ph s (transitionedStage now s to reason o)
| evolve_rerun now :
    ph = Observe -> isTerminalStageState (ss_state s) = true \/ ss_state s = pending ->
    stage_evolves ph s (rerunStage now s)
| evolve_dispatch now o :
    ph = Dispatch -> ss_state s = ready ->
    stage_evolves ph s (transitionedStage now (bumpAttemptOrdinal s) queued dispatch_intent o).

(** The change of the stage map in one step. *)
Definition working_change (ph : Phase) (c c' : TickContext) : Prop :=
  tc_working c' = tc_working c \/
  exists id s s', map_get (tc_working c) id = Some s /\
    tc_working c' = map_set (tc_working c) id s' /\ stage_evolves ph s s'.

Lemma active_not_terminal s : isActive s = true -> isTerminalStageState s = false.
Proof. by destruct s. Qed.

(** No move of the machine enters [pending]; only a rerun does. *)
Lemma move_not_pending ph c id s to reason o :
  isPermittedTransition (ss_state s) to reason = true ->
  move_guard ph c id s to reason o -> to <> pending.
Proof.
  intros Hp Hg ->. destruct (permitted_to_pending _ _ _ Hp eq_refl) as [Ht _].
  destruct ph; simpl in Hg; try done.
  - destruct Hg as [Hg%active_not_terminal _]. congruence.
  - by destruct Hg as (_ & ? & _).
  - by destruct Hg as (_ & _ & ? & _).
  - destruct Hg as (_ & _ & Hs & _). by rewrite Hs in Ht.
Qed.

Lemma step_env ph c c' : tick_step ph c c' -> tc_env c' = tc_env c.
Proof. by destruct 1 as [c' []| | | | |]. Qed.

Lemma step_working ph c c' : tick_step ph c c' -> working_change ph c c'.
Proof.
  destruct 1 as [c' []|id s to reason o Hs Hp Hg|id s -> _ Hs Ht|e p q|id s a|id s d dir -> _ Hs Hr];
    [by left| | |by left|by left|]; right; exists id, s; eexists; (split; [done|]).
  - split; [done|]. eapply evolve_move; [done|]. by eapply move_not_pending.
  - split; [done|]. by apply evolve_rerun.
  - split; [done|]. by apply evolve_dispatch.
Qed.

Lemma evolves_id ph s s' : stage_evolves ph s s' -> ss_stageId s' = ss_stageId s.
Proof. by destruct 1. Qed.

(** A context with the same environment and a change of one stage that keeps
    its id stays well formed. *)
Lemma wf_change ph c c' :
  wf c -> tc_env c' = tc_env c -> working_change ph c c' -> wf c'.
Proof.
  intros [He Hn Hk Hi] Henv Hw.
  assert (tc_input c' = tc_input c /\ tc_v2 c' = tc_v2 c /\ tc_graph c' = tc_graph c)
    as (H1 & H2 & H3) by (unfold tc_input, tc_v2, tc_graph; by rewrite Henv).
  destruct Hw as [Hw|(id & s & s' & Hs & Hw & Hev)].
  - split; rewrite ?H1, ?H2, ?H3, ?Henv, ?Hw; done.
  - assert (id ∈ map_keys (tc_working c)) as Hid by (apply map_get_keys; by eexists).
    split; rewrite ?H1, ?H2, ?H3, ?Henv, ?Hw, ?map_keys_set_in by done; try done.
    intros k s0. rewrite map_get_set. destruct (str_eqb k id) eqn:E; [|by apply Hi].
    apply str_eqb_true in E as ->. intros [= <-]. rewrite (evolves_id _ _ _ Hev).
    by apply Hi.
Qed.

Lemma step_wf ph c c' : wf c -> tick_step ph c c' -> wf c'.
Proof. intros Hc Hs. eapply wf_change; eauto using step_env, step_working. Qed.

Lemma steps_wf ph c c' : wf c -> steps ph c c' -> wf c'.
Proof. intros Hc. induction 1; eauto using step_wf. Qed.

Lemma steps_env ph c c' : steps ph c c' -> tc_env c' = tc_env c.
Proof. induction 1 as [|? ? ? H ? IH]; [done|]. rewrite IH. by eapply step_env. Qed.

(** A property of contexts that every step preserves is an invariant. *)
Lemma steps_inv (P : TickContext -> Prop) ph c c' :
  (forall a b, P a -> tick_step ph a b -> P b) -> P c -> steps ph c c' -> P c'.
Proof. intros H Hc. induction 1; eauto. Qed.

Lemma steps_quiet ph c c' : quiet ph c c' -> steps ph c c'.
Proof. intros H. by apply rtc_once, step_quiet. Qed.

Lemma steps_trans ph c1 c2 c3 : steps ph c1 c2 -> steps ph c2 c3 -> steps ph c1 c3.
Proof. intros H1 H2. by transitivity c2. Qed.

Lemma quiet_refl ph c : quiet ph c c.
Proof. split; try done; by left. Qed.

#[export] Hint Resolve steps_quiet quiet_refl step_quiet : heniek.

(** ** Operations and their steps *)

(** Updates of one bookkeeping field are quiet. *)
Lemma quiet_recoveryByKey ph f c : quiet ph c (upd_recoveryByKey f c).
Proof. split; try done; by left. Qed.

Lemma quiet_recoveryDecisions ph f c : quiet ph c (upd_recoveryDecisions f c).
Proof. split; try done; by left. Qed.

Lemma quiet_consumed ph f c : quiet ph c (upd_consumedObservationIds f c).
Proof. split; try done; by left. Qed.

#[export] Hint Resolve quiet_recoveryByKey quiet_recoveryDecisions quiet_consumed : heniek.

(** [recordDecision] never throws and is quiet. *)
Lemma recordDecision_wp ph f c (Q : unit -> TickContext -> Prop) :
  (forall c', quiet ph c c' -> Q tt c') -> wp (recordDecision f) Q c.
Proof.
  intros H. unfold recordDecision. wp_steps. wp_case E; wp_steps; apply H; [apply quiet_refl|].
  split; try done; [right|by left..]. eexists. split; [|done].
  intros Hin. apply list_elem_of_fmap in Hin as (d & Hd & Hin).
  rewrite <-not_true_iff_false in E. apply E. apply existsb_exists.
  exists d. split; [by apply list_elem_of_In|]. apply str_eqb_true. by rewrite <-Hd.
Qed.

Lemma workingStage_wp id s c (Q : StageSnapshot -> TickContext -> Prop) :
  map_get (tc_working c) id = Some s -> Q s c -> wp (workingStage id) Q c.
Proof. intros H HQ. unfold workingStage. wp_steps. done. Qed.

Lemma stageDefinition_wp id d c (Q : PipelineStage -> TickContext -> Prop) :
  map_get (env_stagesById (tc_env c)) id = Some d -> Q d c -> wp (stageDefinition id) Q c.
Proof. intros H HQ. unfold stageDefinition. wp_steps. done. Qed.

(** [applyTransition] on a permitted transition: the move, then a decision. *)
Lemma applyTransition_wp ph id s to reason o c (Q : unit -> TickContext -> Prop) :
  map_get (tc_working c) id = Some s ->
  isPermittedTransition (ss_state s) to reason = true ->
  (forall c', quiet ph (moved c id s to reason o) c' -> Q tt c') ->
  wp (applyTransition id to reason o) Q c.
Proof.
  intros Hs Hp H. unfold applyTransition, assertPermittedTransition, writeStage.
  wp_step. wp_step. wp_step. eapply workingStage_wp; [done|]. rewrite Hp. wp_steps.
  apply (recordDecision_wp ph). intros c' Hc'. by apply H.
Qed.

(** The same as steps of a phase whose guard allows the move. *)
Lemma applyTransition_steps ph id s to reason o c :
  map_get (tc_working c) id = Some s ->
  isPermittedTransition (ss_state s) to reason = true ->
  move_guard ph c id s to reason o ->
  wp (applyTransition id to reason o) (fun _ c' => steps ph c c') c.
Proof.
  intros Hs Hp Hg. eapply (applyTransition_wp ph); [done..|]. intros c' Hc'.
  eapply rtc_l; [by apply step_move|]. by apply steps_quiet.
Qed.

(** A permitted transition out of a known state, by computing the table. *)
Ltac permitted :=
  match goal with
  | H : ss_state _ = _ |- isPermittedTransition (ss_state _) _ _ = true =>
      rewrite H; vm_compute; reflexivity
  end.

(** Follow the code up to the first read of a stage. *)
Ltac read_stage := first [eapply workingStage_wp; [eassumption|]
                         |eapply stageDefinition_wp; [eassumption|]].

Lemma getRecoveryCounters_wp ph s c (Q : RecoveryEntry -> TickContext -> Prop) :
  (forall entry c', quiet ph c c' -> Q entry c') -> wp (getRecoveryCounters s) Q c.
Proof.
  intros H. unfold getRecoveryCounters. wp_steps. wp_case E; wp_steps; apply H;
    auto with heniek.
Qed.

(** Bookkeeping keeps the stage, its definition and the phase's flags. *)
Lemma quiet_stage ph c c' id : quiet ph c c' ->
  map_get (tc_working c') id = map_get (tc_working c) id.
Proof. intros Hq. by rewrite (q_working _ _ _ Hq). Qed.

Lemma applyRecoveryDecision_steps id s observation result c :
  map_get (tc_working c) id = Some s -> ss_state s = running \/ ss_state s = waiting ->
  wp (applyRecoveryDecision id observation result) (fun _ c' => steps Observe c c') c.
Proof.
  intros Hs Hst.
  set (c1 := upd_recoveryDecisions (fun ds => ds ++ [result_decision result]) c).
  assert (forall f to reason o, opt_selected o = None ->
    isPermittedTransition (ss_state s) to reason = true ->
    wp (applyTransition id to reason o) (fun _ c' => steps Observe c c')
      (upd_recoveryByKey f c1)) as Hmove.
  { intros f to reason o Ho Hp. eapply wp_mono.
    - apply (applyTransition_steps Observe id s); [done..|]. simpl.
      destruct Hst as [-> | ->]; by split.
    - simpl. intros _ c' Hc'. eapply rtc_l; [apply step_quiet, quiet_recoveryDecisions|].
      eapply rtc_l; [apply step_quiet, quiet_recoveryByKey|]. exact Hc'. }
  unfold applyRecoveryDecision, setRecoveryCounters. wp_step. read_stage. wp_steps.
  destruct result as [[]| | |]; simpl; (apply Hmove; [done|]); destruct Hst; permitted.
Qed.

Lemma processAttemptFailed_steps `{Sha256} id s observation c :
  wf c -> map_get (tc_working c) id = Some s ->
  wp (processAttemptFailed id observation) (fun _ c' => steps Observe c c') c.
Proof.
  intros Hc Hs. unfold processAttemptFailed. wp_step. read_stage.
  wp_case E; [wp_steps; apply rtc_refl|].
  assert (ss_state s = running \/ ss_state s = waiting) as Hst.
  { destruct (ss_state s); (by left) || (by right) || done. }
  destruct (wf_working_definition c id s Hc Hs) as (d & Hd & _).
  rewrite <-(wf_ids c Hc id s Hs) in Hd. wp_step. read_stage. wp_steps. wp_case Hf.
  - wp_step. apply (getRecoveryCounters_wp Observe). intros entry c' Hq.
    eapply wp_mono; [apply (applyRecoveryDecision_steps id s)|].
    + by rewrite (quiet_stage _ _ _ _ Hq).
    + done.
    + simpl. intros _ c'' Hc''. eapply rtc_l; [by apply step_quiet|]. done.
  - cbv zeta. wp_case Er; (apply (applyTransition_steps Observe id s); [done| |]);
      try (simpl; destruct Hst as [-> | ->]; by split); destruct Hst; try permitted;
      match goal with |- context [if ?b then retry_exhausted else _] => destruct b end;
      permitted.
Qed.

(** A guarded move after a quiet prefix. *)
Lemma quiet_then_move ph id s to reason o c c1 :
  quiet ph c c1 -> map_get (tc_working c) id = Some s ->
  isPermittedTransition (ss_state s) to reason = true ->
  move_guard ph c1 id s to reason o ->
  wp (applyTransition id to reason o) (fun _ c' => steps ph c c') c1.
Proof.
  intros Hq Hs Hp Hg. eapply wp_mono; [apply (applyTransition_steps ph id s)|]; try done.
  - by rewrite (quiet_stage _ _ _ _ Hq).
  - simpl. intros _ c' Hc'. eapply rtc_l; [by apply step_quiet|done].
Qed.

Lemma quiet_trans_recovery ph c c1 f g :
  quiet ph c c1 -> quiet ph c (upd_recoveryByKey f (upd_recoveryDecisions g c1)).
Proof. intros []. by split. Qed.

Lemma quiet_wf ph c c' : wf c -> quiet ph c c' -> wf c'.
Proof. intros Hc Hq. by eapply step_wf, step_quiet. Qed.

Lemma processRecoveryApproved_steps id s observation c :
  wf c -> map_get (tc_working c) id = Some s ->
  wp (processRecoveryApproved id observation) (fun _ c' => steps Observe c c') c.
Proof.
  intros Hc Hs. unfold processRecoveryApproved. wp_step. read_stage.
  wp_case E; [wp_steps; apply rtc_refl|].
  apply negb_false_iff, state_eqb_true in E.
  wp_step. apply (getRecoveryCounters_wp Observe). intros entry c' Hq. cbv zeta.
  destruct (so_proposalId observation) as [p|]; [|wp_steps; by apply steps_quiet].
  destruct (rc_pendingProposalId _) as [pp|]; [|wp_steps; by apply steps_quiet].
  destruct (rc_pendingDirective _) as [dir|]; [|wp_steps; by apply steps_quiet].
  wp_case Hpp; [wp_steps; by apply steps_quiet|].
  pose proof (quiet_wf _ _ _ Hc Hq) as Hc'.
  pose proof (quiet_stage _ _ _ id Hq) as Hs'. rewrite Hs in Hs'.
  destruct (wf_working_definition c' id s Hc' Hs') as (d & Hd & _).
  rewrite <-(wf_ids c Hc id s Hs) in Hd.
  wp_steps. read_stage. cbv beta zeta. unfold setRecoveryCounters. wp_steps.
  eapply (quiet_then_move Observe id s); [by apply quiet_trans_recovery|done|permitted|].
  simpl. rewrite E. by split.
Qed.

Lemma processRecoveryRejected_steps id s observation c :
  wf c -> map_get (tc_working c) id = Some s ->
  wp (processRecoveryRejected id observation) (fun _ c' => steps Observe c c') c.
Proof.
  intros Hc Hs. unfold processRecoveryRejected. wp_step. read_stage.
  wp_case E; [wp_steps; apply rtc_refl|].
  apply negb_false_iff, state_eqb_true in E.
  wp_step. apply (getRecoveryCounters_wp Observe). intros entry c' Hq. cbv zeta.
  wp_case Hpp; [wp_steps; by apply steps_quiet|].
  pose proof (quiet_wf _ _ _ Hc Hq) as Hc'.
  pose proof (quiet_stage _ _ _ id Hq) as Hs'. rewrite Hs in Hs'.
  destruct (wf_working_definition c' id s Hc' Hs') as (d & Hd & _).
  rewrite <-(wf_ids c Hc id s Hs) in Hd.
  wp_steps. read_stage. cbv beta zeta. unfold setRecoveryCounters. wp_steps.
  eapply (quiet_then_move Observe id s); [by apply quiet_trans_recovery|done|permitted|].
  simpl. rewrite E. by split.
Qed.

Lemma processStageObservation_steps `{Sha256} id s observation c :
  wf c -> map_get (tc_working c) id = Some s ->
  wp (processStageObservation id observation) (fun _ c' => steps Observe c c') c.
Proof.
  intros Hc Hs. unfold processStageObservation. wp_step. read_stage. cbv zeta.
  assert (forall b to reason o, opt_selected o = None ->
    (b = true -> isPermittedTransition (ss_state s) to reason = true /\
                 isActive (ss_state s) = true) ->
    wp (if b then applyTransition id to reason o else ret tt)
      (fun _ c' => steps Observe c c') c) as Hif.
  { intros [] to reason o Ho Hb; [|wp_steps; apply rtc_refl].
    destruct (Hb eq_refl). by apply (applyTransition_steps Observe id s). }
  destruct (so_kind observation); try (wp_steps; apply rtc_refl);
    [apply Hif; [done|]..| |apply Hif; [done|]| |]; try (intros Hb; destruct (ss_state s); try done;
      split; vm_compute; reflexivity).
  - by eapply processAttemptFailed_steps.
  - by eapply processRecoveryApproved_steps.
  - by eapply processRecoveryRejected_steps.
Qed.

(** ** Manual reruns *)

Lemma upd_transitions_nil c : upd_transitions (fun ts => ts ++ []) c = c.
Proof. destruct c. unfold upd_transitions. simpl. by rewrite app_nil_r. Qed.

Lemma rerunTarget_steps id s c :
  rerun_requested (tc_input c) id -> map_get (tc_working c) id = Some s ->
  wp (rerunTarget id) (fun _ c' => steps Observe c c') c.
Proof.
  intros Hreq Hs. unfold rerunTarget, setRecoveryCounters, writeStage. wp_step. read_stage.
  wp_case E; [wp_steps; apply rtc_refl|].
  assert (isTerminalStageState (ss_state s) = true \/ ss_state s = pending) as Ht.
  { destruct (ss_state s); (by left) || (by right) || done. }
  assert (forall f c', quiet Observe (rerun (upd_recoveryByKey f c) id s) c' ->
    steps Observe c c') as Hfinish.
  { intros f c' Hq. eapply rtc_l; [apply step_quiet, (quiet_recoveryByKey _ f)|].
    eapply rtc_l; [by apply (step_rerun Observe _ id s)|]. by apply steps_quiet. }
  wp_steps.
  destruct (state_eqb (ss_state s) pending) eqn:Ep; cbn [negb].
  - wp_steps. apply (recordDecision_wp Observe). intros c' Hq.
    eapply Hfinish. unfold rerun. rewrite Ep, upd_transitions_nil. exact Hq.
  - unfold assertPermittedTransition.
    assert (isPermittedTransition (ss_state s) pending manual_rerun = true) as ->.
    { destruct (ss_state s); try done; vm_compute; reflexivity. }
    wp_steps. apply (recordDecision_wp Observe). intros c' Hq. eapply Hfinish.
    unfold rerun. rewrite Ep. exact Hq.
Qed.

Lemma processManualRerun_steps o id c :
  wf c -> o ∈ in_observations (tc_input c) -> so_kind o = ob_manual_rerun ->
  so_stageId o = Some id -> wp (processManualRerun id) (fun _ c' => steps Observe c c') c.
Proof.
  intros Hc Ho Hkind Hstage. unfold processManualRerun. wp_steps.
  destruct (map_get (tc_working c) id) as [s|] eqn:Hs; [|wp_steps; apply rtc_refl].
  apply (wp_forM _ _ (fun c' => steps Observe c c')); [apply rtc_refl|].
  intros x c' Hx Hc'. rewrite elem_of_sort_strings in Hx.
  assert (id ∈ stageIds (tc_graph c)) as Hid by (apply (wf_keys c Hc), map_get_keys; by eexists).
  destruct (wf_graph c Hc) as [Hok Hg].
  assert (x = id \/ tc (edge_rel (in_graph (tc_input c))) id x) as Hx'.
  { apply elem_of_cons in Hx as [->|Hx]; [by left|right].
    rewrite Hg in Hid. destruct (ef_descendants _ _ _ (wf_env c Hc) id Hid) as (l & Hl & _ & Hdesc).
    rewrite Hl in Hx. by apply Hdesc in Hx. }
  assert (x ∈ stageIds (tc_graph c)) as Hin.
  { destruct Hx' as [->|Ht]; [done|]. rewrite <-Hg in Ht.
    apply tc_r_inv in Ht as (y & (e & He & _ & <-)).
    by destruct (edge_ok_elim _ _ Hok He) as (_ & ? & _). }
  pose proof (steps_env _ _ _ Hc') as Henv.
  destruct (wf_stage c' x) as (sx & Hsx & _); [by eapply steps_wf|unfold tc_graph; by rewrite Henv|].
  eapply wp_mono; [eapply rerunTarget_steps; [|done]|].
  { unfold tc_input. rewrite Henv. by exists o, id. }
  simpl. intros _ c'' Hc''. by eapply steps_trans.
Qed.

(** ** Observations *)

Lemma quiet_evaluator key selected c :
  evaluator_observed (tc_input c) key selected ->
  quiet Observe c (upd_pendingEvaluators (fun s => set_delete s key)
    (upd_evaluatorDecisions (fun m => map_set m key selected) c)).
Proof.
  intros Ho. split; try done; [by left..| |].
  - right. by exists key, selected.
  - intros x Hx. simpl in Hx. unfold set_delete in Hx. by apply list_elem_of_filter in Hx as [_ ?].
Qed.

Lemma processObservation_steps `{Sha256} observation c :
  wf c -> observation ∈ in_observations (tc_input c) ->
  wp (processObservation observation) (fun _ c' => steps Observe c c' /\
    (so_kind observation = ob_cancel_requested -> tc_cancelRequested c' = true)) c.
Proof.
  intros Hc Ho. unfold processObservation. wp_steps.
  set (c1 := upd_consumedObservationIds _ c).
  assert (quiet Observe c c1) as Hq by apply quiet_consumed.
  assert (wf c1) as Hc1 by by eapply quiet_wf.
  assert (steps Observe c c1) as H1 by by apply steps_quiet.
  assert (forall m : T unit, so_kind observation <> ob_cancel_requested ->
    wp m (fun _ c' => steps Observe c1 c') c1 ->
    wp m (fun _ c' => steps Observe c c' /\
      (so_kind observation = ob_cancel_requested -> tc_cancelRequested c' = true)) c1) as Hpre.
  { intros m Hk Hm. eapply wp_mono; [exact Hm|]. simpl. intros _ c' Hc'.
    split; [by eapply steps_trans|done]. }
  assert (wp (match so_stageId observation with
    | None => ret tt
    | Some stageId => bind get (fun c => match map_get (tc_working c) stageId with
        | None => ret tt | Some _ => processStageObservation stageId observation end)
    end) (fun _ c' => steps Observe c1 c') c1) as Hstage.
  { destruct (so_stageId observation) as [id|]; [|by apply wp_ret, rtc_refl]. wp_steps.
    destruct (map_get (tc_working c1) id) as [s|] eqn:Hs; [|by apply wp_ret, rtc_refl].
    by eapply processStageObservation_steps. }
  destruct (so_kind observation) eqn:Hk; try (by apply Hpre; [done|exact Hstage]).
  - apply Hpre; [done|]. unfold processEvaluatorDecided.
    destruct (so_edgeKey observation) as [key|] eqn:Hkey; [|by apply wp_ret, rtc_refl].
    destruct (so_selected observation) as [sel|] eqn:Hsel; [|by apply wp_ret, rtc_refl].
    wp_steps. apply (recordDecision_wp Observe). intros c' Hc'.
    eapply rtc_l; [apply step_quiet, quiet_evaluator|by apply steps_quiet].
    by exists observation.
  - wp_steps. split; [|done]. eapply steps_trans; [exact H1|]. apply steps_quiet.
    split; try done; [by left|right|by left]. split; [done|]. split; [done|]. by exists observation.
  - apply Hpre; [done|].
    destruct (so_stageId observation) as [id|] eqn:Hid; [|by apply wp_ret, rtc_refl].
    by apply (processManualRerun_steps observation).
Qed.

(** ** The cancellation sweep *)

Definition inactive (s : PipelineStageState) : Prop :=
  s = pending \/ s = ready \/ s = retrying.

(** The sweep is done with a stage: it does not wait to run, and if it holds an
    attempt its cancellation is in the outbox. *)
Definition swept (c : TickContext) (id : string) : Prop :=
  forall s, map_get (tc_working c) id = Some s ->
    ~ inactive (ss_state s) /\
    forall a, isActive (ss_state s) = true -> ss_currentAttemptId s = Some a ->
      si_intentId (cancel_intent c s a) ∈ map si_intentId (tc_intents c).

Lemma cancel_intent_id c c' s a a' :
  tc_env c' = tc_env c -> si_intentId (cancel_intent c' s a') = si_intentId (cancel_intent c s a).
Proof. intros H. unfold cancel_intent, intent_of, tc_input. simpl. by rewrite H. Qed.

(** Intents are only ever appended. *)
Lemma step_intents_prefix ph c c' : tick_step ph c c' -> tc_intents c `prefix_of` tc_intents c'.
Proof. destruct 1 as [c' Hq| | | | |]; [by rewrite (q_intents _ _ _ Hq)|..]; simpl;
  (reflexivity || by eexists). Qed.

Lemma steps_intents ph c c' i :
  steps ph c c' -> i ∈ map si_intentId (tc_intents c) -> i ∈ map si_intentId (tc_intents c').
Proof.
  intros H Hi. revert H. apply (steps_inv (fun c => i ∈ map si_intentId (tc_intents c))); [|done].
  intros a b Ha Hab. destruct (step_intents_prefix _ _ _ Hab) as [l ->].
  rewrite map_app, elem_of_app. by left.
Qed.

Lemma inactive_not_active s : inactive s -> isActive s = false.
Proof. by intros [->|[->| ->]]. Qed.

Lemma swept_step c c' id : swept c id -> tick_step Sweep c c' -> swept c' id.
Proof.
  intros Hsw Hst. pose proof (step_env _ _ _ Hst) as Henv.
  assert (forall s, map_get (tc_working c') id = Some s -> map_get (tc_working c) id = Some s)
    as Hback.
  { intros s. destruct Hst as [c' Hq|x sx to reason o Hx Hp Hg| | | |]; simpl; try done.
    - by rewrite (q_working _ _ _ Hq).
    - destruct Hg as (_ & -> & _ & Hin). rewrite map_get_set.
      destruct (str_eqb id x) eqn:E; [|done]. apply str_eqb_true in E as ->.
      by destruct (Hsw sx Hx). }
  intros s Hs%Hback. destruct (Hsw s Hs) as [H1 H2]. split; [done|]. intros a Ha Hat.
  rewrite (cancel_intent_id c c' s a a Henv). eapply steps_intents; [by apply rtc_once|]. by apply H2.
Qed.

Lemma steps_closing ph c c' : ph <> Observe -> steps ph c c' ->
  tc_cancelRequested c' = tc_cancelRequested c /\ closing c' = closing c /\
  tc_evaluatorDecisions c' = tc_evaluatorDecisions c.
Proof.
  intros Hph. induction 1 as [|c1 c2 c3 Hst _ (IH1 & IH2 & IH3)]; [done|].
  assert (tc_cancelRequested c2 = tc_cancelRequested c1 /\
          tc_evaluatorDecisions c2 = tc_evaluatorDecisions c1) as [H1 H2].
  { destruct Hst as [c' Hq| | | | |]; try done. by destruct (q_flags _ _ _ Hq Hph) as (? & ? & _). }
  rewrite IH1, IH2, IH3. unfold closing, tc_deadlineExceeded.
  rewrite H1, (step_env _ _ _ Hst). done.
Qed.

Lemma cancelInactiveStage_steps id s reason c :
  map_get (tc_working c) id = Some s -> closing c = true ->
  reason = deadline_exceeded \/ reason = pipeline_cancelled ->
  wp (cancelInactiveStage id reason) (fun _ c' => steps Sweep c c' /\
    exists s', map_get (tc_working c') id = Some s' /\ ~ inactive (ss_state s')) c.
Proof.
  intros Hs Hcl Hr. unfold cancelInactiveStage. wp_step. read_stage. wp_case E.
  - assert (inactive (ss_state s)) as Hin.
    { unfold inactive. destruct (ss_state s); naive_solver. }
    apply (applyTransition_wp Sweep _ s); [done| |].
    + destruct Hin as [H|[H|H]], Hr as [-> | ->]; permitted.
    + intros c' Hq. split.
      * eapply rtc_l; [|by apply steps_quiet]. apply step_move; [done| |by split].
        destruct Hin as [H|[H|H]], Hr as [-> | ->]; permitted.
      * rewrite (quiet_stage _ _ _ _ Hq). simpl. rewrite map_get_set_eq.
        eexists. split; [done|]. simpl. unfold inactive. naive_solver.
  - wp_steps. split; [apply rtc_refl|]. exists s. split; [done|].
    unfold inactive. intros [H|[H|H]]; by rewrite H in E.
Qed.

Lemma requestCancelForActive_steps id s c :
  map_get (tc_working c) id = Some s -> closing c = true -> ~ inactive (ss_state s) ->
  wp (requestCancelForActive id) (fun _ c' => steps Sweep c c' /\ swept c' id) c.
Proof.
  intros Hs Hcl Hin. unfold requestCancelForActive. wp_step. read_stage.
  assert (forall c', tc_env c' = tc_env c -> tc_working c' = tc_working c ->
    (forall a, isActive (ss_state s) = true -> ss_currentAttemptId s = Some a ->
       si_intentId (cancel_intent c s a) ∈ map si_intentId (tc_intents c')) -> swept c' id)
    as Hdone.
  { intros c' Henv Hw H s' Hs'. rewrite Hw, Hs in Hs'. injection Hs' as <-. split; [done|].
    intros a H1 H2. rewrite (cancel_intent_id c c' s a a Henv). by apply H. }
  wp_case Ea.
  { wp_steps. split; [apply rtc_refl|]. apply Hdone; [done..|]. intros a Hact.
    by rewrite Hact in Ea. }
  apply negb_false_iff in Ea.
  destruct (ss_currentAttemptId s) as [a|] eqn:Hat.
  2:{ wp_steps. split; [apply rtc_refl|]. by apply Hdone. }
  wp_steps. wp_case Ex.
  - wp_steps. split; [apply rtc_refl|]. apply Hdone; [done..|]. intros a' _ [= <-].
    apply existsb_exists in Ex as (i & Hi & Hid%str_eqb_true).
    apply list_elem_of_fmap. exists i. split; [done|]. by apply list_elem_of_In.
  - wp_steps. apply (recordDecision_wp Sweep). intros c' Hq. split.
    + eapply rtc_l; [|by apply steps_quiet].
      apply (step_cancel_intent Sweep c id s a); try done.
      intros Hf. apply list_elem_of_fmap in Hf as (i & Hi & Hin').
      rewrite <-not_true_iff_false in Ex. apply Ex, existsb_exists.
      exists i. split; [by apply list_elem_of_In|]. by apply str_eqb_true.
    + apply Hdone; [apply (q_env _ _ _ Hq)|apply (q_working _ _ _ Hq)|].
      intros a' _ [= <-]. rewrite (q_intents _ _ _ Hq). simpl.
      rewrite map_app, elem_of_app. right. by left.
Qed.

Lemma cancellationSweep_steps c :
  wf c ->
  wp cancellationSweep (fun _ c' => steps Sweep c c' /\
    (closing c = true -> forall id, id ∈ stageIds (tc_graph c) -> swept c' id) /\
    (closing c = false -> c' = c)) c.
Proof.
  intros Hc. unfold cancellationSweep. wp_steps. fold (closing c).
  destruct (closing c) eqn:Hcl; [|wp_steps; split; [apply rtc_refl|done]].
  eapply wp_mono.
  - apply (wp_forM_prefix _ _ (fun done c' => steps Sweep c c' /\
      forall id, id ∈ done -> swept c' id)).
    + split; [apply rtc_refl|]. by intros id ?%elem_of_nil.
    + intros done id rest c' Hl [Hst Hsw].
      assert (id ∈ map_keys (tc_working c)) as Hid%(wf_keys c Hc).
      { rewrite <-elem_of_sort_strings, Hl. set_solver. }
      destruct (steps_closing Sweep _ _ ltac:(discriminate) Hst) as (_ & Hcl' & _).
      destruct (wf_stage c' id) as (s & Hs & _);
        [by eapply steps_wf|unfold tc_graph; by rewrite (steps_env _ _ _ Hst)|].
      wp_step. eapply wp_mono.
      { apply (cancelInactiveStage_steps id s); [done|by rewrite Hcl'|].
        destruct (tc_deadlineExceeded c); auto. }
      intros _ c1 (H1 & s1 & Hs1 & Hin1).
      destruct (steps_closing Sweep _ _ ltac:(discriminate) H1) as (_ & Hcl1 & _).
      eapply wp_mono; [apply (requestCancelForActive_steps id s1); [done|congruence|done]|].
      intros _ c2 [H2 Hdone]. split; [by eapply steps_trans; [|eapply steps_trans]|].
      intros x [Hx|Hx%list_elem_of_singleton]%elem_of_app; [|by subst].
      apply (steps_inv (fun c => swept c x) Sweep c'); [by intros; eapply swept_step|by auto|].
      by eapply steps_trans.
  - simpl. intros _ c' [Hst Hsw]. split; [done|]. split; [|done].
    intros _ id Hid. apply Hsw. rewrite elem_of_sort_strings. by apply (wf_keys c Hc).
Qed.

(** ** Re-arming *)

Lemma rearmRetries_steps ids c :
  wf c -> ids ⊆ stageIds (tc_graph c) ->
  wp (rearmRetries ids) (fun _ c' => steps Rearm c c') c.
Proof.
  intros Hc Hids. unfold rearmRetries.
  apply (wp_forM _ _ (fun c' => steps Rearm c c')); [apply rtc_refl|].
  intros id c' Hid Hst. rewrite elem_of_sort_strings in Hid. apply Hids in Hid.
  destruct (wf_stage c' id) as (s & Hs & _);
    [by eapply steps_wf|unfold tc_graph; by rewrite (steps_env _ _ _ Hst)|].
  unfold rearmStage. wp_step. read_stage. wp_case E; [by wp_steps|].
  apply negb_false_iff, state_eqb_true in E. wp_steps. fold (closing c').
  wp_case Hcl; [by wp_steps|].
  eapply wp_mono; [apply (applyTransition_steps Rearm id s); [done|permitted|]|].
  - by split.
  - simpl. intros _ c'' H. by eapply steps_trans.
Qed.
