(* ===== verification/TickRelease.v ===== *)
(** * Releasing and dispatching

    [maybeReleaseStage], the release loop and [queueReadyStages] of [tick.ts]
    against the abstract machine: the effectful edge resolution computes
    [edge_verdict], the loop ends in a fixpoint of [release_rule], and queueing
    respects the concurrency limit. *)

From S2P Require Import Prelude Transitions Ids Json Evaluate Recovery Graph Tick TickGraph TickSteps.
Local Open Scope Z_scope.

(** ** Frames *)

(** Nothing an edge verdict or a release depends on has changed. *)
Record same_view (c c' : TickContext) : Prop := {
  sv_env : tc_env c' = tc_env c;
  sv_working : tc_working c' = tc_working c;
  sv_evaluators : tc_evaluatorDecisions c' = tc_evaluatorDecisions c;
  sv_cancel : tc_cancelRequested c' = tc_cancelRequested c
}.

Lemma same_view_refl c : same_view c c.
Proof. done. Qed.

Lemma same_view_trans c1 c2 c3 : same_view c1 c2 -> same_view c2 c3 -> same_view c1 c3.
Proof. intros [] []. split; congruence. Qed.

Lemma edge_verdict_view c c' e : same_view c c' -> edge_verdict c' e = edge_verdict c e.
Proof.
  intros [H1 H2 H3 H4]. unfold edge_verdict, tc_input. by rewrite H1, H2, H3.
Qed.

Lemma unsatisfiedReads_view c c' d :
  same_view c c' -> unsatisfiedReads c' d = unsatisfiedReads c d.
Proof.
  intros [H1 H2 H3 H4]. unfold unsatisfiedReads, producedWrites, tc_graph. by rewrite H1, H2.
Qed.

Lemma release_rule_view c c' id : same_view c c' -> release_rule c' id = release_rule c id.
Proof.
  intros Hv. unfold release_rule, incoming_edges. rewrite (sv_env _ _ Hv).
  destruct (default [] _) as [|e es]; [done|]. cbv zeta.
  rewrite (map_ext (edge_verdict c') (edge_verdict c)) by (intros x; by apply edge_verdict_view).
  destruct (existsb _ _); [done|]. destruct (firstBlocked _); [done|].
  destruct (negb _); [done|]. destruct (map_get _ id); [|done].
  by rewrite (unsatisfiedReads_view _ _ _ Hv).
Qed.

(** Outside the observation phase a step that records no transition keeps the
    stages, and transitions are only appended. *)
Lemma step_view ph c c' : ph <> Observe -> tick_step ph c c' ->
  tc_transitions c `prefix_of` tc_transitions c' /\
  (tc_transitions c' = tc_transitions c -> same_view c c').
Proof.
  intros Hph Hst. destruct (steps_closing ph c c' Hph (rtc_once _ _ Hst)) as (H1 & _ & H2).
  pose proof (step_env _ _ _ Hst) as H3.
  enough (tc_transitions c `prefix_of` tc_transitions c' /\
    (tc_transitions c' = tc_transitions c -> tc_working c' = tc_working c)) as [? Hw]
    by (split; [done|]; intros Ht; split; auto).
  destruct Hst as [c' Hq|id s to reason o| | | |]; simpl; try done;
    try (split; [by eexists|]; intros Hl; exfalso;
         by apply (f_equal length) in Hl; rewrite length_app in Hl; simpl in Hl; lia).
  by rewrite (q_transitions _ _ _ Hq), (q_working _ _ _ Hq).
Qed.

Lemma steps_view ph c c' : ph <> Observe -> steps ph c c' ->
  tc_transitions c `prefix_of` tc_transitions c' /\
  (tc_transitions c' = tc_transitions c -> same_view c c').
Proof.
  intros Hph. induction 1 as [c|c1 c2 c3 H12 _ [IHp IHv]]; [by split|].
  destruct (step_view _ _ _ Hph H12) as [Hp Hv]. split; [by etrans|]. intros Heq.
  assert (tc_transitions c2 = tc_transitions c1) as H21.
  { destruct Hp as [l1 H1], IHp as [l2 H2]. rewrite H1, <-app_assoc in H2. rewrite H2 in Heq.
    rewrite <-(app_nil_r (tc_transitions c1)) in Heq at 2. apply app_inv_head in Heq.
    apply app_eq_nil in Heq as [-> _]. by rewrite app_nil_r in H1. }
  eapply same_view_trans; [by apply Hv|]. apply IHv. congruence.
Qed.

(** The evaluator of an edge has been asked: the request is pending from an
    earlier tick or is an intent of this one. *)
Definition asked (c : TickContext) (e : PipelineEdge) : Prop :=
  edgeKey (pe_from e) (pe_to e) ∈ tc_pendingEvaluators c \/
  deriveIntentId (in_runId (tc_input c)) (in_graphRevision (tc_input c)) ik_evaluator
    (edgeKey (pe_from e) (pe_to e)) ∈ map si_intentId (tc_intents c).

Lemma asked_steps ph c c' e : ph <> Observe -> steps ph c c' -> asked c e -> asked c' e.
Proof.
  intros Hph. induction 1 as [|c1 c2 c3 H12 _ IH]; [done|]. intros [Ha|Ha]; apply IH.
  - left. destruct H12 as [c2 Hq| | |e' p q| |]; try done.
    + by destruct (q_flags _ _ _ Hq Hph) as (_ & _ & ->).
    + simpl. apply elem_of_set_add. by right.
  - right. unfold tc_input in *. rewrite (step_env _ _ _ H12).
    eapply steps_intents; [by apply rtc_once|done].
Qed.

(** An edge waits for its evaluator. *)
Definition awaiting (c : TickContext) (e : PipelineEdge) : Prop :=
  (exists p q, pe_condition e = Some (CEvaluator p q)) /\
  (exists p, map_get (tc_working c) (pe_from e) = Some p /\ ss_state p = succeeded) /\
  map_get (tc_evaluatorDecisions c) (edgeKey (pe_from e) (pe_to e)) = None.

Lemma awaiting_view c c' e : same_view c c' -> awaiting c' e <-> awaiting c e.
Proof. intros [H1 H2 H3 H4]. unfold awaiting. by rewrite H2, H3. Qed.

(** ** Edge resolution *)

Lemma requestEvaluator_steps e p q c :
  wf c -> e ∈ pg_edges (tc_graph c) -> pe_condition e = Some (CEvaluator p q) ->
  wp (requestEvaluator e p q) (fun r c' => steps Release c c' /\ same_view c c' /\
    tc_transitions c' = tc_transitions c /\
    r = match map_get (tc_evaluatorDecisions c) (edgeKey (pe_from e) (pe_to e)) with
        | Some selected => if selected then edge_selected else edge_rejected
        | None => edge_pending
        end /\ (awaiting c e -> asked c' e)) c.
Proof.
  intros Hc He Hcond. unfold requestEvaluator. wp_steps.
  destruct (map_get (tc_evaluatorDecisions c) _) as [sel|] eqn:Hd.
  { wp_steps. split; [apply rtc_refl|]. split_and!; [done|done|by destruct sel|].
    intros (_ & _ & ?). congruence. }
  wp_case Hp.
  { wp_steps. split; [apply rtc_refl|]. split_and!; [done..|]. intros _. left.
    by apply set_has_true. }
  wp_case Hx.
  { wp_steps. split; [apply rtc_refl|]. split_and!; [done..|]. intros _. right.
    apply existsb_exists in Hx as (i & Hi & Hid%str_eqb_true).
    apply list_elem_of_fmap. exists i. split; [done|]. by apply list_elem_of_In. }
  assert (tick_step Release c (requested c e p q)) as Hstep.
  { apply step_evaluator; try done.
    - by apply set_has_false.
    - intros Hf. apply list_elem_of_fmap in Hf as (i & Hi & Hin).
      rewrite <-not_true_iff_false in Hx. apply Hx, existsb_exists.
      exists i. split; [by apply list_elem_of_In|]. by apply str_eqb_true. }
  destruct (wf_graph c Hc) as [Hg _]. destruct (edge_ok_elim _ _ Hg He) as (_ & Hto & _).
  destruct (wf_stage c (pe_to e) Hc Hto) as (st & Hst & _).
  wp_steps. eapply workingStage_wp; [exact Hst|]. wp_steps.
  apply (recordDecision_wp Release). intros c' Hq. wp_steps. split.
  - eapply rtc_l; [exact Hstep|]. by apply steps_quiet.
  - destruct (q_flags _ _ _ Hq) as (H1 & H2 & H3); [done|]. split_and!; [|..|done|].
    + split; [apply (q_env _ _ _ Hq)|apply (q_working _ _ _ Hq)|done..].
    + apply (q_transitions _ _ _ Hq).
    + intros _. left. rewrite H3. simpl. apply elem_of_set_add. by left.
Qed.

Lemma resolveIncomingEdge_steps e c :
  wf c -> e ∈ pg_edges (tc_graph c) ->
  wp (resolveIncomingEdge e) (fun r c' => steps Release c c' /\ same_view c c' /\
    tc_transitions c' = tc_transitions c /\ r = edge_verdict c e /\
    (awaiting c e -> asked c' e)) c.
Proof.
  intros Hc He. destruct (wf_graph c Hc) as [Hg _].
  destruct (edge_ok_elim _ _ Hg He) as (Hfrom & _ & Hcond).
  destruct (wf_stage c (pe_from e) Hc Hfrom) as (p & Hp & _).
  destruct (wf_definition c (pe_from e) Hc Hfrom) as (d & Hd & _).
  assert (forall r, ~ awaiting c e -> r = edge_verdict c e ->
    wp (ret r : T EdgeResolution) (fun r c' => steps Release c c' /\
    same_view c c' /\ tc_transitions c' = tc_transitions c /\ r = edge_verdict c e /\
    (awaiting c e -> asked c' e)) c) as Hret.
  { intros r Hna ->. apply wp_ret. split; [apply rtc_refl|done]. }
  unfold resolveIncomingEdge. wp_steps. eapply workingStage_wp; [done|].
  assert (ss_state p <> succeeded -> ~ awaiting c e) as Hna.
  { intros Hne (_ & (p' & Hp' & Hs') & _). congruence. }
  assert ((forall pr qu, pe_condition e <> Some (CEvaluator pr qu)) -> ~ awaiting c e) as Hnc.
  { intros Hne ((pr & qu & Hpq) & _). by apply (Hne pr qu). }
  unfold edge_verdict in *. rewrite Hp, Hd in *. simpl in *.
  destruct (ss_state p) eqn:Es; simpl; rewrite ?andb_false_r, ?andb_true_r;
    try (by apply Hret; auto).
  - destruct (pe_condition e) as [[cond|pr qu]|] eqn:Hpe; [| |by apply Hret; auto].
    + destruct (evaluateExpressionCondition_total cond (in_canonicalState (tc_input c)) Hcond)
        as [[b|code msg pa] Hev]; rewrite Hev in *; [|by apply Hret; auto].
      by destruct b; apply Hret; auto.
    + by apply requestEvaluator_steps.
  - wp_step. read_stage. by destruct (ps_optional d); apply Hret; auto.
  - destruct (ss_selected p); simpl; [|by apply Hret; auto].
    by case_bool_decide; apply Hret; auto.
Qed.

Lemma resolveIncomingEdges_steps edges c :
  wf c -> edges ⊆ pg_edges (tc_graph c) ->
  wp (mapM resolveIncomingEdge edges) (fun rs c' => steps Release c c' /\ same_view c c' /\
    tc_transitions c' = tc_transitions c /\ rs = map (edge_verdict c) edges /\
    forall e, e ∈ edges -> awaiting c e -> asked c' e) c.
Proof.
  revert c. induction edges as [|e edges IH]; intros c Hc Hsub; simpl.
  - wp_steps. split; [apply rtc_refl|]. split_and!; try done. by intros e ?%elem_of_nil.
  - wp_step. eapply wp_mono; [apply resolveIncomingEdge_steps; [done|apply Hsub; left]|].
    intros r c1 (H1 & H2 & H3 & -> & Hask). wp_step. eapply wp_mono; [apply IH|].
    + by eapply steps_wf.
    + unfold tc_graph. rewrite (sv_env _ _ H2). intros x Hx. apply Hsub. by right.
    + intros rs c2 (H4 & H5 & H6 & -> & Hasks). wp_steps. split; [by eapply steps_trans|].
      split; [by eapply same_view_trans|]. split; [congruence|]. split.
      * f_equal. apply map_ext. intros x. by apply edge_verdict_view.
      * intros x [->|Hx]%elem_of_cons Hw.
        -- apply (asked_steps Release c1); [done..|]. by apply Hask.
        -- apply Hasks; [done|]. by apply (awaiting_view _ _ _ H2).
Qed.

(** ** Releasing one stage *)

(** A pending stage has nothing left to do in this phase. *)
Definition settled (c : TickContext) (id : string) : Prop :=
  forall s, map_get (tc_working c) id = Some s ->
    ss_selected s = true -> ss_state s = pending ->
    closing c = true \/
    (release_rule c id = None /\
     forall e, e ∈ incoming_edges c id -> awaiting c e -> asked c e).

Lemma settled_view c c' id :
  steps Release c c' -> same_view c c' -> settled c id -> settled c' id.
Proof.
  intros Hst Hv H s. rewrite (sv_working _ _ Hv), (release_rule_view _ _ _ Hv).
  unfold closing, tc_deadlineExceeded, incoming_edges. rewrite (sv_env _ _ Hv), (sv_cancel _ _ Hv).
  intros H1 H2 H3. destruct (H s H1 H2 H3) as [?|[Hr Ha]]; [by left|right]. split; [done|].
  intros e He Hw. apply (asked_steps Release c); [done..|].
  apply Ha; [done|]. by apply (awaiting_view _ _ _ Hv).
Qed.

Lemma moved_transitions c id s to reason o c' ph :
  quiet ph (moved c id s to reason o) c' -> tc_transitions c' <> tc_transitions c.
Proof.
  intros Hq. rewrite (q_transitions _ _ _ Hq). simpl. intros Hl%(f_equal length).
  rewrite length_app in Hl. simpl in Hl. lia.
Qed.

(** A move the release rule dictates. *)
Lemma release_move id s to reason o c c1 :
  steps Release c c1 -> map_get (tc_working c1) id = Some s ->
  closing c1 = false -> ss_selected s = true -> ss_state s = pending ->
  release_rule c1 id = Some (to, reason, opt_blockReason o) ->
  (opt_selected o = Some false <-> to = cancelled) ->
  isPermittedTransition pending to reason = true ->
  wp (applyTransition id to reason o) (fun _ c' => steps Release c c' /\
    (tc_transitions c' = tc_transitions c -> same_view c c' /\ settled c' id)) c1.
Proof.
  intros H1 Hs Hcl Hsel Hst Hrule Ho Hp. rewrite <-Hst in Hp.
  apply (applyTransition_wp Release _ s); [done..|]. intros c' Hq.
  assert (steps Release c c') as Hsteps.
  { eapply steps_trans; [exact H1|]. eapply rtc_l; [|by apply steps_quiet].
    apply step_move; [done..|]. by split. }
  split; [done|]. intros Heq. exfalso. apply (moved_transitions _ _ _ _ _ _ _ _ Hq).
  destruct (steps_view Release _ _ ltac:(discriminate) H1) as [[l1 Hl1] _].
  pose proof (q_transitions _ _ _ Hq) as Hl2. simpl in Hl2.
  rewrite Heq, Hl1 in Hl2. apply (f_equal length) in Hl2.
  rewrite !length_app in Hl2. simpl in Hl2. lia.
Qed.

Lemma maybeReleaseStage_steps id c :
  wf c -> id ∈ stageIds (tc_graph c) ->
  wp (maybeReleaseStage id) (fun _ c' => steps Release c c' /\
    (tc_transitions c' = tc_transitions c -> same_view c c' /\ settled c' id)) c.
Proof.
  intros Hc Hid. destruct (wf_stage c id Hc Hid) as (s & Hs & Hsid).
  assert (settled c id -> steps Release c c /\
    (tc_transitions c = tc_transitions c -> same_view c c /\ settled c id)) as Hnothing
    by (intros; split; [apply rtc_refl|done]).
  unfold maybeReleaseStage. wp_step. read_stage. wp_case E.
  { wp_steps. apply Hnothing. intros s' Hs' Hsel Hst. rewrite Hs in Hs'. injection Hs' as <-.
    by rewrite Hsel, Hst in E. }
  apply orb_false_elim in E as [Hsel%negb_false_iff Hst%negb_false_iff%state_eqb_true].
  wp_steps. fold (closing c). destruct (closing c) eqn:Hcl.
  { wp_steps. apply Hnothing. intros s' _ _ _. by left. }
  fold (incoming_edges c id). destruct (incoming_edges c id) as [|e es] eqn:Hinc.
  { apply (release_move id s); try done. unfold release_rule. by rewrite Hinc. }
  wp_step. eapply wp_mono; [apply resolveIncomingEdges_steps; [done|]|].
  { intros x Hx. rewrite <-Hinc in Hx. by apply incoming_edges_spec in Hx as [??]. }
  intros rs c1 (H1 & Hv & Ht & -> & Hasks). cbv beta.
  assert (closing c1 = false) as Hcl1.
  { by destruct (steps_closing Release _ _ ltac:(discriminate) H1) as (_ & -> & _). }
  assert (map_get (tc_working c1) id = Some s) as Hs1 by by rewrite (sv_working _ _ Hv).
  pose proof (release_rule_view _ _ id Hv) as Hrule.
  unfold release_rule in Hrule at 2. rewrite Hinc in Hrule.
  destruct (existsb (fun r => bool_decide (r = edge_pending)) _) eqn:Epend.
  { wp_steps. split; [done|]. intros _. split; [done|].
    intros s' _ _ _. right. split; [done|]. unfold incoming_edges.
    rewrite (sv_env _ _ Hv). fold (incoming_edges c id). rewrite Hinc. intros x Hx Hw.
    apply Hasks; [done|]. by apply (awaiting_view _ _ _ Hv). }
  destruct (firstBlocked _) as [reason|] eqn:Eb; [by apply (release_move id s)|].
  destruct (negb _) eqn:Esel; [by apply (release_move id s)|].
  destruct (wf_definition c id Hc Hid) as (d & Hd & _). rewrite Hd in Hrule.
  wp_step. eapply stageDefinition_wp; [by rewrite (sv_env _ _ Hv)|]. wp_steps.
  rewrite (unsatisfiedReads_view _ _ _ Hv).
  destruct (unsatisfiedReads c d) as [read|]; by apply (release_move id s).
Qed.

(** ** The release loop *)

Lemma releasePass_steps c :
  wf c ->
  wp releasePass (fun _ c' => steps Release c c' /\
    (tc_transitions c' = tc_transitions c ->
     forall id, id ∈ stageIds (tc_graph c) -> settled c' id)) c.
Proof.
  intros Hc. unfold releasePass. wp_steps. eapply wp_mono.
  - apply (wp_forM_prefix _ _ (fun done c' => steps Release c c' /\
      (tc_transitions c' = tc_transitions c -> forall id, id ∈ done -> settled c' id))).
    + split; [apply rtc_refl|]. by intros _ id ?%elem_of_nil.
    + intros done id rest c' Hl [Hst Hset].
      assert (id ∈ stageIds (tc_graph c)) as Hid.
      { apply (wf_keys c Hc). rewrite <-elem_of_sort_strings, Hl. set_solver. }
      eapply wp_mono; [apply maybeReleaseStage_steps; [by eapply steps_wf|]|].
      { unfold tc_graph. by rewrite (steps_env _ _ _ Hst). }
      simpl. intros _ c2 [H2 Hv]. split; [by eapply steps_trans|]. intros Heq.
      destruct (steps_view Release _ _ ltac:(discriminate) Hst) as [[l1 H1] _].
      destruct (steps_view Release _ _ ltac:(discriminate) H2) as [[l2 H3] _].
      assert (l1 = [] /\ l2 = []) as [-> ->].
      { rewrite Heq, H1, <-app_assoc in H3.
        rewrite <-(app_nil_r (tc_transitions c)) in H3 at 1. apply app_inv_head in H3.
        symmetry in H3. by apply app_eq_nil in H3. }
      rewrite app_nil_r in *. destruct (Hv ltac:(congruence)) as [Hsv Hs2].
      intros x [Hx|Hx%list_elem_of_singleton]%elem_of_app; [|by subst].
      eapply settled_view; [exact H2|exact Hsv|]. by apply Hset.
  - simpl. intros _ c' [Hst Hset]. split; [done|]. intros Heq id Hid.
    apply Hset; [done|]. rewrite elem_of_sort_strings. by apply (wf_keys c Hc).
Qed.

(** What is left to release or request: pending stages and unasked edges. *)
Definition release_measure (c : TickContext) : nat :=
  (length (filter (fun s => has_state pending s = true) (map_values (tc_working c))) +
   length (filter (fun e => edgeKey (pe_from e) (pe_to e) ∉ tc_pendingEvaluators c)
             (pg_edges (tc_graph c))))%nat.

Lemma filter_length_lt {A} (P Q : A -> Prop) `{forall x, Decision (P x)} `{forall x, Decision (Q x)}
    (l : list A) x :
  (forall y, Q y -> P y) -> x ∈ l -> P x -> ~ Q x ->
  (length (filter Q l) < length (filter P l))%nat.
Proof.
  intros HQP Hx HPx HQx. induction l as [|y l IH]; [by apply elem_of_nil in Hx|].
  assert (length (filter Q l) <= length (filter P l))%nat as Hle.
  { clear -HQP. induction l as [|z l IHl]; [done|]. rewrite !filter_cons.
    repeat case_decide; simpl; naive_solver lia. }
  rewrite !filter_cons. apply elem_of_cons in Hx as [<-|Hx].
  - rewrite decide_False, decide_True by done. simpl. lia.
  - specialize (IH Hx). repeat case_decide; simpl; naive_solver lia.
Qed.

(** Each release step pays for its progress. *)
Lemma release_measure_step c c' : tick_step Release c c' ->
  (progressMeasure c' + release_measure c' <= progressMeasure c + release_measure c)%nat.
Proof.
  intros Hst. destruct Hst as [c' Hq|id s to reason o Hs Hp Hg|id s|e p q Hph He Hcond Hpend Hf| |];
    try done; unfold progressMeasure, release_measure, tc_graph; simpl.
  - destruct (q_flags _ _ _ Hq) as (_ & _ & H3); [done|].
    by rewrite (q_transitions _ _ _ Hq), (q_intents _ _ _ Hq), (q_working _ _ _ Hq),
      (q_env _ _ _ Hq), H3.
  - pose proof (move_not_pending _ _ _ _ _ _ _ Hp Hg) as Hto.
    destruct Hg as (_ & _ & Hst & _).
    pose proof (count_map_set (has_state pending) (tc_working c) id
      (transitionedStage (in_now (tc_input c)) s to reason o) s Hs) as Hcount.
    assert (has_state pending s = true) as E1 by by apply state_eqb_true.
    assert (has_state pending (transitionedStage (in_now (tc_input c)) s to reason o) = false)
      as E2 by by apply state_eqb_false.
    rewrite E1, E2 in Hcount. rewrite length_app. simpl. lia.
  - rewrite length_app. simpl.
    enough (length (filter (fun e0 => edgeKey (pe_from e0) (pe_to e0) ∉
        set_add (tc_pendingEvaluators c) (edgeKey (pe_from e) (pe_to e))) (pg_edges (env_graph (tc_env c)))) <
      length (filter (fun e0 => edgeKey (pe_from e0) (pe_to e0) ∉ tc_pendingEvaluators c)
        (pg_edges (env_graph (tc_env c)))))%nat by lia.
    apply (filter_length_lt _ _ _ e); [|done|done|].
    + intros y Hy. contradict Hy. apply elem_of_set_add. by right.
    + intros Hn. apply Hn, elem_of_set_add. by left.
Qed.

Lemma release_measure_steps c c' : steps Release c c' ->
  (progressMeasure c' + release_measure c' <= progressMeasure c + release_measure c)%nat.
Proof.
  induction 1 as [|c1 c2 c3 H _ IH]; [done|]. apply release_measure_step in H. lia.
Qed.

(** The loop ends within its fuel, in a context no pending stage can leave. *)
Lemma releaseLoop_steps fuel c :
  wf c -> (release_measure c < fuel)%nat ->
  wp (releaseLoop fuel) (fun _ c' => steps Release c c' /\
    forall id, id ∈ stageIds (tc_graph c) -> settled c' id) c.
Proof.
  revert c. induction fuel as [|fuel IH]; intros c Hc Hf; [lia|]. simpl.
  wp_steps. eapply wp_mono; [by apply releasePass_steps|]. intros _ c1 [H1 Hset]. wp_steps.
  pose proof (release_measure_steps _ _ H1) as Hm.
  destruct (_ <? _)%nat eqn:Ep.
  - apply Nat.ltb_lt in Ep. eapply wp_mono; [apply IH; [by eapply steps_wf|lia]|].
    simpl. intros _ c2 [H2 Hs2]. split; [by eapply steps_trans|]. intros id Hid. apply Hs2.
    unfold tc_graph. by rewrite (steps_env _ _ _ H1).
  - apply Nat.ltb_ge in Ep. wp_steps. split; [done|]. apply Hset.
    destruct (steps_view Release _ _ ltac:(discriminate) H1) as [[l Hl] _].
    assert (length (tc_intents c) <= length (tc_intents c1))%nat.
    { clear -H1. induction H1 as [|a b d Hab _ IHs]; [done|].
      destruct (step_intents_prefix _ _ _ Hab) as [l Hl]. rewrite Hl, length_app in IHs. lia. }
    unfold progressMeasure in Ep. rewrite Hl, length_app in Ep.
    destruct l as [|t l]; [|simpl in Ep; lia]. by rewrite app_nil_r in Hl.
Qed.

Lemma releaseFuel_enough c : (release_measure c < releaseFuel c)%nat.
Proof.
  unfold release_measure, releaseFuel, map_values.
  pose proof (length_filter (fun s => has_state pending s = true) (map snd (tc_working c))) as H1.
  pose proof (length_filter (fun e => edgeKey (pe_from e) (pe_to e) ∉ tc_pendingEvaluators c)
    (pg_edges (tc_graph c))) as H2.
  rewrite length_map in H1. lia.
Qed.

(** ** Dispatching *)

(** [dispatchStage] is one dispatch step between bookkeeping. *)
Lemma dispatchStage_wp id s d c (Q : unit -> TickContext -> Prop) :
  map_get (tc_working c) id = Some s -> ss_state s = ready ->
  map_get (env_stagesById (tc_env c)) id = Some d ->
  (forall c1 directive c', quiet Dispatch c c1 ->
     quiet Dispatch (dispatched c1 id s d directive) c' -> Q tt c') ->
  wp (dispatchStage id) Q c.
Proof.
  intros Hs Hst Hd H. unfold dispatchStage, writeStage. wp_step. read_stage. wp_step. read_stage.
  wp_steps. set (s' := bumpAttemptOrdinal s).
  set (c0 := upd_working _ c).
  assert (forall f directive Q',
    (forall c', quiet Dispatch (dispatched (upd_recoveryByKey f c) id s d directive) c' ->
       Q' tt c') ->
    wp (applyTransition id queued dispatch_intent (queue_options c s')) Q'
      (upd_intents (fun l => l ++ [dispatch_intent_of c s' d directive])
        (upd_attempts (fun l => l ++ [buildAttempt c s' d (attempt_of c s') directive])
          (upd_recoveryByKey f c0)))) as Hfin.
  { intros f directive Q' HQ. apply (applyTransition_wp Dispatch _ s').
    - simpl. by rewrite map_get_set_eq.
    - simpl. rewrite Hst. vm_compute. reflexivity.
    - intros c' Hq. apply HQ. unfold dispatched, moved, c0 in *.
      unfold upd_working, upd_transitions, upd_intents, upd_attempts, upd_recoveryByKey in *.
      simpl in *. by rewrite map_set_set in Hq. }
  unfold getRecoveryCounters. wp_steps.
  set (key := recoveryKey _ _).
  destruct (map_get (tc_recoveryByKey c0) key) as [entry|] eqn:Hk.
  - wp_steps. destruct (rc_pendingDirective (re_counters entry)) as [dir|] eqn:Hdir.
    + unfold setRecoveryCounters. wp_steps. fold key.
      set (f := fun m => map_set m key _). apply (Hfin f (Some dir)).
      intros c' Hq. eapply (H (upd_recoveryByKey f c)); [apply quiet_recoveryByKey|exact Hq].
    + wp_steps. apply (Hfin (fun m => m) None).
      intros c' Hq. eapply (H (upd_recoveryByKey (fun m => m) c));
        [apply quiet_recoveryByKey|exact Hq].
  - wp_steps. cbn [re_counters emptyCounters rc_pendingDirective]. wp_steps.
    set (f := fun m => map_set m key _). apply (Hfin f None).
    intros c' Hq. eapply (H (upd_recoveryByKey f c)); [apply quiet_recoveryByKey|exact Hq].
Qed.

(** The number of stages that hold a worker. *)
Definition active_count (c : TickContext) : Z := countActive (map_values (tc_working c)).

Lemma active_count_dispatched c id s d directive :
  map_get (tc_working c) id = Some s -> ss_state s = ready ->
  active_count (dispatched c id s d directive) = active_count c + 1.
Proof.
  intros Hs Hst. unfold active_count, countActive, dispatched. simpl.
  pose proof (count_map_set (fun s => isActive (ss_state s)) (tc_working c) id
    (transitionedStage (in_now (tc_input c)) (bumpAttemptOrdinal s) queued dispatch_intent
       (queue_options c (bumpAttemptOrdinal s))) s Hs) as Hc.
  simpl in Hc. rewrite Hst in Hc. simpl in Hc.
  match type of Hc with
  | (?a + 0 = ?b + 1)%nat => change (Z.of_nat a = Z.of_nat b + 1)
  end. lia.
Qed.

(** A stage that is ready after a dispatch step was so before, unchanged. *)
Lemma dispatch_ready_back c c' id s :
  steps Dispatch c c' -> map_get (tc_working c') id = Some s -> ss_state s = ready ->
  map_get (tc_working c) id = Some s.
Proof.
  intros Hst Hs Hr. induction Hst as [|c1 c2 c3 H12 _ IH]; [done|]. specialize (IH Hs).
  destruct H12 as [c' Hq|x sx to reason o Hx Hp Hg| | | |x sx d dir _ _ Hx Hrx]; try done.
  - by rewrite <-(q_working _ _ _ Hq).
  - simpl in IH. rewrite map_get_set in IH. destruct (str_eqb id x) eqn:E; [|done].
    injection IH as <-. done.
Qed.

(** Without a new attempt the dispatch phase leaves the stages alone. *)
Lemma step_attempts_prefix ph c c' :
  tick_step ph c c' -> tc_attempts c `prefix_of` tc_attempts c'.
Proof.
  destruct 1 as [c' Hq| | | | |]; [by rewrite (q_attempts _ _ _ Hq)|..]; simpl;
  (reflexivity || by eexists).
Qed.

Lemma steps_attempts_prefix ph c c' :
  steps ph c c' -> tc_attempts c `prefix_of` tc_attempts c'.
Proof.
  induction 1 as [|c1 c2 c3 H _ IH]; [done|]. etrans; [by eapply step_attempts_prefix|done].
Qed.

Lemma no_attempts_same c c' :
  steps Dispatch c c' -> tc_attempts c' = tc_attempts c -> active_count c' = active_count c.
Proof.
  induction 1 as [|c1 c2 c3 H12 H23 IH]; [done|]. intros Heq.
  destruct (step_attempts_prefix _ _ _ H12) as [l1 H1].
  destruct (steps_attempts_prefix _ _ _ H23) as [l2 H2].
  assert (l1 = []) as ->.
  { rewrite Heq, H1, <-app_assoc in H2. rewrite <-(app_nil_r (tc_attempts c1)) in H2 at 1.
    apply app_inv_head in H2. symmetry in H2. by apply app_eq_nil in H2 as [-> _]. }
  rewrite app_nil_r in H1. rewrite IH by congruence.
  destruct H12 as [c' Hq|x sx to reason o Hx Hp Hg| | | |x sx d dir]; try done.
  - unfold active_count. by rewrite (q_working _ _ _ Hq).
  - simpl in H1. apply (f_equal length) in H1. rewrite length_app in H1. simpl in H1. lia.
Qed.

(** What queueing guarantees: the limit is respected by every dispatch, and a
    selected stage is left ready only at capacity. *)
Record queue_post (cap : option Z) (ids : list string) (c c' : TickContext) : Prop := {
  qp_steps : steps Dispatch c c';
  qp_cap : tc_attempts c' = tc_attempts c \/ forall m, cap = Some m -> active_count c' <= m;
  qp_full : forall id s, id ∈ ids -> map_get (tc_working c') id = Some s ->
    ss_state s = ready -> ss_selected s = true ->
    closing c = true \/ exists m, cap = Some m /\ m <= active_count c'
}.

(** Dispatching a ready stage: one more is in flight, and it is ready no more. *)
Lemma dispatch_one c id s :
  wf c -> map_get (tc_working c) id = Some s -> ss_state s = ready -> ss_selected s = true ->
  closing c = false ->
  wp (dispatchStage id) (fun _ c' => steps Dispatch c c' /\ active_count c' = active_count c + 1 /\
    forall s', map_get (tc_working c') id = Some s' -> ss_state s' <> ready) c.
Proof.
  intros Hc Hs Hr Hsel Hcl. destruct (wf_working_definition c id s Hc Hs) as (d & Hd & _).
  eapply dispatchStage_wp; [done..|]. intros c1 directive c2 Hq1 Hq2.
  assert (map_get (tc_working c1) id = Some s) as Hs1 by by rewrite (q_working _ _ _ Hq1).
  split_and!.
  - eapply rtc_l; [by apply step_quiet|]. eapply rtc_l; [|by apply steps_quiet].
    apply step_dispatch; try done; [|by rewrite (q_env _ _ _ Hq1)].
    destruct (q_flags _ _ _ Hq1) as (Hx & _); [done|].
    unfold closing, tc_deadlineExceeded. rewrite Hx, (q_env _ _ _ Hq1). done.
  - pose proof (active_count_dispatched c1 id s d directive Hs1 Hr) as Ha.
    unfold active_count in *. rewrite (q_working _ _ _ Hq2).
    by rewrite (q_working _ _ _ Hq1) in Ha.
  - intros s' Hs'. rewrite (q_working _ _ _ Hq2) in Hs'. simpl in Hs'.
    rewrite map_get_set_eq in Hs'. by injection Hs' as <-.
Qed.

Lemma queueLoop_steps cap ids c :
  wf c -> ids ⊆ stageIds (tc_graph c) ->
  wp (queueLoop cap (active_count c) ids) (fun _ c' => queue_post cap ids c c') c.
Proof.
  revert c. induction ids as [|id ids IH]; intros c Hc Hsub; simpl.
  { wp_steps. split; [apply rtc_refl|by left|]. by intros id s ?%elem_of_nil. }
  destruct (wf_stage c id) as (s & Hs & Hsid); [done|apply Hsub; left|].
  assert (ids ⊆ stageIds (tc_graph c)) as Hsub' by (intros x Hx; apply Hsub; by right).
  wp_step. read_stage.
  assert ((ss_state s <> ready \/ ss_selected s = false \/ closing c = true) ->
    wp (queueLoop cap (active_count c) ids) (fun _ c' => queue_post cap (id :: ids) c c') c)
    as Hskip.
  { intros Hno. eapply wp_mono; [by apply IH|]. simpl. intros _ c' [H1 H2 H3]. split; [done..|].
    intros x sx [->|Hx]%elem_of_cons Hsx Hr Hsel; [|by eapply H3].
    pose proof (dispatch_ready_back _ _ _ _ H1 Hsx Hr) as Hback.
    rewrite Hs in Hback. injection Hback as ->. destruct Hno as [?|[?|?]]; [done|congruence|by left]. }
  wp_case E.
  { apply Hskip. apply orb_prop in E as [E%negb_true_iff%state_eqb_false|E%negb_true_iff]; auto. }
  apply orb_false_elim in E as [Hr%negb_false_iff%state_eqb_true Hsel%negb_false_iff].
  wp_steps. fold (closing c). destruct (closing c) eqn:Hcl; [by apply Hskip; auto|].
  wp_case Ecap.
  { wp_steps. unfold atCapacity in Ecap. destruct cap as [m|]; [|done].
    split; [apply rtc_refl|by left|]. intros _ _ _ _ _ _. right. exists m. split; [done|lia]. }
  wp_step. eapply wp_mono; [by eapply dispatch_one|]. simpl. intros _ c2 (H2 & Hcount & Hgone).
  rewrite <-Hcount.
  eapply wp_mono; [apply IH; [by eapply steps_wf|]|].
  { unfold tc_graph. by rewrite (steps_env _ _ _ H2). }
  destruct (steps_closing Dispatch _ _ ltac:(discriminate) H2) as (_ & Hcl2 & _).
  simpl. intros _ c3 [H3 H4 H5]. split; [by eapply steps_trans| |].
  - right. intros m Hm. destruct H4 as [H4|H4]; [|by apply H4].
    unfold atCapacity in Ecap. rewrite Hm in Ecap.
    assert (active_count c3 = active_count c2) as ->; [|lia].
    by apply no_attempts_same.
  - intros x sx [->|Hx]%elem_of_cons Hsx Hr' Hsel'.
    + pose proof (dispatch_ready_back _ _ _ _ H3 Hsx Hr') as Hback.
      by apply Hgone in Hback.
    + destruct (H5 x sx Hx Hsx Hr' Hsel') as [Hbad|?]; [congruence|by right].
Qed.
