(* ===== verification/TickRun.v ===== *)
(** * A whole tick

    The phases of [runTick] composed: from a well-formed input every tick
    returns a plan, and the plan is the freeze of a run of the abstract
    machine, phase by phase. *)

From S2P Require Import Prelude Transitions Ids Json Evaluate Recovery Graph Tick TickGraph TickSteps TickRelease.
Local Open Scope Z_scope.

(** ** The initial stages *)

(** The snapshots of the input, in a map. *)
Definition snapshotMap (input : SchedulerInput) : list (string * StageSnapshot) :=
  map_of (map (fun s => (ss_stageId s, s)) (in_stages input)).

Lemma cloneStage_id s : cloneStage s = s.
Proof. by destruct s. Qed.

Lemma freezeSnapshot_id s : freezeSnapshot s = s.
Proof. by destruct s. Qed.

Lemma snapshot_fold input :
  fold_left (fun w s => map_set w (ss_stageId s) (cloneStage s)) (in_stages input) [] =
  snapshotMap input.
Proof.
  unfold snapshotMap, map_of. generalize (@nil (string * StageSnapshot)).
  induction (in_stages input) as [|s l IH]; intros m; simpl; [done|].
  by rewrite cloneStage_id, IH.
Qed.

Lemma default_fold_get input stages w k :
  map_get (fold_left (fun w stage => if map_has w (ps_id stage) then w
     else map_set w (ps_id stage) (defaultStage input (ps_id stage))) stages w) k =
  match map_get w k with
  | Some s => Some s
  | None => if bool_decide (k ∈ map ps_id stages) then Some (defaultStage input k) else None
  end.
Proof.
  revert w. induction stages as [|d stages IH]; intros w; simpl.
  - by destruct (map_get w k).
  - rewrite IH. unfold map_has. destruct (map_get w (ps_id d)) as [s|] eqn:E.
    + destruct (map_get w k) eqn:Ek; [done|]. do 2 case_bool_decide; try done; set_solver.
    + rewrite map_get_set. destruct (str_eqb k (ps_id d)) eqn:Ek.
      * apply str_eqb_true in Ek as ->. rewrite E. by rewrite bool_decide_eq_true_2 by left.
      * apply str_eqb_false in Ek. destruct (map_get w k); [done|].
        do 2 case_bool_decide; try done; set_solver.
Qed.

(** A stage starts from its snapshot, or pending when it has none. *)
Definition initial_stage (input : SchedulerInput) (k : string) : option StageSnapshot :=
  match map_get (snapshotMap input) k with
  | Some s => Some s
  | None => if bool_decide (k ∈ stageIds (in_graph input)) then Some (defaultStage input k)
            else None
  end.

Lemma initialWorking_get input k :
  map_get (initialWorking input) k = initial_stage input k.
Proof. unfold initialWorking. rewrite snapshot_fold. apply default_fold_get. Qed.

Lemma default_fold_NoDup input stages w :
  NoDup (map_keys w) ->
  NoDup (map_keys (fold_left (fun w stage => if map_has w (ps_id stage) then w
     else map_set w (ps_id stage) (defaultStage input (ps_id stage))) stages w)).
Proof.
  revert w. induction stages as [|d stages IH]; intros w Hw; simpl; [done|].
  apply IH. destruct (map_has w (ps_id d)); [done|]. by apply map_set_NoDup.
Qed.

Lemma snapshotMap_get input k s :
  map_get (snapshotMap input) k = Some s -> s ∈ in_stages input /\ ss_stageId s = k.
Proof.
  intros H%map_of_get_elem. apply list_elem_of_fmap in H as (s' & [= -> ->] & Hs). done.
Qed.

Lemma initial_stage_id input k s : initial_stage input k = Some s -> ss_stageId s = k.
Proof.
  unfold initial_stage. destruct (map_get (snapshotMap input) k) eqn:E.
  - intros [= <-]. by eapply snapshotMap_get.
  - case_bool_decide; [|done]. by intros [= <-].
Qed.

Lemma initialWorking_keys input k :
  input_ok input = true ->
  k ∈ map_keys (initialWorking input) <-> k ∈ stageIds (in_graph input).
Proof.
  intros [_ Hs]%andb_prop. rewrite map_get_keys, initialWorking_get. unfold initial_stage.
  destruct (map_get (snapshotMap input) k) as [s|] eqn:E.
  - apply snapshotMap_get in E as [Hin <-]. rewrite forallb_forall in Hs.
    apply list_elem_of_In, Hs, set_has_true in Hin. done.
  - case_bool_decide as Hk; split; try done; by intros [? ?].
Qed.

Lemma initial_context_wf input v2 c :
  input_ok input = true -> initial_context input v2 c ->
  wf c /\ tc_input c = input /\ tc_graph c = in_graph input /\ tc_v2 c = v2.
Proof.
  intros Hok Hc. pose proof (ic_env _ _ _ Hc) as Hef. pose proof (ic_working _ _ _ Hc) as Hw.
  pose proof (ef_input _ _ _ Hef) as Hi. pose proof (ef_graph _ _ _ Hef) as Hg.
  pose proof (ef_v2 _ _ _ Hef) as Hv. split; [|done]. split.
  - unfold tc_input, tc_v2. by rewrite Hi, Hv.
  - rewrite Hw. unfold initialWorking. rewrite snapshot_fold.
    apply default_fold_NoDup, map_of_NoDup.
  - intros k. rewrite Hw. unfold tc_graph. rewrite Hg. by apply initialWorking_keys.
  - intros k s. rewrite Hw, initialWorking_get. apply initial_stage_id.
Qed.

(** ** The verdict *)

Definition all_terminal (c : TickContext) : Prop :=
  forall s, s ∈ map_values (tc_working c) -> isTerminalStageState (ss_state s) = true.

(** Some failed stage is required. *)
Definition required_failed (c : TickContext) : bool :=
  existsb (fun s => has_state failed s &&
    negb (default true (ps_optional <$> map_get (env_stagesById (tc_env c)) (ss_stageId s))))
    (map_values (tc_working c)).

(** The outcome of a tick whose stages are all terminal. *)
Definition outcome_rule (c : TickContext) : TerminalOutcome :=
  if existsb (has_state blocked) (map_values (tc_working c)) then out_blocked
  else if tc_cancelRequested c || forallb (has_state cancelled) (map_values (tc_working c))
  then out_cancelled
  else if required_failed c then out_failed
  else out_succeeded.

Lemma requiredFailed_spec byId stages :
  (forall s, s ∈ stages -> is_Some (map_get byId (ss_stageId s))) ->
  requiredFailed byId stages =
  inr (existsb (fun s => has_state failed s &&
    negb (default true (ps_optional <$> map_get byId (ss_stageId s)))) stages).
Proof.
  induction stages as [|s stages IH]; intros H; simpl; [done|].
  assert (forall s, s ∈ stages -> is_Some (map_get byId (ss_stageId s))) as Hrest
    by (intros x Hx; apply H; by right).
  destruct (has_state failed s); simpl; [|by apply IH].
  destruct (H s) as [d Hd]; [by left|]. rewrite Hd. simpl.
  destruct (ps_optional d); simpl; [by apply IH|done].
Qed.

Lemma existsb_false_forall {A} (f : A -> bool) l :
  existsb f l = false <-> forall x, x ∈ l -> f x = false.
Proof.
  rewrite <-not_true_iff_false, existsb_exists. split.
  - intros H x Hx. destruct (f x) eqn:E; [|done]. destruct H. exists x.
    split; [by apply list_elem_of_In|done].
  - intros H (x & Hx%list_elem_of_In & Hf). rewrite H in Hf by done. done.
Qed.

Lemma find_existsb {A} (f : A -> bool) l :
  existsb f l = match find f l with Some _ => true | None => false end.
Proof. induction l as [|x l IH]; simpl; [done|]. by destruct (f x). Qed.

Lemma working_values_get c s :
  wf c -> s ∈ map_values (tc_working c) -> map_get (tc_working c) (ss_stageId s) = Some s.
Proof.
  intros Hc (k & Hk)%elem_of_map_values.
  apply elem_map_get in Hk; [|apply (wf_nodup c Hc)].
  by rewrite (wf_ids c Hc k s Hk).
Qed.

(** [computeTerminal] reads the context and follows [outcome_rule]. *)
Lemma computeTerminal_wp c :
  wf c ->
  wp computeTerminal (fun t c' => c' = c /\
    (t = None <-> ~ all_terminal c) /\
    forall v, t = Some v -> te_outcome v = outcome_rule c) c.
Proof.
  intros Hc. unfold computeTerminal. wp_steps.
  set (stages := map_values (tc_working c)).
  destruct (existsb (fun s => negb (isTerminalStageState (ss_state s))) stages) eqn:Et.
  { wp_steps. split; [done|]. split; [|done]. split; [|done]. intros _ Hall.
    apply existsb_exists in Et as (s & Hs%list_elem_of_In & Hn).
    by rewrite (Hall s Hs) in Hn. }
  assert (all_terminal c) as Hall.
  { intros s Hs. rewrite existsb_false_forall in Et. by apply Et, negb_false_iff in Hs. }
  assert (forall v : ScheduleTerminal, te_outcome v = outcome_rule c ->
    wp (ret (Some v) : T (option ScheduleTerminal)) (fun t c' => c' = c /\
      (t = None <-> ~ all_terminal c) /\ forall v, t = Some v -> te_outcome v = outcome_rule c) c)
    as Hret.
  { intros v Hv. apply wp_ret. split; [done|]. split; [naive_solver|]. by intros ? [= <-]. }
  assert (outcome_rule c = match find (has_state blocked) stages with
    | Some _ => out_blocked
    | None => if tc_cancelRequested c || forallb (has_state cancelled) stages then out_cancelled
              else if required_failed c then out_failed else out_succeeded end) as Hrule.
  { unfold outcome_rule. fold stages. rewrite find_existsb.
    by destruct (find (has_state blocked) stages). }
  destruct (find (has_state blocked) stages) as [b|] eqn:Eb; [by apply Hret|].
  destruct (tc_cancelRequested c || forallb (has_state cancelled) stages) eqn:Ec;
    [by apply Hret|].
  assert (requiredFailed (env_stagesById (tc_env c)) stages = inr (required_failed c)) as ->.
  { apply requiredFailed_spec. intros s Hs.
    pose proof (working_values_get c s Hc Hs) as Hg.
    destruct (wf_working_definition c _ _ Hc Hg) as (d & Hd & _).
    by rewrite Hd. }
  destruct (required_failed c); [by apply Hret|].
  apply orb_false_elim in Ec as [_ Ec]. rewrite Ec.
  destruct (existsb (has_state succeeded) stages); simpl; [by apply Hret|].
  wp_case Ef; by apply Hret.
Qed.

Lemma recordTerminal_wp v c :
  wf c -> wp (recordTerminal v) (fun _ c' => quiet Verdict c c') c.
Proof.
  intros Hc. unfold recordTerminal. wp_steps.
  destruct (te_blockedStageId v) as [id|].
  - wp_steps. by apply (recordDecision_wp Verdict).
  - wp_steps. destruct (wf_graph c Hc) as [Hg _]. unfold graph_ok in Hg.
    destruct (pg_stages (tc_graph c)) as [|d l]; [done|]. simpl.
    by apply (recordDecision_wp Verdict).
Qed.

(** ** The phases *)

Lemma retryingStages_stage c : wf c -> retryingStages c ⊆ stageIds (tc_graph c).
Proof.
  intros Hc id Hid. unfold retryingStages in Hid. rewrite elem_of_set_of in Hid.
  apply list_elem_of_fmap in Hid as (s & -> & [_ Hs]%list_elem_of_filter).
  apply (wf_keys c Hc), map_get_keys. eexists. by apply working_values_get.
Qed.

(** Cancellation is never withdrawn within a tick, and comes from the input. *)
Lemma cancel_monotone ph c c' :
  steps ph c c' -> tc_cancelRequested c = true -> tc_cancelRequested c' = true.
Proof.
  intros Hst Hc. revert Hst. apply (steps_inv (fun c => tc_cancelRequested c = true)); [|done].
  intros a b Ha [b' Hq| | | | |]; try done. destruct (q_cancel _ _ _ Hq) as [->|(_ & -> & _)]; done.
Qed.

Lemma cancel_only_observed ph c c' :
  tc_cancelRequested c = false -> steps ph c c' -> tc_cancelRequested c' = true ->
  cancel_observed (tc_input c).
Proof.
  intros Hf Hst. induction Hst as [c|c1 c2 c3 H12 _ IH]; [congruence|].
  assert (tc_input c2 = tc_input c1) as Hi by (unfold tc_input; by rewrite (step_env _ _ _ H12)).
  intros H3. destruct (tc_cancelRequested c2) eqn:E2; [|rewrite <-Hi; by apply IH].
  destruct H12 as [c2 Hq| | | | |]; try (simpl in E2; congruence).
  destruct (q_cancel _ _ _ Hq) as [Hx|(_ & _ & ?)]; [congruence|done].
Qed.

(** The flag after the observations says whether one of them cancels the run. *)
Lemma observe_steps `{Sha256} l c :
  wf c -> l ⊆ in_observations (tc_input c) -> tc_cancelRequested c = false ->
  wp (forM l processObservation) (fun _ c' => steps Observe c c' /\
    forall o, o ∈ l -> so_kind o = ob_cancel_requested -> tc_cancelRequested c' = true) c.
Proof.
  intros Hc Hl Hf.
  apply (wp_forM_prefix _ _ (fun done c' => steps Observe c c' /\
    forall o, o ∈ done -> so_kind o = ob_cancel_requested -> tc_cancelRequested c' = true)).
  - split; [apply rtc_refl|]. by intros o ?%elem_of_nil.
  - intros done o rest c' Hd [Hst Hcan].
    eapply wp_mono; [apply processObservation_steps; [by eapply steps_wf|]|].
    { unfold tc_input. rewrite (steps_env _ _ _ Hst). apply Hl. rewrite Hd. set_solver. }
    simpl. intros _ c'' [H' Hset]. split; [by eapply steps_trans|].
    intros x [Hx|Hx%list_elem_of_singleton]%elem_of_app Hk; [|subst; by apply Hset].
    eapply cancel_monotone; [exact H'|]. by eapply Hcan.
Qed.

(** A run of the machine through all phases.  [c0] is the initial context,
    [c5] the one after dispatching, [c6] the one the verdict reads and [c7] the
    one the plan freezes. *)
Record tick_trace (c0 c7 : TickContext) (terminal : option ScheduleTerminal) : Prop := {
  trace_phases : exists c1 c2 c3 c4 c5 c6,
    (steps Observe c0 c1) /\
    (tc_cancelRequested c1 = true <-> cancel_observed (tc_input c0)) /\
    (steps Sweep c1 c2 /\
     (closing c1 = true -> forall id, id ∈ stageIds (tc_graph c0) -> swept c2 id) /\
     (closing c1 = false -> c2 = c1)) /\
    (steps Rearm c2 c3) /\
    (steps Release c3 c4 /\ forall id, id ∈ stageIds (tc_graph c0) -> settled c4 id) /\
    (queue_post (tickConcurrency c4) (sort_strings (map_keys (tc_working c4))) c4 c5) /\
    (steps Sweep c5 c6 /\
     (closing c5 = true -> forall id, id ∈ stageIds (tc_graph c0) -> swept c6 id) /\
     (closing c5 = false -> c6 = c5)) /\
    (quiet Verdict c6 c7) /\
    ((terminal = None <-> ~ all_terminal c6) /\
     forall v, terminal = Some v -> te_outcome v = outcome_rule c6)
}.

Lemma env_graph_eq c c' : tc_env c' = tc_env c -> tc_graph c' = tc_graph c.
Proof. unfold tc_graph. by intros ->. Qed.

Lemma runPhases_trace `{Sha256} c0 :
  wf c0 -> tc_cancelRequested c0 = false -> wp runPhases (fun terminal c7 => tick_trace c0 c7 terminal) c0.
Proof.
  intros H0 Hf. unfold runPhases. wp_steps. eapply wp_mono; [apply observe_steps; [done| |done]|].
  { intros o Ho. by rewrite elem_of_sort_by in Ho. }
  intros [] c1 [H01 Hcan]. assert (wf c1) as W1 by by eapply steps_wf.
  pose proof (env_graph_eq _ _ (steps_env _ _ _ H01)) as G1.
  wp_step. eapply wp_mono; [by apply cancellationSweep_steps|].
  intros [] c2 (H12 & Hsw & Hno). assert (wf c2) as W2 by by eapply steps_wf.
  pose proof (env_graph_eq _ _ (steps_env _ _ _ H12)) as G2.
  wp_step. eapply wp_mono; [apply rearmRetries_steps; [done|]|].
  { rewrite G2, G1. by apply retryingStages_stage. }
  intros [] c3 H23. assert (wf c3) as W3 by by eapply steps_wf.
  pose proof (env_graph_eq _ _ (steps_env _ _ _ H23)) as G3.
  wp_steps. eapply wp_mono; [apply releaseLoop_steps; [done|apply releaseFuel_enough]|].
  intros [] c4 (H34 & Hset). assert (wf c4) as W4 by by eapply steps_wf.
  wp_step. unfold queueReadyStages. wp_steps. eapply wp_mono; [apply queueLoop_steps; [done|]|].
  { intros id Hid. rewrite elem_of_sort_strings in Hid. by apply (wf_keys c4 W4). }
  intros [] c5 Hq. pose proof (qp_steps _ _ _ _ Hq) as H45.
  assert (wf c5) as W5 by by eapply steps_wf.
  pose proof (env_graph_eq _ _ (steps_env _ _ _ H34)) as G4.
  pose proof (env_graph_eq _ _ (steps_env _ _ _ H45)) as G5.
  wp_step. eapply wp_mono; [by apply cancellationSweep_steps|].
  intros [] c6 (H56 & Hsw' & Hno'). assert (wf c6) as W6 by by eapply steps_wf.
  wp_step. eapply wp_mono; [by apply computeTerminal_wp|].
  intros terminal c6' (-> & Hv). wp_step. eapply wp_mono.
  { instantiate (1 := fun _ c' => quiet Verdict c6 c'). destruct terminal as [v|].
    - by apply recordTerminal_wp.
    - apply wp_ret, quiet_refl. }
  intros [] c7 H67. wp_steps. split. exists c1, c2, c3, c4, c5, c6.
  rewrite G1 in Hsw. rewrite G3, G2, G1 in Hset. rewrite G5, G4, G3, G2, G1 in Hsw'.
  assert (tc_cancelRequested c1 = true <-> cancel_observed (tc_input c0)).
  { split; [by eapply cancel_only_observed|]. intros (o & Ho & Hk).
    apply (Hcan o); [by rewrite elem_of_sort_by|done]. }
  destruct Hv. by split_and!.
Qed.

(** Every tick on a well-formed input returns the plan of a run. *)
Lemma runTick_trace `{Sha256} input v2 :
  input_ok input = true ->
  exists c0 c7 terminal, createTickContext input v2 = inr c0 /\ initial_context input v2 c0 /\
    wf c0 /\ tick_trace c0 c7 terminal /\ runTick c0 = inr (buildPlan c7 terminal).
Proof.
  intros Hok. destruct (createTickContext_ok input v2 Hok) as (c0 & Hc & Hinit).
  destruct (initial_context_wf input v2 c0 Hok Hinit) as (Hwf & _).
  destruct (wp_elim _ _ _ (runPhases_trace c0 Hwf (ic_cancel _ _ _ Hinit)))
    as (terminal & c7 & Hrun & Htr).
  exists c0, c7, terminal. unfold runTick. by rewrite Hrun.
Qed.
