(* ===== verification/TickProps.v ===== *)
(** * What a tick guarantees

    The properties of [tickScheduler] ([tick.ts]), each proved from the run of
    the abstract machine behind the plan. *)

From S2P Require Import Prelude Transitions Ids Json Evaluate Recovery Graph Tick TickGraph TickSteps TickRelease TickRun.

Local Open Scope Z_scope.

(** ** Concrete runs

    Small graphs, snapshots and observations on which the theorems of the other
    files are instantiated. *)

(** A digest for the concrete runs: the text itself (injective). *)
#[export] Instance scenario_sha256 : Sha256 := fun text => text.

Definition no_limits : PipelineLimits :=
  {| pl_maxPipelineDurationMs := None; pl_maxConcurrentWorkers := None;
     pl_maxRepairAttempts := None; pl_maxGraphRevisions := None |}.

Definition plain_stage (id : string) : PipelineStage :=
  {| ps_id := id; ps_type := st_agent; ps_mode := autonomous; ps_optional := false;
     ps_profile := None; ps_session := None; ps_limits := None; ps_command := None;
     ps_completion := None; ps_onValidationFailure := None; ps_reads := [];
     ps_writes := []; ps_overridable := [] |}.

Definition plain_edge (from to : string) : PipelineEdge :=
  {| pe_from := from; pe_to := to; pe_condition := None |}.

Definition plain_graph (limits : PipelineLimits) (stages : list PipelineStage)
    (edges : list PipelineEdge) : PipelineGraph :=
  {| pg_pipelineId := "demo"; pg_name := None; pg_description := None;
     pg_mode := autonomous; pg_limits := limits;
     pg_context := {| pc_handoffSoftThreshold := None; pc_handoffHardThreshold := None |};
     pg_stages := stages; pg_edges := edges |}.

(** [build -> test], [build -> lint], both into [ship]. *)
Definition diamond : PipelineGraph :=
  plain_graph
    {| pl_maxPipelineDurationMs := None; pl_maxConcurrentWorkers := Some 2;
       pl_maxRepairAttempts := Some 2; pl_maxGraphRevisions := None |}
    [plain_stage "build"; plain_stage "lint"; plain_stage "ship"; plain_stage "test"]
    [plain_edge "build" "lint"; plain_edge "build" "test"; plain_edge "lint" "ship";
     plain_edge "test" "ship"].

Definition plain_input (graph : PipelineGraph) (stages : list StageSnapshot)
    (observations : list SchedulerObservation) : SchedulerInput :=
  {| in_schemaVersion := 1; in_runId := "run"; in_pipelineId := "demo";
     in_graphRevision := 1; in_scheduleRevision := 1; in_graph := graph;
     in_now := "2026-01-01T00:00:00Z"; in_deadlineAt := None; in_stages := stages;
     in_observations := observations; in_canonicalState := JObject [];
     in_pendingEvaluatorEdgeKeys := []; in_evaluatorDecisions := [];
     in_recoveryState := None; in_effectiveLimits := None; in_executionMode := None |}.

Definition snapshot (id : string) (state : PipelineStageState) (ordinal : Z)
    (attempt : option string) : StageSnapshot :=
  {| ss_runId := "run"; ss_stageId := id; ss_graphRevision := 1; ss_generation := 1;
     ss_state := state; ss_attemptOrdinal := ordinal; ss_currentAttemptId := attempt;
     ss_lastTransitionReason := None; ss_blockReason := None; ss_selected := true;
     ss_updatedAt := "2026-01-01T00:00:00Z" |}.

Definition observe (id : string) (kind : ObservationKind) (stageId : option string)
    : SchedulerObservation :=
  {| so_schemaVersion := 1; so_observationId := id; so_kind := kind; so_stageId := stageId;
     so_attemptId := None; so_retryable := None; so_edgeKey := None; so_selected := None;
     so_recordedAt := "2026-01-01T00:00:00Z"; so_failure := None; so_signature := None;
     so_recoveryDecisionId := None; so_proposalId := None; so_approved := None;
     so_classification := None; so_phase := None; so_code := None;
     so_backendClassification := None; so_validationFailures := None;
     so_resumeAvailable := None; so_priorBackendExecutionId := None |}.

(** [build] has succeeded and both successors are released and queued. *)
Definition diamond_after_build : SchedulerInput :=
  plain_input diamond [snapshot "build" running 1 (Some "pa:run:1:build:1:1")]
    [observe "o1" ob_attempt_succeeded (Some "build")].

(** The plan of a concrete tick. *)
Definition empty_plan : SchedulerPlan :=
  {| plan_schemaVersion := 0; plan_runId := ""; plan_graphRevision := 0;
     plan_expectedScheduleRevision := 0; plan_nextScheduleRevision := 0;
     plan_recordedAt := ""; plan_transitions := []; plan_decisions := []; plan_intents := [];
     plan_attempts := []; plan_stagePatches := []; plan_consumedObservationIds := [];
     plan_terminal := None; plan_recoveryDecisions := None; plan_recoveryState := None |}.

Definition planOf (input : SchedulerInput) : SchedulerPlan :=
  match tickScheduler input with inr plan => plan | inl _ => empty_plan end.

Local Open Scope Z_scope.

(** ** Plans and runs *)

(** The plan of a tick with the run behind it. *)
Record planned (input : SchedulerInput) (plan : SchedulerPlan) (c0 c7 : TickContext)
    (terminal : option ScheduleTerminal) : Prop := {
  pl_input : tc_input c0 = input;
  pl_graph : tc_graph c0 = in_graph input;
  pl_wf : wf c0;
  pl_working : tc_working c0 = initialWorking input;
  pl_transitions : tc_transitions c0 = [];
  pl_decisions : tc_decisions c0 = [];
  pl_intents : tc_intents c0 = [];
  pl_attempts : tc_attempts c0 = [];
  pl_initial : initial_context input (isV2Input input) c0;
  pl_trace : tick_trace c0 c7 terminal;
  pl_plan : plan = buildPlan c7 terminal
}.

Lemma tickScheduler_planned `{Sha256} input :
  input_ok input = true ->
  exists plan c0 c7 terminal,
    tickScheduler input = inr plan /\ planned input plan c0 c7 terminal.
Proof.
  intros Hok. destruct (runTick_trace input (isV2Input input) Hok)
    as (c0 & c7 & t & Hc & Hinit & Hwf & Htr & Hrun).
  destruct (initial_context_wf _ _ _ Hok Hinit) as (_ & Hi & Hg & _).
  exists (buildPlan c7 t), c0, c7, t. unfold tickScheduler. rewrite Hc. split; [done|].
  destruct Hinit. by split.
Qed.

Lemma plan_planned `{Sha256} input plan :
  input_ok input = true -> tickScheduler input = inr plan ->
  exists c0 c7 terminal, planned input plan c0 c7 terminal.
Proof.
  intros Hok Hp. destruct (tickScheduler_planned input Hok) as (p & c0 & c7 & t & Hp' & Hpl).
  rewrite Hp in Hp'. injection Hp' as <-. eauto.
Qed.

(** Steps of any phase. *)
Definition any_step (c c' : TickContext) : Prop := exists ph, tick_step ph c c'.

Lemma steps_any ph c c' : steps ph c c' -> rtc any_step c c'.
Proof. apply rtc_subrel. intros a b H. by exists ph. Qed.

Lemma trace_any c0 c7 t : tick_trace c0 c7 t -> rtc any_step c0 c7.
Proof.
  intros [(c1 & c2 & c3 & c4 & c5 & c6 & H1 & _ & (H2 & _) & H3 & (H4 & _) & H5 & (H6 & _) &
    H7 & _)].
  do 6 (etrans; [by eapply steps_any; eauto using qp_steps|]).
  apply rtc_once. exists Verdict. by apply step_quiet.
Qed.

(** An invariant of every step holds at the end of the tick. *)
Lemma trace_inv (P : TickContext -> Prop) c0 c7 t :
  (forall ph a b, wf a -> P a -> tick_step ph a b -> P b) ->
  wf c0 -> P c0 -> tick_trace c0 c7 t -> wf c7 /\ P c7.
Proof.
  intros Hstep Hwf Hp Htr%trace_any. induction Htr as [|a b c [ph Hab] _ IH]; [done|].
  apply IH; [by eapply step_wf|by eapply Hstep].
Qed.

(** The patches of the plan are the stages of the final context. *)
Lemma plan_patch input plan c0 c7 t s :
  planned input plan c0 c7 t ->
  s ∈ plan_stagePatches plan <-> map_get (tc_working c7) (ss_stageId s) = Some s.
Proof.
  intros Hpl. rewrite (pl_plan _ _ _ _ _ Hpl). simpl.
  rewrite elem_of_sort_key, (map_ext freezeSnapshot id freezeSnapshot_id), map_id.
  assert (wf c7) as Hwf.
  { apply (trace_inv (fun _ => True) c0 c7 t); try done; [apply Hpl|apply Hpl]. }
  split; [by apply working_values_get|]. intros H%map_get_elem.
  apply (list_elem_of_fmap_2 snd) in H. done.
Qed.

Lemma planned_wf input plan c0 c7 t : planned input plan c0 c7 t -> wf c7.
Proof. intros Hpl. apply (trace_inv (fun _ => True) c0 c7 t); try done; apply Hpl. Qed.

Lemma planned_env input plan c0 c7 t :
  planned input plan c0 c7 t -> tc_env c7 = tc_env c0.
Proof.
  intros Hpl. apply (trace_inv (fun c => tc_env c = tc_env c0) c0 c7 t); try apply Hpl; [|done].
  intros ph a b _ Ha Hab. rewrite <-Ha. by eapply step_env.
Qed.

Lemma planned_stage input plan c0 c7 t id :
  planned input plan c0 c7 t -> id ∈ stageIds (in_graph input) ->
  exists s, s ∈ plan_stagePatches plan /\ ss_stageId s = id.
Proof.
  intros Hpl Hid. destruct (wf_stage c7 id) as (s & Hs & Hsid).
  - by eapply planned_wf.
  - unfold tc_graph. rewrite (planned_env _ _ _ _ _ Hpl).
    fold (tc_graph c0). by rewrite (pl_graph _ _ _ _ _ Hpl).
  - exists s. split; [|done]. eapply plan_patch; [done|]. by rewrite Hsid.
Qed.

Lemma plan_attempts_perm input plan c0 c7 t :
  planned input plan c0 c7 t -> plan_attempts plan ≡ₚ tc_attempts c7.
Proof. intros ->%pl_plan. apply sort_key_perm. Qed.

Lemma plan_intents_perm input plan c0 c7 t :
  planned input plan c0 c7 t -> plan_intents plan ≡ₚ tc_intents c7.
Proof. intros ->%pl_plan. apply sort_key_perm. Qed.

Lemma plan_decisions_perm input plan c0 c7 t :
  planned input plan c0 c7 t -> plan_decisions plan ≡ₚ tc_decisions c7.
Proof. intros ->%pl_plan. apply sort_by_perm. Qed.

Lemma plan_patches_perm input plan c0 c7 t :
  planned input plan c0 c7 t -> plan_stagePatches plan ≡ₚ map_values (tc_working c7).
Proof.
  intros ->%pl_plan. simpl. rewrite (map_ext freezeSnapshot id freezeSnapshot_id), map_id.
  apply sort_key_perm.
Qed.

(** ** Totality *)

(** C1: Every tick returns a plan: on an input whose graph has a stage, whose edges join declared
    stages, whose expressions are in evaluation order and whose snapshots name declared
    stages, neither entry point throws (no undeclared transition, no missing
    stage) and the [while (progressed)] loop, the graph walk and the condition
    evaluations end. *)
Theorem tick_total `{Sha256} (input : SchedulerInput) :
  input_ok input = true ->
  (exists plan, tickScheduler input = inr plan) /\
  (exists plan, tickSchedulerV2 input = inr plan).
Proof.
  intros Hok. split.
  - destruct (tickScheduler_planned input Hok) as (plan & _ & _ & _ & Hp & _). eauto.
  - destruct (runTick_trace (input_v2 input) true Hok) as (c0 & c7 & t & Hc & Hrest).
    unfold tickSchedulerV2. rewrite Hc. destruct Hrest as (_ & _ & _ & ->). eauto.
Qed.

Lemma tick_total_witness :
  input_ok diamond_after_build = true /\
  (exists plan, tickScheduler diamond_after_build = inr plan) /\
  (exists plan, tickSchedulerV2 diamond_after_build = inr plan).
Proof. split; [reflexivity|]. apply tick_total. reflexivity. Defined.

(** ** Transitions *)

(** Replay a transition log over stage states: each entry must start where the
    stage is and be permitted. *)
Fixpoint replay (states : list (string * PipelineStageState)) (log : list StageTransition)
    : option (list (string * PipelineStageState)) :=
  match log with
  | [] => Some states
  | t :: rest =>
      match map_get states (tr_stageId t) with
      | Some s =>
          if state_eqb s (tr_from t) && isPermittedTransition (tr_from t) (tr_to t) (tr_reason t)
          then replay (map_set states (tr_stageId t) (tr_to t)) rest
          else None
      | None => None
      end
  end.

(** The states of a stage map. *)
Definition states_of (w : list (string * StageSnapshot)) : list (string * PipelineStageState) :=
  map (fun e => (e.1, ss_state e.2)) w.

Lemma states_of_get w k : map_get (states_of w) k = ss_state <$> map_get w k.
Proof.
  induction w as [|[k' s] w IH]; simpl; [done|]. by destruct (str_eqb k k').
Qed.

Lemma states_of_set w k s :
  states_of (map_set w k s) = map_set (states_of w) k (ss_state s).
Proof.
  induction w as [|[k' s'] w IH]; simpl; [done|]. destruct (str_eqb k k'); simpl; [done|].
  by rewrite IH.
Qed.

Lemma replay_snoc states log t states' :
  replay states log = Some states' ->
  map_get states' (tr_stageId t) = Some (tr_from t) ->
  isPermittedTransition (tr_from t) (tr_to t) (tr_reason t) = true ->
  replay states (log ++ [t]) = Some (map_set states' (tr_stageId t) (tr_to t)).
Proof.
  revert states. induction log as [|u log IH]; intros states; simpl.
  - intros [= ->] -> ->. by rewrite (proj2 (state_eqb_true _ _) eq_refl).
  - destruct (map_get states (tr_stageId u)); [|done]. destruct (_ && _); [|done]. apply IH.
Qed.

(** The log accounts for the states of a context. *)
Definition logged (c0 c : TickContext) : Prop :=
  replay (states_of (tc_working c0)) (tc_transitions c) = Some (states_of (tc_working c)).

Lemma rerun_permitted s :
  isTerminalStageState s = true -> isPermittedTransition s pending manual_rerun = true.
Proof. destruct s; try done; intros _; vm_compute; reflexivity. Qed.

Lemma map_set_same {V} (m : list (string * V)) k v : map_get m k = Some v -> map_set m k v = m.
Proof.
  induction m as [|[k' v'] m IH]; simpl; [done|]. destruct (str_eqb k k') eqn:E.
  - intros [= ->]. done.
  - intros H. by rewrite IH.
Qed.

Lemma logged_step c0 ph a b : wf a -> logged c0 a -> tick_step ph a b -> logged c0 b.
Proof.
  unfold logged. intros Hwf Hl Hst.
  destruct Hst as [b Hq|id s to reason o Hs Hp _|id s _ _ Hs Ht|e p q|id s x|id s d dir _ _ Hs Hr];
    simpl; try done.
  - by rewrite (q_transitions _ _ _ Hq), (q_working _ _ _ Hq).
  - rewrite states_of_set. pose proof (wf_ids a Hwf id s Hs) as <-.
    apply replay_snoc; try done. simpl. by rewrite states_of_get, Hs.
  - rewrite states_of_set. destruct (state_eqb (ss_state s) pending) eqn:E.
    + apply state_eqb_true in E. rewrite app_nil_r, map_set_same; [done|].
      rewrite states_of_get, Hs. simpl. by rewrite E.
    + apply state_eqb_false in E. destruct Ht as [Ht|?]; [|done].
      pose proof (wf_ids a Hwf id s Hs) as <-. apply replay_snoc; try done.
      * simpl. by rewrite states_of_get, Hs.
      * by apply rerun_permitted.
  - rewrite states_of_set. pose proof (wf_ids a Hwf id s Hs) as <-.
    apply replay_snoc; try done.
    + simpl. by rewrite states_of_get, Hs.
    + simpl. rewrite Hr. vm_compute. reflexivity.
Qed.

(** The states the input gives to the stages. *)
Definition initial_states (input : SchedulerInput) : list (string * PipelineStageState) :=
  states_of (initialWorking input).

(** C27: The transition log of a plan explains its patches: replayed from the
    input's stage states, every logged transition starts in the stage's current
    state and is one the fixed table permits, and the log ends exactly in the
    states of the stage patches. *)
Theorem tick_transitions_replay `{Sha256} (input : SchedulerInput) (plan : SchedulerPlan) :
  input_ok input = true -> tickScheduler input = inr plan ->
  exists states, replay (initial_states input) (plan_transitions plan) = Some states /\
    forall id, map_get states id =
      (ss_state <$> find (fun s => str_eqb (ss_stageId s) id) (plan_stagePatches plan)).
Proof.
  intros Hok Hp. destruct (plan_planned _ _ Hok Hp) as (c0 & c7 & t & Hpl).
  destruct (trace_inv (logged c0) c0 c7 t) as [Hwf Hl]; try apply Hpl.
  { intros ph a b. apply logged_step. }
  { unfold logged. by rewrite (pl_transitions _ _ _ _ _ Hpl). }
  exists (states_of (tc_working c7)). split.
  - unfold initial_states. rewrite <-(pl_working _ _ _ _ _ Hpl), (pl_plan _ _ _ _ _ Hpl). done.
  - intros id. rewrite states_of_get. f_equal.
    destruct (find _ _) as [s|] eqn:E.
    + apply find_some in E as [Hin%list_elem_of_In <-%str_eqb_true]. by eapply plan_patch.
    + destruct (map_get (tc_working c7) id) as [s|] eqn:Hs; [|done]. exfalso.
      pose proof (wf_ids c7 Hwf id s Hs) as Hid.
      assert (s ∈ plan_stagePatches plan) as Hin%list_elem_of_In
        by (eapply plan_patch; [done|]; by rewrite Hid).
      eapply find_none in E; [|exact Hin]. simpl in E. by rewrite Hid, str_eqb_refl in E.
Qed.

Lemma tick_transitions_replay_witness :
  length (plan_transitions (planOf diamond_after_build)) = 5%nat /\
  exists states,
    replay (initial_states diamond_after_build) (plan_transitions (planOf diamond_after_build))
      = Some states /\
    forall id, map_get states id =
      (ss_state <$> find (fun s => str_eqb (ss_stageId s) id)
         (plan_stagePatches (planOf diamond_after_build))).
Proof.
  split; [vm_compute; reflexivity|].
  apply tick_transitions_replay; vm_compute; reflexivity.
Defined.

(** ** Patches *)

(** A plan patches every stage of the graph exactly once, in canonical order:
    the patch ids are sorted, free of duplicates and exactly the graph's stage
    ids. *)
Theorem tick_patches_cover `{Sha256} (input : SchedulerInput) (plan : SchedulerPlan) :
  input_ok input = true -> tickScheduler input = inr plan ->
  NoDup (map ss_stageId (plan_stagePatches plan)) /\
  StronglySorted (not_after (key_lt ss_stageId)) (plan_stagePatches plan) /\
  forall id, id ∈ map ss_stageId (plan_stagePatches plan) <-> id ∈ stageIds (in_graph input).
Proof.
  intros Hok Hp. destruct (plan_planned _ _ Hok Hp) as (c0 & c7 & t & Hpl).
  pose proof (planned_wf _ _ _ _ _ Hpl) as Hwf. split_and!.
  - rewrite (pl_plan _ _ _ _ _ Hpl). simpl.
    rewrite (map_ext freezeSnapshot id freezeSnapshot_id), map_id.
    rewrite (Permutation_map ss_stageId (sort_key_perm ss_stageId _)).
    assert (map ss_stageId (map_values (tc_working c7)) = map_keys (tc_working c7)) as ->;
      [|apply (wf_nodup c7 Hwf)].
    unfold map_values, map_keys. rewrite map_map. apply map_ext_in.
    intros [k s] Hin%list_elem_of_In. simpl.
    apply elem_map_get in Hin; [|apply (wf_nodup c7 Hwf)]. by apply (wf_ids c7 Hwf).
  - rewrite (pl_plan _ _ _ _ _ Hpl). apply sort_key_sorted.
  - intros id. split.
    + intros (s & -> & Hs)%list_elem_of_fmap. eapply plan_patch in Hs; [|done].
      rewrite <-(pl_graph _ _ _ _ _ Hpl). unfold tc_graph.
      rewrite <-(planned_env _ _ _ _ _ Hpl). apply (wf_keys c7 Hwf), map_get_keys. by eexists.
    + intros Hid. destruct (planned_stage _ _ _ _ _ id Hpl Hid) as (s & Hs & <-).
      by apply list_elem_of_fmap_2.
Qed.

Lemma tick_patches_cover_witness :
  map ss_stageId (plan_stagePatches (planOf diamond_after_build)) =
    ["build"; "lint"; "ship"; "test"] /\
  NoDup (map ss_stageId (plan_stagePatches (planOf diamond_after_build))).
Proof.
  split; [vm_compute; reflexivity|].
  refine (proj1 (tick_patches_cover diamond_after_build _ _ _)); vm_compute; reflexivity.
Defined.

(** ** Settled stages *)

(** A stage that a tick starts with, when no rerun reaches it. *)
Definition frozen (c0 c : TickContext) (id : string) (s : StageSnapshot) : Prop :=
  map_get (tc_working c) id = Some s /\ tc_input c = tc_input c0.

Lemma frozen_step c0 id s ph a b :
  isTerminalStageState (ss_state s) = true -> ~ rerun_requested (tc_input c0) id ->
  frozen c0 a id s -> tick_step ph a b -> frozen c0 b id s.
Proof.
  intros Ht Hno [Hs Hi] Hst. split.
  2:{ unfold tc_input. rewrite (step_env _ _ _ Hst). exact Hi. }
  destruct Hst as [b Hq|x sx to reason o Hx Hp Hg|x sx _ Hreq Hx Htx|e p q|x sx y|x sx d dir _ _ Hx Hr];
    simpl; try done; [by rewrite (q_working _ _ _ Hq)|..]; rewrite map_get_set;
    (destruct (str_eqb id x) eqn:E; [|done]); apply str_eqb_true in E as <-;
    rewrite Hs in Hx; injection Hx as <-.
  - destruct (permitted_from_terminal _ _ _ Hp Ht) as [-> _].
    by destruct (move_not_pending _ _ _ _ _ _ _ Hp Hg).
  - rewrite Hi in Hreq. done.
  - by rewrite Hr in Ht.
Qed.

(** Terminal stages are immutable: a stage that is succeeded, failed,
    cancelled or blocked in the input keeps its whole snapshot in the plan, unless
    a [manual_rerun] observation names it or one of its ancestors. *)
Theorem tick_terminal_frozen `{Sha256} (input : SchedulerInput) (plan : SchedulerPlan)
    (id : string) (s : StageSnapshot) :
  input_ok input = true -> tickScheduler input = inr plan ->
  initial_stage input id = Some s -> isTerminalStageState (ss_state s) = true ->
  ~ rerun_requested input id ->
  s ∈ plan_stagePatches plan.
Proof.
  intros Hok Hp Hs Ht Hno. destruct (plan_planned _ _ Hok Hp) as (c0 & c7 & t & Hpl).
  destruct (trace_inv (fun c => frozen c0 c id s) c0 c7 t) as [_ [H7 _]]; try apply Hpl.
  - intros ph a b _. apply frozen_step; [done|]. by rewrite (pl_input _ _ _ _ _ Hpl).
  - split; [|done]. by rewrite (pl_working _ _ _ _ _ Hpl), initialWorking_get.
  - eapply plan_patch; [done|]. by rewrite (initial_stage_id _ _ _ Hs).
Qed.

(** [build] succeeded earlier; the tick starts its successors. *)
Definition diamond_build_done : SchedulerInput :=
  plain_input diamond [snapshot "build" succeeded 1 None] [].

Lemma tick_terminal_frozen_witness :
  snapshot "build" succeeded 1 None ∈ plan_stagePatches (planOf diamond_build_done).
Proof.
  apply (tick_terminal_frozen diamond_build_done (planOf diamond_build_done) "build");
    try (vm_compute; reflexivity).
  intros (o & root & Ho & _). by apply elem_of_nil in Ho.
Defined.

(** ** Open and closing ticks *)

(** Cancellation is observed, or [now >= deadlineAt]. *)
Definition deadline_passed (input : SchedulerInput) : bool :=
  match in_deadlineAt input with
  | Some deadline => negb (str_ltb (in_now input) deadline)
  | None => false
  end.

Lemma steps_no_attempts ph c c' : ph <> Dispatch -> steps ph c c' ->
  tc_attempts c' = tc_attempts c.
Proof.
  intros Hph. induction 1 as [|a b d Hab _ IH]; [done|]. rewrite IH.
  by destruct Hab as [b Hq| | | | |]; [apply (q_attempts _ _ _ Hq)|..].
Qed.

(** A closing context dispatches nothing. *)
Lemma closing_no_attempts c c' : closing c = true -> steps Dispatch c c' ->
  tc_attempts c' = tc_attempts c.
Proof.
  intros Hcl Hst. assert (closing c' = true /\ tc_attempts c' = tc_attempts c) as [_ ?]; [|done].
  induction Hst as [|a b d Hab _ IH]; [done|].
  destruct (steps_closing Dispatch a b ltac:(discriminate) (rtc_once _ _ Hab)) as (_ & Hb & _).
  rewrite Hcl in Hb. destruct (IH Hb) as [Hd Hatt]. split; [done|]. rewrite Hatt.
  destruct Hab as [b Hq| | | | |x s y dir _ Hno]; try done; [apply (q_attempts _ _ _ Hq)|].
  congruence.
Qed.

(** The run of a tick that is not closing: both sweeps do nothing. *)
Record open_run (c0 c1 c3 c4 c5 c7 : TickContext) (t : option ScheduleTerminal) : Prop := {
  or_observe : steps Observe c0 c1;
  or_rearm : steps Rearm c1 c3;
  or_release : steps Release c3 c4;
  or_settled : forall id, id ∈ stageIds (tc_graph c0) -> settled c4 id;
  or_queue : queue_post (tickConcurrency c4) (sort_strings (map_keys (tc_working c4))) c4 c5;
  or_verdict : quiet Verdict c5 c7;
  or_closing : closing c4 = false;
  or_terminal : t = None <-> ~ all_terminal c5;
  or_outcome : forall v, t = Some v -> te_outcome v = outcome_rule c5
}.

Lemma trace_open c0 c7 t :
  tick_trace c0 c7 t -> closing c7 = false ->
  exists c1 c3 c4 c5, open_run c0 c1 c3 c4 c5 c7 t.
Proof.
  intros [(c1 & c2 & c3 & c4 & c5 & c6 & H1 & Hcan & (H2 & _ & H2') & H3 & (H4 & Hset) & H5 &
    (H6 & _ & H6') & H7 & Ht & Hv)] Hcl.
  destruct (steps_closing Sweep _ _ ltac:(discriminate) H2) as (_ & E2 & _).
  destruct (steps_closing Rearm _ _ ltac:(discriminate) H3) as (_ & E3 & _).
  destruct (steps_closing Release _ _ ltac:(discriminate) H4) as (_ & E4 & _).
  destruct (steps_closing Dispatch _ _ ltac:(discriminate) (qp_steps _ _ _ _ H5)) as (_ & E5 & _).
  destruct (steps_closing Sweep _ _ ltac:(discriminate) H6) as (_ & E6 & _).
  destruct (steps_closing Verdict _ _ ltac:(discriminate) (steps_quiet _ _ _ H7)) as (_ & E7 & _).
  assert (c2 = c1) as -> by (apply H2'; congruence).
  assert (c6 = c5) as -> by (apply H6'; congruence).
  exists c1, c3, c4, c5. split; try done. congruence.
Qed.

(** The run of a closing tick: nothing is dispatched and every stage is swept. *)
Lemma trace_closing c0 c7 t :
  tick_trace c0 c7 t -> closing c7 = true ->
  tc_attempts c7 = tc_attempts c0 /\
  forall id, id ∈ stageIds (tc_graph c0) -> swept c7 id.
Proof.
  intros [(c1 & c2 & c3 & c4 & c5 & c6 & H1 & Hcan & (H2 & _ & _) & H3 & (H4 & _) & H5 &
    (H6 & Hsw & _) & H7 & _)] Hcl.
  destruct (steps_closing Dispatch _ _ ltac:(discriminate) (qp_steps _ _ _ _ H5)) as (_ & E5 & _).
  destruct (steps_closing Sweep _ _ ltac:(discriminate) H6) as (_ & E6 & _).
  destruct (steps_closing Verdict _ _ ltac:(discriminate) (steps_quiet _ _ _ H7)) as (_ & E7 & _).
  split.
  - rewrite (q_attempts _ _ _ H7), (steps_no_attempts Sweep _ _ ltac:(discriminate) H6).
    rewrite (closing_no_attempts c4 c5 ltac:(congruence) (qp_steps _ _ _ _ H5)).
    rewrite (steps_no_attempts Release _ _ ltac:(discriminate) H4).
    rewrite (steps_no_attempts Rearm _ _ ltac:(discriminate) H3).
    rewrite (steps_no_attempts Sweep _ _ ltac:(discriminate) H2).
    by rewrite (steps_no_attempts Observe _ _ ltac:(discriminate) H1).
  - intros id Hid s Hs. rewrite (q_working _ _ _ H7) in Hs.
    destruct (Hsw ltac:(congruence) id Hid s Hs) as [Hin Hint]. split; [done|].
    intros a Ha Hat. rewrite (q_intents _ _ _ H7).
    rewrite (cancel_intent_id c6 c7 s a a (q_env _ _ _ H7)). by apply Hint.
Qed.

Lemma planned_closing input plan c0 c7 t :
  planned input plan c0 c7 t ->
  closing c7 = true <-> (cancel_observed input \/ deadline_passed input = true).
Proof.
  intros Hpl. destruct (pl_trace _ _ _ _ _ Hpl)
    as [(c1 & c2 & c3 & c4 & c5 & c6 & H1 & Hcan & (H2 & _) & H3 & (H4 & _) & H5 & (H6 & _) & H7 & _)].
  assert (closing c7 = closing c1) as ->.
  { destruct (steps_closing Sweep _ _ ltac:(discriminate) H2) as (_ & E2 & _).
    destruct (steps_closing Rearm _ _ ltac:(discriminate) H3) as (_ & E3 & _).
    destruct (steps_closing Release _ _ ltac:(discriminate) H4) as (_ & E4 & _).
    destruct (steps_closing Dispatch _ _ ltac:(discriminate) (qp_steps _ _ _ _ H5)) as (_ & E5 & _).
    destruct (steps_closing Sweep _ _ ltac:(discriminate) H6) as (_ & E6 & _).
    destruct (steps_closing Verdict _ _ ltac:(discriminate) (steps_quiet _ _ _ H7)) as (_ & E7 & _).
    congruence. }
  rewrite (pl_input _ _ _ _ _ Hpl) in Hcan. rewrite <-Hcan. unfold closing.
  assert (tc_deadlineExceeded c1 = deadline_passed input) as ->.
  { unfold tc_deadlineExceeded. rewrite (steps_env _ _ _ H1).
    pose proof (ef_deadline _ _ _ (wf_env c0 (pl_wf _ _ _ _ _ Hpl))) as Hd.
    by rewrite (pl_input _ _ _ _ _ Hpl) in Hd. }
  by rewrite orb_true_iff.
Qed.

(** A cancelled or expired tick stops everything it can: when a
    [cancel_requested] observation is consumed or the deadline has passed, the plan
    creates no attempt, leaves no stage pending, ready or retrying, and puts a
    cancel intent in the outbox for every stage that still holds an attempt. *)
Theorem tick_closing_stops `{Sha256} (input : SchedulerInput) (plan : SchedulerPlan) :
  input_ok input = true -> tickScheduler input = inr plan ->
  cancel_observed input \/ deadline_passed input = true ->
  plan_attempts plan = [] /\
  forall s, s ∈ plan_stagePatches plan ->
    ss_state s <> pending /\ ss_state s <> ready /\ ss_state s <> retrying /\
    forall a, isActive (ss_state s) = true -> ss_currentAttemptId s = Some a ->
      deriveIntentId (in_runId input) (in_graphRevision input) ik_cancel (stage_key s)
        ∈ map si_intentId (plan_intents plan).
Proof.
  intros Hok Hp Hcl. destruct (plan_planned _ _ Hok Hp) as (c0 & c7 & t & Hpl).
  apply (planned_closing _ _ _ _ _ Hpl) in Hcl.
  destruct (trace_closing c0 c7 t (pl_trace _ _ _ _ _ Hpl) Hcl) as [Hatt Hsw]. split.
  - rewrite (pl_plan _ _ _ _ _ Hpl). simpl. by rewrite Hatt, (pl_attempts _ _ _ _ _ Hpl).
  - intros s Hs. eapply plan_patch in Hs as Hs7; [|done].
    assert (ss_stageId s ∈ stageIds (tc_graph c0)) as Hid.
    { unfold tc_graph. rewrite <-(planned_env _ _ _ _ _ Hpl).
      apply (wf_keys c7), map_get_keys; [by eapply planned_wf|]. by eexists. }
    destruct (Hsw _ Hid s Hs7) as [Hin Hint]. unfold inactive in Hin.
    split_and!; [naive_solver..|]. intros a Ha Hat.
    specialize (Hint a Ha Hat).
    rewrite (Permutation_map si_intentId (plan_intents_perm _ _ _ _ _ Hpl)).
    unfold cancel_intent, intent_of in Hint. simpl in Hint.
    unfold tc_input in Hint. rewrite (planned_env _ _ _ _ _ Hpl) in Hint.
    fold (tc_input c0) in Hint. by rewrite (pl_input _ _ _ _ _ Hpl) in Hint.
Qed.

(** [test] is running and [lint] waits in the queue when the run is cancelled. *)
Definition diamond_cancelled : SchedulerInput :=
  plain_input diamond
    [snapshot "build" succeeded 1 None; snapshot "lint" ready 0 None;
     snapshot "test" running 1 (Some "pa:run:1:test:1:1")]
    [observe "o1" ob_cancel_requested None].

Lemma tick_closing_stops_witness :
  map si_intentId (plan_intents (planOf diamond_cancelled)) = ["pi:run:1:cancel:test:1:1"] /\
  plan_attempts (planOf diamond_cancelled) = [].
Proof.
  split; [vm_compute; reflexivity|].
  refine (proj1 (tick_closing_stops diamond_cancelled _ _ _ _)); try (vm_compute; reflexivity).
  left. exists (observe "o1" ob_cancel_requested None). split; [left|reflexivity].
Defined.

(** ** Attempts *)

(** Lexicographic order on (generation, attempt ordinal). *)
Definition coord_le (g1 o1 g2 o2 : Z) : Prop := g1 < g2 \/ (g1 = g2 /\ o1 <= o2).
Definition coord_lt (g1 o1 g2 o2 : Z) : Prop := g1 < g2 \/ (g1 = g2 /\ o1 < o2).

Definition stage_le (s s' : StageSnapshot) : Prop :=
  coord_le (ss_generation s) (ss_attemptOrdinal s) (ss_generation s') (ss_attemptOrdinal s').

Lemma evolves_le ph s s' : stage_evolves ph s s' -> stage_le s s'.
Proof. unfold stage_le, coord_le. destruct 1; simpl; lia. Qed.

(** Every stage is at or past its coordinates of [c0]. *)
Definition coords_grow (c0 c : TickContext) : Prop :=
  forall id s s', map_get (tc_working c0) id = Some s -> map_get (tc_working c) id = Some s' ->
    stage_le s s'.

Lemma coords_grow_refl c : coords_grow c c.
Proof. intros id s s' H1 H2. rewrite H1 in H2. injection H2 as <-. right. lia. Qed.

Lemma coords_grow_step c0 ph a b : wf a -> coords_grow c0 a -> tick_step ph a b -> coords_grow c0 b.
Proof.
  intros Hwf Ha Hst id s s' H0 Hb.
  destruct (step_working _ _ _ Hst) as [Hw|(x & sx & sx' & Hx & Hw & Hev)]; rewrite Hw in Hb.
  - by eapply Ha.
  - rewrite map_get_set in Hb. destruct (str_eqb id x) eqn:E; [|by eapply Ha].
    apply str_eqb_true in E as ->. injection Hb as <-.
    pose proof (Ha x s sx H0 Hx) as H1. apply evolves_le in Hev.
    unfold stage_le, coord_le in *. lia.
Qed.

Lemma coords_grow_steps c0 ph a b : wf a -> coords_grow c0 a -> steps ph a b -> coords_grow c0 b.
Proof.
  intros Hwf Ha Hst. induction Hst as [|a b d Hab _ IH]; [done|].
  apply IH; [by eapply step_wf|by eapply coords_grow_step].
Qed.

(** What an attempt of a context says about its stage; [c4] is the context
    before dispatching. *)
Definition attempt_ok (c4 c : TickContext) (a : StageAttempt) : Prop :=
  exists s0 s, map_get (tc_working c4) (sa_stageId a) = Some s0 /\
    map_get (tc_working c) (sa_stageId a) = Some s /\ ss_state s = queued /\
    ss_currentAttemptId s = Some (sa_attemptId a) /\
    ss_generation s = sa_generation a /\ ss_attemptOrdinal s = sa_attemptOrdinal a /\
    sa_generation a = ss_generation s0 /\ sa_attemptOrdinal a = ss_attemptOrdinal s0 + 1 /\
    sa_attemptId a = attempt_of c s.

Record attempts_ok (c4 c : TickContext) : Prop := {
  ao_each : forall a, a ∈ tc_attempts c -> attempt_ok c4 c a;
  ao_once : NoDup (map sa_stageId (tc_attempts c))
}.

Lemma attempt_of_env c c' s : tc_env c' = tc_env c -> attempt_of c' s = attempt_of c s.
Proof. unfold attempt_of, tc_input. by intros ->. Qed.

(** The attempts of other stages survive a change of one stage. *)
Lemma attempt_ok_frame c4 c c' x a :
  tc_env c' = tc_env c ->
  (forall id, id <> x -> map_get (tc_working c') id = map_get (tc_working c) id) ->
  sa_stageId a <> x -> attempt_ok c4 c a -> attempt_ok c4 c' a.
Proof.
  intros He Hw Hne (s0 & s & H0 & Hs & Hrest). exists s0, s. rewrite Hw by done.
  by rewrite (attempt_of_env c c' s He).
Qed.

Lemma attempts_ok_step c4 a b :
  wf a -> steps Dispatch c4 a -> attempts_ok c4 a -> tick_step Dispatch a b -> attempts_ok c4 b.
Proof.
  intros Hwf H4 [Hea Hon] Hst. pose proof (step_env _ _ _ Hst) as Henv.
  destruct Hst as [b Hq|x sx to reason o Hx Hp Hg| | | |x sx d dir _ _ Hx Hr Hsel Hd]; try done.
  { split; rewrite (q_attempts _ _ _ Hq); [|done]. intros at' Hat.
    destruct (Hea at' Hat) as (s0 & s & H0 & Hs & Hrest). exists s0, s.
    by rewrite (q_working _ _ _ Hq), (attempt_of_env a b s Henv). }
  pose proof (dispatch_ready_back c4 a x sx H4 Hx Hr) as Hx4.
  assert (forall a', a' ∈ tc_attempts a -> sa_stageId a' <> x) as Hne.
  { intros a' Ha' Heq. destruct (Hea a' Ha') as (s0 & s & _ & Hs & Hq & _).
    rewrite Heq, Hx in Hs. injection Hs as <-. congruence. }
  pose proof (wf_ids a Hwf x sx Hx) as Hid.
  split; simpl.
  - intros a' [Ha'|Ha'%list_elem_of_singleton]%elem_of_app.
    + eapply (attempt_ok_frame c4 a _ x); [done| |by apply Hne|by apply Hea].
      intros id Hidx. simpl. by rewrite map_get_set_ne.
    + subst a'. eexists sx, _. simpl. rewrite Hid, map_get_set_eq. by split_and!.
  - rewrite map_app. apply NoDup_app. split; [done|]. split; [|apply NoDup_singleton].
    simpl. rewrite Hid. intros y (a' & Hy & Ha')%list_elem_of_fmap Hyx%list_elem_of_singleton.
    apply (Hne a' Ha'). congruence.
Qed.

Lemma attempts_ok_steps c4 c5 :
  wf c4 -> tc_attempts c4 = [] -> steps Dispatch c4 c5 -> attempts_ok c4 c5.
Proof.
  intros Hwf Hnil Hst.
  enough (wf c5 /\ steps Dispatch c4 c5 /\ attempts_ok c4 c5) as (_ & _ & ?) by done.
  revert Hst. apply (rtc_ind_r (fun c => wf c /\ steps Dispatch c4 c /\ attempts_ok c4 c)).
  - split; [done|]. split; [apply rtc_refl|]. split; rewrite Hnil; [|constructor].
    by intros a ?%elem_of_nil.
  - intros a b _ Hab (Ha1 & Ha2 & Ha3). split; [by eapply step_wf|].
    split; [by eapply rtc_r|]. by eapply attempts_ok_step.
Qed.

(** The dispatch phase of a plan, seen from its end. *)
Lemma planned_attempts input plan c0 c7 t :
  planned input plan c0 c7 t ->
  exists c4, coords_grow c0 c4 /\ attempts_ok c4 c7 /\
    (tc_attempts c7 <> [] -> closing c7 = false).
Proof.
  intros Hpl. pose proof (pl_wf _ _ _ _ _ Hpl) as Hwf.
  destruct (closing c7) eqn:Hcl.
  - destruct (trace_closing _ _ _ (pl_trace _ _ _ _ _ Hpl) Hcl) as [Hatt _].
    rewrite (pl_attempts _ _ _ _ _ Hpl) in Hatt. exists c0.
    split; [apply coords_grow_refl|]. split; [|done].
    split; rewrite Hatt; [by intros a ?%elem_of_nil|constructor].
  - destruct (trace_open _ _ _ (pl_trace _ _ _ _ _ Hpl) Hcl) as (c1 & c3 & c4 & c5 & Hr).
    destruct Hr as [H1 H3 H4 _ H5 H7 _ _ _].
    assert (wf c1) as W1 by by eapply steps_wf.
    assert (wf c3) as W3 by by eapply steps_wf.
    assert (wf c4) as W4 by by eapply steps_wf.
    assert (tc_attempts c4 = []) as Hnil.
    { rewrite (steps_no_attempts Release _ _ ltac:(discriminate) H4),
        (steps_no_attempts Rearm _ _ ltac:(discriminate) H3),
        (steps_no_attempts Observe _ _ ltac:(discriminate) H1). apply Hpl. }
    exists c4. split; [|split; [|done]].
    + eapply coords_grow_steps; [exact W3| |exact H4].
      eapply coords_grow_steps; [exact W1| |exact H3].
      eapply coords_grow_steps; [exact Hwf| |exact H1]. apply coords_grow_refl.
    + destruct (attempts_ok_steps c4 c5 W4 Hnil (qp_steps _ _ _ _ H5)) as [He Ho].
      split; rewrite (q_attempts _ _ _ H7); [|done]. intros a Ha.
      destruct (He a Ha) as (s0 & s & H0 & Hs & Hrest). exists s0, s.
      by rewrite (q_working _ _ _ H7), (attempt_of_env _ _ s (q_env _ _ _ H7)).
Qed.

Lemma working_patch input plan c0 c7 t k s :
  planned input plan c0 c7 t -> map_get (tc_working c7) k = Some s ->
  s ∈ plan_stagePatches plan /\ ss_stageId s = k.
Proof.
  intros Hpl Hs. pose proof (wf_ids c7 (planned_wf _ _ _ _ _ Hpl) k s Hs) as Hid.
  split; [|done]. eapply plan_patch; [done|]. by rewrite Hid.
Qed.

(** Where an attempt of a run stands relative to the run's first input. *)
Definition attempt_after (input : SchedulerInput) (a : StageAttempt) : Prop :=
  sa_attemptId a = deriveAttemptId (in_runId input) (in_graphRevision input) (sa_stageId a)
    (sa_generation a) (sa_attemptOrdinal a) /\
  exists s0, initial_stage input (sa_stageId a) = Some s0 /\
    coord_lt (ss_generation s0) (ss_attemptOrdinal s0) (sa_generation a) (sa_attemptOrdinal a).

(** What holds of every attempt a plan creates. *)
Lemma tick_attempt_facts `{Sha256} input plan :
  input_ok input = true -> tickScheduler input = inr plan ->
  NoDup (map sa_stageId (plan_attempts plan)) /\
  forall a, a ∈ plan_attempts plan ->
    attempt_after input a /\
    exists s, s ∈ plan_stagePatches plan /\ ss_stageId s = sa_stageId a /\
      ss_state s = queued /\ ss_currentAttemptId s = Some (sa_attemptId a) /\
      ss_generation s = sa_generation a /\ ss_attemptOrdinal s = sa_attemptOrdinal a.
Proof.
  intros Hok Hp. destruct (plan_planned _ _ Hok Hp) as (c0 & c7 & t & Hpl).
  destruct (planned_attempts _ _ _ _ _ Hpl) as (c4 & Hgrow & [Heach Honce] & _).
  pose proof (planned_wf _ _ _ _ _ Hpl) as Hwf7.
  pose proof (plan_attempts_perm _ _ _ _ _ Hpl) as Hperm. split.
  { by rewrite (Permutation_map sa_stageId Hperm). }
  intros a Ha. rewrite Hperm in Ha.
  destruct (Heach a Ha) as (s4 & s & H4 & Hs & Hq & Hcur & Hg & Ho & Hg4 & Ho4 & Hid).
  destruct (working_patch _ _ _ _ _ _ _ Hpl Hs) as [Hin Hsid]. split; [split|by exists s].
  - rewrite Hid. unfold attempt_of, tc_input. rewrite (planned_env _ _ _ _ _ Hpl).
    fold (tc_input c0). by rewrite (pl_input _ _ _ _ _ Hpl), Hsid, Hg, Ho.
  - destruct (wf_stage c0 (sa_stageId a)) as (s0 & Hs0 & _); [apply Hpl| |].
    { unfold tc_graph. rewrite <-(planned_env _ _ _ _ _ Hpl).
      apply (wf_keys c7 Hwf7), map_get_keys. by eexists. }
    exists s0. split; [by rewrite <-initialWorking_get, <-(pl_working _ _ _ _ _ Hpl)|].
    pose proof (Hgrow _ _ _ Hs0 H4) as Hle. unfold stage_le, coord_le, coord_lt in *. lia.
Qed.

(** Attempts are well founded: a plan creates at most one attempt per stage;
    each attempt belongs to a stage whose patch is [queued] and carries the
    attempt's id, generation and ordinal; the id is the one derived from those
    coordinates; and they lie strictly past the stage's coordinates in the
    input. *)
Theorem tick_attempts_sound `{Sha256} (input : SchedulerInput) (plan : SchedulerPlan) :
  input_ok input = true -> tickScheduler input = inr plan ->
  NoDup (map sa_stageId (plan_attempts plan)) /\
  forall a, a ∈ plan_attempts plan ->
    sa_attemptId a = deriveAttemptId (in_runId input) (in_graphRevision input) (sa_stageId a)
      (sa_generation a) (sa_attemptOrdinal a) /\
    (exists s, s ∈ plan_stagePatches plan /\ ss_stageId s = sa_stageId a /\
       ss_state s = queued /\ ss_currentAttemptId s = Some (sa_attemptId a) /\
       ss_generation s = sa_generation a /\ ss_attemptOrdinal s = sa_attemptOrdinal a) /\
    (exists s0, initial_stage input (sa_stageId a) = Some s0 /\
       coord_lt (ss_generation s0) (ss_attemptOrdinal s0) (sa_generation a) (sa_attemptOrdinal a)).
Proof.
  intros Hok Hp. destruct (tick_attempt_facts _ _ Hok Hp) as [Honce Heach]. split; [done|].
  intros a Ha. destruct (Heach a Ha) as [[Hid Hs0] Hs]. done.
Qed.

Lemma tick_attempts_sound_witness :
  map sa_attemptId (plan_attempts (planOf diamond_after_build)) =
    ["pa:run:1:lint:1:1"; "pa:run:1:test:1:1"] /\
  NoDup (map sa_stageId (plan_attempts (planOf diamond_after_build))).
Proof.
  split; [vm_compute; reflexivity|].
  refine (proj1 (tick_attempts_sound diamond_after_build _ _ _)); vm_compute; reflexivity.
Defined.

(** ** Identities *)

Lemma appended_NoDup {A} (key : A -> string) l l' :
  appended key l l' -> NoDup (map key l) -> NoDup (map key l').
Proof.
  intros [->|(x & Hx & ->)] Hl; [done|]. rewrite map_app. apply NoDup_app.
  split; [done|]. split; [|apply NoDup_singleton]. by intros y Hy ->%list_elem_of_singleton.
Qed.

Lemma decisions_unique_step ph a b :
  NoDup (map sd_decisionId (tc_decisions a)) -> tick_step ph a b ->
  NoDup (map sd_decisionId (tc_decisions b)).
Proof.
  intros Ha Hst. destruct Hst as [b Hq| | | | |]; try done.
  eapply appended_NoDup; [apply (q_decisions _ _ _ Hq)|done].
Qed.

(** The dispatch intent an attempt stands behind. *)
Definition intent_id_of (c : TickContext) (a : StageAttempt) : string :=
  deriveIntentId (in_runId (tc_input c)) (in_graphRevision (tc_input c)) ik_dispatch
    (attemptKey (sa_stageId a) (sa_generation a) (sa_attemptOrdinal a)).

Definition is_dispatch (i : SchedulerIntent) : Prop := si_kind i = ik_dispatch.

#[export] Instance is_dispatch_dec i : Decision (is_dispatch i).
Proof. unfold is_dispatch. apply _. Defined.

Record intents_ok (c : TickContext) : Prop := {
  io_unique : NoDup (map si_intentId (tc_intents c));
  io_shape : forall i, i ∈ tc_intents c -> exists key,
    si_intentId i = deriveIntentId (in_runId (tc_input c)) (in_graphRevision (tc_input c))
      (si_kind i) key;
  io_attempts : map si_intentId (filter is_dispatch (tc_intents c)) =
    map (intent_id_of c) (tc_attempts c)
}.

(** Appending a fresh intent that is not a dispatch. *)
Lemma intents_ok_append a b i :
  tc_env b = tc_env a -> tc_attempts b = tc_attempts a -> tc_intents b = tc_intents a ++ [i] ->
  fresh_intent a i -> si_kind i <> ik_dispatch ->
  (exists key, si_intentId i = deriveIntentId (in_runId (tc_input a))
     (in_graphRevision (tc_input a)) (si_kind i) key) ->
  intents_ok a -> intents_ok b.
Proof.
  intros He Ha Hi Hf Hk Hkey [H1 H2 H3].
  assert (tc_input b = tc_input a) as Hin by (unfold tc_input; by rewrite He).
  split; unfold intent_id_of; rewrite ?Hin, ?Hi, ?Ha.
  - apply (appended_NoDup _ (tc_intents a)); [|done]. right. by exists i.
  - intros j [Hj| ->%list_elem_of_singleton]%elem_of_app; [by apply H2|done].
  - rewrite filter_app, filter_cons_False, filter_nil, app_nil_r by done. exact H3.
Qed.

Lemma intents_ok_step c4 ph a b :
  wf a -> (ph = Dispatch -> attempts_ok c4 a) -> intents_ok a -> tick_step ph a b -> intents_ok b.
Proof.
  intros Hwf Hatt Hok Hst. pose proof (step_env _ _ _ Hst) as He.
  assert (tc_input b = tc_input a) as Hin by (unfold tc_input; by rewrite He).
  destruct Hst as [b Hq|x sx to reason o|x sx|e p q _ _ _ _ Hf|x sx aid _ _ _ _ _ Hf|
    x sx d dir -> _ Hx Hr]; try (by destruct Hok; split).
  - destruct Hok as [H1 H2 H3]. split; unfold intent_id_of;
      rewrite ?Hin, ?(q_intents _ _ _ Hq), ?(q_attempts _ _ _ Hq); done.
  - eapply intents_ok_append; [done..| | | |done]; [exact Hf|done|by eexists].
  - eapply intents_ok_append; [done..| | | |done]; [exact Hf|done|by eexists].
  - destruct Hok as [H1 H2 H3]. destruct (Hatt eq_refl) as [Hea _].
    set (s' := bumpAttemptOrdinal sx). set (i := dispatch_intent_of a s' d dir).
    pose proof (wf_ids a Hwf x sx Hx) as Hid. split; simpl.
    + apply (appended_NoDup _ (tc_intents a)); [|done]. right. exists i. split; [|done].
      intros (j & Hj & Hjin)%list_elem_of_fmap. destruct (H2 j Hjin) as [key Hkey].
      pose proof Hj as Hk. rewrite Hkey in Hk. apply deriveIntentId_inj in Hk as [Hk _].
      assert (si_intentId j ∈ map (intent_id_of a) (tc_attempts a)) as Hin2.
      { rewrite <-H3. apply list_elem_of_fmap. exists j. split; [done|].
        by apply list_elem_of_filter. }
      apply list_elem_of_fmap in Hin2 as (at2 & Hat2 & Hat2in). rewrite <-Hj in Hat2.
      apply deriveIntentId_inj in Hat2 as [_ (Hs & _ & _)%attemptKey_inj].
      destruct (Hea at2 Hat2in) as (_ & s2 & _ & Hs2 & Hq2 & _).
      rewrite <-Hs in Hs2. simpl in Hs2. rewrite Hid, Hx in Hs2. injection Hs2 as <-. congruence.
    + intros j [Hj| ->%list_elem_of_singleton]%elem_of_app; [by apply H2|by eexists].
    + rewrite filter_app, filter_cons_True, filter_nil, !map_app by done. by f_equal.
Qed.

Lemma planned_intents input plan c0 c7 t : planned input plan c0 c7 t -> intents_ok c7.
Proof.
  intros Hpl. pose proof (pl_wf _ _ _ _ _ Hpl) as Hwf.
  assert (intents_ok c0) as H0.
  { split; rewrite ?(pl_intents _ _ _ _ _ Hpl), ?(pl_attempts _ _ _ _ _ Hpl); try done.
    - constructor.
    - by intros i ?%elem_of_nil. }
  assert (forall ph a b, ph <> Dispatch -> wf a -> steps ph a b -> intents_ok a -> intents_ok b)
    as Hother.
  { intros ph a b Hph Wa Hst. induction Hst as [|a b d Hab _ IH]; [done|]. intros Ha.
    apply IH; [by eapply step_wf|]. eapply (intents_ok_step a); [done| |done|done]. done. }
  destruct (pl_trace _ _ _ _ _ Hpl)
    as [(c1 & c2 & c3 & c4 & c5 & c6 & H1 & _ & (H2 & _) & H3 & (H4 & _) & [H5 _ _] & (H6 & _) & H7 & _)].
  assert (wf c1) as W1 by by eapply steps_wf. assert (wf c2) as W2 by by eapply steps_wf.
  assert (wf c3) as W3 by by eapply steps_wf. assert (wf c4) as W4 by by eapply steps_wf.
  assert (wf c5) as W5 by by eapply steps_wf. assert (wf c6) as W6 by by eapply steps_wf.
  assert (tc_attempts c4 = []) as Hnil.
  { rewrite (steps_no_attempts Release _ _ ltac:(discriminate) H4),
      (steps_no_attempts Rearm _ _ ltac:(discriminate) H3),
      (steps_no_attempts Sweep _ _ ltac:(discriminate) H2),
      (steps_no_attempts Observe _ _ ltac:(discriminate) H1). apply Hpl. }
  apply (Hother Verdict c6 c7); [done..|by apply steps_quiet|].
  apply (Hother Sweep c5 c6); [done..|].
  enough (wf c5 /\ steps Dispatch c4 c5 /\ intents_ok c5) as (_ & _ & ?) by done.
  revert H5. clear -Hother W1 W2 W3 W4 H1 H2 H3 H4 H0 Hwf Hnil.
  apply (rtc_ind_r (fun c => wf c /\ steps Dispatch c4 c /\ intents_ok c)).
  - split; [done|]. split; [apply rtc_refl|].
    apply (Hother Release c3 c4); [done..|]. apply (Hother Rearm c2 c3); [done..|].
    apply (Hother Sweep c1 c2); [done..|]. by apply (Hother Observe c0 c1).
  - intros a b _ Hab (Wa & Ha & Hia). split; [by eapply step_wf|].
    split; [by eapply rtc_r|]. eapply (intents_ok_step c4); [done| |done|done].
    intros _. by apply attempts_ok_steps.
Qed.

Lemma plan_attempt_ids `{Sha256} input plan :
  input_ok input = true -> tickScheduler input = inr plan ->
  NoDup (map sa_attemptId (plan_attempts plan)).
Proof.
  intros Hok Hp. destruct (plan_planned _ _ Hok Hp) as (c0 & c7 & t & Hpl).
  destruct (planned_attempts _ _ _ _ _ Hpl) as (c4 & _ & [Heach Honce] & _).
  pose proof (planned_wf _ _ _ _ _ Hpl) as Hwf7.
  rewrite (Permutation_map sa_attemptId (plan_attempts_perm _ _ _ _ _ Hpl)).
  apply (NoDup_fmap_2_strong sa_attemptId); [|by eapply NoDup_fmap_1].
  intros a b Ha Hb Hab.
  destruct (Heach a Ha) as (_ & sa & _ & Hsa & _ & _ & _ & _ & _ & _ & Hida).
  destruct (Heach b Hb) as (_ & sb & _ & Hsb & _ & _ & _ & _ & _ & _ & Hidb).
  rewrite Hida, Hidb in Hab. apply deriveAttemptId_coordinates in Hab as (Hst & _ & _).
  rewrite (wf_ids c7 Hwf7 _ _ Hsa), (wf_ids c7 Hwf7 _ _ Hsb) in Hst.
  by apply (NoDup_map_inj sa_stageId (tc_attempts c7)).
Qed.

(** Identities are unique within a plan: no two decisions, no two intents and
    no two attempts share an id, so the store's uniqueness constraints never drop
    an effect of the same tick; and the dispatch intents are, in number and id,
    exactly those of the plan's attempts. *)
Theorem tick_ids_unique `{Sha256} (input : SchedulerInput) (plan : SchedulerPlan) :
  input_ok input = true -> tickScheduler input = inr plan ->
  NoDup (map sd_decisionId (plan_decisions plan)) /\
  NoDup (map si_intentId (plan_intents plan)) /\
  NoDup (map sa_attemptId (plan_attempts plan)) /\
  map si_intentId (filter is_dispatch (plan_intents plan)) ≡ₚ
    map (fun a => deriveIntentId (in_runId input) (in_graphRevision input) ik_dispatch
           (attemptKey (sa_stageId a) (sa_generation a) (sa_attemptOrdinal a)))
      (plan_attempts plan).
Proof.
  intros Hok Hp. destruct (plan_planned _ _ Hok Hp) as (c0 & c7 & t & Hpl).
  destruct (planned_intents _ _ _ _ _ Hpl) as [Hi1 _ Hi3].
  split_and!.
  - rewrite (Permutation_map sd_decisionId (plan_decisions_perm _ _ _ _ _ Hpl)).
    apply (trace_inv (fun c => NoDup (map sd_decisionId (tc_decisions c))) c0 c7 t); try apply Hpl.
    + intros ph a b _. apply decisions_unique_step.
    + rewrite (pl_decisions _ _ _ _ _ Hpl). constructor.
  - by rewrite (Permutation_map si_intentId (plan_intents_perm _ _ _ _ _ Hpl)).
  - by apply (plan_attempt_ids input).
  - rewrite (plan_intents_perm _ _ _ _ _ Hpl), (plan_attempts_perm _ _ _ _ _ Hpl), Hi3.
    unfold intent_id_of, tc_input. rewrite (planned_env _ _ _ _ _ Hpl). fold (tc_input c0).
    by rewrite (pl_input _ _ _ _ _ Hpl).
Qed.

Lemma tick_ids_unique_witness :
  length (plan_intents (planOf diamond_after_build)) = 2%nat /\
  NoDup (map sd_decisionId (plan_decisions (planOf diamond_after_build))).
Proof.
  split; [vm_compute; reflexivity|].
  refine (proj1 (tick_ids_unique diamond_after_build _ _ _)); vm_compute; reflexivity.
Defined.

(** ** Concurrency *)

(** The concurrency limit of an input: the stricter of the effective and the
    pipeline's limits. *)
Definition concurrency_limit (input : SchedulerInput) : option Z :=
  resolveEffectiveConcurrency
    {| rc_effectiveMaxConcurrentWorkers := in_effectiveLimits input ≫= el_maxConcurrentWorkers;
       rc_pipelineMaxConcurrentWorkers := pl_maxConcurrentWorkers (pg_limits (in_graph input)) |}.

Lemma countActive_perm l1 l2 : l1 ≡ₚ l2 -> countActive l1 = countActive l2.
Proof. intros H. unfold countActive. by rewrite H. Qed.

Lemma tickConcurrency_input input c :
  tc_input c = input -> tc_graph c = in_graph input -> tickConcurrency c = concurrency_limit input.
Proof. intros <- Hg. unfold tickConcurrency, concurrency_limit. by rewrite Hg. Qed.

(** The queueing guarantee, at the end of an open tick. *)
Lemma open_queue input plan c0 c1 c3 c4 c5 c7 t :
  planned input plan c0 c7 t -> open_run c0 c1 c3 c4 c5 c7 t ->
  tickConcurrency c4 = concurrency_limit input /\ tc_working c7 = tc_working c5 /\
  wf c4 /\ tc_attempts c4 = [] /\ active_count c5 = countActive (plan_stagePatches plan).
Proof.
  intros Hpl [H1 H3 H4 _ [H5 _ _] H7 _ _ _]. split_and!.
  - apply tickConcurrency_input.
    + unfold tc_input. rewrite (steps_env _ _ _ H4), (steps_env _ _ _ H3), (steps_env _ _ _ H1).
      apply Hpl.
    + unfold tc_graph. rewrite (steps_env _ _ _ H4), (steps_env _ _ _ H3), (steps_env _ _ _ H1).
      apply Hpl.
  - apply (q_working _ _ _ H7).
  - eapply steps_wf; [|exact H4]. eapply steps_wf; [|exact H3]. eapply steps_wf; [|exact H1].
    apply Hpl.
  - rewrite (steps_no_attempts Release _ _ ltac:(discriminate) H4),
      (steps_no_attempts Rearm _ _ ltac:(discriminate) H3),
      (steps_no_attempts Observe _ _ ltac:(discriminate) H1). apply Hpl.
  - unfold active_count. rewrite <-(q_working _ _ _ H7). symmetry.
    apply countActive_perm. by eapply plan_patches_perm.
Qed.

(** Dispatch never exceeds the concurrency limit: if a plan creates an attempt,
    the number of stages holding a worker afterwards (queued, running or waiting)
    is at most the stricter of the effective and the pipeline limit. *)
Theorem tick_concurrency_cap `{Sha256} (input : SchedulerInput) (plan : SchedulerPlan) (cap : Z) :
  input_ok input = true -> tickScheduler input = inr plan ->
  concurrency_limit input = Some cap -> plan_attempts plan <> [] ->
  countActive (plan_stagePatches plan) <= cap.
Proof.
  intros Hok Hp Hcap Hne. destruct (plan_planned _ _ Hok Hp) as (c0 & c7 & t & Hpl).
  assert (tc_attempts c7 <> []) as Hne7.
  { intros Hnil. apply Hne, Permutation_nil_r. rewrite <-Hnil. by eapply plan_attempts_perm. }
  destruct (planned_attempts _ _ _ _ _ Hpl) as (_ & _ & _ & Hcl).
  destruct (trace_open _ _ _ (pl_trace _ _ _ _ _ Hpl) (Hcl Hne7)) as (c1 & c3 & c4 & c5 & Hr).
  destruct (open_queue _ _ _ _ _ _ _ _ _ Hpl Hr) as (Hlim & _ & _ & Hnil & <-).
  destruct Hr as [_ _ _ _ [_ [Hsame|Hle] _] H7 _ _ _].
  - rewrite (q_attempts _ _ _ H7) in Hne7. congruence.
  - apply Hle. congruence.
Qed.

Lemma tick_concurrency_cap_witness :
  countActive (plan_stagePatches (planOf diamond_after_build)) = 2 /\
  countActive (plan_stagePatches (planOf diamond_after_build)) <= 2.
Proof.
  split; [vm_compute; reflexivity|].
  apply (tick_concurrency_cap diamond_after_build); try (vm_compute; reflexivity).
  vm_compute. discriminate.
Defined.

(** Dispatch is work conserving: in a tick that is not closing, a selected
    stage is left [ready] only when the concurrency limit is reached. *)
Theorem tick_work_conserving `{Sha256} (input : SchedulerInput) (plan : SchedulerPlan)
    (s : StageSnapshot) :
  input_ok input = true -> tickScheduler input = inr plan ->
  ~ cancel_observed input -> deadline_passed input = false ->
  s ∈ plan_stagePatches plan -> ss_state s = ready -> ss_selected s = true ->
  exists cap, concurrency_limit input = Some cap /\ cap <= countActive (plan_stagePatches plan).
Proof.
  intros Hok Hp Hnc Hnd Hs Hr Hsel. destruct (plan_planned _ _ Hok Hp) as (c0 & c7 & t & Hpl).
  assert (closing c7 = false) as Hcl.
  { apply not_true_iff_false. rewrite (planned_closing _ _ _ _ _ Hpl). intros [?|?]; congruence. }
  destruct (trace_open _ _ _ (pl_trace _ _ _ _ _ Hpl) Hcl) as (c1 & c3 & c4 & c5 & Hrun).
  destruct (open_queue _ _ _ _ _ _ _ _ _ Hpl Hrun) as (Hlim & Hw & Hwf4 & _ & <-).
  rewrite <-Hlim. eapply plan_patch in Hs as Hs7; [|done]. rewrite Hw in Hs7.
  destruct Hrun as [_ _ _ _ [H5 _ Hfull] _ Hcl4 _ _].
  destruct (Hfull (ss_stageId s) s) as [?|?]; try done; [|congruence].
  rewrite elem_of_sort_strings. apply map_get_keys. eexists. by eapply dispatch_ready_back.
Qed.

(** One worker for two ready stages. *)
Definition narrow_diamond : SchedulerInput :=
  plain_input
    (plain_graph {| pl_maxPipelineDurationMs := None; pl_maxConcurrentWorkers := Some 1;
                    pl_maxRepairAttempts := None; pl_maxGraphRevisions := None |}
       (pg_stages diamond) (pg_edges diamond))
    [snapshot "build" succeeded 1 None] [].

Lemma tick_work_conserving_witness :
  map ss_state (plan_stagePatches (planOf narrow_diamond)) =
    [succeeded; queued; pending; ready] /\
  exists cap, concurrency_limit narrow_diamond = Some cap /\
    cap <= countActive (plan_stagePatches (planOf narrow_diamond)).
Proof.
  split; [vm_compute; reflexivity|].
  apply (tick_work_conserving narrow_diamond (planOf narrow_diamond)
    (nth 3 (plan_stagePatches (planOf narrow_diamond)) (snapshot "" pending 0 None)));
    try (vm_compute; reflexivity).
  - intros (o & Ho & _). by apply elem_of_nil in Ho.
  - apply list_elem_of_In, nth_In. vm_compute. lia.
Defined.

(** ** The verdict *)

(** The context the verdict is computed from, and what the plan shows of it. *)
Lemma planned_verdict `{Sha256} input plan c0 c7 t :
  planned input plan c0 c7 t ->
  exists c, wf c /\ tc_input c = input /\
    plan_stagePatches plan ≡ₚ map_values (tc_working c) /\
    (tc_cancelRequested c = true <-> cancel_observed input) /\
    (plan_terminal plan = None <-> ~ all_terminal c) /\
    forall v, plan_terminal plan = Some v -> te_outcome v = outcome_rule c.
Proof.
  intros Hpl. pose proof (pl_trace _ _ _ _ _ Hpl) as [(c1 & c2 & c3 & c4 & c5 & c6 & H1 & Hcan &
    (H2 & _) & H3 & (H4 & _) & [H5 _ _] & (H6 & _) & H7 & Hnone & Hout)].
  exists c6. split_and!.
  - eapply steps_wf; [|exact H6]; eapply steps_wf; [|exact H5];
      eapply steps_wf; [|exact H4]; eapply steps_wf; [|exact H3]; eapply steps_wf; [|exact H2];
      eapply steps_wf; [|exact H1]; apply Hpl.
  - unfold tc_input. rewrite <-(q_env _ _ _ H7), (planned_env _ _ _ _ _ Hpl). apply Hpl.
  - rewrite <-(q_working _ _ _ H7). apply (plan_patches_perm _ _ _ _ _ Hpl).
  - destruct (steps_closing Sweep _ _ ltac:(discriminate) H2) as (E2 & _).
    destruct (steps_closing Rearm _ _ ltac:(discriminate) H3) as (E3 & _).
    destruct (steps_closing Release _ _ ltac:(discriminate) H4) as (E4 & _).
    destruct (steps_closing Dispatch _ _ ltac:(discriminate) H5) as (E5 & _).
    destruct (steps_closing Sweep _ _ ltac:(discriminate) H6) as (E6 & _).
    rewrite E6, E5, E4, E3, E2, Hcan. by rewrite (pl_input _ _ _ _ _ Hpl).
  - by rewrite (pl_plan _ _ _ _ _ Hpl).
  - rewrite (pl_plan _ _ _ _ _ Hpl). exact Hout.
Qed.

(** The definition of a working stage. *)
Lemma working_value_definition c s :
  wf c -> s ∈ map_values (tc_working c) ->
  exists d, map_get (env_stagesById (tc_env c)) (ss_stageId s) = Some d /\
    ps_id d = ss_stageId s /\ d ∈ pg_stages (in_graph (tc_input c)).
Proof.
  intros W Hs. pose proof (working_values_get c s W Hs) as Hget.
  assert (ss_stageId s ∈ stageIds (in_graph (tc_input c))) as Hid.
  { destruct (wf_graph c W) as [_ <-]. apply (wf_keys c W), map_get_keys. by eexists. }
  exact (ef_definition _ _ _ (wf_env c W) _ Hid).
Qed.

(** A failed stage that is required, or that every failed stage is optional. *)
Lemma required_failed_spec c :
  wf c ->
  if required_failed c
  then exists s d, s ∈ map_values (tc_working c) /\ ss_state s = failed /\
    d ∈ pg_stages (in_graph (tc_input c)) /\ ps_id d = ss_stageId s /\ ps_optional d = false
  else forall s, s ∈ map_values (tc_working c) -> ss_state s = failed ->
    exists d, d ∈ pg_stages (in_graph (tc_input c)) /\ ps_id d = ss_stageId s /\
      ps_optional d = true.
Proof.
  intros W. unfold required_failed. destruct (existsb _ _) eqn:Er.
  - apply existsb_exists in Er as (s & Hs%list_elem_of_In & [Hst%state_eqb_true Hopt]%andb_prop).
    destruct (working_value_definition c s W Hs) as (d & Hd & Hdid & Hdin).
    rewrite Hd in Hopt. simpl in Hopt. apply negb_true_iff in Hopt. by exists s, d.
  - intros s Hs Hst. destruct (working_value_definition c s W Hs) as (d & Hd & Hdid & Hdin).
    exists d. split_and!; try done. rewrite existsb_false_forall in Er. specialize (Er s Hs).
    unfold has_state in Er. rewrite (proj2 (state_eqb_true _ _) Hst), Hd in Er.
    simpl in Er. by apply negb_false_iff in Er.
Qed.

Lemma not_all_terminal c :
  ~ all_terminal c <->
  exists s, s ∈ map_values (tc_working c) /\ isTerminalStageState (ss_state s) = false.
Proof.
  unfold all_terminal. split.
  - intros Hn. destruct (existsb (fun s => negb (isTerminalStageState (ss_state s)))
      (map_values (tc_working c))) eqn:E.
    + apply existsb_exists in E as (s & Hs%list_elem_of_In & Ht%negb_true_iff). eauto.
    + destruct Hn. intros s Hs. rewrite existsb_false_forall in E. by apply E, negb_false_iff in Hs.
  - intros (s & Hs & Ht) Hall. by rewrite (Hall s Hs) in Ht.
Qed.

(** C26: A plan carries a verdict exactly when every stage is terminal, and the
    verdict's outcome is: blocked when some stage is blocked; otherwise cancelled
    when cancellation was observed or every stage is cancelled; otherwise failed
    when a required stage failed; otherwise, with every failed stage optional,
    succeeded. *)
Theorem tick_verdict `{Sha256} (input : SchedulerInput) (plan : SchedulerPlan) :
  input_ok input = true -> tickScheduler input = inr plan ->
  (plan_terminal plan = None <->
   exists s, s ∈ plan_stagePatches plan /\ isTerminalStageState (ss_state s) = false) /\
  forall v, plan_terminal plan = Some v ->
    match te_outcome v with
    | out_blocked => exists s, s ∈ plan_stagePatches plan /\ ss_state s = blocked
    | out_cancelled =>
        (forall s, s ∈ plan_stagePatches plan -> ss_state s <> blocked) /\
        (cancel_observed input \/ forall s, s ∈ plan_stagePatches plan -> ss_state s = cancelled)
    | out_failed =>
        (forall s, s ∈ plan_stagePatches plan -> ss_state s <> blocked) /\
        ~ cancel_observed input /\
        exists s d, s ∈ plan_stagePatches plan /\ ss_state s = failed /\
          d ∈ pg_stages (in_graph input) /\ ps_id d = ss_stageId s /\ ps_optional d = false
    | out_succeeded =>
        (forall s, s ∈ plan_stagePatches plan -> ss_state s <> blocked) /\
        ~ cancel_observed input /\
        forall s, s ∈ plan_stagePatches plan -> ss_state s = failed ->
          exists d, d ∈ pg_stages (in_graph input) /\ ps_id d = ss_stageId s /\
            ps_optional d = true
    end.
Proof.
  intros Hok Hp. destruct (plan_planned _ _ Hok Hp) as (c0 & c7 & t & Hpl).
  destruct (planned_verdict _ _ _ _ _ Hpl) as (c & W & <- & Hperm & Hcan & Hnone & Hout).
  assert (forall s, s ∈ plan_stagePatches plan <-> s ∈ map_values (tc_working c)) as Hin
    by (intros s; by rewrite Hperm).
  split; [rewrite Hnone, not_all_terminal; by setoid_rewrite Hin|].
  intros v Hv. rewrite (Hout v Hv). unfold outcome_rule.
  destruct (existsb (has_state blocked) _) eqn:Eb.
  { apply existsb_exists in Eb as (s & Hs%list_elem_of_In & Hst%state_eqb_true).
    apply Hin in Hs. eauto. }
  assert (forall s, s ∈ plan_stagePatches plan -> ss_state s <> blocked) as Hnb.
  { intros s Hs%Hin. rewrite existsb_false_forall in Eb. by apply Eb, state_eqb_false in Hs. }
  destruct (tc_cancelRequested c) eqn:Ec; simpl.
  { split; [done|]. left. by apply Hcan. }
  assert (~ cancel_observed (tc_input c)) as Hnc by (rewrite <-Hcan; congruence).
  destruct (forallb (has_state cancelled) _) eqn:Ef.
  { split; [done|]. right. intros s Hs%Hin. rewrite forallb_forall in Ef.
    by apply list_elem_of_In, Ef, state_eqb_true in Hs. }
  pose proof (required_failed_spec c W) as Hr. destruct (required_failed c).
  - destruct Hr as (s & d & Hs%Hin & Hr). split_and!; [done|done|by exists s, d].
  - split_and!; [done|done|]. intros s Hs%Hin. by apply Hr.
Qed.

(** Everything has run. *)
Definition diamond_finished : SchedulerInput :=
  plain_input diamond
    [snapshot "build" succeeded 1 None; snapshot "lint" succeeded 1 None;
     snapshot "test" succeeded 1 None; snapshot "ship" running 1 (Some "pa:run:1:ship:1:1")]
    [observe "o1" ob_attempt_succeeded (Some "ship")].

Lemma tick_verdict_witness :
  (te_outcome <$> plan_terminal (planOf diamond_finished)) = Some out_succeeded /\
  (plan_terminal (planOf diamond_finished) = None <->
   exists s, s ∈ plan_stagePatches (planOf diamond_finished) /\
     isTerminalStageState (ss_state s) = false).
Proof.
  split; [vm_compute; reflexivity|].
  refine (proj1 (tick_verdict diamond_finished _ _ _)); vm_compute; reflexivity.
Defined.
