(* ===== verification/TickLive.v ===== *)
(** * Dependencies, progress and runs

    Release respects dependencies, a tick never stalls silently, a manual rerun
    resets exactly its descendants, and over a run of ticks no attempt id is
    used twice. *)

From S2P Require Import Prelude Transitions Ids Json Evaluate Recovery Graph Tick TickGraph TickSteps TickRelease TickRun TickProps.
Local Open Scope Z_scope.

(** ** Dependencies of released stages *)

(** An edge that no longer holds its target back. *)
Definition edge_cleared (r : EdgeResolution) : Prop :=
  r = edge_selected \/ r = edge_rejected \/ r = edge_waived.

Lemma edge_cleared_terminal c e : edge_cleared (edge_verdict c e) ->
  exists p, map_get (tc_working c) (pe_from e) = Some p /\
    isTerminalStageState (ss_state p) = true.
Proof.
  unfold edge_verdict. destruct (map_get _ (pe_from e)) as [p|]; [|by intros [?|[?|?]]].
  intros H. exists p. split; [done|]. destruct (ss_state p); try done; by destruct H as [?|[?|?]].
Qed.

(** A read another stage writes has been written by a succeeded stage. *)
Definition read_available (c : TickContext) (id read : string) : Prop :=
  (exists d, d ∈ pg_stages (tc_graph c) /\ ps_id d <> id /\ read ∈ ps_writes d) ->
  exists d s, d ∈ pg_stages (tc_graph c) /\ ps_id d <> id /\ read ∈ ps_writes d /\
    map_get (tc_working c) (ps_id d) = Some s /\ ss_state s = succeeded.

Lemma producedWrites_fold c excl stages acc w :
  w ∈ fold_left
    (fun writes stage =>
       if str_eqb (ps_id stage) excl then writes
       else match map_get (tc_working c) (ps_id stage) with
            | Some projection =>
                if state_eqb (ss_state projection) succeeded
                then fold_left set_add (ps_writes stage) writes else writes
            | None => writes
            end) stages acc <->
  w ∈ acc \/ exists d s, d ∈ stages /\ ps_id d <> excl /\ w ∈ ps_writes d /\
    map_get (tc_working c) (ps_id d) = Some s /\ ss_state s = succeeded.
Proof.
  revert acc. induction stages as [|d stages IH]; intros acc; simpl.
  { split; [by left|]. intros [?|(d & s & Hd & _)]; [done|]. by apply elem_of_nil in Hd. }
  rewrite IH. clear IH. setoid_rewrite elem_of_cons.
  destruct (str_eqb (ps_id d) excl) eqn:E; [apply str_eqb_true in E; naive_solver|].
  apply str_eqb_false in E. destruct (map_get (tc_working c) (ps_id d)) as [s|] eqn:Hs;
    [|naive_solver].
  destruct (state_eqb (ss_state s) succeeded) eqn:Es.
  - apply state_eqb_true in Es. rewrite elem_of_set_of_fold. naive_solver.
  - apply state_eqb_false in Es. naive_solver.
Qed.

Lemma elem_of_producedWrites c excl w :
  w ∈ producedWrites c excl <-> exists d s, d ∈ pg_stages (tc_graph c) /\ ps_id d <> excl /\
    w ∈ ps_writes d /\ map_get (tc_working c) (ps_id d) = Some s /\ ss_state s = succeeded.
Proof.
  unfold producedWrites. rewrite producedWrites_fold, elem_of_nil. naive_solver.
Qed.

(** [unsatisfiedReads] returns nothing exactly when every read is available. *)
Lemma unsatisfiedReads_None c d :
  unsatisfiedReads c d = None ->
  forall read, read ∈ ps_reads d -> read_available c (ps_id d) read.
Proof.
  unfold unsatisfiedReads. intros Hf read Hread (d' & Hd' & Hne & Hw).
  apply elem_of_producedWrites.
  eapply find_none in Hf; [|by apply list_elem_of_In in Hread].
  apply andb_false_iff in Hf as [Hf|Hf].
  - rewrite <-not_true_iff_false in Hf. destruct Hf. apply existsb_exists.
    exists d'. split; [by apply list_elem_of_In|]. apply andb_true_intro. split.
    + by apply negb_true_iff, str_eqb_false.
    + by apply bool_decide_eq_true.
  - by apply negb_false_iff, set_has_true in Hf.
Qed.

(** The dependencies of a stage are met. *)
Record deps_met (c : TickContext) (id : string) : Prop := {
  dm_edges : forall e, e ∈ incoming_edges c id -> edge_cleared (edge_verdict c e);
  dm_selected : exists e, e ∈ incoming_edges c id /\ edge_verdict c e = edge_selected;
  dm_reads : forall d read, map_get (env_stagesById (tc_env c)) id = Some d ->
    read ∈ ps_reads d -> read_available c id read
}.

Lemma verdicts_cleared rs :
  existsb (fun r => bool_decide (r = edge_pending)) rs = false -> firstBlocked rs = None ->
  forall r, r ∈ rs -> edge_cleared r.
Proof.
  induction rs as [|r rs IH]; simpl; [by intros _ _ r ?%elem_of_nil|].
  intros [Hp%bool_decide_eq_false Hps]%orb_false_elim Hb x [->|Hx]%elem_of_cons.
  - unfold edge_cleared. destruct r; naive_solver.
  - apply IH; [done| |done]. by destruct r.
Qed.

(** The release rule releases a stage only when its dependencies are met. *)
Lemma release_rule_deps c id br :
  wf c -> release_rule c id = Some (ready, dependencies_satisfied, br) -> deps_met c id.
Proof.
  intros Hwf. unfold release_rule. destruct (incoming_edges c id) as [|e es] eqn:Hinc; [done|].
  cbv zeta. destruct (existsb _ _) eqn:Ep; [done|]. destruct (firstBlocked _) eqn:Eb; [done|].
  destruct (negb _) eqn:Es; [done|]. apply negb_false_iff in Es.
  destruct (map_get (env_stagesById (tc_env c)) id) as [d|] eqn:Hd; [|done].
  destruct (unsatisfiedReads c d) eqn:Hr; [done|]. intros _. rewrite <-Hinc in *.
  assert (ps_id d = id) as Hdid.
  { destruct (decide (id ∈ stageIds (tc_graph c))) as [Hid|Hid].
    - destruct (wf_definition c id Hwf Hid) as (d' & Hd' & <-). congruence.
    - assert (e ∈ incoming_edges c id) as Hin by (rewrite Hinc; left).
      apply (incoming_edges_spec c id e Hwf) in Hin as [He <-].
      destruct (wf_graph c Hwf) as [Hg _]. by destruct (edge_ok_elim _ _ Hg He) as (_ & ? & _). }
  split.
  - intros x Hx. apply (verdicts_cleared _ Ep Eb). by apply list_elem_of_fmap_2.
  - apply existsb_exists in Es as (r & Hr'%list_elem_of_In & Hsel%bool_decide_eq_true). subst r.
    apply list_elem_of_fmap in Hr' as (x & Hx & Hin). eauto.
  - rewrite Hd. intros ? read [= <-] Hread. rewrite <-Hdid.
    by apply (unsatisfiedReads_None c d Hr).
Qed.

(** Dependencies stay met while terminal stages stay put. *)
Lemma deps_met_frame c c' id :
  tc_env c' = tc_env c -> tc_evaluatorDecisions c' = tc_evaluatorDecisions c ->
  (forall k s, map_get (tc_working c) k = Some s -> isTerminalStageState (ss_state s) = true ->
     map_get (tc_working c') k = Some s) ->
  deps_met c id -> deps_met c' id.
Proof.
  intros He Hv Hw [H1 H2 H3].
  assert (forall e, edge_cleared (edge_verdict c e) -> edge_verdict c' e = edge_verdict c e) as Heq.
  { intros e Hc. destruct (edge_cleared_terminal c e Hc) as (p & Hp & Ht).
    unfold edge_verdict, tc_input. rewrite (Hw _ _ Hp Ht), Hp, He, Hv. done. }
  assert (incoming_edges c' id = incoming_edges c id) as Hinc
    by (unfold incoming_edges; by rewrite He).
  split; rewrite ?Hinc.
  - intros e Hin. rewrite Heq; by apply H1.
  - destruct H2 as (e & Hin & Hsel). exists e. split; [done|]. rewrite Heq; [done|by apply H1].
  - rewrite He. intros d read Hd Hread Hex.
    assert (tc_graph c' = tc_graph c) as Hg by (unfold tc_graph; by rewrite He).
    rewrite Hg in Hex. destruct (H3 d read Hd Hread Hex) as (d' & s & Hd' & Hne & Hwr & Hs & Hst).
    exists d', s. rewrite Hg. split_and!; try done. apply Hw; [done|]. by rewrite Hst.
Qed.

(** Terminal stages stay put outside the observation phase. *)
Lemma step_terminal_stays ph a b k s :
  ph <> Observe -> tick_step ph a b -> map_get (tc_working a) k = Some s ->
  isTerminalStageState (ss_state s) = true -> map_get (tc_working b) k = Some s.
Proof.
  intros Hph Hst Hs Ht.
  destruct (step_working _ _ _ Hst) as [Hw|(x & sx & sx' & Hx & Hw & Hev)]; rewrite Hw; [done|].
  rewrite map_get_set. destruct (str_eqb k x) eqn:E; [|done]. apply str_eqb_true in E as <-.
  rewrite Hs in Hx. injection Hx as <-. destruct Hev as [now to reason o Hp Hto|now Ho|now o _ Hr].
  - by destruct (permitted_from_terminal _ _ _ Hp Ht).
  - done.
  - by rewrite Hr in Ht.
Qed.

(** Every stage released on its dependencies still has them met. *)
Definition releases_ok (c : TickContext) : Prop :=
  forall t, t ∈ tc_transitions c -> tr_reason t = dependencies_satisfied ->
    deps_met c (tr_stageId t).

Lemma dependencies_reason f t :
  isPermittedTransition f t dependencies_satisfied = true -> f = pending /\ t = ready.
Proof.
  intros H.
  assert (implb (isPermittedTransition f t dependencies_satisfied)
    (state_eqb f pending && state_eqb t ready) = true) as Hi.
  { enough (forall f t r, implb (isPermittedTransition f t r &&
      bool_decide (r = dependencies_satisfied)) (state_eqb f pending && state_eqb t ready) = true)
      as Hx by (specialize (Hx f t dependencies_satisfied); by rewrite andb_true_r in Hx).
    apply transition_table_check. vm_compute. reflexivity. }
  rewrite H in Hi. simpl in Hi. apply andb_prop in Hi as [?%state_eqb_true ?%state_eqb_true]. done.
Qed.

(** While observing no stage is released. *)
Definition no_releases (c : TickContext) : Prop :=
  forall t, t ∈ tc_transitions c -> tr_reason t <> dependencies_satisfied.

Lemma no_releases_step a b : no_releases a -> tick_step Observe a b -> no_releases b.
Proof.
  intros Ha Hst. unfold no_releases in *.
  destruct Hst as [b Hq|x sx to reason o Hx Hp [Hact _]|x sx| | |]; try done; simpl.
  - by rewrite (q_transitions _ _ _ Hq).
  - intros t [Ht| ->%list_elem_of_singleton]%elem_of_app; [by apply Ha|]. simpl. intros ->.
    destruct (dependencies_reason _ _ Hp) as [Hs _]. by rewrite Hs in Hact.
  - intros t [Ht|Ht]%elem_of_app; [by apply Ha|]. destruct (state_eqb _ _).
    + by apply elem_of_nil in Ht.
    + by apply list_elem_of_singleton in Ht as ->.
Qed.

Lemma releases_ok_step ph a b :
  ph <> Observe -> wf a -> releases_ok a -> tick_step ph a b -> releases_ok b.
Proof.
  intros Hph Hwf Ha Hst.
  destruct (steps_closing ph a b Hph (rtc_once _ _ Hst)) as (_ & _ & Hv).
  assert (forall id, deps_met a id -> deps_met b id) as Hkeep.
  { intros id. apply deps_met_frame; [by eapply step_env|done|].
    intros k s. by eapply step_terminal_stays. }
  assert (forall t, t ∈ tc_transitions a -> tr_reason t = dependencies_satisfied ->
    deps_met b (tr_stageId t)) as Hold by (intros; by apply Hkeep, Ha).
  intros t Ht Hreason.
  destruct Hst as [b Hq|x sx to reason o Hx Hp Hg|x sx| | |x sx d dir]; try done; simpl in Ht;
    try (by apply Hold).
  - rewrite (q_transitions _ _ _ Hq) in Ht. by apply Hold.
  - apply elem_of_app in Ht as [Ht|Ht%list_elem_of_singleton]; [by apply Hold|].
    subst t. simpl in *. subst reason. apply Hkeep. destruct (dependencies_reason _ _ Hp) as [Hs ->].
    rewrite (wf_ids a Hwf x sx Hx).
    destruct ph; simpl in Hg; try done.
    + by destruct Hg as (_ & ? & _).
    + destruct Hg as (_ & Hr & _). congruence.
    + destruct Hg as (_ & _ & _ & Hrule & _). by eapply release_rule_deps.
  - apply elem_of_app in Ht as [Ht|Ht%list_elem_of_singleton]; [by apply Hold|]. by subst t.
Qed.

Lemma planned_releases input plan c0 c7 t : planned input plan c0 c7 t -> releases_ok c7.
Proof.
  intros Hpl. pose proof (pl_wf _ _ _ _ _ Hpl) as Hwf.
  assert (forall ph a b, ph <> Observe -> wf a -> steps ph a b -> releases_ok a ->
    wf b /\ releases_ok b) as Hother.
  { intros ph a b Hph Wa Hst. induction Hst as [|a b d Hab _ IH]; [done|]. intros Ha.
    apply IH; [by eapply step_wf|by eapply releases_ok_step]. }
  destruct (pl_trace _ _ _ _ _ Hpl)
    as [(c1 & c2 & c3 & c4 & c5 & c6 & H1 & _ & (H2 & _) & H3 & (H4 & _) & [H5 _ _] & (H6 & _) & H7 & _)].
  assert (no_releases c1) as Hn.
  { revert H1. apply (steps_inv no_releases); [apply no_releases_step|].
    unfold no_releases. rewrite (pl_transitions _ _ _ _ _ Hpl). by intros ? ?%elem_of_nil. }
  assert (wf c1) as W1 by by eapply steps_wf.
  destruct (Hother Sweep c1 c2) as [W2 R2]; [done..| |].
  { intros x Hx Hr. by destruct (Hn x Hx). }
  destruct (Hother Rearm c2 c3) as [W3 R3]; [done..|].
  destruct (Hother Release c3 c4) as [W4 R4]; [done..|].
  destruct (Hother Dispatch c4 c5) as [W5 R5]; [done..|].
  destruct (Hother Sweep c5 c6) as [W6 R6]; [done..|].
  destruct (Hother Verdict c6 c7) as [_ R7]; [done|done|by apply steps_quiet|done|done].
Qed.

(** An evaluator's verdict on an edge, recorded before or observed now. *)
Definition evaluator_decided (input : SchedulerInput) (key : string) (selected : bool) : Prop :=
  (exists e, e ∈ in_evaluatorDecisions input /\ ed_edgeKey e = key /\ ed_selected e = selected) \/
  evaluator_observed input key selected.

Lemma planned_evaluators input plan c0 c7 t key b :
  planned input plan c0 c7 t -> map_get (tc_evaluatorDecisions c7) key = Some b ->
  evaluator_decided input key b.
Proof.
  intros Hpl. set (P := fun c => tc_input c = input /\
    forall k b, map_get (tc_evaluatorDecisions c) k = Some b -> evaluator_decided input k b).
  enough (P c7) as [_ HP] by apply HP.
  apply (trace_inv P c0 c7 t); try apply Hpl.
  - intros ph a b' _ [Hi Ha] Hst. split.
    { unfold tc_input. by rewrite (step_env _ _ _ Hst). }
    destruct Hst as [b' Hq| | | | |]; try done.
    destruct (q_verdicts _ _ _ Hq) as [->|(k & sel & Hobs & ->)]; [done|].
    intros k' b''. rewrite map_get_set. destruct (str_eqb k' k) eqn:E; [|by apply Ha].
    apply str_eqb_true in E as ->. intros [= <-]. right. by rewrite <-Hi.
  - split; [apply Hpl|]. rewrite (ic_evaluators _ _ _ (pl_initial _ _ _ _ _ Hpl)).
    intros k b' H%map_of_get_elem. left.
    apply list_elem_of_fmap in H as (e & [= -> ->] & He). eauto.
Qed.

(** The condition of an edge holds in this tick. *)
Definition condition_holds (input : SchedulerInput) (e : PipelineEdge) : Prop :=
  match pe_condition e with
  | None => True
  | Some (CExpression c) => evaluateExpressionCondition c (in_canonicalState input) = Some (EvalOk true)
  | Some (CEvaluator _ _) => evaluator_decided input (edgeKey (pe_from e) (pe_to e)) true
  end.

(** A predecessor that does not hold its successors back: it succeeded, it is an
    optional stage that failed, or its branch was not taken. *)
Definition predecessor_resolved (input : SchedulerInput) (p : StageSnapshot) : Prop :=
  ss_state p = succeeded \/
  (ss_state p = failed /\
   exists d, d ∈ pg_stages (in_graph input) /\ ps_id d = ss_stageId p /\ ps_optional d = true) \/
  (ss_state p = cancelled /\
   (ss_selected p = false \/ ss_lastTransitionReason p = Some condition_not_selected)).

Lemma edge_cleared_resolved c e :
  wf c -> edge_cleared (edge_verdict c e) ->
  exists p, map_get (tc_working c) (pe_from e) = Some p /\ predecessor_resolved (tc_input c) p.
Proof.
  intros Hwf Hcl. destruct (edge_cleared_terminal c e Hcl) as (p & Hp & Ht).
  exists p. split; [done|]. unfold edge_verdict in Hcl. rewrite Hp in Hcl.
  unfold predecessor_resolved. destruct (ss_state p) eqn:Hst; try done; [by left|..].
  - right. left. split; [done|].
    assert (pe_from e ∈ stageIds (in_graph (tc_input c))) as Hid.
    { destruct (wf_graph c Hwf) as [_ <-]. apply (wf_keys c Hwf), map_get_keys. by eexists. }
    destruct (ef_definition _ _ _ (wf_env c Hwf) _ Hid) as (d & Hd & Hdid & Hdin).
    rewrite Hd in Hcl. simpl in Hcl. exists d. rewrite (wf_ids c Hwf _ _ Hp).
    destruct (ps_optional d); [done|]. by destruct Hcl as [?|[?|?]].
  - right. right. split; [done|].
    destruct (ss_selected p); [right|by left]. simpl in Hcl.
    destruct (bool_decide _) eqn:Eb in Hcl; [by apply bool_decide_eq_true in Eb|].
    by destruct Hcl as [?|[?|?]].
  - by destruct Hcl as [?|[?|?]].
Qed.

Lemma edge_selected_holds c e :
  edge_verdict c e = edge_selected ->
  exists p, map_get (tc_working c) (pe_from e) = Some p /\ ss_state p = succeeded /\
    match pe_condition e with
    | None => True
    | Some (CExpression cond) =>
        evaluateExpressionCondition cond (in_canonicalState (tc_input c)) = Some (EvalOk true)
    | Some (CEvaluator _ _) =>
        map_get (tc_evaluatorDecisions c) (edgeKey (pe_from e) (pe_to e)) = Some true
    end.
Proof.
  unfold edge_verdict. destruct (map_get _ (pe_from e)) as [p|]; [|done].
  intros H. exists p. split; [done|]. destruct (ss_state p); try done.
  - split; [done|]. destruct (pe_condition e) as [[cond|? ?]|]; [| |done].
    + destruct (evaluateExpressionCondition cond _) as [[[] |]|]; done.
    + by destruct (map_get (tc_evaluatorDecisions c) _) as [[]|].
  - by destruct (default false _).
  - by destruct (negb _ || _).
Qed.

(** C2: A stage is released on its dependencies only when they are met: if a plan
    logs a [dependencies_satisfied] release, then in the plan's patches every
    predecessor of the stage has succeeded, failed while optional, or was not
    taken; some incoming edge comes from a succeeded predecessor and its condition
    holds; and every state the stage reads that another stage writes was written
    by a succeeded stage. *)
Theorem tick_release_safe `{Sha256} (input : SchedulerInput) (plan : SchedulerPlan)
    (t : StageTransition) :
  input_ok input = true -> tickScheduler input = inr plan ->
  t ∈ plan_transitions plan -> tr_reason t = dependencies_satisfied ->
  (forall e, e ∈ pg_edges (in_graph input) -> pe_to e = tr_stageId t ->
     exists p, p ∈ plan_stagePatches plan /\ ss_stageId p = pe_from e /\
       predecessor_resolved input p) /\
  (exists e p, e ∈ pg_edges (in_graph input) /\ pe_to e = tr_stageId t /\
     p ∈ plan_stagePatches plan /\ ss_stageId p = pe_from e /\ ss_state p = succeeded /\
     condition_holds input e) /\
  (forall d d' read, d ∈ pg_stages (in_graph input) -> ps_id d = tr_stageId t ->
     NoDup (stageIds (in_graph input)) -> read ∈ ps_reads d ->
     d' ∈ pg_stages (in_graph input) -> ps_id d' <> ps_id d -> read ∈ ps_writes d' ->
     exists w s, w ∈ pg_stages (in_graph input) /\ read ∈ ps_writes w /\
       s ∈ plan_stagePatches plan /\ ss_stageId s = ps_id w /\ ss_state s = succeeded).
Proof.
  intros Hok Hp Ht Hreason. destruct (plan_planned _ _ Hok Hp) as (c0 & c7 & v & Hpl).
  pose proof (planned_wf _ _ _ _ _ Hpl) as Hwf. pose proof (planned_env _ _ _ _ _ Hpl) as Henv.
  assert (tc_input c7 = input) as Hi
    by (unfold tc_input; rewrite Henv; apply (pl_input _ _ _ _ _ Hpl)).
  assert (tc_graph c7 = in_graph input) as Hg by (rewrite <-Hi; by apply wf_graph).
  destruct (planned_releases _ _ _ _ _ Hpl t) as [He Hsel Hr].
  { by rewrite (pl_plan _ _ _ _ _ Hpl) in Ht. }
  { done. }
  assert (forall k s, map_get (tc_working c7) k = Some s ->
    s ∈ plan_stagePatches plan /\ ss_stageId s = k) as Hpatch.
  { intros k s Hs. pose proof (wf_ids c7 Hwf k s Hs) as Hid. split; [|done].
    eapply plan_patch; [done|]. by rewrite Hid. }
  split_and!.
  - intros e Hin Hto. destruct (edge_cleared_resolved c7 e Hwf) as (p & Hpg & Hres).
    { apply He, incoming_edges_spec; [done|]. by rewrite Hg. }
    rewrite Hi in Hres. exists p. destruct (Hpatch _ _ Hpg). done.
  - destruct Hsel as (e & Hin & Hv). apply (incoming_edges_spec c7 _ _ Hwf) in Hin as [Hin Hto].
    rewrite Hg in Hin. destruct (edge_selected_holds c7 e Hv) as (p & Hpg & Hst & Hc).
    exists e, p. destruct (Hpatch _ _ Hpg). split_and!; try done.
    unfold condition_holds. rewrite Hi in Hc.
    destruct (pe_condition e) as [[cond|pr qu]|]; [done| |done]. by eapply planned_evaluators.
  - intros d d' read Hd Hdid Hnd Hread Hd' Hne Hw.
    assert (map_get (env_stagesById (tc_env c7)) (tr_stageId t) = Some d) as Hdef.
    { assert (tr_stageId t ∈ stageIds (in_graph (tc_input c7))) as Hid.
      { rewrite Hi, <-Hdid. by apply (list_elem_of_fmap_2 ps_id). }
      destruct (ef_definition _ _ _ (wf_env c7 Hwf) _ Hid) as (d2 & Hd2 & Hd2id & Hd2in).
      rewrite Hi in Hd2in. rewrite Hd2. f_equal.
      apply (NoDup_map_inj ps_id (pg_stages (in_graph input))); try done. congruence. }
    destruct (Hr d read Hdef Hread) as (w & s & Hw1 & Hw2 & Hw3 & Hs & Hst).
    { exists d'. rewrite Hg. split_and!; try done. congruence. }
    rewrite Hg in Hw1. exists w, s. destruct (Hpatch _ _ Hs). done.
Qed.

Lemma tick_release_safe_witness :
  exists t, t ∈ plan_transitions (planOf diamond_after_build) /\
    tr_stageId t = "lint" /\ tr_reason t = dependencies_satisfied /\
    exists e p, e ∈ pg_edges diamond /\ pe_to e = "lint" /\
      p ∈ plan_stagePatches (planOf diamond_after_build) /\ ss_stageId p = pe_from e /\
      ss_state p = succeeded /\ condition_holds diamond_after_build e.
Proof.
  exists {| tr_stageId := "lint"; tr_from := pending; tr_to := ready;
            tr_reason := dependencies_satisfied; tr_attemptId := None; tr_generation := 1;
            tr_blockReason := None |}.
  assert ({| tr_stageId := "lint"; tr_from := pending; tr_to := ready;
            tr_reason := dependencies_satisfied; tr_attemptId := None; tr_generation := 1;
            tr_blockReason := None |} ∈ plan_transitions (planOf diamond_after_build)) as Hin.
  { vm_compute. right. left. }
  split; [exact Hin|]. split; [reflexivity|]. split; [reflexivity|].
  refine (proj1 (proj2 (tick_release_safe diamond_after_build _ _ _ _ Hin _)));
    vm_compute; reflexivity.
Defined.

(** ** Progress *)

(** Only cancelled stages are deselected. *)
Definition selection_ok (w : list (string * StageSnapshot)) : Prop :=
  forall k s, map_get w k = Some s -> ss_selected s = false -> ss_state s = cancelled.

Lemma selection_step ph a b :
  wf a -> selection_ok (tc_working a) -> tick_step ph a b -> selection_ok (tc_working b).
Proof.
  intros Hwf Ha Hst. unfold selection_ok in *.
  destruct Hst as [b Hq|x sx to reason o Hx Hp Hg|x sx _ _ Hx Ht| | |x sx d dir _ _ Hx Hr];
    simpl; try done; [by rewrite (q_working _ _ _ Hq)|..]; intros k s; rewrite map_get_set;
    (destruct (str_eqb k x) eqn:E; [|by apply Ha]); intros [= <-]; simpl.
  - assert (ss_state sx = cancelled -> False) as Hnc.
    { intros Hc. destruct ph; simpl in Hg; rewrite ?Hc in Hg; naive_solver. }
    assert (ss_selected sx = true) as Hsel.
    { destruct (ss_selected sx) eqn:Es; [done|]. by destruct Hnc; eapply Ha. }
    rewrite Hsel. destruct ph; simpl in Hg; try done.
    + destruct Hg as [_ ->]. done.
    + destruct Hg as (_ & -> & _). done.
    + destruct Hg as (_ & _ & _ & ->). done.
    + destruct Hg as (_ & _ & _ & _ & Ho). destruct (opt_selected o) as [[]|]; simpl; try done.
      intros _. by apply Ho.
  - done.
  - intros Hs. apply Ha in Hx; [congruence|done].
Qed.

Lemma planned_selection input plan c0 c7 t :
  planned input plan c0 c7 t -> selection_ok (initialWorking input) ->
  selection_ok (tc_working c7).
Proof.
  intros Hpl H0. apply (trace_inv (fun c => selection_ok (tc_working c)) c0 c7 t); try apply Hpl.
  - intros ph a b. apply selection_step.
  - by rewrite (pl_working _ _ _ _ _ Hpl).
Qed.

(** On an acyclic graph, walking back along edges comes to an end. *)
Lemma acyclic_predecessors g x :
  graph_ok g = true -> acyclic g -> sn (flip (edge_rel g)) x.
Proof.
  intros Hg Hac. apply (acyclic_sn _ (stageIds g)); [|done].
  intros y z (e & He & <- & _). by destruct (edge_ok_elim g e Hg He).
Qed.

(** A pending request comes from the input or from an intent of this tick. *)
Definition requests_ok (input : SchedulerInput) (c : TickContext) : Prop :=
  tc_input c = input /\
  forall k, k ∈ tc_pendingEvaluators c -> k ∈ in_pendingEvaluatorEdgeKeys input \/
    deriveIntentId (in_runId input) (in_graphRevision input) ik_evaluator k
      ∈ map si_intentId (tc_intents c).

Lemma planned_requests input plan c0 c7 t :
  planned input plan c0 c7 t -> requests_ok input c7.
Proof.
  intros Hpl. apply (trace_inv (requests_ok input) c0 c7 t); try apply Hpl.
  - intros ph a b _ [Hi Ha] Hst. split.
    { unfold tc_input. by rewrite (step_env _ _ _ Hst). }
    assert (forall i, i ∈ map si_intentId (tc_intents a) -> i ∈ map si_intentId (tc_intents b))
      as Hmono by (intros i; eapply steps_intents; by apply rtc_once).
    intros k Hk. enough (k ∈ tc_pendingEvaluators a \/
      deriveIntentId (in_runId input) (in_graphRevision input) ik_evaluator k
        ∈ map si_intentId (tc_intents b)) as [Hk'|?]; [|by right|].
    { destruct (Ha k Hk'); auto. }
    destruct Hst as [b Hq| | |e p q| |]; try (by left).
    + left. by apply (q_pending _ _ _ Hq).
    + simpl in Hk. apply elem_of_set_add in Hk as [->|?]; [right|by left].
      simpl. rewrite map_app, elem_of_app. right. rewrite <-Hi. by left.
  - split; [apply Hpl|]. rewrite (ic_pending _ _ _ (pl_initial _ _ _ _ _ Hpl)).
    intros k Hk. left. by apply elem_of_set_of.
Qed.

(** Dispatching leaves every stage that is not ready unchanged, and a ready one
    unchanged or queued. *)
Lemma dispatch_stage c c' k s :
  steps Dispatch c c' -> map_get (tc_working c) k = Some s ->
  map_get (tc_working c') k = Some s \/
  (ss_state s = ready /\ exists s', map_get (tc_working c') k = Some s' /\ ss_state s' = queued).
Proof.
  intros Hst Hs. revert c' Hst.
  apply (rtc_ind_r (fun c' => map_get (tc_working c') k = Some s \/
    (ss_state s = ready /\ exists s', map_get (tc_working c') k = Some s' /\ ss_state s' = queued)));
    [by left|].
  intros a b _ Hab IH. destruct Hab as [b Hq|x sx to reason o| | | |x sx d dir _ _ Hx Hr]; try done.
  { by rewrite (q_working _ _ _ Hq). }
  simpl. rewrite map_get_set. destruct (str_eqb k x) eqn:E; [|done]. apply str_eqb_true in E as <-.
  right. destruct IH as [IH|(Hrs & s' & Hs' & Hqs)].
  - rewrite Hx in IH. injection IH as ->. split; [done|]. eexists. split; [done|]. done.
  - rewrite Hx in Hs'. injection Hs' as ->. congruence.
Qed.

(** A stage after dispatching is the one before it, or has just been queued. *)
Lemma dispatch_back c c' k s :
  wf c -> steps Dispatch c c' -> map_get (tc_working c') k = Some s ->
  map_get (tc_working c) k = Some s \/ ss_state s = queued.
Proof.
  intros Hwf Hst Hs. destruct (map_get (tc_working c) k) as [s0|] eqn:E.
  - destruct (dispatch_stage _ _ _ _ Hst E) as [E'|(_ & s' & E' & Hq)];
      [left|right]; congruence.
  - apply map_get_None in E. destruct E. apply (wf_keys c Hwf).
    rewrite <-(env_graph_eq _ _ (steps_env _ _ _ Hst)).
    apply (wf_keys c'); [by eapply steps_wf|]. apply map_get_keys. by eexists.
Qed.

(** The reason a pending stage waits: an edge without a verdict. *)
Lemma release_rule_waits c id :
  wf c -> id ∈ stageIds (tc_graph c) -> release_rule c id = None ->
  exists e, e ∈ incoming_edges c id /\ edge_verdict c e = edge_pending.
Proof.
  intros Hwf Hid. unfold release_rule. destruct (incoming_edges c id) as [|e es] eqn:Hinc; [done|].
  cbv zeta. rewrite <-Hinc. destruct (existsb _ _) eqn:Ep.
  - intros _. apply existsb_exists in Ep as (r & Hr%list_elem_of_In & ->%bool_decide_eq_true).
    apply list_elem_of_fmap in Hr as (x & Hx & Hin). eauto.
  - destruct (firstBlocked _); [done|]. destruct (negb _); [done|].
    destruct (wf_definition c id Hwf Hid) as (d & -> & _). by destruct (unsatisfiedReads c d).
Qed.

(** An edge without a verdict waits for its predecessor or its evaluator. *)
Lemma edge_pending_cause c e :
  wf c -> e ∈ pg_edges (tc_graph c) -> edge_verdict c e = edge_pending ->
  awaiting c e \/
  exists p, map_get (tc_working c) (pe_from e) = Some p /\
    isTerminalStageState (ss_state p) = false.
Proof.
  intros Hwf He. destruct (wf_graph c Hwf) as [Hg _].
  destruct (edge_ok_elim _ _ Hg He) as (Hfrom & _ & Hcond).
  destruct (wf_stage c (pe_from e) Hwf Hfrom) as (p & Hp & _).
  unfold edge_verdict. rewrite Hp.
  destruct (ss_state p) eqn:Hst; try (intros _; right; exists p; by rewrite Hst); try done.
  - destruct (pe_condition e) as [[cond|pr qu]|] eqn:Hpe; [| |done].
    + destruct (evaluateExpressionCondition_total cond (in_canonicalState (tc_input c)) Hcond)
        as [[[]|code msg pa] ->]; done.
    + destruct (map_get (tc_evaluatorDecisions c) _) as [[]|] eqn:Hd; [done..|].
      intros _. left. unfold awaiting. rewrite Hpe, Hp. split_and!; eauto.
  - by destruct (default false _).
  - by destruct (negb _ || _).
Qed.

(** The run has something to wait for: a stage with a worker or a scheduled
    retry. *)
Definition alive (s : StageSnapshot) : bool :=
  isActive (ss_state s) || has_state retrying s.

(** An evaluator the run waits for: the edge's predecessor has succeeded, its
    target is pending, and the request is outstanding or in this plan. *)
Definition awaits_evaluator (input : SchedulerInput) (plan : SchedulerPlan) (e : PipelineEdge)
    : Prop :=
  e ∈ pg_edges (in_graph input) /\
  (exists profile question, pe_condition e = Some (CEvaluator profile question)) /\
  (exists p, p ∈ plan_stagePatches plan /\ ss_stageId p = pe_from e /\ ss_state p = succeeded) /\
  (exists s, s ∈ plan_stagePatches plan /\ ss_stageId s = pe_to e /\ ss_state s = pending) /\
  (edgeKey (pe_from e) (pe_to e) ∈ in_pendingEvaluatorEdgeKeys input \/
   deriveIntentId (in_runId input) (in_graphRevision input) ik_evaluator
     (edgeKey (pe_from e) (pe_to e)) ∈ map si_intentId (plan_intents plan)).

(** A stage that waits for its turn but is deselected: no tick looks at it. *)
Definition left_out (s : StageSnapshot) : bool :=
  negb (ss_selected s) && (has_state pending s || has_state ready s).

(** When nothing is alive or left out, what is unfinished in an open tick is pending. *)
Lemma open_only_pending input plan c0 c1 c3 c4 c5 c7 t :
  planned input plan c0 c7 t -> open_run c0 c1 c3 c4 c5 c7 t ->
  existsb left_out (plan_stagePatches plan) = false ->
  (forall cap, concurrency_limit input = Some cap -> 1 <= cap) ->
  existsb alive (plan_stagePatches plan) = false ->
  forall k s, map_get (tc_working c5) k = Some s -> isTerminalStageState (ss_state s) = false ->
    ss_state s = pending /\ ss_selected s = true.
Proof.
  intros Hpl Hr Hsel Hcap Hdead k s Hs Ht.
  destruct (open_queue _ _ _ _ _ _ _ _ _ Hpl Hr) as (Hlim & Hw & Hwf4 & _ & Hcount).
  destruct Hr as [_ _ _ _ [H5 _ Hfull] H7 Hcl _ _].
  pose proof (plan_patches_perm _ _ _ _ _ Hpl) as Hperm. rewrite Hw in Hperm.
  rewrite existsb_false_forall in Hdead, Hsel.
  assert (s ∈ plan_stagePatches plan) as Hin.
  { rewrite Hperm. apply map_get_elem in Hs. by apply (list_elem_of_fmap_2 snd) in Hs. }
  pose proof (Hdead s Hin) as Hd. unfold alive, has_state in Hd.
  assert (ss_selected s = true) as Hselected.
  { pose proof (Hsel s Hin) as Hl. unfold left_out, has_state in Hl.
    destruct (ss_selected s); [done|]. by destruct (ss_state s). }
  assert (ss_state s <> ready) as Hnr.
  { intros Hready. destruct (Hfull k s) as [?|(cap & Hc & Hle)]; try done; [|congruence|].
    - rewrite elem_of_sort_strings. apply map_get_keys. eexists. by eapply dispatch_ready_back.
    - rewrite Hlim in Hc. apply Hcap in Hc.
      assert (active_count c5 = 0); [|lia]. rewrite Hcount. unfold countActive.
      destruct (filter _ (plan_stagePatches plan)) as [|x l] eqn:E; [done|].
      assert (x ∈ filter (fun s => isActive (ss_state s) = true) (plan_stagePatches plan))
        as [Hx1 Hx2]%list_elem_of_filter by (rewrite E; left).
      apply Hdead in Hx2. unfold alive in Hx2. by rewrite Hx1 in Hx2. }
  split; [|done]. destruct (ss_state s); done.
Qed.

(** A pending stage at the end of an open tick leads back, through pending
    predecessors, to an edge that waits for its evaluator. *)
Lemma pending_awaits input plan c0 c1 c3 c4 c5 c7 t :
  planned input plan c0 c7 t -> open_run c0 c1 c3 c4 c5 c7 t ->
  (forall k s, map_get (tc_working c5) k = Some s -> isTerminalStageState (ss_state s) = false ->
     ss_state s = pending /\ ss_selected s = true) ->
  forall id, sn (flip (edge_rel (in_graph input))) id -> forall s,
    map_get (tc_working c5) id = Some s -> ss_state s = pending ->
    exists e, awaits_evaluator input plan e.
Proof.
  intros Hpl Hr Hpending id Hsn. induction Hsn as [id _ IH]. intros s Hs Hst.
  destruct (open_queue _ _ _ _ _ _ _ _ _ Hpl Hr) as (_ & Hw & Hwf4 & _ & _).
  destruct Hr as [H1 H3 H4 Hset [H5 _ _] H7 Hcl4 _ _].
  pose proof (planned_wf _ _ _ _ _ Hpl) as Hwf7.
  assert (tc_graph c4 = in_graph input) as Hg4.
  { unfold tc_graph. rewrite (steps_env _ _ _ H4), (steps_env _ _ _ H3), (steps_env _ _ _ H1).
    apply (pl_graph _ _ _ _ _ Hpl). }
  assert (forall k s, map_get (tc_working c5) k = Some s ->
    s ∈ plan_stagePatches plan /\ ss_stageId s = k) as Hpatch.
  { intros k s' Hs'. rewrite <-Hw in Hs'. by eapply working_patch. }
  destruct (dispatch_back _ _ _ _ Hwf4 H5 Hs) as [Hs4|Hq]; [|congruence].
  assert (id ∈ stageIds (tc_graph c4)) as Hid
    by (apply (wf_keys c4 Hwf4), map_get_keys; by eexists).
  destruct (Hpending id s Hs) as [_ Hselected]; [by rewrite Hst|].
  destruct (Hset id) with s as [?|[Hrule Hasks]]; try done; [|congruence|].
  { rewrite (pl_graph _ _ _ _ _ Hpl). by rewrite <-Hg4. }
  destruct (release_rule_waits c4 id Hwf4 Hid Hrule) as (e & Hin & Hv).
  pose proof (proj1 (incoming_edges_spec c4 id e Hwf4) Hin) as [He Hto].
  destruct (edge_pending_cause c4 e Hwf4 He Hv) as [Hwait|(p & Hpg & Hnt)]; rewrite Hg4 in He.
  - exists e. pose proof Hwait as (Hcond & (p & Hpg & Hps) & _).
    assert (asked c7 e) as Hasked.
    { apply (asked_steps Verdict c5); [done|by apply steps_quiet|].
      apply (asked_steps Dispatch c4); [done..|]. by apply Hasks. }
    split_and!; try done.
    + exists p. destruct (dispatch_stage _ _ _ _ H5 Hpg) as [E5|(? & _)]; [|congruence].
      destruct (Hpatch _ _ E5). done.
    + exists s. destruct (Hpatch _ _ Hs) as [? <-]. rewrite Hto in *. done.
    + destruct (planned_requests _ _ _ _ _ Hpl) as [Hi Hreq].
      rewrite (Permutation_map si_intentId (plan_intents_perm _ _ _ _ _ Hpl)).
      destruct Hasked as [Hk|Hk]; [by apply Hreq|right; by rewrite <-Hi].
  - assert (map_get (tc_working c5) (pe_from e) = Some p) as Hp5.
    { destruct (dispatch_stage _ _ _ _ H5 Hpg) as [E5|(_ & s' & E5 & Hq)]; [done|]. exfalso.
      destruct (Hpending _ _ E5) as [? _]; [by rewrite Hq|congruence]. }
    apply (IH (pe_from e)) with p; [|done|by eapply Hpending]. by exists e.
Qed.

(** The input has a stage that is deselected without being cancelled. *)
Definition deselected_open (input : SchedulerInput) : Prop :=
  exists s, s ∈ map_values (initialWorking input) /\ ss_selected s = false /\ ss_state s <> cancelled.

(** Ticks deselect a stage only by cancelling it. *)
Lemma left_out_before input plan c0 c7 t s :
  planned input plan c0 c7 t -> s ∈ plan_stagePatches plan -> left_out s = true -> deselected_open input.
Proof.
  intros Hpl Hs Hl. unfold deselected_open.
  destruct (existsb (fun s => negb (ss_selected s) && negb (bool_decide (ss_state s = cancelled)))
    (map_values (initialWorking input))) eqn:Ex.
  { apply existsb_exists in Ex as (s0 & H0%list_elem_of_In & [Hn%negb_true_iff Hc%negb_true_iff]%andb_prop).
    exists s0. by apply bool_decide_eq_false in Hc. }
  rewrite existsb_false_forall in Ex. exfalso.
  assert (selection_ok (tc_working c7)) as Hsel.
  { apply (planned_selection _ _ _ _ _ Hpl). intros k s0 H0 Hn. apply map_get_elem in H0.
    apply (list_elem_of_fmap_2 snd) in H0. specialize (Ex s0 H0). rewrite Hn in Ex. cbn in Ex.
    by apply negb_false_iff, bool_decide_eq_true in Ex. }
  rewrite (plan_patches_perm _ _ _ _ _ Hpl) in Hs.
  apply (working_values_get c7 s (planned_wf _ _ _ _ _ Hpl)) in Hs.
  unfold left_out, has_state in Hl. apply andb_prop in Hl as [Hn%negb_true_iff Hst].
  rewrite (Hsel _ _ Hs Hn) in Hst. done.
Qed.

(** What goes on after a plan without a verdict. *)
Definition under_way (input : SchedulerInput) (plan : SchedulerPlan) : Prop :=
  (exists s, s ∈ plan_stagePatches plan /\ alive s = true) \/
  (exists e, awaits_evaluator input plan e) \/
  (deselected_open input /\ exists s, s ∈ plan_stagePatches plan /\ left_out s = true).

(** A plan without a verdict on an acyclic graph leaves something under way. *)
Lemma plan_never_stalls `{Sha256} (input : SchedulerInput) (plan : SchedulerPlan) :
  input_ok input = true -> tickScheduler input = inr plan ->
  acyclic (in_graph input) ->
  (forall cap, concurrency_limit input = Some cap -> 1 <= cap) ->
  ~ cancel_observed input -> deadline_passed input = false ->
  plan_terminal plan = None -> under_way input plan.
Proof.
  intros Hok Hp Hac Hcap Hnc Hnd Hterm.
  destruct (plan_planned _ _ Hok Hp) as (c0 & c7 & t & Hpl).
  destruct (existsb alive (plan_stagePatches plan)) eqn:Hdead.
  { left. apply existsb_exists in Hdead as (s & Hs%list_elem_of_In & Ha). eauto. }
  destruct (existsb left_out (plan_stagePatches plan)) eqn:Hsel.
  { right. right. apply existsb_exists in Hsel as (s & Hs%list_elem_of_In & Hl).
    split; [by eapply left_out_before|eauto]. }
  right. left. assert (closing c7 = false) as Hcl.
  { apply not_true_iff_false. rewrite (planned_closing _ _ _ _ _ Hpl). intros [?|?]; congruence. }
  destruct (trace_open _ _ _ (pl_trace _ _ _ _ _ Hpl) Hcl) as (c1 & c3 & c4 & c5 & Hr).
  pose proof (open_only_pending _ _ _ _ _ _ _ _ _ Hpl Hr Hsel Hcap Hdead) as Hpending.
  destruct (open_queue _ _ _ _ _ _ _ _ _ Hpl Hr) as (_ & Hw & _ & _ & _).
  assert (plan_terminal plan = t) as Ht by (by rewrite (pl_plan _ _ _ _ _ Hpl)).
  rewrite Hterm in Ht. symmetry in Ht. apply (or_terminal _ _ _ _ _ _ _ Hr) in Ht.
  destruct (existsb (fun s => negb (isTerminalStageState (ss_state s)))
    (map_values (tc_working c5))) eqn:Ex.
  - apply existsb_exists in Ex as (s & Hs%list_elem_of_In & Hnt%negb_true_iff).
    rewrite <-Hw in Hs. apply (working_values_get c7 s (planned_wf _ _ _ _ _ Hpl)) in Hs.
    rewrite Hw in Hs. eapply (pending_awaits _ _ _ _ _ _ _ _ _ Hpl Hr Hpending (ss_stageId s));
      [|done|by eapply Hpending].
    apply acyclic_predecessors; [|done]. by apply andb_prop in Hok as [? _].
  - destruct Ht. intros s Hs. rewrite existsb_false_forall in Ex.
    by apply Ex, negb_false_iff in Hs.
Qed.

(** C3: The scheduler never stalls silently. On an acyclic graph with a stage, whose
    edges and stage snapshots name its stages and whose expressions are in
    evaluation order, with a positive concurrency limit if there is one,
    and outside cancellation and deadline, a plan without a verdict leaves a stage
    with a worker (queued, running or waiting), a stage whose retry is scheduled, or
    an edge whose evaluator has been asked, by an intent of this plan or by an
    outstanding request. The one exception is a stage that stays pending or ready
    because it is deselected, and then the input already had a stage that was
    deselected without being cancelled: ticks deselect a stage only by cancelling
    it. *)
Theorem tick_no_stall `{Sha256} (input : SchedulerInput) (plan : SchedulerPlan) :
  input_ok input = true -> tickScheduler input = inr plan ->
  acyclic (in_graph input) ->
  (forall cap, concurrency_limit input = Some cap -> 1 <= cap) ->
  ~ cancel_observed input -> deadline_passed input = false ->
  plan_terminal plan = None ->
  (exists s, s ∈ plan_stagePatches plan /\ alive s = true) \/
  (exists e, awaits_evaluator input plan e) \/
  (deselected_open input /\ exists s, s ∈ plan_stagePatches plan /\ left_out s = true).
Proof. apply plan_never_stalls. Qed.

(** A ranking of the stages shows a graph acyclic. *)
Lemma acyclic_rank g (rank : string -> nat) :
  forallb (fun e => (rank (pe_from e) <? rank (pe_to e))%nat) (pg_edges g) = true -> acyclic g.
Proof.
  intros Hr. assert (forall x y, tc (edge_rel g) x y -> (rank x < rank y)%nat) as Hlt.
  { assert (forall x y, edge_rel g x y -> (rank x < rank y)%nat) as Hone.
    { intros x y (e & He%list_elem_of_In & <- & <-). rewrite forallb_forall in Hr.
      by apply Hr, Nat.ltb_lt in He. }
    induction 1 as [x y Hxy|x y z Hxy _ IH]; [by apply Hone|]. apply Hone in Hxy. lia. }
  intros x Hx%Hlt. lia.
Qed.

Definition diamond_rank (id : string) : nat :=
  if str_eqb id "build" then 0 else if str_eqb id "ship" then 2 else 1.

Lemma tick_no_stall_witness :
  (exists s, s ∈ plan_stagePatches (planOf diamond_after_build) /\ alive s = true) \/
  (exists e, awaits_evaluator diamond_after_build (planOf diamond_after_build) e) \/
  (deselected_open diamond_after_build /\
   exists s, s ∈ plan_stagePatches (planOf diamond_after_build) /\ left_out s = true).
Proof.
  apply tick_no_stall; try (vm_compute; reflexivity).
  - apply (acyclic_rank _ diamond_rank). vm_compute. reflexivity.
  - intros cap. vm_compute. intros [= <-]. discriminate.
  - intros (o & Ho & Hk). vm_compute in Ho.
    apply list_elem_of_singleton in Ho as ->. discriminate.
Defined.
