(* ===== verification/TickHistory.v ===== *)
(** * Runs of ticks and manual reruns

    The daemon feeds the patches of one plan into the next tick.  Over such a
    run attempt identities never repeat.  A manual rerun resets a stage and its
    descendants, and the transitive closure behind it is exact. *)

From S2P Require Import Prelude Transitions Ids Json Evaluate Recovery Graph Tick TickGraph TickSteps TickRelease TickRun TickProps TickLive.
Local Open Scope Z_scope.

(** ** Runs *)

(** [next] continues the run of [input] after [plan]: same run, revision and
    graph, and the stages are the patches of the plan. *)
Record follows (input : SchedulerInput) (plan : SchedulerPlan) (next : SchedulerInput) : Prop := {
  fo_run : in_runId next = in_runId input;
  fo_revision : in_graphRevision next = in_graphRevision input;
  fo_graph : in_graph next = in_graph input;
  fo_stages : in_stages next = plan_stagePatches plan
}.

(** The plans of consecutive ticks. *)
Inductive run_of `{Sha256} : SchedulerInput -> list SchedulerPlan -> Prop :=
| run_last input plan :
    input_ok input = true -> tickScheduler input = inr plan -> run_of input [plan]
| run_next input plan next plans :
    input_ok input = true -> tickScheduler input = inr plan ->
    follows input plan next -> run_of next plans -> run_of input (plan :: plans).

Definition all_attempts (plans : list SchedulerPlan) : list StageAttempt :=
  plans ≫= plan_attempts.

(** The next tick starts each stage from its patch. *)
Lemma follows_initial `{Sha256} input plan next s :
  input_ok input = true -> tickScheduler input = inr plan -> follows input plan next ->
  s ∈ plan_stagePatches plan -> initial_stage next (ss_stageId s) = Some s.
Proof.
  intros Hok Hp Hf Hs. destruct (plan_planned _ _ Hok Hp) as (c0 & c7 & t & Hpl).
  unfold initial_stage.
  assert (ss_stageId s ∈ map_keys (snapshotMap next)) as [s' Hs']%map_get_keys.
  { apply elem_of_map_of. rewrite map_map, (fo_stages _ _ _ Hf).
    by apply (list_elem_of_fmap_2 ss_stageId). }
  rewrite Hs'. apply snapshotMap_get in Hs' as [Hin Hid]. rewrite (fo_stages _ _ _ Hf) in Hin.
  eapply plan_patch in Hin; [|done]. eapply plan_patch in Hs; [|done]. congruence.
Qed.

Lemma planned_coords input plan c0 c7 t : planned input plan c0 c7 t -> coords_grow c0 c7.
Proof.
  intros Hpl. apply (trace_inv (coords_grow c0) c0 c7 t); try apply Hpl.
  - intros ph a b. apply coords_grow_step.
  - apply coords_grow_refl.
Qed.

Lemma run_attempts_after `{Sha256} input plans :
  run_of input plans -> forall a, a ∈ all_attempts plans -> attempt_after input a.
Proof.
  induction 1 as [input plan Hok Hp|input plan next plans Hok Hp Hf Hrun IH]; intros a;
    unfold all_attempts; rewrite list_elem_of_bind; intros (p & Ha & Hin).
  - apply list_elem_of_singleton in Hin as ->. by eapply tick_attempt_facts.
  - apply elem_of_cons in Hin as [->|Hin]; [by eapply tick_attempt_facts|].
    destruct (IH a) as [Hid (s1 & Hs1 & Hlt)].
    { unfold all_attempts. rewrite list_elem_of_bind. eauto. }
    rewrite (fo_run _ _ _ Hf), (fo_revision _ _ _ Hf) in Hid. split; [done|].
    destruct (plan_planned _ _ Hok Hp) as (c0 & c7 & t & Hpl).
    pose proof (planned_wf _ _ _ _ _ Hpl) as Hwf7.
    assert (sa_stageId a ∈ stageIds (in_graph input)) as Hstage.
    { rewrite <-(fo_graph _ _ _ Hf). apply (initialWorking_keys next).
      - by destruct Hrun.
      - apply map_get_keys. rewrite initialWorking_get. by eexists. }
    destruct (planned_stage _ _ _ _ _ _ Hpl Hstage) as (s & Hs & Hsid).
    pose proof (follows_initial _ _ _ _ Hok Hp Hf Hs) as Hs'. rewrite Hsid, Hs1 in Hs'.
    injection Hs' as <-. eapply plan_patch in Hs as Hs7; [|done]. rewrite Hsid in Hs7.
    destruct (wf_stage c0 (sa_stageId a)) as (s0 & Hs0 & _); [apply Hpl| |].
    { by rewrite (pl_graph _ _ _ _ _ Hpl). }
    exists s0. split; [by rewrite <-initialWorking_get, <-(pl_working _ _ _ _ _ Hpl)|].
    pose proof (planned_coords _ _ _ _ _ Hpl _ _ _ Hs0 Hs7) as Hle.
    unfold stage_le, coord_le, coord_lt in *. lia.
Qed.

(** C28: Attempt identities never repeat over a run: when each tick starts from the
    patches of the one before, with whatever observations, all attempts of all
    plans have pairwise distinct ids, also across retries and manual reruns. *)
Theorem run_attempts_unique `{Sha256} (input : SchedulerInput) (plans : list SchedulerPlan) :
  run_of input plans -> NoDup (map sa_attemptId (all_attempts plans)).
Proof.
  induction 1 as [input plan Hok Hp|input plan next plans Hok Hp Hf Hrun IH].
  - unfold all_attempts. simpl. rewrite app_nil_r. by apply (plan_attempt_ids input).
  - unfold all_attempts. simpl. fold (all_attempts plans). rewrite map_app. apply NoDup_app.
    split; [by apply (plan_attempt_ids input)|]. split; [|done].
    intros i (a & -> & Ha)%list_elem_of_fmap (b & Hab & Hb)%list_elem_of_fmap.
    destruct (proj2 (tick_attempt_facts _ _ Hok Hp) a Ha) as [[Hida _] (s & Hs & Hsid & _ & _ & Hg & Ho)].
    destruct (run_attempts_after _ _ Hrun b Hb) as [Hidb (s1 & Hs1 & Hlt)].
    rewrite Hida, Hidb, (fo_run _ _ _ Hf), (fo_revision _ _ _ Hf) in Hab.
    apply deriveAttemptId_coordinates in Hab as (Hst & Hgg & Hoo).
    pose proof (follows_initial _ _ _ _ Hok Hp Hf Hs) as Hs'.
    rewrite Hsid, Hst, Hs1 in Hs'. injection Hs' as ->.
    unfold coord_lt in Hlt. lia.
Qed.

(** [build] is dispatched, fails retryably, and is dispatched again. *)
Definition tick1 : SchedulerInput := plain_input diamond [] [].
Definition retryable_failure (id : string) : SchedulerObservation :=
  {| so_schemaVersion := 1; so_observationId := "o2"; so_kind := ob_attempt_failed;
     so_stageId := Some id; so_attemptId := None; so_retryable := Some true;
     so_edgeKey := None; so_selected := None; so_recordedAt := "2026-01-01T00:00:01Z";
     so_failure := None; so_signature := None; so_recoveryDecisionId := None;
     so_proposalId := None; so_approved := None; so_classification := None;
     so_phase := None; so_code := None; so_backendClassification := None;
     so_validationFailures := None; so_resumeAvailable := None;
     so_priorBackendExecutionId := None |}.
Definition tick2 : SchedulerInput :=
  plain_input diamond (plan_stagePatches (planOf tick1))
    [observe "o1" ob_attempt_started (Some "build"); retryable_failure "build"].
Definition tick3 : SchedulerInput :=
  plain_input diamond (plan_stagePatches (planOf tick2)) [].

Lemma run_attempts_unique_witness :
  map sa_attemptId (all_attempts [planOf tick1; planOf tick2; planOf tick3]) =
    ["pa:run:1:build:1:1"; "pa:run:1:build:1:2"] /\
  NoDup (map sa_attemptId (all_attempts [planOf tick1; planOf tick2; planOf tick3])).
Proof.
  split; [vm_compute; reflexivity|]. apply (run_attempts_unique tick1).
  apply (run_next tick1 _ tick2); [vm_compute; reflexivity..|by split|].
  apply (run_next tick2 _ tick3); [vm_compute; reflexivity..|by split|].
  apply run_last; vm_compute; reflexivity.
Defined.

(** ** Manual reruns *)

(** The stages a rerun of [root] reaches. *)
Definition in_scope (g : PipelineGraph) (root id : string) : Prop :=
  id = root \/ tc (edge_rel g) root id.

Definition resettable (s : StageSnapshot) : bool :=
  isTerminalStageState (ss_state s) || state_eqb (ss_state s) pending.

Lemma rerunTarget_wp id s c :
  map_get (tc_working c) id = Some s ->
  wp (rerunTarget id) (fun _ c' => tc_env c' = tc_env c /\
    tc_working c' = if resettable s then map_set (tc_working c) id (rerunStage (in_now (tc_input c)) s)
                    else tc_working c) c.
Proof.
  intros Hs. unfold rerunTarget, setRecoveryCounters, writeStage, resettable. wp_step. read_stage.
  rewrite <-negb_orb. destruct (_ || _) eqn:E; cbn [negb]; [|by wp_steps].
  wp_steps. destruct (state_eqb (ss_state s) pending) eqn:Ep; cbn [negb].
  - wp_steps. apply (recordDecision_wp Observe). intros c' Hq.
    by rewrite (q_env _ _ _ Hq), (q_working _ _ _ Hq).
  - rewrite orb_false_r in E. unfold assertPermittedTransition. rewrite (rerun_permitted _ E).
    wp_steps. apply (recordDecision_wp Observe). intros c' Hq.
    by rewrite (q_env _ _ _ Hq), (q_working _ _ _ Hq).
Qed.

(** The stages after rerunning the targets in [done]. *)
Definition rerun_done (c : TickContext) (done : list string) (c' : TickContext) : Prop :=
  tc_env c' = tc_env c /\
  forall id s, map_get (tc_working c) id = Some s ->
    map_get (tc_working c') id =
    Some (if bool_decide (id ∈ done) && resettable s then rerunStage (in_now (tc_input c)) s else s).

Lemma rerun_targets c targets :
  wf c -> NoDup targets -> targets ⊆ stageIds (tc_graph c) ->
  wp (forM targets rerunTarget) (fun _ c' => rerun_done c targets c') c.
Proof.
  intros Hwf Hnd Hsub. apply (wp_forM_prefix _ _ (rerun_done c)).
  - split; [done|]. intros id s Hs. by rewrite Hs.
  - intros done x rest c' Hl [Henv Hget]. rewrite Hl in Hnd, Hsub.
    assert (x ∉ done) as Hx.
    { apply NoDup_app in Hnd as (_ & Hd & _). intros Hin. by apply (Hd x Hin); left. }
    destruct (wf_stage c x) as (s & Hs & _); [done|apply Hsub; set_solver|].
    pose proof (Hget x s Hs) as Hs'. rewrite bool_decide_eq_false_2 in Hs' by done. simpl in Hs'.
    eapply wp_mono; [by apply (rerunTarget_wp x s)|]. simpl. intros _ c'' [He Hw].
    split; [congruence|]. intros id s0 Hs0.
    assert (in_now (tc_input c') = in_now (tc_input c)) as Hnow by (unfold tc_input; by rewrite Henv).
    rewrite Hnow in Hw. destruct (decide (id = x)) as [->|Hne].
    + rewrite Hs in Hs0. injection Hs0 as <-.
      rewrite bool_decide_eq_true_2 by set_solver. simpl. rewrite Hw.
      destruct (resettable s); [apply map_get_set_eq|done].
    + assert (map_get (tc_working c'') id = map_get (tc_working c') id) as ->
        by (rewrite Hw; destruct (resettable s); [by apply map_get_set_ne|done]).
      rewrite (Hget id s0 Hs0).
      by rewrite (bool_decide_ext (id ∈ done ++ [x]) (id ∈ done)) by set_solver.
Qed.

(** A manual rerun resets a stage and exactly its descendants: every stage of
    the graph that is the target or reachable from it, and is terminal or pending,
    becomes pending and selected in the next generation with no attempt; stages in
    scope that are still active, and all stages out of scope, keep their
    snapshot. *)
Theorem manual_rerun_resets (c : TickContext) (root : string) :
  wf c -> root ∈ stageIds (tc_graph c) -> ~ tc (edge_rel (tc_graph c)) root root ->
  exists c', processManualRerun root c = inr (tt, c') /\
    forall id s, map_get (tc_working c) id = Some s ->
      (in_scope (tc_graph c) root id -> resettable s = true ->
         map_get (tc_working c') id = Some (rerunStage (in_now (tc_input c)) s)) /\
      (~ in_scope (tc_graph c) root id \/ resettable s = false ->
         map_get (tc_working c') id = Some s).
Proof.
  intros Hwf Hroot Hac. destruct (wf_graph c Hwf) as [Hok Hg].
  destruct (ef_descendants _ _ _ (wf_env c Hwf) root) as (l & Hl & [_ Hnd] & Hdesc).
  { by rewrite <-Hg. }
  rewrite <-Hg in Hdesc. set (targets := sort_strings (root :: l)).
  assert (forall x, x ∈ targets <-> in_scope (tc_graph c) root x) as Hscope.
  { intros x. unfold targets, in_scope. by rewrite elem_of_sort_strings, elem_of_cons, Hdesc. }
  assert (wp (processManualRerun root) (fun _ c' => rerun_done c targets c') c) as Hwp.
  { unfold processManualRerun. wp_steps. destruct (wf_stage c root Hwf Hroot) as (s & -> & _).
    rewrite Hl. apply rerun_targets; [done| |].
    - unfold targets. rewrite (sort_key_perm id). apply NoDup_cons. by rewrite Hdesc.
    - intros x [->|Hx]%Hscope; [done|]. apply tc_r_inv in Hx as (y & e & He & _ & <-).
      by destruct (edge_ok_elim _ _ Hok He) as (_ & ? & _). }
  apply wp_elim in Hwp as ([] & c' & Hrun & _ & Hget). exists c'. split; [done|].
  intros id s Hs. rewrite (Hget id s Hs). split.
  - intros Hin Hr. by rewrite bool_decide_eq_true_2, Hr by by apply Hscope.
  - intros [Hout|Hr]; [|by rewrite Hr, andb_false_r].
    rewrite bool_decide_eq_false_2; [done|]. by rewrite Hscope.
Qed.

(** [buildDescendants] computes the transitive closure of the edges: on a graph
    whose edges join declared stages it returns, within its bound on pops, for each
    stage the sorted, duplicate-free list of the stages reachable from it by one or
    more edges. *)
Theorem buildDescendants_closure (g : PipelineGraph) :
  graph_ok g = true ->
  exists d, buildDescendants g = inr d /\
    forall id, id ∈ stageIds g -> exists l, map_get d id = Some l /\ NoDup l /\
      StronglySorted (not_after (key_lt Datatypes.id)) l /\
      forall x, x ∈ l <-> tc (edge_rel g) id x.
Proof.
  intros Hg. destruct (buildDescendants_spec g Hg) as (d & Hd & Hk & _).
  exists d. split; [done|]. intros id Hid. destruct (Hk id Hid) as (l & Hl & [? ?] & Hx). eauto.
Qed.

Lemma buildDescendants_closure_witness :
  buildDescendants diamond = inr
    [("build", ["lint"; "ship"; "test"]); ("lint", ["ship"]); ("ship", []); ("test", ["ship"])] /\
  exists d, buildDescendants diamond = inr d /\
    forall id, id ∈ stageIds diamond -> exists l, map_get d id = Some l /\ NoDup l /\
      StronglySorted (not_after (key_lt Datatypes.id)) l /\
      forall x, x ∈ l <-> tc (edge_rel diamond) id x.
Proof.
  split; [vm_compute; reflexivity|]. apply buildDescendants_closure. vm_compute. reflexivity.
Defined.

Lemma manual_rerun_resets_witness :
  exists c c', createTickContext diamond_finished false = inr c /\
    processManualRerun "lint" c = inr (tt, c') /\
    map_get (tc_working c') "lint" =
      Some (rerunStage (in_now diamond_finished) (snapshot "lint" succeeded 1 None)) /\
    map_get (tc_working c') "build" = Some (snapshot "build" succeeded 1 None).
Proof.
  destruct (createTickContext_ok diamond_finished false) as (c & Hc & Hi);
    [vm_compute; reflexivity|].
  destruct (initial_context_wf _ _ _ (eq_refl : input_ok diamond_finished = true) Hi)
    as (Hwf & Hin & Hg & _).
  destruct (manual_rerun_resets c "lint") as (c' & Hrun & Hall); [done|..].
  - rewrite Hg. apply (list_elem_of_fmap_2 ps_id (pg_stages diamond) (plain_stage "lint")).
    right. left.
  - rewrite Hg. apply (acyclic_rank diamond diamond_rank). vm_compute. reflexivity.
  - exists c, c'. split; [done|]. split; [done|]. rewrite (ic_working _ _ _ Hi), Hin, Hg in Hall.
    split.
    + apply (Hall "lint" (snapshot "lint" succeeded 1 None)); [vm_compute; reflexivity| |done].
      by left.
    + apply (Hall "build" (snapshot "build" succeeded 1 None)); [vm_compute; reflexivity|].
      left. intros [?|Hr]; [done|].
      assert (forall x, tc (edge_rel diamond) x "build" -> False) as Hno; [|by apply (Hno "lint")].
      intros x Hx%tc_r_inv. destruct Hx as (y & e & He & _ & Hto). vm_compute in He.
      repeat (apply elem_of_cons in He as [->|He]; [discriminate Hto|]). by apply elem_of_nil in He.
Defined.

(** ** Verdicts of stopped runs

    Two concrete ticks in which the run was stopped and the verdict does not say
    so. *)

(** [build] has succeeded and nothing else has run when the deadline passes. *)
Definition expired_diamond : SchedulerInput :=
  let i := plain_input diamond [snapshot "build" succeeded 1 None] [] in
  {| in_schemaVersion := in_schemaVersion i; in_runId := in_runId i;
     in_pipelineId := in_pipelineId i; in_graphRevision := in_graphRevision i;
     in_scheduleRevision := in_scheduleRevision i; in_graph := in_graph i; in_now := in_now i;
     in_deadlineAt := Some (in_now i); in_stages := in_stages i;
     in_observations := in_observations i; in_canonicalState := in_canonicalState i;
     in_pendingEvaluatorEdgeKeys := in_pendingEvaluatorEdgeKeys i;
     in_evaluatorDecisions := in_evaluatorDecisions i; in_recoveryState := in_recoveryState i;
     in_effectiveLimits := in_effectiveLimits i; in_executionMode := in_executionMode i |}.

(** A run stopped by its deadline can be reported as succeeded: with one stage
    done and the three others cancelled by the deadline, [computeTerminal] answers
    [succeeded] with reason [graph_complete] (only [cancelRequested], not
    [deadlineExceeded], selects the cancelled outcome). *)
Theorem deadline_reported_as_success :
  map ss_state (plan_stagePatches (planOf expired_diamond)) =
    [succeeded; cancelled; cancelled; cancelled] /\
  map tr_reason (plan_transitions (planOf expired_diamond)) =
    [deadline_exceeded; deadline_exceeded; deadline_exceeded] /\
  plan_terminal (planOf expired_diamond) =
    Some {| te_outcome := out_succeeded; te_reason := "graph_complete";
            te_blockedStageId := None |}.
Proof. vm_compute. split_and!; reflexivity. Qed.

(** The tick after [diamond_cancelled]: the running stage settles. *)
Definition diamond_settled : SchedulerInput :=
  plain_input diamond (plan_stagePatches (planOf diamond_cancelled))
    [observe "o2" ob_cancellation_settled (Some "test")].

(** A cancelled run can be reported as succeeded: [cancelRequested] lives for
    the tick that consumes the observation, so when the last active stage settles
    in a later tick, after an earlier stage had succeeded, the verdict is
    [succeeded] although every other stage was cancelled. *)
Theorem cancellation_reported_as_success :
  plan_terminal (planOf diamond_cancelled) = None /\
  map ss_state (plan_stagePatches (planOf diamond_settled)) =
    [succeeded; cancelled; cancelled; cancelled] /\
  plan_terminal (planOf diamond_settled) =
    Some {| te_outcome := out_succeeded; te_reason := "graph_complete";
            te_blockedStageId := None |}.
Proof. vm_compute. split_and!; reflexivity. Qed.
