(* ===== verification/PipelineProps.v ===== *)
(** * From a document to a running pipeline

    The reader's acceptance and what the scheduler needs of a graph: a graph
    that [parsePipelineDocument] returns is one on which ticks succeed and do
    not stall. *)

From S2P Require Import Prelude Ids Json Evaluate ExprLex ExprParse Recovery Graph CanonicalJson JsonProps Report GraphRules GraphWalks GraphValid Normalize NormalizeProps DocumentProps Transitions Tick TickGraph TickRun TickRelease TickSteps TickProps TickLive.

(** ** Acceptance *)

Lemma hasError_perm ds ds' : ds ≡ₚ ds' -> hasErrorDiagnostic ds = hasErrorDiagnostic ds'.
Proof.
  intros Hp. unfold hasErrorDiagnostic. apply eq_true_iff_eq. rewrite !existsb_exists.
  setoid_rewrite <-list_elem_of_In. by setoid_rewrite Hp.
Qed.

Lemma hasError_app ds ds' :
  hasErrorDiagnostic (ds ++ ds') = hasErrorDiagnostic ds || hasErrorDiagnostic ds'.
Proof. apply existsb_app. Qed.

Lemma hasError_collect ds : hasErrorDiagnostic (collect ds) = hasErrorDiagnostic ds.
Proof. apply hasError_perm. unfold collect, sortPipelineDiagnostics. apply sort_by_perm. Qed.

(** The outcome of reading a document, by what normalizing and validating it
    report. *)
Lemma parse_spec r known d inherited :
  exists ds accepted,
    parseLoadedDocument r known d inherited =
      Some (if accepted : bool then ParseOk (document_graph d) ds else ParseFailed ds) /\
    (accepted = true -> hasErrorDiagnostic inherited = false /\ document_compiles d /\
       graph_valid known (document_graph d)) /\
    (plain_ids (document_graph d) = true -> hasErrorDiagnostic inherited = false ->
       document_compiles d -> graph_valid known (document_graph d) -> accepted = true).
Proof.
  destruct (normalize_spec r d) as (n & ds & Hn & Hg & _ & He & Hds).
  destruct (validatePipelineGraph_spec r n known) as (vs & Hv & Hve & Hvalid & Hsilent).
  unfold parseLoadedDocument. rewrite Hn, Hv, Hg in *.
  eexists _, (negb (hasErrorDiagnostic (collect (inherited ++ ds ++ vs)))).
  split; [by destruct (hasErrorDiagnostic _)|].
  rewrite hasError_collect, !hasError_app, !negb_orb, !andb_true_iff, !negb_true_iff.
  rewrite (errors_silent ds He), (errors_silent vs Hve). split; naive_solver.
Qed.

(** Reading a document always ends, and accepts it exactly when the reader
    brought no error, every condition compiles and the graph is valid; what is
    returned is the document's graph.  The ids are assumed to hold no space. *)
Theorem parse_decides r known d inherited :
  plain_ids (document_graph d) = true ->
  exists ds,
    ((hasErrorDiagnostic inherited = false /\ document_compiles d /\
        graph_valid known (document_graph d)) /\
     parseLoadedDocument r known d inherited = Some (ParseOk (document_graph d) ds)) \/
    (~ (hasErrorDiagnostic inherited = false /\ document_compiles d /\
        graph_valid known (document_graph d)) /\
     parseLoadedDocument r known d inherited = Some (ParseFailed ds)).
Proof.
  intros Hp. destruct (parse_spec r known d inherited) as (ds & [] & E & H1 & H2); exists ds.
  - left. split; [by apply H1|done].
  - right. split; [|done]. intros (? & ? & ?). by discriminate H2.
Qed.

(** ** Scheduling an accepted graph *)

Lemma document_edges_ok d e :
  e ∈ pg_edges (document_graph d) -> condition_ok (pe_condition e) = true.
Proof.
  intros (x & -> & Hx)%list_elem_of_fmap. apply kept_located, located_elem, document_edge_compiled in Hx.
  unfold condition_ok. destruct (pe_condition (le_edge x)) as [[c|]|] eqn:E; [|done..].
  by destruct (Hx _ E).
Qed.

Lemma accepted_graph_ok known d :
  graph_valid known (document_graph d) -> graph_ok (document_graph d) = true.
Proof.
  intros Hv. unfold graph_ok. apply andb_true_iff. split.
  - pose proof (gv_nonempty _ _ Hv) as H. by destruct (pg_stages _).
  - apply forallb_forall. intros e He%list_elem_of_In. unfold edge_ok.
    destruct (gv_endpoints _ _ Hv e He) as [Hf Ht].
    rewrite !andb_true_iff, !set_has_true. split; [done|by apply (document_edges_ok d)].
Qed.

(** C4: A pipeline that the reader accepts can be scheduled: its graph is valid,
    every tick over it whose stage snapshots name its stages returns a plan, and
    with a positive concurrency limit if there is one, outside cancellation and
    deadline, a plan without a verdict leaves a live stage, an evaluator that has
    been asked, or, when the input already had a stage that was deselected without
    being cancelled, such a stage left pending or ready. *)
Theorem accepted_document_runs `{Sha256} r known d inherited g ds input :
  parseLoadedDocument r known d inherited = Some (ParseOk g ds) ->
  in_graph input = g -> (forall s, s ∈ in_stages input -> ss_stageId s ∈ stageIds g) ->
  graph_valid known g /\
  exists plan, tickScheduler input = inr plan /\
    ((forall cap, concurrency_limit input = Some cap -> (1 <= cap)%Z) ->
     ~ cancel_observed input -> deadline_passed input = false -> plan_terminal plan = None ->
     (exists s, s ∈ plan_stagePatches plan /\ alive s = true) \/
     (exists e, awaits_evaluator input plan e) \/
     (deselected_open input /\ exists s, s ∈ plan_stagePatches plan /\ left_out s = true)).
Proof.
  intros Hparse Hg Hst.
  destruct (parse_spec r known d inherited) as (ds' & [] & E & H1 & _); [|congruence].
  rewrite E in Hparse. injection Hparse as Hd _. destruct (H1 eq_refl) as (_ & _ & Hv).
  rewrite Hd in Hv. split; [done|].
  assert (input_ok input = true) as Hok.
  { unfold input_ok. rewrite Hg, <-Hd, (accepted_graph_ok known), Hd by (by rewrite Hd).
    apply forallb_forall. intros s Hs%list_elem_of_In. by apply set_has_true, Hst. }
  destruct (tickScheduler_planned input Hok) as (plan & _ & _ & _ & Hp & _).
  exists plan. split; [done|]. apply plan_never_stalls; [done..|]. rewrite Hg. apply Hv.
Qed.

Definition plain_reporter : Reporter :=
  {| rp_sourcePath := None; rp_resolvePosition := fun _ => None |}.

Lemma parse_decides_witness :
  exists ds,
    ((hasErrorDiagnostic [] = false /\ document_compiles sample_needs /\
        graph_valid None (document_graph sample_needs)) /\
     parseLoadedDocument plain_reporter None sample_needs [] =
       Some (ParseOk (document_graph sample_needs) ds)) \/
    (~ (hasErrorDiagnostic [] = false /\ document_compiles sample_needs /\
        graph_valid None (document_graph sample_needs)) /\
     parseLoadedDocument plain_reporter None sample_needs [] = Some (ParseFailed ds)).
Proof. apply (parse_decides plain_reporter None sample_needs []). vm_compute. reflexivity. Defined.

Lemma accepted_document_runs_witness :
  graph_valid None (document_graph sample_needs) /\
  exists plan, tickScheduler (plain_input (document_graph sample_needs)
    [snapshot "plan" succeeded 1 None] []) = inr plan.
Proof.
  destruct (accepted_document_runs plain_reporter None sample_needs []
    (document_graph sample_needs) []
    (plain_input (document_graph sample_needs) [snapshot "plan" succeeded 1 None] []))
    as (Hv & plan & Hp & _).
  - vm_compute. reflexivity.
  - reflexivity.
  - intros s ->%list_elem_of_singleton. apply set_has_true. vm_compute. reflexivity.
  - split; [done|by exists plan].
Defined.

(** ** Ids with spaces *)

(** Two unrelated pairs of stages. *)
Definition two_pairs (a b c d : string) : PipelineDocument :=
  sample_document
    [ sample_stage a [] [] [] []; sample_stage b [a] [] [] [];
      sample_stage c [] [] [] []; sample_stage d [c] [] [] [] ] [].

(** The rule for duplicate edges joins the ids of an edge with a space: the
    document with the edges from [a b] to [c] and from [a] to [b c] is
    rejected, with a message about an edge from [a] to [b] that it does not
    have, while the same document with underscores in its ids is accepted. *)
Theorem spaced_ids_rejected :
  (exists d, parseLoadedDocument plain_reporter None (two_pairs "a b" "c" "a" "b c") [] =
     Some (ParseFailed [d]) /\
     pd_code d = "pipeline.duplicate-edge" /\
     pd_message d = quoted "a" +:+ " leads to " +:+ quoted "b" +:+
       " more than once, under different conditions.") /\
  parseLoadedDocument plain_reporter None (two_pairs "a_b" "c" "a" "b_c") [] =
    Some (ParseOk (document_graph (two_pairs "a_b" "c" "a" "b_c")) []).
Proof.
  split; [eexists; split; [vm_compute; reflexivity|vm_compute; done]|vm_compute; reflexivity].
Qed.
