(* ===== verification/StateJson.v ===== *)
(** * JSON in the state store

    [packages/state/src/json.ts]: [canonicalize], [stringifyCanonical] and
    [parseJsonValue], with the language's [JSON.stringify] and [JSON.parse]. *)

From Stdlib Require Import Ascii SpecFloat.
From S2P Require Import Prelude Ids Json Recovery CanonicalJson JsonProps.

(** ** Property order

    The own properties of an object are enumerated with the array indices
    first, in ascending order, and the other keys in the order they were
    created.  [JObject] lists the fields in that order. *)

Fixpoint all_digits (s : string) : bool :=
  match s with EmptyString => true | String c rest => is_digit c && all_digits rest end.

Fixpoint index_value (acc : N) (s : string) : N :=
  match s with
  | EmptyString => acc
  | String c rest => index_value (acc * 10 + digit_value c)%N rest
  end.

(** A canonical numeral below [2 ^ 32 - 1]. *)
Definition is_index (key : string) : bool :=
  match key with
  | EmptyString => false
  | String c rest =>
      all_digits key && (bool_decide (c <> "0"%char) || str_eqb rest "") &&
      (index_value 0 key <? 4294967295)%N
  end.

Definition index_lt {V} (a b : string * V) : bool :=
  (index_value 0 (fst a) <? index_value 0 (fst b))%N.

Definition own_order {V} (fields : list (string * V)) : list (string * V) :=
  sort_by index_lt (List.filter (fun f => is_index (fst f)) fields) ++
  List.filter (fun f => negb (is_index (fst f))) fields.

(** ** [canonicalize] *)

(** [values.map(f)] where [f] may throw. *)
Section Traverse.
Context {A B : Type} (f : A -> option B).

Fixpoint traverse (l : list A) : option (list B) :=
  match l with
  | [] => Some []
  | x :: l' =>
      match f x, traverse l' with Some y, Some ys => Some (y :: ys) | _, _ => None end
  end.

Lemma traverse_Forall2 l k : traverse l = Some k <-> Forall2 (fun x y => f x = Some y) l k.
Proof.
  revert k. induction l as [|x l IH]; intros k; simpl.
  - split; [by intros [= <-]|]. by inversion 1.
  - destruct (f x) as [y|] eqn:E; [|split; [done|]; inversion 1; congruence].
    destruct (traverse l) as [ys|] eqn:T.
    + split; [intros [= <-]; constructor; [done|]; by apply IH|].
      inversion_clear 1 as [|? ? ? k' Hy Hk]. apply IH in Hk. congruence.
    + split; [done|]. inversion_clear 1 as [|? ? ? k' Hy Hk]. apply IH in Hk. congruence.
Qed.
End Traverse.

Definition MAX_DEPTH : nat := 64.

(** A finite number, with [-0] as [0]. *)
Definition canonical_number (n : number) : option number :=
  match n with
  | S754_zero _ => Some (S754_zero false)
  | S754_finite _ _ _ => Some n
  | _ => None
  end.

(** [None] is the [StateStoreError] of a value that is nested too deeply or
    holds a number that is not finite. *)
Fixpoint canonicalize (depth : nat) (value : JsonValue) : option JsonValue :=
  if (MAX_DEPTH <=? depth)%nat then None else
  match value with
  | JScalar (SNumber n) => (fun m => JScalar (SNumber m)) <$> canonical_number n
  | JScalar s => Some (JScalar s)
  | JArray items => JArray <$> traverse (canonicalize (S depth)) items
  | JObject fields =>
      (fun fs => JObject (own_order (sort_key fst fs))) <$>
      traverse (fun f => pair (fst f) <$> canonicalize (S depth) (snd f)) fields
  end.

(** ** [JSON.stringify] *)

Definition finite_text (s : JsonScalar) : string :=
  match s with
  | SNumber n => if num_isFinite n then number_text n else "null"
  | _ => scalar_text s
  end.

Fixpoint json_stringify (value : JsonValue) : string :=
  match value with
  | JScalar s => finite_text s
  | JArray items => "[" +:+ js_join "," (map json_stringify items) +:+ "]"
  | JObject fields =>
      "{" +:+ js_join "," (map (fun f => json_string (fst f) +:+ ":" +:+ json_stringify (snd f)) fields)
          +:+ "}"
  end.

Definition stringifyCanonical (value : JsonValue) : option string :=
  json_stringify <$> canonicalize 0 value.

(** ** [JSON.parse]

    On the texts of this model, whose characters are the code units below 256:
    an escape of a larger code unit is not represented. *)

Definition is_space (c : ascii) : bool := bool_decide (N_of_ascii c ∈ [32; 9; 10; 13]%N).

Fixpoint skip_space (text : string) : string :=
  match text with
  | String c rest => if is_space c then skip_space rest else text
  | EmptyString => text
  end.

Definition hex_value (c : ascii) : option N :=
  let n := N_of_ascii c in
  if (48 <=? n)%N && (n <=? 57)%N then Some (n - 48)%N
  else if (97 <=? n)%N && (n <=? 102)%N then Some (n - 87)%N
  else if (65 <=? n)%N && (n <=? 70)%N then Some (n - 55)%N
  else None.

(** The character a one-letter escape stands for. *)
Definition escape_value (c : ascii) : option ascii :=
  let n := N_of_ascii c in
  if (n =? 34)%N || (n =? 92)%N || (n =? 47)%N then Some c
  else if (n =? 98)%N then Some (ascii_of_N 8)
  else if (n =? 102)%N then Some (ascii_of_N 12)
  else if (n =? 110)%N then Some (ascii_of_N 10)
  else if (n =? 114)%N then Some (ascii_of_N 13)
  else if (n =? 116)%N then Some (ascii_of_N 9)
  else None.

(** The rest of a string after its opening quote, up to the closing one. *)
Fixpoint parse_chars (text : string) : option (string * string) :=
  match text with
  | EmptyString => None
  | String c rest =>
      if (N_of_ascii c =? 34)%N then Some ("", rest)
      else if (N_of_ascii c <? 32)%N then None
      else if (N_of_ascii c =? 92)%N then
        match rest with
        | String e rest' =>
            if (N_of_ascii e =? 117)%N then
              match rest' with
              | String z (String z' (String h (String l rest''))) =>
                  if bool_decide (z = "0"%char) && bool_decide (z' = "0"%char) then
                    match hex_value h, hex_value l, parse_chars rest'' with
                    | Some a, Some b, Some (s, after) =>
                        Some (String (ascii_of_N (a * 16 + b)%N) s, after)
                    | _, _, _ => None
                    end
                  else None
              | _ => None
              end
            else
              match escape_value e, parse_chars rest' with
              | Some d, Some (s, after) => Some (String d s, after)
              | _, _ => None
              end
        | EmptyString => None
        end
      else
        match parse_chars rest with
        | Some (s, after) => Some (String c s, after)
        | None => None
        end
  end.

Definition numeral_char (c : ascii) : bool :=
  is_digit c || bool_decide (c ∈ ["-"; "+"; "."; "e"; "E"]%char).

Fixpoint span_chars (p : ascii -> bool) (text : string) : string * string :=
  match text with
  | String c rest =>
      if p c then let '(s, after) := span_chars p rest in (String c s, after) else ("", text)
  | EmptyString => ("", text)
  end.

(** [digits] as a whole part: no leading zero. *)
Definition whole_part (digits : string) : bool :=
  match digits with
  | EmptyString => false
  | String c rest => bool_decide (c <> "0"%char) || str_eqb rest ""
  end.

Definition exponent_part (text : string) : bool :=
  match text with
  | EmptyString => true
  | String e rest =>
      bool_decide (e ∈ ["e"; "E"]%char) &&
      match rest with
      | String c digits =>
          if bool_decide (c ∈ ["+"; "-"]%char) then negb (str_eqb digits "") && all_digits digits
          else all_digits rest
      | EmptyString => false
      end
  end.

(** The grammar of a JSON number. *)
Definition json_numeral (text : string) : bool :=
  let body := match text with
    | String c rest => if bool_decide (c = "-"%char) then rest else text
    | EmptyString => text
    end in
  let '(whole, after) := span_chars is_digit body in
  whole_part whole &&
  match after with
  | String c rest =>
      if bool_decide (c = "."%char) then
        let '(fraction, after') := span_chars is_digit rest in
        negb (str_eqb fraction "") && exponent_part after'
      else exponent_part after
  | EmptyString => true
  end.

(** The value of a JSON number; [E] is [e]. *)
Fixpoint lower_exponent (text : string) : string :=
  match text with
  | EmptyString => ""
  | String c rest => String (if bool_decide (c = "E"%char) then "e"%char else c) (lower_exponent rest)
  end.

Definition parse_number (text : string) : option (JsonValue * string) :=
  let '(numeral, after) := span_chars numeral_char text in
  if json_numeral numeral
  then (fun n => (JScalar (SNumber n), after)) <$> readNumber (lower_exponent numeral)
  else None.

Definition parse_literal (literal : string) (value : JsonScalar) (text : string)
    : option (JsonValue * string) :=
  if String.prefix literal text
  then Some (JScalar value, String.substring (String.length literal)
               (String.length text - String.length literal) text)
  else None.

(** A field added to the object read so far: the last of two equal keys wins. *)
Definition set_field (fields : list (string * JsonValue)) (key : string) (value : JsonValue)
    : list (string * JsonValue) := map_set fields key value.

Fixpoint parse_value (fuel : nat) (text : string) : option (JsonValue * string) :=
  match fuel with
  | O => None
  | S fuel' =>
      match skip_space text with
      | EmptyString => None
      | String c rest =>
          if (N_of_ascii c =? 34)%N then
            match parse_chars rest with
            | Some (s, after) => Some (JScalar (SString s), after)
            | None => None
            end
          else if bool_decide (c = "["%char) then
            match skip_space rest with
            | String d after =>
                if bool_decide (d = "]"%char) then Some (JArray [], after)
                else parse_items fuel' [] rest
            | EmptyString => None
            end
          else if bool_decide (c = "{"%char) then
            match skip_space rest with
            | String d after =>
                if bool_decide (d = "}"%char) then Some (JObject [], after)
                else parse_fields fuel' [] rest
            | EmptyString => None
            end
          else if bool_decide (c = "t"%char) then parse_literal "true" (SBoolean true) (String c rest)
          else if bool_decide (c = "f"%char) then parse_literal "false" (SBoolean false) (String c rest)
          else if bool_decide (c = "n"%char) then parse_literal "null" SNull (String c rest)
          else parse_number (String c rest)
      end
  end
with parse_items (fuel : nat) (items : list JsonValue) (text : string)
    : option (JsonValue * string) :=
  match fuel with
  | O => None
  | S fuel' =>
      match parse_value fuel' text with
      | None => None
      | Some (v, after) =>
          match skip_space after with
          | String c rest =>
              if bool_decide (c = ","%char) then parse_items fuel' (items ++ [v]) rest
              else if bool_decide (c = "]"%char) then Some (JArray (items ++ [v]), rest)
              else None
          | EmptyString => None
          end
      end
  end
with parse_fields (fuel : nat) (fields : list (string * JsonValue)) (text : string)
    : option (JsonValue * string) :=
  match fuel with
  | O => None
  | S fuel' =>
      match skip_space text with
      | String q rest =>
          if (N_of_ascii q =? 34)%N then
            match parse_chars rest with
            | None => None
            | Some (key, after) =>
                match skip_space after with
                | String c rest' =>
                    if bool_decide (c = ":"%char) then
                      match parse_value fuel' rest' with
                      | None => None
                      | Some (v, after') =>
                          match skip_space after' with
                          | String d rest'' =>
                              if bool_decide (d = ","%char)
                              then parse_fields fuel' (set_field fields key v) rest''
                              else if bool_decide (d = "}"%char)
                              then Some (JObject (own_order (set_field fields key v)), rest'')
                              else None
                          | EmptyString => None
                          end
                      end
                    else None
                | EmptyString => None
                end
            end
          else None
      | EmptyString => None
      end
  end.

(** [JSON.parse]; [None] is its [SyntaxError].  Every step consumes text, so
    twice its length bounds the recursion. *)
Definition json_parse (text : string) : option JsonValue :=
  match parse_value (S (2 * String.length text)) text with
  | Some (v, after) => if str_eqb (skip_space after) "" then Some v else None
  | None => None
  end.

(** [assertJsonValue]: the depth bound. *)
Fixpoint assertJsonValue (depth : nat) (value : JsonValue) : option JsonValue :=
  if (MAX_DEPTH <=? depth)%nat then None else
  match value with
  | JScalar s => Some (JScalar s)
  | JArray items => JArray <$> traverse (assertJsonValue (S depth)) items
  | JObject fields =>
      (fun fs => JObject fs) <$>
      traverse (fun f => pair (fst f) <$> assertJsonValue (S depth) (snd f)) fields
  end.

Definition parseJsonValue (text : string) : option JsonValue :=
  json_parse text ≫= assertJsonValue 0.

(** UTF-8 encodes the code units below 128 in one byte and those below 256 in
    two. *)
Fixpoint utf8ByteLength (text : string) : Z :=
  match text with
  | EmptyString => 0
  | String c rest => (if (N_of_ascii c <? 128)%N then 1 else 2) + utf8ByteLength rest
  end%Z.
