(* ===== verification/StateJsonProps.v ===== *)
(** * Canonical payloads survive the journal

    What is read back from the text of a canonical value is the value. *)

From Stdlib Require Import Ascii SpecFloat.
From S2P Require Import Prelude Ids Json Recovery SignatureProps CanonicalJson JsonProps StateJson.

(** ** Property order *)

Lemma sort_by_last {A} (lt : A -> A -> bool) x l :
  (forall y, y ∈ l -> lt x y = false) -> insert_by lt x l = l ++ [x].
Proof.
  induction l as [|y l IH]; intros H; simpl; [done|]. rewrite (H y) by (by left).
  f_equal. apply IH. intros z Hz. apply H. by right.
Qed.

Lemma sort_by_id {A} (lt : A -> A -> bool) l :
  StronglySorted (not_after lt) l -> sort_by lt l = l.
Proof.
  intros Hs. unfold sort_by.
  enough (forall acc, (forall x y, x ∈ acc -> y ∈ l -> lt y x = false) ->
    fold_left (fun acc x => insert_by lt x acc) l acc = acc ++ l) as H.
  { apply (H []). by intros x y ?%elem_of_nil. }
  induction Hs as [|x l Hl IH Hx]; intros acc Hacc; simpl; [by rewrite app_nil_r|].
  rewrite sort_by_last by (intros y Hy; apply Hacc; [done|by left]).
  rewrite IH; [by rewrite <-app_assoc|]. rewrite Forall_forall in Hx.
  intros y z [Hy| ->%list_elem_of_singleton]%elem_of_app Hz; [|by apply Hx].
  apply Hacc; [done|by right].
Qed.

Lemma index_lt_asym {V} (a b : string * V) : index_lt a b = true -> index_lt b a = false.
Proof. unfold index_lt. rewrite N.ltb_lt, N.ltb_ge. lia. Qed.

Lemma index_lt_ntrans {V} (a b c : string * V) :
  index_lt b a = false -> index_lt c b = false -> index_lt c a = false.
Proof. unfold index_lt. rewrite !N.ltb_ge. lia. Qed.

Lemma own_order_perm {V} (fields : list (string * V)) : own_order fields ≡ₚ fields.
Proof.
  unfold own_order. rewrite sort_by_perm. induction fields as [|f fs IH]; simpl; [done|].
  destruct (is_index (fst f)); simpl; [by rewrite IH|].
  rewrite <-Permutation_middle. by rewrite IH.
Qed.

Lemma filter_all {A} (p : A -> bool) l : (forall x, x ∈ l -> p x = true) -> List.filter p l = l.
Proof.
  induction l as [|x l IH]; intros H; simpl; [done|]. rewrite (H x) by (by left).
  f_equal. apply IH. intros y Hy. apply H. by right.
Qed.

Lemma filter_none {A} (p : A -> bool) l : (forall x, x ∈ l -> p x = false) -> List.filter p l = [].
Proof.
  induction l as [|x l IH]; intros H; simpl; [done|]. rewrite (H x) by (by left).
  apply IH. intros y Hy. apply H. by right.
Qed.

(** The array indices of an object, and its other keys, in property order. *)
Lemma own_order_indices {V} (fields : list (string * V)) :
  List.filter (fun f => is_index (fst f)) (own_order fields) =
  sort_by index_lt (List.filter (fun f => is_index (fst f)) fields).
Proof.
  unfold own_order. rewrite List.filter_app, (filter_all _ (sort_by _ _)), (filter_none _ (List.filter _ _));
    [apply app_nil_r|..].
  - intros x Hx%list_elem_of_In. by apply filter_In in Hx as [_ Hx%negb_true_iff].
  - intros x Hx%elem_of_sort_by. by apply list_elem_of_In, filter_In in Hx as [_ Hx].
Qed.

Lemma own_order_names {V} (fields : list (string * V)) :
  List.filter (fun f => negb (is_index (fst f))) (own_order fields) =
  List.filter (fun f => negb (is_index (fst f))) fields.
Proof.
  unfold own_order. rewrite List.filter_app, (filter_none _ (sort_by _ _)), (filter_all _ (List.filter _ _)); [done|..].
  - intros x Hx%list_elem_of_In. by apply filter_In in Hx as [_ Hx].
  - intros x Hx%elem_of_sort_by. apply list_elem_of_In, filter_In in Hx as [_ Hx].
    by rewrite Hx.
Qed.

Lemma index_sorted {V} (fields : list (string * V)) :
  sort_by index_lt (sort_by index_lt fields) = sort_by index_lt fields.
Proof. apply sort_by_id, sort_by_sorted; [apply index_lt_asym|apply index_lt_ntrans]. Qed.

Lemma own_order_idem {V} (fields : list (string * V)) : own_order (own_order fields) = own_order fields.
Proof.
  unfold own_order at 1. by rewrite own_order_indices, own_order_names, index_sorted.
Qed.

(** ** Canonical values *)

(** The text of the number is a JSON number that reads back as the number. *)
Definition num_reads (n : number) : bool :=
  num_prints n && json_numeral (number_text n) && num_isFinite n.

Fixpoint json_readable (value : JsonValue) : bool :=
  match value with
  | JScalar (SNumber n) => num_reads n
  | JScalar _ => true
  | JArray items => forallb json_readable items
  | JObject fields =>
      bool_decide (NoDup (map fst fields)) && forallb (fun f => json_readable (snd f)) fields
  end.

(** Every object enumerates its fields in property order. *)
Fixpoint json_ordered (value : JsonValue) : Prop :=
  match value with
  | JScalar _ => True
  | JArray items => foldr (fun v P => json_ordered v /\ P) True items
  | JObject fields =>
      own_order fields = fields /\ foldr (fun f P => json_ordered (snd f) /\ P) True fields
  end.

Lemma foldr_and {A} (P : A -> Prop) l :
  foldr (fun x Q => P x /\ Q) True l <-> forall x, x ∈ l -> P x.
Proof.
  induction l as [|x l IH]; simpl.
  - split; [by intros _ x ?%elem_of_nil|done].
  - rewrite IH. split; [by intros [H1 H2] y [->|Hy]%elem_of_cons; auto|].
    intros H. split; [apply H; by left|]. intros y Hy. apply H. by right.
Qed.

Lemma Forall2_elem_r {A B} (R : A -> B -> Prop) l k y :
  Forall2 R l k -> y ∈ k -> exists x, x ∈ l /\ R x y.
Proof.
  induction 1 as [|x z l k Hxz _ IH]; [by intros ?%elem_of_nil|].
  intros [->|Hy]%elem_of_cons; [by exists x; split; [left|]|].
  destruct (IH Hy) as (w & Hw & HR). exists w. by split; [right|].
Qed.

Lemma canonicalize_ordered v : forall depth c, canonicalize depth v = Some c -> json_ordered c.
Proof.
  induction v as [s|items IH|fields IH] using json_ind'; intros depth c; cbn [canonicalize];
    destruct (MAX_DEPTH <=? depth)%nat; try done.
  - destruct s as [|n| |]; try (by intros [= <-]).
    by intros (m & _ & ->)%fmap_Some.
  - intros (l & Hl%traverse_Forall2 & ->)%fmap_Some. simpl. apply foldr_and. intros y Hy.
    destruct (Forall2_elem_r _ _ _ _ Hl Hy) as (x & Hx & E). rewrite Forall_forall in IH.
    by eapply IH.
  - intros (l & Hl%traverse_Forall2 & ->)%fmap_Some. simpl. split; [apply own_order_idem|].
    apply foldr_and. intros y. rewrite own_order_perm, elem_of_sort_key. intros Hy.
    destruct (Forall2_elem_r _ _ _ _ Hl Hy) as (x & Hx & (z & E & ->)%fmap_Some).
    rewrite Forall_forall in IH. simpl. by eapply IH.
Qed.

(** ** Reading strings *)

Definition cons_char (c : ascii) (o : option (string * string)) : option (string * string) :=
  match o with Some (s, after) => Some (String c s, after) | None => None end.

Lemma parse_chars_char c rest :
  parse_chars (json_char c +:+ rest) = cons_char c (parse_chars rest).
Proof. destruct c as [[] [] [] [] [] [] [] []]; reflexivity. Qed.

Lemma parse_chars_json s u : parse_chars (json_chars s +:+ quote +:+ u) = Some (s, u).
Proof.
  induction s as [|c s IH]; [done|]. cbn [json_chars].
  by rewrite str_app_assoc, parse_chars_char, IH.
Qed.

(** ** Reading numbers *)

Lemma span_chars_app p s u :
  (forall c, c ∈ String.list_ascii_of_string s -> p c = true) ->
  match u with String c _ => p c = false | EmptyString => True end ->
  span_chars p (s +:+ u) = (s, u).
Proof.
  intros Hs Hu. induction s as [|c s IH].
  - rewrite str_app_nil. destruct u as [|c u]; [done|]. simpl. by rewrite Hu.
  - rewrite str_app_cons. simpl. rewrite Hs by (by left).
    rewrite IH; [done|]. intros d Hd. apply Hs. by right.
Qed.

Lemma numeric_chars s :
  numeric s = true -> forall c, c ∈ String.list_ascii_of_string s ->
    numeral_char c = true /\ c <> "E"%char.
Proof.
  induction s as [|d s IH]; simpl; [by intros _ c ?%elem_of_nil|].
  intros [H1 H2]%andb_prop c [->|Hc]%elem_of_cons; [|by apply IH].
  unfold numeric_start, numeral_char in *.
  apply orb_prop in H1 as [[H1|H1%bool_decide_eq_true]%orb_prop|H1%bool_decide_eq_true].
  - rewrite H1. split; [done|]. intros ->. by vm_compute in H1.
  - subst. done.
  - rewrite !elem_of_cons, elem_of_nil in H1. destruct H1 as [->|[->|[->|[]]]]; done.
Qed.

Lemma lower_exponent_id s :
  (forall c, c ∈ String.list_ascii_of_string s -> c <> "E"%char) -> lower_exponent s = s.
Proof.
  induction s as [|c s IH]; simpl; [done|]. intros H.
  rewrite bool_decide_eq_false_2 by (apply H; by left). f_equal. apply IH.
  intros d Hd. apply H. by right.
Qed.

(** What may follow a value in compact text: nothing, or the end of the value
    it stands in. *)
Definition closing (u : string) : Prop :=
  match u with
  | EmptyString => True
  | String c _ => c ∈ [","; "]"; "}"]%char
  end.

Lemma closing_plain u : closing u -> match u with String c _ => numeral_char c = false | _ => True end.
Proof.
  destruct u as [|c u]; [done|]. simpl. rewrite !elem_of_cons, elem_of_nil.
  intros [->|[->|[->|[]]]]; done.
Qed.

Lemma parse_number_text n u :
  num_reads n = true -> closing u ->
  parse_number (number_text n +:+ u) = Some (JScalar (SNumber n), u).
Proof.
  unfold num_reads. intros [[[Hr%bool_decide_eq_true Hn]%andb_prop Hj]%andb_prop _]%andb_prop Hu.
  destruct (numeral_start _ Hn) as (c & s & _ & _ & Hnum).
  pose proof (numeric_chars _ Hnum) as Hc. unfold parse_number.
  rewrite span_chars_app, Hj, lower_exponent_id, Hr;
    [done|intros d Hd; by apply Hc|intros d Hd; by apply Hc|by apply closing_plain].
Qed.

Lemma prefix_app s u : String.prefix s (s +:+ u) = true.
Proof.
  induction s as [|c s IH]; [by destruct u|]. rewrite str_app_cons. simpl.
  by destruct (Ascii.ascii_dec c c).
Qed.

Lemma substring_all u : String.substring 0 (String.length u) u = u.
Proof. induction u as [|c u IH]; simpl; [done|]. by rewrite IH. Qed.

Lemma substring_app s u :
  String.substring (String.length s) (String.length (s +:+ u) - String.length s) (s +:+ u) = u.
Proof.
  induction s as [|c s IH].
  - rewrite str_app_nil. simpl. rewrite Nat.sub_0_r. apply substring_all.
  - rewrite str_app_cons. exact IH.
Qed.

Lemma parse_literal_text s v u : parse_literal s v (s +:+ u) = Some (JScalar v, u).
Proof. unfold parse_literal. by rewrite prefix_app, substring_app. Qed.

(** ** Reading values *)

(** How much fuel a value takes. *)
Fixpoint cost (v : JsonValue) : nat :=
  match v with
  | JScalar _ => 1
  | JArray items => S (list_sum (map (fun x => S (cost x)) items))
  | JObject fields => S (list_sum (map (fun f => S (cost (snd f))) fields))
  end.

Definition reads (v : JsonValue) : Prop :=
  forall fuel u, (cost v <= fuel)%nat -> closing u ->
    parse_value fuel (json_stringify v +:+ u) = Some (v, u).

Lemma parse_scalar s : json_readable (JScalar s) = true -> reads (JScalar s).
Proof.
  intros Hs [|fuel] u Hf Hu; [simpl in Hf; lia|]. cbn [json_stringify].
  destruct s as [s|n|[|]|].
  - change (finite_text (SString s)) with (quote +:+ (json_chars s +:+ quote)).
    rewrite str_app_assoc, str_app_assoc.
    assert (forall rest, parse_value (S fuel) (quote +:+ rest) =
      match parse_chars rest with
      | Some (s, after) => Some (JScalar (SString s), after)
      | None => None
      end) as -> by reflexivity.
    by rewrite parse_chars_json.
  - assert (finite_text (SNumber n) = number_text n) as ->.
    { simpl in *. unfold num_reads in Hs. apply andb_prop in Hs as [_ Hs]. by rewrite Hs. }
    pose proof (parse_number_text n u Hs Hu) as Hp. simpl in Hs. unfold num_reads in Hs.
    apply andb_prop in Hs as [[[_ Hn]%andb_prop _]%andb_prop _].
    destruct (numeral_start _ Hn) as (c & t & E & Hc & _).
    rewrite E, str_app_cons in *. cbn [parse_value].
    assert (skip_space (String c (t +:+ u)) = String c (t +:+ u)) as ->.
    { simpl. destruct (is_space c) eqn:Hsp; [|done]. exfalso. clear -Hc Hsp.
      by destruct c as [[] [] [] [] [] [] [] []]. }
    cbv iota beta.
    assert ((N_of_ascii c =? 34)%N = false /\ c <> "["%char /\ c <> "{"%char /\ c <> "t"%char /\
      c <> "f"%char /\ c <> "n"%char) as (-> & H1 & H2 & H3 & H4 & H5).
    { clear -Hc. split_and!; try (by intros ->); by destruct c as [[] [] [] [] [] [] [] []]. }
    rewrite !bool_decide_eq_false_2 by done. exact Hp.
  - exact (parse_literal_text "true" (SBoolean true) u).
  - exact (parse_literal_text "false" (SBoolean false) u).
  - exact (parse_literal_text "null" SNull u).
Qed.

Lemma value_first v :
  json_readable v = true ->
  exists c t, json_stringify v = String c t /\ is_space c = false /\ c <> "]"%char.
Proof.
  destruct v as [s|items|fields]; intros H; [|by eexists _, _..].
  destruct s as [s|n|[|]|]; try (by eexists _, _).
  simpl in H. unfold num_reads in H. apply andb_prop in H as [[[_ Hn]%andb_prop _]%andb_prop Hf].
  cbn [json_stringify finite_text]. rewrite Hf.
  destruct (numeral_start _ Hn) as (c & t & E & Hc & _). exists c, t. split; [done|].
  clear -Hc. split; [by destruct c as [[] [] [] [] [] [] [] []]|by intros ->].
Qed.

Lemma join_cons_app sep x l :
  js_join sep (x :: l) = x +:+ match l with [] => "" | _ => sep +:+ js_join sep l end.
Proof. destruct l; simpl; [|done]. induction x as [|c x IH]; [done|]. rewrite str_app_cons. by rewrite <-IH. Qed.

Lemma str_app_nil_end s : s +:+ "" = s.
Proof. induction s as [|c s IH]; [done|]. rewrite str_app_cons. by rewrite IH. Qed.

Lemma closing_comma u : closing ("," +:+ u).
Proof. by left. Qed.

Lemma closing_bracket u : closing ("]" +:+ u).
Proof. right. by left. Qed.

Lemma closing_brace u : closing ("}" +:+ u).
Proof. right. right. by left. Qed.

Lemma parse_items_text items x acc fuel u :
  (forall y, y ∈ x :: items -> reads y) ->
  (list_sum (map (fun x => S (cost x)) (x :: items)) <= fuel)%nat ->
  parse_items fuel acc (js_join "," (map json_stringify (x :: items)) +:+ "]" +:+ u) =
  Some (JArray (acc ++ x :: items), u).
Proof.
  revert x acc fuel. induction items as [|y items IH]; intros x acc fuel Hr Hf;
    (destruct fuel as [|fuel]; [simpl in Hf; lia|]); cbn [parse_items].
  - cbn [map]. rewrite join_cons_app. cbv iota. rewrite str_app_nil_end.
    rewrite (Hr x); [|by left|simpl in Hf; lia|apply closing_bracket]. reflexivity.
  - rewrite map_cons, join_cons_app. cbn [map]. rewrite !str_app_assoc.
    rewrite (Hr x); [|by left|simpl in Hf; lia|apply closing_comma].
    change (skip_space ("," +:+ ?t)) with (String "," t).
    cbv iota beta. rewrite bool_decide_eq_true_2 by done.
    change (json_stringify y :: map json_stringify items) with (map json_stringify (y :: items)).
    rewrite IH; [by rewrite <-app_assoc| |simpl in Hf |- *; lia].
    intros z Hz. apply Hr. by right.
Qed.

Lemma reads_array items :
  forallb json_readable items = true -> (forall y, y ∈ items -> reads y) -> reads (JArray items).
Proof.
  intros Hok Hr [|fuel] u Hf Hu; [simpl in Hf; lia|]. cbn [json_stringify].
  rewrite !str_app_assoc. destruct items as [|x items]; [reflexivity|].
  assert (forall rest, parse_value (S fuel) ("[" +:+ rest) =
    match skip_space rest with
    | String d after =>
        if bool_decide (d = "]"%char) then Some (JArray [], after) else parse_items fuel [] rest
    | EmptyString => None
    end) as -> by reflexivity.
  destruct (value_first x) as (c & t & Ex & Hs & Hc).
  { rewrite forallb_forall in Hok. apply Hok. by left. }
  set (rest := js_join "," _ +:+ "]" +:+ u).
  assert (exists t', rest = String c t') as [t' Et].
  { unfold rest. cbn [map]. rewrite join_cons_app, Ex, !str_app_assoc, str_app_cons. by eexists. }
  assert (skip_space rest = String c t') as ->.
  { rewrite Et. simpl. by rewrite Hs. }
  rewrite bool_decide_eq_false_2 by done. unfold rest. apply parse_items_text; [done|].
  simpl in Hf |- *. lia.
Qed.

Definition field_text (f : string * JsonValue) : string :=
  json_string (fst f) +:+ ":" +:+ json_stringify (snd f).

Lemma parse_field fuel acc f rest :
  parse_fields (S fuel) acc (field_text f +:+ rest) =
  match parse_value fuel (json_stringify (snd f) +:+ rest) with
  | None => None
  | Some (v, after') =>
      match skip_space after' with
      | String d rest'' =>
          if bool_decide (d = ","%char) then parse_fields fuel (set_field acc (fst f) v) rest''
          else if bool_decide (d = "}"%char)
          then Some (JObject (own_order (set_field acc (fst f) v)), rest'')
          else None
      | EmptyString => None
      end
  end.
Proof.
  unfold field_text, json_string. rewrite !str_app_assoc.
  assert (forall text, parse_fields (S fuel) acc (quote +:+ text) =
    match parse_chars text with
    | None => None
    | Some (key, after) =>
        match skip_space after with
        | String c rest' =>
            if bool_decide (c = ":"%char) then
              match parse_value fuel rest' with
              | None => None
              | Some (v, after') =>
                  match skip_space after' with
                  | String d rest'' =>
                      if bool_decide (d = ","%char)
                      then parse_fields fuel (set_field acc key v) rest''
                      else if bool_decide (d = "}"%char)
                      then Some (JObject (own_order (set_field acc key v)), rest'')
                      else None
                  | EmptyString => None
                  end
              end
            else None
        | EmptyString => None
        end
    end) as -> by reflexivity.
  rewrite parse_chars_json. change (skip_space (":" +:+ ?t)) with (String ":" t).
  cbv iota beta. by rewrite bool_decide_eq_true_2.
Qed.

Lemma parse_fields_text fields f acc fuel u :
  (forall g, g ∈ f :: fields -> reads (snd g)) ->
  NoDup (map fst (acc ++ f :: fields)) ->
  (list_sum (map (fun f => S (cost (snd f))) (f :: fields)) <= fuel)%nat ->
  parse_fields fuel acc (js_join "," (map field_text (f :: fields)) +:+ "}" +:+ u) =
  Some (JObject (own_order (acc ++ f :: fields)), u).
Proof.
  revert f acc fuel. induction fields as [|g fields IH]; intros f acc fuel Hr Hnd Hf;
    (destruct fuel as [|fuel]; [simpl in Hf; lia|]);
    assert (set_field acc (fst f) (snd f) = acc ++ [f]) as Hset by
      (unfold set_field; rewrite map_set_out; [by destruct f|];
       rewrite map_app in Hnd; apply NoDup_app in Hnd as (_ & Hnd & _);
       intros Hin; apply (Hnd _ Hin); by left).
  - cbn [map]. rewrite join_cons_app. cbv iota. rewrite str_app_nil_end, parse_field.
    rewrite (Hr f); [|by left|simpl in Hf; lia|apply closing_brace]. cbv iota beta.
    change (skip_space ("}" +:+ ?t)) with (String "}" t). cbv iota beta.
    rewrite bool_decide_eq_false_2, bool_decide_eq_true_2 by done. by rewrite Hset.
  - rewrite map_cons, join_cons_app. cbn [map]. rewrite !str_app_assoc, parse_field.
    rewrite (Hr f); [|by left|simpl in Hf; lia|apply closing_comma].
    change (skip_space ("," +:+ ?t)) with (String "," t).
    cbv iota beta. rewrite bool_decide_eq_true_2 by done.
    change (field_text g :: map field_text fields) with (map field_text (g :: fields)).
    rewrite IH, Hset; [by rewrite <-app_assoc| | |simpl in Hf |- *; lia].
    + intros h Hh. apply Hr. by right.
    + rewrite Hset, <-app_assoc. exact Hnd.
Qed.

Lemma reads_object fields :
  NoDup (map fst fields) -> own_order fields = fields ->
  (forall f, f ∈ fields -> reads (snd f)) -> reads (JObject fields).
Proof.
  intros Hnd Ho Hr [|fuel] u Hf Hu; [simpl in Hf; lia|]. cbn [json_stringify].
  fold field_text. rewrite !str_app_assoc. destruct fields as [|f fields]; [reflexivity|].
  assert (forall rest, parse_value (S fuel) ("{" +:+ (quote +:+ rest)) =
    parse_fields fuel [] (quote +:+ rest)) as E by reflexivity.
  assert (exists rest, js_join "," (map field_text (f :: fields)) +:+ "}" +:+ u = quote +:+ rest)
    as [rest Er].
  { cbn [map]. rewrite join_cons_app. unfold field_text at 1, json_string.
    rewrite !str_app_assoc. by eexists. }
  pose proof (parse_fields_text fields f [] fuel u Hr Hnd) as Hp.
  change (map (fun f => json_string (fst f) +:+ ":" +:+ json_stringify (snd f)) (f :: fields))
    with (map field_text (f :: fields)).
  rewrite Er, E, <-Er, Hp; [simpl; by rewrite Ho|]. simpl in Hf |- *. lia.
Qed.

Lemma readable_reads v : json_readable v = true -> json_ordered v -> reads v.
Proof.
  induction v as [s|items IH|fields IH] using json_ind'; intros Hr Ho; [by apply parse_scalar|..].
  - apply reads_array; [done|]. cbn [json_readable] in Hr. rewrite forallb_forall in Hr.
    simpl in Ho. rewrite foldr_and in Ho. rewrite Forall_forall in IH. intros y Hy.
    apply IH; [done|by apply Hr, list_elem_of_In|by apply Ho].
  - cbn [json_readable] in Hr. apply andb_prop in Hr as [Hnd%bool_decide_eq_true Hr].
    rewrite forallb_forall in Hr. simpl in Ho. rewrite foldr_and in Ho. destruct Ho as [Ho Hos].
    rewrite Forall_forall in IH. apply reads_object; [done..|]. intros f Hf.
    apply IH; [done|by apply Hr, list_elem_of_In|by apply Hos].
Qed.

(** ** Fuel *)

Lemma join_cost {A} (c : A -> nat) (t : A -> string) l :
  (forall x, x ∈ l -> (c x <= 2 * String.length (t x))%nat) ->
  (list_sum (map (fun x => S (c x)) l) <= 2 * String.length (js_join "," (map t l)) + 1)%nat.
Proof.
  induction l as [|x l IH]; intros H; [simpl; lia|]. rewrite map_cons, (map_cons t), join_cons_app.
  rewrite str_length_app. specialize (IH (fun y Hy => H y ltac:(by right))).
  pose proof (H x ltac:(by left)). destruct l as [|y l]; [simpl in *; lia|].
  rewrite (map_cons t) in *. cbv iota. rewrite str_length_app. simpl (String.length ",").
  simpl (list_sum (_ :: _)). simpl in IH. simpl. lia.
Qed.

Lemma cost_length v : json_readable v = true -> (cost v <= 2 * String.length (json_stringify v))%nat.
Proof.
  induction v as [s|items IH|fields IH] using json_ind'; intros Hr.
  - destruct (value_first _ Hr) as (c & t & -> & _). simpl. lia.
  - cbn [json_readable] in Hr. rewrite forallb_forall in Hr. rewrite Forall_forall in IH.
    pose proof (join_cost cost json_stringify items) as H. cbn [cost json_stringify].
    rewrite !str_length_app. simpl (String.length "["). simpl (String.length "]").
    assert (forall x, x ∈ items -> (cost x <= 2 * String.length (json_stringify x))%nat) as Hx.
    { intros x Hx. apply IH; [done|]. by apply Hr, list_elem_of_In. }
    specialize (H Hx). lia.
  - cbn [json_readable] in Hr. apply andb_prop in Hr as [_ Hr]. rewrite forallb_forall in Hr.
    rewrite Forall_forall in IH.
    pose proof (join_cost (fun f => cost (snd f)) field_text fields) as H.
    cbn [cost json_stringify]. fold field_text. rewrite !str_length_app.
    simpl (String.length "{"). simpl (String.length "}").
    change (map (fun f => json_string (fst f) +:+ ":" +:+ json_stringify (snd f)) fields)
      with (map field_text fields).
    assert (forall f, f ∈ fields -> (cost (snd f) <= 2 * String.length (field_text f))%nat) as Hx.
    { intros f Hf. unfold field_text. rewrite !str_length_app.
      specialize (IH f Hf (Hr f (proj1 (list_elem_of_In _ _) Hf))). lia. }
    specialize (H Hx). lia.
Qed.

Lemma json_parse_text v : json_readable v = true -> json_ordered v -> json_parse (json_stringify v) = Some v.
Proof.
  intros Hr Ho. unfold json_parse. pose proof (cost_length v Hr) as Hc.
  pose proof (readable_reads v Hr Ho (S (2 * String.length (json_stringify v))) "") as H.
  rewrite str_app_nil_end in H. rewrite H; [done|lia|done].
Qed.

(** ** The round trip *)

Lemma traverse_same {A} (f : A -> option A) l :
  (forall x, x ∈ l -> f x = Some x) -> traverse f l = Some l.
Proof.
  induction l as [|x l IH]; intros H; simpl; [done|]. rewrite (H x) by (by left).
  rewrite IH; [done|]. intros y Hy. apply H. by right.
Qed.

Lemma canonical_asserted v : forall depth c,
  canonicalize depth v = Some c -> assertJsonValue depth c = Some c.
Proof.
  induction v as [s|items IH|fields IH] using json_ind'; intros depth c; cbn [canonicalize];
    destruct (MAX_DEPTH <=? depth)%nat eqn:Hd; try done.
  - destruct s as [|n| |]; try (intros [= <-]; cbn [assertJsonValue]; by rewrite Hd).
    intros (m & _ & ->)%fmap_Some. cbn [assertJsonValue]. by rewrite Hd.
  - intros (l & Hl%traverse_Forall2 & ->)%fmap_Some. cbn [assertJsonValue]. rewrite Hd.
    rewrite traverse_same; [done|]. intros y Hy.
    destruct (Forall2_elem_r _ _ _ _ Hl Hy) as (x & Hx & E). rewrite Forall_forall in IH.
    by eapply IH.
  - intros (l & Hl%traverse_Forall2 & ->)%fmap_Some. cbn [assertJsonValue]. rewrite Hd.
    rewrite traverse_same; [done|]. intros y. rewrite own_order_perm, elem_of_sort_key. intros Hy.
    destruct (Forall2_elem_r _ _ _ _ Hl Hy) as (x & Hx & (z & E & ->)%fmap_Some).
    rewrite Forall_forall in IH. simpl. by rewrite (IH x Hx (S depth) z E).
Qed.

Lemma parse_canonical v c :
  canonicalize 0 v = Some c -> json_readable c = true -> parseJsonValue (json_stringify c) = Some c.
Proof.
  intros Hc Hr. unfold parseJsonValue.
  rewrite json_parse_text; [|done|by eapply canonicalize_ordered]. simpl.
  by eapply canonical_asserted.
Qed.

(** C25: A payload that the journal accepts is read back as its canonical form:
    [parseJsonValue] on the text of [stringifyCanonical] returns exactly the
    value [canonicalize] built, for values without repeated keys whose numbers
    print as JSON numbers that read back. *)
Theorem json_round_trip v c :
  canonicalize 0 v = Some c -> json_readable c = true ->
  exists text, stringifyCanonical v = Some text /\ parseJsonValue text = Some c.
Proof.
  intros Hc Hr. exists (json_stringify c). unfold stringifyCanonical. rewrite Hc.
  split; [done|]. by eapply parse_canonical.
Qed.

Lemma json_round_trip_witness :
  exists text,
    stringifyCanonical (JObject [("b", JArray [JScalar (SNumber (num_of_Z 12)); JScalar SNull]);
                                 ("10", JScalar (SString "x")); ("9", JScalar (SBoolean true))])
      = Some text /\
    parseJsonValue text =
      Some (JObject [("9", JScalar (SBoolean true)); ("10", JScalar (SString "x"));
                     ("b", JArray [JScalar (SNumber (num_of_Z 12)); JScalar SNull])]).
Proof. apply json_round_trip; vm_compute; reflexivity. Defined.
