(* ===== verification/Projection.v ===== *)
(** * The projection and its reducer

    [packages/state/src/projection/reducer.ts] with the rows of [state.ts],
    [run.ts], [identity.ts] and [workspace-lease.ts]: the state that journal
    events are folded into.  A record used as a map is a [gmap]; its keys are
    ids, none of which is the name of an inherited property. *)

From stdpp Require Import gmap.
From Stdlib Require Import Ascii SpecFloat.
From S2P Require Import Prelude Ids Json Recovery CanonicalJson StateJson.

(** ** Events *)

Record StateEvent := {
  ev_sequence : Z;
  ev_eventId : string;
  ev_runId : option string;
  ev_correlationId : string;
  ev_causationEventId : option string;
  ev_type : string;
  ev_recordedAt : string;
  ev_payload : JsonValue
}.

(** The leases' six events. *)
Inductive LeaseEvent :=
| lease_acquired | lease_recovered | lease_renewed | lease_expected_sha_advanced
| lease_released | lease_recovery_required.

#[export] Instance LeaseEvent_eq_dec : EqDecision LeaseEvent.
Proof. solve_decision. Defined.

(** The vocabulary, with one constructor for the types that a [case] treats
    alike. *)
Inductive EventKind :=
| ek_run_created
| ek_run_status_changed
| ek_run_touched
| ek_run_workspace_assigned
| ek_run_instructions_snapshotted
| ek_run_capability
| ek_codebase_registered
| ek_repository_registered
| ek_registration_committed
| ek_workspace_registered
| ek_workspace_provisioning_recorded
| ek_workspace_lease (lease : LeaseEvent)
| ek_artifact_published
| ek_stage_completed.

#[export] Instance EventKind_eq_dec : EqDecision EventKind.
Proof. solve_decision. Defined.

Definition event_kinds : list (string * EventKind) :=
  [ ("run.created", ek_run_created);
    ("run.status_changed", ek_run_status_changed);
    ("interaction.created", ek_run_touched);
    ("interaction.answer_accepted", ek_run_touched);
    ("interaction.cancelled", ek_run_touched);
    ("interaction.answer_delivered", ek_run_touched);
    ("run.resume_requested", ek_run_touched);
    ("run.resume_delivered", ek_run_touched);
    ("native_question.raised", ek_run_touched);
    ("native_question.answered", ek_run_touched);
    ("native_question.cancelled", ek_run_touched);
    ("native_question.delivered", ek_run_touched);
    ("run.workspace_assigned", ek_run_workspace_assigned);
    ("run.instructions_snapshotted", ek_run_instructions_snapshotted);
    ("run.capability_degraded", ek_run_capability);
    ("run.capability_blocked", ek_run_capability);
    ("codebase.registered", ek_codebase_registered);
    ("repository.registered", ek_repository_registered);
    ("codebase.registration_committed", ek_registration_committed);
    ("workspace.registered", ek_workspace_registered);
    ("workspace.provisioning_recorded", ek_workspace_provisioning_recorded);
    ("workspace.lease_acquired", ek_workspace_lease lease_acquired);
    ("workspace.lease_recovered", ek_workspace_lease lease_recovered);
    ("workspace.lease_renewed", ek_workspace_lease lease_renewed);
    ("workspace.lease_expected_sha_advanced", ek_workspace_lease lease_expected_sha_advanced);
    ("workspace.lease_released", ek_workspace_lease lease_released);
    ("workspace.lease_recovery_required", ek_workspace_lease lease_recovery_required);
    ("artifact.published", ek_artifact_published);
    ("stage.completed", ek_stage_completed) ].

Definition kindOf (type : string) : option EventKind := map_get event_kinds type.

(** [RUN_SCOPED_TYPES]. *)
Definition run_scoped (kind : EventKind) : bool :=
  match kind with
  | ek_run_created | ek_run_status_changed | ek_run_touched | ek_run_workspace_assigned
  | ek_run_capability => true
  | _ => false
  end.

(** [STAGE_SCOPED_TYPES]. *)
Definition stage_scoped (kind : EventKind) : bool :=
  match kind with ek_artifact_published | ek_stage_completed => true | _ => false end.

(** ** Rows *)

Record RunState := {
  rs_runId : string;
  rs_status : string;
  rs_revision : Z;
  rs_lastEventSequence : Z;
  rs_workspaceId : option string;
  rs_codebaseId : string;
  rs_updatedAt : string;
  rs_instructionSnapshotSha256 : option string;
  rs_instructionSnapshotJson : option string;
  rs_capabilityLandingJson : option string
}.

Record CodebaseState := {
  cb_codebaseId : string;
  cb_revision : Z;
  cb_lastEventSequence : Z;
  cb_updatedAt : string;
  cb_name : option string;
  cb_rootPath : option string;
  cb_topologySha256 : option string;
  cb_configurationSha256 : option string;
  cb_registrationJson : option string;
  cb_instructionSnapshotJson : option string
}.

Record RepositoryState := {
  rep_repositoryId : string;
  rep_codebaseId : string;
  rep_revision : Z;
  rep_lastEventSequence : Z;
  rep_updatedAt : string;
  rep_name : option string;
  rep_repositoryPath : option string;
  rep_gitCommonDirectory : option string;
  rep_remotesJson : option string;
  rep_defaultRemote : option string;
  rep_defaultBranch : option string
}.

Record WorkspaceState := {
  wk_workspaceId : string;
  wk_codebaseId : string;
  wk_repositoryId : option string;
  wk_lifecycleStatus : option string;
  wk_checkoutPath : option string;
  wk_configurationSha256 : option string;
  wk_manifestJson : option string;
  wk_revision : Z;
  wk_lastEventSequence : Z;
  wk_updatedAt : string
}.

Record WorkspaceLeaseState := {
  wl_checkoutPath : string;
  wl_workspaceId : string;
  wl_repositoryId : string;
  wl_leaseId : string;
  wl_ownerId : string;
  wl_bootWitness : option string;
  wl_processWitnessesJson : string;
  wl_expectedSha : string;
  wl_fencingRevision : Z;
  wl_leaseState : string;
  wl_acquiredAt : string;
  wl_renewedAt : string;
  wl_expiresAt : string;
  wl_releasedAt : option string;
  wl_revision : Z;
  wl_lastEventSequence : Z;
  wl_updatedAt : string
}.

Record ArtifactState := {
  ar_artifactId : string;
  ar_runId : string;
  ar_stageId : string;
  ar_name : string;
  ar_contentHash : string;
  ar_byteLength : Z;
  ar_mediaType : string;
  ar_contentSchemaId : string;
  ar_producer : string;
  ar_sourceLineage : list string;
  ar_relativePath : string;
  ar_createdAt : string;
  ar_revision : Z;
  ar_lastEventSequence : Z
}.

Record StageArtifactAliasState := {
  al_runId : string;
  al_stageId : string;
  al_name : string;
  al_artifactId : string;
  al_revision : Z;
  al_lastEventSequence : Z;
  al_updatedAt : string
}.

Definition NULL : ascii := ascii_of_N 0.

(** [`${runId}\u0000${stageId}\u0000${name}`]. *)
Definition stageArtifactAliasKey (runId stageId name : string) : string :=
  runId +:+ String NULL (stageId +:+ String NULL name).

Definition aliasKeyOf (row : StageArtifactAliasState) : string :=
  stageArtifactAliasKey (al_runId row) (al_stageId row) (al_name row).

Record ProjectionState := {
  st_runs : gmap string RunState;
  st_codebases : gmap string CodebaseState;
  st_repositories : gmap string RepositoryState;
  st_workspaces : gmap string WorkspaceState;
  st_workspaceLeases : gmap string WorkspaceLeaseState;
  st_artifacts : gmap string ArtifactState;
  st_stageArtifactAliases : gmap string StageArtifactAliasState
}.

Definition EMPTY_PROJECTION_STATE : ProjectionState :=
  {| st_runs := ∅; st_codebases := ∅; st_repositories := ∅; st_workspaces := ∅;
     st_workspaceLeases := ∅; st_artifacts := ∅; st_stageArtifactAliases := ∅ |}.

(** [{ ...state, runs }] and its siblings. *)
Definition with_runs (s : ProjectionState) (m : gmap string RunState) : ProjectionState :=
  {| st_runs := m; st_codebases := st_codebases s; st_repositories := st_repositories s;
     st_workspaces := st_workspaces s; st_workspaceLeases := st_workspaceLeases s;
     st_artifacts := st_artifacts s; st_stageArtifactAliases := st_stageArtifactAliases s |}.

Definition with_codebases (s : ProjectionState) (m : gmap string CodebaseState) : ProjectionState :=
  {| st_runs := st_runs s; st_codebases := m; st_repositories := st_repositories s;
     st_workspaces := st_workspaces s; st_workspaceLeases := st_workspaceLeases s;
     st_artifacts := st_artifacts s; st_stageArtifactAliases := st_stageArtifactAliases s |}.

Definition with_repositories (s : ProjectionState) (m : gmap string RepositoryState)
    : ProjectionState :=
  {| st_runs := st_runs s; st_codebases := st_codebases s; st_repositories := m;
     st_workspaces := st_workspaces s; st_workspaceLeases := st_workspaceLeases s;
     st_artifacts := st_artifacts s; st_stageArtifactAliases := st_stageArtifactAliases s |}.

Definition with_workspaces (s : ProjectionState) (m : gmap string WorkspaceState)
    : ProjectionState :=
  {| st_runs := st_runs s; st_codebases := st_codebases s; st_repositories := st_repositories s;
     st_workspaces := m; st_workspaceLeases := st_workspaceLeases s;
     st_artifacts := st_artifacts s; st_stageArtifactAliases := st_stageArtifactAliases s |}.

Definition with_leases (s : ProjectionState) (m : gmap string WorkspaceLeaseState)
    : ProjectionState :=
  {| st_runs := st_runs s; st_codebases := st_codebases s; st_repositories := st_repositories s;
     st_workspaces := st_workspaces s; st_workspaceLeases := m;
     st_artifacts := st_artifacts s; st_stageArtifactAliases := st_stageArtifactAliases s |}.

Definition with_artifacts (s : ProjectionState) (m : gmap string ArtifactState)
    (a : gmap string StageArtifactAliasState) : ProjectionState :=
  {| st_runs := st_runs s; st_codebases := st_codebases s; st_repositories := st_repositories s;
     st_workspaces := st_workspaces s; st_workspaceLeases := st_workspaceLeases s;
     st_artifacts := m; st_stageArtifactAliases := a |}.

(** ** Reading payloads

    A [ReducerError] carries the event and a reason; the result of a step that
    may throw it is the reason or a value. *)

Definition Res (A : Type) : Type := (string + A)%type.

Definition rbind {A B} (m : Res A) (k : A -> Res B) : Res B :=
  match m with inl reason => inl reason | inr a => k a end.

Declare Scope res_scope.
Delimit Scope res_scope with res.
Notation "'let!' x ':=' m 'in' k" := (rbind m (fun x => k))
  (at level 10, x pattern, m at level 100, k at level 200) : res_scope.
Notation "'when!' b 'throw' reason ';' k" := (if b then inl reason else k)
  (at level 10, b at level 100, reason at level 100, k at level 200) : res_scope.
Local Open Scope res_scope.

Definition Fields := list (string * JsonValue).

Fixpoint rtraverse {A B} (f : nat -> A -> Res B) (index : nat) (l : list A) : Res (list B) :=
  match l with
  | [] => inr []
  | x :: l' => let! y := f index x in let! ys := rtraverse f (S index) l' in inr (y :: ys)
  end.

Definition payloadObject (event : StateEvent) : Res Fields :=
  match ev_payload event with
  | JObject fields => inr fields
  | _ => inl "payload must be a JSON object"
  end.

Definition requireString (payload : Fields) (field : string) : Res string :=
  match map_get payload field with
  | Some (JScalar (SString s)) =>
      if str_eqb s "" then inl ("payload." +:+ field +:+ " must be a non-empty string") else inr s
  | _ => inl ("payload." +:+ field +:+ " must be a non-empty string")
  end.

Definition nullableString (value : option JsonValue) : option string :=
  match value with Some (JScalar (SString s)) => Some s | _ => None end.

Definition optionalWorkspaceId (payload : Fields) : Res (option string) :=
  match map_get payload "workspaceId" with
  | None | Some (JScalar SNull) => inr None
  | Some (JScalar (SString s)) =>
      if str_eqb s ""
      then inl "payload.workspaceId must be a non-empty string, null, or omitted" else inr (Some s)
  | _ => inl "payload.workspaceId must be a non-empty string, null, or omitted"
  end.

Definition requireNoNul (field value : string) : Res string :=
  if str_has NULL value then inl ("payload." +:+ field +:+ " must not contain a NUL character")
  else inr value.

Definition requireRunId (event : StateEvent) (payload : Fields) : Res string :=
  let! s := requireString payload "runId" in
  let! runId := requireNoNul "runId" s in
  if bool_decide (ev_runId event = Some runId) then inr runId
  else inl "payload.runId does not match the event's run_id".

Definition requireStageId (payload : Fields) : Res string :=
  let! s := requireString payload "stageId" in requireNoNul "stageId" s.

Definition requireName (payload : Fields) : Res string :=
  let! s := requireString payload "name" in requireNoNul "name" s.

(** [/^[0-9a-f]{64}$/]. *)
Definition lower_hex (c : ascii) : bool :=
  let n := N_of_ascii c in ((48 <=? n) && (n <=? 57) || (97 <=? n) && (n <=? 102))%N.

Definition CONTENT_HASH_PATTERN (value : string) : bool :=
  (String.length value =? 64)%nat && forallb lower_hex (String.list_ascii_of_string value).

Definition requireContentHash (payload : Fields) (field : string) : Res string :=
  let! value := requireString payload field in
  if CONTENT_HASH_PATTERN value then inr value
  else inl ("payload." +:+ field +:+ " must be exactly 64 lowercase hex characters").

(** [RunStatus.values] of [packages/contracts/src/run/state.ts]. *)
Definition RunStatus_values : list string :=
  [ "queued"; "running"; "waiting_on_user"; "waiting_for_parent_session"; "recovery_required";
    "succeeded"; "failed"; "cancelled" ].

Definition isRunStatus (candidate : string) : bool := set_has RunStatus_values candidate.

(** The integer a number is, if it is one ([Number.isInteger]). *)
Definition integer_of (n : number) : option Z :=
  match n with
  | S754_zero _ => Some 0%Z
  | S754_finite negative m e =>
      let signed (z : Z) := if negative then (- z)%Z else z in
      if (0 <=? e)%Z then Some (signed (Zpos m * 2 ^ e)%Z)
      else if (Zpos m mod 2 ^ (- e) =? 0)%Z then Some (signed (Zpos m / 2 ^ (- e))%Z) else None
  | _ => None
  end.

(** Fences and lengths are kept as exact integers; the code computes with
    doubles, which are exact below [2 ^ 53]. *)
Definition requireNonNegativeInteger (payload : Fields) (field : string) : Res Z :=
  match map_get payload field with
  | Some (JScalar (SNumber n)) =>
      match integer_of n with
      | Some z =>
          if (z <? 0)%Z then inl ("payload." +:+ field +:+ " must be a non-negative integer")
          else inr z
      | None => inl ("payload." +:+ field +:+ " must be a non-negative integer")
      end
  | _ => inl ("payload." +:+ field +:+ " must be a non-negative integer")
  end.

Definition string_of (value : JsonValue) : option string :=
  match value with JScalar (SString s) => Some s | _ => None end.

Definition requireStringArray (payload : Fields) (field : string) : Res (list string) :=
  match map_get payload field with
  | Some (JArray items) =>
      match traverse string_of items with
      | Some values => inr values
      | None => inl ("payload." +:+ field +:+ " must be an array of strings")
      end
  | _ => inl ("payload." +:+ field +:+ " must be an array of strings")
  end.

Definition MAX_SOURCE_LINEAGE_ITEMS : nat := 64.

Definition requireSourceLineage (payload : Fields) (field : string) : Res (list string) :=
  let! values := requireStringArray payload field in
  when! (MAX_SOURCE_LINEAGE_ITEMS <? length values)%nat
    throw "payload." +:+ field +:+ " must not exceed " +:+ pretty MAX_SOURCE_LINEAGE_ITEMS +:+
          " entries (got " +:+ pretty (length values) +:+ ")";
  when! negb (length (set_of values) =? length values)%nat
    throw "payload." +:+ field +:+ " must not contain duplicate entries";
  inr values.

Record ArtifactRefPayload := {
  af_artifactId : string;
  af_name : string;
  af_contentHash : string;
  af_byteLength : Z;
  af_mediaType : string;
  af_contentSchemaId : string;
  af_producer : string;
  af_sourceLineage : list string;
  af_path : string
}.

Definition toArtifactRefPayload (index : nat) (value : JsonValue) : Res ArtifactRefPayload :=
  match value with
  | JObject fields =>
      let! artifactId := requireString fields "artifactId" in
      let! name := requireName fields in
      let! contentHash := requireContentHash fields "contentHash" in
      let! byteLength := requireNonNegativeInteger fields "byteLength" in
      let! mediaType := requireString fields "mediaType" in
      let! contentSchemaId := requireString fields "contentSchemaId" in
      let! producer := requireString fields "producer" in
      let! sourceLineage := requireSourceLineage fields "sourceLineage" in
      let! path := requireString fields "path" in
      inr {| af_artifactId := artifactId; af_name := name; af_contentHash := contentHash;
             af_byteLength := byteLength; af_mediaType := mediaType;
             af_contentSchemaId := contentSchemaId; af_producer := producer;
             af_sourceLineage := sourceLineage; af_path := path |}
  | _ => inl ("payload.artifacts[" +:+ pretty index +:+ "] must be a JSON object")
  end.

Definition requireArtifactRefs (payload : Fields) (field : string) : Res (list ArtifactRefPayload) :=
  match map_get payload field with
  | Some (JArray items) => rtraverse toArtifactRefPayload 0 items
  | _ => inl ("payload." +:+ field +:+ " must be an array")
  end.

Record RegistrationRepositoryPayload := {
  rr_repositoryId : string;
  rr_name : string;
  rr_path : string;
  rr_gitCommonDirectory : string;
  rr_remotesJson : string;
  rr_defaultRemote : option string;
  rr_defaultBranch : option string
}.

Record RegistrationPayload := {
  rg_codebaseId : string;
  rg_name : string;
  rg_rootPath : string;
  rg_topologySha256 : string;
  rg_configurationSha256 : string;
  rg_instructionSnapshotJson : string;
  rg_registrationJson : string;
  rg_repositories : list RegistrationRepositoryPayload
}.

Definition registrationRepository (index : nat) (repository : JsonValue)
    : Res RegistrationRepositoryPayload :=
  match repository with
  | JObject fields =>
      match map_get fields "remotes" with
      | Some (JArray remotes) =>
          match nullableString (map_get fields "repositoryId"), nullableString (map_get fields "name"),
                nullableString (map_get fields "path"),
                nullableString (map_get fields "gitCommonDirectory") with
          | Some repositoryId, Some name, Some path, Some gitCommonDirectory =>
              inr {| rr_repositoryId := repositoryId; rr_name := name; rr_path := path;
                     rr_gitCommonDirectory := gitCommonDirectory;
                     rr_remotesJson := json_stringify (JArray remotes);
                     rr_defaultRemote := nullableString (map_get fields "defaultRemote");
                     rr_defaultBranch := nullableString (map_get fields "defaultBranch") |}
          | _, _, _, _ => inl "registration repository identity is invalid"
          end
      | _ => inl "registration repository must be an object"
      end
  | _ => inl "registration repository must be an object"
  end.

Definition requireRegistration (payload : Fields) : Res RegistrationPayload :=
  match map_get payload "registration" with
  | Some (JObject value) =>
      match map_get value "repositories", map_get value "instructionSnapshot" with
      | Some (JArray entries), Some (JObject snapshot) =>
          let! repositories := rtraverse registrationRepository 0 entries in
          match nullableString (map_get value "codebaseId"), nullableString (map_get value "name"),
                nullableString (map_get value "rootPath"),
                nullableString (map_get value "topologySha256"),
                nullableString (map_get value "configurationSha256") with
          | Some codebaseId, Some name, Some rootPath, Some topologySha256, Some configurationSha256 =>
              inr {| rg_codebaseId := codebaseId; rg_name := name; rg_rootPath := rootPath;
                     rg_topologySha256 := topologySha256;
                     rg_configurationSha256 := configurationSha256;
                     rg_instructionSnapshotJson := json_stringify (JObject snapshot);
                     rg_registrationJson := json_stringify (JObject value);
                     rg_repositories := repositories |}
          | _, _, _, _, _ => inl "registration identity is invalid"
          end
      | _, _ => inl "registration must be a complete object"
      end
  | _ => inl "registration must be a complete object"
  end.

Definition requireInstructionSnapshot (payload : Fields) : Res (string * string) :=
  match map_get payload "instructionSnapshot" with
  | Some (JObject value) =>
      match nullableString (map_get value "snapshotSha256") with
      | Some sha256 => inr (sha256, json_stringify (JObject value))
      | None => inl "instructionSnapshot must be a versioned snapshot"
      end
  | _ => inl "instructionSnapshot must be a versioned snapshot"
  end.

Definition requireCapabilityLanding (payload : Fields) : Res string :=
  match map_get payload "landing" with
  | Some (JObject value) => inr (json_stringify (JObject value))
  | _ => inl "payload.landing must be a JSON object"
  end.

(** ** [eventScope] *)

Record ProjectionScope := {
  sc_runs : list string;
  sc_codebases : list string;
  sc_repositories : list string;
  sc_workspaces : list string;
  sc_workspaceLeases : list string;
  sc_artifacts : list string;
  sc_stageArtifactAliases : list (string * string * string)
}.

Definition scope (runs codebases repositories workspaces leases artifacts : list string)
    (aliases : list (string * string * string)) : ProjectionScope :=
  {| sc_runs := runs; sc_codebases := codebases; sc_repositories := repositories;
     sc_workspaces := workspaces; sc_workspaceLeases := leases; sc_artifacts := artifacts;
     sc_stageArtifactAliases := aliases |}.

Definition UNKNOWN_EVENT : string := "unknown event type".

Definition eventScope (event : StateEvent) : Res ProjectionScope :=
  let! payload := payloadObject event in
  match kindOf (ev_type event) with
  | Some ek_run_created =>
      let! workspaceId := optionalWorkspaceId payload in
      let! runId := requireRunId event payload in
      let! codebaseId := requireString payload "codebaseId" in
      inr (scope [runId] [codebaseId] []
             (match workspaceId with None => [] | Some w => [w] end) [] [] [])
  | Some ek_run_status_changed | Some ek_run_touched | Some ek_run_instructions_snapshotted
  | Some ek_run_capability =>
      let! runId := requireRunId event payload in
      inr (scope [runId] [] [] [] [] [] [])
  | Some ek_run_workspace_assigned =>
      let! runId := requireRunId event payload in
      let! workspaceId := requireString payload "workspaceId" in
      inr (scope [runId] [] [] [workspaceId] [] [] [])
  | Some ek_registration_committed =>
      let! registration := requireRegistration payload in
      inr (scope [] [rg_codebaseId registration] (map rr_repositoryId (rg_repositories registration))
             [] [] [] [])
  | Some ek_codebase_registered =>
      let! codebaseId := requireString payload "codebaseId" in
      inr (scope [] [codebaseId] [] [] [] [] [])
  | Some ek_repository_registered =>
      let! codebaseId := requireString payload "codebaseId" in
      let! repositoryId := requireString payload "repositoryId" in
      inr (scope [] [codebaseId] [repositoryId] [] [] [] [])
  | Some ek_workspace_registered =>
      let! codebaseId := requireString payload "codebaseId" in
      let! workspaceId := requireString payload "workspaceId" in
      inr (scope [] [codebaseId] [] [workspaceId] [] [] [])
  | Some ek_workspace_provisioning_recorded =>
      let! codebaseId := requireString payload "codebaseId" in
      let! repositoryId := requireString payload "repositoryId" in
      let! workspaceId := requireString payload "workspaceId" in
      inr (scope [] [codebaseId] [repositoryId] [workspaceId] [] [] [])
  | Some (ek_workspace_lease _) =>
      let! checkoutPath := requireString payload "checkoutPath" in
      let! repositoryId := requireString payload "repositoryId" in
      let! workspaceId := requireString payload "workspaceId" in
      inr (scope [] [] [repositoryId] [workspaceId] [checkoutPath] [] [])
  | Some ek_artifact_published =>
      let! runId := requireRunId event payload in
      let! _ := requireStageId payload in
      let! artifactId := requireString payload "artifactId" in
      inr (scope [runId] [] [] [] [] [artifactId] [])
  | Some ek_stage_completed =>
      let! runId := requireRunId event payload in
      let! stageId := requireStageId payload in
      let! refs := requireArtifactRefs payload "artifacts" in
      inr (scope [runId] [] [] [] [] (map af_artifactId refs)
             (map (fun ref => (runId, stageId, af_name ref)) refs))
  | None => inl UNKNOWN_EVENT
  end.

(** ** [applyEvent] *)

Section Reducer.
Context (event : StateEvent) (payload : Fields) (state : ProjectionState).

(** [{ ...previous, revision: previous.revision + 1, lastEventSequence, updatedAt }]. *)
Definition touchRun (previous : RunState) : RunState :=
  {| rs_runId := rs_runId previous; rs_status := rs_status previous;
     rs_revision := (rs_revision previous + 1)%Z; rs_lastEventSequence := ev_sequence event;
     rs_workspaceId := rs_workspaceId previous; rs_codebaseId := rs_codebaseId previous;
     rs_updatedAt := ev_recordedAt event;
     rs_instructionSnapshotSha256 := rs_instructionSnapshotSha256 previous;
     rs_instructionSnapshotJson := rs_instructionSnapshotJson previous;
     rs_capabilityLandingJson := rs_capabilityLandingJson previous |}.

Definition run_with_status (r : RunState) (status : string) : RunState :=
  {| rs_runId := rs_runId r; rs_status := status; rs_revision := rs_revision r;
     rs_lastEventSequence := rs_lastEventSequence r; rs_workspaceId := rs_workspaceId r;
     rs_codebaseId := rs_codebaseId r; rs_updatedAt := rs_updatedAt r;
     rs_instructionSnapshotSha256 := rs_instructionSnapshotSha256 r;
     rs_instructionSnapshotJson := rs_instructionSnapshotJson r;
     rs_capabilityLandingJson := rs_capabilityLandingJson r |}.

Definition run_with_workspace (r : RunState) (workspaceId : string) : RunState :=
  {| rs_runId := rs_runId r; rs_status := rs_status r; rs_revision := rs_revision r;
     rs_lastEventSequence := rs_lastEventSequence r; rs_workspaceId := Some workspaceId;
     rs_codebaseId := rs_codebaseId r; rs_updatedAt := rs_updatedAt r;
     rs_instructionSnapshotSha256 := rs_instructionSnapshotSha256 r;
     rs_instructionSnapshotJson := rs_instructionSnapshotJson r;
     rs_capabilityLandingJson := rs_capabilityLandingJson r |}.

Definition run_with_snapshot (r : RunState) (sha256 json : string) : RunState :=
  {| rs_runId := rs_runId r; rs_status := rs_status r; rs_revision := rs_revision r;
     rs_lastEventSequence := rs_lastEventSequence r; rs_workspaceId := rs_workspaceId r;
     rs_codebaseId := rs_codebaseId r; rs_updatedAt := rs_updatedAt r;
     rs_instructionSnapshotSha256 := Some sha256; rs_instructionSnapshotJson := Some json;
     rs_capabilityLandingJson := rs_capabilityLandingJson r |}.

Definition run_with_landing (r : RunState) (json : string) : RunState :=
  {| rs_runId := rs_runId r; rs_status := rs_status r; rs_revision := rs_revision r;
     rs_lastEventSequence := rs_lastEventSequence r; rs_workspaceId := rs_workspaceId r;
     rs_codebaseId := rs_codebaseId r; rs_updatedAt := rs_updatedAt r;
     rs_instructionSnapshotSha256 := rs_instructionSnapshotSha256 r;
     rs_instructionSnapshotJson := rs_instructionSnapshotJson r;
     rs_capabilityLandingJson := Some json |}.

Definition runOf (runId : string) : Res RunState :=
  match st_runs state !! runId with
  | Some previous => inr previous
  | None => inl ("run does not exist: " +:+ runId)
  end.

Definition set_run (r : RunState) (runId : string) : ProjectionState :=
  with_runs state (<[runId := r]> (st_runs state)).

Definition applyRunCreated : Res ProjectionState :=
  let! runId := requireRunId event payload in
  when! bool_decide (is_Some (st_runs state !! runId)) throw "run already exists: " +:+ runId;
  let! workspaceId := optionalWorkspaceId payload in
  let! codebaseId := requireString payload "codebaseId" in
  inr (set_run
    {| rs_runId := runId; rs_status := "queued"; rs_revision := 1;
       rs_lastEventSequence := ev_sequence event; rs_workspaceId := workspaceId;
       rs_codebaseId := codebaseId; rs_updatedAt := ev_recordedAt event;
       rs_instructionSnapshotSha256 := None; rs_instructionSnapshotJson := None;
       rs_capabilityLandingJson := None |} runId).

Definition applyRunStatusChanged : Res ProjectionState :=
  let! runId := requireRunId event payload in
  let! previous := runOf runId in
  let! status := requireString payload "status" in
  when! negb (isRunStatus status) throw "unknown run status: " +:+ status;
  inr (set_run (run_with_status (touchRun previous) status) runId).

Definition applyRunTouched : Res ProjectionState :=
  let! runId := requireRunId event payload in
  let! previous := runOf runId in
  inr (set_run (touchRun previous) runId).

Definition applyRunWorkspaceAssigned : Res ProjectionState :=
  let! runId := requireRunId event payload in
  let! previous := runOf runId in
  let! workspaceId := requireString payload "workspaceId" in
  when! bool_decide (st_workspaces state !! workspaceId = None)
    throw "workspace is not registered: " +:+ workspaceId;
  inr (set_run (run_with_workspace (touchRun previous) workspaceId) runId).

Definition applyInstructionsSnapshotted : Res ProjectionState :=
  let! runId := requireRunId event payload in
  let! previous := runOf runId in
  when! bool_decide (is_Some (rs_instructionSnapshotJson previous))
    throw "run instruction snapshot is immutable: " +:+ runId;
  let! snapshot := requireInstructionSnapshot payload in
  inr (set_run (run_with_snapshot (touchRun previous) (fst snapshot) (snd snapshot)) runId).

Definition applyCapability : Res ProjectionState :=
  let! runId := requireRunId event payload in
  let! previous := runOf runId in
  let! landingJson := requireCapabilityLanding payload in
  match rs_capabilityLandingJson previous with
  | Some json =>
      if str_eqb json landingJson then inr state
      else inl ("run capability landing is immutable: " +:+ runId)
  | None => inr (set_run (run_with_landing (touchRun previous) landingJson) runId)
  end.

Definition applyCodebaseRegistered : Res ProjectionState :=
  let! codebaseId := requireString payload "codebaseId" in
  when! bool_decide (is_Some (st_codebases state !! codebaseId))
    throw "codebase already exists: " +:+ codebaseId;
  inr (with_codebases state (<[codebaseId :=
    {| cb_codebaseId := codebaseId; cb_revision := 1; cb_lastEventSequence := ev_sequence event;
       cb_updatedAt := ev_recordedAt event; cb_name := None; cb_rootPath := None;
       cb_topologySha256 := None; cb_configurationSha256 := None; cb_registrationJson := None;
       cb_instructionSnapshotJson := None |}]> (st_codebases state))).

Definition applyRepositoryRegistered : Res ProjectionState :=
  let! repositoryId := requireString payload "repositoryId" in
  let! codebaseId := requireString payload "codebaseId" in
  when! bool_decide (is_Some (st_repositories state !! repositoryId))
    throw "repository already exists: " +:+ repositoryId;
  when! bool_decide (st_codebases state !! codebaseId = None)
    throw "codebase is not registered: " +:+ codebaseId;
  inr (with_repositories state (<[repositoryId :=
    {| rep_repositoryId := repositoryId; rep_codebaseId := codebaseId; rep_revision := 1;
       rep_lastEventSequence := ev_sequence event; rep_updatedAt := ev_recordedAt event;
       rep_name := None; rep_repositoryPath := None; rep_gitCommonDirectory := None;
       rep_remotesJson := None; rep_defaultRemote := None; rep_defaultBranch := None |}]>
    (st_repositories state))).

Definition registeredRepository (codebaseId : string) (r : RegistrationRepositoryPayload)
    : RepositoryState :=
  {| rep_repositoryId := rr_repositoryId r; rep_codebaseId := codebaseId; rep_revision := 1;
     rep_lastEventSequence := ev_sequence event; rep_updatedAt := ev_recordedAt event;
     rep_name := Some (rr_name r); rep_repositoryPath := Some (rr_path r);
     rep_gitCommonDirectory := Some (rr_gitCommonDirectory r);
     rep_remotesJson := Some (rr_remotesJson r); rep_defaultRemote := rr_defaultRemote r;
     rep_defaultBranch := rr_defaultBranch r |}.

Definition applyRegistrationCommitted : Res ProjectionState :=
  let! registration := requireRegistration payload in
  let codebaseId := rg_codebaseId registration in
  match st_codebases state !! codebaseId with
  | Some existing =>
      if bool_decide (cb_configurationSha256 existing = Some (rg_configurationSha256 registration))
      then inr state else inl ("codebase already exists: " +:+ codebaseId)
  | None =>
      match List.find (fun r => bool_decide (is_Some (st_repositories state !! rr_repositoryId r)))
              (rg_repositories registration) with
      | Some r => inl ("repository already exists: " +:+ rr_repositoryId r)
      | None =>
          inr (with_repositories
            (with_codebases state (<[codebaseId :=
               {| cb_codebaseId := codebaseId; cb_revision := 1;
                  cb_lastEventSequence := ev_sequence event; cb_updatedAt := ev_recordedAt event;
                  cb_name := Some (rg_name registration);
                  cb_rootPath := Some (rg_rootPath registration);
                  cb_topologySha256 := Some (rg_topologySha256 registration);
                  cb_configurationSha256 := Some (rg_configurationSha256 registration);
                  cb_registrationJson := Some (rg_registrationJson registration);
                  cb_instructionSnapshotJson := Some (rg_instructionSnapshotJson registration) |}]>
               (st_codebases state)))
            (fold_left (fun m r => <[rr_repositoryId r := registeredRepository codebaseId r]> m)
               (rg_repositories registration) (st_repositories state)))
      end
  end.

Definition applyWorkspaceRegistered : Res ProjectionState :=
  let! workspaceId := requireString payload "workspaceId" in
  let! codebaseId := requireString payload "codebaseId" in
  when! bool_decide (is_Some (st_workspaces state !! workspaceId))
    throw "workspace already exists: " +:+ workspaceId;
  when! bool_decide (st_codebases state !! codebaseId = None)
    throw "codebase is not registered: " +:+ codebaseId;
  inr (with_workspaces state (<[workspaceId :=
    {| wk_workspaceId := workspaceId; wk_codebaseId := codebaseId; wk_repositoryId := None;
       wk_lifecycleStatus := None; wk_checkoutPath := None; wk_configurationSha256 := None;
       wk_manifestJson := None; wk_revision := 1; wk_lastEventSequence := ev_sequence event;
       wk_updatedAt := ev_recordedAt event |}]> (st_workspaces state))).

Definition applyProvisioningRecorded : Res ProjectionState :=
  let! workspaceId := requireString payload "workspaceId" in
  let! codebaseId := requireString payload "codebaseId" in
  let! repositoryId := requireString payload "repositoryId" in
  let! lifecycleStatus := requireString payload "lifecycleStatus" in
  let! checkoutPath := requireString payload "checkoutPath" in
  let! configurationSha256 := requireString payload "configurationSha256" in
  let! manifestJson := requireString payload "manifestJson" in
  when! bool_decide (st_codebases state !! codebaseId = None)
    throw "codebase is not registered: " +:+ codebaseId;
  when! negb (bool_decide (rep_codebaseId <$> st_repositories state !! repositoryId = Some codebaseId))
    throw "repository is not registered to codebase: " +:+ repositoryId;
  let previous := st_workspaces state !! workspaceId in
  when! negb (bool_decide (default codebaseId (wk_codebaseId <$> previous) = codebaseId))
    throw "workspace belongs to another codebase: " +:+ workspaceId;
  inr (with_workspaces state (<[workspaceId :=
    {| wk_workspaceId := workspaceId; wk_codebaseId := codebaseId;
       wk_repositoryId := Some repositoryId; wk_lifecycleStatus := Some lifecycleStatus;
       wk_checkoutPath := Some checkoutPath; wk_configurationSha256 := Some configurationSha256;
       wk_manifestJson := Some manifestJson;
       wk_revision := (default 0 (wk_revision <$> previous) + 1)%Z;
       wk_lastEventSequence := ev_sequence event; wk_updatedAt := ev_recordedAt event |}]>
    (st_workspaces state))).

(** What a lease event requires of the lease it replaces. *)
Definition leaseRefused (kind : LeaseEvent) (previous : option WorkspaceLeaseState)
    (fencingRevision : Z) (leaseId leaseState workspaceId repositoryId : string) : option string :=
  match kind with
  | lease_acquired =>
      if bool_decide (is_Some previous) || negb (fencingRevision =? 1)%Z ||
         negb (str_eqb leaseState "active")
      then Some "initial lease must create fence 1 in active state" else None
  | lease_recovered =>
      match previous with
      | Some p =>
          if negb (fencingRevision =? wl_fencingRevision p + 1)%Z ||
             str_eqb leaseId (wl_leaseId p) || negb (str_eqb leaseState "active")
          then Some "lease recovery must replace the lease and advance its fence by 1" else None
      | None => Some "lease recovery must replace the lease and advance its fence by 1"
      end
  | _ =>
      match previous with
      | Some p =>
          if negb (fencingRevision =? wl_fencingRevision p)%Z ||
             negb (str_eqb leaseId (wl_leaseId p)) ||
             negb (str_eqb workspaceId (wl_workspaceId p)) ||
             negb (str_eqb repositoryId (wl_repositoryId p)) ||
             negb (str_eqb (wl_leaseState p) "active")
          then Some "lease mutation must target the current active identity and fence" else None
      | None => Some "lease mutation must target the current active identity and fence"
      end
  end.

Definition expectedLeaseState (kind : LeaseEvent) : string :=
  match kind with
  | lease_released => "released"
  | lease_recovery_required => "recovery-required"
  | _ => "active"
  end.

Definition applyLease (kind : LeaseEvent) : Res ProjectionState :=
  let! checkoutPath := requireString payload "checkoutPath" in
  let! workspaceId := requireString payload "workspaceId" in
  let! repositoryId := requireString payload "repositoryId" in
  when! bool_decide (st_workspaces state !! workspaceId = None)
    throw "workspace is not registered: " +:+ workspaceId;
  when! bool_decide (st_repositories state !! repositoryId = None)
    throw "repository is not registered: " +:+ repositoryId;
  let previous := st_workspaceLeases state !! checkoutPath in
  let! fencingRevision := requireNonNegativeInteger payload "fencingRevision" in
  let! leaseId := requireString payload "leaseId" in
  let! leaseState := requireString payload "leaseState" in
  when! (fencingRevision <? 1)%Z throw "payload.fencingRevision must be positive";
  match leaseRefused kind previous fencingRevision leaseId leaseState workspaceId repositoryId with
  | Some reason => inl reason
  | None =>
      when! negb (str_eqb leaseState (expectedLeaseState kind))
        throw "lease event must produce " +:+ expectedLeaseState kind +:+ " state";
      let! ownerId := requireString payload "ownerId" in
      let! processWitnessesJson := requireString payload "processWitnessesJson" in
      let! expectedSha := requireString payload "expectedSha" in
      let! acquiredAt := requireString payload "acquiredAt" in
      let! renewedAt := requireString payload "renewedAt" in
      let! expiresAt := requireString payload "expiresAt" in
      inr (with_leases state (<[checkoutPath :=
        {| wl_checkoutPath := checkoutPath; wl_workspaceId := workspaceId;
           wl_repositoryId := repositoryId; wl_leaseId := leaseId; wl_ownerId := ownerId;
           wl_bootWitness := nullableString (map_get payload "bootWitness");
           wl_processWitnessesJson := processWitnessesJson; wl_expectedSha := expectedSha;
           wl_fencingRevision := fencingRevision; wl_leaseState := leaseState;
           wl_acquiredAt := acquiredAt; wl_renewedAt := renewedAt; wl_expiresAt := expiresAt;
           wl_releasedAt := nullableString (map_get payload "releasedAt");
           wl_revision := (default 0 (wl_revision <$> previous) + 1)%Z;
           wl_lastEventSequence := ev_sequence event; wl_updatedAt := ev_recordedAt event |}]>
        (st_workspaceLeases state)))
  end.

(** The row a published artifact gets. *)
Definition artifactOf (runId stageId : string) (ref : ArtifactRefPayload) : ArtifactState :=
  {| ar_artifactId := af_artifactId ref; ar_runId := runId; ar_stageId := stageId;
     ar_name := af_name ref; ar_contentHash := af_contentHash ref;
     ar_byteLength := af_byteLength ref; ar_mediaType := af_mediaType ref;
     ar_contentSchemaId := af_contentSchemaId ref; ar_producer := af_producer ref;
     ar_sourceLineage := af_sourceLineage ref; ar_relativePath := af_path ref;
     ar_createdAt := ev_recordedAt event; ar_revision := 1;
     ar_lastEventSequence := ev_sequence event |}.

Definition applyArtifactPublished : Res ProjectionState :=
  let! runId := requireRunId event payload in
  let! _ := runOf runId in
  let! stageId := requireStageId payload in
  let! artifactId := requireString payload "artifactId" in
  when! bool_decide (is_Some (st_artifacts state !! artifactId))
    throw "artifact already exists: " +:+ artifactId;
  let! name := requireName payload in
  let! contentHash := requireContentHash payload "contentHash" in
  let! byteLength := requireNonNegativeInteger payload "byteLength" in
  let! mediaType := requireString payload "mediaType" in
  let! contentSchemaId := requireString payload "contentSchemaId" in
  let! producer := requireString payload "producer" in
  let! sourceLineage := requireSourceLineage payload "sourceLineage" in
  let! path := requireString payload "path" in
  inr (with_artifacts state (<[artifactId := artifactOf runId stageId
        {| af_artifactId := artifactId; af_name := name; af_contentHash := contentHash;
           af_byteLength := byteLength; af_mediaType := mediaType;
           af_contentSchemaId := contentSchemaId; af_producer := producer;
           af_sourceLineage := sourceLineage; af_path := path |}]> (st_artifacts state))
      (st_stageArtifactAliases state)).

(** The first field in which a stored artifact differs from the reference. *)
Definition artifactMismatchField (existing : ArtifactState) (runId stageId : string)
    (ref : ArtifactRefPayload) : option string :=
  if negb (str_eqb (ar_runId existing) runId) then Some "runId"
  else if negb (str_eqb (ar_stageId existing) stageId) then Some "stageId"
  else if negb (str_eqb (ar_name existing) (af_name ref)) then Some "name"
  else if negb (str_eqb (ar_contentHash existing) (af_contentHash ref)) then Some "contentHash"
  else if negb (ar_byteLength existing =? af_byteLength ref)%Z then Some "byteLength"
  else if negb (str_eqb (ar_mediaType existing) (af_mediaType ref)) then Some "mediaType"
  else if negb (str_eqb (ar_contentSchemaId existing) (af_contentSchemaId ref))
  then Some "contentSchemaId"
  else if negb (str_eqb (ar_producer existing) (af_producer ref)) then Some "producer"
  else if negb (bool_decide (ar_sourceLineage existing = af_sourceLineage ref))
  then Some "sourceLineage"
  else if negb (str_eqb (ar_relativePath existing) (af_path ref)) then Some "relativePath"
  else None.

Definition aliasOf (runId stageId : string) (ref : ArtifactRefPayload)
    (previous : option StageArtifactAliasState) : StageArtifactAliasState :=
  {| al_runId := runId; al_stageId := stageId; al_name := af_name ref;
     al_artifactId := af_artifactId ref;
     al_revision := (default 0 (al_revision <$> previous) + 1)%Z;
     al_lastEventSequence := ev_sequence event; al_updatedAt := ev_recordedAt event |}.

(** The loop over the references of a completed stage. *)
Fixpoint completeRefs (runId stageId : string) (seenNames : list string)
    (artifacts : gmap string ArtifactState) (aliases : gmap string StageArtifactAliasState)
    (refs : list ArtifactRefPayload)
    : Res (gmap string ArtifactState * gmap string StageArtifactAliasState) :=
  match refs with
  | [] => inr (artifacts, aliases)
  | ref :: rest =>
      when! set_has seenNames (af_name ref)
        throw "payload.artifacts has more than one entry named " +:+ quoted (af_name ref);
      let! artifacts' :=
        match artifacts !! af_artifactId ref with
        | None => inr (<[af_artifactId ref := artifactOf runId stageId ref]> artifacts)
        | Some existing =>
            match artifactMismatchField existing runId stageId ref with
            | Some mismatch =>
                inl ("artifact already exists with a different " +:+ mismatch +:+ ": " +:+
                     af_artifactId ref)
            | None => inr artifacts
            end
        end in
      let key := stageArtifactAliasKey runId stageId (af_name ref) in
      completeRefs runId stageId (set_add seenNames (af_name ref)) artifacts'
        (<[key := aliasOf runId stageId ref (aliases !! key)]> aliases) rest
  end.

Definition applyStageCompleted : Res ProjectionState :=
  let! runId := requireRunId event payload in
  let! previousRun := runOf runId in
  let! stageId := requireStageId payload in
  let! refs := requireArtifactRefs payload "artifacts" in
  let! tables :=
    completeRefs runId stageId [] (st_artifacts state) (st_stageArtifactAliases state) refs in
  let completed := with_artifacts state (fst tables) (snd tables) in
  match map_get payload "terminalRunStatus" with
  | None => inr completed
  | Some status =>
      when! negb (bool_decide (nullableString (Some status) = Some "succeeded"))
        throw "payload.terminalRunStatus must be succeeded when present";
      inr (with_runs completed
             (<[runId := run_with_status (touchRun previousRun) "succeeded"]> (st_runs state)))
  end.
End Reducer.

Definition applyEvent (state : ProjectionState) (event : StateEvent) : Res ProjectionState :=
  let! payload := payloadObject event in
  match kindOf (ev_type event) with
  | None => inl UNKNOWN_EVENT
  | Some kind =>
      when! run_scoped kind && bool_decide (ev_runId event = None)
        throw "a run.* event must carry a run_id";
      when! stage_scoped kind && bool_decide (ev_runId event = None)
        throw "an artifact/stage event must carry a run_id";
      match kind with
      | ek_run_created => applyRunCreated event payload state
      | ek_run_status_changed => applyRunStatusChanged event payload state
      | ek_run_touched => applyRunTouched event payload state
      | ek_run_workspace_assigned => applyRunWorkspaceAssigned event payload state
      | ek_run_instructions_snapshotted => applyInstructionsSnapshotted event payload state
      | ek_run_capability => applyCapability event payload state
      | ek_codebase_registered => applyCodebaseRegistered event payload state
      | ek_repository_registered => applyRepositoryRegistered event payload state
      | ek_registration_committed => applyRegistrationCommitted event payload state
      | ek_workspace_registered => applyWorkspaceRegistered event payload state
      | ek_workspace_provisioning_recorded => applyProvisioningRecorded event payload state
      | ek_workspace_lease kind => applyLease event payload state kind
      | ek_artifact_published => applyArtifactPublished event payload state
      | ek_stage_completed => applyStageCompleted event payload state
      end
  end.
