(* ===== verification/ProjectionStore.v ===== *)
(** * Writing and reading the projection

    The row views and the diff of [packages/state/src/projection/state.ts], the
    statements and the transaction of [command/commit.ts], the journal of
    [journal/append.ts] and [read.ts], and [replay/].  SQLite is modelled by
    what its statements do to a table: rows keyed by their primary key,
    [INSERT] of a fresh key, [UPDATE] of the row with a key and a revision,
    [ROLLBACK] to the state at [BEGIN]. *)

From stdpp Require Import gmap.
From Stdlib Require Import Ascii.
From S2P Require Import Prelude Ids Json Recovery CanonicalJson JsonProps StateJson Projection.
Local Open Scope res_scope.

(** ** Rows as columns *)

Inductive SqlValue :=
| sql_null
| sql_integer (z : Z)
| sql_text (s : string).

#[export] Instance SqlValue_eq_dec : EqDecision SqlValue.
Proof. solve_decision. Defined.

Definition sql_nullable (o : option string) : SqlValue :=
  match o with Some s => sql_text s | None => sql_null end.

Definition SqlRow := list (string * SqlValue).

Definition runRow (state : RunState) : SqlRow :=
  [ ("run_id", sql_text (rs_runId state)); ("status", sql_text (rs_status state));
    ("revision", sql_integer (rs_revision state));
    ("last_event_sequence", sql_integer (rs_lastEventSequence state));
    ("codebase_id", sql_text (rs_codebaseId state)); ("updated_at", sql_text (rs_updatedAt state));
    ("workspace_id", sql_nullable (rs_workspaceId state));
    ("instruction_snapshot_sha256", sql_nullable (rs_instructionSnapshotSha256 state));
    ("instruction_snapshot_json", sql_nullable (rs_instructionSnapshotJson state));
    ("capability_landing_json", sql_nullable (rs_capabilityLandingJson state)) ].

Definition codebaseRow (state : CodebaseState) : SqlRow :=
  [ ("codebase_id", sql_text (cb_codebaseId state)); ("revision", sql_integer (cb_revision state));
    ("last_event_sequence", sql_integer (cb_lastEventSequence state));
    ("updated_at", sql_text (cb_updatedAt state)); ("name", sql_nullable (cb_name state));
    ("root_path", sql_nullable (cb_rootPath state));
    ("topology_sha256", sql_nullable (cb_topologySha256 state));
    ("configuration_sha256", sql_nullable (cb_configurationSha256 state));
    ("registration_json", sql_nullable (cb_registrationJson state));
    ("instruction_snapshot_json", sql_nullable (cb_instructionSnapshotJson state)) ].

Definition repositoryRow (state : RepositoryState) : SqlRow :=
  [ ("repository_id", sql_text (rep_repositoryId state));
    ("codebase_id", sql_text (rep_codebaseId state)); ("revision", sql_integer (rep_revision state));
    ("last_event_sequence", sql_integer (rep_lastEventSequence state));
    ("updated_at", sql_text (rep_updatedAt state)); ("name", sql_nullable (rep_name state));
    ("repository_path", sql_nullable (rep_repositoryPath state));
    ("git_common_directory", sql_nullable (rep_gitCommonDirectory state));
    ("remotes_json", sql_nullable (rep_remotesJson state));
    ("default_remote", sql_nullable (rep_defaultRemote state));
    ("default_branch", sql_nullable (rep_defaultBranch state)) ].

Definition workspaceRow (state : WorkspaceState) : SqlRow :=
  [ ("workspace_id", sql_text (wk_workspaceId state));
    ("codebase_id", sql_text (wk_codebaseId state));
    ("repository_id", sql_nullable (wk_repositoryId state));
    ("lifecycle_status", sql_nullable (wk_lifecycleStatus state));
    ("checkout_path", sql_nullable (wk_checkoutPath state));
    ("configuration_sha256", sql_nullable (wk_configurationSha256 state));
    ("manifest_json", sql_nullable (wk_manifestJson state));
    ("revision", sql_integer (wk_revision state));
    ("last_event_sequence", sql_integer (wk_lastEventSequence state));
    ("updated_at", sql_text (wk_updatedAt state)) ].

Definition workspaceLeaseRow (state : WorkspaceLeaseState) : SqlRow :=
  [ ("checkout_path", sql_text (wl_checkoutPath state));
    ("workspace_id", sql_text (wl_workspaceId state));
    ("repository_id", sql_text (wl_repositoryId state)); ("lease_id", sql_text (wl_leaseId state));
    ("owner_id", sql_text (wl_ownerId state)); ("boot_witness", sql_nullable (wl_bootWitness state));
    ("process_witnesses_json", sql_text (wl_processWitnessesJson state));
    ("expected_sha", sql_text (wl_expectedSha state));
    ("fencing_revision", sql_integer (wl_fencingRevision state));
    ("lease_state", sql_text (wl_leaseState state));
    ("acquired_at", sql_text (wl_acquiredAt state)); ("renewed_at", sql_text (wl_renewedAt state));
    ("expires_at", sql_text (wl_expiresAt state));
    ("released_at", sql_nullable (wl_releasedAt state));
    ("revision", sql_integer (wl_revision state));
    ("last_event_sequence", sql_integer (wl_lastEventSequence state));
    ("updated_at", sql_text (wl_updatedAt state)) ].

(** [stringifyCanonical] on an array of strings; it is shallow, so it does not
    throw. *)
Definition lineageText (lineage : list string) : string :=
  default "" (stringifyCanonical (JArray (map (fun s => JScalar (SString s)) lineage))).

Definition artifactRow (state : ArtifactState) : SqlRow :=
  [ ("artifact_id", sql_text (ar_artifactId state)); ("run_id", sql_text (ar_runId state));
    ("stage_id", sql_text (ar_stageId state)); ("name", sql_text (ar_name state));
    ("content_hash", sql_text (ar_contentHash state));
    ("byte_length", sql_integer (ar_byteLength state));
    ("media_type", sql_text (ar_mediaType state));
    ("content_schema_id", sql_text (ar_contentSchemaId state));
    ("producer", sql_text (ar_producer state));
    ("source_lineage", sql_text (lineageText (ar_sourceLineage state)));
    ("relative_path", sql_text (ar_relativePath state));
    ("created_at", sql_text (ar_createdAt state)); ("revision", sql_integer (ar_revision state));
    ("last_event_sequence", sql_integer (ar_lastEventSequence state)) ].

Definition stageArtifactAliasRow (state : StageArtifactAliasState) : SqlRow :=
  [ ("run_id", sql_text (al_runId state)); ("stage_id", sql_text (al_stageId state));
    ("name", sql_text (al_name state)); ("artifact_id", sql_text (al_artifactId state));
    ("revision", sql_integer (al_revision state));
    ("last_event_sequence", sql_integer (al_lastEventSequence state));
    ("updated_at", sql_text (al_updatedAt state)) ].

(** ** The diff *)

Inductive ProjectionTable :=
| t_artifact | t_codebase | t_repository | t_run_projection | t_stage_artifact_alias
| t_workspace | t_workspace_lease.

#[export] Instance ProjectionTable_eq_dec : EqDecision ProjectionTable.
Proof. solve_decision. Defined.

Record ProjectionWrite := {
  pw_table : ProjectionTable;
  pw_key : string;
  pw_previousRevision : option Z;
  pw_row : SqlRow
}.

Record TableView (T : Type) := {
  tv_table : ProjectionTable;
  tv_select : ProjectionState -> gmap string T;
  tv_revisionOf : T -> Z;
  tv_toRow : T -> SqlRow
}.
Arguments tv_table {T} _.
Arguments tv_select {T} _ _.
Arguments tv_revisionOf {T} _ _.
Arguments tv_toRow {T} _ _.

Definition RUN_VIEW : TableView RunState :=
  {| tv_table := t_run_projection; tv_select := st_runs; tv_revisionOf := rs_revision;
     tv_toRow := runRow |}.
Definition CODEBASE_VIEW : TableView CodebaseState :=
  {| tv_table := t_codebase; tv_select := st_codebases; tv_revisionOf := cb_revision;
     tv_toRow := codebaseRow |}.
Definition REPOSITORY_VIEW : TableView RepositoryState :=
  {| tv_table := t_repository; tv_select := st_repositories; tv_revisionOf := rep_revision;
     tv_toRow := repositoryRow |}.
Definition WORKSPACE_VIEW : TableView WorkspaceState :=
  {| tv_table := t_workspace; tv_select := st_workspaces; tv_revisionOf := wk_revision;
     tv_toRow := workspaceRow |}.
Definition WORKSPACE_LEASE_VIEW : TableView WorkspaceLeaseState :=
  {| tv_table := t_workspace_lease; tv_select := st_workspaceLeases; tv_revisionOf := wl_revision;
     tv_toRow := workspaceLeaseRow |}.
Definition ARTIFACT_VIEW : TableView ArtifactState :=
  {| tv_table := t_artifact; tv_select := st_artifacts; tv_revisionOf := ar_revision;
     tv_toRow := artifactRow |}.
Definition STAGE_ARTIFACT_ALIAS_VIEW : TableView StageArtifactAliasState :=
  {| tv_table := t_stage_artifact_alias; tv_select := st_stageArtifactAliases;
     tv_revisionOf := al_revision; tv_toRow := stageArtifactAliasRow |}.

(** [Object.keys(rows).sort()]. *)
Definition sorted_keys {T} (rows : gmap string T) : list string :=
  sort_strings (map fst (map_to_list rows)).

Definition diffRow {T} (view : TableView T) (beforeRows : gmap string T) (key : string) (next : T)
    : list ProjectionWrite :=
  match beforeRows !! key with
  | None =>
      [ {| pw_table := tv_table view; pw_key := key; pw_previousRevision := None;
           pw_row := tv_toRow view next |} ]
  | Some previous =>
      if (tv_revisionOf view previous =? tv_revisionOf view next)%Z then []
      else [ {| pw_table := tv_table view; pw_key := key;
                pw_previousRevision := Some (tv_revisionOf view previous);
                pw_row := tv_toRow view next |} ]
  end.

Definition diffTable {T} (view : TableView T) (before after : ProjectionState)
    : list ProjectionWrite :=
  flat_map (fun key =>
      match tv_select view after !! key with
      | None => []
      | Some next => diffRow view (tv_select view before) key next
      end)
    (sorted_keys (tv_select view after)).

(** In the order of [TABLE_ORDER]. *)
Definition diffProjectionState (before after : ProjectionState) : list ProjectionWrite :=
  diffTable ARTIFACT_VIEW before after ++ diffTable CODEBASE_VIEW before after ++
  diffTable REPOSITORY_VIEW before after ++ diffTable RUN_VIEW before after ++
  diffTable STAGE_ARTIFACT_ALIAS_VIEW before after ++ diffTable WORKSPACE_VIEW before after ++
  diffTable WORKSPACE_LEASE_VIEW before after.

(** ** Statements ([TABLE_SQL]) *)

Record TableSql := {
  ts_insertColumns : list string;
  ts_updateColumns : list string;
  ts_updateKeyColumns : list string
}.

Definition RUN_PROJECTION_SQL : TableSql :=
  {| ts_insertColumns :=
       [ "run_id"; "status"; "revision"; "last_event_sequence"; "codebase_id"; "updated_at";
         "workspace_id"; "instruction_snapshot_sha256"; "instruction_snapshot_json";
         "capability_landing_json" ];
     ts_updateColumns :=
       [ "status"; "revision"; "last_event_sequence"; "codebase_id"; "updated_at";
         "workspace_id"; "instruction_snapshot_sha256"; "instruction_snapshot_json";
         "capability_landing_json" ];
     ts_updateKeyColumns := ["run_id"] |}.

Definition codebase_sql : TableSql :=
  {| ts_insertColumns :=
       [ "codebase_id"; "revision"; "last_event_sequence"; "updated_at"; "name"; "root_path";
         "topology_sha256"; "configuration_sha256"; "registration_json";
         "instruction_snapshot_json" ];
     ts_updateColumns :=
       [ "revision"; "last_event_sequence"; "updated_at"; "name"; "root_path";
         "topology_sha256"; "configuration_sha256"; "registration_json";
         "instruction_snapshot_json" ];
     ts_updateKeyColumns := ["codebase_id"] |}.

Definition repository_sql : TableSql :=
  {| ts_insertColumns :=
       [ "repository_id"; "codebase_id"; "revision"; "last_event_sequence"; "updated_at";
         "name"; "repository_path"; "git_common_directory"; "remotes_json"; "default_remote";
         "default_branch" ];
     ts_updateColumns :=
       [ "codebase_id"; "revision"; "last_event_sequence"; "updated_at"; "name";
         "repository_path"; "git_common_directory"; "remotes_json"; "default_remote";
         "default_branch" ];
     ts_updateKeyColumns := ["repository_id"] |}.

Definition workspace_sql : TableSql :=
  {| ts_insertColumns :=
       [ "workspace_id"; "codebase_id"; "repository_id"; "lifecycle_status"; "checkout_path";
         "configuration_sha256"; "manifest_json"; "revision"; "last_event_sequence";
         "updated_at" ];
     ts_updateColumns :=
       [ "codebase_id"; "repository_id"; "lifecycle_status"; "checkout_path";
         "configuration_sha256"; "manifest_json"; "revision"; "last_event_sequence";
         "updated_at" ];
     ts_updateKeyColumns := ["workspace_id"] |}.

Definition workspace_lease_sql : TableSql :=
  {| ts_insertColumns :=
       [ "checkout_path"; "workspace_id"; "repository_id"; "lease_id"; "owner_id";
         "boot_witness"; "process_witnesses_json"; "expected_sha"; "fencing_revision";
         "lease_state"; "acquired_at"; "renewed_at"; "expires_at"; "released_at"; "revision";
         "last_event_sequence"; "updated_at" ];
     ts_updateColumns :=
       [ "workspace_id"; "repository_id"; "lease_id"; "owner_id"; "boot_witness";
         "process_witnesses_json"; "expected_sha"; "fencing_revision"; "lease_state";
         "acquired_at"; "renewed_at"; "expires_at"; "released_at"; "revision";
         "last_event_sequence"; "updated_at" ];
     ts_updateKeyColumns := ["checkout_path"] |}.

Definition artifact_sql : TableSql :=
  {| ts_insertColumns :=
       [ "artifact_id"; "run_id"; "stage_id"; "name"; "content_hash"; "byte_length";
         "media_type"; "content_schema_id"; "producer"; "source_lineage"; "relative_path";
         "created_at"; "revision"; "last_event_sequence" ];
     ts_updateColumns := ["revision"; "last_event_sequence"];
     ts_updateKeyColumns := ["artifact_id"] |}.

Definition stage_artifact_alias_sql : TableSql :=
  {| ts_insertColumns :=
       [ "run_id"; "stage_id"; "name"; "artifact_id"; "revision"; "last_event_sequence";
         "updated_at" ];
     ts_updateColumns := ["artifact_id"; "revision"; "last_event_sequence"; "updated_at"];
     ts_updateKeyColumns := ["run_id"; "stage_id"; "name"] |}.

Definition TABLE_SQL (table : ProjectionTable) : TableSql :=
  match table with
  | t_run_projection => RUN_PROJECTION_SQL
  | t_codebase => codebase_sql
  | t_repository => repository_sql
  | t_workspace => workspace_sql
  | t_workspace_lease => workspace_lease_sql
  | t_artifact => artifact_sql
  | t_stage_artifact_alias => stage_artifact_alias_sql
  end.

(** A missing column is the [StateStoreError] of [boundValues]. *)
Definition boundValues (row : SqlRow) (columns : list string) : option (list SqlValue) :=
  traverse (map_get row) columns.

(** ** The database *)

#[export] Instance SqlValue_countable : Countable SqlValue.
Proof.
  refine (inj_countable'
    (fun v => match v with sql_null => None | sql_integer z => Some (inl z)
                         | sql_text s => Some (inr s) end)
    (fun o => match o with None => sql_null | Some (inl z) => sql_integer z
                         | Some (inr s) => sql_text s end) _).
  by intros [].
Defined.

#[export] Instance ProjectionTable_countable : Countable ProjectionTable.
Proof.
  refine (inj_countable'
    (fun t => match t with t_artifact => 0%nat | t_codebase => 1%nat | t_repository => 2%nat
              | t_run_projection => 3%nat | t_stage_artifact_alias => 4%nat | t_workspace => 5%nat
              | t_workspace_lease => 6%nat end)
    (fun n => match n with 0 => t_artifact | 1 => t_codebase | 2 => t_repository
              | 3 => t_run_projection | 4 => t_stage_artifact_alias | 5 => t_workspace
              | _ => t_workspace_lease end%nat) _).
  by intros [].
Defined.

Notation Columns := (gmap string SqlValue).

(** A row of [state_event]. *)
Record EventRow := {
  er_sequence : Z;
  er_event_id : string;
  er_run_id : option string;
  er_correlation_id : string;
  er_causation_event_id : option string;
  er_type : string;
  er_recorded_at : string;
  er_payload : string
}.

(** The journal in the order of [sequence], and the rows of the projection
    tables by their primary keys. *)
Record Database := {
  db_isTransaction : bool;
  db_events : list EventRow;
  db_rows : gmap (ProjectionTable * list SqlValue) Columns
}.

Definition with_rows (db : Database) (rows : gmap (ProjectionTable * list SqlValue) Columns)
    : Database :=
  {| db_isTransaction := db_isTransaction db; db_events := db_events db; db_rows := rows |}.

Definition integer_column (row : Columns) (column : string) : option Z :=
  match row !! column with Some (sql_integer z) => Some z | _ => None end.

(** The guards of the schema ([migrations/list.ts]): a first row has revision
    1 (and a lease has fence 1), an update advances the revision by one and
    cites a newer event, an artifact is never updated. *)
Definition first_revision (table : ProjectionTable) (row : Columns) : bool :=
  bool_decide (integer_column row "revision" = Some 1%Z) &&
  match table with
  | t_workspace_lease => bool_decide (integer_column row "fencing_revision" = Some 1%Z)
  | _ => true
  end.

Definition causal_update (table : ProjectionTable) (old new : Columns) : bool :=
  match table with
  | t_artifact => false
  | _ =>
      match integer_column old "revision", integer_column new "revision",
            integer_column old "last_event_sequence", integer_column new "last_event_sequence" with
      | Some r, Some r', Some e, Some e' => (r' =? r + 1)%Z && (e <? e')%Z
      | _, _, _, _ => false
      end
  end.

(** The constraints of the schema beside those guards and the primary keys:
    checks, foreign keys and unique indexes, which see the whole database. *)
Class SchemaChecks := schema_checks : Database -> ProjectionTable -> Columns -> bool.

Definition primary_key (table : ProjectionTable) (row : SqlRow) : option (list SqlValue) :=
  boundValues row (ts_updateKeyColumns (TABLE_SQL table)).

(** ** Journal *)

Definition is_lower (c : ascii) : bool := ((97 <=? N_of_ascii c) && (N_of_ascii c <=? 122))%N.
Definition is_word (c : ascii) : bool := is_lower c || is_digit c || bool_decide (c = "_"%char).

(** [[a-z][a-z0-9_]*]. *)
Definition type_segment (s : string) : bool :=
  match s with
  | String c rest => is_lower c && forallb is_word (String.list_ascii_of_string rest)
  | EmptyString => false
  end.

Definition EVENT_TYPE_PATTERN (type : string) : bool :=
  match js_split "." type with [a; b] => type_segment a && type_segment b | _ => false end.

(** [Number.MAX_SAFE_INTEGER], [2 ^ 53 - 1]. *)
Definition MAX_SAFE_INTEGER : Z := 9007199254740991.

Definition MAX_PAYLOAD_BYTES : Z := 65536.
Definition MAX_RUN_ID_BYTES : Z := 256.

Definition latestSequence (db : Database) : Z :=
  fold_left Z.max (map er_sequence (db_events db)) 0%Z.

Definition readEventById (db : Database) (eventId : string) : option EventRow :=
  List.find (fun row => str_eqb (er_event_id row) eventId) (db_events db).

Definition toStateEvent (row : EventRow) : Res StateEvent :=
  match parseJsonValue (er_payload row) with
  | None => inl "state_event.payload is not valid JSON"
  | Some payload =>
      inr {| ev_sequence := er_sequence row; ev_eventId := er_event_id row;
             ev_runId := er_run_id row; ev_correlationId := er_correlation_id row;
             ev_causationEventId := er_causation_event_id row; ev_type := er_type row;
             ev_recordedAt := er_recorded_at row; ev_payload := payload |}
  end.

(** The rows with [sequence <= throughSequence], in order. *)
Definition readEvents (db : Database) (throughSequence : Z) : Res (list StateEvent) :=
  rtraverse (fun _ row => toStateEvent row) 0
    (List.filter (fun row => er_sequence row <=? throughSequence)%Z (db_events db)).

Record AppendEventFields := {
  ae_runId : option string;
  ae_type : string;
  ae_payload : JsonValue;
  ae_correlationId : string;
  ae_causationEventId : option string;
  ae_recordedAt : string
}.

(** [eventId] is what the id generator returns. *)
Definition appendEvent (db : Database) (eventId : string) (input : AppendEventFields)
    : Res (StateEvent * Database) :=
  when! negb (EVENT_TYPE_PATTERN (ae_type input))
    throw "appendEvent: event type must match the pattern";
  when! bool_decide (ae_runId input = Some "") throw "appendEvent: runId must not be empty";
  when! (MAX_RUN_ID_BYTES <? utf8ByteLength (default "" (ae_runId input)))%Z
    throw "appendEvent: runId exceeds the bound";
  match stringifyCanonical (ae_payload input) with
  | None => inl "canonicalize: value cannot be represented"
  | Some text =>
      when! (MAX_PAYLOAD_BYTES <? utf8ByteLength text)%Z throw "payload too large";
      when! existsb (fun row => str_eqb (er_event_id row) eventId) (db_events db)
        throw "UNIQUE constraint failed: state_event.event_id";
      let sequence := (latestSequence db + 1)%Z in
      when! (MAX_SAFE_INTEGER <? sequence)%Z throw "state_event.sequence is not a safe integer";
      inr ({| ev_sequence := sequence; ev_eventId := eventId; ev_runId := ae_runId input;
              ev_correlationId := ae_correlationId input;
              ev_causationEventId := ae_causationEventId input; ev_type := ae_type input;
              ev_recordedAt := ae_recordedAt input; ev_payload := ae_payload input |},
           {| db_isTransaction := db_isTransaction db;
              db_events := db_events db ++
                [ {| er_sequence := sequence; er_event_id := eventId; er_run_id := ae_runId input;
                     er_correlation_id := ae_correlationId input;
                     er_causation_event_id := ae_causationEventId input;
                     er_type := ae_type input; er_recorded_at := ae_recordedAt input;
                     er_payload := text |} ];
              db_rows := db_rows db |})
  end.

(** ** Reading rows back *)

Definition toText (row : Columns) (column : string) : Res string :=
  match row !! column with
  | Some (sql_text s) => inr s
  | _ => inl (column +:+ " is not a string")
  end.

Definition toNullableText (row : Columns) (column : string) : Res (option string) :=
  match row !! column with
  | Some sql_null => inr None
  | Some (sql_text s) => inr (Some s)
  | _ => inl (column +:+ " is not a string")
  end.

Definition toSafeInteger (row : Columns) (column : string) : Res Z :=
  match row !! column with
  | Some (sql_integer z) =>
      if (Z.abs z <=? MAX_SAFE_INTEGER)%Z then inr z else inl (column +:+ " is not a safe integer")
  | _ => inl (column +:+ " is not a number or bigint")
  end.

Definition toRunProjectionRow (raw : Columns) : Res RunState :=
  let! status := toText raw "status" in
  when! negb (isRunStatus status) throw "run_projection.status is not a known RunStatus";
  let! runId := toText raw "run_id" in
  let! revision := toSafeInteger raw "revision" in
  let! lastEventSequence := toSafeInteger raw "last_event_sequence" in
  let! workspaceId := toNullableText raw "workspace_id" in
  let! codebaseId := toText raw "codebase_id" in
  let! updatedAt := toText raw "updated_at" in
  let! sha256 := toNullableText raw "instruction_snapshot_sha256" in
  let! json := toNullableText raw "instruction_snapshot_json" in
  let! landing := toNullableText raw "capability_landing_json" in
  inr {| rs_runId := runId; rs_status := status; rs_revision := revision;
         rs_lastEventSequence := lastEventSequence; rs_workspaceId := workspaceId;
         rs_codebaseId := codebaseId; rs_updatedAt := updatedAt;
         rs_instructionSnapshotSha256 := sha256; rs_instructionSnapshotJson := json;
         rs_capabilityLandingJson := landing |}.

Definition toCodebaseRow (raw : Columns) : Res CodebaseState :=
  let! codebaseId := toText raw "codebase_id" in
  let! revision := toSafeInteger raw "revision" in
  let! lastEventSequence := toSafeInteger raw "last_event_sequence" in
  let! updatedAt := toText raw "updated_at" in
  let! name := toNullableText raw "name" in
  let! rootPath := toNullableText raw "root_path" in
  let! topologySha256 := toNullableText raw "topology_sha256" in
  let! configurationSha256 := toNullableText raw "configuration_sha256" in
  let! registrationJson := toNullableText raw "registration_json" in
  let! instructionSnapshotJson := toNullableText raw "instruction_snapshot_json" in
  inr {| cb_codebaseId := codebaseId; cb_revision := revision;
         cb_lastEventSequence := lastEventSequence; cb_updatedAt := updatedAt; cb_name := name;
         cb_rootPath := rootPath; cb_topologySha256 := topologySha256;
         cb_configurationSha256 := configurationSha256; cb_registrationJson := registrationJson;
         cb_instructionSnapshotJson := instructionSnapshotJson |}.

Definition toRepositoryRow (raw : Columns) : Res RepositoryState :=
  let! repositoryId := toText raw "repository_id" in
  let! codebaseId := toText raw "codebase_id" in
  let! revision := toSafeInteger raw "revision" in
  let! lastEventSequence := toSafeInteger raw "last_event_sequence" in
  let! updatedAt := toText raw "updated_at" in
  let! name := toNullableText raw "name" in
  let! repositoryPath := toNullableText raw "repository_path" in
  let! gitCommonDirectory := toNullableText raw "git_common_directory" in
  let! remotesJson := toNullableText raw "remotes_json" in
  let! defaultRemote := toNullableText raw "default_remote" in
  let! defaultBranch := toNullableText raw "default_branch" in
  inr {| rep_repositoryId := repositoryId; rep_codebaseId := codebaseId; rep_revision := revision;
         rep_lastEventSequence := lastEventSequence; rep_updatedAt := updatedAt; rep_name := name;
         rep_repositoryPath := repositoryPath; rep_gitCommonDirectory := gitCommonDirectory;
         rep_remotesJson := remotesJson; rep_defaultRemote := defaultRemote;
         rep_defaultBranch := defaultBranch |}.

Definition toWorkspaceRow (raw : Columns) : Res WorkspaceState :=
  let! workspaceId := toText raw "workspace_id" in
  let! codebaseId := toText raw "codebase_id" in
  let! repositoryId := toNullableText raw "repository_id" in
  let! lifecycleStatus := toNullableText raw "lifecycle_status" in
  let! checkoutPath := toNullableText raw "checkout_path" in
  let! configurationSha256 := toNullableText raw "configuration_sha256" in
  let! manifestJson := toNullableText raw "manifest_json" in
  let! revision := toSafeInteger raw "revision" in
  let! lastEventSequence := toSafeInteger raw "last_event_sequence" in
  let! updatedAt := toText raw "updated_at" in
  inr {| wk_workspaceId := workspaceId; wk_codebaseId := codebaseId;
         wk_repositoryId := repositoryId; wk_lifecycleStatus := lifecycleStatus;
         wk_checkoutPath := checkoutPath; wk_configurationSha256 := configurationSha256;
         wk_manifestJson := manifestJson; wk_revision := revision;
         wk_lastEventSequence := lastEventSequence; wk_updatedAt := updatedAt |}.

Definition toWorkspaceLeaseRow (raw : Columns) : Res WorkspaceLeaseState :=
  let! checkoutPath := toText raw "checkout_path" in
  let! workspaceId := toText raw "workspace_id" in
  let! repositoryId := toText raw "repository_id" in
  let! leaseId := toText raw "lease_id" in
  let! ownerId := toText raw "owner_id" in
  let! bootWitness := toNullableText raw "boot_witness" in
  let! processWitnessesJson := toText raw "process_witnesses_json" in
  let! expectedSha := toText raw "expected_sha" in
  let! fencingRevision := toSafeInteger raw "fencing_revision" in
  let! leaseState := toText raw "lease_state" in
  let! acquiredAt := toText raw "acquired_at" in
  let! renewedAt := toText raw "renewed_at" in
  let! expiresAt := toText raw "expires_at" in
  let! releasedAt := toNullableText raw "released_at" in
  let! revision := toSafeInteger raw "revision" in
  let! lastEventSequence := toSafeInteger raw "last_event_sequence" in
  let! updatedAt := toText raw "updated_at" in
  inr {| wl_checkoutPath := checkoutPath; wl_workspaceId := workspaceId;
         wl_repositoryId := repositoryId; wl_leaseId := leaseId; wl_ownerId := ownerId;
         wl_bootWitness := bootWitness; wl_processWitnessesJson := processWitnessesJson;
         wl_expectedSha := expectedSha; wl_fencingRevision := fencingRevision;
         wl_leaseState := leaseState; wl_acquiredAt := acquiredAt; wl_renewedAt := renewedAt;
         wl_expiresAt := expiresAt; wl_releasedAt := releasedAt; wl_revision := revision;
         wl_lastEventSequence := lastEventSequence; wl_updatedAt := updatedAt |}.

Definition toArtifactIdArray (raw : Columns) (column : string) : Res (list string) :=
  let! text := toText raw column in
  match parseJsonValue text with
  | None => inl (column +:+ " is not valid JSON")
  | Some (JArray items) =>
      match traverse string_of items with
      | Some ids => inr ids
      | None => inl (column +:+ " is not a string")
      end
  | Some _ => inl (column +:+ " is not a JSON array")
  end.

Definition toArtifactRow (raw : Columns) : Res ArtifactState :=
  let! artifactId := toText raw "artifact_id" in
  let! runId := toText raw "run_id" in
  let! stageId := toText raw "stage_id" in
  let! name := toText raw "name" in
  let! contentHash := toText raw "content_hash" in
  let! byteLength := toSafeInteger raw "byte_length" in
  let! mediaType := toText raw "media_type" in
  let! contentSchemaId := toText raw "content_schema_id" in
  let! producer := toText raw "producer" in
  let! sourceLineage := toArtifactIdArray raw "source_lineage" in
  let! relativePath := toText raw "relative_path" in
  let! createdAt := toText raw "created_at" in
  let! revision := toSafeInteger raw "revision" in
  let! lastEventSequence := toSafeInteger raw "last_event_sequence" in
  inr {| ar_artifactId := artifactId; ar_runId := runId; ar_stageId := stageId; ar_name := name;
         ar_contentHash := contentHash; ar_byteLength := byteLength; ar_mediaType := mediaType;
         ar_contentSchemaId := contentSchemaId; ar_producer := producer;
         ar_sourceLineage := sourceLineage; ar_relativePath := relativePath;
         ar_createdAt := createdAt; ar_revision := revision;
         ar_lastEventSequence := lastEventSequence |}.

Definition toStageArtifactAliasRow (raw : Columns) : Res StageArtifactAliasState :=
  let! runId := toText raw "run_id" in
  let! stageId := toText raw "stage_id" in
  let! name := toText raw "name" in
  let! artifactId := toText raw "artifact_id" in
  let! revision := toSafeInteger raw "revision" in
  let! lastEventSequence := toSafeInteger raw "last_event_sequence" in
  let! updatedAt := toText raw "updated_at" in
  inr {| al_runId := runId; al_stageId := stageId; al_name := name; al_artifactId := artifactId;
         al_revision := revision; al_lastEventSequence := lastEventSequence;
         al_updatedAt := updatedAt |}.

(** The rows of one table, by the key the state gives them; [keyOf] reads it off
    the loaded row. *)
Section Loading.
Context {T : Type} (table : ProjectionTable) (toRow : Columns -> Res T) (keyOf : T -> string).

(** [for (const raw of SELECT ... ORDER BY key) rows[key] = toRow(raw)]; the
    keys are distinct, so the order does not matter. *)
Definition loadRow (acc : Res (gmap string T)) (entry : (ProjectionTable * list SqlValue) * Columns)
    : Res (gmap string T) :=
  let! rows := acc in
  if bool_decide (fst (fst entry) = table) then
    let! row := toRow (snd entry) in inr (<[keyOf row := row]> rows)
  else inr rows.

Definition loadTable (db : Database) : Res (gmap string T) :=
  fold_left loadRow (map_to_list (db_rows db)) (inr ∅).

(** [for (const key of scope) { const raw = SELECT ... WHERE key = ?; ... }]. *)
Definition loadKeys (db : Database) (keys : list (string * list SqlValue)) : Res (gmap string T) :=
  fold_left (fun acc (key : string * list SqlValue) =>
      let! rows := acc in
      match db_rows db !! (table, snd key) with
      | None => inr rows
      | Some raw => let! row := toRow raw in inr (<[fst key := row]> rows)
      end) keys (inr ∅).
End Loading.

Definition loadStoredProjectionState (db : Database) : Res ProjectionState :=
  let! runs := loadTable t_run_projection toRunProjectionRow rs_runId db in
  let! codebases := loadTable t_codebase toCodebaseRow cb_codebaseId db in
  let! repositories := loadTable t_repository toRepositoryRow rep_repositoryId db in
  let! workspaces := loadTable t_workspace toWorkspaceRow wk_workspaceId db in
  let! leases := loadTable t_workspace_lease toWorkspaceLeaseRow wl_checkoutPath db in
  let! artifacts := loadTable t_artifact toArtifactRow ar_artifactId db in
  let! aliases := loadTable t_stage_artifact_alias toStageArtifactAliasRow aliasKeyOf db in
  inr {| st_runs := runs; st_codebases := codebases; st_repositories := repositories;
         st_workspaces := workspaces; st_workspaceLeases := leases; st_artifacts := artifacts;
         st_stageArtifactAliases := aliases |}.

Definition single_keys (keys : list string) : list (string * list SqlValue) :=
  map (fun key => (key, [sql_text key])) keys.

Definition alias_keys (keys : list (string * string * string)) : list (string * list SqlValue) :=
  map (fun '(runId, stageId, name) =>
      (stageArtifactAliasKey runId stageId name, [sql_text runId; sql_text stageId; sql_text name]))
    keys.

Definition loadScopedProjectionState (db : Database) (scope : ProjectionScope)
    : Res ProjectionState :=
  let! runs := loadKeys t_run_projection toRunProjectionRow db (single_keys (sc_runs scope)) in
  let! codebases := loadKeys t_codebase toCodebaseRow db (single_keys (sc_codebases scope)) in
  let! repositories :=
    loadKeys t_repository toRepositoryRow db (single_keys (sc_repositories scope)) in
  let! workspaces := loadKeys t_workspace toWorkspaceRow db (single_keys (sc_workspaces scope)) in
  let! leases :=
    loadKeys t_workspace_lease toWorkspaceLeaseRow db (single_keys (sc_workspaceLeases scope)) in
  let! artifacts := loadKeys t_artifact toArtifactRow db (single_keys (sc_artifacts scope)) in
  let! aliases :=
    loadKeys t_stage_artifact_alias toStageArtifactAliasRow db
      (alias_keys (sc_stageArtifactAliases scope)) in
  inr {| st_runs := runs; st_codebases := codebases; st_repositories := repositories;
         st_workspaces := workspaces; st_workspaceLeases := leases; st_artifacts := artifacts;
         st_stageArtifactAliases := aliases |}.

(** ** The command *)

Record StateCommand := {
  cmd_runId : option string;
  cmd_type : string;
  cmd_payload : JsonValue;
  cmd_causationEventId : option string
}.

(** What the injected id generator and clock return during one command. *)
Record Ports := {
  po_correlationId : string;
  po_eventId : string;
  po_recordedAt : string;
  po_committedAt : string
}.

(** [sa_holds]: the assertion returns rather than throws. *)
Record StageArtifactAssertion := {
  sa_relativePath : string;
  sa_holds : bool
}.

Record CommitOptions := {
  co_primaryTable : option ProjectionTable;
  co_artifactRelativePaths : list string;
  co_assertions : list StageArtifactAssertion
}.

Record CommitReport := {
  rpt_eventId : string;
  rpt_sequence : Z;
  rpt_correlationId : string;
  rpt_revision : Z;
  rpt_writes : list (ProjectionTable * string * Z);
  rpt_committedAt : string
}.

Definition MAX_ARTIFACTS_PER_COMMAND : nat := 64.

Definition count_path (remaining : list (string * Z)) (path : string) : Z :=
  default 0%Z (map_get remaining path).

(** The second loop of [assertBijection]. *)
Fixpoint matchAssertions (remaining : list (string * Z)) (assertions : list StageArtifactAssertion)
    : bool :=
  match assertions with
  | [] => true
  | a :: rest =>
      let count := count_path remaining (sa_relativePath a) in
      if (count =? 0)%Z then false
      else matchAssertions (map_set remaining (sa_relativePath a) (count - 1)%Z) rest
  end.

Definition assertBijection (paths : list string) (assertions : list StageArtifactAssertion) : bool :=
  (length paths =? length assertions)%nat &&
  matchAssertions (fold_left (fun m p => map_set m p (count_path m p + 1)%Z) paths []) assertions.

Definition ARTIFACT_GUARDED_TABLES (table : ProjectionTable) : bool :=
  match table with t_artifact | t_stage_artifact_alias => true | _ => false end.

(** One write is outside the guarded tables or cites an asserted path. *)
Definition writeVerified (after : ProjectionState) (asserted : list string) (write : ProjectionWrite)
    : bool :=
  match pw_table write with
  | t_artifact =>
      match map_get (pw_row write) "relative_path" with
      | Some (sql_text path) => set_has asserted path
      | _ => false
      end
  | t_stage_artifact_alias =>
      match map_get (pw_row write) "artifact_id" with
      | Some (sql_text artifactId) =>
          match st_artifacts after !! artifactId with
          | Some artifact => set_has asserted (ar_relativePath artifact)
          | None => false
          end
      | _ => false
      end
  | _ => true
  end.

Definition assertGuardedWritesAreVerified (writes : list ProjectionWrite) (after : ProjectionState)
    (asserted : list string) : bool := forallb (writeVerified after asserted) writes.

Definition writtenRevision (write : ProjectionWrite) : Res Z :=
  match map_get (pw_row write) "revision" with
  | Some (sql_integer z) => inr z
  | _ => inl "commitStateChange: projection row has a non-numeric revision"
  end.

Section Commit.
Context `{SchemaChecks}.

Definition MISSING_COLUMN : string := "commitStateChange: projection row is missing a column".

Definition insertRow (db : Database) (write : ProjectionWrite) : Res Database :=
  let sql := TABLE_SQL (pw_table write) in
  match boundValues (pw_row write) (ts_insertColumns sql),
        primary_key (pw_table write) (pw_row write) with
  | Some values, Some key =>
      let row : Columns := list_to_map (zip (ts_insertColumns sql) values) in
      when! bool_decide (is_Some (db_rows db !! (pw_table write, key)))
        throw "UNIQUE constraint failed";
      when! negb (first_revision (pw_table write) row)
        throw "first projection revision must be 1";
      when! negb (schema_checks db (pw_table write) row) throw "constraint failed";
      inr (with_rows db (<[(pw_table write, key) := row]> (db_rows db)))
  | _, _ => inl MISSING_COLUMN
  end.

Definition updateRow (db : Database) (write : ProjectionWrite) (previousRevision : Z) : Res Database :=
  let sql := TABLE_SQL (pw_table write) in
  match boundValues (pw_row write) (ts_updateColumns sql),
        primary_key (pw_table write) (pw_row write) with
  | Some values, Some key =>
      match db_rows db !! (pw_table write, key) with
      | Some old =>
          when! negb (bool_decide (integer_column old "revision" = Some previousRevision))
            throw "commitStateChange: projection row was not at the revision";
          let row : Columns := list_to_map (zip (ts_updateColumns sql) values) ∪ old in
          when! negb (causal_update (pw_table write) old row)
            throw "projection update must advance revision by 1 and cite a newer event";
          when! negb (schema_checks db (pw_table write) row) throw "constraint failed";
          inr (with_rows db (<[(pw_table write, key) := row]> (db_rows db)))
      | None => inl "commitStateChange: projection row was not at the revision"
      end
  | _, _ => inl MISSING_COLUMN
  end.

Definition writeRow (db : Database) (write : ProjectionWrite) : Res Database :=
  match pw_previousRevision write with
  | None => insertRow db write
  | Some previousRevision => updateRow db write previousRevision
  end.

(** The loop over the writes, with what it reports. *)
Fixpoint writeRows (db : Database) (writes : list ProjectionWrite)
    : Res (list (ProjectionTable * string * Z) * Database) :=
  match writes with
  | [] => inr ([], db)
  | write :: rest =>
      let! revision := writtenRevision write in
      let! db' := writeRow db write in
      let! result := writeRows db' rest in
      inr ((pw_table write, pw_key write, revision) :: fst result, snd result)
  end.

(** The event the command appends, with the database that holds it. *)
Definition beginCommit (ports : Ports) (db : Database) (command : StateCommand)
    : Res (StateEvent * Database) :=
  let! correlationId :=
    match cmd_causationEventId command with
    | None => inr (po_correlationId ports)
    | Some cause =>
        match readEventById db cause with
        | None => inl "commitStateChange: causation event does not exist"
        | Some parent => let! event := toStateEvent parent in inr (ev_correlationId event)
        end
    end in
  appendEvent db (po_eventId ports)
    {| ae_runId := cmd_runId command; ae_type := cmd_type command;
       ae_payload := cmd_payload command; ae_correlationId := correlationId;
       ae_causationEventId := cmd_causationEventId command;
       ae_recordedAt := po_recordedAt ports |}.

(** An error rolls the transaction back: the caller's database stays as it
    was. *)
Definition commitStateChangeInternal (ports : Ports) (db : Database) (command : StateCommand)
    (options : CommitOptions) : Res (CommitReport * Database) :=
  when! db_isTransaction db
    throw "commitStateChange: refusing to run inside a transaction opened by the caller";
  when! negb (assertBijection (co_artifactRelativePaths options) (co_assertions options))
    throw "expected exactly one assertion per payload artifact";
  when! (MAX_ARTIFACTS_PER_COMMAND <? length (co_artifactRelativePaths options))%nat
    throw "too many artifacts";
  let! begun := beginCommit ports db command in
  let event := fst begun in
  let! scope := eventScope event in
  let! before := loadScopedProjectionState (snd begun) scope in
  let! after := applyEvent before event in
  let writes := diffProjectionState before after in
  when! negb (assertGuardedWritesAreVerified writes after (co_artifactRelativePaths options))
    throw "writing this table requires a verified publication assertion";
  let! written := writeRows (snd begun) writes in
  when! existsb (fun a => negb (sa_holds a)) (co_assertions options)
    throw "stage assertion failed";
  let reported := fst written in
  let primary :=
    match co_primaryTable options with
    | Some table => List.find (fun w => bool_decide (fst (fst w) = table)) reported
    | None => List.head reported
    end in
  inr ({| rpt_eventId := ev_eventId event; rpt_sequence := ev_sequence event;
          rpt_correlationId := ev_correlationId event;
          rpt_revision := default 0%Z (snd <$> primary); rpt_writes := reported;
          rpt_committedAt := po_committedAt ports |}, snd written).

Definition commitStateChange (ports : Ports) (db : Database) (command : StateCommand)
    : Res (CommitReport * Database) :=
  commitStateChangeInternal ports db command
    {| co_primaryTable := None; co_artifactRelativePaths := []; co_assertions := [] |}.
End Commit.

(** ** Replay *)

Fixpoint foldEvents (state : ProjectionState) (events : list StateEvent) : Res ProjectionState :=
  match events with
  | [] => inr state
  | event :: rest => let! state' := applyEvent state event in foldEvents state' rest
  end.

(** With the default reducer and through the latest event. *)
Definition replayJournal (db : Database) : Res (ProjectionState * nat * Z) :=
  let throughSequence := latestSequence db in
  let! events := readEvents db throughSequence in
  let! state := foldEvents EMPTY_PROJECTION_STATE events in
  inr (state, length events, throughSequence).
