(* ===== verification/ProjectionFrame.v ===== *)
(** * What an event reads and writes

    [eventScope] against [applyEvent]: folding an event over the rows of its
    scope is folding it over the whole projection; every change advances the
    row's revision by one and cites the event. *)

From stdpp Require Import gmap.
From S2P Require Import Prelude Ids Json Recovery CanonicalJson StateJson Projection.
Local Open Scope res_scope.

(** ** Tables that agree on a scope *)

Section Tables.
Context {T : Type}.
Implicit Types (m b : gmap string T) (keys : list string).

Definition agree keys m b : Prop := forall k, k ∈ keys -> m !! k = b !! k.

(** [m'] and [b'] result from [m] and [b] by the same changes, all in [keys]. *)
Record moved keys m b m' b' : Prop := {
  mv_agree : agree keys m' b';
  mv_frame : forall k, k ∉ keys -> m' !! k = m !! k;
  mv_local : forall k, k ∉ keys -> b' !! k = b !! k
}.

Lemma moved_refl keys m b : agree keys m b -> moved keys m b m b.
Proof. by split. Qed.

Lemma moved_insert keys m b m' b' k v :
  k ∈ keys -> moved keys m b m' b' -> moved keys m b (<[k := v]> m') (<[k := v]> b').
Proof.
  intros Hk [Ha Hf Hl]. split.
  - intros j Hj. destruct (decide (j = k)) as [->|Hne]; [by rewrite !lookup_insert_eq|].
    rewrite !lookup_insert_ne by done. by apply Ha.
  - intros j Hj. rewrite lookup_insert_ne by congruence. by apply Hf.
  - intros j Hj. rewrite lookup_insert_ne by congruence. by apply Hl.
Qed.
End Tables.

(** The keys of a scope. *)
Definition alias_scope (sc : ProjectionScope) : list string :=
  map (fun '(runId, stageId, name) => stageArtifactAliasKey runId stageId name)
    (sc_stageArtifactAliases sc).

Record scoped (sc : ProjectionScope) (s b : ProjectionState) : Prop := {
  sd_runs : agree (sc_runs sc) (st_runs s) (st_runs b);
  sd_codebases : agree (sc_codebases sc) (st_codebases s) (st_codebases b);
  sd_repositories : agree (sc_repositories sc) (st_repositories s) (st_repositories b);
  sd_workspaces : agree (sc_workspaces sc) (st_workspaces s) (st_workspaces b);
  sd_leases : agree (sc_workspaceLeases sc) (st_workspaceLeases s) (st_workspaceLeases b);
  sd_artifacts : agree (sc_artifacts sc) (st_artifacts s) (st_artifacts b);
  sd_aliases : agree (alias_scope sc) (st_stageArtifactAliases s) (st_stageArtifactAliases b)
}.

Record moves (sc : ProjectionScope) (s b s' b' : ProjectionState) : Prop := {
  ms_runs : moved (sc_runs sc) (st_runs s) (st_runs b) (st_runs s') (st_runs b');
  ms_codebases :
    moved (sc_codebases sc) (st_codebases s) (st_codebases b) (st_codebases s') (st_codebases b');
  ms_repositories : moved (sc_repositories sc) (st_repositories s) (st_repositories b)
    (st_repositories s') (st_repositories b');
  ms_workspaces : moved (sc_workspaces sc) (st_workspaces s) (st_workspaces b)
    (st_workspaces s') (st_workspaces b');
  ms_leases : moved (sc_workspaceLeases sc) (st_workspaceLeases s) (st_workspaceLeases b)
    (st_workspaceLeases s') (st_workspaceLeases b');
  ms_artifacts : moved (sc_artifacts sc) (st_artifacts s) (st_artifacts b)
    (st_artifacts s') (st_artifacts b');
  ms_aliases : moved (alias_scope sc) (st_stageArtifactAliases s) (st_stageArtifactAliases b)
    (st_stageArtifactAliases s') (st_stageArtifactAliases b')
}.

(** Both throw the same reason, or both succeed with the same changes. *)
Definition in_step (sc : ProjectionScope) (s b : ProjectionState) (x y : Res ProjectionState) : Prop :=
  match x, y with
  | inl r, inl r' => r = r'
  | inr s', inr b' => moves sc s b s' b'
  | _, _ => False
  end.

Lemma moves_refl sc s b : scoped sc s b -> moves sc s b s b.
Proof. intros []. split; by apply moved_refl. Qed.

Section InStep.
Context (sc : ProjectionScope) (s b : ProjectionState) (Hsc : scoped sc s b).

Lemma in_step_refl : in_step sc s b (inr s) (inr b).
Proof. by apply moves_refl. Qed.

Lemma in_step_run k r :
  k ∈ sc_runs sc -> in_step sc s b (inr (set_run s r k)) (inr (set_run b r k)).
Proof.
  intros Hk. destruct Hsc. split; simpl; try (by apply moved_refl).
  apply moved_insert; [done|by apply moved_refl].
Qed.

Lemma in_step_codebase k r :
  k ∈ sc_codebases sc ->
  in_step sc s b (inr (with_codebases s (<[k := r]> (st_codebases s))))
    (inr (with_codebases b (<[k := r]> (st_codebases b)))).
Proof.
  intros Hk. destruct Hsc. split; simpl; try (by apply moved_refl).
  apply moved_insert; [done|by apply moved_refl].
Qed.

Lemma in_step_repository k r :
  k ∈ sc_repositories sc ->
  in_step sc s b (inr (with_repositories s (<[k := r]> (st_repositories s))))
    (inr (with_repositories b (<[k := r]> (st_repositories b)))).
Proof.
  intros Hk. destruct Hsc. split; simpl; try (by apply moved_refl).
  apply moved_insert; [done|by apply moved_refl].
Qed.

Lemma in_step_workspace k r :
  k ∈ sc_workspaces sc ->
  in_step sc s b (inr (with_workspaces s (<[k := r]> (st_workspaces s))))
    (inr (with_workspaces b (<[k := r]> (st_workspaces b)))).
Proof.
  intros Hk. destruct Hsc. split; simpl; try (by apply moved_refl).
  apply moved_insert; [done|by apply moved_refl].
Qed.

Lemma in_step_lease k r :
  k ∈ sc_workspaceLeases sc ->
  in_step sc s b (inr (with_leases s (<[k := r]> (st_workspaceLeases s))))
    (inr (with_leases b (<[k := r]> (st_workspaceLeases b)))).
Proof.
  intros Hk. destruct Hsc. split; simpl; try (by apply moved_refl).
  apply moved_insert; [done|by apply moved_refl].
Qed.

Lemma in_step_artifact k r :
  k ∈ sc_artifacts sc ->
  in_step sc s b
    (inr (with_artifacts s (<[k := r]> (st_artifacts s)) (st_stageArtifactAliases s)))
    (inr (with_artifacts b (<[k := r]> (st_artifacts b)) (st_stageArtifactAliases b))).
Proof.
  intros Hk. destruct Hsc. split; simpl; try (by apply moved_refl).
  apply moved_insert; [done|by apply moved_refl].
Qed.

Lemma in_step_bind {A} (m : Res A) (f g : A -> Res ProjectionState) :
  (forall a, m = inr a -> in_step sc s b (f a) (g a)) -> in_step sc s b (rbind m f) (rbind m g).
Proof. intros H. destruct m as [r|a]; [done|]. by apply H. Qed.

Lemma in_step_if (c : bool) r x y :
  (c = false -> in_step sc s b x y) ->
  in_step sc s b (if c then inl r else x) (if c then inl r else y).
Proof. destruct c; [done|]. auto. Qed.

Lemma runOf_scoped k : k ∈ sc_runs sc -> runOf b k = runOf s k.
Proof. intros Hk. unfold runOf. by rewrite (sd_runs _ _ _ Hsc k Hk). Qed.
End InStep.

(** The reads of a payload that a scope is built from. *)
Ltac scope_read H :=
  match type of H with
  | rbind ?m _ = inr _ => let E := fresh "E" in destruct m eqn:E; simpl in H; [done|scope_read H]
  | inr _ = inr _ => injection H as <-
  | _ => idtac
  end.

(** One step of two runs in lockstep. *)
Ltac lockstep :=
  cbv zeta;
  match goal with
  | |- in_step _ _ _ (rbind _ _) (rbind _ _) => apply in_step_bind; intros ? ?; simplify_eq
  | |- in_step _ _ _ (if _ then inl _ else _) (if _ then inl _ else _) => apply in_step_if; intros _
  end.

(** ** Every event stays in its scope *)

Section Cases.
Context (event : StateEvent) (payload : Fields).

Lemma created_in_step sc s b runId :
  requireRunId event payload = inr runId -> runId ∈ sc_runs sc -> scoped sc s b ->
  in_step sc s b (applyRunCreated event payload s) (applyRunCreated event payload b).
Proof.
  intros E Hk Hsc. unfold applyRunCreated. rewrite E. cbn [rbind].
  rewrite <-(sd_runs _ _ _ Hsc runId Hk). repeat lockstep. by apply in_step_run.
Qed.

Lemma status_in_step sc s b runId :
  requireRunId event payload = inr runId -> runId ∈ sc_runs sc -> scoped sc s b ->
  in_step sc s b (applyRunStatusChanged event payload s) (applyRunStatusChanged event payload b).
Proof.
  intros E Hk Hsc. unfold applyRunStatusChanged. rewrite E. cbn [rbind].
  rewrite (runOf_scoped sc s b Hsc runId Hk). repeat lockstep. by apply in_step_run.
Qed.

Lemma touched_in_step sc s b runId :
  requireRunId event payload = inr runId -> runId ∈ sc_runs sc -> scoped sc s b ->
  in_step sc s b (applyRunTouched event payload s) (applyRunTouched event payload b).
Proof.
  intros E Hk Hsc. unfold applyRunTouched. rewrite E. cbn [rbind].
  rewrite (runOf_scoped sc s b Hsc runId Hk). repeat lockstep. by apply in_step_run.
Qed.

Lemma assigned_in_step sc s b runId workspaceId :
  requireRunId event payload = inr runId -> runId ∈ sc_runs sc ->
  requireString payload "workspaceId" = inr workspaceId -> workspaceId ∈ sc_workspaces sc ->
  scoped sc s b ->
  in_step sc s b (applyRunWorkspaceAssigned event payload s)
    (applyRunWorkspaceAssigned event payload b).
Proof.
  intros E Hk E' Hk' Hsc. unfold applyRunWorkspaceAssigned. rewrite E, E'. cbn [rbind].
  rewrite (runOf_scoped sc s b Hsc runId Hk). rewrite <-(sd_workspaces _ _ _ Hsc workspaceId Hk').
  repeat lockstep. by apply in_step_run.
Qed.

Lemma snapshotted_in_step sc s b runId :
  requireRunId event payload = inr runId -> runId ∈ sc_runs sc -> scoped sc s b ->
  in_step sc s b (applyInstructionsSnapshotted event payload s)
    (applyInstructionsSnapshotted event payload b).
Proof.
  intros E Hk Hsc. unfold applyInstructionsSnapshotted. rewrite E. cbn [rbind].
  rewrite (runOf_scoped sc s b Hsc runId Hk). repeat lockstep. by apply in_step_run.
Qed.

Lemma capability_in_step sc s b runId :
  requireRunId event payload = inr runId -> runId ∈ sc_runs sc -> scoped sc s b ->
  in_step sc s b (applyCapability event payload s) (applyCapability event payload b).
Proof.
  intros E Hk Hsc. unfold applyCapability. rewrite E. cbn [rbind].
  rewrite (runOf_scoped sc s b Hsc runId Hk). repeat lockstep.
  destruct (rs_capabilityLandingJson _) as [json|]; [|by apply in_step_run].
  destruct (str_eqb _ _); [by apply in_step_refl|done].
Qed.

Lemma codebase_in_step sc s b codebaseId :
  requireString payload "codebaseId" = inr codebaseId -> codebaseId ∈ sc_codebases sc ->
  scoped sc s b ->
  in_step sc s b (applyCodebaseRegistered event payload s) (applyCodebaseRegistered event payload b).
Proof.
  intros E Hk Hsc. unfold applyCodebaseRegistered. rewrite E. cbn [rbind].
  rewrite <-(sd_codebases _ _ _ Hsc codebaseId Hk). repeat lockstep. by apply in_step_codebase.
Qed.

Lemma repository_in_step sc s b codebaseId repositoryId :
  requireString payload "codebaseId" = inr codebaseId -> codebaseId ∈ sc_codebases sc ->
  requireString payload "repositoryId" = inr repositoryId -> repositoryId ∈ sc_repositories sc ->
  scoped sc s b ->
  in_step sc s b (applyRepositoryRegistered event payload s)
    (applyRepositoryRegistered event payload b).
Proof.
  intros E Hk E' Hk' Hsc. unfold applyRepositoryRegistered. rewrite E, E'. cbn [rbind].
  rewrite <-(sd_codebases _ _ _ Hsc codebaseId Hk),
    <-(sd_repositories _ _ _ Hsc repositoryId Hk').
  repeat lockstep. by apply in_step_repository.
Qed.

Lemma workspace_in_step sc s b codebaseId workspaceId :
  requireString payload "codebaseId" = inr codebaseId -> codebaseId ∈ sc_codebases sc ->
  requireString payload "workspaceId" = inr workspaceId -> workspaceId ∈ sc_workspaces sc ->
  scoped sc s b ->
  in_step sc s b (applyWorkspaceRegistered event payload s)
    (applyWorkspaceRegistered event payload b).
Proof.
  intros E Hk E' Hk' Hsc. unfold applyWorkspaceRegistered. rewrite E, E'. cbn [rbind].
  rewrite <-(sd_codebases _ _ _ Hsc codebaseId Hk), <-(sd_workspaces _ _ _ Hsc workspaceId Hk').
  repeat lockstep. by apply in_step_workspace.
Qed.

Lemma provisioning_in_step sc s b codebaseId repositoryId workspaceId :
  requireString payload "codebaseId" = inr codebaseId -> codebaseId ∈ sc_codebases sc ->
  requireString payload "repositoryId" = inr repositoryId -> repositoryId ∈ sc_repositories sc ->
  requireString payload "workspaceId" = inr workspaceId -> workspaceId ∈ sc_workspaces sc ->
  scoped sc s b ->
  in_step sc s b (applyProvisioningRecorded event payload s)
    (applyProvisioningRecorded event payload b).
Proof.
  intros E1 Hk1 E2 Hk2 E3 Hk3 Hsc. unfold applyProvisioningRecorded. rewrite E1, E2, E3.
  cbn [rbind].
  rewrite <-(sd_codebases _ _ _ Hsc codebaseId Hk1),
    <-(sd_repositories _ _ _ Hsc repositoryId Hk2), <-(sd_workspaces _ _ _ Hsc workspaceId Hk3).
  repeat lockstep. by apply in_step_workspace.
Qed.

Lemma lease_in_step sc s b kind checkoutPath repositoryId workspaceId :
  requireString payload "checkoutPath" = inr checkoutPath -> checkoutPath ∈ sc_workspaceLeases sc ->
  requireString payload "repositoryId" = inr repositoryId -> repositoryId ∈ sc_repositories sc ->
  requireString payload "workspaceId" = inr workspaceId -> workspaceId ∈ sc_workspaces sc ->
  scoped sc s b ->
  in_step sc s b (applyLease event payload s kind) (applyLease event payload b kind).
Proof.
  intros E1 Hk1 E2 Hk2 E3 Hk3 Hsc. unfold applyLease. rewrite E1, E2, E3. cbn [rbind].
  rewrite <-(sd_leases _ _ _ Hsc checkoutPath Hk1),
    <-(sd_repositories _ _ _ Hsc repositoryId Hk2), <-(sd_workspaces _ _ _ Hsc workspaceId Hk3).
  repeat lockstep. destruct (leaseRefused _ _ _ _ _ _ _); [done|].
  repeat lockstep. by apply in_step_lease.
Qed.

Lemma published_in_step sc s b runId artifactId :
  requireRunId event payload = inr runId -> runId ∈ sc_runs sc ->
  requireString payload "artifactId" = inr artifactId -> artifactId ∈ sc_artifacts sc ->
  scoped sc s b ->
  in_step sc s b (applyArtifactPublished event payload s) (applyArtifactPublished event payload b).
Proof.
  intros E Hk E' Hk' Hsc. unfold applyArtifactPublished. rewrite E, E'. cbn [rbind].
  rewrite (runOf_scoped sc s b Hsc runId Hk), <-(sd_artifacts _ _ _ Hsc artifactId Hk').
  repeat lockstep. by apply in_step_artifact.
Qed.

Lemma fold_moved {T A} (keys : list string) (m b m' b' : gmap string T) (key : A -> string)
    (val : A -> T) l :
  (forall x, x ∈ l -> key x ∈ keys) -> moved keys m b m' b' ->
  moved keys m b (fold_left (fun t x => <[key x := val x]> t) l m')
    (fold_left (fun t x => <[key x := val x]> t) l b').
Proof.
  revert m' b'. induction l as [|x l IH]; intros m' b' Hl Hm; simpl; [done|].
  apply IH; [intros y Hy; apply Hl; by right|]. apply moved_insert; [apply Hl; by left|done].
Qed.

Lemma find_scoped {A} (p q : A -> bool) l :
  (forall x, x ∈ l -> p x = q x) -> List.find p l = List.find q l.
Proof.
  induction l as [|x l IH]; intros H; simpl; [done|]. rewrite (H x) by (by left).
  destruct (q x); [done|]. apply IH. intros y Hy. apply H. by right.
Qed.

Lemma registration_in_step sc s b registration :
  requireRegistration payload = inr registration ->
  rg_codebaseId registration ∈ sc_codebases sc ->
  (forall r, r ∈ rg_repositories registration -> rr_repositoryId r ∈ sc_repositories sc) ->
  scoped sc s b ->
  in_step sc s b (applyRegistrationCommitted event payload s)
    (applyRegistrationCommitted event payload b).
Proof.
  intros E Hk Hr Hsc. unfold applyRegistrationCommitted. rewrite E. cbn [rbind]. cbv zeta.
  rewrite <-(sd_codebases _ _ _ Hsc _ Hk).
  destruct (st_codebases s !! _) as [existing|].
  { destruct (bool_decide _); [by apply in_step_refl|done]. }
  rewrite (find_scoped _ (fun r => bool_decide (is_Some (st_repositories b !! rr_repositoryId r)))).
  2:{ intros r Hin. by rewrite (sd_repositories _ _ _ Hsc _ (Hr r Hin)). }
  destruct (List.find _ _); [done|]. destruct Hsc. split; simpl; try (by apply moved_refl).
  - apply moved_insert; [done|by apply moved_refl].
  - apply (fold_moved _ _ _ _ _ rr_repositoryId
      (registeredRepository event (rg_codebaseId registration))); [done|by apply moved_refl].
Qed.

(** The loop over the references, on tables that agree on its keys. *)
Lemma refs_moved runId stageId akeys lkeys arts0 barts0 als0 bals0 : forall refs seen arts barts als bals,
  (forall r, r ∈ refs -> af_artifactId r ∈ akeys) ->
  (forall r, r ∈ refs -> stageArtifactAliasKey runId stageId (af_name r) ∈ lkeys) ->
  moved akeys arts0 barts0 arts barts -> moved lkeys als0 bals0 als bals ->
  match completeRefs event runId stageId seen arts als refs,
        completeRefs event runId stageId seen barts bals refs with
  | inl r, inl r' => r = r'
  | inr x, inr y => moved akeys arts0 barts0 (fst x) (fst y) /\ moved lkeys als0 bals0 (snd x) (snd y)
  | _, _ => False
  end.
Proof.
  induction refs as [|ref refs IH]; intros seen arts barts als bals Ha Hl Hm Hn; [done|].
  assert (af_artifactId ref ∈ akeys) as Hka by (apply Ha; by left).
  assert (stageArtifactAliasKey runId stageId (af_name ref) ∈ lkeys) as Hkl by (apply Hl; by left).
  cbn [completeRefs]. destruct (set_has seen _); [done|]. cbv zeta.
  rewrite <-(mv_agree _ _ _ _ _ Hm _ Hka), <-(mv_agree _ _ _ _ _ Hn _ Hkl).
  destruct (arts !! _) as [existing|].
  - destruct (artifactMismatchField _ _ _ _); [done|]. cbn [rbind].
    apply IH; [intros r Hr; apply Ha; by right|intros r Hr; apply Hl; by right|done|].
    by apply moved_insert.
  - cbn [rbind].
    apply IH; [intros r Hr; apply Ha; by right|intros r Hr; apply Hl; by right|..];
      by apply moved_insert.
Qed.

Lemma stage_completed_in_step sc s b runId stageId refs :
  requireRunId event payload = inr runId -> runId ∈ sc_runs sc ->
  requireStageId payload = inr stageId -> requireArtifactRefs payload "artifacts" = inr refs ->
  (forall r, r ∈ refs -> af_artifactId r ∈ sc_artifacts sc) ->
  (forall r, r ∈ refs -> stageArtifactAliasKey runId stageId (af_name r) ∈ alias_scope sc) ->
  scoped sc s b ->
  in_step sc s b (applyStageCompleted event payload s) (applyStageCompleted event payload b).
Proof.
  intros E Hk E1 E2 Ha Hl Hsc. unfold applyStageCompleted. rewrite E, E1, E2. cbn [rbind].
  rewrite (runOf_scoped sc s b Hsc runId Hk). lockstep. destruct Hsc.
  pose proof (refs_moved runId stageId _ _ _ _ _ _ refs [] _ _ _ _ Ha Hl
    (moved_refl _ _ _ sd_artifacts0) (moved_refl _ _ _ sd_aliases0)) as Hm.
  destruct (completeRefs _ _ _ _ (st_artifacts s) _ _) as [r|[arts als]],
    (completeRefs _ _ _ _ (st_artifacts b) _ _) as [r'|[barts bals]]; try done.
  destruct Hm as [Hm Hn]. cbn [rbind fst snd]. cbv zeta.
  assert (moves sc s b (with_artifacts s arts als) (with_artifacts b barts bals)) as Hdone.
  { split; simpl; try done; by apply moved_refl. }
  destruct (map_get payload "terminalRunStatus"); [|done]. lockstep.
  destruct Hdone. split; simpl; try done. by apply moved_insert.
Qed.
End Cases.

(** Folding an event over the rows of its scope and over the whole projection
    throws the same reason or makes the same changes. *)
Lemma scope_in_step event sc s b :
  eventScope event = inr sc -> scoped sc s b ->
  in_step sc s b (applyEvent s event) (applyEvent b event).
Proof.
  unfold eventScope, applyEvent. intros E Hsc.
  destruct (payloadObject event) as [r|payload]; [done|]. cbn [rbind] in *.
  destruct (kindOf (ev_type event)) as [kind|]; [|done].
  destruct kind; cbn [run_scoped stage_scoped andb]; scope_read E; repeat lockstep;
    cbn [andb].
  - eapply created_in_step; eauto. by left.
  - eapply status_in_step; eauto. by left.
  - eapply touched_in_step; eauto. by left.
  - eapply assigned_in_step; eauto; by left.
  - eapply snapshotted_in_step; eauto. by left.
  - eapply capability_in_step; eauto. by left.
  - eapply codebase_in_step; eauto. by left.
  - eapply repository_in_step; eauto; by left.
  - eapply registration_in_step; eauto; simpl; [by left|].
    intros x Hx. by apply list_elem_of_fmap_2.
  - eapply workspace_in_step; eauto; by left.
  - eapply provisioning_in_step; eauto; by left.
  - eapply lease_in_step; eauto; by left.
  - eapply published_in_step; eauto; by left.
  - eapply stage_completed_in_step; eauto; simpl; [by left|..]; intros x Hx.
    + by apply list_elem_of_fmap_2.
    + unfold alias_scope. simpl. rewrite map_map.
      by apply (list_elem_of_fmap_2 (fun ref => stageArtifactAliasKey _ _ (af_name ref))).
Qed.
