(* ===== verification/ProjectionSteps.v ===== *)
(** * How an event changes the projection

    Every row an event changes advances its revision by one and cites the
    event; no row is removed; an artifact is never changed.  From there the
    invariant of a projection folded from a journal: each row is filed under
    its own key, and its revision is at most the sequence of the event it
    cites. *)

From stdpp Require Import gmap.
From S2P Require Import Prelude Ids Json Recovery CanonicalJson StateJson Projection.
Local Open Scope res_scope.
Local Open Scope Z_scope.

(** ** Rows *)

(** What the tables' rows have in common: the key they are filed under, their
    revision, the event they cite and what else holds of each. *)
Class Row (T : Type) := {
  row_key : T -> string;
  row_revision : T -> Z;
  row_sequence : T -> Z;
  row_ok : T -> Prop
}.

#[export] Instance RunRow : Row RunState :=
  {| row_key := rs_runId; row_revision := rs_revision; row_sequence := rs_lastEventSequence;
     row_ok r := isRunStatus (rs_status r) = true |}.
#[export] Instance CodebaseRow : Row CodebaseState :=
  {| row_key := cb_codebaseId; row_revision := cb_revision; row_sequence := cb_lastEventSequence;
     row_ok _ := True |}.
#[export] Instance RepositoryRow : Row RepositoryState :=
  {| row_key := rep_repositoryId; row_revision := rep_revision;
     row_sequence := rep_lastEventSequence; row_ok _ := True |}.
#[export] Instance WorkspaceRow : Row WorkspaceState :=
  {| row_key := wk_workspaceId; row_revision := wk_revision; row_sequence := wk_lastEventSequence;
     row_ok _ := True |}.
#[export] Instance LeaseRow : Row WorkspaceLeaseState :=
  {| row_key := wl_checkoutPath; row_revision := wl_revision;
     row_sequence := wl_lastEventSequence;
     row_ok r := 1 <= wl_fencingRevision r <= wl_revision r |}.
#[export] Instance ArtifactRow : Row ArtifactState :=
  {| row_key := ar_artifactId; row_revision := ar_revision; row_sequence := ar_lastEventSequence;
     row_ok r := ar_revision r = 1 |}.
#[export] Instance AliasRow : Row StageArtifactAliasState :=
  {| row_key := aliasKeyOf; row_revision := al_revision; row_sequence := al_lastEventSequence;
     row_ok r := str_has NULL (al_runId r) = false /\ str_has NULL (al_stageId r) = false |}.

(** ** Tables *)

Section Tables.
Context {T : Type} `{Row T}.
Implicit Types (m : gmap string T) (r : T).

(** The change of one key by event [n]. *)
Definition advanced (n : Z) m (k : string) r : Prop :=
  row_key r = k /\ row_sequence r = n /\ row_ok r /\
  row_revision r = default 0 (row_revision <$> m !! k) + 1.

Definition step_table (n : Z) m m' : Prop :=
  forall k, m' !! k = m !! k \/ exists r, m' !! k = Some r /\ advanced n m k r.

(** Rows of a projection whose latest event is [n]. *)
Definition row_sound (n : Z) (k : string) r : Prop :=
  row_key r = k /\ 1 <= row_revision r <= row_sequence r /\ row_sequence r <= n /\ row_ok r.

Definition sound_table (n : Z) m : Prop := forall k r, m !! k = Some r -> row_sound n k r.

Lemma step_refl n m : step_table n m m.
Proof. intros k. by left. Qed.

Lemma step_insert n m m' k r :
  step_table n m m' -> advanced n m k r -> step_table n m (<[k := r]> m').
Proof.
  intros Hm Hr j. destruct (decide (j = k)) as [->|Hne].
  - right. exists r. by rewrite lookup_insert_eq.
  - rewrite lookup_insert_ne by done. apply Hm.
Qed.

Lemma step_keeps n m m' k : step_table n m m' -> is_Some (m !! k) -> is_Some (m' !! k).
Proof. intros Hm Hk. destruct (Hm k) as [->|(r & -> & _)]; [done|by eexists]. Qed.

Lemma step_fresh n m m' k : step_table n m m' -> m' !! k = None -> m !! k = None.
Proof. intros Hm Hk. destruct (Hm k) as [<-|(r & E & _)]; congruence. Qed.

Lemma step_sound n0 n m m' :
  0 <= n0 -> n0 < n -> sound_table n0 m -> step_table n m m' -> sound_table n m'.
Proof.
  intros H0 Hn Hs Hm k r E. destruct (Hm k) as [E'|(r' & E' & Hk & Hq & Hok & Hr)].
  - rewrite E in E'. destruct (Hs k r (eq_sym E')) as (? & ? & ? & ?). repeat split; try done; lia.
  - rewrite E in E'. injection E' as <-. repeat split; try done; rewrite ?Hr, ?Hq;
      destruct (m !! k) as [r0|] eqn:E0; simpl; try lia;
      destruct (Hs k r0 E0) as (? & ? & ? & ?); lia.
Qed.

Lemma sound_empty n : sound_table n ∅.
Proof. intros k r. by rewrite lookup_empty. Qed.
End Tables.

(** ** States *)

Record steps (n : Z) (s s' : ProjectionState) : Prop := {
  sp_runs : step_table n (st_runs s) (st_runs s');
  sp_codebases : step_table n (st_codebases s) (st_codebases s');
  sp_repositories : step_table n (st_repositories s) (st_repositories s');
  sp_workspaces : step_table n (st_workspaces s) (st_workspaces s');
  sp_leases : step_table n (st_workspaceLeases s) (st_workspaceLeases s');
  sp_artifacts : step_table n (st_artifacts s) (st_artifacts s');
  sp_aliases : step_table n (st_stageArtifactAliases s) (st_stageArtifactAliases s');
  sp_immutable : st_artifacts s ⊆ st_artifacts s'
}.

Record sound (n : Z) (s : ProjectionState) : Prop := {
  so_latest : 0 <= n;
  so_runs : sound_table n (st_runs s);
  so_codebases : sound_table n (st_codebases s);
  so_repositories : sound_table n (st_repositories s);
  so_workspaces : sound_table n (st_workspaces s);
  so_leases : sound_table n (st_workspaceLeases s);
  so_artifacts : sound_table n (st_artifacts s);
  so_aliases : sound_table n (st_stageArtifactAliases s)
}.

Lemma steps_refl n s : steps n s s.
Proof. split; done || apply step_refl. Qed.

Lemma steps_sound n0 n s s' : n0 < n -> sound n0 s -> steps n s s' -> sound n s'.
Proof. intros Hn [] []. split; [lia|..]; by eapply step_sound. Qed.

Lemma sound_empty_state : sound 0 EMPTY_PROJECTION_STATE.
Proof. split; [done|..]; apply sound_empty. Qed.

(** The reads and guards an event passed. *)
Ltac res_inv H :=
  cbv zeta in H;
  lazymatch type of H with
  | rbind ?m _ = inr _ => let E := fresh "E" in destruct m eqn:E; cbn [rbind] in H; [done|res_inv H]
  | (if ?b then inl _ else _) = inr _ => let E := fresh "E" in destruct b eqn:E; [done|res_inv H]
  | inr _ = inr _ => injection H as <-
  | _ => idtac
  end.

(** A step that writes one table. *)
Ltac one_table :=
  split; cbn; try apply step_refl; try done; apply step_insert; [apply step_refl|].

Section Cases.
Context (event : StateEvent) (payload : Fields).
Notation n := (ev_sequence event).

Lemma runOf_sound s n0 runId r :
  sound n0 s -> runOf s runId = inr r -> st_runs s !! runId = Some r /\ row_sound n0 runId r.
Proof.
  unfold runOf. intros Hs E. destruct (st_runs s !! runId) as [r'|] eqn:Er; [|done].
  injection E as <-. split; [done|]. by apply (so_runs _ _ Hs).
Qed.

(** A run row that was read, advanced by the event. *)
Lemma touch_advanced s n0 runId r f :
  sound n0 s -> runOf s runId = inr r ->
  rs_runId f = rs_runId r -> rs_revision f = rs_revision r + 1 -> rs_lastEventSequence f = n ->
  isRunStatus (rs_status f) = true ->
  steps n s (set_run s f runId).
Proof.
  intros Hs Hr E1 E2 E3 Hst. destruct (runOf_sound _ _ _ _ Hs Hr) as (El & Hk & _).
  unfold set_run. one_table. split; [|split; [|split]]; simpl in *; [congruence|done|done|].
  by rewrite El.
Qed.

Lemma created_steps s s' : applyRunCreated event payload s = inr s' -> steps n s s'.
Proof.
  unfold applyRunCreated. intros H. res_inv H. apply bool_decide_eq_false in E0.
  apply eq_None_not_Some in E0. unfold set_run. one_table. repeat split. simpl.
  by rewrite E0.
Qed.

Lemma status_steps n0 s s' :
  sound n0 s -> applyRunStatusChanged event payload s = inr s' -> steps n s s'.
Proof.
  unfold applyRunStatusChanged. intros Hs H. res_inv H. apply negb_false_iff in E2.
  by eapply touch_advanced.
Qed.

Lemma touched_steps n0 s s' :
  sound n0 s -> applyRunTouched event payload s = inr s' -> steps n s s'.
Proof.
  unfold applyRunTouched. intros Hs H. res_inv H. eapply touch_advanced; try done.
  by destruct (runOf_sound _ _ _ _ Hs E0) as (_ & _ & _ & _ & ?).
Qed.

Lemma assigned_steps n0 s s' :
  sound n0 s -> applyRunWorkspaceAssigned event payload s = inr s' -> steps n s s'.
Proof.
  unfold applyRunWorkspaceAssigned. intros Hs H. res_inv H. eapply touch_advanced; try done.
  by destruct (runOf_sound _ _ _ _ Hs E0) as (_ & _ & _ & _ & ?).
Qed.

Lemma snapshotted_steps n0 s s' :
  sound n0 s -> applyInstructionsSnapshotted event payload s = inr s' -> steps n s s'.
Proof.
  unfold applyInstructionsSnapshotted. intros Hs H. res_inv H. eapply touch_advanced; try done.
  by destruct (runOf_sound _ _ _ _ Hs E0) as (_ & _ & _ & _ & ?).
Qed.

Lemma capability_steps n0 s s' :
  sound n0 s -> applyCapability event payload s = inr s' -> steps n s s'.
Proof.
  unfold applyCapability. intros Hs H. res_inv H. destruct (rs_capabilityLandingJson r).
  - destruct (str_eqb _ _); [|done]. injection H as <-. apply steps_refl.
  - injection H as <-. eapply touch_advanced; try done.
    by destruct (runOf_sound _ _ _ _ Hs E0) as (_ & _ & _ & _ & ?).
Qed.

Lemma codebase_steps s s' : applyCodebaseRegistered event payload s = inr s' -> steps n s s'.
Proof.
  unfold applyCodebaseRegistered. intros H. res_inv H. apply bool_decide_eq_false in E0.
  apply eq_None_not_Some in E0. one_table. repeat split. simpl. by rewrite E0.
Qed.

Lemma repository_steps s s' : applyRepositoryRegistered event payload s = inr s' -> steps n s s'.
Proof.
  unfold applyRepositoryRegistered. intros H. res_inv H. apply bool_decide_eq_false in E1.
  apply eq_None_not_Some in E1. one_table. repeat split. simpl. by rewrite E1.
Qed.

Lemma workspace_steps s s' : applyWorkspaceRegistered event payload s = inr s' -> steps n s s'.
Proof.
  unfold applyWorkspaceRegistered. intros H. res_inv H. apply bool_decide_eq_false in E1.
  apply eq_None_not_Some in E1. one_table. repeat split. simpl. by rewrite E1.
Qed.

Lemma provisioning_steps s s' : applyProvisioningRecorded event payload s = inr s' -> steps n s s'.
Proof.
  unfold applyProvisioningRecorded. intros H. res_inv H. one_table. by repeat split.
Qed.

(** Inserting rows none of whose keys is taken. *)
Lemma fold_steps {T A} `{Row T} (key : A -> string) (val : A -> T) l (m m' : gmap string T) :
  (forall x, x ∈ l -> advanced n m (key x) (val x)) -> step_table n m m' ->
  step_table n m (fold_left (fun t x => <[key x := val x]> t) l m').
Proof.
  revert m'. induction l as [|x l IH]; intros m' Hl Hm; simpl; [done|].
  apply IH; [intros y Hy; apply Hl; by right|]. apply step_insert; [done|apply Hl; by left].
Qed.

Lemma find_fresh {A T} (key : A -> string) (m : gmap string T) l x :
  List.find (fun r => bool_decide (is_Some (m !! key r))) l = None -> x ∈ l -> m !! key x = None.
Proof.
  intros E Hx. apply eq_None_not_Some. intros Hs.
  pose proof (List.find_none _ _ E x (proj1 (list_elem_of_In _ _) Hx)) as Hf.
  by apply bool_decide_eq_false in Hf.
Qed.

Lemma registration_steps s s' : applyRegistrationCommitted event payload s = inr s' -> steps n s s'.
Proof.
  unfold applyRegistrationCommitted. intros H. res_inv H.
  destruct (st_codebases s !! rg_codebaseId r) as [existing|] eqn:Ec.
  { destruct (bool_decide _); [|done]. injection H as <-. apply steps_refl. }
  destruct (List.find _ _) eqn:Ef; [done|]. injection H as <-.
  split; cbn; try apply step_refl; try done.
  - apply step_insert; [apply step_refl|]. repeat split. simpl. by rewrite Ec.
  - apply (fold_steps rr_repositoryId (registeredRepository event (rg_codebaseId r)));
      [|apply step_refl].
    intros x Hx. repeat split. by rewrite (find_fresh rr_repositoryId _ _ x Ef Hx).
Qed.

Lemma leaseRefused_fence kind previous fence leaseId leaseState workspaceId repositoryId :
  leaseRefused kind previous fence leaseId leaseState workspaceId repositoryId = None ->
  match kind, previous with
  | lease_acquired, None => fence = 1
  | lease_recovered, Some p => fence = wl_fencingRevision p + 1
  | lease_acquired, Some _ | _, None => False
  | _, Some p => fence = wl_fencingRevision p
  end.
Proof.
  unfold leaseRefused. intros H. destruct kind, previous as [p|]; try done; simpl in H;
    destruct (_ =? _) eqn:E in H; try done; simpl in H; by apply Z.eqb_eq in E.
Qed.

Lemma lease_steps n0 s s' kind :
  sound n0 s -> applyLease event payload s kind = inr s' -> steps n s s'.
Proof.
  unfold applyLease. intros Hs H. res_inv H.
  destruct (leaseRefused _ _ _ _ _ _ _) eqn:El; [done|]. res_inv H.
  apply leaseRefused_fence in El. one_table. repeat split; simpl; [lia|].
  destruct (st_workspaceLeases s !! _) as [p|] eqn:Ep; simpl.
  - destruct (so_leases _ _ Hs _ _ Ep) as (_ & _ & _ & Hf). simpl in Hf. destruct kind; lia.
  - destruct kind; lia.
Qed.

Lemma insert_grows {T} (m m' : gmap string T) k r : m ⊆ m' -> m' !! k = None -> m ⊆ <[k := r]> m'.
Proof. intros Hm Hk. etrans; [exact Hm|]. by apply insert_subseteq. Qed.

Lemma published_steps s s' : applyArtifactPublished event payload s = inr s' -> steps n s s'.
Proof.
  unfold applyArtifactPublished. intros H. res_inv H. apply bool_decide_eq_false in E3.
  apply eq_None_not_Some in E3. split; cbn; try apply step_refl.
  - apply step_insert; [apply step_refl|]. repeat split. simpl. by rewrite E3.
  - by apply insert_grows.
Qed.

Lemma requireNoNul_clean field s r : requireNoNul field s = inr r -> str_has NULL r = false.
Proof. unfold requireNoNul. destruct (str_has NULL s) eqn:E; congruence. Qed.

Lemma requireRunId_clean runId :
  requireRunId event payload = inr runId -> str_has NULL runId = false.
Proof.
  unfold requireRunId. intros H. res_inv H. destruct (bool_decide _); [|done].
  injection H as <-. by eapply requireNoNul_clean.
Qed.

Lemma requireStageId_clean stageId : requireStageId payload = inr stageId -> str_has NULL stageId = false.
Proof. unfold requireStageId. intros H. res_inv H. by eapply requireNoNul_clean. Qed.

Lemma aliasKey_name runId stageId name name' :
  stageArtifactAliasKey runId stageId name = stageArtifactAliasKey runId stageId name' -> name = name'.
Proof.
  unfold stageArtifactAliasKey. intros H%str_app_inv_head. injection H as H. apply str_app_inv_head in H.
  by injection H.
Qed.

(** The loop over the references of a completed stage. *)
Lemma refs_steps runId stageId arts0 als0 : forall refs seen arts als arts' als',
  str_has NULL runId = false -> str_has NULL stageId = false ->
  completeRefs event runId stageId seen arts als refs = inr (arts', als') ->
  step_table n arts0 arts -> arts0 ⊆ arts -> step_table n als0 als ->
  (forall name, name ∉ seen ->
    als !! stageArtifactAliasKey runId stageId name = als0 !! stageArtifactAliasKey runId stageId name) ->
  step_table n arts0 arts' /\ arts0 ⊆ arts' /\ step_table n als0 als'.
Proof.
  induction refs as [|ref refs IH]; intros seen arts als arts' als' Hr Hs H Ha Hi Hl Hseen.
  { injection H as <- <-. done. }
  cbn [completeRefs] in H. res_inv H. apply (IH _ _ _ _ _ Hr Hs H); clear IH H.
  - destruct (arts !! af_artifactId ref) as [existing|] eqn:Ee.
    + destruct (artifactMismatchField _ _ _ _); [done|]. by injection E0 as <-.
    + injection E0 as <-. apply step_insert; [done|]. repeat split. simpl.
      by rewrite (step_fresh _ _ _ _ Ha Ee).
  - destruct (arts !! af_artifactId ref) as [existing|] eqn:Ee.
    + destruct (artifactMismatchField _ _ _ _); [done|]. by injection E0 as <-.
    + injection E0 as <-. by apply insert_grows.
  - apply step_insert; [done|]. repeat split; try done. simpl.
    rewrite Hseen; [done|]. intros Hin%set_has_true. congruence.
  - intros name Hname. rewrite lookup_insert_ne.
    + apply Hseen. intros Hin. apply Hname, elem_of_set_add. by right.
    + intros <-%aliasKey_name. apply Hname, elem_of_set_add. by left.
Qed.

Lemma completed_steps n0 s s' :
  sound n0 s -> applyStageCompleted event payload s = inr s' -> steps n s s'.
Proof.
  unfold applyStageCompleted. intros Hs H. res_inv H. destruct p as [arts als].
  destruct (runOf_sound _ _ _ _ Hs E0) as (El & Hk & _).
  destruct (refs_steps _ _ (st_artifacts s) (st_stageArtifactAliases s) _ _ _ _ _ _
    (requireRunId_clean _ E) (requireStageId_clean _ E1) E3 (step_refl _ _)
    (reflexivity _) (step_refl _ _) (fun _ _ => eq_refl)) as (Ha & Hi & Hl).
  destruct (map_get payload "terminalRunStatus"); res_inv H; split; cbn; try done;
    try apply step_refl.
  apply step_insert; [apply step_refl|]. split; [by simpl in *|]. repeat split. simpl. by rewrite El.
Qed.
End Cases.

Lemma event_steps n0 event s s' :
  sound n0 s -> applyEvent s event = inr s' -> steps (ev_sequence event) s s'.
Proof.
  unfold applyEvent. intros Hs H. res_inv H. destruct (kindOf _) as [kind|]; [|done]. res_inv H.
  destruct kind; eauto using created_steps, status_steps, touched_steps, assigned_steps,
    snapshotted_steps, capability_steps, codebase_steps, repository_steps, registration_steps,
    workspace_steps, provisioning_steps, lease_steps, published_steps, completed_steps.
Qed.
