(* ===== verification/PayloadCanon.v ===== *)
(** * Folding a payload and its canonical form

    The journal keeps the canonical form of a payload.  Events read strings,
    integers and arrays of them from it, so they fold alike; the three events
    that keep the text of a JSON value are the exception. *)

From stdpp Require Import gmap.
From Stdlib Require Import SpecFloat.
From S2P Require Import Prelude Ids Json Recovery CanonicalJson StateJson StateJsonProps Projection.
Local Open Scope res_scope.

(** [q] holds the canonical forms of the fields of [p]. *)
Definition canon_fields (depth : nat) (p q : Fields) : Prop :=
  forall f, match map_get p f with
            | None => map_get q f = None
            | Some v => exists c, canonicalize depth v = Some c /\ map_get q f = Some c
            end.

Lemma map_get_perm {V} (p q : list (string * V)) f :
  NoDup (map fst p) -> p ≡ₚ q -> map_get p f = map_get q f.
Proof.
  intros Hnd Hp. assert (NoDup (map fst q)) as Hnq by (by rewrite <-Hp).
  destruct (map_get p f) as [v|] eqn:E.
  - symmetry. apply elem_map_get; [done|]. rewrite <-Hp. by apply map_get_elem.
  - symmetry. apply map_get_None. apply map_get_None in E. unfold map_keys in *. by rewrite <-Hp.
Qed.

Lemma traverse_fields depth p q :
  traverse (fun f => pair (fst f) <$> canonicalize depth (snd f)) p = Some q ->
  map fst q = map fst p /\ canon_fields depth p q.
Proof.
  intros H%traverse_Forall2. induction H as [|[k v] g p q E _ [IHk IH]]; [done|].
  simpl in E. destruct (canonicalize depth v) as [c|] eqn:Ec; [|done]. injection E as <-.
  split; [simpl; by f_equal|]. intros f. cbn [map_get]. destruct (str_eqb f k); [by exists c|]. apply IH.
Qed.

Lemma canonicalize_object depth p c :
  canonicalize depth (JObject p) = Some c ->
  NoDup (map fst p) -> exists q, c = JObject q /\ canon_fields (S depth) p q.
Proof.
  cbn [canonicalize]. intros E Hnd. destruct (MAX_DEPTH <=? depth)%nat; [done|].
  destruct (traverse _ p) as [q|] eqn:Et; [|done]. injection E as <-.
  apply traverse_fields in Et as [Hk Hq]. eexists. split; [done|]. intros f.
  rewrite (map_get_perm (own_order (sort_key fst q)) q f); [apply Hq|..].
  - by rewrite own_order_perm, sort_key_perm, Hk.
  - by rewrite own_order_perm, sort_key_perm.
Qed.

(** The objects of a value list each key once. *)
Fixpoint distinct_keys (value : JsonValue) : bool :=
  match value with
  | JScalar _ => true
  | JArray items => forallb distinct_keys items
  | JObject fields =>
      bool_decide (NoDup (map fst fields)) && forallb (fun f => distinct_keys (snd f)) fields
  end.

(** ** Reads *)

Lemma canonical_scalar depth v c : canonicalize depth v = Some c ->
  match v with
  | JScalar (SNumber n) =>
      exists m, c = JScalar (SNumber m) /\ integer_of m = integer_of n
  | JScalar _ => c = v
  | JArray items => exists cs, c = JArray cs /\ traverse (canonicalize (S depth)) items = Some cs
  | JObject _ => exists q, c = JObject q
  end.
Proof.
  intros E. destruct v as [[s|n|b|]|items|fields]; cbn [canonicalize] in E;
    destruct (MAX_DEPTH <=? depth)%nat; try done; try (by injection E as <-).
  - destruct n; simpl in E; try done; injection E as <-; by eexists.
  - destruct (traverse _ items) as [cs|]; [|done]. injection E as <-. by exists cs.
  - destruct (traverse _ fields) as [q|]; [|done]. injection E as <-. by eexists.
Qed.

Section Reads.
Context (depth : nat) (p q : Fields) (Hq : canon_fields depth p q).

(** A read that looks at one field. *)
Ltac read_field f :=
  pose proof (Hq f) as Hf; destruct (map_get p f) as [v|]; [|by rewrite Hf];
  destruct Hf as (c & Hf & ->); apply canonical_scalar in Hf; destruct v as [[]| |];
  try (destruct Hf as (? & -> & Hf)); try (destruct Hf as (? & ->)); subst; try done.

Lemma requireString_canon f : requireString q f = requireString p f.
Proof. unfold requireString. read_field f. Qed.

Lemma nullableString_canon f : nullableString (map_get q f) = nullableString (map_get p f).
Proof. unfold nullableString. read_field f. Qed.

Lemma optionalWorkspaceId_canon : optionalWorkspaceId q = optionalWorkspaceId p.
Proof. unfold optionalWorkspaceId. read_field "workspaceId". Qed.

Lemma requireNonNegativeInteger_canon f :
  requireNonNegativeInteger q f = requireNonNegativeInteger p f.
Proof. unfold requireNonNegativeInteger. read_field f. by rewrite Hf. Qed.

Lemma traverse_string_canon d items cs :
  traverse (canonicalize d) items = Some cs -> traverse string_of cs = traverse string_of items.
Proof.
  intros H%traverse_Forall2. induction H as [|v c items cs E _ IH]; [done|]. simpl. rewrite IH.
  apply canonical_scalar in E. destruct v as [[]| |]; try (destruct E as (? & -> & _));
    try (destruct E as (? & ->)); by subst.
Qed.

Lemma requireStringArray_canon f : requireStringArray q f = requireStringArray p f.
Proof. unfold requireStringArray. read_field f. by erewrite traverse_string_canon. Qed.

Lemma requireSourceLineage_canon f : requireSourceLineage q f = requireSourceLineage p f.
Proof. unfold requireSourceLineage. by rewrite requireStringArray_canon. Qed.

Lemma requireContentHash_canon f : requireContentHash q f = requireContentHash p f.
Proof. unfold requireContentHash. by rewrite requireString_canon. Qed.

Lemma requireName_canon : requireName q = requireName p.
Proof. unfold requireName. by rewrite requireString_canon. Qed.

Lemma requireStageId_canon : requireStageId q = requireStageId p.
Proof. unfold requireStageId. by rewrite requireString_canon. Qed.

Lemma requireRunId_canon event : requireRunId event q = requireRunId event p.
Proof. unfold requireRunId. by rewrite requireString_canon. Qed.
End Reads.

Lemma toArtifactRefPayload_canon depth index v c :
  canonicalize depth v = Some c -> distinct_keys v = true ->
  toArtifactRefPayload index c = toArtifactRefPayload index v.
Proof.
  intros E Hd. destruct v as [[]|items|p]; try (apply canonical_scalar in E;
    try (destruct E as (? & -> & _)); by subst).
  cbn [distinct_keys] in Hd. apply andb_prop in Hd as [Hnd%bool_decide_eq_true _].
  apply canonicalize_object in E as (q & -> & Hq); [|done]. unfold toArtifactRefPayload.
  rewrite !(requireString_canon _ p q Hq), (requireName_canon _ p q Hq),
    (requireContentHash_canon _ p q Hq), (requireNonNegativeInteger_canon _ p q Hq),
    (requireSourceLineage_canon _ p q Hq). done.
Qed.

Lemma requireArtifactRefs_canon depth p q f :
  canon_fields depth p q -> (forall v, map_get p f = Some v -> distinct_keys v = true) ->
  requireArtifactRefs q f = requireArtifactRefs p f.
Proof.
  intros Hq Hd. unfold requireArtifactRefs. pose proof (Hq f) as Hf.
  destruct (map_get p f) as [v|]; [|by rewrite Hf]. specialize (Hd v eq_refl).
  destruct Hf as (c & Hf & ->). apply canonical_scalar in Hf. destruct v as [[]|items|];
    try (destruct Hf as (? & -> & Hf)); try (destruct Hf as (? & ->)); subst; try done.
  cbn [distinct_keys] in Hd. apply traverse_Forall2 in Hf. revert Hd.
  generalize 0%nat as index. induction Hf as [|v c items cs E _ IH]; intros index Hd; [done|].
  cbn [forallb] in Hd. apply andb_prop in Hd as [Hv Hd]. cbn [rtraverse].
  by rewrite (toArtifactRefPayload_canon (S depth) index v c E Hv), IH.
Qed.

(** ** Events *)

Definition with_payload (event : StateEvent) (payload : JsonValue) : StateEvent :=
  {| ev_sequence := ev_sequence event; ev_eventId := ev_eventId event; ev_runId := ev_runId event;
     ev_correlationId := ev_correlationId event;
     ev_causationEventId := ev_causationEventId event; ev_type := ev_type event;
     ev_recordedAt := ev_recordedAt event; ev_payload := payload |}.

(** The events that keep the text of a JSON value. *)
Definition keeps_text (kind : EventKind) : bool :=
  match kind with
  | ek_registration_committed | ek_run_instructions_snapshotted | ek_run_capability => true
  | _ => false
  end.

(** The payloads that the projection and the journal agree on. *)
Definition faithful_payload (type : string) (payload c : JsonValue) : Prop :=
  distinct_keys payload = true /\
  (forall kind, kindOf type = Some kind -> keeps_text kind = true -> c = payload).

Section Events.
Context (event : StateEvent) (p q : Fields) (s : ProjectionState) (Hq : canon_fields 1 p q).
Notation event' := (with_payload event (JObject q)).

Ltac canon :=
  rewrite ?(requireString_canon _ p q Hq), ?(optionalWorkspaceId_canon _ p q Hq),
    ?(nullableString_canon _ p q Hq),
    ?(requireNonNegativeInteger_canon _ p q Hq), ?(requireSourceLineage_canon _ p q Hq),
    ?(requireContentHash_canon _ p q Hq), ?(requireName_canon _ p q Hq),
    ?(requireStageId_canon _ p q Hq), ?(requireRunId_canon _ p q Hq); try done.

Lemma run_events_canon :
  applyRunCreated event' q s = applyRunCreated event p s /\
  applyRunStatusChanged event' q s = applyRunStatusChanged event p s /\
  applyRunTouched event' q s = applyRunTouched event p s /\
  applyRunWorkspaceAssigned event' q s = applyRunWorkspaceAssigned event p s.
Proof.
  unfold applyRunCreated, applyRunStatusChanged, applyRunTouched, applyRunWorkspaceAssigned.
  repeat split; canon.
Qed.

Lemma identity_events_canon :
  applyCodebaseRegistered event' q s = applyCodebaseRegistered event p s /\
  applyRepositoryRegistered event' q s = applyRepositoryRegistered event p s /\
  applyWorkspaceRegistered event' q s = applyWorkspaceRegistered event p s /\
  applyProvisioningRecorded event' q s = applyProvisioningRecorded event p s.
Proof.
  unfold applyCodebaseRegistered, applyRepositoryRegistered, applyWorkspaceRegistered,
    applyProvisioningRecorded.
  repeat split; canon.
Qed.

Lemma lease_events_canon kind : applyLease event' q s kind = applyLease event p s kind.
Proof. unfold applyLease. canon. Qed.

Lemma artifact_event_canon : applyArtifactPublished event' q s = applyArtifactPublished event p s.
Proof. unfold applyArtifactPublished. canon. Qed.

Lemma stage_event_canon :
  (forall v, map_get p "artifacts" = Some v -> distinct_keys v = true) ->
  applyStageCompleted event' q s = applyStageCompleted event p s.
Proof.
  intros Hd. unfold applyStageCompleted. canon. rewrite (requireArtifactRefs_canon 1 p q _ Hq Hd).
  assert (match map_get q "terminalRunStatus" with Some v => Some (nullableString (Some v)) | None => None end =
          match map_get p "terminalRunStatus" with Some v => Some (nullableString (Some v)) | None => None end) as Ht.
  { pose proof (nullableString_canon 1 p q Hq "terminalRunStatus") as Hn.
    pose proof (Hq "terminalRunStatus") as Hf. destruct (map_get p "terminalRunStatus").
    - destruct Hf as (c & _ & E). rewrite E in *. by rewrite Hn.
    - by rewrite Hf. }
  destruct (map_get q "terminalRunStatus"), (map_get p "terminalRunStatus"); try done.
  apply (inj Some) in Ht. by rewrite Ht.
Qed.
End Events.

(** An event folds like its journal entry. *)
Lemma applyEvent_canon event s c :
  canonicalize 0 (ev_payload event) = Some c -> faithful_payload (ev_type event) (ev_payload event) c ->
  applyEvent s (with_payload event c) = applyEvent s event.
Proof.
  intros Hc [Hd Ht]. unfold applyEvent, payloadObject. simpl.
  destruct (ev_payload event) as [[]|items|p] eqn:Ep;
    try (apply canonical_scalar in Hc; try (destruct Hc as (? & -> & _)); by subst).
  cbn [distinct_keys] in Hd. apply andb_prop in Hd as [Hnd%bool_decide_eq_true Hall].
  pose proof Hc as (q & -> & Hq)%canonicalize_object; [|done]. cbn [rbind].
  destruct (kindOf (ev_type event)) as [kind|]; [|done]. specialize (Ht kind eq_refl).
  destruct (run_events_canon event p q s Hq) as (R1 & R2 & R3 & R4).
  destruct (identity_events_canon event p q s Hq) as (I1 & I2 & I3 & I4).
  destruct kind; cbn [keeps_text] in Ht;
    try (specialize (Ht eq_refl); injection Ht as ->; destruct event; simpl in *; by subst);
    rewrite ?R1, ?R2, ?R3, ?R4, ?I1, ?I2, ?I3, ?I4, ?(lease_events_canon event p q s Hq),
      ?(artifact_event_canon event p q s Hq); try done.
  rewrite (stage_event_canon event p q s Hq); [done|].
  intros v Hv%map_get_elem%list_elem_of_In. rewrite forallb_forall in Hall. apply (Hall _ Hv).
Qed.
