(* ===== verification/StoreWrites.v ===== *)
(** * The writes of a commit

    The diff of two scoped projections, written row by row, turns tables that
    hold a projection into tables that hold the projection after the event. *)

From stdpp Require Import gmap.
From S2P Require Import Prelude Ids Json Recovery CanonicalJson StateJson StateJsonProps Projection ProjectionStore ProjectionSteps ProjectionFrame.

Local Open Scope res_scope.
Local Open Scope Z_scope.

(** ** Tables that hold the projection

    What the seven tables have in common, as an interface: the columns a row is
    stored in, its primary key, and that reading the columns back gives the
    row.  The diff and the statements of a commit are verified against it. *)

Lemma lookup_columns (l : SqlRow) c : (list_to_map l : Columns) !! c = map_get l c.
Proof.
  induction l as [|[k v] l IH]; [apply lookup_empty|]. rewrite list_to_map_cons. cbn [map_get].
  destruct (str_eqb c k) eqn:E.
  - apply str_eqb_true in E as ->. apply lookup_insert_eq.
  - rewrite lookup_insert_ne; [done|]. intros ->. by rewrite str_eqb_refl in E.
Qed.

Definition columns_of {T} (view : TableView T) (r : T) : Columns := list_to_map (tv_toRow view r).

(** ** The interface *)

Class Stored (T : Type) := {
  sto_row :: Row T;
  sto_view : TableView T;
  sto_load : Columns -> Res T;
  sto_pk : T -> list SqlValue;
  (** Rows the loader accepts. *)
  sto_loadable : T -> Prop;
  sto_revision r : tv_revisionOf sto_view r = row_revision r;
  sto_revision_column r : map_get (tv_toRow sto_view r) "revision" = Some (sql_integer (row_revision r));
  sto_sequence_column r :
    map_get (tv_toRow sto_view r) "last_event_sequence" = Some (sql_integer (row_sequence r));
  sto_primary r : primary_key (tv_table sto_view) (tv_toRow sto_view r) = Some (sto_pk r);
  sto_insert r : exists values,
    boundValues (tv_toRow sto_view r) (ts_insertColumns (TABLE_SQL (tv_table sto_view))) = Some values /\
    list_to_map (zip (ts_insertColumns (TABLE_SQL (tv_table sto_view))) values) =
      columns_of sto_view r;
  (** An update leaves the primary key alone; artifacts are not updated. *)
  sto_update r r0 : tv_table sto_view <> t_artifact -> sto_pk r = sto_pk r0 -> exists values,
    boundValues (tv_toRow sto_view r) (ts_updateColumns (TABLE_SQL (tv_table sto_view))) = Some values /\
    list_to_map (zip (ts_updateColumns (TABLE_SQL (tv_table sto_view))) values) ∪
      columns_of sto_view r0 = columns_of sto_view r;
  sto_pk_key r r0 : sto_pk r = sto_pk r0 -> row_key r = row_key r0;
  sto_key_pk r r0 : row_ok r -> row_ok r0 -> row_key r = row_key r0 -> sto_pk r = sto_pk r0;
  sto_load_back r r0 : sto_load (columns_of sto_view r) = inr r0 -> r0 = r;
  sto_loads r : sto_loadable r -> sto_load (columns_of sto_view r) = inr r;
  (** Artifacts stay at their first revision. *)
  sto_frozen r : tv_table sto_view = t_artifact -> row_ok r -> row_revision r = 1;
  (** The guard on the first row of a key. *)
  sto_first r : row_revision r = 1 -> row_ok r ->
    first_revision (tv_table sto_view) (columns_of sto_view r) = true
}.

(** ** The seven tables *)

Definition safe (z : Z) : Prop := Z.abs z <= MAX_SAFE_INTEGER.

Lemma toText_columns {T} (view : TableView T) (r : T) c s :
  map_get (tv_toRow view r) c = Some (sql_text s) -> toText (columns_of view r) c = inr s.
Proof. intros E. unfold toText, columns_of. by rewrite lookup_columns, E. Qed.

Lemma toNullableText_columns {T} (view : TableView T) (r : T) c o :
  map_get (tv_toRow view r) c = Some (sql_nullable o) -> toNullableText (columns_of view r) c = inr o.
Proof. intros E. unfold toNullableText, columns_of. rewrite lookup_columns, E. by destruct o. Qed.

Lemma toSafeInteger_columns {T} (view : TableView T) (r : T) c z :
  map_get (tv_toRow view r) c = Some (sql_integer z) ->
  toSafeInteger (columns_of view r) c = if (Z.abs z <=? MAX_SAFE_INTEGER) then inr z
    else inl (c +:+ " is not a safe integer").
Proof. intros E. unfold toSafeInteger, columns_of. by rewrite lookup_columns, E. Qed.

(** An array of strings is its own canonical form. *)
Lemma canonicalize_strings lineage :
  canonicalize 0 (JArray (map (fun s => JScalar (SString s)) lineage)) =
  Some (JArray (map (fun s => JScalar (SString s)) lineage)).
Proof.
  simpl. rewrite traverse_same; [done|]. intros v Hv.
  apply list_elem_of_fmap in Hv as (s & -> & _). done.
Qed.

Lemma readable_strings lineage :
  json_readable (JArray (map (fun s => JScalar (SString s)) lineage)) = true.
Proof.
  simpl. apply forallb_forall. intros v Hv%list_elem_of_In.
  apply list_elem_of_fmap in Hv as (s & -> & _). done.
Qed.

Lemma traverse_strings lineage :
  traverse string_of (map (fun s => JScalar (SString s)) lineage) = Some lineage.
Proof. induction lineage as [|s l IH]; simpl; [done|]. by rewrite IH. Qed.

Lemma lineage_read r :
  toArtifactIdArray (columns_of ARTIFACT_VIEW r) "source_lineage" = inr (ar_sourceLineage r).
Proof.
  unfold toArtifactIdArray. erewrite toText_columns by reflexivity. cbn [rbind].
  unfold lineageText, stringifyCanonical. rewrite canonicalize_strings. simpl.
  change ("[" +:+ _ +:+ "]")
    with (json_stringify (JArray (map (fun s => JScalar (SString s)) (ar_sourceLineage r)))).
  rewrite (parse_canonical _ _ (canonicalize_strings _) (readable_strings _)).
  by rewrite traverse_strings.
Qed.

(** Reads the columns of a row back. *)
Ltac read_columns :=
  repeat first
    [ erewrite toText_columns by reflexivity
    | erewrite toNullableText_columns by reflexivity
    | erewrite toSafeInteger_columns by reflexivity
    | rewrite lineage_read ];
  cbn [rbind].

(** An update of every column outside the primary key. *)
Ltac update_columns :=
  intros r r0 _ Hpk; injection Hpk; intros; eexists; split; [reflexivity|];
  apply map_eq; intros c; rewrite lookup_union; unfold columns_of;
  rewrite !lookup_columns; simpl;
  repeat match goal with |- context [str_eqb c ?k] =>
    let E := fresh in
    destruct (str_eqb c k) eqn:E;
    [apply str_eqb_true in E as ->; first [reflexivity|cbn; congruence]|]
  end; done.

Ltac load_columns loader :=
  intros r r0; unfold loader; read_columns;
  repeat (case_match; cbn [rbind]; try done); intros [= <-]; by destruct r.

Ltac loads_columns loader :=
  intros r Hr; cbv beta in Hr; unfold loader; read_columns;
  repeat match goal with
  | H : _ /\ _ |- _ => destruct H
  | H : safe _ |- _ => apply Z.leb_le in H; rewrite H; clear H
  | H : isRunStatus _ = true |- _ => rewrite H; clear H
  end; by destruct r.

Ltac first_columns :=
  intros r Hr _; cbn in Hr; unfold first_revision, integer_column, columns_of;
  rewrite lookup_columns; destruct r; cbn in Hr; subst; reflexivity.

(** The obligations of a table with one text key. *)
Ltac stored_table loader :=
  lazymatch goal with
  | |- forall r, exists values, _ => intros r; eexists; by split
  | |- forall r, row_revision r = 1 -> _ => first_columns
  | |- forall r, _ = t_artifact -> _ => done
  | |- forall r r0, ?t <> t_artifact -> _ => first [done|update_columns]
  | |- forall r r0, _ = _ -> row_key _ = row_key _ => by intros r r0 [= E]
  | |- forall r r0, row_ok _ -> _ =>
      intros r r0 _ _ E; exact (f_equal (fun k => [sql_text k]) E)
  | |- forall r r0, _ = inr r0 -> _ => load_columns loader
  | |- forall r, _ -> _ => loads_columns loader
  | |- _ => done
  end.

#[export] Program Instance RunStored : Stored RunState := {|
  sto_view := RUN_VIEW; sto_load := toRunProjectionRow; sto_pk r := [sql_text (rs_runId r)];
  sto_loadable r := isRunStatus (rs_status r) = true /\ safe (rs_revision r) /\
    safe (rs_lastEventSequence r) |}.
Solve Obligations with stored_table toRunProjectionRow.

#[export] Program Instance CodebaseStored : Stored CodebaseState := {|
  sto_view := CODEBASE_VIEW; sto_load := toCodebaseRow;
  sto_pk r := [sql_text (cb_codebaseId r)];
  sto_loadable r := safe (cb_revision r) /\ safe (cb_lastEventSequence r) |}.
Solve Obligations with stored_table toCodebaseRow.

#[export] Program Instance RepositoryStored : Stored RepositoryState := {|
  sto_view := REPOSITORY_VIEW; sto_load := toRepositoryRow;
  sto_pk r := [sql_text (rep_repositoryId r)];
  sto_loadable r := safe (rep_revision r) /\ safe (rep_lastEventSequence r) |}.
Solve Obligations with stored_table toRepositoryRow.

#[export] Program Instance WorkspaceStored : Stored WorkspaceState := {|
  sto_view := WORKSPACE_VIEW; sto_load := toWorkspaceRow;
  sto_pk r := [sql_text (wk_workspaceId r)];
  sto_loadable r := safe (wk_revision r) /\ safe (wk_lastEventSequence r) |}.
Solve Obligations with stored_table toWorkspaceRow.

#[export] Program Instance LeaseStored : Stored WorkspaceLeaseState := {|
  sto_view := WORKSPACE_LEASE_VIEW; sto_load := toWorkspaceLeaseRow;
  sto_pk r := [sql_text (wl_checkoutPath r)];
  sto_loadable r := safe (wl_fencingRevision r) /\ safe (wl_revision r) /\
    safe (wl_lastEventSequence r) |}.
Solve Obligations with stored_table toWorkspaceLeaseRow.
Next Obligation.
  intros r Hr Hf. cbn in Hr, Hf. assert (wl_fencingRevision r = 1) as Hf' by lia.
  unfold first_revision, integer_column, columns_of. rewrite !lookup_columns.
  destruct r. cbn in Hr, Hf'. subst. reflexivity.
Qed.

#[export] Program Instance ArtifactStored : Stored ArtifactState := {|
  sto_view := ARTIFACT_VIEW; sto_load := toArtifactRow; sto_pk r := [sql_text (ar_artifactId r)];
  sto_loadable r := safe (ar_byteLength r) /\ safe (ar_revision r) /\
    safe (ar_lastEventSequence r) |}.
Solve Obligations with stored_table toArtifactRow.

(** A part without a NUL ends at the first NUL. *)
Lemma until_nul a b s t :
  str_has NULL a = false -> str_has NULL b = false ->
  a +:+ String NULL s = b +:+ String NULL t -> a = b /\ s = t.
Proof.
  revert b. induction a as [|c a IH]; intros [|d b] Ha Hb H; simpl in *.
  - by injection H.
  - injection H as <- _. by rewrite (bool_decide_eq_true_2 (NULL = NULL)) in Hb.
  - injection H as -> _. by rewrite (bool_decide_eq_true_2 (NULL = NULL)) in Ha.
  - injection H as -> H. apply orb_false_elim in Ha as [_ Ha], Hb as [_ Hb].
    by destruct (IH b Ha Hb H) as [-> ->].
Qed.

#[export] Program Instance AliasStored : Stored StageArtifactAliasState := {|
  sto_view := STAGE_ARTIFACT_ALIAS_VIEW; sto_load := toStageArtifactAliasRow;
  sto_pk r := [sql_text (al_runId r); sql_text (al_stageId r); sql_text (al_name r)];
  sto_loadable r := safe (al_revision r) /\ safe (al_lastEventSequence r) |}.
Solve Obligations with stored_table toStageArtifactAliasRow.
Next Obligation.
  intros r r0 [= E1 E2 E3]. unfold row_key. simpl. unfold aliasKeyOf. by rewrite E1, E2, E3.
Qed.
Next Obligation.
  intros r r0 [H1 H2] [H3 H4] E. cbn in E. unfold aliasKeyOf, stageArtifactAliasKey in E.
  apply until_nul in E as [-> E]; [|done..]. by apply until_nul in E as [-> ->].
Qed.

Local Open Scope res_scope.
Local Open Scope Z_scope.

Notation Rows := (gmap (ProjectionTable * list SqlValue) Columns).

(** The row a write is for. *)
Definition target (w : ProjectionWrite) : option (ProjectionTable * list SqlValue) :=
  pair (pw_table w) <$> primary_key (pw_table w) (pw_row w).

(** [rows'] is [rows] with the writes done. *)
Record written (rows : Rows) (writes : list ProjectionWrite) (rows' : Rows) : Prop := {
  wr_done w x : w ∈ writes -> target w = Some x -> rows' !! x = Some (list_to_map (pw_row w));
  wr_kept x : (forall w, w ∈ writes -> target w <> Some x) -> rows' !! x = rows !! x
}.

Section Writes.
Context `{SchemaChecks}.

(** A write that only the schema's own constraints can refuse. *)
Definition writable (rows : Rows) (w : ProjectionWrite) : Prop :=
  exists x z,
    target w = Some x /\ map_get (pw_row w) "revision" = Some (sql_integer z) /\
    forall db, db_rows db !! x = rows !! x ->
      writeRow db w = inl "constraint failed" \/
      writeRow db w = inr (with_rows db (<[x := list_to_map (pw_row w)]> (db_rows db))).

Lemma writeRows_written rows0 : forall writes db,
  NoDup (map target writes) -> (forall w, w ∈ writes -> writable rows0 w) ->
  (forall w x, w ∈ writes -> target w = Some x -> db_rows db !! x = rows0 !! x) ->
  writeRows db writes = inl "constraint failed" \/
  exists reported rows', writeRows db writes = inr (reported, with_rows db rows') /\
    written (db_rows db) writes rows'.
Proof.
  induction writes as [|w writes IH]; intros db Hnd Hw Hdb.
  { right. exists [], (db_rows db). split; [by destruct db|]. split; [|done].
    intros w x Hin. by apply elem_of_nil in Hin. }
  cbn [map] in Hnd. apply NoDup_cons in Hnd as [Hnew Hnd].
  destruct (Hw w ltac:(by left)) as (x & z & Ht & Hrev & Hwrite).
  cbn [writeRows]. unfold writtenRevision. rewrite Hrev. cbn [rbind].
  destruct (Hwrite db) as [->| ->]; [apply (Hdb w x); [by left|done]|by left|]. cbn [rbind].
  set (db1 := with_rows db (<[x := list_to_map (pw_row w)]> (db_rows db))).
  assert (forall w', w' ∈ writes -> target w' <> Some x) as Hother.
  { intros w' Hin E. apply Hnew. rewrite Ht, <-E. by apply list_elem_of_fmap_2. }
  destruct (IH db1 Hnd) as [->|(reported & rows' & -> & Hd & Hk)].
  - intros w' Hin. apply Hw. by right.
  - intros w' y Hin E. simpl. rewrite lookup_insert_ne.
    + apply (Hdb w' y); [by right|done].
    + intros <-. by apply (Hother w').
  - by left.
  - right. exists ((pw_table w, pw_key w, z) :: reported), rows'. split; [by destruct db|].
    split.
    + intros w' y [->|Hin]%elem_of_cons E; [|by apply (Hd w')].
      rewrite Ht in E. injection E as <-. rewrite Hk by done. apply lookup_insert_eq.
    + intros y Hy. rewrite Hk; [|intros w' Hin; apply Hy; by right]. apply lookup_insert_ne.
      intros <-. by apply (Hy w ltac:(by left)).
Qed.
End Writes.

(** ** One table *)

Section Table.
Context {T : Type} `{Stored T}.
Implicit Types (r : T) (m b : gmap string T).
Notation view := (sto_view (T := T)).
Notation table := (tv_table view).
Notation select := (tv_select view).

(** The table holds the rows of [m] and no others. *)
Definition represents_table (rows : Rows) (m : gmap string T) : Prop :=
  forall key raw, rows !! (table, key) = Some raw <->
    exists k r, m !! k = Some r /\ key = sto_pk r /\ raw = columns_of sto_view r.

(** [key] is the primary key of the rows filed under [k]. *)
Definition names (k : string) (key : list SqlValue) : Prop :=
  forall r, row_ok r -> row_key r = k <-> sto_pk r = key.

Lemma represented rows m k r :
  represents_table rows m -> m !! k = Some r ->
  rows !! (table, sto_pk r) = Some (columns_of sto_view r).
Proof. intros Hrep E. apply Hrep. by exists k, r. Qed.

Lemma unrepresented n rows m k r :
  represents_table rows m -> sound_table n m -> row_ok r -> row_key r = k -> m !! k = None ->
  rows !! (table, sto_pk r) = None.
Proof.
  intros Hrep Hs Hok Hk E. apply eq_None_not_Some. intros [raw Hraw].
  apply Hrep in Hraw as (k' & r' & E' & Hpk & _). destruct (Hs k' r' E') as (Hk' & _).
  pose proof (sto_pk_key _ _ Hpk). congruence.
Qed.

Lemma revision_column r : integer_column (columns_of view r) "revision" = Some (row_revision r).
Proof. unfold integer_column, columns_of. by rewrite lookup_columns, sto_revision_column. Qed.

Lemma sequence_column r :
  integer_column (columns_of view r) "last_event_sequence" = Some (row_sequence r).
Proof. unfold integer_column, columns_of. by rewrite lookup_columns, sto_sequence_column. Qed.

(** *** Loading the rows of a scope *)

Lemma loadKeys_acc n db m : forall (keys : list (string * list SqlValue)) b0 b,
  represents_table (db_rows db) m -> sound_table n m ->
  (forall key, key ∈ keys -> names (fst key) (snd key)) -> b0 ⊆ m ->
  fold_left (fun acc (key : string * list SqlValue) =>
      let! rows := acc in
      match db_rows db !! (table, snd key) with
      | None => inr rows
      | Some raw => let! row := sto_load raw in inr (<[fst key := row]> rows)
      end) keys (inr b0) = inr b ->
  b ⊆ m /\ (forall k, k ∈ map fst keys -> b !! k = m !! k) /\
  (forall k, k ∉ map fst keys -> b !! k = b0 !! k).
Proof.
  induction keys as [|[k key] keys IH]; intros b0 b Hrep Hs Hnames Hsub E.
  { injection E as <-. split; [done|]. split; [|done]. intros k Hk. by apply elem_of_nil in Hk. }
  cbn [fold_left rbind fst snd] in E.
  assert (names k key) as Hname by (apply (Hnames (k, key)); by left).
  assert (exists b1, b1 ⊆ m /\ b1 !! k = m !! k /\ (forall j, j <> k -> b1 !! j = b0 !! j) /\
    fold_left (fun acc (key : string * list SqlValue) =>
      let! rows := acc in
      match db_rows db !! (table, snd key) with
      | None => inr rows
      | Some raw => let! row := sto_load raw in inr (<[fst key := row]> rows)
      end) keys (inr b1) = inr b) as (b1 & Hsub1 & Hk1 & Hj1 & E1).
  { destruct (db_rows db !! (table, key)) as [raw|] eqn:Eraw.
    - pose proof Eraw as (k' & r & Er & Hpk & ->)%Hrep. destruct (Hs k' r Er) as (Hk' & _ & _ & Hok).
      assert (k' = k) as -> by (rewrite <-Hk'; by apply Hname).
      destruct (sto_load _) as [reason|row] eqn:El; cbn [rbind] in E.
      { exfalso. clear -E. by induction keys. }
      apply sto_load_back in El as ->. exists (<[k := r]> b0). split; [|split; [|split]]; [..|done].
      + by apply insert_subseteq_l.
      + by rewrite lookup_insert_eq.
      + intros j Hj. by apply lookup_insert_ne.
    - exists b0. split; [done|]. split; [|split; done]. destruct (m !! k) as [r|] eqn:Er.
      + destruct (Hs k r Er) as (Hk & _ & _ & Hok). apply Hname in Hk; [|done]. subst key.
        by rewrite (represented _ _ _ _ Hrep Er) in Eraw.
      + apply eq_None_not_Some. intros [r Hr]. eapply lookup_weaken in Hr; [|done]. congruence. }
  destruct (IH b1 b Hrep Hs (fun x Hx => Hnames x ltac:(by right)) Hsub1 E1) as (Hb & Hin & Hout).
  split; [done|]. split.
  - intros j Hj. destruct (decide (j ∈ map fst keys)) as [Hjk|Hjk]; [by apply Hin|].
    rewrite Hout by done. cbn [map fst] in Hj. apply elem_of_cons in Hj as [->|Hj]; [done|by destruct Hjk].
  - intros j Hj. cbn [map fst] in Hj. apply not_elem_of_cons in Hj as [Hjk Hj].
    rewrite Hout by done. by apply Hj1.
Qed.

Lemma loadKeys_scoped n db m keys b :
  represents_table (db_rows db) m -> sound_table n m ->
  (forall key, key ∈ keys -> names (fst key) (snd key)) ->
  loadKeys table sto_load db keys = inr b ->
  agree (map fst keys) m b /\ forall k, k ∉ map fst keys -> b !! k = None.
Proof.
  intros Hrep Hs Hnames E. unfold loadKeys in E.
  destruct (loadKeys_acc n db m keys ∅ b Hrep Hs Hnames (map_empty_subseteq _) E) as (_ & Hin & Hout).
  split; [intros k Hk; symmetry; by apply Hin|]. intros k Hk. rewrite Hout by done. apply lookup_empty.
Qed.

(** *** The diff *)

(** The write of the row [r] filed under [k]. *)
Definition write_of (b : gmap string T) (k : string) (r : T) : ProjectionWrite :=
  {| pw_table := table; pw_key := k; pw_previousRevision := row_revision <$> b !! k;
     pw_row := tv_toRow sto_view r |}.

Lemma target_write b k r : target (write_of b k r) = Some (table, sto_pk r).
Proof. unfold target. simpl. by rewrite sto_primary. Qed.

Lemma elem_of_sorted_keys m k : k ∈ sorted_keys m <-> is_Some (m !! k).
Proof.
  unfold sorted_keys. rewrite elem_of_sort_strings, list_elem_of_fmap. split.
  - intros ([k' r] & -> & E%elem_of_map_to_list). by exists r.
  - intros [r E]. exists (k, r). split; [done|]. by apply elem_of_map_to_list.
Qed.

Lemma sorted_keys_NoDup m : NoDup (sorted_keys m).
Proof. unfold sorted_keys, sort_strings. rewrite sort_key_perm. apply NoDup_fst_map_to_list. Qed.

Lemma diffRow_elem b k r w :
  w ∈ diffRow sto_view b k r <->
  w = write_of b k r /\ forall r0, b !! k = Some r0 -> row_revision r0 <> row_revision r.
Proof.
  unfold diffRow, write_of. destruct (b !! k) as [r0|]; simpl.
  - rewrite !sto_revision. destruct (_ =? _) eqn:E.
    + apply Z.eqb_eq in E. split; [intros Hn; by apply elem_of_nil in Hn|].
      intros [_ Hne]. by destruct (Hne r0 eq_refl).
    + apply Z.eqb_neq in E. rewrite list_elem_of_singleton. split; [|by intros [-> _]].
      intros ->. split; [done|]. by intros r1 [= <-].
  - rewrite list_elem_of_singleton. split; [|by intros [-> _]]. by intros ->.
Qed.

Lemma diffTable_elem s0 s1 w :
  w ∈ diffTable view s0 s1 <->
  exists k r, select s1 !! k = Some r /\ w = write_of (select s0) k r /\
    forall r0, select s0 !! k = Some r0 -> row_revision r0 <> row_revision r.
Proof.
  unfold diffTable. rewrite list_elem_of_In, in_flat_map. split.
  - intros (k & Hk & Hw). apply list_elem_of_In in Hw.
    destruct (select s1 !! k) as [r|] eqn:E; [|by apply elem_of_nil in Hw].
    apply diffRow_elem in Hw as [-> Hr]. by exists k, r.
  - intros (k & r & E & -> & Hr). exists k. split.
    + apply list_elem_of_In, elem_of_sorted_keys. by eexists.
    + apply list_elem_of_In. rewrite E. by apply diffRow_elem.
Qed.

Lemma flat_map_NoDup {A B C} (f : A -> list B) (g : B -> C) l :
  NoDup l -> (forall x, NoDup (map g (f x))) ->
  (forall x y u v, x ∈ l -> y ∈ l -> u ∈ f x -> v ∈ f y -> g u = g v -> x = y) ->
  NoDup (map g (flat_map f l)).
Proof.
  intros Hl Hf Hinj. induction Hl as [|x l Hx Hl IH]; [constructor|]. simpl. rewrite map_app.
  apply NoDup_app. split; [apply Hf|]. split.
  - intros c Hc Hc'. apply list_elem_of_fmap in Hc as (u & -> & Hu), Hc' as (v & E & Hv).
    apply list_elem_of_In, in_flat_map in Hv as (y & Hy%list_elem_of_In & Hv%list_elem_of_In).
    apply Hx. by rewrite (Hinj x y u v); [|left|right|..].
  - apply IH. intros y z u v Hy Hz. apply Hinj; by right.
Qed.

Lemma diffTable_NoDup n s0 s1 :
  sound_table n (select s1) -> NoDup (map target (diffTable view s0 s1)).
Proof.
  intros Hs. unfold diffTable. apply flat_map_NoDup; [apply sorted_keys_NoDup|..].
  - intros k. destruct (_ !! k) as [r|]; [|constructor]. unfold diffRow.
    destruct (_ !! k); [destruct (_ =? _)|]; simpl; try constructor; try constructor;
      apply not_elem_of_nil.
  - intros k k' w w' _ _ Hw Hw' E.
    destruct (select s1 !! k) as [r|] eqn:Er; [|by apply elem_of_nil in Hw].
    destruct (select s1 !! k') as [r'|] eqn:Er'; [|by apply elem_of_nil in Hw'].
    apply diffRow_elem in Hw as [-> _], Hw' as [-> _]. rewrite !target_write in E.
    injection E as E. apply (sto_pk_key r r') in E. destruct (Hs k r Er) as (<- & _).
    by destruct (Hs k' r' Er') as (<- & _).
Qed.

(** *** A commit's change of the table *)

Section Change.
Context `{SchemaChecks} (n0 n : Z) (Hn : n0 < n) (keys : list string).
Context (rows : Rows) (s b s' b' : ProjectionState).
Context (Hrep : represents_table rows (select s)) (Hs : sound_table n0 (select s)).
Context (Hagree : agree keys (select s) (select b)).
Context (Hoff : forall k, k ∉ keys -> select b !! k = None).
Context (Hmoved : moved keys (select s) (select b) (select s') (select b')).
Context (Hstep : step_table n (select s) (select s')).

(** What the scoped projection holds after the event. *)
Lemma change_after k r :
  select b' !! k = Some r -> k ∈ keys /\ select s' !! k = Some r /\ select b !! k = select s !! k.
Proof.
  intros E. destruct (decide (k ∈ keys)) as [Hk|Hk].
  - split; [done|]. split; [|symmetry; by apply Hagree].
    by rewrite (mv_agree _ _ _ _ _ Hmoved k Hk).
  - rewrite (mv_local _ _ _ _ _ Hmoved k Hk), Hoff in E by done. done.
Qed.

(** A row whose revision is new was changed by the event. *)
Lemma change_advanced k r :
  select s' !! k = Some r -> (forall r0, select s !! k = Some r0 -> row_revision r0 <> row_revision r) ->
  advanced n (select s) k r.
Proof.
  intros E Hne. destruct (Hstep k) as [E'|(r' & E' & Ha)]; [|congruence].
  rewrite E in E'. symmetry in E'. by destruct (Hne r E').
Qed.

Lemma insert_writable k r :
  select s !! k = None -> advanced n (select s) k r -> select b !! k = None ->
  writable rows (write_of (select b) k r).
Proof.
  intros E (Hk & Hq & Hok & Hr) Eb. exists (table, sto_pk r), (row_revision r).
  split; [apply target_write|]. split; [apply sto_revision_column|]. intros db Hdb.
  unfold writeRow, write_of. simpl. rewrite Eb. simpl. unfold insertRow. simpl.
  destruct (sto_insert r) as (values & -> & Ev). rewrite sto_primary, Hdb, Ev.
  rewrite (unrepresented n0 rows (select s) k r) by done. simpl.
  rewrite E in Hr. simpl in Hr. rewrite sto_first by done. simpl.
  destruct (schema_checks _ _ _); [by right|by left].
Qed.

Lemma update_writable k r r0 :
  select s !! k = Some r0 -> advanced n (select s) k r -> select b !! k = Some r0 ->
  writable rows (write_of (select b) k r).
Proof.
  intros E (Hk & Hq & Hok & Hr) Eb. destruct (Hs k r0 E) as (Hk0 & Hr0 & Hq0 & Hok0).
  exists (table, sto_pk r), (row_revision r).
  split; [apply target_write|]. split; [apply sto_revision_column|]. intros db Hdb.
  assert (sto_pk r = sto_pk r0) as Hpk by (apply sto_key_pk; congruence).
  rewrite E in Hr. simpl in Hr.
  assert (table <> t_artifact) as Hart.
  { intros Ht. pose proof (sto_frozen r Ht Hok). pose proof (sto_frozen r0 Ht Hok0). lia. }
  unfold writeRow, write_of. simpl. rewrite Eb. simpl. unfold updateRow. simpl.
  destruct (sto_update r r0 Hart Hpk) as (values & -> & Ev).
  rewrite sto_primary, Hdb, Hpk, (represented _ _ _ _ Hrep E). cbv zeta. rewrite Ev.
  rewrite revision_column, bool_decide_eq_true_2 by done. simpl.
  assert (causal_update table (columns_of view r0) (columns_of view r) = true) as ->.
  { unfold causal_update. rewrite !revision_column, !sequence_column.
    destruct table; try done; apply andb_true_intro; split; (apply Z.eqb_eq || apply Z.ltb_lt); lia. }
  simpl. destruct (schema_checks _ _ _); [by right|by left].
Qed.

Lemma change_writable w : w ∈ diffTable view b b' -> writable rows w.
Proof.
  intros (k & r & Er & -> & Hne)%diffTable_elem.
  destruct (change_after k r Er) as (Hk & Er' & Eb). rewrite Eb in Hne.
  pose proof (change_advanced k r Er' Hne) as Ha. destruct (select s !! k) as [r0|] eqn:E.
  - by eapply update_writable.
  - by eapply insert_writable.
Qed.

Lemma change_sound k r : select s' !! k = Some r -> 0 <= n0 -> row_sound n k r.
Proof. intros E Hpos. by eapply (step_sound n0 n). Qed.

(** A row that was not written is as it was. *)
Lemma change_unwritten k r :
  select s' !! k = Some r -> (forall w, w ∈ diffTable view b b' -> target w <> Some (table, sto_pk r)) ->
  select s !! k = Some r.
Proof.
  intros E Hno. destruct (decide (k ∈ keys)) as [Hk|Hk].
  - destruct (Hstep k) as [<-|(r' & E' & Ha)]; [done|]. rewrite E in E'. injection E' as <-. exfalso.
    apply (Hno (write_of (select b) k r)); [|apply target_write]. apply diffTable_elem.
    exists k, r. split; [by rewrite <-(mv_agree _ _ _ _ _ Hmoved k Hk)|]. split; [done|].
    intros r0 E0. rewrite <-(Hagree k Hk) in E0. destruct Ha as (_ & _ & _ & Hr).
    rewrite E0 in Hr. simpl in Hr. lia.
  - by rewrite <-(mv_frame _ _ _ _ _ Hmoved k Hk).
Qed.

Lemma change_represents writes rows' :
  0 <= n0 -> written rows writes rows' ->
  (forall w, w ∈ writes -> pw_table w = table -> w ∈ diffTable view b b') ->
  (forall w, w ∈ diffTable view b b' -> w ∈ writes) ->
  represents_table rows' (select s').
Proof.
  intros Hpos [Hd Hk] Hin Hout.
  assert (forall w key, w ∈ writes -> target w = Some (table, key) -> w ∈ diffTable view b b') as Hmine.
  { intros w key Hw Et. apply Hin; [done|]. unfold target in Et.
    destruct (primary_key _ _); simpl in Et; congruence. }
  intros key raw. split.
  - intros E. destruct (decide (Exists (fun w => target w = Some (table, key)) writes)) as [Hw|Hw].
    + apply Exists_exists in Hw as (w & Hw & Et). rewrite (Hd w _ Hw Et) in E. injection E as <-.
      pose proof (Hmine w key Hw Et) as (k & r & Er & -> & _)%diffTable_elem.
      rewrite target_write in Et. injection Et as <-. exists k, r.
      by destruct (change_after k r Er) as (_ & -> & _).
    + rewrite Hk in E by (intros w Hin' Et; apply Hw, Exists_exists; by exists w).
      apply Hrep in E as (k & r & Er & -> & ->).
      destruct (step_keeps n _ _ k Hstep ltac:(by eexists)) as [r' Er'].
      destruct (change_sound k r' Er' Hpos) as (Hk' & _ & _ & Hok').
      destruct (Hs k r Er) as (Hk0 & _ & _ & Hok).
      assert (sto_pk r' = sto_pk r) as Hpk by (apply sto_key_pk; congruence).
      assert (select s !! k = Some r') as E'.
      { apply change_unwritten; [done|]. intros w Hw' Et. apply Hw, Exists_exists. exists w.
        rewrite Hpk in Et. split; [by apply Hout|done]. }
      exists k, r'. split; [done|]. split; [done|]. congruence.
  - intros (k & r & Er & -> & ->).
    destruct (decide (Exists (fun w => target w = Some (table, sto_pk r)) writes)) as [Hw|Hw].
    + apply Exists_exists in Hw as (w & Hw & Et). rewrite (Hd w _ Hw Et).
      pose proof (Hmine w _ Hw Et) as (k' & r' & Er' & -> & _)%diffTable_elem.
      rewrite target_write in Et. injection Et as Et. apply (sto_pk_key r' r) in Et.
      destruct (change_after k' r' Er') as (_ & Es' & _).
      destruct (change_sound k' r' Es' Hpos) as (Hk' & _), (change_sound k r Er Hpos) as (Hk0 & _).
      assert (k' = k) as -> by congruence. rewrite Er in Es'. by injection Es' as ->.
    + assert (forall w, w ∈ writes -> target w <> Some (table, sto_pk r)) as Hno.
      { intros w Hin' Et. apply Hw, Exists_exists. by exists w. }
      rewrite Hk by done. apply (represented rows (select s) k); [done|]. apply change_unwritten; [done|].
      intros w Hw'. by apply Hno, Hout.
Qed.
End Change.
End Table.
