(* ===== verification/StoreJournal.v ===== *)
(** * The journal and the store

    A database whose tables hold the fold of its journal stays such a database
    under every commit. *)

From stdpp Require Import gmap.
From S2P Require Import Prelude Ids Json Recovery CanonicalJson StateJson Projection ProjectionStore ProjectionFrame ProjectionSteps StoreWrites StateJsonProps PayloadCanon.

Local Open Scope res_scope.
Local Open Scope Z_scope.

(** ** A commit implements the reducer

    The tables hold a projection; a commit that succeeds leaves them holding
    what [applyEvent] makes of it, and only the schema's own constraints can
    refuse its writes. *)

(** ** The tables together *)

Record represents (rows : Rows) (s : ProjectionState) : Prop := {
  rp_runs : represents_table rows (st_runs s);
  rp_codebases : represents_table rows (st_codebases s);
  rp_repositories : represents_table rows (st_repositories s);
  rp_workspaces : represents_table rows (st_workspaces s);
  rp_leases : represents_table rows (st_workspaceLeases s);
  rp_artifacts : represents_table rows (st_artifacts s);
  rp_aliases : represents_table rows (st_stageArtifactAliases s)
}.

(** Nothing but the rows of the scope. *)
Record confined (sc : ProjectionScope) (b : ProjectionState) : Prop := {
  cf_runs k : k ∉ sc_runs sc -> st_runs b !! k = None;
  cf_codebases k : k ∉ sc_codebases sc -> st_codebases b !! k = None;
  cf_repositories k : k ∉ sc_repositories sc -> st_repositories b !! k = None;
  cf_workspaces k : k ∉ sc_workspaces sc -> st_workspaces b !! k = None;
  cf_leases k : k ∉ sc_workspaceLeases sc -> st_workspaceLeases b !! k = None;
  cf_artifacts k : k ∉ sc_artifacts sc -> st_artifacts b !! k = None;
  cf_aliases k : k ∉ alias_scope sc -> st_stageArtifactAliases b !! k = None
}.

(** ** Loading the scope of an event *)

Lemma single_keys_fst keys : map fst (single_keys keys) = keys.
Proof. unfold single_keys. rewrite map_map. apply map_id. Qed.

Lemma alias_keys_fst keys sc : sc_stageArtifactAliases sc = keys ->
  map fst (alias_keys keys) = alias_scope sc.
Proof. intros <-. unfold alias_keys, alias_scope. rewrite map_map. apply map_ext. by intros [[]]. Qed.

(** Tables with one text key. *)
Class SingleKey (T : Type) `{Stored T} : Prop :=
  single_pk : forall r : T, sto_pk r = [sql_text (row_key r)].

#[export] Instance run_single : SingleKey RunState.
Proof. done. Qed.
#[export] Instance codebase_single : SingleKey CodebaseState.
Proof. done. Qed.
#[export] Instance repository_single : SingleKey RepositoryState.
Proof. done. Qed.
#[export] Instance workspace_single : SingleKey WorkspaceState.
Proof. done. Qed.
#[export] Instance lease_single : SingleKey WorkspaceLeaseState.
Proof. done. Qed.
#[export] Instance artifact_single : SingleKey ArtifactState.
Proof. done. Qed.

Section Single.
Context {T : Type} `{SingleKey T}.

Lemma single_names keys key :
  key ∈ single_keys keys -> names (T := T) (fst key) (snd key).
Proof.
  intros (k & -> & _)%list_elem_of_fmap r _. rewrite single_pk. simpl. split; congruence.
Qed.

Lemma load_single n db (m b : gmap string T) keys :
  represents_table (db_rows db) m -> sound_table n m ->
  loadKeys (tv_table (sto_view (T := T))) sto_load db (single_keys keys) = inr b ->
  agree keys m b /\ forall k, k ∉ keys -> b !! k = None.
Proof.
  intros Hrep Hs E. pose proof (loadKeys_scoped n db m _ b Hrep Hs (single_names keys) E) as Hl.
  by rewrite single_keys_fst in Hl.
Qed.
End Single.

(** The ids that a scope's alias keys are made of have no NUL. *)
Definition clean_scope (sc : ProjectionScope) : Prop :=
  forall runId stageId name, (runId, stageId, name) ∈ sc_stageArtifactAliases sc ->
    str_has NULL runId = false /\ str_has NULL stageId = false.

Lemma eventScope_clean event sc : eventScope event = inr sc -> clean_scope sc.
Proof.
  unfold eventScope. intros E. destruct (payloadObject event) as [|payload]; [done|].
  cbn [rbind] in E. destruct (kindOf _) as [kind|]; [|done].
  destruct kind; scope_read E; intros runId stageId name Hin; simpl in Hin;
    try (by apply elem_of_nil in Hin).
  apply list_elem_of_fmap in Hin as (ref & [= -> -> ->] & _).
  split; [by eapply requireRunId_clean|by eapply requireStageId_clean].
Qed.

Lemma alias_names sc key :
  clean_scope sc -> key ∈ alias_keys (sc_stageArtifactAliases sc) ->
  names (T := StageArtifactAliasState) (fst key) (snd key).
Proof.
  intros Hc ([[runId stageId] name] & -> & Hin)%list_elem_of_fmap r [H1 H2].
  destruct (Hc _ _ _ Hin) as [H3 H4]. simpl. unfold aliasKeyOf, stageArtifactAliasKey. split.
  - intros E. apply until_nul in E as [-> E]; [|done..]. by apply until_nul in E as [-> ->].
  - by intros [= -> -> ->].
Qed.

Lemma load_scoped n db s sc b :
  represents (db_rows db) s -> sound n s -> clean_scope sc ->
  loadScopedProjectionState db sc = inr b -> scoped sc s b /\ confined sc b.
Proof.
  intros [] [] Hc E. unfold loadScopedProjectionState in E. res_inv E.
  destruct (load_single (T := RunState) n db _ _ _ rp_runs0 so_runs E0).
  destruct (load_single (T := CodebaseState) n db _ _ _ rp_codebases0 so_codebases E1).
  destruct (load_single (T := RepositoryState) n db _ _ _ rp_repositories0 so_repositories E2).
  destruct (load_single (T := WorkspaceState) n db _ _ _ rp_workspaces0 so_workspaces E3).
  destruct (load_single (T := WorkspaceLeaseState) n db _ _ _ rp_leases0 so_leases E4).
  destruct (load_single (T := ArtifactState) n db _ _ _ rp_artifacts0 so_artifacts E5).
  destruct (loadKeys_scoped (T := StageArtifactAliasState) n db _ _ _ rp_aliases0 so_aliases
    (fun key => alias_names sc key Hc) E6) as [Ha Hb].
  rewrite (alias_keys_fst _ sc eq_refl) in Ha, Hb. by split.
Qed.

(** ** Writing the diff *)

Lemma NoDup_targets l1 l2 :
  NoDup (map target l1) -> NoDup (map target l2) ->
  (forall w, w ∈ l1 -> is_Some (target w)) ->
  (forall w w', w ∈ l1 -> w' ∈ l2 -> pw_table w <> pw_table w') -> NoDup (map target (l1 ++ l2)).
Proof.
  intros H1 H2 Hs Hd. rewrite map_app. apply NoDup_app. split; [done|]. split; [|done].
  intros x Hx Hx'. apply list_elem_of_fmap in Hx as (w & -> & Hw), Hx' as (w' & E & Hw').
  destruct (Hs w Hw) as [x Ex]. rewrite Ex in E. symmetry in E. apply (Hd w w' Hw Hw').
  unfold target in *. destruct (primary_key (pw_table w) _), (primary_key (pw_table w') _);
    simpl in *; congruence.
Qed.

Section Parts.
Context {T : Type} `{Stored T}.
Notation view := (sto_view (T := T)).

Lemma part_table b b' w : w ∈ diffTable view b b' -> pw_table w = tv_table view.
Proof. by intros (k & r & _ & -> & _)%diffTable_elem. Qed.

Lemma part_target b b' w : w ∈ diffTable view b b' -> is_Some (target w).
Proof. intros (k & r & _ & -> & _)%diffTable_elem. rewrite target_write. by eexists. Qed.
End Parts.

(** Which table a write of the diff belongs to. *)
Ltac part_of H :=
  repeat (apply elem_of_app in H as [H|H]);
  (apply (@part_table ArtifactState ArtifactStored) in H || apply (@part_table CodebaseState CodebaseStored) in H ||
   apply (@part_table RepositoryState RepositoryStored) in H || apply (@part_table RunState RunStored) in H ||
   apply (@part_table StageArtifactAliasState AliasStored) in H ||
   apply (@part_table WorkspaceState WorkspaceStored) in H || apply (@part_table WorkspaceLeaseState LeaseStored) in H);
  simpl in H.

Ltac find_part :=
  let w := fresh in let H := fresh in let Ht := fresh in
  intros w H Ht; unfold diffProjectionState in H;
  repeat (apply elem_of_app in H as [H|H]); try exact H; exfalso; part_of H; rewrite H in Ht; done.

Ltac in_diff :=
  let w := fresh in let H := fresh in
  intros w H; unfold diffProjectionState; rewrite !elem_of_app; auto 10.

Section Commit.
Context `{SchemaChecks} (n0 n : Z) (Hn : n0 < n) (sc : ProjectionScope).
Context (db : Database) (s b s' b' : ProjectionState).
Context (Hrep : represents (db_rows db) s) (Hs : sound n0 s) (Hsc : scoped sc s b).
Context (Hc : confined sc b) (Hm : moves sc s b s' b') (Hst : steps n s s').

Lemma diff_writable w : w ∈ diffProjectionState b b' -> writable (db_rows db) w.
Proof.
  destruct Hrep, Hs, Hsc, Hc, Hm, Hst. unfold diffProjectionState. rewrite !elem_of_app.
  intros [Hw|[Hw|[Hw|[Hw|[Hw|[Hw|Hw]]]]]].
  - by eapply (@change_writable ArtifactState ArtifactStored _ n0 n Hn (sc_artifacts sc)).
  - by eapply (@change_writable CodebaseState CodebaseStored _ n0 n Hn (sc_codebases sc)).
  - by eapply (@change_writable RepositoryState RepositoryStored _ n0 n Hn (sc_repositories sc)).
  - by eapply (@change_writable RunState RunStored _ n0 n Hn (sc_runs sc)).
  - by eapply (@change_writable StageArtifactAliasState AliasStored _ n0 n Hn (alias_scope sc)).
  - by eapply (@change_writable WorkspaceState WorkspaceStored _ n0 n Hn (sc_workspaces sc)).
  - by eapply (@change_writable WorkspaceLeaseState LeaseStored _ n0 n Hn (sc_workspaceLeases sc)).
Qed.

(** The scoped projection after the event is sound too. *)
Lemma scoped_sound {T} `{Row T} keys (m c m' c' : gmap string T) :
  sound_table n m' -> (forall k, k ∉ keys -> c !! k = None) -> moved keys m c m' c' -> sound_table n c'.
Proof.
  intros Hm' Hoff [Ha _ Hl] k r E. destruct (decide (k ∈ keys)) as [Hk|Hk].
  - apply Hm'. by rewrite (Ha k Hk).
  - rewrite Hl, Hoff in E by done. done.
Qed.

Lemma diff_NoDup : NoDup (map target (diffProjectionState b b')).
Proof.
  destruct (steps_sound n0 n s s' Hn Hs Hst), Hc, Hm. unfold diffProjectionState.
  repeat apply NoDup_targets;
    try (intros w w' Hw Hw'; part_of Hw; part_of Hw'; congruence).
  - eapply (@diffTable_NoDup ArtifactState ArtifactStored), scoped_sound; eassumption.
  - eapply (@diffTable_NoDup CodebaseState CodebaseStored), scoped_sound; eassumption.
  - eapply (@diffTable_NoDup RepositoryState RepositoryStored), scoped_sound; eassumption.
  - eapply (@diffTable_NoDup RunState RunStored), scoped_sound; eassumption.
  - eapply (@diffTable_NoDup StageArtifactAliasState AliasStored), scoped_sound; eassumption.
  - eapply (@diffTable_NoDup WorkspaceState WorkspaceStored), scoped_sound; eassumption.
  - eapply (@diffTable_NoDup WorkspaceLeaseState LeaseStored), scoped_sound; eassumption.
  - apply (@part_target WorkspaceState WorkspaceStored).
  - apply (@part_target StageArtifactAliasState AliasStored).
  - apply (@part_target RunState RunStored).
  - apply (@part_target RepositoryState RepositoryStored).
  - apply (@part_target CodebaseState CodebaseStored).
  - apply (@part_target ArtifactState ArtifactStored).
Qed.

Lemma diff_represents rows' :
  written (db_rows db) (diffProjectionState b b') rows' -> represents rows' s'.
Proof.
  intros Hw. destruct Hrep, Hs, Hsc, Hc, Hm, Hst. split.
  - eapply (@change_represents RunState RunStored); eauto; [find_part|in_diff].
  - eapply (@change_represents CodebaseState CodebaseStored); eauto; [find_part|in_diff].
  - eapply (@change_represents RepositoryState RepositoryStored); eauto; [find_part|in_diff].
  - eapply (@change_represents WorkspaceState WorkspaceStored); eauto; [find_part|in_diff].
  - eapply (@change_represents WorkspaceLeaseState LeaseStored); eauto; [find_part|in_diff].
  - eapply (@change_represents ArtifactState ArtifactStored); eauto; [find_part|in_diff].
  - eapply (@change_represents StageArtifactAliasState AliasStored); eauto; [find_part|in_diff].
Qed.

Lemma writeRows_represents :
  writeRows db (diffProjectionState b b') = inl "constraint failed" \/
  exists reported rows', writeRows db (diffProjectionState b b') = inr (reported, with_rows db rows') /\
    represents rows' s'.
Proof.
  destruct (writeRows_written (db_rows db) (diffProjectionState b b') db diff_NoDup diff_writable
    (fun _ _ _ _ => eq_refl)) as [->|(reported & rows' & -> & Hw)]; [by left|].
  right. exists reported, rows'. split; [done|]. by apply diff_represents.
Qed.
End Commit.

Local Open Scope res_scope.
Local Open Scope Z_scope.

(** ** Reading the store back

    Tables that hold a projection read back as that projection, when its
    integers are safe. *)

Section Table.
Context {T : Type} `{Stored T}.
Notation view := (sto_view (T := T)).
Notation table := (tv_table view).
Implicit Types (m b : gmap string T) (r : T).

Definition loadable_table m : Prop := forall k r, m !! k = Some r -> sto_loadable r.

Lemma loadRows_acc n rows m : forall (entries : list ((ProjectionTable * list SqlValue) * Columns)) b0,
  represents_table rows m -> sound_table n m -> loadable_table m ->
  (forall e, e ∈ entries -> rows !! fst e = Some (snd e)) -> b0 ⊆ m ->
  exists b, fold_left (loadRow table sto_load row_key) entries (inr b0) = inr b /\
    b0 ⊆ b /\ b ⊆ m /\
    (forall k r, m !! k = Some r -> ((table, sto_pk r), columns_of view r) ∈ entries -> b !! k = Some r).
Proof.
  induction entries as [|[[t key] raw] entries IH]; intros b0 Hrep Hs Hl Hin Hsub.
  { exists b0. split; [done|]. split; [done|]. split; [done|]. intros k r _ Hk. by apply elem_of_nil in Hk. }
  pose proof (Hin _ ltac:(by left)) as Hraw. simpl in Hraw.
  assert (forall e, e ∈ entries -> rows !! fst e = Some (snd e)) as Hin' by (intros e He; apply Hin; by right).
  cbn [fold_left]. unfold loadRow at 2. cbn [rbind fst snd].
  destruct (decide (t = table)) as [->|Hne].
  - rewrite bool_decide_eq_true_2 by done. apply Hrep in Hraw as (k & r & Er & -> & ->).
    rewrite (sto_loads r) by (by eapply Hl). cbn [rbind]. destruct (Hs k r Er) as (Hk & _).
    destruct (IH (<[row_key r := r]> b0) Hrep Hs Hl Hin') as (b & -> & Hb0 & Hb & Hall).
    { rewrite Hk. by apply insert_subseteq_l. }
    exists b. split; [done|]. split; [|split; [done|]].
    + apply map_subseteq_spec. intros j x Hj. eapply lookup_weaken in Hj as Hm; [|done].
      eapply lookup_weaken; [|done]. destruct (decide (j = row_key r)) as [->|Hj'].
      * rewrite lookup_insert_eq. rewrite Hk in Hm. congruence.
      * by rewrite lookup_insert_ne.
    + intros k' r' Er' [E|Hin'']%elem_of_cons; [|by apply Hall].
      injection E as Epk _. apply (sto_pk_key r' r) in Epk. destruct (Hs k' r' Er') as (Hk' & _).
      assert (k' = k) as -> by congruence. assert (r' = r) as -> by congruence.
      eapply lookup_weaken; [|done]. rewrite Hk. apply lookup_insert_eq.
  - rewrite bool_decide_eq_false_2 by done.
    destruct (IH b0 Hrep Hs Hl Hin' Hsub) as (b & -> & Hb0 & Hb & Hall). exists b.
    split; [done|]. split; [done|]. split; [done|].
    intros k r Er [E|Hin'']%elem_of_cons; [congruence|by apply Hall].
Qed.

Lemma loadTable_represents n db m :
  represents_table (db_rows db) m -> sound_table n m -> loadable_table m ->
  loadTable table sto_load row_key db = inr m.
Proof.
  intros Hrep Hs Hl. unfold loadTable.
  destruct (loadRows_acc n (db_rows db) m (map_to_list (db_rows db)) ∅ Hrep Hs Hl)
    as (b & -> & _ & Hb & Hall).
  - intros [x raw] E%elem_of_map_to_list. done.
  - apply map_empty_subseteq.
  - f_equal. apply (anti_symm (⊆)); [done|]. apply map_subseteq_spec. intros k r Er.
    apply Hall; [done|]. apply elem_of_map_to_list. by eapply represented.
Qed.

(** The rows of a scope load, too. *)
Lemma loadKeys_total n db m keys :
  represents_table (db_rows db) m -> sound_table n m -> loadable_table m ->
  exists b, loadKeys table sto_load db keys = inr b.
Proof.
  intros Hrep Hs Hl. unfold loadKeys. generalize (∅ : gmap string T) as b0.
  induction keys as [|[k key] keys IH]; intros b0; [by exists b0|]. cbn [fold_left rbind fst snd].
  destruct (db_rows db !! (table, key)) as [raw|] eqn:E; [|apply IH].
  apply Hrep in E as (k' & r & Er & -> & ->). rewrite (sto_loads r) by (by eapply Hl). apply IH.
Qed.
End Table.

(** ** The seven tables *)

(** The only integers the reducer does not bound. *)
Definition safe_lengths (s : ProjectionState) : Prop :=
  forall k r, st_artifacts s !! k = Some r -> safe (ar_byteLength r).

Section State.
Context (n : Z) (db : Database) (s : ProjectionState).
Context (Hn : n <= MAX_SAFE_INTEGER) (Hs : sound n s) (Hrep : represents (db_rows db) s).
Context (Hlen : safe_lengths s).

Ltac load_table :=
  let k := fresh "k" in let r := fresh "r" in let E := fresh "E" in
  intros k r E;
  match goal with Hso : sound_table _ ?m, E : ?m !! _ = Some _ |- _ =>
    destruct (Hso k r E) as (_ & ? & ? & ?) end;
  cbn in *; unfold safe; repeat split; try done; lia.

Lemma sound_loadable :
  loadable_table (st_runs s) /\ loadable_table (st_codebases s) /\
  loadable_table (st_repositories s) /\ loadable_table (st_workspaces s) /\
  loadable_table (st_workspaceLeases s) /\ loadable_table (st_artifacts s) /\
  loadable_table (st_stageArtifactAliases s).
Proof.
  destruct Hs. do 5 (split; [load_table|]). split; [|load_table].
  intros k r E. pose proof (Hlen k r E). destruct (so_artifacts k r E) as (_ & ? & ? & ?).
  cbn in *. unfold safe in *. repeat split; lia.
Qed.

(** The two loaders of a table, at its instance. *)
Ltac load_stored H :=
  let E := fresh in pose proof (loadTable_represents n db _ H) as E; cbn in E; rewrite E by done;
  clear E; cbn [rbind].

Ltac load_scope H keys :=
  let E := fresh in
  destruct (loadKeys_total n db _ keys H) as [? E]; [done..|]; cbn in E; rewrite E; clear E;
  cbn [rbind].

Lemma loadStored_represents : loadStoredProjectionState db = inr s.
Proof.
  destruct sound_loadable as (L1 & L2 & L3 & L4 & L5 & L6 & L7). destruct Hs, Hrep.
  unfold loadStoredProjectionState.
  load_stored rp_runs0.
  load_stored rp_codebases0.
  load_stored rp_repositories0.
  load_stored rp_workspaces0.
  load_stored rp_leases0.
  load_stored rp_artifacts0.
  load_stored rp_aliases0.
  by destruct s.
Qed.

Lemma loadScoped_total sc : exists b, loadScopedProjectionState db sc = inr b.
Proof.
  destruct sound_loadable as (L1 & L2 & L3 & L4 & L5 & L6 & L7). destruct Hs, Hrep.
  unfold loadScopedProjectionState.
  load_scope rp_runs0 (single_keys (sc_runs sc)).
  load_scope rp_codebases0 (single_keys (sc_codebases sc)).
  load_scope rp_repositories0 (single_keys (sc_repositories sc)).
  load_scope rp_workspaces0 (single_keys (sc_workspaces sc)).
  load_scope rp_leases0 (single_keys (sc_workspaceLeases sc)).
  load_scope rp_artifacts0 (single_keys (sc_artifacts sc)).
  load_scope rp_aliases0 (alias_keys (sc_stageArtifactAliases sc)).
  by eexists.
Qed.
End State.

Local Open Scope res_scope.
Local Open Scope Z_scope.

(** ** Reading the journal *)

Lemma max_sequence_le l : forall acc, acc <= fold_left Z.max l acc.
Proof. induction l as [|x l IH]; intros acc; simpl; [lia|]. specialize (IH (Z.max acc x)). lia. Qed.

Lemma max_sequence_elem l x : forall acc, x ∈ l -> x <= fold_left Z.max l acc.
Proof.
  induction l as [|y l IH]; intros acc Hx; [by apply elem_of_nil in Hx|]. simpl.
  apply elem_of_cons in Hx as [<-|Hx]; [|by apply IH].
  pose proof (max_sequence_le l (Z.max acc x)). lia.
Qed.

Lemma readEvents_all db :
  readEvents db (latestSequence db) = rtraverse (fun _ row => toStateEvent row) 0 (db_events db).
Proof.
  unfold readEvents. rewrite filter_all; [done|]. intros row Hrow. apply Z.leb_le.
  apply max_sequence_elem. by apply list_elem_of_fmap_2.
Qed.

Lemma rtraverse_const {A B} (f : A -> Res B) l : forall i j,
  rtraverse (fun _ => f) i l = rtraverse (fun _ => f) j l.
Proof. induction l as [|x l IH]; intros i j; simpl; [done|]. by rewrite (IH (S i) (S j)). Qed.

Lemma rtraverse_snoc {A B} (f : A -> Res B) l x ys y : forall i,
  rtraverse (fun _ => f) i l = inr ys -> f x = inr y ->
  rtraverse (fun _ => f) i (l ++ [x]) = inr (ys ++ [y]).
Proof.
  revert ys. induction l as [|a l IH]; intros ys i E Hx; cbn [rtraverse app] in *.
  - injection E as <-. by rewrite Hx.
  - destruct (f a) as [r|b]; [done|]. cbn [rbind] in *.
    destruct (rtraverse _ (S i) l) as [r|bs] eqn:El; [done|]. cbn [rbind] in E. injection E as <-.
    by rewrite (IH bs (S i) El Hx).
Qed.

Lemma rtraverse_length {A B} (f : nat -> A -> Res B) l : forall i ys,
  rtraverse f i l = inr ys -> length ys = length l.
Proof.
  induction l as [|a l IH]; intros i ys E; cbn [rtraverse] in E; res_inv E; [done|].
  simpl. f_equal. by eapply IH.
Qed.

Lemma foldEvents_snoc events event : forall s s',
  foldEvents s events = inr s' ->
  foldEvents s (events ++ [event]) = applyEvent s' event.
Proof.
  induction events as [|e events IH]; intros s s' E; cbn [foldEvents app] in *.
  - injection E as ->. by destruct (applyEvent s' event).
  - res_inv E. cbn [rbind]. by apply IH.
Qed.

(** ** Consistent databases *)

Record consistent (db : Database) (s : ProjectionState) : Prop := {
  cs_idle : db_isTransaction db = false;
  cs_safe : latestSequence db <= MAX_SAFE_INTEGER;
  cs_sound : sound (latestSequence db) s;
  cs_rows : represents (db_rows db) s;
  cs_journal : exists events,
    rtraverse (fun _ row => toStateEvent row) 0 (db_events db) = inr events /\
    foldEvents EMPTY_PROJECTION_STATE events = inr s
}.

Definition EMPTY_DATABASE : Database :=
  {| db_isTransaction := false; db_events := []; db_rows := ∅ |}.

Lemma consistent_empty : consistent EMPTY_DATABASE EMPTY_PROJECTION_STATE.
Proof.
  split; [done|done|apply sound_empty_state| |by exists []].
  split; intros key raw; simpl; rewrite lookup_empty; (split; [done|]); intros (k & r & E & _);
    by rewrite lookup_empty in E.
Qed.

(** Commands whose payload the journal keeps: its numbers read back, and an
    event that keeps a text keeps a canonical one. *)
Definition storable (command : StateCommand) : Prop :=
  forall c, canonicalize 0 (cmd_payload command) = Some c ->
    json_readable c = true /\ faithful_payload (cmd_type command) (cmd_payload command) c.

(** What [beginCommit] appends. *)
Lemma beginCommit_event ports db command event db1 :
  beginCommit ports db command = inr (event, db1) ->
  exists c row, canonicalize 0 (cmd_payload command) = Some c /\
    ev_type event = cmd_type command /\ ev_payload event = cmd_payload command /\
    ev_sequence event = latestSequence db + 1 /\ latestSequence db + 1 <= MAX_SAFE_INTEGER /\
    db1 = {| db_isTransaction := db_isTransaction db; db_events := db_events db ++ [row];
             db_rows := db_rows db |} /\
    er_sequence row = latestSequence db + 1 /\
    (json_readable c = true -> toStateEvent row = inr (with_payload event c)).
Proof.
  unfold beginCommit. intros E. res_inv E. unfold appendEvent in E. cbn [ae_payload ae_type ae_runId
    ae_correlationId ae_causationEventId ae_recordedAt] in E. res_inv E.
  destruct (stringifyCanonical (cmd_payload command)) as [text|] eqn:Et; [|done]. res_inv E.
  subst. unfold stringifyCanonical in Et.
  destruct (canonicalize 0 (cmd_payload command)) as [c|] eqn:Ec; [|done]. injection Et as <-.
  eexists c, _. do 4 (split; [reflexivity|]).
  match goal with H : (MAX_SAFE_INTEGER <? _) = false |- _ => apply Z.ltb_ge in H end.
  split; [assumption|]. do 2 (split; [reflexivity|]). intros Hr. unfold toStateEvent. simpl.
  by rewrite (parse_canonical (cmd_payload command) c Ec Hr).
Qed.

Lemma latest_snoc db row rows' :
  er_sequence row = latestSequence db + 1 ->
  latestSequence {| db_isTransaction := db_isTransaction db; db_events := db_events db ++ [row];
                    db_rows := rows' |} = latestSequence db + 1.
Proof.
  intros E. unfold latestSequence in *. simpl. rewrite map_app, fold_left_app. simpl. lia.
Qed.

(** ** Commits *)

Section Commits.
Context `{SchemaChecks}.

Lemma commit_inv ports db command options report db' :
  commitStateChangeInternal ports db command options = inr (report, db') ->
  exists event db1 sc b b' reported,
    beginCommit ports db command = inr (event, db1) /\ eventScope event = inr sc /\
    loadScopedProjectionState db1 sc = inr b /\ applyEvent b event = inr b' /\
    assertBijection (co_artifactRelativePaths options) (co_assertions options) = true /\
    assertGuardedWritesAreVerified (diffProjectionState b b') b'
      (co_artifactRelativePaths options) = true /\
    (forall a, a ∈ co_assertions options -> sa_holds a = true) /\
    writeRows db1 (diffProjectionState b b') = inr (reported, db').
Proof.
  unfold commitStateChangeInternal. intros E. res_inv E. subst.
  destruct p as [event db1], p3 as [reported db2]. simpl in *.
  eexists event, db1, _, _, _, reported. repeat match goal with H : negb _ = false |- _ =>
    apply negb_false_iff in H end.
  split; [reflexivity|]. do 5 (split; [eassumption|]). split; [|eassumption].
  intros a Ha. destruct (sa_holds a) eqn:Eh; [done|]. exfalso.
  assert (existsb (fun a => negb (sa_holds a)) (co_assertions options) = true) as Hx; [|congruence].
  apply existsb_exists. exists a. split; [by apply list_elem_of_In|by rewrite Eh].
Qed.

Lemma commit_consistent ports db command options s report db' :
  consistent db s -> storable command ->
  commitStateChangeInternal ports db command options = inr (report, db') ->
  exists s', consistent db' s'.
Proof.
  intros [Hidle Hsafe Hs Hrep (events & Hev & Hfold)] Hstore E.
  apply commit_inv in E as (event & db1 & sc & b & b' & reported & Hb & Hsc & Hload & Hap & _ & _ & _ & Hw).
  apply beginCommit_event in Hb as (c & row & Hc & Hty & Hpay & Hseq & Hmax & -> & Hrow & Hread).
  destruct (Hstore c Hc) as [Hr Hf]. specialize (Hread Hr).
  set (db1 := {| db_isTransaction := _; db_events := _; db_rows := _ |}) in *.
  destruct (load_scoped (latestSequence db) db1 s sc b Hrep Hs (eventScope_clean _ _ Hsc) Hload)
    as [Hscoped Hconf].
  pose proof (scope_in_step event sc s b Hsc Hscoped) as Hin. rewrite Hap in Hin.
  destruct (applyEvent s event) as [r|s'] eqn:Es; [done|].
  pose proof (event_steps _ _ _ _ Hs Es) as Hst.
  destruct (writeRows_represents (latestSequence db) (ev_sequence event) ltac:(lia) sc db1 s b s' b'
    Hrep Hs Hscoped Hconf Hin Hst) as [Ew|(rep & rows' & Ew & Hrep')]; rewrite Hw in Ew; [done|].
  injection Ew as -> ->. exists s'. pose proof (latest_snoc db row rows' Hrow) as Hlat.
  split; simpl in *; try done.
  - unfold with_rows. simpl. by rewrite Hlat.
  - unfold with_rows. simpl. rewrite Hlat, <-Hseq.
    apply (steps_sound (latestSequence db) _ s); [lia|done|done].
  - exists (events ++ [with_payload event c]). split; [by apply rtraverse_snoc|].
    rewrite (foldEvents_snoc _ _ _ _ Hfold), applyEvent_canon; [done|by rewrite Hpay|].
    by rewrite Hty, Hpay.
Qed.
End Commits.
