(* ===== verification/StoreProps.v ===== *)
(** * The store is its journal

    The claims about the durable projection: the scope of an event suffices,
    commits converge with replay, and what no commit can do. *)

From stdpp Require Import gmap.
From S2P Require Import Prelude Ids Json Recovery CanonicalJson StateJson StateJsonProps Projection ProjectionStore ProjectionFrame ProjectionSteps PayloadCanon StoreWrites StoreJournal.

Local Open Scope res_scope.
Local Open Scope Z_scope.

(** ** Scopes *)

(** The state whose tables hold only the rows of a scope. *)
Definition restrict_table {T} (keys : list string) (m : gmap string T) : gmap string T :=
  filter (fun e => e.1 ∈ keys) m.

Definition restrict (sc : ProjectionScope) (s : ProjectionState) : ProjectionState :=
  {| st_runs := restrict_table (sc_runs sc) (st_runs s);
     st_codebases := restrict_table (sc_codebases sc) (st_codebases s);
     st_repositories := restrict_table (sc_repositories sc) (st_repositories s);
     st_workspaces := restrict_table (sc_workspaces sc) (st_workspaces s);
     st_workspaceLeases := restrict_table (sc_workspaceLeases sc) (st_workspaceLeases s);
     st_artifacts := restrict_table (sc_artifacts sc) (st_artifacts s);
     st_stageArtifactAliases := restrict_table (alias_scope sc) (st_stageArtifactAliases s) |}.

Section Restrict.
Context {T : Type}.
Implicit Types (m : gmap string T) (keys : list string).

Lemma restrict_in keys m k : k ∈ keys -> restrict_table keys m !! k = m !! k.
Proof.
  intros Hk. unfold restrict_table. destruct (m !! k) as [r|] eqn:E.
  - by apply map_lookup_filter_Some.
  - apply map_lookup_filter_None. by left.
Qed.

Lemma restrict_out keys m k : k ∉ keys -> restrict_table keys m !! k = None.
Proof. intros Hk. apply map_lookup_filter_None. right. by intros. Qed.

Lemma restrict_moved keys m m' b' :
  moved keys m (restrict_table keys m) m' b' -> b' = restrict_table keys m' /\
  forall k, k ∉ keys -> m' !! k = m !! k.
Proof.
  intros [Ha Hf Hl]. split; [|done]. apply map_eq. intros k.
  destruct (decide (k ∈ keys)) as [Hk|Hk].
  - by rewrite restrict_in, (Ha k Hk).
  - by rewrite (Hl k Hk), !restrict_out.
Qed.
End Restrict.

Lemma restrict_scoped sc s : scoped sc s (restrict sc s).
Proof. split; intros k Hk; symmetry; by apply restrict_in. Qed.

Definition kept {T} (keys : list string) (m m' : gmap string T) : Prop :=
  forall k, k ∉ keys -> m' !! k = m !! k.

(** Every row outside the scope is the same. *)
Definition same_outside (sc : ProjectionScope) (s s' : ProjectionState) : Prop :=
  kept (sc_runs sc) (st_runs s) (st_runs s') /\
  kept (sc_codebases sc) (st_codebases s) (st_codebases s') /\
  kept (sc_repositories sc) (st_repositories s) (st_repositories s') /\
  kept (sc_workspaces sc) (st_workspaces s) (st_workspaces s') /\
  kept (sc_workspaceLeases sc) (st_workspaceLeases s) (st_workspaceLeases s') /\
  kept (sc_artifacts sc) (st_artifacts s) (st_artifacts s') /\
  kept (alias_scope sc) (st_stageArtifactAliases s) (st_stageArtifactAliases s').

(** A commit loads only the rows that [eventScope] names.  That is enough:
    folding the event over the projection restricted to its scope throws the
    same reason as over the whole projection, or gives the whole result's rows
    of the scope; and the whole fold changes nothing outside the scope. *)
Theorem scope_sufficient event sc s :
  eventScope event = inr sc ->
  match applyEvent s event, applyEvent (restrict sc s) event with
  | inl reason, inl reason' => reason = reason'
  | inr s', inr b' => b' = restrict sc s' /\ same_outside sc s s'
  | _, _ => False
  end.
Proof.
  intros Hsc. pose proof (scope_in_step event sc s _ Hsc (restrict_scoped sc s)) as H.
  destruct (applyEvent s event) as [r|s'], (applyEvent (restrict sc s) event) as [r'|b']; try done.
  destruct H. apply restrict_moved in ms_runs as [E1 ?], ms_codebases as [E2 ?],
    ms_repositories as [E3 ?], ms_workspaces as [E4 ?], ms_leases as [E5 ?],
    ms_artifacts as [E6 ?], ms_aliases as [E7 ?].
  split; [|by repeat split]. destruct b'. simpl in *. by subst.
Qed.

(** ** A small history *)

Definition text (s : string) : JsonValue := JScalar (SString s).

Definition created_command : StateCommand :=
  {| cmd_runId := Some "r1"; cmd_type := "run.created";
     cmd_payload := JObject [("runId", text "r1"); ("codebaseId", text "c1")];
     cmd_causationEventId := None |}.

Definition ports_at (eventId : string) : Ports :=
  {| po_correlationId := "corr"; po_eventId := eventId; po_recordedAt := "2026-01-01T00:00:00Z";
     po_committedAt := "2026-01-01T00:00:00Z" |}.

Definition created_event : StateEvent :=
  {| ev_sequence := 1; ev_eventId := "e1"; ev_runId := Some "r1"; ev_correlationId := "corr";
     ev_causationEventId := None; ev_type := "run.created";
     ev_recordedAt := "2026-01-01T00:00:00Z"; ev_payload := cmd_payload created_command |}.

Lemma scope_sufficient_witness :
  exists sc, eventScope created_event = inr sc /\
  match applyEvent EMPTY_PROJECTION_STATE created_event,
        applyEvent (restrict sc EMPTY_PROJECTION_STATE) created_event with
  | inl reason, inl reason' => reason = reason'
  | inr s', inr b' => b' = restrict sc s' /\ same_outside sc EMPTY_PROJECTION_STATE s'
  | _, _ => False
  end.
Proof.
  eexists. split; [vm_compute; reflexivity|]. apply scope_sufficient. vm_compute. reflexivity.
Defined.

(** ** Commits and replay *)

Record Attempt := {
  at_ports : Ports;
  at_command : StateCommand;
  at_options : CommitOptions
}.

Section Histories.
Context `{SchemaChecks}.

(** Commands one after another; a failed one is rolled back. *)
Definition commit_all (db : Database) (attempts : list Attempt) : Database :=
  fold_left (fun db a =>
      match commitStateChangeInternal (at_ports a) db (at_command a) (at_options a) with
      | inr (_, db') => db'
      | inl _ => db
      end) attempts db.

Lemma commit_all_consistent attempts : forall db s,
  consistent db s -> Forall (fun a => storable (at_command a)) attempts ->
  exists s', consistent (commit_all db attempts) s'.
Proof.
  induction attempts as [|a attempts IH]; intros db s Hdb Hall; [by exists s|].
  inversion Hall as [|? ? Ha Hrest]; subst. cbn [commit_all fold_left].
  destruct (commitStateChangeInternal _ _ _ _) as [reason|[report db']] eqn:E; [by eapply IH|].
  destruct (commit_consistent _ _ _ _ _ _ _ Hdb Ha E) as [s' Hs']. by eapply IH.
Qed.

End Histories.

Definition open_schema : SchemaChecks := fun _ _ _ => true.

Definition no_options : CommitOptions :=
  {| co_primaryTable := None; co_artifactRelativePaths := []; co_assertions := [] |}.

Definition started_command : StateCommand :=
  {| cmd_runId := Some "r1"; cmd_type := "run.status_changed";
     cmd_payload := JObject [("status", text "running"); ("runId", text "r1")];
     cmd_causationEventId := Some "e1" |}.

Definition small_history : list Attempt :=
  [ {| at_ports := ports_at "e1"; at_command := created_command; at_options := no_options |};
    {| at_ports := ports_at "e2"; at_command := started_command; at_options := no_options |};
    {| at_ports := ports_at "e3"; at_command := created_command; at_options := no_options |} ].

(** Decides [storable] for a command whose event keeps no text. *)
Lemma storable_plain command c kind :
  canonicalize 0 (cmd_payload command) = Some c -> json_readable c = true ->
  distinct_keys (cmd_payload command) = true -> kindOf (cmd_type command) = Some kind ->
  keeps_text kind = false -> storable command.
Proof.
  intros Hc Hr Hd Hk Ht c' Hc'. assert (c' = c) as -> by congruence. split; [done|].
  split; [done|]. intros kind' Hk' Ht'. congruence.
Qed.

(** ** What a commit does *)

(** The refusals a commit may add to those of the reducer. *)
Definition COMMIT_REFUSALS : list string :=
  [ "writing this table requires a verified publication assertion"; "constraint failed";
    "stage assertion failed" ].

Section Refines.
Context `{SchemaChecks}.

(** An event the reducer accepts has a scope. *)
Lemma applied_scope event s s' : applyEvent s event = inr s' -> exists sc, eventScope event = inr sc.
Proof.
  unfold applyEvent, eventScope. intros E.
  destruct (payloadObject event) as [r|payload]; [done|]. cbn [rbind] in *.
  destruct (kindOf (ev_type event)) as [kind|]; [|done].
  destruct kind; cbn [run_scoped stage_scoped andb] in E; res_inv E;
    unfold applyRunCreated, applyRunStatusChanged, applyRunTouched, applyRunWorkspaceAssigned,
      applyInstructionsSnapshotted, applyCapability, applyCodebaseRegistered, applyRepositoryRegistered,
      applyRegistrationCommitted, applyWorkspaceRegistered, applyProvisioningRecorded, applyLease,
      applyArtifactPublished, applyStageCompleted in E; res_inv E;
    repeat match goal with H : ?m = inr _ |- context [rbind ?m _] => rewrite H; cbn [rbind] end; by eexists.
Qed.

(** C6: On a consistent store (no transaction is open, event numbers are within the
    safe integers, the tables hold the fold [s] of the journal, and [s] is sound, as
    commits of storable commands leave it), with artifact lengths within the safe integers, a commit whose staged artifacts and assertions
    correspond, are not too many, and whose event was appended does what
    [applyEvent] does to [s].  When the reducer throws, so does the commit, with the
    reducer's reason or, for an event without a scope, the reason it has none; when
    the reducer gives a new projection, the commit leaves the tables holding it under
    a journal with one more event, or is refused by the publication guards, an
    assertion or the schema's constraints: its guards on revisions and its row loads
    never fire. *)
Theorem commit_refines ports db command options s event db1 :
  consistent db s -> safe_lengths s ->
  assertBijection (co_artifactRelativePaths options) (co_assertions options) = true ->
  (length (co_artifactRelativePaths options) <= MAX_ARTIFACTS_PER_COMMAND)%nat ->
  beginCommit ports db command = inr (event, db1) ->
  match applyEvent s event with
  | inl reason => commitStateChangeInternal ports db command options =
      inl match eventScope event with inl unscoped => unscoped | inr _ => reason end
  | inr s' =>
      (exists reason, commitStateChangeInternal ports db command options = inl reason /\
         reason ∈ COMMIT_REFUSALS) \/
      (exists report db', commitStateChangeInternal ports db command options = inr (report, db') /\
         db_events db' = db_events db1 /\ represents (db_rows db') s')
  end.
Proof.
  intros [Hidle Hsafe Hs Hrep _] Hlen Hbij Hmax Hb.
  unfold commitStateChangeInternal. rewrite Hidle, Hbij, Hb. cbn [negb rbind fst snd]. cbv zeta.
  rewrite (proj2 (Nat.ltb_ge _ _) Hmax).
  destruct (eventScope event) as [unscoped|sc] eqn:Hsc; cbn [rbind].
  { destruct (applyEvent s event) as [r|s'] eqn:Es; [done|].
    destruct (applied_scope _ _ _ Es) as [sc Hsc']. congruence. }
  apply beginCommit_event in Hb as (c & row & _ & _ & _ & Hseq & _ & -> & _ & _).
  set (db1 := {| db_isTransaction := _; db_events := _; db_rows := _ |}).
  destruct (loadScoped_total _ db1 s Hsafe Hs Hrep Hlen sc) as [b Hload]. rewrite Hload. cbn [rbind].
  destruct (load_scoped _ db1 s sc b Hrep Hs (eventScope_clean _ _ Hsc) Hload) as [Hscoped Hconf].
  pose proof (scope_in_step event sc s b Hsc Hscoped) as Hin.
  destruct (applyEvent s event) as [r|s'] eqn:Es, (applyEvent b event) as [r'|b']; try done.
  { cbn. by rewrite Hin. }
  cbn [rbind]. pose proof (event_steps _ _ _ _ Hs Es) as Hst.
  destruct (assertGuardedWritesAreVerified _ _ _);
    [|left; eexists; split; [done|]; by left]. cbn [negb].
  destruct (writeRows_represents (latestSequence db) (ev_sequence event) ltac:(lia) sc db1 s b s' b'
    Hrep Hs Hscoped Hconf Hin Hst) as [->|(rep & rows' & -> & Hrep')]; cbn [rbind fst snd].
  { left. eexists. split; [done|]. right. by left. }
  destruct (existsb _ _); [left; eexists; split; [done|]; do 2 right; by left|].
  right. by eexists _, _.
Qed.
End Refines.

Lemma commit_refines_witness :
  match applyEvent EMPTY_PROJECTION_STATE created_event with
  | inl reason =>
      @commitStateChangeInternal open_schema (ports_at "e1") EMPTY_DATABASE created_command no_options
        = inl match eventScope created_event with inl unscoped => unscoped | inr _ => reason end
  | inr s' =>
      (exists reason,
         @commitStateChangeInternal open_schema (ports_at "e1") EMPTY_DATABASE created_command no_options
           = inl reason /\ reason ∈ COMMIT_REFUSALS) \/
      (exists report db',
         @commitStateChangeInternal open_schema (ports_at "e1") EMPTY_DATABASE created_command no_options
           = inr (report, db') /\
         length (db_events db') = 1%nat /\ represents (db_rows db') s')
  end.
Proof.
  pose proof (@commit_refines open_schema (ports_at "e1") EMPTY_DATABASE created_command no_options
    EMPTY_PROJECTION_STATE created_event) as H.
  eassert (beginCommit (ports_at "e1") EMPTY_DATABASE created_command = inr (created_event, _)) as Hb
    by (vm_compute; reflexivity).
  assert (safe_lengths EMPTY_PROJECTION_STATE) as Hl.
  { intros k r E. simpl in E. by rewrite lookup_empty in E. }
  specialize (H _ consistent_empty Hl eq_refl ltac:(simpl; lia) Hb).
  destruct (applyEvent EMPTY_PROJECTION_STATE created_event); [exact H|].
  destruct H as [H|(report & db' & E & Ee & Hr)]; [by left|]. right. exists report, db'.
  split; [done|]. split; [by rewrite Ee|done].
Defined.

Local Open Scope res_scope.
Local Open Scope Z_scope.

(** ** What no commit can do

    The publication guards of [command/commit.ts], the fences of leases, and
    the rows of every reachable projection. *)

(** ** One assertion per path *)

Definition occurrences (p : string) (l : list string) : Z :=
  Z.of_nat (length (filter (fun x => x = p) l)).

Lemma occurrences_cons p q l : occurrences p (q :: l) = (if decide (q = p) then 1 else 0) + occurrences p l.
Proof. unfold occurrences. rewrite filter_cons. destruct (decide (q = p)); simpl; lia. Qed.

Lemma occurrences_perm p l l' : l ≡ₚ l' -> occurrences p l = occurrences p l'.
Proof. intros Hp. unfold occurrences. by rewrite Hp. Qed.

Lemma occurrences_in p l : occurrences p l <> 0 -> p ∈ l.
Proof.
  unfold occurrences. intros H. destruct (filter (fun x => x = p) l) as [|x l'] eqn:E; [done|].
  assert (x ∈ filter (fun x => x = p) l) as Hx by (rewrite E; by left).
  by apply list_elem_of_filter in Hx as [-> Hx].
Qed.

Lemma count_path_set m p q z :
  count_path (map_set m p z) q = if decide (p = q) then z else count_path m q.
Proof.
  unfold count_path. destruct (decide (p = q)) as [->|Hne]; [by rewrite map_get_set_eq|].
  by rewrite map_get_set_ne by congruence.
Qed.

Lemma count_paths l : forall m p,
  count_path (fold_left (fun m p => map_set m p (count_path m p + 1)) l m) p =
  count_path m p + occurrences p l.
Proof.
  induction l as [|q l IH]; intros m p; cbn [fold_left].
  - unfold occurrences. simpl. lia.
  - rewrite IH, count_path_set, occurrences_cons. destruct (decide (q = p)) as [->|]; lia.
Qed.

Lemma matchAssertions_sub assertions : forall remaining l,
  (forall p, count_path remaining p = occurrences p l) ->
  matchAssertions remaining assertions = true -> map sa_relativePath assertions ⊆+ l.
Proof.
  induction assertions as [|a rest IH]; intros remaining l Hl E; cbn [map].
  { apply submseteq_nil_l. }
  cbn [matchAssertions] in E. destruct (_ =? 0) eqn:Ez; [done|]. apply Z.eqb_neq in Ez.
  rewrite Hl in Ez. apply occurrences_in, elem_of_Permutation in Ez as [l' Hp].
  rewrite Hp. apply submseteq_skip. apply (IH _ l') in E; [done|]. intros p.
  rewrite count_path_set, !Hl, !(occurrences_perm _ _ _ Hp), !occurrences_cons.
  destruct (decide (sa_relativePath a = p)) as [->|]; [|lia]. rewrite decide_True by done. lia.
Qed.

Lemma bijection_paths paths assertions :
  assertBijection paths assertions = true -> map sa_relativePath assertions ≡ₚ paths.
Proof.
  unfold assertBijection. intros [Hl%Nat.eqb_eq H]%andb_prop.
  apply submseteq_length_Permutation; [|by rewrite length_map, Hl].
  eapply matchAssertions_sub; [|exact H]. intros p. by rewrite count_paths.
Qed.

(** ** Guarded rows *)

Lemma boundValues_columns row cols values c :
  boundValues row cols = Some values -> c ∈ cols ->
  (list_to_map (zip cols values) : Columns) !! c = map_get row c.
Proof.
  unfold boundValues. intros H%traverse_Forall2 Hc. rewrite lookup_columns.
  induction H as [|d v cols values E _ IH]; [by apply elem_of_nil in Hc|]. cbn [zip map_get].
  destruct (str_eqb c d) eqn:Ed; [apply str_eqb_true in Ed as ->; by rewrite E|].
  apply IH. apply elem_of_cons in Hc as [->|Hc]; [|done]. by rewrite str_eqb_refl in Ed.
Qed.

Section Guards.
Context `{SchemaChecks}.

(** A write changes one row, of its own table. *)
Lemma writeRow_frame db w db' x :
  writeRow db w = inr db' -> target w <> Some x -> db_rows db' !! x = db_rows db !! x.
Proof.
  unfold writeRow, insertRow, updateRow, target. intros E Hx.
  destruct (pw_previousRevision w); destruct (boundValues _ _); try done;
    destruct (primary_key (pw_table w) (pw_row w)) as [key|]; try done; cbv zeta in E;
    [destruct (db_rows db !! _); [|done]|]; res_inv E; simpl; apply lookup_insert_ne; by intros <-.
Qed.

(** A written artifact is a new row with the path of the write. *)
Lemma writeRow_artifact db w db' x :
  writeRow db w = inr db' -> pw_table w = t_artifact -> target w = Some x ->
  exists row, db_rows db' !! x = Some row /\ row !! "relative_path" = map_get (pw_row w) "relative_path".
Proof.
  unfold writeRow, insertRow, updateRow, target. intros E Ht Hx. rewrite Ht in *.
  destruct (pw_previousRevision w).
  - destruct (boundValues _ _); [|done]. destruct (primary_key _ _); [|done].
    destruct (db_rows db !! _); [|done]. by res_inv E.
  - destruct (boundValues _ _) as [values|] eqn:Eb; [|done].
    destruct (primary_key _ _) as [key|]; [|done]. res_inv E. simpl in Hx. injection Hx as <-.
    eexists. split; [apply lookup_insert_eq|]. apply (boundValues_columns _ _ _ _ Eb).
    apply list_elem_of_In. simpl. tauto.
Qed.

(** The row of an artifact is unchanged or has an asserted path. *)
Definition artifact_guarded (asserted : list string) (rows rows' : Rows) (key : list SqlValue) : Prop :=
  rows' !! (t_artifact, key) = rows !! (t_artifact, key) \/
  exists row path, rows' !! (t_artifact, key) = Some row /\
    row !! "relative_path" = Some (sql_text path) /\ path ∈ asserted.

Lemma writeVerified_asserted after asserted w :
  writeVerified after asserted w = true -> ARTIFACT_GUARDED_TABLES (pw_table w) = true ->
  asserted <> [] /\
  (pw_table w = t_artifact ->
   exists path, map_get (pw_row w) "relative_path" = Some (sql_text path) /\ path ∈ asserted).
Proof.
  unfold writeVerified. intros E Hg. destruct (pw_table w); try done.
  - destruct (map_get _ _) as [[| |path]|]; try done. apply set_has_true in E.
    split; [by intros ->; apply elem_of_nil in E|]. intros _. by exists path.
  - destruct (map_get _ _) as [[| |id]|]; try done. destruct (_ !! id); [|done].
    apply set_has_true in E. split; [by intros ->; apply elem_of_nil in E|done].
Qed.

Lemma writeRows_guarded after asserted : forall writes db reported db',
  writeRows db writes = inr (reported, db') ->
  assertGuardedWritesAreVerified writes after asserted = true ->
  (forall key, artifact_guarded asserted (db_rows db) (db_rows db') key) /\
  (forall key, asserted = [] ->
     db_rows db' !! (t_stage_artifact_alias, key) = db_rows db !! (t_stage_artifact_alias, key)).
Proof.
  induction writes as [|w writes IH]; intros db reported db' E Hv; cbn [writeRows] in E; res_inv E.
  { subst. split; [by left|done]. }
  subst. cbn [assertGuardedWritesAreVerified forallb] in Hv. apply andb_prop in Hv as [Hw Hv].
  destruct p as [reported' db2]. simpl. destruct (IH _ _ _ E2 Hv) as [IHa IHb]. split; intros key.
  - unfold artifact_guarded. destruct (IHa key) as [->|Hnew]; [|by right].
    destruct (decide (target w = Some (t_artifact, key))) as [Ht|Ht].
    + right. assert (pw_table w = t_artifact) as Htab.
      { unfold target in Ht. destruct (primary_key _ _); simpl in Ht; congruence. }
      destruct (writeRow_artifact _ _ _ _ E1 Htab Ht) as (row & Er & Ep).
      destruct (writeVerified_asserted _ _ _ Hw) as [_ Hp]; [by rewrite Htab|].
      destruct (Hp Htab) as (path & Epath & Hin). exists row, path. by rewrite Ep.
    + left. by eapply writeRow_frame.
  - intros Hnil. rewrite (IHb key Hnil). eapply writeRow_frame; [done|]. intros Ht.
    assert (pw_table w = t_stage_artifact_alias) as Htab.
    { unfold target in Ht. destruct (primary_key _ _); simpl in Ht; congruence. }
    destruct (writeVerified_asserted _ _ _ Hw) as [Hne _]; [by rewrite Htab|done].
Qed.

(** Artifact rows only come from verified publications: after a successful
    commit every assertion held, there is one per artifact path of the payload,
    and each artifact row is as it was or has one of those paths; without
    assertions, as in [commitStateChange], no artifact and no alias row
    changes. *)
Theorem guarded_rows_asserted ports db command options report db' :
  commitStateChangeInternal ports db command options = inr (report, db') ->
  map sa_relativePath (co_assertions options) ≡ₚ co_artifactRelativePaths options /\
  (forall a, a ∈ co_assertions options -> sa_holds a = true) /\
  (forall key, artifact_guarded (co_artifactRelativePaths options) (db_rows db) (db_rows db') key) /\
  (forall key, co_assertions options = [] ->
     db_rows db' !! (t_stage_artifact_alias, key) = db_rows db !! (t_stage_artifact_alias, key)).
Proof.
  intros (event & db1 & sc & b & b' & reported & Hb & _ & _ & _ & Hbij & Hg & Hall & Hw)%commit_inv.
  apply bijection_paths in Hbij. split; [done|]. split; [done|].
  destruct (writeRows_guarded b' _ _ _ _ _ Hw Hg) as [Ha Hal].
  apply beginCommit_event in Hb as (c & row & _ & _ & _ & _ & _ & -> & _ & _).
  split; [exact Ha|]. intros key Hnil. apply Hal. rewrite Hnil in Hbij.
  by apply Permutation_nil_l in Hbij.
Qed.
End Guards.

Definition published_command : StateCommand :=
  {| cmd_runId := Some "r1"; cmd_type := "artifact.published";
     cmd_payload := JObject
       [ ("runId", text "r1"); ("stageId", text "build"); ("artifactId", text "a1");
         ("name", text "log");
         ("contentHash", text "0123456789abcdef0123456789abcdef0123456789abcdef0123456789abcdef");
         ("byteLength", JScalar (SNumber (num_of_Z 12))); ("mediaType", text "text/plain");
         ("contentSchemaId", text "log.v1"); ("producer", text "runner");
         ("sourceLineage", JArray []); ("path", text "runs/r1/log") ];
     cmd_causationEventId := Some "e1" |}.

Definition publication : CommitOptions :=
  {| co_primaryTable := Some t_artifact; co_artifactRelativePaths := ["runs/r1/log"];
     co_assertions := [ {| sa_relativePath := "runs/r1/log"; sa_holds := true |} ] |}.

Definition created_db : Database := @commit_all open_schema EMPTY_DATABASE small_history.

(** Evaluates a commit without normalising the database it leaves. *)
Lemma commits_to (result : Res (CommitReport * Database)) (p : Database -> bool) :
  match result with inr (_, db') => p db' | inl _ => false end = true ->
  exists report db', result = inr (report, db') /\ p db' = true.
Proof. destruct result as [|[report db']]; [done|]. by exists report, db'. Qed.

Lemma guarded_rows_asserted_witness :
  exists report db',
    @commitStateChangeInternal open_schema (ports_at "e4") created_db published_command publication
      = inr (report, db') /\
    bool_decide (is_Some (db_rows db' !! (t_artifact, [sql_text "a1"]))) = true /\
    artifact_guarded ["runs/r1/log"] (db_rows created_db) (db_rows db') [sql_text "a1"].
Proof.
  destruct (commits_to
    (@commitStateChangeInternal open_schema (ports_at "e4") created_db published_command publication)
    (fun db' => bool_decide (is_Some (db_rows db' !! (t_artifact, [sql_text "a1"])))))
    as (report & db' & E & Hrow); [vm_compute; reflexivity|].
  exists report, db'. split; [exact E|]. split; [exact Hrow|].
  apply (@guarded_rows_asserted open_schema _ _ _ _ _ _ E).
Defined.

(** ** Leases *)

(** A later lease on a path is the same one, or a new one with the next
    fence. *)
Definition lease_follows (r r' : WorkspaceLeaseState) : Prop :=
  wl_checkoutPath r' = wl_checkoutPath r /\
  (wl_fencingRevision r' = wl_fencingRevision r /\ wl_leaseId r' = wl_leaseId r \/
   wl_fencingRevision r' = wl_fencingRevision r + 1 /\ wl_leaseId r' <> wl_leaseId r).

Lemma leaseRefused_follows kind p fence leaseId leaseState workspaceId repositoryId :
  leaseRefused kind (Some p) fence leaseId leaseState workspaceId repositoryId = None ->
  fence = wl_fencingRevision p /\ leaseId = wl_leaseId p \/
  fence = wl_fencingRevision p + 1 /\ leaseId <> wl_leaseId p.
Proof.
  unfold leaseRefused. intros E. destruct kind; cbn in E; try done;
    destruct (_ =? _) eqn:Ef in E; try done; apply Z.eqb_eq in Ef; cbn in E;
    destruct (str_eqb leaseId _) eqn:El in E; try done;
    first [apply str_eqb_true in El|apply str_eqb_false in El]; auto.
Qed.

Lemma applyLease_follows event payload s s' kind n k r :
  sound n s -> applyLease event payload s kind = inr s' -> st_workspaceLeases s !! k = Some r ->
  st_workspaceLeases s' !! k = Some r \/
  exists r', st_workspaceLeases s' !! k = Some r' /\ lease_follows r r'.
Proof.
  unfold applyLease. intros Hs E Er. res_inv E.
  destruct (leaseRefused _ _ _ _ _ _ _) eqn:El; [done|]. res_inv E. simpl.
  match goal with |- context [<[?path := _]> _] =>
    destruct (decide (k = path)) as [->|Hne]; [|rewrite lookup_insert_ne by done; by left] end.
  right. eexists. split; [apply lookup_insert_eq|]. rewrite Er in El.
  destruct (so_leases _ _ Hs _ _ Er) as (Hk & _). split; [done|]. simpl.
  by apply leaseRefused_follows in El.
Qed.

(** The events that are not about leases leave them alone. *)
Lemma other_leases event s s' :
  applyEvent s event = inr s' ->
  (forall kind, kindOf (ev_type event) <> Some (ek_workspace_lease kind)) ->
  st_workspaceLeases s' = st_workspaceLeases s.
Proof.
  unfold applyEvent. intros H Hk. res_inv H. destruct (kindOf _) as [kind|]; [|done]. res_inv H.
  destruct kind; try (by destruct (Hk lease)).
  - unfold applyRunCreated in H. by res_inv H.
  - unfold applyRunStatusChanged in H. by res_inv H.
  - unfold applyRunTouched in H. by res_inv H.
  - unfold applyRunWorkspaceAssigned in H. by res_inv H.
  - unfold applyInstructionsSnapshotted in H. by res_inv H.
  - unfold applyCapability in H. res_inv H. destruct (rs_capabilityLandingJson _).
    + destruct (str_eqb _ _); [|done]. by injection H as <-.
    + by injection H as <-.
  - unfold applyCodebaseRegistered in H. by res_inv H.
  - unfold applyRepositoryRegistered in H. by res_inv H.
  - unfold applyRegistrationCommitted in H. res_inv H. destruct (st_codebases s !! _).
    + clear -H. destruct (bool_decide _); [|done]. by injection H as <-.
    + destruct (List.find _ _); [done|]. by injection H as <-.
  - unfold applyWorkspaceRegistered in H. by res_inv H.
  - unfold applyProvisioningRecorded in H. by res_inv H.
  - unfold applyArtifactPublished in H. by res_inv H.
  - unfold applyStageCompleted in H. res_inv H. destruct (map_get _ "terminalRunStatus"); by res_inv H.
Qed.

Lemma event_leases event n s s' k r :
  sound n s -> applyEvent s event = inr s' -> st_workspaceLeases s !! k = Some r ->
  st_workspaceLeases s' !! k = Some r \/
  exists r', st_workspaceLeases s' !! k = Some r' /\ lease_follows r r'.
Proof.
  intros Hs H Er. destruct (kindOf (ev_type event)) as [[]|] eqn:Ek;
    try (left; by rewrite (other_leases event s s' H) by (rewrite Ek; congruence)).
  unfold applyEvent in H. res_inv H. rewrite Ek in H. cbn in H. by eapply applyLease_follows.
Qed.

(** ** Histories *)

(** Events in the order of their sequences, all after [n]. *)
Fixpoint in_sequence (n : Z) (events : list StateEvent) : Prop :=
  match events with
  | [] => True
  | e :: rest => n < ev_sequence e /\ in_sequence (ev_sequence e) rest
  end.

Definition last_sequence (n : Z) (events : list StateEvent) : Z :=
  fold_left (fun _ e => ev_sequence e) events n.

Lemma fold_sound events : forall n s s',
  sound n s -> in_sequence n events -> foldEvents s events = inr s' ->
  sound (last_sequence n events) s'.
Proof.
  induction events as [|e rest IH]; intros n s s' Hs Hin H; cbn [foldEvents] in H.
  { by injection H as <-. }
  destruct Hin as [Hlt Hin]. res_inv H. cbn [last_sequence fold_left]. apply (IH _ p); [|done..].
  by eapply steps_sound, event_steps.
Qed.

(** The invariant of the projection.  In the fold of a journal every row of
    every table is filed under its own key, has a revision of at least 1 and
    at most the sequence of the event it cites, and cites an event of the
    journal; run statuses are known, a lease's fence is at least 1 and at most
    its revision, an artifact is at its first revision, and the ids in alias
    keys have no NUL. *)
Theorem projection_sound events s :
  in_sequence 0 events -> foldEvents EMPTY_PROJECTION_STATE events = inr s ->
  sound (last_sequence 0 events) s.
Proof. intros Hin H. by apply (fold_sound events 0 EMPTY_PROJECTION_STATE); [apply sound_empty_state|..]. Qed.

Lemma projection_sound_witness :
  exists s, foldEvents EMPTY_PROJECTION_STATE [created_event] = inr s /\ sound 1 s /\
    rs_status <$> st_runs s !! "r1" = Some "queued".
Proof.
  eexists. split; [vm_compute; reflexivity|]. split; [|vm_compute; reflexivity].
  apply (projection_sound [created_event]); [simpl; lia|vm_compute; reflexivity].
Defined.

(** Fences between two projections: the same fence is the same lease. *)
Definition fenced (r r' : WorkspaceLeaseState) : Prop :=
  wl_fencingRevision r < wl_fencingRevision r' \/
  wl_fencingRevision r' = wl_fencingRevision r /\ wl_leaseId r' = wl_leaseId r.

Lemma fenced_trans r1 r2 r3 : fenced r1 r2 -> fenced r2 r3 -> fenced r1 r3.
Proof. unfold fenced. intros [?|[??]] [?|[??]]; [left; lia|left; lia|left; lia|right; split; congruence]. Qed.

(** History is never rewritten.  Folding more events keeps every artifact
    row as it is, and every lease row: the lease on a checkout either is still
    the same lease with the same fence, or has been replaced under a higher
    fence. *)
Theorem history_monotone events n s s' :
  sound n s -> in_sequence n events -> foldEvents s events = inr s' ->
  st_artifacts s ⊆ st_artifacts s' /\
  forall k r, st_workspaceLeases s !! k = Some r ->
    exists r', st_workspaceLeases s' !! k = Some r' /\ fenced r r'.
Proof.
  revert n s. induction events as [|e rest IH]; intros n s Hs Hin H; cbn [foldEvents] in H.
  { injection H as <-. split; [done|]. intros k r Er. exists r. split; [done|]. by right. }
  destruct Hin as [Hlt Hin]. res_inv H. pose proof (event_steps _ _ _ _ Hs E) as Hst.
  destruct (IH (ev_sequence e) p) as [Ha Hl]; [by eapply steps_sound|done..|].
  split; [etrans; [apply (sp_immutable _ _ _ Hst)|done]|]. intros k r Er.
  assert (exists r1, st_workspaceLeases p !! k = Some r1 /\ fenced r r1) as (r1 & E1 & H1).
  { destruct (event_leases e n s p k r Hs E Er) as [E1|(r1 & E1 & _ & H1)].
    - exists r. split; [done|]. by right.
    - exists r1. split; [done|]. destruct H1 as [[Ef Ei]|[Ef _]]; [by right|left; lia]. }
  destruct (Hl k r1 E1) as (r2 & E2 & H2). exists r2. split; [done|]. by eapply fenced_trans.
Qed.

Definition plain_event (sequence : Z) (type : string) (payload : Fields) : StateEvent :=
  {| ev_sequence := sequence; ev_eventId := "e" +:+ pretty sequence; ev_runId := None;
     ev_correlationId := "corr"; ev_causationEventId := None; ev_type := type;
     ev_recordedAt := "2026-01-01T00:00:00Z"; ev_payload := JObject payload |}.

Definition lease_payload (leaseId : string) (fence : Z) : Fields :=
  [ ("checkoutPath", text "/w"); ("workspaceId", text "w1"); ("repositoryId", text "p1");
    ("fencingRevision", JScalar (SNumber (num_of_Z fence))); ("leaseId", text leaseId);
    ("leaseState", text "active"); ("ownerId", text "o"); ("processWitnessesJson", text "[]");
    ("expectedSha", text "abc"); ("acquiredAt", text "t0"); ("renewedAt", text "t0");
    ("expiresAt", text "t1") ].

Definition leased : list StateEvent :=
  [ plain_event 1 "codebase.registered" [("codebaseId", text "c1")];
    plain_event 2 "repository.registered" [("repositoryId", text "p1"); ("codebaseId", text "c1")];
    plain_event 3 "workspace.registered" [("workspaceId", text "w1"); ("codebaseId", text "c1")];
    plain_event 4 "workspace.lease_acquired" (lease_payload "l1" 1) ].

Definition taken_over : list StateEvent :=
  [ plain_event 7 "workspace.lease_recovered" (lease_payload "l2" 2) ].

Definition folded (events : list StateEvent) (s : ProjectionState) : ProjectionState :=
  match foldEvents s events with inr s' => s' | inl _ => EMPTY_PROJECTION_STATE end.

Lemma history_monotone_witness :
  let s := folded leased EMPTY_PROJECTION_STATE in
  let s' := folded taken_over s in
  wl_fencingRevision <$> st_workspaceLeases s !! "/w" = Some 1 /\
  wl_fencingRevision <$> st_workspaceLeases s' !! "/w" = Some 2 /\
  st_artifacts s ⊆ st_artifacts s' /\
  forall k r, st_workspaceLeases s !! k = Some r ->
    exists r', st_workspaceLeases s' !! k = Some r' /\ fenced r r'.
Proof.
  cbv zeta. split; [vm_compute; reflexivity|]. split; [vm_compute; reflexivity|].
  apply (history_monotone taken_over 4).
  - apply (fold_sound leased 0 EMPTY_PROJECTION_STATE); [apply sound_empty_state|simpl; lia|].
    vm_compute. reflexivity.
  - simpl. lia.
  - vm_compute. reflexivity.
Defined.

(** ** Texts in the projection *)

(** A registration as the daemon writes it: its keys are not sorted. *)
Definition registration_command : StateCommand :=
  {| cmd_runId := None; cmd_type := "codebase.registration_committed";
     cmd_payload := JObject
       [ ("registration", JObject
           [ ("name", text "n"); ("codebaseId", text "c1"); ("rootPath", text "/r");
             ("topologySha256", text "t"); ("configurationSha256", text "k");
             ("repositories", JArray []); ("instructionSnapshot", JObject []) ]) ];
     cmd_causationEventId := None |}.

(** The text of a codebase's registration in the tables and in the replayed
    journal. *)
Definition registration_texts (result : Res (CommitReport * Database))
    : option (option string * option string) :=
  match result with
  | inr (_, db') =>
      match loadStoredProjectionState db', replayJournal db' with
      | inr stored, inr (replayed, _, _) =>
          Some (st_codebases stored !! "c1" ≫= cb_registrationJson,
                st_codebases replayed !! "c1" ≫= cb_registrationJson)
      | _, _ => None
      end
  | inl _ => None
  end.

(** The condition on texts is needed.  A commit folds the payload it was
    given and the journal keeps the canonical one, so a registration whose keys
    are not sorted is stored with one [registration_json] and replays to
    another. *)
Theorem registration_text_diverges :
  exists stored replayed,
    registration_texts
      (@commitStateChange open_schema (ports_at "e1") EMPTY_DATABASE registration_command)
      = Some (Some stored, Some replayed) /\ stored <> replayed.
Proof. eexists _, _. split; [vm_compute; reflexivity|done]. Qed.

(** ** Migrated interactions *)

(** The event that migration 9 inserts for a legacy interaction. *)
Definition migratedInteraction (sequence : Z) (runId interactionId stageId legacyState recordedAt : string)
    (sourcePayload : JsonValue) : StateEvent :=
  {| ev_sequence := sequence;
     ev_eventId := "m9c:" +:+ pretty (String.length runId) +:+ ":" +:+ runId +:+ ":" +:+ interactionId;
     ev_runId := Some runId;
     ev_correlationId := "m9:" +:+ pretty (String.length runId) +:+ ":" +:+ runId +:+ ":" +:+ interactionId;
     ev_causationEventId := None; ev_type := "interaction.created"; ev_recordedAt := recordedAt;
     ev_payload := JObject
       [ ("interactionId", text interactionId); ("stageId", text stageId);
         ("purpose", text "question"); ("sourcePayload", sourcePayload);
         ("legacyState", text legacyState); ("migrationVersion", JScalar (SNumber (num_of_Z 9))) ] |}.

(** The reducer reads the run of an [interaction.created] event from the field
    [runId] of its payload, which migration 9 does not write: a journal with a
    migrated interaction does not replay. *)
Theorem migrated_interaction_unreplayable sequence runId interactionId stageId legacyState recordedAt
    sourcePayload events s :
  migratedInteraction sequence runId interactionId stageId legacyState recordedAt sourcePayload
    ∈ events ->
  exists reason, foldEvents s events = inl reason.
Proof.
  intros Hin. revert s. induction events as [|e events IH]; intros s; [by apply elem_of_nil in Hin|].
  cbn [foldEvents]. apply elem_of_cons in Hin as [<-|Hin].
  - exists "payload.runId must be a non-empty string". reflexivity.
  - destruct (applyEvent s e) as [reason|s']; [by exists reason|]. by apply IH.
Qed.

Lemma migrated_interaction_unreplayable_witness :
  exists reason, foldEvents EMPTY_PROJECTION_STATE
    [ created_event;
      migratedInteraction 2 "r1" "i1" "build" "pending" "2026-01-01T00:00:00Z" (JObject []) ]
    = inl reason.
Proof.
  apply (migrated_interaction_unreplayable 2 "r1" "i1" "build" "pending" "2026-01-01T00:00:00Z"
    (JObject [])).
  right. by left.
Defined.
