(* ===== verification/ReplayCompare.v ===== *)
(** * Comparing the store with its replay

    [packages/state/src/replay/compare.ts] and the digest of
    [projection/state.ts]: the check that the tables and the journal agree. *)

From stdpp Require Import gmap.
From S2P Require Import Prelude Ids Json Recovery CanonicalJson JsonProps StateJson Projection ProjectionStore.
Local Open Scope res_scope.

(** ** Rows as JSON *)

Definition json_text (s : string) : JsonValue := JScalar (SString s).
Definition json_integer (z : Z) : JsonValue := JScalar (SNumber (num_of_Z z)).
Definition json_null : JsonValue := JScalar SNull.
Definition json_nullable (o : option string) : JsonValue :=
  match o with Some s => json_text s | None => json_null end.

Definition runJson (row : RunState) : Fields :=
  [ ("runId", json_text (rs_runId row)); ("status", json_text (rs_status row));
    ("revision", json_integer (rs_revision row));
    ("lastEventSequence", json_integer (rs_lastEventSequence row));
    ("workspaceId", json_nullable (rs_workspaceId row));
    ("codebaseId", json_text (rs_codebaseId row)); ("updatedAt", json_text (rs_updatedAt row));
    ("instructionSnapshotSha256", json_nullable (rs_instructionSnapshotSha256 row));
    ("instructionSnapshotJson", json_nullable (rs_instructionSnapshotJson row));
    ("capabilityLandingJson", json_nullable (rs_capabilityLandingJson row)) ].

Definition codebaseJson (row : CodebaseState) : Fields :=
  [ ("codebaseId", json_text (cb_codebaseId row)); ("revision", json_integer (cb_revision row));
    ("lastEventSequence", json_integer (cb_lastEventSequence row));
    ("updatedAt", json_text (cb_updatedAt row)); ("name", json_nullable (cb_name row));
    ("rootPath", json_nullable (cb_rootPath row));
    ("topologySha256", json_nullable (cb_topologySha256 row));
    ("configurationSha256", json_nullable (cb_configurationSha256 row));
    ("registrationJson", json_nullable (cb_registrationJson row));
    ("instructionSnapshotJson", json_nullable (cb_instructionSnapshotJson row)) ].

Definition repositoryJson (row : RepositoryState) : Fields :=
  [ ("repositoryId", json_text (rep_repositoryId row));
    ("codebaseId", json_text (rep_codebaseId row)); ("revision", json_integer (rep_revision row));
    ("lastEventSequence", json_integer (rep_lastEventSequence row));
    ("updatedAt", json_text (rep_updatedAt row)); ("name", json_nullable (rep_name row));
    ("repositoryPath", json_nullable (rep_repositoryPath row));
    ("gitCommonDirectory", json_nullable (rep_gitCommonDirectory row));
    ("remotesJson", json_nullable (rep_remotesJson row));
    ("defaultRemote", json_nullable (rep_defaultRemote row));
    ("defaultBranch", json_nullable (rep_defaultBranch row)) ].

Definition workspaceJson (row : WorkspaceState) : Fields :=
  [ ("workspaceId", json_text (wk_workspaceId row)); ("codebaseId", json_text (wk_codebaseId row));
    ("repositoryId", json_nullable (wk_repositoryId row));
    ("lifecycleStatus", json_nullable (wk_lifecycleStatus row));
    ("checkoutPath", json_nullable (wk_checkoutPath row));
    ("configurationSha256", json_nullable (wk_configurationSha256 row));
    ("manifestJson", json_nullable (wk_manifestJson row));
    ("revision", json_integer (wk_revision row));
    ("lastEventSequence", json_integer (wk_lastEventSequence row));
    ("updatedAt", json_text (wk_updatedAt row)) ].

Definition workspaceLeaseJson (row : WorkspaceLeaseState) : Fields :=
  [ ("checkoutPath", json_text (wl_checkoutPath row));
    ("workspaceId", json_text (wl_workspaceId row));
    ("repositoryId", json_text (wl_repositoryId row)); ("leaseId", json_text (wl_leaseId row));
    ("ownerId", json_text (wl_ownerId row)); ("bootWitness", json_nullable (wl_bootWitness row));
    ("processWitnessesJson", json_text (wl_processWitnessesJson row));
    ("expectedSha", json_text (wl_expectedSha row));
    ("fencingRevision", json_integer (wl_fencingRevision row));
    ("leaseState", json_text (wl_leaseState row)); ("acquiredAt", json_text (wl_acquiredAt row));
    ("renewedAt", json_text (wl_renewedAt row)); ("expiresAt", json_text (wl_expiresAt row));
    ("releasedAt", json_nullable (wl_releasedAt row)); ("revision", json_integer (wl_revision row));
    ("lastEventSequence", json_integer (wl_lastEventSequence row));
    ("updatedAt", json_text (wl_updatedAt row)) ].

Definition artifactJson (row : ArtifactState) : Fields :=
  [ ("artifactId", json_text (ar_artifactId row)); ("runId", json_text (ar_runId row));
    ("stageId", json_text (ar_stageId row)); ("name", json_text (ar_name row));
    ("contentHash", json_text (ar_contentHash row));
    ("byteLength", json_integer (ar_byteLength row)); ("mediaType", json_text (ar_mediaType row));
    ("contentSchemaId", json_text (ar_contentSchemaId row));
    ("producer", json_text (ar_producer row));
    ("sourceLineage", JArray (map json_text (ar_sourceLineage row)));
    ("relativePath", json_text (ar_relativePath row)); ("createdAt", json_text (ar_createdAt row));
    ("revision", json_integer (ar_revision row));
    ("lastEventSequence", json_integer (ar_lastEventSequence row)) ].

Definition stageArtifactAliasJson (row : StageArtifactAliasState) : Fields :=
  [ ("runId", json_text (al_runId row)); ("stageId", json_text (al_stageId row));
    ("name", json_text (al_name row)); ("artifactId", json_text (al_artifactId row));
    ("revision", json_integer (al_revision row));
    ("lastEventSequence", json_integer (al_lastEventSequence row));
    ("updatedAt", json_text (al_updatedAt row)) ].

(** ** The digest *)

(** One table of [projectionStateToJson]: the rows in the order of their
    sorted keys. *)
Definition tableJson {T} (toJson : T -> Fields) (rows : gmap string T) : JsonValue :=
  JObject (own_order (flat_map (fun key =>
      match rows !! key with Some row => [(key, JObject (toJson row))] | None => [] end)
    (sorted_keys rows))).

Definition projectionStateToJson (state : ProjectionState) : JsonValue :=
  JObject
    [ ("artifacts", tableJson artifactJson (st_artifacts state));
      ("codebases", tableJson codebaseJson (st_codebases state));
      ("repositories", tableJson repositoryJson (st_repositories state));
      ("runs", tableJson runJson (st_runs state));
      ("stageArtifactAliases", tableJson stageArtifactAliasJson (st_stageArtifactAliases state));
      ("workspaces", tableJson workspaceJson (st_workspaces state));
      ("workspaceLeases", tableJson workspaceLeaseJson (st_workspaceLeases state)) ].

(** [None] is an error of [stringifyCanonical]. *)
Definition projectionDigest (sha256 : string -> string) (state : ProjectionState) : option string :=
  sha256 <$> stringifyCanonical (projectionStateToJson state).

(** ** The comparison *)

Record Divergence := {
  dv_table : ProjectionTable;
  dv_key : string;
  dv_field : option string;
  dv_stored : JsonValue;
  dv_replayed : JsonValue
}.

Record CompareView (T : Type) := {
  cv_table : ProjectionTable;
  cv_select : ProjectionState -> gmap string T;
  cv_toJson : T -> Fields
}.
Arguments cv_table {T} _.
Arguments cv_select {T} _ _.
Arguments cv_toJson {T} _ _.

Definition RUN_COMPARE : CompareView RunState :=
  {| cv_table := t_run_projection; cv_select := st_runs; cv_toJson := runJson |}.
Definition CODEBASE_COMPARE : CompareView CodebaseState :=
  {| cv_table := t_codebase; cv_select := st_codebases; cv_toJson := codebaseJson |}.
Definition REPOSITORY_COMPARE : CompareView RepositoryState :=
  {| cv_table := t_repository; cv_select := st_repositories; cv_toJson := repositoryJson |}.
Definition WORKSPACE_COMPARE : CompareView WorkspaceState :=
  {| cv_table := t_workspace; cv_select := st_workspaces; cv_toJson := workspaceJson |}.
Definition WORKSPACE_LEASE_COMPARE : CompareView WorkspaceLeaseState :=
  {| cv_table := t_workspace_lease; cv_select := st_workspaceLeases;
     cv_toJson := workspaceLeaseJson |}.
Definition ARTIFACT_COMPARE : CompareView ArtifactState :=
  {| cv_table := t_artifact; cv_select := st_artifacts; cv_toJson := artifactJson |}.
Definition STAGE_ARTIFACT_ALIAS_COMPARE : CompareView StageArtifactAliasState :=
  {| cv_table := t_stage_artifact_alias; cv_select := st_stageArtifactAliases;
     cv_toJson := stageArtifactAliasJson |}.

(** The fields of two rows that differ as canonical text. *)
Definition compareRow {T} (view : CompareView T) (key : string) (storedRow replayedRow : T)
    : list Divergence :=
  let storedJson := cv_toJson view storedRow in
  let replayedJson := cv_toJson view replayedRow in
  flat_map (fun field =>
      let left := default json_null (map_get storedJson field) in
      let right := default json_null (map_get replayedJson field) in
      if bool_decide (stringifyCanonical left = stringifyCanonical right) then []
      else [ {| dv_table := cv_table view; dv_key := key; dv_field := Some field;
                dv_stored := left; dv_replayed := right |} ])
    (sort_strings (map fst storedJson)).

Definition row_json {T} (view : CompareView T) (row : option T) : JsonValue :=
  match row with Some r => JObject (cv_toJson view r) | None => json_null end.

Definition compareTable {T} (view : CompareView T) (stored replayed : ProjectionState)
    : list Divergence :=
  let storedRows := cv_select view stored in
  let replayedRows := cv_select view replayed in
  flat_map (fun key =>
      match storedRows !! key, replayedRows !! key with
      | Some storedRow, Some replayedRow => compareRow view key storedRow replayedRow
      | storedRow, replayedRow =>
          [ {| dv_table := cv_table view; dv_key := key; dv_field := None;
               dv_stored := row_json view storedRow; dv_replayed := row_json view replayedRow |} ]
      end)
    (sort_strings (set_of (map fst (map_to_list storedRows) ++ map fst (map_to_list replayedRows)))).

Definition table_name (table : ProjectionTable) : string :=
  match table with
  | t_artifact => "artifact" | t_codebase => "codebase" | t_repository => "repository"
  | t_run_projection => "run_projection" | t_stage_artifact_alias => "stage_artifact_alias"
  | t_workspace => "workspace" | t_workspace_lease => "workspace_lease"
  end.

(** [compareField] is negative. *)
Definition field_lt (left right : option string) : bool :=
  match left, right with
  | None, Some _ => true
  | Some l, Some r => str_ltb l r
  | _, None => false
  end.

Definition divergence_lt (left right : Divergence) : bool :=
  if negb (bool_decide (dv_table left = dv_table right))
  then str_ltb (table_name (dv_table left)) (table_name (dv_table right))
  else if negb (str_eqb (dv_key left) (dv_key right)) then str_ltb (dv_key left) (dv_key right)
  else field_lt (dv_field left) (dv_field right).

Record ReplayDivergenceReport := {
  rd_converged : bool;
  rd_eventsReplayed : nat;
  rd_throughSequence : Z;
  rd_divergences : list Divergence;
  rd_digestStored : string;
  rd_digestReplayed : string
}.

(** Every divergence of two projections. *)
Definition allDivergences (stored replayed : ProjectionState) : list Divergence :=
  compareTable ARTIFACT_COMPARE stored replayed ++ compareTable CODEBASE_COMPARE stored replayed ++
  compareTable REPOSITORY_COMPARE stored replayed ++ compareTable RUN_COMPARE stored replayed ++
  compareTable STAGE_ARTIFACT_ALIAS_COMPARE stored replayed ++
  compareTable WORKSPACE_COMPARE stored replayed ++
  compareTable WORKSPACE_LEASE_COMPARE stored replayed.

(** With the default reducer.  The report's fingerprint of the schema is not
    kept. *)
Definition compareProjectionToReplay (sha256 : string -> string) (db : Database)
    : Res ReplayDivergenceReport :=
  let! replay := replayJournal db in
  let '(state, eventsReplayed, throughSequence) := replay in
  let! stored := loadStoredProjectionState db in
  let divergences := sort_by divergence_lt (allDivergences stored state) in
  match projectionDigest sha256 stored, projectionDigest sha256 state with
  | Some digestStored, Some digestReplayed =>
      inr {| rd_converged := match divergences with [] => true | _ => false end;
             rd_eventsReplayed := eventsReplayed; rd_throughSequence := throughSequence;
             rd_divergences := divergences; rd_digestStored := digestStored;
             rd_digestReplayed := digestReplayed |}
  | _, _ => inl "canonicalize: value cannot be represented"
  end.
