(* ===== verification/ReplayProps.v ===== *)
(** * The replay check is exact

    [compareProjectionToReplay] reports a divergence just when the tables and
    the journal disagree, and never on a store that only commits have
    written. *)

From Stdlib Require Import SpecFloat.
From stdpp Require Import gmap.
From S2P Require Import Prelude Ids Json Recovery CanonicalJson StateJson Projection Writers JsonProps StateJsonProps ProjectionStore ProjectionFrame ProjectionSteps PayloadCanon StoreWrites StoreJournal StoreProps ReplayCompare.

Local Open Scope Z_scope.

(** ** Integers as doubles

    An integer below [2 ^ 53] in magnitude is a finite double that holds
    exactly that integer. *)

Lemma digits_lower m : 2 ^ (Zpos (digits2_pos m) - 1) <= Zpos m.
Proof.
  induction m as [m IH|m IH|]; cbn [digits2_pos]; [..|done];
    rewrite Pos2Z.inj_succ, Z.sub_1_r, Z.pred_succ;
    replace (Zpos (digits2_pos m)) with (Z.succ (Zpos (digits2_pos m) - 1)) by lia;
    rewrite Z.pow_succ_r by lia; lia.
Qed.

Lemma digits_bound m k : 0 <= k -> Zpos m < 2 ^ k -> Zpos (digits2_pos m) <= k.
Proof.
  intros Hk Hm. pose proof (digits_lower m) as Hl. destruct (Z_le_gt_dec (Zpos (digits2_pos m)) k); [done|].
  assert (2 ^ k <= 2 ^ (Zpos (digits2_pos m) - 1)) by (apply Z.pow_le_mono_r; lia). lia.
Qed.

Lemma digits_shift p m : digits2_pos (Pos.iter xO m p) = (digits2_pos m + p)%positive.
Proof.
  induction p as [|p IH] using Pos.peano_ind; [simpl; lia|].
  rewrite Pos.iter_succ. cbn [digits2_pos]. rewrite IH. lia.
Qed.

Lemma shift_value p m : Zpos (Pos.iter xO m p) = Zpos m * 2 ^ Zpos p.
Proof.
  induction p as [|p IH] using Pos.peano_ind; [rewrite Z.pow_1_r; simpl; lia|].
  rewrite Pos.iter_succ, Pos2Z.inj_xO, IH, Pos2Z.inj_succ, Z.pow_succ_r by lia. lia.
Qed.

(** A mantissa of 53 digits is not rounded. *)
Lemma round_exact sx m e :
  Zpos (digits2_pos m) = 53 -> -1074 <= e <= 971 ->
  binary_round_aux 53 1024 sx (Zpos m) e loc_Exact = S754_finite sx m e.
Proof.
  intros Hd He. unfold binary_round_aux.
  assert (shr_fexp 53 1024 (Zpos m) e loc_Exact = ({| shr_m := Zpos m; shr_r := false; shr_s := false |}, e)) as Hs.
  { unfold shr_fexp, fexp, SpecFloat.emin. cbn [Zdigits2]. rewrite Hd.
    replace (Z.max (53 + e - 53) (3 - 1024 - 53) - e) with 0 by lia. done. }
  rewrite Hs. cbn [shr_m loc_of_shr_record round_nearest_even]. rewrite Hs. cbn [shr_m].
  rewrite (proj2 (Z.leb_le e (1024 - 53))) by lia. done.
Qed.

Lemma num_of_pos sx m :
  Zpos m < 2 ^ 53 ->
  exists m' e, binary_round 53 1024 sx m 0 = S754_finite sx m' e /\ e <= 0 /\
    Zpos m' = Zpos m * 2 ^ (- e).
Proof.
  intros Hm. pose proof (digits_bound m 53 ltac:(lia) Hm) as Hd. unfold binary_round, shl_align.
  assert (fexp 53 1024 (Zpos (digits2_pos m) + 0) - 0 = Zpos (digits2_pos m) - 53) as ->
    by (unfold fexp, SpecFloat.emin; lia).
  assert (fexp 53 1024 (Zpos (digits2_pos m) + 0) = Zpos (digits2_pos m) - 53) as ->
    by (unfold fexp, SpecFloat.emin; lia).
  destruct (Zpos (digits2_pos m) - 53) as [|p|p] eqn:E; [|lia|].
  - exists m, 0. rewrite round_exact by lia. rewrite Z.pow_0_r, Z.mul_1_r. done.
  - exists (Pos.iter xO m p), (Zneg p). rewrite round_exact.
    + split; [done|]. split; [lia|]. apply shift_value.
    + rewrite digits_shift. lia.
    + lia.
Qed.

Lemma num_of_Z_exact z :
  Z.abs z < 2 ^ 53 -> num_isFinite (num_of_Z z) = true /\ integer_of (num_of_Z z) = Some z.
Proof.
  intros Hz. unfold num_of_Z, binary_normalize. destruct z as [|m|m]; [done|..].
  - destruct (num_of_pos false m Hz) as (m' & e & -> & He & Hv). split; [done|].
    cbn [integer_of]. destruct (0 <=? e) eqn:E0.
    + apply Z.leb_le in E0. assert (e = 0) as -> by lia. rewrite Hv. f_equal. lia.
    + apply Z.leb_gt in E0. rewrite Hv, Z.mod_mul by (apply Z.pow_nonzero; lia).
      simpl. rewrite Z.div_mul by (apply Z.pow_nonzero; lia). done.
  - destruct (num_of_pos true m Hz) as (m' & e & -> & He & Hv). split; [done|].
    cbn [integer_of]. destruct (0 <=? e) eqn:E0.
    + apply Z.leb_le in E0. assert (e = 0) as -> by lia. rewrite Hv. f_equal. lia.
    + apply Z.leb_gt in E0. rewrite Hv, Z.mod_mul by (apply Z.pow_nonzero; lia).
      simpl. rewrite Z.div_mul by (apply Z.pow_nonzero; lia). done.
Qed.

Lemma num_of_Z_inj y z :
  Z.abs y < 2 ^ 53 -> Z.abs z < 2 ^ 53 -> num_of_Z y = num_of_Z z -> y = z.
Proof.
  intros Hy Hz E. destruct (num_of_Z_exact y Hy) as [_ Ey], (num_of_Z_exact z Hz) as [_ Ez].
  rewrite E in Ey. congruence.
Qed.

(** It is its own canonical form. *)
Lemma num_of_Z_canonical z : Z.abs z < 2 ^ 53 -> canonical_number (num_of_Z z) = Some (num_of_Z z).
Proof.
  intros Hz. unfold num_of_Z, binary_normalize. destruct z as [|m|m]; [done|..].
  - destruct (num_of_pos false m Hz) as (m' & e & -> & _). done.
  - destruct (num_of_pos true m Hz) as (m' & e & -> & _). done.
Qed.

Local Open Scope res_scope.
Local Open Scope Z_scope.

(** ** Values *)

(** A value that its text determines. *)
Definition plain (v : JsonValue) : Prop := canonicalize 0 v = Some v /\ json_readable v = true.

Lemma plain_text v w :
  plain v -> plain w -> stringifyCanonical v = stringifyCanonical w -> v = w.
Proof.
  intros [Hv Rv] [Hw Rw]. unfold stringifyCanonical. rewrite Hv, Hw. simpl. intros [= E].
  pose proof (parse_canonical v v Hv Rv). pose proof (parse_canonical w w Hw Rw). congruence.
Qed.

(** An integer whose double reads back from its text. *)
Definition int_ok (z : Z) : Prop := safe z /\ num_reads (num_of_Z z) = true.

Lemma safe_lt z : safe z -> Z.abs z < 2 ^ 53.
Proof. unfold safe, MAX_SAFE_INTEGER. lia. Qed.

Lemma plain_string s : plain (json_text s).
Proof. done. Qed.

Lemma plain_nullable o : plain (json_nullable o).
Proof. by destruct o. Qed.

Lemma plain_integer z : int_ok z -> plain (json_integer z).
Proof.
  intros [Hz%safe_lt Hr]. split; [|done]. unfold json_integer. cbn [canonicalize].
  by rewrite num_of_Z_canonical.
Qed.

Lemma plain_lineage l : plain (JArray (map json_text l)).
Proof. split; [apply canonicalize_strings|apply readable_strings]. Qed.

Lemma json_integer_inj y z : safe y -> safe z -> json_integer y = json_integer z -> y = z.
Proof. intros Hy%safe_lt Hz%safe_lt [= E]. by apply num_of_Z_inj. Qed.

Lemma json_nullable_inj o o' : json_nullable o = json_nullable o' -> o = o'.
Proof. destruct o, o'; simpl; intros [=]; congruence. Qed.

Lemma json_texts_inj l l' : JArray (map json_text l) = JArray (map json_text l') -> l = l'.
Proof.
  intros [= E]. revert l' E. induction l as [|s l IH]; intros [|s' l'] [=]; [done|].
  f_equal; [done|by apply IH].
Qed.

(** Nested at most [n] deep, with finite numbers. *)
Fixpoint fits (n : nat) (v : JsonValue) : bool :=
  match n with
  | O => false
  | S n' =>
      match v with
      | JScalar (SNumber x) => num_isFinite x
      | JScalar _ => true
      | JArray items => forallb (fits n') items
      | JObject fields => forallb (fun f => fits n' (snd f)) fields
      end
  end.

Lemma traverse_total {A B} (f : A -> option B) l :
  (forall x, x ∈ l -> is_Some (f x)) -> is_Some (traverse f l).
Proof.
  induction l as [|x l IH]; intros H; simpl; [by eexists|].
  destruct (H x ltac:(by left)) as [y ->].
  destruct IH as [ys ->]; [intros z Hz; apply H; by right|]. by eexists.
Qed.

Lemma fits_canonical n : forall v d, fits n v = true -> (d + n <= 64)%nat -> is_Some (canonicalize d v).
Proof.
  induction n as [|n IH]; intros v d Hf Hd; [done|]. cbn [fits] in Hf.
  assert ((MAX_DEPTH <=? d)%nat = false) as Hm by (apply Nat.leb_gt; unfold MAX_DEPTH; lia).
  destruct v as [[]|items|fields]; cbn [canonicalize]; rewrite Hm; try (by eexists).
  - destruct n0; try done; by eexists.
  - rewrite forallb_forall in Hf. destruct (traverse_total (canonicalize (S d)) items) as [cs ->];
      [|by eexists]. intros x Hx. apply IH; [by apply Hf, list_elem_of_In|lia].
  - rewrite forallb_forall in Hf.
    destruct (traverse_total (fun f => pair (fst f) <$> canonicalize (S d) (snd f)) fields) as [cs ->];
      [|by eexists].
    intros x Hx. destruct (IH (snd x) (S d)) as [c ->]; [by apply Hf, list_elem_of_In|lia|by eexists].
Qed.

Lemma fits_object n fields :
  fits (S n) (JObject fields) = forallb (fun f => fits n (snd f)) fields.
Proof. done. Qed.

Lemma fits_string s : fits 2 (json_text s) = true.
Proof. done. Qed.

Lemma fits_nullable o : fits 2 (json_nullable o) = true.
Proof. by destruct o. Qed.

Lemma fits_integer z : safe z -> fits 2 (json_integer z) = true.
Proof. intros Hz%safe_lt. by apply num_of_Z_exact. Qed.

Lemma fits_lineage l : fits 2 (JArray (map json_text l)) = true.
Proof. simpl. induction l as [|s l IH]; simpl; [done|]. exact IH. Qed.

(** ** Rows *)

Class Compared (T : Type) := {
  cmp_view : CompareView T;
  cmp_integers : T -> list Z;
  cmp_fields r r' : map fst (cv_toJson cmp_view r) = map fst (cv_toJson cmp_view r');
  cmp_plain r : Forall int_ok (cmp_integers r) ->
    Forall (fun f => plain (snd f)) (cv_toJson cmp_view r);
  cmp_fits r : Forall safe (cmp_integers r) ->
    Forall (fun f => fits 2 (snd f) = true) (cv_toJson cmp_view r);
  cmp_keys r : NoDup (map fst (cv_toJson cmp_view r));
  cmp_inj r r' : Forall int_ok (cmp_integers r) -> Forall int_ok (cmp_integers r') ->
    cv_toJson cmp_view r = cv_toJson cmp_view r' -> r = r'
}.

Ltac plain_fields :=
  intros r Hr; simpl in Hr; repeat (inversion Hr as [|? ? ? Hr']; subst; clear Hr; rename Hr' into Hr);
  repeat (apply Forall_cons_2;
    [simpl; auto using plain_string, plain_nullable, plain_integer, plain_lineage|]);
  apply Forall_nil_2.

Ltac fit_fields :=
  intros r Hr; simpl in Hr;
  repeat match goal with H : Forall safe (_ :: _) |- _ =>
    let Hs := fresh in apply Forall_cons_1 in H as [Hs H] end;
  repeat (apply Forall_cons_2;
    [cbn [snd]; auto using fits_string, fits_nullable, fits_integer, fits_lineage|]);
  apply Forall_nil_2.

Ltac distinct_fields :=
  intros r; apply (bool_decide_eq_true_1 (NoDup _)); vm_compute; reflexivity.

Lemma field_split (k : string) (v v' : JsonValue) (l l' : Fields) :
  (k, v) :: l = (k, v') :: l' -> v = v' /\ l = l'.
Proof. by intros [= -> ->]. Qed.

Lemma json_string_inj s s' : json_text s = json_text s' -> s = s'.
Proof. by intros [= ->]. Qed.

Ltac rows_inj :=
  let r := fresh "r" in let r' := fresh "r'" in
  intros r r' Hr Hr' E; destruct r, r'; simpl in Hr, Hr';
  repeat match goal with H : Forall int_ok (_ :: _) |- _ =>
    let Hs := fresh in apply Forall_cons_1 in H as [[Hs _] H] end;
  repeat (let Ef := fresh in apply field_split in E as [Ef E]; simpl in Ef); clear E;
  f_equal; auto using json_string_inj, json_integer_inj, json_nullable_inj, json_texts_inj.

Ltac compared_row := first [done | by plain_fields | by fit_fields | by distinct_fields | by rows_inj].

#[export] Program Instance RunCompared : Compared RunState := {|
  cmp_view := RUN_COMPARE; cmp_integers r := [rs_revision r; rs_lastEventSequence r] |}.
Solve Obligations with compared_row.

#[export] Program Instance CodebaseCompared : Compared CodebaseState := {|
  cmp_view := CODEBASE_COMPARE; cmp_integers r := [cb_revision r; cb_lastEventSequence r] |}.
Solve Obligations with compared_row.

#[export] Program Instance RepositoryCompared : Compared RepositoryState := {|
  cmp_view := REPOSITORY_COMPARE; cmp_integers r := [rep_revision r; rep_lastEventSequence r] |}.
Solve Obligations with compared_row.

#[export] Program Instance WorkspaceCompared : Compared WorkspaceState := {|
  cmp_view := WORKSPACE_COMPARE; cmp_integers r := [wk_revision r; wk_lastEventSequence r] |}.
Solve Obligations with compared_row.

#[export] Program Instance LeaseCompared : Compared WorkspaceLeaseState := {|
  cmp_view := WORKSPACE_LEASE_COMPARE; cmp_integers r := [wl_fencingRevision r; wl_revision r; wl_lastEventSequence r] |}.
Solve Obligations with compared_row.

#[export] Program Instance ArtifactCompared : Compared ArtifactState := {|
  cmp_view := ARTIFACT_COMPARE; cmp_integers r := [ar_byteLength r; ar_revision r; ar_lastEventSequence r] |}.
Solve Obligations with compared_row.

#[export] Program Instance AliasCompared : Compared StageArtifactAliasState := {|
  cmp_view := STAGE_ARTIFACT_ALIAS_COMPARE; cmp_integers r := [al_revision r; al_lastEventSequence r] |}.
Solve Obligations with compared_row.

(** ** Tables *)

Section Table.
Context {T : Type} `{Compared T}.
Notation view := (cmp_view (T := T)).
Notation select := (cv_select view).
Implicit Types (r : T) (m : gmap string T).

Definition readable_table m : Prop := forall k r, m !! k = Some r -> Forall int_ok (cmp_integers r).

(** The rows' fields, one by one. *)
Lemma fields_pointwise (l l' : Fields) :
  map fst l = map fst l' -> NoDup (map fst l) ->
  (forall f, f ∈ map fst l -> map_get l f = map_get l' f) -> l = l'.
Proof.
  revert l'. induction l as [|[k v] l IH]; intros [|[k' v'] l'] Hk Hnd Hf; try done.
  injection Hk as <- Hk. cbn [map fst] in Hnd. apply NoDup_cons in Hnd as [Hn Hnd].
  pose proof (Hf k ltac:(by left)) as Hv. cbn [map_get] in Hv. rewrite str_eqb_refl in Hv.
  injection Hv as <-. f_equal. apply IH; [done..|]. intros f Hin.
  pose proof (Hf f ltac:(by right)) as Hv. cbn [map_get] in Hv.
  rewrite (proj2 (str_eqb_false f k)) in Hv; [done|]. by intros ->.
Qed.

Lemma compareRow_nil k r r' :
  Forall int_ok (cmp_integers r) -> Forall int_ok (cmp_integers r') ->
  compareRow view k r r' = [] -> r = r'.
Proof.
  intros Hr Hr' E. apply cmp_inj; [done..|]. unfold compareRow in E. rewrite flat_map_nil in E.
  pose proof (cmp_fields r r') as Hk. apply fields_pointwise; [done|apply cmp_keys|]. intros f Hf.
  specialize (E f (proj2 (elem_of_sort_strings _ _) Hf)). cbv beta zeta in E.
  destruct (bool_decide _) eqn:Eb; [|done]. apply bool_decide_eq_true in Eb.
  pose proof Hf as [v Hv]%map_get_keys. rewrite Hk in Hf. pose proof Hf as [v' Hv']%map_get_keys.
  rewrite Hv, Hv' in Eb. simpl in Eb. rewrite Hv, Hv'. f_equal. apply plain_text; [..|done].
  - apply map_get_elem in Hv. by apply (proj1 (Forall_forall _ _) (cmp_plain r Hr) _ Hv).
  - apply map_get_elem in Hv'. by apply (proj1 (Forall_forall _ _) (cmp_plain r' Hr') _ Hv').
Qed.

Lemma compareRow_same k r : compareRow view k r r = [].
Proof. unfold compareRow. apply flat_map_nil. intros f _. by rewrite bool_decide_eq_true_2. Qed.

Lemma compare_keys m m' k :
  k ∈ sort_strings (set_of (map fst (map_to_list m) ++ map fst (map_to_list m'))) <->
  is_Some (m !! k) \/ is_Some (m' !! k).
Proof.
  rewrite elem_of_sort_strings, elem_of_set_of, elem_of_app.
  assert (forall m : gmap string T, k ∈ map fst (map_to_list m) <-> is_Some (m !! k)) as Hm.
  { intros m0. rewrite list_elem_of_fmap. split.
    - intros ([k' r] & -> & E%elem_of_map_to_list). by exists r.
    - intros [r E]. exists (k, r). split; [done|]. by apply elem_of_map_to_list. }
  by rewrite !Hm.
Qed.

Lemma compareTable_nil s s' :
  readable_table (select s) -> readable_table (select s') ->
  compareTable view s s' = [] <-> select s = select s'.
Proof.
  intros Hs Hs'. unfold compareTable. rewrite flat_map_nil. split.
  - intros E. apply map_eq. intros k.
    specialize (E k). rewrite compare_keys in E.
    destruct (select s !! k) as [r|] eqn:E1, (select s' !! k) as [r'|] eqn:E2; [..|done].
    + f_equal. apply (compareRow_nil k); eauto.
    + by specialize (E ltac:(left; by eexists)).
    + by specialize (E ltac:(right; by eexists)).
  - intros -> k [Hk|Hk]%compare_keys; destruct Hk as [r ->]; apply compareRow_same.
Qed.

Lemma tableJson_fits m :
  (forall k r, m !! k = Some r -> Forall safe (cmp_integers r)) ->
  fits 4 (tableJson (cv_toJson view) m) = true.
Proof.
  intros Hm. unfold tableJson. apply forallb_forall. intros [k v] Hin%list_elem_of_In.
  rewrite own_order_perm in Hin. apply list_elem_of_In, in_flat_map in Hin as (k' & _ & Hin).
  destruct (m !! k') as [r|] eqn:E; [|done]. destruct Hin as [[= <- <-]|[]]. apply forallb_forall.
  intros f Hf%list_elem_of_In. by apply (proj1 (Forall_forall _ _) (cmp_fits r (Hm k' r E)) f Hf).
Qed.

Lemma compareTable_same s s' : select s = select s' -> compareTable view s s' = [].
Proof.
  intros E. unfold compareTable. rewrite E. apply flat_map_nil.
  intros k [Hk|Hk]%compare_keys; destruct Hk as [r ->]; apply compareRow_same.
Qed.
End Table.


(** ** Projections *)

Definition readable_integers (s : ProjectionState) : Prop :=
  readable_table (st_runs s) /\ readable_table (st_codebases s) /\
  readable_table (st_repositories s) /\ readable_table (st_workspaces s) /\
  readable_table (st_workspaceLeases s) /\ readable_table (st_artifacts s) /\
  readable_table (st_stageArtifactAliases s).

Definition safe_table {T} `{Compared T} (m : gmap string T) : Prop :=
  forall k r, m !! k = Some r -> Forall safe (cmp_integers r).

Definition safe_integers (s : ProjectionState) : Prop :=
  safe_table (st_runs s) /\ safe_table (st_codebases s) /\ safe_table (st_repositories s) /\
  safe_table (st_workspaces s) /\ safe_table (st_workspaceLeases s) /\
  safe_table (st_artifacts s) /\ safe_table (st_stageArtifactAliases s).

Lemma readable_safe s : readable_integers s -> safe_integers s.
Proof.
  intros (H1 & H2 & H3 & H4 & H5 & H6 & H7).
  assert (forall l, Forall int_ok l -> Forall safe l) as Hi
    by (intros l Hl; eapply Forall_impl; [exact Hl|]; by intros z [Hz _]).
  repeat apply conj; intros k r E; eauto.
Qed.

Lemma digest_total sha256 s : safe_integers s -> is_Some (projectionDigest sha256 s).
Proof.
  intros (H1 & H2 & H3 & H4 & H5 & H6 & H7). unfold projectionDigest, stringifyCanonical.
  assert (fits 5 (projectionStateToJson s) = true) as Hf.
  { unfold projectionStateToJson. rewrite fits_object. cbn [forallb snd].
    rewrite (tableJson_fits _ H1 : fits 4 (tableJson runJson _) = true).
    rewrite (tableJson_fits _ H2 : fits 4 (tableJson codebaseJson _) = true).
    rewrite (tableJson_fits _ H3 : fits 4 (tableJson repositoryJson _) = true).
    rewrite (tableJson_fits _ H4 : fits 4 (tableJson workspaceJson _) = true).
    rewrite (tableJson_fits _ H5 : fits 4 (tableJson workspaceLeaseJson _) = true).
    rewrite (tableJson_fits _ H6 : fits 4 (tableJson artifactJson _) = true).
    by rewrite (tableJson_fits _ H7 : fits 4 (tableJson stageArtifactAliasJson _) = true). }
  destruct (fits_canonical 5 _ 0 Hf ltac:(lia)) as [c ->]. by eexists.
Qed.

Lemma divergences_same s : allDivergences s s = [].
Proof.
  unfold allDivergences.
  rewrite (@compareTable_same ArtifactState ArtifactCompared s s eq_refl : compareTable ARTIFACT_COMPARE _ _ = _).
  rewrite (@compareTable_same CodebaseState CodebaseCompared s s eq_refl : compareTable CODEBASE_COMPARE _ _ = _).
  rewrite (@compareTable_same RepositoryState RepositoryCompared s s eq_refl : compareTable REPOSITORY_COMPARE _ _ = _).
  rewrite (@compareTable_same RunState RunCompared s s eq_refl : compareTable RUN_COMPARE _ _ = _).
  rewrite (@compareTable_same StageArtifactAliasState AliasCompared s s eq_refl
    : compareTable STAGE_ARTIFACT_ALIAS_COMPARE _ _ = _).
  rewrite (@compareTable_same WorkspaceState WorkspaceCompared s s eq_refl : compareTable WORKSPACE_COMPARE _ _ = _).
  by rewrite (@compareTable_same WorkspaceLeaseState LeaseCompared s s eq_refl
    : compareTable WORKSPACE_LEASE_COMPARE _ _ = _).
Qed.

Lemma divergences_nil s s' :
  readable_integers s -> readable_integers s' -> allDivergences s s' = [] -> s = s'.
Proof.
  intros (H1 & H2 & H3 & H4 & H5 & H6 & H7) (G1 & G2 & G3 & G4 & G5 & G6 & G7). unfold allDivergences.
  intros [E6 [E2 [E3 [E1 [E7 [E4 E5]%app_nil]%app_nil]%app_nil]%app_nil]%app_nil]%app_nil.
  apply (@compareTable_nil RunState RunCompared) in E1; [|done..].
  apply (@compareTable_nil CodebaseState CodebaseCompared) in E2; [|done..].
  apply (@compareTable_nil RepositoryState RepositoryCompared) in E3; [|done..].
  apply (@compareTable_nil WorkspaceState WorkspaceCompared) in E4; [|done..].
  apply (@compareTable_nil WorkspaceLeaseState LeaseCompared) in E5; [|done..].
  apply (@compareTable_nil ArtifactState ArtifactCompared) in E6; [|done..].
  apply (@compareTable_nil StageArtifactAliasState AliasCompared) in E7; [|done..].
  destruct s, s'. simpl in *. by subst.
Qed.

Lemma sort_by_empty {A} (lt : A -> A -> bool) l : sort_by lt l = [] <-> l = [].
Proof. rewrite <-!length_zero_iff_nil. by rewrite sort_by_length. Qed.

Lemma check_report sha256 db stored replayed n through :
  loadStoredProjectionState db = inr stored -> replayJournal db = inr (replayed, n, through) ->
  safe_integers stored -> safe_integers replayed ->
  exists report, compareProjectionToReplay sha256 db = inr report /\
    rd_eventsReplayed report = n /\ rd_throughSequence report = through /\
    (rd_converged report = true <-> allDivergences stored replayed = []) /\
    projectionDigest sha256 stored = Some (rd_digestStored report) /\
    projectionDigest sha256 replayed = Some (rd_digestReplayed report).
Proof.
  intros Hl Hr Hs Hs'. unfold compareProjectionToReplay. rewrite Hr. cbn [rbind]. rewrite Hl. cbn [rbind].
  destruct (digest_total sha256 stored Hs) as [d Hd], (digest_total sha256 replayed Hs') as [d' Hd'].
  rewrite Hd, Hd'. eexists. split; [done|]. do 2 (split; [done|]). split; [|done].
  rewrite <-(sort_by_empty divergence_lt). simpl. by destruct (sort_by _ _).
Qed.

(** The replay check is exact.  When the tables load and the journal
    replays, [compareProjectionToReplay] returns a report, and it says
    [converged] just when the two projections are equal: a difference in any
    column of any row of any table is reported, equal projections have no
    divergence and the same digest. *)
Theorem replay_check_exact sha256 db stored replayed n through :
  loadStoredProjectionState db = inr stored -> replayJournal db = inr (replayed, n, through) ->
  readable_integers stored -> readable_integers replayed ->
  exists report, compareProjectionToReplay sha256 db = inr report /\
    (rd_converged report = true <-> stored = replayed) /\
    (stored = replayed -> rd_digestStored report = rd_digestReplayed report).
Proof.
  intros Hl Hr Hs Hs'.
  destruct (check_report sha256 db _ _ _ _ Hl Hr (readable_safe _ Hs) (readable_safe _ Hs'))
    as (report & E & _ & _ & Hc & Hd & Hd').
  exists report. split; [done|]. split; [|intros ->; congruence]. rewrite Hc. split.
  - by apply divergences_nil.
  - intros ->. apply divergences_same.
Qed.

(** ** Commits and replay *)

Lemma sound_safe n s : n <= MAX_SAFE_INTEGER -> sound n s -> safe_lengths s -> safe_integers s.
Proof.
  intros Hn Hs Hlen. destruct Hs.
  repeat apply conj; intros k r E; repeat apply Forall_cons_2; try apply Forall_nil_2;
    unfold safe; match goal with Hso : sound_table _ ?m, E : ?m !! _ = Some _ |- _ =>
      destruct (Hso k r E) as (_ & ? & ? & ?) end; cbn in *; try lia.
  by apply (Hlen k).
Qed.

Section Histories.
Context `{SchemaChecks} (sha256 : string -> string).

(** C5: Whatever commands with payloads the journal keeps are attempted on an empty
    store, in whatever order and whether they succeed or not, replaying the journal
    succeeds and gives the projection that the tables hold.  The journal keeps a
    payload when the numbers of its canonical form read back from their text and,
    for an event whose JSON text goes into the projection, that JSON is canonical
    already; without this the tables and the replay can differ.  Unless an
    artifact's length is beyond the safe integers, [loadStoredProjectionState] reads
    exactly that projection back and [compareProjectionToReplay] reports that the store has
    converged, over all its events and with equal digests. *)
Theorem commits_converge attempts :
  Forall (fun a => storable (at_command a)) attempts ->
  let db := commit_all EMPTY_DATABASE attempts in
  exists s, replayJournal db = inr (s, length (db_events db), latestSequence db) /\
    represents (db_rows db) s /\
    (safe_lengths s -> loadStoredProjectionState db = inr s /\
       exists report, compareProjectionToReplay sha256 db = inr report /\
         rd_converged report = true /\ rd_eventsReplayed report = length (db_events db) /\
         rd_digestStored report = rd_digestReplayed report).
Proof.
  intros Hall. cbv zeta.
  destruct (commit_all_consistent attempts _ _ consistent_empty Hall) as [s Hs]. exists s.
  destruct Hs as [_ Hmax Hs Hrep (events & Hev & Hfold)].
  assert (replayJournal (commit_all EMPTY_DATABASE attempts) =
    inr (s, length (db_events (commit_all EMPTY_DATABASE attempts)),
         latestSequence (commit_all EMPTY_DATABASE attempts))) as Hreplay.
  { unfold replayJournal. rewrite readEvents_all, Hev. cbn [rbind]. rewrite Hfold. cbn [rbind].
    by rewrite (rtraverse_length _ _ _ _ Hev). }
  split; [done|]. split; [done|]. intros Hlen.
  pose proof (loadStored_represents _ _ s Hmax Hs Hrep Hlen) as Hload. split; [done|].
  pose proof (sound_safe _ s Hmax Hs Hlen) as Hsafe.
  destruct (check_report sha256 _ _ _ _ _ Hload Hreplay Hsafe Hsafe) as (report & E & En & _ & Hc & Hd & Hd').
  exists report. split; [done|]. split; [apply Hc, divergences_same|]. split; [done|congruence].
Qed.
End Histories.

Lemma commits_converge_witness :
  let db := @commit_all open_schema EMPTY_DATABASE small_history in
  length (db_events db) = 2%nat /\
  exists s, replayJournal db = inr (s, length (db_events db), latestSequence db) /\
    represents (db_rows db) s /\
    (safe_lengths s -> loadStoredProjectionState db = inr s /\
       exists report, compareProjectionToReplay id db = inr report /\
         rd_converged report = true /\ rd_eventsReplayed report = length (db_events db) /\
         rd_digestStored report = rd_digestReplayed report).
Proof.
  split; [vm_compute; reflexivity|]. apply (@commits_converge open_schema id small_history).
  do 3 (apply Forall_cons_2; [eapply storable_plain; [vm_compute; reflexivity..]|]).
  apply Forall_nil_2.
Defined.

(** Decides [readable_table]. *)
Lemma readable_decide {T} `{Compared T} (m : gmap string T) :
  forallb (fun e => forallb (fun z => (Z.abs z <=? MAX_SAFE_INTEGER) && num_reads (num_of_Z z))
    (cmp_integers (snd e))) (map_to_list m) = true -> readable_table m.
Proof.
  intros Hm k r E. rewrite forallb_forall in Hm.
  specialize (Hm (k, r) (proj1 (list_elem_of_In _ _) (proj2 (elem_of_map_to_list _ _ _) E))).
  simpl in Hm. rewrite forallb_forall in Hm. apply Forall_forall. intros z Hz%list_elem_of_In.
  apply Hm, andb_prop in Hz as [Hs%Z.leb_le Hr]. done.
Qed.

(** A store whose table was changed behind the journal's back. *)
Definition tampered_db : Database :=
  let db := @commit_all open_schema EMPTY_DATABASE small_history in
  with_rows db (<[(t_run_projection, [sql_text "r1"]) :=
    <["status" := sql_text "failed"]>
      (default ∅ (db_rows db !! (t_run_projection, [sql_text "r1"])))]> (db_rows db)).

Definition stored_of (db : Database) : ProjectionState :=
  match loadStoredProjectionState db with inr s => s | inl _ => EMPTY_PROJECTION_STATE end.

Definition replayed_of (db : Database) : ProjectionState :=
  match replayJournal db with inr (s, _, _) => s | inl _ => EMPTY_PROJECTION_STATE end.

Lemma replay_check_exact_witness :
  exists report, compareProjectionToReplay id tampered_db = inr report /\
    (rd_converged report = true <-> stored_of tampered_db = replayed_of tampered_db) /\
    (stored_of tampered_db = replayed_of tampered_db ->
     rd_digestStored report = rd_digestReplayed report).
Proof.
  apply (replay_check_exact id tampered_db _ _ 2 2).
  - vm_compute. reflexivity.
  - vm_compute. reflexivity.
  - repeat apply conj; apply readable_decide; vm_compute; reflexivity.
  - repeat apply conj; apply readable_decide; vm_compute; reflexivity.
Defined.
