(* ===== verification/Redaction.v ===== *)
(** * Redaction

    [redactJson] of [packages/secrets/src/redaction.ts] on JSON values, with the
    predicates of [patterns.ts] that combine its regular expressions.  What the
    expressions match is a parameter: the theorem holds for any patterns. *)

From Stdlib Require Import Ascii SpecFloat.
From S2P Require Import Prelude Json CanonicalJson JsonProps StateJson StateJsonProps.

(** [object[key] = value] where the assignment always makes an own property: on
    an object without a prototype, or by [Object.defineProperty]. *)
Definition assign (fields : list (string * JsonValue)) (key : string) (value : JsonValue)
    : list (string * JsonValue) :=
  own_order (map_set fields key value).

(** The tests of the regular expressions: [CREDENTIAL_KEY_PATTERN], each of
    [CREDENTIAL_VALUE_PATTERNS] and [SENSITIVE_DIAGNOSTIC_VALUE_PATTERNS], and
    [SENSITIVE_DIAGNOSTIC_KEY_PATTERN]. *)
Class Patterns := {
  credentialKeyPattern : string -> bool;
  credentialValuePatterns : list (string -> bool);
  sensitiveDiagnosticValuePatterns : list (string -> bool);
  sensitiveDiagnosticKeyPattern : string -> bool
}.

Definition REDACTION_PLACEHOLDER : string := "[redacted]".
Definition MAX_DEPTH_PLACEHOLDER : string := "[max-depth-exceeded]".
Definition REDACTION_MAX_DEPTH : nat := 64.

Section Redaction.
Context `{Patterns}.

Definition looksLikeCredentialKey (key : string) : bool := credentialKeyPattern key.

Definition isSensitiveDiagnosticKey (key : string) : bool := sensitiveDiagnosticKeyPattern key.

Definition looksLikeSensitiveDiagnosticValue (value : string) : bool :=
  existsb (fun pattern => pattern value) sensitiveDiagnosticValuePatterns.

Definition looksLikeCredentialValue (value : string) : bool :=
  existsb (fun pattern => pattern value) credentialValuePatterns.

Definition isDisallowedConfigurationEntry (key : string) (value : JsonValue) : bool :=
  match value with
  | JScalar (SString s) => looksLikeCredentialKey key || looksLikeCredentialValue s
  | _ => false
  end.

Definition isString (value : JsonValue) : bool :=
  match value with JScalar (SString _) => true | _ => false end.

(** Whether the value under a key is replaced because of the key. *)
Definition redactedByKey (key : string) (value : JsonValue) : bool :=
  if isString value
  then isDisallowedConfigurationEntry key value || isSensitiveDiagnosticKey key
  else looksLikeCredentialKey key || isSensitiveDiagnosticKey key.

Definition outputKey (key : string) : string :=
  if looksLikeCredentialValue key then REDACTION_PLACEHOLDER else key.

Definition placeholder : JsonValue := JScalar (SString REDACTION_PLACEHOLDER).

Definition redactScalar (s : JsonScalar) : JsonValue :=
  match s with
  | SString t =>
      if looksLikeCredentialValue t || looksLikeSensitiveDiagnosticValue t then placeholder
      else JScalar s
  | _ => JScalar s
  end.

(** A JSON value is a tree: no object is its own ancestor. *)
Fixpoint redactValue (depth : nat) (value : JsonValue) : JsonValue :=
  match value with
  | JScalar s => redactScalar s
  | JArray items =>
      if (REDACTION_MAX_DEPTH <=? depth)%nat then JScalar (SString MAX_DEPTH_PLACEHOLDER)
      else JArray (map (redactValue (S depth)) items)
  | JObject fields =>
      if (REDACTION_MAX_DEPTH <=? depth)%nat then JScalar (SString MAX_DEPTH_PLACEHOLDER)
      else
        JObject
          (fold_left
             (fun out f =>
                assign out (outputKey (fst f))
                  (if redactedByKey (fst f) (snd f) then placeholder
                   else redactValue (S depth) (snd f)))
             fields [])
  end.

Definition redactJson (value : JsonValue) : JsonValue := redactValue 0 value.

(** ** What redaction promises *)

(** A text the redaction itself writes, or one that no value pattern matches. *)
Definition clean_text (s : string) : bool :=
  str_eqb s REDACTION_PLACEHOLDER || str_eqb s MAX_DEPTH_PLACEHOLDER ||
  negb (looksLikeCredentialValue s || looksLikeSensitiveDiagnosticValue s).

Definition is_placeholder (value : JsonValue) : bool :=
  match value with JScalar (SString s) => str_eqb s REDACTION_PLACEHOLDER | _ => false end.

(** A key that has replaced another, or a key that is no credential itself and
    is neither a credential name nor a sensitive one unless its value is gone. *)
Definition clean_entry (key : string) (value : JsonValue) : bool :=
  str_eqb key REDACTION_PLACEHOLDER ||
  (negb (looksLikeCredentialValue key) &&
   (negb (looksLikeCredentialKey key || isSensitiveDiagnosticKey key) || is_placeholder value)).

Fixpoint clean (value : JsonValue) : bool :=
  match value with
  | JScalar (SString s) => clean_text s
  | JScalar _ => true
  | JArray items => forallb clean items
  | JObject fields => forallb (fun f => clean_entry (fst f) (snd f) && clean (snd f)) fields
  end.

(** Nothing in the value is sensitive: no key, no key's shape, no text. *)
Fixpoint harmless (value : JsonValue) : bool :=
  match value with
  | JScalar (SString s) => negb (looksLikeCredentialValue s || looksLikeSensitiveDiagnosticValue s)
  | JScalar _ => true
  | JArray items => forallb harmless items
  | JObject fields =>
      forallb (fun f => negb (looksLikeCredentialValue (fst f) || looksLikeCredentialKey (fst f) ||
                              isSensitiveDiagnosticKey (fst f)) && harmless (snd f)) fields
  end.

(** A value that a program can build: distinct keys in property order, nested
    less than the limit. *)
Fixpoint well_built (depth : nat) (value : JsonValue) : Prop :=
  match value with
  | JScalar _ => True
  | JArray items =>
      (depth < REDACTION_MAX_DEPTH)%nat /\ foldr (fun v P => well_built (S depth) v /\ P) True items
  | JObject fields =>
      (depth < REDACTION_MAX_DEPTH)%nat /\ NoDup (map fst fields) /\ own_order fields = fields /\
      foldr (fun f P => well_built (S depth) (snd f) /\ P) True fields
  end.

Lemma forallb_own_order {A} (p : string * A -> bool) fields :
  forallb p (own_order fields) = forallb p fields.
Proof. apply eq_true_iff_eq. rewrite !forallb_forall. by setoid_rewrite (own_order_perm fields). Qed.

Lemma forallb_map_set {A} (p : string * A -> bool) fields k v :
  p (k, v) = true -> forallb p fields = true -> forallb p (map_set fields k v) = true.
Proof.
  intros Hk. induction fields as [|[k' v'] fields IH]; simpl; [by rewrite Hk|].
  intros [H1 H2]%andb_true_iff. destruct (str_eqb k k') eqn:E; simpl; [|by rewrite H1, IH].
  apply str_eqb_true in E as <-. by rewrite Hk, H2.
Qed.

Lemma assign_all_clean {A} (p : string * JsonValue -> bool) (g : A -> string * JsonValue) l m :
  (forall x, x ∈ l -> p (g x) = true) -> forallb p m = true ->
  forallb p (fold_left (fun out x => assign out (fst (g x)) (snd (g x))) l m) = true.
Proof.
  revert m. induction l as [|x l IH]; intros m Hl Hm; simpl; [done|]. apply IH.
  - intros y Hy. apply Hl. by right.
  - unfold assign. rewrite forallb_own_order. apply forallb_map_set; [|done].
    rewrite <-surjective_pairing. apply Hl. by left.
Qed.

Lemma redactedByKey_false key v :
  redactedByKey key v = false -> looksLikeCredentialKey key || isSensitiveDiagnosticKey key = false.
Proof.
  unfold redactedByKey. destruct (isString v) eqn:E; [|done]. destruct v as [[]| |]; try done.
  simpl. rewrite !orb_false_iff. tauto.
Qed.

Lemma redactValue_clean v depth : clean (redactValue depth v) = true.
Proof.
  revert depth. induction v as [s|items IH|fields IH] using json_ind'; intros depth.
  - destruct s as [s| | |]; try done. simpl.
    destruct (looksLikeCredentialValue s || looksLikeSensitiveDiagnosticValue s) eqn:E; [done|].
    simpl. unfold clean_text. rewrite E. by rewrite orb_true_r.
  - cbn [redactValue]. destruct (_ <=? _)%nat; [done|]. cbn [clean]. apply forallb_forall.
    rewrite Forall_forall in IH. intros x (y & <- & Hy)%in_map_iff. by apply IH, list_elem_of_In.
  - cbn [redactValue]. destruct (_ <=? _)%nat; [done|]. cbn [clean]. rewrite Forall_forall in IH.
    apply (assign_all_clean _ (fun f : string * JsonValue => (outputKey (fst f),
      if redactedByKey (fst f) (snd f) then placeholder else redactValue (S depth) (snd f))));
      [|done].
    intros [k v] Hin. cbn [fst snd].
    assert (clean_entry (outputKey k) (if redactedByKey k v then placeholder else redactValue (S depth) v) =
      true) as ->.
    { unfold clean_entry, outputKey. destruct (looksLikeCredentialValue k) eqn:Ek; [done|].
      rewrite Ek. destruct (redactedByKey k v) eqn:Er; [by rewrite !orb_true_r|].
      rewrite (redactedByKey_false _ _ Er). by rewrite orb_true_r. }
    destruct (redactedByKey k v); [done|]. by apply (IH (k, v)).
Qed.

(** Redacted JSON is JSON. *)
Lemma redactValue_representable v depth :
  representable v = true -> representable (redactValue depth v) = true.
Proof.
  revert depth. induction v as [s|items IH|fields IH] using json_ind'; intros depth.
  - destruct s as [s| | |]; try done. simpl. by destruct (_ || _).
  - cbn [redactValue representable]. destruct (_ <=? _)%nat; [done|]. cbn [representable].
    rewrite !forallb_forall. rewrite Forall_forall in IH. intros Hr x (y & <- & Hy)%in_map_iff.
    apply IH; [by apply list_elem_of_In|by apply Hr].
  - cbn [redactValue representable]. destruct (_ <=? _)%nat; [done|]. cbn [representable].
    rewrite Forall_forall in IH. rewrite forallb_forall. intros Hr.
    apply (assign_all_clean _ (fun f : string * JsonValue => (outputKey (fst f),
      if redactedByKey (fst f) (snd f) then placeholder else redactValue (S depth) (snd f))));
      [|done].
    intros [k v] Hin. cbn [fst snd]. destruct (redactedByKey k v); [done|].
    apply (IH (k, v) Hin). by apply (Hr (k, v)), list_elem_of_In.
Qed.

Lemma redactJson_representable v : representable v = true -> representable (redactJson v) = true.
Proof. apply redactValue_representable. Qed.

(** Assigning distinct keys one after the other gives the property order. *)
Lemma own_order_snoc (l : list (string * JsonValue)) x :
  own_order (own_order l ++ [x]) = own_order (l ++ [x]).
Proof.
  unfold own_order at 1 3. rewrite !List.filter_app, own_order_indices, own_order_names. f_equal.
  destruct (List.filter (fun f => is_index (fst f)) [x]) as [|y k] eqn:E;
    [by rewrite !app_nil_r, index_sorted|].
  simpl in E. destruct (is_index (fst x)); [|done]. injection E as <- <-.
  unfold sort_by at 1 3. rewrite !fold_left_app. simpl. f_equal. apply index_sorted.
Qed.

Lemma assign_all fields :
  NoDup (map fst fields) ->
  fold_left (fun out f => assign out (fst f) (snd f)) fields [] = own_order fields.
Proof.
  induction fields as [|[k v] fields IH] using rev_ind; [done|]. rewrite map_app. intros Hn.
  apply NoDup_app in Hn as (Hn & Hk & _). rewrite fold_left_app. simpl. rewrite IH by done.
  unfold assign. rewrite map_set_out; [apply own_order_snoc|]. unfold map_keys.
  rewrite own_order_perm. intros Hin. apply (Hk k Hin). by left.
Qed.

Lemma fold_left_ext {A B} (f g : A -> B -> A) l a :
  (forall x y, y ∈ l -> f x y = g x y) -> fold_left f l a = fold_left g l a.
Proof.
  revert a. induction l as [|y l IH]; intros a Hfg; simpl; [done|]. rewrite (Hfg a y) by (by left).
  apply IH. intros x z Hz. apply Hfg. by right.
Qed.

Lemma redactValue_harmless v depth :
  harmless v = true -> well_built depth v -> redactValue depth v = v.
Proof.
  revert depth. induction v as [s|items IH|fields IH] using json_ind'; intros depth.
  - destruct s as [s| | |]; try done. simpl. by destruct (_ || _).
  - cbn [harmless well_built redactValue]. rewrite forallb_forall, (foldr_and (well_built (S depth))).
    rewrite Forall_forall in IH. intros Hh [Hd Hw].
    rewrite (proj2 (Nat.leb_gt _ _) Hd). f_equal. rewrite <-(map_id items) at 2.
    apply map_ext_in. intros x Hx%list_elem_of_In. apply IH; [done|by apply Hh, list_elem_of_In|auto].
  - cbn [harmless well_built redactValue]. rewrite forallb_forall.
    rewrite (foldr_and (fun f => well_built (S depth) (snd f))). rewrite Forall_forall in IH.
    intros Hh (Hd & Hn & Ho & Hw). rewrite (proj2 (Nat.leb_gt _ _) Hd). f_equal.
    rewrite <-Ho at 2. rewrite <-assign_all by done. apply fold_left_ext. intros out [k v] Hin.
    specialize (Hh (k, v) (proj1 (list_elem_of_In _ _) Hin)). cbn [fst snd] in *.
    apply andb_true_iff in Hh as [Hk%negb_true_iff Hv]. apply orb_false_iff in Hk as [[Hk1 Hk2]%orb_false_iff Hk3].
    unfold outputKey. rewrite Hk1. f_equal.
    assert (redactedByKey k v = false) as ->.
    { unfold redactedByKey. rewrite Hk2, Hk3. destruct (isString v) eqn:E; [|done].
      destruct v as [[s| | |]| |]; try done. simpl in *. rewrite Hk2.
      by apply negb_true_iff, orb_false_iff in Hv as [-> _]. }
    apply (IH (k, v)); [done..|]. by apply (Hw (k, v)).
Qed.

(** C32: Redaction removes what is sensitive and nothing else.  In the result
    every text is a placeholder or matches no value pattern; no key matches a
    credential pattern, and under a credential-shaped or sensitive key there is
    only the placeholder (a key that was itself a credential is replaced by the
    placeholder).  A value with nothing sensitive in it, nested less than the
    limit, is returned as it is. *)
Theorem redaction_exact value :
  clean (redactJson value) = true /\
  (harmless value = true -> well_built 0 value -> redactJson value = value).
Proof. split; [apply redactValue_clean|apply redactValue_harmless]. Qed.
End Redaction.

(** Patterns for examples: a few of the shapes the expressions describe. *)
Definition sample_patterns : Patterns := {|
  credentialKeyPattern key := str_eqb key "password";
  credentialValuePatterns := [String.prefix "ghp_"];
  sensitiveDiagnosticValuePatterns := [String.prefix "https://"];
  sensitiveDiagnosticKeyPattern key := str_eqb key "cookie"
|}.
