(* ===== verification/ConfigLayers.v ===== *)
(** * Configuration layers

    [packages/config/src/layers/]: the seven layers and their order
    ([layer.ts]), the policy rules ([policy.ts]), the built-in document
    ([defaults.ts]) and the resolution of a set of documents into one
    configuration with its provenance and diagnostics ([merge.ts]). *)

From Stdlib Require Import Ascii SpecFloat.
From S2P Require Import Prelude Json CanonicalJson Report Normalize StateJson Redaction.

(** ** Layers *)

Inductive ConfigurationLayer :=
| built_in_defaults
| global_defaults
| codebase
| repository
| pipeline_template
| profile_or_stage
| invocation_override.

#[export] Instance ConfigurationLayer_eq_dec : EqDecision ConfigurationLayer.
Proof. solve_decision. Defined.

Definition layer_text (layer : ConfigurationLayer) : string :=
  match layer with
  | built_in_defaults => "built-in-defaults"
  | global_defaults => "global-defaults"
  | codebase => "codebase"
  | repository => "repository"
  | pipeline_template => "pipeline-template"
  | profile_or_stage => "profile-or-stage"
  | invocation_override => "invocation-override"
  end.

Definition CONFIGURATION_LAYERS : list ConfigurationLayer :=
  [built_in_defaults; global_defaults; codebase; repository; pipeline_template;
   profile_or_stage; invocation_override].

Definition INVOCATION_OVERRIDE_LAYER : ConfigurationLayer := invocation_override.

(** A value of a document before it is checked.  Documents built by a program
    need not be JSON: [undefined] is [UUndefined], and functions, symbols and
    big integers are [UOther] with the text [typeof] gives.  The own enumerable
    properties of an object are listed in their order. *)
Inductive Unknown :=
| UUndefined
| UOther (typeof : string)
| UScalar (s : JsonScalar)
| UArray (items : list Unknown)
| UObject (fields : list (string * Unknown)).

(** [ConfigurationLayerDocument], before ([Unknown]) and after ([JsonValue]) the
    values are sanitized. *)
Record LayerDocument (V : Type) := {
  cd_layer : ConfigurationLayer;
  cd_sourcePath : option string;
  cd_values : V
}.
Arguments cd_layer {V}.
Arguments cd_sourcePath {V}.
Arguments cd_values {V}.

Definition ConfigurationLayerDocument : Type := LayerDocument Unknown.

(** The position in [CONFIGURATION_LAYERS]. *)
Definition configurationLayerRank (layer : ConfigurationLayer) : nat :=
  match layer with
  | built_in_defaults => 0
  | global_defaults => 1
  | codebase => 2
  | repository => 3
  | pipeline_template => 4
  | profile_or_stage => 5
  | invocation_override => 6
  end.

Definition layer_lt {V} (a b : LayerDocument V) : bool :=
  (configurationLayerRank (cd_layer a) <? configurationLayerRank (cd_layer b))%nat.

Definition sortConfigurationDocuments (documents : list ConfigurationLayerDocument)
    : list ConfigurationLayerDocument :=
  sort_by layer_lt documents.

(** ** Policy *)

Inductive Strictest := lower | higher.

Inductive ConfigurationRule :=
| hard_limit (pointer : string) (strictest : Strictest)
| ordered_privacy (pointer : string) (strictestFirst : list JsonScalar)
| overridable (pointer : string).

Definition ConfigurationPolicy : Type := list ConfigurationRule.

Record IndexedConfigurationPolicy := {
  ip_hardLimits : list (string * Strictest);
  ip_privacy : list (string * list JsonScalar);
  ip_overridable : list string
}.

Definition indexRule (index : IndexedConfigurationPolicy) (rule : ConfigurationRule)
    : IndexedConfigurationPolicy :=
  match rule with
  | hard_limit pointer strictest =>
      {| ip_hardLimits := map_set (ip_hardLimits index) pointer strictest;
         ip_privacy := ip_privacy index; ip_overridable := ip_overridable index |}
  | ordered_privacy pointer strictestFirst =>
      {| ip_hardLimits := ip_hardLimits index;
         ip_privacy := map_set (ip_privacy index) pointer strictestFirst;
         ip_overridable := ip_overridable index |}
  | overridable pointer =>
      {| ip_hardLimits := ip_hardLimits index; ip_privacy := ip_privacy index;
         ip_overridable := set_add (ip_overridable index) pointer |}
  end.

Definition indexConfigurationPolicy (policy : ConfigurationPolicy) : IndexedConfigurationPolicy :=
  fold_left indexRule policy {| ip_hardLimits := []; ip_privacy := []; ip_overridable := [] |}.

(** [hardLimitMagnitude]: a finite number, or a duration in milliseconds as a
    double.  [Normalize.hardLimitMagnitude] is the same function on the
    durations of pipeline documents, where the product is exact. *)
Definition limitMagnitude (value : JsonValue) : option number :=
  match value with
  | JScalar (SNumber n) => if num_isFinite n then Some n else None
  | JScalar (SString text) =>
      let '(digits, unit) := takeDigits text in
      match digits, DURATION_UNIT_MS unit with
      | EmptyString, _ | _, None => None
      | _, Some ms =>
          let amount := numberOfText digits in
          if num_isFinite amount then Some (SFmul 53 1024 amount (num_of_Z ms)) else None
      end
  | _ => None
  end.

(** [===] on primitives: [NaN] differs from itself, [-0] is [0]. *)
Definition strict_equal (a b : JsonScalar) : bool :=
  match a, b with
  | SNumber x, SNumber y => SFeqb x y
  | SString s, SString t => str_eqb s t
  | SBoolean x, SBoolean y => Bool.eqb x y
  | SNull, SNull => true
  | _, _ => false
  end.

(** [strictestFirst.rankOf(value)]. *)
Fixpoint rankOf (value : JsonScalar) (values : list JsonScalar) : option nat :=
  match values with
  | [] => None
  | x :: rest => if strict_equal x value then Some 0%nat else S <$> rankOf value rest
  end.

Definition privacyRank (value : JsonValue) (strictestFirst : list JsonScalar) : option nat :=
  match value with
  | JScalar s => rankOf s strictestFirst
  | _ => None
  end.

Definition HENIEK_BUILT_IN_CONFIGURATION_POLICY : ConfigurationPolicy :=
  [ hard_limit "/limits/max_pipeline_duration" lower;
    hard_limit "/limits/max_concurrent_workers" lower;
    hard_limit "/limits/max_repair_attempts" lower;
    hard_limit "/limits/max_graph_revisions" lower;
    ordered_privacy "/privacy/mode" [SString "confidential"; SString "internal"; SString "open"];
    ordered_privacy "/privacy/telemetry" [SString "off"; SString "anonymous"];
    ordered_privacy "/privacy/crash_reports" [SString "local"; SString "upload"];
    ordered_privacy "/privacy/include_repository_content" [SBoolean false; SBoolean true];
    ordered_privacy "/privacy/include_prompts" [SBoolean false; SBoolean true];
    ordered_privacy "/privacy/include_paths" [SBoolean false; SBoolean true];
    ordered_privacy "/privacy/diagnostics_export" [SString "explicit"; SString "automatic"];
    overridable "/limits/max_pipeline_duration";
    overridable "/limits/max_concurrent_workers";
    overridable "/limits/max_repair_attempts";
    overridable "/limits/max_graph_revisions" ].

(** ** The built-in document *)

Definition HENIEK_BUILT_IN_PRIVACY_DEFAULTS : list (string * Unknown) :=
  [ ("mode", UScalar (SString "confidential"));
    ("telemetry", UScalar (SString "off"));
    ("crash_reports", UScalar (SString "local"));
    ("include_repository_content", UScalar (SBoolean false));
    ("include_prompts", UScalar (SBoolean false));
    ("include_paths", UScalar (SBoolean false));
    ("diagnostics_export", UScalar (SString "explicit")) ].

Definition HENIEK_BUILT_IN_LIMIT_DEFAULTS : list (string * Unknown) :=
  [ ("max_pipeline_duration", UScalar (SString "4h"));
    ("max_concurrent_workers", UScalar (SNumber (num_of_Z 4)));
    ("max_repair_attempts", UScalar (SNumber (num_of_Z 3)));
    ("max_graph_revisions", UScalar (SNumber (num_of_Z 5))) ].

Definition HENIEK_BUILT_IN_DEFAULT_VALUES : list (string * Unknown) :=
  [ ("limits", UObject HENIEK_BUILT_IN_LIMIT_DEFAULTS);
    ("privacy", UObject HENIEK_BUILT_IN_PRIVACY_DEFAULTS) ].

Definition HENIEK_BUILT_IN_DEFAULTS : ConfigurationLayerDocument :=
  {| cd_layer := built_in_defaults; cd_sourcePath := None;
     cd_values := UObject HENIEK_BUILT_IN_DEFAULT_VALUES |}.

(** ** Diagnostics

    A [Diagnostic] of [config/src/diagnostics.ts] is a [PipelineDiagnostic]
    without a suggestion. *)

Definition Diagnostic : Type := PipelineDiagnostic.

Definition createDiagnostic (code : string) (severity : DiagnosticSeverity) (message : string)
    (sourcePath : option string) (line column : option Z) (pointer : option string) : Diagnostic :=
  {| pd_code := code; pd_severity := severity; pd_message := message;
     pd_sourcePath := sourcePath; pd_line := line; pd_column := column;
     pd_pointer := pointer; pd_suggestion := None |}.

(** Resolution gives its diagnostics a source and a pointer, never a position. *)
Definition diagnosticAt (code : string) (severity : DiagnosticSeverity) (message : string)
    (sourcePath pointer : option string) : Diagnostic :=
  createDiagnostic code severity message sourcePath None None pointer.

Definition sortDiagnostics (diagnostics : list Diagnostic) : list Diagnostic :=
  sort_by (fun a b => (compareDiagnostics a b <? 0)%Z) diagnostics.

(** ** Merging *)

Definition isPlainObject (value : JsonValue) : bool :=
  match value with JObject _ => true | _ => false end.

Fixpoint mergeJsonValue (base : option JsonValue) (incoming : JsonValue) : JsonValue :=
  match incoming, base with
  | JObject fields, Some (JObject baseFields) =>
      JObject
        (fold_left
           (fun merged f => assign merged (fst f) (mergeJsonValue (map_get merged (fst f)) (snd f)))
           fields
           (fold_left (fun merged f => assign merged (fst f) (snd f)) baseFields []))
  | _, _ => incoming
  end.

Definition pathToPointer (path : list string) : string := fold_left joinPointer path "".

Fixpoint collectLeafPaths (value : JsonValue) (path : list string) : list (list string) :=
  match value with
  | JObject fields => flat_map (fun f => collectLeafPaths (snd f) (path ++ [fst f])) fields
  | _ => [path]
  end.

Fixpoint lookupPath (document : JsonValue) (path : list string) : option JsonValue :=
  match path with
  | [] => Some document
  | segment :: rest =>
      match document with
      | JObject fields =>
          match map_get fields segment with
          | Some child => lookupPath child rest
          | None => None
          end
      | _ => None
      end
  end.

Fixpoint jsonEquals (a b : JsonValue) : bool :=
  match a, b with
  | JScalar x, JScalar y => strict_equal x y
  | JArray xs, JArray ys =>
      (fix every (xs ys : list JsonValue) : bool :=
         match xs, ys with
         | [], [] => true
         | x :: xs', y :: ys' => jsonEquals x y && every xs' ys'
         | _, _ => false
         end) xs ys
  | JObject fs, JObject gs =>
      (length fs =? length gs)%nat &&
      forallb (fun f => match map_get gs (fst f) with
                        | Some w => jsonEquals (snd f) w
                        | None => false
                        end) fs
  | _, _ => false
  end.

(** Entries of a pointer's chain, [ConfigurationProvenanceEntry]. *)
Record ProvenanceEntry := {
  pe_layer : ConfigurationLayer;
  pe_sourcePath : option string;
  pe_value : JsonValue
}.

Record ConfigurationProvenance := {
  pr_pointer : string;
  pr_winner : ProvenanceEntry;
  pr_overridden : list ProvenanceEntry
}.

Record ResolvedConfiguration := {
  rc_layers : list ConfigurationLayer;
  rc_values : JsonValue;
  rc_provenance : list ConfigurationProvenance;
  rc_diagnostics : list Diagnostic
}.

Definition describeSource (entry : ProvenanceEntry) : string :=
  match pe_sourcePath entry with
  | None => layer_text (pe_layer entry)
  | Some path => layer_text (pe_layer entry) +:+ " (" +:+ path +:+ ")"
  end.

Definition entryOf (document : LayerDocument JsonValue) (value : JsonValue) : ProvenanceEntry :=
  {| pe_layer := cd_layer document; pe_sourcePath := cd_sourcePath document; pe_value := value |}.

Inductive LeafEdit := edit_set (value : JsonValue) | edit_delete.

(** [None] is [REMOVED]. *)
Fixpoint applyEdits (value : JsonValue) (path : list string) (edits : list (string * LeafEdit))
    : option JsonValue :=
  match value with
  | JObject fields =>
      Some (JObject
        (fold_left
           (fun rebuilt f =>
              match applyEdits (snd f) (path ++ [fst f]) edits with
              | Some child => assign rebuilt (fst f) child
              | None => rebuilt
              end)
           fields []))
  | _ =>
      match map_get edits (pathToPointer path) with
      | None => Some value
      | Some edit_delete => None
      | Some (edit_set edited) => Some edited
      end
  end.

(** ** One pointer *)

Section Resolution.
Context `{Patterns}.

Definition describeValue (value : JsonValue) : string := json_stringify (redactJson value).

Record ChainResolution := {
  cr_winner : ProvenanceEntry;
  cr_overridden : list ProvenanceEntry;
  cr_diagnostics : list Diagnostic
}.

(** The loop both policy rules run over a chain: [best] is the index and the
    measure of the strictest entry so far; entries without a measure are
    skipped. *)
Fixpoint scanStrictest {M} (measure : JsonValue -> option M) (stricter : M -> M -> bool)
    (index : nat) (best : option (nat * M)) (chain : list ProvenanceEntry) : option (nat * M) :=
  match chain with
  | [] => best
  | entry :: rest =>
      let best' :=
        match measure (pe_value entry) with
        | None => best
        | Some m =>
            match best with
            | None => Some (index, m)
            | Some (_, strictest) => if stricter m strictest then Some (index, m) else best
            end
        end in
      scanStrictest measure stricter (S index) best' rest
  end.

Definition limitStricter (strictest : Strictest) (m n : number) : bool :=
  match strictest with lower => num_lt m n | higher => num_lt n m end.

Definition hardLimitIncomparable (pointer : string) (entry : ProvenanceEntry) : Diagnostic :=
  diagnosticAt "configuration.hard-limit-incomparable" sev_warning
    ("Hard limit " +:+ pointer +:+ " has value " +:+ describeValue (pe_value entry) +:+ " from " +:+
     describeSource entry +:+
     ", which is neither a number nor a duration; it was ignored rather than compared.")
    (pe_sourcePath entry) (Some pointer).

Definition hardLimitClamped (pointer : string) (strictest last : ProvenanceEntry) : Diagnostic :=
  diagnosticAt "configuration.hard-limit-clamped" sev_warning
    ("Hard limit " +:+ pointer +:+ " kept at " +:+ describeValue (pe_value strictest) +:+ " from " +:+
     describeSource strictest +:+ "; " +:+ describeSource last +:+ " attempted to relax it to " +:+
     describeValue (pe_value last) +:+ ".")
    (pe_sourcePath last) (Some pointer).

Definition privacyIncomparable (pointer : string) (entry : ProvenanceEntry) : Diagnostic :=
  diagnosticAt "configuration.privacy-incomparable" sev_warning
    ("Privacy setting " +:+ pointer +:+ " has value " +:+ describeValue (pe_value entry) +:+
     " from " +:+ describeSource entry +:+
     ", which is not one of this pointer's declared settings; it was ignored rather than compared.")
    (pe_sourcePath entry) (Some pointer).

Definition privacyWeakeningBlocked (pointer : string) (strictest last : ProvenanceEntry)
    : Diagnostic :=
  diagnosticAt "configuration.privacy-weakening-blocked" sev_error
    ("Privacy setting " +:+ pointer +:+ " kept at " +:+ describeValue (pe_value strictest) +:+
     " from " +:+ describeSource strictest +:+ "; " +:+ describeSource last +:+
     " attempted to weaken it to " +:+ describeValue (pe_value last) +:+ ".")
    (pe_sourcePath last) (Some pointer).

Definition valueOverridden (pointer : string) (winner entry : ProvenanceEntry) : Diagnostic :=
  diagnosticAt "configuration.value-overridden" sev_info
    (pointer +:+ ": " +:+ describeSource winner +:+ " sets " +:+ describeValue (pe_value winner) +:+
     ", overriding " +:+ describeValue (pe_value entry) +:+ " from " +:+ describeSource entry +:+ ".")
    (pe_sourcePath entry) (Some pointer).

(** One rule block of [resolveChain]: the new winner and the diagnostics. *)
Definition ruleBlock {M} (measure : JsonValue -> option M) (stricter : M -> M -> bool)
    (incomparable : ProvenanceEntry -> Diagnostic)
    (moved : ProvenanceEntry -> ProvenanceEntry -> Diagnostic)
    (chain : list ProvenanceEntry) (last : ProvenanceEntry) (winnerIndex : nat)
    : nat * list Diagnostic :=
  let skipped :=
    flat_map (fun entry => match measure (pe_value entry) with
                           | None => [incomparable entry]
                           | Some _ => []
                           end) chain in
  match scanStrictest measure stricter 0 None chain with
  | None => (winnerIndex, skipped)
  | Some (strictestIndex, _) =>
      if (strictestIndex =? winnerIndex)%nat then (winnerIndex, skipped)
      else
        (strictestIndex,
         skipped ++
         match measure (pe_value last) with
         | None => []
         | Some _ => [moved (default last (chain !! strictestIndex)) last]
         end)
  end.

(** [chain.filter((_, index) => index !== winnerIndex)]. *)
Definition others (chain : list ProvenanceEntry) (winnerIndex : nat) : list ProvenanceEntry :=
  take winnerIndex chain ++ drop (S winnerIndex) chain.

(** The chain is [first :: rest]: the caller has dealt with an empty one. *)
Definition resolveChain (pointer : string) (first : ProvenanceEntry) (rest : list ProvenanceEntry)
    (policy : IndexedConfigurationPolicy) : ChainResolution :=
  let chain := first :: rest in
  let lastIndex := length rest in
  let last := default first (chain !! lastIndex) in
  let '(winnerIndex, limitDiagnostics) :=
    match map_get (ip_hardLimits policy) pointer with
    | None => (lastIndex, [])
    | Some strictest =>
        ruleBlock limitMagnitude (limitStricter strictest) (hardLimitIncomparable pointer)
          (hardLimitClamped pointer) chain last lastIndex
    end in
  let '(winnerIndex, privacyDiagnostics) :=
    match map_get (ip_privacy policy) pointer with
    | None => (winnerIndex, [])
    | Some strictestFirst =>
        ruleBlock (fun v => privacyRank v strictestFirst) Nat.ltb (privacyIncomparable pointer)
          (privacyWeakeningBlocked pointer) chain last winnerIndex
    end in
  let winner := default last (chain !! winnerIndex) in
  let overridden := others chain winnerIndex in
  {| cr_winner := winner;
     cr_overridden := overridden;
     cr_diagnostics :=
       limitDiagnostics ++ privacyDiagnostics ++
       flat_map (fun entry => if negb (jsonEquals (pe_value entry) (pe_value winner))
                              then [valueOverridden pointer winner entry] else [])
         overridden |}.

(** ** Sanitizing *)

Fixpoint isJsonRepresentable (value : Unknown) : bool :=
  match value with
  | UUndefined | UOther _ => false
  | UScalar (SNumber n) => num_isFinite n
  | UScalar _ => true
  | UArray items => forallb isJsonRepresentable items
  | UObject fields => forallb (fun f => isJsonRepresentable (snd f)) fields
  end.

(** [value as JsonValue], for a value that is representable. *)
Fixpoint asJson (value : Unknown) : JsonValue :=
  match value with
  | UUndefined | UOther _ => JScalar SNull
  | UScalar s => JScalar s
  | UArray items => JArray (map asJson items)
  | UObject fields => JObject (map (fun f => (fst f, asJson (snd f))) fields)
  end.

(** [pointer || "(root)"]. *)
Definition or_root (pointer : string) : string :=
  if str_eqb pointer "" then "(root)" else pointer.

(** [ (path)], or nothing for a document built in memory. *)
Definition inSource (sourcePath : option string) : string :=
  match sourcePath with None => "" | Some path => " (" +:+ path +:+ ")" end.

Definition invalidValueDiagnostic (pointer : string) (document : ConfigurationLayerDocument)
    (reason : string) : Diagnostic :=
  diagnosticAt "configuration.invalid-value" sev_error
    ("Configuration value at " +:+ quoted (or_root pointer) +:+ " from layer " +:+
     quoted (layer_text (cd_layer document)) +:+ inSource (cd_sourcePath document) +:+ " " +:+
     reason +:+ "; it was ignored.")
    (cd_sourcePath document) (Some pointer).

(** The value, [None] for [REMOVED], and the diagnostics pushed. *)
Fixpoint sanitizeConfigurationValue (value : Unknown) (path : list string)
    (document : ConfigurationLayerDocument) : option JsonValue * list Diagnostic :=
  let pointer := pathToPointer path in
  match value with
  | UUndefined =>
      (None, [invalidValueDiagnostic pointer document
                "is undefined, which has no JSON representation"])
  | UScalar (SNumber n) =>
      if num_isFinite n then (Some (JScalar (SNumber n)), [])
      else (None, [invalidValueDiagnostic pointer document
                     ("is not a finite number (" +:+ number_text n +:+ ")")])
  | UScalar s => (Some (JScalar s), [])
  | UArray items =>
      if forallb isJsonRepresentable items then (Some (JArray (map asJson items)), [])
      else (None, [invalidValueDiagnostic pointer document
                     ("contains an undefined, non-finite, or otherwise non-JSON element — the " +:+
                      "whole array (arrays are replaced wholesale)")])
  | UObject fields =>
      let '(out, diagnostics) :=
        fold_left
          (fun acc f =>
             let '(sanitized, reported) :=
               sanitizeConfigurationValue (snd f) (path ++ [fst f]) document in
             (match sanitized with
              | Some v => assign (fst acc) (fst f) v
              | None => fst acc
              end, snd acc ++ reported))
          fields ([], []) in
      (Some (JObject out), diagnostics)
  | UOther typeof =>
      (None, [invalidValueDiagnostic pointer document
                ("has an unsupported type (" +:+ quoted typeof +:+ ")")])
  end.

Definition sanitizeDocument (document : ConfigurationLayerDocument)
    : LayerDocument JsonValue * list Diagnostic :=
  let '(sanitized, diagnostics) := sanitizeConfigurationValue (cd_values document) [] document in
  ({| cd_layer := cd_layer document; cd_sourcePath := cd_sourcePath document;
      cd_values := default (JObject []) sanitized |}, diagnostics).

(** ** Scalars shadowed by objects *)

(** A document that may take part at [pointer]. *)
Definition permitted (policy : IndexedConfigurationPolicy) (pointer : string)
    (document : LayerDocument JsonValue) : bool :=
  negb (bool_decide (cd_layer document = INVOCATION_OVERRIDE_LAYER)) ||
  set_has (ip_overridable policy) pointer.

(** The last permitted document with an object at [path]. *)
Definition winningLayer (policy : IndexedConfigurationPolicy) (path : list string)
    (documents : list (LayerDocument JsonValue)) : option ConfigurationLayer :=
  fold_left
    (fun winning document =>
       if permitted policy (pathToPointer path) document then
         match lookupPath (cd_values document) path with
         | Some (JObject _) => Some (cd_layer document)
         | _ => winning
         end
       else winning)
    documents None.

Definition shadowedDiagnostics (policy : IndexedConfigurationPolicy) (path : list string)
    (documents : list (LayerDocument JsonValue)) (winning : ConfigurationLayer)
    : list Diagnostic :=
  let pointer := pathToPointer path in
  flat_map
    (fun document =>
       if permitted policy pointer document then
         match lookupPath (cd_values document) path with
         | None | Some (JObject _) => []
         | Some value =>
             [diagnosticAt "configuration.value-overridden" sev_info
                (or_root pointer +:+ ": layer " +:+ quoted (layer_text winning) +:+
                 " sets an object here, structurally replacing " +:+ describeValue value +:+
                 " from layer " +:+ quoted (layer_text (cd_layer document)) +:+
                 inSource (cd_sourcePath document) +:+ ".")
                (cd_sourcePath document) (Some pointer)]
         end
       else [])
    documents.

Fixpoint collectShadowedByObjectDiagnostics (merged : JsonValue) (path : list string)
    (documents : list (LayerDocument JsonValue)) (policy : IndexedConfigurationPolicy)
    : list Diagnostic :=
  match merged with
  | JObject ((_ :: _) as fields) =>
      match winningLayer policy path documents with
      | Some winning => shadowedDiagnostics policy path documents winning
      | None => []
      end ++
      flat_map (fun f => collectShadowedByObjectDiagnostics (snd f) (path ++ [fst f]) documents policy)
        fields
  | _ => []
  end.

Definition hasBlockingDiagnostics (resolved : ResolvedConfiguration) : bool :=
  existsb (fun d => bool_decide (pd_severity d = sev_error)) (rc_diagnostics resolved).

(** ** [resolveConfiguration] *)

Definition overrideNotPermitted (pointer : string) (sourcePath : option string) (value : JsonValue)
    : Diagnostic :=
  diagnosticAt "configuration.override-not-permitted" sev_error
    (pointer +:+ " is not declared overridable, so the invocation override " +:+
     describeValue value +:+ " was dropped.")
    sourcePath (Some pointer).

(** The chain of a leaf, and a diagnostic for each override dropped from it. *)
Definition leafChain (policy : IndexedConfigurationPolicy) (path : list string)
    (documents : list (LayerDocument JsonValue)) : list ProvenanceEntry * list Diagnostic :=
  let pointer := pathToPointer path in
  fold_left
    (fun acc document =>
       match lookupPath (cd_values document) path with
       | None => acc
       | Some value =>
           if permitted policy pointer document
           then (fst acc ++ [entryOf document value], snd acc)
           else (fst acc, snd acc ++ [overrideNotPermitted pointer (cd_sourcePath document) value])
       end)
    documents ([], []).

(** The accumulators of the loop over the leaves. *)
Record LeafPass := {
  lp_diagnostics : list Diagnostic;
  lp_edits : list (string * LeafEdit);
  lp_provenance : list ConfigurationProvenance
}.

Definition resolveLeaf (policy : IndexedConfigurationPolicy)
    (documents : list (LayerDocument JsonValue)) (pass : LeafPass) (path : list string) : LeafPass :=
  let pointer := pathToPointer path in
  let '(chain, dropped) := leafChain policy path documents in
  match chain with
  | [] =>
      {| lp_diagnostics := lp_diagnostics pass ++ dropped;
         lp_edits := map_set (lp_edits pass) pointer edit_delete;
         lp_provenance := lp_provenance pass |}
  | first :: rest =>
      let resolution := resolveChain pointer first rest policy in
      {| lp_diagnostics := lp_diagnostics pass ++ dropped ++ cr_diagnostics resolution;
         lp_edits :=
           map_set (lp_edits pass) pointer (edit_set (pe_value (cr_winner resolution)));
         lp_provenance :=
           lp_provenance pass ++
           [{| pr_pointer := pointer; pr_winner := cr_winner resolution;
               pr_overridden := cr_overridden resolution |}] |}
  end.

(** The fold of the documents, from the empty object. *)
Definition mergeDocuments (documents : list (LayerDocument JsonValue)) : JsonValue :=
  fold_left (fun merged document => mergeJsonValue (Some merged) (cd_values document))
    documents (JObject []).

(** The resolution of sanitized documents in the order of their layers, given
    the diagnostics of sanitizing them. *)
Definition resolveSanitized (documents : list (LayerDocument JsonValue))
    (diagnostics : list Diagnostic) (policy : IndexedConfigurationPolicy)
    : ResolvedConfiguration :=
  let merged := mergeDocuments documents in
  let pass :=
    fold_left (resolveLeaf policy documents) (collectLeafPaths merged [])
      {| lp_diagnostics := diagnostics; lp_edits := []; lp_provenance := [] |} in
  {| rc_layers :=
       List.filter (fun layer => bool_decide (layer ∈ map cd_layer documents)) CONFIGURATION_LAYERS;
     rc_values := default (JObject []) (applyEdits merged [] (lp_edits pass));
     rc_provenance := sort_key pr_pointer (lp_provenance pass);
     rc_diagnostics :=
       sortDiagnostics
         (lp_diagnostics pass ++ collectShadowedByObjectDiagnostics merged [] documents policy) |}.

Definition sanitizeDocuments (documents : list ConfigurationLayerDocument)
    : list (LayerDocument JsonValue) * list Diagnostic :=
  let sanitized := map sanitizeDocument (sortConfigurationDocuments documents) in
  (map fst sanitized, concat (map snd sanitized)).

Definition resolveConfiguration (documents : list ConfigurationLayerDocument)
    (policy : option ConfigurationPolicy) : ResolvedConfiguration :=
  let '(sanitized, diagnostics) := sanitizeDocuments documents in
  resolveSanitized sanitized diagnostics (indexConfigurationPolicy (default [] policy)).

(** ** Rendering ([render.ts]) *)

(** [...(value !== undefined ? { key: value } : {})]. *)
Definition optionalField (key : string) (value : option JsonValue) : list (string * JsonValue) :=
  match value with Some v => [(key, v)] | None => [] end.

Definition jsonText (s : string) : JsonValue := JScalar (SString s).

Definition severity_text (severity : DiagnosticSeverity) : string :=
  match severity with sev_error => "error" | sev_warning => "warning" | sev_info => "info" end.

Definition diagnosticToJson (diagnostic : Diagnostic) : JsonValue :=
  JObject
    ([("code", jsonText (pd_code diagnostic));
      ("severity", jsonText (severity_text (pd_severity diagnostic)));
      ("message", jsonText (pd_message diagnostic))] ++
     optionalField "sourcePath" (jsonText <$> pd_sourcePath diagnostic) ++
     optionalField "line" ((fun n => JScalar (SNumber (num_of_Z n))) <$> pd_line diagnostic) ++
     optionalField "column" ((fun n => JScalar (SNumber (num_of_Z n))) <$> pd_column diagnostic) ++
     optionalField "pointer" (jsonText <$> pd_pointer diagnostic)).

Definition overriddenToJson (entry : ProvenanceEntry) : JsonValue :=
  JObject
    ([("layer", jsonText (layer_text (pe_layer entry)))] ++
     optionalField "sourcePath" (jsonText <$> pe_sourcePath entry) ++
     [("value", redactJson (pe_value entry))]).

Definition recordToJson (record : ConfigurationProvenance) : JsonValue :=
  JObject
    ([("pointer", jsonText (pr_pointer record));
      ("layer", jsonText (layer_text (pe_layer (pr_winner record))))] ++
     optionalField "sourcePath" (jsonText <$> pe_sourcePath (pr_winner record)) ++
     [("value", redactJson (pe_value (pr_winner record)));
      ("overridden", JArray (map overriddenToJson (pr_overridden record)))]).

Definition toResolvedConfigurationSnapshot (resolved : ResolvedConfiguration) : JsonValue :=
  JObject
    [("layers", JArray (map (fun layer => jsonText (layer_text layer)) (rc_layers resolved)));
     ("values", redactJson (rc_values resolved));
     ("provenance", JArray (map recordToJson (rc_provenance resolved)));
     ("diagnostics", JArray (map diagnosticToJson (rc_diagnostics resolved)))].

(** [None] is the exception of the serializer. *)
Definition renderResolvedConfigurationSnapshot (resolved : ResolvedConfiguration) : option string :=
  canonicalJsonStringify (toResolvedConfigurationSnapshot resolved).

Definition renderValue (value : JsonValue) : string := json_stringify (redactJson value).

Definition renderSource (layer : ConfigurationLayer) (sourcePath : option string) : string :=
  match sourcePath with
  | None => layer_text layer
  | Some path => layer_text layer +:+ " (" +:+ path +:+ ")"
  end.

(** [text.padEnd(width)]. *)
Definition padEnd (text : string) (width : nat) : string :=
  text +:+ repeat_text " " (width - String.length text).

Definition provenanceLines (pointerWidth : nat) (record : ConfigurationProvenance) : list string :=
  ("  " +:+ padEnd (pr_pointer record) pointerWidth +:+ "  " +:+
   renderValue (pe_value (pr_winner record)) +:+ "  [" +:+
   renderSource (pe_layer (pr_winner record)) (pe_sourcePath (pr_winner record)) +:+ "]") ::
  map (fun entry =>
         "  " +:+ repeat_text " " pointerWidth +:+ "    overrode " +:+
         renderValue (pe_value entry) +:+ " [" +:+
         renderSource (pe_layer entry) (pe_sourcePath entry) +:+ "]")
    (pr_overridden record).

Definition renderConfigurationDiagnostics (resolved : ResolvedConfiguration) : string :=
  let values :=
    match rc_provenance resolved with
    | [] => ["(no configuration values)"]
    | records =>
        let pointerWidth :=
          foldr Nat.max 0%nat (map (fun record => String.length (pr_pointer record)) records) in
        "Resolved configuration:" :: flat_map (provenanceLines pointerWidth) records
    end in
  let reports :=
    match rc_diagnostics resolved with
    | [] => []
    | diagnostics =>
        [""; "Diagnostics:"] ++
        map (fun d => "  " +:+ severity_text (pd_severity d) +:+ "  " +:+ pd_code d +:+ "  " +:+
                      pd_message d) diagnostics
    end in
  js_join newline (values ++ reports) +:+ newline.
End Resolution.
