(* ===== verification/ConfigMerge.v ===== *)
(** * Merging documents

    What a path of the merged document holds, which paths are leaves, and how
    JSON pointers name paths. *)

From Stdlib Require Import Ascii SpecFloat.
From S2P Require Import Prelude Ids Json CanonicalJson JsonProps Writers Report Normalize StateJson.
From S2P Require Import StateJsonProps PayloadCanon Redaction ConfigLayers.

(** ** Objects built by assignment *)

Lemma assign_NoDup fields k v : NoDup (map fst fields) -> NoDup (map fst (assign fields k v)).
Proof. intros H. unfold assign. rewrite own_order_perm. by apply map_set_NoDup. Qed.

Lemma get_assign fields k v k' :
  NoDup (map fst fields) ->
  map_get (assign fields k v) k' = if str_eqb k' k then Some v else map_get fields k'.
Proof.
  intros H. rewrite <-map_get_set. unfold assign.
  apply map_get_perm; [|apply own_order_perm]. by apply assign_NoDup.
Qed.

Section Build.
Context {A : Type} (h : string -> option JsonValue -> A -> option JsonValue).

(** One turn of a loop that assigns what [h] makes of an entry, if anything. *)
Definition assign_step (m : list (string * JsonValue)) (f : string * A) : list (string * JsonValue) :=
  match h (fst f) (map_get m (fst f)) (snd f) with
  | Some v => assign m (fst f) v
  | None => m
  end.

Lemma build_NoDup fields m :
  NoDup (map fst m) -> NoDup (map fst (fold_left assign_step fields m)).
Proof.
  revert m. induction fields as [|f fields IH]; intros m Hm; simpl; [done|]. apply IH.
  unfold assign_step. destruct (h _ _ _); [by apply assign_NoDup|done].
Qed.

Lemma build_get fields m k :
  NoDup (map fst fields) -> NoDup (map fst m) ->
  map_get (fold_left assign_step fields m) k =
  match map_get fields k with
  | Some a => match h k (map_get m k) a with Some v => Some v | None => map_get m k end
  | None => map_get m k
  end.
Proof.
  revert m. induction fields as [|[k0 a] fields IH]; intros m Hf Hm; simpl; [done|].
  apply NoDup_cons in Hf as [Hk0 Hf]. simpl in Hk0.
  assert (NoDup (map fst (assign_step m (k0, a)))) as Hm'.
  { unfold assign_step. destruct (h _ _ _); [by apply assign_NoDup|done]. }
  rewrite IH by done. unfold assign_step. simpl.
  destruct (str_eqb k k0) eqn:E.
  - apply str_eqb_true in E as ->. apply map_get_None in Hk0. rewrite Hk0.
    destruct (h k0 (map_get m k0) a); [|done]. by rewrite get_assign, str_eqb_refl.
  - destruct (h k0 (map_get m k0) a); [|done]. by rewrite get_assign, E.
Qed.

(** Every value of the result was there before or was made by [h]. *)
Lemma build_values (P : JsonValue -> Prop) fields m :
  NoDup (map fst m) ->
  (forall k v, map_get m k = Some v -> P v) ->
  (forall k o a v, (k, a) ∈ fields -> (forall w, o = Some w -> P w) -> h k o a = Some v -> P v) ->
  forall k v, map_get (fold_left assign_step fields m) k = Some v -> P v.
Proof.
  revert m. induction fields as [|[k0 a] fields IH]; intros m Hnd Hm Hh; simpl; [done|].
  assert (forall k v, map_get (assign_step m (k0, a)) k = Some v -> P v) as Hm'.
  { unfold assign_step. simpl. destruct (h k0 (map_get m k0) a) as [v0|] eqn:E; [|done].
    intros k v. rewrite get_assign by done. destruct (str_eqb k k0); [|apply Hm].
    intros [= <-]. eapply Hh; [by left| |exact E]. intros w. apply Hm. }
  apply IH; [|done|].
  - unfold assign_step. destruct (h _ _ _); [by apply assign_NoDup|done].
  - intros k o a' v Hin. apply (Hh k o a' v). by right.
Qed.
End Build.

(** ** Values whose objects do not repeat a key

    Arrays are atomic: nothing looks inside them. *)

Fixpoint tidy (value : JsonValue) : Prop :=
  match value with
  | JObject fields => NoDup (map fst fields) /\ foldr (fun f P => tidy (snd f) /\ P) True fields
  | _ => True
  end.

Lemma tidy_object fields :
  tidy (JObject fields) <->
  NoDup (map fst fields) /\ forall k v, map_get fields k = Some v -> tidy v.
Proof.
  simpl. rewrite (foldr_and (fun f => tidy (snd f))). split; intros [Hnd H]; split; [done| |done|].
  - intros k v Hk%map_get_elem. by apply (H (k, v)).
  - intros [k v] Hin. apply (H k). by apply elem_map_get.
Qed.

Lemma tidy_lookup v p w : tidy v -> lookupPath v p = Some w -> tidy w.
Proof.
  revert v. induction p as [|k p IH]; intros v Hv; simpl; [by intros [= <-]|].
  destruct v as [| |fields]; try done. destruct (map_get fields k) as [c|] eqn:E; [|done].
  apply IH. apply tidy_object in Hv as [_ Hv]. by eapply Hv.
Qed.

(** ** Merging *)

(** The loop over the entries of the incoming object. *)
Definition merge_entry (_ : string) (base : option JsonValue) (incoming : JsonValue)
    : option JsonValue := Some (mergeJsonValue base incoming).

Definition copy_entry (_ : string) (_ : option JsonValue) (value : JsonValue) : option JsonValue :=
  Some value.

Definition merge_fields (base incoming : list (string * JsonValue)) : list (string * JsonValue) :=
  fold_left (assign_step merge_entry) incoming (fold_left (assign_step copy_entry) base []).

Lemma merge_objects base incoming :
  mergeJsonValue (Some (JObject base)) (JObject incoming) = JObject (merge_fields base incoming).
Proof. done. Qed.

Lemma merge_None v : mergeJsonValue None v = v.
Proof. by destruct v. Qed.

Lemma merge_leaf base v : isPlainObject v = false -> mergeJsonValue base v = v.
Proof. by destruct v. Qed.

Lemma copy_NoDup fields : NoDup (map fst (fold_left (assign_step copy_entry) fields [])).
Proof. apply build_NoDup. constructor. Qed.

Lemma copy_get fields k :
  NoDup (map fst fields) -> map_get (fold_left (assign_step copy_entry) fields []) k = map_get fields k.
Proof.
  intros H. rewrite build_get by (done || constructor). simpl. by destruct (map_get fields k).
Qed.

Lemma merge_NoDup base incoming : NoDup (map fst (merge_fields base incoming)).
Proof. apply build_NoDup, copy_NoDup. Qed.

Lemma merge_get base incoming k :
  NoDup (map fst base) -> NoDup (map fst incoming) ->
  map_get (merge_fields base incoming) k =
  match map_get incoming k with
  | Some v => Some (mergeJsonValue (map_get base k) v)
  | None => map_get base k
  end.
Proof.
  intros Hb Hi. unfold merge_fields. rewrite build_get by (done || apply copy_NoDup).
  by rewrite copy_get.
Qed.

Lemma merge_tidy base v :
  (forall b, base = Some b -> tidy b) -> tidy v -> tidy (mergeJsonValue base v).
Proof.
  revert base. induction v as [s|items _|fields IH] using json_ind'; intros base Hb Hv; try done.
  destruct base as [[| |b]|]; try done. rewrite merge_objects.
  specialize (Hb _ eq_refl). apply tidy_object in Hb as [Hbn Hb]. apply tidy_object in Hv as [Hn Hv].
  apply tidy_object. split; [apply merge_NoDup|]. intros k w. rewrite merge_get by done.
  destruct (map_get fields k) as [v|] eqn:E; [|apply Hb]. intros [= <-].
  rewrite Forall_forall in IH. apply (IH (k, v)); [by apply map_get_elem|..]; [|by eapply Hv].
  intros b'. apply Hb.
Qed.

(** A value that is no object stands above [path]. *)
Fixpoint blocked (value : JsonValue) (path : list string) : bool :=
  match path with
  | [] => false
  | segment :: rest =>
      match value with
      | JObject fields =>
          match map_get fields segment with Some child => blocked child rest | None => false end
      | _ => true
      end
  end.

Definition merge_at (base : option JsonValue) (incoming : JsonValue) (path : list string)
    : option JsonValue :=
  match lookupPath incoming path with
  | Some v => Some (mergeJsonValue base v)
  | None => if blocked incoming path then None else base
  end.

Lemma lookup_merge b i p :
  tidy b -> tidy i ->
  lookupPath (mergeJsonValue (Some b) i) p = merge_at (lookupPath b p) i p.
Proof.
  unfold merge_at. revert b i. induction p as [|k p IH]; intros b i Hb Hi; [done|].
  destruct i as [s|l|fields]; [done..|].
  destruct b as [s|l|base]; [simpl; destruct (map_get fields k) as [v|]; [|done]..|].
  1,2: destruct (lookupPath v p); [by rewrite merge_None|]; by destruct (blocked v p).
  rewrite merge_objects. apply tidy_object in Hb as [Hbn Hb]. apply tidy_object in Hi as [Hn Hi].
  cbn [lookupPath blocked]. rewrite merge_get by done.
  destruct (map_get fields k) as [v|] eqn:Ev; [|by destruct (map_get base k)].
  destruct (map_get base k) as [w|] eqn:Ew; [apply IH; eauto|].
  rewrite merge_None. destruct (lookupPath v p); [by rewrite merge_None|].
  by destruct (blocked v p).
Qed.

(** ** Leaves *)

Lemma elem_of_leaves v path q :
  tidy v ->
  q ∈ collectLeafPaths v path <->
  exists p w, q = path ++ p /\ lookupPath v p = Some w /\ isPlainObject w = false.
Proof.
  revert path q. induction v as [s|items _|fields IH] using json_ind'; intros path q Hv.
  1,2: cbn [collectLeafPaths]; rewrite list_elem_of_singleton; split;
    [intros ->; exists []; eexists; split; [by rewrite app_nil_r|done]
    |intros ([|k p] & w & -> & Hw & _); [by rewrite app_nil_r|done]].
  cbn [collectLeafPaths]. rewrite list_elem_of_In, in_flat_map. rewrite Forall_forall in IH.
  apply tidy_object in Hv as [Hn Hv]. split.
  - intros ([k v] & Hin%list_elem_of_In & Hq%list_elem_of_In).
    pose proof (elem_map_get _ _ _ Hn Hin) as Hk.
    apply (IH _ Hin) in Hq as (p & w & -> & Hw & Hl); [|by eapply Hv].
    exists (k :: p), w. simpl. rewrite Hk. by rewrite <-app_assoc.
  - intros ([|k p] & w & -> & Hw & Hl); simpl in Hw; [by injection Hw as <-|].
    destruct (map_get fields k) as [v|] eqn:Hk; [|done]. pose proof (map_get_elem _ _ _ Hk) as Hin.
    exists (k, v). split; [by apply list_elem_of_In|]. apply list_elem_of_In, (IH _ Hin); [by eapply Hv|].
    exists p, w. simpl. by rewrite <-app_assoc.
Qed.

Lemma leaf_paths v p :
  tidy v ->
  p ∈ collectLeafPaths v [] <-> exists w, lookupPath v p = Some w /\ isPlainObject w = false.
Proof.
  intros Hv. rewrite elem_of_leaves by done. split.
  - intros (p' & w & -> & H). by exists w.
  - intros (w & H). by exists p, w.
Qed.

Lemma leaves_flat_NoDup {A B} (f : A -> list B) l :
  NoDup l -> (forall x, x ∈ l -> NoDup (f x)) ->
  (forall x y z, x ∈ l -> y ∈ l -> z ∈ f x -> z ∈ f y -> x = y) -> NoDup (flat_map f l).
Proof.
  induction 1 as [|x l Hx Hl IH]; intros Hf Hd; simpl; [constructor|].
  apply NoDup_app. split_and!; [apply Hf; by left| |].
  - intros z Hz (y & Hy%list_elem_of_In & Hzy%list_elem_of_In)%list_elem_of_In%in_flat_map.
    destruct Hx. by rewrite (Hd x y z) by (done || by left || by right).
  - apply IH; [intros y Hy; apply Hf; by right|]. intros y y' z Hy Hy'. apply Hd; by right.
Qed.

Lemma leaves_NoDup v path : tidy v -> NoDup (collectLeafPaths v path).
Proof.
  revert path. induction v as [s|items _|fields IH] using json_ind'; intros path Hv;
    [apply NoDup_singleton..|].
  cbn [collectLeafPaths]. rewrite Forall_forall in IH. apply tidy_object in Hv as [Hn Hv].
  assert (forall f, f ∈ fields -> tidy (snd f)) as Ht.
  { intros [k v] Hin. by eapply Hv, elem_map_get. }
  apply leaves_flat_NoDup; [by eapply NoDup_fmap_1|by auto|].
  intros f g q Hf Hg Hq Hq'.
  apply elem_of_leaves in Hq as (p & w & -> & _); [|by apply Ht].
  apply elem_of_leaves in Hq' as (p' & w' & Heq & _); [|by apply Ht].
  rewrite <-!app_assoc in Heq. apply app_inv_head in Heq. injection Heq as Heq _.
  by eapply (NoDup_map_inj fst).
Qed.

(** ** Pointers name paths *)

Fixpoint pointer_tail (path : list string) : string :=
  match path with
  | [] => ""
  | segment :: rest => "/" +:+ escapePointerSegment segment +:+ pointer_tail rest
  end.

Lemma pathToPointer_tail path : pathToPointer path = pointer_tail path.
Proof.
  unfold pathToPointer. change (pointer_tail path) with ("" +:+ pointer_tail path).
  generalize "". induction path as [|k path IH]; intros s; simpl; [by rewrite str_app_nil_end|].
  rewrite IH. unfold joinPointer. by rewrite !str_app_assoc.
Qed.

Lemma escape_char_cases c :
  (c = "~"%char /\ escape_char c = "~0") \/ (c = "/"%char /\ escape_char c = "~1") \/
  (c <> "~"%char /\ c <> "/"%char /\ escape_char c = String c "").
Proof. unfold escape_char. repeat case_bool_decide; auto. Qed.

(** What follows an escaped segment: nothing or the next segment. *)
Definition segment_end (u : string) : Prop := u = "" \/ exists v, u = String "/"%char v.

Lemma pointer_tail_end path : segment_end (pointer_tail path).
Proof. destruct path; [by left|right; by eexists]. Qed.

Lemma escape_inj s t u v :
  segment_end u -> segment_end v ->
  escapePointerSegment s +:+ u = escapePointerSegment t +:+ v -> s = t /\ u = v.
Proof.
  revert t. induction s as [|c s IH]; intros [|d t] Hu Hv; simpl; rewrite ?str_app_assoc; [done|..].
  - intros H. exfalso.
    destruct (escape_char_cases d) as [(-> & E)|[(-> & E)|(_ & Hd & E)]]; rewrite E in H;
      destruct Hu as [->|[u' ->]]; rewrite ?str_app_cons, ?str_app_nil in H; congruence.
  - intros H. exfalso.
    destruct (escape_char_cases c) as [(-> & E)|[(-> & E)|(_ & Hd & E)]]; rewrite E in H;
      destruct Hv as [->|[v' ->]]; rewrite ?str_app_cons, ?str_app_nil in H; congruence.
  - intros H.
    destruct (escape_char_cases c) as [(-> & E)|[(-> & E)|(Hc & Hc' & E)]];
      destruct (escape_char_cases d) as [(-> & E')|[(-> & E')|(Hd & Hd' & E')]];
      rewrite ?E, ?E', ?str_app_cons, ?str_app_nil in H; try congruence;
      injection H as H; subst; by destruct (IH t Hu Hv) as [-> ->].
Qed.

#[export] Instance pathToPointer_inj : Inj (=) (=) pathToPointer.
Proof.
  intros p. setoid_rewrite pathToPointer_tail. induction p as [|k p IH]; intros [|k' p']; simpl; try done.
  rewrite !str_app_cons, !str_app_nil. intros H. injection H as H. apply escape_inj in H as [-> H]; [|apply pointer_tail_end..].
  f_equal. by apply IH.
Qed.

(** ** Edits *)

(** The loop of [applyEdits] over the entries of an object. *)
Definition edit_entry (path : list string) (edits : list (string * LeafEdit)) (k : string)
    (_ : option JsonValue) (value : JsonValue) : option JsonValue :=
  applyEdits value (path ++ [k]) edits.

Lemma applyEdits_object fields path edits :
  applyEdits (JObject fields) path edits =
  Some (JObject (fold_left (assign_step (edit_entry path edits)) fields [])).
Proof. done. Qed.

Lemma edited_get fields path edits k :
  NoDup (map fst fields) ->
  map_get (fold_left (assign_step (edit_entry path edits)) fields []) k =
  map_get fields k ≫= fun v => applyEdits v (path ++ [k]) edits.
Proof.
  intros H. rewrite build_get by (done || constructor). simpl.
  destruct (map_get fields k) as [v|]; [|done]. simpl. unfold edit_entry. by destruct (applyEdits _ _ _).
Qed.

(** The value a leaf ends up with. *)
Definition edited (value : JsonValue) (edit : option LeafEdit) : option JsonValue :=
  match edit with
  | None => Some value
  | Some edit_delete => None
  | Some (edit_set v) => Some v
  end.

Lemma applyEdits_leaf v path edits :
  isPlainObject v = false -> applyEdits v path edits = edited v (map_get edits (pathToPointer path)).
Proof. by destruct v. Qed.

Lemma lookup_edited v path edits p w :
  tidy v -> lookupPath v p = Some w -> isPlainObject w = false ->
  (applyEdits v path edits ≫= fun u => lookupPath u p) =
  edited w (map_get edits (pathToPointer (path ++ p))).
Proof.
  revert v path. induction p as [|k p IH]; intros v path Hv Hw Hl.
  - injection Hw as ->. rewrite app_nil_r, applyEdits_leaf by done. by destruct (edited _ _).
  - destruct v as [| |fields]; try done. simpl in Hw. apply tidy_object in Hv as [Hn Hv].
    rewrite applyEdits_object. cbn [mbind option_bind lookupPath]. rewrite edited_get by done.
    destruct (map_get fields k) as [c|] eqn:E; [|done]. cbn [mbind option_bind].
    specialize (IH c (path ++ [k]) ltac:(by eapply Hv) Hw Hl). rewrite <-app_assoc in IH. cbn [app] in IH.
    rewrite <-IH. by destruct (applyEdits c _ _).
Qed.

(** What the edited document has at a path was an object there, or lies at or
    below a leaf of the document. *)
Lemma edited_lookup v path edits p u :
  tidy v -> (applyEdits v path edits ≫= fun u => lookupPath u p) = Some u ->
  (isPlainObject u = true /\ exists w, lookupPath v p = Some w /\ isPlainObject w = true) \/
  exists q r w x, p = q ++ r /\ lookupPath v q = Some w /\ isPlainObject w = false /\
    edited w (map_get edits (pathToPointer (path ++ q))) = Some x /\ lookupPath x r = Some u.
Proof.
  revert v path. induction p as [|k p IH]; intros v path Hv Hu; destruct (isPlainObject v) eqn:Ev.
  2,4: right; rewrite applyEdits_leaf in Hu by done; destruct (edited v _) as [x|] eqn:E; [|done];
    eexists [], _, v, x; split; [reflexivity|]; by rewrite app_nil_r.
  - left. destruct v; try done. rewrite applyEdits_object in Hu. simpl in Hu. injection Hu as <-. eauto.
  - destruct v as [| |fields]; try done. apply tidy_object in Hv as [Hn Hv].
    rewrite applyEdits_object in Hu. cbn [mbind option_bind lookupPath] in Hu.
    rewrite edited_get in Hu by done. destruct (map_get fields k) as [c|] eqn:E; [|done].
    cbn [mbind option_bind] in Hu.
    destruct (IH c (path ++ [k])) as [(Hu' & w & Hw)|(q & r & w & x & -> & Hq & Hw & Hx & Hr)];
      [by eapply Hv|by destruct (applyEdits c _ _)|left; split; [done|]; exists w|right].
    + cbn [lookupPath]. by rewrite E.
    + exists (k :: q), r, w, x. cbn [lookupPath]. rewrite E. by rewrite <-app_assoc in Hx.
Qed.

(** ** Sanitizing *)

Section Sanitize.
Context (document : ConfigurationLayerDocument).

(** Induction over an unchecked value and the values inside it. *)
Section UnknownInd.
Context (P : Unknown -> Prop).
Context (Hundefined : P UUndefined) (Hother : forall t, P (UOther t)) (Hscalar : forall s, P (UScalar s)).
Context (Harray : forall items, Forall P items -> P (UArray items)).
Context (Hobject : forall fields, Forall (fun f => P (snd f)) fields -> P (UObject fields)).

Fixpoint unknown_ind' (v : Unknown) : P v :=
  match v with
  | UUndefined => Hundefined
  | UOther t => Hother t
  | UScalar s => Hscalar s
  | UArray items =>
      Harray items
        ((fix go l : Forall P l :=
            match l with
            | [] => List.Forall_nil _
            | x :: l' => List.Forall_cons _ x l' (unknown_ind' x) (go l')
            end) items)
  | UObject fields =>
      Hobject fields
        ((fix go l : Forall (fun f => P (snd f)) l :=
            match l with
            | [] => List.Forall_nil _
            | x :: l' => List.Forall_cons _ x l' (unknown_ind' (snd x)) (go l')
            end) fields)
  end.
End UnknownInd.

Definition sanitize_entry (path : list string) (k : string) (_ : option JsonValue) (value : Unknown)
    : option JsonValue :=
  fst (sanitizeConfigurationValue value (path ++ [k]) document).

(** The loop over an object: what it builds and what it reports. *)
Lemma sanitize_object fields path :
  sanitizeConfigurationValue (UObject fields) path document =
  (Some (JObject (fold_left (assign_step (sanitize_entry path)) fields [])),
   flat_map (fun f => snd (sanitizeConfigurationValue (snd f) (path ++ [fst f]) document)) fields).
Proof.
  cbn [sanitizeConfigurationValue].
  enough (forall out reported,
    fold_left
      (fun acc f =>
         let '(sanitized, r) := sanitizeConfigurationValue (snd f) (path ++ [fst f]) document in
         (match sanitized with Some v => assign (fst acc) (fst f) v | None => fst acc end,
          snd acc ++ r)) fields (out, reported) =
    (fold_left (assign_step (sanitize_entry path)) fields out,
     reported ++ flat_map (fun f => snd (sanitizeConfigurationValue (snd f) (path ++ [fst f]) document)) fields))
    as H by (by rewrite H).
  induction fields as [|f fields IH]; intros out reported; simpl; [by rewrite app_nil_r|].
  unfold assign_step at 2, sanitize_entry.
  destruct (sanitizeConfigurationValue (snd f) (path ++ [fst f]) document) as [s r]. simpl.
  rewrite IH. by rewrite <-app_assoc.
Qed.

Lemma representable_object fields :
  NoDup (map fst fields) -> (forall k v, map_get fields k = Some v -> representable v = true) ->
  representable (JObject fields) = true.
Proof.
  intros Hn H. simpl. apply forallb_forall. intros [k v] Hin%list_elem_of_In.
  by eapply H, elem_map_get.
Qed.

Lemma asJson_representable v : isJsonRepresentable v = true -> representable (asJson v) = true.
Proof.
  induction v as [|t|s|items IH|fields IH] using unknown_ind'; try done; simpl;
    rewrite !forallb_forall; rewrite Forall_forall in IH; intros H x (y & <- & Hy)%in_map_iff;
    apply IH; try (by apply list_elem_of_In); by apply H.
Qed.

(** What is left of a value is JSON, and its objects do not repeat a key. *)
Lemma sanitize_json v path w :
  fst (sanitizeConfigurationValue v path document) = Some w -> tidy w /\ representable w = true.
Proof.
  revert path w. induction v as [|t|s|items _|fields IH] using unknown_ind'; intros path w; try done.
  - cbn. destruct s as [|n| |]; try (by intros [= <-]).
    destruct (num_isFinite n) eqn:E; [|done]. by intros [= <-].
  - cbn [sanitizeConfigurationValue]. destruct (forallb _ items) eqn:E; [|done]. intros [= <-].
    split; [done|]. by apply (asJson_representable (UArray items)).
  - rewrite sanitize_object. cbn [fst]. intros [= <-]. rewrite Forall_forall in IH.
    assert (NoDup (map fst (fold_left (assign_step (sanitize_entry path)) fields []))) as Hn.
    { apply build_NoDup. constructor. }
    assert (forall k v, map_get (fold_left (assign_step (sanitize_entry path)) fields []) k = Some v ->
              tidy v /\ representable v = true) as Hv.
    { eapply (build_values _ (fun v => tidy v /\ representable v = true)); [constructor|done|].
      intros k o a v Hin _. by apply (IH (k, a)). }
    split; [apply tidy_object; split; [done|]|apply representable_object; [done|]]; intros k v E;
      by apply (Hv k v).
Qed.

(** A value without a report is kept. *)
Lemma sanitize_silent v path :
  snd (sanitizeConfigurationValue v path document) = [] <-> isJsonRepresentable v = true.
Proof.
  revert path. induction v as [|t|s|items _|fields IH] using unknown_ind'; intros path; try done.
  - cbn. destruct s as [|n| |]; try done. by destruct (num_isFinite n).
  - cbn [sanitizeConfigurationValue isJsonRepresentable]. by destruct (forallb _ items).
  - rewrite sanitize_object. cbn [snd isJsonRepresentable]. rewrite forallb_forall.
    rewrite Forall_forall in IH. split.
    + intros H x Hx%list_elem_of_In. eapply (IH x); [done|].
      exact (proj1 (flat_map_nil _ _) H x Hx).
    + intros H. apply flat_map_nil. intros x Hx. apply (IH x); [done|].
      by apply H, list_elem_of_In.
Qed.
End Sanitize.
