(* ===== verification/ConfigResolve.v ===== *)
(** * Resolving documents

    The leaf pass, the chain of a leaf and its winner, and what the merged
    document of sanitized documents holds. *)

From Stdlib Require Import Ascii SpecFloat.
From S2P Require Import Prelude Ids Json CanonicalJson JsonProps Writers Report Normalize StateJson.
From S2P Require Import StateJsonProps PayloadCanon Redaction ConfigLayers ConfigMerge.

(** ** The strictest entry of a chain *)

Section Scan.
Context {M : Type} (measure : JsonValue -> option M) (stricter : M -> M -> bool).

Lemma scan_snoc chain e index best :
  scanStrictest measure stricter index best (chain ++ [e]) =
  match measure (pe_value e), scanStrictest measure stricter index best chain with
  | None, best' => best'
  | Some m, None => Some ((index + length chain)%nat, m)
  | Some m, Some (i, strictest) =>
      if stricter m strictest then Some ((index + length chain)%nat, m) else Some (i, strictest)
  end.
Proof.
  revert index best. induction chain as [|x chain IH]; intros index best.
  - simpl. rewrite Nat.add_0_r. by destruct (measure (pe_value e)), best as [[]|].
  - cbn [app scanStrictest length]. rewrite IH. by rewrite Nat.add_succ_r.
Qed.

Hypothesis stricter_irrefl : forall x, stricter x x = false.
Hypothesis stricter_trans : forall x y z,
  stricter x y = true -> stricter y z = true -> stricter x z = true.

(** [m], the measure of the entry at [i], is at least as strict as the measure
    of any entry. *)
Definition strictest_at (chain : list ProvenanceEntry) (i : nat) (m : M) : Prop :=
  (exists e, chain !! i = Some e /\ measure (pe_value e) = Some m) /\
  forall e n, e ∈ chain -> measure (pe_value e) = Some n -> stricter n m = false.

Lemma scan_strictest chain :
  match scanStrictest measure stricter 0 None chain with
  | Some (i, m) => strictest_at chain i m
  | None => forall e, e ∈ chain -> measure (pe_value e) = None
  end.
Proof.
  induction chain as [|x chain IH] using rev_ind; [by intros e ?%elem_of_nil|].
  rewrite scan_snoc, Nat.add_0_l. destruct (measure (pe_value x)) as [m|] eqn:Hx.
  - assert (forall e n, measure (pe_value e) = Some n -> e = x -> n = m) as Hsame
      by (intros e n He ->; congruence).
    destruct (scanStrictest measure stricter 0 None chain) as [[i b]|].
    + destruct IH as [(e & Hi & He) Hmin]. destruct (stricter m b) eqn:Hb; split.
      * exists x. by rewrite lookup_app_r, Nat.sub_diag by done.
      * intros e' n [Hin| ->%list_elem_of_singleton]%elem_of_app Hn; [|by rewrite (Hsame _ _ Hn)].
        destruct (stricter n m) eqn:E; [|done]. pose proof (Hmin _ _ Hin Hn) as H.
        by rewrite (stricter_trans _ _ _ E Hb) in H.
      * exists e. split; [|done]. by apply lookup_app_l_Some.
      * intros e' n [Hin| ->%list_elem_of_singleton]%elem_of_app Hn; [by eapply Hmin|].
        by rewrite (Hsame _ _ Hn).
    + split.
      * exists x. by rewrite lookup_app_r, Nat.sub_diag by done.
      * intros e' n [Hin| ->%list_elem_of_singleton]%elem_of_app Hn; [|by rewrite (Hsame _ _ Hn)].
        rewrite IH in Hn by done. done.
  - destruct (scanStrictest measure stricter 0 None chain) as [[i b]|].
    + destruct IH as [(e & Hi & He) Hmin]. split.
      * exists e. split; [|done]. by apply lookup_app_l_Some.
      * intros e' n [Hin| ->%list_elem_of_singleton]%elem_of_app Hn; [by eapply Hmin|congruence].
    + intros e' [Hin| ->%list_elem_of_singleton]%elem_of_app; auto.
Qed.

(** A rule block moves to the strictest entry, if there is one. *)
Lemma ruleBlock_winner incomparable moved chain last winnerIndex :
  fst (ruleBlock measure stricter incomparable moved chain last winnerIndex) =
  match scanStrictest measure stricter 0 None chain with
  | Some (i, _) => i
  | None => winnerIndex
  end.
Proof.
  unfold ruleBlock. destruct (scanStrictest measure stricter 0 None chain) as [[i m]|]; [|done].
  destruct (i =? winnerIndex)%nat eqn:E; [|done]. apply Nat.eqb_eq in E as ->. done.
Qed.
End Scan.

Lemma num_lt_irrefl x : num_lt x x = false.
Proof.
  unfold num_lt, SFltb. destruct x as [[]|[]| |[] m e]; simpl; try done;
    rewrite Z.compare_refl, Pos.compare_cont_refl; done.
Qed.

Lemma num_lt_trans x y z : num_lt x y = true -> num_lt y z = true -> num_lt x z = true.
Proof.
  unfold num_lt, SFltb.
  destruct x as [[]|[]| |[] m e], y as [[]|[]| |[] m' e'], z as [[]|[]| |[] m'' e'']; simpl;
    try done; change (Pos.compare_cont Eq) with Pos.compare;
    destruct (Z.compare_spec e e') as [E|E|E], (Z.compare_spec e' e'') as [F|F|F],
      (Z.compare_spec e e'') as [G|G|G]; try lia; try done;
    destruct (Pos.compare_spec m m') as [A|A|A], (Pos.compare_spec m' m'') as [B|B|B],
      (Pos.compare_spec m m'') as [C|C|C]; try done; lia.
Qed.

Lemma limitStricter_irrefl s x : limitStricter s x x = false.
Proof. destruct s; apply num_lt_irrefl. Qed.

Lemma limitStricter_trans s x y z :
  limitStricter s x y = true -> limitStricter s y z = true -> limitStricter s x z = true.
Proof. destruct s; simpl; intros H1 H2; eapply num_lt_trans; eauto. Qed.

Lemma rank_trans x y z : (x <? y)%nat = true -> (y <? z)%nat = true -> (x <? z)%nat = true.
Proof. rewrite !Nat.ltb_lt. lia. Qed.

(** ** The winner of a chain *)

Section Chain.
Context `{Patterns}.

Definition limit_index (policy : IndexedConfigurationPolicy) (pointer : string)
    (chain : list ProvenanceEntry) (index : nat) : nat :=
  match map_get (ip_hardLimits policy) pointer with
  | None => index
  | Some s =>
      match scanStrictest limitMagnitude (limitStricter s) 0 None chain with
      | Some (i, _) => i
      | None => index
      end
  end.

Definition privacy_index (policy : IndexedConfigurationPolicy) (pointer : string)
    (chain : list ProvenanceEntry) (index : nat) : nat :=
  match map_get (ip_privacy policy) pointer with
  | None => index
  | Some strictestFirst =>
      match scanStrictest (fun v => privacyRank v strictestFirst) Nat.ltb 0 None chain with
      | Some (i, _) => i
      | None => index
      end
  end.

Definition winner_index (policy : IndexedConfigurationPolicy) (pointer : string)
    (chain : list ProvenanceEntry) : nat :=
  privacy_index policy pointer chain (limit_index policy pointer chain (pred (length chain))).

Lemma resolveChain_winner pointer first rest policy :
  let chain := first :: rest in
  let last := default first (chain !! length rest) in
  cr_winner (resolveChain pointer first rest policy) =
    default last (chain !! winner_index policy pointer chain) /\
  cr_overridden (resolveChain pointer first rest policy) =
    others chain (winner_index policy pointer chain).
Proof.
  cbv zeta. unfold resolveChain, winner_index, limit_index, privacy_index.
  cbv zeta. cbn [pred length].
  pose proof (ruleBlock_winner limitMagnitude) as Hl.
  pose proof (ruleBlock_winner (M := nat)) as Hp.
  destruct (map_get (ip_hardLimits policy) pointer) as [s|].
  - specialize (Hl (limitStricter s) (hardLimitIncomparable pointer) (hardLimitClamped pointer)
      (first :: rest) (default first ((first :: rest) !! length rest)) (length rest)).
    destruct (ruleBlock limitMagnitude _ _ _ _ _ _) as [i1 d1]. cbn [fst] in Hl. rewrite <-Hl.
    destruct (map_get (ip_privacy policy) pointer) as [sf|]; [|done].
    match goal with |- context [ruleBlock ?m ?s ?a ?b ?c ?l ?w] => specialize (Hp m s a b c l w) end.
    destruct (ruleBlock _ Nat.ltb _ _ _ _ _) as [i2 d2]. cbn [fst] in Hp. rewrite <-Hp. done.
  - destruct (map_get (ip_privacy policy) pointer) as [sf|]; [|done].
    match goal with |- context [ruleBlock ?m ?s ?a ?b ?c ?l ?w] => specialize (Hp m s a b c l w) end.
    destruct (ruleBlock _ Nat.ltb _ _ _ _ _) as [i2 d2]. cbn [fst] in Hp. rewrite <-Hp. done.
Qed.

Lemma scan_limit s chain :
  match scanStrictest limitMagnitude (limitStricter s) 0 None chain with
  | Some (i, m) => strictest_at limitMagnitude (limitStricter s) chain i m
  | None => forall e, e ∈ chain -> limitMagnitude (pe_value e) = None
  end.
Proof. apply scan_strictest; [apply limitStricter_irrefl|apply limitStricter_trans]. Qed.

Lemma scan_privacy sf chain :
  match scanStrictest (fun v => privacyRank v sf) Nat.ltb 0 None chain with
  | Some (i, m) => strictest_at (fun v => privacyRank v sf) Nat.ltb chain i m
  | None => forall e, e ∈ chain -> privacyRank (pe_value e) sf = None
  end.
Proof. apply scan_strictest; [apply Nat.ltb_irrefl|apply rank_trans]. Qed.

Lemma winner_in_chain policy pointer chain :
  chain <> [] -> is_Some (chain !! winner_index policy pointer chain).
Proof.
  intros Hne. assert (is_Some (chain !! pred (length chain))) as Hlast.
  { apply lookup_lt_is_Some. destruct chain; [done|]. simpl. lia. }
  assert (is_Some (chain !! limit_index policy pointer chain (pred (length chain)))) as Hlimit.
  { unfold limit_index. destruct (map_get _ pointer) as [s|]; [|done].
    pose proof (scan_limit s chain) as Hs. destruct (scanStrictest _ _ _ _ _) as [[i m]|]; [|done].
    destruct Hs as [(e & -> & _) _]. done. }
  unfold winner_index, privacy_index. destruct (map_get (ip_privacy policy) pointer) as [sf|]; [|done].
  pose proof (scan_privacy sf chain) as Hs. destruct (scanStrictest _ _ _ _ _) as [[i m]|]; [|done].
  destruct Hs as [(e & -> & _) _]. done.
Qed.

(** No rule covers the pointer. *)
Definition unruled (policy : IndexedConfigurationPolicy) (pointer : string) : Prop :=
  map_get (ip_hardLimits policy) pointer = None /\ map_get (ip_privacy policy) pointer = None.

(** No rule at the pointer: the last entry wins. *)
Lemma winner_plain policy pointer chain :
  unruled policy pointer -> winner_index policy pointer chain = pred (length chain).
Proof.
  intros [H1 H2]. unfold winner_index, privacy_index, limit_index. by rewrite H1, H2.
Qed.

(** What the winner of a chain is: an entry of the chain, with the others
    before and after it. *)
Lemma resolveChain_split pointer first rest policy :
  let resolution := resolveChain pointer first rest policy in
  (first :: rest) !! winner_index policy pointer (first :: rest) = Some (cr_winner resolution) /\
  exists before after, first :: rest = before ++ cr_winner resolution :: after /\
    cr_overridden resolution = before ++ after /\ (unruled policy pointer -> after = []).
Proof.
  cbv zeta. destruct (resolveChain_winner pointer first rest policy) as [-> ->].
  destruct (winner_in_chain policy pointer (first :: rest)) as [e He]; [done|].
  rewrite He. split; [done|]. cbn [default]. eexists _, _. split; [|split; [done|]].
  - symmetry. by apply take_drop_middle.
  - intros Hu. rewrite (winner_plain _ _ _ Hu). apply drop_ge. simpl. lia.
Qed.

(** A hard limit: no entry is stricter than the winner. *)
Lemma winner_limit policy pointer chain s w e m :
  map_get (ip_hardLimits policy) pointer = Some s -> map_get (ip_privacy policy) pointer = None ->
  chain !! winner_index policy pointer chain = Some w ->
  e ∈ chain -> limitMagnitude (pe_value e) = Some m ->
  exists n, limitMagnitude (pe_value w) = Some n /\ limitStricter s m n = false.
Proof.
  intros H1 H2. unfold winner_index, privacy_index, limit_index. rewrite H1, H2.
  pose proof (scan_limit s chain) as Hs. destruct (scanStrictest _ _ _ _ _) as [[i n]|].
  - destruct Hs as [(x & Hi & Hx) Hmin]. intros Hw He Hm. exists n. split; [congruence|].
    by eapply Hmin.
  - intros _ He Hm. rewrite Hs in Hm; done.
Qed.

(** A privacy rule: no entry has a smaller rank than the winner. *)
Lemma winner_privacy policy pointer chain sf w e m :
  map_get (ip_privacy policy) pointer = Some sf ->
  chain !! winner_index policy pointer chain = Some w ->
  e ∈ chain -> privacyRank (pe_value e) sf = Some m ->
  exists n, privacyRank (pe_value w) sf = Some n /\ (n <= m)%nat.
Proof.
  intros H1. unfold winner_index, privacy_index. rewrite H1.
  pose proof (scan_privacy sf chain) as Hs.
  destruct (scanStrictest (fun v => privacyRank v sf) _ _ _ _) as [[i n]|].
  - destruct Hs as [(x & Hi & Hx) Hmin]. intros Hw He Hm. exists n. split; [congruence|].
    apply Nat.ltb_ge. by eapply Hmin.
  - intros _ He Hm. rewrite Hs in Hm; done.
Qed.

(** ** The leaf pass *)

(** What the permitted documents say at [path], in the order of the layers. *)
Definition contributions (policy : IndexedConfigurationPolicy) (path : list string)
    (documents : list (LayerDocument JsonValue)) : list ProvenanceEntry :=
  flat_map (fun d => match lookupPath (cd_values d) path with
                     | Some v => if permitted policy (pathToPointer path) d then [entryOf d v] else []
                     | None => []
                     end) documents.

Definition dropped (policy : IndexedConfigurationPolicy) (path : list string)
    (documents : list (LayerDocument JsonValue)) : list Diagnostic :=
  flat_map (fun d => match lookupPath (cd_values d) path with
                     | Some v => if permitted policy (pathToPointer path) d then []
                                 else [overrideNotPermitted (pathToPointer path) (cd_sourcePath d) v]
                     | None => []
                     end) documents.

Lemma leafChain_spec policy path documents :
  leafChain policy path documents = (contributions policy path documents, dropped policy path documents).
Proof.
  unfold leafChain, contributions, dropped. cbv zeta.
  match goal with |- fold_left ?f _ _ = (flat_map ?g _, flat_map ?h _) =>
    enough (forall ds a b, fold_left f ds (a, b) = (a ++ flat_map g ds, b ++ flat_map h ds)) as E
      by apply E end.
  induction ds as [|d ds IH]; intros a b; simpl; [by rewrite !app_nil_r|].
  destruct (lookupPath (cd_values d) path) as [v|]; [|apply IH].
  destruct (permitted policy (pathToPointer path) d); simpl; rewrite IH; by rewrite <-app_assoc.
Qed.

Lemma elem_of_contributions policy path documents e :
  e ∈ contributions policy path documents <->
  exists d v, d ∈ documents /\ lookupPath (cd_values d) path = Some v /\
    permitted policy (pathToPointer path) d = true /\ e = entryOf d v.
Proof.
  unfold contributions. rewrite list_elem_of_In, in_flat_map. split.
  - intros (d & Hd & He). apply list_elem_of_In in Hd.
    destruct (lookupPath (cd_values d) path) as [v|] eqn:Ev; [|done].
    destruct (permitted policy (pathToPointer path) d) eqn:Ep; [|done].
    destruct He as [<-|[]]. eauto 6.
  - intros (d & v & Hd & Hv & Hp & ->). exists d. split; [by apply list_elem_of_In|].
    rewrite Hv, Hp. by left.
Qed.

Definition leaf_resolution (policy : IndexedConfigurationPolicy)
    (documents : list (LayerDocument JsonValue)) (path : list string) : option ChainResolution :=
  match contributions policy path documents with
  | [] => None
  | first :: rest => Some (resolveChain (pathToPointer path) first rest policy)
  end.

Definition leaf_edit (policy : IndexedConfigurationPolicy)
    (documents : list (LayerDocument JsonValue)) (path : list string) : LeafEdit :=
  match leaf_resolution policy documents path with
  | None => edit_delete
  | Some resolution => edit_set (pe_value (cr_winner resolution))
  end.

Definition leaf_records (policy : IndexedConfigurationPolicy)
    (documents : list (LayerDocument JsonValue)) (path : list string)
    : list ConfigurationProvenance :=
  match leaf_resolution policy documents path with
  | None => []
  | Some resolution =>
      [{| pr_pointer := pathToPointer path; pr_winner := cr_winner resolution;
          pr_overridden := cr_overridden resolution |}]
  end.

Definition leaf_diagnostics (policy : IndexedConfigurationPolicy)
    (documents : list (LayerDocument JsonValue)) (path : list string) : list Diagnostic :=
  dropped policy path documents ++
  match leaf_resolution policy documents path with
  | None => []
  | Some resolution => cr_diagnostics resolution
  end.

Lemma leafPass_spec policy documents paths pass :
  fold_left (resolveLeaf policy documents) paths pass =
  {| lp_diagnostics := lp_diagnostics pass ++ flat_map (leaf_diagnostics policy documents) paths;
     lp_edits := fold_left (fun m p => map_set m (pathToPointer p) (leaf_edit policy documents p))
                   paths (lp_edits pass);
     lp_provenance := lp_provenance pass ++ flat_map (leaf_records policy documents) paths |}.
Proof.
  revert pass. induction paths as [|p paths IH]; intros pass; simpl.
  - rewrite !app_nil_r. by destruct pass.
  - rewrite IH. unfold resolveLeaf, leaf_diagnostics at 2, leaf_records at 2, leaf_edit at 3,
      leaf_resolution.
    rewrite leafChain_spec. destruct (contributions policy p documents) as [|first rest]; simpl;
      by rewrite ?app_nil_r, <-!app_assoc.
Qed.

Lemma edits_get (f : list string -> LeafEdit) paths m p :
  map_get (fold_left (fun m p => map_set m (pathToPointer p) (f p)) paths m) (pathToPointer p) =
  if bool_decide (p ∈ paths) then Some (f p) else map_get m (pathToPointer p).
Proof.
  revert m. induction paths as [|q paths IH]; intros m; simpl; [done|].
  rewrite IH, map_get_set. repeat case_bool_decide; rewrite ?elem_of_cons in *; try tauto.
  - destruct H1 as [->|]; [by rewrite str_eqb_refl|done].
  - rewrite (proj2 (str_eqb_false _ _)); [done|]. intros ->%(inj pathToPointer). tauto.
Qed.
End Chain.

(** ** The merged document *)

Definition tidy_documents (documents : list (LayerDocument JsonValue)) : Prop :=
  forall d, d ∈ documents -> tidy (cd_values d) /\ representable (cd_values d) = true.

Lemma merge_snoc documents d :
  mergeDocuments (documents ++ [d]) = mergeJsonValue (Some (mergeDocuments documents)) (cd_values d).
Proof. unfold mergeDocuments. by rewrite fold_left_app. Qed.

Lemma tidy_snoc documents d :
  tidy_documents (documents ++ [d]) ->
  tidy_documents documents /\ tidy (cd_values d) /\ representable (cd_values d) = true.
Proof.
  intros H. split; [intros d' Hd'|]; apply H; apply elem_of_app; [by left|right].
  by apply list_elem_of_singleton.
Qed.

Lemma merged_tidy documents : tidy_documents documents -> tidy (mergeDocuments documents).
Proof.
  induction documents as [|d documents IH] using rev_ind; intros Ht.
  - apply tidy_object. split; [constructor|done].
  - apply tidy_snoc in Ht as (Ht & Hd & _). rewrite merge_snoc. apply merge_tidy; [|done].
    intros b [= <-]. by apply IH.
Qed.

(** Above [path] every document has objects, and at [path] a scalar, an array
    or nothing. *)
Definition plain_at (path : list string) (documents : list (LayerDocument JsonValue)) : bool :=
  forallb (fun d => negb (blocked (cd_values d) path) &&
                    match lookupPath (cd_values d) path with
                    | Some v => negb (isPlainObject v)
                    | None => true
                    end) documents.

(** What the last document that says something at [path] says. *)
Definition last_at (path : list string) (documents : list (LayerDocument JsonValue))
    : option JsonValue :=
  fold_left (fun found d => match lookupPath (cd_values d) path with Some v => Some v | None => found end)
    documents None.

Lemma merged_plain documents path :
  tidy_documents documents -> path <> [] -> plain_at path documents = true ->
  lookupPath (mergeDocuments documents) path = last_at path documents.
Proof.
  intros Ht Hp. induction documents as [|d documents IH] using rev_ind.
  - by destruct path.
  - unfold plain_at. rewrite forallb_app. intros [Hpl Hd]%andb_true_iff.
    apply tidy_snoc in Ht as (Ht & Hdt & _). rewrite merge_snoc.
    rewrite lookup_merge by (done || by apply merged_tidy).
    unfold merge_at, last_at. rewrite fold_left_app. simpl in *.
    rewrite andb_true_r in Hd. apply andb_true_iff in Hd as [Hb Hv].
    destruct (lookupPath (cd_values d) path) as [v|].
    + by rewrite merge_leaf by (by destruct (isPlainObject v)).
    + destruct (blocked (cd_values d) path); [done|]. by apply IH.
Qed.

Lemma last_at_elem path documents v :
  last_at path documents = Some v ->
  exists d, d ∈ documents /\ lookupPath (cd_values d) path = Some v.
Proof.
  unfold last_at. induction documents as [|d documents IH] using rev_ind; [done|].
  rewrite fold_left_app. simpl. destruct (lookupPath (cd_values d) path) as [w|] eqn:E.
  - intros [= ->]. exists d. split; [|done]. apply elem_of_app. right. by left.
  - intros (d' & Hd' & Hv)%IH. exists d'. split; [|done]. apply elem_of_app. by left.
Qed.

Lemma last_at_found path documents d v :
  d ∈ documents -> lookupPath (cd_values d) path = Some v -> is_Some (last_at path documents).
Proof.
  unfold last_at. induction documents as [|x documents IH] using rev_ind; [by intros ?%elem_of_nil|].
  intros [Hd| ->%list_elem_of_singleton]%elem_of_app Hv; rewrite fold_left_app; simpl.
  - destruct (lookupPath (cd_values x) path); [done|]. by apply IH.
  - by rewrite Hv.
Qed.

Lemma plain_elem path documents d v :
  plain_at path documents = true -> d ∈ documents -> lookupPath (cd_values d) path = Some v ->
  isPlainObject v = false.
Proof.
  intros H Hd Hv. unfold plain_at in H. rewrite forallb_forall in H.
  specialize (H d (proj1 (list_elem_of_In _ _) Hd)). rewrite Hv in H.
  apply andb_true_iff in H as [_ H]. by destruct (isPlainObject v).
Qed.

(** A plain path that some document sets is a leaf. *)
Lemma plain_leaf path documents d v :
  tidy_documents documents -> path <> [] -> plain_at path documents = true ->
  d ∈ documents -> lookupPath (cd_values d) path = Some v ->
  path ∈ collectLeafPaths (mergeDocuments documents) [].
Proof.
  intros Ht Hp Hpl Hd Hv. apply leaf_paths; [by apply merged_tidy|].
  destruct (last_at_found _ _ _ _ Hd Hv) as [w Hw]. exists w.
  rewrite merged_plain by done. split; [done|].
  apply last_at_elem in Hw as (d' & Hd' & Hw). by eapply plain_elem.
Qed.

(** ** The resolved document *)

Section Resolved.
Context `{Patterns}.

Definition resolved_edits (policy : IndexedConfigurationPolicy)
    (documents : list (LayerDocument JsonValue)) : list (string * LeafEdit) :=
  fold_left (fun m p => map_set m (pathToPointer p) (leaf_edit policy documents p))
    (collectLeafPaths (mergeDocuments documents) []) [].

Lemma resolved_values documents diagnostics policy :
  rc_values (resolveSanitized documents diagnostics policy) =
  default (JObject []) (applyEdits (mergeDocuments documents) [] (resolved_edits policy documents)).
Proof. unfold resolveSanitized. cbv zeta. cbn [rc_values]. by rewrite leafPass_spec. Qed.

Lemma resolved_provenance documents diagnostics policy :
  rc_provenance (resolveSanitized documents diagnostics policy) =
  sort_key pr_pointer
    (flat_map (leaf_records policy documents) (collectLeafPaths (mergeDocuments documents) [])).
Proof. unfold resolveSanitized. cbv zeta. cbn [rc_provenance]. by rewrite leafPass_spec. Qed.

Lemma resolved_diagnostics documents diagnostics policy :
  rc_diagnostics (resolveSanitized documents diagnostics policy) =
  sortDiagnostics
    ((diagnostics ++
      flat_map (leaf_diagnostics policy documents) (collectLeafPaths (mergeDocuments documents) [])) ++
     collectShadowedByObjectDiagnostics (mergeDocuments documents) [] documents policy).
Proof. unfold resolveSanitized. cbv zeta. cbn [rc_diagnostics]. by rewrite leafPass_spec. Qed.

Lemma resolved_edit policy documents p :
  p ∈ collectLeafPaths (mergeDocuments documents) [] ->
  map_get (resolved_edits policy documents) (pathToPointer p) = Some (leaf_edit policy documents p).
Proof. intros Hp. unfold resolved_edits. rewrite edits_get. by rewrite bool_decide_eq_true_2. Qed.

(** At a leaf the resolved document has the value of the winner, or nothing. *)
Lemma resolved_leaf policy documents p diagnostics :
  tidy_documents documents -> p ∈ collectLeafPaths (mergeDocuments documents) [] ->
  is_Some (leaf_resolution policy documents p) \/ p <> [] ->
  lookupPath (rc_values (resolveSanitized documents diagnostics policy)) p =
  pe_value ∘ cr_winner <$> leaf_resolution policy documents p.
Proof.
  intros Ht Hp Hd. pose proof (merged_tidy _ Ht) as Hm. pose proof Hp as Hp'.
  apply leaf_paths in Hp as (w & Hw & Hl); [|done].
  pose proof (lookup_edited _ [] (resolved_edits policy documents) _ _ Hm Hw Hl) as E.
  cbn [app] in E. rewrite resolved_edit in E by done. rewrite resolved_values.
  unfold leaf_edit in E. destruct (applyEdits _ _ _) as [u|] eqn:Eu; simpl in *.
  - rewrite E. by destruct (leaf_resolution policy documents p).
  - destruct (leaf_resolution policy documents p) as [r|]; [done|].
    destruct Hd as [[? [=]]|Hd]. by destruct p.
Qed.

Lemma leaf_resolution_winner policy documents p r :
  leaf_resolution policy documents p = Some r ->
  let chain := contributions policy p documents in
  chain !! winner_index policy (pathToPointer p) chain = Some (cr_winner r) /\
  exists before after, chain = before ++ cr_winner r :: after /\ cr_overridden r = before ++ after /\
    (unruled policy (pathToPointer p) -> after = []).
Proof.
  unfold leaf_resolution. cbv zeta. destruct (contributions policy p documents) as [|first rest]; [done|].
  intros [= <-]. apply (resolveChain_split (pathToPointer p) first rest policy).
Qed.

Lemma leaf_resolution_elem policy documents p r :
  leaf_resolution policy documents p = Some r ->
  cr_winner r ∈ contributions policy p documents.
Proof. intros [Hw _]%leaf_resolution_winner. by eapply list_elem_of_lookup_2. Qed.

Lemma leaf_resolution_Some policy documents p e :
  e ∈ contributions policy p documents -> is_Some (leaf_resolution policy documents p).
Proof.
  unfold leaf_resolution. destruct (contributions policy p documents); [by intros ?%elem_of_nil|done].
Qed.

(** At a plain path where a permitted document says something, the resolved
    value is the winner of the chain. *)
Lemma resolved_plain policy documents diagnostics p d v :
  tidy_documents documents -> p <> [] -> plain_at p documents = true ->
  d ∈ documents -> permitted policy (pathToPointer p) d = true ->
  lookupPath (cd_values d) p = Some v ->
  exists w, lookupPath (rc_values (resolveSanitized documents diagnostics policy)) p =
              Some (pe_value w) /\
    contributions policy p documents !! winner_index policy (pathToPointer p)
      (contributions policy p documents) = Some w.
Proof.
  intros Ht Hp Hpl Hd Hper Hv.
  assert (entryOf d v ∈ contributions policy p documents) as He
    by (apply elem_of_contributions; eauto 6).
  destruct (leaf_resolution_Some _ _ _ _ He) as [r Hr].
  exists (cr_winner r). split; [|by apply leaf_resolution_winner].
  rewrite resolved_leaf; [by rewrite Hr|done| |by right]. by eapply plain_leaf.
Qed.
End Resolved.

(** ** Sanitized documents *)

Lemma sanitized_tidy documents : tidy_documents (fst (sanitizeDocuments documents)).
Proof.
  unfold sanitizeDocuments. cbn [fst]. intros d Hd.
  apply list_elem_of_fmap in Hd as ([d' ds] & -> & (x & Hx & _)%list_elem_of_fmap). cbn [fst].
  unfold sanitizeDocument in Hx. destruct (sanitizeConfigurationValue _ _ _) as [s r] eqn:E.
  injection Hx as -> ->. cbn [cd_values]. destruct s as [w|]; [|split; [|done]].
  - apply (sanitize_json x (cd_values x) []). by rewrite E.
  - apply tidy_object. split; [constructor|done].
Qed.

Lemma resolve_sanitized `{Patterns} documents policy :
  resolveConfiguration documents policy =
  resolveSanitized (fst (sanitizeDocuments documents)) (snd (sanitizeDocuments documents))
    (indexConfigurationPolicy (default [] policy)).
Proof. unfold resolveConfiguration. by destruct (sanitizeDocuments documents). Qed.
