(* ===== verification/ConfigProps.v ===== *)
(** * Configuration layers: the claims

    What wins, where it came from, and what the resolution reports. *)

From Stdlib Require Import Ascii SpecFloat.
From S2P Require Import Prelude Ids Json CanonicalJson JsonProps Writers Report Normalize StateJson.
From S2P Require Import StateJsonProps PayloadCanon Redaction ConfigLayers ConfigMerge ConfigResolve.

(** ** The order of the layers

    Sorting by layer is stable: the documents of one layer keep their order. *)

Definition of_layer (documents : list ConfigurationLayerDocument) (layer : ConfigurationLayer)
    : list ConfigurationLayerDocument :=
  List.filter (fun d => bool_decide (cd_layer d = layer)) documents.

Lemma insert_by_split {A} (lt : A -> A -> bool) x l r :
  (forall a, a ∈ l -> lt x a = false) -> (forall b, b ∈ r -> lt x b = true) ->
  insert_by lt x (l ++ r) = l ++ x :: r.
Proof.
  intros Hl Hr. induction l as [|a l IH]; simpl.
  - destruct r as [|b r]; [done|]. simpl. by rewrite (Hr b) by (by left).
  - rewrite (Hl a) by (by left). f_equal. apply IH. intros b Hb. apply Hl. by right.
Qed.

(** The layers before and after a layer. *)
Lemma layers_around layer :
  exists before after, CONFIGURATION_LAYERS = before ++ layer :: after /\
    (forall l, l ∈ before -> (configurationLayerRank l < configurationLayerRank layer)%nat) /\
    (forall l, l ∈ after -> (configurationLayerRank layer < configurationLayerRank l)%nat).
Proof.
  exists (take (configurationLayerRank layer) CONFIGURATION_LAYERS),
    (drop (S (configurationLayerRank layer)) CONFIGURATION_LAYERS).
  destruct layer; simpl; (split; [done|]); split; intros l Hl;
    repeat (apply elem_of_cons in Hl as [->|Hl]; [simpl; lia|]); by apply elem_of_nil in Hl.
Qed.

Lemma elem_of_layers documents layers d :
  d ∈ flat_map (of_layer documents) layers -> cd_layer d ∈ layers.
Proof.
  intros (l & Hl & Hd)%list_elem_of_In%in_flat_map. apply filter_In in Hd as [_ Hd].
  apply bool_decide_eq_true in Hd as ->. by apply list_elem_of_In.
Qed.

Lemma of_layer_snoc documents d layers :
  cd_layer d ∉ layers ->
  flat_map (of_layer (documents ++ [d])) layers = flat_map (of_layer documents) layers.
Proof.
  induction layers as [|l layers IH]; [done|]. intros [Hne Hl]%not_elem_of_cons. simpl.
  rewrite IH by done. unfold of_layer at 1. rewrite List.filter_app. simpl.
  by rewrite bool_decide_eq_false_2, app_nil_r.
Qed.

Lemma sort_layers documents :
  sortConfigurationDocuments documents = flat_map (of_layer documents) CONFIGURATION_LAYERS.
Proof.
  unfold sortConfigurationDocuments. induction documents as [|d documents IH] using rev_ind; [done|].
  unfold sort_by. rewrite fold_left_app.
  change (insert_by layer_lt d (sort_by layer_lt documents) =
          flat_map (of_layer (documents ++ [d])) CONFIGURATION_LAYERS). rewrite IH.
  destruct (layers_around (cd_layer d)) as (before & after & -> & Hb & Ha).
  assert (cd_layer d ∉ before) as Hnb by (intros Hin; apply Hb in Hin; lia).
  assert (cd_layer d ∉ after) as Hna by (intros Hin; apply Ha in Hin; lia).
  rewrite !flat_map_app. simpl. rewrite !of_layer_snoc by done.
  unfold of_layer at 5. rewrite List.filter_app. simpl. rewrite bool_decide_eq_true_2 by done.
  fold (of_layer documents (cd_layer d)). rewrite app_assoc, insert_by_split.
  - by rewrite <-!app_assoc.
  - intros a [Hin%elem_of_layers|Hin]%elem_of_app; unfold layer_lt; apply Nat.ltb_ge.
    + apply Hb in Hin. lia.
    + apply list_elem_of_In, filter_In in Hin as [_ Hin%bool_decide_eq_true]. by rewrite Hin.
  - intros b Hin%elem_of_layers. unfold layer_lt. by apply Nat.ltb_lt, Ha.
Qed.

(** The documents without the overrides of the invocation. *)
Definition withoutOverrides (documents : list ConfigurationLayerDocument)
    : list ConfigurationLayerDocument :=
  List.filter (fun d => negb (bool_decide (cd_layer d = INVOCATION_OVERRIDE_LAYER))) documents.

Lemma of_layer_without documents layer :
  of_layer (withoutOverrides documents) layer =
  if bool_decide (layer = INVOCATION_OVERRIDE_LAYER) then [] else of_layer documents layer.
Proof.
  unfold of_layer, withoutOverrides. induction documents as [|d documents IH]; simpl.
  - by destruct (bool_decide _).
  - destruct (decide (cd_layer d = INVOCATION_OVERRIDE_LAYER)) as [E|E].
    + rewrite (bool_decide_eq_true_2 _ E). simpl. rewrite IH, E.
      repeat case_bool_decide; simplify_eq; done.
    + rewrite (bool_decide_eq_false_2 _ E). simpl. rewrite IH.
      repeat case_bool_decide; simplify_eq; done.
Qed.

Lemma sort_without documents :
  sortConfigurationDocuments documents =
  sortConfigurationDocuments (withoutOverrides documents) ++
  of_layer documents INVOCATION_OVERRIDE_LAYER.
Proof.
  rewrite !sort_layers. unfold CONFIGURATION_LAYERS. cbn [flat_map].
  rewrite !of_layer_without. cbn. by rewrite <-?app_assoc, !app_nil_r.
Qed.

(** ** Plain paths *)

(** A leaf of the merged document is a value some document has there. *)
Lemma merged_leaf_source documents p w :
  tidy_documents documents ->
  lookupPath (mergeDocuments documents) p = Some w -> isPlainObject w = false ->
  exists d, d ∈ documents /\ lookupPath (cd_values d) p = Some w.
Proof.
  intros Ht. induction documents as [|d documents IH] using rev_ind.
  - destruct p; [by intros [= <-]|done].
  - apply tidy_snoc in Ht as (Ht & Hd & _). rewrite merge_snoc.
    rewrite lookup_merge by (done || by apply merged_tidy). unfold merge_at.
    destruct (lookupPath (cd_values d) p) as [v|] eqn:Ev.
    + intros [= <-] Hl. exists d. split; [apply elem_of_app; right; by left|]. rewrite Ev. f_equal.
      symmetry. apply merge_leaf. destruct v as [| |fields]; try done.
      by destruct (lookupPath _ p) as [[]|].
    + destruct (blocked (cd_values d) p); [done|]. intros Hw Hl.
      destruct (IH Ht Hw Hl) as (d' & Hd' & Hv). exists d'. split; [|done]. apply elem_of_app. by left.
Qed.

Lemma blocked_below v q r w :
  lookupPath v q = Some w -> isPlainObject w = false -> r <> [] -> blocked v (q ++ r) = true.
Proof.
  revert v. induction q as [|k q IH]; intros v; simpl.
  - intros [= ->] Hw Hr. destruct r; [done|]. by destruct w.
  - destruct v as [| |fields]; try done. destruct (map_get fields k); [apply IH|done].
Qed.

Section Props.
Context `{Patterns}.

(** At a plain path the resolved document has the winner of the chain, and
    nothing when the chain is empty. *)
Lemma resolved_plain_exact policy documents diagnostics p :
  tidy_documents documents -> p <> [] -> plain_at p documents = true ->
  lookupPath (rc_values (resolveSanitized documents diagnostics policy)) p =
  pe_value ∘ cr_winner <$> leaf_resolution policy documents p.
Proof.
  intros Ht Hp Hpl. pose proof (merged_tidy _ Ht) as Hm.
  destruct (decide (p ∈ collectLeafPaths (mergeDocuments documents) [])) as [Hin|Hin];
    [apply resolved_leaf; auto|].
  assert (forall d, d ∈ documents -> lookupPath (cd_values d) p = None) as Hnone.
  { intros d Hd. destruct (lookupPath (cd_values d) p) eqn:E; [|done]. destruct Hin. by eapply plain_leaf. }
  assert (contributions policy p documents = []) as Hc.
  { apply flat_map_nil. intros d Hd. by rewrite Hnone. }
  unfold leaf_resolution. rewrite Hc. cbn [fmap option_fmap option_map]. rewrite resolved_values.
  destruct (lookupPath _ p) as [u|] eqn:Eu; [exfalso|done].
  assert (lookupPath (mergeDocuments documents) p = None) as Hmp.
  { rewrite merged_plain by done. destruct (last_at p documents) eqn:E; [|done].
    apply last_at_elem in E as (d & Hd & E). by rewrite Hnone in E. }
  destruct (applyEdits _ _ _) as [v|] eqn:Ev; [|by destruct p]. cbn [default] in Eu.
  destruct (edited_lookup (mergeDocuments documents) [] (resolved_edits policy documents) p u Hm)
    as [(_ & w & Hw & _)|(q & r & w & x & -> & Hq & Hw & _)]; [by rewrite Ev|congruence|].
  destruct r as [|k r]; [rewrite app_nil_r in *; congruence|].
  apply merged_leaf_source in Hq as (d & Hd & Hq); [|done..].
  unfold plain_at in Hpl. rewrite forallb_forall in Hpl.
  specialize (Hpl d (proj1 (list_elem_of_In _ _) Hd)).
  by rewrite (blocked_below _ _ (k :: r) _ Hq Hw) in Hpl.
Qed.

(** ** Provenance *)

Lemma records_pointers policy documents paths :
  sublist (map pr_pointer (flat_map (leaf_records policy documents) paths)) (map pathToPointer paths).
Proof.
  induction paths as [|p paths IH]; simpl; [constructor|]. rewrite map_app.
  unfold leaf_records at 1. destruct (leaf_resolution policy documents p); simpl; by constructor.
Qed.

Lemma elem_of_records policy documents paths rec :
  rec ∈ flat_map (leaf_records policy documents) paths <->
  exists p r, p ∈ paths /\ leaf_resolution policy documents p = Some r /\
    rec = {| pr_pointer := pathToPointer p; pr_winner := cr_winner r; pr_overridden := cr_overridden r |}.
Proof.
  rewrite list_elem_of_In, in_flat_map. unfold leaf_records. split.
  - intros (p & Hp%list_elem_of_In & Hrec). destruct (leaf_resolution policy documents p) as [r|] eqn:E;
      [|done]. destruct Hrec as [<-|[]]. eauto.
  - intros (p & r & Hp%list_elem_of_In & Hr & ->). exists p. split; [done|]. rewrite Hr. by left.
Qed.

(** C29: The provenance of a resolved configuration is exact.  No pointer has two
    records and the records are sorted.  The value a record credits to a layer
    is the value the resolved document has at the record's path; together with
    the entries it lists as overridden, in the order of the layers, it is all
    that the permitted documents say there; without a rule for the pointer the
    most specific of them is credited.  And every scalar or array of the
    resolved document lies at or below the path of a record, inside the value
    it credits. *)
Theorem provenance_exact documents policy :
  let docs := fst (sanitizeDocuments documents) in
  let index := indexConfigurationPolicy (default [] policy) in
  let resolved := resolveConfiguration documents policy in
  NoDup (map pr_pointer (rc_provenance resolved)) /\
  StronglySorted (not_after (key_lt pr_pointer)) (rc_provenance resolved) /\
  (forall rec, rec ∈ rc_provenance resolved ->
     exists p, pr_pointer rec = pathToPointer p /\
       lookupPath (rc_values resolved) p = Some (pe_value (pr_winner rec)) /\
       exists before after,
         contributions index p docs = before ++ pr_winner rec :: after /\
         pr_overridden rec = before ++ after /\
         (unruled index (pr_pointer rec) -> after = [])) /\
  (forall p u, lookupPath (rc_values resolved) p = Some u -> isPlainObject u = false ->
     exists q r rec, p = q ++ r /\ rec ∈ rc_provenance resolved /\
       pr_pointer rec = pathToPointer q /\ lookupPath (pe_value (pr_winner rec)) r = Some u).
Proof.
  cbv zeta. rewrite resolve_sanitized. set (docs := fst (sanitizeDocuments documents)).
  set (index := indexConfigurationPolicy _).
  pose proof (sanitized_tidy documents : tidy_documents docs) as Ht.
  pose proof (merged_tidy _ Ht) as Hm. rewrite resolved_provenance. split_and!.
  - rewrite sort_key_perm. eapply sublist_NoDup; [|apply records_pointers].
    apply (NoDup_fmap_2 pathToPointer). by apply leaves_NoDup.
  - apply sort_key_sorted.
  - intros rec. rewrite elem_of_sort_key, elem_of_records. intros (p & r & Hp & Hr & ->). exists p.
    split; [done|]. rewrite resolved_leaf by eauto. rewrite Hr. split; [done|].
    by apply leaf_resolution_winner.
  - intros p u Hu Hl. rewrite resolved_values in Hu.
    destruct (applyEdits _ _ _) as [v|] eqn:Ev;
      [|cbn in Hu; destruct p; [by injection Hu as <-|done]]. cbn [default] in Hu.
    destruct (edited_lookup (mergeDocuments docs) [] (resolved_edits index docs) p u Hm)
      as [(? & _)|(q & r & w & x & -> & Hq & Hw & Hx & Hr)]; [by rewrite Ev|congruence|].
    assert (q ∈ collectLeafPaths (mergeDocuments docs) []) as Hin by (apply leaf_paths; eauto).
    cbn [app] in Hx. rewrite resolved_edit in Hx by done. unfold leaf_edit in Hx.
    destruct (leaf_resolution index docs q) as [res|] eqn:Er; [|done]. injection Hx as <-.
    eexists q, r, _. split; [done|]. rewrite elem_of_sort_key, elem_of_records. split; [eauto|]. done.
Qed.

(** ** What wins *)

(** C30: The strictest hard limit wins.  At a path below the root with a hard limit and without an
    ordered-privacy rule (which is applied after the limit and may move the winner),
    which no document shadows with a scalar above it or an object at it, the resolved
    value has a magnitude as soon as some permitted layer supplies one, and no
    permitted layer supplies a stricter one; the value comes from a permitted
    layer. *)
Theorem strictest_limit_wins documents policy p strictest d v m :
  let docs := fst (sanitizeDocuments documents) in
  let index := indexConfigurationPolicy policy in
  p <> [] -> plain_at p docs = true ->
  map_get (ip_hardLimits index) (pathToPointer p) = Some strictest ->
  map_get (ip_privacy index) (pathToPointer p) = None ->
  d ∈ docs -> permitted index (pathToPointer p) d = true ->
  lookupPath (cd_values d) p = Some v -> limitMagnitude v = Some m ->
  exists w n, lookupPath (rc_values (resolveConfiguration documents (Some policy))) p = Some w /\
    limitMagnitude w = Some n /\ limitStricter strictest m n = false /\
    exists d', d' ∈ docs /\ permitted index (pathToPointer p) d' = true /\
      lookupPath (cd_values d') p = Some w.
Proof.
  cbv zeta. intros Hp Hpl Hlimit Hpriv Hd Hper Hv Hmag. rewrite resolve_sanitized. cbn [default].
  destruct (resolved_plain _ _ (snd (sanitizeDocuments documents)) p d v
    (sanitized_tidy documents) Hp Hpl Hd Hper Hv) as (w & Hw & Hi).
  destruct (winner_limit _ _ _ _ _ (entryOf d v) m Hlimit Hpriv Hi) as (n & Hn & Hs);
    [by apply elem_of_contributions; eauto 6|done|].
  exists (pe_value w), n. split_and!; [done..|].
  apply list_elem_of_lookup_2, elem_of_contributions in Hi as (d' & v' & Hd' & Hv' & Hp' & ->). eauto.
Qed.

Lemma rankOf_Some value values n :
  rankOf value values = Some n -> exists x, values !! n = Some x /\ strict_equal x value = true.
Proof.
  revert n. induction values as [|x values IH]; intros n; simpl; [done|].
  destruct (strict_equal x value) eqn:E; [intros [= <-]; by exists x|].
  intros (m & Hm & ->)%fmap_Some. simpl. by apply IH.
Qed.

Lemma rankOf_le value values i x :
  values !! i = Some x -> strict_equal x value = true ->
  exists n, rankOf value values = Some n /\ (n <= i)%nat.
Proof.
  revert i. induction values as [|y values IH]; intros i; simpl; [done|].
  destruct (strict_equal y value) eqn:E; [intros _ _; exists 0%nat; split; [done|lia]|].
  destruct i as [|i]; simpl; [intros [= ->]; congruence|]. intros Hi Hx.
  destruct (IH i Hi Hx) as (n & -> & Hn). exists (S n). split; [done|lia].
Qed.

(** Privacy is tightened, never weakened.  Take a path with a privacy rule
    that no document shadows.  When a permitted layer supplies the setting
    declared at position [i], strictest first, the resolved value is a setting
    declared at that position or an earlier one, and comes from a permitted
    layer. *)
Theorem privacy_never_weakened documents policy p strictestFirst d s i x :
  let docs := fst (sanitizeDocuments documents) in
  let index := indexConfigurationPolicy policy in
  p <> [] -> plain_at p docs = true ->
  map_get (ip_privacy index) (pathToPointer p) = Some strictestFirst ->
  d ∈ docs -> permitted index (pathToPointer p) d = true ->
  lookupPath (cd_values d) p = Some (JScalar s) ->
  strictestFirst !! i = Some x -> strict_equal x s = true ->
  exists t j y,
    lookupPath (rc_values (resolveConfiguration documents (Some policy))) p = Some (JScalar t) /\
    strictestFirst !! j = Some y /\ strict_equal y t = true /\ (j <= i)%nat /\
    exists d', d' ∈ docs /\ permitted index (pathToPointer p) d' = true /\
      lookupPath (cd_values d') p = Some (JScalar t).
Proof.
  cbv zeta. intros Hp Hpl Hpriv Hd Hper Hv Hx Hs. rewrite resolve_sanitized. cbn [default].
  destruct (rankOf_le _ _ _ _ Hx Hs) as (rank & Hrank & Hi).
  destruct (resolved_plain _ _ (snd (sanitizeDocuments documents)) p d (JScalar s)
    (sanitized_tidy documents) Hp Hpl Hd Hper Hv) as (w & Hw & Hwin).
  destruct (winner_privacy _ _ _ _ _ (entryOf d (JScalar s)) rank Hpriv Hwin) as (n & Hn & Hle);
    [by apply elem_of_contributions; eauto 6|done|].
  destruct (pe_value w) as [t| |] eqn:Et; try done. cbn [privacyRank] in Hn.
  destruct (rankOf_Some _ _ _ Hn) as (y & Hy & Hyt).
  exists t, n, y. split_and!; [done..|lia|].
  apply list_elem_of_lookup_2, elem_of_contributions in Hwin as (d' & v' & Hd' & Hv' & Hp' & ->).
  simpl in Et. subst v'. eauto.
Qed.

Lemma contributions_app policy p documents documents' :
  contributions policy p (documents ++ documents') =
  contributions policy p documents ++ contributions policy p documents'.
Proof. apply flat_map_app. Qed.

Lemma contributions_overrides policy p documents :
  set_has (ip_overridable policy) (pathToPointer p) = false ->
  (forall d, d ∈ documents -> cd_layer d = INVOCATION_OVERRIDE_LAYER) ->
  contributions policy p documents = [].
Proof.
  intros Ho Hl. apply flat_map_nil. intros d Hd. unfold permitted.
  rewrite (bool_decide_eq_true_2 _ (Hl d Hd)), Ho. by destruct (lookupPath _ p).
Qed.

(** Overriding is denied by default.  At a path that the policy does not
    declare overridable and that no document shadows, the invocation overrides
    have no effect: the resolved document is there what it is without them. *)
Theorem override_default_deny documents policy p :
  p <> [] -> plain_at p (fst (sanitizeDocuments documents)) = true ->
  set_has (ip_overridable (indexConfigurationPolicy policy)) (pathToPointer p) = false ->
  lookupPath (rc_values (resolveConfiguration documents (Some policy))) p =
  lookupPath (rc_values (resolveConfiguration (withoutOverrides documents) (Some policy))) p.
Proof.
  intros Hp Hpl Ho. rewrite !resolve_sanitized. cbn [default].
  rewrite !resolved_plain_exact; try done; try apply sanitized_tidy.
  - change (id policy) with policy. unfold leaf_resolution.
    assert (contributions (indexConfigurationPolicy policy) p (fst (sanitizeDocuments documents)) =
      contributions (indexConfigurationPolicy policy) p
        (fst (sanitizeDocuments (withoutOverrides documents)))) as ->; [|done].
    unfold sanitizeDocuments. cbn [fst]. rewrite (sort_without documents), !map_app.
    rewrite contributions_app, (contributions_overrides _ _ (map fst (map _ (of_layer _ _))));
      [apply app_nil_r|done|].
    intros d ([d' r] & -> & (x & Hx & Hin)%list_elem_of_fmap)%list_elem_of_fmap.
    apply list_elem_of_In, filter_In in Hin as [_ Hin%bool_decide_eq_true].
    unfold sanitizeDocument in Hx. destruct (sanitizeConfigurationValue _ _ _).
    by injection Hx as -> ->.
  - unfold sanitizeDocuments in *. cbn [fst] in *. rewrite (sort_without documents), !map_app in Hpl.
    unfold plain_at in Hpl. rewrite forallb_app in Hpl. by apply andb_true_iff in Hpl as [Hpl _].
Qed.

(** The order in which the caller lists the documents matters only within a
    layer. *)
Theorem resolution_order_irrelevant documents documents' policy :
  (forall layer, of_layer documents layer = of_layer documents' layer) ->
  resolveConfiguration documents policy = resolveConfiguration documents' policy.
Proof.
  intros E. unfold resolveConfiguration, sanitizeDocuments. rewrite !sort_layers.
  by rewrite (flat_map_ext _ (of_layer documents')).
Qed.
End Props.

(** ** Witnesses *)

(** Two documents: the built-in defaults, and a repository that asks for more
    workers and an open privacy mode. *)
Definition demanding : list ConfigurationLayerDocument :=
  [ {| cd_layer := repository; cd_sourcePath := Some "repository.yaml";
       cd_values := UObject
         [("limits", UObject [("max_concurrent_workers", UScalar (SNumber (num_of_Z 8)))]);
          ("privacy", UObject [("mode", UScalar (SString "open"))])] |};
    HENIEK_BUILT_IN_DEFAULTS ].

(** The built-in defaults, sanitized. *)
Definition demanding_defaults : LayerDocument JsonValue :=
  fst (sanitizeDocument HENIEK_BUILT_IN_DEFAULTS).

Lemma strictest_limit_wins_witness :
  exists w n,
    lookupPath (rc_values (@resolveConfiguration sample_patterns demanding
      (Some HENIEK_BUILT_IN_CONFIGURATION_POLICY))) ["limits"; "max_concurrent_workers"] = Some w /\
    limitMagnitude w = Some n /\ limitStricter lower (num_of_Z 4) n = false /\
    exists d', d' ∈ fst (sanitizeDocuments demanding) /\
      permitted (indexConfigurationPolicy HENIEK_BUILT_IN_CONFIGURATION_POLICY)
        (pathToPointer ["limits"; "max_concurrent_workers"]) d' = true /\
      lookupPath (cd_values d') ["limits"; "max_concurrent_workers"] = Some w.
Proof.
  apply (@strictest_limit_wins sample_patterns demanding HENIEK_BUILT_IN_CONFIGURATION_POLICY
    ["limits"; "max_concurrent_workers"] lower demanding_defaults
    (JScalar (SNumber (num_of_Z 4))) (num_of_Z 4)); try reflexivity; [discriminate|].
  apply list_elem_of_In. left. reflexivity.
Defined.

Lemma privacy_never_weakened_witness :
  exists t j y,
    lookupPath (rc_values (@resolveConfiguration sample_patterns demanding
      (Some HENIEK_BUILT_IN_CONFIGURATION_POLICY))) ["privacy"; "mode"] = Some (JScalar t) /\
    [SString "confidential"; SString "internal"; SString "open"] !! j = Some y /\
    strict_equal y t = true /\ (j <= 0)%nat /\
    exists d', d' ∈ fst (sanitizeDocuments demanding) /\
      permitted (indexConfigurationPolicy HENIEK_BUILT_IN_CONFIGURATION_POLICY)
        (pathToPointer ["privacy"; "mode"]) d' = true /\
      lookupPath (cd_values d') ["privacy"; "mode"] = Some (JScalar t).
Proof.
  apply (@privacy_never_weakened sample_patterns demanding HENIEK_BUILT_IN_CONFIGURATION_POLICY
    ["privacy"; "mode"] [SString "confidential"; SString "internal"; SString "open"]
    demanding_defaults (SString "confidential") 0 (SString "confidential"));
    try reflexivity; [discriminate|].
  apply list_elem_of_In. left. reflexivity.
Defined.

(** An invocation that asks for an open privacy mode. *)
Definition opening : ConfigurationLayerDocument :=
  {| cd_layer := invocation_override; cd_sourcePath := None;
     cd_values := UObject [("privacy", UObject [("mode", UScalar (SString "open"))])] |}.

Lemma override_default_deny_witness :
  lookupPath (rc_values (@resolveConfiguration sample_patterns (opening :: demanding)
    (Some HENIEK_BUILT_IN_CONFIGURATION_POLICY))) ["privacy"; "mode"] =
  lookupPath (rc_values (@resolveConfiguration sample_patterns demanding
    (Some HENIEK_BUILT_IN_CONFIGURATION_POLICY))) ["privacy"; "mode"].
Proof.
  apply (@override_default_deny sample_patterns (opening :: demanding) HENIEK_BUILT_IN_CONFIGURATION_POLICY
    ["privacy"; "mode"]); [discriminate|reflexivity..].
Defined.
