(* ===== verification/SqlList.v ===== *)
(** * Tables as lists of rows

    The stores beside the projection run single SQL statements over a handful
    of tables.  A table is the list of its rows in the order of their rowids
    (the order they were inserted in); a [SELECT] without [ORDER BY] lists rows
    in that order, and a join in the order of its first table. *)

From Stdlib Require Import Ascii.
From S2P Require Import Prelude.

(** [IdGenerator.next(prefix)] of [determinism.ts]: the n-th id given out. *)
Class IdGenerator := {
  id_text : string -> nat -> string;
  id_text_inj : forall p p' n n', id_text p n = id_text p' n' -> p = p' /\ n = n' }.

(** The n-th id: a tally of [n] strokes and the prefix. *)
Fixpoint tally (prefix : string) (n : nat) : string :=
  match n with O => String ":"%char prefix | S n => String "|"%char (tally prefix n) end.

Lemma tally_inj p p' n n' : tally p n = tally p' n' -> p = p' /\ n = n'.
Proof.
  revert n'. induction n as [|n IH]; intros [|n'] E; simpl in E; try discriminate; injection E.
  - by intros ->.
  - intros E'. by destruct (IH _ E') as [-> ->].
Qed.

(** A generator to run the code with. *)
Definition tallyIds : IdGenerator := {| id_text := tally; id_text_inj := tally_inj |}.

(** A condition that must hold for the operation to go on. *)
Definition ensure {S E : Type} (b : bool) (e : E) : ST S E unit := if b then ret tt else throw e.

(** ** Runs of the state-and-error monad

    A successful run of a composed operation is a chain of successful runs of
    its parts: the inversion of [m s = inr (a, s')], step by step. *)

Section Inversion.
Context {S E : Type}.

Lemma bind_run {A B} (m : ST S E A) (k : A -> ST S E B) s r :
  bind m k s = inr r -> exists a s1, m s = inr (a, s1) /\ k a s1 = inr r.
Proof. unfold bind. destruct (m s) as [e|[a s1]]; [done|]. eauto. Qed.

Lemma ret_run {A} (a b : A) (s s' : S) : @ret S E A a s = inr (b, s') -> b = a /\ s' = s.
Proof. by intros [= -> ->]. Qed.

Lemma get_run (a : S) (s s' : S) : @get S E s = inr (a, s') -> a = s /\ s' = s.
Proof. by intros [= -> ->]. Qed.

Lemma modify_run (f : S -> S) (u : unit) (s s' : S) : @modify S E f s = inr (u, s') -> s' = f s.
Proof. by intros [= _ ->]. Qed.

Lemma orThrow_run {A} (e : E) (o : option A) a (s s' : S) :
  orThrow e o s = inr (a, s') -> o = Some a /\ s' = s.
Proof. destruct o; [|done]. by intros [= -> ->]. Qed.

(** A loop succeeds when its iterations do, one after the other. *)
Lemma forM_run {A} (f : A -> ST S E unit) (I : S -> Prop) l s u s' :
  forM l f s = inr (u, s') -> I s ->
  (forall x s1 v s2, x ∈ l -> f x s1 = inr (v, s2) -> I s1 -> I s2) -> I s'.
Proof.
  revert s. induction l as [|x l IH]; intros s; simpl; [by intros [= _ ->]|].
  intros (v & s1 & E1 & E2)%bind_run HI Hf. eapply IH; [exact E2| |].
  - eapply Hf; [by left|exact E1|done].
  - intros y s2 w s3 Hy. apply Hf. by right.
Qed.

(** The same with the processed part of the list in the invariant. *)
Lemma forM_run_prefix {A} (f : A -> ST S E unit) (I : list A -> S -> Prop) l s u s' :
  forM l f s = inr (u, s') -> I [] s ->
  (forall front x rest s1 v s2, l = front ++ x :: rest ->
     f x s1 = inr (v, s2) -> I front s1 -> I (front ++ [x]) s2) -> I l s'.
Proof.
  intros Hrun HI Hf.
  enough (forall rest front s1, l = front ++ rest -> forM rest f s1 = inr (u, s') ->
            I front s1 -> I l s') as H by by apply (H l [] s).
  clear s Hrun HI. induction rest as [|x rest IH]; intros front s1 Hl; simpl.
  - rewrite app_nil_r in Hl. subst. by intros [= _ ->].
  - intros (v & s2 & E1 & E2)%bind_run HI. apply (IH (front ++ [x]) s2); [|done|].
    + by rewrite <-app_assoc.
    + by eapply Hf.
Qed.

(** Readers: operations that leave the state alone. *)
Lemma mapM_read {A B} (f : A -> ST S E B) (P : A -> B -> Prop) l s ys s' :
  mapM f l s = inr (ys, s') ->
  (forall x y s1, f x s = inr (y, s1) -> s1 = s /\ P x y) -> s' = s /\ Forall2 P l ys.
Proof.
  intros Hrun Hf. revert ys Hrun. induction l as [|x l IH]; intros ys; simpl.
  - intros [= <- <-]. split; [done|constructor].
  - intros (y & s1 & E1 & (ys' & s2 & E2 & [-> ->]%ret_run)%bind_run)%bind_run.
    destruct (Hf _ _ _ E1) as [-> Hy]. destruct (IH _ E2) as [-> Hys]. split; [done|].
    by constructor.
Qed.

Lemma mapM_read_spec {A B} (f : A -> ST S E B) (P : A -> B -> Prop) l s :
  (forall x, x ∈ l -> exists y, f x s = inr (y, s) /\ P x y) ->
  exists ys, mapM f l s = inr (ys, s) /\ Forall2 P l ys.
Proof.
  induction l as [|x l IH]; intros Hf; simpl; [exists []; by split; [|constructor]|].
  destruct (Hf x) as (y & Ey & Py); [by left|].
  destruct IH as (ys & Eys & Pys); [intros z Hz; apply Hf; by right|].
  exists (y :: ys). unfold bind. rewrite Ey, Eys. by split; [|constructor].
Qed.

Lemma mapM_read_total {A B} (f : A -> ST S E B) l s :
  (forall x, x ∈ l -> exists y, f x s = inr (y, s)) -> exists ys, mapM f l s = inr (ys, s).
Proof.
  induction l as [|x l IH]; intros Hf; simpl; [by eexists|].
  destruct (Hf x) as [y Ey]; [by left|].
  destruct IH as [ys Eys]; [intros z Hz; apply Hf; by right|].
  exists (y :: ys). unfold bind. by rewrite Ey, Eys.
Qed.

Lemma ensure_run (b : bool) (e : E) u (s s' : S) : ensure b e s = inr (u, s') -> b = true /\ s' = s.
Proof. destruct b; [|done]. by intros [= _ ->]. Qed.

Lemma bind_eq {A B} (m : ST S E A) (k : A -> ST S E B) s a s1 :
  m s = inr (a, s1) -> bind m k s = k a s1.
Proof. intros Hm. unfold bind. by rewrite Hm. Qed.
End Inversion.

(** One inversion step on a hypothesis about a run; the last clause looks at
    the scrutinee of a conditional. *)
Ltac run_step H :=
  lazymatch type of H with
  | bind _ _ _ = inr _ => let a := fresh "a" in let s := fresh "s" in let E := fresh "E" in
      apply bind_run in H as (a & s & E & H); cbv beta in H; run_step E
  | ret _ _ = inr (_, _) => apply ret_run in H as [? ?]; subst
  | get _ = inr (_, _) => apply get_run in H as [? ?]; subst
  | modify _ _ = inr (_, _) => apply modify_run in H; subst
  | orThrow _ _ _ = inr (_, _) => let E := fresh "E" in apply orThrow_run in H as [E ?]; subst
  | ensure _ _ _ = inr (_, _) => apply ensure_run in H as [H ?]; subst
  | throw _ _ = inr _ => discriminate H
  | _ => idtac
  end.

Ltac run_inv H := cbv beta zeta in H; repeat (progress (run_step H)).

Local Open Scope Z_scope.

Section Rows.
Context {R : Type}.
Implicit Types (rows : list R) (p : R -> bool) (f : R -> R).

(** [SELECT ... WHERE p] with [.all()], and with [.get()]. *)
Definition select_where p rows : list R := List.filter p rows.
Definition select_one p rows : option R := List.find p rows.

(** [SELECT count] of the rows [WHERE p]; also the [changes] of a statement. *)
Definition count_where p rows : Z := Z.of_nat (length (select_where p rows)).

(** [EXISTS (SELECT 1 ... WHERE p)]. *)
Definition exists_where p rows : bool := existsb p rows.

(** [UPDATE ... SET f WHERE p] and [DELETE ... WHERE p]. *)
Definition update_where p f rows : list R := map (fun r => if p r then f r else r) rows.
Definition delete_where p rows : list R := List.filter (fun r => negb (p r)) rows.

Lemma elem_of_select p rows r : r ∈ select_where p rows <-> r ∈ rows /\ p r = true.
Proof. unfold select_where. by rewrite !list_elem_of_In, filter_In. Qed.

Lemma elem_of_delete p rows r : r ∈ delete_where p rows <-> r ∈ rows /\ p r = false.
Proof.
  unfold delete_where. by rewrite !list_elem_of_In, filter_In, negb_true_iff.
Qed.

Lemma elem_of_update p f rows r :
  r ∈ update_where p f rows <-> exists r0, r0 ∈ rows /\ r = if p r0 then f r0 else r0.
Proof. unfold update_where. rewrite list_elem_of_fmap. naive_solver. Qed.

(** An updated row stands where the row it came from stood. *)
Lemma update_elem_1 p f rows r :
  r ∈ update_where p f rows ->
  (r ∈ rows /\ p r = false) \/ exists r0, r0 ∈ rows /\ p r0 = true /\ r = f r0.
Proof.
  intros (r0 & H0 & ->)%elem_of_update. destruct (p r0) eqn:E; [right|left]; eauto.
Qed.

Lemma update_elem_hit p f rows r : r ∈ rows -> p r = true -> f r ∈ update_where p f rows.
Proof. intros H Hp. apply elem_of_update. exists r. by rewrite Hp. Qed.

Lemma update_elem_miss p f rows r : r ∈ rows -> p r = false -> r ∈ update_where p f rows.
Proof. intros H Hp. apply elem_of_update. exists r. by rewrite Hp. Qed.

Lemma select_one_Some p rows r : select_one p rows = Some r -> r ∈ rows /\ p r = true.
Proof. intros H%find_some. by rewrite list_elem_of_In. Qed.

Lemma select_one_None p rows r : select_one p rows = None -> r ∈ rows -> p r = false.
Proof. intros H Hr. eapply find_none in H; [done|]. by apply list_elem_of_In. Qed.

Lemma select_one_is_Some p rows r : r ∈ rows -> p r = true -> is_Some (select_one p rows).
Proof.
  intros Hr Hp. destruct (select_one p rows) eqn:E; [by eexists|].
  pose proof (select_one_None _ _ _ E Hr). congruence.
Qed.

Lemma exists_where_true p rows :
  exists_where p rows = true <-> exists r, r ∈ rows /\ p r = true.
Proof.
  unfold exists_where. rewrite existsb_exists. by setoid_rewrite list_elem_of_In.
Qed.

Lemma exists_where_false p rows :
  exists_where p rows = false <-> forall r, r ∈ rows -> p r = false.
Proof.
  rewrite <-not_true_iff_false, exists_where_true. split.
  - intros H r Hr. destruct (p r) eqn:E; [|done]. destruct H. eauto.
  - intros H (r & Hr & E). rewrite H in E; done.
Qed.

Lemma count_where_nonneg p rows : 0 <= count_where p rows.
Proof. unfold count_where. lia. Qed.

Lemma count_where_app p rows rows' :
  count_where p (rows ++ rows') = count_where p rows + count_where p rows'.
Proof. unfold count_where, select_where. rewrite List.filter_app, length_app. lia. Qed.

Lemma count_where_mono p q rows :
  (forall r, r ∈ rows -> p r = true -> q r = true) -> count_where p rows <= count_where q rows.
Proof.
  unfold count_where, select_where. induction rows as [|r rows IH]; intros H; simpl; [lia|].
  assert (Hrows : forall r', r' ∈ rows -> p r' = true -> q r' = true)
    by (intros r' Hr'; apply H; by right).
  specialize (IH Hrows). destruct (p r) eqn:Ep.
  - rewrite (H r) by (by left || done). simpl. lia.
  - destruct (q r); simpl; lia.
Qed.

Lemma count_where_ext p q rows :
  (forall r, r ∈ rows -> p r = q r) -> count_where p rows = count_where q rows.
Proof.
  intros H. apply Z.le_antisymm; apply count_where_mono; intros r Hr; by rewrite H.
Qed.

Lemma count_where_pos p rows r : r ∈ rows -> p r = true -> 1 <= count_where p rows.
Proof.
  intros Hr Hp. unfold count_where.
  assert (Hin : r ∈ select_where p rows) by by apply elem_of_select.
  destruct (select_where p rows); [by apply elem_of_nil in Hin|]. simpl. lia.
Qed.

Lemma count_where_elem p rows : count_where p rows <> 0 -> exists r, r ∈ rows /\ p r = true.
Proof.
  unfold count_where. destruct (select_where p rows) as [|r l] eqn:E; [done|]. intros _.
  exists r. apply elem_of_select. rewrite E. by left.
Qed.

(** Columns a statement leaves alone. *)
Lemma update_map {B} (g : R -> B) p f rows :
  (forall r, p r = true -> g (f r) = g r) -> map g (update_where p f rows) = map g rows.
Proof.
  intros H. unfold update_where. rewrite map_map. apply map_ext. intros r.
  destruct (p r) eqn:E; auto.
Qed.

Lemma delete_NoDup {B} (g : R -> B) p rows :
  NoDup (map g rows) -> NoDup (map g (delete_where p rows)).
Proof.
  unfold delete_where. induction rows as [|r rows IH]; simpl; [done|].
  rewrite NoDup_cons. intros [Hn Hr]. destruct (negb (p r)); simpl; [|by apply IH].
  constructor; [|by apply IH]. intros (x & Hx & Hin)%list_elem_of_fmap. apply Hn.
  apply list_elem_of_fmap. exists x. split; [done|].
  apply list_elem_of_In in Hin. apply filter_In in Hin as [Hin _]. by apply list_elem_of_In.
Qed.

Lemma snoc_NoDup {B} (g : R -> B) rows r :
  NoDup (map g rows) -> (forall r', r' ∈ rows -> g r' <> g r) -> NoDup (map g (rows ++ [r])).
Proof.
  intros H Hr. rewrite map_app. apply NoDup_app. split; [done|]. split; [|apply NoDup_singleton].
  intros x (r' & Hx & Hin)%list_elem_of_fmap Hr'%list_elem_of_singleton.
  apply (Hr r'); [done|]. congruence.
Qed.

Lemma elem_of_snoc rows r x : x ∈ rows ++ [r] <-> x ∈ rows \/ x = r.
Proof. by rewrite elem_of_app, list_elem_of_singleton. Qed.

(** With distinct keys, at most one row has a given key. *)
Lemma select_one_key {B} (g : R -> B) p rows r :
  NoDup (map g rows) -> (forall r', p r' = true -> g r' = g r) ->
  r ∈ rows -> p r = true -> select_one p rows = Some r.
Proof.
  intros Hnd Hp Hr Hpr. destruct (select_one_is_Some p rows r Hr Hpr) as [r' E].
  rewrite E. f_equal. apply select_one_Some in E as [Hin E].
  apply (NoDup_map_inj g rows); auto.
Qed.

Lemma count_where_key {B} (g : R -> B) p rows :
  NoDup (map g rows) -> (forall r r', p r = true -> p r' = true -> g r = g r') ->
  count_where p rows <= 1.
Proof.
  intros Hnd Hp. unfold count_where, select_where.
  induction rows as [|r rows IH]; simpl; [lia|]. apply NoDup_cons in Hnd as [Hn Hnd].
  specialize (IH Hnd). destruct (p r) eqn:E; [|done]. simpl.
  destruct (List.filter p rows) as [|r' l] eqn:F; simpl; [lia|].
  assert (Hr' : In r' (List.filter p rows)) by (rewrite F; by left).
  apply filter_In in Hr' as [Hin Hpr']. destruct Hn. rewrite (Hp r r'); [|done..].
  apply list_elem_of_fmap_2. by apply list_elem_of_In.
Qed.

Lemma select_one_snoc p rows r :
  select_one p (rows ++ [r]) =
  match select_one p rows with Some x => Some x | None => if p r then Some r else None end.
Proof.
  unfold select_one. induction rows as [|x rows IH]; simpl; [by destruct (p r)|].
  by destruct (p x).
Qed.

Lemma select_one_snoc_old p rows r x :
  select_one p rows = Some x -> select_one p (rows ++ [r]) = Some x.
Proof. intros E. by rewrite select_one_snoc, E. Qed.

(** A statement that keeps the columns a lookup tests changes the row that is
    found, not which row is found. *)
Lemma select_one_update q p f rows :
  (forall r, p r = true -> q (f r) = q r) ->
  select_one q (update_where p f rows) =
  (fun r => if p r then f r else r) <$> select_one q rows.
Proof.
  intros H. unfold select_one, update_where. induction rows as [|r rows IH]; simpl; [done|].
  assert (E : q (if p r then f r else r) = q r) by (destruct (p r) eqn:Ep; auto).
  rewrite E. by destruct (q r).
Qed.

Lemma select_one_ext p q rows : (forall r, p r = q r) -> select_one p rows = select_one q rows.
Proof.
  intros Hpq. unfold select_one. induction rows as [|r rows IH]; simpl; [done|].
  rewrite Hpq. by destruct (q r).
Qed.

Lemma update_where_ext p q f rows :
  (forall r, r ∈ rows -> p r = q r) -> update_where p f rows = update_where q f rows.
Proof.
  intros H. unfold update_where. apply map_ext_in. intros r Hr. rewrite H; [done|].
  by apply list_elem_of_In.
Qed.

Lemma update_where_none p f rows :
  (forall r, r ∈ rows -> p r = false) -> update_where p f rows = rows.
Proof.
  intros H. unfold update_where. rewrite <-(map_id rows) at 2. apply map_ext_in. intros r Hr.
  rewrite H; [done|]. by apply list_elem_of_In.
Qed.

Lemma exists_where_snoc p rows r : exists_where p (rows ++ [r]) = exists_where p rows || p r.
Proof. unfold exists_where. rewrite existsb_app. simpl. by rewrite orb_false_r. Qed.

Lemma exists_select_one p rows :
  exists_where p rows = match select_one p rows with Some _ => true | None => false end.
Proof. unfold exists_where, select_one. induction rows as [|r rows IH]; simpl; [done|]. by destruct (p r). Qed.

Lemma select_one_elem p rows r :
  r ∈ rows -> p r = true -> exists r', select_one p rows = Some r' /\ r' ∈ rows /\ p r' = true.
Proof.
  intros Hr Hp. destruct (select_one_is_Some p rows r Hr Hp) as [r' E].
  exists r'. split; [done|]. by apply select_one_Some.
Qed.

Lemma select_where_update q p f rows :
  (forall r, p r = true -> q (f r) = q r) ->
  select_where q (update_where p f rows) = update_where p f (select_where q rows).
Proof.
  intros Hq. unfold select_where, update_where. induction rows as [|r rows IH]; [done|]. cbn.
  destruct (p r) eqn:Ep.
  - rewrite (Hq r Ep). destruct (q r); cbn; [|done]. by rewrite Ep, IH.
  - destruct (q r); cbn; [|done]. by rewrite Ep, IH.
Qed.

Lemma omap_update {B} (g : R -> option B) p f rows :
  (forall r, r ∈ rows -> p r = true -> g (f r) = g r) -> omap g (update_where p f rows) = omap g rows.
Proof.
  unfold update_where. induction rows as [|r rows IH]; intros Hg; [done|]. cbn.
  rewrite IH by (intros x Hx; apply Hg; by right). destruct (p r) eqn:Ep; [|done].
  by rewrite (Hg r ltac:(left) Ep).
Qed.

Lemma select_where_app q rows rows' :
  select_where q (rows ++ rows') = select_where q rows ++ select_where q rows'.
Proof. apply List.filter_app. Qed.

Lemma select_where_all q rows : (forall r, r ∈ rows -> q r = true) -> select_where q rows = rows.
Proof.
  unfold select_where. induction rows as [|r rows IH]; intros Hq; [done|]. cbn.
  rewrite (Hq r) by left. f_equal. apply IH. intros x Hx. apply Hq. by right.
Qed.

Lemma select_where_none q rows : (forall r, r ∈ rows -> q r = false) -> select_where q rows = [].
Proof.
  unfold select_where. induction rows as [|r rows IH]; intros Hq; [done|]. cbn.
  rewrite (Hq r) by left. apply IH. intros x Hx. apply Hq. by right.
Qed.

Lemma Forall_update (P : R -> Prop) p f rows :
  Forall P rows -> (forall r, p r = true -> P r -> P (f r)) -> Forall P (update_where p f rows).
Proof.
  intros H Hf. unfold update_where. rewrite Forall_map. eapply Forall_impl; [exact H|].
  intros r Hr. simpl. destruct (p r) eqn:E; auto.
Qed.

Lemma Forall_delete (P : R -> Prop) p rows : Forall P rows -> Forall P (delete_where p rows).
Proof. rewrite !Forall_forall. intros H r [Hr _]%elem_of_delete. by apply H. Qed.

Lemma Forall_snoc (P : R -> Prop) rows r : Forall P rows -> P r -> Forall P (rows ++ [r]).
Proof. intros H Hr. apply Forall_app. split; [done|]. by constructor. Qed.
End Rows.

(** The first row a partial function keeps. *)
Section FirstOf.
Context {R B : Type} (f : R -> option B).

Lemma head_omap_Some rows x : head (omap f rows) = Some x -> exists r, r ∈ rows /\ f r = Some x.
Proof.
  intros Hh. apply list_elem_of_omap. destruct (omap f rows); [done|]. injection Hh as ->. by left.
Qed.

Lemma head_omap_None rows r : head (omap f rows) = None -> r ∈ rows -> f r = None.
Proof.
  intros Hh Hr. destruct (f r) as [x|] eqn:E; [|done].
  assert (Hx : x ∈ omap f rows) by (apply list_elem_of_omap; eauto).
  destruct (omap f rows); [by apply elem_of_nil in Hx|done].
Qed.
End FirstOf.
