(* ===== verification/Scheduling.v ===== *)
(** * Account scheduling: the store

    [packages/state/src/scheduling/store.ts] with the tables of migrations 10
    and 19 ([migrations/list.ts], [migrations/capability-landing.ts]).

    A run that wants an agent is a schedule with an ordered list of candidates
    (profile and account).  Candidates wait in a queue per account; a worker
    claims the best queued candidate of an account with a free slot, which
    creates an attempt and a lease with a fencing number.  When an attempt
    fails the remaining candidates may be queued again; when the primary
    account is full the user may be asked.

    An operation is an [Op]: it reads and writes the database or throws, and
    a throw discards what the operation wrote ([transaction] rolls back).
    The clock is an argument, in milliseconds: its ISO texts order as instants
    do.  The identifiers come from a generator that never repeats itself. *)

From Stdlib Require Import Ascii.
From S2P Require Import Prelude Ids Json JsonProps StateJson SqlList.

Local Open Scope Z_scope.
Local Open Scope st_scope.

(** ** The schema *)

Inductive CapacityPolicy := Queue | Fallback | Ask.
Inductive ScheduleState := SQueued | SWaitingOnUser | SRunning | STerminal.
Inductive CandidateState := CPending | CQueued | CSelected | CRejected | CFailed | CSucceeded.
Inductive AttemptStatus :=
  | AQueued | ARunning | AWaitingOnUser | ARecoveryRequired | ASucceeded | AFailed | ACancelled.
Inductive LeaseState := LActive | LReleased | LExpired.
Inductive QuestionState := QPending | QAnswered.

Inductive SchedulingDecisionKind :=
  | Enqueued | CapacityRejected | CompatibilityRejected | CandidateSelected | LeaseAcquired
  | LeaseRenewed | LeaseReleased | LeaseExpired | CapacityQuestionCreated | CapacityAnswered
  | AttemptStarted | AttemptSucceeded | AttemptCancelled | AttemptFailed
  | AttemptRecoveryRequired | FallbackSelected | FallbackExhausted | UserChoice.

#[export] Instance CapacityPolicy_eq : EqDecision CapacityPolicy.
Proof. solve_decision. Defined.
#[export] Instance ScheduleState_eq : EqDecision ScheduleState.
Proof. solve_decision. Defined.
#[export] Instance CandidateState_eq : EqDecision CandidateState.
Proof. solve_decision. Defined.
#[export] Instance AttemptStatus_eq : EqDecision AttemptStatus.
Proof. solve_decision. Defined.
#[export] Instance LeaseState_eq : EqDecision LeaseState.
Proof. solve_decision. Defined.
#[export] Instance QuestionState_eq : EqDecision QuestionState.
Proof. solve_decision. Defined.
#[export] Instance SchedulingDecisionKind_eq : EqDecision SchedulingDecisionKind.
Proof. solve_decision. Defined.

(** A row of [execution_schedule]. *)
Record Schedule := mkSchedule {
  s_run_id : string;
  s_stage_id : string;
  s_codebase_id : string;
  s_repository_id : string;
  s_prompt : string;
  s_artifact_path : string;
  s_base_sha : option string;
  s_hard_deadline_at : option string;
  s_state : ScheduleState;
  s_capacity_policy : CapacityPolicy;
  s_requested_priority : Z;
  s_current_candidate_index : option Z;
  s_current_attempt_id : option string;
  s_revision : Z;
  s_chain_json : string;
  s_requested_secret_ids_json : string;
  s_enqueued_at : Z;
  s_updated_at : Z;
  s_capability_request_json : option string }.

(** A row of [execution_candidate]. *)
Record Candidate := mkCandidate {
  c_run_id : string;
  c_candidate_index : Z;
  c_profile_id : string;
  c_account_id : option string;
  c_engine : string;
  c_max_concurrent_runs : Z;
  c_profile_json : string;
  c_limits_json : string;
  c_permissions_json : string;
  c_state : CandidateState;
  c_capability_delta_json : option string }.

(** A row of [account_capacity]. *)
Record Capacity := mkCapacity {
  ac_account_id : string;
  ac_max_concurrent_runs : Z;
  ac_updated_at : Z }.

(** A row of [account_queue_entry]. *)
Record QueueEntry := mkQueueEntry {
  q_queue_sequence : Z;
  q_run_id : string;
  q_candidate_index : Z;
  q_account_id : string;
  q_requested_priority : Z;
  q_enqueued_at : Z }.

(** A row of [execution_attempt]. *)
Record Attempt := mkAttempt {
  a_attempt_id : string;
  a_run_id : string;
  a_stage_id : string;
  a_candidate_index : Z;
  a_profile_id : string;
  a_account_id : option string;
  a_workspace_id : option string;
  a_backend_execution_id : option string;
  a_status : AttemptStatus;
  a_limits_json : string;
  a_permissions_json : string;
  a_readonly_baseline_json : option string;
  a_result_json : option string;
  a_failure_json : option string;
  a_started_at : option Z;
  a_finished_at : option Z;
  a_created_at : Z;
  a_updated_at : Z }.

(** A row of [account_concurrency_lease]. *)
Record Lease := mkLease {
  l_lease_id : string;
  l_account_id : string;
  l_run_id : string;
  l_candidate_index : Z;
  l_attempt_id : string;
  l_owner_id : string;
  l_acquired_at : Z;
  l_renewed_at : Z;
  l_expires_at : Z;
  l_released_at : option Z;
  l_fencing_revision : Z;
  l_state : LeaseState }.

(** A row of [scheduling_decision]; [decision_sequence] is its position. *)
Record Decision := mkDecision {
  d_decision_id : string;
  d_run_id : string;
  d_stage_id : string;
  d_candidate_index : option Z;
  d_profile_id : option string;
  d_account_id : option string;
  d_kind : SchedulingDecisionKind;
  d_reason_code : string;
  d_recorded_at : Z }.

(** A row of [scheduling_capacity_question]. *)
Record Question := mkQuestion {
  k_run_id : string;
  k_interaction_id : string;
  k_question_json : string;
  k_state : QuestionState;
  k_revision : Z;
  k_answer_json : option string;
  k_created_at : Z;
  k_answered_at : option Z }.

(** The database: the tables, [PRAGMA user_version], the ids of the table
    [workspace] (written elsewhere, referenced by attempts), and how many ids
    the generator has given out. *)
Record Db := mkDb {
  user_version : Z;
  workspace_ids : list string;
  schedules : list Schedule;
  candidates : list Candidate;
  capacities : list Capacity;
  queue : list QueueEntry;
  attempts : list Attempt;
  leases : list Lease;
  decisions : list Decision;
  questions : list Question;
  next_id : nat }.

Definition with_schedules (f : list Schedule -> list Schedule) (db : Db) : Db :=
  mkDb (user_version db) (workspace_ids db) (f (schedules db)) (candidates db) (capacities db)
    (queue db) (attempts db) (leases db) (decisions db) (questions db) (next_id db).
Definition with_candidates (f : list Candidate -> list Candidate) (db : Db) : Db :=
  mkDb (user_version db) (workspace_ids db) (schedules db) (f (candidates db)) (capacities db)
    (queue db) (attempts db) (leases db) (decisions db) (questions db) (next_id db).
Definition with_capacities (f : list Capacity -> list Capacity) (db : Db) : Db :=
  mkDb (user_version db) (workspace_ids db) (schedules db) (candidates db) (f (capacities db))
    (queue db) (attempts db) (leases db) (decisions db) (questions db) (next_id db).
Definition with_queue (f : list QueueEntry -> list QueueEntry) (db : Db) : Db :=
  mkDb (user_version db) (workspace_ids db) (schedules db) (candidates db) (capacities db)
    (f (queue db)) (attempts db) (leases db) (decisions db) (questions db) (next_id db).
Definition with_attempts (f : list Attempt -> list Attempt) (db : Db) : Db :=
  mkDb (user_version db) (workspace_ids db) (schedules db) (candidates db) (capacities db)
    (queue db) (f (attempts db)) (leases db) (decisions db) (questions db) (next_id db).
Definition with_leases (f : list Lease -> list Lease) (db : Db) : Db :=
  mkDb (user_version db) (workspace_ids db) (schedules db) (candidates db) (capacities db)
    (queue db) (attempts db) (f (leases db)) (decisions db) (questions db) (next_id db).
Definition with_decisions (f : list Decision -> list Decision) (db : Db) : Db :=
  mkDb (user_version db) (workspace_ids db) (schedules db) (candidates db) (capacities db)
    (queue db) (attempts db) (leases db) (f (decisions db)) (questions db) (next_id db).
Definition with_questions (f : list Question -> list Question) (db : Db) : Db :=
  mkDb (user_version db) (workspace_ids db) (schedules db) (candidates db) (capacities db)
    (queue db) (attempts db) (leases db) (decisions db) (f (questions db)) (next_id db).
Definition with_next_id (n : nat) (db : Db) : Db :=
  mkDb (user_version db) (workspace_ids db) (schedules db) (candidates db) (capacities db)
    (queue db) (attempts db) (leases db) (decisions db) (questions db) n.

(** A database whose migrations have run and in which nothing happened. *)
Definition empty_db (version : Z) (workspaces : list string) : Db :=
  mkDb version workspaces [] [] [] [] [] [] [] [] 0.

(** ** Errors, clock and identifiers *)

Inductive SchedulingError :=
  | StoreError (message : string)
  | CorruptionError (message : string)
  (** SQLite refuses a statement. *)
  | ConstraintError (constraint : string)
  (** [toISOString] of a time outside the range of dates. *)
  | InvalidTime.

Definition Op (A : Type) : Type := ST Db SchedulingError A.

(** [Date.parse], whose accepted formats depend on the engine: [None] is [NaN]. *)
Class DateParser := { Date_parse : string -> option Z }.

Definition MAX_SAFE_INTEGER : Z := 9007199254740991.
Definition isSafeInteger (n : Z) : bool := (Z.abs n <=? MAX_SAFE_INTEGER).

(** [new Date(value).toISOString()] throws outside the range of dates. *)
Definition addMilliseconds (now ms : Z) : Op Z :=
  if (Z.abs (now + ms) <=? 8640000000000000) then ret (now + ms) else throw InvalidTime.

Definition guard (b : bool) (e : SchedulingError) : Op unit := if b then ret tt else throw e.

(** [BEGIN IMMEDIATE ... COMMIT], with [ROLLBACK] when the operation throws. *)
Definition transaction {A} (operation : Op A) : Op A := operation.

(** [stringifyCanonical], which throws on a value that is nested too deeply or
    holds a number that is not finite. *)
Definition stringifyOp (value : JsonValue) : Op string :=
  orThrow (StoreError "canonicalize") (stringifyCanonical value).

(** [value === undefined ? null : stringifyCanonical(value)]. *)
Definition stringifyOptional (value : option JsonValue) : Op (option string) :=
  match value with
  | None => ret None
  | Some v => let* text := stringifyOp v in ret (Some text)
  end.

Definition parseOp (text : string) (what : string) : Op JsonValue :=
  orThrow (StoreError (what +:+ " is not valid JSON")) (parseJsonValue text).

Definition parseOptional (text : option string) (what : string) : Op (option JsonValue) :=
  match text with
  | None => ret None
  | Some t => let* v := parseOp t what in ret (Some v)
  end.

(** ** [Date.prototype.toISOString], for the times that go into JSON texts *)

Fixpoint pad_left (width : nat) (text : string) : string :=
  match width with
  | O => text
  | S w => if (String.length text <? width)%nat then "0" +:+ pad_left w text else text
  end.

Definition digits (width : nat) (n : Z) : string := pad_left width (num_text n).

(** Year, month and day of a day since 1970-01-01, by the eras of 400 years. *)
Definition civil_of_days (days : Z) : Z * Z * Z :=
  let z := days + 719468 in
  let era := z / 146097 in
  let doe := z mod 146097 in
  let yoe := (doe - doe / 1460 + doe / 36524 - doe / 146096) / 365 in
  let doy := doe - (365 * yoe + yoe / 4 - yoe / 100) in
  let mp := (5 * doy + 2) / 153 in
  let d := doy - (153 * mp + 2) / 5 + 1 in
  let m := if mp <? 10 then mp + 3 else mp - 9 in
  let y := yoe + era * 400 + (if m <=? 2 then 1 else 0) in
  (y, m, d).

Definition year_text (y : Z) : string :=
  if (0 <=? y) && (y <=? 9999) then digits 4 y
  else (if y <? 0 then "-" else "+") +:+ digits 6 (Z.abs y).

Definition isoText (ms : Z) : string :=
  let '(y, m, d) := civil_of_days (ms / 86400000) in
  let t := ms mod 86400000 in
  year_text y +:+ "-" +:+ digits 2 m +:+ "-" +:+ digits 2 d +:+ "T" +:+
  digits 2 (t / 3600000) +:+ ":" +:+ digits 2 (t / 60000 mod 60) +:+ ":" +:+
  digits 2 (t / 1000 mod 60) +:+ "." +:+ digits 3 (t mod 1000) +:+ "Z".

(** ** Columns an [UPDATE] sets *)

(** [SET state = .., current_candidate_index = .., current_attempt_id = ..,
    revision = revision + 1, updated_at = ..]. *)
Definition schedule_move (state : ScheduleState) (index : option Z) (attempt : option string)
    (now : Z) (s : Schedule) : Schedule :=
  mkSchedule (s_run_id s) (s_stage_id s) (s_codebase_id s) (s_repository_id s) (s_prompt s)
    (s_artifact_path s) (s_base_sha s) (s_hard_deadline_at s) state (s_capacity_policy s)
    (s_requested_priority s) index attempt (s_revision s + 1) (s_chain_json s)
    (s_requested_secret_ids_json s) (s_enqueued_at s) now (s_capability_request_json s).

(** The same without the two columns of the current attempt. *)
Definition schedule_state (state : ScheduleState) (now : Z) (s : Schedule) : Schedule :=
  schedule_move state (s_current_candidate_index s) (s_current_attempt_id s) now s.

Definition candidate_state (state : CandidateState) (c : Candidate) : Candidate :=
  mkCandidate (c_run_id c) (c_candidate_index c) (c_profile_id c) (c_account_id c) (c_engine c)
    (c_max_concurrent_runs c) (c_profile_json c) (c_limits_json c) (c_permissions_json c) state
    (c_capability_delta_json c).

(** The columns of an attempt that change after it was inserted. *)
Definition attempt_set (workspace backend : option string) (status : AttemptStatus)
    (limits : string) (baseline result failure : option string) (started finished : option Z)
    (now : Z) (a : Attempt) : Attempt :=
  mkAttempt (a_attempt_id a) (a_run_id a) (a_stage_id a) (a_candidate_index a) (a_profile_id a)
    (a_account_id a) workspace backend status limits (a_permissions_json a) baseline result failure
    started finished (a_created_at a) now.

(** The columns of a lease that change after it was inserted. *)
Definition lease_set (owner : string) (renewed expires : Z) (released : option Z)
    (fence : Z) (state : LeaseState) (l : Lease) : Lease :=
  mkLease (l_lease_id l) (l_account_id l) (l_run_id l) (l_candidate_index l) (l_attempt_id l)
    owner (l_acquired_at l) renewed expires released fence state.

(** ** Keys and constraints *)

Definition run_is (run : string) (s : Schedule) : bool := str_eqb (s_run_id s) run.
Definition candidate_of (run : string) (c : Candidate) : bool := str_eqb (c_run_id c) run.
Definition candidate_is (run : string) (index : Z) (c : Candidate) : bool :=
  str_eqb (c_run_id c) run && (c_candidate_index c =? index).
Definition queued_of (run : string) (q : QueueEntry) : bool := str_eqb (q_run_id q) run.
Definition attempt_is (attempt : string) (a : Attempt) : bool := str_eqb (a_attempt_id a) attempt.
Definition lease_of (attempt : string) (l : Lease) : bool := str_eqb (l_attempt_id l) attempt.

Definition attempt_live (a : Attempt) : bool :=
  match a_status a with
  | AQueued | ARunning | AWaitingOnUser | ARecoveryRequired => true
  | _ => false
  end.

Definition lease_active (l : Lease) : bool := bool_decide (l_state l = LActive).

Section Store.
Context `{IdGenerator} `{DateParser}.

Definition freshId (prefix : string) : Op string :=
  let* db := get in
  modify (with_next_id (S (next_id db))) ;;;
  ret (id_text prefix (next_id db)).

(** [INSERT INTO execution_schedule]: the primary key and [UNIQUE stage_id]. *)
Definition insertSchedule (row : Schedule) : Op unit :=
  let* db := get in
  guard (negb (exists_where (run_is (s_run_id row)) (schedules db)))
    (ConstraintError "execution_schedule.run_id") ;;;
  guard (negb (exists_where (fun s => str_eqb (s_stage_id s) (s_stage_id row)) (schedules db)))
    (ConstraintError "execution_schedule.stage_id") ;;;
  modify (with_schedules (fun rows => rows ++ [row])).

(** [INSERT INTO execution_candidate]: the primary key, the reference to the
    schedule and the checks. *)
Definition insertCandidate (row : Candidate) : Op unit :=
  let* db := get in
  guard (negb (exists_where (candidate_is (c_run_id row) (c_candidate_index row)) (candidates db)))
    (ConstraintError "execution_candidate.run_id, execution_candidate.candidate_index") ;;;
  guard (exists_where (run_is (c_run_id row)) (schedules db)) (ConstraintError "FOREIGN KEY") ;;;
  guard ((0 <=? c_candidate_index row) && (1 <=? c_max_concurrent_runs row))
    (ConstraintError "execution_candidate") ;;;
  modify (with_candidates (fun rows => rows ++ [row])).

(** [INSERT INTO account_capacity ... ON CONFLICT(account_id) DO UPDATE]. *)
Definition upsertCapacity (row : Capacity) : Op unit :=
  modify (with_capacities (fun rows =>
    if exists_where (fun c => str_eqb (ac_account_id c) (ac_account_id row)) rows
    then update_where (fun c => str_eqb (ac_account_id c) (ac_account_id row)) (fun _ => row) rows
    else rows ++ [row])).

(** The rowid of a row inserted into a table with an [INTEGER PRIMARY KEY]: one
    more than the largest in use. *)
Definition next_sequence (rows : list QueueEntry) : Z :=
  fold_right (fun q acc => Z.max (q_queue_sequence q) acc) 0 rows + 1.

(** [INSERT INTO execution_attempt]. *)
Definition insertAttempt (row : Attempt) : Op unit :=
  let* db := get in
  guard (negb (exists_where (attempt_is (a_attempt_id row)) (attempts db)))
    (ConstraintError "execution_attempt.attempt_id") ;;;
  guard (negb (exists_where (fun a => str_eqb (a_run_id a) (a_run_id row) &&
                                     (a_candidate_index a =? a_candidate_index row)) (attempts db)))
    (ConstraintError "execution_attempt.run_id, execution_attempt.candidate_index") ;;;
  guard (exists_where (run_is (a_run_id row)) (schedules db)) (ConstraintError "FOREIGN KEY") ;;;
  guard (exists_where (candidate_is (a_run_id row) (a_candidate_index row)) (candidates db))
    (ConstraintError "FOREIGN KEY") ;;;
  modify (with_attempts (fun rows => rows ++ [row])).

(** [INSERT INTO account_concurrency_lease]. *)
Definition insertLease (row : Lease) : Op unit :=
  let* db := get in
  guard (negb (exists_where (fun l => str_eqb (l_lease_id l) (l_lease_id row)) (leases db)))
    (ConstraintError "account_concurrency_lease.lease_id") ;;;
  guard (negb (lease_active row &&
               exists_where (fun l => lease_of (l_attempt_id row) l && lease_active l) (leases db)))
    (ConstraintError "account_lease_attempt_active") ;;;
  guard (exists_where (attempt_is (l_attempt_id row)) (attempts db))
    (ConstraintError "FOREIGN KEY") ;;;
  guard (exists_where (candidate_is (l_run_id row) (l_candidate_index row)) (candidates db))
    (ConstraintError "FOREIGN KEY") ;;;
  modify (with_leases (fun rows => rows ++ [row])).

(** ** Decisions *)

Definition recordDecision (runId stageId : string) (candidateIndex : option Z)
    (profileId accountId : option string) (kind : SchedulingDecisionKind) (reasonCode : string)
    (now : Z) : Op unit :=
  let* decisionId := freshId "decision" in
  let* db := get in
  guard (negb (exists_where (fun d => str_eqb (d_decision_id d) decisionId) (decisions db)))
    (ConstraintError "scheduling_decision.decision_id") ;;;
  guard (exists_where (run_is runId) (schedules db)) (ConstraintError "FOREIGN KEY") ;;;
  guard (match candidateIndex with Some i => 0 <=? i | None => true end)
    (ConstraintError "scheduling_decision") ;;;
  modify (with_decisions (fun rows => rows ++
    [mkDecision decisionId runId stageId candidateIndex profileId accountId kind reasonCode now])).

Definition assertPriority (priority : Z) : Op unit :=
  guard (isSafeInteger priority && (0 <=? priority) && (priority <=? 9))
    (StoreError "requested priority must be an integer from 0 through 9").

Definition assertIso (value what : string) : Op Z :=
  orThrow (StoreError (what +:+ " must be an ISO-8601 timestamp")) (Date_parse value).

(** ** Reading a schedule *)

Record ExecutionScheduleSnapshot := mkScheduleSnapshot {
  es_row : Schedule;
  es_capabilityRequest : option JsonValue }.

Definition CAPABILITY_LANDING_SCHEMA_VERSION : Z := 19.

(** The columns of the landing exist from migration 19 on: before it a select
    leaves them out, and an insert does not write them. *)
Definition landing {A} (version : Z) (value : option A) : option A :=
  if CAPABILITY_LANDING_SCHEMA_VERSION <=? version then value else None.

Definition readExecutionSchedule (runId : string) : Op (option ExecutionScheduleSnapshot) :=
  let* db := get in
  match select_one (run_is runId) (schedules db) with
  | None => ret None
  | Some row =>
      let* request := parseOptional (landing (user_version db) (s_capability_request_json row))
                        "execution schedule capability request" in
      ret (Some (mkScheduleSnapshot row request))
  end.

Definition readExecutionScheduleRequired (runId : string) : Op ExecutionScheduleSnapshot :=
  let* schedule := readExecutionSchedule runId in
  orThrow (StoreError ("execution schedule does not exist: " +:+ runId)) schedule.

(** ** Queueing *)

Record QueueRow := mkQueueRow {
  queueSequence : Z;
  runId : string;
  stageId : string;
  codebaseId : string;
  repositoryId : string;
  prompt : string;
  artifactPath : string;
  candidateIndex : Z;
  profileId : string;
  accountId : string;
  requestedPriority : Z;
  enqueuedAt : Z;
  maxConcurrentRuns : Z;
  capacityPolicy : CapacityPolicy;
  baseSha : string;
  hardDeadlineAt : option string;
  profileJson : string;
  limitsJson : string;
  permissionsJson : string;
  capabilityDeltaJson : option string }.

Definition js_text (s : string) : JsonValue := JScalar (SString s).
Definition js_int (n : Z) : JsonValue := JScalar (SNumber (num_of_Z n)).

Definition question_option (label description : string) : JsonValue :=
  JObject [("label", js_text label); ("description", js_text description)].

(** The object [interaction] of [createCapacityQuestion]. *)
Definition capacityInteraction (interactionId questionId : string) (row : QueueRow)
    (fallbacks : list Candidate) (now : Z) : JsonValue :=
  JObject [
    ("schemaVersion", js_int 2);
    ("interactionId", js_text interactionId);
    ("purpose", js_text "approval");
    ("status", js_text "pending");
    ("revision", js_int 1);
    ("questions", JArray [JObject [
      ("questionId", js_text questionId);
      ("kind", js_text "single_choice");
      ("prompt", js_text "The primary account is at capacity. Choose how this run should proceed.");
      ("header", js_text "Account capacity");
      ("options", JArray (
        [question_option "Wait for primary" ("Wait for profile " +:+ profileId row +:+ ".")] ++
        map (fun c => question_option ("Use fallback " +:+ num_text (c_candidate_index c))
                        ("Run with profile " +:+ c_profile_id c +:+ ".")) fallbacks ++
        [question_option "Cancel run" "Cancel without starting a provider attempt."]))]]);
    ("requestedAt", js_text (isoText now));
    ("deliveryState", js_text "not_applicable")].

(** [ORDER BY candidate_index]. *)
Definition by_index (c c' : Candidate) : bool := c_candidate_index c <? c_candidate_index c'.

Definition createCapacityQuestion (row : QueueRow) (now : Z) : Op unit :=
  let* db := get in
  let fallbacks := sort_by by_index (select_where (fun c =>
    candidate_of (runId row) c && (0 <? c_candidate_index c) &&
    negb (bool_decide (c_state c = CRejected))) (candidates db)) in
  let* interactionId := freshId "interaction" in
  let* questionId := freshId "question" in
  let* text := stringifyOp (capacityInteraction interactionId questionId row fallbacks now) in
  guard (exists_where (run_is (runId row)) (schedules db)) (ConstraintError "FOREIGN KEY") ;;;
  modify (with_questions (fun rows =>
    if exists_where (fun k => str_eqb (k_run_id k) (runId row) ||
                              str_eqb (k_interaction_id k) interactionId) rows
    then rows
    else rows ++ [mkQuestion (runId row) interactionId text QPending 1 None now None])).

(** [INSERT OR IGNORE INTO account_queue_entry] and its [changes]. *)
Definition insertQueueEntry (run : string) (index : Z) (account : string) (priority now : Z)
    : Op Z :=
  let* db := get in
  if exists_where (fun q => queued_of run q && (q_candidate_index q =? index)) (queue db) ||
     negb ((0 <=? priority) && (priority <=? 9))
  then ret 0
  else
    guard (exists_where (candidate_is run index) (candidates db)) (ConstraintError "FOREIGN KEY") ;;;
    modify (with_queue (fun rows =>
      rows ++ [mkQueueEntry (next_sequence rows) run index account priority now])) ;;;
    ret 1.

Definition enqueueCandidate (run : string) (index : Z) (priority now : Z) : Op bool :=
  let* db := get in
  match select_one (candidate_is run index) (candidates db) with
  | None => ret false
  | Some candidate =>
      match c_account_id candidate with
      | None => ret false
      | Some account =>
          if bool_decide (c_state candidate = CRejected) then ret false else
          let* changes := insertQueueEntry run index account priority now in
          if changes =? 0 then ret false else
          modify (with_candidates (update_where (candidate_is run index) (candidate_state CQueued))) ;;;
          ret true
      end
  end.

(** ** Creating a schedule *)

Record SchedulingCandidateInput := mkCandidateInput {
  ci_profileId : string;
  ci_accountId : option string;
  ci_engine : string;
  ci_maxConcurrentRuns : Z;
  ci_profile : JsonValue;
  ci_limits : JsonValue;
  ci_permissions : JsonValue;
  ci_compatible : option bool;
  ci_rejectionReason : option string;
  ci_capabilityDelta : option JsonValue }.

Record CreateExecutionScheduleInput := mkCreateInput {
  in_runId : string;
  in_stageId : string;
  in_codebaseId : string;
  in_repositoryId : string;
  in_prompt : string;
  in_artifactPath : string;
  in_baseSha : string;
  in_hardDeadlineAt : option string;
  in_capacityPolicy : CapacityPolicy;
  in_requestedPriority : option Z;
  in_requestedIdentifiers : option (list string);
  in_chain : JsonValue;
  in_candidates : list SchedulingCandidateInput;
  in_capabilityRequest : option JsonValue }.

(** [/^[0-9a-f]{40}$/i]. *)
Fixpoint all_hex (text : string) : bool :=
  match text with
  | EmptyString => true
  | String c rest => bool_decide (is_Some (hex_value c)) && all_hex rest
  end.

Definition full_sha (text : string) : bool := (String.length text =? 40)%nat && all_hex text.

(** The checks made before the transaction. *)
Definition checkCreateInput (input : CreateExecutionScheduleInput) : Op unit :=
  let identifiers := default [] (in_requestedIdentifiers input) in
  assertPriority (default 0 (in_requestedPriority input)) ;;;
  guard (negb (length (in_candidates input) =? 0)%nat) (StoreError "a schedule needs a candidate") ;;;
  guard (length (set_of identifiers) =? length identifiers)%nat
    (StoreError "requested secret identifiers must be unique") ;;;
  guard (full_sha (in_baseSha input))
    (StoreError "base SHA must be a full 40-character Git object id") ;;;
  match in_hardDeadlineAt input with
  | None => ret tt
  | Some deadline => let* _ := assertIso deadline "hard deadline" in ret tt
  end.

Definition createScheduleRow (input : CreateExecutionScheduleInput) (now : Z) : Op unit :=
  let* db := get in
  let* chain := stringifyOp (in_chain input) in
  let* identifiers :=
    stringifyOp (JArray (map js_text (default [] (in_requestedIdentifiers input)))) in
  let* request := stringifyOptional (landing (user_version db) (in_capabilityRequest input)) in
  insertSchedule (mkSchedule (in_runId input) (in_stageId input) (in_codebaseId input)
    (in_repositoryId input) (in_prompt input) (in_artifactPath input) (Some (in_baseSha input))
    (in_hardDeadlineAt input) SQueued (in_capacityPolicy input)
    (default 0 (in_requestedPriority input)) None None 1 chain identifiers now now request).

(** The body of the first loop over the candidates. *)
Definition createCandidate (input : CreateExecutionScheduleInput) (now : Z)
    (entry : Z * SchedulingCandidateInput) : Op unit :=
  let '(index, candidate) := entry in
  let* db := get in
  guard (isSafeInteger (ci_maxConcurrentRuns candidate) && (1 <=? ci_maxConcurrentRuns candidate))
    (StoreError "max concurrent runs must be a positive integer") ;;;
  let compatible := bool_decide (ci_compatible candidate <> Some false) in
  let* profile := stringifyOp (ci_profile candidate) in
  let* limits := stringifyOp (ci_limits candidate) in
  let* permissions := stringifyOp (ci_permissions candidate) in
  let* delta := stringifyOptional (landing (user_version db) (ci_capabilityDelta candidate)) in
  insertCandidate (mkCandidate (in_runId input) index (ci_profileId candidate)
    (ci_accountId candidate) (ci_engine candidate) (ci_maxConcurrentRuns candidate)
    profile limits permissions (if compatible then CPending else CRejected) delta) ;;;
  match ci_accountId candidate with
  | None => ret tt
  | Some account => upsertCapacity (mkCapacity account (ci_maxConcurrentRuns candidate) now)
  end ;;;
  if compatible then ret tt
  else recordDecision (in_runId input) (in_stageId input) (Some index) (Some (ci_profileId candidate))
         (ci_accountId candidate) CompatibilityRejected
         (default "incompatible" (ci_rejectionReason candidate)) now.

(** [array.entries()] from an index on. *)
Fixpoint js_entries {A} (from : Z) (l : list A) : list (Z * A) :=
  match l with [] => [] | x :: l' => (from, x) :: js_entries (from + 1) l' end.

(** The body of the second loop: queue a candidate. *)
Definition createQueueEntry (input : CreateExecutionScheduleInput) (now : Z)
    (entry : Z * SchedulingCandidateInput) : Op unit :=
  let '(index, candidate) := entry in
  let* enqueued := enqueueCandidate (in_runId input) index
                     (default 0 (in_requestedPriority input)) now in
  if enqueued : bool
  then recordDecision (in_runId input) (in_stageId input) (Some index) (Some (ci_profileId candidate))
         (ci_accountId candidate) Enqueued
         (if index =? 0 then "primary" else "configured_fallback") now
  else ret tt.

Definition createExecutionSchedule (input : CreateExecutionScheduleInput) (now : Z)
    : Op ExecutionScheduleSnapshot :=
  checkCreateInput input ;;;
  transaction (
    createScheduleRow input now ;;;
    let entries := js_entries 0 (in_candidates input) in
    forM entries (createCandidate input now) ;;;
    forM (if bool_decide (in_capacityPolicy input = Fallback) then entries else firstn 1 entries)
      (createQueueEntry input now) ;;;
    readExecutionScheduleRequired (in_runId input)).

(** ** Claiming *)

Definition effectivePriority (row : QueueRow) (nowMs : Z) : Z :=
  Z.min 9 (requestedPriority row + Z.max 0 (nowMs - enqueuedAt row) / 60000).

(** The joins of the claim's select for one queue entry; [queueRow] then refuses
    a row whose [base_sha] is null. *)
Definition claimRow (db : Db) (account : option string) (q : QueueEntry)
    : option (Candidate * Schedule * QueueEntry) :=
  match select_one (candidate_is (q_run_id q) (q_candidate_index q)) (candidates db),
        select_one (run_is (q_run_id q)) (schedules db) with
  | Some c, Some s =>
      if bool_decide (c_state c = CQueued) && bool_decide (s_state s = SQueued) &&
         match account with None => true | Some a => str_eqb (q_account_id q) a end
      then Some (c, s, q) else None
  | _, _ => None
  end.

Definition queueRow (db : Db) (raw : Candidate * Schedule * QueueEntry) : Op QueueRow :=
  let '(c, s, q) := raw in
  let* sha := orThrow (StoreError "execution_schedule.base_sha is not a string (got object)")
                (s_base_sha s) in
  let capacity := match select_one (fun ac => str_eqb (ac_account_id ac) (q_account_id q))
                          (capacities db) with
                  | Some ac => ac_max_concurrent_runs ac
                  | None => c_max_concurrent_runs c
                  end in
  ret (mkQueueRow (q_queue_sequence q) (q_run_id q) (s_stage_id s) (s_codebase_id s)
    (s_repository_id s) (s_prompt s) (s_artifact_path s) (q_candidate_index q) (c_profile_id c)
    (q_account_id q) (q_requested_priority q) (q_enqueued_at q) capacity (s_capacity_policy s) sha
    (s_hard_deadline_at s) (c_profile_json c) (c_limits_json c) (c_permissions_json c)
    (landing (user_version db) (c_capability_delta_json c))).

Definition expireLease (now : Z) (l : Lease) : Lease :=
  lease_set (l_owner_id l) (l_renewed_at l) (l_expires_at l) (Some now)
    (l_fencing_revision l + 1) LExpired l.

(** A lease with the candidate and the schedule the select joins it with. *)
Definition leaseJoin (db : Db) (l : Lease) : option (Lease * Candidate * Schedule) :=
  match select_one (candidate_is (l_run_id l) (l_candidate_index l)) (candidates db),
        select_one (run_is (l_run_id l)) (schedules db) with
  | Some c, Some s => Some (l, c, s)
  | _, _ => None
  end.

Definition expireOne (now : Z) (row : Lease * Candidate * Schedule) : Op unit :=
  let '(l, c, s) := row in
  modify (with_leases (update_where
    (fun l' => str_eqb (l_lease_id l') (l_lease_id l) && lease_active l') (expireLease now))) ;;;
  recordDecision (l_run_id l) (s_stage_id s) (Some (l_candidate_index l)) (Some (c_profile_id c))
    (Some (l_account_id l)) LeaseExpired "orphan_lease_expired" now.

Definition expireOrphanLeases (now : Z) : Op unit :=
  let* db := get in
  let expired := omap (leaseJoin db)
    (select_where (fun l => lease_active l && (l_expires_at l <=? now)) (leases db)) in
  forM expired (expireOne now).

(** The comparator of the two sorts. *)
Definition row_before (nowMs : Z) (left right : QueueRow) : bool :=
  let priority := effectivePriority right nowMs - effectivePriority left nowMs in
  (if priority =? 0 then queueSequence left - queueSequence right else priority) <? 0.

Definition byAccount (rows : list QueueRow) : list (string * list QueueRow) :=
  fold_left (fun m row => map_set m (accountId row)
                            (default [] (map_get m (accountId row)) ++ [row])) rows [].

Definition accountHeads (nowMs : Z) (rows : list QueueRow) : list QueueRow :=
  omap (fun entries => head (sort_by (row_before nowMs) entries)) (map_values (byAccount rows)).

(** [WHERE account_id = ? AND state = 'active' AND expires_at > ?]. *)
Definition holds_slot (account : string) (now : Z) (l : Lease) : bool :=
  str_eqb (l_account_id l) account && lease_active l && (now <? l_expires_at l).

(** A head whose account is full: the refusal, and under [ask] the question. *)
Definition rejectHead (now : Z) (head : QueueRow) : Op unit :=
  recordDecision (runId head) (stageId head) (Some (candidateIndex head)) (Some (profileId head))
    (Some (accountId head)) CapacityRejected "account_at_capacity" now ;;;
  if bool_decide (capacityPolicy head = Ask) then
    modify (with_schedules (update_where
      (fun s => run_is (runId head) s && bool_decide (s_state s = SQueued))
      (schedule_state SWaitingOnUser now))) ;;;
    modify (with_queue (delete_where (queued_of (runId head)))) ;;;
    createCapacityQuestion head now ;;;
    recordDecision (runId head) (stageId head) (Some (candidateIndex head)) (Some (profileId head))
      (Some (accountId head)) CapacityQuestionCreated "primary_at_capacity" now
  else ret tt.

Fixpoint availableHeads (now : Z) (heads : list QueueRow) : Op (list QueueRow) :=
  match heads with
  | [] => ret []
  | head :: rest =>
      let* db := get in
      let active := count_where (holds_slot (accountId head) now) (leases db) in
      if active <? maxConcurrentRuns head then
        let* available := availableHeads now rest in
        ret (head :: available)
      else
        rejectHead now head ;;;
        availableHeads now rest
  end.

Definition earliestPerRun (available : list QueueRow) : list (string * QueueRow) :=
  fold_left (fun m row =>
    match map_get m (runId row) with
    | None => map_set m (runId row) row
    | Some previous =>
        if candidateIndex row <? candidateIndex previous then map_set m (runId row) row else m
    end) available [].

Definition selectRow (nowMs : Z) (available : list QueueRow) : option QueueRow :=
  head (sort_by (row_before nowMs) (map_values (earliestPerRun available))).

Record SchedulingClaim := mkClaim {
  cl_row : QueueRow;
  cl_attemptId : string;
  cl_fencingRevision : Z;
  cl_leaseExpiresAt : Z;
  cl_profile : JsonValue;
  cl_limits : JsonValue;
  cl_permissions : JsonValue;
  cl_capabilityDelta : option JsonValue }.

(** [SET state = CASE WHEN candidate_index = ? THEN 'selected' WHEN state =
    'queued' THEN 'pending' ELSE state END]. *)
Definition claimCandidate (index : Z) (c : Candidate) : Candidate :=
  if c_candidate_index c =? index then candidate_state CSelected c
  else if bool_decide (c_state c = CQueued) then candidate_state CPending c
  else c.

(** The writes of a claim. *)
Definition commitClaim (ownerId : string) (ttl now : Z) (selected : QueueRow)
    : Op (string * Z) :=
  let* attemptId := freshId "attempt" in
  let* leaseId := freshId "lease" in
  let* expiresAt := addMilliseconds now ttl in
  modify (with_queue (delete_where (queued_of (runId selected)))) ;;;
  modify (with_candidates (update_where (candidate_of (runId selected))
    (claimCandidate (candidateIndex selected)))) ;;;
  insertAttempt (mkAttempt attemptId (runId selected) (stageId selected) (candidateIndex selected)
    (profileId selected) (Some (accountId selected)) None None AQueued (limitsJson selected)
    (permissionsJson selected) None None None None None now now) ;;;
  insertLease (mkLease leaseId (accountId selected) (runId selected) (candidateIndex selected)
    attemptId ownerId now now expiresAt None 1 LActive) ;;;
  modify (with_schedules (update_where (run_is (runId selected))
    (schedule_move SRunning (Some (candidateIndex selected)) (Some attemptId) now))) ;;;
  recordDecision (runId selected) (stageId selected) (Some (candidateIndex selected))
    (Some (profileId selected)) (Some (accountId selected)) CandidateSelected
    (if candidateIndex selected =? 0 then "primary" else "fallback_capacity") now ;;;
  recordDecision (runId selected) (stageId selected) (Some (candidateIndex selected))
    (Some (profileId selected)) (Some (accountId selected)) LeaseAcquired "capacity_claimed" now ;;;
  ret (attemptId, expiresAt).

Definition DEFAULT_LEASE_TTL_MS : Z := 5 * 60000.

Definition claimNextExecutionCandidate (ownerId : string) (leaseTtlMs : option Z)
    (account : option string) (now : Z) : Op (option SchedulingClaim) :=
  let ttl := default DEFAULT_LEASE_TTL_MS leaseTtlMs in
  guard (isSafeInteger ttl && (1 <=? ttl)) (StoreError "lease TTL must be positive") ;;;
  transaction (
    expireOrphanLeases now ;;;
    let* db := get in
    let* rawRows := mapM (queueRow db) (omap (claimRow db account) (queue db)) in
    let* available := availableHeads now (accountHeads now rawRows) in
    match selectRow now available with
    | None => ret None
    | Some selected =>
        let* committed := commitClaim ownerId ttl now selected in
        let* profile := parseOp (profileJson selected) "execution candidate profile" in
        let* limits := parseOp (limitsJson selected) "execution candidate limits" in
        let* permissions := parseOp (permissionsJson selected) "execution candidate permissions" in
        let* delta := parseOptional (capabilityDeltaJson selected)
                        "execution candidate capability delta" in
        ret (Some (mkClaim selected (fst committed) 1 (snd committed) profile limits permissions delta))
    end).

(** ** Attempts *)

(** An [UPDATE execution_attempt] outside a transaction that must change one
    row. *)
Definition updateAttempt (p : Attempt -> bool) (f : Attempt -> Attempt) (message : string)
    : Op unit :=
  let* db := get in
  modify (with_attempts (update_where p f)) ;;;
  guard (count_where p (attempts db) =? 1) (StoreError message).

Definition assignAttemptWorkspace (attemptId workspaceId : string) (now : Z) : Op unit :=
  let* db := get in
  let p := fun a => attempt_is attemptId a && bool_decide (a_status a = AQueued) &&
                    bool_decide (a_workspace_id a = None) in
  guard (negb (exists_where p (attempts db)) || set_has (workspace_ids db) workspaceId)
    (ConstraintError "FOREIGN KEY") ;;;
  updateAttempt p
    (fun a => attempt_set (Some workspaceId) (a_backend_execution_id a) (a_status a)
                (a_limits_json a) (a_readonly_baseline_json a) (a_result_json a) (a_failure_json a)
                (a_started_at a) (a_finished_at a) now a)
    "attempt cannot accept a workspace".

Definition updateAttemptLimits (attemptId : string) (limits : JsonValue) (now : Z) : Op unit :=
  let* text := stringifyOp limits in
  updateAttempt (fun a => attempt_is attemptId a && bool_decide (a_status a = AQueued))
    (fun a => attempt_set (a_workspace_id a) (a_backend_execution_id a) (a_status a) text
                (a_readonly_baseline_json a) (a_result_json a) (a_failure_json a)
                (a_started_at a) (a_finished_at a) now a)
    "attempt cannot accept updated limits".

Definition startExecutionAttempt (attemptId backendExecutionId : string) (now : Z) : Op unit :=
  transaction (
    let* db := get in
    match select_one (fun a => attempt_is attemptId a && bool_decide (a_status a = AQueued) &&
                               bool_decide (is_Some (a_workspace_id a))) (attempts db) with
    | None => throw (StoreError "attempt is not ready to start")
    | Some row =>
        guard (negb (exists_where (fun a => negb (attempt_is attemptId a) &&
                 bool_decide (a_backend_execution_id a = Some backendExecutionId)) (attempts db)))
          (ConstraintError "execution_attempt.backend_execution_id") ;;;
        modify (with_attempts (update_where (attempt_is attemptId) (fun a =>
          attempt_set (a_workspace_id a) (Some backendExecutionId) ARunning (a_limits_json a)
            (a_readonly_baseline_json a) (a_result_json a) (a_failure_json a) (Some now)
            (a_finished_at a) now a))) ;;;
        recordDecision (a_run_id row) (a_stage_id row) (Some (a_candidate_index row))
          (Some (a_profile_id row)) (a_account_id row) AttemptStarted "backend_started" now
    end).

Definition recordAttemptReadonlyBaseline (attemptId : string) (baseline : JsonValue) (now : Z)
    : Op unit :=
  let* text := stringifyOp baseline in
  updateAttempt (fun a => attempt_is attemptId a && bool_decide (a_status a = AQueued) &&
                          bool_decide (a_readonly_baseline_json a = None))
    (fun a => attempt_set (a_workspace_id a) (a_backend_execution_id a) (a_status a)
                (a_limits_json a) (Some text) (a_result_json a) (a_failure_json a)
                (a_started_at a) (a_finished_at a) now a)
    "attempt cannot accept a read-only baseline".

(** ** Leases *)

(** [AND owner_id = ? AND fencing_revision = ? AND state = 'active' AND
    expires_at > ?]. *)
Definition renewable (attemptId ownerId : string) (fence now : Z) (l : Lease) : bool :=
  lease_of attemptId l && str_eqb (l_owner_id l) ownerId && (l_fencing_revision l =? fence) &&
  lease_active l && (now <? l_expires_at l).

Definition renewAccountLease (attemptId ownerId : string) (fencingRevision : Z)
    (leaseTtlMs : option Z) (now : Z) : Op (Z * Z) :=
  let ttl := default DEFAULT_LEASE_TTL_MS leaseTtlMs in
  transaction (
    expireOrphanLeases now ;;;
    let* expiresAt := addMilliseconds now ttl in
    let nextRevision := fencingRevision + 1 in
    let* db := get in
    modify (with_leases (update_where (renewable attemptId ownerId fencingRevision now)
      (fun l => lease_set (l_owner_id l) now expiresAt (l_released_at l) nextRevision
                  (l_state l) l))) ;;;
    guard (count_where (renewable attemptId ownerId fencingRevision now) (leases db) =? 1)
      (StoreError "account lease renewal was fenced or expired") ;;;
    match select_one (attempt_is attemptId) (attempts db) with
    | None => throw (CorruptionError "lease attempt is missing")
    | Some row =>
        let* account := orThrow (StoreError "execution_attempt.account_id is not a string (got object)")
                          (a_account_id row) in
        recordDecision (a_run_id row) (a_stage_id row) (Some (a_candidate_index row))
          (Some (a_profile_id row)) (Some account) LeaseRenewed "heartbeat" now ;;;
        ret (nextRevision, expiresAt)
    end).

(** The lease of an attempt joined with the attempt, the first one that
    satisfies the condition. *)
Definition leaseAttempt (db : Db) (p : Lease -> Attempt -> bool) : option (Lease * Attempt) :=
  head (omap (fun l =>
    match select_one (attempt_is (l_attempt_id l)) (attempts db) with
    | Some a => if p l a then Some (l, a) else None
    | None => None
    end) (leases db)).

Definition restoreAccountLease (attemptId ownerId : string) (leaseTtlMs : option Z)
    (recoveryReasonCode : option string) (now : Z) : Op (Z * Z) :=
  let ttl := default DEFAULT_LEASE_TTL_MS leaseTtlMs in
  transaction (
    let* expiresAt := addMilliseconds now ttl in
    let* db := get in
    match leaseAttempt db (fun l a => lease_of attemptId l && attempt_live a) with
    | None => throw (StoreError "recoverable account lease does not exist")
    | Some (l, row) =>
        let revision := l_fencing_revision l + 1 in
        match recoveryReasonCode with
        | None => ret tt
        | Some _ =>
            modify (with_attempts (update_where (attempt_is attemptId) (fun a =>
              attempt_set (a_workspace_id a) (a_backend_execution_id a) ARecoveryRequired
                (a_limits_json a) (a_readonly_baseline_json a) (a_result_json a) (a_failure_json a)
                (a_started_at a) (a_finished_at a) now a)))
        end ;;;
        guard (count_where (lease_of attemptId) (leases db) <=? 1)
          (ConstraintError "account_lease_attempt_active") ;;;
        modify (with_leases (update_where (lease_of attemptId) (fun l' =>
          lease_set ownerId now expiresAt None revision LActive l'))) ;;;
        recordDecision (a_run_id row) (a_stage_id row) (Some (a_candidate_index row))
          (Some (a_profile_id row)) (Some (l_account_id l))
          (match recoveryReasonCode with None => LeaseRenewed | Some _ => AttemptRecoveryRequired end)
          (default "daemon_restart_reconciled" recoveryReasonCode) now ;;;
        ret (revision, expiresAt)
    end).

Definition releaseLease (attemptId : string) (now : Z) (reasonCode : string) : Op unit :=
  let* db := get in
  match leaseAttempt db (fun l _ => lease_of attemptId l && lease_active l) with
  | None => ret tt
  | Some (l, row) =>
      modify (with_leases (update_where (fun l' => lease_of attemptId l' && lease_active l')
        (fun l' => lease_set (l_owner_id l') (l_renewed_at l') (l_expires_at l') (Some now)
                     (l_fencing_revision l' + 1) LReleased l'))) ;;;
      recordDecision (a_run_id row) (a_stage_id row) (Some (a_candidate_index row))
        (Some (a_profile_id row)) (Some (l_account_id l)) LeaseReleased reasonCode now
  end.

(** ** Completion *)

Inductive Completion := Succeeded | Failed | Cancelled.

Definition completion_status (c : Completion) : AttemptStatus :=
  match c with Succeeded => ASucceeded | Failed => AFailed | Cancelled => ACancelled end.

(** [`attempt_${status}`]. *)
Definition completion_reason (c : Completion) : string :=
  match c with
  | Succeeded => "attempt_succeeded"
  | Failed => "attempt_failed"
  | Cancelled => "attempt_cancelled"
  end.

(** [requeued = enqueueCandidate(...) || requeued]. *)
Fixpoint requeueLoop (run : string) (priority now : Z) (requeued : bool) (rest : list Candidate)
    : Op bool :=
  match rest with
  | [] => ret requeued
  | c :: rest' =>
      let* b := enqueueCandidate run (c_candidate_index c) priority now in
      requeueLoop run priority now (b || requeued) rest'
  end.

(** What a finished attempt writes, whatever follows. *)
Definition finishAttempt (status : Completion) (resultText failureText : option string)
    (fallbackEligible : bool) (now : Z) (row : Attempt) : Op unit :=
  modify (with_attempts (update_where (attempt_is (a_attempt_id row)) (fun a =>
    attempt_set (a_workspace_id a) (a_backend_execution_id a) (completion_status status)
      (a_limits_json a) (a_readonly_baseline_json a) resultText failureText (a_started_at a)
      (Some now) now a))) ;;;
  modify (with_candidates (update_where (candidate_is (a_run_id row) (a_candidate_index row))
    (candidate_state (match status with Succeeded => CSucceeded | _ => CFailed end)))) ;;;
  releaseLease (a_attempt_id row) now (completion_reason status) ;;;
  recordDecision (a_run_id row) (a_stage_id row) (Some (a_candidate_index row))
    (Some (a_profile_id row)) (a_account_id row)
    (match status with
     | Failed => AttemptFailed | Succeeded => AttemptSucceeded | Cancelled => AttemptCancelled
     end)
    (match status with
     | Failed => if fallbackEligible then "fallback_eligible" else "fail_closed"
     | _ => completion_reason status
     end) now.

(** The branch of an eligible failure: [true] when a candidate was queued. *)
Definition requeueRemaining (row : Attempt) (schedule : Schedule) (now : Z) : Op bool :=
  let run := a_run_id row in
  let* db := get in
  let remaining := sort_by by_index (select_where (fun c =>
    candidate_of run c && (a_candidate_index row <? c_candidate_index c) &&
    bool_decide (c_state c = CPending)) (candidates db)) in
  let* requeued := requeueLoop run (s_requested_priority schedule) now false remaining in
  if requeued : bool then
    modify (with_schedules (update_where (run_is run) (schedule_move SQueued None None now))) ;;;
    let next := head remaining in
    recordDecision run (a_stage_id row) (c_candidate_index <$> next) (c_profile_id <$> next)
      (next ≫= c_account_id) FallbackSelected "eligible_failure" now ;;;
    ret true
  else
    recordDecision run (a_stage_id row) (Some (a_candidate_index row)) (Some (a_profile_id row))
      (a_account_id row) FallbackExhausted "no_compatible_candidates" now ;;;
    ret false.

Record CompleteInput := mkCompleteInput {
  ca_attemptId : string;
  ca_status : Completion;
  ca_result : option JsonValue;
  ca_failure : option JsonValue;
  ca_fallbackEligible : option bool }.

Definition fallbackWanted (input : CompleteInput) : bool :=
  match ca_status input with
  | Failed => bool_decide (ca_fallbackEligible input = Some true)
  | _ => false
  end.

Definition completeExecutionAttempt (input : CompleteInput) (now : Z) : Op (bool * bool) :=
  transaction (
    let* db := get in
    match select_one (fun a => attempt_is (ca_attemptId input) a && attempt_live a) (attempts db) with
    | None => throw (StoreError "attempt is already terminal or does not exist")
    | Some row =>
        match select_one (run_is (a_run_id row)) (schedules db) with
        | None => throw (StoreError "attempt is already terminal or does not exist")
        | Some schedule =>
            let* resultText := stringifyOptional (ca_result input) in
            let* failureText := stringifyOptional (ca_failure input) in
            finishAttempt (ca_status input) resultText failureText
              (bool_decide (ca_fallbackEligible input = Some true)) now row ;;;
            let* requeued :=
              if fallbackWanted input then requeueRemaining row schedule now else ret false in
            if requeued : bool then ret (true, false) else
            modify (with_schedules (update_where (run_is (a_run_id row))
              (schedule_state STerminal now))) ;;;
            ret (false, fallbackWanted input)
        end
    end).

(** ** Cancelling *)

Definition cancelQueuedInside (schedule : ExecutionScheduleSnapshot) (now : Z) : Op unit :=
  let run := s_run_id (es_row schedule) in
  let stage := s_stage_id (es_row schedule) in
  let* db := get in
  match select_one (candidate_is run 0) (candidates db) with
  | None => throw (CorruptionError "primary candidate missing")
  | Some candidate =>
      let* attemptId := freshId "attempt" in
      insertAttempt (mkAttempt attemptId run stage 0 (c_profile_id candidate)
        (c_account_id candidate) None None ACancelled (c_limits_json candidate)
        (c_permissions_json candidate) None None None None (Some now) now now) ;;;
      modify (with_queue (delete_where (queued_of run))) ;;;
      modify (with_candidates (update_where (candidate_is run 0) (candidate_state CFailed))) ;;;
      modify (with_schedules (update_where (run_is run)
        (schedule_move STerminal (Some 0) (Some attemptId) now))) ;;;
      recordDecision run stage None None None UserChoice "cancel" now
  end.

Definition cancelQueuedExecutionSchedule (runId : string) (now : Z) : Op bool :=
  transaction (
    let* schedule := readExecutionScheduleRequired runId in
    match s_state (es_row schedule) with
    | STerminal => ret false
    | SRunning => throw (StoreError "running schedules must cancel their backend attempt first")
    | _ => cancelQueuedInside schedule now ;;; ret true
    end).

(** ** Capacity questions *)

Inductive CapacityAnswer := AnswerWait | AnswerFallback (candidateIndex : Z) | AnswerCancel.

(** What an answer other than a cancellation does. *)
Definition requeueAnswer (schedule : ExecutionScheduleSnapshot) (runId : string) (index : Z)
    (now : Z) : Op unit :=
  let* enqueued := enqueueCandidate runId index (s_requested_priority (es_row schedule)) now in
  guard enqueued (StoreError "capacity answer selected an unavailable candidate") ;;;
  modify (with_schedules (update_where (run_is runId) (schedule_state SQueued now))).

(** [true] is ["accepted"], [false] is ["stale"]. *)
Definition applyCapacityAnswerInside (runId : string) (expectedRevision : Z)
    (answer : CapacityAnswer) (now : Z) : Op bool :=
  let* schedule := readExecutionScheduleRequired runId in
  let row := es_row schedule in
  if negb (bool_decide (s_state row = SWaitingOnUser)) || negb (s_revision row =? expectedRevision)
  then ret false
  else
    let* reasonCode :=
      match answer with
      | AnswerCancel => cancelQueuedInside schedule now ;;; ret "cancel"
      | AnswerWait => requeueAnswer schedule runId 0 now ;;; ret "wait_for_primary"
      | AnswerFallback index =>
          guard (isSafeInteger index && (1 <=? index))
            (StoreError "fallback answer must select a configured fallback") ;;;
          requeueAnswer schedule runId index now ;;;
          ret "configured_fallback"
      end in
    recordDecision (s_run_id row) (s_stage_id row)
      (match answer with
       | AnswerFallback index => Some index | AnswerWait => Some 0 | AnswerCancel => None
       end) None None CapacityAnswered reasonCode now ;;;
    ret true.

Definition applyCapacityAnswer (runId : string) (expectedRevision : Z) (answer : CapacityAnswer)
    (now : Z) : Op bool :=
  transaction (applyCapacityAnswerInside runId expectedRevision answer now).

Record CapacityQuestionSnapshot := mkQuestionSnapshot {
  qs_row : Question;
  qs_interaction : JsonValue;
  qs_answer : option JsonValue }.

Definition readCapacityQuestion (runId : string) : Op (option CapacityQuestionSnapshot) :=
  let* db := get in
  match select_one (fun k => str_eqb (k_run_id k) runId) (questions db) with
  | None => ret None
  | Some row =>
      let* interaction := parseOp (k_question_json row) "capacity question" in
      let* answer := parseOptional (k_answer_json row) "capacity answer" in
      ret (Some (mkQuestionSnapshot row interaction answer))
  end.

(** [interaction.questions?.[0]?.questionId], when it is a text. *)
Definition interactionQuestionId (interaction : JsonValue) : option string :=
  match interaction with
  | JObject fields =>
      match map_get fields "questions" with
      | Some (JArray (JObject question :: _)) =>
          match map_get question "questionId" with
          | Some (JScalar (SString id)) => Some id
          | _ => None
          end
      | _ => None
      end
  | _ => None
  end.

Record SubmittedAnswer := mkSubmitted {
  sa_questionId : string;
  sa_kind : string;
  sa_selectedLabels : option (list string) }.

Definition submitted_json (a : SubmittedAnswer) : JsonValue :=
  JObject ([("questionId", js_text (sa_questionId a)); ("kind", js_text (sa_kind a))] ++
           match sa_selectedLabels a with
           | Some labels => [("selectedLabels", JArray (map js_text labels))]
           | None => []
           end).

(** The pattern of a fallback label: [Use fallback ] and a numeral that does not
    start with a zero. *)
Definition fallbackLabel (label : string) : option Z :=
  if String.prefix "Use fallback " label then
    let rest := String.substring 13 (String.length label - 13) label in
    match rest with
    | String c _ =>
        if all_digits rest && bool_decide (c <> "0"%char)
        then Some (Z.of_N (index_value 0 rest)) else None
    | EmptyString => None
    end
  else None.

Definition capacityChoice (label : string) : Op CapacityAnswer :=
  if str_eqb label "Wait for primary" then ret AnswerWait
  else if str_eqb label "Cancel run" then ret AnswerCancel
  else
    let* index := orThrow (StoreError "capacity choice is not recognized") (fallbackLabel label) in
    ret (AnswerFallback index).

Record AnswerInput := mkAnswerInput {
  ai_runId : string;
  ai_interactionId : string;
  ai_expectedInteractionRevision : Z;
  ai_answers : list SubmittedAnswer;
  ai_answeredByKeyId : string }.

Definition answerJson (input : AnswerInput) (answerId operationId : string) (revision now : Z)
    : JsonValue :=
  JObject [
    ("schemaVersion", js_int 2);
    ("answerId", js_text answerId);
    ("operationId", js_text operationId);
    ("interactionId", js_text (ai_interactionId input));
    ("interactionRevision", js_int revision);
    ("answers", JArray (map submitted_json (ai_answers input)));
    ("answeredAt", js_text (isoText now));
    ("answeredByKeyId", js_text (ai_answeredByKeyId input))].

(** The label the answers select, once they are checked against the question. *)
Definition checkAnswers (input : AnswerInput) (interaction : JsonValue) : Op string :=
  let refused := StoreError "capacity approval needs exactly one listed choice" in
  match ai_answers input with
  | [submitted] =>
      guard (str_eqb (sa_kind submitted) "single_choice") refused ;;;
      guard (bool_decide (interactionQuestionId interaction = Some (sa_questionId submitted)))
        refused ;;;
      match sa_selectedLabels submitted with
      | Some [label] => ret label
      | _ => throw refused
      end
  | _ => throw refused
  end.

(** [UPDATE scheduling_capacity_question SET state = 'answered', ...]. *)
Definition answerQuestion (text : string) (now : Z) (k : Question) : Question :=
  mkQuestion (k_run_id k) (k_interaction_id k) (k_question_json k) QAnswered (k_revision k + 1)
    (Some text) (k_created_at k) (Some now).

Record AnswerResult := mkAnswerResult {
  ar_interactionId : string;
  ar_interactionRevision : Z;
  ar_scheduleRevision : Z;
  ar_operationId : string }.

(** The clock is read once by [applyCapacityAnswerInside] and once afterwards. *)
Definition answerCapacityQuestion (input : AnswerInput) (now now' : Z) : Op AnswerResult :=
  transaction (
    guard (negb (str_eqb (ai_answeredByKeyId input) "")) (StoreError "answering key is required") ;;;
    let* found := readCapacityQuestion (ai_runId input) in
    let stale := StoreError "capacity answer is stale or does not belong to this run" in
    let* question := orThrow stale found in
    let k := qs_row question in
    guard (str_eqb (k_interaction_id k) (ai_interactionId input) &&
           bool_decide (k_state k = QPending) &&
           (k_revision k =? ai_expectedInteractionRevision input)) stale ;;;
    let* label := checkAnswers input (qs_interaction question) in
    let* answer := capacityChoice label in
    let* schedule := readExecutionScheduleRequired (ai_runId input) in
    let* accepted := applyCapacityAnswerInside (ai_runId input) (s_revision (es_row schedule))
                       answer now in
    guard accepted (StoreError "capacity schedule changed before the answer was accepted") ;;;
    let* operationId := freshId "operation" in
    let* answerId := freshId "answer" in
    let* text := stringifyOp (answerJson input answerId operationId (k_revision k + 1) now') in
    let p := fun k' => str_eqb (k_run_id k') (ai_runId input) &&
                       str_eqb (k_interaction_id k') (ai_interactionId input) &&
                       bool_decide (k_state k' = QPending) && (k_revision k' =? k_revision k) in
    let* db := get in
    modify (with_questions (update_where p (answerQuestion text now'))) ;;;
    guard (count_where p (questions db) =? 1)
      (StoreError "capacity question changed during answer acceptance") ;;;
    let* after := readExecutionScheduleRequired (ai_runId input) in
    ret (mkAnswerResult (ai_interactionId input) (k_revision k + 1) (s_revision (es_row after))
           operationId)).

(** ** Reads *)

Record ExecutionAttemptSnapshot := mkAttemptSnapshot {
  as_row : Attempt;
  as_limits : JsonValue;
  as_permissions : JsonValue;
  as_readonlyBaseline : option JsonValue;
  as_result : option JsonValue;
  as_failure : option JsonValue }.

Definition readAttempt (row : Attempt) : Op ExecutionAttemptSnapshot :=
  let* limits := parseOp (a_limits_json row) "limits" in
  let* permissions := parseOp (a_permissions_json row) "permissions" in
  let* baseline := parseOptional (a_readonly_baseline_json row) "read-only baseline" in
  let* result := parseOptional (a_result_json row) "result" in
  let* failure := parseOptional (a_failure_json row) "failure" in
  ret (mkAttemptSnapshot row limits permissions baseline result failure).

Definition attempt_index_lt (a a' : Attempt) : bool := a_candidate_index a <? a_candidate_index a'.

Definition readExecutionAttempts (runId : string) : Op (list ExecutionAttemptSnapshot) :=
  let* db := get in
  mapM readAttempt (sort_by attempt_index_lt
    (select_where (fun a => str_eqb (a_run_id a) runId) (attempts db))).

Record RecoverableSchedulingAttempt := mkRecoverable {
  ra_attempt : ExecutionAttemptSnapshot;
  ra_leaseOwnerId : string;
  ra_leaseFencingRevision : Z;
  ra_leaseExpiresAt : Z }.

(** [ORDER BY a.run_id, a.candidate_index]. *)
Definition recoverable_lt (x y : Attempt * Lease) : bool :=
  str_ltb (a_run_id (fst x)) (a_run_id (fst y)) ||
  (str_eqb (a_run_id (fst x)) (a_run_id (fst y)) && attempt_index_lt (fst x) (fst y)).

(** The rows of the select: a live attempt with each of its leases that is
    active or expired. *)
Definition recoverableRows (db : Db) : list (Attempt * Lease) :=
  sort_by recoverable_lt (flat_map (fun a =>
    map (pair a) (select_where (fun l => lease_of (a_attempt_id a) l &&
                                         bool_decide (l_state l <> LReleased)) (leases db)))
    (select_where attempt_live (attempts db))).

Definition readRecoverable (row : Attempt * Lease) : Op RecoverableSchedulingAttempt :=
  let '(a, l) := row in
  let* snapshots := readExecutionAttempts (a_run_id a) in
  let* attempt := orThrow (CorruptionError "recoverable scheduling attempt is missing")
    (List.find (fun e => str_eqb (a_attempt_id (as_row e)) (a_attempt_id a)) snapshots) in
  ret (mkRecoverable attempt (l_owner_id l) (l_fencing_revision l) (l_expires_at l)).

Definition readRecoverableSchedulingAttempts : Op (list RecoverableSchedulingAttempt) :=
  let* db := get in
  mapM readRecoverable (recoverableRows db).

Definition readSchedulingDecisions (runId : string) : Op (list Decision) :=
  let* db := get in
  ret (select_where (fun d => str_eqb (d_run_id d) runId) (decisions db)).
End Store.
