(* ===== verification/SchedulingInv.v ===== *)
(** * Account scheduling: the invariant of the store

    What the tables of [scheduling/store.ts] hold between operations, and what
    they hold while an operation moves one run from a state to the next. *)

From S2P Require Import Prelude SqlList Json StateJson Scheduling.

Local Open Scope Z_scope.

(** ** Lookups by key *)

Definition sched (db : Db) (run : string) : option Schedule :=
  select_one (run_is run) (schedules db).
Definition cand (db : Db) (run : string) (index : Z) : option Candidate :=
  select_one (candidate_is run index) (candidates db).
Definition att (db : Db) (id : string) : option Attempt :=
  select_one (attempt_is id) (attempts db).
Definition lease_for (db : Db) (id : string) : option Lease :=
  select_one (lease_of id) (leases db).

Definition ckey (c : Candidate) : string * Z := (c_run_id c, c_candidate_index c).
Definition qkey (q : QueueEntry) : string * Z := (q_run_id q, q_candidate_index q).
Definition akey (a : Attempt) : string * Z := (a_run_id a, a_candidate_index a).

Lemma run_is_true r s : run_is r s = true <-> s_run_id s = r.
Proof. apply str_eqb_true. Qed.
Lemma candidate_of_true r c : candidate_of r c = true <-> c_run_id c = r.
Proof. apply str_eqb_true. Qed.
Lemma candidate_is_true r i c :
  candidate_is r i c = true <-> c_run_id c = r /\ c_candidate_index c = i.
Proof. unfold candidate_is. by rewrite andb_true_iff, str_eqb_true, Z.eqb_eq. Qed.
Lemma queued_of_true r q : queued_of r q = true <-> q_run_id q = r.
Proof. apply str_eqb_true. Qed.
Lemma queued_of_false r q : queued_of r q = false <-> q_run_id q <> r.
Proof. apply str_eqb_false. Qed.
Lemma attempt_is_true r a : attempt_is r a = true <-> a_attempt_id a = r.
Proof. apply str_eqb_true. Qed.
Lemma lease_of_true r l : lease_of r l = true <-> l_attempt_id l = r.
Proof. apply str_eqb_true. Qed.
Lemma lease_active_true l : lease_active l = true <-> l_state l = LActive.
Proof. apply bool_decide_eq_true. Qed.
Lemma lease_active_false l : lease_active l = false <-> l_state l <> LActive.
Proof. apply bool_decide_eq_false. Qed.

#[export] Hint Rewrite run_is_true candidate_of_true candidate_is_true queued_of_true
  queued_of_false attempt_is_true lease_of_true lease_active_true lease_active_false
  str_eqb_true str_eqb_false andb_true_iff orb_false_iff negb_true_iff negb_false_iff
  @bool_decide_eq_true Z.eqb_eq Z.leb_le Z.ltb_lt : heniek.

Lemma sched_run db r s : sched db r = Some s -> s_run_id s = r.
Proof. intros [_ E]%select_one_Some. by apply run_is_true. Qed.
Lemma sched_elem db r s : sched db r = Some s -> s ∈ schedules db.
Proof. by intros [H _]%select_one_Some. Qed.
Lemma cand_key db r i c : cand db r i = Some c -> c_run_id c = r /\ c_candidate_index c = i.
Proof. intros [_ E]%select_one_Some. by apply candidate_is_true. Qed.
Lemma cand_elem db r i c : cand db r i = Some c -> c ∈ candidates db.
Proof. by intros [H _]%select_one_Some. Qed.
Lemma att_id db i a : att db i = Some a -> a_attempt_id a = i.
Proof. intros [_ E]%select_one_Some. by apply attempt_is_true. Qed.
Lemma att_elem db i a : att db i = Some a -> a ∈ attempts db.
Proof. by intros [H _]%select_one_Some. Qed.
Lemma lease_for_id db i l : lease_for db i = Some l -> l_attempt_id l = i.
Proof. intros [_ E]%select_one_Some. by apply lease_of_true. Qed.
Lemma lease_for_elem db i l : lease_for db i = Some l -> l ∈ leases db.
Proof. by intros [H _]%select_one_Some. Qed.

Lemma sched_runs db r : r ∈ map s_run_id (schedules db) <-> is_Some (sched db r).
Proof.
  split.
  - intros (s & -> & Hs)%list_elem_of_fmap. eapply select_one_is_Some; [exact Hs|].
    by apply run_is_true.
  - intros [s Hs]. rewrite <-(sched_run _ _ _ Hs). apply list_elem_of_fmap_2.
    by eapply sched_elem.
Qed.

(** ** The invariant *)

Section Invariant.
Context `{IdGenerator}.

(** The columns of a schedule that never change. *)
Definition schedule_ident (s : Schedule) :=
  (s_run_id s, s_stage_id s, s_codebase_id s, s_repository_id s, s_prompt s, s_artifact_path s,
   s_base_sha s, s_hard_deadline_at s, s_capacity_policy s, s_requested_priority s,
   s_chain_json s, s_requested_secret_ids_json s, s_enqueued_at s, s_capability_request_json s).

(** An id the generator has given out. *)
Definition issued (db : Db) (prefix id : string) : Prop :=
  exists n, (n < next_id db)%nat /\ id = id_text prefix n.

Lemma issued_next db n prefix id :
  (next_id db <= n)%nat -> issued db prefix id -> issued (with_next_id n db) prefix id.
Proof. intros Hn (k & Hk & ->). exists k. simpl. split; [lia|done]. Qed.

(** The id given out next is none of those issued. *)
Lemma fresh_not_issued db prefix id :
  issued db prefix id -> id <> id_text prefix (next_id db).
Proof. intros (k & Hk & ->) E. apply id_text_inj in E as [_ ->]. lia. Qed.

Definition schedule_ok (s : Schedule) : Prop :=
  0 <= s_requested_priority s <= 9 /\ 1 <= s_revision s /\ is_Some (s_base_sha s).

(** [moving r] says that run [r] is in the middle of an operation: no attempt of
    it is live, and the state of its schedule is about to be written. *)
Record InvBut (moving : string -> Prop) (db : Db) : Prop := {
  (** Keys of the tables, and what the references refer to. *)
  inv_runs : NoDup (map s_run_id (schedules db));
  inv_stages : NoDup (map s_stage_id (schedules db));
  inv_schedules : Forall schedule_ok (schedules db);
  inv_cand_keys : NoDup (map ckey (candidates db));
  inv_cands : Forall (fun c => c_run_id c ∈ map s_run_id (schedules db) /\
                               0 <= c_candidate_index c /\ 1 <= c_max_concurrent_runs c)
                (candidates db);
  inv_capacities : NoDup (map ac_account_id (capacities db)) /\
                   Forall (fun ac => 1 <= ac_max_concurrent_runs ac) (capacities db);
  inv_queue_keys : NoDup (map qkey (queue db));
  inv_queue_seq : NoDup (map q_queue_sequence (queue db));
  inv_attempt_ids : NoDup (map a_attempt_id (attempts db));
  inv_attempt_keys : NoDup (map akey (attempts db));
  inv_attempts : Forall (fun a => akey a ∈ map ckey (candidates db) /\
                                  issued db "attempt" (a_attempt_id a)) (attempts db);
  inv_lease_ids : NoDup (map l_lease_id (leases db));
  inv_lease_attempts : NoDup (map l_attempt_id (leases db));
  inv_decisions : NoDup (map d_decision_id (decisions db)) /\
                  Forall (fun d => d_run_id d ∈ map s_run_id (schedules db) /\
                                   issued db "decision" (d_decision_id d)) (decisions db);
  inv_questions : NoDup (map k_run_id (questions db)) /\
                  NoDup (map k_interaction_id (questions db)) /\
                  Forall (fun k => k_run_id k ∈ map s_run_id (schedules db) /\
                                   issued db "interaction" (k_interaction_id k)) (questions db);
  (** A queued candidate waits for its own account, and its run is queued. *)
  inv_queue : forall q, q ∈ queue db ->
    0 <= q_requested_priority q <= 9 /\
    (exists c, cand db (q_run_id q) (q_candidate_index q) = Some c /\
       c_state c = CQueued /\ c_account_id c = Some (q_account_id q)) /\
    (~ moving (q_run_id q) -> exists s, sched db (q_run_id q) = Some s /\ s_state s = SQueued);
  (** A live attempt is the current attempt of a running schedule, and every
      running schedule has one. *)
  inv_live : forall id a, att db id = Some a -> attempt_live a = true ->
    ~ moving (a_run_id a) /\
    exists s, sched db (a_run_id a) = Some s /\ s_state s = SRunning /\
      s_current_attempt_id s = Some id /\
      s_current_candidate_index s = Some (a_candidate_index a);
  inv_running : forall r s, ~ moving r -> sched db r = Some s -> s_state s = SRunning ->
    exists id a, s_current_attempt_id s = Some id /\ att db id = Some a /\
      attempt_live a = true /\ a_run_id a = r;
  (** A lease belongs to an attempt and agrees with it; it is active only while
      the attempt is live, and released only once it is not. *)
  inv_leases : forall l, l ∈ leases db ->
    issued db "lease" (l_lease_id l) /\ 1 <= l_fencing_revision l /\
    exists a, att db (l_attempt_id l) = Some a /\ a_run_id a = l_run_id l /\
      a_candidate_index a = l_candidate_index l /\ a_account_id a = Some (l_account_id l) /\
      (l_state l = LActive -> attempt_live a = true) /\
      (l_state l = LReleased -> attempt_live a = false);
  inv_live_lease : forall id a, att db id = Some a -> attempt_live a = true ->
    is_Some (lease_for db id);
  (** A run that waits for the user has a capacity question. *)
  inv_waiting : forall r s, ~ moving r -> sched db r = Some s -> s_state s = SWaitingOnUser ->
    r ∈ map k_run_id (questions db) }.

Definition settled (r : string) : Prop := False.
Definition Inv (db : Db) : Prop := InvBut settled db.

Lemma empty_inv version workspaces : Inv (empty_db version workspaces).
Proof.
  split; simpl; try (by constructor); try done.
  all: try (split_and!; by constructor).
  all: intros ? ?%elem_of_nil; done.
Qed.

(** ** One table at a time *)

Lemma inv_next_id m db n :
  InvBut m db -> (next_id db <= n)%nat -> InvBut m (with_next_id n db).
Proof.
  intros [] Hn. split; try assumption.
  - eapply Forall_impl; [eassumption|]. intros a [Ha Hi]. split; [done|]. by apply issued_next.
  - destruct inv_decisions0 as [Hd Hf]. split; [done|]. eapply Forall_impl; [exact Hf|].
    intros d [Ha Hi]. split; [done|]. by apply issued_next.
  - destruct inv_questions0 as (Hr & Hd & Hf). split_and!; [done..|].
    eapply Forall_impl; [exact Hf|]. intros d [Ha Hi]. split; [done|]. by apply issued_next.
  - intros l Hl. destruct (inv_leases0 l Hl) as (Hi & Hrest). split; [|done].
    by apply issued_next.
Qed.

Lemma inv_add_decision m db d :
  InvBut m db -> (forall d', d' ∈ decisions db -> d_decision_id d' <> d_decision_id d) ->
  is_Some (sched db (d_run_id d)) -> issued db "decision" (d_decision_id d) ->
  InvBut m (with_decisions (fun rows => rows ++ [d]) db).
Proof.
  intros [] Hf Hr Hi. split; try assumption. destruct inv_decisions0 as [Hd Ha]. split.
  - by apply snoc_NoDup.
  - apply Forall_snoc; [exact Ha|]. split; [by apply sched_runs|done].
Qed.

Definition lease_ident (l : Lease) : string * string * string * Z * string :=
  (l_lease_id l, l_account_id l, l_run_id l, l_candidate_index l, l_attempt_id l).

Lemma inv_update_leases m db p f :
  InvBut m db -> (forall l, lease_ident (f l) = lease_ident l) ->
  (forall l a, l ∈ leases db -> p l = true -> att db (l_attempt_id l) = Some a ->
     1 <= l_fencing_revision (f l) /\
     (l_state (f l) = LActive -> attempt_live a = true) /\
     (l_state (f l) = LReleased -> attempt_live a = false)) ->
  InvBut m (with_leases (update_where p f) db).
Proof.
  intros [] Hid Hf.
  assert (Hkey : forall l, l_attempt_id (f l) = l_attempt_id l)
    by (intros l; specialize (Hid l); unfold lease_ident in Hid; congruence).
  split; try assumption; simpl.
  - rewrite update_map; [done|]. intros l _. specialize (Hid l). unfold lease_ident in Hid. congruence.
  - by rewrite update_map.
  - intros l [[Hl _]|(l0 & Hl & Hp & ->)]%update_elem_1; [by apply inv_leases0|].
    destruct (inv_leases0 l0 Hl) as (Hi & Hfe & a & Ha & Hr & Hc & Hac & _ & _).
    destruct (Hf l0 a Hl Hp Ha) as (? & ? & ?). specialize (Hid l0). unfold lease_ident in Hid.
    injection Hid as E1 E2 E3 E4 E5. rewrite E1, E2, E3, E4, E5.
    split; [exact Hi|]. split; [done|]. exists a. by split_and!.
  - intros id a Ha Hl. destruct (inv_live_lease0 id a Ha Hl) as [l El].
    unfold lease_for in *. simpl. rewrite select_one_update, El; [by eexists|].
    intros l' _. unfold lease_of. by rewrite Hkey.
Qed.

(** Columns of attempts other than the identity and whether they are live. *)
Definition attempt_ident (a : Attempt) : string * string * Z * option string * bool :=
  (a_attempt_id a, a_run_id a, a_candidate_index a, a_account_id a, attempt_live a).

Lemma att_update db p f id :
  (forall a, p a = true -> a_attempt_id (f a) = a_attempt_id a) ->
  att (with_attempts (update_where p f) db) id = (fun a => if p a then f a else a) <$> att db id.
Proof.
  intros Hf. apply select_one_update. intros a Ha. unfold attempt_is. by rewrite Hf.
Qed.

Lemma inv_update_attempts m db p f :
  InvBut m db -> (forall a, a ∈ attempts db -> p a = true -> attempt_ident (f a) = attempt_ident a) ->
  (forall a, a_attempt_id (f a) = a_attempt_id a /\ akey (f a) = akey a) ->
  InvBut m (with_attempts (update_where p f) db).
Proof.
  intros [] Hid Hkey.
  assert (Hatt : forall id a', att (with_attempts (update_where p f) db) id = Some a' ->
            exists a, att db id = Some a /\ attempt_ident a' = attempt_ident a).
  { intros id a'. rewrite att_update by (intros; apply Hkey).
    intros (a & Ha & ->)%fmap_Some. exists a. split; [done|].
    destruct (p a) eqn:E; [|done]. apply Hid; [by eapply att_elem|done]. }
  assert (Hatt' : forall id a, att db id = Some a ->
            exists a', att (with_attempts (update_where p f) db) id = Some a' /\
              attempt_ident a' = attempt_ident a).
  { intros id a Ha. rewrite att_update by (intros; apply Hkey). rewrite Ha. simpl. eexists.
    split; [done|]. destruct (p a) eqn:E; [|done]. apply Hid; [by eapply att_elem|done]. }
  split; try assumption.
  - simpl. rewrite update_map; [done|]. intros a _. apply Hkey.
  - simpl. rewrite update_map; [done|]. intros a _. apply Hkey.
  - apply Forall_update; [exact inv_attempts0|]. intros a _ [Ha Hi]. destruct (Hkey a) as [E1 E2].
    rewrite E1, E2. by split.
  - intros id a' (a & Ha & E)%Hatt Hl. injection E as E1 E2 E3 E4 E5. rewrite E5 in Hl.
    rewrite E2, E3. by apply (inv_live0 id a).
  - intros r s Hr Hs Hst. destruct (inv_running0 r s Hr Hs Hst) as (id & a & Hc & Ha & Hl & Hrun).
    destruct (Hatt' id a Ha) as (a' & Ha' & E). injection E as E1 E2 E3 E4 E5.
    exists id, a'. rewrite E2, E5. by split_and!.
  - intros l Hl. destruct (inv_leases0 l Hl) as (Hi & Hfe & a & Ha & Hrest).
    destruct (Hatt' _ a Ha) as (a' & Ha' & E). injection E as E1 E2 E3 E4 E5.
    split; [exact Hi|]. split; [done|]. exists a'. rewrite E2, E3, E4, E5. by split.
  - intros id a' (a & Ha & E)%Hatt Hl. injection E as E1 E2 E3 E4 E5. rewrite E5 in Hl.
    by apply (inv_live_lease0 id a).
Qed.

(** ** Moving a run from one state to another *)

Lemma sched_update db p f r :
  (forall s, s_run_id (f s) = s_run_id s) ->
  sched (with_schedules (update_where p f) db) r = (fun s => if p s then f s else s) <$> sched db r.
Proof. intros Hf. apply select_one_update. intros s _. unfold run_is. by rewrite Hf. Qed.

Lemma sched_move_ne db r f r' :
  (forall s, s_run_id (f s) = s_run_id s) -> r' <> r ->
  sched (with_schedules (update_where (run_is r) f) db) r' = sched db r'.
Proof.
  intros Hf Hr. rewrite sched_update by done.
  destruct (sched db r') as [s|] eqn:E; [|done]. simpl. apply sched_run in E.
  destruct (run_is r s) eqn:F; [|done]. apply run_is_true in F. congruence.
Qed.

Lemma sched_move_eq db r f :
  (forall s, s_run_id (f s) = s_run_id s) ->
  sched (with_schedules (update_where (run_is r) f) db) r = f <$> sched db r.
Proof.
  intros Hf. rewrite sched_update by done. destruct (sched db r) as [s|] eqn:E; [|done].
  simpl. apply sched_run, run_is_true in E. by rewrite E.
Qed.

(** A statement that writes a state and raises the revision. *)
Definition moves_to (st : ScheduleState) (f : Schedule -> Schedule) : Prop :=
  forall s, s_state (f s) = st /\ s_revision s < s_revision (f s) /\
            schedule_ident (f s) = schedule_ident s.

Lemma moves_move st index attempt now : moves_to st (schedule_move st index attempt now).
Proof. intros s. split; [done|]. split; [simpl; lia|done]. Qed.

Lemma moves_state st now : moves_to st (schedule_state st now).
Proof. intros s. split; [done|]. split; [simpl; lia|done]. Qed.

Lemma moves_run st f s : moves_to st f -> s_run_id (f s) = s_run_id s.
Proof. intros Hf. destruct (Hf s) as (_ & _ & E). by injection E. Qed.

(** A move keeps what the invariant says of a schedule on its own. *)
Lemma schedules_move_ok r st f rows :
  moves_to st f -> Forall schedule_ok rows -> Forall schedule_ok (update_where (run_is r) f rows).
Proof.
  intros Hf Hok. apply Forall_update; [done|]. intros s _ (Hp & Hrev & Hb). unfold schedule_ok.
  destruct (Hf s) as (_ & Hlt & E). unfold schedule_ident in E.
  assert (s_requested_priority (f s) = s_requested_priority s) as -> by congruence.
  assert (s_base_sha (f s) = s_base_sha s) as -> by congruence. split_and!; [lia..|done].
Qed.

Lemma schedules_move_keys st f rows p :
  moves_to st f -> map s_run_id (update_where p f rows) = map s_run_id rows /\
  map s_stage_id (update_where p f rows) = map s_stage_id rows.
Proof.
  intros Hf. split; apply update_map; intros s _; destruct (Hf s) as (_ & _ & E);
    unfold schedule_ident in E; congruence.
Qed.

Lemma inv_open db r s :
  Inv db -> sched db r = Some s -> s_state s <> SRunning -> InvBut (fun r' => r' = r) db.
Proof.
  intros [] Hs Hst. split; try assumption.
  - intros q Hq. destruct (inv_queue0 q Hq) as (Hp & Hc & Hq'). split; [done|]. split; [done|].
    intros _. apply Hq'. intros [].
  - intros id a Ha Hl. destruct (inv_live0 id a Ha Hl) as (_ & s' & Hs' & Hst' & Hrest).
    split; [intros Er; simplify_eq|]. exists s'. done.
  - intros r' s' _. apply inv_running0. intros [].
  - intros r' s' _. apply inv_waiting0. intros [].
Qed.

(** A run may be left in these states: queued, or idle with nothing queued. *)
Definition may_close (db : Db) (r : string) (st : ScheduleState) : Prop :=
  match st with
  | SQueued => True
  | SRunning => False
  | STerminal => forall q, q ∈ queue db -> q_run_id q <> r
  | SWaitingOnUser => (forall q, q ∈ queue db -> q_run_id q <> r) /\ r ∈ map k_run_id (questions db)
  end.

Lemma inv_close db r st f :
  InvBut (fun r' => r' = r) db -> moves_to st f -> may_close db r st ->
  Inv (with_schedules (update_where (run_is r) f) db).
Proof.
  intros [] Hf Hc. pose proof (fun s => moves_run st f s Hf) as Hrun.
  set (db' := with_schedules (update_where (run_is r) f) db).
  assert (Hsame : forall r', r' <> r -> sched db' r' = sched db r').
  { intros r' Hr. by apply sched_move_ne. }
  assert (Hmoved : forall s', sched db' r = Some s' -> s_state s' = st).
  { intros s'. unfold db'. rewrite sched_move_eq by done. intros (s & _ & ->)%fmap_Some. apply Hf. }
  destruct (schedules_move_keys st f (schedules db) (run_is r) Hf) as [Hruns Hstages].
  split; try assumption; simpl; rewrite ?Hruns, ?Hstages; try assumption.
  - by eapply schedules_move_ok.
  - intros q Hq. destruct (inv_queue0 q Hq) as (Hp & Hcd & Hs). split; [done|].
    split; [done|]. intros _.
    destruct (decide (q_run_id q = r)) as [Er|Er].
    + assert (is_Some (sched db' r)) as [s' Hs'].
      { apply sched_runs. simpl. rewrite Hruns. destruct Hcd as (c & Hcd & _).
        pose proof (cand_elem _ _ _ _ Hcd) as Hin. apply cand_key in Hcd as [Hr _].
        rewrite Forall_forall in inv_cands0. destruct (inv_cands0 c Hin) as [Hcr _].
        by rewrite <-Er, <-Hr. }
      rewrite Er. exists s'. split; [done|]. rewrite (Hmoved s' Hs').
      destruct st; [done|exfalso..]; [by apply (proj1 Hc q Hq)|done|by apply (Hc q Hq)].
    + rewrite Hsame by done. by apply Hs.
  - intros id a Ha Hl. destruct (inv_live0 id a Ha Hl) as (Hm & s & Hs & Hrest).
    split; [intros []|]. exists s. by rewrite Hsame.
  - intros r' s' _ Hs' Hst. destruct (decide (r' = r)) as [->|Hr].
    + apply Hmoved in Hs'. by rewrite Hst in Hs'; subst st.
    + rewrite Hsame in Hs' by done. by apply inv_running0.
  - intros r' s' _ Hs' Hst. destruct (decide (r' = r)) as [->|Hr].
    + apply Hmoved in Hs'. rewrite Hst in Hs'. subst st. apply Hc.
    + rewrite Hsame in Hs' by done. by apply (inv_waiting0 r' s').
Qed.

Lemma inv_delete_queue m db p :
  InvBut m db -> InvBut m (with_queue (delete_where p) db).
Proof.
  intros []. split; try assumption; simpl.
  - by apply delete_NoDup.
  - by apply delete_NoDup.
  - intros q [Hq _]%elem_of_delete. by apply inv_queue0.
Qed.

(** Nothing of run [r] is queued. *)
Definition unqueued (db : Db) (r : string) : Prop := forall q, q ∈ queue db -> q_run_id q <> r.

Lemma unqueued_delete db r : unqueued (with_queue (delete_where (queued_of r)) db) r.
Proof. intros q [_ Hq]%elem_of_delete. by apply queued_of_false. Qed.

Definition cand_ident (c : Candidate) : string * Z * option string * Z :=
  (c_run_id c, c_candidate_index c, c_account_id c, c_max_concurrent_runs c).

Lemma cand_update db p f r i :
  (forall c, cand_ident (f c) = cand_ident c) ->
  cand (with_candidates (update_where p f) db) r i =
  (fun c => if p c then f c else c) <$> cand db r i.
Proof.
  intros Hf. apply select_one_update. intros c _. specialize (Hf c). unfold cand_ident in Hf.
  injection Hf as E1 E2 E3 E4. unfold candidate_is. by rewrite E1, E2.
Qed.

Lemma ckeys_update db p f :
  (forall c, cand_ident (f c) = cand_ident c) ->
  map ckey (update_where p f (candidates db)) = map ckey (candidates db).
Proof.
  intros Hf. apply update_map. intros c _. specialize (Hf c). unfold cand_ident in Hf.
  unfold ckey. congruence.
Qed.

(** States of candidates may change as long as the queued ones stay queued. *)
Lemma inv_update_candidates m db p f :
  InvBut m db -> (forall c, cand_ident (f c) = cand_ident c) ->
  (forall q c, q ∈ queue db -> cand db (q_run_id q) (q_candidate_index q) = Some c ->
     p c = true -> c_state (f c) = CQueued) ->
  InvBut m (with_candidates (update_where p f) db).
Proof.
  intros [] Hid Hq. split; try assumption; simpl; rewrite ?ckeys_update by done; try assumption.
  - apply Forall_update; [assumption|]. intros c _ Hc. specialize (Hid c). unfold cand_ident in Hid.
    injection Hid as E1 E2 E3 E4. by rewrite E1, E2, E4.
  - intros q Hin. destruct (inv_queue0 q Hin) as (Hp & (c & Hc & Hst & Hac) & Hs).
    split; [done|]. split; [|done]. rewrite cand_update, Hc by done. simpl. eexists. split; [done|].
    destruct (p c) eqn:E; [|done]. split; [by eapply Hq|].
    specialize (Hid c). unfold cand_ident in Hid. congruence.
Qed.

Lemma next_sequence_above rows q : q ∈ rows -> q_queue_sequence q < next_sequence rows.
Proof.
  unfold next_sequence. induction rows as [|x rows IH]; [by intros ?%elem_of_nil|]. simpl.
  intros [->|Hq]%elem_of_cons; [lia|]. specialize (IH Hq). lia.
Qed.

(** Queueing a candidate of a moving run. *)
Lemma inv_add_entry r db i account priority now c :
  InvBut (fun r' => r' = r) db ->
  (forall q, q ∈ queue db -> qkey q <> (r, i)) -> 0 <= priority <= 9 ->
  cand db r i = Some c -> c_account_id c = Some account ->
  InvBut (fun r' => r' = r)
    (with_candidates (update_where (candidate_is r i) (candidate_state CQueued))
      (with_queue (fun rows => rows ++
         [mkQueueEntry (next_sequence rows) r i account priority now]) db)).
Proof.
  intros [] Hkey Hp Hc Hac.
  assert (Hcand : forall r' i', cand (with_candidates (update_where (candidate_is r i)
            (candidate_state CQueued)) db) r' i' =
            (fun c => if candidate_is r i c then candidate_state CQueued c else c) <$> cand db r' i')
    by (intros; by apply cand_update).
  split; try assumption; simpl; rewrite ?ckeys_update by done; try assumption.
  - apply Forall_update; [assumption|]. done.
  - by apply snoc_NoDup.
  - apply snoc_NoDup; [done|]. intros q Hq%next_sequence_above. simpl. lia.
  - intros q [Hq| ->]%elem_of_snoc.
    + destruct (inv_queue0 q Hq) as (Hpq & (c' & Hc' & Hst & Hac') & Hs). split; [done|].
      split; [|done]. exists (if candidate_is r i c' then candidate_state CQueued c' else c').
      split; [|by destruct (candidate_is r i c')]. etransitivity; [apply Hcand|]. by rewrite Hc'.
    + simpl. split; [done|]. split; [|done]. exists (candidate_state CQueued c).
      split; [|done]. etransitivity; [apply Hcand|]. rewrite Hc. simpl.
      apply cand_key, candidate_is_true in Hc. by rewrite Hc.
Qed.

(** An attempt that never lived: the record of a cancellation. *)
Lemma att_snoc db a id :
  (forall a', a' ∈ attempts db -> a_attempt_id a' <> a_attempt_id a) ->
  att (with_attempts (fun rows => rows ++ [a]) db) id =
  if attempt_is id a then Some a else att db id.
Proof.
  intros Hnew. unfold att. simpl. rewrite select_one_snoc.
  destruct (select_one (attempt_is id) (attempts db)) as [a'|] eqn:E; [|by destruct (attempt_is id a)].
  destruct (attempt_is id a) eqn:F; [|done]. apply select_one_Some in E as [Ha' E].
  apply attempt_is_true in E, F. destruct (Hnew a' Ha'). congruence.
Qed.

Lemma att_snoc_old db a id a' :
  (forall a', a' ∈ attempts db -> a_attempt_id a' <> a_attempt_id a) -> att db id = Some a' ->
  att (with_attempts (fun rows => rows ++ [a]) db) id = Some a'.
Proof. intros _ Ha. by apply select_one_snoc_old. Qed.

Lemma inv_add_dead_attempt m db a :
  InvBut m db -> attempt_live a = false ->
  (forall a', a' ∈ attempts db -> a_attempt_id a' <> a_attempt_id a) ->
  (forall a', a' ∈ attempts db -> akey a' <> akey a) ->
  akey a ∈ map ckey (candidates db) -> issued db "attempt" (a_attempt_id a) ->
  InvBut m (with_attempts (fun rows => rows ++ [a]) db).
Proof.
  intros [] Hdead Hnew Hkey Hcand Hi.
  assert (Hatt : forall id a', att (with_attempts (fun rows => rows ++ [a]) db) id = Some a' ->
            attempt_live a' = true -> att db id = Some a').
  { intros id a'. rewrite att_snoc by done. destruct (attempt_is id a); [|done]. congruence. }
  split; try assumption; simpl.
  - by apply snoc_NoDup.
  - by apply snoc_NoDup.
  - by apply Forall_snoc.
  - intros id a' Ha Hl. apply (inv_live0 id a'); [by apply Hatt|done].
  - intros r s Hr Hs Hst. destruct (inv_running0 r s Hr Hs Hst) as (id & a' & Hc & Ha & Hrest).
    exists id, a'. split; [done|]. split; [by apply att_snoc_old|done].
  - intros l Hl. destruct (inv_leases0 l Hl) as (Hli & Hf & a' & Ha & Hrest).
    split; [exact Hli|]. split; [done|]. exists a'. split; [by apply att_snoc_old|done].
  - intros id a' Ha Hl. apply (inv_live_lease0 id a'); [by apply Hatt|done].
Qed.

(** A claim: a live attempt, its lease, and the schedule that runs it. *)
Lemma inv_claim db a l now :
  InvBut (fun r' => r' = a_run_id a) db -> unqueued db (a_run_id a) ->
  is_Some (sched db (a_run_id a)) -> attempt_live a = true ->
  (forall a', a' ∈ attempts db -> a_attempt_id a' <> a_attempt_id a) ->
  (forall a', a' ∈ attempts db -> akey a' <> akey a) ->
  akey a ∈ map ckey (candidates db) -> issued db "attempt" (a_attempt_id a) ->
  (forall l', l' ∈ leases db -> l_lease_id l' <> l_lease_id l) -> issued db "lease" (l_lease_id l) ->
  l_attempt_id l = a_attempt_id a -> l_run_id l = a_run_id a ->
  l_candidate_index l = a_candidate_index a -> a_account_id a = Some (l_account_id l) ->
  1 <= l_fencing_revision l -> l_state l = LActive ->
  Inv (with_schedules (update_where (run_is (a_run_id a))
         (schedule_move SRunning (Some (a_candidate_index a)) (Some (a_attempt_id a)) now))
       (with_leases (fun rows => rows ++ [l]) (with_attempts (fun rows => rows ++ [a]) db))).
Proof.
  intros [] Hunq Hs Hlive Hnew Hkey Hcand Hi Hlnew Hli Hla Hlr Hlc Hlac Hfe Hst.
  set (r := a_run_id a) in *.
  set (f := schedule_move SRunning (Some (a_candidate_index a)) (Some (a_attempt_id a)) now).
  match goal with |- Inv ?x => set (db' := x) end.
  assert (Hsame : forall r', r' <> r -> sched db' r' = sched db r').
  { intros r' Hr. etransitivity; [by apply sched_move_ne|done]. }
  assert (Hmoved : exists s, sched db' r = Some (f s)).
  { destruct Hs as [s Hs]. exists s. etransitivity; [by apply sched_move_eq|].
    change (sched _ r) with (sched db r). by rewrite Hs. }
  destruct Hmoved as [s0 Hmoved].
  assert (Hatt : forall id, att db' id = if attempt_is id a then Some a else att db id)
    by (intros id; by apply (att_snoc db a id)).
  assert (Hown : att db' (a_attempt_id a) = Some a).
  { rewrite Hatt. by rewrite (proj2 (attempt_is_true _ a) eq_refl). }
  assert (Hold : forall id a', att db id = Some a' -> att db' id = Some a')
    by (intros id a'; by apply (att_snoc_old db a id a')).
  assert (Hruns : map s_run_id (schedules db') = map s_run_id (schedules db))
    by (simpl; by rewrite update_map).
  assert (Hlfresh : forall l', l' ∈ leases db -> l_attempt_id l' <> l_attempt_id l).
  { intros l' Hl' E. destruct (inv_leases0 l' Hl') as (_ & _ & a' & Ha' & _).
    rewrite Hla in E. rewrite E in Ha'. apply (Hnew a'); [by eapply att_elem|by eapply att_id]. }
  split; try assumption; rewrite ?Hruns; try assumption.
  - simpl. by rewrite update_map.
  - by eapply schedules_move_ok; [apply moves_move|].
  - by apply snoc_NoDup.
  - by apply snoc_NoDup.
  - by apply Forall_snoc.
  - by apply snoc_NoDup.
  - by apply snoc_NoDup.
  - intros q Hq. destruct (inv_queue0 q Hq) as (Hp & Hcd & Hsq). split; [done|]. split; [done|].
    intros _. rewrite Hsame by by apply Hunq. apply Hsq. by apply Hunq.
  - intros id a' Ha Hl. split; [intros []|]. rewrite Hatt in Ha.
    destruct (attempt_is id a) eqn:E.
    + injection Ha as <-. apply attempt_is_true in E. subst id. by eexists.
    + destruct (inv_live0 id a' Ha Hl) as (Hm & s & Hs' & Hrest). exists s. by rewrite Hsame.
  - intros r' s' _ Hs' Hst'. destruct (decide (r' = r)) as [->|Hr].
    + rewrite Hmoved in Hs'. injection Hs' as <-. by exists (a_attempt_id a), a.
    + rewrite Hsame in Hs' by done.
      destruct (inv_running0 r' s' Hr Hs' Hst') as (id & a' & Hc & Ha & Hrest).
      exists id, a'. split; [done|]. split; [by apply Hold|done].
  - intros l' [Hl'| ->]%elem_of_snoc.
    + destruct (inv_leases0 l' Hl') as (Hli' & Hf' & a' & Ha & Hrest).
      split; [exact Hli'|]. split; [done|]. exists a'. split; [by apply Hold|done].
    + split; [exact Hli|]. split; [done|]. exists a. rewrite Hla. split_and!; try done. congruence.
  - intros id a' Ha Hl. rewrite Hatt in Ha. unfold lease_for. simpl. rewrite select_one_snoc.
    destruct (attempt_is id a) eqn:E.
    + apply attempt_is_true in E. subst id. rewrite <-Hla.
      rewrite (proj2 (lease_of_true _ l) eq_refl). by destruct (select_one _ _); eexists.
    + destruct (inv_live_lease0 id a' Ha Hl) as [l' El]. unfold lease_for in El. rewrite El. by eexists.
  - intros r' s' _ Hs' Hst'. destruct (decide (r' = r)) as [->|Hr].
    + rewrite Hmoved in Hs'. by injection Hs' as <-.
    + rewrite Hsame in Hs' by done. by apply (inv_waiting0 r' s').
Qed.

(** A live attempt that finishes gives its lease back and leaves its run
    moving. *)
Lemma inv_finish db id a p f g :
  Inv db -> att db id = Some a -> attempt_live a = true ->
  (forall a', a_attempt_id (f a') = a_attempt_id a' /\ akey (f a') = akey a' /\
     a_account_id (f a') = a_account_id a' /\ attempt_live (f a') = false) ->
  (forall l, p l = true <-> l_attempt_id l = id /\ l_state l = LActive) ->
  (forall l, lease_ident (g l) = lease_ident l /\ l_fencing_revision l <= l_fencing_revision (g l) /\
     l_state (g l) <> LActive) ->
  InvBut (fun r' => r' = a_run_id a)
    (with_leases (update_where p g) (with_attempts (update_where (attempt_is id) f) db)).
Proof.
  intros [] Ha Hlive Hf Hp Hg.
  match goal with |- InvBut _ ?x => set (db' := x) end.
  assert (Hatt : forall id', att db' id' = (fun a => if attempt_is id a then f a else a) <$> att db id').
  { intros id'. apply (att_update db (attempt_is id) f id'). intros; apply Hf. }
  assert (Hstill : forall id' a', att db' id' = Some a' -> attempt_live a' = true ->
            att db id' = Some a' /\ id' <> id).
  { intros id' a'. rewrite Hatt. intros (a0 & E & ->)%fmap_Some Hl. pose proof (att_id _ _ _ E) as Hid.
    destruct (attempt_is id a0) eqn:F.
    - destruct (Hf a0) as (_ & _ & _ & Hd). congruence.
    - split; [done|]. intros ->. apply attempt_is_true in Hid. congruence. }
  assert (Hothers : forall id' a', att db id' = Some a' -> id' <> id -> att db' id' = Some a').
  { intros id' a' E Hne. rewrite Hatt, E. simpl. apply att_id in E.
    destruct (attempt_is id a') eqn:F; [|done]. apply attempt_is_true in F. congruence. }
  destruct (inv_live0 id a Ha Hlive) as (_ & s0 & Hs0 & _ & Hcur0 & _).
  split; try assumption; simpl.
  - rewrite update_map; [done|]. intros a' _. apply Hf.
  - rewrite update_map; [done|]. intros a' _. apply Hf.
  - apply Forall_update; [assumption|]. intros a' _. destruct (Hf a') as (E1 & E2 & _).
    by rewrite E1, E2.
  - rewrite update_map; [done|]. intros l _. destruct (Hg l) as [E _]. unfold lease_ident in E. congruence.
  - rewrite update_map; [done|]. intros l _. destruct (Hg l) as [E _]. unfold lease_ident in E. congruence.
  - intros q Hq. destruct (inv_queue0 q Hq) as (Hpr & Hc & Hs). split; [done|]. split; [done|].
    intros _. apply Hs. intros [].
  - intros id' a' Ha' Hl. destruct (Hstill id' a' Ha' Hl) as [E Hne].
    destruct (inv_live0 id' a' E Hl) as (_ & s & Hs & Hst & Hcur & Hci).
    split; [|by exists s]. intros Er. cbv beta in Er. rewrite Er, Hs0 in Hs.
    injection Hs as <-. congruence.
  - intros r s Hr Hs Hst. destruct (inv_running0 r s) as (id' & a' & Hcur & E & Hl & Er); [intros []|done..|].
    exists id', a'. split; [done|]. split; [|done]. apply Hothers; [done|]. intros ->. cbv beta in Hr. congruence.
  - intros l [[Hl Hpl]|(l0 & Hl & Hpl & ->)]%update_elem_1.
    + destruct (inv_leases0 l Hl) as (Hli & Hfe & a0 & E & Hr & Hc & Hac & Hact & Hrel).
      split; [exact Hli|]. split; [done|]. rewrite Hatt, E. simpl. eexists. split; [done|].
      destruct (attempt_is id a0) eqn:F; [|by split_and!].
      destruct (Hf a0) as (_ & E2 & E3 & E4). unfold akey in E2. injection E2 as E5 E6.
      rewrite E5, E6, E3, E4. split_and!; try done. intros Hst.
      apply attempt_is_true in F. apply att_id in E. rewrite <-not_true_iff_false, Hp in Hpl.
      destruct Hpl. split; [congruence|done].
    + destruct (Hg l0) as (Eid & Hfe' & Hnact). unfold lease_ident in Eid.
      injection Eid as E1 E2 E3 E4 E5. rewrite E1, E2, E3, E4, E5.
      destruct (inv_leases0 l0 Hl) as (Hli & Hfe & a0 & E & Hr & Hc & Hac & Hact & Hrel).
      apply Hp in Hpl as [Hid _]. split; [exact Hli|]. split; [lia|].
      rewrite Hid in E. rewrite Ha in E. injection E as <-. rewrite Hid, Hatt, Ha. simpl.
      rewrite (proj2 (attempt_is_true id a) (att_id _ _ _ Ha)). eexists. split; [done|].
      destruct (Hf a) as (_ & F2 & F3 & F4). unfold akey in F2. injection F2 as F5 F6.
      rewrite F5, F6, F3, F4. by split_and!.
  - intros id' a' Ha' Hl. destruct (Hstill id' a' Ha' Hl) as [E Hne].
    destruct (inv_live_lease0 id' a' E Hl) as [l El].
    unfold lease_for in *. simpl. rewrite select_one_update, El; [by eexists|].
    intros l' _. destruct (Hg l') as [Eid _]. unfold lease_ident in Eid. unfold lease_of. congruence.
  - intros r s _. apply inv_waiting0. intros [].
Qed.

(** ** New runs *)

Lemma sched_snoc_old db s r s' :
  sched db r = Some s' -> sched (with_schedules (fun rows => rows ++ [s]) db) r = Some s'.
Proof. apply select_one_snoc_old. Qed.

Lemma sched_snoc_inv db s r s' :
  sched (with_schedules (fun rows => rows ++ [s]) db) r = Some s' ->
  sched db r = Some s' \/ (s' = s /\ r = s_run_id s).
Proof.
  unfold sched. simpl. rewrite select_one_snoc. destruct (select_one _ _); [by left|].
  destruct (run_is r s) eqn:E; [|done]. apply run_is_true in E. intros [= <-]. by right.
Qed.

Lemma inv_add_schedule db s :
  Inv db -> schedule_ok s ->
  (forall s', s' ∈ schedules db -> s_run_id s' <> s_run_id s) ->
  (forall s', s' ∈ schedules db -> s_stage_id s' <> s_stage_id s) ->
  InvBut (fun r' => r' = s_run_id s) (with_schedules (fun rows => rows ++ [s]) db).
Proof.
  intros [] Hok Hrun Hstage.
  assert (Hin : forall r, r ∈ map s_run_id (schedules db) -> r ∈ map s_run_id (schedules db ++ [s]))
    by (intros r Hr; rewrite map_app; apply elem_of_app; by left).
  assert (Hne : forall r s', sched db r = Some s' -> r <> s_run_id s).
  { intros r s' Hs' ->. apply (Hrun s'); [by eapply sched_elem|by eapply sched_run]. }
  split; try assumption; simpl.
  - by apply snoc_NoDup.
  - by apply snoc_NoDup.
  - by apply Forall_snoc.
  - eapply Forall_impl; [eassumption|]. intros c [Hc ?]. split; [by apply Hin|done].
  - destruct inv_decisions0 as [Hd Hf]. split; [done|]. eapply Forall_impl; [exact Hf|].
    intros d [Hr ?]. split; [by apply Hin|done].
  - destruct inv_questions0 as (Hd & Hi & Hf). split; [done|]. split; [done|].
    eapply Forall_impl; [exact Hf|]. intros k [Hr ?]. split; [by apply Hin|done].
  - intros q Hq. destruct (inv_queue0 q Hq) as (Hp & Hc & Hs). split; [done|]. split; [done|].
    intros _. destruct Hs as (s' & Hs & Hst); [intros []|]. exists s'.
    split; [by apply sched_snoc_old|done].
  - intros id a Ha Hl. destruct (inv_live0 id a Ha Hl) as (_ & s' & Hs & Hrest).
    split; [by eapply Hne|]. exists s'. split; [by apply sched_snoc_old|done].
  - intros r s' Hr [Hs|[_ ?]]%sched_snoc_inv; [|done]. apply inv_running0; [intros []|done].
  - intros r s' Hr [Hs|[_ ?]]%sched_snoc_inv; [|done]. apply inv_waiting0; [intros []|done].
Qed.

Lemma inv_add_candidate m db c :
  InvBut m db -> (forall c', c' ∈ candidates db -> ckey c' <> ckey c) ->
  is_Some (sched db (c_run_id c)) -> 0 <= c_candidate_index c -> 1 <= c_max_concurrent_runs c ->
  InvBut m (with_candidates (fun rows => rows ++ [c]) db).
Proof.
  intros [] Hnew Hs Hi Hm. split; try assumption; simpl.
  - by apply snoc_NoDup.
  - apply Forall_snoc; [assumption|]. split; [by apply sched_runs|done].
  - eapply Forall_impl; [eassumption|]. intros a [Ha ?]. split; [|done].
    rewrite map_app. apply elem_of_app. by left.
  - intros q Hq. destruct (inv_queue0 q Hq) as (Hp & (c' & Hc & Hrest) & Hsq). split; [done|].
    split; [|done]. exists c'. split; [by apply select_one_snoc_old|done].
Qed.

Lemma inv_capacity m db row :
  InvBut m db -> 1 <= ac_max_concurrent_runs row ->
  InvBut m (with_capacities (fun rows =>
    if exists_where (fun c => str_eqb (ac_account_id c) (ac_account_id row)) rows
    then update_where (fun c => str_eqb (ac_account_id c) (ac_account_id row)) (fun _ => row) rows
    else rows ++ [row]) db).
Proof.
  intros [] Hm. split; try assumption; simpl. destruct inv_capacities0 as [Hd Hf].
  destruct (exists_where _ _) eqn:E; split.
  - rewrite update_map; [done|]. intros c Hc%str_eqb_true. done.
  - by apply Forall_update.
  - apply snoc_NoDup; [done|]. intros c Hc Heq. rewrite exists_where_false in E.
    specialize (E c Hc). by apply str_eqb_false in E.
  - by apply Forall_snoc.
Qed.

(** A new run ends as it began: queued. *)
Lemma inv_settle db r s :
  InvBut (fun r' => r' = r) db -> sched db r = Some s -> s_state s = SQueued -> Inv db.
Proof.
  intros [] Hs Hst. split; try assumption.
  - intros q Hq. destruct (inv_queue0 q Hq) as (Hp & Hc & Hsq). split; [done|]. split; [done|].
    intros _. destruct (decide (q_run_id q = r)) as [->|Hr]; [by exists s|by apply Hsq].
  - intros id a Ha Hl. destruct (inv_live0 id a Ha Hl) as [_ Hrest]. split; [by intros []|done].
  - intros r' s' _ Hs' Hst'. apply inv_running0; [|done..]. intros Er. cbv beta in Er. congruence.
  - intros r' s' _ Hs' Hst'. eapply inv_waiting0; [|done..]. intros Er. cbv beta in Er. congruence.
Qed.

(** ** Questions *)

Lemma inv_add_question m db k :
  InvBut m db -> (forall k', k' ∈ questions db -> k_run_id k' <> k_run_id k) ->
  (forall k', k' ∈ questions db -> k_interaction_id k' <> k_interaction_id k) ->
  is_Some (sched db (k_run_id k)) -> issued db "interaction" (k_interaction_id k) ->
  InvBut m (with_questions (fun rows => rows ++ [k]) db).
Proof.
  intros [] Hrun Hint Hs Hi. split; try assumption; simpl.
  - destruct inv_questions0 as (Hd & Hd' & Hf). split; [by apply snoc_NoDup|].
    split; [by apply snoc_NoDup|]. apply Forall_snoc; [exact Hf|]. split; [by apply sched_runs|done].
  - intros r s Hr Hs' Hst. rewrite map_app. apply elem_of_app. left. by eapply inv_waiting0.
Qed.

Lemma inv_update_questions m db p f :
  InvBut m db -> (forall k, k_run_id (f k) = k_run_id k /\ k_interaction_id (f k) = k_interaction_id k) ->
  InvBut m (with_questions (update_where p f) db).
Proof.
  intros [] Hf. split; try assumption; simpl.
  - destruct inv_questions0 as (Hd & Hd' & Ha). rewrite !update_map by (intros; apply Hf).
    split; [done|]. split; [done|]. apply Forall_update; [exact Ha|]. intros k _ Hk.
    destruct (Hf k) as [E1 E2]. by rewrite E1, E2.
  - rewrite update_map by (intros; apply Hf). done.
Qed.
End Invariant.
