(* ===== verification/SchedulingSteps.v ===== *)
(** * Account scheduling: how rows change

    The order in which the rows of the store grow: identities never change, the
    revision of a schedule and the fence of a lease grow with every change, a
    terminal schedule and a finished attempt stay as they are, decisions are
    only added.  Every statement of the store follows it and keeps the
    invariant; the operations are chains of such statements. *)

From S2P Require Import Prelude SqlList Json StateJson Scheduling SchedulingInv.

Local Open Scope Z_scope.

(** ** Account scheduling: which candidate a claim picks

    The pure part of [claimNextExecutionCandidate]: heads of the account queues,
    the earliest candidate of each run, the best of those. *)

Section HeadOfSort.
Context {A : Type} (lt : A -> A -> bool).
Hypothesis lt_asym : forall x y, lt x y = true -> lt y x = false.
Hypothesis lt_ntrans : forall x y z, lt y x = false -> lt z y = false -> lt z x = false.

(** The head of a sorted list is an element nothing precedes. *)
Lemma sort_head l x : head (sort_by lt l) = Some x -> x ∈ l /\ forall y, y ∈ l -> lt y x = false.
Proof.
  intros Hh. pose proof (sort_by_sorted lt lt_asym lt_ntrans l) as Hs.
  destruct (sort_by lt l) as [|z rest] eqn:E; [done|]. injection Hh as ->.
  assert (Hel : forall y, y ∈ l <-> y ∈ x :: rest)
    by (intros y; rewrite <-E; symmetry; apply elem_of_sort_by).
  split; [apply Hel; by left|]. intros y [->|Hy]%Hel%elem_of_cons.
  - destruct (lt x x) eqn:F; [|done]. pose proof (lt_asym _ _ F). congruence.
  - inversion Hs as [|? ? _ Hall]. rewrite Forall_forall in Hall. by apply Hall.
Qed.

Lemma sort_head_Some l x : x ∈ l -> is_Some (head (sort_by lt l)).
Proof.
  intros Hx. destruct (sort_by lt l) eqn:E; [|by eexists]. exfalso.
  rewrite <-(elem_of_sort_by lt), E in Hx. by apply elem_of_nil in Hx.
Qed.
End HeadOfSort.

(** ** The order of queue rows *)

(** [x] goes first: a higher effective priority, or the same and an earlier
    place in the queue. *)
Definition goes_first (now : Z) (x y : QueueRow) : Prop :=
  effectivePriority y now < effectivePriority x now \/
  (effectivePriority x now = effectivePriority y now /\ queueSequence x < queueSequence y).

Lemma row_before_true now x y : row_before now x y = true <-> goes_first now x y.
Proof.
  unfold row_before, goes_first. cbv zeta. rewrite Z.ltb_lt.
  destruct (effectivePriority y now - effectivePriority x now =? 0) eqn:E.
  - apply Z.eqb_eq in E. lia.
  - apply Z.eqb_neq in E. lia.
Qed.

Lemma row_before_false now x y : row_before now x y = false <-> ~ goes_first now x y.
Proof. rewrite <-row_before_true. by rewrite not_true_iff_false. Qed.

Lemma row_before_asym now x y : row_before now x y = true -> row_before now y x = false.
Proof. rewrite row_before_true, row_before_false. unfold goes_first. lia. Qed.

Lemma row_before_ntrans now x y z :
  row_before now y x = false -> row_before now z y = false -> row_before now z x = false.
Proof. rewrite !row_before_false. unfold goes_first. lia. Qed.

Lemma row_head now rows x :
  head (sort_by (row_before now) rows) = Some x ->
  x ∈ rows /\ forall y, y ∈ rows -> ~ goes_first now y x.
Proof.
  intros [Hx Hb]%sort_head; [|apply row_before_asym|apply row_before_ntrans].
  split; [done|]. intros y Hy. apply row_before_false. by apply Hb.
Qed.

(** ** Heads of the account queues *)

Definition of_account (a : string) (row : QueueRow) : bool := str_eqb (accountId row) a.

Lemma byAccount_fold rows m a :
  default [] (map_get (fold_left (fun m row => map_set m (accountId row)
                (default [] (map_get m (accountId row)) ++ [row])) rows m) a) =
  default [] (map_get m a) ++ List.filter (of_account a) rows.
Proof.
  revert m. induction rows as [|row rows IH]; intros m; simpl; [by rewrite app_nil_r|].
  rewrite IH, map_get_set. unfold of_account at 2. destruct (str_eqb a (accountId row)) eqn:E.
  - apply str_eqb_true in E as ->. rewrite str_eqb_refl. simpl. by rewrite <-app_assoc.
  - apply str_eqb_false in E. rewrite (proj2 (str_eqb_false (accountId row) a)); [done|congruence].
Qed.

Lemma byAccount_get rows a :
  default [] (map_get (byAccount rows) a) = List.filter (of_account a) rows.
Proof. apply (byAccount_fold rows [] a). Qed.

Lemma byAccount_NoDup rows : NoDup (map_keys (byAccount rows)).
Proof.
  unfold byAccount. enough (forall m : list (string * list QueueRow), NoDup (map_keys m) -> NoDup (map_keys (fold_left (fun m row =>
    map_set m (accountId row) (default [] (map_get m (accountId row)) ++ [row])) rows m)))
    as Hm by (apply Hm; constructor).
  induction rows as [|row rows IH]; intros m Hm; simpl; [done|]. by apply IH, map_set_NoDup.
Qed.

Lemma byAccount_value rows es :
  es ∈ map_values (byAccount rows) ->
  exists a, es = List.filter (of_account a) rows /\ (a, es) ∈ byAccount rows.
Proof.
  intros (a & Ha)%elem_of_map_values. exists a. split; [|done].
  rewrite <-byAccount_get. by rewrite (elem_map_get _ _ _ (byAccount_NoDup rows) Ha).
Qed.

Lemma elem_filter_account a rows row :
  row ∈ List.filter (of_account a) rows <-> row ∈ rows /\ accountId row = a.
Proof. rewrite !list_elem_of_In, filter_In. unfold of_account. by rewrite str_eqb_true. Qed.

(** A head is the first row of its account. *)
Lemma accountHeads_first now rows h :
  h ∈ accountHeads now rows ->
  h ∈ rows /\ forall row, row ∈ rows -> accountId row = accountId h -> ~ goes_first now row h.
Proof.
  intros (es & Hes & Hh)%list_elem_of_omap.
  apply byAccount_value in Hes as (a & -> & _). apply row_head in Hh as [Hin Hb].
  apply elem_filter_account in Hin as [Hin Ha]. split; [done|]. intros row Hrow Hacc.
  apply Hb, elem_filter_account. split; [done|]. congruence.
Qed.

(** Every account with a row has a head. *)
Lemma accountHeads_complete now rows row :
  row ∈ rows -> exists h, h ∈ accountHeads now rows /\ accountId h = accountId row.
Proof.
  intros Hrow. set (es := List.filter (of_account (accountId row)) rows).
  assert (Hes : row ∈ es) by by apply elem_filter_account.
  destruct (sort_head_Some (row_before now) es row Hes) as [h Hh]. exists h. split.
  - apply list_elem_of_omap. exists es. split; [|done].
    destruct (map_get (byAccount rows) (accountId row)) as [es'|] eqn:E.
    + pose proof (byAccount_get rows (accountId row)) as F. rewrite E in F. simpl in F. subst es'.
      apply map_get_elem in E. apply (list_elem_of_fmap_2 snd) in E. exact E.
    + pose proof (byAccount_get rows (accountId row)) as F. rewrite E in F. simpl in F.
      fold es in F. rewrite <-F in Hes. by apply elem_of_nil in Hes.
  - apply row_head in Hh as [Hin _]. by apply elem_filter_account in Hin as [_ ->].
Qed.

(** Two heads of one account are one row, when places in the queue are unique. *)
Lemma accountHeads_account now rows h h' :
  (forall x y, x ∈ rows -> y ∈ rows -> queueSequence x = queueSequence y -> x = y) ->
  h ∈ accountHeads now rows -> h' ∈ accountHeads now rows -> accountId h = accountId h' -> h = h'.
Proof.
  intros Hu Hh Hh' Ha. apply accountHeads_first in Hh as [Hin Hf], Hh' as [Hin' Hf'].
  specialize (Hf h' Hin' (eq_sym Ha)). specialize (Hf' h Hin Ha). unfold goes_first in *.
  apply Hu; [done..|]. lia.
Qed.

(** ** The earliest candidate of each run *)

Definition earliest_step (m : list (string * QueueRow)) (row : QueueRow) : list (string * QueueRow) :=
  match map_get m (runId row) with
  | None => map_set m (runId row) row
  | Some previous =>
      if candidateIndex row <? candidateIndex previous then map_set m (runId row) row else m
  end.

(** What the map holds once the rows of [seen] were looked at. *)
Definition earliest_of (seen : list QueueRow) (m : list (string * QueueRow)) : Prop :=
  NoDup (map_keys m) /\
  (forall r x, map_get m r = Some x -> x ∈ seen /\ runId x = r /\
     forall y, y ∈ seen -> runId y = r -> candidateIndex x <= candidateIndex y) /\
  (forall y, y ∈ seen -> is_Some (map_get m (runId y))).

Lemma earliest_set seen m row :
  earliest_of seen m ->
  (forall y, y ∈ seen -> runId y = runId row -> candidateIndex row <= candidateIndex y) ->
  earliest_of (seen ++ [row]) (map_set m (runId row) row).
Proof.
  intros (Hnd & Hget & Hall) Hrow. split; [by apply map_set_NoDup|]. split.
  - intros r x. rewrite map_get_set. destruct (str_eqb r (runId row)) eqn:F.
    + apply str_eqb_true in F as ->. intros [= <-]. split; [apply elem_of_snoc; by right|].
      split; [done|]. intros y [Hy| ->]%elem_of_snoc Hry; [by apply Hrow|lia].
    + intros (Hx & Hrx & Hm)%Hget. split; [apply elem_of_snoc; by left|]. split; [done|].
      intros y [Hy| ->]%elem_of_snoc Hry; [by apply Hm|]. by rewrite Hry, str_eqb_refl in F.
  - intros y [Hy| ->]%elem_of_snoc; rewrite map_get_set; destruct (str_eqb _ _) eqn:F; eauto.
    by rewrite str_eqb_refl in F.
Qed.

Lemma earliest_step_ok seen m row :
  earliest_of seen m -> earliest_of (seen ++ [row]) (earliest_step m row).
Proof.
  intros Hm. pose proof Hm as (Hnd & Hget & Hall). unfold earliest_step.
  destruct (map_get m (runId row)) as [prev|] eqn:E.
  - destruct (Hget _ _ E) as (_ & _ & Hmin).
    destruct (Z.ltb_spec (candidateIndex row) (candidateIndex prev)) as [Hlt|Hle].
    + apply earliest_set; [done|]. intros y Hy Hry. specialize (Hmin y Hy Hry). lia.
    + split; [done|]. split.
      * intros r x Hx. destruct (Hget r x Hx) as (Hxin & Hrx & Hmx).
        split; [apply elem_of_snoc; by left|]. split; [done|].
        intros y [Hy| ->]%elem_of_snoc Hry; [by apply Hmx|]. rewrite Hry, Hx in E.
        by injection E as ->.
      * intros y [Hy| ->]%elem_of_snoc; [auto|]. by eexists.
  - apply earliest_set; [done|]. intros y Hy Hry. destruct (Hall y Hy) as [z Hz]. congruence.
Qed.

Lemma earliest_spec available : earliest_of available (earliestPerRun available).
Proof.
  enough (forall rest seen m, earliest_of seen m ->
            earliest_of (seen ++ rest) (fold_left earliest_step rest m)) as Hm.
  { apply (Hm available [] []). split; [constructor|]. split; [done|]. by intros y ?%elem_of_nil. }
  induction rest as [|row rest IH]; intros seen m Hm; simpl; [by rewrite app_nil_r|].
  rewrite (app_assoc seen [row] rest : seen ++ row :: rest = _). by apply IH, earliest_step_ok.
Qed.

(** ** The choice *)

(** The row picked is available, the first of its run's candidates, and no
    run's first candidate goes before it. *)
Lemma selectRow_best now available x :
  selectRow now available = Some x ->
  x ∈ available /\
  (forall y, y ∈ available -> runId y = runId x -> candidateIndex x <= candidateIndex y) /\
  (forall y, y ∈ available ->
     (forall z, z ∈ available -> runId z = runId y -> candidateIndex y < candidateIndex z \/ z = y) ->
     ~ goes_first now y x).
Proof.
  intros [Hx Hb]%row_head. destruct (earliest_spec available) as (Hnd & Hget & Hall).
  apply elem_of_map_values in Hx as (r & Hx). apply (elem_map_get _ _ _ Hnd) in Hx.
  destruct (Hget r x Hx) as (Hin & Hr & Hmin). subst r. split; [done|]. split; [done|].
  intros y Hy Hfirst. apply Hb. destruct (Hall y Hy) as [z Hz].
  destruct (Hget _ _ Hz) as (Hzin & Hzr & Hzmin).
  assert (z = y) as ->.
  { destruct (Hfirst z Hzin Hzr) as [Hlt|]; [|done]. specialize (Hzmin y Hy eq_refl). lia. }
  apply map_get_elem in Hz. by apply (list_elem_of_fmap_2 snd) in Hz.
Qed.

Lemma selectRow_elem now available x : selectRow now available = Some x -> x ∈ available.
Proof. by intros [H _]%selectRow_best. Qed.

Lemma selectRow_Some now available x : x ∈ available -> is_Some (selectRow now available).
Proof.
  intros Hx. destruct (earliest_spec available) as (_ & _ & Hall). destruct (Hall x Hx) as [y Hy].
  apply map_get_elem in Hy. apply (list_elem_of_fmap_2 snd) in Hy.
  by apply (sort_head_Some (row_before now) _ y).
Qed.

Local Open Scope Z_scope.

(** ** Rows *)

Definition sched_step (s s' : Schedule) : Prop :=
  s' = s \/ (s_state s <> STerminal /\ s_revision s < s_revision s' /\
             schedule_ident s' = schedule_ident s).

Definition attempt_key (a : Attempt) :=
  (a_attempt_id a, a_run_id a, a_stage_id a, a_candidate_index a, a_profile_id a, a_account_id a,
   a_permissions_json a, a_created_at a).

Definition att_step (a a' : Attempt) : Prop :=
  a' = a \/ (attempt_live a = true /\ attempt_key a' = attempt_key a).

Definition lease_step (l l' : Lease) : Prop :=
  l' = l \/ (lease_ident l' = lease_ident l /\ l_fencing_revision l < l_fencing_revision l').

Definition cand_key_columns (c : Candidate) :=
  (c_run_id c, c_candidate_index c, c_profile_id c, c_account_id c, c_engine c,
   c_max_concurrent_runs c, c_profile_json c, c_limits_json c, c_permissions_json c,
   c_capability_delta_json c).

Definition question (db : Db) (run : string) : option Question :=
  select_one (fun k => str_eqb (k_run_id k) run) (questions db).

Definition question_step (k k' : Question) : Prop :=
  k' = k \/ (k_state k = QPending /\ k_state k' = QAnswered /\ k_revision k' = k_revision k + 1 /\
             k_interaction_id k' = k_interaction_id k /\ k_question_json k' = k_question_json k).

#[export] Instance sched_step_preorder : PreOrder sched_step.
Proof.
  split; [by left|]. intros s t u [->|(H1 & H2 & H3)]; [done|].
  intros [->|(K1 & K2 & K3)]; right; [done|]. split; [done|]. split; [lia|congruence].
Qed.

#[export] Instance att_step_preorder : PreOrder att_step.
Proof.
  split; [by left|]. intros s t u [->|(H1 & H2)]; [done|].
  intros [->|(K1 & K2)]; right; [done|]. split; [done|congruence].
Qed.

#[export] Instance lease_step_preorder : PreOrder lease_step.
Proof.
  split; [by left|]. intros s t u [->|(H1 & H2)]; [done|].
  intros [->|(K1 & K2)]; right; [done|]. split; [congruence|lia].
Qed.

#[export] Instance question_step_preorder : PreOrder question_step.
Proof.
  split; [by left|]. intros s t u [->|(H1 & H2 & H3)]; [done|].
  intros [->|(K1 & K2 & K3)]; right; [done|]. congruence.
Qed.

(** ** Databases *)

(** Every row found by its key is found again, one step of [R] further on. *)
Definition grows {K T} (R : relation T) (look look' : K -> option T) : Prop :=
  forall k x, look k = Some x -> exists x', look' k = Some x' /\ R x x'.

Lemma grows_refl {K T} (R : relation T) `{Reflexive T R} (look : K -> option T) :
  grows R look look.
Proof. intros k x Hx. by exists x. Qed.

Lemma grows_trans {K T} (R : relation T) `{Transitive T R} (l1 l2 l3 : K -> option T) :
  grows R l1 l2 -> grows R l2 l3 -> grows R l1 l3.
Proof.
  intros H1 H2 k x Hx. destruct (H1 k x Hx) as (y & Hy & Rxy).
  destruct (H2 k y Hy) as (z & Hz & Ryz). exists z. split; [done|]. by etransitivity.
Qed.

Record evolves (db db' : Db) : Prop := {
  ev_fixed : user_version db' = user_version db /\ workspace_ids db' = workspace_ids db;
  ev_sched : grows sched_step (sched db) (sched db');
  ev_cand : forall i, grows (fun c c' => cand_key_columns c' = cand_key_columns c)
                        (fun r => cand db r i) (fun r => cand db' r i);
  ev_att : grows att_step (att db) (att db');
  ev_lease : grows lease_step (lease_for db) (lease_for db');
  ev_question : grows question_step (question db) (question db');
  ev_decisions : exists new, decisions db' = decisions db ++ new }.

#[export] Instance same_columns_preorder {A B} (f : A -> B) : PreOrder (fun c c' => f c' = f c).
Proof. split; [done|]. intros x y z H1 H2. congruence. Qed.

#[export] Instance evolves_preorder : PreOrder evolves.
Proof.
  split.
  - intros db. split; try (intros; apply grows_refl, _); [done|]. exists []. by rewrite app_nil_r.
  - intros d1 d2 d3 [F1 S1 C1 A1 L1 Q1 [n1 D1]] [F2 S2 C2 A2 L2 Q2 [n2 D2]]. split.
    + destruct F1, F2. split; congruence.
    + by eapply grows_trans; [apply _|..].
    + intros i. by eapply grows_trans; [apply _|..].
    + by eapply grows_trans; [apply _|..].
    + by eapply grows_trans; [apply _|..].
    + by eapply grows_trans; [apply _|..].
    + exists (n1 ++ n2). by rewrite D2, D1, app_assoc.
Qed.

(** Statements that leave the rows under a lookup alone, change them by a step,
    or add one. *)
Lemma grows_update {T K} (R : relation T) `{Reflexive T R} (key : K -> T -> bool) rows p f :
  (forall k x, p x = true -> key k (f x) = key k x) ->
  (forall x, x ∈ rows -> p x = true -> R x (f x)) ->
  grows R (fun k => select_one (key k) rows) (fun k => select_one (key k) (update_where p f rows)).
Proof.
  intros Hk HR k x Hx. rewrite select_one_update, Hx by auto. simpl. eexists. split; [done|].
  destruct (p x) eqn:E; [|done]. apply HR; [|done]. by apply select_one_Some in Hx as [? _].
Qed.

Lemma grows_snoc {T K} (R : relation T) `{Reflexive T R} (key : K -> T -> bool) rows r :
  grows R (fun k => select_one (key k) rows) (fun k => select_one (key k) (rows ++ [r])).
Proof. intros k x Hx. exists x. split; [by apply select_one_snoc_old|done]. Qed.

(** Closes the parts of [evolves] that a statement does not touch. *)
Ltac ev_same :=
  split; try (intros; apply grows_refl, _); try done;
  try (exists []; by rewrite app_nil_r).

(** ** The statements *)

Section Statements.
Context `{IdGenerator}.

(** From [db0] the operation has come to [db]; [m] says which runs move. *)
Definition Good (m : string -> Prop) (db0 db : Db) : Prop := InvBut m db /\ evolves db0 db.

Lemma good_start db : Inv db -> Good settled db db.
Proof. by split. Qed.

Lemma good_next_id m db0 db : Good m db0 db -> Good m db0 (with_next_id (S (next_id db)) db).
Proof.
  intros [Hi He]. split; [apply inv_next_id; [done|lia]|]. etransitivity; [exact He|]. ev_same.
Qed.

Lemma good_decision m db0 db d :
  Good m db0 db -> (forall d', d' ∈ decisions db -> d_decision_id d' <> d_decision_id d) ->
  is_Some (sched db (d_run_id d)) -> issued db "decision" (d_decision_id d) ->
  Good m db0 (with_decisions (fun rows => rows ++ [d]) db).
Proof.
  intros [Hi He] Hf Hs Hd. split; [by apply inv_add_decision|]. etransitivity; [exact He|].
  ev_same. by exists [d].
Qed.

Lemma good_leases m db0 db p f :
  Good m db0 db ->
  (forall l, lease_ident (f l) = lease_ident l) ->
  (forall l, l ∈ leases db -> p l = true -> l_fencing_revision l < l_fencing_revision (f l)) ->
  (forall l a, l ∈ leases db -> p l = true -> att db (l_attempt_id l) = Some a ->
     (l_state (f l) = LActive -> attempt_live a = true) /\
     (l_state (f l) = LReleased -> attempt_live a = false)) ->
  Good m db0 (with_leases (update_where p f) db).
Proof.
  intros [Hi He] Hid Hfe Ha. split.
  - apply inv_update_leases; [done..|]. intros l a Hl Hp E. split; [|by eapply Ha].
    destruct (inv_leases _ _ Hi l Hl) as (_ & Hpos & _). specialize (Hfe l Hl Hp). lia.
  - etransitivity; [exact He|]. ev_same. apply (grows_update lease_step lease_of).
    + intros k l _. unfold lease_of. specialize (Hid l). unfold lease_ident in Hid.
      by injection Hid as _ _ _ _ ->.
    + intros l Hl Hp. right. auto.
Qed.

Lemma good_attempts m db0 db p f :
  Good m db0 db ->
  (forall a, attempt_key (f a) = attempt_key a) ->
  (forall a, a ∈ attempts db -> p a = true ->
     attempt_live a = true /\ attempt_live (f a) = true) ->
  Good m db0 (with_attempts (update_where p f) db).
Proof.
  intros [Hi He] Hk Hl. split.
  - apply inv_update_attempts; [done|..].
    + intros a Ha Hp. destruct (Hl a Ha Hp) as [E1 E2]. specialize (Hk a).
      unfold attempt_key in Hk. unfold attempt_ident. rewrite E1, E2. congruence.
    + intros a. specialize (Hk a). unfold attempt_key in Hk. unfold akey. split; congruence.
  - etransitivity; [exact He|]. ev_same. apply (grows_update att_step attempt_is).
    + intros k a _. unfold attempt_is. specialize (Hk a). unfold attempt_key in Hk.
      by injection Hk as -> _.
    + intros a Ha Hp. right. split; [by apply Hl|done].
Qed.

Lemma good_open r s db0 db :
  Good settled db0 db -> sched db r = Some s -> s_state s <> SRunning ->
  Good (fun r' => r' = r) db0 db.
Proof. intros [Hi He] Hs Hst. split; [by eapply inv_open|done]. Qed.

(** Writing the state of a schedule that is not terminal. *)
Lemma evolves_move r db st f :
  NoDup (map s_run_id (schedules db)) -> moves_to st f ->
  (forall s, sched db r = Some s -> s_state s <> STerminal) ->
  evolves db (with_schedules (update_where (run_is r) f) db).
Proof.
  intros Hnd Hf Hst. ev_same. apply (grows_update sched_step run_is).
  { intros k s _. unfold run_is. by rewrite (moves_run _ _ _ Hf). }
  intros s Hs Hr. right. split; [|split; [by apply Hf|by apply (Hf s)]]. apply Hst.
  eapply (select_one_key s_run_id); [done| |done|done]. intros s' Hs'%run_is_true.
  apply run_is_true in Hr. congruence.
Qed.

Lemma good_close r db0 db st f :
  Good (fun r' => r' = r) db0 db -> moves_to st f -> may_close db r st ->
  (forall s, sched db r = Some s -> s_state s <> STerminal) ->
  Good settled db0 (with_schedules (update_where (run_is r) f) db).
Proof.
  intros [Hi He] Hf Hc Hst. split; [by eapply inv_close|]. etransitivity; [exact He|].
  eapply evolves_move; [apply Hi|done..].
Qed.

Lemma good_delete_queue m db0 db p : Good m db0 db -> Good m db0 (with_queue (delete_where p) db).
Proof.
  intros [Hi He]. split; [by apply inv_delete_queue|]. etransitivity; [exact He|]. ev_same.
Qed.

Lemma evolves_candidates db p f :
  (forall c, cand_key_columns (f c) = cand_key_columns c) ->
  evolves db (with_candidates (update_where p f) db).
Proof.
  intros Hf. ev_same. intros i.
  apply (grows_update (fun c c' => cand_key_columns c' = cand_key_columns c)
           (fun r => candidate_is r i)); [|auto].
  intros r c _. specialize (Hf c). unfold cand_key_columns in Hf. unfold candidate_is.
  by injection Hf as -> -> _.
Qed.

Lemma good_candidates m db0 db p f :
  Good m db0 db -> (forall c, cand_key_columns (f c) = cand_key_columns c) ->
  (forall q c, q ∈ queue db -> cand db (q_run_id q) (q_candidate_index q) = Some c ->
     p c = true -> c_state (f c) = CQueued) ->
  Good m db0 (with_candidates (update_where p f) db).
Proof.
  intros [Hi He] Hf Hq. split; [|etransitivity; [exact He|by apply evolves_candidates]].
  apply inv_update_candidates; [done| |done]. intros c. specialize (Hf c).
  unfold cand_key_columns in Hf. unfold cand_ident. congruence.
Qed.

Lemma good_entry r db0 db i account priority now c :
  Good (fun r' => r' = r) db0 db ->
  (forall q, q ∈ queue db -> qkey q <> (r, i)) -> 0 <= priority <= 9 ->
  cand db r i = Some c -> c_account_id c = Some account ->
  Good (fun r' => r' = r) db0
    (with_candidates (update_where (candidate_is r i) (candidate_state CQueued))
      (with_queue (fun rows => rows ++
         [mkQueueEntry (next_sequence rows) r i account priority now]) db)).
Proof.
  intros [Hi He] Hk Hp Hc Ha. split; [by eapply inv_add_entry|]. etransitivity; [exact He|].
  etransitivity; [|by apply evolves_candidates]. ev_same.
Qed.

Lemma good_dead_attempt m db0 db a :
  Good m db0 db -> attempt_live a = false ->
  (forall a', a' ∈ attempts db -> a_attempt_id a' <> a_attempt_id a) ->
  (forall a', a' ∈ attempts db -> akey a' <> akey a) ->
  akey a ∈ map ckey (candidates db) -> issued db "attempt" (a_attempt_id a) ->
  Good m db0 (with_attempts (fun rows => rows ++ [a]) db).
Proof.
  intros [Hi He] Hl Hn Hk Hc Hid. split; [by apply inv_add_dead_attempt|].
  etransitivity; [exact He|]. ev_same. apply (grows_snoc att_step attempt_is).
Qed.

Lemma good_schedule db0 db s :
  Good settled db0 db -> schedule_ok s ->
  (forall s', s' ∈ schedules db -> s_run_id s' <> s_run_id s) ->
  (forall s', s' ∈ schedules db -> s_stage_id s' <> s_stage_id s) ->
  Good (fun r' => r' = s_run_id s) db0 (with_schedules (fun rows => rows ++ [s]) db).
Proof.
  intros [Hi He] Hok Hr Hs. split; [by apply inv_add_schedule|]. etransitivity; [exact He|].
  ev_same. apply (grows_snoc sched_step run_is).
Qed.

Lemma good_candidate m db0 db c :
  Good m db0 db -> (forall c', c' ∈ candidates db -> ckey c' <> ckey c) ->
  is_Some (sched db (c_run_id c)) -> 0 <= c_candidate_index c -> 1 <= c_max_concurrent_runs c ->
  Good m db0 (with_candidates (fun rows => rows ++ [c]) db).
Proof.
  intros [Hi He] Hk Hs Hc Hm. split; [by apply inv_add_candidate|]. etransitivity; [exact He|].
  ev_same. intros i.
  apply (grows_snoc (fun c c' => cand_key_columns c' = cand_key_columns c) (fun r => candidate_is r i)).
Qed.

Lemma good_question m db0 db k :
  Good m db0 db -> (forall k', k' ∈ questions db -> k_run_id k' <> k_run_id k) ->
  (forall k', k' ∈ questions db -> k_interaction_id k' <> k_interaction_id k) ->
  is_Some (sched db (k_run_id k)) -> issued db "interaction" (k_interaction_id k) ->
  Good m db0 (with_questions (fun rows => rows ++ [k]) db).
Proof.
  intros [Hi He] Hr Hk Hs Hid. split; [by apply inv_add_question|]. etransitivity; [exact He|].
  ev_same. apply (grows_snoc question_step (fun r k => str_eqb (k_run_id k) r)).
Qed.

Lemma good_answer m db0 db p text now :
  Good m db0 db -> (forall k, k ∈ questions db -> p k = true -> k_state k = QPending) ->
  Good m db0 (with_questions (update_where p (answerQuestion text now)) db).
Proof.
  intros [Hi He] Hp. split; [by apply inv_update_questions|]. etransitivity; [exact He|].
  ev_same. apply (grows_update question_step (fun r k => str_eqb (k_run_id k) r)); [done|].
  intros k Hk Hpk. right. simpl. auto.
Qed.
End Statements.
