(* ===== verification/SchedulingOps.v ===== *)
(** * Account scheduling: the operations keep the invariant

    Each operation of [scheduling/store.ts], run on a database that satisfies
    the invariant, ends in one that satisfies it and that evolved from it. *)

From S2P Require Import Prelude SqlList Json StateJson Scheduling SchedulingInv SchedulingSteps.

Local Open Scope Z_scope.

(** ** Runs of the small operations *)

Lemma guard_run b e u (db db' : Db) : guard b e db = inr (u, db') -> b = true /\ db' = db.
Proof. unfold guard. destruct b; [|done]. by intros [= _ ->]. Qed.

Lemma addMilliseconds_run now ms t db db' :
  addMilliseconds now ms db = inr (t, db') -> t = now + ms /\ db' = db.
Proof. unfold addMilliseconds. destruct (_ <=? _); [|done]. by intros [= -> ->]. Qed.

Lemma stringifyOp_run v t db db' :
  stringifyOp v db = inr (t, db') -> stringifyCanonical v = Some t /\ db' = db.
Proof. apply orThrow_run. Qed.

Lemma stringifyOptional_run v t db db' : stringifyOptional v db = inr (t, db') -> db' = db.
Proof.
  destruct v as [v|]; simpl; [|by intros [= _ ->]].
  intros (a & s & [_ ->]%stringifyOp_run & E)%bind_run. by injection E.
Qed.

Lemma parseOp_run t w v db db' :
  parseOp t w db = inr (v, db') -> parseJsonValue t = Some v /\ db' = db.
Proof. apply orThrow_run. Qed.

Lemma parseOptional_run t w v db db' : parseOptional t w db = inr (v, db') -> db' = db.
Proof.
  destruct t as [t|]; simpl; [|by intros [= _ ->]].
  intros (a & s & [_ ->]%parseOp_run & E)%bind_run. by injection E.
Qed.

(** Inversion of a run, through the operations that only read. *)
Ltac op_step H :=
  lazymatch type of H with
  | bind _ _ _ = inr _ => let a := fresh "a" in let s := fresh "s" in let E := fresh "E" in
      apply bind_run in H as (a & s & E & H); cbv beta in H; op_step E
  | guard _ _ _ = inr (_, _) => let E := fresh "G" in apply guard_run in H as [E ?]; subst
  | addMilliseconds _ _ _ = inr (_, _) => apply addMilliseconds_run in H as [? ?]; subst
  | stringifyOp _ _ = inr (_, _) => let E := fresh "T" in apply stringifyOp_run in H as [E ?]; subst
  | stringifyOptional _ _ = inr (_, _) => apply stringifyOptional_run in H; subst
  | parseOp _ _ _ = inr (_, _) => let E := fresh "T" in apply parseOp_run in H as [E ?]; subst
  | parseOptional _ _ _ = inr (_, _) => apply parseOptional_run in H; subst
  | transaction _ _ = inr _ => unfold transaction in H
  | _ => run_step H
  end.

Ltac op_inv H := cbv beta zeta in H; repeat (progress (op_step H; cbv beta zeta in H)).

Section Operations.
Context `{IdGenerator} `{DateParser}.

Lemma freshId_run p id db db' :
  freshId p db = inr (id, db') ->
  id = id_text p (next_id db) /\ db' = with_next_id (S (next_id db)) db.
Proof. intros E. unfold freshId in E. op_inv E. done. Qed.

(** A decision was recorded: nothing else changed. *)
Definition noted (db : Db) (d : Decision) : Db :=
  with_decisions (fun rows => rows ++ [d]) (with_next_id (S (next_id db)) db).

Definition well_noted (db : Db) (d : Decision) : Prop :=
  d_decision_id d = id_text "decision" (next_id db) /\ is_Some (sched db (d_run_id d)).

Lemma recordDecision_run r st i p a k rc now u db db' :
  recordDecision r st i p a k rc now db = inr (u, db') ->
  exists d, db' = noted db d /\ well_noted db d /\
    d = mkDecision (id_text "decision" (next_id db)) r st i p a k rc now.
Proof.
  intros E. unfold recordDecision in E. op_step E.
  apply freshId_run in E0 as [-> ->]. op_inv E. eexists. split; [done|].
  split; [|done]. split; [done|].
  apply exists_where_true in G0 as (s & Hs & Hr). by eapply select_one_is_Some.
Qed.

Lemma good_well_noted m db0 db d : Good m db0 db -> well_noted db d -> Good m db0 (noted db d).
Proof.
  intros HG [Hd Hs]. unfold noted. pose proof (good_next_id _ _ _ HG) as HG'.
  apply good_decision; [done|..].
  - rewrite Hd. intros d' Hd'. destruct HG as [Hi _]. destruct (inv_decisions _ _ Hi) as [_ Hf].
    rewrite Forall_forall in Hf. destruct (Hf d' Hd') as [_ Hiss]. by apply fresh_not_issued.
  - done.
  - exists (next_id db). simpl. split; [lia|done].
Qed.

Lemma good_noted m db0 db r st i p a k rc now u db' :
  Good m db0 db -> recordDecision r st i p a k rc now db = inr (u, db') -> Good m db0 db'.
Proof. intros HG (d & -> & Hd & _)%recordDecision_run. by apply good_well_noted. Qed.

(** ** Queueing *)

Lemma enqueueCandidate_run r i priority now b db db' :
  enqueueCandidate r i priority now db = inr (b, db') ->
  (b = false /\ db' = db) \/
  (b = true /\ exists c account,
     cand db r i = Some c /\ c_account_id c = Some account /\ c_state c <> CRejected /\
     0 <= priority <= 9 /\ (forall q, q ∈ queue db -> qkey q <> (r, i)) /\
     db' = with_candidates (update_where (candidate_is r i) (candidate_state CQueued))
            (with_queue (fun rows => rows ++
               [mkQueueEntry (next_sequence rows) r i account priority now]) db)).
Proof.
  intros E. unfold enqueueCandidate in E. op_inv E.
  destruct (select_one (candidate_is r i) (candidates db)) as [c|] eqn:Ec; [|op_inv E; by left].
  destruct (c_account_id c) as [account|] eqn:Ea; [|op_inv E; by left].
  destruct (bool_decide (c_state c = CRejected)) eqn:Est; [op_inv E; by left|].
  apply bind_run in E as (n & s & En & E). unfold insertQueueEntry in En. op_inv En.
  destruct (_ || _) eqn:Eq.
  - op_inv En. simpl in E. op_inv E. by left.
  - op_inv En. simpl in E. op_inv E. right. split; [done|]. exists c, account.
    apply orb_false_iff in Eq as [Eq Ep]. apply bool_decide_eq_false in Est.
    apply negb_false_iff, andb_true_iff in Ep as [?%Z.leb_le ?%Z.leb_le].
    split_and!; try done. intros q Hq [= Er Ei]. rewrite exists_where_false in Eq.
    specialize (Eq q Hq). rewrite (proj2 (queued_of_true r q) Er), Ei, Z.eqb_refl in Eq. done.
Qed.

Lemma good_enqueue r db0 db i priority now b db' :
  Good (fun r' => r' = r) db0 db ->
  enqueueCandidate r i priority now db = inr (b, db') -> Good (fun r' => r' = r) db0 db'.
Proof.
  intros HG [[_ ->]|(_ & c & account & Hc & Ha & _ & Hp & Hq & ->)]%enqueueCandidate_run; [done|].
  by eapply good_entry.
Qed.

(** ** Creating a schedule *)

Lemma readSchedule_run r o db db' :
  readExecutionSchedule r db = inr (o, db') ->
  db' = db /\ match o with Some sn => sched db r = Some (es_row sn) | None => sched db r = None end.
Proof.
  intros E. unfold readExecutionSchedule in E. op_inv E. fold (sched db r) in E.
  destruct (sched db r) as [s|] eqn:Es; op_inv E; by rewrite ?Es.
Qed.

Lemma readRequired_run r sn db db' :
  readExecutionScheduleRequired r db = inr (sn, db') -> db' = db /\ sched db r = Some (es_row sn).
Proof.
  intros (o & s & [-> Ho]%readSchedule_run & [-> ->]%orThrow_run)%bind_run. done.
Qed.

(** A run being created: it moves, and its schedule is queued. *)
Definition Creating (run : string) (db0 db : Db) : Prop :=
  Good (fun r' => r' = run) db0 db /\ exists s, sched db run = Some s /\ s_state s = SQueued.

Lemma checkCreateInput_run input u db db' :
  checkCreateInput input db = inr (u, db') ->
  db' = db /\ 0 <= default 0 (in_requestedPriority input) <= 9.
Proof.
  intros E. unfold checkCreateInput, assertPriority in E. op_inv E.
  rewrite !andb_true_iff in G. destruct G as [[_ Hlo%Z.leb_le] Hhi%Z.leb_le].
  destruct (in_hardDeadlineAt input) as [t|]; op_inv E; [|done].
  unfold assertIso in E0. by apply orThrow_run in E0 as [_ ->].
Qed.

Lemma create_row input now u db db' :
  Inv db -> 0 <= default 0 (in_requestedPriority input) <= 9 ->
  createScheduleRow input now db = inr (u, db') -> Creating (in_runId input) db db'.
Proof.
  intros Hi Hp E. unfold createScheduleRow, insertSchedule in E. op_inv E. simpl in *.
  apply negb_true_iff in G, G0. split; [|].
  - match goal with |- Good _ _ (with_schedules (fun rows => rows ++ [?row]) _) =>
      apply (good_schedule db db row) end; [by apply good_start|..]; simpl.
    + unfold schedule_ok. simpl. split_and!; [lia..|by eexists].
    + intros s Hs Er. rewrite exists_where_false in G. specialize (G s Hs).
      apply run_is_true in Er. congruence.
    + intros s Hs Er. rewrite exists_where_false in G0. specialize (G0 s Hs).
      apply str_eqb_true in Er. congruence.
  - eexists. split.
    + unfold sched. simpl. rewrite select_one_snoc. rewrite exists_select_one in G.
      destruct (select_one _ _); [done|]. by rewrite (proj2 (run_is_true _ _)).
    + done.
Qed.

Lemma create_candidate input now x u db0 db db' :
  Creating (in_runId input) db0 db -> createCandidate input now x db = inr (u, db') ->
  Creating (in_runId input) db0 db'.
Proof.
  intros [HG (s & Hs & Hst)] E. destruct x as [i c]. unfold createCandidate in E. op_inv E.
  match goal with Hx : insertCandidate _ _ = inr _ |- _ => rename Hx into HA end.
  match goal with Hx : context [upsertCapacity] |- _ => rename Hx into HB end.
  unfold insertCandidate in HA. op_inv HA. simpl in *.
  match goal with Hx : (_ <=? _) && (_ <=? _) = true |- _ =>
    apply andb_true_iff in Hx as [Hi%Z.leb_le Hm%Z.leb_le] end.
  match goal with Hx : negb _ = true |- _ => apply negb_true_iff in Hx; rename Hx into Hnew end.
  match type of HB with _ ?x = _ => assert (HC : Creating (in_runId input) db0 x) end.
  { split; [|by exists s]. apply good_candidate; [done|..]; simpl; [|by eexists|done|done].
    intros c' Hc' [= Er Ei]. rewrite exists_where_false in Hnew. specialize (Hnew c' Hc').
    rewrite (proj2 (candidate_is_true _ _ c')) in Hnew; done. }
  match type of HB with _ = inr (_, ?x) => assert (HC2 : Creating (in_runId input) db0 x) end.
  { destruct HC as [[HI He] HCs]. unfold upsertCapacity in HB. destruct (ci_accountId c); op_inv HB; [|done].
    split; [|done]. split; [by apply inv_capacity|]. etransitivity; [exact He|]. ev_same. }
  clear HC HB. destruct (bool_decide _); op_inv E; [done|].
  destruct HC2 as [HG2 Hs2]. split; [by eapply good_noted|].
  by apply recordDecision_run in E as (d & -> & _).
Qed.

Lemma create_entry input now x u db0 db db' :
  Creating (in_runId input) db0 db -> createQueueEntry input now x db = inr (u, db') ->
  Creating (in_runId input) db0 db'.
Proof.
  intros [HG (s & Hs & Hst)] E. destruct x as [i c]. unfold createQueueEntry in E.
  apply bind_run in E as (b & s1 & E1 & E).
  assert (HC : Creating (in_runId input) db0 s1).
  { split; [by eapply good_enqueue|]. exists s. split; [|done].
    by apply enqueueCandidate_run in E1 as [[_ ->]|(_ & c' & acc & _ & _ & _ & _ & _ & ->)]. }
  destruct b; op_inv E; [|done]. destruct HC as [HG1 HC]. split; [by eapply good_noted|].
  by apply recordDecision_run in E as (d & -> & _).
Qed.

Lemma create_good input now sn db db' :
  Inv db -> createExecutionSchedule input now db = inr (sn, db') -> Good settled db db'.
Proof.
  intros Hi E. unfold createExecutionSchedule in E.
  apply bind_run in E as (u & s & [-> Hp]%checkCreateInput_run & E). op_step E.
  apply bind_run in E as (u1 & s1 & E1 & E). cbv zeta in E.
  apply bind_run in E as (u2 & s2 & E2 & E). apply bind_run in E as (u3 & s3 & E3 & E).
  apply readRequired_run in E as [-> _].
  apply (create_row _ _ _ _ _ Hi Hp) in E1.
  apply (forM_run _ (Creating (in_runId input) db)) in E2;
    [|done|intros x d1 v d2 _ Hx Hd; by eapply create_candidate].
  apply (forM_run _ (Creating (in_runId input) db)) in E3;
    [|done|intros x d1 v d2 _ Hx Hd; by eapply create_entry].
  destruct E3 as [[HI He] (s' & Hs' & Hst)]. split; [by eapply inv_settle|done].
Qed.

(** ** Claiming *)

(** Only leases, decisions and the generator changed. *)
Definition lease_only (db db' : Db) : Prop :=
  exists ls ds n, db' = with_next_id n (with_decisions (fun _ => ds) (with_leases (fun _ => ls) db)).

#[export] Instance lease_only_preorder : PreOrder lease_only.
Proof.
  split.
  - intros []. by exists leases, decisions, next_id.
  - intros d1 d2 d3 (l1 & e1 & n1 & ->) (l2 & e2 & n2 & ->). by exists l2, e2, n2.
Qed.

Lemma lease_only_noted db d : lease_only db (noted db d).
Proof. by eexists _, _, _. Qed.

Lemma expireOne_good m now x u db0 db db' :
  Good m db0 db -> expireOne now x db = inr (u, db') -> Good m db0 db' /\ lease_only db db'.
Proof.
  destruct x as [[l c] s]. intros HG E. unfold expireOne in E. op_inv E. split.
  - eapply good_noted; [|exact E]. apply good_leases; [done|done|simpl; lia|done].
  - apply recordDecision_run in E as (d & -> & _). by eexists _, _, _.
Qed.

Lemma expire_good m now u db0 db db' :
  Good m db0 db -> expireOrphanLeases now db = inr (u, db') -> Good m db0 db' /\ lease_only db db'.
Proof.
  intros HG E. unfold expireOrphanLeases in E. op_inv E.
  eapply (forM_run _ (fun d => Good m db0 d /\ lease_only db d)); [exact E|done|].
  intros x d1 v d2 _ Hx [HG1 Ho]. destruct (expireOne_good m now x v db0 d1 d2 HG1 Hx) as [HG2 Ho2].
  split; [done|]. by etransitivity.
Qed.

(** The schedule of a run that is neither running nor finished. *)
Definition idle (db : Db) (r : string) : Prop :=
  exists s, sched db r = Some s /\ (s_state s = SQueued \/ s_state s = SWaitingOnUser).

(** The question of a run, unless it has one. *)
Definition asked (r text : string) (now : Z) (db : Db) : Db :=
  let id := id_text "interaction" (next_id db) in
  with_questions (fun rows =>
    if exists_where (fun k => str_eqb (k_run_id k) r || str_eqb (k_interaction_id k) id) rows
    then rows else rows ++ [mkQuestion r id text QPending 1 None now None])
  (with_next_id (S (S (next_id db))) db).

Lemma createQuestion_run row now u db db' :
  createCapacityQuestion row now db = inr (u, db') ->
  exists text, is_Some (sched db (runId row)) /\ db' = asked (runId row) text now db.
Proof.
  intros E. unfold createCapacityQuestion in E. op_step E. op_step E.
  apply freshId_run in E0 as [-> ->]. op_step E. apply freshId_run in E0 as [-> ->]. op_inv E.
  exists a. split; [|done]. apply exists_where_true in G as (s & Hs & Hr).
  by eapply select_one_is_Some.
Qed.

Lemma good_asked m db0 db r text now :
  Good m db0 db -> is_Some (sched db r) ->
  Good m db0 (asked r text now db) /\ r ∈ map k_run_id (questions (asked r text now db)).
Proof.
  intros HG Hs. unfold asked. cbv zeta.
  pose proof (good_next_id _ _ _ (good_next_id _ _ _ HG)) as HG2. simpl in HG2.
  set (id := id_text "interaction" (next_id db)) in *.
  assert (Hfresh : forall k, k ∈ questions db -> k_interaction_id k <> id).
  { intros k Hk. destruct HG as [Hi _]. destruct (inv_questions _ _ Hi) as (_ & _ & Hf).
    rewrite Forall_forall in Hf. destruct (Hf k Hk) as [_ Hiss]. by apply fresh_not_issued. }
  unfold with_questions at 1 2. simpl. destruct (exists_where _ _) eqn:E.
  - split; [exact HG2|]. apply exists_where_true in E as (k & Hk & E).
    apply orb_true_iff in E as [E|E].
    + apply str_eqb_true in E. rewrite <-E. by apply list_elem_of_fmap_2.
    + apply str_eqb_true in E. by destruct (Hfresh k Hk).
  - rewrite exists_where_false in E. split.
    + apply (good_question m db0 _ (mkQuestion r id text QPending 1 None now None) HG2); simpl.
      * intros k Hk Er. specialize (E k Hk). apply str_eqb_true in Er. by rewrite Er in E.
      * exact Hfresh.
      * exact Hs.
      * exists (next_id db). simpl. split; [lia|done].
    + rewrite map_app. apply elem_of_app. right. by left.
Qed.

(** What a refused head leaves alone; idle runs stay idle. *)
Record idle_frame (db db' : Db) : Prop := {
  if_version : user_version db' = user_version db;
  if_candidates : candidates db' = candidates db;
  if_attempts : attempts db' = attempts db;
  if_leases : leases db' = leases db;
  if_capacities : capacities db' = capacities db;
  if_idle : forall r, idle db r -> idle db' r }.

#[export] Instance idle_frame_preorder : PreOrder idle_frame.
Proof.
  split; [done|]. intros d1 d2 d3 [] []. split; try congruence. auto.
Qed.

Lemma idle_frame_noted db d : idle_frame db (noted db d).
Proof. done. Qed.

Lemma with_schedules_ext f g db :
  f (schedules db) = g (schedules db) -> with_schedules f db = with_schedules g db.
Proof. unfold with_schedules. by intros ->. Qed.

(** The schedule a run has is the only row with its id. *)
Lemma sched_only m db r s s' :
  InvBut m db -> sched db r = Some s -> s' ∈ schedules db -> run_is r s' = true -> s' = s.
Proof.
  intros Hi Hs Hs' Hr. apply (NoDup_map_inj s_run_id (schedules db)); [apply Hi|done| |].
  - by eapply sched_elem.
  - apply run_is_true in Hr. apply sched_run in Hs. congruence.
Qed.

Definition parkSchedule (r : string) (now : Z) : list Schedule -> list Schedule :=
  update_where (fun s => run_is r s && bool_decide (s_state s = SQueued))
    (schedule_state SWaitingOnUser now).

(** Parking an idle run: it waits, whether it did before or not. *)
Lemma park_cases m db r s now :
  InvBut m db -> sched db r = Some s ->
  (s_state s = SQueued ->
   with_schedules (parkSchedule r now) db =
   with_schedules (update_where (run_is r) (schedule_state SWaitingOnUser now)) db) /\
  (s_state s = SWaitingOnUser -> with_schedules (parkSchedule r now) db = db).
Proof.
  intros Hi Hs. split; intros Hst.
  - apply with_schedules_ext, update_where_ext. intros s' Hs'.
    destruct (run_is r s') eqn:E; [|done]. rewrite (sched_only m db r s s' Hi Hs Hs' E).
    by rewrite bool_decide_true.
  - transitivity (with_schedules id db); [|by destruct db].
    apply with_schedules_ext, update_where_none. intros s' Hs'.
    destruct (run_is r s') eqn:E; [|done]. rewrite (sched_only m db r s s' Hi Hs Hs' E), Hst. done.
Qed.

Lemma idle_move r now db r' :
  idle db r' ->
  idle (with_schedules (update_where (run_is r) (schedule_state SWaitingOnUser now)) db) r'.
Proof.
  intros (s & Hs & Hst). unfold idle. rewrite sched_update, Hs by done. simpl. eexists.
  split; [done|]. destruct (run_is r s); [by right|done].
Qed.


(** Asking the user about an idle run. *)
Lemma ask_good row now u db0 db db' :
  Good settled db0 db -> idle db (runId row) ->
  createCapacityQuestion row now
    (with_queue (delete_where (queued_of (runId row)))
      (with_schedules (parkSchedule (runId row) now) db)) = inr (u, db') ->
  Good settled db0 db' /\ idle_frame db db'.
Proof.
  intros HG (s & Hs & Hst) (text & _ & ->)%createQuestion_run. set (r := runId row) in *.
  destruct (park_cases settled db r s now) as [Hq Hw]; [apply HG|done|].
  pose proof (good_delete_queue _ _ _ (queued_of r) HG) as HG1.
  set (queueless := with_queue (delete_where (queued_of r)) db) in *.
  destruct Hst as [Hst|Hst].
  - rewrite (Hq Hst). split.
    + destruct (good_asked (fun r' => r' = r) db0 queueless r text now) as [HG2 Hin];
        [eapply good_open; [exact HG1|exact Hs|congruence]|by exists s|].
      eapply (good_close r db0 _ SWaitingOnUser _ HG2); [apply moves_state| |].
      * split; [apply unqueued_delete|exact Hin].
      * intros s' Hs'. assert (Some s' = Some s) as [= ->] by (rewrite <-Hs, <-Hs'; done).
        congruence.
    + split; try done. intros r' Hr'. by apply idle_move.
  - rewrite (Hw Hst). split; [|done]. apply good_asked; [done|]. by exists s.
Qed.

Lemma rejectHead_good now head u db0 db db' :
  Good settled db0 db -> idle db (runId head) -> rejectHead now head db = inr (u, db') ->
  Good settled db0 db' /\ idle_frame db db'.
Proof.
  intros HG Hidle E. unfold rejectHead in E. apply bind_run in E as (u1 & d1 & E1 & E).
  pose proof (good_noted _ _ _ _ _ _ _ _ _ _ _ _ _ HG E1) as HG1.
  apply recordDecision_run in E1 as (d & -> & _).
  destruct (bool_decide (capacityPolicy head = Ask)); [|by op_inv E]. op_inv E.
  match goal with Hq : createCapacityQuestion _ _ _ = inr _ |- _ =>
    apply (ask_good head now _ db0 (noted db d)) in Hq as [HG2 Hf] end; [|done..].
  split; [by eapply good_noted|]. apply recordDecision_run in E as (d' & -> & _).
  etransitivity; [apply (idle_frame_noted db d)|]. etransitivity; [exact Hf|]. done.
Qed.

Lemma availableHeads_good now heads available db0 db db' :
  Good settled db0 db -> (forall h, h ∈ heads -> idle db (runId h)) ->
  availableHeads now heads db = inr (available, db') ->
  Good settled db0 db' /\ idle_frame db db' /\ (forall h, h ∈ available -> h ∈ heads).
Proof.
  revert available db. induction heads as [|h heads IH]; intros available db HG Hidle E; simpl in E.
  - op_inv E. done.
  - op_step E. destruct (_ <? _).
    + apply bind_run in E as (rest & d1 & E1 & E). op_inv E.
      destruct (IH rest db HG) as (HG1 & Hf & Hsub); [intros h' Hh'; apply Hidle; by right|done|].
      split; [done|]. split; [done|]. intros h' [->|Hh']%elem_of_cons; [by left|right; auto].
    + apply bind_run in E as (u & d1 & E1 & E).
      destruct (rejectHead_good _ _ _ _ _ _ HG (Hidle h ltac:(by left)) E1) as [HG1 Hf1].
      destruct (IH available d1 HG1) as (HG2 & Hf2 & Hsub); [|done|].
      { intros h' Hh'. apply Hf1, Hidle. by right. }
      split; [done|]. split; [by etransitivity|]. intros h' Hh'. right. auto.
Qed.

(** The rows a claim writes, and the database with them. *)
Definition claimAttempt (db : Db) (now : Z) (x : QueueRow) : Attempt :=
  mkAttempt (id_text "attempt" (next_id db)) (runId x) (stageId x) (candidateIndex x) (profileId x)
    (Some (accountId x)) None None AQueued (limitsJson x) (permissionsJson x)
    None None None None None now now.

Definition claimLease (db : Db) (owner : string) (now expires : Z) (x : QueueRow) : Lease :=
  mkLease (id_text "lease" (S (next_id db))) (accountId x) (runId x) (candidateIndex x)
    (id_text "attempt" (next_id db)) owner now now expires None 1 LActive.

Definition claimed (db : Db) (owner : string) (now expires : Z) (x : QueueRow) : Db :=
  with_schedules (update_where (run_is (runId x))
    (schedule_move SRunning (Some (candidateIndex x)) (Some (id_text "attempt" (next_id db))) now))
  (with_leases (fun rows => rows ++ [claimLease db owner now expires x])
  (with_attempts (fun rows => rows ++ [claimAttempt db now x])
  (with_candidates (update_where (candidate_of (runId x)) (claimCandidate (candidateIndex x)))
  (with_queue (delete_where (queued_of (runId x)))
  (with_next_id (S (S (next_id db))) db))))).

Lemma columns_ident c c' : cand_key_columns c = cand_key_columns c' -> cand_ident c = cand_ident c'.
Proof. unfold cand_key_columns, cand_ident. congruence. Qed.

Lemma claimCandidate_columns i c : cand_key_columns (claimCandidate i c) = cand_key_columns c.
Proof. unfold claimCandidate. destruct (_ =? _); [done|]. by destruct (bool_decide _). Qed.

Lemma cand_exists db r i : exists_where (candidate_is r i) (candidates db) = true -> (r, i) ∈ map ckey (candidates db).
Proof.
  intros (c & Hc & [<- <-]%candidate_is_true)%exists_where_true. by apply (list_elem_of_fmap_2 ckey).
Qed.

Lemma insertAttempt_run a u db db' :
  insertAttempt a db = inr (u, db') ->
  db' = with_attempts (fun rows => rows ++ [a]) db /\
  (forall a', a' ∈ attempts db -> a_attempt_id a' <> a_attempt_id a) /\
  (forall a', a' ∈ attempts db -> akey a' <> akey a) /\
  is_Some (sched db (a_run_id a)) /\ akey a ∈ map ckey (candidates db).
Proof.
  intros E. unfold insertAttempt in E. op_inv E. rewrite negb_true_iff in G, G0.
  rewrite exists_where_false in G, G0. split; [done|]. split_and!.
  - intros a' Ha' Eid. specialize (G a' Ha'). by rewrite (proj2 (attempt_is_true _ a') Eid) in G.
  - intros a' Ha' [= Er Ei]. specialize (G0 a' Ha'). by rewrite Er, Ei, str_eqb_refl, Z.eqb_refl in G0.
  - apply exists_where_true in G1 as (s & Hs & Hr). by eapply select_one_is_Some.
  - by apply cand_exists.
Qed.

Lemma commitClaim_run owner ttl now x id exp db db' :
  commitClaim owner ttl now x db = inr ((id, exp), db') ->
  exists d1 d2, let c := claimed db owner now (now + ttl) x in
    db' = noted (noted c d1) d2 /\ well_noted c d1 /\ well_noted (noted c d1) d2 /\
    id = id_text "attempt" (next_id db) /\ exp = now + ttl /\
    (forall a, a ∈ attempts db -> a_attempt_id a <> id) /\
    (forall a, a ∈ attempts db -> akey a <> (runId x, candidateIndex x)) /\
    (forall l, l ∈ leases db -> l_lease_id l <> id_text "lease" (S (next_id db))) /\
    is_Some (sched db (runId x)) /\ (runId x, candidateIndex x) ∈ map ckey (candidates db).
Proof.
  intros E. unfold commitClaim in E. op_step E. apply freshId_run in E0 as [-> ->].
  op_step E. apply freshId_run in E0 as [-> ->]. op_inv E.
  match goal with Hx : insertAttempt _ _ = inr _ |- _ =>
    apply insertAttempt_run in Hx as (-> & Hid & Hkey & Hs & Hc) end.
  match goal with Hx : insertLease _ _ = inr _ |- _ => unfold insertLease in Hx; op_inv Hx end.
  repeat match goal with Hx : recordDecision _ _ _ _ _ _ _ _ _ = inr _ |- _ =>
    apply recordDecision_run in Hx as (? & -> & ? & _) end.
  simplify_eq. eexists _, _. split; [reflexivity|]. split_and!; try done.
  - intros l Hl El. rewrite negb_true_iff in G. rewrite exists_where_false in G.
    specialize (G l Hl). simpl in G. apply str_eqb_true in El. congruence.
  - simpl in Hc. rewrite ckeys_update in Hc; [done|]. intros c. apply columns_ident, claimCandidate_columns.
Qed.

Lemma evolves_add_attempt db a : evolves db (with_attempts (fun rows => rows ++ [a]) db).
Proof. ev_same. apply (grows_snoc att_step attempt_is). Qed.

Lemma evolves_add_lease db l : evolves db (with_leases (fun rows => rows ++ [l]) db).
Proof. ev_same. apply (grows_snoc lease_step lease_of). Qed.

Lemma good_claimed db0 db owner now expires x :
  Good settled db0 db -> idle db (runId x) ->
  (forall a, a ∈ attempts db -> a_attempt_id a <> id_text "attempt" (next_id db)) ->
  (forall a, a ∈ attempts db -> akey a <> (runId x, candidateIndex x)) ->
  (forall l, l ∈ leases db -> l_lease_id l <> id_text "lease" (S (next_id db))) ->
  (runId x, candidateIndex x) ∈ map ckey (candidates db) ->
  Good settled db0 (claimed db owner now expires x).
Proof.
  intros HG (s & Hs & Hst) Hid Hkey Hlid Hc.
  pose proof (good_next_id _ _ _ (good_next_id _ _ _ HG)) as HG1. simpl in HG1.
  apply (good_open (runId x) s) in HG1; [|done|destruct Hst; congruence].
  apply (good_delete_queue _ _ _ (queued_of (runId x))) in HG1.
  apply (good_candidates _ _ _ (candidate_of (runId x)) (claimCandidate (candidateIndex x))) in HG1;
    [|apply claimCandidate_columns|].
  2:{ intros q c Hq Hqc Hp. apply unqueued_delete in Hq. apply cand_key in Hqc as [Hr _].
      apply candidate_of_true in Hp. congruence. }
  destruct HG1 as [Hi He]. unfold claimed. split.
  - apply (inv_claim _ (claimAttempt db now x) (claimLease db owner now expires x)); simpl; try done.
    + apply unqueued_delete.
    + rewrite ckeys_update by (intros c; apply columns_ident, claimCandidate_columns). done.
    + exists (next_id db). simpl. split; [lia|done].
    + exists (S (next_id db)). simpl. split; [lia|done].
  - etransitivity; [exact He|]. etransitivity; [apply evolves_add_attempt|].
    etransitivity; [apply evolves_add_lease|]. eapply evolves_move; [apply Hi|apply moves_move|].
    intros s' Hs'. assert (Some s' = Some s) as [= ->] by (rewrite <-Hs, <-Hs'; done).
    destruct Hst; congruence.
Qed.

(** The rows of the claim's select come from entries of the queue. *)
Lemma queueRow_run db raw x d d' :
  queueRow db raw d = inr (x, d') ->
  let '(c, s, q) := raw in
  d' = d /\ queueSequence x = q_queue_sequence q /\ runId x = q_run_id q /\
  candidateIndex x = q_candidate_index q /\ accountId x = q_account_id q /\
  requestedPriority x = q_requested_priority q /\ enqueuedAt x = q_enqueued_at q /\
  maxConcurrentRuns x = match select_one (fun ac => str_eqb (ac_account_id ac) (q_account_id q))
                          (capacities db) with
                        | Some ac => ac_max_concurrent_runs ac
                        | None => c_max_concurrent_runs c
                        end.
Proof. destruct raw as [[c s] q]. intros E. unfold queueRow in E. by op_inv E. Qed.

Lemma claimRow_Some db account q0 c s q :
  claimRow db account q0 = Some (c, s, q) ->
  q = q0 /\ cand db (q_run_id q) (q_candidate_index q) = Some c /\
  sched db (q_run_id q) = Some s /\ c_state c = CQueued /\ s_state s = SQueued /\
  match account with Some a => q_account_id q = a | None => True end.
Proof.
  unfold claimRow. fold (cand db (q_run_id q0) (q_candidate_index q0)) (sched db (q_run_id q0)).
  destruct (cand _ _ _) as [c'|] eqn:Ec; [|done]. destruct (sched _ _) as [s'|] eqn:Es; [|done].
  destruct (_ && _) eqn:E; [|done]. intros [= <- <- <-].
  apply andb_true_iff in E as [[H1 H2]%andb_true_iff H3].
  apply bool_decide_eq_true in H1, H2. split_and!; try done.
  destruct account; [by apply str_eqb_true in H3|done].
Qed.

Lemma claimRows_idle db account rows d d' :
  mapM (queueRow db) (omap (claimRow db account) (queue db)) d = inr (rows, d') ->
  d' = d /\ forall x, x ∈ rows -> idle db (runId x).
Proof.
  intros E. apply (mapM_read _ (fun raw x => runId x = q_run_id raw.2)) in E as [-> HF].
  2:{ intros [[c s] q] y s1 Hy. apply queueRow_run in Hy as (-> & _ & -> & _). done. }
  split; [done|]. intros x Hx. apply list_elem_of_lookup in Hx as [i Hx].
  eapply Forall2_lookup_r in HF as ([[c s] q] & Hraw & Hr); [|exact Hx].
  apply list_elem_of_lookup_2, list_elem_of_omap in Hraw as (q0 & _ & Hq).
  apply claimRow_Some in Hq as (-> & _ & Hs & _ & Hst & _). simpl in Hr. rewrite Hr.
  exists s. split; [done|]. by left.
Qed.

Lemma idle_lease_only db db' r : lease_only db db' -> idle db r -> idle db' r.
Proof. intros (ls & ds & n & ->). done. Qed.

Lemma claim_good owner ttl account now result db db' :
  Inv db -> claimNextExecutionCandidate owner ttl account now db = inr (result, db') ->
  Good settled db db'.
Proof.
  intros Hi E. unfold claimNextExecutionCandidate in E. op_step E. op_step E.
  apply bind_run in E as (u & d1 & E1 & E). op_step E.
  destruct (expire_good settled now u db db d1 (good_start db Hi) E1) as [HG1 _].
  apply bind_run in E as (rows & d2 & [-> Hrows]%claimRows_idle & E).
  apply bind_run in E as (available & d3 & E3 & E).
  apply (availableHeads_good _ _ _ db) in E3 as (HG3 & Hf & Hsub); [|done|].
  2:{ intros h Hh. apply Hrows. by apply accountHeads_first in Hh as [? _]. }
  destruct (selectRow now available) as [x|] eqn:Ex; [|by op_inv E].
  apply bind_run in E as ([id exp] & d4 & E4 & E). op_inv E.
  apply commitClaim_run in E4 as (n1 & n2 & -> & Hn1 & Hn2 & -> & _ & Hid & Hkey & Hlid & _ & Hc).
  apply good_well_noted; [|done]. apply good_well_noted; [|done]. apply good_claimed; try done.
  apply Hf, Hrows. apply selectRow_elem, Hsub, accountHeads_first in Ex. apply Ex.
Qed.
End Operations.

Local Open Scope Z_scope.

(** ** Account scheduling: attempts, leases, completion and answers

    The remaining operations keep the invariant; histories of operations. *)

Section More.
Context `{IdGenerator} `{DateParser}.

(** ** Attempts *)

(** An update of queued attempts that keeps their status. *)
Lemma updateAttempt_good p f message u db db' :
  Inv db -> (forall a, p a = true -> a_status a = AQueued) ->
  (forall a, attempt_key (f a) = attempt_key a /\ a_status (f a) = a_status a) ->
  updateAttempt p f message db = inr (u, db') -> Good settled db db'.
Proof.
  intros Hi Hp Hf E. unfold updateAttempt in E. op_inv E.
  apply good_attempts; [by apply good_start|intros x; apply Hf|].
  intros x Hx Hpx. specialize (Hp x Hpx). destruct (Hf x) as [_ Est].
  unfold attempt_live. by rewrite Est, Hp.
Qed.

Lemma assignWorkspace_good id w now u db db' :
  Inv db -> assignAttemptWorkspace id w now db = inr (u, db') -> Good settled db db'.
Proof.
  intros Hi E. unfold assignAttemptWorkspace in E. op_inv E.
  eapply updateAttempt_good; [done| | |exact E]; [|done]. intros x.
  rewrite !andb_true_iff, !bool_decide_eq_true. tauto.
Qed.

Lemma updateLimits_good id limits now u db db' :
  Inv db -> updateAttemptLimits id limits now db = inr (u, db') -> Good settled db db'.
Proof.
  intros Hi E. unfold updateAttemptLimits in E. op_inv E.
  eapply updateAttempt_good; [done| | |exact E]; [|done]. intros x.
  rewrite !andb_true_iff, !bool_decide_eq_true. tauto.
Qed.

Lemma baseline_good id baseline now u db db' :
  Inv db -> recordAttemptReadonlyBaseline id baseline now db = inr (u, db') -> Good settled db db'.
Proof.
  intros Hi E. unfold recordAttemptReadonlyBaseline in E. op_inv E.
  eapply updateAttempt_good; [done| | |exact E]; [|done]. intros x.
  rewrite !andb_true_iff, !bool_decide_eq_true. tauto.
Qed.

(** The row with a given attempt id is the one [select_one] finds. *)
Lemma att_only m db id a a' :
  InvBut m db -> att db id = Some a -> a' ∈ attempts db -> attempt_is id a' = true -> a' = a.
Proof.
  intros Hi Ha Ha' Hid. apply (NoDup_map_inj a_attempt_id (attempts db)); [apply Hi|done| |].
  - by eapply att_elem.
  - apply attempt_is_true in Hid. apply att_id in Ha. congruence.
Qed.

(** A select with a further condition finds the row of the key, if that
    satisfies the condition. *)
Lemma select_att m db id p a :
  InvBut m db -> select_one (fun a => attempt_is id a && p a) (attempts db) = Some a ->
  att db id = Some a /\ p a = true.
Proof.
  intros Hi [Ha [Hid Hp]%andb_true_iff]%select_one_Some. split; [|done].
  apply (select_one_key a_attempt_id); [apply Hi| |done|done].
  intros a' Ha'%attempt_is_true. apply attempt_is_true in Hid. congruence.
Qed.

Lemma start_good id backend now u db db' :
  Inv db -> startExecutionAttempt id backend now db = inr (u, db') -> Good settled db db'.
Proof.
  intros Hi E. unfold startExecutionAttempt in E. op_inv E.
  destruct (select_one _ _) as [row|] eqn:Es; [|by op_inv E]. op_inv E.
  rewrite (select_one_ext _ (fun a => attempt_is id a && (bool_decide (a_status a = AQueued) &&
    bool_decide (is_Some (a_workspace_id a))))) in Es by (intros; by rewrite andb_assoc).
  apply (select_att settled) in Es as [Ha Hp]; [|done].
  apply andb_true_iff in Hp as [Hst%bool_decide_eq_true _].
  eapply good_noted; [|exact E]. apply good_attempts; [by apply good_start|done|].
  intros x Hin Hid. rewrite (att_only _ _ _ _ _ Hi Ha Hin Hid). unfold attempt_live. by rewrite Hst.
Qed.

(** ** Leases *)

Lemma lease_only_row m db id l l' :
  InvBut m db -> lease_for db id = Some l -> l' ∈ leases db -> lease_of id l' = true -> l' = l.
Proof.
  intros Hi Hl Hl' Hid. apply (NoDup_map_inj l_attempt_id (leases db)); [apply Hi|done| |].
  - by eapply lease_for_elem.
  - apply lease_of_true in Hid. apply lease_for_id in Hl. congruence.
Qed.

Lemma renew_good id owner fence ttl now result db db' :
  Inv db -> renewAccountLease id owner fence ttl now db = inr (result, db') -> Good settled db db'.
Proof.
  intros Hi E. unfold renewAccountLease in E. op_step E.
  apply bind_run in E as (u & d1 & E1 & E). op_inv E.
  destruct (expire_good settled now u db db d1 (good_start db Hi) E1) as [HG _].
  destruct (select_one _ _) as [row|]; [|by op_inv E]. op_inv E.
  eapply good_noted; [|eassumption]. apply good_leases; [done|done|..].
  - intros l _. unfold renewable. rewrite !andb_true_iff, Z.eqb_eq. simpl. lia.
  - intros l x Hl Hp Hx. destruct HG as [Hi1 _].
    destruct (inv_leases _ _ Hi1 l Hl) as (_ & _ & y & Hy & _ & _ & _ & Hact & Hrel).
    assert (y = x) as -> by congruence. done.
Qed.

Lemma leaseAttempt_Some db p l a :
  leaseAttempt db p = Some (l, a) -> l ∈ leases db /\ att db (l_attempt_id l) = Some a /\ p l a = true.
Proof.
  unfold leaseAttempt. intros (l' & Hl & E)%head_omap_Some.
  destruct (select_one _ _) as [a'|] eqn:Ea; [|done].
  destruct (p l' a') eqn:Ep; [|done]. by injection E as -> ->.
Qed.

Lemma leaseAttempt_None db p l a :
  leaseAttempt db p = None -> l ∈ leases db -> att db (l_attempt_id l) = Some a -> p l a = false.
Proof.
  unfold leaseAttempt, att. intros E Hl Ha. apply (head_omap_None _ _ l) in E; [|done].
  cbv beta in E. rewrite Ha in E. by destruct (p l a).
Qed.

(** The lease of a live attempt, whatever its state, is the attempt's lease. *)
Lemma restore_good id owner ttl reason now result db db' :
  Inv db -> restoreAccountLease id owner ttl reason now db = inr (result, db') -> Good settled db db'.
Proof.
  intros Hi E. unfold restoreAccountLease in E. op_step E. op_step E. op_step E.
  destruct (leaseAttempt db _) as [[l row]|] eqn:Ela; [|by op_inv E]. op_inv E.
  apply leaseAttempt_Some in Ela as (Hl & Hrow & [Hid Hlive]%andb_true_iff).
  apply lease_of_true in Hid. rewrite Hid in Hrow.
  assert (HG : Good settled db s /\ leases s = leases db /\
               exists row', att s id = Some row' /\ attempt_live row' = true).
  { destruct reason as [code|]; op_inv E0.
    - split; [|split; [done|]].
      + apply good_attempts; [by apply good_start|done|]. intros x Hx Hxid.
        rewrite (att_only _ _ _ _ _ Hi Hrow Hx Hxid). done.
      + rewrite att_update, Hrow by done. simpl. eexists. split; [done|].
        by rewrite (proj2 (attempt_is_true _ row) (att_id _ _ _ Hrow)).
    - split; [by apply good_start|]. split; [done|]. by exists row. }
  destruct HG as (HG & Hls & row' & Hrow' & Hlive'). eapply good_noted; [|eassumption].
  apply good_leases; [done|done|..].
  - intros l' Hl' Hof. rewrite Hls in Hl'. apply lease_of_true in Hof.
    assert (l' = l) as ->; [|simpl; lia].
    apply (NoDup_map_inj l_attempt_id (leases db)); [apply Hi|done|done|congruence].
  - intros l' x _ Hof Hx. apply lease_of_true in Hof. rewrite Hof in Hx. simpl.
    split; [|done]. intros _. congruence.
Qed.

(** ** Completion *)

Definition releaseRow (now : Z) (l : Lease) : Lease :=
  lease_set (l_owner_id l) (l_renewed_at l) (l_expires_at l) (Some now)
    (l_fencing_revision l + 1) LReleased l.

Definition activeLease (id : string) (l : Lease) : bool := lease_of id l && lease_active l.

(** Releasing changes the active lease of the attempt, if it has one. *)
Lemma releaseLease_run id now rc u db db' :
  (forall l, l ∈ leases db -> is_Some (att db (l_attempt_id l))) ->
  releaseLease id now rc db = inr (u, db') ->
  let freed := with_leases (update_where (activeLease id) (releaseRow now)) db in
  db' = freed \/ exists d, db' = noted freed d /\ well_noted freed d.
Proof.
  intros Hatt E freed. unfold releaseLease in E. op_inv E.
  destruct (leaseAttempt db _) as [[l row]|] eqn:Ela.
  - op_inv E. apply recordDecision_run in E as (d & -> & Hd & _). right. by exists d.
  - op_inv E. left. unfold freed. transitivity (with_leases (fun rows => rows) db); [by destruct db|].
    unfold with_leases. rewrite update_where_none; [done|]. intros l Hl.
    destruct (Hatt l Hl) as [a Ha]. by apply (leaseAttempt_None _ _ l a) in Ela.
Qed.

Definition finishRow (status : AttemptStatus) (rt ft : option string) (now : Z) (a : Attempt) : Attempt :=
  attempt_set (a_workspace_id a) (a_backend_execution_id a) status (a_limits_json a)
    (a_readonly_baseline_json a) rt ft (a_started_at a) (Some now) now a.

Definition finished (db : Db) (status : AttemptStatus) (st : CandidateState)
    (rt ft : option string) (now : Z) (row : Attempt) : Db :=
  with_candidates (update_where (candidate_is (a_run_id row) (a_candidate_index row))
                     (candidate_state st))
  (with_leases (update_where (activeLease (a_attempt_id row)) (releaseRow now))
  (with_attempts (update_where (attempt_is (a_attempt_id row)) (finishRow status rt ft now)) db)).

Definition final_status (s : AttemptStatus) : Prop :=
  match s with ASucceeded | AFailed | ACancelled => True | _ => False end.

Lemma good_finished db status st rt ft now row :
  Inv db -> att db (a_attempt_id row) = Some row -> attempt_live row = true -> final_status status ->
  Good (fun r' => r' = a_run_id row) db (finished db status st rt ft now row).
Proof.
  intros Hi Ha Hlive Hst. set (id := a_attempt_id row) in *.
  destruct (inv_live _ _ Hi id row Ha Hlive) as (_ & s & Hs & Hrun & _).
  assert (HI : InvBut (fun r' => r' = a_run_id row)
    (with_leases (update_where (activeLease id) (releaseRow now))
      (with_attempts (update_where (attempt_is id) (finishRow status rt ft now)) db))).
  { apply inv_finish; [done|done|done|..].
    - intros a. split_and!; try done. by destruct status.
    - intros l. unfold activeLease. by rewrite andb_true_iff, lease_of_true, lease_active_true.
    - intros l. split_and!; [done|simpl; lia|done]. }
  unfold finished. split.
  - apply inv_update_candidates; [exact HI|done|]. intros q c Hq Hqc Hc. exfalso.
    apply cand_key in Hqc as [Hqr _]. apply candidate_is_true in Hc as [Hcr _].
    destruct (inv_queue _ _ Hi q Hq) as (_ & _ & Hsq). destruct Hsq as (s' & Hs' & Hst'); [intros []|].
    congruence.
  - etransitivity; [|by apply evolves_candidates]. transitivity
      (with_attempts (update_where (attempt_is id) (finishRow status rt ft now)) db).
    + ev_same. apply (grows_update att_step attempt_is); [done|]. intros a Hin Hid. right.
      by rewrite (att_only _ _ _ _ _ Hi Ha Hin Hid).
    + ev_same. apply (grows_update lease_step lease_of); [done|]. intros l _ _. right.
      split; [done|simpl; lia].
Qed.

Lemma completion_final c : final_status (completion_status c).
Proof. by destruct c. Qed.

(** A running run has nothing queued. *)
Lemma running_unqueued db r s :
  Inv db -> sched db r = Some s -> s_state s <> SQueued -> unqueued db r.
Proof.
  intros Hi Hs Hst q Hq Er. destruct (inv_queue _ _ Hi q Hq) as (_ & _ & Hsq).
  destruct Hsq as (s' & Hs' & Hst'); [intros []|]. congruence.
Qed.

Lemma finishAttempt_good status rt ft fe now row u db db' :
  Inv db -> att db (a_attempt_id row) = Some row -> attempt_live row = true ->
  finishAttempt status rt ft fe now row db = inr (u, db') ->
  Good (fun r' => r' = a_run_id row) db db' /\ schedules db' = schedules db /\ queue db' = queue db.
Proof.
  intros Hi Ha Hlive E. unfold finishAttempt in E. op_inv E.
  match goal with Hx : releaseLease _ _ _ _ = inr _ |- _ => apply releaseLease_run in Hx end.
  2:{ intros l Hl. destruct (inv_leases _ _ Hi l Hl) as (_ & _ & a' & Ha' & _).
      change (is_Some (att (with_attempts (update_where (attempt_is (a_attempt_id row))
        (finishRow (completion_status status) rt ft now)) db) (l_attempt_id l))).
      rewrite att_update, Ha' by done. by eexists. }
  pose proof (good_finished db (completion_status status)
    (match status with Succeeded => CSucceeded | _ => CFailed end) rt ft now row Hi Ha Hlive
    (completion_final status)) as HG.
  cbv zeta in *. destruct E0 as [->|(d & -> & Hd)].
  - split; [by eapply good_noted|]. by apply recordDecision_run in E as (d & -> & _).
  - split; [eapply good_noted; [|exact E]; by apply good_well_noted|].
    by apply recordDecision_run in E as (d' & -> & _).
Qed.

Lemma requeueLoop_good r priority now rq rest b db0 db db' :
  Good (fun r' => r' = r) db0 db -> requeueLoop r priority now rq rest db = inr (b, db') ->
  Good (fun r' => r' = r) db0 db' /\ schedules db' = schedules db /\ (b = false -> db' = db).
Proof.
  revert rq db. induction rest as [|c rest IH]; intros rq db HG E; simpl in E;
    [apply ret_run in E as [-> ->]; by split_and!|].
  apply bind_run in E as (b1 & d1 & E1 & E).
  destruct (IH _ _ (good_enqueue _ _ _ _ _ _ _ _ HG E1) E) as (HG1 & Hs & Hb). split; [done|].
  apply enqueueCandidate_run in E1 as [[-> ->]|(-> & c' & acc & _ & _ & _ & _ & _ & ->)]; [done|].
  split; [done|]. intros ->. exfalso. clear -E. simpl in E.
  enough (forall rest d, requeueLoop r priority now true rest d <> inr (false, db')) as Hn
    by by apply Hn in E. clear. induction rest as [|c rest IH]; intros d E; simpl in E; [discriminate|].
  apply bind_run in E as (b & d1 & _ & E). rewrite orb_true_r in E. by apply IH in E.
Qed.

(** A run whose attempt just finished: it moves, nothing of it is queued, and it
    is not terminal. *)
Definition Finishing (r : string) (db0 db : Db) : Prop :=
  Good (fun r' => r' = r) db0 db /\ unqueued db r /\
  forall s, sched db r = Some s -> s_state s <> STerminal.

Lemma requeueRemaining_good row s now b db0 db db' :
  Finishing (a_run_id row) db0 db -> requeueRemaining row s now db = inr (b, db') ->
  if b then Good settled db0 db' else Finishing (a_run_id row) db0 db'.
Proof.
  intros (HG & Hq & Hst) E. unfold requeueRemaining in E. op_step E.
  apply bind_run in E as (rq & d1 & E1 & E).
  destruct (requeueLoop_good _ _ _ _ _ _ _ _ _ HG E1) as (HG1 & Hs & Hno).
  destruct rq; op_inv E.
  - eapply good_noted; [|eassumption]. eapply good_close; [exact HG1|apply moves_move|done|].
    intros s'. unfold sched. rewrite Hs. apply Hst.
  - rewrite (Hno eq_refl) in *.
    match goal with Hx : recordDecision _ _ _ _ _ _ _ _ _ = inr _ |- _ =>
      pose proof (good_noted _ _ _ _ _ _ _ _ _ _ _ _ _ HG Hx) as HG2;
      apply recordDecision_run in Hx as (d & -> & _) end.
    by split_and!.
Qed.

Lemma complete_good input now result db db' :
  Inv db -> completeExecutionAttempt input now db = inr (result, db') -> Good settled db db'.
Proof.
  intros Hi E. unfold completeExecutionAttempt in E. op_inv E.
  destruct (select_one _ (attempts db)) as [row|] eqn:Er; [|by op_inv E].
  apply (select_att settled) in Er as [Ha Hlive]; [|done].
  rewrite <-(att_id _ _ _ Ha) in Ha.
  destruct (inv_live _ _ Hi _ row Ha Hlive) as (_ & s & Hs & Hrun & _).
  fold (sched db (a_run_id row)) in E. rewrite Hs in E. op_inv E.
  match goal with Hx : finishAttempt _ _ _ _ _ _ _ = inr (_, ?d) |- _ =>
    destruct (finishAttempt_good _ _ _ _ _ _ _ _ _ Hi Ha Hlive Hx) as (HG & Hsch & Hq); clear Hx;
    assert (HF : Finishing (a_run_id row) db d) end.
  { split; [done|]. split.
    - unfold unqueued. rewrite Hq. apply (running_unqueued db (a_run_id row) s); [done|done|congruence].
    - intros s'. unfold sched. rewrite Hsch. intros Hs'. assert (s' = s) as -> by (unfold sched in Hs; congruence).
      congruence. }
  match goal with Hx : (if fallbackWanted _ then _ else _) _ = inr (?b, ?d) |- _ =>
    rename Hx into Hrest;
    assert (Hend : if b then Good settled db d else Finishing (a_run_id row) db d) end.
  { destruct (fallbackWanted input); [by eapply requeueRemaining_good|by op_inv Hrest]. }
  match type of Hend with if ?b then _ else _ => destruct b; op_inv E; [done|] end.
  destruct Hend as (HG2 & Hq2 & Hst2). eapply good_close; [exact HG2|apply moves_state|exact Hq2|done].
Qed.

(** ** Cancelling and answering *)

Lemma cancel_good sn now u db db' :
  Inv db -> sched db (s_run_id (es_row sn)) = Some (es_row sn) ->
  (s_state (es_row sn) = SQueued \/ s_state (es_row sn) = SWaitingOnUser) ->
  cancelQueuedInside sn now db = inr (u, db') -> Good settled db db'.
Proof.
  intros Hi Hs Hst E. unfold cancelQueuedInside in E. op_step E.
  destruct (select_one _ (candidates db)) as [c|]; [|by op_inv E].
  op_step E. apply freshId_run in E0 as [-> ->]. op_inv E.
  set (r := s_run_id (es_row sn)) in *.
  match goal with Hx : insertAttempt _ _ = inr _ |- _ =>
    apply insertAttempt_run in Hx as (-> & Hid & Hkey & Hss & Hc) end.
  eapply good_noted; [|exact E].
  pose proof (good_next_id _ _ _ (good_start db Hi)) as HG.
  apply (good_open r (es_row sn)) in HG; [|done|destruct Hst; congruence].
  match type of Hc with akey ?row ∈ _ => apply (good_dead_attempt _ _ _ row) in HG end;
    [|done|exact Hid|exact Hkey|exact Hc|].
  2:{ exists (next_id db). simpl. split; [lia|done]. }
  apply (good_delete_queue _ _ _ (queued_of r)) in HG.
  apply (good_candidates _ _ _ (candidate_is r 0) (candidate_state CFailed)) in HG; [|done|].
  2:{ intros q x Hq Hqx Hx. apply unqueued_delete in Hq. apply cand_key in Hqx as [Hr _].
      apply candidate_is_true in Hx as [Hx _]. congruence. }
  eapply good_close; [exact HG|apply moves_move|apply unqueued_delete|].
  intros s'. change (sched db r = Some s' -> s_state s' <> STerminal). intros Hs'.
  assert (s' = es_row sn) as -> by congruence. destruct Hst; congruence.
Qed.

Lemma cancelQueued_good r now b db db' :
  Inv db -> cancelQueuedExecutionSchedule r now db = inr (b, db') -> Good settled db db'.
Proof.
  intros Hi E. unfold cancelQueuedExecutionSchedule in E. op_step E.
  apply bind_run in E as (sn & d & [-> Hs]%readRequired_run & E).
  pose proof (sched_run _ _ _ Hs) as Hr. rewrite <-Hr in Hs.
  destruct (s_state (es_row sn)) eqn:Est; op_inv E.
  - eapply cancel_good; [done|exact Hs|auto|eassumption].
  - eapply cancel_good; [done|exact Hs|auto|eassumption].
  - by apply good_start.
Qed.

Lemma requeueAnswer_good sn r i now u db db' :
  Inv db -> sched db r = Some (es_row sn) -> s_state (es_row sn) = SWaitingOnUser ->
  requeueAnswer sn r i now db = inr (u, db') -> Good settled db db'.
Proof.
  intros Hi Hs Hst E. unfold requeueAnswer in E. op_inv E.
  pose proof (good_open r (es_row sn) db db (good_start db Hi) Hs ltac:(congruence)) as HG.
  match goal with Hx : enqueueCandidate _ _ _ _ _ = inr (_, ?d) |- _ =>
    pose proof (good_enqueue _ _ _ _ _ _ _ _ HG Hx) as HG1; 
    assert (Hsch : schedules d = schedules db)
      by by apply enqueueCandidate_run in Hx as [[_ ->]|(_ & c & ac & _ & _ & _ & _ & _ & ->)] end.
  eapply good_close; [exact HG1|apply moves_state|done|].
  intros s'. unfold sched. rewrite Hsch. intros Hs'.
  assert (s' = es_row sn) as -> by (unfold sched in Hs; congruence). congruence.
Qed.

Lemma applyAnswer_good r revision answer now b db db' :
  Inv db -> applyCapacityAnswerInside r revision answer now db = inr (b, db') -> Good settled db db'.
Proof.
  intros Hi E. unfold applyCapacityAnswerInside in E.
  apply bind_run in E as (sn & d & [-> Hs]%readRequired_run & E). cbv zeta in E.
  destruct (_ || _) eqn:Est; [op_inv E; by apply good_start|].
  apply orb_false_iff in Est as [Est%negb_false_iff%bool_decide_eq_true _].
  pose proof (sched_run _ _ _ Hs) as Hr.
  op_inv E. eapply good_noted; [|eassumption].
  destruct answer; op_inv E0.
  - by eapply requeueAnswer_good.
  - by eapply requeueAnswer_good.
  - eapply cancel_good; [done|exact Hs|by right|eassumption].
Qed.

Lemma readQuestion_run r o db db' :
  readCapacityQuestion r db = inr (o, db') ->
  db' = db /\ match o with Some qs => question db r = Some (qs_row qs) | None => question db r = None end.
Proof.
  intros E. unfold readCapacityQuestion in E. op_inv E. fold (question db r) in E.
  destruct (question db r) as [k|] eqn:Ek; op_inv E; by rewrite ?Ek.
Qed.

Lemma checkAnswers_run input interaction label db db' :
  checkAnswers input interaction db = inr (label, db') -> db' = db.
Proof.
  unfold checkAnswers. destruct (ai_answers input) as [|x [|]]; [done| |done]. intros E. op_inv E.
  destruct (sa_selectedLabels x) as [[|y [|]]|]; by op_inv E.
Qed.

Lemma capacityChoice_run label answer db db' :
  capacityChoice label db = inr (answer, db') -> db' = db.
Proof.
  unfold capacityChoice. intros E. destruct (str_eqb _ _); [by op_inv E|].
  destruct (str_eqb _ _); by op_inv E.
Qed.

Lemma answer_good input now now' result db db' :
  Inv db -> answerCapacityQuestion input now now' db = inr (result, db') -> Good settled db db'.
Proof.
  intros Hi E. unfold answerCapacityQuestion in E. op_step E. op_step E.
  apply bind_run in E as (o & d & [-> Hq]%readQuestion_run & E). cbv zeta in E.
  op_step E. cbv zeta in E. op_step E.
  apply bind_run in E as (label & d & Ed%checkAnswers_run & E). subst d.
  apply bind_run in E as (answer & d & Ed%capacityChoice_run & E). subst d.
  apply bind_run in E as (sn & d & [-> Hs]%readRequired_run & E).
  apply bind_run in E as (accepted & d & Ea & E).
  apply (applyAnswer_good _ _ _ _ _ _ _ Hi) in Ea as HG. op_step E.
  op_step E. apply freshId_run in E0 as [-> ->]. op_step E. apply freshId_run in E0 as [-> ->].
  op_inv E. apply readRequired_run in E0 as [-> _].
  apply good_answer; [by apply good_next_id, good_next_id|].
  intros k _. rewrite !andb_true_iff, bool_decide_eq_true. tauto.
Qed.
End More.
