(* ===== verification/SchedulingCapacity.v ===== *)
(** * Account scheduling: slots

    How many slots of an account are taken, operation by operation. *)

From S2P Require Import Prelude SqlList Json StateJson Scheduling SchedulingInv.
From S2P Require Import SchedulingSteps SchedulingOps.

Local Open Scope Z_scope.

(** The leases of an account that are active and not expired at [t]. *)
Definition slots (account : string) (t : Z) (db : Db) : Z :=
  count_where (holds_slot account t) (leases db).

Definition cand_limit (c : Candidate) : option string * Z := (c_account_id c, c_max_concurrent_runs c).

(** No slot was taken, and no limit changed. *)
Record calm (t : Z) (db db' : Db) : Prop := {
  calm_capacities : capacities db' = capacities db;
  calm_candidates : map cand_limit (candidates db') = map cand_limit (candidates db);
  calm_slots : forall account, slots account t db' <= slots account t db }.

#[export] Instance calm_preorder t : PreOrder (calm t).
Proof.
  split; [done|]. intros d1 d2 d3 [E1 E2 E3] [F1 F2 F3]. split; try congruence.
  intros account. specialize (E3 account). specialize (F3 account). lia.
Qed.

Lemma calm_same t db db' :
  capacities db' = capacities db -> candidates db' = candidates db -> leases db' = leases db ->
  calm t db db'.
Proof. intros E1 E2 E3. split; [done|by rewrite E2|]. intros account. unfold slots. by rewrite E3. Qed.

Lemma slots_later account t t' db : t <= t' -> slots account t' db <= slots account t db.
Proof.
  intros Ht. apply count_where_mono. intros l _. unfold holds_slot.
  rewrite !andb_true_iff, !Z.ltb_lt. intros [[? ?] ?]. split_and!; [done..|lia].
Qed.

Lemma count_update_le {R} (q p : R -> bool) f rows :
  (forall r, r ∈ rows -> p r = true -> q (f r) = true -> q r = true) ->
  count_where q (update_where p f rows) <= count_where q rows.
Proof.
  unfold count_where, select_where, update_where. induction rows as [|r rows IH]; intros Hq; simpl; [lia|].
  assert (Hrest : forall r', r' ∈ rows -> p r' = true -> q (f r') = true -> q r' = true)
    by (intros r' Hr'; apply Hq; by right).
  specialize (IH Hrest). destruct (p r) eqn:Ep.
  - destruct (q (f r)) eqn:Eq.
    + rewrite (Hq r) by (done || by left). simpl. lia.
    + destruct (q r); simpl; lia.
  - destruct (q r); simpl; lia.
Qed.

Lemma calm_leases t db p f :
  (forall l, lease_ident (f l) = lease_ident l) ->
  (forall l, l ∈ leases db -> p l = true -> l_state (f l) = LActive -> t < l_expires_at (f l) ->
     l_state l = LActive /\ t < l_expires_at l) ->
  calm t db (with_leases (update_where p f) db).
Proof.
  intros Hid Hf. split; [done..|]. intros account. apply count_update_le. intros l Hl Hp.
  unfold holds_slot. rewrite !andb_true_iff, !lease_active_true, !Z.ltb_lt, !str_eqb_true.
  intros [[Ha Hst] Ht]. destruct (Hf l Hl Hp Hst Ht). split; [split; [|done]|done].
  rewrite <-Ha. specialize (Hid l). unfold lease_ident in Hid. congruence.
Qed.

Lemma calm_cands t db p f :
  (forall c, cand_key_columns (f c) = cand_key_columns c) ->
  calm t db (with_candidates (update_where p f) db).
Proof.
  intros Hf. split; [done| |done]. simpl. apply update_map. intros c _. specialize (Hf c).
  unfold cand_key_columns in Hf. unfold cand_limit. congruence.
Qed.

Section Slots.
Context `{IdGenerator} `{DateParser}.

Lemma calm_noted t db d : calm t db (noted db d).
Proof. done. Qed.

Lemma calm_record t r st i p a k rc now u db db' :
  recordDecision r st i p a k rc now db = inr (u, db') -> calm t db db'.
Proof. by intros (d & -> & _)%recordDecision_run. Qed.

Lemma calm_enqueue t r i priority now b db db' :
  enqueueCandidate r i priority now db = inr (b, db') -> calm t db db'.
Proof.
  intros [[_ ->]|(_ & c & account & _ & _ & _ & _ & _ & ->)]%enqueueCandidate_run; [done|].
  etransitivity; [|by apply calm_cands]. done.
Qed.

Lemma calm_expire t now u db db' : expireOrphanLeases now db = inr (u, db') -> calm t db db'.
Proof.
  intros E. unfold expireOrphanLeases in E. op_inv E.
  eapply (forM_run _ (calm t db)); [exact E|done|]. intros [[l c] s] d1 v d2 _ Hx Hc.
  etransitivity; [exact Hc|]. unfold expireOne in Hx. op_inv Hx.
  etransitivity; [|by eapply calm_record]. by apply calm_leases.
Qed.

(** Refusing a head changes neither leases nor limits. *)
Lemma reject_frame now h u db db' :
  rejectHead now h db = inr (u, db') ->
  capacities db' = capacities db /\ candidates db' = candidates db /\ leases db' = leases db.
Proof.
  intros E. unfold rejectHead in E. apply bind_run in E as (u1 & d1 & E1 & E).
  apply recordDecision_run in E1 as (d & -> & _). destruct (bool_decide _); op_inv E; [|done].
  apply recordDecision_run in E as (d' & -> & _).
  match goal with Hx : createCapacityQuestion _ _ _ = inr _ |- _ =>
    apply createQuestion_run in Hx as (text & _ & ->) end. done.
Qed.

Lemma calm_release t id now rc u db db' : releaseLease id now rc db = inr (u, db') -> calm t db db'.
Proof.
  intros E. unfold releaseLease in E. op_inv E. destruct (leaseAttempt _ _) as [[l row]|]; op_inv E; [|done].
  etransitivity; [|by eapply calm_record]. by apply calm_leases.
Qed.

Lemma calm_requeue t r priority now rq rest b db db' :
  requeueLoop r priority now rq rest db = inr (b, db') -> calm t db db'.
Proof.
  revert rq db. induction rest as [|c rest IH]; intros rq db E; simpl in E;
    [by apply ret_run in E as [-> ->]|].
  apply bind_run in E as (b1 & d1 & E1%(calm_enqueue t) & E%IH). by etransitivity.
Qed.

Lemma calm_cancel t sn now u db db' : cancelQueuedInside sn now db = inr (u, db') -> calm t db db'.
Proof.
  intros E. unfold cancelQueuedInside in E. op_step E.
  destruct (select_one _ _) as [c|]; [|by op_inv E]. op_step E. apply freshId_run in E0 as [-> ->].
  op_inv E. match goal with Hx : insertAttempt _ _ = inr _ |- _ =>
    apply insertAttempt_run in Hx as (-> & _) end.
  etransitivity; [|by eapply calm_record]. 
  etransitivity; [by apply (calm_cands t db (candidate_is (s_run_id (es_row sn)) 0) (candidate_state CFailed))|].
  by apply calm_same.
Qed.

Lemma calm_requeueAnswer t sn r i now u db db' :
  requeueAnswer sn r i now db = inr (u, db') -> calm t db db'.
Proof.
  intros E. unfold requeueAnswer in E. apply bind_run in E as (b & d & E1%(calm_enqueue t) & E).
  op_inv E. etransitivity; [exact E1|]. by apply calm_same.
Qed.

Lemma calm_apply t r revision answer now b db db' :
  applyCapacityAnswerInside r revision answer now db = inr (b, db') -> calm t db db'.
Proof.
  intros E. unfold applyCapacityAnswerInside in E.
  apply bind_run in E as (sn & d & [-> Hs]%readRequired_run & E). cbv zeta in E.
  destruct (_ || _); [by op_inv E|]. op_inv E. etransitivity; [|by eapply calm_record].
  destruct answer; op_inv E0; eauto using calm_requeueAnswer, calm_cancel.
Qed.

(** ** Claims take a slot that is free *)

Lemma availableHeads_free now heads available db db' :
  availableHeads now heads db = inr (available, db') ->
  (capacities db' = capacities db /\ candidates db' = candidates db /\ leases db' = leases db) /\
  forall h, h ∈ available <-> h ∈ heads /\ slots (accountId h) now db < maxConcurrentRuns h.
Proof.
  revert available db. induction heads as [|h heads IH]; intros available db E; simpl in E.
  - apply ret_run in E as [-> ->]. split; [done|]. intros h. rewrite elem_of_nil. naive_solver.
  - op_step E. fold (slots (accountId h) now db) in E.
    destruct (Z.ltb_spec (slots (accountId h) now db) (maxConcurrentRuns h)) as [Hlt|Hge].
    + apply bind_run in E as (rest & d1 & E1 & E). apply ret_run in E as [-> ->].
      destruct (IH _ _ E1) as [Hf Hiff]. split; [done|]. intros h'.
      rewrite !elem_of_cons, Hiff. naive_solver.
    + apply bind_run in E as (u & d1 & (E1 & E2 & E3)%reject_frame & E).
      destruct (IH _ _ E) as [(F1 & F2 & F3) Hiff]. split; [by rewrite F1, F2, F3|]. intros h'.
      rewrite Hiff, elem_of_cons. unfold slots. rewrite E3. fold (slots (accountId h') now db).
      split; [naive_solver|]. intros [[->|?] ?]; [lia|done].
Qed.

(** Both limits of an account are [limit]. *)
Definition limited (account : string) (limit : Z) (db : Db) : Prop :=
  (forall ac, ac ∈ capacities db -> ac_account_id ac = account -> ac_max_concurrent_runs ac = limit) /\
  (forall c, c ∈ candidates db -> c_account_id c = Some account -> c_max_concurrent_runs c = limit).

Lemma limited_calm account limit t db db' :
  calm t db db' -> limited account limit db -> limited account limit db'.
Proof.
  intros [E1 E2 _] [Hac Hc]. split; [by rewrite E1|]. intros c Hin Ha.
  assert (Hk : cand_limit c ∈ map cand_limit (candidates db))
    by (rewrite <-E2; by apply list_elem_of_fmap_2).
  apply list_elem_of_fmap in Hk as (c' & Ek & Hc'). unfold cand_limit in Ek. injection Ek as Ea Em.
  rewrite Em. apply Hc; [done|congruence].
Qed.

(** The rows of the claim's select, with what they were read from. *)
Lemma claimRows_spec db account rows d d' :
  mapM (queueRow db) (omap (claimRow db account) (queue db)) d = inr (rows, d') ->
  d' = d /\ Forall2 (fun raw x => exists d0, queueRow db raw d0 = inr (x, d0))
              (omap (claimRow db account) (queue db)) rows.
Proof.
  intros E. apply (mapM_read _ (fun raw x => exists d0, queueRow db raw d0 = inr (x, d0))) in E; [done|].
  intros raw x d1 Hx. assert (d1 = d) as -> by (destruct raw as [[? ?] ?]; by apply queueRow_run in Hx as [-> _]).
  split; [done|]. by exists d.
Qed.

Lemma claimRow_elem db account rows d d' x :
  mapM (queueRow db) (omap (claimRow db account) (queue db)) d = inr (rows, d') -> x ∈ rows ->
  exists c s q d0, q ∈ queue db /\ claimRow db account q = Some (c, s, q) /\
    queueRow db (c, s, q) d0 = inr (x, d0).
Proof.
  intros [_ HF]%claimRows_spec Hx. apply list_elem_of_lookup in Hx as [i Hx].
  eapply Forall2_lookup_r in HF as ([[c s] q] & Hraw & d0 & Hq); [|exact Hx].
  apply list_elem_of_lookup_2, list_elem_of_omap in Hraw as (q0 & Hin & Hr).
  pose proof Hr as Hr'. apply claimRow_Some in Hr' as (-> & _). by exists c, s, q0, d0.
Qed.

Lemma claimRow_limit account limit db filter rows d d' x :
  Inv db -> limited account limit db ->
  mapM (queueRow db) (omap (claimRow db filter) (queue db)) d = inr (rows, d') ->
  x ∈ rows -> accountId x = account -> maxConcurrentRuns x = limit.
Proof.
  intros Hi [Hac Hc] E Hx Ha. destruct (claimRow_elem _ _ _ _ _ _ E Hx) as (c & s & q & d0 & Hq & Hr & Hrow).
  apply claimRow_Some in Hr as (_ & Hcand & _ & _). apply queueRow_run in Hrow as (_ & _ & _ & _ & Hacc & _ & _ & ->).
  rewrite Hacc in Ha. destruct (select_one _ _) as [ac|] eqn:Eac.
  - apply select_one_Some in Eac as [Hin Eac%str_eqb_true]. apply Hac; [done|congruence].
  - destruct (inv_queue _ _ Hi q Hq) as (_ & (c' & Hc' & _ & Hca) & _).
    assert (c' = c) as -> by congruence. apply Hc; [by eapply cand_elem|congruence].
Qed.

Lemma slots_add account now db db' l :
  leases db' = leases db ++ [l] ->
  slots account now db' = slots account now db + (if holds_slot account now l then 1 else 0).
Proof.
  intros E. unfold slots. rewrite E, count_where_app. unfold count_where at 2, select_where. simpl.
  by destruct (holds_slot account now l).
Qed.

Lemma claim_slots account limit owner ttl filter now result db db' :
  Inv db -> limited account limit db -> slots account now db <= limit ->
  claimNextExecutionCandidate owner ttl filter now db = inr (result, db') ->
  limited account limit db' /\ slots account now db' <= limit.
Proof.
  intros Hi Hlim Hs E. unfold claimNextExecutionCandidate in E. op_step E. op_step E.
  apply bind_run in E as (u & d1 & E1 & E). op_step E.
  destruct (expire_good settled now u db db d1 (good_start db Hi) E1) as [[Hi1 _] _].
  apply (calm_expire now) in E1 as Hc1. pose proof (limited_calm _ _ _ _ _ Hc1 Hlim) as Hlim1.
  pose proof (calm_slots _ _ _ Hc1 account) as Hs1.
  apply bind_run in E as (rows & d2 & Erows & E). pose proof Erows as [-> _]%claimRows_spec.
  apply bind_run in E as (available & d3 & [(F1 & F2 & F3) Hfree]%availableHeads_free & E).
  assert (Hc3 : calm now d1 d3) by by apply calm_same.
  destruct (selectRow now available) as [x|] eqn:Ex.
  2:{ op_inv E. split; [by eapply limited_calm|]. pose proof (calm_slots _ _ _ Hc3 account). lia. }
  apply selectRow_elem, Hfree in Ex as [Hhead Hroom].
  apply bind_run in E as ([id exp] & d4 & E4 & E). op_inv E.
  apply commitClaim_run in E4 as (n1 & n2 & -> & _).
  match goal with |- limited _ _ ?d /\ _ => set (d4 := d) end.
  assert (Hc4 : calm now d3 (with_candidates (update_where (candidate_of (runId x))
                  (claimCandidate (candidateIndex x))) d3))
    by (apply calm_cands; intros; apply claimCandidate_columns).
  split.
  - pose proof (limited_calm _ _ _ _ _ Hc4 (limited_calm _ _ _ _ _ Hc3 Hlim1)) as [Ha Hb]. by split.
  - rewrite (slots_add account now d3 d4
      (claimLease d3 owner now (now + default DEFAULT_LEASE_TTL_MS ttl) x)) by done.
    assert (Hd3 : slots account now d3 = slots account now d1) by (unfold slots; by rewrite F3).
    destruct (holds_slot _ _ _) eqn:Eh; [|lia].
    unfold holds_slot in Eh. rewrite !andb_true_iff, str_eqb_true in Eh. destruct Eh as [[Eh _] _].
    simpl in Eh. rewrite Eh in Hroom. apply accountHeads_first in Hhead as [Hin _].
    rewrite (claimRow_limit account limit d1 filter rows d1 d1 x) in Hroom; [lia|done..].
Qed.

(** ** The other operations take none *)

Lemma calm_updateAttempt t p f message u db db' :
  updateAttempt p f message db = inr (u, db') -> calm t db db'.
Proof. intros E. unfold updateAttempt in E. op_inv E. by apply calm_same. Qed.

Lemma calm_assign t id w now u db db' :
  assignAttemptWorkspace id w now db = inr (u, db') -> calm t db db'.
Proof. intros E. unfold assignAttemptWorkspace in E. op_inv E. by eapply calm_updateAttempt. Qed.

Lemma calm_limits t id v now u db db' :
  updateAttemptLimits id v now db = inr (u, db') -> calm t db db'.
Proof. intros E. unfold updateAttemptLimits in E. op_inv E. by eapply calm_updateAttempt. Qed.

Lemma calm_baseline t id v now u db db' :
  recordAttemptReadonlyBaseline id v now db = inr (u, db') -> calm t db db'.
Proof.
  intros E. unfold recordAttemptReadonlyBaseline in E. op_inv E. by eapply calm_updateAttempt.
Qed.

Lemma calm_start t id backend now u db db' :
  startExecutionAttempt id backend now db = inr (u, db') -> calm t db db'.
Proof.
  intros E. unfold startExecutionAttempt in E. op_inv E.
  destruct (select_one _ _); [|by op_inv E]. op_inv E.
  etransitivity; [|by eapply calm_record]. by apply calm_same.
Qed.

Lemma calm_renew id owner fence ttl now result db db' :
  renewAccountLease id owner fence ttl now db = inr (result, db') -> calm now db db'.
Proof.
  intros E. unfold renewAccountLease in E. op_step E.
  apply bind_run in E as (u & d1 & E1%(calm_expire now) & E). op_inv E.
  destruct (select_one _ _) as [row|]; [|by op_inv E]. op_inv E.
  etransitivity; [exact E1|]. etransitivity; [|by eapply calm_record]. apply calm_leases; [done|].
  intros l _ Hr _ _. unfold renewable in Hr.
  rewrite !andb_true_iff, lease_active_true, Z.ltb_lt in Hr. tauto.
Qed.

Lemma calm_finish t status rt ft fe now row u db db' :
  finishAttempt status rt ft fe now row db = inr (u, db') -> calm t db db'.
Proof.
  intros E. unfold finishAttempt in E. op_inv E.
  etransitivity; [|by eapply calm_record]. etransitivity; [|by eapply calm_release].
  etransitivity; [|by apply calm_cands]. by apply calm_same.
Qed.

Lemma calm_remaining t row s now b db db' :
  requeueRemaining row s now db = inr (b, db') -> calm t db db'.
Proof.
  intros E. unfold requeueRemaining in E. op_step E.
  apply bind_run in E as (rq & d1 & E1%(calm_requeue t) & E). etransitivity; [exact E1|].
  destruct rq; op_inv E; (etransitivity; [|by eapply calm_record]); [by apply calm_same|done].
Qed.

Lemma calm_complete t input now result db db' :
  completeExecutionAttempt input now db = inr (result, db') -> calm t db db'.
Proof.
  intros E. unfold completeExecutionAttempt in E. op_inv E.
  destruct (select_one _ (attempts db)) as [row|]; [|by op_inv E].
  destruct (select_one _ _) as [s|]; [|by op_inv E]. op_inv E.
  match goal with Hx : finishAttempt _ _ _ _ _ _ _ = inr _ |- _ =>
    etransitivity; [by eapply calm_finish|]; clear Hx end.
  match goal with Hx : (if fallbackWanted _ then _ else _) ?d = inr (?b, ?d') |- _ =>
    assert (Hc : calm t d d'); [destruct (fallbackWanted input); [by eapply calm_remaining|by op_inv Hx]|];
    etransitivity; [exact Hc|]; destruct b end; op_inv E; [done|by apply calm_same].
Qed.

Lemma calm_cancelQueued t r now b db db' :
  cancelQueuedExecutionSchedule r now db = inr (b, db') -> calm t db db'.
Proof.
  intros E. unfold cancelQueuedExecutionSchedule in E. op_step E.
  apply bind_run in E as (sn & d & [-> _]%readRequired_run & E).
  destruct (s_state (es_row sn)); op_inv E; eauto using calm_cancel. done.
Qed.

Lemma calm_answer t input now now' result db db' :
  answerCapacityQuestion input now now' db = inr (result, db') -> calm t db db'.
Proof.
  intros E. unfold answerCapacityQuestion in E. op_step E. op_step E.
  apply bind_run in E as (o & d & [-> _]%readQuestion_run & E). cbv zeta in E.
  op_step E. cbv zeta in E. op_step E.
  apply bind_run in E as (label & d & Ed%checkAnswers_run & E). subst d.
  apply bind_run in E as (answer & d & Ed%capacityChoice_run & E). subst d.
  apply bind_run in E as (sn & d & [-> _]%readRequired_run & E).
  apply bind_run in E as (accepted & d & Ea%(calm_apply t) & E). op_step E.
  op_step E. apply freshId_run in E0 as [-> ->]. op_step E. apply freshId_run in E0 as [-> ->].
  op_inv E. apply readRequired_run in E0 as [-> _]. etransitivity; [exact Ea|]. by apply calm_same.
Qed.

(** ** New schedules bring their limits *)

Definition input_limited (account : string) (limit : Z) (input : CreateExecutionScheduleInput) : Prop :=
  Forall (fun c => ci_accountId c = Some account -> ci_maxConcurrentRuns c = limit)
    (in_candidates input).

(** While a schedule is created. *)
Definition bounded (account : string) (limit : Z) (db0 db : Db) : Prop :=
  limited account limit db /\ leases db = leases db0.

Lemma calm_bounded account limit t db0 db db' :
  calm t db db' -> leases db' = leases db -> bounded account limit db0 db -> bounded account limit db0 db'.
Proof. intros Hc Hl [Hb Hl0]. split; [by eapply limited_calm|congruence]. Qed.

Lemma create_candidate_bounded account limit input now i c u db0 db db' :
  (ci_accountId c = Some account -> ci_maxConcurrentRuns c = limit) ->
  bounded account limit db0 db -> createCandidate input now (i, c) db = inr (u, db') ->
  bounded account limit db0 db'.
Proof.
  intros Hin [[Hac Hc] Hl] E. unfold createCandidate in E. op_inv E.
  match goal with Hx : insertCandidate _ _ = inr _ |- _ => unfold insertCandidate in Hx; op_inv Hx end.
  match goal with Hx : context [upsertCapacity] |- _ => rename Hx into HB end.
  match type of HB with _ ?d = _ => assert (H1 : bounded account limit db0 d) end.
  { split; [|done]. split; [done|]. intros c' [Hc'| ->]%elem_of_snoc; [by apply Hc|done]. }
  match type of HB with _ = inr (_, ?d) => assert (H2 : bounded account limit db0 d) end.
  { unfold upsertCapacity in HB. destruct H1 as [[Hac1 Hc1] Hl1].
    destruct (ci_accountId c) as [acct|]; op_inv HB; [|by split].
    split; [|done]. split; [|done]. simpl. intros ac Hac' Ha.
    match type of Hac' with _ ∈ (if ?b then _ else _) => destruct b end.
    - apply update_elem_1 in Hac' as [[Hac' _]|(ac0 & _ & _ & ->)]; [by apply Hac|]. simpl in *.
      apply Hin. congruence.
    - apply elem_of_snoc in Hac' as [Hac'| ->]; [by apply Hac|]. simpl in *. apply Hin. congruence. }
  clear H1 HB. destruct (bool_decide _); op_inv E; [done|].
  pose proof E as E'. apply recordDecision_run in E' as (d & -> & _). by destruct H2 as [[? ?] ?].
Qed.

Lemma create_entry_bounded account limit input now x u db0 db db' :
  bounded account limit db0 db -> createQueueEntry input now x db = inr (u, db') ->
  bounded account limit db0 db'.
Proof.
  intros Hb E. destruct x as [i c]. unfold createQueueEntry in E.
  apply bind_run in E as (b & d1 & E1 & E).
  assert (Hb1 : bounded account limit db0 d1).
  { eapply calm_bounded; [by eapply (calm_enqueue 0)| |exact Hb].
    by apply enqueueCandidate_run in E1 as [[_ ->]|(_ & c' & acc & _ & _ & _ & _ & _ & ->)]. }
  destruct b; op_inv E; [|done]. eapply calm_bounded; [by eapply (calm_record 0)| |exact Hb1].
  by apply recordDecision_run in E as (d & -> & _).
Qed.

Lemma entries_elem {A} (l : list A) n x : x ∈ js_entries n l -> x.2 ∈ l.
Proof.
  revert n. induction l as [|y l IH]; intros n; simpl; [by intros ?%elem_of_nil|].
  intros [->|Hx]%elem_of_cons; [by left|right; by eapply IH].
Qed.

Lemma create_bounded account limit input now sn db db' :
  input_limited account limit input -> limited account limit db ->
  createExecutionSchedule input now db = inr (sn, db') ->
  limited account limit db' /\ leases db' = leases db.
Proof.
  intros Hin Hlim E. unfold createExecutionSchedule in E.
  apply bind_run in E as (u & d0 & [-> _]%checkCreateInput_run & E). op_step E.
  apply bind_run in E as (u1 & d1 & E1 & E). cbv zeta in E.
  apply bind_run in E as (u2 & d2 & E2 & E). apply bind_run in E as (u3 & d3 & E3 & E).
  apply readRequired_run in E as [-> _].
  assert (Hb1 : bounded account limit db d1).
  { unfold createScheduleRow, insertSchedule in E1. op_inv E1. by destruct Hlim. }
  apply (forM_run _ (bounded account limit db)) in E2; [|done|].
  2:{ intros [i c] e1 v e2 Hx He Hb. eapply create_candidate_bounded; [|exact Hb|exact He].
      unfold input_limited in Hin. rewrite Forall_forall in Hin. apply Hin. by apply entries_elem in Hx. }
  apply (forM_run _ (bounded account limit db)) in E3;
    [done|done|intros x e1 v e2 _ He Hb; by eapply create_entry_bounded].
Qed.
End Slots.
