(* ===== verification/SchedulingTotal.v ===== *)
(** * Account scheduling: operations that cannot fail

    On a database that satisfies the invariant the statements of the scheduler
    meet no constraint, and what the expiry of leases does is exact. *)

From S2P Require Import Prelude SqlList Json StateJson Scheduling SchedulingInv.
From S2P Require Import SchedulingSteps SchedulingOps.
From S2P Require Import SchedulingCapacity.

Local Open Scope Z_scope.

Section Total.
Context `{IdGenerator} `{DateParser}.

Lemma guard_true e (db : Db) : guard true e db = inr (tt, db).
Proof. done. Qed.

Lemma freshId_eq p db : freshId p db = inr (id_text p (next_id db), with_next_id (S (next_id db)) db).
Proof. done. Qed.

Definition index_ok (i : option Z) : Prop := match i with Some j => 0 <= j | None => True end.

Lemma record_total m db r st i p a k rc now :
  InvBut m db -> is_Some (sched db r) -> index_ok i ->
  exists d, recordDecision r st i p a k rc now db = inr (tt, noted db d) /\ well_noted db d.
Proof.
  intros Hi Hs Hidx.
  assert (exists db', recordDecision r st i p a k rc now db = inr (tt, db')) as [db' E].
  { unfold recordDecision. rewrite (bind_eq _ _ _ _ _ (freshId_eq "decision" db)).
    unfold bind, get. cbv beta iota.
    assert (exists_where (fun d => str_eqb (d_decision_id d) (id_text "decision" (next_id db)))
              (decisions db) = false) as Hfresh.
    { apply exists_where_false. intros d Hd. apply str_eqb_false. destruct (inv_decisions _ _ Hi) as [_ Hf].
      rewrite Forall_forall in Hf. destruct (Hf d Hd) as [_ Hiss]. by apply fresh_not_issued. }
    assert (exists_where (run_is r) (schedules db) = true) as Hrun.
    { rewrite exists_select_one. destruct Hs as [s Hs]. unfold sched in Hs. by rewrite Hs. }
    simpl. rewrite Hfresh, Hrun. simpl.
    destruct i as [j|]; simpl in *; [rewrite (proj2 (Z.leb_le 0 j) Hidx)|]; by eexists. }
  pose proof E as E'. apply recordDecision_run in E' as (d & -> & Hd & _). by exists d.
Qed.

(** ** Expiry *)

Definition due (now : Z) (l : Lease) : bool := lease_active l && (l_expires_at l <=? now).

Definition same_lease (x l : Lease) : bool := str_eqb (l_lease_id l) (l_lease_id x) && lease_active l.

Definition expire_all (now : Z) (xs ls : list Lease) : list Lease :=
  fold_left (fun ls x => update_where (same_lease x) (expireLease now) ls) xs ls.

Lemma expire_all_eq now xs ls :
  expire_all now xs ls =
  update_where (fun l => existsb (fun x => same_lease x l) xs) (expireLease now) ls.
Proof.
  unfold expire_all. revert ls. induction xs as [|x xs IH]; intros ls; simpl.
  - by rewrite update_where_none.
  - rewrite IH. unfold update_where. rewrite map_map. apply map_ext. intros l.
    destruct (same_lease x l) eqn:E; simpl; [|done].
    assert (Hno : existsb (fun y => same_lease y (expireLease now l)) xs = false).
    { apply not_true_iff_false. rewrite existsb_exists. intros (y & _ & Hy).
      unfold same_lease in Hy. by rewrite andb_false_r in Hy. }
    by rewrite Hno.
Qed.

Lemma leaseJoin_Some db l x c s :
  leaseJoin db l = Some (x, c, s) ->
  x = l /\ cand db (l_run_id l) (l_candidate_index l) = Some c /\ sched db (l_run_id l) = Some s.
Proof.
  unfold leaseJoin. fold (cand db (l_run_id l) (l_candidate_index l)) (sched db (l_run_id l)).
  destruct (cand _ _ _); [|done]. destruct (sched _ _); [|done]. by intros [= <- <- <-].
Qed.

(** Every lease joins: its attempt's candidate and schedule exist. *)
Lemma leaseJoin_total m db l :
  InvBut m db -> l ∈ leases db -> exists c s, leaseJoin db l = Some (l, c, s).
Proof.
  intros Hi Hl. destruct (inv_leases _ _ Hi l Hl) as (_ & _ & a & Ha & Hr & Hc & _).
  pose proof (inv_attempts _ _ Hi) as Hat. rewrite Forall_forall in Hat.
  destruct (Hat a (att_elem _ _ _ Ha)) as [Hk _]. apply list_elem_of_fmap in Hk as (c & Ek & Hin).
  unfold akey, ckey in Ek. injection Ek as Er Ei. rewrite Hr in Er. rewrite Hc in Ei.
  pose proof (inv_cands _ _ Hi) as Hcs. rewrite Forall_forall in Hcs. destruct (Hcs c Hin) as [Hrun _].
  rewrite <-Er in Hrun. apply sched_runs in Hrun as [s Hs].
  destruct (select_one_elem (candidate_is (l_run_id l) (l_candidate_index l)) (candidates db) c Hin)
    as (c' & Ec' & _); [by apply candidate_is_true|].
  exists c', s. unfold leaseJoin. rewrite Ec'. unfold sched in Hs. by rewrite Hs.
Qed.

Definition expired_rows (now : Z) (db : Db) : list (Lease * Candidate * Schedule) :=
  omap (leaseJoin db) (select_where (due now) (leases db)).

Lemma expired_rows_leases m now db :
  InvBut m db -> map (fun x => x.1.1) (expired_rows now db) = select_where (due now) (leases db).
Proof.
  intros Hi. unfold expired_rows.
  assert (Hsub : forall l, l ∈ select_where (due now) (leases db) -> l ∈ leases db)
    by (intros l [? _]%elem_of_select; done).
  induction (select_where (due now) (leases db)) as [|l ls IH]; simpl; [done|].
  destruct (leaseJoin_total m db l Hi) as (c & s & E); [apply Hsub; by left|]. rewrite E. simpl.
  f_equal. apply IH. intros l' Hl'. apply Hsub. by right.
Qed.

Lemma expire_exact m now u db db' :
  InvBut m db -> expireOrphanLeases now db = inr (u, db') ->
  leases db' = update_where (due now) (expireLease now) (leases db).
Proof.
  intros Hi E. unfold expireOrphanLeases in E. op_inv E. fold (due now) in E.
  change (omap (leaseJoin db) (select_where _ (leases db))) with (expired_rows now db) in E.
  apply (forM_run_prefix _ (fun front d =>
    leases d = expire_all now (map (fun x => x.1.1) front) (leases db))) in E; [|done|].
  2:{ intros front [[l c] s] rest d1 v d2 _ Hx Hd. unfold expireOne in Hx. op_inv Hx.
      apply recordDecision_run in Hx as (d & -> & _). simpl. rewrite Hd.
      unfold expire_all. by rewrite map_app, fold_left_app. }
  rewrite E, (expired_rows_leases m), expire_all_eq by done.
  apply update_where_ext. intros l Hl. apply eq_true_iff_eq. rewrite existsb_exists. split.
  - intros (x & Hx & [Eid Hact]%andb_true_iff). apply list_elem_of_In, elem_of_select in Hx as [Hx Hdue].
    apply str_eqb_true in Eid.
    by rewrite (NoDup_map_inj l_lease_id (leases db) l x (inv_lease_ids _ _ Hi) Hl Hx Eid).
  - intros Hdue. exists l. split; [by apply list_elem_of_In, elem_of_select|].
    unfold same_lease. rewrite str_eqb_refl. by apply andb_true_iff in Hdue as [-> _].
Qed.

Lemma expire_slots m now u db db' account :
  InvBut m db -> expireOrphanLeases now db = inr (u, db') -> slots account now db' = slots account now db.
Proof.
  intros Hi E. unfold slots. rewrite (expire_exact m now u db db' Hi E).
  induction (leases db) as [|l ls IH]; [done|].
  change (l :: ls) with ([l] ++ ls). unfold update_where. rewrite map_app, !count_where_app.
  unfold update_where in IH. rewrite IH. f_equal. unfold count_where, select_where. simpl.
  destruct (due now l) eqn:Ed; [|done]. unfold holds_slot at 1.
  assert (Hx : lease_active (expireLease now l) = false) by done.
  rewrite Hx, andb_false_r. simpl. unfold holds_slot.
  apply andb_true_iff in Ed as [-> Ed%Z.leb_le].
  by rewrite (proj2 (Z.ltb_ge now (l_expires_at l)) Ed), andb_false_r.
Qed.

Lemma expire_total now db :
  Inv db -> exists db', expireOrphanLeases now db = inr (tt, db') /\ Good settled db db' /\ lease_only db db'.
Proof.
  intros Hi.
  assert (Hwp : wp (expireOrphanLeases now) (fun _ d => Good settled db d /\ lease_only db d) db).
  { unfold expireOrphanLeases. apply wp_bind, wp_get. apply wp_forM.
    - split; [by apply good_start|done].
    - intros [[l c] s] d Hx [HG Ho]. apply list_elem_of_omap in Hx as (l0 & Hl & Hj).
      apply leaseJoin_Some in Hj as (-> & Hc & Hs).
      assert (Hidx : 0 <= l_candidate_index l0).
      { pose proof (inv_cands _ _ Hi) as Hcs. rewrite Forall_forall in Hcs.
        destruct (Hcs c (cand_elem _ _ _ _ Hc)) as (_ & Hz & _). by apply cand_key in Hc as [_ <-]. }
      assert (HG1 : Good settled db (with_leases (update_where (fun l' =>
        str_eqb (l_lease_id l') (l_lease_id l0) && lease_active l') (expireLease now)) d))
        by (apply good_leases; [done|done|simpl; lia|done]).
      destruct Ho as (ls & ds & n & ->). unfold expireOne. apply wp_bind, wp_modify.
      edestruct (record_total settled) as (dd & E & Hd); [apply HG1|..]; cycle 2.
      + eapply wp_intro; [exact E|]. split; [by apply good_well_noted|by eexists _, _, _].
      + by exists s.
      + exact Hidx. }
  apply wp_elim in Hwp as ([] & db' & E & HG & Ho). by exists db'.
Qed.

(** ** The question *)

Lemma traverse_succeeds {A B} (f : A -> option B) l :
  (forall x, x ∈ l -> is_Some (f x)) -> is_Some (traverse f l).
Proof.
  induction l as [|x l IH]; intros Hf; simpl; [by eexists|].
  destruct (Hf x) as [y ->]; [by left|]. destruct IH as [ys ->]; [|by eexists].
  intros z Hz. apply Hf. by right.
Qed.

(** A value of at most [n] levels whose numbers are finite. *)
Fixpoint fits (n : nat) (v : JsonValue) : bool :=
  match n with
  | O => false
  | S n' =>
      match v with
      | JScalar (SNumber x) => num_isFinite x
      | JScalar _ => true
      | JArray items => forallb (fits n') items
      | JObject fields => forallb (fun f => fits n' (snd f)) fields
      end
  end.

Lemma fits_canonicalizes n depth v :
  fits n v = true -> (depth + n <= MAX_DEPTH)%nat -> is_Some (canonicalize depth v).
Proof.
  revert depth v. induction n as [|n IH]; intros depth v; [done|]. intros Hf Hd.
  assert (Hlt : (MAX_DEPTH <=? depth)%nat = false) by (apply Nat.leb_gt; lia).
  destruct v as [sc|items|fields]; cbn [fits canonicalize] in *; rewrite Hlt.
  - destruct sc as [|x| |]; try by eexists. destruct x; try discriminate; by eexists.
  - rewrite fmap_is_Some. apply traverse_succeeds. intros x Hx. apply IH; [|lia].
    rewrite forallb_forall in Hf. apply Hf. by apply list_elem_of_In.
  - rewrite fmap_is_Some. apply traverse_succeeds. intros x Hx. rewrite fmap_is_Some.
    apply IH; [|lia]. rewrite forallb_forall in Hf. apply (Hf x). by apply list_elem_of_In.
Qed.

Lemma interaction_text interactionId questionId row fallbacks now :
  is_Some (stringifyCanonical (capacityInteraction interactionId questionId row fallbacks now)).
Proof.
  unfold stringifyCanonical. rewrite fmap_is_Some.
  apply (fits_canonicalizes 8); [|unfold MAX_DEPTH; lia].
  assert (Hopts : forallb (fits 4) (map (fun c =>
            question_option ("Use fallback " +:+ num_text (c_candidate_index c))
              ("Run with profile " +:+ c_profile_id c +:+ ".")) fallbacks ++
            [question_option "Cancel run" "Cancel without starting a provider attempt."]) = true).
  { apply forallb_forall. intros x [Hx|[<-|[]]]%in_app_or; [|done].
    apply in_map_iff in Hx as (c & <- & _). done. }
  unfold capacityInteraction, js_int, js_text. cbn [fits forallb snd app andb].
  rewrite !andb_true_iff. by split_and!.
Qed.

Lemma createQuestion_total row now db :
  is_Some (sched db (runId row)) -> exists db', createCapacityQuestion row now db = inr (tt, db').
Proof.
  intros [s Hs]. unfold createCapacityQuestion. unfold bind at 1, get at 1. cbv beta iota zeta.
  rewrite (bind_eq _ _ _ _ _ (freshId_eq "interaction" db)).
  rewrite (bind_eq _ _ _ _ _ (freshId_eq "question" _)). unfold bind, stringifyOp, orThrow.
  match goal with |- context [stringifyCanonical ?v] =>
    destruct (stringifyCanonical v) as [text|] eqn:E end.
  - simpl. assert (exists_where (run_is (runId row)) (schedules db) = true) as ->.
    { rewrite exists_select_one. unfold sched in Hs. by rewrite Hs. }
    simpl. by eexists.
  - destruct (interaction_text (id_text "interaction" (next_id db)) (id_text "question" (S (next_id db)))
      row (sort_by by_index (select_where (fun c => candidate_of (runId row) c &&
        (0 <? c_candidate_index c) && negb (bool_decide (c_state c = CRejected))) (candidates db))) now)
      as [t Ht]. unfold capacityInteraction in *. simpl in *. congruence.
Qed.

(** ** Claims *)

Lemma reject_total now h db0 db :
  Good settled db0 db -> idle db (runId h) -> 0 <= candidateIndex h ->
  exists db', rejectHead now h db = inr (tt, db').
Proof.
  intros HG Hidle Hidx. unfold rejectHead.
  pose proof Hidle as (s & Hs & Hst).
  destruct (record_total settled db (runId h) (stageId h) (Some (candidateIndex h)) (Some (profileId h))
    (Some (accountId h)) CapacityRejected "account_at_capacity" now) as (d & E & Hd);
    [apply HG|by exists s|done|].
  rewrite (bind_eq _ _ _ _ _ E).
  pose proof (good_well_noted _ _ _ _ HG Hd) as HG1.
  destruct (bool_decide (capacityPolicy h = Ask)); [|by eexists].
  unfold bind at 1, modify at 1. unfold bind at 1, modify at 1. cbv beta iota.
  change (update_where (fun s => run_is (runId h) s && bool_decide (s_state s = SQueued))
            (schedule_state SWaitingOnUser now)) with (parkSchedule (runId h) now).
  match goal with |- exists _, bind _ _ ?x = _ => set (parked := x) end.
  assert (Hp : is_Some (sched parked (runId h))).
  { unfold parked. change (is_Some (sched (with_schedules (parkSchedule (runId h) now) db) (runId h))).
    unfold parkSchedule. rewrite sched_update, Hs by done. by eexists. }
  destruct (createQuestion_total h now parked Hp) as [db1 E1].
  rewrite (bind_eq _ _ _ _ _ E1).
  destruct (ask_good h now tt db0 (noted db d) db1) as [HG2 Hf]; [done|done|exact E1|].
  destruct (record_total settled db1 (runId h) (stageId h) (Some (candidateIndex h)) (Some (profileId h))
    (Some (accountId h)) CapacityQuestionCreated "primary_at_capacity" now) as (d2 & E2 & _);
    [apply HG2| |done|by eexists].
  destruct (if_idle _ _ Hf (runId h) Hidle) as (s2 & Hs2 & _). by exists s2.
Qed.

Lemma available_total now heads db0 db :
  Good settled db0 db -> (forall h, h ∈ heads -> idle db (runId h) /\ 0 <= candidateIndex h) ->
  exists available db', availableHeads now heads db = inr (available, db').
Proof.
  revert db. induction heads as [|h heads IH]; intros db HG Hh; simpl; [by eexists _, _|].
  destruct (Hh h) as [Hidle Hidx]; [by left|]. unfold bind at 1, get. cbv beta iota zeta.
  destruct (_ <? _).
  - destruct (IH db HG) as (av & d & E); [intros h' Hh'; apply Hh; by right|].
    rewrite (bind_eq _ _ _ _ _ E). by eexists _, _.
  - destruct (reject_total now h db0 db HG Hidle Hidx) as [d1 E1].
    rewrite (bind_eq _ _ _ _ _ E1).
    destruct (rejectHead_good now h tt db0 db d1 HG Hidle E1) as [HG1 Hf].
    apply (IH d1 HG1). intros h' Hh'. destruct (Hh h') as [Hi' Hx']; [by right|].
    split; [by apply Hf|done].
Qed.

Lemma queueRows_total account db :
  Inv db -> exists rows, mapM (queueRow db) (omap (claimRow db account) (queue db)) db = inr (rows, db).
Proof.
  intros Hi. apply mapM_read_total. intros [[c s] q] Hx.
  apply list_elem_of_omap in Hx as (q0 & _ & Hr). apply claimRow_Some in Hr as (-> & _ & Hs & _).
  pose proof (inv_schedules _ _ Hi) as Hok. rewrite Forall_forall in Hok.
  destruct (Hok s (sched_elem _ _ _ Hs)) as (_ & _ & [sha Hsha]). unfold queueRow, bind, orThrow.
  rewrite Hsha. by eexists.
Qed.

Lemma insertAttempt_total a db :
  (forall a', a' ∈ attempts db -> a_attempt_id a' <> a_attempt_id a) ->
  (forall a', a' ∈ attempts db -> akey a' <> akey a) -> is_Some (sched db (a_run_id a)) ->
  akey a ∈ map ckey (candidates db) ->
  insertAttempt a db = inr (tt, with_attempts (fun rows => rows ++ [a]) db).
Proof.
  intros Hid Hk [s Hs] Hc. unfold insertAttempt, bind, get. cbv beta iota.
  assert (exists_where (attempt_is (a_attempt_id a)) (attempts db) = false) as ->.
  { apply exists_where_false. intros a' Ha'. apply str_eqb_false. auto. }
  assert (exists_where (fun a' => str_eqb (a_run_id a') (a_run_id a) &&
            (a_candidate_index a' =? a_candidate_index a)) (attempts db) = false) as ->.
  { apply exists_where_false. intros a' Ha'. apply not_true_iff_false.
    rewrite andb_true_iff, str_eqb_true, Z.eqb_eq. intros [Er Ei]. apply (Hk a' Ha').
    unfold akey. congruence. }
  assert (exists_where (run_is (a_run_id a)) (schedules db) = true) as ->.
  { rewrite exists_select_one. unfold sched in Hs. by rewrite Hs. }
  assert (exists_where (candidate_is (a_run_id a) (a_candidate_index a)) (candidates db) = true) as ->.
  { apply exists_where_true. apply list_elem_of_fmap in Hc as (c & Ec & Hc). exists c.
    split; [done|]. apply candidate_is_true. unfold akey, ckey in Ec. by injection Ec. }
  done.
Qed.

Lemma exists_where_snoc_true {R} (p : R -> bool) rows r : p r = true -> exists_where p (rows ++ [r]) = true.
Proof. intros Hp. rewrite exists_where_snoc, Hp. by rewrite orb_true_r. Qed.

Lemma fresh_attempt m db a : InvBut m db -> a ∈ attempts db -> a_attempt_id a <> id_text "attempt" (next_id db).
Proof.
  intros Hi Ha. pose proof (inv_attempts _ _ Hi) as Hat. rewrite Forall_forall in Hat.
  destruct (Hat a Ha) as [_ Hiss]. by apply fresh_not_issued.
Qed.

Lemma fresh_lease m db l : InvBut m db -> l ∈ leases db -> l_lease_id l <> id_text "lease" (S (next_id db)).
Proof.
  intros Hi Hl. destruct (inv_leases _ _ Hi l Hl) as ((n & Hn & ->) & _). intros E.
  apply id_text_inj in E as [_ ->]. lia.
Qed.

(** The lease of a claim meets no constraint: its id and its attempt are new. *)
Lemma insertLease_total m owner now expires x db d :
  InvBut m db -> leases d = leases db -> attempts d = attempts db ++ [claimAttempt db now x] ->
  exists_where (candidate_is (runId x) (candidateIndex x)) (candidates d) = true ->
  insertLease (claimLease db owner now expires x) d =
    inr (tt, with_leases (fun rows => rows ++ [claimLease db owner now expires x]) d).
Proof.
  intros Hi Hl Ha Hc. unfold insertLease, bind, get. cbv beta iota. rewrite Hl, Ha.
  assert (exists_where (fun l => str_eqb (l_lease_id l) (l_lease_id (claimLease db owner now expires x)))
            (leases db) = false) as ->.
  { apply exists_where_false. intros l Hin. apply str_eqb_false. by eapply fresh_lease. }
  assert (exists_where (fun l => lease_of (l_attempt_id (claimLease db owner now expires x)) l &&
            lease_active l) (leases db) = false) as ->.
  { apply exists_where_false. intros l Hin. apply andb_false_iff. left. apply str_eqb_false. simpl.
    destruct (inv_leases _ _ Hi l Hin) as (_ & _ & a & Hat & _).
    rewrite <-(att_id _ _ _ Hat). apply (fresh_attempt m); [done|]. by eapply att_elem. }
  rewrite andb_false_r. rewrite exists_where_snoc_true by by apply attempt_is_true.
  simpl l_run_id. simpl l_candidate_index. by rewrite Hc.
Qed.

Lemma claimed_candidates r i rows k j :
  exists_where (candidate_is k j) rows = true ->
  exists_where (candidate_is k j) (update_where (candidate_of r) (claimCandidate i) rows) = true.
Proof.
  rewrite !exists_select_one, select_one_update; [by destruct (select_one _ rows)|].
  intros c _. pose proof (claimCandidate_columns i c) as E. unfold cand_key_columns in E.
  unfold candidate_is. by injection E as -> -> _.
Qed.

Lemma commit_total owner ttl now x db0 db :
  Good settled db0 db -> idle db (runId x) -> 0 <= candidateIndex x ->
  (forall a, a ∈ attempts db -> akey a <> (runId x, candidateIndex x)) ->
  (runId x, candidateIndex x) ∈ map ckey (candidates db) ->
  Z.abs (now + ttl) <= 8640000000000000 ->
  exists r db', commitClaim owner ttl now x db = inr (r, db').
Proof.
  intros HG Hidle Hidx Hkey Hc Ht. pose proof Hidle as (s & Hs & Hst). pose proof (proj1 HG) as Hi.
  assert (Hex : exists_where (candidate_is (runId x) (candidateIndex x)) (candidates db) = true).
  { apply exists_where_true. apply list_elem_of_fmap in Hc as (c & Ec & Hc). exists c.
    split; [done|]. apply candidate_is_true. unfold ckey in Ec. by injection Ec. }
  unfold commitClaim. rewrite (bind_eq _ _ _ _ _ (freshId_eq "attempt" db)).
  rewrite (bind_eq _ _ _ _ _ (freshId_eq "lease" _)).
  unfold bind at 1, addMilliseconds at 1. rewrite (proj2 (Z.leb_le _ _) Ht).
  unfold ret at 1. cbv beta iota. unfold bind at 1, modify at 1. unfold bind at 1, modify at 1. cbv beta iota.
  match goal with |- exists _ _, bind _ _ ?x = _ => set (d1 := x) end.
  assert (E1 : insertAttempt (claimAttempt db now x) d1 =
               inr (tt, with_attempts (fun rows => rows ++ [claimAttempt db now x]) d1)).
  { apply insertAttempt_total; [|done|by exists s|].
    - intros a Ha. by apply (fresh_attempt settled).
    - simpl. by rewrite ckeys_update by (intros c; apply columns_ident, claimCandidate_columns). }
  rewrite (bind_eq _ _ _ _ _ E1).
  rewrite (bind_eq _ _ _ _ _ (insertLease_total settled owner now (now + ttl) x db
    (with_attempts (fun rows => rows ++ [claimAttempt db now x]) d1) Hi eq_refl eq_refl
    (claimed_candidates _ _ _ _ _ Hex))).
  unfold bind at 1, modify at 1. cbv beta iota.
  set (c := claimed db owner now (now + ttl) x).
  assert (HG2 : Good settled db0 c).
  { apply good_claimed; [done|done| |done| |done].
    - intros a Ha. by eapply fresh_attempt.
    - intros l Hl. by eapply fresh_lease. }
  match goal with |- exists _ _, bind _ _ ?d = _ => change d with c end.
  assert (Hs2 : is_Some (sched c (runId x))).
  { eexists. etransitivity; [by apply sched_move_eq|]. change (sched _ _) with (sched db (runId x)).
    by rewrite Hs. }
  edestruct (record_total settled c) as (n1 & F1 & Hn1); [apply HG2|exact Hs2| |rewrite (bind_eq _ _ _ _ _ F1)].
  { exact Hidx. }
  pose proof (good_well_noted _ _ _ _ HG2 Hn1) as HG3.
  edestruct (record_total settled (noted c n1)) as (n2 & F2 & Hn2); [apply HG3|exact Hs2| |rewrite (bind_eq _ _ _ _ _ F2)].
  { exact Hidx. }
  by eexists _, _.
Qed.
End Total.
