(* ===== verification/SchedulingClaims.v ===== *)
(** * Account scheduling: what a claim, a renewal and a restart return *)

From S2P Require Import Prelude SqlList Json StateJson Scheduling SchedulingInv SchedulingSteps SchedulingOps SchedulingCapacity SchedulingTotal.

Local Open Scope Z_scope.
Local Open Scope st_scope.

(** ** Account scheduling: histories of operations

    Whatever operations are attempted on an empty store, in whatever order and
    whether they succeed or throw: the invariant holds, history is not
    rewritten, accounts are not overcommitted, fences hold. *)

(** ** Histories *)

(** The exported operations that write. *)
Inductive Operation :=
  | OpCreate (input : CreateExecutionScheduleInput) (now : Z)
  | OpClaim (ownerId : string) (leaseTtlMs : option Z) (account : option string) (now : Z)
  | OpAssign (attemptId workspaceId : string) (now : Z)
  | OpLimits (attemptId : string) (limits : JsonValue) (now : Z)
  | OpStart (attemptId backendExecutionId : string) (now : Z)
  | OpBaseline (attemptId : string) (baseline : JsonValue) (now : Z)
  | OpRenew (attemptId ownerId : string) (fence : Z) (leaseTtlMs : option Z) (now : Z)
  | OpRestore (attemptId ownerId : string) (leaseTtlMs : option Z) (reason : option string) (now : Z)
  | OpComplete (input : CompleteInput) (now : Z)
  | OpCancel (run : string) (now : Z)
  | OpApply (run : string) (revision : Z) (answer : CapacityAnswer) (now : Z)
  | OpAnswer (input : AnswerInput) (now now' : Z).

Section Histories.
Context `{IdGenerator} `{DateParser}.

Definition discard {A} (m : Op A) : Op unit := let* _ := m in ret tt.

Definition run_op (op : Operation) : Op unit :=
  match op with
  | OpCreate input now => discard (createExecutionSchedule input now)
  | OpClaim owner ttl account now => discard (claimNextExecutionCandidate owner ttl account now)
  | OpAssign id w now => assignAttemptWorkspace id w now
  | OpLimits id v now => updateAttemptLimits id v now
  | OpStart id b now => startExecutionAttempt id b now
  | OpBaseline id v now => recordAttemptReadonlyBaseline id v now
  | OpRenew id owner fence ttl now => discard (renewAccountLease id owner fence ttl now)
  | OpRestore id owner ttl reason now => discard (restoreAccountLease id owner ttl reason now)
  | OpComplete input now => discard (completeExecutionAttempt input now)
  | OpCancel run now => discard (cancelQueuedExecutionSchedule run now)
  | OpApply run revision answer now => discard (applyCapacityAnswer run revision answer now)
  | OpAnswer input now now' => discard (answerCapacityQuestion input now now')
  end.

(** An operation that throws leaves the database as it was. *)
Definition perform (db : Db) (op : Operation) : Db :=
  match run_op op db with inl _ => db | inr (_, db') => db' end.

Definition history (ops : list Operation) (db : Db) : Db := fold_left perform ops db.

Lemma discard_run {A} (m : Op A) u db db' :
  discard m db = inr (u, db') -> exists a, m db = inr (a, db').
Proof. intros (a & d & E & [_ ->]%ret_run)%bind_run. by exists a. Qed.

Lemma run_op_good op u db db' : Inv db -> run_op op db = inr (u, db') -> Good settled db db'.
Proof.
  intros Hi E. destruct op; simpl in E;
    try (apply discard_run in E as [x E]);
    eauto using create_good, claim_good, assignWorkspace_good, updateLimits_good, start_good,
      baseline_good, renew_good, restore_good, complete_good, cancelQueued_good, applyAnswer_good,
      answer_good.
Qed.

Lemma perform_good op db : Inv db -> Good settled db (perform db op).
Proof.
  intros Hi. unfold perform. destruct (run_op op db) as [e|[u db']] eqn:E; [by apply good_start|].
  by eapply run_op_good.
Qed.

Lemma history_good ops db : Inv db -> Inv (history ops db) /\ evolves db (history ops db).
Proof.
  revert db. induction ops as [|op ops IH]; intros db Hi; simpl; [done|].
  destruct (perform_good op db Hi) as [Hi1 He1]. destruct (IH _ Hi1) as [Hi2 He2].
  split; [done|]. by etransitivity.
Qed.

(** C17: The invariant of the scheduling store: after any operations on an empty
    database, successful or not, keys and references are intact; a queued
    candidate waits for its own account and its run is queued; a live attempt is
    the current attempt of a running schedule and every running schedule has
    one, so no run ever has two; a lease agrees with its attempt, is active only
    while the attempt is live and released only when it is not, and every live
    attempt has one; a run that waits for the user has a question. *)
Theorem scheduling_invariant version workspaces ops :
  Inv (history ops (empty_db version workspaces)).
Proof. apply history_good, empty_inv. Qed.

(** Scheduling history is not rewritten. Over any further operations every
    schedule, candidate, attempt, lease and question keeps its identifying
    columns; a schedule that changes was not terminal and has a larger revision;
    an attempt that changes was live; a lease that changes has a larger fence; a
    question changes once, from pending to answered; and decisions are only
    appended. *)
Theorem scheduling_history_grows version workspaces ops ops' :
  let db := history ops (empty_db version workspaces) in evolves db (history ops' db).
Proof. intros db. apply history_good, history_good, empty_inv. Qed.

(** ** Capacity *)

Definition op_time (op : Operation) : Z :=
  match op with
  | OpCreate _ now | OpClaim _ _ _ now | OpAssign _ _ now | OpLimits _ _ now | OpStart _ _ now
  | OpBaseline _ _ now | OpRenew _ _ _ _ now | OpRestore _ _ _ _ now | OpComplete _ now
  | OpCancel _ now | OpApply _ _ _ now | OpAnswer _ now _ => now
  end.

(** The clock does not go back, and the last operation was at most at [t]. *)
Fixpoint clocked (from : Z) (ops : list Operation) (t : Z) : Prop :=
  match ops with
  | [] => from <= t
  | op :: rest => from <= op_time op /\ clocked (op_time op) rest t
  end.

(** New schedules give the account the limit it has, and no lease is restored
    after its slot was given away. *)
Definition keeps_limit (account : string) (limit : Z) (op : Operation) : Prop :=
  match op with
  | OpCreate input _ => input_limited account limit input
  | OpRestore _ _ _ _ _ => False
  | _ => True
  end.

Lemma run_op_slots account limit op u db db' :
  keeps_limit account limit op -> Inv db -> limited account limit db ->
  slots account (op_time op) db <= limit -> run_op op db = inr (u, db') ->
  limited account limit db' /\ slots account (op_time op) db' <= limit.
Proof.
  intros Hk Hi Hl Hs E.
  assert (Hcalm : calm (op_time op) db db' ->
            limited account limit db' /\ slots account (op_time op) db' <= limit).
  { intros Hc. split; [by eapply limited_calm|].
    pose proof (calm_slots _ _ _ Hc account). lia. }
  destruct op; simpl in *; try (apply discard_run in E as [x E]);
    eauto using calm_assign, calm_limits, calm_start, calm_baseline, calm_renew, calm_complete,
      calm_cancelQueued, calm_apply, calm_answer.
  - destruct (create_bounded _ _ _ _ _ _ _ Hk Hl E) as [Hl' Hle]. split; [done|].
    unfold slots in *. by rewrite Hle.
  - by eapply claim_slots.
  - done.
Qed.

Lemma history_slots account limit ops from t db :
  Forall (keeps_limit account limit) ops -> clocked from ops t -> Inv db ->
  limited account limit db -> slots account from db <= limit ->
  slots account t (history ops db) <= limit.
Proof.
  revert from db. induction ops as [|op ops IH]; intros from db Hk Hc Hi Hl Hs; simpl in *.
  - pose proof (slots_later account from t db Hc). lia.
  - inversion_clear Hk as [|? ? Hop Hops]. destruct Hc as [Hle Hc].
    pose proof (slots_later account from (op_time op) db Hle) as Hs'.
    apply (IH (op_time op)); [done|done|by apply perform_good|..].
    + unfold perform. destruct (run_op op db) as [e|[u db']] eqn:E; [done|].
      eapply run_op_slots; [done..| |exact E]. lia.
    + unfold perform. destruct (run_op op db) as [e|[u db']] eqn:E; [lia|].
      eapply run_op_slots; [done..| |exact E]. lia.
Qed.

(** C18: Accounts are never overcommitted. Take any operations with a clock that
    does not go back, in which every schedule gives the account the same limit
    and no lease is restored. Then at no time do more leases of the account hold
    a slot than the limit allows. *)
Theorem capacity_never_exceeded version workspaces account limit ops from t :
  0 <= limit -> Forall (keeps_limit account limit) ops -> clocked from ops t ->
  slots account t (history ops (empty_db version workspaces)) <= limit.
Proof.
  intros Hl Hk Hc. eapply history_slots; [exact Hk|exact Hc|apply empty_inv| |exact Hl].
  split; simpl; by intros ? ?%elem_of_nil.
Qed.
End Histories.

Local Open Scope Z_scope.
Local Open Scope st_scope.

Section Claims.
Context `{IdGenerator} `{DateParser}.

(** ** The candidates that wait *)

(** [x] is the row of a queue entry whose candidate and run are queued, for the
    account asked for. *)
Definition waits (db : Db) (account : option string) (x : QueueRow) : Prop :=
  exists c s q, q ∈ queue db /\ claimRow db account q = Some (c, s, q) /\
    exists d, queueRow db (c, s, q) d = inr (x, d).

(** The first of its account's queue. *)
Definition heads_queue (db : Db) (account : option string) (now : Z) (x : QueueRow) : Prop :=
  waits db account x /\
  forall y, waits db account y -> accountId y = accountId x -> ~ goes_first now y x.

(** The account has a free slot. *)
Definition has_room (db : Db) (now : Z) (x : QueueRow) : Prop :=
  slots (accountId x) now db < maxConcurrentRuns x.

(** A row that may be claimed, and one whose run has no earlier one. *)
Definition claimable (db : Db) (account : option string) (now : Z) (x : QueueRow) : Prop :=
  heads_queue db account now x /\ has_room db now x.

Definition first_choice (db : Db) (account : option string) (now : Z) (x : QueueRow) : Prop :=
  claimable db account now x /\
  forall y, claimable db account now y -> runId y = runId x -> candidateIndex x <= candidateIndex y.

Lemma claimRow_lease_only db db' account q : lease_only db db' -> claimRow db' account q = claimRow db account q.
Proof. by intros (ls & ds & n & ->). Qed.

Lemma queueRow_lease_only db db' raw d : lease_only db db' -> queueRow db' raw d = queueRow db raw d.
Proof. by intros (ls & ds & n & ->). Qed.

Lemma queueRow_any db raw x d d' : queueRow db raw d = inr (x, d) -> queueRow db raw d' = inr (x, d').
Proof.
  destruct raw as [[c s] q]. unfold queueRow, bind, orThrow. destruct (s_base_sha s); [|done].
  by intros [= <-].
Qed.

Lemma rows_wait db account rows d d' :
  mapM (queueRow db) (omap (claimRow db account) (queue db)) d = inr (rows, d') ->
  forall x, x ∈ rows <-> waits db account x.
Proof.
  intros E x. split.
  - intros Hx. destruct (claimRow_elem _ _ _ _ _ _ E Hx) as (c & s & q & d0 & Hq & Hr & Hrow).
    exists c, s, q. eauto.
  - intros (c & s & q & Hq & Hr & d0 & Hrow). apply claimRows_spec in E as [_ HF].
    assert (Hin : (c, s, q) ∈ omap (claimRow db account) (queue db)) by (apply list_elem_of_omap; eauto).
    apply list_elem_of_lookup in Hin as [i Hi].
    destruct (Forall2_lookup_l _ _ _ _ _ HF Hi) as (y & Hy & d1 & Hrow').
    apply (queueRow_any _ _ _ _ d1) in Hrow. assert (y = x) as -> by congruence.
    by eapply list_elem_of_lookup_2.
Qed.

(** Rows differ in their place in the queue. *)
Lemma waits_sequence db account x y :
  Inv db -> waits db account x -> waits db account y -> queueSequence x = queueSequence y -> x = y.
Proof.
  intros Hi (c & s & q & Hq & Hr & d & Hx) (c' & s' & q' & Hq' & Hr' & d' & Hy) E.
  pose proof (queueRow_run _ _ _ _ _ Hx) as (_ & Es & _).
  pose proof (queueRow_run _ _ _ _ _ Hy) as (_ & Es' & _).
  assert (q = q') as ->.
  { apply (NoDup_map_inj q_queue_sequence (queue db)); [apply Hi|done|done|congruence]. }
  rewrite Hr in Hr'. injection Hr' as <- <-. apply (queueRow_any _ _ _ _ d') in Hx. congruence.
Qed.

(** Rows differ in their run and candidate. *)
Lemma waits_key db account x y :
  Inv db -> waits db account x -> waits db account y ->
  runId x = runId y -> candidateIndex x = candidateIndex y -> x = y.
Proof.
  intros Hi (c & s & q & Hq & Hr & d & Hx) (c' & s' & q' & Hq' & Hr' & d' & Hy) Er Ei.
  pose proof (queueRow_run _ _ _ _ _ Hx) as (_ & _ & E1 & E2 & _).
  pose proof (queueRow_run _ _ _ _ _ Hy) as (_ & _ & E1' & E2' & _).
  assert (q = q') as ->.
  { apply (NoDup_map_inj qkey (queue db)); [apply Hi|done|done|]. unfold qkey. congruence. }
  rewrite Hr in Hr'. injection Hr' as <- <-. apply (queueRow_any _ _ _ _ d') in Hx. congruence.
Qed.

Lemma waits_lease_only db db' account x : lease_only db db' -> waits db' account x <-> waits db account x.
Proof.
  intros Ho. unfold waits. destruct Ho as (ls & ds & n & ->). done.
Qed.

Lemma waits_idle db account x :
  waits db account x -> Inv db -> idle db (runId x) /\ 0 <= candidateIndex x /\
    (runId x, candidateIndex x) ∈ map ckey (candidates db).
Proof.
  intros (c & s & q & Hq & Hr & d & Hx) Hi. apply claimRow_Some in Hr as (_ & Hc & Hs & _ & Hst & _).
  apply queueRow_run in Hx as (_ & _ & Er & Ei & _). rewrite Er, Ei.
  pose proof (cand_elem _ _ _ _ Hc) as Hin. apply cand_key in Hc as [Hcr Hci].
  pose proof (inv_cands _ _ Hi) as Hcs. rewrite Forall_forall in Hcs. destruct (Hcs c Hin) as (_ & Hpos & _).
  split; [exists s; by split; [|left]|]. split; [lia|]. rewrite <-Hcr, <-Hci.
  by apply (list_elem_of_fmap_2 ckey).
Qed.

(** The heads with room, after the leases due were expired. *)
Lemma heads_claimable account rows now db db1 u x :
  Inv db -> expireOrphanLeases now db = inr (u, db1) ->
  mapM (queueRow db1) (omap (claimRow db1 account) (queue db1)) db1 = inr (rows, db1) ->
  x ∈ accountHeads now rows /\ slots (accountId x) now db1 < maxConcurrentRuns x <->
  claimable db account now x.
Proof.
  intros Hi E1 E. destruct (expire_good settled now u db db db1 (good_start db Hi) E1) as [[Hi1 _] Ho].
  rewrite (expire_slots settled now u db db1 (accountId x) Hi E1).
  unfold claimable, has_room, heads_queue. setoid_rewrite <-(waits_lease_only db db1 account _ Ho).
  setoid_rewrite <-(rows_wait db1 account rows db1 db1 E). split; intros [Hx Hs]; (split; [|done]).
  - by apply accountHeads_first.
  - destruct Hx as [Hx Hfirst]. destruct (accountHeads_complete now rows x Hx) as (h & Hh & Ha).
    pose proof (accountHeads_first _ _ _ Hh) as [Hin Hf].
    assert (h = x) as <-; [|done].
    apply (waits_sequence db1 account); [done|by apply (rows_wait db1 account rows db1 db1 E)..|].
    specialize (Hfirst h Hin Ha). specialize (Hf x Hx (eq_sym Ha)). unfold goes_first in *. lia.
Qed.

(** What the rows hold after a claim of [x]. *)
Definition granted (db' : Db) (owner : string) (cl : SchedulingClaim) : Prop :=
  let x := cl_row cl in
  (exists l, lease_for db' (cl_attemptId cl) = Some l /\ l_owner_id l = owner /\
     l_account_id l = accountId x /\ l_state l = LActive /\
     l_fencing_revision l = cl_fencingRevision cl /\ l_expires_at l = cl_leaseExpiresAt cl) /\
  (exists a, att db' (cl_attemptId cl) = Some a /\ a_status a = AQueued /\
     akey a = (runId x, candidateIndex x)) /\
  (exists s, sched db' (runId x) = Some s /\ s_state s = SRunning /\
     s_current_attempt_id s = Some (cl_attemptId cl)) /\
  unqueued db' (runId x).

Lemma claimed_granted owner ttl now x db d1 d2 id expires profile limits permissions delta :
  Inv db -> idle db (runId x) -> id = id_text "attempt" (next_id db) -> expires = now + ttl ->
  granted (noted (noted (claimed db owner now (now + ttl) x) d1) d2) owner
    (mkClaim x id 1 expires profile limits permissions delta).
Proof.
  intros Hi (s & Hs & _) -> ->. set (id := id_text "attempt" (next_id db)).
  set (l := claimLease db owner now (now + ttl) x). set (a := claimAttempt db now x).
  unfold granted. simpl. split_and!.
  - exists l. split; [|done]. change (select_one (lease_of id) (leases db ++ [l]) = Some l).
    rewrite select_one_snoc. destruct (select_one (lease_of id) (leases db)) as [l'|] eqn:E.
    + exfalso. apply select_one_Some in E as [Hl E%lease_of_true].
      destruct (inv_leases _ _ Hi l' Hl) as (_ & _ & a' & Ha' & _). rewrite E in Ha'.
      apply (fresh_attempt settled db a'); [done|by eapply att_elem|by eapply att_id].
    + by rewrite (proj2 (lease_of_true id l)).
  - exists a. split; [|done]. change (select_one (attempt_is id) (attempts db ++ [a]) = Some a).
    rewrite select_one_snoc. destruct (select_one (attempt_is id) (attempts db)) as [a'|] eqn:E.
    + exfalso. apply select_one_Some in E as [Ha E%attempt_is_true].
      by apply (fresh_attempt settled db a').
    + by rewrite (proj2 (attempt_is_true id a)).
  - eexists. split; [etransitivity; [by apply sched_move_eq|]|].
    + change (sched _ _) with (sched db (runId x)). by rewrite Hs.
    + done.
  - apply (unqueued_delete db).
Qed.

(** A claim returns the best candidate; on any database with the invariant. *)
Lemma claim_best owner ttl account now result db db' :
  Inv db -> claimNextExecutionCandidate owner ttl account now db = inr (result, db') ->
  match result with
  | None => forall x, ~ claimable db account now x
  | Some cl =>
      first_choice db account now (cl_row cl) /\
      (forall y, first_choice db account now y -> ~ goes_first now y (cl_row cl)) /\
      (forall a, a ∈ attempts db -> akey a <> (runId (cl_row cl), candidateIndex (cl_row cl))) /\
      granted db' owner cl
  end.
Proof.
  intros Hi E. unfold claimNextExecutionCandidate in E. op_step E. op_step E.
  apply bind_run in E as (u & d1 & E1 & E). op_step E.
  destruct (expire_good settled now u db db d1 (good_start db Hi) E1) as [HG1 Ho].
  apply bind_run in E as (rows & d2 & Erows & E). pose proof Erows as [-> Hidle]%claimRows_idle.
  pose proof (fun x => heads_claimable account rows now db d1 u x Hi E1 Erows) as Hcl.
  apply bind_run in E as (available & d3 & E3 & E).
  pose proof E3 as [_ Hav]%availableHeads_free. setoid_rewrite Hcl in Hav.
  apply (availableHeads_good _ _ _ db) in E3 as (HG3 & Hf & _); [|done|].
  2:{ intros h Hh. apply Hidle. by apply accountHeads_first in Hh as [? _]. }
  destruct (selectRow now available) as [x|] eqn:Ex.
  2:{ op_inv E. intros x Hx%Hav. destruct (selectRow_Some now available x Hx) as [y Hy]. congruence. }
  apply bind_run in E as ([id exp] & d4 & E4 & E). op_inv E. simpl.
  apply commitClaim_run in E4 as (n1 & n2 & -> & _ & _ & Eid & Eexp & _ & Hkey & _).
  apply selectRow_best in Ex as (Hx & Hmin & Hbest). apply Hav in Hx as Hclx.
  assert (Hiw : waits db account x) by apply Hclx. split_and!.
  - split; [done|]. intros y Hy. by apply Hmin, Hav.
  - intros y [Hy Hyfirst]. apply Hbest; [by apply Hav|]. intros z Hz%Hav Hr.
    specialize (Hyfirst z Hz Hr). destruct (decide (candidateIndex y = candidateIndex z)) as [Ei|]; [|lia].
    right. apply (waits_key db account); [done|apply Hz|apply Hy|done|done].
  - intros at0 Ha. apply Hkey. rewrite (if_attempts _ _ Hf). by destruct Ho as (ls & ds & n & ->).
  - apply claimed_granted; [apply HG3| |done|done]. apply Hf, (idle_lease_only db d1); [done|].
    by apply (waits_idle db account).
Qed.

(** C19: A claim takes the best candidate there is. A candidate can be claimed when
    it is the first of its account's queue (highest priority after aging, then
    first come) and the account has a free slot. A claim that returns nothing
    found none. A claim that returns one took, of the candidates that can be
    claimed, the earliest of its run, and no other run's earliest goes before
    it; it was never attempted before; afterwards the store holds its queued
    attempt, its active lease with the fence and expiry returned, and a running
    schedule with nothing left in the queue. *)
Theorem claim_picks_best version workspaces ops owner ttl account now result db' :
  let db := history ops (empty_db version workspaces) in
  claimNextExecutionCandidate owner ttl account now db = inr (result, db') ->
  match result with
  | None => forall x, ~ claimable db account now x
  | Some cl =>
      first_choice db account now (cl_row cl) /\
      (forall y, first_choice db account now y -> ~ goes_first now y (cl_row cl)) /\
      (forall a, a ∈ attempts db -> akey a <> (runId (cl_row cl), candidateIndex (cl_row cl))) /\
      granted db' owner cl
  end.
Proof. intros db. apply claim_best, history_good, empty_inv. Qed.

(** A candidate that comes first and was attempted before blocks every claim. *)
Lemma attempted_head_blocks account now db x a owner ttl :
  Inv db -> first_choice db account now x ->
  (forall y, first_choice db account now y -> y = x \/ goes_first now x y) ->
  a ∈ attempts db -> akey a = (runId x, candidateIndex x) ->
  exists e, claimNextExecutionCandidate owner ttl account now db = inl e.
Proof.
  intros Hi Hx Hbest Ha Ek.
  destruct (claimNextExecutionCandidate owner ttl account now db) as [e|[r db']] eqn:E; [by exists e|].
  exfalso. pose proof (claim_best _ _ _ _ _ _ _ Hi E) as Hr. destruct r as [cl|].
  - destruct Hr as (Hf & Hno & Hun & _). destruct (Hbest _ Hf) as [Heq|Hgo]; [|by apply (Hno x)].
    rewrite Heq in Hun. by apply (Hun a).
  - apply (Hr x), Hx.
Qed.

(** ** Claims do not fail *)

Definition readable_text (text : string) : Prop := is_Some (parseJsonValue text).

Definition readable (c : Candidate) : Prop :=
  readable_text (c_profile_json c) /\ readable_text (c_limits_json c) /\
  readable_text (c_permissions_json c) /\
  match c_capability_delta_json c with Some t => readable_text t | None => True end.

(** No queued candidate was attempted before. *)
Definition unattempted (db : Db) : Prop :=
  forall q a, q ∈ queue db -> a ∈ attempts db -> akey a <> qkey q.

Lemma parseOp_total t w db : readable_text t -> exists v, parseOp t w db = inr (v, db).
Proof. intros [v Hv]. exists v. unfold parseOp. by rewrite Hv. Qed.

Lemma waits_texts db account x :
  waits db account x -> exists c, c ∈ candidates db /\ profileJson x = c_profile_json c /\
    limitsJson x = c_limits_json c /\ permissionsJson x = c_permissions_json c /\
    capabilityDeltaJson x = landing (user_version db) (c_capability_delta_json c).
Proof.
  intros (c & s & q & _ & Hr & d & Hx). apply claimRow_Some in Hr as (_ & Hc & _). exists c.
  split; [by eapply cand_elem|]. unfold queueRow, bind, orThrow in Hx.
  destruct (s_base_sha s); [|done]. by injection Hx as <-.
Qed.

(** The end of a claim reads the texts of the candidate back. *)
Lemma claim_tail_total x c version d (r : string * Z) :
  readable c -> profileJson x = c_profile_json c -> limitsJson x = c_limits_json c ->
  permissionsJson x = c_permissions_json c ->
  capabilityDeltaJson x = landing version (c_capability_delta_json c) ->
  exists cl, (let* profile := parseOp (profileJson x) "execution candidate profile" in
    let* limits := parseOp (limitsJson x) "execution candidate limits" in
    let* permissions := parseOp (permissionsJson x) "execution candidate permissions" in
    let* delta := parseOptional (capabilityDeltaJson x) "execution candidate capability delta" in
    ret (Some (mkClaim x (fst r) 1 (snd r) profile limits permissions delta)))%st d = inr (Some cl, d).
Proof.
  intros (H1 & H2 & H3 & H4) -> -> -> ->.
  destruct (parseOp_total _ "execution candidate profile" d H1) as [v1 E1]. rewrite (bind_eq _ _ _ _ _ E1).
  destruct (parseOp_total _ "execution candidate limits" d H2) as [v2 E2]. rewrite (bind_eq _ _ _ _ _ E2).
  destruct (parseOp_total _ "execution candidate permissions" d H3) as [v3 E3]. rewrite (bind_eq _ _ _ _ _ E3).
  unfold landing. destruct (_ <=? version); [|by eexists].
  destruct (c_capability_delta_json c) as [t|]; [|by eexists].
  destruct (parseOp_total t "execution candidate capability delta" d H4) as [v4 E4].
  unfold parseOptional, bind. rewrite E4. by eexists.
Qed.

(** C20: A claim never gets stuck. On a store reached by any operations, when no
    queued candidate was attempted before and the stored candidates can be read
    back, a claim with a positive duration and a representable expiry returns:
    no constraint of the schema refuses it, whatever the leases, the policies
    and the questions asked on the way. *)
Theorem claim_returns version workspaces ops owner ttl account now :
  let db := history ops (empty_db version workspaces) in
  let ms := default DEFAULT_LEASE_TTL_MS ttl in
  isSafeInteger ms = true -> 1 <= ms -> Z.abs (now + ms) <= 8640000000000000 ->
  unattempted db -> Forall readable (candidates db) ->
  exists result db', claimNextExecutionCandidate owner ttl account now db = inr (result, db').
Proof.
  intros db ms Hsafe Hpos Ht Hun Hread.
  assert (Hi : Inv db) by apply history_good, empty_inv. clearbody db.
  unfold claimNextExecutionCandidate. fold ms. cbv zeta.
  rewrite Hsafe, (proj2 (Z.leb_le 1 ms) Hpos). simpl andb.
  rewrite (bind_eq _ _ _ _ _ (guard_true _ db)). unfold transaction.
  destruct (expire_total now db Hi) as (d1 & E1 & HG1 & Ho). rewrite (bind_eq _ _ _ _ _ E1).
  unfold bind at 1, get. cbv beta iota.
  destruct (queueRows_total account d1 (proj1 HG1)) as [rows Erows]. rewrite (bind_eq _ _ _ _ _ Erows).
  pose proof (rows_wait d1 account rows d1 d1 Erows) as Hw.
  setoid_rewrite (waits_lease_only db d1 account _ Ho) in Hw.
  assert (Hheads : forall h, h ∈ accountHeads now rows -> idle d1 (runId h) /\ 0 <= candidateIndex h).
  { intros h Hh. apply accountHeads_first in Hh as [Hin _]. apply Hw in Hin.
    destruct (waits_idle db account h Hin Hi) as (Hid & Hc & _). split; [|done].
    by eapply idle_lease_only. }
  destruct (available_total now (accountHeads now rows) db d1 HG1 Hheads) as (available & d3 & E3).
  rewrite (bind_eq _ _ _ _ _ E3).
  apply (availableHeads_good _ _ _ db) in E3 as (HG3 & Hf & Hsub); [|done|intros h Hh; by apply Hheads].
  destruct (selectRow now available) as [x|] eqn:Ex; [|by eexists _, _].
  apply selectRow_elem, Hsub in Ex. pose proof (Hheads x Ex) as [Hidle Hidx].
  apply accountHeads_first in Ex as [Hin _]. apply Hw in Hin.
  destruct (waits_idle db account x Hin Hi) as (_ & _ & Hck).
  assert (Hlo : candidates d1 = candidates db /\ attempts d1 = attempts db)
    by (destruct Ho as (ls & ds & n & ->); done).
  destruct Hlo as [Hcs Hats].
  destruct (commit_total owner ms now x db d3) as (r & d4 & E4); [done|by apply Hf|done| | |done|].
  { rewrite (if_attempts _ _ Hf), Hats. intros a Ha. destruct Hin as (c & s & q & Hq & _ & d & Hrow).
    apply queueRow_run in Hrow as (_ & _ & -> & -> & _). by apply (Hun q a). }
  { by rewrite (if_candidates _ _ Hf), Hcs. }
  rewrite (bind_eq _ _ _ _ _ E4). destruct (waits_texts db account x Hin) as (c & Hc & T1 & T2 & T3 & T4).
  rewrite Forall_forall in Hread.
  destruct (claim_tail_total x c _ d4 r (Hread c Hc) T1 T2 T3 T4) as [cl Ecl]. by eexists _, _.
Qed.

(** ** Renewals *)

(** The holder of a lease: it names the owner and the fence the lease has, and
    the lease is active and has not expired. *)
Definition holds_lease (db : Db) (id owner : string) (fence now : Z) : Prop :=
  exists l, lease_for db id = Some l /\ l_owner_id l = owner /\ l_fencing_revision l = fence /\
    l_state l = LActive /\ now < l_expires_at l.

Lemma renewable_true id owner fence now l :
  renewable id owner fence now l = true <->
  l_attempt_id l = id /\ l_owner_id l = owner /\ l_fencing_revision l = fence /\
  l_state l = LActive /\ now < l_expires_at l.
Proof.
  unfold renewable. rewrite !andb_true_iff, lease_of_true, str_eqb_true, Z.eqb_eq, lease_active_true, Z.ltb_lt.
  tauto.
Qed.

(** Expiry leaves the lease of a holder alone and creates no holder. *)
Lemma expire_renewable m now u db db' id owner fence l :
  InvBut m db -> expireOrphanLeases now db = inr (u, db') -> renewable id owner fence now l = true ->
  l ∈ leases db' <-> l ∈ leases db.
Proof.
  intros Hi E Hr%renewable_true. rewrite (expire_exact m now u db db' Hi E). split.
  - intros [[Hl _]|(l0 & _ & _ & ->)]%update_elem_1; [done|]. exfalso. naive_solver.
  - intros Hl. apply update_elem_miss; [done|]. apply andb_false_iff. right. apply Z.leb_gt. tauto.
Qed.

Lemma renewable_count m db id owner fence now :
  InvBut m db ->
  count_where (renewable id owner fence now) (leases db) = 1 <->
  exists l, l ∈ leases db /\ renewable id owner fence now l = true.
Proof.
  intros Hi. split.
  - intros Hc. apply count_where_elem. lia.
  - intros (l & Hl & Hr). pose proof (count_where_pos _ _ _ Hl Hr).
    enough (count_where (renewable id owner fence now) (leases db) <= 1) by lia.
    apply (count_where_key l_attempt_id); [apply Hi|].
    intros l1 l2 [E1 _]%renewable_true [E2 _]%renewable_true. congruence.
Qed.

Lemma renew_holder now u db d1 id owner fence :
  Inv db -> expireOrphanLeases now db = inr (u, d1) -> InvBut settled d1 ->
  count_where (renewable id owner fence now) (leases d1) = 1 <-> holds_lease db id owner fence now.
Proof.
  intros Hi E Hi1. rewrite (renewable_count settled) by done. unfold holds_lease. split.
  - intros (l & Hl & Hr). apply (expire_renewable settled now u db d1 _ _ _ l Hi E Hr) in Hl.
    apply renewable_true in Hr as (Hid & Hrest). exists l. split; [|done].
    apply (select_one_key l_attempt_id); [apply Hi| |done|by apply lease_of_true].
    intros l' ->%lease_of_true. done.
  - intros (l & Hl & Hrest). exists l.
    assert (Hr : renewable id owner fence now l = true)
      by (apply renewable_true; split; [by eapply lease_for_id|done]).
    split; [|done]. apply (expire_renewable settled now u db d1 _ _ _ l Hi E Hr).
    by eapply lease_for_elem.
Qed.

(** A holder's renewal meets no error. *)
Lemma renew_total id owner fence ttl now db :
  let expires := now + default DEFAULT_LEASE_TTL_MS ttl in
  Inv db -> holds_lease db id owner fence now -> Z.abs expires <= 8640000000000000 ->
  exists db', renewAccountLease id owner fence ttl now db = inr ((fence + 1, expires), db').
Proof.
  intros expires Hi Hl Ht. destruct (expire_total now db Hi) as (d1 & E1 & [Hi1 He1] & _).
  apply (renew_holder now tt db d1 id owner fence Hi E1 Hi1) in Hl as Hc.
  unfold renewAccountLease, transaction. fold expires. cbv zeta.
  rewrite (bind_eq _ _ _ _ _ E1). unfold bind at 1, addMilliseconds at 1. fold expires.
  rewrite (proj2 (Z.leb_le _ _) Ht). unfold ret at 1. unfold bind at 1, get at 1. cbv beta iota.
  unfold bind at 1, modify at 1. cbv beta iota. rewrite Hc. rewrite Z.eqb_refl, (bind_eq _ _ _ _ _ (guard_true _ _)).
  destruct (renewable_count settled d1 id owner fence now Hi1) as [Hex _].
  destruct (Hex Hc) as (l & Hin & (Hid & _)%renewable_true).
  destruct (inv_leases _ _ Hi1 l Hin) as (_ & _ & a & Ha & Hr & Hci & Hac & _).
  rewrite Hid in Ha. unfold att in Ha. rewrite Ha, Hac. unfold bind at 1, orThrow at 1, ret at 1. cbv beta iota.
  destruct (leaseJoin_total settled d1 l Hi1 Hin) as (c & s & Hj).
  apply leaseJoin_Some in Hj as (_ & Hc' & Hs).
  pose proof (inv_cands _ _ Hi1) as Hcs. rewrite Forall_forall in Hcs.
  destruct (Hcs c (cand_elem _ _ _ _ Hc')) as (_ & Hpos & _). apply cand_key in Hc' as [_ Hci'].
  match goal with |- exists _, bind (recordDecision ?r ?st ?i ?p ?ac ?k ?rc ?n) _ ?d = _ =>
    destruct (record_total settled d r st i p ac k rc n) as (nd & F & _);
      [| | |rewrite (bind_eq _ _ _ _ _ F); by eexists] end.
  - apply (good_leases settled db); [by split|done|..].
    + intros l' _ (_ & _ & Hf & _)%renewable_true. simpl. lia.
    + intros l' a' Hin' _ Ha'. destruct (inv_leases _ _ Hi1 l' Hin') as (_ & _ & a2 & Ha2 & _ & _ & _ & Hact & Hrel).
      assert (a2 = a') as -> by congruence. done.
  - exists s. rewrite Hr. exact Hs.
  - simpl. lia.
Qed.

(** Fencing. On a store reached by any operations a renewal succeeds exactly
    when the caller holds the lease: the lease of the attempt has the owner and
    the fence the caller names, is active, and has not expired (and the new
    expiry is a representable time). It returns the next fence and the new
    expiry. Whoever names a fence that was left behind by a later change of the
    lease is refused, for ever. *)
Theorem renewal_exact version workspaces ops id owner fence ttl now :
  let db := history ops (empty_db version workspaces) in
  let expires := now + default DEFAULT_LEASE_TTL_MS ttl in
  (forall result, (exists db', renewAccountLease id owner fence ttl now db = inr (result, db')) <->
     holds_lease db id owner fence now /\ Z.abs expires <= 8640000000000000 /\
     result = (fence + 1, expires)) /\
  (forall l ops', lease_for db id = Some l -> fence = l_fencing_revision l ->
     lease_for (history ops' db) id <> Some l -> ~ holds_lease (history ops' db) id owner fence now).
Proof.
  intros db expires. assert (Hi : Inv db) by apply history_good, empty_inv. clearbody db. split.
  - intros result. split.
    + intros [db' E]. destruct (expire_total now db Hi) as (d1 & E1 & HG1 & _).
      unfold renewAccountLease in E. op_step E. rewrite (bind_eq _ _ _ _ _ E1) in E.
      unfold bind at 1, addMilliseconds at 1 in E. fold expires in E.
      destruct (Z.leb_spec (Z.abs expires) 8640000000000000) as [Ht|]; [|done].
      unfold ret at 1 in E. cbv beta iota in E. op_inv E.
      match goal with G : (_ =? 1) = true |- _ =>
        apply Z.eqb_eq, (renew_holder now tt db d1 id owner fence Hi E1 (proj1 HG1)) in G end.
      split; [done|]. split; [done|]. destruct (select_one _ _); [|by op_inv E]. by op_inv E.
    + intros (Hl & Ht & ->). by apply renew_total.
  - intros l ops' Hl -> Hne (l' & Hl' & _ & Hf & _). destruct (history_good ops' db Hi) as [_ He].
    destruct (ev_lease _ _ He id l Hl) as (l2 & Hl2 & [->|[_ Hlt]]); [done|].
    assert (l2 = l') as -> by congruence. lia.
Qed.

(** ** Restarts *)

Definition readable_optional (t : option string) : Prop :=
  match t with Some t => readable_text t | None => True end.

Definition readable_attempt (a : Attempt) : Prop :=
  readable_text (a_limits_json a) /\ readable_text (a_permissions_json a) /\
  readable_optional (a_readonly_baseline_json a) /\ readable_optional (a_result_json a) /\
  readable_optional (a_failure_json a).

Lemma parseOptional_total t w db : readable_optional t -> exists v, parseOptional t w db = inr (v, db).
Proof.
  destruct t as [t|]; [|by eexists]. intros Ht. destruct (parseOp_total t w db Ht) as [v E].
  exists (Some v). unfold parseOptional, bind. by rewrite E.
Qed.

Lemma readAttempt_total a db :
  readable_attempt a -> exists sn, readAttempt a db = inr (sn, db) /\ as_row sn = a.
Proof.
  intros (H1 & H2 & H3 & H4 & H5). unfold readAttempt.
  destruct (parseOp_total _ "limits" db H1) as [v1 E1]. rewrite (bind_eq _ _ _ _ _ E1).
  destruct (parseOp_total _ "permissions" db H2) as [v2 E2]. rewrite (bind_eq _ _ _ _ _ E2).
  destruct (parseOptional_total _ "read-only baseline" db H3) as [v3 E3]. rewrite (bind_eq _ _ _ _ _ E3).
  destruct (parseOptional_total _ "result" db H4) as [v4 E4]. rewrite (bind_eq _ _ _ _ _ E4).
  destruct (parseOptional_total _ "failure" db H5) as [v5 E5]. rewrite (bind_eq _ _ _ _ _ E5).
  by eexists.
Qed.

(** The attempts of a run are read, and the one asked for is found. *)
Lemma readAttempts_find db a :
  Inv db -> Forall readable_attempt (attempts db) -> a ∈ attempts db ->
  exists sns sn, readExecutionAttempts (a_run_id a) db = inr (sns, db) /\
    List.find (fun e => str_eqb (a_attempt_id (as_row e)) (a_attempt_id a)) sns = Some sn /\
    as_row sn = a.
Proof.
  intros Hi Hread Ha. unfold readExecutionAttempts, bind, get. cbv beta iota.
  set (rows := sort_by _ _).
  assert (Hsub : forall x, x ∈ rows <-> x ∈ attempts db /\ a_run_id x = a_run_id a).
  { intros x. unfold rows. rewrite elem_of_sort_by, elem_of_select. by rewrite str_eqb_true. }
  destruct (mapM_read_spec readAttempt (fun x sn => as_row sn = x) rows db) as (sns & E & HF).
  { intros x [Hx _]%Hsub. rewrite Forall_forall in Hread. by apply readAttempt_total, Hread. }
  assert (Har : a ∈ rows) by by apply Hsub. apply list_elem_of_lookup in Har as [i Har].
  destruct (Forall2_lookup_l _ _ _ _ _ HF Har) as (sn & Hsn & Erow).
  apply list_elem_of_lookup_2 in Hsn. exists sns.
  destruct (select_one_elem (fun e => str_eqb (a_attempt_id (as_row e)) (a_attempt_id a)) sns sn Hsn)
    as (sn' & Efind & Hsn' & Eid%str_eqb_true); [by rewrite Erow, str_eqb_refl|].
  exists sn'. split; [done|]. split; [done|]. apply list_elem_of_lookup in Hsn' as [j Hj].
  destruct (Forall2_lookup_r _ _ _ _ _ HF Hj) as (x & Hx & Ex).
  apply list_elem_of_lookup_2, Hsub in Hx as [Hx _]. rewrite Ex in *.
  apply (NoDup_map_inj a_attempt_id (attempts db)); [apply Hi|done..].
Qed.

(** A live attempt joins with its lease and no other. *)
Lemma live_lease_row db a :
  Inv db -> a ∈ attempts db -> attempt_live a = true ->
  exists l, lease_for db (a_attempt_id a) = Some l /\
    select_where (fun l => lease_of (a_attempt_id a) l && bool_decide (l_state l <> LReleased))
      (leases db) = [l].
Proof.
  intros Hi Ha Hlive. set (id := a_attempt_id a).
  assert (Hat : att db id = Some a).
  { apply (select_one_key a_attempt_id); [apply Hi| |done|by apply attempt_is_true].
    intros a' ->%attempt_is_true. done. }
  destruct (inv_live_lease _ _ Hi id a Hat Hlive) as [l Hl]. exists l. split; [done|].
  set (p := fun l => _ && _).
  assert (Hp : p l = true).
  { unfold p. rewrite (proj2 (lease_of_true id l) (lease_for_id _ _ _ Hl)). simpl.
    apply bool_decide_eq_true. intros Hst.
    destruct (inv_leases _ _ Hi l (lease_for_elem _ _ _ Hl)) as (_ & _ & a' & Ha' & _ & _ & _ & _ & Hrel).
    rewrite (lease_for_id _ _ _ Hl) in Ha'. rewrite Hat in Ha'. injection Ha' as <-.
    rewrite (Hrel Hst) in Hlive. done. }
  assert (Hone : count_where p (leases db) = 1).
  { pose proof (count_where_pos p _ l (lease_for_elem _ _ _ Hl) Hp).
    enough (count_where p (leases db) <= 1) by lia. apply (count_where_key l_attempt_id); [apply Hi|].
    intros l1 l2 [E1%lease_of_true _]%andb_true_iff [E2%lease_of_true _]%andb_true_iff. congruence. }
  unfold count_where in Hone. destruct (select_where p (leases db)) as [|x [|]] eqn:E; simpl in Hone; try lia.
  f_equal. assert (Hx : x ∈ select_where p (leases db)) by (rewrite E; by left).
  apply elem_of_select in Hx as [Hx [Hxid%lease_of_true _]%andb_true_iff].
  apply (NoDup_map_inj l_attempt_id (leases db)); [apply Hi|done|by eapply lease_for_elem|].
  by rewrite (lease_for_id _ _ _ Hl).
Qed.

Lemma recoverable_rows_live db :
  Inv db -> map fst (recoverableRows db) ≡ₚ select_where attempt_live (attempts db) /\
  forall a l, (a, l) ∈ recoverableRows db -> lease_for db (a_attempt_id a) = Some l.
Proof.
  intros Hi. unfold recoverableRows. rewrite sort_by_perm. setoid_rewrite elem_of_sort_by.
  assert (Hsub : forall a, a ∈ select_where attempt_live (attempts db) ->
            a ∈ attempts db /\ attempt_live a = true) by (intros a; by rewrite elem_of_select).
  induction (select_where attempt_live (attempts db)) as [|a rest IH]; simpl.
  - split; [done|]. by intros a l ?%elem_of_nil.
  - destruct (Hsub a) as [Ha Hlive]; [by left|].
    destruct IH as [IHp IHl]; [intros x Hx; apply Hsub; by right|].
    destruct (live_lease_row db a Hi Ha Hlive) as (l & Hl & ->). simpl. split; [by rewrite IHp|].
    intros a' l' [[= -> ->]|Hin]%elem_of_cons; [done|by apply IHl].
Qed.

(** A restart finds every attempt that is still live. When the stored texts can
    be read back, reading the recoverable attempts returns each live attempt
    exactly once, with the owner, fence and expiry of its lease, whether that
    lease is still active or has expired. *)
Theorem recovery_complete version workspaces ops :
  let db := history ops (empty_db version workspaces) in
  Forall readable_attempt (attempts db) ->
  exists found, readRecoverableSchedulingAttempts db = inr (found, db) /\
    map (fun r => as_row (ra_attempt r)) found ≡ₚ select_where attempt_live (attempts db) /\
    Forall (fun r => exists l, lease_for db (a_attempt_id (as_row (ra_attempt r))) = Some l /\
      ra_leaseOwnerId r = l_owner_id l /\ ra_leaseFencingRevision r = l_fencing_revision l /\
      ra_leaseExpiresAt r = l_expires_at l) found.
Proof.
  intros db Hread. assert (Hi : Inv db) by apply history_good, empty_inv. clearbody db.
  destruct (recoverable_rows_live db Hi) as [Hperm Hleases].
  unfold readRecoverableSchedulingAttempts, bind, get. cbv beta iota.
  destruct (mapM_read_spec readRecoverable (fun x r => as_row (ra_attempt r) = x.1 /\
    ra_leaseOwnerId r = l_owner_id x.2 /\ ra_leaseFencingRevision r = l_fencing_revision x.2 /\
    ra_leaseExpiresAt r = l_expires_at x.2) (recoverableRows db) db) as (found & E & HF).
  { intros [a l] Hx. apply (list_elem_of_fmap_2 fst) in Hx as Ha. simpl in Ha.
    change (a ∈ map fst (recoverableRows db)) in Ha. rewrite Hperm in Ha. apply elem_of_select in Ha as [Ha _].
    destruct (readAttempts_find db a Hi Hread Ha) as (sns & sn & E & Efind & Erow).
    unfold readRecoverable. rewrite (bind_eq _ _ _ _ _ E). unfold bind, orThrow. rewrite Efind.
    by eexists. }
  exists found. split; [done|]. split.
  - rewrite <-Hperm. clear -HF. induction HF as [|x r xs rs (Hr & _) _ IH]; simpl; [done|]. by rewrite Hr, IH.
  - apply Forall_forall. intros r Hr. apply list_elem_of_lookup in Hr as [i Hr].
    destruct (Forall2_lookup_r _ _ _ _ _ HF Hr) as ([a l] & Hx & Erow & Ho & Hf & He).
    exists l. rewrite Erow. split; [|done]. apply Hleases. by eapply list_elem_of_lookup_2.
Qed.
End Claims.
