(* ===== verification/SchedulingFaults.v ===== *)
(** * Account scheduling: concrete runs, and three runs that get stuck

    A generator of identifiers and schedules to instantiate the claims with; and
    the operations that no longer work once a candidate was attempted twice or a
    question answered once. *)

From Stdlib Require Import Ascii.
From S2P Require Import Prelude SqlList Json StateJson Scheduling SchedulingInv.
From S2P Require Import SchedulingSteps SchedulingOps.
From S2P Require Import SchedulingCapacity SchedulingTotal SchedulingClaims.

Local Open Scope Z_scope.
Local Open Scope st_scope.

(** ** Instances *)

#[export] Existing Instance tallyIds.
#[export] Instance noDates : DateParser := {| Date_parse := fun _ => None |}.

Definition candidateInput (profile account : string) (limit : Z) : SchedulingCandidateInput :=
  mkCandidateInput profile (Some account) "claude" limit (JObject []) (JObject []) (JObject [])
    None None None.

Definition scheduleInput (run : string) (policy : CapacityPolicy)
    (candidates : list SchedulingCandidateInput) : CreateExecutionScheduleInput :=
  mkCreateInput run ("stage-" +:+ run) "codebase" "repository" "prompt" "artifact"
    "0123456789abcdef0123456789abcdef01234567" None policy None None (JObject []) candidates None.

Definition fresh_db : Db := empty_db 19 ["w"].

(** The attempt that is live, and the question of a run. *)
Definition live_attempt (run : string) (db : Db) : string :=
  match select_one (fun a => str_eqb (a_run_id a) run && attempt_live a) (attempts db) with
  | Some a => a_attempt_id a | None => ""
  end.

Definition failAttempt (run : string) (now : Z) (db : Db) : Operation :=
  OpComplete (mkCompleteInput (live_attempt run db) Failed None None (Some true)) now.

(** ** Witnesses of the claims about histories *)

Definition two_claims : list Operation :=
  [OpCreate (scheduleInput "a" Fallback [candidateInput "p" "A" 1; candidateInput "q" "B" 1]) 1000;
   OpCreate (scheduleInput "b" Queue [candidateInput "p" "A" 1]) 2000;
   OpClaim "w" None None 3000;
   OpClaim "w" None None 4000].

Lemma capacity_never_exceeded_witness :
  slots "A" 5000 (history two_claims fresh_db) = 1 /\
  slots "A" 5000 (history two_claims fresh_db) <= 1.
Proof.
  split; [by vm_compute|].
  apply (capacity_never_exceeded 19 ["w"] "A" 1 two_claims 0 5000).
  - lia.
  - unfold two_claims. repeat constructor; simpl; intros; congruence.
  - repeat (split; [simpl; lia|]). simpl. lia.
Defined.

Lemma claim_returns_witness :
  exists result db', claimNextExecutionCandidate "w" None None 3000
    (history (firstn 2 two_claims) fresh_db) = inr (result, db').
Proof.
  apply (claim_returns 19 ["w"] (firstn 2 two_claims) "w" None None 3000).
  - reflexivity.
  - vm_compute. congruence.
  - vm_compute. congruence.
  - intros q a _ Ha. vm_compute in Ha. by apply elem_of_nil in Ha.
  - apply Forall_forall. intros c Hc. vm_compute in Hc.
    repeat (apply elem_of_cons in Hc as [->|Hc]; [split_and!; vm_compute; try done; by eexists|]).
    by apply elem_of_nil in Hc.
Defined.

Lemma recovery_complete_witness :
  exists found, readRecoverableSchedulingAttempts (history two_claims fresh_db) =
    inr (found, history two_claims fresh_db) /\ length found = 1%nat.
Proof.
  destruct (recovery_complete 19 ["w"] two_claims) as (found & E & Hp & _).
  - apply Forall_forall. intros a Ha. vm_compute in Ha.
    repeat (apply elem_of_cons in Ha as [->|Ha]; [split_and!; vm_compute; try done; by eexists|]).
    by apply elem_of_nil in Ha.
  - exists found. split; [exact E|]. apply Permutation_length in Hp. rewrite length_map in Hp.
    rewrite Hp. by vm_compute.
Defined.

Definition claimed_db : Db :=
  match claimNextExecutionCandidate "w" None None 3000 (history (firstn 2 two_claims) fresh_db) with
  | inr (_, db) => db | inl _ => fresh_db
  end.

Lemma claim_picks_best_witness :
  exists cl, claimNextExecutionCandidate "w" None None 3000 (history (firstn 2 two_claims) fresh_db) =
    inr (Some cl, claimed_db) /\ runId (cl_row cl) = "a" /\ candidateIndex (cl_row cl) = 0 /\
    granted claimed_db "w" cl.
Proof.
  eexists. split; [vm_compute; reflexivity|]. split; [reflexivity|]. split; [reflexivity|].
  eapply (claim_picks_best 19 ["w"] (firstn 2 two_claims) "w" None None 3000 (Some _)).
  vm_compute. reflexivity.
Defined.

(** ** Cancelling after a fallback *)

Section Faults.
Context `{IdGenerator} `{DateParser}.

Lemma cancelInside_refused sn now db :
  (exists a, a ∈ attempts db /\ akey a = (s_run_id (es_row sn), 0)) ->
  exists e, cancelQueuedInside sn now db = inl e.
Proof.
  intros (a & Ha & Ek). destruct (cancelQueuedInside sn now db) as [e|[u db']] eqn:E; [by exists e|].
  exfalso. unfold cancelQueuedInside in E. op_step E.
  destruct (select_one _ _) as [c|]; [|by op_inv E].
  op_step E. apply freshId_run in E0 as [-> ->]. op_inv E.
  match goal with Hx : insertAttempt _ _ = inr _ |- _ =>
    apply insertAttempt_run in Hx as (_ & _ & Hkey & _) end.
  by apply (Hkey a).
Qed.

(** A queued run whose primary candidate was attempted cannot be cancelled.
    Cancelling records the cancellation as an attempt of candidate 0, and
    attempts are unique per candidate: once candidate 0 has failed and the run
    was queued again for a fallback, every cancellation of it throws, and so does
    answering its capacity question with a cancellation. *)
Theorem cancel_after_fallback_refused version workspaces ops run a now :
  let db := history ops (empty_db version workspaces) in
  a ∈ attempts db -> akey a = (run, 0) ->
  (exists s, sched db run = Some s /\ (s_state s = SQueued \/ s_state s = SWaitingOnUser)) ->
  (exists e, cancelQueuedExecutionSchedule run now db = inl e) /\
  forall revision db', applyCapacityAnswer run revision AnswerCancel now db <> inr (true, db').
Proof.
  intros db Ha Ek (s & Hs & Hst). clearbody db. split.
  - destruct (cancelQueuedExecutionSchedule run now db) as [e|[b db']] eqn:E; [by exists e|]. exfalso.
    unfold cancelQueuedExecutionSchedule in E. op_step E.
    apply bind_run in E as (sn & d & [-> Hsn]%readRequired_run & E). rewrite Hs in Hsn. injection Hsn as ->.
    pose proof (sched_run _ _ _ Hs) as Hr.
    destruct (cancelInside_refused sn now db) as [e He]; [exists a; by rewrite Hr|].
    destruct Hst as [Hst|Hst]; rewrite Hst in E; unfold bind in E; by rewrite He in E.
  - intros revision db' E. unfold applyCapacityAnswer in E. op_step E. unfold applyCapacityAnswerInside in E.
    apply bind_run in E as (sn & d & [-> Hsn]%readRequired_run & E). rewrite Hs in Hsn. injection Hsn as ->.
    pose proof (sched_run _ _ _ Hs) as Hr. cbv zeta in E. destruct (_ || _); [by op_inv E|].
    destruct (cancelInside_refused sn now db) as [e He]; [exists a; by rewrite Hr|].
    unfold bind in E. by rewrite He in E.
Qed.

(** ** A question is answered once *)

(** A run with an answered question accepts no further answer, whatever happens
    next. *)
Lemma answered_refused db run k ops input now now' :
  Inv db -> question db run = Some k -> k_state k = QAnswered -> ai_runId input = run ->
  exists e, answerCapacityQuestion input now now' (history ops db) = inl e.
Proof.
  intros Hi Hk Hst Hrun. destruct (history_good ops db Hi) as [_ He].
  destruct (ev_question _ _ He run k Hk) as (k' & Hk' & Hstep).
  assert (Hst' : k_state k' = QAnswered).
  { destruct Hstep as [->|(Hp & _)]; [done|congruence]. }
  destruct (answerCapacityQuestion input now now' (history ops db)) as [e|[r db']] eqn:E; [by exists e|].
  exfalso. unfold answerCapacityQuestion in E. op_step E. op_step E.
  apply bind_run in E as (o & d & [-> Hq]%readQuestion_run & E). cbv zeta in E. op_step E. cbv zeta in E. op_step E.
  rewrite Hk' in Hq. injection Hq as Hq.
  match goal with G : _ && _ && _ = true |- _ =>
    apply andb_true_iff in G as [[_ G%bool_decide_eq_true]%andb_true_iff _]; rewrite <-Hq in G end.
  congruence.
Qed.
End Faults.

Definition askInput (run : string) : CreateExecutionScheduleInput :=
  scheduleInput run Ask [candidateInput "p" "A" 1; candidateInput "q" "B" 1].

(** The answer a user gives to the question of a run. *)
Definition answerWith (run label : string) (db : Db) : AnswerInput :=
  match question db run with
  | Some k =>
      mkAnswerInput run (k_interaction_id k) (k_revision k)
        [mkSubmitted (default "" (parseJsonValue (k_question_json k) ≫= interactionQuestionId))
           "single_choice" (Some [label])] "key"
  | None => mkAnswerInput run "" 0 [] "key"
  end.

(** Account A is taken by run [x]; run [a] asks; the user lets it wait; A is
    still taken at the next claim. *)
Definition asked_db : Db :=
  history [OpCreate (scheduleInput "x" Queue [candidateInput "p" "A" 1]) 1000;
           OpClaim "w" None None 2000;
           OpCreate (askInput "a") 3000;
           OpClaim "w" None None 4000] fresh_db.

Definition wait_twice_ops : list Operation :=
  [OpCreate (scheduleInput "x" Queue [candidateInput "p" "A" 1]) 1000;
   OpClaim "w" None None 2000;
   OpCreate (askInput "a") 3000;
   OpClaim "w" None None 4000;
   OpAnswer (answerWith "a" "Wait for primary" asked_db) 5000 5001;
   OpClaim "w" None None 6000].

(** Letting a run wait for its account can strand it. A run asks one question in
    its life: when the user answers that it should wait for the primary account
    and the account is still full at the next claim, the run waits for the user
    again, its only question is the answered one, and whatever happens
    afterwards no answer to it is ever accepted. *)
Theorem waiting_twice_strands_run :
  let db := history wait_twice_ops fresh_db in
  (exists s, sched db "a" = Some s /\ s_state s = SWaitingOnUser) /\
  (exists k, questions db = [k] /\ k_run_id k = "a" /\ k_state k = QAnswered) /\
  (forall ops input now now', ai_runId input = "a" ->
     exists e, answerCapacityQuestion input now now' (history ops db) = inl e).
Proof.
  intros db. split; [eexists; split; vm_compute; reflexivity|].
  assert (Hk : exists k, questions db = [k] /\ k_run_id k = "a" /\ k_state k = QAnswered).
  { eexists. split; [vm_compute; reflexivity|]. split; reflexivity. }
  split; [done|]. destruct Hk as (k & Hqs & Hr & Hst). intros ops input now now' Hin.
  eapply (answered_refused db "a" k); [apply history_good, empty_inv| |done|done].
  unfold question. rewrite Hqs. simpl. by rewrite Hr.
Qed.

Definition fallback_db : Db :=
  history [OpCreate (scheduleInput "a" Queue [candidateInput "p" "A" 1; candidateInput "q" "B" 1]) 1000;
           OpClaim "w" None None 2000] fresh_db.

Definition fallback_ops : list Operation :=
  [OpCreate (scheduleInput "a" Queue [candidateInput "p" "A" 1; candidateInput "q" "B" 1]) 1000;
   OpClaim "w" None None 2000;
   failAttempt "a" 3000 fallback_db].

Lemma cancel_after_fallback_refused_witness :
  exists e, cancelQueuedExecutionSchedule "a" 4000 (history fallback_ops fresh_db) = inl e.
Proof.
  destruct (attempts (history fallback_ops fresh_db)) as [|a rest] eqn:Ea; [by vm_compute in Ea|].
  apply (cancel_after_fallback_refused 19 ["w"] fallback_ops "a" a 4000).
  - change (a ∈ attempts (history fallback_ops fresh_db)). rewrite Ea. by left.
  - vm_compute in Ea. injection Ea as <- _. reflexivity.
  - eexists. split; [vm_compute; reflexivity|]. by left.
Defined.

(** ** Waiting for a primary that failed *)

(** Account B is taken by run [x]; run [a] fails on A and is queued for B; it asks;
    the user lets it wait for the primary account.  Then run [b] comes, for the
    free account C. *)
Definition before_failure : list Operation :=
  [OpCreate (scheduleInput "x" Queue [candidateInput "q" "B" 1]) 1000;
   OpClaim "w" None None 1500;
   OpCreate (askInput "a") 2000;
   OpClaim "w" None None 2500].

Definition before_answer : list Operation :=
  before_failure ++ [failAttempt "a" 3000 (history before_failure fresh_db); OpClaim "w" None None 3500].

Definition poisoned_ops : list Operation :=
  before_answer ++
  [OpAnswer (answerWith "a" "Wait for primary" (history before_answer fresh_db)) 4000 4001;
   OpCreate (scheduleInput "b" Queue [candidateInput "r" "C" 1]) 5000].

Definition poisoned_db : Db := history poisoned_ops fresh_db.

(** The rows a claim sees. *)
Lemma poisoned_rows :
  exists x y, mapM (queueRow poisoned_db) (omap (claimRow poisoned_db None) (queue poisoned_db)) poisoned_db =
      inr ([x; y], poisoned_db) /\
    (requestedPriority x, enqueuedAt x, queueSequence x, accountId x, maxConcurrentRuns x, runId x,
     candidateIndex x) = (0, 4000, 1, "A", 1, "a", 0) /\
    (requestedPriority y, enqueuedAt y, queueSequence y, accountId y, runId y) = (0, 5000, 2, "C", "b").
Proof.
  eexists _, _. split; [vm_compute; reflexivity|]. split; vm_compute; reflexivity.
Qed.

Lemma poisoned_attempt : exists a, a ∈ attempts poisoned_db /\ akey a = ("a", 0).
Proof.
  destruct (select_one (fun a => bool_decide (akey a = ("a", 0))) (attempts poisoned_db)) as [a|] eqn:E.
  - apply select_one_Some in E as [Ha E%bool_decide_eq_true]. by exists a.
  - exfalso. assert (F : match select_one (fun a => bool_decide (akey a = ("a", 0)))
      (attempts poisoned_db) with Some _ => true | None => false end = true) by (vm_compute; reflexivity).
    by rewrite E in F.
Qed.

Lemma later_priority a b now :
  requestedPriority a = requestedPriority b -> enqueuedAt a <= enqueuedAt b ->
  effectivePriority b now <= effectivePriority a now.
Proof.
  intros Hp He. unfold effectivePriority. rewrite Hp.
  pose proof (Z.div_le_mono (Z.max 0 (now - enqueuedAt b)) (Z.max 0 (now - enqueuedAt a)) 60000). lia.
Qed.

(** Waiting for a primary that failed stops the scheduler. The question offers to
    wait for the primary account although candidate 0 was attempted and failed;
    accepting it queues the candidate again, and since a candidate is attempted
    once, from then on every claim that reaches it throws. In this store run [b]
    is queued for an account with a free slot, and no claim at any later time
    returns. *)
Theorem wait_answer_blocks_claims owner ttl now :
  map q_run_id (queue poisoned_db) = ["a"; "b"] /\ slots "C" now poisoned_db = 0 /\
  exists e, claimNextExecutionCandidate owner ttl None now poisoned_db = inl e.
Proof.
  split; [by vm_compute|]. split; [by vm_compute|].
  assert (Hi : Inv poisoned_db) by apply history_good, empty_inv.
  assert (Hroom : slots "A" now poisoned_db = 0) by by vm_compute.
  destruct poisoned_rows as (x & y & E & Ex & Ey). destruct poisoned_attempt as (a & Ha & Ek).
  injection Ex as Px Tx Sx Ax Mx Rx Ix. injection Ey as Py Ty Sy Ay Ry.
  assert (Hw : forall z, waits poisoned_db None z <-> z = x \/ z = y).
  { intros z. rewrite <-(rows_wait poisoned_db None _ _ _ E), !elem_of_cons, elem_of_nil. tauto. }
  assert (Hgo : goes_first now x y).
  { pose proof (later_priority x y now ltac:(congruence) ltac:(lia)). unfold goes_first. lia. }
  assert (Hx : claimable poisoned_db None now x).
  { split; [|unfold has_room; rewrite Ax, Hroom; lia]. split; [apply Hw; by left|].
    intros z [->| ->]%Hw Hz; [unfold goes_first; lia|]. congruence. }
  apply (attempted_head_blocks None now poisoned_db x a); [done| | |done|congruence].
  - split; [done|]. intros z [[[->| ->]%Hw _] _] Hr; [lia|]. congruence.
  - intros z [[[Hz _] _] _]. apply Hw in Hz as [->| ->]; [by left|by right].
Qed.
