(* ===== verification/Revise.v ===== *)
(** * Task-graph revisions

    [packages/pipeline/src/task-graph/revise.ts], whole: the canonical form of
    graphs, changes, mappings and proposals, the structural waves of a graph,
    the first revision, and the validation of a proposed revision against the
    current one.  The records are those of [contracts/src/task-graph/revision.ts],
    [schemas.ts], [replanning.ts] and [contracts/src/run/task.ts].

    A proposal of schema version 2 is one with a trigger.  The [env] of a
    verification check is an object used as a map; every text in which it
    appears sorts its keys. *)

From stdpp Require Import gmap.
From S2P Require Import Prelude Recovery StateJson TaskDag.

(** ** JSON *)

(** The values these contracts are made of: their numbers are integers, which
    print as decimal numerals in the safe range. *)
Inductive Value :=
| VText (s : string)
| VInteger (z : Z)
| VBoolean (b : bool)
| VNull
| VArray (items : list Value)
| VObject (fields : list (string * Value)).

Fixpoint canonicalValue (value : Value) : Value :=
  match value with
  | VArray items => VArray (map canonicalValue items)
  | VObject fields =>
      VObject (own_order (sort_key fst (map (fun f => (fst f, canonicalValue (snd f))) fields)))
  | _ => value
  end.

(** [JSON.stringify]. *)
Fixpoint valueText (value : Value) : string :=
  match value with
  | VText s => json_string s
  | VInteger z => num_text z
  | VBoolean b => if b then "true" else "false"
  | VNull => "null"
  | VArray items => "[" +:+ js_join "," (map valueText items) +:+ "]"
  | VObject fields =>
      "{" +:+ js_join "," (map (fun f => json_string (fst f) +:+ ":" +:+ valueText (snd f)) fields)
          +:+ "}"
  end.

Definition canonicalJson (value : Value) : string := valueText (canonicalValue value).

Definition taskGraphRevisionSha256 `{Sha256} (value : Value) : string :=
  sha256_hex (canonicalJson value).

Definition nullable {A} (f : A -> Value) (o : option A) : Value :=
  match o with Some a => f a | None => VNull end.

Definition optional {A} (key : string) (f : A -> Value) (o : option A) : list (string * Value) :=
  match o with Some a => [(key, f a)] | None => [] end.

Definition texts (values : list string) : Value := VArray (map VText values).

(** ** Task revisions *)

Record ExcludedRepository := mkExcluded { xr_repositoryId : string; xr_rationale : string }.

Record TaskArtifactRequirement := mkArtifactRequirement {
  aq_name : string;
  aq_contract : string;
  aq_repositoryId : option string;
  aq_path : option string;
  aq_required : bool }.

Record VerifyCheck := mkCheck {
  vc_checkId : string;
  vc_argv : list string;
  vc_cwd : option string;
  vc_env : option (gmap string string);
  vc_expectedExitCode : Z;
  vc_required : bool }.

Record TaskVerificationCheck := mkVerification {
  vk_repositoryId : string;
  vk_check : VerifyCheck }.

Record ExecutionTaskRevision := mkTask {
  er_taskId : string;
  er_revision : Z;
  er_revisionSha256 : string;
  er_predecessorRevisionSha256 : option string;
  er_analysisPacketId : string;
  er_analysisPacketSha256 : string;
  er_objective : string;
  er_rationale : string;
  er_primaryRepositoryId : string;
  er_readSet : list string;
  er_writeSet : list string;
  er_excludedRepositories : list ExcludedRepository;
  er_dependencies : list string;
  er_artifacts : list TaskArtifactRequirement;
  er_verification : list TaskVerificationCheck;
  er_createdAt : string }.

Record TaskDagNodeV2 := mkNode {
  nd_task : ExecutionTaskRevision;
  nd_pipelineId : string;
  nd_profileId : string;
  nd_accountId : option string }.

Record TaskDagV2 := mkDag {
  dag_graphId : string;
  dag_graphRevision : Z;
  dag_nodes : list TaskDagNodeV2;
  dag_createdAt : string }.

Definition taskId (node : TaskDagNodeV2) : string := er_taskId (nd_task node).

(** What the validator and the planner read of a graph. *)
Definition node_view (node : TaskDagNodeV2) : TaskDagNode :=
  {| tn_task := {| et_taskId := taskId node;
                   et_dependencies := er_dependencies (nd_task node);
                   et_writeSet := er_writeSet (nd_task node) |};
     tn_profileId := nd_profileId node;
     tn_accountId := nd_accountId node |}.

Definition dag_view (dag : TaskDagV2) : TaskDag :=
  {| td_graphId := dag_graphId dag;
     td_graphRevision := dag_graphRevision dag;
     td_nodes := map node_view (dag_nodes dag) |}.

(** *** As JSON *)

Definition excluded_json (r : ExcludedRepository) : Value :=
  VObject [("repositoryId", VText (xr_repositoryId r)); ("rationale", VText (xr_rationale r))].

Definition artifact_json (a : TaskArtifactRequirement) : Value :=
  VObject [("name", VText (aq_name a)); ("contract", VText (aq_contract a));
           ("repositoryId", nullable VText (aq_repositoryId a));
           ("path", nullable VText (aq_path a)); ("required", VBoolean (aq_required a))].

Definition env_json (env : gmap string string) : Value :=
  VObject (map (fun e => (fst e, VText (snd e))) (map_to_list env)).

Definition check_json (c : VerifyCheck) : Value :=
  VObject ([("schemaVersion", VInteger 1); ("checkId", VText (vc_checkId c));
            ("argv", texts (vc_argv c))] ++
           optional "cwd" VText (vc_cwd c) ++ optional "env" env_json (vc_env c) ++
           [("expectedExitCode", VInteger (vc_expectedExitCode c));
            ("required", VBoolean (vc_required c))]).

Definition verification_json (v : TaskVerificationCheck) : Value :=
  VObject [("repositoryId", VText (vk_repositoryId v)); ("check", check_json (vk_check v))].

(** The fields of a task that a reorder may change, and the others. *)
Definition task_moving (t : ExecutionTaskRevision) : list (string * Value) :=
  [("dependencies", texts (er_dependencies t));
   ("revision", VInteger (er_revision t));
   ("revisionSha256", VText (er_revisionSha256 t));
   ("predecessorRevisionSha256", nullable VText (er_predecessorRevisionSha256 t));
   ("createdAt", VText (er_createdAt t))].

Definition task_content (t : ExecutionTaskRevision) : list (string * Value) :=
  [("schemaVersion", VInteger 1);
   ("taskId", VText (er_taskId t));
   ("analysisPacketId", VText (er_analysisPacketId t));
   ("analysisPacketSha256", VText (er_analysisPacketSha256 t));
   ("objective", VText (er_objective t));
   ("rationale", VText (er_rationale t));
   ("primaryRepositoryId", VText (er_primaryRepositoryId t));
   ("readSet", texts (er_readSet t));
   ("writeSet", texts (er_writeSet t));
   ("excludedRepositories", VArray (map excluded_json (er_excludedRepositories t)));
   ("artifacts", VArray (map artifact_json (er_artifacts t)));
   ("verification", VArray (map verification_json (er_verification t)))].

Definition with_task (node : TaskDagNodeV2) (task : list (string * Value)) : Value :=
  VObject [("task", VObject task); ("pipelineId", VText (nd_pipelineId node));
           ("profileId", VText (nd_profileId node));
           ("accountId", nullable VText (nd_accountId node))].

Definition node_json (node : TaskDagNodeV2) : Value :=
  with_task node (task_moving (nd_task node) ++ task_content (nd_task node)).

Definition reorderContent (node : TaskDagNodeV2) : Value :=
  with_task node (task_content (nd_task node)).

Definition dag_json (dag : TaskDagV2) : Value :=
  VObject [("schemaVersion", VInteger 2); ("graphId", VText (dag_graphId dag));
           ("graphRevision", VInteger (dag_graphRevision dag));
           ("nodes", VArray (map node_json (dag_nodes dag)));
           ("createdAt", VText (dag_createdAt dag))].

(** *** Canonical graphs *)

Definition canonicalNode (node : TaskDagNodeV2) : TaskDagNodeV2 :=
  let t := nd_task node in
  mkNode
    (mkTask (er_taskId t) (er_revision t) (er_revisionSha256 t)
       (er_predecessorRevisionSha256 t) (er_analysisPacketId t) (er_analysisPacketSha256 t)
       (er_objective t) (er_rationale t) (er_primaryRepositoryId t)
       (sort_strings (er_readSet t)) (sort_strings (er_writeSet t))
       (sort_key (canonicalJson ∘ excluded_json) (er_excludedRepositories t))
       (sort_strings (er_dependencies t))
       (sort_key (canonicalJson ∘ artifact_json) (er_artifacts t))
       (sort_key (canonicalJson ∘ verification_json) (er_verification t))
       (er_createdAt t))
    (nd_pipelineId node) (nd_profileId node) (nd_accountId node).

Definition node_key (node : TaskDagNodeV2) : string :=
  taskId node +:+ nul +:+ canonicalJson (node_json node).

Definition canonicalDag (dag : TaskDagV2) : TaskDagV2 :=
  mkDag (dag_graphId dag) (dag_graphRevision dag)
    (sort_key node_key (map canonicalNode (dag_nodes dag))) (dag_createdAt dag).

(** [new Map(dag.nodes.map((node) => [node.task.taskId, node]))]. *)
Definition nodesById (dag : TaskDagV2) : list (string * TaskDagNodeV2) :=
  map_of (map (fun node => (taskId node, node)) (dag_nodes dag)).

(** [canonicalJson] of a node that may be [undefined]. *)
Definition nodeText (node : option TaskDagNodeV2) : option string :=
  canonicalJson ∘ node_json <$> node.

(** ** Changes, mappings, proposals *)

Inductive TaskGraphChangeKind :=
| change_add | change_split | change_merge | change_reorder | change_supersede.

#[export] Instance TaskGraphChangeKind_eq_dec : EqDecision TaskGraphChangeKind.
Proof. solve_decision. Defined.

Definition change_kind_text (k : TaskGraphChangeKind) : string :=
  match k with
  | change_add => "add" | change_split => "split" | change_merge => "merge"
  | change_reorder => "reorder" | change_supersede => "supersede"
  end.

Record TaskGraphChange := mkChange {
  gc_kind : TaskGraphChangeKind;
  gc_beforeTaskIds : list string;
  gc_afterTaskIds : list string;
  gc_rationale : string;
  gc_evidenceArtifactIds : list string }.

Record TaskRequirementMapping := mkMapping {
  rm_sourceWorkItemId : string;
  rm_requirementId : string;
  rm_beforeTaskIds : list string;
  rm_afterTaskIds : list string;
  rm_rationale : string }.

Record HiddenDependencyRevisionTrigger := mkTrigger {
  ht_findingId : string;
  ht_interruptedTaskIds : list string }.

Record TaskGraphRevisionProposal := mkProposal {
  pr_runId : string;
  pr_graphId : string;
  pr_expectedGraphRevision : Z;
  pr_expectedRevisionSha256 : string;
  pr_proposedDag : TaskDagV2;
  pr_changes : list TaskGraphChange;
  pr_requirementMappings : list TaskRequirementMapping;
  pr_rationale : string;
  pr_evidenceArtifactIds : list string;
  pr_proposedAt : string;
  pr_trigger : option HiddenDependencyRevisionTrigger }.

Record HiddenDependencyFinding := mkFinding {
  hf_findingId : string;
  hf_runId : string;
  hf_graphId : string;
  hf_graphRevision : Z;
  hf_revisionSha256 : string;
  hf_reporterTaskId : string;
  hf_prerequisiteTaskIds : list string;
  hf_affectedTaskIds : list string;
  hf_rationale : string;
  hf_evidenceArtifactIds : list string;
  hf_discoveredAt : string }.

Definition schemaVersion (trigger : option HiddenDependencyRevisionTrigger) : Z :=
  match trigger with Some _ => 2 | None => 1 end.

Definition change_json (c : TaskGraphChange) : Value :=
  VObject [("kind", VText (change_kind_text (gc_kind c)));
           ("beforeTaskIds", texts (gc_beforeTaskIds c));
           ("afterTaskIds", texts (gc_afterTaskIds c));
           ("rationale", VText (gc_rationale c));
           ("evidenceArtifactIds", texts (gc_evidenceArtifactIds c))].

Definition mapping_json (m : TaskRequirementMapping) : Value :=
  VObject [("sourceWorkItemId", VText (rm_sourceWorkItemId m));
           ("requirementId", VText (rm_requirementId m));
           ("beforeTaskIds", texts (rm_beforeTaskIds m));
           ("afterTaskIds", texts (rm_afterTaskIds m));
           ("rationale", VText (rm_rationale m))].

Definition trigger_json (t : HiddenDependencyRevisionTrigger) : Value :=
  VObject [("kind", VText "hidden_dependency"); ("findingId", VText (ht_findingId t));
           ("interruptedTaskIds", texts (ht_interruptedTaskIds t))].

Definition proposal_json (p : TaskGraphRevisionProposal) : Value :=
  VObject ([("schemaVersion", VInteger (schemaVersion (pr_trigger p)));
            ("runId", VText (pr_runId p)); ("graphId", VText (pr_graphId p));
            ("expectedGraphRevision", VInteger (pr_expectedGraphRevision p));
            ("expectedRevisionSha256", VText (pr_expectedRevisionSha256 p));
            ("proposedDag", dag_json (pr_proposedDag p));
            ("changes", VArray (map change_json (pr_changes p)));
            ("requirementMappings", VArray (map mapping_json (pr_requirementMappings p)));
            ("rationale", VText (pr_rationale p));
            ("evidenceArtifactIds", texts (pr_evidenceArtifactIds p));
            ("proposedAt", VText (pr_proposedAt p))] ++
           optional "trigger" trigger_json (pr_trigger p)).

Definition canonicalChange (c : TaskGraphChange) : TaskGraphChange :=
  mkChange (gc_kind c) (sort_strings (gc_beforeTaskIds c)) (sort_strings (gc_afterTaskIds c))
    (gc_rationale c) (sort_strings (gc_evidenceArtifactIds c)).

Definition mappingKey (m : TaskRequirementMapping) : string :=
  rm_sourceWorkItemId m +:+ nul +:+ rm_requirementId m.

Definition canonicalMapping (m : TaskRequirementMapping) : TaskRequirementMapping :=
  mkMapping (rm_sourceWorkItemId m) (rm_requirementId m) (sort_strings (rm_beforeTaskIds m))
    (sort_strings (rm_afterTaskIds m)) (rm_rationale m).

Definition mapping_sort_key (m : TaskRequirementMapping) : string :=
  mappingKey m +:+ nul +:+ canonicalJson (mapping_json m).

Definition canonicalMappings (ms : list TaskRequirementMapping) : list TaskRequirementMapping :=
  sort_key mapping_sort_key (map canonicalMapping ms).

Definition canonicalProposal (p : TaskGraphRevisionProposal) : TaskGraphRevisionProposal :=
  mkProposal (pr_runId p) (pr_graphId p) (pr_expectedGraphRevision p)
    (pr_expectedRevisionSha256 p) (canonicalDag (pr_proposedDag p))
    (sort_key (canonicalJson ∘ change_json) (map canonicalChange (pr_changes p)))
    (canonicalMappings (pr_requirementMappings p)) (pr_rationale p)
    (sort_strings (pr_evidenceArtifactIds p)) (pr_proposedAt p) (pr_trigger p).

(** ** Structural waves *)

Record TaskStructuralWave := mkWave { sw_ordinal : Z; sw_taskIds : list string }.

(** The wave after the latest of the dependencies' waves. *)
Definition waveOf (ordinal : list (string * Z)) (dependencies : list string) : Z :=
  (fold_left (fun maximum predecessor => Z.max maximum (default 0 (map_get ordinal predecessor)))
     dependencies 0 + 1)%Z.

Definition waveOrdinals (nodes : list (string * TaskDagNodeV2)) (order : list string)
    : list (string * Z) :=
  fold_left (fun ordinal id =>
    map_set ordinal id (waveOf ordinal
      match map_get nodes id with Some node => er_dependencies (nd_task node) | None => [] end))
    order [].

(** The map from wave numbers to tasks, in insertion order. *)
Fixpoint addToWave (grouped : list (Z * list string)) (wave : Z) (id : string)
    : list (Z * list string) :=
  match grouped with
  | [] => [(wave, [id])]
  | (w, ids) :: rest =>
      if (w =? wave)%Z then (w, ids ++ [id]) :: rest else (w, ids) :: addToWave rest wave id
  end.

Definition groupWaves (ordinal : list (string * Z)) : list (Z * list string) :=
  fold_left (fun grouped e => addToWave grouped (snd e) (fst e)) ordinal [].

Definition wave_lt (l r : Z * list string) : bool := (fst l <? fst r)%Z.

Definition computeWaves (dag : TaskDagV2) : option (list TaskStructuralWave) :=
  match validateTaskDag (dag_view dag) None with
  | None => None
  | Some validation =>
      if negb (tv_valid validation) then Some []
      else
        Some (map (fun g => mkWave (fst g) (sort_strings (snd g)))
          (sort_by wave_lt (groupWaves
            (waveOrdinals (nodesById dag) (tv_topologicalOrder validation)))))
  end.

Definition waveMembership (waves : list TaskStructuralWave) : list (string * Z) :=
  map_of (flat_map (fun wave => map (fun id => (id, sw_ordinal wave)) (sw_taskIds wave)) waves).

(** ** Changes against the two graphs *)

Definition shapeValid (c : TaskGraphChange) : bool :=
  let before := length (gc_beforeTaskIds c) in
  let after := length (gc_afterTaskIds c) in
  match gc_kind c with
  | change_add => (before =? 0)%nat && (after =? 1)%nat
  | change_split => (before =? 1)%nat && (2 <=? after)%nat
  | change_merge => (2 <=? before)%nat && (after =? 1)%nat
  | change_reorder =>
      (before =? 1)%nat && (after =? 1)%nat &&
      bool_decide (head (gc_beforeTaskIds c) = head (gc_afterTaskIds c))
  | change_supersede => (before =? 1)%nat && (after <=? 1)%nat
  end.

Definition operationShapeDiagnostic (c : TaskGraphChange) : list TaskDagDiagnostic :=
  if shapeValid c then []
  else [ diagnostic "task-graph-revision.invalid-change-shape"
           ("Change kind " +:+ quoted (change_kind_text (gc_kind c)) +:+
            " has invalid before/after cardinality.")
           (gc_beforeTaskIds c ++ gc_afterTaskIds c) ].

Definition changedTaskIds (before after : TaskDagV2) : list string :=
  let left := nodesById before in
  let right := nodesById after in
  sort_strings (List.filter
    (fun id => negb (bool_decide (nodeText (map_get left id) = nodeText (map_get right id))))
    (set_of (map_keys left ++ map_keys right))).

Definition reordered (before after : option TaskDagNodeV2) : bool :=
  match before, after with
  | Some b, Some a =>
      negb (str_eqb (canonicalJson (texts (er_dependencies (nd_task b))))
                    (canonicalJson (texts (er_dependencies (nd_task a))))) &&
      str_eqb (canonicalJson (reorderContent b)) (canonicalJson (reorderContent a))
  | _, _ => false
  end.

Definition semanticsValid (c : TaskGraphChange)
    (beforeNodes afterNodes : list (string * TaskDagNodeV2)) : bool :=
  let beforeExists := forallb (map_has beforeNodes) (gc_beforeTaskIds c) in
  let afterExists := forallb (map_has afterNodes) (gc_afterTaskIds c) in
  let beforeRemoved := forallb (fun id => negb (map_has afterNodes id)) (gc_beforeTaskIds c) in
  let afterNew := forallb (fun id => negb (map_has beforeNodes id)) (gc_afterTaskIds c) in
  beforeExists && afterExists &&
  match gc_kind c with
  | change_add => afterNew
  | change_split | change_merge => beforeRemoved && afterNew
  | change_supersede =>
      let beforeTaskId := default "" (head (gc_beforeTaskIds c)) in
      match head (gc_afterTaskIds c) with
      | None => negb (map_has afterNodes beforeTaskId)
      | Some afterTaskId => str_eqb afterTaskId beforeTaskId || (beforeRemoved && afterNew)
      end
  | change_reorder =>
      let id := default "" (head (gc_beforeTaskIds c)) in
      reordered (map_get beforeNodes id) (map_get afterNodes id)
  end.

Definition operationSemanticDiagnostics (c : TaskGraphChange)
    (beforeNodes afterNodes : list (string * TaskDagNodeV2)) : list TaskDagDiagnostic :=
  if negb (shapeValid c) then []
  else if semanticsValid c beforeNodes afterNodes then []
  else [ diagnostic "task-graph-revision.invalid-change-semantics"
           ("Change kind " +:+ quoted (change_kind_text (gc_kind c)) +:+
            " does not match the derived graph mutation.")
           (gc_beforeTaskIds c ++ gc_afterTaskIds c) ].

(** ** Records *)

Record TaskGraphRevisionRecord := mkRecord {
  rr_runId : string;
  rr_graphId : string;
  rr_graphRevision : Z;
  rr_revisionSha256 : string;
  rr_predecessorRevisionSha256 : option string;
  rr_dag : TaskDagV2;
  rr_changes : list TaskGraphChange;
  rr_requirementMappings : list TaskRequirementMapping;
  rr_rationale : string;
  rr_evidenceArtifactIds : list string;
  rr_decisionId : option string;
  rr_committedAt : string;
  rr_trigger : option HiddenDependencyRevisionTrigger }.

(** The fields a record's hash covers. *)
Definition core_json (runId graphId : string) (graphRevision : Z) (predecessor : option string)
    (dag : TaskDagV2) (changes : list TaskGraphChange) (mappings : list TaskRequirementMapping)
    (rationale : string) (evidence : list string) (decisionId : option string)
    (committedAt : string) (trigger : option HiddenDependencyRevisionTrigger) : Value :=
  VObject ([("runId", VText runId); ("graphId", VText graphId);
            ("graphRevision", VInteger graphRevision);
            ("predecessorRevisionSha256", nullable VText predecessor);
            ("dag", dag_json dag); ("changes", VArray (map change_json changes));
            ("requirementMappings", VArray (map mapping_json mappings));
            ("rationale", VText rationale); ("evidenceArtifactIds", texts evidence);
            ("decisionId", nullable VText decisionId); ("committedAt", VText committedAt)] ++
           optional "trigger" trigger_json trigger).

(** A record with the hash of its fields. *)
Definition sealed `{Sha256} (runId graphId : string) (graphRevision : Z)
    (predecessor : option string) (dag : TaskDagV2) (changes : list TaskGraphChange)
    (mappings : list TaskRequirementMapping) (rationale : string) (evidence : list string)
    (decisionId : option string) (committedAt : string)
    (trigger : option HiddenDependencyRevisionTrigger) : TaskGraphRevisionRecord :=
  mkRecord runId graphId graphRevision
    (taskGraphRevisionSha256 (core_json runId graphId graphRevision predecessor dag changes
       mappings rationale evidence decisionId committedAt trigger))
    predecessor dag changes mappings rationale evidence decisionId committedAt trigger.

Record InitialRevisionInput := mkInitial {
  ir_runId : string;
  ir_dag : TaskDagV2;
  ir_requirementMappings : list TaskRequirementMapping;
  ir_rationale : string;
  ir_evidenceArtifactIds : list string;
  ir_committedAt : string }.

(** The outer [None] is a validation out of fuel; [inl] is a thrown error. *)
Definition createInitialTaskGraphRevision `{Sha256} (input : InitialRevisionInput)
    : option (string + TaskGraphRevisionRecord) :=
  let dag := canonicalDag (ir_dag input) in
  if negb (dag_graphRevision dag =? 1)%Z then Some (inl "initial task graph revision must be 1")
  else
    match validateTaskDag (dag_view dag) None with
    | None => None
    | Some validation => Some (
        if negb (tv_valid validation) then
          inl ("initial task graph is invalid: " +:+
               match tv_diagnostics validation with d :: _ => dg_code d | [] => "unknown" end)
        else
          let mappings := canonicalMappings (ir_requirementMappings input) in
          if (length mappings =? 0)%nat ||
             existsb (fun m => (0 <? length (rm_beforeTaskIds m))%nat) mappings then
            inl "initial requirement mappings must cover requirements without predecessor tasks"
          else
            let taskIds := set_of (map taskId (dag_nodes dag)) in
            if existsb (fun m => existsb (fun id => negb (set_has taskIds id)) (rm_afterTaskIds m))
                 mappings then
              inl "initial requirement mapping refers to an unknown task"
            else
              inr (sealed (ir_runId input) (dag_graphId dag) 1 None dag [] mappings
                     (ir_rationale input) (sort_strings (ir_evidenceArtifactIds input)) None
                     (ir_committedAt input) None))
    end.

(** ** Validation of a proposal *)

Record TaskGraphRevisionValidationContext := mkContext {
  cx_current : TaskGraphRevisionRecord;
  cx_taskStates : list TaskPlanningState;
  cx_hiddenDependencyFinding : option HiddenDependencyFinding;
  cx_maxGraphRevisions : Z;
  cx_decisionId : string;
  cx_decidedAt : string }.

Definition includesAll (values within : list string) : bool :=
  forallb (set_has within) values.

(** The change that replaces one task by exactly one other. *)
Definition supersedes (id : string) (c : TaskGraphChange) : bool :=
  bool_decide (gc_kind c = change_supersede) && (length (gc_beforeTaskIds c) =? 1)%nat &&
  bool_decide (head (gc_beforeTaskIds c) = Some id) && (length (gc_afterTaskIds c) =? 1)%nat.

Definition is_supersede (c : TaskGraphChange) : bool :=
  bool_decide (gc_kind c = change_supersede).

Definition cancelled (states : list (string * TaskPlanningState)) (id : string) : bool :=
  match map_get states id with
  | Some state => bool_decide (tp_outcome state = to_cancelled)
  | None => false
  end.

(** The values a proposal is validated with. *)
Record Validation := mkValidation {
  va_context : TaskGraphRevisionValidationContext;
  va_proposal : TaskGraphRevisionProposal;
  va_beforeDag : TaskDagV2;
  va_beforeNodes : list (string * TaskDagNodeV2);
  va_afterNodes : list (string * TaskDagNodeV2);
  va_states : list (string * TaskPlanningState) }.

Definition prepare (context : TaskGraphRevisionValidationContext)
    (proposalInput : TaskGraphRevisionProposal) : Validation :=
  let proposal := canonicalProposal proposalInput in
  let beforeDag := canonicalDag (rr_dag (cx_current context)) in
  mkValidation context proposal beforeDag (nodesById beforeDag)
    (nodesById (pr_proposedDag proposal)) (stateMap (cx_taskStates context)).

Section Checks.
Context (v : Validation).
Let context := va_context v.
Let current := cx_current context.
Let proposal := va_proposal v.
Let afterDag := pr_proposedDag proposal.
Let finding := cx_hiddenDependencyFinding context.

Definition triggerMatches (t : HiddenDependencyRevisionTrigger) (f : HiddenDependencyFinding)
    : bool :=
  str_eqb (hf_findingId f) (ht_findingId t) &&
  str_eqb (hf_runId f) (pr_runId proposal) &&
  str_eqb (hf_graphId f) (pr_graphId proposal) &&
  (hf_graphRevision f =? pr_expectedGraphRevision proposal)%Z &&
  str_eqb (hf_revisionSha256 f) (pr_expectedRevisionSha256 proposal).

Definition triggerComplete (t : HiddenDependencyRevisionTrigger) (f : HiddenDependencyFinding)
    : bool :=
  (length (ht_interruptedTaskIds t) =? length (hf_affectedTaskIds f))%nat &&
  includesAll (ht_interruptedTaskIds t) (hf_affectedTaskIds f) &&
  includesAll (hf_evidenceArtifactIds f) (pr_evidenceArtifactIds proposal).

Definition evidenceDiagnostics (t : HiddenDependencyRevisionTrigger) : list TaskDagDiagnostic :=
  let mismatch :=
    [ diagnostic "task-graph-revision.hidden-dependency-evidence-mismatch"
        "Hidden-dependency revision does not cite matching immutable finding evidence."
        (ht_interruptedTaskIds t) ] in
  match finding with
  | None => mismatch
  | Some f =>
      if negb (triggerMatches t f) then mismatch
      else if negb (triggerComplete t f) then
        [ diagnostic "task-graph-revision.hidden-dependency-evidence-incomplete"
            "Hidden-dependency revision omits affected tasks or evidence from its finding."
            (ht_interruptedTaskIds t) ]
      else []
  end.

Definition quiesced (id : string) : bool :=
  map_has (va_beforeNodes v) id && negb (map_has (va_afterNodes v) id) &&
  cancelled (va_states v) id && existsb (supersedes id) (pr_changes proposal).

Definition quiescedDiagnostics (t : HiddenDependencyRevisionTrigger) : list TaskDagDiagnostic :=
  flat_map (fun id =>
    if quiesced id then []
    else [ diagnostic "task-graph-revision.hidden-dependency-task-not-quiesced"
             ("Interrupted task " +:+ quoted id +:+ " must be cancelled and explicitly superseded.")
             [id] ]) (ht_interruptedTaskIds t).

Definition supersedeAuthorized (t : HiddenDependencyRevisionTrigger) (c : TaskGraphChange)
    : bool :=
  match gc_beforeTaskIds c, finding with
  | [id], Some f =>
      (length (gc_afterTaskIds c) =? 1)%nat && set_has (ht_interruptedTaskIds t) id &&
      set_has (hf_affectedTaskIds f) id && cancelled (va_states v) id &&
      includesAll (hf_evidenceArtifactIds f) (gc_evidenceArtifactIds c)
  | _, _ => false
  end.

Definition supersedeDiagnostics (t : HiddenDependencyRevisionTrigger) : list TaskDagDiagnostic :=
  flat_map (fun c =>
    if supersedeAuthorized t c then []
    else [ diagnostic "task-graph-revision.hidden-dependency-supersede-unauthorized"
             "V2 supersede operations may replace only cancelled tasks linked to the finding."
             (gc_beforeTaskIds c) ])
    (List.filter is_supersede (pr_changes proposal)).

Definition hiddenDiagnostics : list TaskDagDiagnostic :=
  match pr_trigger proposal with
  | None => []
  | Some t => evidenceDiagnostics t ++ quiescedDiagnostics t ++ supersedeDiagnostics t
  end.

Definition reportIf (wrong : bool) (code message : string) : list TaskDagDiagnostic :=
  if wrong then [diagnostic code message []] else [].

Definition identityDiagnostics : list TaskDagDiagnostic :=
  reportIf (negb (str_eqb (pr_runId proposal) (rr_runId current)))
    "task-graph-revision.wrong-run" "Proposal run does not match the canonical graph." ++
  reportIf (negb (str_eqb (pr_graphId proposal) (rr_graphId current)) ||
            negb (str_eqb (dag_graphId afterDag) (rr_graphId current)))
    "task-graph-revision.wrong-graph"
    "Proposal graph identity does not match the canonical graph." ++
  reportIf (negb (pr_expectedGraphRevision proposal =? rr_graphRevision current)%Z ||
            negb (str_eqb (pr_expectedRevisionSha256 proposal) (rr_revisionSha256 current)))
    "task-graph-revision.stale" "Proposal does not cite the active graph revision and hash." ++
  reportIf (negb (dag_graphRevision afterDag =? rr_graphRevision current + 1)%Z)
    "task-graph-revision.non-sequential"
    "Proposed graph revision must advance by exactly one." ++
  reportIf (cx_maxGraphRevisions context <? dag_graphRevision afterDag)%Z
    "task-graph-revision.limit-exceeded" "Proposed graph exceeds max_graph_revisions.".

Definition proposedStates : list TaskPlanningState :=
  map (fun node => default
    {| tp_taskId := taskId node; tp_outcome := to_not_started;
       tp_completionContract := cg_pending; tp_integration := ig_pending;
       tp_combinedVerification := cg_pending |} (map_get (va_states v) (taskId node)))
    (dag_nodes afterDag).

(** A started task may disappear only as an interrupted task of the finding. *)
Definition authorizedInterruptedRemoval (id : string) (state : TaskPlanningState) : bool :=
  negb (map_has (va_afterNodes v) id) && bool_decide (tp_outcome state = to_cancelled) &&
  match pr_trigger proposal, finding, List.find (supersedes id) (pr_changes proposal) with
  | Some t, Some f, Some c =>
      set_has (ht_interruptedTaskIds t) id && set_has (hf_affectedTaskIds f) id &&
      includesAll (hf_evidenceArtifactIds f) (gc_evidenceArtifactIds c)
  | _, _, _ => false
  end.

Definition startedDiagnostics : list TaskDagDiagnostic :=
  flat_map (fun e =>
    let '(id, node) := e in
    match map_get (va_states v) id with
    | None => []
    | Some state =>
        if bool_decide (tp_outcome state = to_not_started) then []
        else if bool_decide (nodeText (Some node) = nodeText (map_get (va_afterNodes v) id)) ||
                authorizedInterruptedRemoval id state then []
        else [ diagnostic "task-graph-revision.started-task"
                 ("Started or settled task " +:+ quoted id +:+ " is immutable.") [id] ]
    end) (va_beforeNodes v).

Definition chainDiagnostics : list TaskDagDiagnostic :=
  flat_map (fun e =>
    let '(id, node) := e in
    match map_get (va_beforeNodes v) id with
    | None =>
        if negb (er_revision (nd_task node) =? 1)%Z ||
           negb (bool_decide (er_predecessorRevisionSha256 (nd_task node) = None))
        then [ diagnostic "task-graph-revision.invalid-new-task-revision"
                 ("New task " +:+ quoted id +:+ " must start at revision 1.") [id] ]
        else []
    | Some predecessor =>
        if bool_decide (nodeText (Some predecessor) = nodeText (Some node)) then []
        else if negb (er_revision (nd_task node) =? er_revision (nd_task predecessor) + 1)%Z ||
                negb (bool_decide (er_predecessorRevisionSha256 (nd_task node) =
                                   Some (er_revisionSha256 (nd_task predecessor))))
        then [ diagnostic "task-graph-revision.invalid-task-revision-chain"
                 ("Task " +:+ quoted id +:+ " does not continue its exact revision chain.") [id] ]
        else []
    end) (va_afterNodes v).

Definition actualChanged : list string := changedTaskIds (va_beforeDag v) afterDag.

Definition declaredIds (c : TaskGraphChange) : list string :=
  set_of (gc_beforeTaskIds c ++ gc_afterTaskIds c).

Definition changeDiagnostics : list TaskDagDiagnostic :=
  flat_map (fun c =>
    operationShapeDiagnostic c ++
    operationSemanticDiagnostics c (va_beforeNodes v) (va_afterNodes v) ++
    flat_map (fun id =>
      if set_has actualChanged id then []
      else [ diagnostic "task-graph-revision.unchanged-task-declared"
               ("Change declares unchanged task " +:+ quoted id +:+ ".") [id] ])
      (declaredIds c)) (pr_changes proposal).

(** How many changes declare each task. *)
Definition accounted : list (string * Z) :=
  fold_left (fun counts c =>
    fold_left (fun counts id => map_set counts id (default 0 (map_get counts id) + 1)%Z)
      (declaredIds c) counts) (pr_changes proposal) [].

Definition accountDiagnostics : list TaskDagDiagnostic :=
  flat_map (fun id =>
    if (default 0 (map_get accounted id) =? 1)%Z then []
    else [ diagnostic "task-graph-revision.unaccounted-change"
             ("Changed task " +:+ quoted id +:+ " must be accounted for exactly once.") [id] ])
    actualChanged.

(** *** Requirements *)

Definition mappingsByKey (ms : list TaskRequirementMapping)
    : list (string * TaskRequirementMapping) :=
  map_of (map (fun m => (mappingKey m, m)) ms).

Definition currentMappings : list (string * TaskRequirementMapping) :=
  mappingsByKey (rr_requirementMappings current).

Definition mappingDiagnostics (m : TaskRequirementMapping) : list TaskDagDiagnostic :=
  let key := mappingKey m in
  match map_get currentMappings key with
  | None =>
      [ diagnostic "task-graph-revision.unknown-requirement"
          ("Requirement " +:+ quoted key +:+ " is not in the frozen source catalog.") [] ]
  | Some previous =>
      if str_eqb (valueText (texts (sort_strings (rm_afterTaskIds previous))))
                 (valueText (texts (rm_beforeTaskIds m))) then []
      else [ diagnostic "task-graph-revision.requirement-baseline-mismatch"
               ("Requirement " +:+ quoted key +:+ " does not cite its current task mapping.") [] ]
  end ++
  flat_map (fun id =>
    if map_has (va_afterNodes v) id then []
    else [ diagnostic "task-graph-revision.requirement-target-missing"
             ("Requirement " +:+ quoted key +:+ " maps to missing task " +:+ quoted id +:+ ".")
             [id] ]) (rm_afterTaskIds m).

(** The loop over the proposed mappings, with [proposedMappings]. *)
Fixpoint requirementDiagnostics (proposed : list (string * TaskRequirementMapping))
    (ms : list TaskRequirementMapping) : list TaskDagDiagnostic :=
  match ms with
  | [] => []
  | m :: rest =>
      (if map_has proposed (mappingKey m) then
         [ diagnostic "task-graph-revision.duplicate-requirement"
             ("Requirement " +:+ quoted (mappingKey m) +:+ " appears more than once.") [] ]
       else []) ++
      mappingDiagnostics m ++
      requirementDiagnostics (map_set proposed (mappingKey m) m) rest
  end.

Definition proposedMappings : list (string * TaskRequirementMapping) :=
  mappingsByKey (pr_requirementMappings proposal).

Definition lostDiagnostics : list TaskDagDiagnostic :=
  flat_map (fun key =>
    if map_has proposedMappings key then []
    else [ diagnostic "task-graph-revision.requirement-lost"
             ("Requirement " +:+ quoted key +:+ " disappeared from the proposal.") [] ])
    (map_keys currentMappings).

Definition narrowingDiagnostics : list TaskDagDiagnostic :=
  flat_map (fun c =>
    match head (gc_beforeTaskIds c) with
    | None => []
    | Some superseded =>
        flat_map (fun e =>
          let '(key, previous) := e in
          if negb (set_has (rm_afterTaskIds previous) superseded) then []
          else if match map_get proposedMappings key with
                  | None => true
                  | Some m => forallb (fun id => negb (map_has (va_afterNodes v) id))
                                (rm_afterTaskIds m)
                  end
          then [ diagnostic "task-graph-revision.commitment-narrowing"
                   ("Superseding task " +:+ quoted superseded +:+
                    " removes active coverage for requirement " +:+ quoted key +:+ ".")
                   [superseded] ]
          else []) currentMappings
    end) (List.filter is_supersede (pr_changes proposal)).

(** All diagnostics in the order they are pushed, with those of the two graph
    validations. *)
Definition revisionDiagnostics (baseline proposed : TaskDagValidationResult)
    : list TaskDagDiagnostic :=
  hiddenDiagnostics ++ identityDiagnostics ++
  reportIf (negb (tv_valid baseline)) "task-graph-revision.invalid-baseline"
    "Canonical graph or task-state snapshot is invalid." ++
  tv_diagnostics proposed ++ startedDiagnostics ++ chainDiagnostics ++ changeDiagnostics ++
  accountDiagnostics ++ requirementDiagnostics [] (pr_requirementMappings proposal) ++
  lostDiagnostics ++ narrowingDiagnostics.
End Checks.

Definition diagnostic_key (d : TaskDagDiagnostic) : string :=
  dg_code d +:+ nul +:+ js_join nul (dg_taskIds d) +:+ nul +:+ dg_message d.

Record TaskGraphRevisionDecision := mkDecision {
  dn_decisionId : string;
  dn_runId : string;
  dn_graphId : string;
  dn_proposal : TaskGraphRevisionProposal;
  dn_proposalSha256 : string;
  dn_expectedGraphRevision : Z;
  dn_accepted : bool;
  dn_proposedRevisionSha256 : option string;
  dn_diagnostics : list TaskDagDiagnostic;
  dn_beforeWaves : list TaskStructuralWave;
  dn_afterWaves : list TaskStructuralWave;
  dn_affectedTaskIds : list string;
  dn_affectedWaveOrdinals : list Z;
  dn_taskStates : list TaskPlanningState;
  dn_maxGraphRevisions : Z;
  dn_decidedAt : string;
  dn_trigger : option HiddenDependencyRevisionTrigger }.

Definition affectedTasks (before after : list (string * Z)) (changed : list string)
    : list string :=
  sort_strings (List.filter
    (fun id => negb (bool_decide (map_get before id = map_get after id)) || set_has changed id)
    (set_of (map_keys before ++ map_keys after))).

Definition affectedWaves (before after : list (string * Z)) (affected : list string) : list Z :=
  sort_by Z.ltb (fold_left (fun s w => if bool_decide (w ∈ s) then s else s ++ [w])
    (omap id (flat_map (fun t => [map_get before t; map_get after t]) affected)) []).

Record TaskGraphRevisionValidationOutcome := mkOutcome {
  oc_decision : TaskGraphRevisionDecision;
  oc_record : option TaskGraphRevisionRecord }.

(** The outcome once the graphs have been validated and their waves computed. *)
Definition revisionOutcome `{Sha256} (v : Validation) (diagnostics : list TaskDagDiagnostic)
    (beforeWaves afterWaves : list TaskStructuralWave) : TaskGraphRevisionValidationOutcome :=
  let context := va_context v in
  let proposal := va_proposal v in
  let before := waveMembership beforeWaves in
  let after := waveMembership afterWaves in
  let affected := affectedTasks before after (actualChanged v) in
  let record :=
    if (length diagnostics =? 0)%nat then
      Some (sealed (pr_runId proposal) (pr_graphId proposal)
        (dag_graphRevision (pr_proposedDag proposal))
        (Some (rr_revisionSha256 (cx_current context))) (pr_proposedDag proposal)
        (pr_changes proposal) (pr_requirementMappings proposal) (pr_rationale proposal)
        (pr_evidenceArtifactIds proposal) (Some (cx_decisionId context)) (cx_decidedAt context)
        (pr_trigger proposal))
    else None in
  mkOutcome
    (mkDecision (cx_decisionId context) (pr_runId proposal) (pr_graphId proposal) proposal
       (taskGraphRevisionSha256 (proposal_json proposal)) (pr_expectedGraphRevision proposal)
       (length diagnostics =? 0)%nat (rr_revisionSha256 <$> record) diagnostics beforeWaves
       afterWaves affected (affectedWaves before after affected)
       (sort_key tp_taskId (cx_taskStates context)) (cx_maxGraphRevisions context)
       (cx_decidedAt context) (pr_trigger proposal))
    record.

Definition validateTaskGraphRevision `{Sha256} (context : TaskGraphRevisionValidationContext)
    (proposalInput : TaskGraphRevisionProposal) : option TaskGraphRevisionValidationOutcome :=
  let v := prepare context proposalInput in
  let afterDag := pr_proposedDag (va_proposal v) in
  match validateTaskDag (dag_view (va_beforeDag v)) (Some (cx_taskStates context)),
        validateTaskDag (dag_view afterDag) (Some (proposedStates v)),
        computeWaves (va_beforeDag v), computeWaves afterDag with
  | Some baseline, Some proposed, Some beforeWaves, Some afterWaves =>
      Some (revisionOutcome v (sort_key diagnostic_key (revisionDiagnostics v baseline proposed))
              beforeWaves afterWaves)
  | _, _, _, _ => None
  end.
