(* ===== verification/ReviseText.v ===== *)
(** * Canonical texts of task graphs identify what they describe

    [revise.ts] compares tasks, dependencies and mappings by their canonical
    JSON text and hashes such texts.  Two values of a contract have the same text
    exactly when they are equal, so the comparisons are comparisons of the
    values. *)

From Stdlib Require Import Ascii.
From stdpp Require Import gmap.
From S2P Require Import Prelude Ids Recovery SignatureProps StateJson StateJsonProps TaskDag TaskOrder Revise.

(** ** Values *)

Section ValueInd.
Context (P : Value -> Prop).
Context (Htext : forall s, P (VText s)) (Hinteger : forall z, P (VInteger z)).
Context (Hboolean : forall b, P (VBoolean b)) (Hnull : P VNull).
Context (Harray : forall items, Forall P items -> P (VArray items)).
Context (Hobject : forall fields, Forall (fun f => P (snd f)) fields -> P (VObject fields)).

Fixpoint value_ind' (v : Value) : P v :=
  match v with
  | VText s => Htext s
  | VInteger z => Hinteger z
  | VBoolean b => Hboolean b
  | VNull => Hnull
  | VArray items =>
      Harray items
        ((fix go l : Forall P l :=
            match l with
            | [] => List.Forall_nil _
            | x :: l' => List.Forall_cons _ x l' (value_ind' x) (go l')
            end) items)
  | VObject fields =>
      Hobject fields
        ((fix go l : Forall (fun f => P (snd f)) l :=
            match l with
            | [] => List.Forall_nil _
            | x :: l' => List.Forall_cons _ x l' (value_ind' (snd x)) (go l')
            end) fields)
  end.
End ValueInd.

(** ** Texts *)

(** What may follow a value in a text. *)
Definition after_value (u : string) : Prop :=
  match u with EmptyString => True | String c _ => c ∈ [","; "]"; "}"]%char end.

Definition integer_char (c : ascii) : bool :=
  bool_decide (c ∈ ["-"; "0"; "1"; "2"; "3"; "4"; "5"; "6"; "7"; "8"; "9"]%char).

Fixpoint integer_text (s : string) : bool :=
  match s with EmptyString => true | String c rest => integer_char c && integer_text rest end.

Lemma integer_text_app s t : integer_text (s +:+ t) = integer_text s && integer_text t.
Proof.
  induction s as [|c s IH]; [by rewrite str_app_nil|]. rewrite str_app_cons. cbn. rewrite IH.
  by rewrite andb_assoc.
Qed.

Lemma pretty_N_go_integer x s :
  integer_text s = true -> integer_text (pretty_N_go x s) = true.
Proof.
  revert s. induction (N.lt_wf_0 x) as [x _ IH]. intros s Hs.
  assert (x = 0 \/ 0 < x)%N as [->|Hx] by lia; [by rewrite pretty_N_go_0|].
  rewrite pretty_N_go_step by done. apply IH; [by apply N.div_lt|].
  cbn. rewrite Hs, andb_true_r. unfold pretty_N_char. by repeat case_match.
Qed.

Lemma pretty_N_go_cons x c s : exists d t, pretty_N_go x (String c s) = String d t.
Proof.
  revert c s. induction (N.lt_wf_0 x) as [x _ IH]. intros c s.
  assert (x = 0 \/ 0 < x)%N as [->|Hx] by lia; [rewrite pretty_N_go_0; by eexists _, _|].
  rewrite pretty_N_go_step by done. apply IH. by apply N.div_lt.
Qed.

Lemma num_text_integer z :
  integer_text (num_text z) = true /\ exists c s, num_text z = String c s.
Proof.
  unfold num_text, pretty, pretty_Z. destruct z as [|p|p]; [by split; [|eexists _, _]|..].
  - split; [by apply pretty_N_go_integer|].
    assert (exists c s, pretty_N_go (Npos p) "" = String c s) as H; [|exact H].
    rewrite pretty_N_go_step by lia. apply pretty_N_go_cons.
  - split; [|by eexists _, _]. rewrite integer_text_app. by apply pretty_N_go_integer.
Qed.

Lemma integer_code s t u v :
  integer_text s = true -> integer_text t = true -> after_value u -> after_value v ->
  s +:+ u = t +:+ v -> s = t /\ u = v.
Proof.
  assert (forall c r w, integer_text (String c r) = true -> after_value (String c w) -> False) as Hc.
  { intros c r w [H _]%andb_prop Hw. cbn in Hw.
    rewrite !elem_of_cons, elem_of_nil in Hw. destruct Hw as [->|[->|[->|[]]]]; by vm_compute in H. }
  revert t. induction s as [|c s IH]; intros [|d t] Hs Ht Hu Hv; rewrite ?str_app_cons, ?str_app_nil.
  - done.
  - intros ->. by destruct (Hc _ _ _ Ht Hu).
  - intros <-. by destruct (Hc _ _ _ Hs Hv).
  - apply andb_prop in Hs as [_ Hs]. apply andb_prop in Ht as [_ Ht].
    intros [= -> E]. by destruct (IH t Hs Ht Hu Hv E) as [-> ->].
Qed.

(** Comma-separated lists of texts that end where they end. *)
Section Lists.
Context {A : Type} (r : A -> string) (l : list A).
Context (Hr : forall x y u v, x ∈ l -> after_value u -> after_value v ->
  r x +:+ u = r y +:+ v -> x = y /\ u = v).
Context (close : ascii) (Hclose : close ∈ ["]"; "}"]%char) (Hstart : not_starting close r).

Lemma close_after u : after_value (String close u).
Proof. cbn. set_solver. Qed.

Lemma comma_tail_after k u : after_value (comma_tail r k +:+ String close u).
Proof.
  destruct k as [|a k]; [apply close_after|]. cbn [comma_tail foldr].
  rewrite str_app_assoc. cbn. set_solver.
Qed.

Lemma tail_code_in k k' u v :
  (forall x, x ∈ k -> x ∈ l) ->
  comma_tail r k +:+ String close u = comma_tail r k' +:+ String close v -> k = k' /\ u = v.
Proof.
  assert (close <> ","%char) as Hne by (intros ->; set_solver).
  revert k'. induction k as [|a k IH]; intros [|b k'] Hk; simpl.
  - rewrite !str_app_nil. by intros [= ->].
  - rewrite str_app_nil, !str_app_assoc. intros [= H _]. done.
  - rewrite str_app_nil, !str_app_assoc. intros [= H _]. by symmetry in H.
  - rewrite !str_app_assoc. intros H%str_app_inv_head.
    apply Hr in H as [-> H]; [|apply Hk; by left|apply comma_tail_after..].
    apply IH in H as [-> ->]; [done|]. intros x Hx. apply Hk. by right.
Qed.

Lemma join_code_in k k' u v :
  (forall x, x ∈ k -> x ∈ l) ->
  js_join "," (map r k) +:+ String close u = js_join "," (map r k') +:+ String close v ->
  k = k' /\ u = v.
Proof.
  intros Hk. destruct k as [|a k], k' as [|b k']; rewrite ?join_cons, ?str_app_assoc.
  - unfold js_join. simpl. rewrite !str_app_nil. by intros [= ->].
  - unfold js_join. simpl. rewrite str_app_nil. intros H. symmetry in H. by apply Hstart in H.
  - unfold js_join. simpl. rewrite str_app_nil. intros H. by apply Hstart in H.
  - intros H. apply Hr in H as [-> H]; [|apply Hk; by left|apply comma_tail_after..].
    apply tail_code_in in H as [-> ->]; [done|]. intros x Hx. apply Hk. by right.
Qed.

Lemma join_code k' u v :
  js_join "," (map r l) +:+ String close u = js_join "," (map r k') +:+ String close v ->
  l = k' /\ u = v.
Proof. by apply join_code_in. Qed.
End Lists.

(** The first character of a text tells the kind of the value. *)
Definition value_start (v : Value) (c : ascii) : Prop :=
  match v with
  | VText _ => c = ascii_of_N 34
  | VInteger _ => integer_char c = true
  | VBoolean b => c = if b then "t"%char else "f"%char
  | VNull => c = "n"%char
  | VArray _ => c = "["%char
  | VObject _ => c = "{"%char
  end.

Lemma valueText_start v : exists c s, valueText v = String c s /\ value_start v c.
Proof.
  destruct v as [s|z|[|]| |items|fields]; try (by eexists _, _).
  destruct (num_text_integer z) as (H & c & s & E). exists c, s. split; [done|].
  rewrite E in H. by apply andb_prop in H as [H _].
Qed.

Lemma value_starts_not c : c ∈ ["]"; "}"; ","]%char -> not_starting c valueText.
Proof.
  intros Hc v u w. destruct (valueText_start v) as (d & s & -> & Hd). rewrite str_app_cons.
  intros [= -> _]. rewrite !elem_of_cons, elem_of_nil in Hc.
  destruct Hc as [->|[->|[->|[]]]], v as [| |[|]| | |]; by vm_compute in Hd.
Qed.

Definition entry_text (f : string * Value) : string :=
  json_string (fst f) +:+ ":" +:+ valueText (snd f).

Lemma entry_text_start : not_starting "}" entry_text.
Proof.
  intros f u v. unfold entry_text. rewrite str_app_assoc. by apply json_string_starts.
Qed.

Lemma valueText_code v : forall w u u',
  after_value u -> after_value u' -> valueText v +:+ u = valueText w +:+ u' -> v = w /\ u = u'.
Proof.
  induction v as [s|z|b| |items IH|fields IH] using value_ind'; intros w u u' Hu Hu' E.
  all: pose proof (valueText_start w) as (d & t & Ew & Hd).
  all: match type of E with valueText ?v +:+ _ = _ =>
         pose proof (valueText_start v) as (c & s' & Ev & Hc) end.
  all: assert (c = d) as Ecd by (rewrite Ev, Ew, !str_app_cons in E; by injection E).
  all: destruct w as [s2|z2|b2| |items2|fields2]; clear Ev Ew; subst d;
    try (exfalso; clear -Hc Hd; cbn in Hc, Hd; subst; repeat case_match; discriminate).
  - apply json_string_code in E. naive_solver.
  - destruct (num_text_integer z) as [H _], (num_text_integer z2) as [H2 _].
    apply integer_code in E as [E ->]; [|done..]. apply num_text_inj in E as ->. done.
  - destruct b, b2; cbn in Hc, Hd; subst; try done;
      [by apply (str_app_inv_head "true") in E|by apply (str_app_inv_head "false") in E].
  - by apply (str_app_inv_head "null") in E.
  - cbn [valueText] in E. rewrite !str_app_assoc in E. apply str_app_inv_head in E.
    apply join_code in E as [-> ->]; [done| |set_solver|apply value_starts_not; set_solver].
    intros x y a b Hx Ha Hb. rewrite Forall_forall in IH. by apply IH.
  - cbn [valueText] in E. rewrite !str_app_assoc in E. apply str_app_inv_head in E.
    apply (join_code entry_text) in E as [-> ->]; [done| |set_solver|apply entry_text_start].
    intros [k x] [k' y] a b Hx Ha Hb. unfold entry_text. cbn [fst snd]. rewrite !str_app_assoc.
    intros [-> H]%json_string_code. apply str_app_inv_head in H.
    rewrite Forall_forall in IH. destruct (IH _ Hx y a b Ha Hb H) as [Exy ->]. cbn in Exy. by subst.
Qed.

Lemma valueText_inj v w : valueText v = valueText w -> v = w.
Proof.
  intros E. destruct (valueText_code v w "" "") as [H _]; [done..| |done].
  by rewrite !str_app_nil_end.
Qed.

(** ** Canonical values *)

Lemma canonical_object fields gields :
  canonicalValue (VObject fields) = canonicalValue (VObject gields) ->
  map (fun f => (fst f, canonicalValue (snd f))) fields ≡ₚ
  map (fun f => (fst f, canonicalValue (snd f))) gields.
Proof.
  cbn [canonicalValue]. intros [= H].
  etransitivity; [symmetry; etransitivity; [apply own_order_perm|apply sort_key_perm]|].
  rewrite H. etransitivity; [apply own_order_perm|apply sort_key_perm].
Qed.

Lemma map_get_reordered {A} (m m' : list (string * A)) k :
  NoDup (map fst m) -> m ≡ₚ m' -> map_get m k = map_get m' k.
Proof.
  intros Hn Hp. assert (NoDup (map fst m')) as Hn' by (by rewrite <-Hp).
  apply option_eq. intros v. split; intros H%map_get_elem; apply elem_map_get; try done;
    [by rewrite <-Hp|by rewrite Hp].
Qed.

(** Equal canonical objects have equal canonical fields. *)
Lemma canonical_field fields gields k :
  canonicalValue (VObject fields) = canonicalValue (VObject gields) -> NoDup (map fst fields) ->
  canonicalValue <$> map_get fields k = canonicalValue <$> map_get gields k.
Proof.
  intros H%canonical_object Hn. rewrite <-!map_get_map_values. apply map_get_reordered; [|done].
  by rewrite map_map.
Qed.

Lemma canonical_at fields gields k x y :
  canonicalValue (VObject fields) = canonicalValue (VObject gields) -> NoDup (map fst fields) ->
  map_get fields k = Some x -> map_get gields k = Some y -> canonicalValue x = canonicalValue y.
Proof. intros H Hn Hx Hy. apply (canonical_field _ _ k) in H; [|done]. rewrite Hx, Hy in H. by injection H. Qed.

(** Contract values are determined by their canonical JSON. *)
Definition faithful {A} (f : A -> Value) : Prop :=
  forall a b, canonicalValue (f a) = canonicalValue (f b) -> a = b.

Lemma faithful_text : faithful VText.
Proof. by intros a b [= ->]. Qed.

Lemma faithful_array {A} (f : A -> Value) : faithful f -> faithful (fun l => VArray (map f l)).
Proof.
  intros Hf a b [= H]. revert b H. induction a as [|x a IH]; intros [|y b]; simpl; try done.
  intros [= H1%Hf H2%IH]. congruence.
Qed.

Lemma faithful_texts : faithful texts.
Proof. apply faithful_array, faithful_text. Qed.

Lemma faithful_nullable : faithful (nullable VText).
Proof. intros [a|] [b|]; cbn; intros; congruence. Qed.

Lemma env_get (env : gmap string string) k :
  map_get (map (fun e => (fst e, VText (snd e))) (map_to_list env)) k = VText <$> env !! k.
Proof.
  rewrite map_get_map_values. f_equal. apply option_eq. intros v. rewrite <-elem_of_map_to_list. split.
  - apply map_get_elem.
  - apply elem_map_get. apply NoDup_fst_map_to_list.
Qed.

Lemma faithful_env : faithful env_json.
Proof.
  intros a b H. apply map_eq. intros k.
  apply (canonical_field _ _ k) in H;
    [|rewrite map_map; apply NoDup_fst_map_to_list].
  rewrite !env_get in H. destruct (a !! k), (b !! k); cbn in H; congruence.
Qed.

(** A field of two objects with literal keys. *)
Ltac field_eq H k :=
  let E := fresh "E" in
  pose proof (canonical_at _ _ k _ _ H
    ltac:(apply (bool_decide_eq_true_1 _); vm_compute; reflexivity) eq_refl eq_refl) as E.

Lemma faithful_boolean : faithful VBoolean.
Proof. by intros a b [= ->]. Qed.

Lemma faithful_integer : faithful VInteger.
Proof. by intros a b [= ->]. Qed.

Create HintDb faithful.
#[export] Hint Resolve faithful_text faithful_texts faithful_nullable faithful_env faithful_boolean
  faithful_integer faithful_array : faithful.

(** The records agree on the field that their objects have under [k]. *)
Ltac field_same H k f a b :=
  assert (a = b) as -> by
    (field_eq H k;
     match goal with E : canonicalValue _ = canonicalValue _ |- _ =>
       let Hf := fresh in
       assert (faithful f) as Hf by auto with faithful; exact (Hf a b E) end).

Lemma faithful_excluded : faithful excluded_json.
Proof.
  intros [a1 a2] [b1 b2] H. field_same H "repositoryId" VText a1 b1.
  by field_same H "rationale" VText a2 b2.
Qed.

Lemma faithful_artifact : faithful artifact_json.
Proof.
  intros [a1 a2 a3 a4 a5] [b1 b2 b3 b4 b5] H. field_same H "name" VText a1 b1.
  field_same H "contract" VText a2 b2. field_same H "repositoryId" (nullable VText) a3 b3.
  field_same H "path" (nullable VText) a4 b4. by field_same H "required" VBoolean a5 b5.
Qed.

(** Optional fields are shown or missing. *)
Lemma check_keys c : NoDup (map fst
  ([("schemaVersion", VInteger 1); ("checkId", VText (vc_checkId c)); ("argv", texts (vc_argv c))] ++
   optional "cwd" VText (vc_cwd c) ++ optional "env" env_json (vc_env c) ++
   [("expectedExitCode", VInteger (vc_expectedExitCode c)); ("required", VBoolean (vc_required c))])).
Proof. destruct c as [? ? [?|] [?|] ? ?]; apply (bool_decide_eq_true_1 _); by vm_compute. Qed.

Lemma faithful_check : faithful check_json.
Proof.
  intros [a1 a2 a3 a4 a5 a6] [b1 b2 b3 b4 b5 b6] H.
  assert (forall k, canonicalValue <$> map_get _ k = canonicalValue <$> map_get _ k) as Hk
    by (intros k; apply (canonical_field _ _ k H), (check_keys (mkCheck a1 a2 a3 a4 a5 a6))).
  assert (a3 = b3) as ->.
  { specialize (Hk "cwd"). destruct a3, a4, b3, b4; vm_compute in Hk; congruence. }
  assert (a4 = b4) as ->.
  { specialize (Hk "env"). clear H. destruct b3, a4 as [e|], b4 as [e'|]; try done;
      apply (inj Some) in Hk; f_equal; by apply faithful_env. }
  destruct b3, b4; field_same H "checkId" VText a1 b1; field_same H "argv" texts a2 b2;
    field_same H "expectedExitCode" VInteger a5 b5; by field_same H "required" VBoolean a6 b6.
Qed.

#[export] Hint Resolve faithful_excluded faithful_artifact faithful_check : faithful.

Lemma faithful_verification : faithful verification_json.
Proof.
  intros [a1 a2] [b1 b2] H. field_same H "repositoryId" VText a1 b1.
  by field_same H "check" check_json a2 b2.
Qed.

#[export] Hint Resolve faithful_verification : faithful.

(** ** Tasks and nodes *)

(** The fields of the task shown in both objects. *)
Lemma task_fields a b fields gields :
  canonicalValue (VObject (fields ++ task_content a)) =
  canonicalValue (VObject (gields ++ task_content b)) ->
  NoDup (map fst (fields ++ task_content a)) ->
  map_keys fields = map_keys gields ->
  forall k x y, map_get (task_content a) k = Some x -> map_get (task_content b) k = Some y ->
    canonicalValue x = canonicalValue y.
Proof.
  intros H Hn Hk k x y Hx Hy. apply (canonical_at _ _ k x y H Hn).
  - apply elem_map_get; [done|]. apply map_get_elem in Hx. set_solver.
  - assert (NoDup (map fst (gields ++ task_content b))) as Hn'.
    { replace (map fst (gields ++ task_content b)) with (map fst (fields ++ task_content a)); [done|].
      rewrite !map_app. by unfold map_keys in Hk; rewrite Hk. }
    apply elem_map_get; [done|]. apply map_get_elem in Hy. set_solver.
Qed.

(** The task with the fields a reorder may change replaced by those of another. *)
Definition moved_as (a b : ExecutionTaskRevision) : ExecutionTaskRevision :=
  mkTask (er_taskId a) (er_revision b) (er_revisionSha256 b) (er_predecessorRevisionSha256 b)
    (er_analysisPacketId a) (er_analysisPacketSha256 a) (er_objective a) (er_rationale a)
    (er_primaryRepositoryId a) (er_readSet a) (er_writeSet a) (er_excludedRepositories a)
    (er_dependencies b) (er_artifacts a) (er_verification a) (er_createdAt b).

Lemma task_content_same a b :
  (forall k x y, map_get (task_content a) k = Some x -> map_get (task_content b) k = Some y ->
     canonicalValue x = canonicalValue y) -> moved_as a b = b.
Proof.
  intros H. unfold moved_as.
  pose proof (faithful_array _ faithful_excluded) as Fx.
  pose proof (faithful_array _ faithful_artifact) as Fa.
  pose proof (faithful_array _ faithful_verification) as Fv.
  rewrite (faithful_text _ _ (H "taskId" _ _ eq_refl eq_refl)).
  rewrite (faithful_text _ _ (H "analysisPacketId" _ _ eq_refl eq_refl)).
  rewrite (faithful_text _ _ (H "analysisPacketSha256" _ _ eq_refl eq_refl)).
  rewrite (faithful_text _ _ (H "objective" _ _ eq_refl eq_refl)).
  rewrite (faithful_text _ _ (H "rationale" _ _ eq_refl eq_refl)).
  rewrite (faithful_text _ _ (H "primaryRepositoryId" _ _ eq_refl eq_refl)).
  rewrite (faithful_texts _ _ (H "readSet" _ _ eq_refl eq_refl)).
  rewrite (faithful_texts _ _ (H "writeSet" _ _ eq_refl eq_refl)).
  rewrite (Fx _ _ (H "excludedRepositories" _ _ eq_refl eq_refl)).
  rewrite (Fa _ _ (H "artifacts" _ _ eq_refl eq_refl)).
  rewrite (Fv _ _ (H "verification" _ _ eq_refl eq_refl)).
  by destruct b.
Qed.

Lemma content_keys t : NoDup (map fst (task_content t)).
Proof. apply (bool_decide_eq_true_1 _). by vm_compute. Qed.

Lemma task_keys t : NoDup (map fst (task_moving t ++ task_content t)).
Proof. apply (bool_decide_eq_true_1 _). by vm_compute. Qed.

(** The node parts beside the task, and the task. *)
Lemma with_task_same a b fields gields :
  canonicalValue (with_task a fields) = canonicalValue (with_task b gields) ->
  nd_pipelineId a = nd_pipelineId b /\ nd_profileId a = nd_profileId b /\
  nd_accountId a = nd_accountId b /\
  canonicalValue (VObject fields) = canonicalValue (VObject gields).
Proof.
  intros H.
  assert (NoDup (map fst [("task", VObject fields); ("pipelineId", VText (nd_pipelineId a));
    ("profileId", VText (nd_profileId a)); ("accountId", nullable VText (nd_accountId a))])) as Hn
    by (apply (bool_decide_eq_true_1 _); by vm_compute).
  pose proof (canonical_at _ _ "pipelineId" _ _ H Hn eq_refl eq_refl) as E1%faithful_text.
  pose proof (canonical_at _ _ "profileId" _ _ H Hn eq_refl eq_refl) as E2%faithful_text.
  pose proof (canonical_at _ _ "accountId" _ _ H Hn eq_refl eq_refl) as E3%faithful_nullable.
  by pose proof (canonical_at _ _ "task" _ _ H Hn eq_refl eq_refl) as E4.
Qed.

Lemma moving_same a b :
  canonicalValue (VObject (task_moving a ++ task_content a)) =
  canonicalValue (VObject (task_moving b ++ task_content b)) -> moved_as b a = b.
Proof.
  intros H. pose proof (task_keys a) as Hn. unfold moved_as.
  pose proof (canonical_at _ _ "dependencies" _ _ H Hn eq_refl eq_refl) as ->%faithful_texts.
  pose proof (canonical_at _ _ "revision" _ _ H Hn eq_refl eq_refl) as ->%faithful_integer.
  pose proof (canonical_at _ _ "revisionSha256" _ _ H Hn eq_refl eq_refl) as ->%faithful_text.
  pose proof (canonical_at _ _ "predecessorRevisionSha256" _ _ H Hn eq_refl eq_refl)
    as ->%faithful_nullable.
  pose proof (canonical_at _ _ "createdAt" _ _ H Hn eq_refl eq_refl) as ->%faithful_text.
  by destruct b.
Qed.

Lemma moved_twice a b : moved_as a b = b -> moved_as b a = b -> a = b.
Proof.
  destruct a, b. unfold moved_as. simpl. intros Ha Hb. injection Ha. injection Hb. intros. by subst.
Qed.

Lemma faithful_node : faithful node_json.
Proof.
  intros a b H. apply with_task_same in H as (E1 & E2 & E3 & E4).
  assert (moved_as (nd_task a) (nd_task b) = nd_task b) as Ha.
  { apply task_content_same. apply (task_fields _ _ _ _ E4); [apply task_keys|done]. }
  pose proof (moving_same _ _ E4) as Hb. destruct a as [a ? ? ?], b as [b ? ? ?]. simpl in *. subst.
  by rewrite (moved_twice a b).
Qed.

(** A reorder keeps everything but the moving fields. *)
Lemma reorder_same a b :
  canonicalJson (reorderContent a) = canonicalJson (reorderContent b) <->
  b = mkNode (moved_as (nd_task a) (nd_task b)) (nd_pipelineId a) (nd_profileId a) (nd_accountId a).
Proof.
  split.
  - intros H%valueText_inj. apply with_task_same in H as (E1 & E2 & E3 & E4).
    rewrite E1, E2, E3, task_content_same; [by destruct b|].
    apply (task_fields _ _ [] [] E4); [apply content_keys|done].
  - intros ->. done.
Qed.

Lemma node_text_inj a b : canonicalJson (node_json a) = canonicalJson (node_json b) -> a = b.
Proof. intros H%valueText_inj. by apply faithful_node. Qed.

Arguments nodeText : simpl never.
Arguments canonicalJson : simpl never.

Lemma nodeText_same a b : nodeText a = nodeText b <-> a = b.
Proof.
  split; [|by intros ->]. destruct a as [a|], b as [b|]; try done.
  intros H%(inj Some). f_equal. by apply node_text_inj.
Qed.

Lemma texts_same a b : valueText (texts a) = valueText (texts b) <-> a = b.
Proof.
  split; [|by intros ->]. intros H%valueText_inj. injection H as H. revert b H.
  induction a as [|x a IH]; intros [|y b]; simpl; try done. intros [= -> ?%IH]. by subst.
Qed.

Lemma canonical_texts a : canonicalJson (texts a) = valueText (texts a).
Proof. unfold canonicalJson, texts. cbn. do 2 f_equal. by rewrite !map_map. Qed.
