(* ===== verification/ReviseSpec.v ===== *)
(** * What an acceptable revision is

    The abstract specification of [validateTaskGraphRevision], without texts,
    maps or counters, and the lemmas that relate each group of diagnostics to
    it. *)

From stdpp Require Import gmap.
From S2P Require Import Prelude Writers Recovery TaskDag TaskOrder TaskValid TaskProps Revise ReviseText.

(** ** Graphs *)

Definition node_at (dag : TaskDagV2) (id : string) : option TaskDagNodeV2 :=
  map_get (nodesById dag) id.

Definition has_task (dag : TaskDagV2) (id : string) : Prop := id ∈ map taskId (dag_nodes dag).

#[export] Instance has_task_dec dag id : Decision (has_task dag id).
Proof. unfold has_task. apply _. Defined.

Lemma nodesById_keys dag id : id ∈ map_keys (nodesById dag) <-> has_task dag id.
Proof. unfold nodesById. rewrite elem_of_map_of, map_map. done. Qed.

Lemma node_at_some dag id : is_Some (node_at dag id) <-> has_task dag id.
Proof. unfold node_at. by rewrite <-map_get_keys, nodesById_keys. Qed.

Lemma map_has_node dag id : map_has (nodesById dag) id = true <-> has_task dag id.
Proof. by rewrite map_has_keys, nodesById_keys. Qed.

Lemma map_has_no_node dag id : map_has (nodesById dag) id = false <-> ~ has_task dag id.
Proof. by rewrite map_has_false, nodesById_keys. Qed.

Lemma node_at_none dag id : node_at dag id = None <-> ~ has_task dag id.
Proof. by rewrite <-node_at_some, eq_None_not_Some. Qed.

Lemma node_at_elem dag id n : node_at dag id = Some n -> n ∈ dag_nodes dag /\ taskId n = id.
Proof.
  intros H%map_of_get_elem. apply list_elem_of_fmap in H as (m & [= -> ->] & Hm). done.
Qed.

(** The tasks of a graph are distinct when it is valid. *)
Lemma view_ids dag : map node_id (td_nodes (dag_view dag)) = map taskId (dag_nodes dag).
Proof. cbn. rewrite map_map. done. Qed.

Lemma valid_ids dag : dag_valid (dag_view dag) -> NoDup (map taskId (dag_nodes dag)).
Proof. intros [Hs _ _ _]. rewrite <-view_ids. apply Hs. Qed.

Lemma node_at_iff dag id n :
  NoDup (map taskId (dag_nodes dag)) ->
  node_at dag id = Some n <-> n ∈ dag_nodes dag /\ taskId n = id.
Proof.
  intros Hn. split; [apply node_at_elem|]. intros [Hin <-]. apply map_of_get.
  - by rewrite map_map.
  - apply list_elem_of_fmap. by exists n.
Qed.

(** ** Changes *)

(** The mutations of the graph a change may describe. *)
Inductive change_ok (before after : TaskDagV2) (c : TaskGraphChange) : Prop :=
| ok_add a :
    gc_kind c = change_add -> gc_beforeTaskIds c = [] -> gc_afterTaskIds c = [a] ->
    ~ has_task before a -> has_task after a -> change_ok before after c
| ok_split b :
    gc_kind c = change_split -> gc_beforeTaskIds c = [b] -> (2 <= length (gc_afterTaskIds c))%nat ->
    has_task before b -> ~ has_task after b ->
    (forall a, a ∈ gc_afterTaskIds c -> has_task after a /\ ~ has_task before a) ->
    change_ok before after c
| ok_merge a :
    gc_kind c = change_merge -> (2 <= length (gc_beforeTaskIds c))%nat -> gc_afterTaskIds c = [a] ->
    (forall b, b ∈ gc_beforeTaskIds c -> has_task before b /\ ~ has_task after b) ->
    has_task after a -> ~ has_task before a -> change_ok before after c
| ok_reorder id n m :
    gc_kind c = change_reorder -> gc_beforeTaskIds c = [id] -> gc_afterTaskIds c = [id] ->
    node_at before id = Some n -> node_at after id = Some m ->
    er_dependencies (nd_task n) <> er_dependencies (nd_task m) ->
    m = mkNode (moved_as (nd_task n) (nd_task m)) (nd_pipelineId n) (nd_profileId n)
          (nd_accountId n) -> change_ok before after c
| ok_remove b :
    gc_kind c = change_supersede -> gc_beforeTaskIds c = [b] -> gc_afterTaskIds c = [] ->
    has_task before b -> ~ has_task after b -> change_ok before after c
| ok_revise b :
    gc_kind c = change_supersede -> gc_beforeTaskIds c = [b] -> gc_afterTaskIds c = [b] ->
    has_task before b -> has_task after b -> change_ok before after c
| ok_replace b a :
    gc_kind c = change_supersede -> gc_beforeTaskIds c = [b] -> gc_afterTaskIds c = [a] ->
    has_task before b -> ~ has_task after b -> has_task after a -> ~ has_task before a ->
    change_ok before after c.

Ltac split_bools :=
  repeat match goal with
  | H : _ && _ = true |- _ => apply andb_prop in H as [? ?]
  | H : negb _ = true |- _ => apply negb_true_iff in H
  | H : map_has (nodesById _) _ = true |- _ => apply map_has_node in H
  | H : map_has (nodesById _) _ = false |- _ => apply map_has_no_node in H
  end.

Lemma reordered_iff before after :
  reordered before after = true <->
  exists n m, before = Some n /\ after = Some m /\
    er_dependencies (nd_task n) <> er_dependencies (nd_task m) /\
    m = mkNode (moved_as (nd_task n) (nd_task m)) (nd_pipelineId n) (nd_profileId n)
          (nd_accountId n).
Proof.
  destruct before as [n|], after as [m|]; cbn [reordered]; try (split; [done|]; naive_solver).
  rewrite andb_true_iff, negb_true_iff, str_eqb_false, str_eqb_true, reorder_same.
  rewrite !canonical_texts, texts_same. naive_solver.
Qed.

Lemma length_one {A} (l : list A) : (length l =? 1)%nat = true -> exists x, l = [x].
Proof. destruct l as [|x [|? ?]]; try done. by exists x. Qed.

Lemma shape_sound before after c :
  shapeValid c = true -> semanticsValid c (nodesById before) (nodesById after) = true ->
  change_ok before after c.
Proof.
  unfold shapeValid, semanticsValid. intros Hs Hm. apply andb_prop in Hm as [Hex Hm].
  apply andb_prop in Hex as [Hb Ha].
  destruct (gc_kind c) eqn:Hk; split_bools.
  - destruct (gc_beforeTaskIds c) eqn:Eb; [|done].
    destruct (length_one (gc_afterTaskIds c)) as [a Ea]; [done|]. rewrite Ea in *. cbn in *.
    rewrite andb_true_r in *. split_bools. by eapply ok_add.
  - destruct (length_one (gc_beforeTaskIds c)) as [b Eb]; [done|]. rewrite Eb in *.
    rewrite !forallb_elem in *. cbn in Hb.
    assert (has_task before b) by (apply map_has_node, Hb; by left).
    assert (~ has_task after b) by (apply map_has_no_node, negb_true_iff, H; by left).
    eapply ok_split; try done; [by apply Nat.leb_le|]. intros a Hin. split.
    + by apply map_has_node, Ha.
    + by apply map_has_no_node, negb_true_iff, H0.
  - destruct (length_one (gc_afterTaskIds c)) as [a Ea]; [done|]. rewrite Ea in *.
    rewrite !forallb_elem in *.
    assert (has_task after a) by (apply map_has_node, Ha; by left).
    assert (~ has_task before a) by (apply map_has_no_node, negb_true_iff, H0; by left).
    eapply ok_merge; try done; [by apply Nat.leb_le|]. intros b Hin. split.
    + by apply map_has_node, Hb.
    + by apply map_has_no_node, negb_true_iff, H.
  - destruct (length_one (gc_beforeTaskIds c)) as [b Eb]; [done|].
    destruct (length_one (gc_afterTaskIds c)) as [a Ea]; [done|]. rewrite Eb, Ea in *. cbn in *.
    match goal with H : bool_decide _ = true |- _ =>
      apply bool_decide_eq_true in H; injection H as -> end.
    apply reordered_iff in Hm as (n & m & Hn & Hm & Hd & E). by eapply ok_reorder.
  - destruct (length_one (gc_beforeTaskIds c)) as [b Eb]; [done|]. rewrite Eb in *. cbn in Hb, Hm.
    rewrite ?andb_true_r in Hb. split_bools.
    destruct (gc_afterTaskIds c) as [|a [|? ?]] eqn:Ea; [| |done]; cbn in *.
    + split_bools. by eapply ok_remove.
    + rewrite ?andb_true_r in *. split_bools. apply orb_prop in Hm as [->%str_eqb_true|Hm].
      * by eapply ok_revise.
      * split_bools. by eapply ok_replace.
Qed.

Lemma change_complete before after c :
  change_ok before after c ->
  shapeValid c = true /\ semanticsValid c (nodesById before) (nodesById after) = true.
Proof.
  unfold shapeValid, semanticsValid.
  assert (forall ids, (forall a, a ∈ ids -> has_task after a) -> forallb (map_has (nodesById after)) ids = true) as Hin.
  { intros ids H. apply forallb_elem. intros x Hx. by apply map_has_node, H. }
  assert (forall dag ids, (forall a, a ∈ ids -> ~ has_task dag a) ->
    forallb (fun id => negb (map_has (nodesById dag) id)) ids = true) as Hout.
  { intros dag ids H. apply forallb_elem. intros x Hx. by apply negb_true_iff, map_has_no_node, H. }
  assert (forall ids, (forall a, a ∈ ids -> has_task before a) -> forallb (map_has (nodesById before)) ids = true) as Hin'.
  { intros ids H. apply forallb_elem. intros x Hx. by apply map_has_node, H. }
  intros [a Ek Eb Ea H1 H2|b Ek Eb Ea H1 H2 H3|a Ek Eb Ea H1 H2 H3|id n m Ek Eb Ea H1 H2 H3 H4
         |b Ek Eb Ea H1 H2|b Ek Eb Ea H1 H2|b a Ek Eb Ea H1 H2 H3 H4];
    rewrite Ek, ?Eb, ?Ea; cbn [length Nat.eqb Nat.leb andb head].
  - split; [done|]. by rewrite Hin, Hout by set_solver.
  - split; [by destruct (length (gc_afterTaskIds c)) as [|[|?]]; [lia|lia|]|]. by rewrite Hin, Hin', !Hout by set_solver.
  - split; [by destruct (length (gc_beforeTaskIds c)) as [|[|?]]; [lia|lia|]|]. by rewrite Hin, Hin', !Hout by set_solver.
  - split; [by apply bool_decide_eq_true|].
    assert (has_task before id) by (apply node_at_some; by eexists).
    assert (has_task after id) by (apply node_at_some; by eexists).
    rewrite Hin, Hin' by set_solver. apply reordered_iff. by exists n, m.
  - split; [done|]. rewrite Hin' by set_solver. by apply negb_true_iff, map_has_no_node.
  - split; [done|]. rewrite Hin, Hin' by set_solver. cbn. by rewrite str_eqb_refl.
  - split; [done|]. rewrite Hin, Hin', !Hout by set_solver. by rewrite orb_true_r.
Qed.

Lemma change_iff before after c :
  operationShapeDiagnostic c ++
  operationSemanticDiagnostics c (nodesById before) (nodesById after) = [] <->
  change_ok before after c.
Proof.
  unfold operationShapeDiagnostic, operationSemanticDiagnostics. rewrite app_nil. split.
  - destruct (shapeValid c) eqn:Es; [|by intros [? _]]. cbn [negb].
    destruct (semanticsValid _ _ _) eqn:Em; [|by intros [_ ?]]. intros _. by apply shape_sound.
  - intros H. apply change_complete in H as [-> ->]. done.
Qed.

(** ** The specification *)

Definition requirement_at (ms : list TaskRequirementMapping) (key : string)
    : option TaskRequirementMapping := map_get (mappingsByKey ms) key.

(** How many changes declare the task. *)
Definition declared (id : string) (changes : list TaskGraphChange) : nat :=
  length (List.filter (fun c => set_has (gc_beforeTaskIds c ++ gc_afterTaskIds c) id) changes).

Section Spec.
Context (context : TaskGraphRevisionValidationContext) (input : TaskGraphRevisionProposal).
Let current := cx_current context.
Let proposal := canonicalProposal input.
Let before := canonicalDag (rr_dag current).
Let after := pr_proposedDag proposal.
Let v := prepare context input.

Definition task_cancelled (id : string) : Prop :=
  exists s, map_get (stateMap (cx_taskStates context)) id = Some s /\ tp_outcome s = to_cancelled.

(** A revision triggered by a hidden dependency: it cites the finding and its
    evidence, the interrupted tasks are exactly those the finding affects as far
    as counting shows, each is cancelled and replaced, and nothing else is
    superseded. *)
Record trigger_ok (t : HiddenDependencyRevisionTrigger) (f : HiddenDependencyFinding) : Prop := {
  to_finding : cx_hiddenDependencyFinding context = Some f;
  to_matches : hf_findingId f = ht_findingId t /\ hf_runId f = pr_runId proposal /\
    hf_graphId f = pr_graphId proposal /\
    hf_graphRevision f = pr_expectedGraphRevision proposal /\
    hf_revisionSha256 f = pr_expectedRevisionSha256 proposal;
  to_count : length (ht_interruptedTaskIds t) = length (hf_affectedTaskIds f);
  to_affected : forall id, id ∈ ht_interruptedTaskIds t -> id ∈ hf_affectedTaskIds f;
  to_evidence : forall e, e ∈ hf_evidenceArtifactIds f -> e ∈ pr_evidenceArtifactIds proposal;
  to_quiesced : forall id, id ∈ ht_interruptedTaskIds t ->
    has_task before id /\ ~ has_task after id /\ task_cancelled id /\
    exists c a, c ∈ pr_changes proposal /\ gc_kind c = change_supersede /\
      gc_beforeTaskIds c = [id] /\ gc_afterTaskIds c = [a];
  to_supersedes : forall c, c ∈ pr_changes proposal -> gc_kind c = change_supersede ->
    exists id a, gc_beforeTaskIds c = [id] /\ gc_afterTaskIds c = [a] /\
      id ∈ ht_interruptedTaskIds t /\ id ∈ hf_affectedTaskIds f /\ task_cancelled id /\
      forall e, e ∈ hf_evidenceArtifactIds f -> e ∈ gc_evidenceArtifactIds c
}.

(** A task of the new graph is new, unchanged, or the next revision of itself. *)
Definition task_continues (m : TaskDagNodeV2) : Prop :=
  match node_at before (taskId m) with
  | None => er_revision (nd_task m) = 1%Z /\ er_predecessorRevisionSha256 (nd_task m) = None
  | Some n =>
      n = m \/
      er_revision (nd_task m) = (er_revision (nd_task n) + 1)%Z /\
      er_predecessorRevisionSha256 (nd_task m) = Some (er_revisionSha256 (nd_task n))
  end.

Record revision_ok : Prop := {
  ro_run : pr_runId proposal = rr_runId current;
  ro_graph : pr_graphId proposal = rr_graphId current /\ dag_graphId after = rr_graphId current;
  ro_fresh : pr_expectedGraphRevision proposal = rr_graphRevision current /\
    pr_expectedRevisionSha256 proposal = rr_revisionSha256 current;
  ro_next : dag_graphRevision after = (rr_graphRevision current + 1)%Z;
  ro_limit : (dag_graphRevision after <= cx_maxGraphRevisions context)%Z;
  ro_trigger : forall t, pr_trigger proposal = Some t -> exists f, trigger_ok t f;
  ro_baseline : dag_valid (dag_view before) /\
    states_valid (dag_view before) (cx_taskStates context);
  ro_proposed : dag_valid (dag_view after) /\ states_valid (dag_view after) (proposedStates v);
  ro_started : forall id n s, node_at before id = Some n ->
    map_get (stateMap (cx_taskStates context)) id = Some s -> tp_outcome s <> to_not_started ->
    node_at after id = Some n \/
    exists t, pr_trigger proposal = Some t /\ id ∈ ht_interruptedTaskIds t;
  ro_continues : forall m, m ∈ dag_nodes after -> task_continues m;
  ro_changes : forall c, c ∈ pr_changes proposal -> change_ok before after c;
  ro_declared : forall c id, c ∈ pr_changes proposal ->
    id ∈ gc_beforeTaskIds c ++ gc_afterTaskIds c -> node_at before id <> node_at after id;
  ro_accounted : forall id, node_at before id <> node_at after id ->
    declared id (pr_changes proposal) = 1%nat;
  ro_requirements : NoDup (map mappingKey (pr_requirementMappings proposal));
  ro_mapping : forall m, m ∈ pr_requirementMappings proposal ->
    exists m0, requirement_at (rr_requirementMappings current) (mappingKey m) = Some m0 /\
      rm_beforeTaskIds m = sort_strings (rm_afterTaskIds m0) /\
      forall id, id ∈ rm_afterTaskIds m -> has_task after id;
  ro_kept : forall m0, m0 ∈ rr_requirementMappings current ->
    mappingKey m0 ∈ map mappingKey (pr_requirementMappings proposal);
  ro_covered : forall c b key m0, c ∈ pr_changes proposal -> gc_kind c = change_supersede ->
    head (gc_beforeTaskIds c) = Some b ->
    requirement_at (rr_requirementMappings current) key = Some m0 -> b ∈ rm_afterTaskIds m0 ->
    exists m id, m ∈ pr_requirementMappings proposal /\ mappingKey m = key /\
      id ∈ rm_afterTaskIds m /\ has_task after id
}.

(** *** The groups of diagnostics *)

Lemma report_nil b code message : reportIf b code message = [] <-> b = false.
Proof. by destruct b. Qed.

Lemma identity_nil :
  identityDiagnostics v = [] <->
  pr_runId proposal = rr_runId current /\
  (pr_graphId proposal = rr_graphId current /\ dag_graphId after = rr_graphId current) /\
  (pr_expectedGraphRevision proposal = rr_graphRevision current /\
   pr_expectedRevisionSha256 proposal = rr_revisionSha256 current) /\
  dag_graphRevision after = (rr_graphRevision current + 1)%Z /\
  (dag_graphRevision after <= cx_maxGraphRevisions context)%Z.
Proof.
  unfold identityDiagnostics. rewrite !app_nil, !report_nil, !orb_false_iff, !negb_false_iff,
    !str_eqb_true, !Z.eqb_eq, Z.ltb_ge. done.
Qed.

Lemma includesAll_true values within :
  includesAll values within = true <-> forall x, x ∈ values -> x ∈ within.
Proof.
  unfold includesAll. rewrite forallb_elem. by setoid_rewrite set_has_true.
Qed.

Lemma cancelled_true id : cancelled (stateMap (cx_taskStates context)) id = true <-> task_cancelled id.
Proof.
  unfold cancelled, task_cancelled. destruct (map_get _ id) as [s|]; [|naive_solver].
  rewrite bool_decide_eq_true. naive_solver.
Qed.

Lemma supersedes_true id c :
  supersedes id c = true <->
  gc_kind c = change_supersede /\ gc_beforeTaskIds c = [id] /\ exists a, gc_afterTaskIds c = [a].
Proof.
  unfold supersedes. rewrite !andb_true_iff, !bool_decide_eq_true. split.
  - intros (((H1 & H2) & H3) & H4). apply length_one in H2 as [b Hb], H4 as [a Ha].
    rewrite Hb in H3. injection H3 as ->. naive_solver.
  - intros (H1 & H2 & a & H3). by rewrite H2, H3.
Qed.

Lemma quiesced_true id :
  quiesced v id = true <->
  has_task before id /\ ~ has_task after id /\ task_cancelled id /\
  exists c a, c ∈ pr_changes proposal /\ gc_kind c = change_supersede /\
    gc_beforeTaskIds c = [id] /\ gc_afterTaskIds c = [a].
Proof.
  unfold quiesced. rewrite !andb_true_iff, negb_true_iff, existsb_exists. cbn [v prepare va_beforeNodes va_afterNodes va_states va_proposal].
  rewrite map_has_node, map_has_no_node, cancelled_true. split.
  - intros (((Hb & Ha) & Hx) & c & Hc & Hs). apply list_elem_of_In in Hc.
    apply supersedes_true in Hs as (H1 & H2 & a & H3). naive_solver.
  - intros (Hb & Ha & Hx & c & a & Hc & H1 & H2 & H3). split_and!; try done. exists c.
    split; [by apply list_elem_of_In|]. apply supersedes_true. naive_solver.
Qed.

Lemma authorized_true t f c :
  cx_hiddenDependencyFinding context = Some f ->
  supersedeAuthorized v t c = true <->
  exists id a, gc_beforeTaskIds c = [id] /\ gc_afterTaskIds c = [a] /\
    id ∈ ht_interruptedTaskIds t /\ id ∈ hf_affectedTaskIds f /\ task_cancelled id /\
    forall e, e ∈ hf_evidenceArtifactIds f -> e ∈ gc_evidenceArtifactIds c.
Proof.
  intros Hf. unfold supersedeAuthorized. cbn [v prepare va_context va_states]. rewrite Hf.
  destruct (gc_beforeTaskIds c) as [|id [|? ?]]; [naive_solver| |naive_solver].
  rewrite !andb_true_iff, !set_has_true, cancelled_true, includesAll_true. split.
  - intros ((((H1 & ?) & ?) & ?) & ?). apply length_one in H1 as [a Ha]. by exists id, a.
  - intros (id' & a & [= ->] & -> & ?). naive_solver.
Qed.

Lemma evidence_nil t :
  evidenceDiagnostics v t = [] <->
  exists f, cx_hiddenDependencyFinding context = Some f /\
    (hf_findingId f = ht_findingId t /\ hf_runId f = pr_runId proposal /\
     hf_graphId f = pr_graphId proposal /\
     hf_graphRevision f = pr_expectedGraphRevision proposal /\
     hf_revisionSha256 f = pr_expectedRevisionSha256 proposal) /\
    length (ht_interruptedTaskIds t) = length (hf_affectedTaskIds f) /\
    (forall id, id ∈ ht_interruptedTaskIds t -> id ∈ hf_affectedTaskIds f) /\
    forall e, e ∈ hf_evidenceArtifactIds f -> e ∈ pr_evidenceArtifactIds proposal.
Proof.
  unfold evidenceDiagnostics. cbn [v prepare va_context].
  destruct (cx_hiddenDependencyFinding context) as [f|]; [|naive_solver].
  assert (triggerMatches v t f = true <->
    hf_findingId f = ht_findingId t /\ hf_runId f = pr_runId proposal /\
    hf_graphId f = pr_graphId proposal /\
    hf_graphRevision f = pr_expectedGraphRevision proposal /\
    hf_revisionSha256 f = pr_expectedRevisionSha256 proposal) as Hm.
  { unfold triggerMatches. rewrite !andb_true_iff, !str_eqb_true, Z.eqb_eq. tauto. }
  assert (triggerComplete v t f = true <->
    length (ht_interruptedTaskIds t) = length (hf_affectedTaskIds f) /\
    (forall id, id ∈ ht_interruptedTaskIds t -> id ∈ hf_affectedTaskIds f) /\
    forall e, e ∈ hf_evidenceArtifactIds f -> e ∈ pr_evidenceArtifactIds proposal) as Hc.
  { unfold triggerComplete. rewrite !andb_true_iff, !includesAll_true, Nat.eqb_eq. tauto. }
  destruct (triggerMatches v t f); cbn [negb]; [|naive_solver].
  destruct (triggerComplete v t f); cbn [negb]; naive_solver.
Qed.

Lemma if_nil_true {A} (b : bool) (x : A) : (if b then [] else [x]) = [] <-> b = true.
Proof. by destruct b. Qed.

Lemma hidden_nil :
  hiddenDiagnostics v = [] <-> forall t, pr_trigger proposal = Some t -> exists f, trigger_ok t f.
Proof.
  unfold hiddenDiagnostics. cbn [v prepare va_proposal]. fold proposal.
  destruct (pr_trigger proposal) as [t|]; [|naive_solver].
  rewrite !app_nil, evidence_nil. unfold quiescedDiagnostics, supersedeDiagnostics.
  rewrite !flat_map_nil. setoid_rewrite if_nil_true. setoid_rewrite quiesced_true.
  split.
  - intros ((f & H1 & H2 & H3 & H4 & H5) & H6 & H7) t' [= <-]. exists f. split; try done.
    intros c Hc Hk. apply (authorized_true t f c H1), H7. apply list_elem_of_In, filter_In.
    split; [by apply list_elem_of_In|by apply bool_decide_eq_true].
  - intros H. destruct (H t eq_refl) as [f Hf]. destruct Hf as [H1 H2 H3 H4 H5 H6 H7].
    split; [by exists f|]. split; [done|]. intros c [Hc Hk]%list_elem_of_In%filter_In.
    apply (authorized_true t f c H1), H7; [by apply list_elem_of_In|by apply bool_decide_eq_true in Hk].
Qed.

(** *** Tasks *)

Lemma changed_elem id : id ∈ actualChanged v <-> node_at before id <> node_at after id.
Proof.
  unfold actualChanged, changedTaskIds. rewrite elem_of_sort_strings. cbn [v prepare va_beforeDag va_proposal].
  rewrite list_elem_of_In, filter_In, <-list_elem_of_In, elem_of_set_of, elem_of_app.
  rewrite !nodesById_keys, negb_true_iff, bool_decide_eq_false, nodeText_same.
  fold (node_at (canonicalDag (rr_dag (cx_current context))) id).
  fold proposal. fold after. fold (node_at after id). fold current. fold before.
  split; [tauto|]. intros H. split; [|done].
  destruct (node_at before id) eqn:E1; [left; apply node_at_some; by eexists|].
  destruct (node_at after id) eqn:E2; [right; apply node_at_some; by eexists|done].
Qed.

Lemma removal_authorized t f id s :
  trigger_ok t f -> pr_trigger proposal = Some t -> id ∈ ht_interruptedTaskIds t ->
  map_get (stateMap (cx_taskStates context)) id = Some s ->
  authorizedInterruptedRemoval v id s = true.
Proof.
  intros Ht Hp Hid Hs. destruct (to_quiesced _ _ Ht id Hid) as (_ & Ha & (s' & Hs' & Hc) & c & a & Hin & Hk & Hb & Haf).
  rewrite Hs in Hs'. injection Hs' as <-.
  unfold authorizedInterruptedRemoval. cbn [v prepare va_afterNodes va_proposal va_context].
  fold proposal. fold after. rewrite (proj2 (map_has_no_node _ _) Ha), Hp, (to_finding _ _ Ht).
  rewrite (bool_decide_eq_true_2 _ Hc). cbn [negb andb].
  destruct (List.find (supersedes id) (pr_changes proposal)) as [d|] eqn:Ef.
  - apply find_some in Ef as [Hd Hsd]. apply list_elem_of_In in Hd.
    apply supersedes_true in Hsd as (Hkd & Hbd & _).
    destruct (to_supersedes _ _ Ht d Hd Hkd) as (id' & a' & Eb & _ & H1 & H2 & _ & H3).
    rewrite Hbd in Eb. injection Eb as <-. rewrite !andb_true_iff, !set_has_true, includesAll_true. done.
  - apply list_elem_of_In in Hin. pose proof (find_none _ _ Ef c Hin) as H.
    rewrite (proj2 (supersedes_true id c)) in H; [done|]. naive_solver.
Qed.

Lemma removal_interrupted id s :
  authorizedInterruptedRemoval v id s = true ->
  exists t, pr_trigger proposal = Some t /\ id ∈ ht_interruptedTaskIds t.
Proof.
  unfold authorizedInterruptedRemoval. cbn [v prepare va_proposal va_context]. fold proposal.
  rewrite andb_true_iff. intros [_ H]. destruct (pr_trigger proposal) as [t|]; [|done].
  exists t. split; [done|]. repeat case_match; try done.
  rewrite !andb_true_iff, set_has_true in H. tauto.
Qed.

Lemma started_nil :
  hiddenDiagnostics v = [] -> NoDup (map taskId (dag_nodes before)) ->
  startedDiagnostics v = [] <->
  forall id n s, node_at before id = Some n ->
    map_get (stateMap (cx_taskStates context)) id = Some s -> tp_outcome s <> to_not_started ->
    node_at after id = Some n \/
    exists t, pr_trigger proposal = Some t /\ id ∈ ht_interruptedTaskIds t.
Proof.
  intros Hh Hn. unfold startedDiagnostics. rewrite flat_map_nil.
  cbn [v prepare va_beforeNodes va_states va_afterNodes]. fold current before proposal after. split.
  - intros H id n s Hat Hs Ho. specialize (H (id, n) (map_get_elem _ _ _ Hat)). cbn in H.
    rewrite Hs in H. rewrite bool_decide_eq_false_2 in H by done. apply if_nil_true in H.
    apply orb_prop in H as [H%bool_decide_eq_true|H]; [left|right; by eapply removal_interrupted].
    symmetry. by apply nodeText_same.
  - intros H [id n] Hin. cbn.
    assert (node_at before id = Some n) as Hat.
    { apply elem_map_get; [|done]. apply map_of_NoDup. }
    destruct (map_get (stateMap (cx_taskStates context)) id) as [s|] eqn:Hs; [|done].
    destruct (bool_decide (tp_outcome s = to_not_started)) eqn:Ho; [done|].
    apply bool_decide_eq_false in Ho. apply if_nil_true, orb_true_iff.
    destruct (H id n s Hat Hs Ho) as [E|(t & Ht & Hid)].
    + left. apply bool_decide_eq_true, nodeText_same. done.
    + right. destruct (proj1 hidden_nil Hh t Ht) as [f Hf]. by eapply removal_authorized.
Qed.

Lemma chain_nil :
  NoDup (map taskId (dag_nodes after)) ->
  chainDiagnostics v = [] <-> forall m, m ∈ dag_nodes after -> task_continues m.
Proof.
  intros Hn. unfold chainDiagnostics. rewrite flat_map_nil.
  cbn [v prepare va_beforeNodes va_afterNodes]. fold current before proposal after.
  assert (forall m, (match map_get (nodesById before) (taskId m) with
    | None => if negb (er_revision (nd_task m) =? 1)%Z ||
                 negb (bool_decide (er_predecessorRevisionSha256 (nd_task m) = None))
              then [ diagnostic "task-graph-revision.invalid-new-task-revision"
                 ("New task " +:+ quoted (taskId m) +:+ " must start at revision 1.") [taskId m] ]
              else []
    | Some n => if bool_decide (nodeText (Some n) = nodeText (Some m)) then []
        else if negb (er_revision (nd_task m) =? er_revision (nd_task n) + 1)%Z ||
                negb (bool_decide (er_predecessorRevisionSha256 (nd_task m) =
                                   Some (er_revisionSha256 (nd_task n))))
        then [ diagnostic "task-graph-revision.invalid-task-revision-chain"
                 ("Task " +:+ quoted (taskId m) +:+ " does not continue its exact revision chain.")
                 [taskId m] ]
        else []
    end = [] <-> task_continues m)) as Hm.
  { intros m. unfold task_continues, node_at. destruct (map_get _ _) as [n|].
    - destruct (bool_decide _) eqn:E.
      + apply bool_decide_eq_true, nodeText_same in E. injection E as ->. tauto.
      + apply bool_decide_eq_false in E.
        rewrite if_nil, orb_false_iff, !negb_false_iff, Z.eqb_eq, bool_decide_eq_true.
        split; [by right|]. intros [->|H]; [done|exact H].
    - by rewrite if_nil, orb_false_iff, !negb_false_iff, Z.eqb_eq, bool_decide_eq_true. }
  split.
  - intros H m Hin. apply Hm. specialize (H (taskId m, m)). apply H, map_get_elem.
    by apply node_at_iff.
  - intros H [id m] Hin.
    assert (node_at after id = Some m) as [Hin' <-]%node_at_elem
      by (apply elem_map_get; [apply map_of_NoDup|done]).
    by apply Hm, H.
Qed.

Lemma declaredIds_elem c id : id ∈ declaredIds c <-> id ∈ gc_beforeTaskIds c ++ gc_afterTaskIds c.
Proof. apply elem_of_set_of. Qed.

Lemma changes_nil :
  changeDiagnostics v = [] <->
  (forall c, c ∈ pr_changes proposal -> change_ok before after c) /\
  forall c id, c ∈ pr_changes proposal -> id ∈ gc_beforeTaskIds c ++ gc_afterTaskIds c ->
    node_at before id <> node_at after id.
Proof.
  unfold changeDiagnostics. rewrite flat_map_nil.
  cbn [v prepare va_beforeNodes va_afterNodes va_proposal]. fold current before proposal after.
  setoid_rewrite app_assoc. setoid_rewrite app_nil. setoid_rewrite change_iff.
  setoid_rewrite flat_map_nil. setoid_rewrite if_nil_true. setoid_rewrite set_has_true.
  fold v. setoid_rewrite changed_elem. setoid_rewrite declaredIds_elem. naive_solver.
Qed.

Lemma count_ids ids (m : list (string * Z)) id :
  NoDup ids ->
  default 0%Z (map_get (fold_left (fun counts id =>
    map_set counts id (default 0 (map_get counts id) + 1)%Z) ids m) id) =
  (default 0 (map_get m id) + if set_has ids id then 1 else 0)%Z.
Proof.
  revert m. induction ids as [|x ids IH]; intros m Hn.
  { rewrite (proj2 (set_has_false [] id)) by apply not_elem_of_nil. cbn. lia. }
  apply NoDup_cons in Hn as [Hx Hn]. cbn [fold_left]. rewrite IH by done. rewrite map_get_set.
  destruct (str_eqb id x) eqn:E.
  - apply str_eqb_true in E as ->. cbn. rewrite (proj2 (set_has_false ids x)) by done.
    rewrite (proj2 (set_has_true (x :: ids) x)) by (by left). lia.
  - apply str_eqb_false in E.
    replace (set_has (x :: ids) id) with (set_has ids id); [done|].
    apply Bool.eq_iff_eq_true. rewrite !set_has_true. set_solver.
Qed.

Lemma accounted_count id :
  default 0%Z (map_get (accounted v) id) = Z.of_nat (declared id (pr_changes proposal)).
Proof.
  unfold accounted, declared. cbn [v prepare va_proposal]. fold proposal.
  replace (Z.of_nat _) with (default 0%Z (map_get ([] : list (string * Z)) id) +
    Z.of_nat (length (List.filter (fun c => set_has (gc_beforeTaskIds c ++ gc_afterTaskIds c) id)
      (pr_changes proposal))))%Z by (cbn; lia).
  generalize ([] : list (string * Z)).
  induction (pr_changes proposal) as [|c cs IH]; intros m; [cbn; lia|].
  cbn [fold_left List.filter]. rewrite IH, count_ids by apply set_of_NoDup.
  replace (set_has (declaredIds c) id) with (set_has (gc_beforeTaskIds c ++ gc_afterTaskIds c) id);
    [case_match; cbn [length]; lia|].
  apply Bool.eq_iff_eq_true. by rewrite !set_has_true, declaredIds_elem.
Qed.

Lemma account_nil :
  accountDiagnostics v = [] <->
  forall id, node_at before id <> node_at after id -> declared id (pr_changes proposal) = 1%nat.
Proof.
  unfold accountDiagnostics. rewrite flat_map_nil. setoid_rewrite changed_elem.
  setoid_rewrite if_nil_true. setoid_rewrite Z.eqb_eq. setoid_rewrite accounted_count.
  split; intros H id Hid; specialize (H id Hid); lia.
Qed.

(** *** Requirements *)

Lemma mapping_nil m :
  mappingDiagnostics v m = [] <->
  exists m0, requirement_at (rr_requirementMappings current) (mappingKey m) = Some m0 /\
    rm_beforeTaskIds m = sort_strings (rm_afterTaskIds m0) /\
    forall id, id ∈ rm_afterTaskIds m -> has_task after id.
Proof.
  unfold mappingDiagnostics, requirement_at, currentMappings. rewrite app_nil, flat_map_nil.
  cbn [v prepare va_context va_afterNodes]. fold current proposal after.
  setoid_rewrite if_nil_true. setoid_rewrite map_has_node.
  destruct (map_get _ _) as [m0|]; [|naive_solver].
  rewrite if_nil_true, str_eqb_true, texts_same. naive_solver.
Qed.

Lemma requirements_nil proposed ms :
  requirementDiagnostics v proposed ms = [] <->
  (forall m, m ∈ ms -> mappingKey m ∉ map_keys proposed) /\ NoDup (map mappingKey ms) /\
  forall m, m ∈ ms -> mappingDiagnostics v m = [].
Proof.
  revert proposed. induction ms as [|m ms IH]; intros proposed; cbn [requirementDiagnostics map].
  { split; [|done]. intros _. split; [by intros ? ?%elem_of_nil|]. split; [constructor|].
    by intros ? ?%elem_of_nil. }
  rewrite !app_nil, if_nil, map_has_false, IH, NoDup_cons. setoid_rewrite elem_of_map_keys_set.
  setoid_rewrite elem_of_cons. rewrite list_elem_of_fmap. naive_solver.
Qed.

Lemma byKey_keys ms key : key ∈ map_keys (mappingsByKey ms) <-> key ∈ map mappingKey ms.
Proof. unfold mappingsByKey. by rewrite elem_of_map_of, map_map. Qed.

Lemma requirement_at_iff ms key m :
  NoDup (map mappingKey ms) -> requirement_at ms key = Some m <-> m ∈ ms /\ mappingKey m = key.
Proof.
  intros Hn. split.
  - intros H%map_of_get_elem. by apply list_elem_of_fmap in H as (m' & [= -> ->] & Hm).
  - intros [Hm <-]. apply map_of_get; [by rewrite map_map|].
    apply list_elem_of_fmap. by exists m.
Qed.

Lemma lost_nil :
  lostDiagnostics v = [] <->
  forall m0, m0 ∈ rr_requirementMappings current ->
    mappingKey m0 ∈ map mappingKey (pr_requirementMappings proposal).
Proof.
  unfold lostDiagnostics. rewrite flat_map_nil. setoid_rewrite if_nil_true.
  setoid_rewrite map_has_keys. unfold currentMappings, proposedMappings.
  cbn [v prepare va_context va_proposal]. fold current proposal. setoid_rewrite byKey_keys.
  split; intros H.
  - intros m0 Hm. apply H, list_elem_of_fmap. by exists m0.
  - intros key (m0 & -> & Hm)%list_elem_of_fmap. by apply H.
Qed.

Lemma narrowing_nil :
  NoDup (map mappingKey (pr_requirementMappings proposal)) ->
  narrowingDiagnostics v = [] <->
  forall c b key m0, c ∈ pr_changes proposal -> gc_kind c = change_supersede ->
    head (gc_beforeTaskIds c) = Some b ->
    requirement_at (rr_requirementMappings current) key = Some m0 -> b ∈ rm_afterTaskIds m0 ->
    exists m id, m ∈ pr_requirementMappings proposal /\ mappingKey m = key /\
      id ∈ rm_afterTaskIds m /\ has_task after id.
Proof.
  intros Hn. unfold narrowingDiagnostics. rewrite flat_map_nil.
  cbn [v prepare va_proposal va_afterNodes]. fold current proposal after.
  assert (forall key, (match map_get (proposedMappings v) key with
      | None => true
      | Some m => forallb (fun id => negb (map_has (nodesById after) id)) (rm_afterTaskIds m)
      end = false) <->
    exists m id, m ∈ pr_requirementMappings proposal /\ mappingKey m = key /\
      id ∈ rm_afterTaskIds m /\ has_task after id) as Hk.
  { intros key.
    change (map_get (proposedMappings v) key) with
      (requirement_at (pr_requirementMappings proposal) key).
    destruct (requirement_at (pr_requirementMappings proposal) key) as [m|] eqn:E.
    - apply requirement_at_iff in E as [Hm <-]; [|done].
      rewrite <-not_true_iff_false, forallb_elem. split.
      + intros H. destruct (existsb (map_has (nodesById after)) (rm_afterTaskIds m)) eqn:Ex.
        * apply existsb_exists in Ex as (id & Hid & Hh). exists m, id.
          apply list_elem_of_In in Hid. apply map_has_node in Hh. done.
        * destruct H. intros id Hid. apply negb_true_iff, not_true_iff_false. intros Hh.
          apply not_true_iff_false in Ex. apply Ex, existsb_exists. exists id.
          by rewrite <-list_elem_of_In.
      + intros (m' & id & Hm' & Ek & Hid & Hh) H.
        assert (m' = m) as -> by (by eapply (NoDup_map_inj mappingKey)).
        specialize (H id Hid). apply map_has_node in Hh. by rewrite Hh in H.
    - split; [done|]. intros (m & id & Hm & <- & _).
      rewrite (proj2 (requirement_at_iff _ _ m Hn)) in E by done. done. }
  split.
  - intros H c b key m0 Hc Ek Hb Hr Hin. apply Hk.
    assert (c ∈ List.filter is_supersede (pr_changes proposal)) as Hf.
    { apply list_elem_of_In, filter_In. split; [by apply list_elem_of_In|by apply bool_decide_eq_true]. }
    specialize (H c Hf). rewrite Hb, flat_map_nil in H.
    specialize (H (key, m0) (map_get_elem _ _ _ Hr)). cbv beta iota in H.
    rewrite (proj2 (set_has_true _ _) Hin) in H. cbn [negb] in H. by apply if_nil in H.
  - intros H c [Hc Ek%bool_decide_eq_true]%list_elem_of_In%filter_In. apply list_elem_of_In in Hc.
    destruct (head (gc_beforeTaskIds c)) as [b|] eqn:Hb; [|done]. apply flat_map_nil.
    intros [key m0] Hin. destruct (set_has (rm_afterTaskIds m0) b) eqn:Hs; [|done]. cbn [negb].
    apply if_nil, Hk. apply (H c b key m0); try done; [|by apply set_has_true].
    apply elem_map_get; [apply map_of_NoDup|done].
Qed.

(** *** All of them *)

Lemma validation_diagnostics dag states r :
  validateTaskDag dag states = Some r -> tv_diagnostics r = [] <-> tv_valid r = true.
Proof.
  unfold validateTaskDag. destruct (buildTopologicalOrder _ _); [|done]. intros [= <-]. cbn.
  rewrite Nat.eqb_eq. split; [by intros ->|apply length_zero_iff_nil].
Qed.

Lemma validation_valid dag states r :
  validateTaskDag dag states = Some r ->
  tv_valid r = true <-> dag_valid dag /\ states_ok dag states.
Proof. intros H. destruct (validate_outcome dag states) as (r' & E & Hv & _). congruence. Qed.

Lemma revision_diagnostics_nil baseline proposed :
  validateTaskDag (dag_view before) (Some (cx_taskStates context)) = Some baseline ->
  validateTaskDag (dag_view after) (Some (proposedStates v)) = Some proposed ->
  revisionDiagnostics v baseline proposed = [] <-> revision_ok.
Proof.
  intros Hb Hp. unfold revisionDiagnostics. rewrite !app_nil, report_nil, negb_false_iff.
  rewrite (validation_diagnostics _ _ _ Hp), (validation_valid _ _ _ Hb), (validation_valid _ _ _ Hp).
  cbn [states_ok]. rewrite requirements_nil, identity_nil, changes_nil, account_nil, lost_nil. split.
  - intros (H1 & (I1 & I2 & I3 & I4 & I5) & H3 & H4 & H5 & H6 & [H7 H8] & H9 & (_ & H10 & H11) & H12 & H13).
    pose proof (valid_ids _ (proj1 H3)) as Nb. pose proof (valid_ids _ (proj1 H4)) as Na.
    pose proof (proj1 (started_nil H1 Nb) H5) as S5. pose proof (proj1 (chain_nil Na) H6) as S6.
    pose proof (proj1 (narrowing_nil H10) H13) as S13. pose proof (proj1 hidden_nil H1) as S1.
    constructor; try done. intros m Hm. by apply mapping_nil, H11.
  - intros [R1 R2 R3 R4 R5 R6 R7 R8 R9 R10 R11 R12 R13 R14 R15 R16 R17].
    pose proof (valid_ids _ (proj1 R7)) as Nb. pose proof (valid_ids _ (proj1 R8)) as Na.
    apply hidden_nil in R6. destruct R2, R3, R7, R8. split_and!; try done.
    + by apply (started_nil R6 Nb).
    + by apply (chain_nil Na).
    + intros m _. apply not_elem_of_nil.
    + intros m Hm. by apply mapping_nil, R15.
    + by apply (narrowing_nil R14).
Qed.
End Spec.
