(* ===== verification/ReviseProps.v ===== *)
(** * Task-graph revisions: the claims

    The structural waves, the exact conditions under which a revision is
    accepted, what a history of accepted revisions guarantees, and that the
    decision does not depend on how a proposal is written down. *)

From Stdlib Require Import Sorted Ascii.
From stdpp Require Import gmap.
From S2P Require Import Prelude Ids SignatureProps StateJsonProps Writers Recovery TaskDag TaskOrder TaskValid TaskProps Revise ReviseText ReviseSpec.

Local Open Scope Z_scope.

(** ** The structural waves of a task graph

    [computeWaves]: every task of a valid graph is in exactly one wave, right
    after the latest of its dependencies. *)

(** ** Wave numbers *)

Section Ordinals.
Context (dag : TaskDagV2).

Definition deps_of (id : string) : list string :=
  match node_at dag id with Some n => er_dependencies (nd_task n) | None => [] end.

Definition wave (ordinal : list (string * Z)) (id : string) : Z := default 0 (map_get ordinal id).

Lemma waveOf_bounds ordinal deps :
  1 <= waveOf ordinal deps /\
  (forall d, d ∈ deps -> wave ordinal d < waveOf ordinal deps) /\
  (waveOf ordinal deps = 1 \/ exists d, d ∈ deps /\ waveOf ordinal deps = wave ordinal d + 1).
Proof.
  unfold waveOf.
  assert (forall m, m <= fold_left (fun m d => Z.max m (wave ordinal d)) deps m /\
    (forall d, d ∈ deps -> wave ordinal d <= fold_left (fun m d => Z.max m (wave ordinal d)) deps m) /\
    (fold_left (fun m d => Z.max m (wave ordinal d)) deps m = m \/
     exists d, d ∈ deps /\ fold_left (fun m d => Z.max m (wave ordinal d)) deps m = wave ordinal d)) as H.
  { induction deps as [|d deps IH]; intros m; cbn [fold_left].
    - split; [lia|]. split; [by intros ? ?%elem_of_nil|by left].
    - destruct (IH (Z.max m (wave ordinal d))) as (H1 & H2 & H3). split; [lia|]. split.
      + intros x [->|Hx]%elem_of_cons; [lia|auto].
      + destruct H3 as [H3|(x & Hx & H3)]; [|right; exists x; split; [by right|done]].
        destruct (Z.max_spec m (wave ordinal d)) as [[_ E]|[_ E]]; rewrite E in H3 |- *;
          [right; exists d; split; [by left|done]|by left]. }
  unfold wave in *. destruct (H 0) as (H1 & H2 & H3). split; [lia|]. split.
  - intros d Hd. specialize (H2 d Hd). lia.
  - destruct H3 as [H3|(d & Hd & H3)]; [left|right; exists d; split; [done|]]; lia.
Qed.

(** What the loop knows after the tasks [done]. *)
Record ordinals_ok (seen : list string) (ordinal : list (string * Z)) : Prop := {
  oi_keys : map_keys ordinal = seen;
  oi_wave : forall t, t ∈ seen ->
    1 <= wave ordinal t /\ (forall d, d ∈ deps_of t -> d ∈ seen /\ wave ordinal d < wave ordinal t) /\
    (wave ordinal t = 1 \/ exists d, d ∈ deps_of t /\ wave ordinal t = wave ordinal d + 1)
}.

Lemma ordinals_step seen ordinal t :
  ordinals_ok seen ordinal -> t ∉ seen -> (forall d, d ∈ deps_of t -> d ∈ seen) ->
  ordinals_ok (seen ++ [t]) (map_set ordinal t (waveOf ordinal (deps_of t))).
Proof.
  intros [Hk Hw] Ht Hd.
  assert (wave (map_set ordinal t (waveOf ordinal (deps_of t))) t = waveOf ordinal (deps_of t)) as Et
    by (unfold wave; by rewrite map_get_set_eq).
  assert (forall x, x ∈ seen ->
    wave (map_set ordinal t (waveOf ordinal (deps_of t))) x = wave ordinal x) as Ex.
  { intros x Hx. unfold wave. rewrite map_get_set_ne; [done|]. by intros ->. }
  split.
  - rewrite map_keys_set_out; [by rewrite Hk|by rewrite Hk].
  - intros x [Hx| ->%list_elem_of_singleton]%elem_of_app.
    + destruct (Hw x Hx) as (H1 & H2 & H3). rewrite (Ex x Hx). split; [done|]. split.
      * intros d Hin. destruct (H2 d Hin) as [Hs Hlt]. rewrite (Ex d Hs). split; [set_solver|done].
      * destruct H3 as [H3|(d & Hin & H3)]; [by left|right]. exists d.
        by rewrite (Ex d (proj1 (H2 d Hin))).
    + rewrite Et. destruct (waveOf_bounds ordinal (deps_of t)) as (H1 & H2 & H3). split; [done|]. split.
      * intros d Hin. rewrite (Ex d (Hd d Hin)). split; [set_solver|auto].
      * destruct H3 as [H3|(d & Hin & H3)]; [by left|right]. exists d. by rewrite (Ex d (Hd d Hin)).
Qed.

Lemma waveOrdinals_ok order :
  NoDup order -> (forall l1 t l2 d, order = l1 ++ t :: l2 -> d ∈ deps_of t -> d ∈ l1) ->
  ordinals_ok order (waveOrdinals (nodesById dag) order).
Proof.
  intros Hn Hd. unfold waveOrdinals.
  assert (forall seen rest ordinal, order = seen ++ rest -> ordinals_ok seen ordinal ->
    ordinals_ok order (fold_left (fun ordinal id =>
      map_set ordinal id (waveOf ordinal (deps_of id))) rest ordinal)) as H.
  { intros seen rest. revert seen. induction rest as [|t rest IH]; intros seen ordinal E Hs; cbn [fold_left].
    - by rewrite E, app_nil_r.
    - apply (IH (seen ++ [t])); [by rewrite <-app_assoc|]. apply ordinals_step; [done| |].
      + rewrite E in Hn. apply NoDup_app in Hn as (_ & Hx & _). intros Hin.
        apply (Hx t Hin). by left.
      + intros d. by apply (Hd seen t rest). }
  apply (H []); [done|]. split; [done|]. by intros t ?%elem_of_nil.
Qed.
End Ordinals.

(** ** Grouping *)

Definition in_group (g : list (Z * list string)) (w : Z) (t : string) : Prop :=
  exists ids, (w, ids) ∈ g /\ t ∈ ids.

Record groups_ok (g : list (Z * list string)) (ordinal : list (string * Z)) : Prop := {
  gi_unique : NoDup (map fst g);
  gi_nonempty : forall w ids, (w, ids) ∈ g -> ids <> [];
  gi_all : concat (map snd g) ≡ₚ map_keys ordinal;
  gi_wave : forall w t, in_group g w t <-> (t, w) ∈ ordinal
}.

Lemma addToWave_fst g w t x : x ∈ map fst (addToWave g w t) <-> x = w \/ x ∈ map fst g.
Proof.
  induction g as [|[w' ids] g IH]; cbn; [set_solver|].
  destruct (Z.eqb_spec w' w) as [->|]; cbn; [set_solver|]. rewrite !elem_of_cons, IH. tauto.
Qed.

Lemma addToWave_NoDup g w t : NoDup (map fst g) -> NoDup (map fst (addToWave g w t)).
Proof.
  induction g as [|[w' ids] g IH]; cbn; [intros _; apply NoDup_singleton|].
  intros [H1 H2]%NoDup_cons. destruct (Z.eqb_spec w' w) as [->|Hne]; cbn; apply NoDup_cons; split; try done.
  - rewrite addToWave_fst. intros [->|?]; done.
  - by apply IH.
Qed.

Lemma addToWave_concat g w t : concat (map snd (addToWave g w t)) ≡ₚ concat (map snd g) ++ [t].
Proof.
  induction g as [|[w' ids] g IH]; cbn; [done|].
  destruct (w' =? w); cbn; [|rewrite IH; by rewrite app_assoc].
  rewrite <-!app_assoc. f_equiv. apply Permutation_app_comm.
Qed.

Lemma addToWave_nonempty g w t :
  (forall w ids, (w, ids) ∈ g -> ids <> []) -> forall w' ids, (w', ids) ∈ addToWave g w t -> ids <> [].
Proof.
  induction g as [|[x xs] g IH]; cbn; intros Hg w' ids.
  - by intros [= -> ->]%list_elem_of_singleton.
  - destruct (x =? w); intros [[= -> ->]|H]%elem_of_cons.
    + by destruct xs.
    + apply (Hg w'). by right.
    + apply (Hg x). by left.
    + apply (IH (fun w ids Hin => Hg w ids (proj2 (elem_of_cons _ _ _) (or_intror Hin))) w' ids H).
Qed.

Lemma in_group_cons w ids g w' t :
  in_group ((w, ids) :: g) w' t <-> (w' = w /\ t ∈ ids) \/ in_group g w' t.
Proof.
  unfold in_group. setoid_rewrite elem_of_cons. split.
  - intros (l & [[= -> ->]|H] & Ht); [by left|right; by exists l].
  - intros [[-> Ht]|(l & H & Ht)]; [exists ids; by split; [left|]|exists l; by split; [right|]].
Qed.

Lemma addToWave_in g w t w' t' :
  in_group (addToWave g w t) w' t' <-> in_group g w' t' \/ (w' = w /\ t' = t).
Proof.
  induction g as [|[x xs] g IH]; cbn [addToWave].
  - rewrite in_group_cons, list_elem_of_singleton. unfold in_group. set_solver.
  - destruct (Z.eqb_spec x w) as [->|]; rewrite !in_group_cons, ?IH, ?elem_of_app,
      ?list_elem_of_singleton; tauto.
Qed.

Lemma groupWaves_ok ordinal : groups_ok (groupWaves ordinal) ordinal.
Proof.
  unfold groupWaves.
  assert (forall g done rest, ordinal = done ++ rest -> groups_ok g done ->
    groups_ok (fold_left (fun g e => addToWave g (snd e) (fst e)) rest g) ordinal) as H.
  { intros g done rest. revert g done. induction rest as [|[t w] rest IH]; intros g done E Hg; cbn [fold_left].
    - by rewrite E, app_nil_r.
    - apply (IH _ (done ++ [(t, w)])); [by rewrite <-app_assoc|]. destruct Hg as [H1 H2 H3 H4]. split.
      + by apply addToWave_NoDup.
      + by apply addToWave_nonempty.
      + rewrite addToWave_concat, H3. unfold map_keys. by rewrite map_app.
      + intros w' t'. rewrite addToWave_in, H4, elem_of_app, list_elem_of_singleton. cbn. naive_solver. }
  apply (H [] []); [done|]. split; [constructor|by intros ? ? ?%elem_of_nil|done|].
  intros w t. unfold in_group. set_solver.
Qed.

Local Open Scope Z_scope.

(** ** Waves *)

Definition in_wave (waves : list TaskStructuralWave) (w : Z) (t : string) : Prop :=
  exists x, x ∈ waves /\ sw_ordinal x = w /\ t ∈ sw_taskIds x.

Lemma deps_requires dag n d :
  dag_valid (dag_view dag) -> n ∈ dag_nodes dag ->
  d ∈ deps_of dag (taskId n) <-> requires (dag_view dag) d (taskId n).
Proof.
  intros Hv Hn. pose proof (valid_ids _ Hv) as Hids. unfold deps_of, requires.
  rewrite (proj2 (node_at_iff _ _ n Hids)) by done. cbn [dag_view td_nodes]. split.
  - intros Hd. exists (node_view n). split; [apply list_elem_of_fmap; by exists n|done].
  - intros (x & (m & -> & Hm)%list_elem_of_fmap & E & Hd).
    assert (m = n) as -> by (by eapply (NoDup_map_inj taskId)). done.
Qed.

Lemma waves_sorted (g : list (Z * list string)) :
  NoDup (map fst g) -> StronglySorted Z.lt (map fst (sort_by wave_lt g)).
Proof.
  intros Hn. assert (NoDup (map fst (sort_by wave_lt g))) as Hn' by (by rewrite sort_by_perm).
  assert (StronglySorted (not_after wave_lt) (sort_by wave_lt g)) as Hs.
  { apply sort_by_sorted; unfold wave_lt; intros *; rewrite ?Z.ltb_lt, ?Z.ltb_ge; lia. }
  revert Hn' Hs. generalize (sort_by wave_lt g). induction l as [|x l IH]; cbn; [constructor|].
  intros [Hx Hl]%NoDup_cons [Hs Hf]%StronglySorted_inv. constructor; [by apply IH|].
  apply Forall_forall. intros w (y & -> & Hy)%list_elem_of_fmap. rewrite Forall_forall in Hf.
  specialize (Hf y Hy). unfold not_after, wave_lt in Hf. apply Z.ltb_ge in Hf.
  assert (fst x <> fst y); [|lia]. intros E. apply Hx. rewrite E. apply list_elem_of_fmap. by exists y.
Qed.

Lemma concat_map_perm {A} (f g : A -> list string) l :
  (forall x, f x ≡ₚ g x) -> concat (map f l) ≡ₚ concat (map g l).
Proof. intros H. induction l as [|x l IH]; cbn; [done|]. by rewrite H, IH. Qed.

Definition to_wave (g : Z * list string) : TaskStructuralWave := mkWave (fst g) (sort_strings (snd g)).

Lemma in_wave_group g w t :
  in_wave (map to_wave (sort_by wave_lt g)) w t <-> in_group g w t.
Proof.
  unfold in_wave, in_group. split.
  - intros (x & (e & -> & He)%list_elem_of_fmap & <- & Ht). exists (snd e).
    rewrite elem_of_sort_by in He. destruct e. by rewrite <-elem_of_sort_strings.
  - intros (ids & Hin & Ht). exists (to_wave (w, ids)). split; [|split; [done|by apply elem_of_sort_strings]].
    apply list_elem_of_fmap. exists (w, ids). by rewrite elem_of_sort_by.
Qed.

Lemma wave_get ordinal t : t ∈ map_keys ordinal -> (t, wave ordinal t) ∈ ordinal.
Proof.
  intros (w & H)%map_get_keys. unfold wave. rewrite H. by apply map_get_elem.
Qed.

(** The waves of a valid graph, from its order. *)
Lemma waves_of_order dag order :
  dag_valid (dag_view dag) -> dependency_order (dag_view dag) order ->
  let waves := map to_wave (sort_by wave_lt (groupWaves (waveOrdinals (nodesById dag) order))) in
  StronglySorted Z.lt (map sw_ordinal waves) /\
  concat (map sw_taskIds waves) ≡ₚ map taskId (dag_nodes dag) /\
  (forall x, x ∈ waves -> sw_taskIds x <> []) /\
  forall n, n ∈ dag_nodes dag -> exists w, 1 <= w /\ in_wave waves w (taskId n) /\
    (forall d, d ∈ er_dependencies (nd_task n) -> exists w', in_wave waves w' d /\ w' < w) /\
    (w = 1 \/ exists d, d ∈ er_dependencies (nd_task n) /\ in_wave waves (w - 1) d).
Proof.
  intros Hv [Hperm Hord] waves. pose proof (valid_ids _ Hv) as Hids. rewrite view_ids in Hperm.
  assert (NoDup order) as Hno by (by rewrite Hperm).
  assert (forall l1 t l2 d, order = l1 ++ t :: l2 -> d ∈ deps_of dag t -> d ∈ l1) as Hdeps.
  { intros l1 t l2 d E Hd.
    assert (t ∈ map taskId (dag_nodes dag)) as (n & -> & Hn)%list_elem_of_fmap
      by (rewrite <-Hperm, E; set_solver).
    apply (Hord l1 (taskId n) l2 d E). by apply deps_requires. }
  destruct (waveOrdinals_ok dag order Hno Hdeps) as [Hk Hw].
  remember (waveOrdinals (nodesById dag) order) as ordinal eqn:Eo.
  destruct (groupWaves_ok ordinal) as [G1 G2 G3 G4]. split_and!.
  - unfold waves. rewrite map_map. cbn. by apply waves_sorted.
  - unfold waves. rewrite map_map. etransitivity; [apply (concat_map_perm _ snd)|].
    + intros x. apply sort_key_perm.
    + rewrite <-Hperm, <-Hk, <-G3. by rewrite sort_by_perm.
  - unfold waves. intros x ([w ids] & -> & Hx%elem_of_sort_by)%list_elem_of_fmap.
    cbn [to_wave sw_taskIds snd]. intros E. apply (G2 w ids Hx), Permutation_nil.
    rewrite <-E. apply sort_key_perm.
  - intros n Hn. assert (taskId n ∈ order) as Ht.
    { rewrite Hperm. apply list_elem_of_fmap. by exists n. }
    destruct (Hw _ Ht) as (H1 & H2 & H3).
    assert (deps_of dag (taskId n) = er_dependencies (nd_task n)) as Ed.
    { unfold deps_of. by rewrite (proj2 (node_at_iff _ _ n Hids)). }
    rewrite Ed in H2, H3. exists (wave ordinal (taskId n)). split; [done|].
    assert (forall t, t ∈ order -> in_wave waves (wave ordinal t) t) as Hin.
    { intros t Hin. unfold waves. rewrite in_wave_group, G4. apply wave_get. by rewrite Hk. }
    split; [by apply Hin|]. split.
    + intros d Hd. destruct (H2 d Hd) as [Hs Hlt]. exists (wave ordinal d). split; [by apply Hin|done].
    + destruct H3 as [H3|(d & Hd & H3)]; [by left|right]. exists d. split; [done|].
      replace (wave ordinal (taskId n) - 1) with (wave ordinal d) by lia. apply Hin, H2, Hd.
Qed.

(** The waves of a task graph are its levels. Computing them always ends; an
    invalid graph has none. In a valid graph the wave numbers increase, no wave
    is empty, every task is in exactly one wave, all its dependencies are in
    earlier ones, and a task that is not in wave 1 has a dependency in the wave
    right before its own. *)
Theorem waves_exact dag :
  exists waves, computeWaves dag = Some waves /\
    (~ dag_valid (dag_view dag) -> waves = []) /\
    (dag_valid (dag_view dag) ->
      StronglySorted Z.lt (map sw_ordinal waves) /\
      concat (map sw_taskIds waves) ≡ₚ map taskId (dag_nodes dag) /\
      NoDup (map taskId (dag_nodes dag)) /\
      (forall x, x ∈ waves -> sw_taskIds x <> []) /\
      forall n, n ∈ dag_nodes dag -> exists w, 1 <= w /\ in_wave waves w (taskId n) /\
        (forall d, d ∈ er_dependencies (nd_task n) -> exists w', in_wave waves w' d /\ w' < w) /\
        (w = 1 \/ exists d, d ∈ er_dependencies (nd_task n) /\ in_wave waves (w - 1) d)).
Proof.
  unfold computeWaves. destruct (validate_outcome (dag_view dag) None) as (r & -> & Hv & Ho).
  destruct (tv_valid r); cbn [negb].
  - assert (dag_valid (dag_view dag)) as Hd by (by apply Hv).
    eexists. split; [done|]. split; [done|]. intros _.
    destruct (waves_of_order dag (tv_topologicalOrder r) Hd (Ho eq_refl)) as (H1 & H2 & H3 & H4).
    split_and!; try done. by apply valid_ids.
  - exists []. split; [done|]. split; [done|]. intros Hd.
    assert (false = true) by (by apply Hv; split). done.
Qed.

(** ** Acceptance *)

(** The record of an accepted proposal. *)
Definition successor `{Sha256} (context : TaskGraphRevisionValidationContext)
    (input : TaskGraphRevisionProposal) : TaskGraphRevisionRecord :=
  let p := canonicalProposal input in
  sealed (pr_runId p) (pr_graphId p) (dag_graphRevision (pr_proposedDag p))
    (Some (rr_revisionSha256 (cx_current context))) (pr_proposedDag p) (pr_changes p)
    (pr_requirementMappings p) (pr_rationale p) (pr_evidenceArtifactIds p)
    (Some (cx_decisionId context)) (cx_decidedAt context) (pr_trigger p).

Section Acceptance.
Context `{Sha256}.

Lemma computeWaves_total dag : is_Some (computeWaves dag).
Proof.
  unfold computeWaves. destruct (validate_outcome (dag_view dag) None) as (r & -> & _).
  by destruct (negb _).
Qed.

Lemma validate_eq context input :
  exists baseline proposed beforeWaves afterWaves,
    validateTaskDag (dag_view (canonicalDag (rr_dag (cx_current context))))
      (Some (cx_taskStates context)) = Some baseline /\
    validateTaskDag (dag_view (canonicalDag (pr_proposedDag input)))
      (Some (proposedStates (prepare context input))) = Some proposed /\
    validateTaskGraphRevision context input = Some (revisionOutcome (prepare context input)
      (sort_key diagnostic_key (revisionDiagnostics (prepare context input) baseline proposed))
      beforeWaves afterWaves).
Proof.
  destruct (validate_outcome (dag_view (canonicalDag (rr_dag (cx_current context))))
    (Some (cx_taskStates context))) as (baseline & E1 & _).
  destruct (validate_outcome (dag_view (canonicalDag (pr_proposedDag input)))
    (Some (proposedStates (prepare context input)))) as (proposed & E2 & _).
  destruct (computeWaves_total (canonicalDag (rr_dag (cx_current context)))) as [w1 E3].
  destruct (computeWaves_total (canonicalDag (pr_proposedDag input))) as [w2 E4].
  exists baseline, proposed, w1, w2. split; [done|]. split; [done|].
  unfold validateTaskGraphRevision. cbn [prepare va_beforeDag va_proposal canonicalProposal pr_proposedDag].
  by rewrite E1, E2, E3, E4.
Qed.

Lemma sorted_diagnostics_nil ds :
  (length (sort_key diagnostic_key ds) =? 0)%nat = true <-> ds = [].
Proof. apply sort_by_nil. Qed.

Lemma accepted_spec context input o :
  validateTaskGraphRevision context input = Some o ->
  (dn_accepted (oc_decision o) = true <-> revision_ok context input) /\
  (dn_diagnostics (oc_decision o) = [] <-> revision_ok context input) /\
  (forall r, oc_record o = Some r <-> revision_ok context input /\ r = successor context input).
Proof.
  destruct (validate_eq context input) as (b & p & w1 & w2 & E1 & E2 & E). rewrite E.
  intros [= <-]. pose proof (revision_diagnostics_nil context input b p E1 E2) as Hnil.
  cbn [revisionOutcome oc_decision oc_record dn_accepted dn_diagnostics].
  rewrite sorted_diagnostics_nil, Hnil. split; [done|]. split.
  { rewrite <-Hnil, <-(sorted_diagnostics_nil (revisionDiagnostics _ b p)), Nat.eqb_eq.
    symmetry. apply length_zero_iff_nil. }
  intros r. destruct (length _ =? 0)%nat eqn:Ed.
  - apply sorted_diagnostics_nil, Hnil in Ed. split.
    + intros [= <-]. split; done.
    + intros [_ ->]. done.
  - split; [done|]. intros [Hok _]. apply Hnil, sorted_diagnostics_nil in Hok. congruence.
Qed.

(** C21: A proposed revision is accepted exactly when it is acceptable. Validation
    always returns a decision. It accepts the proposal, without diagnostics and
    with a record, exactly when the proposal is for the current revision of the
    same run and graph and advances it by one within the limit; both graphs are
    valid with their task states; started tasks are kept and the others continue
    their own revisions; every change describes a mutation between the two
    graphs, all changes are declared, once, and nothing else is; the requirements
    are those of the current revision, cite their tasks and are mapped to tasks
    of the new graph; and a hidden dependency, if it is the reason, is backed by
    its finding. The record holds the proposal in canonical form, linked to its
    predecessor by its hash. *)
Theorem revision_accepted_iff context input :
  exists o, validateTaskGraphRevision context input = Some o /\
    (dn_accepted (oc_decision o) = true <-> revision_ok context input) /\
    (dn_diagnostics (oc_decision o) = [] <-> revision_ok context input) /\
    forall r, oc_record o = Some r <-> revision_ok context input /\ r = successor context input.
Proof.
  destruct (validate_eq context input) as (b & p & w1 & w2 & _ & _ & E). rewrite E.
  eexists. split; [done|]. by apply accepted_spec.
Qed.

(** ** Histories *)

(** The revisions of a graph, the latest first. *)
Inductive history : list TaskGraphRevisionRecord -> Prop :=
| history_first input r :
    createInitialTaskGraphRevision input = Some (inr r) -> history [r]
| history_next context input o r rs :
    history (cx_current context :: rs) -> validateTaskGraphRevision context input = Some o ->
    oc_record o = Some r -> history (r :: cx_current context :: rs).

(** What every revision satisfies by itself. *)
Record record_ok (r : TaskGraphRevisionRecord) : Prop := {
  rk_valid : dag_valid (dag_view (rr_dag r));
  rk_canonical : canonicalDag (rr_dag r) = rr_dag r;
  rk_identity : dag_graphId (rr_dag r) = rr_graphId r /\
    dag_graphRevision (rr_dag r) = rr_graphRevision r;
  rk_requirements : rr_requirementMappings r <> [];
  rk_targets : forall m id, m ∈ rr_requirementMappings r -> id ∈ rm_afterTaskIds m ->
    has_task (rr_dag r) id;
  rk_hash : rr_revisionSha256 r = taskGraphRevisionSha256 (core_json (rr_runId r) (rr_graphId r)
    (rr_graphRevision r) (rr_predecessorRevisionSha256 r) (rr_dag r) (rr_changes r)
    (rr_requirementMappings r) (rr_rationale r) (rr_evidenceArtifactIds r) (rr_decisionId r)
    (rr_committedAt r) (rr_trigger r))
}.

(** How a revision follows another. *)
Record follows (r r0 : TaskGraphRevisionRecord) : Prop := {
  fo_run : rr_runId r = rr_runId r0;
  fo_graph : rr_graphId r = rr_graphId r0;
  fo_revision : rr_graphRevision r = rr_graphRevision r0 + 1;
  fo_predecessor : rr_predecessorRevisionSha256 r = Some (rr_revisionSha256 r0);
  fo_requirements : forall key,
    key ∈ map mappingKey (rr_requirementMappings r) <->
    key ∈ map mappingKey (rr_requirementMappings r0);
  fo_mapping : forall m, m ∈ rr_requirementMappings r ->
    exists m0, requirement_at (rr_requirementMappings r0) (mappingKey m) = Some m0 /\
      rm_beforeTaskIds m ≡ₚ rm_afterTaskIds m0
}.

Fixpoint linked (rs : list TaskGraphRevisionRecord) : Prop :=
  match rs with
  | [] => True
  | r :: rest =>
      match rest with
      | [] => rr_graphRevision r = 1 /\ rr_predecessorRevisionSha256 r = None
      | r0 :: _ => follows r r0
      end /\ linked rest
  end.

Lemma sort_key_idem {A} (key : A -> string) l : sort_key key (sort_key key l) = sort_key key l.
Proof. apply sort_by_id, sort_key_sorted. Qed.

Lemma canonicalNode_idem n : canonicalNode (canonicalNode n) = canonicalNode n.
Proof.
  cbv [canonicalNode nd_task nd_pipelineId nd_profileId nd_accountId er_taskId er_revision
    er_revisionSha256 er_predecessorRevisionSha256 er_analysisPacketId er_analysisPacketSha256
    er_objective er_rationale er_primaryRepositoryId er_readSet er_writeSet
    er_excludedRepositories er_dependencies er_artifacts er_verification er_createdAt sort_strings].
  by rewrite !sort_key_idem.
Qed.

Lemma canonicalDag_idem d : canonicalDag (canonicalDag d) = canonicalDag d.
Proof.
  unfold canonicalDag. cbn [dag_nodes dag_graphId dag_graphRevision dag_createdAt]. f_equal.
  rewrite <-(sort_key_idem node_key (map canonicalNode (dag_nodes d))) at 2. f_equal.
  rewrite <-(map_id (sort_key node_key _)) at 2. apply map_ext_in.
  intros n Hn. apply list_elem_of_In in Hn. rewrite elem_of_sort_key in Hn.
  apply list_elem_of_fmap in Hn as (m & -> & _). apply canonicalNode_idem.
Qed.
Lemma has_task_elem dag id : has_task dag id <-> exists n, n ∈ dag_nodes dag /\ taskId n = id.
Proof.
  unfold has_task. rewrite list_elem_of_fmap. split; intros (n & H1 & H2); by exists n.
Qed.

Lemma initial_ok input r :
  createInitialTaskGraphRevision input = Some (inr r) ->
  record_ok r /\ rr_graphRevision r = 1 /\ rr_predecessorRevisionSha256 r = None.
Proof.
  unfold createInitialTaskGraphRevision.
  destruct (dag_graphRevision (canonicalDag (ir_dag input)) =? 1) eqn:Er; [|done]. cbn [negb].
  destruct (validate_outcome (dag_view (canonicalDag (ir_dag input))) None) as (v & -> & Hv & _).
  destruct (tv_valid v); [|done]. cbn [negb].
  destruct (_ || _) eqn:Em; [done|]. apply orb_false_iff in Em as [Em _].
  destruct (existsb _ _) eqn:Ex; [done|]. intros [= <-].
  split; [|done]. apply Z.eqb_eq in Er. constructor; cbn [sealed rr_dag rr_graphId rr_graphRevision rr_requirementMappings]; try done.
  - by apply Hv.
  - apply canonicalDag_idem.
  - intros E. by rewrite E in Em.
  - intros m id Hm Hid. destruct (decide (has_task (canonicalDag (ir_dag input)) id)) as [|Hno]; [done|].
    rewrite <-not_true_iff_false in Ex. destruct Ex. apply existsb_exists. exists m.
    split; [by apply list_elem_of_In|]. apply existsb_exists. exists id.
    split; [by apply list_elem_of_In|]. apply negb_true_iff, set_has_false. by rewrite elem_of_set_of.
Qed.

Lemma requirement_at_elem ms key m :
  requirement_at ms key = Some m -> m ∈ ms /\ mappingKey m = key.
Proof.
  intros E%map_of_get_elem. by apply list_elem_of_fmap in E as (m' & [= -> ->] & Hm).
Qed.

Lemma successor_ok context input :
  record_ok (cx_current context) -> revision_ok context input ->
  record_ok (successor context input) /\ follows (successor context input) (cx_current context).
Proof.
  intros Hr Hok. pose proof (ro_next _ _ Hok) as Hnext.
  split; constructor; unfold successor;
    cbn [sealed rr_dag rr_graphId rr_runId rr_graphRevision rr_requirementMappings
      rr_predecessorRevisionSha256]; try done.
  - apply Hok.
  - apply canonicalDag_idem.
  - split; [|done]. pose proof (ro_graph _ _ Hok). naive_solver congruence.
  - intros E. apply (rk_requirements _ Hr). destruct (rr_requirementMappings (cx_current context)) as [|m ms] eqn:Em; [done|].
    pose proof (ro_kept _ _ Hok m) as Hk. rewrite Em, E in Hk. specialize (Hk ltac:(by left)).
    by apply elem_of_nil in Hk.
  - intros m id Hm Hid. destruct (ro_mapping _ _ Hok m Hm) as (m0 & _ & _ & Ht). by apply Ht.
  - apply Hok.
  - apply Hok.
  - intros key. split.
    + intros (m & -> & Hm)%list_elem_of_fmap. destruct (ro_mapping _ _ Hok m Hm) as (m0 & E & _ & _).
      apply requirement_at_elem in E as [Hm0 <-]. apply list_elem_of_fmap. by exists m0.
    + intros (m0 & -> & Hm0)%list_elem_of_fmap. by apply (ro_kept _ _ Hok).
  - intros m Hm. destruct (ro_mapping _ _ Hok m Hm) as (m0 & E & Eb & _). exists m0.
    split; [done|]. rewrite Eb. apply sort_key_perm.
Qed.

Lemma history_ok rs : history rs -> Forall record_ok rs /\ linked rs /\
  match rs with r :: _ => rr_graphRevision r = Z.of_nat (length rs) | [] => True end.
Proof.
  induction 1 as [input r Hi|context input o r rs Hh [Hall [Hl Hn]] Hv Ho].
  - apply initial_ok in Hi as (H1 & H2 & H3). split; [by constructor|]. done.
  - apply (accepted_spec _ _ _ Hv) in Ho as [Hok ->]. apply Forall_cons in Hall as [Hc Hall].
    destruct (successor_ok context input Hc Hok) as [H1 H2]. split; [constructor; [done|by constructor]|].
    split; [done|]. rewrite (fo_revision _ _ H2), Hn. cbn [length]. lia.
Qed.

(** C22: A history of revisions is sound. Start with any first revision that is
    created and continue with any accepted proposals: every revision holds a
    valid graph in canonical form, carries the hash of its contents, and maps
    each of its requirements only to tasks of its graph. Revision n is the n-th,
    names the hash of the one before it, is for the same run and graph, and has
    exactly the requirements of the first one, each taken over from the tasks it
    was mapped to. *)
Theorem revision_history_sound rs :
  history rs -> Forall record_ok rs /\ linked rs /\
  match rs with r :: _ => rr_graphRevision r = Z.of_nat (length rs) | [] => True end.
Proof. apply history_ok. Qed.

(** ** Started work *)

Lemma state_at states id s :
  NoDup (map tp_taskId states) ->
  map_get (stateMap states) id = Some s <-> s ∈ states /\ tp_taskId s = id.
Proof.
  intros Hn. unfold stateMap. split.
  - intros E%map_of_get_elem. by apply list_elem_of_fmap in E as (s' & [= -> ->] & Hs).
  - intros [Hs <-]. apply map_of_get; [by rewrite map_map|]. apply list_elem_of_fmap. by exists s.
Qed.

Lemma started_kept context input n s :
  revision_ok context input -> canonicalDag (rr_dag (cx_current context)) = rr_dag (cx_current context) ->
  n ∈ dag_nodes (rr_dag (cx_current context)) -> s ∈ cx_taskStates context ->
  tp_taskId s = taskId n -> tp_outcome s <> to_not_started ->
  n ∈ dag_nodes (rr_dag (successor context input)) \/
  exists t f c a, pr_trigger input = Some t /\ cx_hiddenDependencyFinding context = Some f /\
    taskId n ∈ ht_interruptedTaskIds t /\ taskId n ∈ hf_affectedTaskIds f /\
    tp_outcome s = to_cancelled /\
    c ∈ rr_changes (successor context input) /\ gc_beforeTaskIds c = [taskId n] /\
    gc_afterTaskIds c = [a] /\ has_task (rr_dag (successor context input)) a /\
    ~ has_task (rr_dag (successor context input)) (taskId n).
Proof.
  intros Hok Hc Hn Hs Ht Ho. pose proof (ro_baseline _ _ Hok) as [Hv Hst]. rewrite Hc in Hv, Hst.
  assert (map_get (stateMap (cx_taskStates context)) (taskId n) = Some s) as Hstate.
  { apply state_at; [apply Hst|done]. }
  assert (node_at (canonicalDag (rr_dag (cx_current context))) (taskId n) = Some n) as Hat.
  { rewrite Hc. apply node_at_iff; [by apply valid_ids|done]. }
  destruct (ro_started _ _ Hok _ n s Hat Hstate Ho) as [Ha|(t & Etr & Hid)].
  { left. by apply node_at_elem in Ha as [Ha _]. }
  right. destruct (ro_trigger _ _ Hok t Etr) as [f Hf].
  destruct (to_quiesced _ _ _ _ Hf _ Hid) as (_ & Hno & (s' & Es & Hcan) & c & a & Hin & Hk & Hb & Ha).
  assert (s' = s) as -> by congruence. exists t, f, c, a.
  split_and!; try done; [apply Hf|by apply (to_affected _ _ _ _ Hf)|].
  destruct (ro_changes _ _ Hok c Hin); try congruence; naive_solver congruence.
Qed.

(** Accepted revisions do not touch started work. When a revision of a history
    is accepted, a task that was started, whatever became of it, is in the new
    graph exactly as it was. The one exception is a task interrupted by a hidden
    dependency: it was cancelled, the finding of the trigger names it, and a
    declared change replaces it by one new task. *)
Theorem started_work_kept context input o r rs n s :
  history (cx_current context :: rs) ->
  validateTaskGraphRevision context input = Some o -> oc_record o = Some r ->
  n ∈ dag_nodes (rr_dag (cx_current context)) -> s ∈ cx_taskStates context ->
  tp_taskId s = taskId n -> tp_outcome s <> to_not_started ->
  n ∈ dag_nodes (rr_dag r) \/
  exists t f c a, pr_trigger input = Some t /\ cx_hiddenDependencyFinding context = Some f /\
    taskId n ∈ ht_interruptedTaskIds t /\ taskId n ∈ hf_affectedTaskIds f /\
    tp_outcome s = to_cancelled /\
    c ∈ rr_changes r /\ gc_beforeTaskIds c = [taskId n] /\ gc_afterTaskIds c = [a] /\
    has_task (rr_dag r) a /\ ~ has_task (rr_dag r) (taskId n).
Proof.
  intros Hh Hv Ho. apply (accepted_spec _ _ _ Hv) in Ho as [Hok ->].
  apply history_ok in Hh as [Hall _]. apply Forall_cons in Hall as [Hc _].
  apply started_kept; [done|]. apply Hc.
Qed.

(** A hidden dependency cannot be repaired once its dependents are blocked. If a
    task of the current graph depends on an interrupted task and has an outcome
    of its own (blocked, because the interrupted task was cancelled), and is not
    itself interrupted, then every proposal is rejected: the dependent may not
    be changed, and unchanged it depends on a task that must go. *)
Lemma dependent_rejected context input o t n s d :
  validateTaskGraphRevision context input = Some o ->
  pr_trigger input = Some t -> d ∈ ht_interruptedTaskIds t ->
  n ∈ dag_nodes (canonicalDag (rr_dag (cx_current context))) -> d ∈ er_dependencies (nd_task n) ->
  taskId n ∉ ht_interruptedTaskIds t ->
  s ∈ cx_taskStates context -> tp_taskId s = taskId n -> tp_outcome s <> to_not_started ->
  oc_record o = None /\ dn_accepted (oc_decision o) = false.
Proof.
  intros Hv Ht Hd Hn Hdep Hni Hs Eid Ho. destruct (accepted_spec _ _ _ Hv) as (Ha & _ & Hr).
  assert (~ revision_ok context input) as Hno.
  { intros Hok. pose proof (ro_baseline _ _ Hok) as [Hvb Hst].
    assert (map_get (stateMap (cx_taskStates context)) (taskId n) = Some s) as Hstate
      by (apply state_at; [apply Hst|done]).
    assert (node_at (canonicalDag (rr_dag (cx_current context))) (taskId n) = Some n) as Hat
      by (apply node_at_iff; [by apply valid_ids|done]).
    destruct (ro_started _ _ Hok _ n s Hat Hstate Ho) as [Haf|(t' & Et & Hid)].
    - apply node_at_elem in Haf as [Haf _]. destruct (ro_proposed _ _ Hok) as [Hva _].
      destruct (ds_deps _ (dv_shape _ Hva) (node_view n)) as [_ Hdeps].
      { apply list_elem_of_fmap. by exists n. }
      destruct (Hdeps d Hdep) as [_ Hin]. rewrite view_ids in Hin.
      destruct (ro_trigger _ _ Hok t Ht) as [f Hf].
      by destruct (to_quiesced _ _ _ _ Hf d Hd) as (_ & Hgone & _).
    - cbn in Et. naive_solver congruence. }
  split.
  - destruct (oc_record o) as [r|]; [|done]. by destruct (proj1 (Hr r) eq_refl).
  - destruct (dn_accepted (oc_decision o)); [|done]. by destruct Hno; apply Ha.
Qed.
End Acceptance.


(** ** Canonical proposals

    The decision about a proposal does not depend on the order in which the
    proposal lists its tasks, their repositories, dependencies, artifacts and
    checks, its changes, its requirement mappings or its evidence; and concrete
    histories on which the claims about revisions apply. *)

(** ** Texts without the separator *)

Definition nul_char : ascii := ascii_of_N 0.

Lemma json_string_no_nul s : str_has nul_char (json_string s) = false.
Proof.
  assert (forall c d : ascii, negb (str_has nul_char (json_char c)) = true) as Hc.
  { apply forall_chars. vm_compute. reflexivity. }
  assert (str_has nul_char (json_chars s) = false) as H.
  { induction s as [|c s IH]; [done|]. cbn [json_chars]. rewrite str_has_app, IH, orb_false_r.
    apply negb_true_iff, (Hc c c). }
  unfold json_string. by rewrite !str_has_app, H.
Qed.

Lemma integer_no_nul s : integer_text s = true -> str_has nul_char s = false.
Proof.
  induction s as [|c s IH]; [done|]. intros [H1 H2]%andb_prop. cbn [str_has].
  rewrite (IH H2), orb_false_r. apply bool_decide_eq_false. intros <-. by vm_compute in H1.
Qed.

Lemma join_no_nul {A} (r : A -> string) l :
  (forall x, x ∈ l -> str_has nul_char (r x) = false) ->
  str_has nul_char (js_join "," (map r l)) = false.
Proof.
  intros H. destruct l as [|x l]; [done|]. rewrite join_cons, str_has_app, (H x) by (by left).
  assert (forall y, y ∈ l -> str_has nul_char (r y) = false) as Hl by (intros y Hy; apply H; by right).
  cbn [orb]. clear H. induction l as [|y l IH]; [done|]. cbn [comma_tail foldr].
  rewrite !str_has_app, (Hl y) by (by left). cbn [orb]. apply IH. intros z Hz. apply Hl. by right.
Qed.

Lemma valueText_no_nul v : str_has nul_char (valueText v) = false.
Proof.
  induction v as [s|z|[|]| |items IH|fields IH] using value_ind'; cbn [valueText]; try done.
  - apply json_string_no_nul.
  - apply integer_no_nul, num_text_integer.
  - rewrite !str_has_app, join_no_nul; [done|]. by rewrite Forall_forall in IH.
  - rewrite !str_has_app, join_no_nul; [done|]. intros f Hf.
    rewrite !str_has_app, json_string_no_nul. rewrite Forall_forall in IH. by rewrite (IH f Hf).
Qed.

(** A key followed by a canonical text identifies what the text identifies. *)
Lemma separated_text_inj s t v w :
  s +:+ nul +:+ canonicalJson v = t +:+ nul +:+ canonicalJson w -> canonicalValue v = canonicalValue w.
Proof.
  intros H. apply last_separated_inj in H as [_ H]; [|apply valueText_no_nul..].
  by apply valueText_inj.
Qed.

Lemma node_key_inj a b : node_key a = node_key b -> a = b.
Proof. intros H%separated_text_inj. by apply faithful_node. Qed.

Lemma faithful_change : faithful change_json.
Proof.
  intros [a1 a2 a3 a4 a5] [b1 b2 b3 b4 b5] H. field_same H "beforeTaskIds" texts a2 b2.
  field_same H "afterTaskIds" texts a3 b3. field_same H "rationale" VText a4 b4.
  field_same H "evidenceArtifactIds" texts a5 b5. field_eq H "kind".
  apply faithful_text in E. cbn in E. by destruct a1, b1.
Qed.

Lemma faithful_mapping : faithful mapping_json.
Proof.
  intros [a1 a2 a3 a4 a5] [b1 b2 b3 b4 b5] H. field_same H "sourceWorkItemId" VText a1 b1.
  field_same H "requirementId" VText a2 b2. field_same H "beforeTaskIds" texts a3 b3.
  field_same H "afterTaskIds" texts a4 b4. by field_same H "rationale" VText a5 b5.
Qed.

(** ** The same proposal, listed in another order *)

Definition listed {A} (R : A -> A -> Prop) (l l' : list A) : Prop :=
  exists k, l ≡ₚ k /\ Forall2 R k l'.

Record node_like (a b : TaskDagNodeV2) : Prop := {
  nl_parts : (nd_pipelineId a, nd_profileId a, nd_accountId a) =
             (nd_pipelineId b, nd_profileId b, nd_accountId b);
  nl_texts : (er_taskId (nd_task a), er_revision (nd_task a), er_revisionSha256 (nd_task a),
      er_predecessorRevisionSha256 (nd_task a), er_analysisPacketId (nd_task a),
      er_analysisPacketSha256 (nd_task a), er_objective (nd_task a), er_rationale (nd_task a),
      er_primaryRepositoryId (nd_task a), er_createdAt (nd_task a)) =
    (er_taskId (nd_task b), er_revision (nd_task b), er_revisionSha256 (nd_task b),
      er_predecessorRevisionSha256 (nd_task b), er_analysisPacketId (nd_task b),
      er_analysisPacketSha256 (nd_task b), er_objective (nd_task b), er_rationale (nd_task b),
      er_primaryRepositoryId (nd_task b), er_createdAt (nd_task b));
  nl_reads : er_readSet (nd_task a) ≡ₚ er_readSet (nd_task b);
  nl_writes : er_writeSet (nd_task a) ≡ₚ er_writeSet (nd_task b);
  nl_excluded : er_excludedRepositories (nd_task a) ≡ₚ er_excludedRepositories (nd_task b);
  nl_dependencies : er_dependencies (nd_task a) ≡ₚ er_dependencies (nd_task b);
  nl_artifacts : er_artifacts (nd_task a) ≡ₚ er_artifacts (nd_task b);
  nl_verification : er_verification (nd_task a) ≡ₚ er_verification (nd_task b)
}.

Record change_like (a b : TaskGraphChange) : Prop := {
  cl_texts : (gc_kind a, gc_rationale a) = (gc_kind b, gc_rationale b);
  cl_before : gc_beforeTaskIds a ≡ₚ gc_beforeTaskIds b;
  cl_after : gc_afterTaskIds a ≡ₚ gc_afterTaskIds b;
  cl_evidence : gc_evidenceArtifactIds a ≡ₚ gc_evidenceArtifactIds b
}.

Record mapping_like (a b : TaskRequirementMapping) : Prop := {
  ml_texts : (rm_sourceWorkItemId a, rm_requirementId a, rm_rationale a) =
             (rm_sourceWorkItemId b, rm_requirementId b, rm_rationale b);
  ml_before : rm_beforeTaskIds a ≡ₚ rm_beforeTaskIds b;
  ml_after : rm_afterTaskIds a ≡ₚ rm_afterTaskIds b
}.

Record proposal_like (p q : TaskGraphRevisionProposal) : Prop := {
  pl_texts : (pr_runId p, pr_graphId p, pr_expectedGraphRevision p, pr_expectedRevisionSha256 p,
      pr_rationale p, pr_proposedAt p, pr_trigger p) =
    (pr_runId q, pr_graphId q, pr_expectedGraphRevision q, pr_expectedRevisionSha256 q,
      pr_rationale q, pr_proposedAt q, pr_trigger q);
  pl_dag : (dag_graphId (pr_proposedDag p), dag_graphRevision (pr_proposedDag p),
      dag_createdAt (pr_proposedDag p)) =
    (dag_graphId (pr_proposedDag q), dag_graphRevision (pr_proposedDag q),
      dag_createdAt (pr_proposedDag q));
  pl_nodes : listed node_like (dag_nodes (pr_proposedDag p)) (dag_nodes (pr_proposedDag q));
  pl_changes : listed change_like (pr_changes p) (pr_changes q);
  pl_mappings : listed mapping_like (pr_requirementMappings p) (pr_requirementMappings q);
  pl_evidence : pr_evidenceArtifactIds p ≡ₚ pr_evidenceArtifactIds q
}.

(** Sorting the canonical forms by an identifying key forgets the order. *)
Lemma listed_canonical {A} (R : A -> A -> Prop) (f : A -> A) (key : A -> string) l l' :
  (forall a b, key a = key b -> a = b) -> (forall a b, R a b -> f a = f b) ->
  listed R l l' -> sort_key key (map f l) = sort_key key (map f l').
Proof.
  intros Hkey Hf (k & Hp & Hk).
  assert (map f k = map f l') as <-.
  { clear Hp. induction Hk as [|a b k l'' HR Hk IH]; [done|]. cbn [map]. f_equal; [by apply Hf|].
    apply IH. }
  apply sort_key_canonical; [by intros; apply Hkey|]. by rewrite Hp.
Qed.

Lemma sort_faithful {A} (f : A -> Value) l l' :
  faithful f -> l ≡ₚ l' -> sort_key (canonicalJson ∘ f) l = sort_key (canonicalJson ∘ f) l'.
Proof.
  intros Hf. apply sort_key_canonical. intros x y _ _ H%valueText_inj. by apply Hf.
Qed.

Lemma node_like_canonical a b : node_like a b -> canonicalNode a = canonicalNode b.
Proof.
  intros [H1 H2 H3 H4 H5 H6 H7 H8]. unfold canonicalNode.
  rewrite (sort_strings_canonical _ _ H3), (sort_strings_canonical _ _ H4),
    (sort_strings_canonical _ _ H6), (sort_faithful _ _ _ faithful_excluded H5),
    (sort_faithful _ _ _ faithful_artifact H7), (sort_faithful _ _ _ faithful_verification H8).
  injection H1. injection H2. clear. intros.
  repeat match goal with E : _ = _ |- _ => rewrite E; clear E end. done.
Qed.

Lemma change_like_canonical a b : change_like a b -> canonicalChange a = canonicalChange b.
Proof.
  intros [H1 H2 H3 H4]. unfold canonicalChange.
  rewrite (sort_strings_canonical _ _ H2), (sort_strings_canonical _ _ H3),
    (sort_strings_canonical _ _ H4). congruence.
Qed.

Lemma mapping_like_canonical a b : mapping_like a b -> canonicalMapping a = canonicalMapping b.
Proof.
  intros [H1 H2 H3]. unfold canonicalMapping.
  rewrite (sort_strings_canonical _ _ H2), (sort_strings_canonical _ _ H3). congruence.
Qed.

Lemma canonical_proposal_like p q :
  proposal_like p q -> canonicalProposal p = canonicalProposal q.
Proof.
  intros [H1 H2 H3 H4 H5 H6]. unfold canonicalProposal, canonicalDag, canonicalMappings.
  rewrite (sort_strings_canonical _ _ H6).
  rewrite (listed_canonical node_like canonicalNode node_key _ _ node_key_inj node_like_canonical H3).
  rewrite (listed_canonical change_like canonicalChange (canonicalJson ∘ change_json) _ _
    (fun a b E => faithful_change a b (valueText_inj _ _ E)) change_like_canonical H4).
  rewrite (listed_canonical mapping_like canonicalMapping mapping_sort_key _ _
    (fun a b E => faithful_mapping a b (separated_text_inj _ _ _ _ E)) mapping_like_canonical H5).
  congruence.
Qed.

(** C23: The decision about a proposal does not depend on how it is listed. Two
    proposals that differ only in the order of tasks, of the repositories,
    dependencies, artifacts and checks of a task, of changes, of requirement
    mappings, of the task ids in them and of evidence get the same decision,
    hash, diagnostics and record included. *)
Theorem revision_order_free `{Sha256} context p q :
  proposal_like p q -> validateTaskGraphRevision context p = validateTaskGraphRevision context q.
Proof.
  intros Hl. unfold validateTaskGraphRevision, prepare. by rewrite (canonical_proposal_like p q Hl).
Qed.

(** ** Concrete revisions *)

(** A digest to run the code with. *)
#[local] Instance length_digest : Sha256 := fun text => num_text (Z.of_nat (String.length text)).

Definition small_node (id : string) (revision : Z) (predecessor : option string)
    (dependencies : list string) : TaskDagNodeV2 :=
  mkNode (mkTask id revision ("hash-of-" +:+ id) predecessor "packet" "packet-hash" "objective"
    "why" "repo" ["repo"] [] [] dependencies [] [] "2026-01-01T00:00:00Z") "pipeline" "profile" None.

Definition small_dag (revision : Z) (nodes : list TaskDagNodeV2) : TaskDagV2 :=
  mkDag "graph" revision nodes "2026-01-01T00:00:00Z".

Definition first_input : InitialRevisionInput :=
  mkInitial "run" (small_dag 1 [small_node "b" 1 None ["a"]; small_node "a" 1 None []])
    [mkMapping "item" "R1" [] ["b"] "covered by b"] "start" ["evidence"] "2026-01-01T00:00:00Z".

Definition no_record : TaskGraphRevisionRecord :=
  mkRecord "" "" 0 "" None (small_dag 0 []) [] [] "" [] None "" None.

Definition first_revision : TaskGraphRevisionRecord :=
  match createInitialTaskGraphRevision first_input with Some (inr r) => r | _ => no_record end.

Definition task_state (id : string) (outcome : TaskPlanningOutcome) (settled : bool)
    : TaskPlanningState :=
  {| tp_taskId := id; tp_outcome := outcome;
     tp_completionContract := if settled then cg_passed else cg_pending;
     tp_integration := if settled then ig_passed else ig_pending;
     tp_combinedVerification := if settled then cg_passed else cg_pending |}.

(** Task [a] has settled; a third task is added. *)
Definition add_context : TaskGraphRevisionValidationContext :=
  mkContext first_revision [task_state "a" to_succeeded true; task_state "b" to_not_started false]
    None 5 "decision-1" "2026-01-02T00:00:00Z".

Definition add_changes : list TaskGraphChange :=
  [mkChange change_add [] ["c"] "needed" ["evidence"]].

Definition add_proposal (nodes : list TaskDagNodeV2) : TaskGraphRevisionProposal :=
  mkProposal "run" "graph" 1 (rr_revisionSha256 first_revision) (small_dag 2 nodes)
    add_changes [mkMapping "item" "R1" ["b"] ["c"; "b"] "covered by b and c"] "more" ["evidence"]
    "2026-01-02T00:00:00Z" None.

Definition three_nodes : list TaskDagNodeV2 :=
  [small_node "a" 1 None []; small_node "b" 1 None ["a"]; small_node "c" 1 None ["a"; "b"]].

Definition outcome_of (context : TaskGraphRevisionValidationContext)
    (p : TaskGraphRevisionProposal) : TaskGraphRevisionValidationOutcome :=
  default (mkOutcome (mkDecision "" "" "" p "" 0 false None [] [] [] [] [] [] 0 "" None) None)
    (validateTaskGraphRevision context p).

Definition second_revision : TaskGraphRevisionRecord :=
  default no_record (oc_record (outcome_of add_context (add_proposal three_nodes))).

Lemma add_accepted :
  validateTaskGraphRevision add_context (add_proposal three_nodes) =
    Some (outcome_of add_context (add_proposal three_nodes)) /\
  oc_record (outcome_of add_context (add_proposal three_nodes)) = Some second_revision.
Proof. split; vm_compute; reflexivity. Qed.

Lemma small_history : history [second_revision; first_revision].
Proof.
  apply (history_next add_context (add_proposal three_nodes)
    (outcome_of add_context (add_proposal three_nodes))); [|apply add_accepted..].
  apply (history_first first_input). vm_compute. reflexivity.
Qed.

Lemma revision_history_sound_witness :
  rr_graphRevision second_revision = 2%Z /\ linked [second_revision; first_revision].
Proof.
  destruct (revision_history_sound [second_revision; first_revision] small_history) as (_ & Hl & Hn).
  split; [exact Hn|exact Hl].
Defined.

Lemma started_work_kept_witness :
  small_node "a" 1 None [] ∈ dag_nodes (rr_dag second_revision).
Proof.
  destruct (started_work_kept add_context (add_proposal three_nodes)
    (outcome_of add_context (add_proposal three_nodes)) second_revision []
    (small_node "a" 1 None []) (task_state "a" to_succeeded true)) as [H|(t & ? & ? & ? & H & _)].
  - apply (history_first first_input). vm_compute. reflexivity.
  - apply add_accepted.
  - apply add_accepted.
  - vm_compute. left.
  - left.
  - reflexivity.
  - discriminate.
  - exact H.
  - discriminate H.
Defined.

Lemma revision_order_free_witness :
  validateTaskGraphRevision add_context (add_proposal three_nodes) =
  validateTaskGraphRevision add_context
    (add_proposal [small_node "c" 1 None ["b"; "a"]; small_node "b" 1 None ["a"];
                   small_node "a" 1 None []]).
Proof.
  apply revision_order_free. split; try reflexivity.
  - exists [small_node "c" 1 None ["a"; "b"]; small_node "b" 1 None ["a"]; small_node "a" 1 None []].
    split; [apply Permutation_rev|].
    repeat constructor; try reflexivity.
  - exists add_changes. repeat constructor.
  - eexists. repeat constructor.
Defined.

(** Task [a] is interrupted by a hidden dependency and replaced by [a2]. *)
Definition hidden_context (dependent : TaskPlanningOutcome) : TaskGraphRevisionValidationContext :=
  mkContext first_revision [task_state "a" to_cancelled false; task_state "b" dependent false]
    (Some (mkFinding "finding" "run" "graph" 1 (rr_revisionSha256 first_revision) "a" ["a"] ["a"]
      "a needs more" ["evidence"] "2026-01-02T00:00:00Z"))
    5 "decision-2" "2026-01-02T00:00:00Z".

Definition hidden_trigger : HiddenDependencyRevisionTrigger := mkTrigger "finding" ["a"].

Definition hidden_proposal : TaskGraphRevisionProposal :=
  mkProposal "run" "graph" 1 (rr_revisionSha256 first_revision)
    (small_dag 2 [small_node "a2" 1 None []; small_node "b" 2 (Some "hash-of-b") ["a2"]])
    [mkChange change_supersede ["a"] ["a2"] "replaced" ["evidence"];
     mkChange change_reorder ["b"] ["b"] "follows a2" ["evidence"]]
    [mkMapping "item" "R1" ["b"] ["b"] "still b"] "hidden dependency" ["evidence"]
    "2026-01-02T00:00:00Z" (Some hidden_trigger).

(** The revision is fine as long as the dependent has not been blocked. *)
Lemma hidden_accepted :
  dn_accepted (oc_decision (outcome_of (hidden_context to_not_started) hidden_proposal)) = true.
Proof. vm_compute. reflexivity. Qed.

Lemma dependent_rejected_example :
  dn_accepted (oc_decision (outcome_of (hidden_context to_blocked) hidden_proposal)) = false.
Proof.
  apply (dependent_rejected (hidden_context to_blocked) hidden_proposal
    (outcome_of (hidden_context to_blocked) hidden_proposal) hidden_trigger
    (small_node "b" 1 None ["a"]) (task_state "b" to_blocked false) "a").
  - vm_compute. reflexivity.
  - reflexivity.
  - left.
  - vm_compute. right. left.
  - left.
  - vm_compute. intros H. inversion H. inversion H2.
  - right. left.
  - reflexivity.
  - discriminate.
Qed.
