(* ===== verification/GraphStore.v ===== *)
(** * The store of task-graph revisions

    [packages/state/src/task-graph/store.ts] with the tables of migration 22
    ([migrations/task-graph-revision.ts]), and the daemon's service over it
    ([packages/daemon/src/runtime/task-graph-revision-service.ts]).

    The JSON columns hold the values they are the canonical text of
    ([stringifyCanonical] and [JSON.parse] are modelled in [StateJson]; these
    values are nested fewer than ten levels deep).  A thrown operation leaves the
    database as it was, which is what its transaction does.  The validator the
    store is created with is a class, as it is an argument in the source; the
    service passes [validateTaskGraphRevision]. *)

From Stdlib Require Import Ascii.
From S2P Require Import Prelude Recovery SqlList TaskDag Revise.

Local Open Scope Z_scope.
Local Open Scope st_scope.

(** ** The schema *)

(** A row of [task_graph_revision]. *)
Record RevisionRow := mkRevisionRow {
  v_run_id : string;
  v_graph_id : string;
  v_graph_revision : Z;
  v_revision_sha256 : string;
  v_predecessor_revision_sha256 : option string;
  v_decision_id : option string;
  v_record : TaskGraphRevisionRecord;
  v_committed_at : string }.

(** A row of [task_graph_revision_decision]. *)
Record RevisionDecisionRow := mkRevisionDecisionRow {
  w_decision_id : string;
  w_run_id : string;
  w_graph_id : string;
  w_expected_graph_revision : Z;
  w_proposal_sha256 : string;
  w_accepted : bool;
  w_decision : TaskGraphRevisionDecision;
  w_recorded_at : string }.

(** A row of [task_graph_revision_projection]. *)
Record GraphProjectionRow := mkGraphProjectionRow {
  j_run_id : string;
  j_graph_id : string;
  j_active_graph_revision : Z;
  j_active_revision_sha256 : string;
  j_projection_revision : Z;
  j_updated_at : string }.

(** The tables, and the ids of [run_projection] they refer to. *)
Record GraphDb := mkGraphDb {
  run_ids : list string;
  graph_decisions : list RevisionDecisionRow;
  graph_revisions : list RevisionRow;
  graph_projections : list GraphProjectionRow }.

Definition with_graph_decisions (f : list RevisionDecisionRow -> list RevisionDecisionRow)
    (db : GraphDb) : GraphDb :=
  mkGraphDb (run_ids db) (f (graph_decisions db)) (graph_revisions db) (graph_projections db).
Definition with_graph_revisions (f : list RevisionRow -> list RevisionRow) (db : GraphDb) : GraphDb :=
  mkGraphDb (run_ids db) (graph_decisions db) (f (graph_revisions db)) (graph_projections db).
Definition with_graph_projections (f : list GraphProjectionRow -> list GraphProjectionRow)
    (db : GraphDb) : GraphDb :=
  mkGraphDb (run_ids db) (graph_decisions db) (graph_revisions db) (f (graph_projections db)).

Definition GOp (A : Type) : Type := ST GraphDb string A.

Definition require (b : bool) (message : string) : GOp unit := if b then ret tt else throw message.

(** [length(x) = 64 AND x NOT GLOB '*[^0-9a-f]*']. *)
Fixpoint lower_hex (text : string) : bool :=
  match text with
  | EmptyString => true
  | String c rest =>
      let n := N_of_ascii c in
      ((48 <=? n)%N && (n <=? 57)%N || (97 <=? n)%N && (n <=? 102)%N) && lower_hex rest
  end.

Definition sha_text (text : string) : bool := (String.length text =? 64)%nat && lower_hex text.

Definition is_none {A} (o : option A) : bool := match o with None => true | Some _ => false end.

Definition revision_at (run : string) (revision : Z) (row : RevisionRow) : bool :=
  str_eqb (v_run_id row) run && (v_graph_revision row =? revision).

Definition graph_run_is (run : string) (row : GraphProjectionRow) : bool :=
  str_eqb (j_run_id row) run.

(** [INSERT INTO task_graph_revision] with the trigger
    [task_graph_revision_exact_predecessor] and the constraints of the table. *)
Definition insertRevisionRow (row : RevisionRow) : GOp unit :=
  let* db := get in
  require (negb (1 <? v_graph_revision row) ||
      exists_where (fun p =>
        str_eqb (v_run_id p) (v_run_id row) && str_eqb (v_graph_id p) (v_graph_id row) &&
        (v_graph_revision p =? v_graph_revision row - 1) &&
        bool_decide (Some (v_revision_sha256 p) = v_predecessor_revision_sha256 row))
        (graph_revisions db))
    "task graph revision must continue the exact predecessor" ;;;
  require ((1 <=? v_graph_revision row) && sha_text (v_revision_sha256 row) &&
      match v_predecessor_revision_sha256 row with None => true | Some sha => sha_text sha end &&
      Bool.eqb (v_graph_revision row =? 1) (is_none (v_predecessor_revision_sha256 row)) &&
      Bool.eqb (v_graph_revision row =? 1) (is_none (v_decision_id row))) "CHECK" ;;;
  require (negb (exists_where (revision_at (v_run_id row) (v_graph_revision row))
                   (graph_revisions db))) "task_graph_revision.run_id, graph_revision" ;;;
  require (negb (exists_where (fun p => str_eqb (v_run_id p) (v_run_id row) &&
                                        str_eqb (v_revision_sha256 p) (v_revision_sha256 row))
                   (graph_revisions db))) "task_graph_revision.run_id, revision_sha256" ;;;
  require (set_has (run_ids db) (v_run_id row) &&
      match v_decision_id row with
      | None => true
      | Some id => exists_where (fun d => str_eqb (w_decision_id d) id) (graph_decisions db)
      end) "FOREIGN KEY" ;;;
  modify (with_graph_revisions (fun rows => rows ++ [row])).

(** [INSERT INTO task_graph_revision_decision]. *)
Definition insertDecisionRow (row : RevisionDecisionRow) : GOp unit :=
  let* db := get in
  require ((1 <=? w_expected_graph_revision row) && sha_text (w_proposal_sha256 row)) "CHECK" ;;;
  require (negb (exists_where (fun d => str_eqb (w_decision_id d) (w_decision_id row))
                   (graph_decisions db))) "task_graph_revision_decision.decision_id" ;;;
  require (set_has (run_ids db) (w_run_id row)) "FOREIGN KEY" ;;;
  modify (with_graph_decisions (fun rows => rows ++ [row])).

(** [INSERT INTO task_graph_revision_projection], the first one of a run. *)
Definition insertProjectionRow (row : GraphProjectionRow) : GOp unit :=
  let* db := get in
  require ((j_active_graph_revision row =? 1) && (j_projection_revision row =? 1))
    "first task graph projection must point to revision 1" ;;;
  require (sha_text (j_active_revision_sha256 row)) "CHECK" ;;;
  require (negb (exists_where (graph_run_is (j_run_id row)) (graph_projections db)))
    "task_graph_revision_projection.run_id" ;;;
  require (set_has (run_ids db) (j_run_id row) &&
      exists_where (revision_at (j_run_id row) (j_active_graph_revision row)) (graph_revisions db))
    "FOREIGN KEY" ;;;
  modify (with_graph_projections (fun rows => rows ++ [row])).

(** The row an [UPDATE] of the projection writes, with the trigger
    [task_graph_revision_projection_causal] and the constraints of the table. *)
Definition advanceProjection (revision : Z) (sha updatedAt : string) (row : GraphProjectionRow)
    : GraphProjectionRow :=
  mkGraphProjectionRow (j_run_id row) (j_graph_id row) revision sha
    (j_projection_revision row + 1) updatedAt.

Definition updateProjection (run : string) (expected : Z) (expectedSha : string)
    (revision : Z) (sha updatedAt : string) : GOp Z :=
  let* db := get in
  let hit row := graph_run_is run row && (j_active_graph_revision row =? expected) &&
                 str_eqb (j_active_revision_sha256 row) expectedSha in
  require (forallb (fun row => negb (hit row) || (revision =? j_active_graph_revision row + 1))
             (graph_projections db)) "task graph projection must advance causally" ;;;
  require (negb (exists_where hit (graph_projections db)) ||
      sha_text sha && exists_where (revision_at run revision) (graph_revisions db))
    "CHECK or FOREIGN KEY" ;;;
  modify (with_graph_projections (update_where hit (advanceProjection revision sha updatedAt))) ;;;
  ret (count_where hit (graph_projections db)).

(** ** The operations *)

Class TaskGraphRevisionValidator :=
  revision_validator : TaskGraphRevisionValidationContext -> TaskGraphRevisionProposal ->
    option TaskGraphRevisionValidationOutcome.

(** The projection joined with the revision it names. *)
Definition activeRow (db : GraphDb) (runId : string) : option RevisionRow :=
  match select_one (graph_run_is runId) (graph_projections db) with
  | None => None
  | Some j => select_one (revision_at (j_run_id j) (j_active_graph_revision j)) (graph_revisions db)
  end.

Definition active (db : GraphDb) (runId : string) : option TaskGraphRevisionRecord :=
  v_record <$> activeRow db runId.

Definition insertRecord (record : TaskGraphRevisionRecord) : GOp unit :=
  insertRevisionRow (mkRevisionRow (rr_runId record) (rr_graphId record) (rr_graphRevision record)
    (rr_revisionSha256 record) (rr_predecessorRevisionSha256 record) (rr_decisionId record) record
    (rr_committedAt record)).

Definition initialize (record : TaskGraphRevisionRecord) : GOp TaskGraphRevisionRecord :=
  require ((rr_graphRevision record =? 1) && is_none (rr_predecessorRevisionSha256 record) &&
           is_none (rr_decisionId record))
    "initial task graph record must be revision 1 without a predecessor or decision" ;;;
  let* db := get in
  require (is_none (active db (rr_runId record))) "task graph is already initialized for run" ;;;
  insertRecord record ;;;
  insertProjectionRow (mkGraphProjectionRow (rr_runId record) (rr_graphId record) 1
    (rr_revisionSha256 record) 1 (rr_committedAt record)) ;;;
  ret record.

Record ProposeInput := mkPropose {
  pi_proposal : TaskGraphRevisionProposal;
  pi_taskStates : list TaskPlanningState;
  pi_maxGraphRevisions : Z;
  pi_decisionId : string;
  pi_decidedAt : string;
  pi_hiddenDependencyFinding : option HiddenDependencyFinding }.

Definition propose_context (current : TaskGraphRevisionRecord) (input : ProposeInput)
    : TaskGraphRevisionValidationContext :=
  mkContext current (pi_taskStates input) (pi_hiddenDependencyFinding input)
    (pi_maxGraphRevisions input) (pi_decisionId input) (pi_decidedAt input).

Definition decision_row (d : TaskGraphRevisionDecision) : RevisionDecisionRow :=
  mkRevisionDecisionRow (dn_decisionId d) (dn_runId d) (dn_graphId d) (dn_expectedGraphRevision d)
    (dn_proposalSha256 d) (dn_accepted d) d (dn_decidedAt d).

Definition propose `{TaskGraphRevisionValidator} (input : ProposeInput)
    : GOp TaskGraphRevisionValidationOutcome :=
  let* db := get in
  let* current := orThrow "task graph is not initialized for run"
                    (active db (pr_runId (pi_proposal input))) in
  let* outcome := orThrow "validation did not end"
                    (revision_validator (propose_context current input) (pi_proposal input)) in
  insertDecisionRow (decision_row (oc_decision outcome)) ;;;
  match oc_record outcome with
  | None => ret outcome
  | Some record =>
      insertRecord record ;;;
      let* changes := updateProjection (rr_runId record) (rr_graphRevision current)
        (rr_revisionSha256 current) (rr_graphRevision record) (rr_revisionSha256 record)
        (rr_committedAt record) in
      require (changes =? 1) "task graph projection compare-and-set failed" ;;;
      ret outcome
  end.

Definition revision_lt (l r : RevisionRow) : bool := v_graph_revision l <? v_graph_revision r.

Definition revisions (db : GraphDb) (runId : string) : list TaskGraphRevisionRecord :=
  map v_record (sort_by revision_lt
    (select_where (fun row => str_eqb (v_run_id row) runId) (graph_revisions db))).

Definition recorded_lt (l r : RevisionDecisionRow) : bool :=
  if str_eqb (w_recorded_at l) (w_recorded_at r)
  then str_ltb (w_decision_id l) (w_decision_id r)
  else str_ltb (w_recorded_at l) (w_recorded_at r).

Definition decisions (db : GraphDb) (runId : string) : list TaskGraphRevisionDecision :=
  map w_decision (sort_by recorded_lt
    (select_where (fun row => str_eqb (w_run_id row) runId) (graph_decisions db))).

(** ** The service *)

Section Service.
Context `{Sha256}.

#[export] Instance taskGraphRevisionValidator : TaskGraphRevisionValidator :=
  validateTaskGraphRevision.

(** The clock's time is the [committedAt] of the input. *)
Definition initializeGraph (input : InitialRevisionInput) : GOp TaskGraphRevisionRecord :=
  let* created := orThrow "validation did not end" (createInitialTaskGraphRevision input) in
  match created with
  | inl message => throw message
  | inr record => initialize record
  end.

Definition submit (input : ProposeInput) : GOp TaskGraphRevisionValidationOutcome := propose input.
End Service.
