(* ===== verification/GraphStoreProps.v ===== *)
(** * The store of task-graph revisions: the claims

    For each run the store holds one history of revisions: the rows of the run
    are the history in order, and the projection names its latest revision.  The
    store's part is proved for any validator that keeps the run and advances the
    revision by one; [validateTaskGraphRevision] is such a validator. *)

From Stdlib Require Import Sorted Ascii.
From stdpp Require Import gmap.
From S2P Require Import Prelude Recovery SqlList StateJsonProps TaskDag TaskValid TaskProps Revise ReviseSpec ReviseProps GraphStore.

Local Open Scope Z_scope.

(** What the store needs of its validator. *)
Class ValidatorLaws `{TaskGraphRevisionValidator} : Prop := validator_follows context p o r :
  revision_validator context p = Some o -> oc_record o = Some r ->
  rr_runId r = rr_runId (cx_current context) /\
  rr_graphRevision r = rr_graphRevision (cx_current context) + 1.

Section Store.
Context `{ValidatorLaws}.
Context (start : TaskGraphRevisionRecord -> Prop).

(** The revisions of a run, the latest first. *)
Inductive chain : list TaskGraphRevisionRecord -> Prop :=
| chain_first r : start r -> rr_graphRevision r = 1 -> chain [r]
| chain_next context p o r rs :
    chain (cx_current context :: rs) -> revision_validator context p = Some o ->
    oc_record o = Some r -> chain (r :: cx_current context :: rs).

Lemma chain_run r rs : chain (r :: rs) -> forall x, x ∈ rs -> rr_runId x = rr_runId r.
Proof.
  intros Hc. remember (r :: rs) as l eqn:E. revert r rs E.
  induction Hc as [r0 _ _|context p o r0 rs0 Hc IH Hv Ho]; intros r rs [= -> <-]; [by intros x ?%elem_of_nil|].
  destruct (validator_follows _ _ _ _ Hv Ho) as [Er _]. intros x [->|Hx]%elem_of_cons; [done|].
  rewrite Er. by eapply IH.
Qed.

Lemma chain_revision r rs : chain (r :: rs) -> forall x, x ∈ rs -> rr_graphRevision x < rr_graphRevision r.
Proof.
  intros Hc. remember (r :: rs) as l eqn:E. revert r rs E.
  induction Hc as [r0 _ _|context p o r0 rs0 Hc IH Hv Ho]; intros r rs [= -> <-]; [by intros x ?%elem_of_nil|].
  destruct (validator_follows _ _ _ _ Hv Ho) as [_ Er]. intros x [->|Hx]%elem_of_cons; [lia|].
  specialize (IH _ _ eq_refl x Hx). lia.
Qed.

Lemma chain_tail r r0 rs : chain (r :: r0 :: rs) -> chain (r0 :: rs).
Proof. inversion 1; subst. done. Qed.

Lemma chain_sorted rs : chain rs ->
  StronglySorted (fun x y => rr_graphRevision x < rr_graphRevision y) (rev rs).
Proof.
  induction rs as [|r rs IH]; intros Hc; cbn [rev]; [constructor|].
  assert (StronglySorted (fun x y => rr_graphRevision x < rr_graphRevision y) (rev rs)) as Hs.
  { destruct rs as [|r0 rs]; [constructor|]. by eapply IH, chain_tail. }
  pose proof (chain_revision r rs Hc) as Hlt. apply StronglySorted_app_2; [|done|repeat constructor].
  intros x y Hx ->%list_elem_of_singleton. apply Hlt. by apply list_elem_of_In, in_rev, list_elem_of_In.
Qed.

Definition revision_row (r : TaskGraphRevisionRecord) : RevisionRow :=
  mkRevisionRow (rr_runId r) (rr_graphId r) (rr_graphRevision r) (rr_revisionSha256 r)
    (rr_predecessorRevisionSha256 r) (rr_decisionId r) r (rr_committedAt r).

Definition rows_of (run : string) (db : GraphDb) : list RevisionRow :=
  select_where (fun row => str_eqb (v_run_id row) run) (graph_revisions db).

(** A run is unknown to both tables, or has a chain the projection points into. *)
Definition tracked_by (projection : option GraphProjectionRow) (rows : list RevisionRow)
    (run : string) : Prop :=
  match projection with
  | None => rows = []
  | Some j =>
      exists r rs, chain (r :: rs) /\ rows = map revision_row (rev (r :: rs)) /\
        j_active_graph_revision j = rr_graphRevision r /\
        j_active_revision_sha256 j = rr_revisionSha256 r /\ rr_runId r = run
  end.

Definition tracked (db : GraphDb) (run : string) : Prop :=
  tracked_by (select_one (graph_run_is run) (graph_projections db)) (rows_of run db) run.

Record graph_inv (db : GraphDb) : Prop := {
  gv_unique : NoDup (map j_run_id (graph_projections db));
  gv_tracked : forall run, tracked db run
}.

Lemma select_one_filter {A} (p q : A -> bool) (l : list A) :
  (forall x, p x = true -> q x = true) ->
  select_one p (select_where q l) = select_one p l.
Proof.
  intros Hpq. unfold select_one, select_where. induction l as [|x l IH]; [done|]. cbn.
  destruct (q x) eqn:Eq; cbn; [by rewrite IH|]. destruct (p x) eqn:Ep; [|done].
  apply Hpq in Ep. congruence.
Qed.

Lemma active_spec db run :
  graph_inv db ->
  match active db run with
  | None => select_one (graph_run_is run) (graph_projections db) = None /\ rows_of run db = []
  | Some r =>
      exists rs j, chain (r :: rs) /\ rows_of run db = map revision_row (rev (r :: rs)) /\
        select_one (graph_run_is run) (graph_projections db) = Some j /\
        j_active_graph_revision j = rr_graphRevision r /\
        j_active_revision_sha256 j = rr_revisionSha256 r /\ rr_runId r = run
  end.
Proof.
  intros [_ Ht]. specialize (Ht run). unfold tracked, tracked_by in Ht. unfold active, activeRow.
  destruct (select_one (graph_run_is run) (graph_projections db)) as [j|] eqn:Ej; [|done].
  destruct Ht as (r & rs & Hc & Hrows & Ern & Esha & Erun).
  pose proof (select_one_Some _ _ _ Ej) as [_ Hrun]. apply str_eqb_true in Hrun.
  assert (select_one (revision_at (j_run_id j) (j_active_graph_revision j)) (graph_revisions db) =
    Some (revision_row r)) as ->; [|cbn; by exists rs, j].
  rewrite <-(select_one_filter _ (fun row => str_eqb (v_run_id row) run)).
  2:{ intros x [Hx _]%andb_prop. by rewrite <-Hrun. }
  change (select_where _ _) with (rows_of run db). rewrite Hrows.
  assert (revision_row r ∈ map revision_row (rev (r :: rs))) as Hin.
  { apply list_elem_of_fmap. exists r. split; [done|]. cbn [rev]. apply elem_of_app. right. by left. }
  apply (select_one_key v_graph_revision).
  - pose proof (chain_sorted _ Hc) as Hs. rewrite map_map.
    revert Hs. generalize (rev (r :: rs)). clear. induction l as [|x l IH]; cbn; [constructor|].
    intros [Hs Hf]%StronglySorted_inv. apply NoDup_cons. split; [|by apply IH].
    intros (y & E & Hy)%list_elem_of_fmap. cbn in E. rewrite Forall_forall in Hf. specialize (Hf y Hy). lia.
  - intros x [_ Hx%Z.eqb_eq]%andb_prop. cbn. congruence.
  - done.
  - unfold revision_at. cbn. rewrite Hrun, Erun, Ern, str_eqb_refl, Z.eqb_refl. done.
Qed.

(** ** Runs of the statements *)

Lemma require_run b m s u s' : require b m s = inr (u, s') -> b = true /\ s' = s.
Proof. destruct b; [|done]. by intros [= _ ->]. Qed.

Ltac graph_step H :=
  run_inv H;
  repeat match goal with
  | E : require _ _ _ = inr (_, _) |- _ => apply require_run in E as [E ?]; subst
  end.

Lemma insertRevisionRow_run row s u s' :
  insertRevisionRow row s = inr (u, s') -> s' = with_graph_revisions (fun rows => rows ++ [row]) s.
Proof. unfold insertRevisionRow. intros Hr. graph_step Hr. done. Qed.

Lemma insertDecisionRow_run row s u s' :
  insertDecisionRow row s = inr (u, s') -> s' = with_graph_decisions (fun rows => rows ++ [row]) s.
Proof. unfold insertDecisionRow. intros Hr. graph_step Hr. done. Qed.

Lemma insertProjectionRow_run row s u s' :
  insertProjectionRow row s = inr (u, s') ->
  s' = with_graph_projections (fun rows => rows ++ [row]) s.
Proof. unfold insertProjectionRow. intros Hr. graph_step Hr. done. Qed.

Definition projection_hit (run : string) (revision : Z) (sha : string) (row : GraphProjectionRow)
    : bool :=
  graph_run_is run row && (j_active_graph_revision row =? revision) &&
  str_eqb (j_active_revision_sha256 row) sha.

Lemma updateProjection_run run expected expectedSha revision sha at_ s n s' :
  updateProjection run expected expectedSha revision sha at_ s = inr (n, s') ->
  s' = with_graph_projections (update_where (projection_hit run expected expectedSha)
         (advanceProjection revision sha at_)) s.
Proof. unfold updateProjection. intros Hr. graph_step Hr. done. Qed.

(** ** The operations keep the invariant *)

Lemma rows_of_snoc run db row :
  rows_of run (with_graph_revisions (fun rows => rows ++ [row]) db) =
  rows_of run db ++ if str_eqb (v_run_id row) run then [row] else [].
Proof.
  unfold rows_of, select_where. cbn. rewrite List.filter_app. cbn. by destruct (str_eqb _ _).
Qed.

Lemma rows_of_projections run f db : rows_of run (with_graph_projections f db) = rows_of run db.
Proof. done. Qed.

Lemma initialize_inv record db r db' :
  initialize record db = inr (r, db') -> start record -> graph_inv db ->
  graph_inv db' /\ r = record.
Proof.
  unfold initialize. intros Hr Hs Hi. graph_step Hr.
  apply insertRevisionRow_run in E1 as ->. apply insertProjectionRow_run in E2 as ->.
  apply andb_prop in E as [E _]. apply andb_prop in E as [E1 _]. apply Z.eqb_eq in E1.
  pose proof (active_spec _ (rr_runId record) Hi) as Ha.
  destruct (active _ (rr_runId record)) eqn:Eact; [done|]. destruct Ha as [Hnone Hrows].
  split; [|done]. destruct Hi as [Hu Ht]. split.
  - cbn. apply snoc_NoDup; [done|]. intros j Hj. pose proof (select_one_None _ _ _ Hnone Hj) as Hne.
    by apply str_eqb_false in Hne.
  - intros run. specialize (Ht run). unfold tracked in *.
    rewrite rows_of_projections, rows_of_snoc. cbn [with_graph_projections graph_projections].
    rewrite select_one_snoc. cbn [v_run_id]. unfold graph_run_is at 2. cbn [j_run_id].
    cbn [with_graph_revisions graph_projections].
    destruct (str_eqb (rr_runId record) run) eqn:Er.
    + apply str_eqb_true in Er as <-. rewrite Hnone, Hrows. exists record, [].
      by split; [apply chain_first|].
    + rewrite app_nil_r. by destruct (select_one _ _).
Qed.

Lemma projection_hit_run run revision sha row :
  projection_hit run revision sha row = true -> j_run_id row = run.
Proof. intros Hh. apply andb_prop in Hh as [Hh _]. apply andb_prop in Hh as [Hh _]. by apply str_eqb_true in Hh. Qed.

(** A proposal either only records a decision or extends the chain of its run. *)
Lemma propose_inv input db o db' :
  propose input db = inr (o, db') -> graph_inv db ->
  graph_inv db' /\
  exists current, active db (pr_runId (pi_proposal input)) = Some current /\
    revision_validator (propose_context current input) (pi_proposal input) = Some o /\
    graph_decisions db' = graph_decisions db ++ [decision_row (oc_decision o)] /\
    match oc_record o with
    | None => graph_revisions db' = graph_revisions db /\ graph_projections db' = graph_projections db
    | Some r => graph_revisions db' = graph_revisions db ++ [revision_row r]
    end.
Proof.
  unfold propose. intros Hr Hi. run_inv Hr. rename a into current, a0 into outcome.
  apply insertDecisionRow_run in E as ->.
  pose proof (active_spec _ (pr_runId (pi_proposal input)) Hi) as Ha. rewrite E0 in Ha.
  destruct Ha as (rs & j & Hc & Hrows & Hj & Hrev & Hsha & Hrun). destruct Hi as [Hu Ht].
  destruct (oc_record outcome) as [r|] eqn:Eo; graph_step Hr.
  - apply insertRevisionRow_run in E as ->. apply updateProjection_run in E2 as ->.
    destruct (validator_follows _ _ _ _ E1 Eo) as [Er _]. cbn [propose_context cx_current] in Er.
    split; [split|].
    + cbn [with_graph_projections graph_projections]. rewrite update_map by done. done.
    + intros run. specialize (Ht run). unfold tracked in *.
      rewrite rows_of_projections, rows_of_snoc. cbn [v_run_id].
      cbn [with_graph_projections with_graph_revisions with_graph_decisions graph_projections].
      rewrite select_one_update by (intros x Hx%projection_hit_run; done).
      destruct (str_eqb (rr_runId r) run) eqn:Err.
      * apply str_eqb_true in Err as <-.
        assert (pr_runId (pi_proposal input) = rr_runId r) as Erun by congruence.
        rewrite Erun in Hj, Hrows. rewrite Hj. cbn [fmap option_fmap option_map].
        assert (projection_hit (rr_runId r) (rr_graphRevision current)
          (rr_revisionSha256 current) j = true) as ->.
        { unfold projection_hit. rewrite Hrev, Hsha, Z.eqb_refl, str_eqb_refl, !andb_true_r.
          by apply select_one_Some in Hj as [_ Hj]. }
        exists r, (current :: rs). split; [by eapply (chain_next (propose_context current input))|].
        change (rows_of _ _) with (rows_of (rr_runId r) db). rewrite Hrows.
        cbn [rev]. rewrite !map_app. split; done.
      * rewrite app_nil_r.
        assert (forall x, select_one (graph_run_is run) (graph_projections db) = Some x ->
          projection_hit (rr_runId r) (rr_graphRevision current) (rr_revisionSha256 current) x = false) as Hmiss.
        { intros x [_ Hx%str_eqb_true]%select_one_Some.
          destruct (projection_hit _ _ _ x) eqn:Eh; [|done]. apply projection_hit_run in Eh.
          apply str_eqb_false in Err. congruence. }
        destruct (select_one _ _) as [x|]; [|exact Ht]. cbn [fmap option_fmap option_map].
        rewrite (Hmiss x eq_refl). exact Ht.
    + exists current. split; [done|]. split; [done|]. by rewrite Eo.
  - split; [split; [done|]|].
    + intros run. apply Ht.
    + exists current. split; [done|]. split; [done|]. by rewrite Eo.
Qed.
End Store.

(** ** The service *)

Section Service.
Context `{Sha256}.

#[export] Instance validate_laws : ValidatorLaws (H := taskGraphRevisionValidator).
Proof.
  intros context p o r Hv Ho. apply (accepted_spec context p o Hv) in Ho as [Hok ->].
  split; [apply Hok|]. apply (ro_next _ _ Hok).
Qed.

Definition created (r : TaskGraphRevisionRecord) : Prop :=
  exists input, createInitialTaskGraphRevision input = Some (inr r).

Lemma chain_history rs : chain created rs <-> history rs.
Proof.
  split.
  - induction 1 as [r [input Hi] _|context p o r rs Hc IH Hv Ho]; [by eapply history_first|].
    by eapply history_next.
  - induction 1 as [input r Hi|context p o r rs Hh IH Hv Ho]; [|by eapply chain_next].
    apply chain_first; [by exists input|]. by apply initial_ok in Hi as (_ & E & _).
Qed.

Inductive GraphOperation :=
| GInitialize (input : InitialRevisionInput)
| GSubmit (input : ProposeInput).

(** The database after an operation: a thrown operation leaves it alone. *)
Definition graph_step (op : GraphOperation) (db : GraphDb) : GraphDb :=
  match op with
  | GInitialize input => match initializeGraph input db with inr (_, db') => db' | inl _ => db end
  | GSubmit input => match submit input db with inr (_, db') => db' | inl _ => db end
  end.

Definition graph_after (ops : list GraphOperation) (db : GraphDb) : GraphDb :=
  fold_left (fun db op => graph_step op db) ops db.

Definition empty_graphs (runs : list string) : GraphDb := mkGraphDb runs [] [] [].

Lemma initializeGraph_run input db r db' :
  initializeGraph input db = inr (r, db') ->
  exists record, createInitialTaskGraphRevision input = Some (inr record) /\
    initialize record db = inr (r, db').
Proof.
  unfold initializeGraph. intros Hr. run_step Hr. destruct a as [m|record]; [done|]. by exists record.
Qed.

Lemma graph_step_inv op db : graph_inv created db -> graph_inv created (graph_step op db).
Proof.
  intros Hi. destruct op as [input|input]; cbn [graph_step].
  - destruct (initializeGraph input db) as [e|[r db']] eqn:E; [done|].
    apply initializeGraph_run in E as (record & Ec & E).
    eapply initialize_inv; [exact E|by exists input|done].
  - destruct (submit input db) as [e|[o db']] eqn:E; [done|].
    by eapply propose_inv.
Qed.

Lemma graph_after_inv ops runs : graph_inv created (graph_after ops (empty_graphs runs)).
Proof.
  unfold graph_after. assert (graph_inv created (empty_graphs runs)) as Hi.
  { split; [constructor|]. intros run. done. }
  revert Hi. generalize (empty_graphs runs). induction ops as [|op ops IH]; intros db Hi; [done|].
  cbn. by apply IH, graph_step_inv.
Qed.

Lemma revisions_sorted db run rs :
  rows_of run db = map revision_row (rev rs) ->
  StronglySorted (fun x y => rr_graphRevision x < rr_graphRevision y) (rev rs) ->
  revisions db run = rev rs.
Proof.
  intros Hrows Hs. unfold revisions. change (select_where _ _) with (rows_of run db). rewrite Hrows.
  rewrite sort_by_id, map_map, map_id; [done|]. revert Hs. generalize (rev rs).
  induction l as [|x l IH]; cbn; [constructor|]. intros [Hs Hf]%StronglySorted_inv.
  constructor; [by apply IH|]. apply Forall_forall. intros y (z & -> & Hz)%list_elem_of_fmap.
  rewrite Forall_forall in Hf. specialize (Hf z Hz). unfold not_after, revision_lt. cbn.
  apply Z.ltb_ge. lia.
Qed.

(** C24: The store holds one history per run. After any initializations and submitted
    proposals, accepted, rejected or refused, a run either has no revision at all,
    or the revisions the store returns for it are a history (a created first
    revision, then each the accepted successor of the one before, none missing
    and none twice) and the active revision is the latest of them. *)
Theorem graph_store_refines runs ops run :
  let db := graph_after ops (empty_graphs runs) in
  match active db run with
  | None => revisions db run = []
  | Some r => exists rs, history (r :: rs) /\ revisions db run = rev (r :: rs) /\ rr_runId r = run
  end.
Proof.
  intros db. pose proof (active_spec created db run (graph_after_inv ops runs)) as Ha.
  destruct (active db run) as [r|].
  - destruct Ha as (rs & j & Hc & Hrows & _ & _ & _ & Hrun). exists rs.
    split; [by apply chain_history|]. split; [|done].
    apply revisions_sorted; [done|]. by apply (chain_sorted created).
  - destruct Ha as [_ Hrows]. unfold revisions. change (select_where _ _) with (rows_of run db).
    by rewrite Hrows.
Qed.

(** ** Submission *)

(** Every stored revision is of a known run. *)
Definition runs_known (db : GraphDb) : Prop :=
  forall row, row ∈ graph_revisions db -> v_run_id row ∈ run_ids db.

Lemma insertRecord_known record db u db' :
  insertRecord record db = inr (u, db') -> runs_known db ->
  runs_known db' /\ graph_projections db' = graph_projections db /\ run_ids db' = run_ids db.
Proof.
  unfold insertRecord, insertRevisionRow. intros Hr Hk. run_inv Hr.
  repeat match goal with E : require _ _ _ = inr (_, _) |- _ => apply require_run in E as [E ?]; subst end.
  split; [|done]. intros row [Hrow| ->]%elem_of_snoc; [by apply Hk|]. cbn.
  match goal with E : set_has _ _ && _ = true |- _ => apply andb_prop in E as [E _] end.
  by apply set_has_true.
Qed.

Lemma graph_step_known op db : runs_known db -> runs_known (graph_step op db).
Proof.
  intros Hk. destruct op as [input|input]; cbn [graph_step].
  - destruct (initializeGraph input db) as [e|[r db']] eqn:E; [done|].
    apply initializeGraph_run in E as (record & _ & E). unfold initialize in E. run_inv E.
    repeat match goal with E : require _ _ _ = inr (_, _) |- _ => apply require_run in E as [E ?]; subst end.
    match goal with E : insertProjectionRow _ _ = inr _ |- _ => apply insertProjectionRow_run in E as -> end.
    match goal with E : insertRecord _ _ = inr _ |- _ => by apply insertRecord_known in E as [E _] end.
  - destruct (submit input db) as [e|[o db']] eqn:E; [done|]. unfold submit, propose in E. run_inv E.
    match goal with E : insertDecisionRow _ _ = inr _ |- _ => apply insertDecisionRow_run in E as -> end.
    destruct (oc_record a0) as [record|]; run_inv E; [|done].
    repeat match goal with E : require _ _ _ = inr (_, _) |- _ => apply require_run in E as [E ?]; subst end.
    match goal with E : updateProjection _ _ _ _ _ _ _ = inr _ |- _ => apply updateProjection_run in E as -> end.
    match goal with E : insertRecord _ _ = inr _ |- _ => by apply insertRecord_known in E as [E _] end.
Qed.

Lemma graph_after_known ops runs : runs_known (graph_after ops (empty_graphs runs)).
Proof.
  assert (runs_known (empty_graphs runs)) as Hk by (intros row ?%elem_of_nil; done).
  unfold graph_after. revert Hk. generalize (empty_graphs runs).
  induction ops as [|op ops IH]; intros db Hk; [done|]. cbn. by apply IH, graph_step_known.
Qed.

(** *** Statements that go through *)

Lemma insertDecisionRow_ok row db :
  1 <= w_expected_graph_revision row -> sha_text (w_proposal_sha256 row) = true ->
  w_decision_id row ∉ map w_decision_id (graph_decisions db) -> w_run_id row ∈ run_ids db ->
  insertDecisionRow row db = inr (tt, with_graph_decisions (fun rows => rows ++ [row]) db).
Proof.
  intros H1 H2 H3 H4. unfold insertDecisionRow, bind, get, require.
  rewrite (proj2 (Z.leb_le _ _) H1), H2, (proj2 (set_has_true _ _) H4). cbn [andb ret].
  assert (exists_where (fun d => str_eqb (w_decision_id d) (w_decision_id row)) (graph_decisions db) =
    false) as ->; [|done].
  apply exists_where_false. intros d Hd. apply str_eqb_false. intros E. apply H3. rewrite <-E.
  by apply list_elem_of_fmap_2.
Qed.

Lemma insertRecord_ok current r db :
  revision_row current ∈ graph_revisions db -> rr_runId r = rr_runId current ->
  rr_graphId r = rr_graphId current -> 1 <= rr_graphRevision current ->
  rr_graphRevision r = rr_graphRevision current + 1 ->
  rr_predecessorRevisionSha256 r = Some (rr_revisionSha256 current) ->
  sha_text (rr_revisionSha256 r) = true -> sha_text (rr_revisionSha256 current) = true ->
  (forall row, row ∈ graph_revisions db -> v_run_id row = rr_runId r ->
     v_graph_revision row <= rr_graphRevision current /\
     v_revision_sha256 row <> rr_revisionSha256 r) ->
  rr_runId r ∈ run_ids db ->
  (exists id, rr_decisionId r = Some id /\ id ∈ map w_decision_id (graph_decisions db)) ->
  insertRecord r db = inr (tt, with_graph_revisions (fun rows => rows ++ [revision_row r]) db).
Proof.
  intros Hc Hrun Hg Hpos Hrev Hpre Hs Hsc Hrows Hk (id & Eid & Hid).
  unfold insertRecord, insertRevisionRow, bind, get, require. cbn [v_run_id v_graph_id v_graph_revision
    v_revision_sha256 v_predecessor_revision_sha256 v_decision_id].
  assert (exists_where (fun p => str_eqb (v_run_id p) (rr_runId r) && str_eqb (v_graph_id p) (rr_graphId r) &&
    (v_graph_revision p =? rr_graphRevision r - 1) &&
    bool_decide (Some (v_revision_sha256 p) = rr_predecessorRevisionSha256 r)) (graph_revisions db) = true) as ->.
  { apply exists_where_true. exists (revision_row current). split; [done|]. cbn.
    rewrite Hrun, Hg, Hrev, !str_eqb_refl, Hpre, bool_decide_true by done.
    rewrite (proj2 (Z.eqb_eq _ _)) by lia. done. }
  rewrite orb_true_r. cbn [ret]. rewrite Hpre, Eid, Hs, Hsc. cbn [is_none].
  rewrite (proj2 (Z.leb_le 1 (rr_graphRevision r))) by lia.
  rewrite (proj2 (Z.eqb_neq (rr_graphRevision r) 1)) by lia. cbn [andb Bool.eqb].
  assert (exists_where (revision_at (rr_runId r) (rr_graphRevision r)) (graph_revisions db) = false) as ->.
  { apply exists_where_false. intros row Hrow. apply not_true_iff_false. unfold revision_at.
    rewrite andb_true_iff, str_eqb_true, Z.eqb_eq. intros [E1 E2]. destruct (Hrows row Hrow E1). lia. }
  assert (exists_where (fun p => str_eqb (v_run_id p) (rr_runId r) &&
    str_eqb (v_revision_sha256 p) (rr_revisionSha256 r)) (graph_revisions db) = false) as ->.
  { apply exists_where_false. intros row Hrow. apply not_true_iff_false.
    rewrite andb_true_iff, !str_eqb_true. intros [E1 E2]. by destruct (Hrows row Hrow E1). }
  cbn [negb ret]. rewrite (proj2 (set_has_true _ _) Hk).
  assert (exists_where (fun d => str_eqb (w_decision_id d) id) (graph_decisions db) = true) as ->.
  { apply exists_where_true. apply list_elem_of_fmap in Hid as (d & E & Hd). exists d.
    split; [done|]. by apply str_eqb_true. }
  cbn [andb modify]. rewrite <-Hpre, <-Eid. done.
Qed.

Lemma updateProjection_ok run j revision sha next nextSha at_ db :
  NoDup (map j_run_id (graph_projections db)) ->
  select_one (graph_run_is run) (graph_projections db) = Some j ->
  j_active_graph_revision j = revision -> j_active_revision_sha256 j = sha ->
  next = revision + 1 -> sha_text nextSha = true ->
  exists_where (revision_at run next) (graph_revisions db) = true ->
  updateProjection run revision sha next nextSha at_ db =
  inr (1, with_graph_projections (update_where (projection_hit run revision sha)
            (advanceProjection next nextSha at_)) db).
Proof.
  intros Hu Hj Er Es Hn Hs He. pose proof (select_one_Some _ _ _ Hj) as [Hin Hrun].
  unfold updateProjection, bind, get, require. fold (projection_hit run revision sha).
  assert (forallb (fun row => negb (projection_hit run revision sha row) ||
    (next =? j_active_graph_revision row + 1)) (graph_projections db) = true) as Hall.
  { apply forallb_elem. intros row _. destruct (projection_hit run revision sha row) eqn:Eh; [|done].
    cbn [negb orb]. apply andb_prop in Eh as [[_ Eh]%andb_prop _]. apply Z.eqb_eq in Eh.
    apply Z.eqb_eq. lia. }
  unfold projection_hit in Hall |- *. rewrite Hall, He, Hs. cbn [andb ret]. rewrite orb_true_r.
  unfold modify, ret. f_equal. f_equal. apply Z.le_antisymm.
  - apply (count_where_key j_run_id); [done|]. intros x y Hx%projection_hit_run Hy%projection_hit_run.
    congruence.
  - apply (count_where_pos _ _ j); [done|]. rewrite Hrun, Er, Es, Z.eqb_refl, str_eqb_refl. done.
Qed.

Lemma decision_fields context p o :
  validateTaskGraphRevision context p = Some o ->
  dn_decisionId (oc_decision o) = cx_decisionId context /\ dn_runId (oc_decision o) = pr_runId p /\
  dn_expectedGraphRevision (oc_decision o) = pr_expectedGraphRevision p /\
  exists text, dn_proposalSha256 (oc_decision o) = sha256_hex text.
Proof.
  destruct (validate_eq context p) as (b & q & w1 & w2 & _ & _ & ->). intros [= <-].
  split; [done|]. split; [done|]. split; [done|]. by eexists.
Qed.

Lemma chain_head_facts r rs :
  history (r :: rs) -> 1 <= rr_graphRevision r /\ exists text, rr_revisionSha256 r = sha256_hex text.
Proof.
  intros Hh. apply history_ok in Hh as (Hall & _ & Hn). split; [rewrite Hn; cbn; lia|].
  apply Forall_cons in Hall as [Hr _]. rewrite (rk_hash _ Hr). by eexists.
Qed.

(** A submission up to the decision it records. *)
Lemma submit_decided db input current o :
  active db (pr_runId (pi_proposal input)) = Some current ->
  validateTaskGraphRevision (propose_context current input) (pi_proposal input) = Some o ->
  insertDecisionRow (decision_row (oc_decision o)) db =
    inr (tt, with_graph_decisions (fun rows => rows ++ [decision_row (oc_decision o)]) db) ->
  let db1 := with_graph_decisions (fun rows => rows ++ [decision_row (oc_decision o)]) db in
  match oc_record o with
  | None => submit input db = inr (o, db1)
  | Some r =>
      forall db2 db3, insertRecord r db1 = inr (tt, db2) ->
      updateProjection (rr_runId r) (rr_graphRevision current) (rr_revisionSha256 current)
        (rr_graphRevision r) (rr_revisionSha256 r) (rr_committedAt r) db2 = inr (1, db3) ->
      submit input db = inr (o, db3)
  end.
Proof.
  intros Ha Hv Hd db1. unfold submit, propose.
  erewrite bind_eq; [|reflexivity]. rewrite Ha. erewrite bind_eq; [|reflexivity].
  change (revision_validator ?c ?p) with (validateTaskGraphRevision c p). rewrite Hv.
  erewrite bind_eq; [|reflexivity]. erewrite bind_eq; [|exact Hd].
  destruct (oc_record o) as [r|]; [|done]. intros db2 db3 Hi Hu.
  erewrite bind_eq; [|exact Hi]. erewrite bind_eq; [|exact Hu].
  erewrite bind_eq; [|reflexivity]. done.
Qed.

(** The stored revisions of a run are the revisions of its history. *)
Lemma rows_of_history run rs db :
  rows_of run db = map revision_row (rev rs) ->
  (forall row, row ∈ graph_revisions db -> v_run_id row = run -> exists r, r ∈ rs /\ row = revision_row r) /\
  (forall r, r ∈ rs -> revision_row r ∈ graph_revisions db).
Proof.
  intros Hrows. split.
  - intros row Hin Er. assert (row ∈ rows_of run db) as Hr.
    { apply elem_of_select. by rewrite Er, str_eqb_refl. }
    rewrite Hrows in Hr. apply list_elem_of_fmap in Hr as (r & -> & Hr). exists r. split; [|done].
    apply list_elem_of_In, in_rev, list_elem_of_In. done.
  - intros r Hr. assert (revision_row r ∈ rows_of run db) as Hrow.
    { rewrite Hrows. apply list_elem_of_fmap. exists r. split; [done|].
      apply list_elem_of_In, in_rev. rewrite rev_involutive. by apply list_elem_of_In. }
    by apply elem_of_select in Hrow as [Hrow _].
Qed.

(** The stored revisions of a run say what is active. *)
Lemma rows_of_active run r rs db :
  graph_inv created db -> rows_of run db = map revision_row (rev (r :: rs)) ->
  active db run = Some r /\ revisions db run = rev (r :: rs).
Proof.
  intros Hi Hrows. pose proof (active_spec created db run Hi) as Ha.
  destruct (active db run) as [r'|].
  - destruct Ha as (rs' & j & Hc & Hr & _). rewrite Hrows in Hr.
    assert (rev (r :: rs) = rev (r' :: rs')) as E.
    { apply (f_equal (map v_record)) in Hr. by rewrite !map_map, !map_id in Hr. }
    apply (f_equal (@rev _)) in E. rewrite !rev_involutive in E. injection E as <- <-.
    split; [done|]. apply revisions_sorted; [done|]. by apply (chain_sorted created).
  - destruct Ha as [_ Ha]. rewrite Hrows in Ha. cbn [rev] in Ha. rewrite map_app in Ha.
    by apply app_nil in Ha as [_ ?].
Qed.

(** The writes of an accepted proposal go through: the row of the revision and
    the projection that names it. *)
Lemma accepted_writes db current r rs j :
  runs_known db -> NoDup (map j_run_id (graph_projections db)) ->
  rows_of (rr_runId current) db = map revision_row (rev (current :: rs)) ->
  history (current :: rs) ->
  select_one (graph_run_is (rr_runId current)) (graph_projections db) = Some j ->
  j_active_graph_revision j = rr_graphRevision current ->
  j_active_revision_sha256 j = rr_revisionSha256 current ->
  (forall text, sha_text (sha256_hex text) = true) ->
  rr_runId r = rr_runId current -> rr_graphId r = rr_graphId current ->
  rr_graphRevision r = rr_graphRevision current + 1 ->
  rr_predecessorRevisionSha256 r = Some (rr_revisionSha256 current) ->
  (exists text, rr_revisionSha256 r = sha256_hex text) ->
  rr_revisionSha256 r ∉ map rr_revisionSha256 (current :: rs) ->
  (exists id, rr_decisionId r = Some id /\ id ∈ map w_decision_id (graph_decisions db)) ->
  exists db', insertRecord r db = inr (tt, with_graph_revisions (fun rows => rows ++ [revision_row r]) db) /\
    updateProjection (rr_runId r) (rr_graphRevision current) (rr_revisionSha256 current)
      (rr_graphRevision r) (rr_revisionSha256 r) (rr_committedAt r)
      (with_graph_revisions (fun rows => rows ++ [revision_row r]) db) = inr (1, db') /\
    graph_decisions db' = graph_decisions db /\
    rows_of (rr_runId current) db' = map revision_row (rev (r :: current :: rs)).
Proof.
  intros Hk Hi Hrows Hh Hj Hrev Hjs Hsha Hrr Hrg Hrn Hpre [tr Htr] Hfresh Hid.
  destruct (chain_head_facts _ _ Hh) as [Hpos [text Htext]].
  destruct (rows_of_history _ _ _ Hrows) as [Hrow Hstored].
  pose proof (Hstored current (list_elem_of_here _ _)) as Hcur. eexists. split_and!.
  - apply (insertRecord_ok current); try done; [by rewrite Htr|by rewrite Htext| |].
    + intros row Hin Erow. destruct (Hrow row Hin) as (x & Hx & ->); [congruence|]. split.
      * apply elem_of_cons in Hx as [->|Hx]; cbn; [lia|]. apply Z.lt_le_incl.
        by apply (chain_revision created current rs (proj2 (chain_history _) Hh)).
      * cbn. intros E. apply Hfresh. rewrite <-E. by apply list_elem_of_fmap_2.
    + rewrite Hrr. apply (Hk _ Hcur).
  - rewrite Hrr. apply (updateProjection_ok _ j); try done; [by rewrite Htr|].
    apply exists_where_true. exists (revision_row r). split; [by apply elem_of_snoc; right|].
    unfold revision_at. cbn. by rewrite Hrr, str_eqb_refl, Z.eqb_refl.
  - done.
  - rewrite rows_of_projections, rows_of_snoc. cbn [revision_row v_run_id].
    rewrite Hrr, str_eqb_refl, Hrows. cbn [rev]. by rewrite !map_app.
Qed.

(** A submission whose ids and digests are new goes through. *)
Lemma submission_decided db input current :
  let p := pi_proposal input in
  let context := propose_context current input in
  graph_inv created db -> runs_known db ->
  active db (pr_runId p) = Some current ->
  (forall text, sha_text (sha256_hex text) = true) ->
  1 <= pr_expectedGraphRevision p ->
  pi_decisionId input ∉ map w_decision_id (graph_decisions db) ->
  rr_revisionSha256 (successor context p) ∉ map rr_revisionSha256 (revisions db (pr_runId p)) ->
  exists o db', submit input db = inr (o, db') /\
    graph_decisions db' = graph_decisions db ++ [decision_row (oc_decision o)] /\
    ((revision_ok context p /\ active db' (pr_runId p) = Some (successor context p) /\
      revisions db' (pr_runId p) = revisions db (pr_runId p) ++ [successor context p]) \/
     (~ revision_ok context p /\ dn_diagnostics (oc_decision o) <> [] /\
      graph_revisions db' = graph_revisions db /\ active db' (pr_runId p) = Some current)).
Proof.
  intros p context Hi Hk Ha Hsha Hexp Hid Hfresh. pose proof (active_spec created db (pr_runId p) Hi) as Hspec. rewrite Ha in Hspec.
  destruct Hspec as (rs & j & Hc%chain_history & Hrows & Hj & Hrev & Hjs & Hrun).
  destruct (rows_of_active _ _ _ _ Hi Hrows) as [_ Hhist].
  destruct (validate_eq context p) as (b & q & w1 & w2 & _ & _ & Hv).
  remember (revisionOutcome _ _ w1 w2) as o eqn:Eo. clear Eo.
  destruct (decision_fields context p o Hv) as (D1 & D2 & D3 & t & D4).
  destruct (accepted_spec context p o Hv) as (_ & Hdiag & Hrec).
  pose proof (submit_decided db input current o Ha Hv) as Hsub.
  rewrite insertDecisionRow_ok in Hsub; cbn [decision_row w_expected_graph_revision
    w_proposal_sha256 w_decision_id w_run_id]; [|by rewrite D3|by rewrite D4|by rewrite D1|].
  2:{ rewrite D2, <-Hrun. apply (Hk (revision_row current)). eapply rows_of_history; [done|left]. }
  specialize (Hsub eq_refl). cbv zeta in Hsub.
  destruct (oc_record o) as [r|] eqn:Er.
  - destruct (proj1 (Hrec r) eq_refl) as [Hok Esucc].
    pose proof (validate_laws context p o r Hv Er) as [Hrr Hrn]. rewrite <-Hrun in Hrows, Hj.
    destruct (accepted_writes (with_graph_decisions (fun rows => rows ++ [decision_row (oc_decision o)]) db)
      current r rs j) as (db' & Hins & Hupd & Hd & Hrows'); try done.
    + apply (gv_unique _ _ Hi).
    + rewrite Esucc. apply (ro_graph _ _ Hok).
    + by rewrite Esucc.
    + rewrite Esucc. by eexists.
    + rewrite Esucc. intros Hin. apply Hfresh. rewrite Hhist, map_rev.
      by apply list_elem_of_In, in_rev; rewrite rev_involutive; apply list_elem_of_In.
    + exists (cx_decisionId context). split; [by rewrite Esucc|]. cbn. rewrite map_app.
      apply elem_of_app. right. cbn. rewrite D1. by left.
    + specialize (Hsub _ _ Hins Hupd). pose proof (propose_inv created input db o _ Hsub Hi) as [Hi' _].
      rewrite Hrun in Hrows'. destruct (rows_of_active _ _ _ _ Hi' Hrows') as [Hact Hall].
      exists o, db'. split; [done|]. split; [done|]. left. rewrite <-Esucc. split; [done|]. split; [done|].
      by rewrite Hall, Hhist.
  - exists o. eexists. split; [exact Hsub|]. split; [done|]. right. split_and!; try done.
    + intros Hok. discriminate (proj2 (Hrec (successor context p)) (conj Hok eq_refl)).
    + intros E. apply Hdiag in E. discriminate (proj2 (Hrec (successor context p)) (conj E eq_refl)).
Qed.

(** Submitting a proposal decides it. Take a store reached by any operations and a
    proposal for a run with an active revision, under a new decision id, with
    digests of the form the schema asks for and, for the new revision, not used
    by the run before. Then the submission returns and its decision is recorded.
    When the proposal is acceptable to the active revision, its successor becomes
    the active revision; otherwise there are diagnostics, and no revision is
    added and the active one stays. *)
Theorem submit_decides runs ops input current :
  let db := graph_after ops (empty_graphs runs) in
  let p := pi_proposal input in
  let context := propose_context current input in
  active db (pr_runId p) = Some current ->
  (forall text, sha_text (sha256_hex text) = true) ->
  1 <= pr_expectedGraphRevision p ->
  pi_decisionId input ∉ map w_decision_id (graph_decisions db) ->
  rr_revisionSha256 (successor context p) ∉ map rr_revisionSha256 (revisions db (pr_runId p)) ->
  exists o db', submit input db = inr (o, db') /\
    graph_decisions db' = graph_decisions db ++ [decision_row (oc_decision o)] /\
    ((revision_ok context p /\ active db' (pr_runId p) = Some (successor context p) /\
      revisions db' (pr_runId p) = revisions db (pr_runId p) ++ [successor context p]) \/
     (~ revision_ok context p /\ dn_diagnostics (oc_decision o) <> [] /\
      graph_revisions db' = graph_revisions db /\ active db' (pr_runId p) = Some current)).
Proof.
  intros db p context. apply submission_decided; [apply graph_after_inv|apply graph_after_known].
Qed.
End Service.

(** ** A concrete store *)

(** A digest to run the code with: the same digit throughout, chosen by the
    length of the text. *)
#[local] Instance digit_digest : Sha256 := fun text =>
  String.string_of_list_ascii (repeat (ascii_of_nat (48 + String.length text mod 7)) 64).

Lemma digit_digest_hex text : sha_text (sha256_hex text) = true.
Proof.
  unfold sha256_hex, digit_digest.
  pose proof (Nat.mod_upper_bound (String.length text) 7 ltac:(lia)) as Hm.
  generalize (String.length text mod 7)%nat, Hm. clear. intros n Hn.
  do 7 (destruct n as [|n]; [vm_compute; reflexivity|]). lia.
Qed.

Definition stored : GraphDb := graph_after [GInitialize first_input] (empty_graphs ["run"]).

Definition stored_revision : TaskGraphRevisionRecord := default no_record (active stored "run").

(** A third task is added once [a] has settled. *)
Definition stored_submission : ProposeInput :=
  mkPropose (mkProposal "run" "graph" 1 (rr_revisionSha256 stored_revision) (small_dag 2 three_nodes)
      add_changes [mkMapping "item" "R1" ["b"] ["c"; "b"] "covered by b and c"] "more" ["evidence"]
      "2026-01-02T00:00:00Z" None)
    [task_state "a" to_succeeded true; task_state "b" to_not_started false] 5 "decision-1"
    "2026-01-02T00:00:00Z" None.

Lemma submit_decides_witness :
  exists o db', submit stored_submission stored = inr (o, db') /\
    graph_decisions db' = [decision_row (oc_decision o)].
Proof.
  destruct (submit_decides ["run"] [GInitialize first_input] stored_submission stored_revision)
    as (o & db' & Hs & Hd & _).
  - vm_compute. reflexivity.
  - exact digit_digest_hex.
  - vm_compute. discriminate.
  - vm_compute. intros Hin. inversion Hin.
  - rewrite list_elem_of_In. vm_compute. intros [E|[]]. discriminate E.
  - exists o, db'. split; [exact Hs|]. rewrite Hd. reflexivity.
Defined.
