(* ===== verification/WaveStore.v ===== *)
(** * Waves of tasks: the store

    [packages/state/src/task-graph/wave-store.ts] with the tables of migration 23
    ([migrations/task-wave-scheduler.ts]), and the one write another store makes
    to them ([task-graph/integration-store.ts], the gates of a succeeded task).

    A task of a graph has a lifecycle row.  Dispatching it records the dispatch,
    takes one lease for each resource it needs (a worker, an account slot, its
    workspace, each repository it writes) and moves it on; settling it releases
    the leases.

    An operation is a [WOp]: it reads and writes the database or throws, and a
    throw discards what the operation wrote ([transaction] rolls back).  The
    [n]-th reading of the clock is an arbitrary text.  The JSON columns hold the
    values they are the canonical text of. *)

From S2P Require Import Prelude TaskDag TaskWave SqlList.

Local Open Scope Z_scope.
Local Open Scope st_scope.

(** ** Contracts *)

Inductive TaskLifecyclePhase :=
  | ph_not_started | ph_dispatching | ph_active | ph_retrying | ph_cancelling | ph_recovery_required
  | ph_succeeded | ph_failed | ph_cancelled | ph_blocked.

#[export] Instance TaskLifecyclePhase_eq : EqDecision TaskLifecyclePhase.
Proof. solve_decision. Defined.

Definition phase_text (phase : TaskLifecyclePhase) : string :=
  match phase with
  | ph_not_started => "not_started" | ph_dispatching => "dispatching" | ph_active => "active"
  | ph_retrying => "retrying" | ph_cancelling => "cancelling"
  | ph_recovery_required => "recovery_required" | ph_succeeded => "succeeded" | ph_failed => "failed"
  | ph_cancelled => "cancelled" | ph_blocked => "blocked"
  end.

Inductive PropagationCode := pc_predecessor_failed | pc_predecessor_cancelled | pc_predecessor_blocked.

Record TaskPropagationReason := mkPropagation {
  tr_code : PropagationCode;
  tr_immediateTaskId : string;
  tr_rootTaskId : string;
  tr_path : list string }.

(** A row of [task_lifecycle_projection]; [lifecycleFrom] reads its columns. *)
Record TaskLifecycleProjection := mkLifecycle {
  lp_runId : string;
  lp_taskId : string;
  lp_graphRevision : Z;
  lp_phase : TaskLifecyclePhase;
  lp_childRunId : option string;
  lp_attemptOrdinal : Z;
  lp_retryCount : Z;
  lp_blockReason : option TaskPropagationReason;
  lp_completionContract : CompletionGate;
  lp_integration : IntegrationGate;
  lp_combinedVerification : CompletionGate;
  lp_revision : Z;
  lp_updatedAt : string }.

Inductive TaskCapacityScope := cs_global | cs_account | cs_workspace | cs_repository.

#[export] Instance TaskCapacityScope_eq : EqDecision TaskCapacityScope.
Proof. solve_decision. Defined.

(** A row of [task_capacity_lease]: active until it has a time of release. *)
Record TaskCapacityLease := mkCapacityLease {
  cl_leaseId : string;
  cl_runId : string;
  cl_taskId : string;
  cl_scope : TaskCapacityScope;
  cl_resourceId : string;
  cl_fencingRevision : Z;
  cl_released : bool;
  cl_acquiredAt : string;
  cl_releasedAt : option string }.

Record TaskDispatchRecord := mkDispatch {
  ds_dispatchId : string;
  ds_runId : string;
  ds_taskId : string;
  ds_graphRevision : Z;
  ds_waveOrdinal : Z;
  ds_childRunId : string;
  ds_pipelineId : string;
  ds_profileId : string;
  ds_accountId : option string;
  ds_workspaceId : string;
  ds_repositoryIds : list string;
  ds_recordedAt : string }.

(** The [kind] of an audit event with its [detail]. *)
Inductive AuditKind :=
  | wave_planned (selectedTaskIds : list string)
  | capacity_acquired (resources : list (TaskCapacityScope * string))
  | task_dispatched (childRunId : string)
  | task_retrying (retryCount : Z)
  | cancellation_requested
  | task_settled (phase : TaskLifecyclePhase)
  | task_blocked (reason : TaskPropagationReason)
  | capacity_released (count : Z)
  | recovery_is_required.

Record TaskWaveAuditEvent := mkAudit {
  ae_eventId : string;
  ae_runId : string;
  ae_taskId : option string;
  ae_kind : AuditKind;
  ae_recordedAt : string }.

(** A row of [task_wave_plan]. *)
Record PlanRow := mkPlanRow {
  pw_runId : string;
  pw_graphRevision : Z;
  pw_waveOrdinal : Z;
  pw_plan : TaskWavePlan;
  pw_plannedAt : string }.

(** The tables, the ids of [run_projection] they refer to, and how many ids and
    times have been read. *)
Record WaveDb := mkWaveDb {
  wave_runs : list string;
  lifecycles : list TaskLifecycleProjection;
  wave_plans : list PlanRow;
  dispatch_records : list TaskDispatchRecord;
  capacity_leases : list TaskCapacityLease;
  audit_events : list TaskWaveAuditEvent;
  ids_read : nat;
  times_read : nat }.

Inductive WaveError :=
  | StateStoreError (message : string)
  | TaskCapacityConflictError (scope : TaskCapacityScope) (resourceId : string)
  | ConstraintError (what : string)
  | ServiceError (message : string).

Definition WOp (A : Type) : Type := ST WaveDb WaveError A.

Definition with_lifecycles f (db : WaveDb) : WaveDb :=
  mkWaveDb (wave_runs db) (f (lifecycles db)) (wave_plans db) (dispatch_records db)
    (capacity_leases db) (audit_events db) (ids_read db) (times_read db).
Definition with_plans f (db : WaveDb) : WaveDb :=
  mkWaveDb (wave_runs db) (lifecycles db) (f (wave_plans db)) (dispatch_records db)
    (capacity_leases db) (audit_events db) (ids_read db) (times_read db).
Definition with_dispatches f (db : WaveDb) : WaveDb :=
  mkWaveDb (wave_runs db) (lifecycles db) (wave_plans db) (f (dispatch_records db))
    (capacity_leases db) (audit_events db) (ids_read db) (times_read db).
Definition with_leases f (db : WaveDb) : WaveDb :=
  mkWaveDb (wave_runs db) (lifecycles db) (wave_plans db) (dispatch_records db)
    (f (capacity_leases db)) (audit_events db) (ids_read db) (times_read db).
Definition with_audit f (db : WaveDb) : WaveDb :=
  mkWaveDb (wave_runs db) (lifecycles db) (wave_plans db) (dispatch_records db)
    (capacity_leases db) (f (audit_events db)) (ids_read db) (times_read db).
Definition with_reads (ids times : nat) (db : WaveDb) : WaveDb :=
  mkWaveDb (wave_runs db) (lifecycles db) (wave_plans db) (dispatch_records db)
    (capacity_leases db) (audit_events db) ids times.

(** The clock of [determinism.ts]: the text of its [n]-th reading. *)
Class Clock := clock_text : nat -> string.

(** [String.prototype.localeCompare], whose order depends on the locale. *)
Class LocaleCompare := localeCompare : string -> string -> Z.

Definition locale_lt `{LocaleCompare} (l r : string) : bool := localeCompare l r <? 0.

(** ** Statements, with the constraints and triggers of their tables *)

Definition phase_in (phases : list TaskLifecyclePhase) (phase : TaskLifecyclePhase) : bool :=
  bool_decide (phase ∈ phases).

(** The phases of a task that was dispatched and has not settled. *)
Definition running_phases : list TaskLifecyclePhase :=
  [ph_dispatching; ph_active; ph_retrying; ph_cancelling; ph_recovery_required].

Definition terminal_phases : list TaskLifecyclePhase := [ph_succeeded; ph_failed; ph_cancelled; ph_blocked].

Definition present {A} (o : option A) : bool := match o with Some _ => true | None => false end.

(** The [CHECK]s of [task_lifecycle_projection]. *)
Definition lifecycle_check (row : TaskLifecycleProjection) : bool :=
  (1 <=? lp_graphRevision row) && (0 <=? lp_attemptOrdinal row) && (0 <=? lp_retryCount row) &&
  (1 <=? lp_revision row) &&
  (negb (phase_in (running_phases ++ [ph_succeeded; ph_failed]) (lp_phase row)) || present (lp_childRunId row)) &&
  (negb (phase_in [ph_not_started; ph_blocked] (lp_phase row)) || negb (present (lp_childRunId row))) &&
  Bool.eqb (phase_in [ph_blocked] (lp_phase row)) (present (lp_blockReason row)).

Definition task_row (runId taskId : string) (row : TaskLifecycleProjection) : bool :=
  str_eqb (lp_runId row) runId && str_eqb (lp_taskId row) taskId.

(** The trigger [task_lifecycle_causal_update]. *)
Definition causal_update (old new : TaskLifecycleProjection) : bool :=
  (lp_revision new =? lp_revision old + 1) && str_eqb (lp_runId new) (lp_runId old) &&
  str_eqb (lp_taskId new) (lp_taskId old) && (lp_graphRevision old <=? lp_graphRevision new).

(** The trigger [task_lifecycle_terminal]. *)
Definition terminal_kept (old new : TaskLifecycleProjection) : bool :=
  negb (phase_in terminal_phases (lp_phase old)) || bool_decide (lp_phase new = lp_phase old).

(** [UNIQUE (child_run_id)]: nulls are distinct. *)
Definition unique_children (rows : list TaskLifecycleProjection) : bool :=
  bool_decide (NoDup (omap lp_childRunId rows)).

(** [UPDATE task_lifecycle_projection SET f WHERE p], with its [changes]. *)
Definition updateLifecycles (p : TaskLifecycleProjection -> bool)
    (f : TaskLifecycleProjection -> TaskLifecycleProjection) : WOp Z :=
  let* db := get in
  let hits := select_where p (lifecycles db) in
  ensure (forallb (fun row => causal_update row (f row)) hits)
    (ConstraintError "task lifecycle projection must advance causally") ;;;
  ensure (forallb (fun row => terminal_kept row (f row)) hits)
    (ConstraintError "terminal task lifecycle cannot transition") ;;;
  ensure (forallb (fun row => lifecycle_check (f row)) hits) (ConstraintError "CHECK") ;;;
  ensure (unique_children (update_where p f (lifecycles db)))
    (ConstraintError "task_lifecycle_projection.child_run_id") ;;;
  modify (with_lifecycles (update_where p f)) ;;;
  ret (count_where p (lifecycles db)).

(** [INSERT INTO task_lifecycle_projection] with the trigger
    [task_lifecycle_first_revision]. *)
Definition insertLifecycle (row : TaskLifecycleProjection) : WOp unit :=
  let* db := get in
  ensure (lp_revision row =? 1) (ConstraintError "first task lifecycle revision must be 1") ;;;
  ensure (lifecycle_check row) (ConstraintError "CHECK") ;;;
  ensure (negb (exists_where (task_row (lp_runId row) (lp_taskId row)) (lifecycles db)))
    (ConstraintError "task_lifecycle_projection.run_id, task_id") ;;;
  ensure (unique_children (lifecycles db ++ [row]))
    (ConstraintError "task_lifecycle_projection.child_run_id") ;;;
  ensure (set_has (wave_runs db) (lp_runId row)) (ConstraintError "FOREIGN KEY") ;;;
  modify (with_lifecycles (fun rows => rows ++ [row])).

Definition plan_at (runId : string) (graphRevision waveOrdinal : Z) (row : PlanRow) : bool :=
  str_eqb (pw_runId row) runId && (pw_graphRevision row =? graphRevision) &&
  (pw_waveOrdinal row =? waveOrdinal).

(** [INSERT INTO task_wave_plan]. *)
Definition insertPlan (row : PlanRow) : WOp unit :=
  let* db := get in
  ensure ((1 <=? pw_graphRevision row) && (1 <=? pw_waveOrdinal row)) (ConstraintError "CHECK") ;;;
  ensure (negb (exists_where (plan_at (pw_runId row) (pw_graphRevision row) (pw_waveOrdinal row))
                  (wave_plans db)))
    (ConstraintError "task_wave_plan.run_id, graph_revision, wave_ordinal") ;;;
  ensure (set_has (wave_runs db) (pw_runId row)) (ConstraintError "FOREIGN KEY") ;;;
  modify (with_plans (fun rows => rows ++ [row])).

Definition dispatch_of (runId taskId : string) (graphRevision : Z) (row : TaskDispatchRecord) : bool :=
  str_eqb (ds_runId row) runId && str_eqb (ds_taskId row) taskId &&
  (ds_graphRevision row =? graphRevision).

(** [INSERT INTO task_dispatch_record]. *)
Definition insertDispatch (row : TaskDispatchRecord) : WOp unit :=
  let* db := get in
  ensure (negb (exists_where (fun d => str_eqb (ds_dispatchId d) (ds_dispatchId row))
                  (dispatch_records db))) (ConstraintError "task_dispatch_record.dispatch_id") ;;;
  ensure (negb (exists_where (fun d => str_eqb (ds_childRunId d) (ds_childRunId row))
                  (dispatch_records db))) (ConstraintError "task_dispatch_record.child_run_id") ;;;
  ensure (negb (exists_where (dispatch_of (ds_runId row) (ds_taskId row) (ds_graphRevision row))
                  (dispatch_records db)))
    (ConstraintError "task_dispatch_record.run_id, task_id, graph_revision") ;;;
  ensure (set_has (wave_runs db) (ds_runId row) &&
          exists_where (task_row (ds_runId row) (ds_taskId row)) (lifecycles db))
    (ConstraintError "FOREIGN KEY") ;;;
  modify (with_dispatches (fun rows => rows ++ [row])).

Definition exclusive (scope : TaskCapacityScope) : bool :=
  match scope with cs_workspace | cs_repository => true | cs_global | cs_account => false end.

Definition lease_on (scope : TaskCapacityScope) (resourceId : string) (l : TaskCapacityLease) : bool :=
  bool_decide (cl_scope l = scope) && str_eqb (cl_resourceId l) resourceId.

Definition active_on (scope : TaskCapacityScope) (resourceId : string) (l : TaskCapacityLease) : bool :=
  lease_on scope resourceId l && negb (cl_released l).

Definition held_by (runId taskId : string) (l : TaskCapacityLease) : bool :=
  str_eqb (cl_runId l) runId && str_eqb (cl_taskId l) taskId.

(** [INSERT INTO task_capacity_lease]: the keys of the table and the index
    [task_capacity_exclusive_active]. *)
Definition insertLease (row : TaskCapacityLease) : WOp unit :=
  let* db := get in
  ensure ((1 <=? cl_fencingRevision row) && Bool.eqb (cl_released row) (present (cl_releasedAt row)))
    (ConstraintError "CHECK") ;;;
  ensure (negb (exists_where (fun l => str_eqb (cl_leaseId l) (cl_leaseId row)) (capacity_leases db)))
    (ConstraintError "task_capacity_lease.lease_id") ;;;
  ensure (negb (exists_where (fun l => held_by (cl_runId row) (cl_taskId row) l &&
                                       lease_on (cl_scope row) (cl_resourceId row) l)
                  (capacity_leases db)))
    (ConstraintError "task_capacity_lease.run_id, task_id, scope, resource_id") ;;;
  ensure (cl_released row || negb (exclusive (cl_scope row)) ||
          negb (exists_where (active_on (cl_scope row) (cl_resourceId row)) (capacity_leases db)))
    (ConstraintError "task_capacity_exclusive_active") ;;;
  ensure (exists_where (task_row (cl_runId row) (cl_taskId row)) (lifecycles db))
    (ConstraintError "FOREIGN KEY") ;;;
  modify (with_leases (fun rows => rows ++ [row])).

(** ** The operations *)

#[export] Instance TaskDagDiagnostic_eq : EqDecision TaskDagDiagnostic.
Proof. solve_decision. Defined.
#[export] Instance TaskDagValidationResult_eq : EqDecision TaskDagValidationResult.
Proof. solve_decision. Defined.
#[export] Instance TaskWaveBlockingCode_eq : EqDecision TaskWaveBlockingCode.
Proof. solve_decision. Defined.
#[export] Instance Reason_eq : EqDecision Reason.
Proof. solve_decision. Defined.
#[export] Instance TaskEligibilityDecision_eq : EqDecision TaskEligibilityDecision.
Proof. solve_decision. Defined.
#[export] Instance TaskWavePlan_eq : EqDecision TaskWavePlan.
Proof. solve_decision. Defined.

Section Store.
Context `{IdGenerator} `{Clock} `{LocaleCompare}.

Definition nextId (prefix : string) : WOp string :=
  let* db := get in
  modify (with_reads (S (ids_read db)) (times_read db)) ;;;
  ret (id_text prefix (ids_read db)).

Definition nowIso : WOp string :=
  let* db := get in
  modify (with_reads (ids_read db) (S (times_read db))) ;;;
  ret (clock_text (times_read db)).

Definition planningOutcome (phase : TaskLifecyclePhase) : TaskPlanningOutcome :=
  match phase with
  | ph_not_started => to_not_started
  | ph_succeeded => to_succeeded
  | ph_failed => to_failed
  | ph_cancelled => to_cancelled
  | ph_blocked => to_blocked
  | ph_dispatching | ph_active | ph_retrying | ph_cancelling | ph_recovery_required => to_active
  end.

Definition readOne (runId taskId : string) : WOp TaskLifecycleProjection :=
  let* db := get in
  orThrow (StateStoreError ("unknown task lifecycle " +:+ runId +:+ "/" +:+ taskId))
    (select_one (task_row runId taskId) (lifecycles db)).

(** [INSERT INTO task_wave_audit_event]. *)
Definition audit (runId : string) (taskId : option string) (kind : AuditKind) (recordedAt : string)
    : WOp unit :=
  let* eventId := nextId "task-wave-event" in
  let* db := get in
  ensure (negb (exists_where (fun e => str_eqb (ae_eventId e) eventId) (audit_events db)))
    (ConstraintError "task_wave_audit_event.event_id") ;;;
  ensure (set_has (wave_runs db) runId) (ConstraintError "FOREIGN KEY") ;;;
  modify (with_audit (fun rows => rows ++ [mkAudit eventId runId taskId kind recordedAt])).

(** [SET phase = ?, revision = revision + 1, updated_at = ?]. *)
Definition setPhase (phase : TaskLifecyclePhase) (now : string) (row : TaskLifecycleProjection)
    : TaskLifecycleProjection :=
  mkLifecycle (lp_runId row) (lp_taskId row) (lp_graphRevision row) phase (lp_childRunId row)
    (lp_attemptOrdinal row) (lp_retryCount row) (lp_blockReason row) (lp_completionContract row)
    (lp_integration row) (lp_combinedVerification row) (lp_revision row + 1) now.

(** [, retry_count = retry_count + 1, attempt_ordinal = attempt_ordinal + 1]. *)
Definition countRetry (row : TaskLifecycleProjection) : TaskLifecycleProjection :=
  mkLifecycle (lp_runId row) (lp_taskId row) (lp_graphRevision row) (lp_phase row)
    (lp_childRunId row) (lp_attemptOrdinal row + 1) (lp_retryCount row + 1) (lp_blockReason row)
    (lp_completionContract row) (lp_integration row) (lp_combinedVerification row)
    (lp_revision row) (lp_updatedAt row).

Definition task_from (runId taskId : string) (from : list TaskLifecyclePhase)
    (row : TaskLifecycleProjection) : bool :=
  task_row runId taskId row && phase_in from (lp_phase row).

Definition updatePhase (runId taskId : string) (from : list TaskLifecyclePhase)
    (phase : TaskLifecyclePhase) (extraSql : TaskLifecycleProjection -> TaskLifecycleProjection)
    : WOp TaskLifecycleProjection :=
  let* now := nowIso in
  let* changes := updateLifecycles (task_from runId taskId from)
                    (fun row => extraSql (setPhase phase now row)) in
  if negb (changes =? 1) then
    let* current := readOne runId taskId in
    if bool_decide (lp_phase current = phase) then ret current
    else throw (StateStoreError ("invalid task transition " +:+ phase_text (lp_phase current) +:+
                                 " -> " +:+ phase_text phase))
  else readOne runId taskId.

Definition releasedLease (now : string) (l : TaskCapacityLease) : TaskCapacityLease :=
  mkCapacityLease (cl_leaseId l) (cl_runId l) (cl_taskId l) (cl_scope l) (cl_resourceId l)
    (cl_fencingRevision l + 1) true (cl_acquiredAt l) (Some now).

(** The identity of a lease stays and no released one is updated, as the triggers
    of the table ask. *)
Definition release (runId taskId : string) (now : string) : WOp Z :=
  let* db := get in
  let hit l := held_by runId taskId l && negb (cl_released l) in
  let changes := count_where hit (capacity_leases db) in
  modify (with_leases (update_where hit (releasedLease now))) ;;;
  (if 0 <? changes then audit runId (Some taskId) (capacity_released changes) now else ret tt) ;;;
  ret changes.

Definition newLifecycle (runId taskId : string) (graphRevision : Z) (now : string)
    : TaskLifecycleProjection :=
  mkLifecycle runId taskId graphRevision ph_not_started None 0 0 None cg_pending ig_pending
    cg_pending 1 now.

Definition moveRevision (graphRevision : Z) (now : string) (row : TaskLifecycleProjection)
    : TaskLifecycleProjection :=
  mkLifecycle (lp_runId row) (lp_taskId row) graphRevision (lp_phase row) (lp_childRunId row)
    (lp_attemptOrdinal row) (lp_retryCount row) (lp_blockReason row) (lp_completionContract row)
    (lp_integration row) (lp_combinedVerification row) (lp_revision row + 1) now.

Definition initializeTask (runId : string) (graphRevision : Z) (now taskId : string) : WOp unit :=
  let* db := get in
  match select_one (task_row runId taskId) (lifecycles db) with
  | None => insertLifecycle (newLifecycle runId taskId graphRevision now)
  | Some existing =>
      if bool_decide (lp_phase existing = ph_not_started) &&
         negb (lp_graphRevision existing =? graphRevision)
      then let* _ := updateLifecycles (task_row runId taskId) (moveRevision graphRevision now) in
           ret tt
      else ret tt
  end.

Definition initialize (runId : string) (graphRevision : Z) (taskIds : list string) : WOp unit :=
  let* now := nowIso in
  forM (sort_strings taskIds) (initializeTask runId graphRevision now).

Definition projections (db : WaveDb) (runId : string) : list TaskLifecycleProjection :=
  sort_key lp_taskId (select_where (fun row => str_eqb (lp_runId row) runId) (lifecycles db)).

Definition planningState (task : TaskLifecycleProjection) : TaskPlanningState :=
  {| tp_taskId := lp_taskId task; tp_outcome := planningOutcome (lp_phase task);
     tp_completionContract := lp_completionContract task;
     tp_integration := lp_integration task;
     tp_combinedVerification := lp_combinedVerification task |}.

Definition planningStates (db : WaveDb) (runId : string) (taskIds : option (list string))
    : list TaskPlanningState :=
  map planningState
    (List.filter (fun task =>
       match taskIds with None => true | Some ids => set_has (set_of ids) (lp_taskId task) end)
       (projections db runId)).

Record TaskCapacityLimits := mkLimits {
  tl_maxConcurrentWorkers : Z;
  tl_accountLimits : list (string * Z) }.

Record TaskWaveDispatchInput := mkDispatchInput {
  di_plan : TaskWavePlan;
  di_dispatches : list TaskDispatchRecord;
  di_limits : TaskCapacityLimits }.

Definition counted (scope : TaskCapacityScope) (resourceId : string) (limit : Z) : WOp unit :=
  let* db := get in
  ensure (negb (limit <=? count_where (active_on scope resourceId) (capacity_leases db)))
    (TaskCapacityConflictError scope resourceId).

Definition resources_of (dispatch : TaskDispatchRecord) : list (TaskCapacityScope * string) :=
  (cs_global, "global") ::
  match ds_accountId dispatch with None => [] | Some id => [(cs_account, id)] end ++
  (cs_workspace, ds_workspaceId dispatch) ::
  map (fun id => (cs_repository, id)) (ds_repositoryIds dispatch).

(** [MAX(fencing_revision) ... ?? 0]. *)
Definition priorFence (scope : TaskCapacityScope) (resourceId : string)
    (rows : list TaskCapacityLease) : Z :=
  fold_right (fun l m => Z.max (cl_fencingRevision l) m) 0 (select_where (lease_on scope resourceId) rows).

(** [try { m } catch (error) { ... }]: a refused lease of an exclusive resource
    is a conflict. *)
Definition orConflict (scope : TaskCapacityScope) (resourceId : string) (m : WOp unit) : WOp unit :=
  fun db =>
    match m db with
    | inl e => inl (if exclusive scope then TaskCapacityConflictError scope resourceId else e)
    | inr r => inr r
    end.

Definition acquire (dispatch : TaskDispatchRecord) (now : string)
    (resource : TaskCapacityScope * string) : WOp unit :=
  let '(scope, resourceId) := resource in
  let* leaseId := nextId "task-capacity" in
  let* db := get in
  orConflict scope resourceId
    (insertLease (mkCapacityLease leaseId (ds_runId dispatch) (ds_taskId dispatch) scope resourceId
       (priorFence scope resourceId (capacity_leases db) + 1) false now None)).

(** [SET phase = 'dispatching', child_run_id = ?, attempt_ordinal = 1]. *)
Definition setDispatching (childRunId now : string) (row : TaskLifecycleProjection)
    : TaskLifecycleProjection :=
  mkLifecycle (lp_runId row) (lp_taskId row) (lp_graphRevision row) ph_dispatching
    (Some childRunId) 1 (lp_retryCount row) (lp_blockReason row) (lp_completionContract row)
    (lp_integration row) (lp_combinedVerification row) (lp_revision row + 1) now.

(** The capacity checks of one dispatch. *)
Definition checkCapacity (limits : TaskCapacityLimits) (dispatch : TaskDispatchRecord) : WOp unit :=
  counted cs_global "global" (tl_maxConcurrentWorkers limits) ;;;
  match ds_accountId dispatch with
  | None => ret tt
  | Some accountId =>
      let* limit := orThrow (TaskCapacityConflictError cs_account accountId)
                      (map_get (map_of (tl_accountLimits limits)) accountId) in
      counted cs_account accountId limit
  end.

(** A new dispatch, after the search for a replay. *)
Definition dispatchNew (limits : TaskCapacityLimits) (now : string) (dispatch : TaskDispatchRecord)
    : WOp TaskDispatchRecord :=
  let* task := readOne (ds_runId dispatch) (ds_taskId dispatch) in
  ensure (bool_decide (lp_phase task = ph_not_started))
    (StateStoreError ("task " +:+ ds_taskId dispatch +:+ " is not dispatchable from " +:+
                      phase_text (lp_phase task))) ;;;
  checkCapacity limits dispatch ;;;
  forM (resources_of dispatch) (acquire dispatch now) ;;;
  let* _ := updateLifecycles (task_from (ds_runId dispatch) (ds_taskId dispatch) [ph_not_started])
              (setDispatching (ds_childRunId dispatch) now) in
  insertDispatch dispatch ;;;
  audit (ds_runId dispatch) (Some (ds_taskId dispatch)) (capacity_acquired (resources_of dispatch)) now ;;;
  audit (ds_runId dispatch) (Some (ds_taskId dispatch)) (task_dispatched (ds_childRunId dispatch)) now ;;;
  ret dispatch.

Definition dispatchOne (limits : TaskCapacityLimits) (now : string) (dispatch : TaskDispatchRecord)
    : WOp TaskDispatchRecord :=
  let* db := get in
  match select_one (dispatch_of (ds_runId dispatch) (ds_taskId dispatch) (ds_graphRevision dispatch))
          (dispatch_records db) with
  | Some replay => ret replay
  | None => dispatchNew limits now dispatch
  end.

Definition dispatch_lt (l r : TaskDispatchRecord) : bool := locale_lt (ds_taskId l) (ds_taskId r).

(** The plan of the wave is stored once. *)
Definition storePlan (plan : TaskWavePlan) (runId : string) (existing : option PlanRow) : WOp unit :=
  match existing with
  | Some _ => ret tt
  | None =>
      insertPlan (mkPlanRow runId (wp_graphRevision plan) (wp_waveOrdinal plan) plan
                    (wp_plannedAt plan)) ;;;
      audit runId None (wave_planned (wp_selectedTaskIds plan)) (wp_plannedAt plan)
  end.

Definition dispatchWave (input : TaskWaveDispatchInput) : WOp (list TaskDispatchRecord) :=
  let plan := di_plan input in
  let first := ds_runId <$> head (di_dispatches input) in
  let* db := get in
  let existing := select_one (plan_at (default "" first) (wp_graphRevision plan) (wp_waveOrdinal plan))
                    (wave_plans db) in
  ensure match existing with None => true | Some row => bool_decide (pw_plan row = plan) end
    (StateStoreError "task wave replay does not match the persisted plan") ;;;
  match first with
  | None => ret []
  | Some runId =>
      storePlan plan runId existing ;;;
      mapM (dispatchOne (di_limits input) (wp_plannedAt plan))
        (sort_by dispatch_lt (di_dispatches input))
  end.

Definition markActive (runId taskId : string) : WOp TaskLifecycleProjection :=
  updatePhase runId taskId [ph_dispatching; ph_retrying] ph_active id.

Definition markRetrying (runId taskId : string) : WOp TaskLifecycleProjection :=
  let* result := updatePhase runId taskId [ph_active; ph_retrying] ph_retrying countRetry in
  audit runId (Some taskId) (task_retrying (lp_retryCount result)) (lp_updatedAt result) ;;;
  ret result.

Definition requestCancellation (runId taskId : string) : WOp TaskLifecycleProjection :=
  let* result := updatePhase runId taskId [ph_dispatching; ph_active; ph_retrying; ph_cancelling]
                   ph_cancelling id in
  audit runId (Some taskId) cancellation_requested (lp_updatedAt result) ;;;
  ret result.

Definition cancelPending (runId taskId : string) : WOp TaskLifecycleProjection :=
  let* now := nowIso in
  let* result := updatePhase runId taskId [ph_not_started] ph_cancelled id in
  audit runId (Some taskId) (task_settled ph_cancelled) now ;;;
  ret result.

Definition markRecoveryRequired (runId taskId : string) : WOp TaskLifecycleProjection :=
  let* result := updatePhase runId taskId running_phases ph_recovery_required id in
  audit runId (Some taskId) recovery_is_required (lp_updatedAt result) ;;;
  ret result.

Inductive SettledPhase := settled_succeeded | settled_failed | settled_cancelled.

Definition settled_phase (phase : SettledPhase) : TaskLifecyclePhase :=
  match phase with
  | settled_succeeded => ph_succeeded | settled_failed => ph_failed
  | settled_cancelled => ph_cancelled
  end.

Definition settle (runId taskId : string) (phase : SettledPhase) : WOp TaskLifecycleProjection :=
  let* now := nowIso in
  let* result := updatePhase runId taskId running_phases (settled_phase phase) id in
  let* _ := release runId taskId now in
  audit runId (Some taskId) (task_settled (settled_phase phase)) now ;;;
  ret result.

(** [SET phase = 'blocked', block_reason_json = ?]. *)
Definition setBlocked (reason : TaskPropagationReason) (now : string) (row : TaskLifecycleProjection)
    : TaskLifecycleProjection :=
  mkLifecycle (lp_runId row) (lp_taskId row) (lp_graphRevision row) ph_blocked (lp_childRunId row)
    (lp_attemptOrdinal row) (lp_retryCount row) (Some reason) (lp_completionContract row)
    (lp_integration row) (lp_combinedVerification row) (lp_revision row + 1) now.

Definition block (runId taskId : string) (reason : TaskPropagationReason)
    : WOp TaskLifecycleProjection :=
  let* now := nowIso in
  let* changed := updateLifecycles (task_from runId taskId [ph_not_started])
                    (setBlocked reason now) in
  let* result := readOne runId taskId in
  (if changed =? 1 then audit runId (Some taskId) (task_blocked reason) now else ret tt) ;;;
  ensure (bool_decide (lp_phase result = ph_blocked))
    (StateStoreError ("cannot block task " +:+ taskId +:+ " from " +:+ phase_text (lp_phase result))) ;;;
  ret result.

(** The gates of a succeeded task, written by the integration store. *)
Definition setGates (completion : CompletionGate) (integration : IntegrationGate)
    (combined : CompletionGate) (now : string) (row : TaskLifecycleProjection)
    : TaskLifecycleProjection :=
  mkLifecycle (lp_runId row) (lp_taskId row) (lp_graphRevision row) (lp_phase row)
    (lp_childRunId row) (lp_attemptOrdinal row) (lp_retryCount row) (lp_blockReason row) completion
    integration combined (lp_revision row + 1) now.

Definition writeGatesAt (now runId taskId : string) (completion : CompletionGate)
    (integration : IntegrationGate) (combined : CompletionGate) : WOp unit :=
  let* changes := updateLifecycles (task_from runId taskId [ph_succeeded])
                    (setGates completion integration combined now) in
  ensure (changes =? 1)
    (StateStoreError ("task integration gates require succeeded task " +:+ taskId)).

Definition writeGates (runId taskId : string) (completion : CompletionGate)
    (integration : IntegrationGate) (combined : CompletionGate) : WOp unit :=
  let* now := nowIso in writeGatesAt now runId taskId completion integration combined.

(** ** Reads *)

Definition lease_lt (l r : TaskCapacityLease) : bool :=
  if str_eqb (cl_acquiredAt l) (cl_acquiredAt r) then str_ltb (cl_leaseId l) (cl_leaseId r)
  else str_ltb (cl_acquiredAt l) (cl_acquiredAt r).

Definition leases (db : WaveDb) (runId : string) : list TaskCapacityLease :=
  sort_by lease_lt (select_where (fun l => str_eqb (cl_runId l) runId) (capacity_leases db)).

Definition recorded_dispatch_lt (l r : TaskDispatchRecord) : bool :=
  if str_eqb (ds_recordedAt l) (ds_recordedAt r) then str_ltb (ds_dispatchId l) (ds_dispatchId r)
  else str_ltb (ds_recordedAt l) (ds_recordedAt r).

Definition dispatches (db : WaveDb) (runId : string) : list TaskDispatchRecord :=
  sort_by recorded_dispatch_lt
    (select_where (fun d => str_eqb (ds_runId d) runId) (dispatch_records db)).

Definition plan_lt (l r : PlanRow) : bool :=
  if pw_graphRevision l =? pw_graphRevision r then pw_waveOrdinal l <? pw_waveOrdinal r
  else pw_graphRevision l <? pw_graphRevision r.

Definition plans (db : WaveDb) (runId : string) : list TaskWavePlan :=
  map pw_plan (sort_by plan_lt (select_where (fun p => str_eqb (pw_runId p) runId) (wave_plans db))).

Definition event_lt (l r : TaskWaveAuditEvent) : bool :=
  if str_eqb (ae_recordedAt l) (ae_recordedAt r) then str_ltb (ae_eventId l) (ae_eventId r)
  else str_ltb (ae_recordedAt l) (ae_recordedAt r).

Definition auditEvents (db : WaveDb) (runId : string) : list TaskWaveAuditEvent :=
  sort_by event_lt (select_where (fun e => str_eqb (ae_runId e) runId) (audit_events db)).
End Store.
