(* ===== verification/WaveService.v ===== *)
(** * Waves of tasks: the scheduler service

    [packages/daemon/src/runtime/task-wave-scheduler-service.ts] over the store of
    [WaveStore] and the planner of [TaskWave].

    The service waits for its driver (the pipelines of the tasks) between
    stretches of synchronous code.  Such a stretch runs without interruption, so
    it is one [Stretch] here; what happens while the service waits is any
    sequence of stretches, of this or of another call.  The driver's answers are
    arguments. *)

From S2P Require Import Prelude Recovery TaskDag TaskWave Revise SqlList WaveStore.

Local Open Scope Z_scope.
Local Open Scope st_scope.

(** ** Data *)

Inductive TaskPipelineStatus :=
  | st_missing | st_queued | st_running | st_waiting_on_user
  | st_retrying (attemptOrdinal : Z) | st_cancelling | st_recovery_required
  | st_settled (phase : SettledPhase).

Record TaskWaveSchedulerTickInput := mkTickInput {
  ti_runId : string;
  ti_dag : TaskDagV2;
  ti_maxConcurrentWorkers : Z;
  ti_profiles : list ProfileCapacity;
  ti_accounts : list AccountCapacity;
  ti_unresolvedGraphRevision : option bool;
  ti_externalActiveWorkers : option Z;
  ti_unavailableRepositoryIds : option (list string) }.

Section Service.
Context `{IdGenerator} `{Clock} `{LocaleCompare}.

Definition canonical (values : list string) : list string := sort_by locale_lt (set_of values).

Definition appendPath (path : list string) (taskId : string) : list string :=
  if set_has path taskId then path else path ++ [taskId].

(** ** Observations of the driver *)

(** [task] is the row as it was read before the driver was asked. *)
Definition applyDriverStatus (runId : string) (task : TaskLifecycleProjection)
    (observation : TaskPipelineStatus) : WOp TaskLifecycleProjection :=
  let phase := lp_phase task in
  let id := lp_taskId task in
  match observation with
  | st_missing =>
      if bool_decide (phase = ph_dispatching) then ret task
      else if bool_decide (phase = ph_recovery_required) then ret task
      else markRecoveryRequired runId id
  | st_queued | st_running | st_waiting_on_user =>
      if phase_in [ph_dispatching; ph_retrying] phase then markActive runId id else ret task
  | st_retrying _ =>
      if bool_decide (phase = ph_retrying) then ret task else markRetrying runId id
  | st_cancelling =>
      if bool_decide (phase = ph_cancelling) then ret task else requestCancellation runId id
  | st_recovery_required =>
      if bool_decide (phase = ph_recovery_required) then ret task else markRecoveryRequired runId id
  | st_settled settled => settle runId id settled
  end.

(** ** Propagation of failures *)

Definition reason_lt (l r : TaskPropagationReason) : bool :=
  let root := localeCompare (tr_rootTaskId l) (tr_rootTaskId r) in
  if root =? 0 then localeCompare (tr_immediateTaskId l) (tr_immediateTaskId r) <? 0 else root <? 0.

(** A reason of a predecessor, as the reason of the task after it. *)
Definition inheritReason (reason : TaskPropagationReason) (predecessorId taskId : string)
    : TaskPropagationReason :=
  mkPropagation pc_predecessor_blocked predecessorId (tr_rootTaskId reason)
    (appendPath (tr_path reason) taskId).

Definition dependencies (nodes : list (string * TaskDagNodeV2)) (taskId : string) : list string :=
  match map_get nodes taskId with Some node => er_dependencies (nd_task node) | None => [] end.

(** [fuel] bounds the depth of the recursion; [None] is a run that exceeds it. *)
Fixpoint propagationReason (fuel : nat) (nodes : list (string * TaskDagNodeV2))
    (states : list (string * TaskLifecycleProjection)) (visiting : list string) (taskId : string)
    : option (option TaskPropagationReason) :=
  match fuel with
  | O => None
  | S fuel' =>
      if set_has visiting taskId then Some None
      else
        let nextVisiting := set_add visiting taskId in
        let one predecessorId :=
          match map_get states predecessorId with
          | None => Some []
          | Some predecessor =>
              match lp_phase predecessor with
              | ph_failed =>
                  Some [mkPropagation pc_predecessor_failed predecessorId predecessorId
                          [predecessorId; taskId]]
              | ph_cancelled =>
                  Some [mkPropagation pc_predecessor_cancelled predecessorId predecessorId
                          [predecessorId; taskId]]
              | ph_blocked =>
                  match lp_blockReason predecessor with
                  | Some reason => Some [inheritReason reason predecessorId taskId]
                  | None => Some []
                  end
              | ph_not_started =>
                  match propagationReason fuel' nodes states nextVisiting predecessorId with
                  | None => None
                  | Some None => Some []
                  | Some (Some inherited) => Some [inheritReason inherited predecessorId taskId]
                  end
              | ph_dispatching | ph_active | ph_retrying | ph_cancelling | ph_recovery_required
              | ph_succeeded => Some []
              end
          end in
        match list.mapM one (canonical (dependencies nodes taskId)) with
        | None => None
        | Some reasons => Some (head (sort_by reason_lt (concat reasons)))
        end
  end.

(** The visited tasks are distinct, and all but the first of them have a row. *)
Definition propagationFuel (states : list (string * TaskLifecycleProjection)) : nat :=
  S (S (length states)).

Definition statesOf (db : WaveDb) (runId : string) : list (string * TaskLifecycleProjection) :=
  map_of (map (fun task => (lp_taskId task, task)) (projections db runId)).

Definition task_lt (l r : TaskLifecycleProjection) : bool := locale_lt (lp_taskId l) (lp_taskId r).

(** A pass over the rows: whether a task was blocked, or what was thrown, with the
    database in either case (each [block] is a transaction of its own). *)
Fixpoint propagatePass (runId : string) (nodes : list (string * TaskDagNodeV2))
    (states : list (string * TaskLifecycleProjection)) (tasks : list TaskLifecycleProjection)
    (changed : bool) (db : WaveDb) : option ((WaveError + bool) * WaveDb) :=
  match tasks with
  | [] => Some (inr changed, db)
  | task :: rest =>
      if negb (bool_decide (lp_phase task = ph_not_started)) then
        propagatePass runId nodes states rest changed db
      else
        match propagationReason (propagationFuel states) nodes states [] (lp_taskId task) with
        | None => None
        | Some None => propagatePass runId nodes states rest changed db
        | Some (Some reason) =>
            match block runId (lp_taskId task) reason db with
            | inl error => Some (inl error, db)
            | inr (_, db') => propagatePass runId nodes states rest true db'
            end
        end
  end.

Fixpoint propagateLoop (fuel : nat) (runId : string) (nodes : list (string * TaskDagNodeV2))
    (db : WaveDb) : option ((WaveError + unit) * WaveDb) :=
  match fuel with
  | O => None
  | S fuel' =>
      let states := statesOf db runId in
      match propagatePass runId nodes states (sort_by task_lt (map_values states)) false db with
      | None => None
      | Some (inl error, db') => Some (inl error, db')
      | Some (inr true, db') => propagateLoop fuel' runId nodes db'
      | Some (inr false, db') => Some (inr tt, db')
      end
  end.

(** Every pass but the last blocks a task. *)
Definition propagate (runId : string) (dag : TaskDagV2) (db : WaveDb)
    : option ((WaveError + unit) * WaveDb) :=
  propagateLoop (S (length (lifecycles db))) runId (nodesById dag) db.

(** ** Dispatch of a wave *)

Definition makeDispatch (input : TaskWaveSchedulerTickInput) (waveOrdinal : Z) (taskId : string)
    : WOp TaskDispatchRecord :=
  let dag := ti_dag input in
  let* node := orThrow (ServiceError ("wave selected unknown task " +:+ taskId))
                 (List.find (fun n => str_eqb (Revise.taskId n) taskId) (dag_nodes dag)) in
  let suffix := ti_runId input +:+ ":" +:+ num_text (dag_graphRevision dag) +:+ ":" +:+ taskId in
  let* now := nowIso in
  ret (mkDispatch ("task-dispatch:" +:+ suffix) (ti_runId input) taskId (dag_graphRevision dag)
    waveOrdinal ("task-run:" +:+ suffix) (nd_pipelineId node) (nd_profileId node)
    (nd_accountId node) ("task-workspace:" +:+ suffix) (canonical (er_writeSet (nd_task node))) now).

(** How many active leases of the run are on the account. *)
Definition accountCounts (active : list TaskCapacityLease) : list (string * Z) :=
  fold_left (fun counts l =>
    map_set counts (cl_resourceId l) (default 0 (map_get counts (cl_resourceId l)) + 1))
    (List.filter (fun l => bool_decide (cl_scope l = cs_account)) active) [].

Definition repositoryHolders (active : list TaskCapacityLease) : list (string * string) :=
  map_of (map (fun l => (cl_resourceId l, cl_taskId l))
    (List.filter (fun l => bool_decide (cl_scope l = cs_repository)) active)).

Definition planningSnapshot (input : TaskWaveSchedulerTickInput) (db : WaveDb) (waveOrdinal : Z)
    (recordedAt : string) : TaskWavePlanningSnapshot :=
  let runId := ti_runId input in
  let dag := ti_dag input in
  let active := List.filter (fun l => negb (cl_released l)) (leases db runId) in
  let counts := accountCounts active in
  let unavailable := set_of (default [] (ti_unavailableRepositoryIds input)) in
  let holders := repositoryHolders active in
  {| ws_dag := dag_view dag;
     ws_waveOrdinal := waveOrdinal;
     ws_unresolvedGraphRevision := default false (ti_unresolvedGraphRevision input);
     ws_tasks := planningStates db runId (Some (map Revise.taskId (dag_nodes dag)));
     ws_profiles := ti_profiles input;
     ws_accounts := map (fun a =>
       {| acap_accountId := acap_accountId a;
          acap_activeRuns := acap_activeRuns a + default 0 (map_get counts (acap_accountId a));
          acap_maxConcurrentRuns := acap_maxConcurrentRuns a |}) (ti_accounts input);
     ws_writerLeases := map (fun id =>
       {| wl_repositoryId := id;
          wl_available := negb (set_has unavailable id) && negb (map_has holders id);
          wl_holderTaskId := map_get holders id |})
       (canonical (flat_map (fun n => er_writeSet (nd_task n)) (dag_nodes dag)));
     ws_activeWorkers := default 0 (ti_externalActiveWorkers input) +
       Z.of_nat (length (List.filter (fun l => bool_decide (cl_scope l = cs_global)) active));
     ws_maxConcurrentWorkers := ti_maxConcurrentWorkers input;
     ws_recordedAt := recordedAt |}.

Definition nextWaveOrdinal (db : WaveDb) (runId : string) : Z :=
  default 0 (wp_waveOrdinal <$> last (plans db runId)) + 1.

(** The stretch of [tick] between the first [propagate] and the start of the
    accepted dispatches. *)
Definition planAndDispatch (input : TaskWaveSchedulerTickInput) : WOp (list TaskDispatchRecord) :=
  let* db := get in
  let waveOrdinal := nextWaveOrdinal db (ti_runId input) in
  let* recordedAt := nowIso in
  let* plan := orThrow (ServiceError "planning did not end")
                 (planTaskWave (planningSnapshot input db waveOrdinal recordedAt)) in
  match wp_selectedTaskIds plan with
  | [] => ret []
  | selected =>
      let* dispatches := mapM (makeDispatch input waveOrdinal) selected in
      dispatchWave (mkDispatchInput plan dispatches
        (mkLimits (ti_maxConcurrentWorkers input)
           (map (fun a => (acap_accountId a, acap_maxConcurrentRuns a)) (ti_accounts input))))
  end.

Definition initializeGraphTasks (runId : string) (dag : TaskDagV2) : WOp unit :=
  initialize runId (dag_graphRevision dag) (map Revise.taskId (dag_nodes dag)).

Definition cancelTask (runId taskId : string) : WOp TaskLifecycleProjection :=
  let* db := get in
  let* task := orThrow (ServiceError ("unknown task " +:+ taskId))
                 (List.find (fun t => str_eqb (lp_taskId t) taskId) (projections db runId)) in
  if bool_decide (lp_phase task = ph_not_started) then cancelPending runId taskId
  else if phase_in [ph_dispatching; ph_active; ph_retrying] (lp_phase task) then
    requestCancellation runId taskId
  else ret task.

(** ** Calls as sequences of stretches *)

Inductive Stretch :=
  | SInitialize (runId : string) (dag : TaskDagV2)
  | SObserve (runId : string) (task : TaskLifecycleProjection) (observation : TaskPipelineStatus)
  | SRecover (runId taskId : string)
  | SGates (runId taskId : string) (completion : CompletionGate) (integration : IntegrationGate)
      (combined : CompletionGate)
  | SPropagate (runId : string) (dag : TaskDagV2)
  | SDispatch (input : TaskWaveSchedulerTickInput)
  | SCancel (runId taskId : string).

(** What a transaction leaves in the database. *)
Definition committed {A} (m : WOp A) (db : WaveDb) : WaveDb :=
  match m db with inl _ => db | inr (_, db') => db' end.

Definition run_stretch (stretch : Stretch) (db : WaveDb) : WaveDb :=
  match stretch with
  | SInitialize runId dag => committed (initializeGraphTasks runId dag) db
  | SObserve runId task observation => committed (applyDriverStatus runId task observation) db
  | SRecover runId taskId => committed (markRecoveryRequired runId taskId) db
  | SGates runId taskId completion integration combined =>
      committed (writeGates runId taskId completion integration combined) db
  | SPropagate runId dag =>
      match propagate runId dag db with Some (_, db') => db' | None => db end
  | SDispatch input => committed (planAndDispatch input) db
  | SCancel runId taskId => committed (cancelTask runId taskId) db
  end.

Definition after_stretches (stretches : list Stretch) (db : WaveDb) : WaveDb :=
  fold_left (fun db s => run_stretch s db) stretches db.

Definition empty_waves (runs : list string) : WaveDb := mkWaveDb runs [] [] [] [] [] 0 0.

(** [tick], with what its driver and the integration service do while it waits:
    the tasks and their observations in the order they come back. *)
Definition tick_stretches (input : TaskWaveSchedulerTickInput)
    (reconciled started ticked : list (TaskLifecycleProjection * TaskPipelineStatus))
    (before after : list Stretch) : list Stretch :=
  let runId := ti_runId input in
  let observe := map (fun o => SObserve runId (fst o) (snd o)) in
  [SInitialize runId (ti_dag input)] ++ observe reconciled ++ before ++
  [SPropagate runId (ti_dag input); SDispatch input] ++ observe started ++ observe ticked ++
  after ++ [SPropagate runId (ti_dag input)].
End Service.
