(* ===== verification/Integration.v ===== *)
(** * Integration of tasks

    [packages/state/src/task-graph/integration-store.ts] with the tables of
    migrations 24 and 25 ([migrations/task-integration.ts],
    [migrations/task-integration-reconciliation.ts]), and the daemon's service over
    it ([packages/daemon/src/runtime/task-integration-service.ts]).

    A dispatched task has an entry in the ledger.  Once the task has succeeded, its
    changes are merged onto the branches of the run (prepared), verified together
    with what is there, published and marked as integrated, one entry after the
    other.  When something is unclear the entry is reconciled: the service looks at
    the repositories and publishes what is missing or adopts what is there.

    A row is modelled by the value of its JSON column: the other columns repeat
    fields of the value, and every statement writes them from the same value.  The
    updates keep the identity of a row and raise its revision by one, as the causal
    triggers ask.  The repositories themselves are behind the driver, whose answers
    are arguments. *)

From S2P Require Import Prelude Recovery TaskDag TaskWave SqlList Revise WaveStore WaveService.

Local Open Scope Z_scope.
Local Open Scope st_scope.

(** ** Contracts *)

Inductive BranchLifecycle := bl_ready | bl_reconciliation_required.

Record EpicRepositoryBranch := mkBranch {
  br_runId : string;
  br_repositoryId : string;
  br_branchRef : string;
  br_remote : string;
  br_remoteBaseRef : string;
  br_remoteBaseSha : string;
  br_expectedLocalSha : string;
  br_observedRemoteSha : option string;
  br_lifecycle : BranchLifecycle;
  br_revision : Z;
  br_createdAt : string;
  br_updatedAt : string }.

Record IntegrationRepository := mkTarget {
  tg_repositoryId : string;
  tg_sourceSha : string;
  tg_expectedTargetSha : string;
  tg_candidateSha : option string;
  tg_resultSha : option string;
  tg_classification : option string }.

Inductive IntegrationLifecycle :=
  | il_queued | il_prepared | il_verified | il_integrated | il_failed | il_reconciliation_required.

#[export] Instance IntegrationLifecycle_eq : EqDecision IntegrationLifecycle.
Proof. solve_decision. Defined.

Definition integration_text (l : IntegrationLifecycle) : string :=
  match l with
  | il_queued => "queued" | il_prepared => "prepared" | il_verified => "verified"
  | il_integrated => "integrated" | il_failed => "failed"
  | il_reconciliation_required => "reconciliation_required"
  end.

Record LedgerEntry := mkEntry {
  en_integrationId : string;
  en_runId : string;
  en_taskId : string;
  en_graphRevision : Z;
  en_waveOrdinal : Z;
  en_integrationOrdinal : Z;
  en_variantId : string;
  en_lifecycle : IntegrationLifecycle;
  en_repositories : list IntegrationRepository;
  en_verificationReportId : option string;
  en_verification : CompletionGate;
  en_revision : Z;
  en_createdAt : string;
  en_updatedAt : string }.

Inductive TracePhase :=
  | tp_intent_recorded | tp_source_observed | tp_target_observed | tp_merge_prepared | tp_verification_started | tp_verification_finished
  | tp_ref_update_attempted | tp_ref_update_observed | tp_adopted | tp_completed
  | tp_reconciliation_required.

#[export] Instance TracePhase_eq : EqDecision TracePhase.
Proof. solve_decision. Defined.

(** What a trace says; the rest identifies it. *)
Record TraceValue := mkTraceValue {
  xv_repositoryId : option string;
  xv_phase : TracePhase;
  xv_expectedSha : option string;
  xv_observedSha : option string;
  xv_candidateSha : option string;
  xv_verificationReportId : option string;
  xv_classification : option string }.

Record TaskIntegrationTrace := mkTrace {
  xt_traceId : string;
  xt_integrationId : string;
  xt_runId : string;
  xt_taskId : string;
  xt_sequence : Z;
  xt_value : TraceValue;
  xt_recordedAt : string }.

Inductive ReconciliationClass :=
  | rk_pending | rk_applied | rk_missing_candidate | rk_missing_ref | rk_observation_failed
  | rk_external_mutation | rk_identity_mismatch.

Inductive ReconciliationAction := ra_publish | ra_adopt | ra_none | ra_block.

#[export] Instance ReconciliationAction_eq : EqDecision ReconciliationAction.
Proof. solve_decision. Defined.

Record ReconciliationRepository := mkReconciled {
  rp_repositoryId : string;
  rp_expectedSha : string;
  rp_candidateSha : option string;
  rp_observedSha : option string;
  rp_classification : ReconciliationClass;
  rp_action : ReconciliationAction;
  rp_detail : option string }.

Inductive ReconciliationTrigger :=
  | rt_interrupted_prepare | rt_interrupted_verify | rt_interrupted_publish | rt_partial_publish | rt_branch_drift | rt_recovery_required.

Inductive ReconciliationLifecycle := rc_observing | rc_forwarding | rc_integrated | rc_blocked.

#[export] Instance ReconciliationLifecycle_eq : EqDecision ReconciliationLifecycle.
Proof. solve_decision. Defined.

Definition reconciliation_text (l : ReconciliationLifecycle) : string :=
  match l with
  | rc_observing => "observing" | rc_forwarding => "forwarding" | rc_integrated => "integrated"
  | rc_blocked => "blocked"
  end.

Inductive ReconciliationResolution :=
  | rs_forward_published | rs_adopted_published | rs_mixed_forward_and_adopt | rs_blocked.

Inductive ReconciliationBlocker :=
  | kb_external_mutation | kb_missing_evidence | kb_observation_failed | kb_identity_mismatch
  | kb_ambiguous_state.

Record TaskIntegrationReconciliation := mkReconciliation {
  rg_reconciliationId : string;
  rg_integrationId : string;
  rg_runId : string;
  rg_taskId : string;
  rg_trigger : ReconciliationTrigger;
  rg_lifecycle : ReconciliationLifecycle;
  rg_resolution : option ReconciliationResolution;
  rg_blocker : option ReconciliationBlocker;
  rg_pass : Z;
  rg_repositories : list ReconciliationRepository;
  rg_verificationReportId : option string;
  rg_revision : Z;
  rg_createdAt : string;
  rg_updatedAt : string }.

Record ReconciliationObservation := mkObservation {
  ob_observationId : string;
  ob_reconciliationId : string;
  ob_integrationId : string;
  ob_runId : string;
  ob_taskId : string;
  ob_pass : Z;
  ob_sequence : Z;
  ob_repositoryId : string;
  ob_expectedSha : string;
  ob_candidateSha : option string;
  ob_observedSha : option string;
  ob_classification : ReconciliationClass;
  ob_detail : option string;
  ob_observedAt : string }.

(** ** The schema *)

(** The tables, with those of the wave store they refer to and write. *)
Record IntegrationDb := mkIntegrationDb {
  ig_waves : WaveDb;
  ig_branches : list EpicRepositoryBranch;
  ig_ledger : list LedgerEntry;
  ig_traces : list TaskIntegrationTrace;
  ig_reconciliations : list TaskIntegrationReconciliation;
  ig_observations : list ReconciliationObservation }.

Definition with_waves (w : WaveDb) (db : IntegrationDb) : IntegrationDb :=
  mkIntegrationDb w (ig_branches db) (ig_ledger db) (ig_traces db) (ig_reconciliations db)
    (ig_observations db).
Definition with_branches f (db : IntegrationDb) : IntegrationDb :=
  mkIntegrationDb (ig_waves db) (f (ig_branches db)) (ig_ledger db) (ig_traces db)
    (ig_reconciliations db) (ig_observations db).
Definition with_ledger f (db : IntegrationDb) : IntegrationDb :=
  mkIntegrationDb (ig_waves db) (ig_branches db) (f (ig_ledger db)) (ig_traces db)
    (ig_reconciliations db) (ig_observations db).
Definition with_traces f (db : IntegrationDb) : IntegrationDb :=
  mkIntegrationDb (ig_waves db) (ig_branches db) (ig_ledger db) (f (ig_traces db))
    (ig_reconciliations db) (ig_observations db).
Definition with_reconciliations f (db : IntegrationDb) : IntegrationDb :=
  mkIntegrationDb (ig_waves db) (ig_branches db) (ig_ledger db) (ig_traces db)
    (f (ig_reconciliations db)) (ig_observations db).
Definition with_observations f (db : IntegrationDb) : IntegrationDb :=
  mkIntegrationDb (ig_waves db) (ig_branches db) (ig_ledger db) (ig_traces db)
    (ig_reconciliations db) (f (ig_observations db)).

Definition IOp (A : Type) : Type := ST IntegrationDb WaveError A.

Definition branch_is (runId repositoryId : string) (b : EpicRepositoryBranch) : bool :=
  str_eqb (br_runId b) runId && str_eqb (br_repositoryId b) repositoryId.

Definition entry_is (integrationId : string) (e : LedgerEntry) : bool :=
  str_eqb (en_integrationId e) integrationId.

Definition reconciliation_is (reconciliationId : string) (r : TaskIntegrationReconciliation) : bool :=
  str_eqb (rg_reconciliationId r) reconciliationId.

(** The foreign key on [task_lifecycle_projection]. *)
Definition task_exists (db : IntegrationDb) (runId taskId : string) : bool :=
  exists_where (task_row runId taskId) (lifecycles (ig_waves db)).

Definition insertBranch (b : EpicRepositoryBranch) : IOp unit :=
  let* db := get in
  ensure (1 <=? br_revision b) (ConstraintError "CHECK") ;;;
  ensure (negb (exists_where (branch_is (br_runId b) (br_repositoryId b)) (ig_branches db)))
    (ConstraintError "epic_repository_branch.run_id, repository_id") ;;;
  ensure (set_has (wave_runs (ig_waves db)) (br_runId b)) (ConstraintError "FOREIGN KEY") ;;;
  modify (with_branches (fun rows => rows ++ [b])).

Definition insertEntry (e : LedgerEntry) : IOp unit :=
  let* db := get in
  ensure ((1 <=? en_graphRevision e) && (1 <=? en_waveOrdinal e) && (1 <=? en_integrationOrdinal e) &&
          (1 <=? en_revision e)) (ConstraintError "CHECK") ;;;
  ensure (negb (exists_where (entry_is (en_integrationId e)) (ig_ledger db)))
    (ConstraintError "task_integration_ledger.integration_id") ;;;
  ensure (negb (exists_where (fun x => str_eqb (en_runId x) (en_runId e) &&
                                       (en_graphRevision x =? en_graphRevision e) &&
                                       str_eqb (en_taskId x) (en_taskId e)) (ig_ledger db)))
    (ConstraintError "task_integration_ledger.run_id, graph_revision, task_id") ;;;
  ensure (negb (exists_where (fun x => str_eqb (en_runId x) (en_runId e) &&
                                       (en_integrationOrdinal x =? en_integrationOrdinal e)) (ig_ledger db)))
    (ConstraintError "task_integration_ledger.run_id, integration_ordinal") ;;;
  ensure (task_exists db (en_runId e) (en_taskId e)) (ConstraintError "FOREIGN KEY") ;;;
  modify (with_ledger (fun rows => rows ++ [e])).

(** [UPDATE task_integration_ledger ... WHERE integration_id = ? AND revision = ?],
    with the trigger [task_integration_terminal] as migration 25 leaves it. *)
Definition updateEntry (existing next : LedgerEntry) : IOp unit :=
  let* db := get in
  let hit e := entry_is (en_integrationId next) e && (en_revision e =? en_revision existing) in
  ensure (forallb (fun e => negb (bool_decide (en_lifecycle e ∈ [il_integrated; il_failed])))
            (select_where hit (ig_ledger db)))
    (ConstraintError "terminal task integration cannot transition") ;;;
  modify (with_ledger (update_where hit (fun _ => next))).

Definition insertReconciliation (r : TaskIntegrationReconciliation) : IOp unit :=
  let* db := get in
  ensure (negb (exists_where (reconciliation_is (rg_reconciliationId r)) (ig_reconciliations db)))
    (ConstraintError "task_integration_reconciliation.reconciliation_id") ;;;
  ensure (negb (exists_where (fun x => str_eqb (rg_integrationId x) (rg_integrationId r))
                  (ig_reconciliations db)))
    (ConstraintError "task_integration_reconciliation.integration_id") ;;;
  ensure (exists_where (entry_is (rg_integrationId r)) (ig_ledger db) &&
          task_exists db (rg_runId r) (rg_taskId r)) (ConstraintError "FOREIGN KEY") ;;;
  modify (with_reconciliations (fun rows => rows ++ [r])).

(** With the trigger [task_integration_reconciliation_terminal]. *)
Definition updateReconciliation (existing next : TaskIntegrationReconciliation) : IOp unit :=
  let* db := get in
  let hit r := reconciliation_is (rg_reconciliationId next) r && (rg_revision r =? rg_revision existing) in
  ensure (forallb (fun r => negb (bool_decide (rg_lifecycle r ∈ [rc_integrated; rc_blocked])))
            (select_where hit (ig_reconciliations db)))
    (ConstraintError "terminal task integration reconciliation cannot transition") ;;;
  modify (with_reconciliations (update_where hit (fun _ => next))).

Definition insertObservation (o : ReconciliationObservation) : IOp unit :=
  let* db := get in
  ensure ((1 <=? ob_pass o) && (1 <=? ob_sequence o)) (ConstraintError "CHECK") ;;;
  ensure (negb (exists_where (fun x => str_eqb (ob_observationId x) (ob_observationId o)) (ig_observations db)))
    (ConstraintError "observation_id") ;;;
  ensure (negb (exists_where (fun x => str_eqb (ob_reconciliationId x) (ob_reconciliationId o) &&
                                       (ob_sequence x =? ob_sequence o)) (ig_observations db)))
    (ConstraintError "reconciliation_id, sequence") ;;;
  ensure (negb (exists_where (fun x => str_eqb (ob_reconciliationId x) (ob_reconciliationId o) &&
                                       (ob_pass x =? ob_pass o) &&
                                       str_eqb (ob_repositoryId x) (ob_repositoryId o)) (ig_observations db)))
    (ConstraintError "reconciliation_id, pass, repository_id") ;;;
  ensure (exists_where (reconciliation_is (ob_reconciliationId o)) (ig_reconciliations db) &&
          exists_where (entry_is (ob_integrationId o)) (ig_ledger db) &&
          task_exists db (ob_runId o) (ob_taskId o)) (ConstraintError "FOREIGN KEY") ;;;
  modify (with_observations (fun rows => rows ++ [o])).

Definition insertTrace (t : TaskIntegrationTrace) : IOp unit :=
  let* db := get in
  ensure (1 <=? xt_sequence t) (ConstraintError "CHECK") ;;;
  ensure (negb (exists_where (fun x => str_eqb (xt_traceId x) (xt_traceId t)) (ig_traces db)))
    (ConstraintError "task_integration_trace.trace_id") ;;;
  ensure (negb (exists_where (fun x => str_eqb (xt_integrationId x) (xt_integrationId t) &&
                                       (xt_sequence x =? xt_sequence t)) (ig_traces db)))
    (ConstraintError "task_integration_trace.integration_id, sequence") ;;;
  ensure (exists_where (entry_is (xt_integrationId t)) (ig_ledger db) &&
          task_exists db (xt_runId t) (xt_taskId t)) (ConstraintError "FOREIGN KEY") ;;;
  modify (with_traces (fun rows => rows ++ [t])).

(** ** The store *)

Definition onWaves {A} (m : WOp A) : IOp A := fun db =>
  match m (ig_waves db) with
  | inl e => inl e
  | inr (a, w) => inr (a, with_waves w db)
  end.

Definition readBranch (db : IntegrationDb) (runId repositoryId : string) : option EpicRepositoryBranch :=
  select_one (branch_is runId repositoryId) (ig_branches db).

Definition readEntry (db : IntegrationDb) (integrationId : string) : option LedgerEntry :=
  select_one (entry_is integrationId) (ig_ledger db).

Definition readReconciliation (db : IntegrationDb) (reconciliationId : string)
    : option TaskIntegrationReconciliation :=
  select_one (reconciliation_is reconciliationId) (ig_reconciliations db).

Record InitializeEpicBranchInput := mkBranchInput {
  bi_runId : string;
  bi_repositoryId : string;
  bi_branchRef : string;
  bi_remote : string;
  bi_remoteBaseRef : string;
  bi_remoteBaseSha : string;
  bi_observedLocalSha : string;
  bi_observedRemoteSha : option string }.

(** [observed === null || observed === sha]. *)
Definition absent_or (sha : string) (observed : option string) : bool :=
  match observed with None => true | Some o => str_eqb o sha end.

Definition newBranch (input : InitializeEpicBranchInput) (now : string) : EpicRepositoryBranch :=
  mkBranch (bi_runId input) (bi_repositoryId input) (bi_branchRef input) (bi_remote input)
    (bi_remoteBaseRef input) (bi_remoteBaseSha input) (bi_observedLocalSha input)
    (bi_observedRemoteSha input)
    (if str_eqb (bi_observedLocalSha input) (bi_remoteBaseSha input) &&
        absent_or (bi_observedLocalSha input) (bi_observedRemoteSha input)
     then bl_ready else bl_reconciliation_required) 1 now now.

(** The branch is where and what it is expected to be. *)
Definition branchMatches (existing : EpicRepositoryBranch) (input : InitializeEpicBranchInput) : bool :=
  (str_eqb (br_branchRef existing) (bi_branchRef input) &&
   str_eqb (br_remote existing) (bi_remote input) &&
   str_eqb (br_remoteBaseRef existing) (bi_remoteBaseRef input) &&
   str_eqb (br_remoteBaseSha existing) (bi_remoteBaseSha input)) &&
  (str_eqb (br_expectedLocalSha existing) (bi_observedLocalSha input) &&
   absent_or (br_expectedLocalSha existing) (bi_observedRemoteSha input)).

(** [SET observed_remote_sha = ?, lifecycle = 'reconciliation_required', ...]. *)
Definition driftedBranch (observed : option string) (now : string) (b : EpicRepositoryBranch)
    : EpicRepositoryBranch :=
  mkBranch (br_runId b) (br_repositoryId b) (br_branchRef b) (br_remote b) (br_remoteBaseRef b)
    (br_remoteBaseSha b) (br_expectedLocalSha b) observed bl_reconciliation_required
    (br_revision b + 1) (br_createdAt b) now.

(** [SET expected_local_sha = ?, lifecycle = ?, ...]. *)
Definition movedBranch (sha : string) (lifecycle : BranchLifecycle) (now : string)
    (b : EpicRepositoryBranch) : EpicRepositoryBranch :=
  mkBranch (br_runId b) (br_repositoryId b) (br_branchRef b) (br_remote b) (br_remoteBaseRef b)
    (br_remoteBaseSha b) sha (br_observedRemoteSha b) lifecycle (br_revision b + 1)
    (br_createdAt b) now.

Definition is_ready (b : EpicRepositoryBranch) : bool :=
  match br_lifecycle b with bl_ready => true | bl_reconciliation_required => false end.

(** [UPDATE epic_repository_branch SET f WHERE p], with its [changes]. *)
Definition updateBranches (p : EpicRepositoryBranch -> bool)
    (f : EpicRepositoryBranch -> EpicRepositoryBranch) : IOp Z :=
  let* db := get in
  modify (with_branches (update_where p f)) ;;;
  ret (count_where p (ig_branches db)).

Record QueueTaskIntegrationInput := mkQueueInput {
  qi_integrationId : string;
  qi_runId : string;
  qi_taskId : string;
  qi_graphRevision : Z;
  qi_waveOrdinal : Z;
  qi_integrationOrdinal : Z;
  qi_variantId : string }.

Definition newEntry (input : QueueTaskIntegrationInput) (now : string) : LedgerEntry :=
  mkEntry (qi_integrationId input) (qi_runId input) (qi_taskId input) (qi_graphRevision input)
    (qi_waveOrdinal input) (qi_integrationOrdinal input) (qi_variantId input) il_queued [] None
    cg_pending 1 now now.

Definition sameIdentity (existing : LedgerEntry) (input : QueueTaskIntegrationInput) : bool :=
  str_eqb (en_runId existing) (qi_runId input) && str_eqb (en_taskId existing) (qi_taskId input) &&
  (en_graphRevision existing =? qi_graphRevision input) &&
  (en_waveOrdinal existing =? qi_waveOrdinal input) &&
  (en_integrationOrdinal existing =? qi_integrationOrdinal input) &&
  str_eqb (en_variantId existing) (qi_variantId input).

Record Gates := mkGates {
  gt_completionContract : CompletionGate;
  gt_integration : IntegrationGate;
  gt_combinedVerification : CompletionGate }.

(** An absent field keeps what the entry has. *)
Record TaskIntegrationTransitionInput := mkTransition {
  tn_integrationId : string;
  tn_expectedLifecycle : IntegrationLifecycle;
  tn_lifecycle : IntegrationLifecycle;
  tn_repositories : option (list IntegrationRepository);
  tn_verificationReportId : option (option string);
  tn_verification : option CompletionGate;
  tn_gates : option Gates }.

Definition transitioned (input : TaskIntegrationTransitionInput) (now : string) (existing : LedgerEntry)
    : LedgerEntry :=
  mkEntry (en_integrationId existing) (en_runId existing) (en_taskId existing)
    (en_graphRevision existing) (en_waveOrdinal existing) (en_integrationOrdinal existing)
    (en_variantId existing) (tn_lifecycle input)
    (default (en_repositories existing) (tn_repositories input))
    (default (en_verificationReportId existing) (tn_verificationReportId input))
    (default (en_verification existing) (tn_verification input)) (en_revision existing + 1)
    (en_createdAt existing) now.

(** A repository whose branch now is at the candidate. *)
Definition appliedSha (repository : IntegrationRepository) : option string :=
  match tg_resultSha repository with
  | None => None
  | Some sha =>
      if bool_decide (tg_candidateSha repository = Some sha) &&
         bool_decide (tg_classification repository ∈
                        [Some "integrated"; Some "already-applied"; Some "already_applied"])
      then Some sha else None
  end.

Definition advanceBranch (runId now : string) (repository : IntegrationRepository) : IOp unit :=
  match appliedSha repository with
  | None => ret tt
  | Some sha =>
      let* changed := updateBranches
        (fun b => branch_is runId (tg_repositoryId repository) b &&
                  str_eqb (br_expectedLocalSha b) (tg_expectedTargetSha repository) && is_ready b)
        (fun b => movedBranch sha (br_lifecycle b) now b) in
      ensure (changed =? 1)
        (StateStoreError ("epic branch expected SHA changed for " +:+ tg_repositoryId repository))
  end.

Record AdvanceReconciliationInput := mkAdvanceReconciliation {
  ar_reconciliationId : string;
  ar_expectedLifecycle : ReconciliationLifecycle;
  ar_lifecycle : ReconciliationLifecycle;
  ar_pass : option Z;
  ar_repositories : option (list ReconciliationRepository);
  ar_resolution : option (option ReconciliationResolution);
  ar_blocker : option (option ReconciliationBlocker) }.

Definition advancedReconciliation (input : AdvanceReconciliationInput) (now : string)
    (existing : TaskIntegrationReconciliation) : TaskIntegrationReconciliation :=
  mkReconciliation (rg_reconciliationId existing) (rg_integrationId existing) (rg_runId existing)
    (rg_taskId existing) (rg_trigger existing) (ar_lifecycle input)
    (default (rg_resolution existing) (ar_resolution input))
    (default (rg_blocker existing) (ar_blocker input)) (default (rg_pass existing) (ar_pass input))
    (default (rg_repositories existing) (ar_repositories input)) (rg_verificationReportId existing)
    (rg_revision existing + 1) (rg_createdAt existing) now.

Definition resolvedEntry (repositories : list IntegrationRepository) (now : string) (entry : LedgerEntry)
    : LedgerEntry :=
  mkEntry (en_integrationId entry) (en_runId entry) (en_taskId entry) (en_graphRevision entry)
    (en_waveOrdinal entry) (en_integrationOrdinal entry) (en_variantId entry) il_integrated
    repositories (en_verificationReportId entry) (en_verification entry) (en_revision entry + 1)
    (en_createdAt entry) now.

Definition resolvedReconciliation (resolution : ReconciliationResolution) (now : string)
    (existing : TaskIntegrationReconciliation) : TaskIntegrationReconciliation :=
  mkReconciliation (rg_reconciliationId existing) (rg_integrationId existing) (rg_runId existing)
    (rg_taskId existing) (rg_trigger existing) rc_integrated (Some resolution) None
    (rg_pass existing) (rg_repositories existing) (rg_verificationReportId existing)
    (rg_revision existing + 1) (rg_createdAt existing) now.

Definition startedReconciliation (reconciliationId : string) (entry : LedgerEntry)
    (trigger : ReconciliationTrigger) (now : string) : TaskIntegrationReconciliation :=
  mkReconciliation reconciliationId (en_integrationId entry) (en_runId entry) (en_taskId entry)
    trigger rc_observing None None 0 [] (en_verificationReportId entry) 1 now now.

Definition reconciliationIdOf (integrationId : string) : string := integrationId +:+ ":reconciliation".

#[export] Instance TraceValue_eq : EqDecision TraceValue.
Proof. solve_decision. Defined.
#[export] Instance TaskIntegrationTrace_eq : EqDecision TaskIntegrationTrace.
Proof. solve_decision. Defined.

Section Store.
Context `{Clock}.

Definition iNow : IOp string := onWaves nowIso.

Definition initializeBranch (input : InitializeEpicBranchInput) : IOp EpicRepositoryBranch :=
  let* db := get in
  match readBranch db (bi_runId input) (bi_repositoryId input) with
  | None =>
      let* now := iNow in
      let branch := newBranch input now in
      insertBranch branch ;;; ret branch
  | Some existing =>
      if branchMatches existing input then ret existing
      else if negb (is_ready existing) then ret existing
      else
        let* now := iNow in
        let* _ := updateBranches (branch_is (bi_runId input) (bi_repositoryId input))
                    (driftedBranch (bi_observedRemoteSha input) now) in
        let* db' := get in
        orThrow (StateStoreError "branch") (readBranch db' (bi_runId input) (bi_repositoryId input))
  end.

Definition enqueue (input : QueueTaskIntegrationInput) : IOp LedgerEntry :=
  let* db := get in
  match readEntry db (qi_integrationId input) with
  | Some existing =>
      ensure (sameIdentity existing input)
        (StateStoreError ("task integration identity conflict: " +:+ qi_integrationId input)) ;;;
      ret existing
  | None =>
      let* now := iNow in
      insertEntry (newEntry input now) ;;;
      ret (newEntry input now)
  end.

Definition writeEntryGates (now : string) (entry : LedgerEntry) (gates : option Gates) : IOp unit :=
  match gates with
  | None => ret tt
  | Some g => onWaves (writeGatesAt now (en_runId entry) (en_taskId entry) (gt_completionContract g)
                         (gt_integration g) (gt_combinedVerification g))
  end.

Definition transition (input : TaskIntegrationTransitionInput) : IOp LedgerEntry :=
  let* db := get in
  let* existing := orThrow (StateStoreError ("unknown task integration: " +:+ tn_integrationId input))
                     (readEntry db (tn_integrationId input)) in
  if negb (bool_decide (en_lifecycle existing = tn_expectedLifecycle input)) then
    if bool_decide (en_lifecycle existing = tn_lifecycle input) then ret existing
    else throw (StateStoreError ("task integration " +:+ tn_integrationId input +:+ " expected " +:+
      integration_text (tn_expectedLifecycle input) +:+ ", observed " +:+
      integration_text (en_lifecycle existing)))
  else
    let* now := iNow in
    let next := transitioned input now existing in
    updateEntry existing next ;;;
    (if bool_decide (en_lifecycle next ∈ [il_integrated; il_reconciliation_required])
     then forM (en_repositories next) (advanceBranch (en_runId existing) now) else ret tt) ;;;
    writeEntryGates now existing (tn_gates input) ;;;
    ret next.

Definition startReconciliation (entry : LedgerEntry) (trigger : ReconciliationTrigger)
    : IOp TaskIntegrationReconciliation :=
  let reconciliationId := reconciliationIdOf (en_integrationId entry) in
  let* db := get in
  match readReconciliation db reconciliationId with
  | Some existing => ret existing
  | None =>
      let* now := iNow in
      let reconciliation := startedReconciliation reconciliationId entry trigger now in
      insertReconciliation reconciliation ;;; ret reconciliation
  end.

Definition advanceReconciliation (input : AdvanceReconciliationInput)
    : IOp TaskIntegrationReconciliation :=
  let* db := get in
  let* existing := orThrow (StateStoreError ("unknown task integration reconciliation: " +:+
                                             ar_reconciliationId input))
                     (readReconciliation db (ar_reconciliationId input)) in
  if negb (bool_decide (rg_lifecycle existing = ar_expectedLifecycle input)) then
    if bool_decide (rg_lifecycle existing = ar_lifecycle input) then ret existing
    else throw (StateStoreError ("task integration reconciliation " +:+ ar_reconciliationId input +:+
      " expected " +:+ reconciliation_text (ar_expectedLifecycle input) +:+ ", observed " +:+
      reconciliation_text (rg_lifecycle existing)))
  else
    let* now := iNow in
    let next := advancedReconciliation input now existing in
    updateReconciliation existing next ;;;
    ret next.

(** The branch of a resolved repository is at the candidate. *)
Definition resolveBranch (runId now : string) (repository : IntegrationRepository) : IOp unit :=
  let* candidate := orThrow (StateStoreError ("reconciliation result does not prove candidate for " +:+
                                              tg_repositoryId repository))
                      (if bool_decide (tg_resultSha repository = tg_candidateSha repository)
                       then tg_candidateSha repository else None) in
  let* changed := updateBranches
    (fun b => branch_is runId (tg_repositoryId repository) b &&
              (str_eqb (br_expectedLocalSha b) (tg_expectedTargetSha repository) ||
               str_eqb (br_expectedLocalSha b) candidate))
    (movedBranch candidate bl_ready now) in
  ensure (changed =? 1)
    (StateStoreError ("epic branch reconciliation evidence changed for " +:+ tg_repositoryId repository)).

Definition resolveReconciliation (reconciliationId : string) (repositories : list IntegrationRepository)
    (resolution : ReconciliationResolution) : IOp TaskIntegrationReconciliation :=
  let* db := get in
  let* existing := orThrow (StateStoreError ("unknown task integration reconciliation: " +:+ reconciliationId))
                     (readReconciliation db reconciliationId) in
  if bool_decide (rg_lifecycle existing = rc_integrated) then ret existing
  else
    ensure (negb (bool_decide (rg_lifecycle existing = rc_blocked)))
      (StateStoreError ("blocked task integration reconciliation cannot resolve: " +:+ reconciliationId)) ;;;
    let* entry := orThrow (StateStoreError ("unknown task integration: " +:+ rg_integrationId existing))
                    (readEntry db (rg_integrationId existing)) in
    let* now := iNow in
    forM repositories (resolveBranch (en_runId entry) now) ;;;
    updateEntry entry (resolvedEntry repositories now entry) ;;;
    onWaves (writeGatesAt now (en_runId entry) (en_taskId entry) cg_passed ig_passed cg_passed) ;;;
    let next := resolvedReconciliation resolution now existing in
    updateReconciliation existing next ;;;
    ret next.

Definition appendReconciliationObservation (o : ReconciliationObservation) : IOp unit :=
  insertObservation o.

Definition appendTrace (t : TaskIntegrationTrace) : IOp TaskIntegrationTrace :=
  let* db := get in
  match select_one (fun x => str_eqb (xt_traceId x) (xt_traceId t)) (ig_traces db) with
  | Some existing =>
      ensure (bool_decide (existing = t))
        (StateStoreError ("task integration trace conflict: " +:+ xt_traceId t)) ;;;
      ret existing
  | None => insertTrace t ;;; ret t
  end.
End Store.

(** *** Reads *)

Definition branches (db : IntegrationDb) (runId : string) : list EpicRepositoryBranch :=
  sort_key br_repositoryId (select_where (fun b => str_eqb (br_runId b) runId) (ig_branches db)).

Definition entry_lt (l r : LedgerEntry) : bool := en_integrationOrdinal l <? en_integrationOrdinal r.

Definition entries (db : IntegrationDb) (runId : string) : list LedgerEntry :=
  sort_by entry_lt (select_where (fun e => str_eqb (en_runId e) runId) (ig_ledger db)).

Definition reconciliation_lt (l r : TaskIntegrationReconciliation) : bool :=
  if str_eqb (rg_createdAt l) (rg_createdAt r)
  then str_ltb (rg_reconciliationId l) (rg_reconciliationId r)
  else str_ltb (rg_createdAt l) (rg_createdAt r).

Definition reconciliations (db : IntegrationDb) (runId : string) : list TaskIntegrationReconciliation :=
  sort_by reconciliation_lt
    (select_where (fun r => str_eqb (rg_runId r) runId) (ig_reconciliations db)).

Definition observed_lt (l r : ReconciliationObservation) : bool :=
  if str_eqb (ob_observedAt l) (ob_observedAt r) then str_ltb (ob_observationId l) (ob_observationId r)
  else str_ltb (ob_observedAt l) (ob_observedAt r).

Definition reconciliationObservations (db : IntegrationDb) (runId : string)
    : list ReconciliationObservation :=
  sort_by observed_lt (select_where (fun o => str_eqb (ob_runId o) runId) (ig_observations db)).

Definition trace_lt (l r : TaskIntegrationTrace) : bool := xt_sequence l <? xt_sequence r.

Definition traces (db : IntegrationDb) (integrationId : string) : list TaskIntegrationTrace :=
  sort_by trace_lt
    (select_where (fun t => str_eqb (xt_integrationId t) integrationId) (ig_traces db)).

(** ** The service

    [Svc] is the code of the service as it waits for its driver: what it asks
    for, and how it goes on with the answer.  The code between two questions runs
    without interruption and is a sequence of operations of the store, each a
    transaction of its own. *)

(** What the driver answers with. *)
Inductive InventoryClass := iv_ready | iv_no_changes | iv_replanning_required | iv_recovery_required.

Inductive PrepareClass := pp_prepared | pp_conflict | pp_stale_source | pp_stale_target | pp_recovery_required.

Inductive PublishClass :=
  | pb_integrated | pb_already_applied | pb_conflict | pb_stale_target | pb_partial_progress
  | pb_recovery_required.

Inductive ObservedClass := oc_observed | oc_missing_ref | oc_observation_failed | oc_identity_mismatch.

#[export] Instance InventoryClass_eq : EqDecision InventoryClass.
Proof. solve_decision. Defined.
#[export] Instance PrepareClass_eq : EqDecision PrepareClass.
Proof. solve_decision. Defined.
#[export] Instance PublishClass_eq : EqDecision PublishClass.
Proof. solve_decision. Defined.

Definition inventory_text (c : InventoryClass) : string :=
  match c with
  | iv_ready => "ready" | iv_no_changes => "no_changes" | iv_replanning_required => "replanning_required"
  | iv_recovery_required => "recovery_required"
  end.

Definition prepare_text (c : PrepareClass) : string :=
  match c with
  | pp_prepared => "prepared" | pp_conflict => "conflict" | pp_stale_source => "stale_source"
  | pp_stale_target => "stale_target" | pp_recovery_required => "recovery_required"
  end.

Definition publish_text (c : PublishClass) : string :=
  match c with
  | pb_integrated => "integrated" | pb_already_applied => "already_applied" | pb_conflict => "conflict"
  | pb_stale_target => "stale_target" | pb_partial_progress => "partial_progress"
  | pb_recovery_required => "recovery_required"
  end.

Record TaskIntegrationWork := mkWork { wk_variantId : string }.

Record VerificationResult := mkVerification { vr_passed : bool; vr_reportId : string }.

Record RepositoryObservation := mkRepositoryObservation {
  ro_repositoryId : string;
  ro_observedSha : option string;
  ro_classification : ObservedClass;
  ro_detail : option string }.

Inductive DriverCall :=
  | ObserveBranches (runId : string)
  | Resolve (dispatch : TaskDispatchRecord)
  | Inventory (work : TaskIntegrationWork)
  | Prepare (work : TaskIntegrationWork)
  | Verify (work : TaskIntegrationWork) (repositories : list IntegrationRepository)
  | Observe (work : TaskIntegrationWork) (repositories : list IntegrationRepository)
  | Publish (work : TaskIntegrationWork) (repositories : list IntegrationRepository).

Definition answer (call : DriverCall) : Type :=
  match call with
  | ObserveBranches _ => list InitializeEpicBranchInput
  | Resolve _ => option TaskIntegrationWork
  | Inventory _ => InventoryClass
  | Prepare _ => PrepareClass * list IntegrationRepository
  | Verify _ _ => VerificationResult
  | Observe _ _ => list RepositoryObservation
  | Publish _ _ => PublishClass * list IntegrationRepository
  end.

(** A rejected promise, with the message when it is an [Error]. *)
Definition Outcome (A : Type) : Type := option string + A.

Inductive Svc (A : Type) : Type :=
  | Done (a : A)
  | Thrown (error : WaveError)
  | Sync {X : Type} (op : IOp X) (k : X -> Svc A)
  | Ask (call : DriverCall) (k : Outcome (answer call) -> Svc A).

Arguments Done {A} _.
Arguments Thrown {A} _.
Arguments Sync {A X} _ _.
Arguments Ask {A} _ _.

Fixpoint sbind {A B} (m : Svc A) (k : A -> Svc B) : Svc B :=
  match m with
  | Done a => k a
  | Thrown error => Thrown error
  | Sync op next => Sync op (fun x => sbind (next x) k)
  | Ask call next => Ask call (fun r => sbind (next r) k)
  end.

Declare Scope svc_scope.
Delimit Scope svc_scope with svc.
Notation "'let?' x ':=' m 'in' k" := (sbind m (fun x => k))
  (at level 200, x pattern, m at level 100, k at level 200) : svc_scope.
Notation "m ';?' k" := (sbind m (fun _ => k)) (at level 100, right associativity) : svc_scope.
Local Open Scope svc_scope.

(** An operation of the store. *)
Definition call {X} (op : IOp X) : Svc X := Sync op (fun x => Done x).

Definition reading {X} (f : IntegrationDb -> X) : Svc X := Sync get (fun db => Done (f db)).

(** [await]: a rejection is thrown. *)
Definition await (q : DriverCall) : Svc (answer q) :=
  Ask q (fun r => match r with
                  | inl message => Thrown (ServiceError (default "" message))
                  | inr a => Done a
                  end).

Fixpoint forS {X} (l : list X) (f : X -> Svc unit) : Svc unit :=
  match l with [] => Done tt | x :: rest => f x ;? forS rest f end.

Fixpoint mapS {X Y} (l : list X) (f : X -> Svc Y) : Svc (list Y) :=
  match l with
  | [] => Done []
  | x :: rest => let? y := f x in let? ys := mapS rest f in Done (y :: ys)
  end.

(** [array.entries()]. *)
Definition indexed {X} (l : list X) : list (Z * X) := zip (map Z.of_nat (seq 0 (length l))) l.

Definition terminal (l : IntegrationLifecycle) : bool :=
  match l with
  | il_integrated | il_failed | il_reconciliation_required => true
  | il_queued | il_prepared | il_verified => false
  end.

Record TaskIntegrationStatus := mkIntegrationStatus {
  is_branches : list EpicRepositoryBranch;
  is_entries : list LedgerEntry;
  is_traces : list TaskIntegrationTrace;
  is_reconciliations : list TaskIntegrationReconciliation;
  is_observations : list ReconciliationObservation }.

Definition integrationStatus (runId : string) (db : IntegrationDb) : TaskIntegrationStatus :=
  mkIntegrationStatus (branches db runId) (entries db runId)
    (flat_map (fun e => traces db (en_integrationId e)) (entries db runId))
    (reconciliations db runId) (reconciliationObservations db runId).

(** *** Classification of an observed repository *)

Definition classifyRepository (repository : IntegrationRepository)
    (observation : option RepositoryObservation) : ReconciliationRepository :=
  let detail := observation ≫= ro_detail in
  let project classification action detail :=
    mkReconciled (tg_repositoryId repository) (tg_expectedTargetSha repository)
      (tg_candidateSha repository) (observation ≫= ro_observedSha) classification action detail in
  let orElse text := Some (default text detail) in
  match tg_candidateSha repository with
  | None => project rk_missing_candidate ra_block (orElse "prepared candidate SHA is missing")
  | Some candidate =>
      match observation with
      | None => project rk_missing_ref ra_block (orElse "repository ref observation is missing")
      | Some o =>
          match ro_classification o with
          | oc_missing_ref => project rk_missing_ref ra_block (orElse "repository ref observation is missing")
          | oc_observation_failed => project rk_observation_failed ra_block detail
          | oc_identity_mismatch => project rk_identity_mismatch ra_block detail
          | oc_observed =>
              if bool_decide (ro_observedSha o = Some candidate) then project rk_applied ra_adopt detail
              else if bool_decide (ro_observedSha o = Some (tg_expectedTargetSha repository))
              then project rk_pending ra_publish detail
              else project rk_external_mutation ra_block
                     (orElse "observed SHA matches neither the expected target nor prepared candidate")
          end
      end
  end.

Definition has_action (action : ReconciliationAction) (r : ReconciliationRepository) : bool :=
  bool_decide (rp_action r = action).

Definition blockerOf (c : ReconciliationClass) : ReconciliationBlocker :=
  match c with
  | rk_external_mutation => kb_external_mutation
  | rk_observation_failed | rk_missing_ref => kb_observation_failed
  | rk_identity_mismatch => kb_identity_mismatch
  | rk_pending | rk_applied | rk_missing_candidate => kb_missing_evidence
  end.

Definition resolutionOf (previousActions : list ReconciliationAction) : ReconciliationResolution :=
  if bool_decide (ra_publish ∈ previousActions) then
    if bool_decide (ra_adopt ∈ previousActions) then rs_mixed_forward_and_adopt else rs_forward_published
  else rs_adopted_published.

Definition resolvedRepository (r : IntegrationRepository) : IntegrationRepository :=
  mkTarget (tg_repositoryId r) (tg_sourceSha r) (tg_expectedTargetSha r) (tg_candidateSha r)
    (tg_candidateSha r)
    (Some (if bool_decide (tg_resultSha r = tg_candidateSha r) then "integrated" else "already_applied")).

(** What a failed observation stands for. *)
Definition unobserved (message : option string) (repositories : list IntegrationRepository)
    : list RepositoryObservation :=
  let detail := String.substring 0 1024 (default "repository observation failed" message) in
  map (fun r => mkRepositoryObservation (tg_repositoryId r) None oc_observation_failed (Some detail))
    repositories.

Definition withoutShas (phase : TracePhase) (reportId : option string) (classification : string)
    : TraceValue := mkTraceValue None phase None None None reportId (Some classification).

Section Service.
Context `{Clock} `{LocaleCompare}.

Definition trace (entry : LedgerEntry) (value : TraceValue) : Svc unit :=
  let? existing := reading (fun db => traces db (en_integrationId entry)) in
  if existsb (fun t => bool_decide (xt_value t = value)) existing then Done tt
  else
    let sequence := Z.of_nat (length existing) + 1 in
    let? recordedAt := call iNow in
    let? _ := call (appendTrace (mkTrace
      (en_integrationId entry +:+ ":trace:" +:+ num_text sequence) (en_integrationId entry)
      (en_runId entry) (en_taskId entry) sequence value recordedAt)) in
    Done tt.

Definition repository_lt (l r : IntegrationRepository) : bool :=
  locale_lt (tg_repositoryId l) (tg_repositoryId r).

Definition recordRepositories (entry : LedgerEntry) (phase : TracePhase)
    (repositories : list IntegrationRepository) : Svc unit :=
  forS (sort_by repository_lt repositories) (fun r =>
    trace entry (mkTraceValue (Some (tg_repositoryId r)) phase (Some (tg_expectedTargetSha r))
      (Some (default (tg_expectedTargetSha r) (tg_resultSha r))) (tg_candidateSha r)
      (en_verificationReportId entry) (tg_classification r))).

Definition reconcile (entry : LedgerEntry) (expectedLifecycle : IntegrationLifecycle)
    (classification : string) (repositories : list IntegrationRepository)
    (trigger : ReconciliationTrigger) : Svc LedgerEntry :=
  trace entry (withoutShas tp_reconciliation_required (en_verificationReportId entry) classification) ;?
  let? reconciled := call (transition (mkTransition (en_integrationId entry) expectedLifecycle
    il_reconciliation_required (Some repositories) None None
    (Some (mkGates cg_passed ig_reconciliation_required (en_verification entry))))) in
  let? _ := call (startReconciliation reconciled trigger) in
  Done reconciled.

Definition blockReconciliation (reconciliationId : string) (expected : ReconciliationLifecycle)
    (repositories : list ReconciliationRepository) (blocker : ReconciliationBlocker) : Svc unit :=
  let? _ := call (advanceReconciliation (mkAdvanceReconciliation reconciliationId expected rc_blocked
    None (Some repositories) (Some (Some rs_blocked)) (Some (Some blocker)))) in
  Done tt.

(** The observation of each repository is recorded as it is classified. *)
Definition recordObservation (entry : LedgerEntry) (reconciliationId : string) (pass existingCount : Z)
    (observed : list (string * RepositoryObservation)) (item : Z * IntegrationRepository)
    : Svc ReconciliationRepository :=
  let '(index, repository) := item in
  let projected := classifyRepository repository (map_get observed (tg_repositoryId repository)) in
  let sequence := existingCount + index + 1 in
  let? observedAt := call iNow in
  let? _ := call (appendReconciliationObservation (mkObservation
    (reconciliationId +:+ ":observation:" +:+ num_text sequence) reconciliationId
    (en_integrationId entry) (en_runId entry) (en_taskId entry) pass sequence
    (tg_repositoryId repository) (tg_expectedTargetSha repository) (tg_candidateSha repository)
    (rp_observedSha projected) (rp_classification projected) (rp_detail projected) observedAt)) in
  Done projected.

(** [reconcileEntry]; [again] is the pass after a forward publish, which may not
    publish once more. *)
Definition reconcilePass (entry : LedgerEntry) (dispatch : TaskDispatchRecord)
    (again : option (Svc LedgerEntry)) : Svc LedgerEntry :=
  let? work := await (Resolve dispatch) in
  let? reconciliation := call (startReconciliation entry
    (if existsb (fun r => present (tg_resultSha r)) (en_repositories entry)
     then rt_partial_publish else rt_recovery_required)) in
  let previousActions := map rp_action (rg_repositories reconciliation) in
  let id := rg_reconciliationId reconciliation in
  if bool_decide (rg_lifecycle reconciliation ∈ [rc_integrated; rc_blocked]) then Done entry
  else
    match work, en_repositories entry with
    | Some w, _ :: _ =>
        if str_eqb (wk_variantId w) (en_variantId entry) then
          let pass := rg_pass reconciliation + 1 in
          let? _ := call (advanceReconciliation (mkAdvanceReconciliation id
            (rg_lifecycle reconciliation) rc_observing (Some pass) None None None)) in
          let? observed := Ask (Observe w (en_repositories entry)) (fun r =>
            Done (match r with
                  | inl message => unobserved message (en_repositories entry)
                  | inr observed => observed
                  end)) in
          let byRepository := map_of (map (fun o => (ro_repositoryId o, o)) observed) in
          let? existingCount := reading (fun db => Z.of_nat (length
            (List.filter (fun o => str_eqb (ob_reconciliationId o) id)
               (reconciliationObservations db (en_runId entry))))) in
          let? repositories := mapS (indexed (sort_by repository_lt (en_repositories entry)))
            (recordObservation entry id pass existingCount byRepository) in
          match List.find (has_action ra_block) repositories with
          | Some blocked =>
              blockReconciliation id rc_observing repositories (blockerOf (rp_classification blocked)) ;? Done entry
          | None =>
              let pending := List.filter (has_action ra_publish) repositories in
              match pending, again with
              | _ :: _, None => blockReconciliation id rc_observing repositories kb_ambiguous_state ;? Done entry
              | _ :: _, Some next =>
                  let? _ := call (advanceReconciliation (mkAdvanceReconciliation id rc_observing
                    rc_forwarding None (Some repositories) None None)) in
                  let selected := List.filter (fun r =>
                    existsb (fun c => str_eqb (rp_repositoryId c) (tg_repositoryId r)) pending)
                    (en_repositories entry) in
                  Ask (Publish w selected) (fun r =>
                    match r with inl _ => Done entry | inr _ => next end)
              | [], _ =>
                  let? _ := call (resolveReconciliation id
                    (map resolvedRepository (en_repositories entry)) (resolutionOf previousActions)) in
                  let? found := reading (fun db =>
                    List.find (entry_is (en_integrationId entry)) (entries db (en_runId entry))) in
                  Done (default entry found)
              end
          end
        else blockReconciliation id (rg_lifecycle reconciliation) [] kb_missing_evidence ;? Done entry
    | _, _ => blockReconciliation id (rg_lifecycle reconciliation) [] kb_missing_evidence ;? Done entry
    end.

Definition reconcileEntry (entry : LedgerEntry) (dispatch : TaskDispatchRecord) : Svc LedgerEntry :=
  reconcilePass entry dispatch (Some (reconcilePass entry dispatch None)).

(** *** The steps of an entry *)

Definition passedGates : Gates := mkGates cg_passed ig_passed cg_passed.

(** The part of [process] for a queued entry; [inl] is what it returns. *)
Definition prepareEntry (entry : LedgerEntry) (work : TaskIntegrationWork)
    : Svc (LedgerEntry + LedgerEntry) :=
  trace entry (withoutShas tp_source_observed None "inventory_started") ;?
  let? inventory := await (Inventory work) in
  if bool_decide (inventory ∈ [iv_replanning_required; iv_recovery_required]) then
    let? e := reconcile entry il_queued (inventory_text inventory) (en_repositories entry)
                rt_recovery_required in Done (inl e)
  else
    let? prepared := if bool_decide (inventory = iv_no_changes) then Done (pp_prepared, [])
                     else await (Prepare work) in
    let '(classification, repositories) := prepared in
    if negb (bool_decide (classification = pp_prepared)) then
      let? e := reconcile entry il_queued (prepare_text classification) repositories
                  rt_recovery_required in Done (inl e)
    else
      recordRepositories entry tp_merge_prepared repositories ;?
      let? e := call (transition (mkTransition (en_integrationId entry) il_queued il_prepared
        (Some repositories) None None (Some (mkGates cg_passed ig_pending cg_pending)))) in
      Done (inr e).

Definition verifyEntry (entry : LedgerEntry) (work : TaskIntegrationWork)
    : Svc (LedgerEntry + LedgerEntry) :=
  trace entry (withoutShas tp_verification_started None "started") ;?
  let? verification := await (Verify work (en_repositories entry)) in
  let report := vr_reportId verification in
  trace entry (withoutShas tp_verification_finished (Some report)
                 (if vr_passed verification then "passed" else "failed")) ;?
  if negb (vr_passed verification) then
    let? e := call (transition (mkTransition (en_integrationId entry) il_prepared il_failed None
      (Some (Some report)) (Some cg_failed) (Some (mkGates cg_passed ig_pending cg_failed)))) in
    Done (inl e)
  else
    let? e := call (transition (mkTransition (en_integrationId entry) il_prepared il_verified None
      (Some (Some report)) (Some cg_passed) None)) in
    Done (inr e).

Definition publishEntry (entry : LedgerEntry) (work : TaskIntegrationWork) : Svc LedgerEntry :=
  let report := en_verificationReportId entry in
  match en_repositories entry with
  | [] =>
      trace entry (withoutShas tp_completed report "no_changes") ;?
      call (transition (mkTransition (en_integrationId entry) il_verified il_integrated None None None
        (Some passedGates)))
  | _ =>
      trace entry (withoutShas tp_ref_update_attempted report "started") ;?
      Ask (Publish work (en_repositories entry)) (fun r =>
        match r with
        | inl _ => reconcile entry il_verified "interrupted_publish" (en_repositories entry)
                     rt_interrupted_publish
        | inr (classification, repositories) =>
            recordRepositories entry tp_ref_update_observed repositories ;?
            if negb (bool_decide (classification ∈ [pb_integrated; pb_already_applied])) then
              reconcile entry il_verified (publish_text classification) repositories
                (if bool_decide (classification = pb_partial_progress) then rt_partial_publish
                 else rt_recovery_required)
            else
              trace entry (withoutShas
                (if bool_decide (classification = pb_already_applied) then tp_adopted else tp_completed)
                report (publish_text classification)) ;?
              call (transition (mkTransition (en_integrationId entry) il_verified il_integrated
                (Some repositories) None None (Some passedGates)))
        end)
  end.

Definition process (entry : LedgerEntry) (dispatch : TaskDispatchRecord) : Svc LedgerEntry :=
  let? work := await (Resolve dispatch) in
  match work with
  | None => reconcile entry (en_lifecycle entry) "missing_task_binding" (en_repositories entry)
              rt_recovery_required
  | Some w =>
      if negb (str_eqb (wk_variantId w) (en_variantId entry)) then
        reconcile entry (en_lifecycle entry) "missing_task_binding" (en_repositories entry)
          rt_recovery_required
      else
        let? prepared := if bool_decide (en_lifecycle entry = il_queued) then prepareEntry entry w
                         else Done (inr entry) in
        match prepared with
        | inl e => Done e
        | inr e1 =>
            let? verified := if bool_decide (en_lifecycle e1 = il_prepared) then verifyEntry e1 w
                             else Done (inr e1) in
            match verified with
            | inl e => Done e
            | inr e2 => if bool_decide (en_lifecycle e2 = il_verified) then publishEntry e2 w else Done e2
            end
        end
  end.

(** *** A tick *)

Record TaskIntegrationTickInput := mkIntegrationInput {
  it_runId : string;
  it_dag : TaskDagV2;
  it_tasks : list TaskLifecycleProjection;
  it_dispatches : list TaskDispatchRecord }.

Definition maxSafeInteger : Z := 9007199254740991.

Definition taskOrder (dag : TaskDagV2) : list (string * Z) :=
  map_of (map (fun item => (taskId (snd item), fst item))
    (indexed (sort_by (fun l r => locale_lt (taskId l) (taskId r)) (dag_nodes dag)))).

Definition integration_lt (order : list (string * Z)) (l r : TaskDispatchRecord) : bool :=
  let wave := ds_waveOrdinal l - ds_waveOrdinal r in
  let position d := default maxSafeInteger (map_get order (ds_taskId d)) in
  if negb (wave =? 0) then wave <? 0 else position l - position r <? 0.

Definition orderedDispatches (input : TaskIntegrationTickInput) : list TaskDispatchRecord :=
  sort_by (integration_lt (taskOrder (it_dag input))) (it_dispatches input).

Definition queueInput (item : Z * TaskDispatchRecord) : QueueTaskIntegrationInput :=
  let '(index, d) := item in
  let suffix := ds_runId d +:+ ":" +:+ num_text (ds_graphRevision d) +:+ ":" +:+ ds_taskId d in
  mkQueueInput ("task-integration:" +:+ suffix) (ds_runId d) (ds_taskId d) (ds_graphRevision d)
    (ds_waveOrdinal d) (index + 1) ("task-variant:" +:+ suffix).

Definition taskPhase (tasks : list TaskLifecycleProjection) (taskId : string)
    : option TaskLifecyclePhase :=
  lp_phase <$> List.find (fun t => str_eqb (lp_taskId t) taskId) tasks.

(** Branches that are not where they are expected stop the first entry under way. *)
Definition reconcileDrift (input : TaskIntegrationTickInput) (observed : list EpicRepositoryBranch)
    : Svc unit :=
  if negb (existsb (fun b => negb (is_ready b)) observed) then Done tt
  else
    let? es := reading (fun db => entries db (it_runId input)) in
    let active := existsb (fun e => bool_decide (en_lifecycle e = il_reconciliation_required)) es in
    match List.find (fun e => negb (terminal (en_lifecycle e)) &&
                       bool_decide (taskPhase (it_tasks input) (en_taskId e) = Some ph_succeeded)) es with
    | Some first =>
        if active then Done tt
        else let? _ := reconcile first (en_lifecycle first) "branch_drift" (en_repositories first)
                         rt_branch_drift in Done tt
    | None => Done tt
    end.

(** The entries in turn, until one is not integrated. *)
Fixpoint integrateLoop (input : TaskIntegrationTickInput) (ds : list TaskDispatchRecord)
    (es : list LedgerEntry) : Svc unit :=
  match es with
  | [] => Done tt
  | entry :: rest =>
      let dispatch := List.find (fun d => str_eqb (ds_taskId d) (en_taskId entry)) ds in
      if bool_decide (en_lifecycle entry = il_reconciliation_required) then
        match dispatch with
        | Some d => let? _ := reconcileEntry entry d in Done tt
        | None => Done tt
        end
      else if terminal (en_lifecycle entry) then integrateLoop input ds rest
      else
        match taskPhase (it_tasks input) (en_taskId entry) with
        | Some (ph_failed | ph_cancelled | ph_blocked) =>
            let? _ := call (transition (mkTransition (en_integrationId entry) (en_lifecycle entry)
              il_failed None None None None)) in
            integrateLoop input ds rest
        | Some ph_succeeded =>
            match dispatch with
            | None => Done tt
            | Some d =>
                let? result := process entry d in
                if bool_decide (en_lifecycle result = il_integrated) then integrateLoop input ds rest
                else Done tt
            end
        | _ => Done tt
        end
  end.

(** [tick] after the branches have been observed. *)
Definition tickWith (input : TaskIntegrationTickInput) (observations : list InitializeEpicBranchInput)
    : Svc TaskIntegrationStatus :=
  let? observed := mapS observations (fun b => call (initializeBranch b)) in
  let ds := orderedDispatches input in
  forS (indexed ds) (fun item => let? _ := call (enqueue (queueInput item)) in Done tt) ;?
  reconcileDrift input observed ;?
  let? es := reading (fun db => entries db (it_runId input)) in
  integrateLoop input ds es ;?
  reading (integrationStatus (it_runId input)).

Definition tick (input : TaskIntegrationTickInput) : Svc TaskIntegrationStatus :=
  let? observations := await (ObserveBranches (it_runId input)) in
  tickWith input observations.

(** ** Interleavings *)

(** The code until it waits for the driver again, ends or throws. *)
Fixpoint runSync {A} (m : Svc A) (db : IntegrationDb) : Svc A * IntegrationDb :=
  match m with
  | Sync op k =>
      match op db with
      | inl error => (Thrown error, db)
      | inr (x, db') => runSync (k x) db'
      end
  | _ => (m, db)
  end.

(** What [integrateTasks] of the scheduler passes to the service. *)
Definition tickInput (runId : string) (dag : TaskDagV2) (db : WaveDb) : TaskIntegrationTickInput :=
  mkIntegrationInput runId dag (projections db runId) (WaveStore.dispatches db runId).

Record Integrating := mkIntegrating {
  in_db : IntegrationDb;
  in_ticks : list (Svc TaskIntegrationStatus) }.

(** What can happen next: a stretch of the scheduler, the start of a tick of the
    service, and an answer of the driver to a tick, which then runs on.  Ticks may
    overlap, and may wait forever. *)
Inductive IntegrationEvent :=
  | IWave (stretch : Stretch)
  | ITick (runId : string) (dag : TaskDagV2)
  | IAnswer (i : nat) (driver : forall call, Outcome (answer call)).

Context `{IdGenerator}.

Definition integration_step (event : IntegrationEvent) (s : Integrating) : Integrating :=
  let db := in_db s in
  match event with
  | IWave stretch => mkIntegrating (with_waves (run_stretch stretch (ig_waves db)) db) (in_ticks s)
  | ITick runId dag => mkIntegrating db (in_ticks s ++ [tick (tickInput runId dag (ig_waves db))])
  | IAnswer i driver =>
      match in_ticks s !! i with
      | Some (Ask q k) =>
          let '(m, db') := runSync (k (driver q)) db in
          mkIntegrating db' (<[i := m]> (in_ticks s))
      | _ => s
      end
  end.

Definition integration_after (events : list IntegrationEvent) (s : Integrating) : Integrating :=
  fold_left (fun s event => integration_step event s) events s.

Definition empty_integration (runs : list string) : Integrating :=
  mkIntegrating (mkIntegrationDb (empty_waves runs) [] [] [] [] []) [].
End Service.
