(* ===== verification/WaveInv.v ===== *)
(** * Waves of tasks: what every operation keeps

    The store's invariant, said task by task: the row of a task, its leases and
    its dispatch record agree.  Each statement touches one task; the others keep
    theirs. *)

From Stdlib Require Import Sorted.
From stdpp Require Import gmap.
From S2P Require Import Prelude TaskDag TaskWave SqlList WaveStore.

Local Open Scope Z_scope.

(** ** The invariant *)

Definition task_at (run task : string) (db : WaveDb) : option TaskLifecycleProjection :=
  select_one (task_row run task) (lifecycles db).

Definition task_leases (run task : string) (db : WaveDb) : list TaskCapacityLease :=
  select_where (held_by run task) (capacity_leases db).

Definition dispatched (run task : string) (d : TaskDispatchRecord) : bool :=
  str_eqb (ds_runId d) run && str_eqb (ds_taskId d) task.

Definition task_dispatches (run task : string) (db : WaveDb) : list TaskDispatchRecord :=
  select_where (dispatched run task) (dispatch_records db).

Definition running (phase : TaskLifecyclePhase) : bool := phase_in running_phases phase.

Definition lease_resource (l : TaskCapacityLease) : TaskCapacityScope * string :=
  (cl_scope l, cl_resourceId l).

(** A task that was never dispatched holds nothing; a dispatched one has one
    record and one lease for each resource of it, all active while it runs and
    all released once it has settled. *)
Definition task_ok (row : option TaskLifecycleProjection) (ls : list TaskCapacityLease)
    (ds : list TaskDispatchRecord) : Prop :=
  match row ≫= lp_childRunId with
  | None => ls = [] /\ ds = []
  | Some child =>
      exists d, ds = [d] /\ ds_childRunId d = child /\ map lease_resource ls = resources_of d /\
        Forall (fun l => cl_released l = negb (match row with Some r => running (lp_phase r) | None => false end)) ls
  end.

Definition row_key (row : TaskLifecycleProjection) : string * string := (lp_runId row, lp_taskId row).

(** The leases of an exclusive resource, in the order they were taken: each but
    the last is released and has a lower fence than those after it. *)
Definition superseded (l l' : TaskCapacityLease) : Prop :=
  cl_released l = true /\ cl_fencingRevision l < cl_fencingRevision l'.

Definition in_turn (scope : TaskCapacityScope) (resource : string) (rows : list TaskCapacityLease) : Prop :=
  StronglySorted superseded (select_where (lease_on scope resource) rows).

Section Invariant.
Context `{IdGenerator} `{Clock} `{LocaleCompare}.

Record wave_inv (db : WaveDb) : Prop := {
  wi_keys : NoDup (map row_key (lifecycles db));
  wi_checked : Forall (fun row => lifecycle_check row = true) (lifecycles db);
  wi_children : unique_children (lifecycles db) = true;
  wi_tasks : forall run task,
    task_ok (task_at run task db) (task_leases run task db) (task_dispatches run task db);
  wi_exclusive : forall scope resource, exclusive scope = true ->
    in_turn scope resource (capacity_leases db);
  wi_runs : forall row, row ∈ lifecycles db -> lp_runId row ∈ wave_runs db;
  wi_events : forall e, e ∈ audit_events db ->
    exists n, ae_eventId e = id_text "task-wave-event" n /\ (n < ids_read db)%nat;
  wi_lease_ids : forall l, l ∈ capacity_leases db ->
    exists n, cl_leaseId l = id_text "task-capacity" n /\ (n < ids_read db)%nat;
  wi_fences : Forall (fun l => 1 <= cl_fencingRevision l) (capacity_leases db) }.

Lemma wave_inv_empty runs : wave_inv (mkWaveDb runs [] [] [] [] [] 0 0).
Proof.
  split; cbn; try constructor; try done; try (intros ? ?%elem_of_nil; done).
Qed.

(** ** Rows by key *)

Lemma task_row_true run task row : task_row run task row = true <-> row_key row = (run, task).
Proof. unfold task_row, row_key. rewrite andb_true_iff, !str_eqb_true. naive_solver. Qed.

Lemma task_row_false run task row : task_row run task row = false <-> row_key row <> (run, task).
Proof. rewrite <-not_true_iff_false, task_row_true. done. Qed.

Lemma task_at_Some run task db row :
  task_at run task db = Some row -> row ∈ lifecycles db /\ row_key row = (run, task).
Proof. intros [Hin Hk]%select_one_Some. by apply task_row_true in Hk. Qed.

Lemma task_at_elem run task db row :
  NoDup (map row_key (lifecycles db)) -> row ∈ lifecycles db -> row_key row = (run, task) ->
  task_at run task db = Some row.
Proof.
  intros Hn Hin Hk. apply (select_one_key row_key); [done| |done|by apply task_row_true].
  intros r' Hr%task_row_true. congruence.
Qed.

(** Updating the row of one task. *)
Definition updates_task (run task : string) (p : TaskLifecycleProjection -> bool)
    (f : TaskLifecycleProjection -> TaskLifecycleProjection) : Prop :=
  (forall row, p row = true -> row_key row = (run, task)) /\
  (forall row, row_key (f row) = row_key row).

Lemma select_one_updated run task p f rows row :
  updates_task run task p f -> NoDup (map row_key rows) ->
  select_one (task_row run task) rows = Some row -> p row = true ->
  select_one (task_row run task) (update_where p f rows) = Some (f row).
Proof.
  intros [Hp Hf] Hn Hs Hrow. apply select_one_Some in Hs as [Hin Hk]. apply task_row_true in Hk.
  apply (select_one_key row_key).
  - rewrite update_map; [done|]. intros r _. apply Hf.
  - intros r' Hr%task_row_true. rewrite Hf. congruence.
  - by apply update_elem_hit.
  - apply task_row_true. by rewrite Hf.
Qed.

Lemma select_one_other run task run' task' p f rows :
  updates_task run task p f -> (run', task') <> (run, task) ->
  select_one (task_row run' task') (update_where p f rows) = select_one (task_row run' task') rows.
Proof.
  intros [Hp Hf] Hne. unfold update_where, select_one. induction rows as [|r rows IH]; [done|].
  cbn. destruct (p r) eqn:Ep.
  - pose proof (Hp r Ep) as Hk. rewrite (proj2 (task_row_false run' task' (f r))), IH by (rewrite Hf; congruence).
    by rewrite (proj2 (task_row_false run' task' r)) by congruence.
  - by rewrite IH.
Qed.

(** ** Runs of the statements *)

Lemma ensure_all_run {E} (l : list TaskLifecycleProjection) (p : TaskLifecycleProjection -> bool) (e : E) u
    (db db' : WaveDb) :
  ensure (forallb p l) e db = inr (u, db') -> (forall x, x ∈ l -> p x = true) /\ db' = db.
Proof. intros [Hp ->]%ensure_run. split; [|done]. by apply forallb_elem. Qed.

Lemma updateLifecycles_run p f db c db' :
  updateLifecycles p f db = inr (c, db') ->
  db' = with_lifecycles (update_where p f) db /\ c = count_where p (lifecycles db) /\
  (forall row, row ∈ lifecycles db -> p row = true ->
     causal_update row (f row) = true /\ terminal_kept row (f row) = true /\
     lifecycle_check (f row) = true) /\
  unique_children (update_where p f (lifecycles db)) = true.
Proof.
  unfold updateLifecycles. intros Hr. run_inv Hr. split_and!; try done.
  intros row Hin Hp.
  repeat match goal with E : forallb _ _ = true |- _ => rewrite forallb_elem in E; specialize (E row) end.
  match type of Hin with _ ∈ lifecycles ?x =>
    assert (row ∈ select_where p (lifecycles x)) as Hs by (by apply elem_of_select) end.
  split_and!; auto.
Qed.

Lemma count_one_task run task p f rows :
  updates_task run task p f -> NoDup (map row_key rows) -> count_where p rows <= 1.
Proof.
  intros [Hp _] Hn. apply (count_where_key row_key); [done|]. intros r r' Hr Hr'.
  by rewrite (Hp r Hr), (Hp r' Hr').
Qed.

(** The row a statement about one task changes, if any. *)
Lemma updateTask_run run task p f db c db' :
  updates_task run task p f -> NoDup (map row_key (lifecycles db)) ->
  updateLifecycles p f db = inr (c, db') ->
  db' = with_lifecycles (update_where p f) db /\
  ((c = 0 /\ lifecycles db' = lifecycles db /\
    (forall row, task_at run task db = Some row -> p row = false)) \/
   (c = 1 /\ exists row, task_at run task db = Some row /\ p row = true /\
     task_at run task db' = Some (f row) /\ causal_update row (f row) = true /\
     terminal_kept row (f row) = true /\ lifecycle_check (f row) = true)) /\
  (forall run' task', (run', task') <> (run, task) -> task_at run' task' db' = task_at run' task' db).
Proof.
  intros Hu Hn Hr. apply updateLifecycles_run in Hr as (-> & -> & Hall & _).
  split; [done|]. split; [|intros; by apply (select_one_other run task)].
  pose proof (count_one_task _ _ _ _ (lifecycles db) Hu Hn) as Hle.
  pose proof (count_where_nonneg p (lifecycles db)).
  destruct (decide (count_where p (lifecycles db) = 0)) as [Hz|Hz].
  - left. rewrite Hz. split; [done|].
    assert (forall r, r ∈ lifecycles db -> p r = false) as Hnone.
    { intros r Hin. destruct (p r) eqn:Ep; [|done]. pose proof (count_where_pos p _ r Hin Ep). lia. }
    split; [by apply update_where_none|]. intros row [Hrow _]%task_at_Some. by apply Hnone.
  - right. split; [lia|]. destruct (count_where_elem p (lifecycles db) Hz) as (row & Hin & Hp).
    exists row. assert (task_at run task db = Some row) as Hat.
    { apply task_at_elem; [done..|]. exact (proj1 Hu row Hp). }
    destruct (Hall row Hin Hp) as (? & ? & ?). split_and!; try done.
    by apply select_one_updated.
Qed.

(** ** What the statements keep *)

(** Everything but the rows of tasks is as it was. *)
Lemma inv_lifecycles db rows :
  wave_inv db -> NoDup (map row_key rows) -> Forall (fun row => lifecycle_check row = true) rows ->
  unique_children rows = true -> (forall row, row ∈ rows -> lp_runId row ∈ wave_runs db) ->
  (forall run task, task_ok (select_one (task_row run task) rows) (task_leases run task db)
     (task_dispatches run task db)) ->
  wave_inv (with_lifecycles (fun _ => rows) db).
Proof. intros [] ?????. by split. Qed.

Lemma update_rows_checked p f db c db' :
  wave_inv db -> updateLifecycles p f db = inr (c, db') ->
  (forall row, row_key (f row) = row_key row) ->
  NoDup (map row_key (lifecycles db')) /\
  Forall (fun row => lifecycle_check row = true) (lifecycles db') /\
  unique_children (lifecycles db') = true /\
  (forall row, row ∈ lifecycles db' -> lp_runId row ∈ wave_runs db).
Proof.
  intros Hi Hr Hf. apply updateLifecycles_run in Hr as (-> & _ & Hall & Hch). cbn. split_and!.
  - rewrite update_map; [apply Hi|]. done.
  - apply Forall_forall. intros row [[Hin _]|(r & Hin & Hp & ->)]%update_elem_1.
    + pose proof (wi_checked _ Hi) as Hc. rewrite Forall_forall in Hc. by apply Hc.
    + by apply Hall.
  - done.
  - intros row [[Hin _]|(r & Hin & _ & ->)]%update_elem_1; [by apply (wi_runs _ Hi)|].
    pose proof (Hf r) as [= -> _]. by apply (wi_runs _ Hi).
Qed.

(** A statement that moves a running task to a running phase, or leaves the phase
    of its task among the others, keeps the invariant. *)
Lemma inv_update run task p f db c db' :
  wave_inv db -> updates_task run task p f -> updateLifecycles p f db = inr (c, db') ->
  (forall row, task_at run task db = Some row -> p row = true ->
     lp_childRunId (f row) = lp_childRunId row /\
     (lp_childRunId row <> None -> running (lp_phase (f row)) = running (lp_phase row))) ->
  wave_inv db'.
Proof.
  intros Hi Hu Hr Hf. destruct (update_rows_checked _ _ _ _ _ Hi Hr (proj2 Hu)) as (Hn & Hc & Hch & Hrun).
  destruct (updateTask_run _ _ _ _ _ _ _ Hu (wi_keys _ Hi) Hr) as (-> & Hrow & Hother).
  change (with_lifecycles (update_where p f) db) with
    (with_lifecycles (fun _ => update_where p f (lifecycles db)) db).
  apply inv_lifecycles; try done. intros run' task'. pose proof (wi_tasks _ Hi run' task') as Ht.
  destruct (decide ((run', task') = (run, task))) as [[= -> ->]|Hne].
  - destruct Hrow as [(_ & E & _)|(_ & row & Hat & Hp & Hat' & _)].
    + cbn in E. by rewrite E.
    + change (select_one _ _) with (task_at run task (with_lifecycles (update_where p f) db)).
      rewrite Hat'. rewrite Hat in Ht. unfold task_ok in *. cbn in *.
      destruct (Hf row Hat Hp) as [-> Hrunning]. destruct (lp_childRunId row) as [child|]; [|done].
      by rewrite Hrunning.
  - change (select_one _ _) with (task_at run' task' (with_lifecycles (update_where p f) db)).
    by rewrite (Hother run' task' Hne).
Qed.

Lemma nowIso_run db now db' :
  nowIso db = inr (now, db') -> db' = with_reads (ids_read db) (S (times_read db)) db.
Proof. unfold nowIso. intros Hr. by run_inv Hr. Qed.

Lemma inv_reads db ids times :
  wave_inv db -> (ids_read db <= ids)%nat -> wave_inv (with_reads ids times db).
Proof.
  intros [? ? ? ? ? ? He Hl ?] Hle. split; try done; cbn.
  - intros e Hin. destruct (He e Hin) as (n & ? & ?). exists n. split; [done|lia].
  - intros l Hin. destruct (Hl l Hin) as (n & ? & ?). exists n. split; [done|lia].
Qed.

Lemma inv_now db now db' : nowIso db = inr (now, db') -> wave_inv db -> wave_inv db'.
Proof. intros ->%nowIso_run Hi. by apply inv_reads. Qed.

Lemma nextId_run prefix db id db' :
  nextId prefix db = inr (id, db') ->
  id = id_text prefix (ids_read db) /\ db' = with_reads (S (ids_read db)) (times_read db) db.
Proof. unfold nextId. intros Hr. by run_inv Hr. Qed.

Lemma audit_run run task kind at_ db u db' :
  audit run task kind at_ db = inr (u, db') ->
  db' = with_audit (fun rows => rows ++ [mkAudit (id_text "task-wave-event" (ids_read db)) run task kind at_])
          (with_reads (S (ids_read db)) (times_read db) db).
Proof.
  unfold audit. intros Hr. run_inv Hr.
  match goal with E : nextId _ _ = _ |- _ => apply nextId_run in E as [-> ->] end. done.
Qed.

Lemma inv_audit run task kind at_ db u db' :
  audit run task kind at_ db = inr (u, db') -> wave_inv db -> wave_inv db'.
Proof.
  intros ->%audit_run Hi.
  destruct (inv_reads db (S (ids_read db)) (times_read db) Hi ltac:(lia)) as [? ? ? ? ? ? He Hl ?].
  split; try done. intros e [Hin| ->]%elem_of_snoc; [by apply He|]. eexists. split; [done|]. cbn. lia.
Qed.

(** An event can always be recorded for a known run. *)
Definition events_fresh (db : WaveDb) : Prop :=
  forall e, e ∈ audit_events db ->
    exists n, ae_eventId e = id_text "task-wave-event" n /\ (n < ids_read db)%nat.

Lemma audit_ok run task kind at_ db :
  events_fresh db -> run ∈ wave_runs db -> exists db', audit run task kind at_ db = inr (tt, db').
Proof.
  intros Hi Hrun. unfold audit, nextId, bind, get, modify, ret, ensure.
  assert (exists_where (fun e => str_eqb (ae_eventId e) (id_text "task-wave-event" (ids_read db)))
    (audit_events (with_reads (S (ids_read db)) (times_read db) db)) = false) as ->.
  { apply exists_where_false. intros e Hin. apply str_eqb_false. intros E.
    destruct (Hi e Hin) as (n & En & Hlt). rewrite En in E. apply id_text_inj in E as [_ ->]. lia. }
  cbn. rewrite (proj2 (set_has_true _ _) Hrun). by eexists.
Qed.

Lemma readOne_run run task db row db' :
  readOne run task db = inr (row, db') -> task_at run task db = Some row /\ db' = db.
Proof. unfold readOne. intros Hr. run_inv Hr. done. Qed.

Lemma task_from_updates run task from f :
  (forall row, row_key (f row) = row_key row) -> updates_task run task (task_from run task from) f.
Proof. intros Hf. split; [|done]. intros row [Hr _]%andb_prop. by apply task_row_true. Qed.

(** ** Moves of one task *)

Lemma with_lifecycles_same f db : f (lifecycles db) = lifecycles db -> with_lifecycles f db = db.
Proof. intros E. unfold with_lifecycles. rewrite E. by destruct db. Qed.

Lemma phase_in_true phases phase : phase_in phases phase = true <-> phase ∈ phases.
Proof. unfold phase_in. apply bool_decide_eq_true. Qed.

Lemma task_from_true run task from row :
  task_from run task from row = true <-> row_key row = (run, task) /\ lp_phase row ∈ from.
Proof. unfold task_from. by rewrite andb_true_iff, task_row_true, phase_in_true. Qed.

(** The move a phase update makes, or that the task was there already. *)
Lemma updatePhase_run run task from phase extra db r db' :
  updatePhase run task from phase extra db = inr (r, db') ->
  NoDup (map row_key (lifecycles db)) -> (forall row, row_key (extra row) = row_key row) ->
  let now := clock_text (times_read db) in
  let db1 := with_reads (ids_read db) (S (times_read db)) db in
  (exists row, task_at run task db = Some row /\ lp_phase row ∈ from /\
     r = extra (setPhase phase now row) /\ task_at run task db' = Some r /\
     updateLifecycles (task_from run task from) (fun row => extra (setPhase phase now row)) db1 = inr (1, db')) \/
  (task_at run task db = Some r /\ lp_phase r = phase /\ lp_phase r ∉ from /\ db' = db1).
Proof.
  intros Hr Hn Hx now db1. unfold updatePhase in Hr. run_inv Hr.
  match goal with E : nowIso _ = _ |- _ => pose proof (nowIso_run _ _ _ E) as ->;
    assert (a = now) as -> by (unfold nowIso in E; by run_inv E); clear E end.
  assert (updates_task run task (task_from run task from) (fun row => extra (setPhase phase now row))) as Hu.
  { apply task_from_updates. intros row. by rewrite Hx. }
  match goal with E : updateLifecycles _ _ _ = inr (?c, ?d) |- _ =>
    pose proof (updateTask_run _ _ _ _ _ _ _ Hu (Hn : NoDup (map row_key (lifecycles db1))) E)
      as (Ed & Hrow & _); rename E into Hup end.
  destruct Hrow as [(-> & Esame & Hmiss)|(-> & row & Hat & Hp & Hat' & _)]; cbn [negb Z.eqb] in Hr.
  - right. change (negb (0 =? 1)) with true in Hr. cbv iota in Hr. run_inv Hr.
    match goal with E : readOne _ _ _ = _ |- _ => apply readOne_run in E as [Hread ->] end.
    match type of Hr with (if bool_decide (lp_phase ?x = _) then _ else _) _ = _ =>
      destruct (bool_decide_reflect (lp_phase x = phase)) as [Hph|]; [|done] end. injection Hr as <- <-.
    rewrite Ed in Esame. rewrite with_lifecycles_same in Ed by done. rewrite Ed in Hread |- *.
    split_and!; try done.
    intros Hin. specialize (Hmiss _ Hread). apply not_true_iff_false in Hmiss. apply Hmiss.
    apply task_from_true. split; [|done]. by apply task_at_Some in Hread as [_ ?].
  - left. change (negb (1 =? 1)) with false in Hr. cbv iota in Hr.
    apply readOne_run in Hr as [Hread ->]. exists row. apply task_from_true in Hp as [_ Hp].
    split_and!; try done. congruence.
Qed.

Lemma not_started_child run task db row :
  wave_inv db -> task_at run task db = Some row -> lp_phase row = ph_not_started \/ lp_phase row = ph_blocked ->
  lp_childRunId row = None.
Proof.
  intros Hi [Hin _]%task_at_Some Hph. pose proof (wi_checked _ Hi) as Hc. rewrite Forall_forall in Hc.
  specialize (Hc row Hin). unfold lifecycle_check in Hc. rewrite !andb_true_iff in Hc.
  destruct Hc as [[_ Hc] _]. destruct (lp_childRunId row); [|done].
  by destruct Hph as [E|E]; rewrite E in Hc.
Qed.

Lemma running_child run task db row :
  wave_inv db -> task_at run task db = Some row -> running (lp_phase row) = true ->
  exists child, lp_childRunId row = Some child.
Proof.
  intros Hi [Hin _]%task_at_Some Hph. pose proof (wi_checked _ Hi) as Hc. rewrite Forall_forall in Hc.
  specialize (Hc row Hin). unfold lifecycle_check in Hc. rewrite !andb_true_iff in Hc.
  destruct Hc as [[[_ Hc] _] _]. destruct (lp_childRunId row) as [child|]; [by exists child|].
  by destruct (lp_phase row).
Qed.

Lemma inv_updatePhase run task from phase extra db r db' :
  updatePhase run task from phase extra db = inr (r, db') -> wave_inv db ->
  (forall row, row_key (extra row) = row_key row /\ lp_childRunId (extra row) = lp_childRunId row /\
     lp_phase (extra row) = lp_phase row) ->
  (forall ph, ph ∈ from -> ph = ph_not_started \/ running ph = running phase) ->
  wave_inv db'.
Proof.
  intros Hr Hi Hx Hfrom. pose proof (inv_reads db (ids_read db) (S (times_read db)) Hi ltac:(lia)) as Hi1.
  apply updatePhase_run in Hr as [(row & Hat & Hin & -> & _ & Hup)|(_ & _ & _ & ->)];
    [|done|apply Hi|intros; apply Hx].
  apply (inv_update run task) in Hup; [done..| |].
  - apply task_from_updates. intros row'. by rewrite (proj1 (Hx _)).
  - intros row' Hat' [_ Hp]%task_from_true. destruct (Hx (setPhase phase (clock_text (times_read db)) row'))
      as (_ & -> & ->). split; [done|]. intros Hc. cbn.
    destruct (Hfrom _ Hp) as [E|E]; [|done]. by rewrite (not_started_child run task db row') in Hc by auto.
Qed.

(** ** Statements that go through *)

Lemma updateTask_ok run task p f row db :
  wave_inv db -> updates_task run task p f -> task_at run task db = Some row -> p row = true ->
  lp_childRunId (f row) = lp_childRunId row -> causal_update row (f row) = true ->
  terminal_kept row (f row) = true -> lifecycle_check (f row) = true ->
  updateLifecycles p f db = inr (1, with_lifecycles (update_where p f) db).
Proof.
  intros Hi Hu Hat Hp Hch Hcausal Hterm Hcheck.
  assert (forall r, r ∈ lifecycles db -> p r = true -> r = row) as Honly.
  { intros r Hin Hr. pose proof (task_at_elem run task db r (wi_keys _ Hi) Hin (proj1 Hu r Hr)). congruence. }
  unfold updateLifecycles, bind, get, ensure.
  assert (forall q : TaskLifecycleProjection -> bool, q row = true ->
    forallb q (select_where p (lifecycles db)) = true) as Hhits.
  { intros q Hq. apply forallb_elem. intros r [Hin Hr]%elem_of_select. by rewrite (Honly r Hin Hr). }
  rewrite !Hhits by done. cbn [ret modify].
  assert (unique_children (update_where p f (lifecycles db)) = true) as ->.
  { unfold unique_children. rewrite omap_update; [apply Hi|].
    intros r Hin Hr. by rewrite (Honly r Hin Hr). }
  unfold ret, modify. f_equal. f_equal. apply Z.le_antisymm; [by eapply count_one_task, Hi|].
  apply task_at_Some in Hat as [Hin _]. by eapply count_where_pos.
Qed.

Lemma checked_row run task db row :
  wave_inv db -> task_at run task db = Some row -> lifecycle_check row = true.
Proof.
  intros Hi [Hin _]%task_at_Some. pose proof (wi_checked _ Hi) as Hc. rewrite Forall_forall in Hc.
  by apply Hc.
Qed.

(** A row keeps the checks when only its phase moves between running phases, or
    from one to a settled phase. *)
Lemma check_moved row row' :
  lifecycle_check row = true -> running (lp_phase row) = true ->
  phase_in (running_phases ++ [ph_succeeded; ph_failed; ph_cancelled]) (lp_phase row') = true ->
  lp_graphRevision row' = lp_graphRevision row -> lp_childRunId row' = lp_childRunId row ->
  lp_attemptOrdinal row <= lp_attemptOrdinal row' -> lp_retryCount row <= lp_retryCount row' ->
  lp_revision row <= lp_revision row' -> lp_blockReason row' = lp_blockReason row ->
  lifecycle_check row' = true.
Proof.
  unfold lifecycle_check. intros Hc Hr Hp -> -> ?? ? ->. rewrite !andb_true_iff, !Z.leb_le in *.
  destruct Hc as [[[[[[? ?] ?] ?] Hch] ?] Hb]. split_and!; try lia.
  - by destruct (lp_childRunId row), (lp_phase row), (lp_phase row').
  - by destruct (lp_childRunId row), (lp_phase row), (lp_phase row').
  - by destruct (lp_blockReason row), (lp_phase row), (lp_phase row').
Qed.

Lemma with_reads_at run task ids times db : task_at run task (with_reads ids times db) = task_at run task db.
Proof. done. Qed.

Lemma updatePhase_ok run task from phase extra row db :
  wave_inv db -> task_at run task db = Some row -> lp_phase row ∈ from -> running (lp_phase row) = true ->
  phase_in (running_phases ++ [ph_succeeded; ph_failed; ph_cancelled]) phase = true ->
  (extra = id \/ extra = countRetry) ->
  exists db', updatePhase run task from phase extra db = inr (extra (setPhase phase (clock_text (times_read db)) row), db').
Proof.
  intros Hi Hat Hin Hrun Hph Hx. pose proof (inv_reads db (ids_read db) (S (times_read db)) Hi ltac:(lia)) as Hi1.
  pose proof (checked_row _ _ _ _ Hi Hat) as Hc. set (now := clock_text (times_read db)).
  assert (forall r, row_key (extra r) = row_key r) as Hkey by (destruct Hx as [->| ->]; done).
  assert (updates_task run task (task_from run task from) (fun r => extra (setPhase phase now r))) as Hu
    by (apply task_from_updates; intros r; by rewrite Hkey).
  assert (task_from run task from row = true) as Hp.
  { apply task_from_true. split; [by apply task_at_Some in Hat as [_ ?]|done]. }
  unfold updatePhase. erewrite bind_eq; [|reflexivity]. fold now.
  erewrite bind_eq; [|apply (updateTask_ok run task _ _ row); try done].
  - eexists. cbn [negb Z.eqb Pos.eqb]. unfold readOne, bind, get.
    cbn [with_lifecycles with_reads lifecycles].
    rewrite (select_one_updated run task _ _ _ row Hu (wi_keys _ Hi) Hat Hp). reflexivity.
  - by destruct Hx as [->| ->].
  - unfold causal_update. destruct Hx as [->| ->]; cbn; rewrite !str_eqb_refl, Z.eqb_refl, Z.leb_refl; done.
  - unfold terminal_kept. by destruct (lp_phase row).
  - apply (check_moved row); destruct Hx as [->| ->]; cbn; try done; lia.
Qed.

(** Settling releases what the task held. *)
Definition releases (run task : string) (l : TaskCapacityLease) : bool :=
  held_by run task l && negb (cl_released l).

Lemma release_run run task now db c db' :
  release run task now db = inr (c, db') ->
  let db1 := with_leases (update_where (releases run task) (releasedLease now)) db in
  db' = db1 \/ exists u, audit run (Some task) (capacity_released c) now db1 = inr (u, db').
Proof.
  unfold release. fold (releases run task). intros Hr. run_inv Hr.
  match goal with E : (if ?b then _ else _) _ = _ |- _ => destruct b end; [|run_inv E; by left].
  right. by eexists.
Qed.

Lemma held_by_true run task l : held_by run task l = true <-> (cl_runId l, cl_taskId l) = (run, task).
Proof. unfold held_by. rewrite andb_true_iff, !str_eqb_true. naive_solver. Qed.

Lemma task_leases_released run task now db :
  let db1 := with_leases (update_where (releases run task) (releasedLease now)) db in
  (map lease_resource (task_leases run task db1) = map lease_resource (task_leases run task db) /\
   Forall (fun l => cl_released l = true) (task_leases run task db1)) /\
  (forall run' task', (run', task') <> (run, task) ->
     task_leases run' task' db1 = task_leases run' task' db).
Proof.
  unfold task_leases. cbn [with_leases capacity_leases]. split.
  - rewrite select_where_update by done. split; [by apply update_map|].
    apply Forall_forall. intros l [[Hin Hp]|(l0 & _ & _ & ->)]%update_elem_1; [|done].
    apply elem_of_select in Hin as [_ Hh]. unfold releases in Hp. rewrite Hh in Hp.
    by destruct (cl_released l).
  - intros run' task' Hne. rewrite select_where_update by done. apply update_where_none.
    intros l [_ Hh]%elem_of_select. apply not_true_iff_false. intros [Hr _]%andb_prop.
    rewrite held_by_true in Hh, Hr. congruence.
Qed.

(** Releasing keeps the turns: only the last lease of a resource is active. *)
Lemma in_turn_released run task now scope resource rows :
  in_turn scope resource rows ->
  in_turn scope resource (update_where (releases run task) (releasedLease now) rows).
Proof.
  unfold in_turn. rewrite select_where_update by done. generalize (select_where (lease_on scope resource) rows).
  intros ls Hs. induction Hs as [|l ls Hs IH Hl]; cbn; [constructor|]. constructor; [done|].
  apply Forall_forall. intros l' Hin. rewrite Forall_forall in Hl.
  assert (exists l0, l0 ∈ ls /\ cl_fencingRevision l0 <= cl_fencingRevision l') as (l0 & Hin0 & Hle).
  { apply update_elem_1 in Hin as [[Hin _]|(l0 & Hin & _ & ->)]; [by exists l'|].
    exists l0. split; [done|]. cbn. lia. }
  destruct (Hl l0 Hin0) as [Hr Hf]. unfold releases. rewrite Hr, andb_false_r. split; [done|lia].
Qed.

(** So at most one is active. *)
Lemma in_turn_count scope resource rows :
  in_turn scope resource rows -> count_where (active_on scope resource) rows <= 1.
Proof.
  intros Hs. unfold count_where. unfold active_on, select_where.
  assert (forall l : list TaskCapacityLease, List.filter (fun l => lease_on scope resource l && negb (cl_released l)) l =
    List.filter (fun l => negb (cl_released l)) (select_where (lease_on scope resource) l)) as ->.
  { induction l as [|x l IH]; [done|]. cbn. destruct (lease_on scope resource x); cbn; [|done].
    by rewrite IH. }
  unfold in_turn in Hs. revert Hs. generalize (select_where (lease_on scope resource) rows).
  intros ls Hs. induction Hs as [|l ls Hs IH Hl]; [done|]. cbn.
  destruct (cl_released l) eqn:Er; cbn; [done|].
  destruct ls as [|l' ls]; [cbn; lia|]. apply Forall_cons in Hl as [[Hl _] _]. congruence.
Qed.

(** A settled task: the other tables stay, and so do the other tasks. *)
Record settles (run task : string) (db : WaveDb) (r : TaskLifecycleProjection) (db' : WaveDb) : Prop := {
  sl_leases : capacity_leases db' = capacity_leases db;
  sl_dispatches : dispatch_records db' = dispatch_records db;
  sl_events : audit_events db' = audit_events db;
  sl_ids : ids_read db' = ids_read db;
  sl_runs : wave_runs db' = wave_runs db;
  sl_keys : NoDup (map row_key (lifecycles db'));
  sl_checked : Forall (fun row => lifecycle_check row = true) (lifecycles db');
  sl_children : unique_children (lifecycles db') = true;
  sl_known : forall row, row ∈ lifecycles db' -> lp_runId row ∈ wave_runs db;
  sl_child : lp_childRunId <$> task_at run task db = Some (lp_childRunId r);
  sl_row : task_at run task db' = Some r;
  sl_phase : running (lp_phase r) = false;
  sl_other : forall run' task', (run', task') <> (run, task) ->
    task_at run' task' db' = task_at run' task' db }.

Lemma updatePhase_settles run task phase db r db' :
  updatePhase run task running_phases (settled_phase phase) id db = inr (r, db') -> wave_inv db ->
  settles run task db r db'.
Proof.
  intros Hup Hi. pose proof (inv_reads db (ids_read db) (S (times_read db)) Hi ltac:(lia)) as Hi1.
  apply updatePhase_run in Hup as [(row & Hat & Hin & -> & Hat' & Hup)|(Hat & Hph & _ & ->)];
    [| |apply Hi|done].
  - assert (updates_task run task (task_from run task running_phases)
      (fun row => id (setPhase (settled_phase phase) (clock_text (times_read db)) row))) as Hu
      by (by apply task_from_updates).
    destruct (update_rows_checked _ _ _ _ _ Hi1 Hup (proj2 Hu)) as (? & ? & ? & ?).
    destruct (updateTask_run _ _ _ _ _ _ _ Hu (wi_keys _ Hi1) Hup) as (-> & _ & Ho).
    split; try done; [by rewrite Hat|]. cbn. by destruct phase.
  - destruct Hi. split; try done; [by rewrite Hat|]. rewrite Hph. by destruct phase.
Qed.

Lemma inv_settled run task phase now db1 r db2 c db3 :
  updatePhase run task running_phases (settled_phase phase) id db1 = inr (r, db2) ->
  release run task now db2 = inr (c, db3) -> wave_inv db1 -> wave_inv db3.
Proof.
  intros Hup Hrel Hi. set (db2' := with_leases (update_where (releases run task) (releasedLease now)) db2).
  enough (wave_inv db2') as Hi'.
  { apply release_run in Hrel as [->|[u Ha]]; [done|]. by apply inv_audit in Ha. }
  destruct (updatePhase_settles _ _ _ _ _ _ Hup Hi) as [El Ed Ee Ei Ew Hn Hc Hchs Hruns Hch Hat Hph Hother].
  split; try done; cbn [db2' with_leases capacity_leases audit_events ids_read lifecycles wave_runs].
  - intros run' task'. change (task_at run' task' db2') with (task_at run' task' db2).
    change (task_dispatches run' task' db2') with (task_dispatches run' task' db2).
    assert (task_dispatches run' task' db2 = task_dispatches run' task' db1) as ->
      by (unfold task_dispatches; by rewrite Ed).
    destruct (task_leases_released run task now db2) as [[Hres Hrel'] Hleft].
    assert (forall rn tk, task_leases rn tk db2 = task_leases rn tk db1) as Esame
      by (intros; unfold task_leases; by rewrite El).
    pose proof (wi_tasks _ Hi run' task') as Ht.
    destruct (decide ((run', task') = (run, task))) as [[= -> ->]|Hne].
    + rewrite Hat. destruct (task_at run task db1) as [row|]; [|done]. injection Hch as Hch.
      rewrite Esame in Hres. unfold task_ok in *. cbn in *. rewrite Hch in Ht.
      destruct (lp_childRunId r) as [child|].
      * destruct Ht as (d & ? & ? & Hm & _). exists d. rewrite Hph. split_and!; try done.
        etrans; [exact Hres|exact Hm].
      * destruct Ht as [Hls ?]. split; [|done]. rewrite Hls in Hres. apply map_eq_nil in Hres. done.
    + unfold db2'. rewrite (Hleft run' task' Hne), Esame, (Hother run' task' Hne). done.
  - intros scope resource Hex. rewrite El. apply in_turn_released. by apply Hi.
  - by rewrite Ew.
  - rewrite Ee, Ei. apply Hi.
  - rewrite El, Ei. intros l [[Hin _]|(l0 & Hin & _ & ->)]%update_elem_1;
      [by apply (wi_lease_ids _ Hi)|exact (wi_lease_ids _ Hi l0 Hin)].
  - rewrite El. apply Forall_update; [apply Hi|]. intros l _ Hl. cbn. lia.
Qed.

(** ** Dispatch *)

(** The part of the invariant a lease by itself can break. *)
Record lease_inv (db : WaveDb) : Prop := {
  li_exclusive : forall scope resource, exclusive scope = true ->
    in_turn scope resource (capacity_leases db);
  li_events : forall e, e ∈ audit_events db ->
    exists n, ae_eventId e = id_text "task-wave-event" n /\ (n < ids_read db)%nat;
  li_lease_ids : forall l, l ∈ capacity_leases db ->
    exists n, cl_leaseId l = id_text "task-capacity" n /\ (n < ids_read db)%nat;
  li_fences : Forall (fun l => 1 <= cl_fencingRevision l) (capacity_leases db) }.

Lemma wave_lease_inv db : wave_inv db -> lease_inv db.
Proof. intros []. by split. Qed.

Lemma priorFence_bound scope resource rows l :
  l ∈ rows -> lease_on scope resource l = true -> cl_fencingRevision l <= priorFence scope resource rows.
Proof.
  intros Hin Hl. assert (l ∈ select_where (lease_on scope resource) rows) as Hs by (by apply elem_of_select).
  unfold priorFence. clear Hin. induction Hs as [l ls|l l' ls Hs IH]; cbn; [lia|]. specialize (IH Hl). lia.
Qed.

Lemma priorFence_nonneg scope resource rows : 0 <= priorFence scope resource rows.
Proof. unfold priorFence. induction (select_where _ _) as [|l ls IH]; cbn; lia. Qed.

Definition newLease (d : TaskDispatchRecord) (now : string) (resource : TaskCapacityScope * string)
    (db : WaveDb) : TaskCapacityLease :=
  mkCapacityLease (id_text "task-capacity" (ids_read db)) (ds_runId d) (ds_taskId d) (fst resource)
    (snd resource) (priorFence (fst resource) (snd resource) (capacity_leases db) + 1) false now None.

Lemma acquire_run d now resource db u db' :
  acquire d now resource db = inr (u, db') ->
  db' = with_leases (fun rows => rows ++ [newLease d now resource db])
          (with_reads (S (ids_read db)) (times_read db) db) /\
  (exclusive (fst resource) = true ->
     forall l, l ∈ capacity_leases db -> active_on (fst resource) (snd resource) l = false).
Proof.
  destruct resource as [scope res]. unfold acquire. cbn [fst snd]. intros Hr. run_inv Hr.
  match goal with E : nextId _ _ = _ |- _ => apply nextId_run in E as [-> ->] end.
  unfold orConflict in Hr. destruct (insertLease _ _) as [e|[u' db1]] eqn:Ei; [done|]. injection Hr as <- <-.
  unfold insertLease in Ei. run_inv Ei. split; [done|]. intros Hex l Hin.
  match goal with E : _ || _ || negb (exists_where (active_on _ _) _) = true |- _ =>
    cbn [cl_released cl_scope cl_resourceId] in E; rewrite Hex in E; cbn [negb orb] in E;
    apply negb_true_iff in E; rewrite exists_where_false in E; by apply E end.
Qed.

Lemma lease_inv_acquire d now resource db u db' :
  acquire d now resource db = inr (u, db') -> lease_inv db -> lease_inv db'.
Proof.
  intros (-> & Hex)%acquire_run [Hc1 Hc2 Hc3 Hc4]. split; cbn.
  - intros scope res Hs. unfold in_turn. rewrite select_where_app. cbn [select_where List.filter].
    specialize (Hc1 scope res Hs).
    destruct (lease_on scope res (newLease d now resource db)) eqn:Ea; [|by rewrite app_nil_r].
    apply andb_prop in Ea as [Es Er]. apply bool_decide_eq_true in Es.
    apply str_eqb_true in Er. cbn in Es, Er. subst scope res. specialize (Hex Hs).
    apply StronglySorted_app_2; [|done|repeat constructor].
    intros l l' [Hin Hl]%elem_of_select ->%list_elem_of_singleton. split.
    + specialize (Hex l Hin). unfold active_on in Hex. rewrite Hl in Hex. by destruct (cl_released l).
    + pose proof (priorFence_bound _ _ _ _ Hin Hl). cbn. lia.
  - intros e Hin. destruct (Hc2 e Hin) as (n & ? & ?). exists n. split; [done|lia].
  - intros l [Hin| ->]%elem_of_snoc.
    + destruct (Hc3 l Hin) as (n & ? & ?). exists n. split; [done|lia].
    + eexists. split; [done|lia].
  - apply Forall_snoc; [done|]. cbn. pose proof (priorFence_nonneg (fst resource) (snd resource) (capacity_leases db)). lia.
Qed.

(** A lease taken for a dispatch. *)
Definition taken (d : TaskDispatchRecord) (before : list TaskCapacityLease) (l : TaskCapacityLease) : Prop :=
  held_by (ds_runId d) (ds_taskId d) l = true /\ cl_released l = false /\
  (forall l0, l0 ∈ before -> lease_resource l0 = lease_resource l ->
     cl_fencingRevision l0 < cl_fencingRevision l).

Lemma newLease_taken d now resource db : taken d (capacity_leases db) (newLease d now resource db).
Proof.
  split_and!; [by apply held_by_true|done|]. intros l0 Hin [= Es Er]. cbn.
  pose proof (priorFence_bound (fst resource) (snd resource) _ l0 Hin) as Hb.
  unfold lease_on in Hb. rewrite Es, Er, str_eqb_refl, bool_decide_true in Hb by done.
  specialize (Hb eq_refl). lia.
Qed.

Lemma acquire_all d now resources db u db' :
  forM resources (acquire d now) db = inr (u, db') -> lease_inv db ->
  lease_inv db' /\ exists new ids, (ids_read db <= ids)%nat /\
    db' = with_leases (fun rows => rows ++ new) (with_reads ids (times_read db) db) /\
    map lease_resource new = resources /\ Forall (taken d (capacity_leases db)) new.
Proof.
  revert db. induction resources as [|x rest IH]; intros db Hr Hi; cbn [forM] in Hr.
  - run_inv Hr. split; [done|]. exists [], (ids_read db). split_and!; try done.
    destruct db. unfold with_leases, with_reads. cbn. by rewrite app_nil_r.
  - run_inv Hr. match goal with E : acquire _ _ _ _ = _ |- _ =>
      pose proof (lease_inv_acquire _ _ _ _ _ _ E Hi) as Hi1; apply acquire_run in E as [-> _] end.
    destruct (IH _ Hr Hi1) as (Hi' & new & ids & Hle & -> & Hm & Hall). split; [done|]. cbn in Hle.
    exists (newLease d now x db :: new), ids. split_and!; [lia| | |].
    + unfold with_leases, with_reads. cbn. by rewrite <-app_assoc.
    + cbn. rewrite Hm. by destruct x.
    + constructor; [apply newLease_taken|]. eapply Forall_impl; [exact Hall|].
      intros l (? & ? & Hf). split_and!; try done. intros l0 Hin E. apply Hf; [|done].
      cbn. apply elem_of_app. by left.
Qed.

Definition active_count (scope : TaskCapacityScope) (resource : string) (db : WaveDb) : Z :=
  count_where (active_on scope resource) (capacity_leases db).

(** A dispatch finds room for a worker and on its account. *)
Definition has_room (limits : TaskCapacityLimits) (d : TaskDispatchRecord) (db : WaveDb) : Prop :=
  active_count cs_global "global" db < tl_maxConcurrentWorkers limits /\
  forall id, ds_accountId d = Some id ->
    exists limit, map_get (map_of (tl_accountLimits limits)) id = Some limit /\
      active_count cs_account id db < limit.

Lemma counted_run scope resource limit db u db' :
  counted scope resource limit db = inr (u, db') -> db' = db /\ active_count scope resource db < limit.
Proof. unfold counted. intros Hr. run_inv Hr. split; [done|]. by apply negb_true_iff, Z.leb_gt in Hr. Qed.

Lemma checkCapacity_run limits d db u db' :
  checkCapacity limits d db = inr (u, db') -> db' = db /\ has_room limits d db.
Proof.
  unfold checkCapacity. intros Hr. run_inv Hr.
  match goal with E : counted cs_global _ _ _ = _ |- _ => apply counted_run in E as [-> Hg] end.
  destruct (ds_accountId d) as [id|] eqn:Eid.
  - run_inv Hr. apply counted_run in Hr as [-> Ha]. split; [done|]. split; [done|].
    intros id' E'. rewrite Eid in E'. injection E' as <-. by eexists.
  - run_inv Hr. split; [done|]. split; [done|]. intros id E'. congruence.
Qed.

Lemma insertDispatch_run d db u db' :
  insertDispatch d db = inr (u, db') -> db' = with_dispatches (fun rows => rows ++ [d]) db.
Proof. unfold insertDispatch. intros Hr. by run_inv Hr. Qed.

Lemma dispatched_true run task d : dispatched run task d = true <-> (ds_runId d, ds_taskId d) = (run, task).
Proof. unfold dispatched. rewrite andb_true_iff, !str_eqb_true. naive_solver. Qed.

(** The tables after a new dispatch, up to the events it records. *)
Record dispatches_task (d : TaskDispatchRecord) (now : string) (db db' : WaveDb) : Prop := {
  dt_row : exists row, task_at (ds_runId d) (ds_taskId d) db = Some row /\
    lp_phase row = ph_not_started /\ lp_childRunId row = None /\
    task_at (ds_runId d) (ds_taskId d) db' = Some (setDispatching (ds_childRunId d) now row);
  dt_other : forall run task, (run, task) <> (ds_runId d, ds_taskId d) ->
    task_at run task db' = task_at run task db;
  dt_leases : exists new, capacity_leases db' = capacity_leases db ++ new /\
    map lease_resource new = resources_of d /\ Forall (taken d (capacity_leases db)) new;
  dt_records : dispatch_records db' = dispatch_records db ++ [d];
  dt_plans : wave_plans db' = wave_plans db;
  dt_inv : wave_inv db' }.

(** The writes of a dispatch put together. *)
Lemma inv_dispatched d now db row new ids c db1 :
  wave_inv db -> task_at (ds_runId d) (ds_taskId d) db = Some row -> lp_phase row = ph_not_started ->
  map lease_resource new = resources_of d -> Forall (taken d (capacity_leases db)) new ->
  lease_inv (with_leases (fun rows => rows ++ new) (with_reads ids (times_read db) db)) ->
  updateLifecycles (task_from (ds_runId d) (ds_taskId d) [ph_not_started])
    (setDispatching (ds_childRunId d) now)
    (with_leases (fun rows => rows ++ new) (with_reads ids (times_read db) db)) = inr (c, db1) ->
  dispatches_task d now db (with_dispatches (fun rows => rows ++ [d]) db1).
Proof.
  intros Hi Hat Hph Hm Hnew Hli Hup.
  pose proof (not_started_child _ _ _ _ Hi Hat (or_introl Hph)) as Hchild.
  assert (updates_task (ds_runId d) (ds_taskId d) (task_from (ds_runId d) (ds_taskId d) [ph_not_started])
    (setDispatching (ds_childRunId d) now)) as Hu by (by apply task_from_updates).
  pose proof (updateLifecycles_run _ _ _ _ _ Hup) as (-> & _ & Hall & Hchs).
  destruct (updateTask_run _ _ _ _ _ _ _ Hu (wi_keys _ Hi : NoDup (map row_key (lifecycles
    (with_leases (fun rows => rows ++ new) (with_reads ids (times_read db) db))))) Hup) as (_ & Hrow & Hother).
  destruct Hrow as [(_ & _ & Hmiss)|(_ & row' & Hat0 & _ & Hat' & _)].
  { specialize (Hmiss row Hat). apply not_true_iff_false in Hmiss. exfalso. apply Hmiss.
    apply task_from_true. split; [by apply task_at_Some in Hat as [_ ?]|]. rewrite Hph. by left. }
  replace row' with row in * by (change (task_at (ds_runId d) (ds_taskId d) db = Some row') in Hat0; congruence).
  assert (forall run task, select_where (held_by run task) new =
    if decide ((run, task) = (ds_runId d, ds_taskId d)) then new else []) as Hsel.
  { intros run task. destruct (decide _) as [[= -> ->]|Hne].
    - apply select_where_all. intros l Hl. rewrite Forall_forall in Hnew. by apply Hnew.
    - apply select_where_none. intros l Hl. rewrite Forall_forall in Hnew.
      destruct (Hnew l Hl) as [Hh _]. apply not_true_iff_false. rewrite held_by_true in Hh |- *. congruence. }
  split; [by exists row|exact Hother|by exists new|done|done|].
  destruct Hli as [L1 L2 L3 L4].
  split; try done; cbn [with_dispatches with_lifecycles with_leases with_reads lifecycles wave_runs].
  - rewrite update_map; [apply Hi|done].
  - apply Forall_forall. intros r [[Hin _]|(r0 & Hin & Hp & ->)]%update_elem_1; [|by apply Hall].
    pose proof (wi_checked _ Hi) as Hc. rewrite Forall_forall in Hc. by apply Hc.
  - intros run task. pose proof (wi_tasks _ Hi run task) as Ht.
    unfold task_leases, task_dispatches.
    cbn [with_dispatches with_lifecycles with_leases with_reads capacity_leases dispatch_records].
    rewrite !select_where_app, Hsel. fold (task_leases run task db) (task_dispatches run task db).
    destruct (decide _) as [[= -> ->]|Hne].
    + change (task_at _ _ _) with (task_at (ds_runId d) (ds_taskId d)
        (with_lifecycles (update_where (task_from (ds_runId d) (ds_taskId d) [ph_not_started])
          (setDispatching (ds_childRunId d) now))
          (with_leases (fun rows => rows ++ new) (with_reads ids (times_read db) db)))).
      rewrite Hat'. rewrite Hat in Ht. unfold task_ok in *. cbn in *. rewrite Hchild in Ht.
      destruct Ht as [-> ->]. exists d. rewrite (proj2 (dispatched_true _ _ d)) by done.
      split_and!; try done. eapply Forall_impl; [exact Hnew|]. intros l (_ & -> & _). done.
    + change (task_at run task _) with (task_at run task
        (with_lifecycles (update_where (task_from (ds_runId d) (ds_taskId d) [ph_not_started])
          (setDispatching (ds_childRunId d) now))
          (with_leases (fun rows => rows ++ new) (with_reads ids (times_read db) db)))).
      rewrite (Hother run task Hne), app_nil_r. cbn [select_where List.filter].
      assert (dispatched run task d = false) as ->.
      { apply not_true_iff_false. rewrite dispatched_true. congruence. }
      by rewrite app_nil_r.
  - intros r [[Hin _]|(r0 & Hin & _ & ->)]%update_elem_1;
      [by apply (wi_runs _ Hi)|exact (wi_runs _ Hi r0 Hin)].
Qed.

Lemma dispatches_audit d now db db1 run task kind at_ u db2 :
  audit run task kind at_ db1 = inr (u, db2) -> dispatches_task d now db db1 -> dispatches_task d now db db2.
Proof.
  intros Ha [D1 D2 D3 D4 D5 D6]. pose proof (inv_audit _ _ _ _ _ _ _ Ha D6) as Hi.
  apply audit_run in Ha as ->. by split.
Qed.

Lemma dispatchNew_run limits now d db r db' :
  dispatchNew limits now d db = inr (r, db') -> wave_inv db ->
  r = d /\ has_room limits d db /\ dispatches_task d now db db'.
Proof.
  unfold dispatchNew. intros Hr Hi. run_inv Hr. split; [done|].
  repeat match goal with
  | E : readOne _ _ _ = _ |- _ => apply readOne_run in E as [Hat ->]
  | E : checkCapacity _ _ _ = _ |- _ => apply checkCapacity_run in E as [-> Hroom]
  | E : bool_decide _ = true |- _ => apply bool_decide_eq_true in E; rename E into Hph
  | E : forM _ _ _ = _ |- _ => apply acquire_all in E as (Hli & new & ids & _ & -> & Hm & Hnew);
      [|by apply wave_lease_inv]
  | E : insertDispatch _ _ = _ |- _ => apply insertDispatch_run in E as ->
  end.
  split; [done|].
  match goal with E : updateLifecycles _ _ _ = _ |- _ =>
    pose proof (inv_dispatched _ _ _ _ _ _ _ _ Hi Hat Hph Hm Hnew Hli E) as Hd; clear E end.
  repeat match goal with E : audit _ _ _ _ _ = _, D : dispatches_task _ _ _ _ |- _ =>
    apply (dispatches_audit _ _ _ _ _ _ _ _ _ _ E) in D; clear E end.
  done.
Qed.
End Invariant.
