(* ===== verification/WaveProps.v ===== *)
(** * Waves of tasks: the claims about the store

    Every operation keeps the invariant of [WaveInv] and moves tasks along the
    lifecycle; the theorems are about any interleaving of the service's
    stretches, failed ones included. *)

From stdpp Require Import gmap.
From S2P Require Import Prelude TaskDag TaskWave SqlList Revise WaveStore WaveService WaveInv.

Local Open Scope Z_scope.

(** ** The lifecycle of a task *)

Definition phase_move (from to : TaskLifecyclePhase) : bool :=
  match from with
  | ph_not_started => phase_in [ph_dispatching; ph_cancelled; ph_blocked] to
  | ph_dispatching =>
      phase_in [ph_active; ph_cancelling; ph_recovery_required; ph_succeeded; ph_failed; ph_cancelled] to
  | ph_active =>
      phase_in [ph_retrying; ph_cancelling; ph_recovery_required; ph_succeeded; ph_failed; ph_cancelled] to
  | ph_retrying =>
      phase_in [ph_active; ph_cancelling; ph_recovery_required; ph_succeeded; ph_failed; ph_cancelled] to
  | ph_cancelling => phase_in [ph_recovery_required; ph_succeeded; ph_failed; ph_cancelled] to
  | ph_recovery_required => phase_in [ph_succeeded; ph_failed; ph_cancelled] to
  | ph_succeeded | ph_failed | ph_cancelled | ph_blocked => false
  end.

(** One write of a row. *)
Record row_write (old new : TaskLifecycleProjection) : Prop := {
  rw_key : row_key new = row_key old;
  rw_revision : lp_revision new = lp_revision old + 1;
  rw_graph : lp_graphRevision old <= lp_graphRevision new;
  rw_phase : lp_phase new = lp_phase old \/ phase_move (lp_phase old) (lp_phase new) = true;
  rw_child : lp_childRunId new = lp_childRunId old \/
    (lp_phase old = ph_not_started /\ lp_phase new = ph_dispatching);
  rw_reason : lp_blockReason new = lp_blockReason old \/
    (lp_phase old = ph_not_started /\ lp_phase new = ph_blocked) }.

(** What a state of the store may become: no task disappears, and each is written
    along the lifecycle. *)
Definition task_steps (db db' : WaveDb) : Prop :=
  forall run task row, task_at run task db = Some row ->
    exists row', task_at run task db' = Some row' /\ rtc row_write row row'.

#[export] Instance task_steps_refl : Reflexive task_steps.
Proof. intros db run task row E. by exists row. Qed.

#[export] Instance task_steps_trans : Transitive task_steps.
Proof.
  intros db1 db2 db3 H1 H2 run task row E. destruct (H1 _ _ _ E) as (row2 & E2 & S2).
  destruct (H2 _ _ _ E2) as (row3 & E3 & S3). exists row3. split; [done|]. by etrans.
Qed.

(** Databases with the same rows of tasks. *)
Lemma steps_same db db' : lifecycles db' = lifecycles db -> task_steps db db'.
Proof. intros E run task row Hat. exists row. split; [|done]. unfold task_at. by rewrite E. Qed.

Section Operations.
Context `{IdGenerator} `{Clock} `{LocaleCompare}.

(** [m] keeps the invariant and moves tasks along the lifecycle. *)
Definition keeps {A} (m : WOp A) : Prop :=
  forall db a db', m db = inr (a, db') -> wave_inv db -> wave_inv db' /\ task_steps db db'.

Lemma keeps_ret {A} (a : A) : keeps (ret a).
Proof. by intros db b db' [-> ->]%ret_run Hi. Qed.

Lemma keeps_throw {A} e : keeps (A := A) (throw e).
Proof. done. Qed.

Lemma keeps_get : keeps get.
Proof. by intros db b db' [-> ->]%get_run Hi. Qed.

Lemma keeps_ensure b e : keeps (ensure b e).
Proof. by intros db u db' [_ ->]%ensure_run Hi. Qed.

Lemma keeps_orThrow {A} e (o : option A) : keeps (orThrow e o).
Proof. by intros db u db' [_ ->]%orThrow_run Hi. Qed.

Lemma keeps_bind {A B} (m : WOp A) (k : A -> WOp B) :
  keeps m -> (forall a, keeps (k a)) -> keeps (bind m k).
Proof.
  intros Hm Hk db b db' (a & db1 & E1 & E2)%bind_run Hi.
  destruct (Hm _ _ _ E1 Hi) as [Hi1 S1]. destruct (Hk _ _ _ _ E2 Hi1) as [Hi2 S2].
  split; [done|]. by etrans.
Qed.

Lemma keeps_forM {A} (f : A -> WOp unit) l : (forall x, keeps (f x)) -> keeps (forM l f).
Proof.
  intros Hf. induction l as [|x l IH]; cbn; [apply keeps_ret|]. by apply keeps_bind; [|intros _].
Qed.

Lemma keeps_mapM {A B} (f : A -> WOp B) l : (forall x, keeps (f x)) -> keeps (mapM f l).
Proof.
  intros Hf. induction l as [|x l IH]; cbn; [apply keeps_ret|]. apply keeps_bind; [done|]. intros y.
  apply keeps_bind; [done|]. intros ys. apply keeps_ret.
Qed.

Lemma keeps_now : keeps nowIso.
Proof.
  intros db now db' E Hi. split; [by eapply inv_now|]. apply nowIso_run in E as ->. by apply steps_same.
Qed.

Lemma keeps_audit run task kind at_ : keeps (audit run task kind at_).
Proof.
  intros db u db' E Hi. split; [by eapply inv_audit|]. apply audit_run in E as ->. by apply steps_same.
Qed.

Lemma keeps_readOne run task : keeps (readOne run task).
Proof. by intros db row db' [_ ->]%readOne_run Hi. Qed.

Lemma steps_update run task p f db c db' :
  updates_task run task p f -> NoDup (map row_key (lifecycles db)) ->
  updateLifecycles p f db = inr (c, db') ->
  (forall row, task_at run task db = Some row -> p row = true ->
     (lp_phase (f row) = lp_phase row \/ phase_move (lp_phase row) (lp_phase (f row)) = true) /\
     (lp_childRunId (f row) = lp_childRunId row \/
        (lp_phase row = ph_not_started /\ lp_phase (f row) = ph_dispatching)) /\
     (lp_blockReason (f row) = lp_blockReason row \/
        (lp_phase row = ph_not_started /\ lp_phase (f row) = ph_blocked))) ->
  task_steps db db'.
Proof.
  intros Hu Hn Hup Hf. destruct (updateTask_run _ _ _ _ _ _ _ Hu Hn Hup) as (_ & Hrow & Hother).
  intros run' task' row Hat. destruct (decide ((run', task') = (run, task))) as [[= -> ->]|Hne].
  - destruct Hrow as [(_ & E & _)|(_ & row' & Hat0 & Hp & Hat' & Hc & _)].
    + exists row. split; [|done]. unfold task_at. by rewrite E.
    + replace row' with row in * by congruence. exists (f row). split; [done|]. apply rtc_once.
      destruct (Hf row Hat Hp) as (H3 & H4 & H5). unfold causal_update in Hc.
      rewrite !andb_true_iff, Z.eqb_eq, Z.leb_le in Hc. destruct Hc as [[[Hrev _] _] Hg].
      split; try done. apply Hu.
  - exists row. split; [|done]. by rewrite (Hother run' task' Hne).
Qed.

Lemma keeps_updatePhase run task from phase extra :
  (forall row, row_key (extra row) = row_key row /\ lp_childRunId (extra row) = lp_childRunId row /\
     lp_phase (extra row) = lp_phase row /\ lp_blockReason (extra row) = lp_blockReason row) ->
  (forall ph, ph ∈ from -> ph = phase \/ phase_move ph phase = true) ->
  (forall ph, ph ∈ from -> ph = ph_not_started \/ running ph = running phase) ->
  keeps (updatePhase run task from phase extra).
Proof.
  intros Hx Hm Hrun db r db' Hr Hi. split.
  { eapply inv_updatePhase; [done..| |done]. intros row. destruct (Hx row) as (? & ? & ? & ?). done. }
  apply updatePhase_run in Hr as [(row & Hat & Hin & -> & _ & Hup)|(_ & _ & _ & ->)];
    [|by apply steps_same|apply Hi|intros; apply Hx].
  assert (task_steps (with_reads (ids_read db) (S (times_read db)) db) db') as Hs.
  { eapply (steps_update run task); [|apply Hi|exact Hup|].
    - apply task_from_updates. intros row'. by rewrite (proj1 (Hx _)).
    - intros row' _ [_ Hin']%task_from_true.
      destruct (Hx (setPhase phase (clock_text (times_read db)) row')) as (_ & -> & -> & ->). cbn.
      split; [|split; by left]. destruct (Hm _ Hin') as [<-|E]; [by left|by right]. }
  etrans; [by apply steps_same|exact Hs].
Qed.

Lemma in_phases (P : TaskLifecyclePhase -> Prop) l : Forall P l -> forall ph, ph ∈ l -> P ph.
Proof. by rewrite Forall_forall. Qed.

Ltac phases := apply in_phases; repeat constructor; by auto.

Lemma keeps_markActive run task : keeps (markActive run task).
Proof. apply keeps_updatePhase; [done|phases..]. Qed.

Lemma keeps_markRetrying run task : keeps (markRetrying run task).
Proof.
  apply keeps_bind; [apply keeps_updatePhase; [done|phases..]|]. intros r.
  apply keeps_bind; [apply keeps_audit|]. intros _. apply keeps_ret.
Qed.

Lemma keeps_requestCancellation run task : keeps (requestCancellation run task).
Proof.
  apply keeps_bind; [apply keeps_updatePhase; [done|phases..]|]. intros r.
  apply keeps_bind; [apply keeps_audit|]. intros _. apply keeps_ret.
Qed.

Lemma keeps_cancelPending run task : keeps (cancelPending run task).
Proof.
  apply keeps_bind; [apply keeps_now|]. intros now.
  apply keeps_bind; [apply keeps_updatePhase; [done|phases..]|]. intros r.
  apply keeps_bind; [apply keeps_audit|]. intros _. apply keeps_ret.
Qed.

Lemma keeps_markRecoveryRequired run task : keeps (markRecoveryRequired run task).
Proof.
  apply keeps_bind; [apply keeps_updatePhase; [done|phases..]|]. intros r.
  apply keeps_bind; [apply keeps_audit|]. intros _. apply keeps_ret.
Qed.

Lemma settle_steps run task phase db r db' :
  updatePhase run task running_phases (settled_phase phase) id db = inr (r, db') -> wave_inv db ->
  task_steps db db'.
Proof.
  intros Hr Hi. apply updatePhase_run in Hr as [(row & Hat & Hin & -> & _ & Hup)|(_ & _ & _ & ->)];
    [|by apply steps_same|apply Hi|done].
  etrans; [apply (steps_same db (with_reads (ids_read db) (S (times_read db)) db)); done|].
  refine (steps_update run task _ _ _ _ _ _ _ Hup _); [by apply task_from_updates|apply Hi|].
  intros row' _ [_ Hin']%task_from_true. cbn. split; [|split; by left]. right. revert Hin'.
  generalize (lp_phase row'). destruct phase; phases.
Qed.

Lemma keeps_settle run task phase : keeps (settle run task phase).
Proof.
  intros db r db' Hr Hi. unfold settle in Hr. run_inv Hr.
  match goal with E : nowIso _ = _ |- _ => destruct (keeps_now _ _ _ E Hi) as [Hi1 S1] end.
  match goal with U : updatePhase _ _ _ _ _ _ = _, R : release _ _ _ _ = inr (_, ?d), A : audit _ _ _ _ _ = _ |- _ =>
    pose proof (settle_steps _ _ _ _ _ _ U Hi1) as S2; pose proof (inv_settled _ _ _ _ _ _ _ _ _ U R Hi1) as Hi2;
    destruct (keeps_audit _ _ _ _ _ _ _ A Hi2) as [Hi3 S3];
    assert (task_steps s0 d) as S4; [|split; [done|]; by do 3 (etrans; [eassumption|])] end.
  apply release_run in E1 as [->|[u Ha]]; [by apply steps_same|]. apply audit_run in Ha as ->.
  by apply steps_same.
Qed.

Lemma keeps_update run task p f :
  updates_task run task p f ->
  (forall db row, wave_inv db -> task_at run task db = Some row -> p row = true ->
     (lp_childRunId (f row) = lp_childRunId row /\
      (lp_childRunId row <> None -> running (lp_phase (f row)) = running (lp_phase row))) /\
     (lp_phase (f row) = lp_phase row \/ phase_move (lp_phase row) (lp_phase (f row)) = true) /\
     (lp_blockReason (f row) = lp_blockReason row \/
        (lp_phase row = ph_not_started /\ lp_phase (f row) = ph_blocked))) ->
  keeps (updateLifecycles p f).
Proof.
  intros Hu Hf db c db' Hup Hi. split.
  - eapply (inv_update run task); [done..|]. intros row Hat Hp. by apply (Hf db row Hi Hat Hp).
  - eapply (steps_update run task); [done|apply Hi|done|]. intros row Hat Hp.
    destruct (Hf db row Hi Hat Hp) as ([? _] & ? & ?). split_and!; auto.
Qed.

Lemma keeps_block run task reason : keeps (block run task reason).
Proof.
  apply keeps_bind; [apply keeps_now|]. intros now. apply keeps_bind.
  { apply (keeps_update run task); [by apply task_from_updates|].
    intros db row Hi Hat [_ Hph]%task_from_true.
    apply list_elem_of_singleton in Hph. split_and!; try done.
    - intros Hc. by rewrite (not_started_child run task db row) in Hc by auto.
    - right. by rewrite Hph.
    - right. by rewrite Hph. }
  intros c. apply keeps_bind; [apply keeps_readOne|]. intros r. apply keeps_bind.
  { destruct (c =? 1); [apply keeps_audit|apply keeps_ret]. }
  intros _. apply keeps_bind; [apply keeps_ensure|]. intros _. apply keeps_ret.
Qed.

Lemma keeps_writeGatesAt now run task c i v : keeps (writeGatesAt now run task c i v).
Proof.
  apply keeps_bind; [|intros; apply keeps_ensure]. apply (keeps_update run task); [by apply task_from_updates|]. intros db row Hi Hat Hp.
  split_and!; try done; by left.
Qed.

Lemma keeps_writeGates run task c i v : keeps (writeGates run task c i v).
Proof. apply keeps_bind; [apply keeps_now|]. intros now. apply keeps_writeGatesAt. Qed.

Lemma keeps_insertLifecycle run task revision now :
  keeps (insertLifecycle (newLifecycle run task revision now)).
Proof.
  intros db u db' Hr Hi. unfold insertLifecycle in Hr. run_inv Hr.
  match goal with E : negb (exists_where _ _) = true |- _ => apply negb_true_iff in E;
    rewrite exists_where_false in E; rename E into Hfresh end.
  cbn [newLifecycle lp_runId lp_taskId] in *.
  match goal with |- wave_inv (with_lifecycles _ ?d) /\ _ => set (db0 := d) in * end.
  assert (forall run' task', task_at run' task' (with_lifecycles (fun rows => rows ++ [newLifecycle run task revision now]) db0) =
    match task_at run' task' db0 with Some r => Some r | None =>
      if decide ((run', task') = (run, task)) then Some (newLifecycle run task revision now) else None end) as Hat.
  { intros run' task'. unfold task_at at 1. cbn [with_lifecycles lifecycles]. rewrite select_one_snoc.
    fold (task_at run' task' db0). destruct (task_at run' task' db0); [done|].
    destruct (decide _) as [[= -> ->]|Hne]; [by rewrite (proj2 (task_row_true _ _ _))|].
    rewrite (proj2 (task_row_false run' task' (newLifecycle run task revision now))); [done|].
    intros Ek. apply Hne. by rewrite <-Ek. }
  split.
  - apply (inv_lifecycles db0); [done|..].
    + apply snoc_NoDup; [apply Hi|]. intros r Hin Ek. specialize (Hfresh r Hin).
      apply task_row_false in Hfresh. by apply Hfresh.
    + apply Forall_snoc; [apply Hi|done].
    + done.
    + intros row [Hin| ->]%elem_of_snoc; [by apply (wi_runs _ Hi)|]. by apply set_has_true.
    + intros run' task'. pose proof (wi_tasks _ Hi run' task') as Ht.
      change (select_one _ _) with (task_at run' task' (with_lifecycles (fun rows => rows ++ [newLifecycle run task revision now]) db0)).
      rewrite Hat. destruct (task_at run' task' db0); [done|]. by destruct (decide _).
  - intros run' task' row Erow. exists row. split; [|done]. by rewrite Hat, Erow.
Qed.

Lemma keeps_initializeTask run revision now task : keeps (initializeTask run revision now task).
Proof.
  apply keeps_bind; [apply keeps_get|]. intros db0. destruct (select_one _ _) as [row|].
  - destruct (_ && _); [|apply keeps_ret]. apply keeps_bind; [|intros; apply keeps_ret].
    apply (keeps_update run task).
    + split; [|done]. intros r. by apply task_row_true.
    + intros db r Hi Hat Hp. split_and!; try done; by left.
  - apply keeps_insertLifecycle.
Qed.

Lemma keeps_initialize run revision tasks : keeps (initialize run revision tasks).
Proof.
  apply keeps_bind; [apply keeps_now|]. intros now. apply keeps_forM. intros task. apply keeps_initializeTask.
Qed.

Lemma dispatches_steps d now db db' : dispatches_task d now db db' -> wave_inv db -> task_steps db db'.
Proof.
  intros [(row0 & Hat0 & Hph & Hch & Hat0') Hother _ _ _ _] Hi run task row Hat.
  destruct (decide ((run, task) = (ds_runId d, ds_taskId d))) as [[= -> ->]|Hne].
  - replace row with row0 by congruence. eexists. split; [done|]. apply rtc_once.
    split; cbn; try done; try lia; rewrite ?Hph; auto.
  - exists row. split; [|done]. by rewrite (Hother run task Hne).
Qed.

Lemma keeps_dispatchOne limits now d : keeps (dispatchOne limits now d).
Proof.
  apply keeps_bind; [apply keeps_get|]. intros db0. destruct (select_one _ _); [apply keeps_ret|].
  intros db r db' Hr Hi. apply dispatchNew_run in Hr as (_ & _ & Hd); [|done].
  split; [apply (dt_inv _ _ _ _ Hd)|by eapply dispatches_steps].
Qed.

Lemma keeps_insertPlan row : keeps (insertPlan row).
Proof.
  intros db u db' Hr Hi. unfold insertPlan in Hr. run_inv Hr. split; [|by apply steps_same].
  destruct Hi. by split.
Qed.

Lemma keeps_dispatchWave input : keeps (dispatchWave input).
Proof.
  apply keeps_bind; [apply keeps_get|]. intros db0. apply keeps_bind; [apply keeps_ensure|]. intros _.
  destruct (_ <$> _) as [run|]; [|apply keeps_ret]. apply keeps_bind.
  - destruct (select_one _ _); [apply keeps_ret|]. apply keeps_bind; [apply keeps_insertPlan|].
    intros _. apply keeps_audit.
  - intros _. apply keeps_mapM. intros d. apply keeps_dispatchOne.
Qed.

Lemma keeps_applyDriverStatus run task o : keeps (applyDriverStatus run task o).
Proof.
  unfold applyDriverStatus. destruct o; repeat case_match; auto using keeps_ret, keeps_markRecoveryRequired,
    keeps_markActive, keeps_markRetrying, keeps_requestCancellation, keeps_settle.
Qed.

Lemma keeps_cancelTask run task : keeps (cancelTask run task).
Proof.
  apply keeps_bind; [apply keeps_get|]. intros db0. apply keeps_bind; [apply keeps_orThrow|]. intros t.
  repeat case_match; [apply keeps_cancelPending|apply keeps_requestCancellation|apply keeps_ret].
Qed.

Lemma keeps_planAndDispatch input : keeps (planAndDispatch input).
Proof.
  apply keeps_bind; [apply keeps_get|]. intros db0. apply keeps_bind; [apply keeps_now|]. intros now.
  apply keeps_bind; [apply keeps_orThrow|]. intros plan. destruct (wp_selectedTaskIds plan); [apply keeps_ret|].
  apply keeps_bind; [|intros; apply keeps_dispatchWave]. apply keeps_mapM. intros id.
  apply keeps_bind; [apply keeps_orThrow|]. intros node. apply keeps_bind; [apply keeps_now|].
  intros t. apply keeps_ret.
Qed.

Lemma committed_keeps {A} (m : WOp A) db : keeps m -> wave_inv db -> wave_inv (committed m db) /\ task_steps db (committed m db).
Proof.
  intros Hm Hi. unfold committed. destruct (m db) as [e|[a db']] eqn:E; [done|]. by eapply Hm.
Qed.

Lemma propagatePass_keeps run nodes states tasks changed db r db' :
  propagatePass run nodes states tasks changed db = Some (r, db') -> wave_inv db ->
  wave_inv db' /\ task_steps db db'.
Proof.
  revert changed db. induction tasks as [|t tasks IH]; intros changed db Hp Hi; cbn [propagatePass] in Hp.
  { by injection Hp as <- <-. }
  destruct (bool_decide _); cbn [negb] in Hp; [|by eapply IH].
  destruct (propagationReason _ _ _ _ _) as [[reason|]|]; [| |done]; [|by eapply IH].
  destruct (block _ _ _ _) as [e|[row db1]] eqn:Eb; [by injection Hp as <- <-|].
  destruct (keeps_block _ _ _ _ _ _ Eb Hi) as [Hi1 S1]. destruct (IH _ _ Hp Hi1) as [Hi2 S2].
  split; [done|]. by etrans.
Qed.

Lemma propagateLoop_keeps fuel run nodes db r db' :
  propagateLoop fuel run nodes db = Some (r, db') -> wave_inv db -> wave_inv db' /\ task_steps db db'.
Proof.
  revert db. induction fuel as [|fuel IH]; intros db Hp Hi; [done|]. cbn [propagateLoop] in Hp.
  destruct (propagatePass _ _ _ _ _ _) as [[[e|[|]] db1]|] eqn:E; [| | |done];
    destruct (propagatePass_keeps _ _ _ _ _ _ _ _ E Hi) as [Hi1 S1]; try (by injection Hp as <- <-).
  destruct (IH _ Hp Hi1) as [Hi2 S2]. split; [done|]. by etrans.
Qed.

Lemma run_stretch_keeps s db : wave_inv db -> wave_inv (run_stretch s db) /\ task_steps db (run_stretch s db).
Proof.
  intros Hi. destruct s; cbn [run_stretch]; try apply committed_keeps; try done.
  - apply keeps_initialize.
  - apply keeps_applyDriverStatus.
  - apply keeps_markRecoveryRequired.
  - apply keeps_writeGates.
  - destruct (propagate runId dag db) as [[r db']|] eqn:E; [|done]. by eapply propagateLoop_keeps.
  - apply keeps_planAndDispatch.
  - apply keeps_cancelTask.
Qed.

Lemma after_stretches_keeps stretches db :
  wave_inv db -> wave_inv (after_stretches stretches db) /\ task_steps db (after_stretches stretches db).
Proof.
  revert db. induction stretches as [|s rest IH]; intros db Hi; [done|]. cbn.
  destruct (run_stretch_keeps s db Hi) as [Hi1 S1]. destruct (IH _ Hi1) as [Hi2 S2].
  split; [done|]. by etrans.
Qed.

Lemma after_inv stretches runs : wave_inv (after_stretches stretches (empty_waves runs)).
Proof. apply after_stretches_keeps, wave_inv_empty. Qed.

(** C7: Capacity is accounted for exactly. After any interleaving of the service's
    stretches, failed ones included, a task that was never dispatched holds no
    lease; one that was has a single dispatch record, with the child run of its
    row, and exactly one lease for each resource of that record, all active while
    the task runs and all released once it has settled. The leases of a workspace
    or a repository follow each other: each is released before the next is taken,
    which has a higher fence. *)
Theorem wave_accounting runs stretches :
  let db := after_stretches stretches (empty_waves runs) in
  (forall run task,
     task_ok (task_at run task db) (task_leases run task db) (task_dispatches run task db)) /\
  (forall scope resource, exclusive scope = true -> in_turn scope resource (capacity_leases db)).
Proof.
  intros db. destruct (after_inv stretches runs) as [_ _ _ Ht Hx _ _ _ _]. by split.
Qed.

Lemma row_writes_final row row' : rtc row_write row row' ->
  lp_revision row <= lp_revision row' /\ lp_graphRevision row <= lp_graphRevision row' /\
  (lp_phase row <> ph_not_started -> lp_phase row' <> ph_not_started) /\
  (lp_phase row <> ph_not_started -> lp_childRunId row' = lp_childRunId row /\
     lp_blockReason row' = lp_blockReason row) /\
  (lp_phase row ∈ terminal_phases -> lp_phase row' = lp_phase row).
Proof.
  induction 1 as [row|row row1 row2 [_ Hrev Hg Hp Hc Hb] _ (IH1 & IH2 & IH3 & IH4 & IH5)]; [by split_and!|].
  assert (lp_phase row <> ph_not_started -> lp_phase row1 <> ph_not_started) as Hns.
  { intros Hn E1. destruct Hp as [E|E]; [congruence|]. rewrite E1 in E. by destruct (lp_phase row). }
  split_and!; [lia|lia|by auto| |].
  - intros Hn. destruct (IH4 (Hns Hn)) as [-> ->].
    destruct Hc as [->|[? _]]; [|done]. by destruct Hb as [->|[? _]].
  - intros Ht. assert (lp_phase row1 = lp_phase row) as E.
    { destruct Hp as [E|E]; [done|]. revert Ht E. generalize (lp_phase row).
      apply (in_phases (fun ph => phase_move ph _ = true -> _)). by repeat constructor. }
    rewrite <-E. apply IH5. by rewrite E.
Qed.

(** C9: Tasks move along the lifecycle and terminal phases are final. From any state
    the service reaches to any later one, a task keeps its row; the row is written
    in steps along the lifecycle, its revisions only grow, its child run and its
    block reason are set at most once, when it leaves the phase it starts in, and
    a task that has succeeded, failed, been cancelled or blocked stays so. *)
Theorem lifecycle_followed runs before after run task row :
  let db := after_stretches before (empty_waves runs) in
  task_at run task db = Some row ->
  exists row', task_at run task (after_stretches after db) = Some row' /\ rtc row_write row row' /\
    lp_revision row <= lp_revision row' /\
    (lp_phase row <> ph_not_started -> lp_childRunId row' = lp_childRunId row /\
       lp_blockReason row' = lp_blockReason row) /\
    (lp_phase row ∈ terminal_phases -> lp_phase row' = lp_phase row).
Proof.
  intros db Hat. destruct (after_stretches_keeps after db (after_inv before runs)) as [_ Hs].
  destruct (Hs _ _ _ Hat) as (row' & Hat' & Hw). exists row'.
  destruct (row_writes_final _ _ Hw) as (? & ? & ? & ? & ?). by split_and!.
Qed.

(** ** Dispatch *)

Lemma count_taken d before new scope resource :
  Forall (taken d before) new ->
  count_where (active_on scope resource) new =
  count_where (fun r => bool_decide (r = (scope, resource))) (map lease_resource new).
Proof.
  induction 1 as [|l new (_ & Hr & _) _ IH]; [done|].
  unfold count_where, select_where in *. cbn.
  assert (active_on scope resource l = bool_decide (lease_resource l = (scope, resource))) as ->.
  { unfold active_on, lease_on, lease_resource. rewrite Hr, andb_true_r. apply eq_true_iff_eq.
    rewrite andb_true_iff, bool_decide_eq_true, str_eqb_true, bool_decide_eq_true. naive_solver. }
  destruct (bool_decide _); cbn; lia.
Qed.

Lemma repositories_counted (ids : list string) scope (resource : string) :
  exclusive scope = false ->
  count_where (fun r => bool_decide (r = (scope, resource))) (map (fun id => (cs_repository, id)) ids) = 0.
Proof.
  intros Hx. unfold count_where. rewrite select_where_none; [done|]. intros r (id & -> & _)%list_elem_of_fmap.
  apply bool_decide_eq_false. intros [= <- _]. done.
Qed.

Lemma dispatch_counts d now db db' scope resource :
  dispatches_task d now db db' -> exclusive scope = false ->
  active_count scope resource db' = active_count scope resource db +
    (if bool_decide ((scope, resource) = (cs_global, "global")) then 1
     else if bool_decide (scope = cs_account /\ ds_accountId d = Some resource) then 1 else 0).
Proof.
  intros [_ _ (new & El & Hm & Hnew) _ _ _] Hx. unfold active_count. rewrite El, count_where_app. f_equal.
  rewrite (count_taken d _ _ _ _ Hnew), Hm. unfold resources_of.
  change ((cs_global, "global") :: ?l) with ([(cs_global, "global")] ++ l).
  change ((cs_workspace, ds_workspaceId d) :: ?l) with ([(cs_workspace, ds_workspaceId d)] ++ l).
  rewrite !count_where_app, repositories_counted by done.
  assert (forall a b : TaskCapacityScope * string,
    count_where (fun r => bool_decide (r = b)) [a] = if bool_decide (b = a) then 1 else 0) as Hone.
  { intros a b. unfold count_where. cbn. rewrite (bool_decide_ext (a = b) (b = a)) by done.
    by destruct (bool_decide (b = a)). }
  rewrite !Hone, (bool_decide_false ((scope, resource) = (cs_workspace, _))) by (intros [= -> _]; done).
  assert (count_where (fun r => bool_decide (r = (scope, resource)))
    match ds_accountId d with Some id => [(cs_account, id)] | None => [] end =
    if bool_decide (scope = cs_account /\ ds_accountId d = Some resource) then 1 else 0) as ->.
  { destruct (ds_accountId d) as [id|].
    - rewrite Hone. rewrite (bool_decide_ext _ (scope = cs_account /\ Some id = Some resource)); [done|naive_solver].
    - rewrite bool_decide_false; [done|]. by intros [_ ?]. }
  destruct (bool_decide_reflect ((scope, resource) = (cs_global, "global"))) as [[= -> ->]|_]; [|lia].
  rewrite bool_decide_false; [lia|]. by intros [? _].
Qed.

(** The limits, given what was in use before. *)
Definition within (limits : TaskCapacityLimits) (db0 db : WaveDb) : Prop :=
  active_count cs_global "global" db <=
    Z.max (active_count cs_global "global" db0) (tl_maxConcurrentWorkers limits) /\
  forall id, active_count cs_account id db <=
    Z.max (active_count cs_account id db0) (default 0 (map_get (map_of (tl_accountLimits limits)) id)).

Lemma within_dispatched limits db0 d now db db' :
  has_room limits d db -> dispatches_task d now db db' -> within limits db0 db -> within limits db0 db'.
Proof.
  intros [Hg Ha] Hd [Wg Wa]. split.
  - rewrite (dispatch_counts _ _ _ _ _ _ Hd) by done. rewrite bool_decide_true by done. lia.
  - intros id. rewrite (dispatch_counts _ _ _ _ _ _ Hd) by done. specialize (Wa id).
    rewrite bool_decide_false by done.
    destruct (bool_decide_reflect (cs_account = cs_account /\ ds_accountId d = Some id)) as [[_ E]|_]; [|lia].
    destruct (Ha id E) as (limit & -> & Hlt). cbn. lia.
Qed.

Lemma dispatchOne_run limits now d db r db' :
  dispatchOne limits now d db = inr (r, db') -> wave_inv db ->
  select_one (dispatch_of (ds_runId d) (ds_taskId d) (ds_graphRevision d)) (dispatch_records db') = Some r /\
  (db' = db \/ (has_room limits d db /\ dispatches_task d now db db')).
Proof.
  intros Hr Hi. unfold dispatchOne in Hr. run_inv Hr.
  destruct (select_one _ _) as [replay|] eqn:Es; [run_inv Hr; split; [done|by left]|].
  apply dispatchNew_run in Hr as (-> & Hroom & Hd); [|done]. split; [|by right].
  rewrite (dt_records _ _ _ _ Hd), select_one_snoc, Es. unfold dispatch_of.
  by rewrite !str_eqb_refl, Z.eqb_refl.
Qed.

(** The records and the plans of a store only grow. *)
Definition grows (db db' : WaveDb) : Prop :=
  (exists l, dispatch_records db' = dispatch_records db ++ l) /\ wave_plans db' = wave_plans db.

Lemma dispatchAll_run limits now ds db rs db' :
  mapM (dispatchOne limits now) ds db = inr (rs, db') -> wave_inv db ->
  (forall db0, within limits db0 db -> within limits db0 db') /\ grows db db' /\
  Forall2 (fun d r => select_one (dispatch_of (ds_runId d) (ds_taskId d) (ds_graphRevision d))
                        (dispatch_records db') = Some r) ds rs.
Proof.
  revert db rs. induction ds as [|d ds IH]; intros db rs Hr Hi; cbn [mapM] in Hr.
  - run_inv Hr. split_and!; try done. split; [|done]. exists []. by rewrite app_nil_r.
  - run_inv Hr. match goal with E : dispatchOne _ _ _ _ = _ |- _ =>
      pose proof (keeps_dispatchOne _ _ _ _ _ _ E Hi) as [Hi1 _]; apply dispatchOne_run in E as [Hsel Hor]; [|done] end.
    match goal with E : mapM _ _ _ = _ |- _ => destruct (IH _ _ E Hi1) as (Hw & [[l El] Ep] & Hall) end.
    split_and!.
    + intros db0 W. apply Hw. destruct Hor as [->|[Hroom Hd]]; [done|]. by eapply within_dispatched.
    + destruct Hor as [->|[_ Hd]]; [by split; [exists l|]|]. split.
      * exists ([d] ++ l). by rewrite El, (dt_records _ _ _ _ Hd), app_assoc.
      * by rewrite Ep, (dt_plans _ _ _ _ Hd).
    + constructor; [|done]. rewrite El. clear El.
      induction l as [|x l IHl] using rev_ind; [by rewrite app_nil_r|].
      by rewrite app_assoc, select_one_snoc, IHl.
Qed.

Lemma insertPlan_run row db u db' :
  insertPlan row db = inr (u, db') ->
  db' = with_plans (fun rows => rows ++ [row]) db /\
  select_one (plan_at (pw_runId row) (pw_graphRevision row) (pw_waveOrdinal row)) (wave_plans db) = None.
Proof.
  unfold insertPlan. intros Hr. run_inv Hr. split; [done|].
  match goal with E : negb (exists_where (plan_at _ _ _) _) = true |- _ =>
    apply negb_true_iff in E; rewrite exists_select_one in E; by destruct (select_one _ _) end.
Qed.

(** The plan is stored, once, and nothing else changes but the events. *)
Lemma storePlan_run plan run db u db' :
  let found := select_one (plan_at run (wp_graphRevision plan) (wp_waveOrdinal plan)) in
  storePlan plan run (found (wave_plans db)) db = inr (u, db') ->
  match found (wave_plans db) with None => true | Some row => bool_decide (pw_plan row = plan) end = true ->
  wave_inv db -> wave_inv db' /\ capacity_leases db' = capacity_leases db /\
  exists row, found (wave_plans db') = Some row /\ pw_plan row = plan.
Proof.
  intros found Hr Hsame Hi. destruct (found (wave_plans db)) as [row|] eqn:Ef; cbn [storePlan] in Hr.
  - run_inv Hr. apply bool_decide_eq_true in Hsame. split_and!; try done. by exists row.
  - run_inv Hr. match goal with P : insertPlan _ _ = _, A : audit _ _ _ _ _ = _ |- _ =>
      pose proof (keeps_insertPlan _ _ _ _ P Hi) as [Hi1 _]; pose proof (keeps_audit _ _ _ _ _ _ _ A Hi1) as [Hi2 _];
      apply insertPlan_run in P as [-> _]; apply audit_run in A as -> end.
    split_and!; try done. eexists. cbn. unfold found at 1 in Ef. unfold found. rewrite select_one_snoc, Ef.
    unfold plan_at. cbn. by rewrite str_eqb_refl, !Z.eqb_refl.
Qed.

Lemma dispatchWave_run input db accepted db' :
  dispatchWave input db = inr (accepted, db') -> wave_inv db -> di_dispatches input <> [] ->
  within (di_limits input) db db' /\
  exists run row, ds_runId <$> head (di_dispatches input) = Some run /\
    select_one (plan_at run (wp_graphRevision (di_plan input)) (wp_waveOrdinal (di_plan input)))
      (wave_plans db') = Some row /\ pw_plan row = di_plan input /\
    Forall2 (fun d r => select_one (dispatch_of (ds_runId d) (ds_taskId d) (ds_graphRevision d))
                          (dispatch_records db') = Some r)
      (sort_by dispatch_lt (di_dispatches input)) accepted.
Proof.
  intros Hr Hi Hne. unfold dispatchWave in Hr. run_inv Hr.
  destruct (ds_runId <$> head (di_dispatches input)) as [run|] eqn:Eh;
    [|by destruct (di_dispatches input)].
  cbn [default] in *. run_inv Hr.
  match goal with P : storePlan _ _ _ _ = _, G : match select_one _ _ with _ => _ end = true |- _ =>
    destruct (storePlan_run _ _ _ _ _ P G Hi) as (Hi1 & El & row & Hrow & Hplan) end.
  destruct (dispatchAll_run _ _ _ _ _ _ Hr Hi1) as (Hw & [_ Ep] & Hall). split.
  - apply Hw. unfold within, active_count. rewrite El. split; [lia|]. intros id. lia.
  - exists run, row. by rewrite Ep.
Qed.

(** C10: A dispatched wave respects the limits. When a wave is dispatched from any
    state the service reaches, the number of active workers is afterwards at most
    the limit, or what it was before if that was more; the same holds for every
    account and its limit, where an account without one gets no slot. *)
Theorem dispatch_within_limits runs stretches input accepted db' :
  let db := after_stretches stretches (empty_waves runs) in
  dispatchWave input db = inr (accepted, db') ->
  active_count cs_global "global" db' <=
    Z.max (active_count cs_global "global" db) (tl_maxConcurrentWorkers (di_limits input)) /\
  forall id, active_count cs_account id db' <=
    Z.max (active_count cs_account id db)
      (default 0 (map_get (map_of (tl_accountLimits (di_limits input))) id)).
Proof.
  intros db Hr. destruct (di_dispatches input) as [|d ds] eqn:Ed.
  - unfold dispatchWave in Hr. rewrite Ed in Hr. cbn [head fmap option_fmap option_map] in Hr. run_inv Hr.
    split; [lia|]. intros id. lia.
  - apply dispatchWave_run in Hr as [Hw _]; [exact Hw|apply after_inv|by rewrite Ed].
Qed.

(** Dispatching a wave again changes nothing. Once a wave has been dispatched, the
    same call (a replay after a restart) returns the same records and leaves the
    database exactly as it is. *)
Theorem dispatch_replayed runs stretches input accepted db' :
  dispatchWave input (after_stretches stretches (empty_waves runs)) = inr (accepted, db') ->
  di_dispatches input <> [] -> dispatchWave input db' = inr (accepted, db').
Proof.
  intros Hr Hne. apply dispatchWave_run in Hr as (_ & run & row & Eh & Hrow & Hplan & Hall);
    [|apply after_inv|done].
  unfold dispatchWave. erewrite bind_eq; [|reflexivity]. rewrite Eh.
  change (default "" (Some run)) with run. rewrite Hrow.
  erewrite bind_eq; [|unfold ensure; rewrite bool_decide_true by done; reflexivity].
  erewrite bind_eq; [|reflexivity]. revert Hall. generalize (sort_by dispatch_lt (di_dispatches input)).
  intros ds Hall. induction Hall as [|d r ds rs Hd _ IH]; [done|]. cbn [mapM].
  erewrite bind_eq; [|unfold dispatchOne; erewrite bind_eq; [|reflexivity]; rewrite Hd; reflexivity].
  by erewrite bind_eq; [|exact IH].
Qed.

(** ** Observations *)

Lemma run_known run task row db : wave_inv db -> task_at run task db = Some row -> run ∈ wave_runs db.
Proof.
  intros Hi [Hin Hk]%task_at_Some. pose proof (wi_runs _ Hi row Hin) as Hr. by injection Hk as <- _.
Qed.

(** A move from a running phase, and what is recorded after it. *)
Lemma updatePhase_then {B} run task from phase extra row db (k : TaskLifecycleProjection -> WOp B) :
  wave_inv db -> task_at run task db = Some row -> lp_phase row ∈ from -> running (lp_phase row) = true ->
  phase_in running_phases phase = true -> keeps (updatePhase run task from phase extra) ->
  (extra = id \/ extra = countRetry) ->
  (forall r db', wave_inv db' -> run ∈ wave_runs db' -> exists x, k r db' = inr x) ->
  exists x, bind (updatePhase run task from phase extra) k db = inr x.
Proof.
  intros Hi Hat Hin Hrun Hph Hkeep Hx Hk.
  destruct (updatePhase_ok run task from phase extra row db) as [db' E]; try done.
  { apply phase_in_true. apply elem_of_app. left. by apply phase_in_true. }
  destruct (Hkeep _ _ _ E Hi) as [Hi' Hs]. destruct (Hs _ _ _ Hat) as (row' & Hat' & _).
  destruct (Hk (extra (setPhase phase (clock_text (times_read db)) row)) db' Hi') as [x Ex].
  { by eapply run_known. }
  exists x. by erewrite bind_eq.
Qed.

Lemma audit_then {B} run task kind at_ (b : B) db :
  events_fresh db -> run ∈ wave_runs db ->
  exists x, bind (audit run task kind at_) (fun _ => ret b) db = inr x.
Proof.
  intros Hi Hrun. destruct (audit_ok run task kind at_ db Hi Hrun) as [db' E]. eexists.
  by erewrite bind_eq.
Qed.

Lemma settle_ok run task phase row db :
  wave_inv db -> task_at run task db = Some row -> running (lp_phase row) = true ->
  exists x, settle run task phase db = inr x.
Proof.
  intros Hi Hat Hrun. pose proof (inv_reads db (ids_read db) (S (times_read db)) Hi ltac:(lia)) as Hi1.
  unfold settle. erewrite bind_eq; [|reflexivity].
  destruct (updatePhase_ok run task running_phases (settled_phase phase) id row
    (with_reads (ids_read db) (S (times_read db)) db)) as [db1 E1]; try done; [by apply phase_in_true|by destruct phase|by left|].
  erewrite bind_eq; [|exact E1].
  destruct (updatePhase_settles _ _ _ _ _ _ E1 Hi1) as [_ _ Ee Ei Ew _ _ _ _ _ _ _ _].
  assert (run ∈ wave_runs db1) as Hknown by (rewrite Ew; by eapply (run_known run task)).
  assert (events_fresh db1) as Hfresh.
  { intros e. rewrite Ee, Ei. apply (wi_events _ Hi1). }
  assert (exists c db2, release run task (clock_text (times_read db)) db1 = inr (c, db2)) as (c & db2 & E2).
  { unfold release. erewrite bind_eq; [|reflexivity]. erewrite bind_eq; [|reflexivity].
    destruct (0 <? _); [|by do 2 eexists].
    match goal with |- exists c db2, ?m ?d = _ => enough (exists x, m d = inr x) as [[c db2] E2] end;
      [by exists c, db2|]. by apply audit_then. }
  erewrite bind_eq; [|exact E2].
  pose proof (inv_settled _ _ _ _ _ _ _ _ _ E1 E2 Hi1) as Hi2. apply audit_then; [exact (wi_events _ Hi2)|].
  apply release_run in E2 as [->|[u ->%audit_run]]; done.
Qed.

(** A move the store refuses. *)
Lemma updatePhase_refused run task from phase extra row db :
  wave_inv db -> (forall r, row_key (extra r) = row_key r) -> task_at run task db = Some row ->
  lp_phase row ∉ from -> lp_phase row <> phase ->
  exists e, updatePhase run task from phase extra db = inl e.
Proof.
  intros Hi Hx Hat Hnot Hne. destruct (updatePhase run task from phase extra db) as [e|[r db']] eqn:E; [by exists e|].
  apply updatePhase_run in E as [(row' & Hat' & Hin & _)|(Hat' & Hph & _)]; [..|apply Hi|done].
  - replace row' with row in * by congruence. done.
  - replace r with row in * by congruence. done.
Qed.

Lemma refused_bind {A B} (m : WOp A) (k : A -> WOp B) db :
  (exists e, m db = inl e) -> exists e, bind m k db = inl e.
Proof. intros [e E]. exists e. unfold bind. by rewrite E. Qed.

(** The observations the store refuses. *)
Definition refused (phase : TaskLifecyclePhase) (observation : TaskPipelineStatus) : bool :=
  match observation with
  | st_retrying _ => phase_in [ph_dispatching; ph_cancelling; ph_recovery_required] phase
  | st_cancelling => bool_decide (phase = ph_recovery_required)
  | _ => false
  end.

Lemma accepted_observation run task row o db :
  wave_inv db -> task_at run task db = Some row -> running (lp_phase row) = true ->
  refused (lp_phase row) o = false -> exists x, applyDriverStatus run row o db = inr x.
Proof.
  intros Hi Hat Hrun Ho. pose proof Hat as [_ [= Er Et]]%task_at_Some. unfold applyDriverStatus. rewrite Et.
  assert (forall r db', wave_inv db' -> run ∈ wave_runs db' ->
    exists x, ret (S := WaveDb) (E := WaveError) (A := TaskLifecycleProjection) r db' = inr x) as Hret by (by eexists).
  assert (exists x, markRecoveryRequired run task db = inr x) as Hrec.
  { eapply (updatePhase_then _ _ _ _ _ row); try done; [by apply phase_in_true|apply keeps_updatePhase; [done|phases..]|by left|].
    intros r db' Hi' Hk. apply audit_then; [exact (wi_events _ Hi')|done]. }
  destruct o; cbn [refused] in Ho.
  - repeat case_bool_decide; try by eexists. done.
  - destruct (phase_in [_; _] _) eqn:Ep; [|by eexists].
    destruct (updatePhase_ok run task [ph_dispatching; ph_retrying] ph_active id row db) as [db' E];
      try done; [by apply phase_in_true|by left|by eexists].
  - destruct (phase_in [_; _] _) eqn:Ep; [|by eexists].
    destruct (updatePhase_ok run task [ph_dispatching; ph_retrying] ph_active id row db) as [db' E];
      try done; [by apply phase_in_true|by left|by eexists].
  - destruct (phase_in [_; _] _) eqn:Ep; [|by eexists].
    destruct (updatePhase_ok run task [ph_dispatching; ph_retrying] ph_active id row db) as [db' E];
      try done; [by apply phase_in_true|by left|by eexists].
  - case_bool_decide; [by eexists|].
    eapply (updatePhase_then _ _ _ _ _ row); try done; [|apply keeps_updatePhase; [done|phases..]|by right|].
    + destruct (lp_phase row); try done. by left.
    + intros r db' Hi' Hk. apply audit_then; [exact (wi_events _ Hi')|done].
  - apply bool_decide_eq_false in Ho. case_bool_decide; [by eexists|].
    eapply (updatePhase_then _ _ _ _ _ row); try done; [|apply keeps_updatePhase; [done|phases..]|by left|].
    + by destruct (lp_phase row); try done; repeat first [left|right].
    + intros r db' Hi' Hk. apply audit_then; [exact (wi_events _ Hi')|done].
  - case_bool_decide; [by eexists|done].
  - by eapply settle_ok.
Qed.

(** Which observations of a running task are refused. In any state the service
    reaches, applying what the driver reports of a running task to its current row
    throws exactly when the driver says it is retrying while the task is being
    dispatched, is being cancelled or needs recovery, or that it is cancelling
    while the task needs recovery. A task that needs recovery is asked about in
    every tick, so until its pipeline leaves such a state every tick of the run
    throws. *)
Theorem observation_refused runs stretches run task row observation :
  let db := after_stretches stretches (empty_waves runs) in
  task_at run task db = Some row -> running (lp_phase row) = true ->
  (exists e, applyDriverStatus run row observation db = inl e) <->
  refused (lp_phase row) observation = true.
Proof.
  intros db Hat Hrun. pose proof (after_inv stretches runs) as Hi. fold db in Hi. split.
  - intros [e E]. apply not_false_iff_true. intros Hf.
    destruct (accepted_observation _ _ _ _ _ Hi Hat Hrun Hf) as [x Ex]. congruence.
  - pose proof Hat as [_ [= Er Et]]%task_at_Some. intros Ho. unfold applyDriverStatus. rewrite Et.
    destruct observation; try discriminate Ho; cbn [refused] in Ho.
    + rewrite bool_decide_false by (intros E; by rewrite E in Ho). apply refused_bind.
      apply (updatePhase_refused _ _ _ _ _ row); [done|done|done|..]; apply phase_in_true in Ho;
        revert Ho; generalize (lp_phase row); apply in_phases; repeat constructor; try done;
        by intros Hin%(bool_decide_eq_true_2 _).
    + apply bool_decide_eq_true in Ho. rewrite Ho. cbn [bool_decide]. apply refused_bind.
      apply (updatePhase_refused _ _ _ _ _ row); [done|done|done|..]; rewrite Ho; [|done].
      by intros Hin%(bool_decide_eq_true_2 _).
Qed.
End Operations.
