(* ===== verification/WavePropagate.v ===== *)
(** * Waves of tasks: failures reach exactly the tasks behind them

    [propagate] blocks the tasks that have not started and depend, directly or
    through others that have not started, on a task that failed, was cancelled or
    is blocked; the reason it stores is one of those the dependencies give. *)

From stdpp Require Import gmap.
From S2P Require Import Prelude TaskDag TaskWave TaskProps SqlList Recovery Revise ReviseProps WaveStore WaveService WaveInv WaveProps.

Local Open Scope Z_scope.

(** The reason of a task behind a task blocked for [reason]: the same root, and the
    path from there on to the task. *)
Definition passed_on (reason : TaskPropagationReason) (p task : string) : TaskPropagationReason :=
  mkPropagation pc_predecessor_blocked p (tr_rootTaskId reason)
    (if decide (task ∈ tr_path reason) then tr_path reason else tr_path reason ++ [task]).

Lemma inheritReason_spec reason p task : inheritReason reason p task = passed_on reason p task.
Proof.
  unfold inheritReason, passed_on, appendPath. destruct (decide (task ∈ tr_path reason)) as [Hin|Hin].
  - by rewrite (proj2 (set_has_true _ _) Hin).
  - by rewrite (proj2 (set_has_false _ _) Hin).
Qed.

Section Propagation.
Context `{IdGenerator} `{Clock} `{LocaleCompare}.

(** ** Reasons *)

Section Reasons.
Context (nodes : list (string * TaskDagNodeV2)) (states : list (string * TaskLifecycleProjection)).

(** The reasons a task has to be blocked. *)
Inductive explained : string -> TaskPropagationReason -> Prop :=
| explained_failed task p row :
    p ∈ dependencies nodes task -> map_get states p = Some row -> lp_phase row = ph_failed ->
    explained task (mkPropagation pc_predecessor_failed p p [p; task])
| explained_cancelled task p row :
    p ∈ dependencies nodes task -> map_get states p = Some row -> lp_phase row = ph_cancelled ->
    explained task (mkPropagation pc_predecessor_cancelled p p [p; task])
| explained_blocked task p row reason :
    p ∈ dependencies nodes task -> map_get states p = Some row -> lp_phase row = ph_blocked ->
    lp_blockReason row = Some reason -> explained task (passed_on reason p task)
| explained_after task p row reason :
    p ∈ dependencies nodes task -> map_get states p = Some row -> lp_phase row = ph_not_started ->
    explained p reason -> explained task (passed_on reason p task).

Lemma elem_of_canonical x l : x ∈ canonical l <-> x ∈ l.
Proof. unfold canonical. rewrite elem_of_sort_by. apply elem_of_set_of. Qed.

(** What one predecessor contributes. *)
Definition contribution (recurse : string -> option (option TaskPropagationReason)) (taskId predecessorId : string)
    : option (list TaskPropagationReason) :=
  match map_get states predecessorId with
  | None => Some []
  | Some predecessor =>
      match lp_phase predecessor with
      | ph_failed => Some [mkPropagation pc_predecessor_failed predecessorId predecessorId [predecessorId; taskId]]
      | ph_cancelled =>
          Some [mkPropagation pc_predecessor_cancelled predecessorId predecessorId [predecessorId; taskId]]
      | ph_blocked =>
          match lp_blockReason predecessor with
          | Some reason => Some [inheritReason reason predecessorId taskId]
          | None => Some []
          end
      | ph_not_started =>
          match recurse predecessorId with
          | None => None
          | Some None => Some []
          | Some (Some inherited) => Some [inheritReason inherited predecessorId taskId]
          end
      | _ => Some []
      end
  end.

Lemma propagationReason_eq fuel visiting task :
  propagationReason (S fuel) nodes states visiting task =
  if set_has visiting task then Some None
  else match list.mapM (contribution (propagationReason fuel nodes states (set_add visiting task)) task)
               (canonical (dependencies nodes task)) with
       | None => None
       | Some reasons => Some (head (sort_by reason_lt (concat reasons)))
       end.
Proof. reflexivity. Qed.

Lemma head_sort {A} (lt : A -> A -> bool) l : match head (sort_by lt l) with Some x => x ∈ l | None => l = [] end.
Proof.
  pose proof (sort_by_perm lt l) as Hp. destruct (sort_by lt l) as [|x rest]; cbn.
  - by apply Permutation_nil_l in Hp.
  - apply (elem_of_Permutation_proper x) in Hp. apply Hp. by left.
Qed.

Lemma concat_nil_elem {A} (ls : list (list A)) l : concat ls = [] -> l ∈ ls -> l = [].
Proof.
  intros Hc Hl. apply concat_nil_Forall in Hc. rewrite List.Forall_forall in Hc.
  by apply Hc, list_elem_of_In.
Qed.

(** A reason that is found is one of the reasons. *)
Lemma reason_explained fuel visiting task reason :
  propagationReason fuel nodes states visiting task = Some (Some reason) -> explained task reason.
Proof.
  revert visiting task reason. induction fuel as [|fuel IH]; intros visiting task reason Hr; [done|].
  rewrite propagationReason_eq in Hr. destruct (set_has visiting task); [done|].
  destruct (list.mapM _ _) as [reasons|] eqn:Em; [|done]. injection Hr as Hr.
  pose proof (head_sort reason_lt (concat reasons)) as Hh. rewrite Hr in Hh. clear Hr.
  apply list_elem_of_In, in_concat in Hh as (l & Hl%list_elem_of_In & Hin%list_elem_of_In).
  apply mapM_Some in Em. apply list_elem_of_lookup in Hl as [i Hi].
  destruct (Forall2_lookup_r _ _ _ _ _ Em Hi) as (p & Hp & Hc). apply list_elem_of_lookup_2 in Hp.
  rewrite elem_of_canonical in Hp. unfold contribution in Hc.
  destruct (map_get states p) as [row|] eqn:Er; [|by injection Hc as <-; apply elem_of_nil in Hin].
  destruct (lp_phase row) eqn:Eph; try (injection Hc as <-; by apply elem_of_nil in Hin).
  - destruct (propagationReason _ _ _ _ p) as [[inherited|]|] eqn:Ei; [| |done]; injection Hc as <-;
      [|by apply elem_of_nil in Hin]. apply list_elem_of_singleton in Hin as ->.
    rewrite inheritReason_spec. eapply explained_after; [done..|]. by eapply IH.
  - injection Hc as <-. apply list_elem_of_singleton in Hin as ->. by eapply explained_failed.
  - injection Hc as <-. apply list_elem_of_singleton in Hin as ->. by eapply explained_cancelled.
  - destruct (lp_blockReason row) as [r|] eqn:Eb; injection Hc as <-; [|by apply elem_of_nil in Hin].
    apply list_elem_of_singleton in Hin as ->. rewrite inheritReason_spec. by eapply explained_blocked.
Qed.

(** The search ends: the tasks on its way are distinct and have rows. *)
Lemma reason_total fuel visiting task :
  NoDup visiting -> (forall x, x ∈ visiting -> x ∈ map_keys states) -> task ∈ map_keys states ->
  (length (map_keys states) + 1 <= fuel + length visiting)%nat ->
  exists o, propagationReason fuel nodes states visiting task = Some o.
Proof.
  revert visiting task. induction fuel as [|fuel IH]; intros visiting task Hn Hk Ht Hle.
  { pose proof (submseteq_length visiting (map_keys states)). exfalso.
    enough (length visiting <= length (map_keys states))%nat by lia. apply submseteq_length.
    apply NoDup_submseteq; [done|]. exact Hk. }
  rewrite propagationReason_eq. destruct (set_has visiting task) eqn:Ev; [by eexists|].
  apply set_has_false in Ev.
  enough (exists reasons, list.mapM (contribution (propagationReason fuel nodes states (set_add visiting task)) task)
    (canonical (dependencies nodes task)) = Some reasons) as [reasons ->] by (by eexists).
  destruct (list.mapM _ _) as [reasons|] eqn:Em; [by exists reasons|]. exfalso.
  apply mapM_None in Em. apply Exists_exists in Em as (p & Hp & Hc). unfold contribution in Hc.
  destruct (map_get states p) as [row|] eqn:Er; [|done].
  destruct (lp_phase row); try done; [|by destruct (lp_blockReason row)].
  destruct (IH (set_add visiting task) p) as [o Eo].
  - by apply set_add_NoDup.
  - intros x [->|Hx]%elem_of_set_add; auto.
  - by eapply map_get_Some_keys.
  - unfold set_add. rewrite (proj2 (set_has_false _ _) Ev), length_app. cbn. lia.
  - rewrite Eo in Hc. by destruct o.
Qed.

(** ** Every doomed task is found *)

Definition bad_dependency (task : string) : Prop :=
  exists p row, p ∈ dependencies nodes task /\ map_get states p = Some row /\
    (lp_phase row = ph_failed \/ lp_phase row = ph_cancelled \/
     (lp_phase row = ph_blocked /\ lp_blockReason row <> None)).

(** A chain of tasks that have not started, the last behind a bad one. *)
Inductive doomed_path : list string -> Prop :=
| doomed_last task : bad_dependency task -> doomed_path [task]
| doomed_cons task p row path :
    p ∈ dependencies nodes task -> map_get states p = Some row -> lp_phase row = ph_not_started ->
    doomed_path (p :: path) -> doomed_path (task :: p :: path).

Lemma explained_path task reason : explained task reason -> exists path, doomed_path (task :: path).
Proof.
  induction 1 as [task p row Hp Hr Hph|task p row Hp Hr Hph|task p row reason Hp Hr Hph Hb|task p row reason Hp Hr Hph _ [path IH]].
  - exists []. apply doomed_last. exists p, row. auto.
  - exists []. apply doomed_last. exists p, row. auto.
  - exists []. apply doomed_last. exists p, row. split_and!; try done. right. right. by rewrite Hb.
  - exists (p :: path). by eapply doomed_cons.
Qed.

Lemma doomed_suffix l1 task l2 : doomed_path (l1 ++ task :: l2) -> doomed_path (task :: l2).
Proof.
  induction l1 as [|x l1 IH]; [done|]. intros Hd. apply IH. inversion Hd; subst.
  - by destruct l1.
  - destruct l1; by simplify_eq/=.
Qed.

Lemma doomed_simple path task :
  doomed_path (task :: path) -> exists path', doomed_path (task :: path') /\ NoDup (task :: path').
Proof.
  revert task. induction path as [|p path IH]; intros task Hd.
  - exists []. split; [done|]. apply NoDup_singleton.
  - inversion Hd as [|? ? row ? Hp Hr Hph Hd']; subst. destruct (IH p Hd') as (path' & Hd2 & Hn).
    destruct (decide (task ∈ p :: path')) as [Hin|Hnot].
    + apply list_elem_of_split in Hin as (l1 & l2 & E). exists l2. rewrite E in Hd2, Hn.
      split; [by eapply doomed_suffix|]. by apply NoDup_app in Hn as (_ & _ & Hn).
    + exists (p :: path'). split; [by eapply doomed_cons|]. by apply NoDup_cons.
Qed.

Lemma path_found fuel visiting task path o :
  doomed_path (task :: path) -> NoDup (task :: path) -> (forall x, x ∈ task :: path -> x ∉ visiting) ->
  propagationReason fuel nodes states visiting task = Some o -> o <> None.
Proof.
  revert fuel visiting task o. induction path as [|p path IH]; intros fuel visiting task o Hd Hn Hv Hr;
    (destruct fuel as [|fuel]; [done|]); rewrite propagationReason_eq in Hr;
    rewrite (proj2 (set_has_false _ _)) in Hr by (apply Hv; left);
    (destruct (list.mapM _ _) as [reasons|] eqn:Em; [|done]); injection Hr as <-;
    pose proof (head_sort reason_lt (concat reasons)) as Hh; intros E; rewrite E in Hh; clear E;
    apply mapM_Some in Em.
  - inversion Hd as [? (q & row & Hq & Hrow & Hph)|]; subst.
    apply elem_of_canonical, list_elem_of_lookup in Hq as [i Hq].
    destruct (Forall2_lookup_l _ _ _ _ _ Em Hq) as (l & Hl & Hc).
    apply list_elem_of_lookup_2, (concat_nil_elem _ _ Hh) in Hl as ->.
    unfold contribution in Hc. rewrite Hrow in Hc.
    destruct Hph as [E|[E|[E Hb]]]; rewrite E in Hc; try done. by destruct (lp_blockReason row).
  - inversion Hd as [|? ? row ? Hp Hrow Hph Hd']; subst. pose proof Hp as Hq.
    apply elem_of_canonical, list_elem_of_lookup in Hq as [i Hq].
    destruct (Forall2_lookup_l _ _ _ _ _ Em Hq) as (l & Hl & Hc).
    apply list_elem_of_lookup_2, (concat_nil_elem _ _ Hh) in Hl as ->.
    unfold contribution in Hc. rewrite Hrow, Hph in Hc.
    destruct (propagationReason fuel nodes states (set_add visiting task) p) as [[r|]|] eqn:Er; try done.
    apply NoDup_cons in Hn as [Hnot Hn]. eapply (IH fuel _ p None); try done.
    intros x Hx [->|Hin]%elem_of_set_add; [done|]. by apply (Hv x); [right|].
Qed.
End Reasons.

(** ** The rows of a run *)

Lemma elem_of_projections db run row :
  row ∈ projections db run <-> row ∈ lifecycles db /\ lp_runId row = run.
Proof. unfold projections. by rewrite elem_of_sort_key, elem_of_select, str_eqb_true. Qed.

Lemma map_NoDup_transfer {A B C} (f : A -> B) (g : A -> C) (l : list A) :
  NoDup (map f l) -> (forall x y, x ∈ l -> y ∈ l -> g x = g y -> f x = f y) -> NoDup (map g l).
Proof.
  induction l as [|x l IH]; intros Hn Hfg; [constructor|]. cbn in *. apply NoDup_cons in Hn as [Hx Hn].
  apply NoDup_cons. split.
  - intros (y & E & Hy)%list_elem_of_fmap. apply Hx. rewrite (Hfg x y); [by apply list_elem_of_fmap_2|left|by right|done].
  - apply IH; [done|]. intros. apply Hfg; [by right..|done].
Qed.

Lemma projections_ids db run : wave_inv db -> NoDup (map lp_taskId (projections db run)).
Proof.
  intros Hi. unfold projections. rewrite (sort_key_perm lp_taskId).
  apply (map_NoDup_transfer row_key).
  - unfold select_where. pose proof (wi_keys _ Hi) as Hk.
    pose proof (delete_NoDup row_key (fun row => negb (str_eqb (lp_runId row) run)) _ Hk) as Hd.
    unfold delete_where in Hd. erewrite (List.filter_ext _ _) in Hd; [exact Hd|]. intros r. by rewrite negb_involutive.
  - intros x y [_ Hx]%elem_of_select [_ Hy]%elem_of_select E. apply str_eqb_true in Hx, Hy.
    unfold row_key. congruence.
Qed.

Lemma statesOf_get db run task : wave_inv db -> map_get (statesOf db run) task = task_at run task db.
Proof.
  intros Hi. unfold statesOf. destruct (task_at run task db) as [row|] eqn:Hat.
  - apply task_at_Some in Hat as [Hin [= <- <-]].
    apply map_of_get; [by rewrite map_map; apply projections_ids|].
    apply list_elem_of_fmap. exists row. split; [done|]. by apply elem_of_projections.
  - apply map_get_None. rewrite elem_of_map_of, map_map. intros (row & -> & [Hin <-]%elem_of_projections)%list_elem_of_fmap.
    pose proof (task_at_elem _ _ _ _ (wi_keys _ Hi) Hin eq_refl). cbn in Hat. congruence.
Qed.

(** ** Blocking a task *)

Lemma block_ok run task reason row db :
  wave_inv db -> task_at run task db = Some row -> lp_phase row = ph_not_started ->
  exists now db', block run task reason db = inr (setBlocked reason now row, db') /\ wave_inv db' /\
    task_at run task db' = Some (setBlocked reason now row) /\
    (forall run' task', (run', task') <> (run, task) -> task_at run' task' db' = task_at run' task' db).
Proof.
  intros Hi Hat Hph. set (now := clock_text (times_read db)). exists now.
  pose proof (inv_reads db (ids_read db) (S (times_read db)) Hi ltac:(lia)) as Hi1.
  assert (updates_task run task (task_from run task [ph_not_started]) (setBlocked reason now)) as Hu
    by (by apply task_from_updates).
  assert (task_from run task [ph_not_started] row = true) as Hp.
  { apply task_from_true. split; [by apply task_at_Some in Hat as [_ ?]|]. rewrite Hph. by left. }
  assert (updateLifecycles (task_from run task [ph_not_started]) (setBlocked reason now)
    (with_reads (ids_read db) (S (times_read db)) db) = inr (1, with_lifecycles
      (update_where (task_from run task [ph_not_started]) (setBlocked reason now))
      (with_reads (ids_read db) (S (times_read db)) db))) as Hup.
  { apply (updateTask_ok run task _ _ row); try done.
    - unfold causal_update. cbn. by rewrite !str_eqb_refl, Z.eqb_refl, Z.leb_refl.
    - unfold terminal_kept. by rewrite Hph.
    - pose proof (checked_row _ _ _ _ Hi Hat) as Hc. pose proof (not_started_child _ _ _ _ Hi Hat (or_introl Hph)) as Hch.
      unfold lifecycle_check in *. cbn. rewrite Hph, Hch in *. cbn in *. rewrite !andb_true_iff, !Z.leb_le in *.
      destruct Hc as [[[[[[? ?] ?] ?] _] _] _]. split_and!; try done; lia. }
  destruct (updateTask_run _ _ _ _ _ _ _ Hu (wi_keys _ Hi1) Hup) as (_ & Hrow & Hother).
  destruct Hrow as [(E & _)|(_ & row' & Hat0 & _ & Hat' & _)]; [done|].
  replace row' with row in * by (change (task_at run task db = Some row') in Hat0; congruence).
  set (db1 := with_lifecycles (update_where (task_from run task [ph_not_started]) (setBlocked reason now))
      (with_reads (ids_read db) (S (times_read db)) db)) in *.
  destruct (audit_ok run (Some task) (task_blocked reason) now db1) as [db' Ha].
  { exact (wi_events _ Hi1). }
  { exact (run_known run task row db Hi Hat). }
  exists db'. assert (block run task reason db = inr (setBlocked reason now row, db')) as Hb.
  { unfold block. erewrite bind_eq; [|reflexivity]. fold now. erewrite bind_eq; [|exact Hup].
    unfold readOne. erewrite bind_eq; [|erewrite bind_eq; [|reflexivity]; fold (task_at run task db1); rewrite Hat'; reflexivity].
    cbn [Z.eqb Pos.eqb]. erewrite bind_eq; [|exact Ha]. by erewrite bind_eq; [|reflexivity]. }
  split; [done|]. split; [by eapply keeps_block|]. apply audit_run in Ha as ->. split; [exact Hat'|exact Hother].
Qed.

(** ** A pass *)

(** The search answers whether there is a reason. *)
Lemma reason_decides nodes states task :
  task ∈ map_keys states ->
  exists o, propagationReason (propagationFuel states) nodes states [] task = Some o /\
    match o with Some r => explained nodes states task r | None => forall r, ~ explained nodes states task r end.
Proof.
  intros Ht. destruct (reason_total nodes states (propagationFuel states) [] task) as [o Eo].
  - constructor.
  - by intros x ?%elem_of_nil.
  - done.
  - unfold propagationFuel, map_keys. rewrite length_map. cbn. lia.
  - exists o. split; [done|]. destruct o as [r|]; [by eapply reason_explained|]. intros r He.
    destruct (explained_path _ _ _ _ He) as [path Hd]. destruct (doomed_simple _ _ _ _ Hd) as (path' & Hd' & Hn).
    eapply (path_found nodes states _ [] task path' None Hd' Hn); [|exact Eo|done]. by intros x _ ?%elem_of_nil.
Qed.

Definition doomed (nodes : list (string * TaskDagNodeV2)) (states : list (string * TaskLifecycleProjection))
    (t : TaskLifecycleProjection) : Prop :=
  lp_phase t = ph_not_started /\ exists reason, explained nodes states (lp_taskId t) reason.

(** What a pass over [tasks] does: it blocks the doomed ones, each for one of its
    reasons, and nothing else. *)
Record passed (run : string) (nodes : list (string * TaskDagNodeV2))
    (states : list (string * TaskLifecycleProjection)) (tasks : list TaskLifecycleProjection)
    (db db' : WaveDb) : Prop := {
  pa_inv : wave_inv db';
  pa_other : forall run' task', run' <> run \/ task' ∉ map lp_taskId tasks ->
    task_at run' task' db' = task_at run' task' db;
  pa_doomed : forall t, t ∈ tasks -> doomed nodes states t ->
    exists reason now, explained nodes states (lp_taskId t) reason /\
      task_at run (lp_taskId t) db' = Some (setBlocked reason now t);
  pa_spared : forall t, t ∈ tasks -> ~ doomed nodes states t -> task_at run (lp_taskId t) db' = Some t }.

Lemma passed_cons run nodes states t rest db db1 db' :
  wave_inv db -> passed run nodes states rest db1 db' -> lp_taskId t ∉ map lp_taskId rest ->
  (forall run' task', (run', task') <> (run, lp_taskId t) -> task_at run' task' db1 = task_at run' task' db) ->
  (doomed nodes states t -> exists reason now, explained nodes states (lp_taskId t) reason /\
     task_at run (lp_taskId t) db1 = Some (setBlocked reason now t)) ->
  (~ doomed nodes states t -> task_at run (lp_taskId t) db1 = Some t) ->
  passed run nodes states (t :: rest) db db'.
Proof.
  intros Hi [Hi' Ho Hd Hs] Hnot Hsame Hdt Hst.
  assert (task_at run (lp_taskId t) db' = task_at run (lp_taskId t) db1) as Et by (apply Ho; by right).
  split; [done|..].
  - intros run' task' Hor. rewrite Ho; [apply Hsame|].
    + intros [= -> ->]. destruct Hor as [?|Hor]; [done|]. apply Hor. cbn. left.
    + destruct Hor as [?|Hor]; [by left|]. right. intros Hin. apply Hor. cbn. by right.
  - intros x [->|Hx]%elem_of_cons Hdx; [|by apply Hd]. rewrite Et. by apply Hdt.
  - intros x [->|Hx]%elem_of_cons Hdx; [|by apply Hs]. rewrite Et. by apply Hst.
Qed.

Lemma pass_spec run nodes db0 tasks changed db :
  wave_inv db -> NoDup (map lp_taskId tasks) ->
  (forall t, t ∈ tasks -> lp_taskId t ∈ map_keys (statesOf db0 run) /\ task_at run (lp_taskId t) db = Some t) ->
  exists changed' db', propagatePass run nodes (statesOf db0 run) tasks changed db = Some (inr changed', db') /\
    passed run nodes (statesOf db0 run) tasks db db' /\
    (changed' = true <-> changed = true \/ exists t, t ∈ tasks /\ doomed nodes (statesOf db0 run) t).
Proof.
  revert changed db. induction tasks as [|t rest IH]; intros changed db Hi Hn Hts.
  { exists changed, db. split; [done|]. split; [|split; [by left|]].
    - split; try done; by intros ? ?%elem_of_nil.
    - intros [?|(t & ?%elem_of_nil & _)]; done. }
  cbn [map] in Hn. apply NoDup_cons in Hn as [Hnot Hn]. destruct (Hts t ltac:(left)) as [Hk Hat].
  assert (forall db1, (forall run' task', (run', task') <> (run, lp_taskId t) -> task_at run' task' db1 = task_at run' task' db) ->
    forall x, x ∈ rest -> lp_taskId x ∈ map_keys (statesOf db0 run) /\ task_at run (lp_taskId x) db1 = Some x) as Hrest.
  { intros db1 Hsame x Hx. destruct (Hts x ltac:(by right)) as [? <-]. split; [done|]. apply Hsame. intros [= E].
    apply Hnot. rewrite <-E. by apply list_elem_of_fmap_2. }
  assert (~ doomed nodes (statesOf db0 run) t -> propagatePass run nodes (statesOf db0 run) (t :: rest) changed db =
    propagatePass run nodes (statesOf db0 run) rest changed db) as Hskip.
  { intros Hno. cbn [propagatePass]. destruct (bool_decide_reflect (lp_phase t = ph_not_started)) as [Hph|]; [|done].
    destruct (reason_decides nodes _ _ Hk) as (o & -> & Ho). destruct o as [r|]; [|done].
    exfalso. apply Hno. split; [done|]. by exists r. }
  assert (~ doomed nodes (statesOf db0 run) t -> exists changed' db',
    propagatePass run nodes (statesOf db0 run) (t :: rest) changed db = Some (inr changed', db') /\
    passed run nodes (statesOf db0 run) (t :: rest) db db' /\
    (changed' = true <-> changed = true \/ exists x, x ∈ t :: rest /\ doomed nodes (statesOf db0 run) x)) as Hspared.
  { intros Hno. rewrite (Hskip Hno). destruct (IH changed db Hi Hn (Hrest db ltac:(done))) as (c & db' & E & Hp & Hc).
    exists c, db'. split; [done|]. split; [by eapply passed_cons|]. rewrite Hc. set_solver. }
  destruct (decide (lp_phase t = ph_not_started)) as [Hph|Hph]; [|apply Hspared; by intros [? _]].
  destruct (reason_decides nodes _ _ Hk) as (o & Eo & Ho).
  destruct o as [r|]; [|apply Hspared; intros [_ [r Hr]]; by apply (Ho r)].
  assert (doomed nodes (statesOf db0 run) t) as Hd by (split; [done|by exists r]).
  destruct (block_ok run (lp_taskId t) r t db Hi Hat Hph) as (now & db1 & Eb & Hi1 & Hat1 & Hsame).
  destruct (IH true db1 Hi1 Hn (Hrest db1 Hsame)) as (c & db' & E & Hp & Hc).
  exists c, db'. split_and!.
  - cbn [propagatePass]. rewrite bool_decide_true by done. cbn [negb]. by rewrite Eo, Eb.
  - eapply passed_cons; try done. intros _. by exists r, now.
  - split; [|by rewrite Hc; left]. intros _. right. exists t. split; [left|done].
Qed.

Lemma states_passed db run :
  wave_inv db -> let tasks := sort_by task_lt (map_values (statesOf db run)) in
  NoDup (map lp_taskId tasks) /\
  (forall t, t ∈ tasks <-> task_at run (lp_taskId t) db = Some t) /\
  (forall t, t ∈ tasks -> lp_taskId t ∈ map_keys (statesOf db run)).
Proof.
  intros Hi tasks.
  assert (forall t, t ∈ tasks <-> task_at run (lp_taskId t) db = Some t) as Helem.
  { intros t. unfold tasks. rewrite elem_of_sort_by. split.
    - intros [k Hk]%elem_of_map_values. pose proof (elem_map_get (statesOf db run) k t (map_of_NoDup _) Hk) as Hg.
      rewrite statesOf_get in Hg by done. by pose proof Hg as [_ [= _ ->]]%task_at_Some.
    - intros Hat. rewrite <-(statesOf_get db run _ Hi) in Hat. apply map_get_elem in Hat.
      apply list_elem_of_fmap. by exists (lp_taskId t, t). }
  split; [|split; [done|]].
  - unfold tasks. rewrite (sort_by_perm task_lt). unfold map_values. rewrite map_map.
    rewrite (map_ext_in _ fst); [apply map_of_NoDup|]. intros [k t] Hin%list_elem_of_In. cbn.
    pose proof (elem_map_get (statesOf db run) k t (map_of_NoDup _) Hin) as Hg. rewrite statesOf_get in Hg by done.
    by apply task_at_Some in Hg as [_ [= _ ->]].
  - intros t Ht%Helem. apply map_get_keys. rewrite statesOf_get by done. by eexists.
Qed.

(** ** The loop *)

(** The whole of a run is passed over. *)
Definition run_passed (run : string) (nodes : list (string * TaskDagNodeV2)) (db db' : WaveDb) : Prop :=
  passed run nodes (statesOf db run) (sort_by task_lt (map_values (statesOf db run))) db db'.

Lemma run_pass run nodes db :
  wave_inv db -> exists changed db',
    propagatePass run nodes (statesOf db run) (sort_by task_lt (map_values (statesOf db run))) false db =
      Some (inr changed, db') /\
    run_passed run nodes db db' /\
    (changed = true <-> exists task row, task_at run task db = Some row /\ doomed nodes (statesOf db run) row).
Proof.
  intros Hi. destruct (states_passed db run Hi) as (Hn & Helem & Hk).
  destruct (pass_spec run nodes db _ false db Hi Hn) as (c & db' & E & Hp & Hc).
  { intros t Ht. split; [by apply Hk|by apply Helem]. }
  exists c, db'. split; [done|]. split; [done|]. rewrite Hc. split.
  - intros [?|(t & Ht%Helem & Hd)]; [done|]. by exists (lp_taskId t), t.
  - intros (task & row & Hat & Hd). right. exists row. split; [|done]. apply Helem.
    by pose proof Hat as [_ [= _ ->]]%task_at_Some.
Qed.

(** How the rows of the run change in a pass. *)
Lemma passed_row run nodes db db' task row :
  wave_inv db -> run_passed run nodes db db' -> task_at run task db = Some row ->
  (doomed nodes (statesOf db run) row /\ exists reason now, explained nodes (statesOf db run) task reason /\
     task_at run task db' = Some (setBlocked reason now row)) \/
  (~ doomed nodes (statesOf db run) row /\ task_at run task db' = Some row).
Proof.
  intros Hi [_ _ Hd Hs] Hat. destruct (states_passed db run Hi) as (_ & Helem & Hk).
  pose proof Hat as [_ [= _ <-]]%task_at_Some. apply Helem in Hat.
  destruct (reason_decides nodes _ _ (Hk _ Hat)) as (o & _ & Ho).
  destruct (decide (lp_phase row = ph_not_started)) as [Hph|Hph].
  - destruct o as [r|].
    + left. assert (doomed nodes (statesOf db run) row) as Hdr by (split; [done|by exists r]).
      split; [done|]. by apply Hd.
    + right. assert (~ doomed nodes (statesOf db run) row) as Hdr by (intros [_ [r Hr]]; by apply (Ho r)).
      split; [done|]. by apply Hs.
  - right. assert (~ doomed nodes (statesOf db run) row) as Hdr by (by intros [? _]).
    split; [done|]. by apply Hs.
Qed.

Lemma passed_row_inv run nodes db db' task row' :
  wave_inv db -> run_passed run nodes db db' -> task_at run task db' = Some row' ->
  (exists row reason now, task_at run task db = Some row /\ doomed nodes (statesOf db run) row /\
     row' = setBlocked reason now row) \/
  (task_at run task db = Some row' /\ ~ doomed nodes (statesOf db run) row').
Proof.
  intros Hi Hp Hat'. destruct (task_at run task db) as [row|] eqn:Hat.
  - destruct (passed_row _ _ _ _ _ _ Hi Hp Hat) as [(Hd & r & now & _ & E)|[Hd E]].
    + left. exists row, r, now. split_and!; try done. congruence.
    + right. replace row' with row by congruence. done.
  - destruct (states_passed db run Hi) as (_ & Helem & _).
    rewrite (pa_other _ _ _ _ _ _ Hp) in Hat'; [congruence|]. right.
    intros (t & -> & Ht%Helem)%list_elem_of_fmap. congruence.
Qed.

(** After a pass there is no reason left that was not there before it. *)
Lemma explained_before run nodes db db' task reason :
  wave_inv db -> run_passed run nodes db db' -> explained nodes (statesOf db' run) task reason ->
  exists reason', explained nodes (statesOf db run) task reason'.
Proof.
  intros Hi Hp He. pose proof (pa_inv _ _ _ _ _ _ Hp) as Hi'.
  induction He as [task p row Hdep Hr Hph|task p row Hdep Hr Hph|task p row reason Hdep Hr Hph Hb|task p row reason Hdep Hr Hph _ [r' IH]];
    rewrite statesOf_get in Hr by done;
    destruct (passed_row_inv _ _ _ _ _ _ Hi Hp Hr) as [(row0 & r0 & now & Hat & [Hns [r1 Hr1]] & ->)|[Hat Hno]];
    try done; rewrite <-(statesOf_get db run) in Hat by done.
  - eexists. by eapply explained_failed.
  - eexists. by eapply explained_cancelled.
  - eexists. eapply explained_after; [done..|].
    rewrite statesOf_get in Hat by done. apply task_at_Some in Hat as [_ [= _ <-]]. exact Hr1.
  - eexists. by eapply explained_blocked.
  - eexists. by eapply explained_after.
Qed.

(** So no doomed task is left. *)
Lemma passed_none run nodes db db' task row :
  wave_inv db -> run_passed run nodes db db' -> task_at run task db' = Some row ->
  ~ doomed nodes (statesOf db' run) row.
Proof.
  intros Hi Hp Hat [Hns [r Hr]]. destruct (passed_row_inv _ _ _ _ _ _ Hi Hp Hat) as [(row0 & r0 & now & _ & _ & ->)|[_ Hno]]; [done|].
  apply Hno. split; [done|]. by eapply explained_before.
Qed.

Lemma propagation_exact runs stretches run dag :
  let db := after_stretches stretches (empty_waves runs) in
  let nodes := nodesById dag in
  exists db', propagate run dag db = Some (inr tt, db') /\
  (forall run' task, run' <> run -> task_at run' task db' = task_at run' task db) /\
  (forall task row, task_at run task db = Some row ->
     (doomed nodes (statesOf db run) row /\ exists reason now, explained nodes (statesOf db run) task reason /\
        task_at run task db' = Some (setBlocked reason now row)) \/
     (~ doomed nodes (statesOf db run) row /\ task_at run task db' = Some row)) /\
  (forall task row p prow, task_at run task db' = Some row -> lp_phase row = ph_not_started ->
     p ∈ dependencies nodes task -> task_at run p db' = Some prow ->
     lp_phase prow ∉ [ph_failed; ph_cancelled; ph_blocked]).
Proof.
  intros db nodes. pose proof (after_inv stretches runs) as Hi. fold db in Hi.
  assert (exists db1 db', run_passed run nodes db db1 /\ propagate run dag db = Some (inr tt, db') /\ wave_inv db' /\
    forall run' task, task_at run' task db' = task_at run' task db1) as (db1 & db' & Hp & Hprop & Hi' & Hsame).
  { destruct (run_pass run nodes db Hi) as (c & db1 & E & Hp & Hc). exists db1.
    pose proof (pa_inv _ _ _ _ _ _ Hp) as Hi1. unfold propagate. fold nodes. cbn [propagateLoop]. rewrite E.
    destruct c; [|by exists db1]. destruct (proj1 Hc eq_refl) as (t & row & [Hin _]%task_at_Some & _).
    destruct (lifecycles db) as [|x xs] eqn:El; [by apply elem_of_nil in Hin|]. cbn [length propagateLoop].
    destruct (run_pass run nodes db1 Hi1) as (c2 & db2 & E2 & Hp2 & Hc2). rewrite E2.
    assert (forall task row', task_at run task db1 = Some row' -> ~ doomed nodes (statesOf db1 run) row') as Hnone
      by (intros task row' Hat; exact (passed_none run nodes db db1 task row' Hi Hp Hat)).
    destruct c2; [destruct (proj1 Hc2 eq_refl) as (t2 & row2 & Hat2 & Hd2); by destruct (Hnone _ _ Hat2)|].
    exists db2. split_and!; try done; [apply (pa_inv _ _ _ _ _ _ Hp2)|]. intros run' task.
    destruct (decide (run' = run)) as [->|Hne]; [|by apply (pa_other _ _ _ _ _ _ Hp2); left].
    destruct (task_at run task db1) as [row1|] eqn:Hat1.
    - destruct (passed_row _ _ _ _ _ _ Hi1 Hp2 Hat1) as [[Hd _]|[_ ?]]; [by destruct (Hnone _ _ Hat1)|done].
    - destruct (states_passed db1 run Hi1) as (_ & Helem & _). rewrite (pa_other _ _ _ _ _ _ Hp2); [done|].
      right. intros (x1 & -> & Hx%Helem)%list_elem_of_fmap. congruence. }
  exists db'. split; [done|]. split_and!.
  - intros run' task Hne. rewrite Hsame. apply (pa_other _ _ _ _ _ _ Hp). by left.
  - intros task row Hat. rewrite Hsame. by apply passed_row.
  - intros task row p prow Hat Hns Hdep Hprow Hbad. rewrite Hsame in Hat, Hprow.
    pose proof (pa_inv _ _ _ _ _ _ Hp) as Hi1. apply (passed_none _ _ _ _ _ _ Hi Hp Hat). split; [done|].
    pose proof Hat as [_ [= _ ->]]%task_at_Some. rewrite <-(statesOf_get db1 run) in Hprow by done.
    rewrite !elem_of_cons, elem_of_nil in Hbad. destruct Hbad as [E|[E|[E|[]]]].
    + eexists. by eapply explained_failed.
    + eexists. by eapply explained_cancelled.
    + pose proof Hprow as Hat2. rewrite statesOf_get in Hat2 by done.
      pose proof (checked_row _ _ _ _ Hi1 Hat2) as Hc. unfold lifecycle_check in Hc.
      apply andb_prop in Hc as [_ Hc]. rewrite E in Hc. destruct (lp_blockReason prow) as [r|] eqn:Eb; [|done].
      eexists. by eapply explained_blocked.
Qed.

(** C8: Failures reach exactly the tasks behind them. In any state the service
    reaches, propagation ends without an error. It blocks the tasks of the run
    that have not started and depend, directly or through tasks that have not
    started either, on one that failed, was cancelled or is blocked, each with a
    reason its dependencies give, and leaves every other row as it is; afterwards
    no task that has not started depends on such a task. *)
Theorem propagate_exact runs stretches run dag :
  let db := after_stretches stretches (empty_waves runs) in
  let nodes := nodesById dag in
  exists db', propagate run dag db = Some (inr tt, db') /\
  (forall run' task, run' <> run -> task_at run' task db' = task_at run' task db) /\
  (forall task row, task_at run task db = Some row ->
     (doomed nodes (statesOf db run) row /\ exists reason now, explained nodes (statesOf db run) task reason /\
        task_at run task db' = Some (setBlocked reason now row)) \/
     (~ doomed nodes (statesOf db run) row /\ task_at run task db' = Some row)) /\
  (forall task row p prow, task_at run task db' = Some row -> lp_phase row = ph_not_started ->
     p ∈ dependencies nodes task -> task_at run p db' = Some prow ->
     lp_phase prow ∉ [ph_failed; ph_cancelled; ph_blocked]).
Proof. apply propagation_exact. Qed.

(** ** Replanning *)

Lemma dependencies_node dag n :
  NoDup (map taskId (dag_nodes dag)) -> n ∈ dag_nodes dag ->
  dependencies (nodesById dag) (taskId n) = er_dependencies (nd_task n).
Proof.
  intros Hn Hin. unfold dependencies, nodesById.
  rewrite (map_of_get _ (taskId n) n); [done|by rewrite map_map|]. apply list_elem_of_fmap. by exists n.
Qed.

Lemma planningStates_elem db run ids task row :
  task_at run task db = Some row -> task ∈ ids -> planningState row ∈ planningStates db run (Some ids).
Proof.
  intros [Hin [= Hr Ht]]%task_at_Some Hids. apply list_elem_of_fmap. exists row. split; [done|].
  apply list_elem_of_In, filter_In. split; [|apply set_has_true, elem_of_set_of; congruence].
  apply list_elem_of_In, elem_of_projections. done.
Qed.

Lemma canonical_node_in dag n : n ∈ dag_nodes dag -> canonicalNode n ∈ dag_nodes (canonicalDag dag).
Proof.
  intros Hin. unfold canonicalDag. cbn. rewrite elem_of_sort_key. by apply list_elem_of_fmap_2.
Qed.

(** C37: Replanning around a hidden dependency is a dead end when the interrupted task
    has a dependent. The coordinator cancels the interrupted task, ticks the
    scheduler on the current graph, which propagates the cancellation, and then
    submits the proposal with the states of the tasks. In any state in which a
    task was cancelled and a dependent of it has not started, once the
    cancellation is propagated every proposal triggered by an interruption of the
    task, and not of the dependent, is rejected. *)
Theorem replan_dead_end `{Sha256} runs stretches run context input t n d drow row db' :
  let db := after_stretches stretches (empty_waves runs) in
  let dag := rr_dag (cx_current context) in
  NoDup (map taskId (dag_nodes dag)) -> n ∈ dag_nodes dag -> d ∈ er_dependencies (nd_task n) ->
  task_at run d db = Some drow -> lp_phase drow = ph_cancelled ->
  task_at run (taskId n) db = Some row -> lp_phase row = ph_not_started ->
  propagate run dag db = Some (inr tt, db') ->
  cx_taskStates context = planningStates db' run (Some (map taskId (dag_nodes dag))) ->
  pr_trigger input = Some t -> d ∈ ht_interruptedTaskIds t -> taskId n ∉ ht_interruptedTaskIds t ->
  exists o, validateTaskGraphRevision context input = Some o /\ oc_record o = None /\
    dn_accepted (oc_decision o) = false.
Proof.
  intros db dag Hids Hn Hdep Hd Hcan Hrow Hns Hprop Hstates Ht Hin Hnot.
  destruct (propagation_exact runs stretches run dag) as (db1 & E & _ & Hrows & _).
  change (propagate run dag db = Some (inr tt, db1)) in E. rewrite E in Hprop. injection Hprop as ->.
  assert (doomed (nodesById dag) (statesOf db run) row) as Hdoomed.
  { split; [done|]. pose proof (after_inv stretches runs) as Hi. fold db in Hi.
    pose proof Hrow as [_ [= _ ->]]%task_at_Some. eexists. eapply (explained_cancelled _ _ _ d drow); [|by rewrite statesOf_get|done].
    by rewrite dependencies_node. }
  destruct (Hrows _ _ Hrow) as [(_ & reason & now & _ & Hat)|[Hno _]]; [|done].
  destruct (validate_eq context input) as (b & q & w1 & w2 & _ & _ & Hv). eexists. split; [exact Hv|].
  eapply (dependent_rejected context input _ t (canonicalNode n) (planningState (setBlocked reason now row)) d); try done.
  - by apply canonical_node_in.
  - cbn. by apply elem_of_sort_strings.
  - rewrite Hstates. eapply planningStates_elem; [exact Hat|]. by apply list_elem_of_fmap_2.
  - cbn. by pose proof Hrow as [_ [= _ ->]]%task_at_Some.
Qed.
End Propagation.

(** ** Concrete waves *)

#[local] Existing Instance tallyIds.
#[local] Existing Instance length_digest.
#[local] Instance still_clock : Clock := fun _ => "2026-01-01T00:00:00Z".
#[local] Instance code_units : LocaleCompare := compareCodepoints.

(** Task [b] depends on task [a]. *)
Definition two_tasks : TaskDagV2 := rr_dag first_revision.

Definition two_workers : TaskWaveSchedulerTickInput :=
  mkTickInput "run" two_tasks 2 [{| pcap_profileId := "profile"; pcap_available := true |}] [] None None None.

Definition dispatched_a : list Stretch := [SInitialize "run" two_tasks; SDispatch two_workers].

Definition no_row : TaskLifecycleProjection := newLifecycle "" "" 1 "".

Definition row_after (stretches : list Stretch) (task : string) : TaskLifecycleProjection :=
  default no_row (task_at "run" task (after_stretches stretches (empty_waves ["run"]))).

(** Task [a] is settled; [b] is blocked when it failed or was cancelled. *)
Definition settled_a (phase : SettledPhase) : list Stretch :=
  [SObserve "run" (row_after dispatched_a "a") (st_settled phase)].

Example failure_blocks_b :
  map lp_phase (projections (after_stretches (dispatched_a ++ settled_a settled_failed ++ [SPropagate "run" two_tasks])
    (empty_waves ["run"])) "run") = [ph_failed; ph_blocked].
Proof. vm_compute. reflexivity. Qed.

Lemma lifecycle_followed_witness :
  exists row', task_at "run" "a" (after_stretches (settled_a settled_failed)
      (after_stretches dispatched_a (empty_waves ["run"]))) = Some row' /\
    lp_childRunId row' = Some "task-run:run:1:a".
Proof.
  destruct (lifecycle_followed ["run"] dispatched_a (settled_a settled_failed) "run" "a"
    (row_after dispatched_a "a")) as (row' & Hat & _ & _ & Hc & _).
  - vm_compute. reflexivity.
  - exists row'. split; [exact Hat|]. rewrite (proj1 (Hc ltac:(vm_compute; discriminate))). vm_compute. reflexivity.
Defined.

(** The wave the service dispatches first. *)
Definition first_wave : TaskWaveDispatchInput :=
  let db := after_stretches [SInitialize "run" two_tasks] (empty_waves ["run"]) in
  match planTaskWave (planningSnapshot two_workers db 1 "2026-01-01T00:00:00Z"),
        makeDispatch two_workers 1 "a" db with
  | Some plan, inr (dispatch, _) => mkDispatchInput plan [dispatch] (mkLimits 2 [])
  | _, _ =>
      mkDispatchInput {| wp_graphId := ""; wp_graphRevision := 1; wp_waveOrdinal := 1;
        wp_validation := {| tv_graphId := ""; tv_graphRevision := 1; tv_valid := false; tv_topologicalOrder := []; tv_diagnostics := [] |};
        wp_selectedTaskIds := []; wp_decisions := []; wp_plannedAt := "" |} [] (mkLimits 0 [])
  end.

Definition wave_result : list TaskDispatchRecord * WaveDb :=
  match dispatchWave first_wave (after_stretches [SInitialize "run" two_tasks] (empty_waves ["run"])) with
  | inr result => result
  | inl _ => ([], empty_waves [])
  end.

Lemma dispatch_within_limits_witness : active_count cs_global "global" (snd wave_result) <= 2.
Proof.
  destruct (dispatch_within_limits ["run"] [SInitialize "run" two_tasks] first_wave (fst wave_result)
    (snd wave_result)) as [Hg _].
  - vm_compute. reflexivity.
  - etransitivity; [exact Hg|]. vm_compute. discriminate.
Defined.

Lemma dispatch_replayed_witness :
  dispatchWave first_wave (snd wave_result) = inr (fst wave_result, snd wave_result).
Proof.
  apply (dispatch_replayed ["run"] [SInitialize "run" two_tasks]).
  - vm_compute. reflexivity.
  - vm_compute. discriminate.
Defined.

(** The first thing the driver says of [a] is that it retries. *)
Lemma observation_refused_witness :
  exists e, applyDriverStatus "run" (row_after dispatched_a "a") (st_retrying 2)
    (after_stretches dispatched_a (empty_waves ["run"])) = inl e.
Proof.
  apply (observation_refused ["run"] dispatched_a "run" "a" (row_after dispatched_a "a") (st_retrying 2)).
  - vm_compute. reflexivity.
  - vm_compute. reflexivity.
  - vm_compute. reflexivity.
Defined.

Definition cancelled_a : list Stretch := dispatched_a ++ settled_a settled_cancelled.

Definition propagated : WaveDb :=
  match propagate "run" two_tasks (after_stretches cancelled_a (empty_waves ["run"])) with
  | Some (_, db) => db
  | None => empty_waves []
  end.

Definition replan_context : TaskGraphRevisionValidationContext :=
  mkContext first_revision (planningStates propagated "run" (Some ["a"; "b"]))
    (cx_hiddenDependencyFinding (hidden_context to_blocked)) 5 "decision-2" "2026-01-02T00:00:00Z".

Lemma replan_dead_end_witness :
  exists o, validateTaskGraphRevision replan_context hidden_proposal = Some o /\ oc_record o = None /\
    dn_accepted (oc_decision o) = false.
Proof.
  apply (replan_dead_end ["run"] cancelled_a "run" replan_context hidden_proposal hidden_trigger
    (small_node "b" 1 None ["a"]) "a" (row_after cancelled_a "a") (row_after cancelled_a "b") propagated).
  - apply (bool_decide_unpack _). vm_compute. exact I.
  - vm_compute. right. left.
  - left.
  - vm_compute. reflexivity.
  - vm_compute. reflexivity.
  - vm_compute. reflexivity.
  - vm_compute. reflexivity.
  - vm_compute. reflexivity.
  - reflexivity.
  - reflexivity.
  - left.
  - rewrite list_elem_of_In. vm_compute. intros [E|[]]. discriminate E.
Defined.
