(* ===== verification/IntegrationProps.v ===== *)
(** * Integration of tasks: the claims

    The ticks of the service are programs that ask their driver; they overlap with
    each other and with the scheduler.  The proofs are by rely and guarantee: a
    program is [safe] when every operation it runs keeps the invariant and moves
    the ledger forward ([ledger_later]), provided the others do so while it waits. *)

From Stdlib Require Import Sorted.
From stdpp Require Import gmap.
From S2P Require Import Prelude Ids StateJsonProps Recovery TaskDag TaskWave TaskProps SqlList Revise ReviseProps WaveStore WaveService WaveInv WaveProps WavePropagate Integration.

Local Open Scope Z_scope.

(** ** The scheduler leaves the gates alone *)

Definition gates_of (row : TaskLifecycleProjection) : Gates :=
  mkGates (lp_completionContract row) (lp_integration row) (lp_combinedVerification row).

Definition gates_at (run task : string) (db : WaveDb) : option Gates := gates_of <$> task_at run task db.

Definition no_gates : Gates := mkGates cg_pending ig_pending cg_pending.

(** New tasks have pending gates, the others keep theirs; dispatches are only added. *)
Record spared (db db' : WaveDb) : Prop := {
  sp_gates : forall run task, gates_at run task db' = gates_at run task db \/
    (gates_at run task db = None /\ gates_at run task db' = Some no_gates);
  sp_dispatches : exists added, dispatch_records db' = dispatch_records db ++ added }.

#[export] Instance spared_refl : Reflexive spared.
Proof. intros db. split; [by left|]. exists []. by rewrite app_nil_r. Qed.

#[export] Instance spared_trans : Transitive spared.
Proof.
  intros db1 db2 db3 [G1 [l1 D1]] [G2 [l2 D2]]. split.
  - intros run task. destruct (G1 run task) as [E1|[E1 E1']], (G2 run task) as [E2|[E2 E2']].
    + left. by rewrite E2.
    + right. by rewrite <-E1.
    + right. by rewrite E2.
    + congruence.
  - exists (l1 ++ l2). by rewrite D2, D1, app_assoc.
Qed.

Lemma spared_same db db' :
  lifecycles db' = lifecycles db -> dispatch_records db' = dispatch_records db -> spared db db'.
Proof.
  intros E D. split; [|exists []; by rewrite app_nil_r]. intros run task. left.
  unfold gates_at, task_at. by rewrite E.
Qed.

Section Spared.
Context `{IdGenerator} `{Clock} `{LocaleCompare}.

Definition spares {A} (m : WOp A) : Prop := forall db a db', m db = inr (a, db') -> spared db db'.

Lemma spares_ret {A} (a : A) : spares (ret a).
Proof. by intros db b db' [_ ->]%ret_run. Qed.

Lemma spares_throw {A} e : spares (A := A) (throw e).
Proof. done. Qed.

Lemma spares_get : spares get.
Proof. by intros db b db' [_ ->]%get_run. Qed.

Lemma spares_ensure b e : spares (ensure b e).
Proof. by intros db u db' [_ ->]%ensure_run. Qed.

Lemma spares_orThrow {A} e (o : option A) : spares (orThrow e o).
Proof. by intros db u db' [_ ->]%orThrow_run. Qed.

Lemma spares_bind {A B} (m : WOp A) (k : A -> WOp B) :
  spares m -> (forall a, spares (k a)) -> spares (bind m k).
Proof.
  intros Hm Hk db b db' (a & db1 & E1 & E2)%bind_run. etrans; [by eapply Hm|by eapply Hk].
Qed.

Lemma spares_modify f :
  (forall db, lifecycles (f db) = lifecycles db /\ dispatch_records (f db) = dispatch_records db) ->
  spares (modify f).
Proof. intros Hf db u db' ->%modify_run. by apply spared_same; apply Hf. Qed.

Lemma spares_forM {A} (f : A -> WOp unit) l : (forall x, spares (f x)) -> spares (forM l f).
Proof. intros Hf. induction l as [|x l IH]; cbn; [apply spares_ret|]. by apply spares_bind; [|intros _]. Qed.

Lemma spares_mapM {A B} (f : A -> WOp B) l : (forall x, spares (f x)) -> spares (mapM f l).
Proof.
  intros Hf. induction l as [|x l IH]; cbn; [apply spares_ret|]. apply spares_bind; [done|]. intros y.
  apply spares_bind; [done|]. intros ys. apply spares_ret.
Qed.

(** A statement that keeps the keys and the gates of the rows. *)
Lemma spares_update p f :
  (forall row, row_key (f row) = row_key row /\ gates_of (f row) = gates_of row) ->
  spares (updateLifecycles p f).
Proof.
  intros Hf db c db' (-> & _)%updateLifecycles_run. split; [|exists []; by rewrite app_nil_r].
  intros run task. left. unfold gates_at, task_at, select_one, update_where. cbn.
  induction (lifecycles db) as [|r rows IH]; [done|]. cbn.
  assert (task_row run task (if p r then f r else r) = task_row run task r) as ->.
  { destruct (p r); [|done]. destruct (Hf r) as [[= E1 E2] _]. unfold task_row. by rewrite E1, E2. }
  destruct (task_row run task r); [|done]. destruct (p r); [|done]. cbn. by rewrite (proj2 (Hf r)).
Qed.

Lemma spares_insertLifecycle run task revision now : spares (insertLifecycle (newLifecycle run task revision now)).
Proof.
  unfold insertLifecycle. repeat (apply spares_bind; [apply spares_get || apply spares_ensure|intros ?]).
  intros db u db' ->%modify_run. split; [|exists []; by rewrite app_nil_r]. intros run' task'.
  unfold gates_at, task_at. cbn. rewrite select_one_snoc.
  destruct (select_one _ _); [by left|]. destruct (task_row _ _ _); [by right|by left].
Qed.

Lemma spares_insertDispatch d : spares (insertDispatch d).
Proof.
  unfold insertDispatch. repeat (apply spares_bind; [apply spares_get || apply spares_ensure|intros ?]).
  intros db u db' ->%modify_run. split; [by left|]. by exists [d].
Qed.

Create HintDb spares.
#[local] Hint Resolve spares_ret spares_throw spares_get spares_ensure spares_orThrow spares_insertDispatch
  spares_insertLifecycle : spares.

(** Goes through the code of an operation. *)
Ltac spare :=
  repeat first
    [ progress (eauto with spares nocore)
    | lazymatch goal with |- spares (updateLifecycles _ _) => apply spares_update; intros ?; by split end
    | apply spares_bind; [|intros ?]
    | apply spares_forM; intros ?
    | apply spares_mapM; intros ?
    | apply spares_modify; intros ?; by split
    | progress cbv zeta
    | case_match ].

Lemma spares_now : spares nowIso.
Proof. unfold nowIso. spare. Qed.
#[local] Hint Resolve spares_now : spares.

Lemma spares_nextId prefix : spares (nextId prefix).
Proof. unfold nextId. spare. Qed.
#[local] Hint Resolve spares_nextId : spares.

Lemma spares_audit run task kind at_ : spares (audit run task kind at_).
Proof. unfold audit. spare. Qed.
#[local] Hint Resolve spares_audit : spares.

Lemma spares_readOne run task : spares (readOne run task).
Proof. unfold readOne. spare. Qed.
#[local] Hint Resolve spares_readOne : spares.

Lemma spares_updatePhase run task from phase extra :
  (forall row, row_key (extra row) = row_key row /\ gates_of (extra row) = gates_of row) ->
  spares (updatePhase run task from phase extra).
Proof.
  intros He. unfold updatePhase. apply spares_bind; [spare|]. intros now. apply spares_bind; [|intros changes; spare].
  apply spares_update. intros row. by destruct (He (setPhase phase now row)) as [-> ->].
Qed.

Lemma spares_moved run task from phase : spares (updatePhase run task from phase id).
Proof. by apply spares_updatePhase. Qed.

Lemma spares_retried run task from phase : spares (updatePhase run task from phase countRetry).
Proof. by apply spares_updatePhase. Qed.

Lemma spares_acquire d now resource : spares (acquire d now resource).
Proof.
  unfold acquire. destruct resource as [scope id]. apply spares_bind; [spare|]. intros leaseId.
  apply spares_bind; [spare|]. intros db0 db u db'. unfold orConflict. destruct (insertLease _ _) eqn:E; [done|].
  intros [= ->]. revert E. apply (fun H => H : spares _). unfold insertLease. spare.
Qed.
#[local] Hint Resolve spares_moved spares_retried spares_acquire : spares.

Lemma spares_dispatchOne limits now d : spares (dispatchOne limits now d).
Proof. unfold dispatchOne, dispatchNew, checkCapacity, counted. spare. Qed.
#[local] Hint Resolve spares_dispatchOne : spares.

Lemma spares_planAndDispatch input : spares (planAndDispatch input).
Proof. unfold planAndDispatch, makeDispatch, dispatchWave, storePlan, insertPlan. spare. Qed.

Lemma spares_block run task reason : spares (block run task reason).
Proof. unfold block. spare. Qed.

Lemma spares_applyDriverStatus run task o : spares (applyDriverStatus run task o).
Proof.
  unfold applyDriverStatus, markRecoveryRequired, markActive, markRetrying, requestCancellation, settle, release.
  spare.
Qed.

Lemma spares_cancelTask run task : spares (cancelTask run task).
Proof. unfold cancelTask, cancelPending, requestCancellation. spare. Qed.

Lemma spares_initialize run revision tasks : spares (initialize run revision tasks).
Proof. unfold initialize, initializeTask. spare. Qed.

Lemma propagatePass_spares run nodes states tasks changed db r db' :
  propagatePass run nodes states tasks changed db = Some (r, db') -> spared db db'.
Proof.
  revert changed db. induction tasks as [|t tasks IH]; intros changed db Hp; cbn [propagatePass] in Hp.
  { by injection Hp as <- <-. }
  destruct (bool_decide _); cbn [negb] in Hp; [|by eapply IH].
  destruct (propagationReason _ _ _ _ _) as [[reason|]|]; [| |done]; [|by eapply IH].
  destruct (block _ _ _ _) as [e|[row db1]] eqn:Eb; [by injection Hp as <- <-|].
  etrans; [by eapply spares_block|by eapply IH].
Qed.

Lemma propagateLoop_spares fuel run nodes db r db' :
  propagateLoop fuel run nodes db = Some (r, db') -> spared db db'.
Proof.
  revert db. induction fuel as [|fuel IH]; intros db Hp; [done|]. cbn [propagateLoop] in Hp.
  destruct (propagatePass _ _ _ _ _ _) as [[[e|[|]] db1]|] eqn:E; [| | |done];
    apply propagatePass_spares in E; try (by injection Hp as <- <-). etrans; [done|by eapply IH].
Qed.

(** Stretches of the scheduler itself. *)
Definition scheduling (s : Stretch) : bool := match s with SGates _ _ _ _ _ => false | _ => true end.

Lemma committed_spared {A} (m : WOp A) db : spares m -> spared db (committed m db).
Proof. intros Hm. unfold committed. destruct (m db) as [e|[a db']] eqn:E; [done|]. by eapply Hm. Qed.

Lemma stretch_spared s db : scheduling s = true -> spared db (run_stretch s db).
Proof.
  destruct s; intros Hs; try discriminate Hs; cbn [run_stretch]; try apply committed_spared.
  - apply spares_initialize.
  - apply spares_applyDriverStatus.
  - unfold markRecoveryRequired. spare.
  - destruct (propagate runId dag db) as [[r db']|] eqn:E; [|done]. by eapply propagateLoop_spares.
  - apply spares_planAndDispatch.
  - apply spares_cancelTask.
Qed.
End Spared.

(** ** The invariant *)

(** Where an entry may go. *)
Definition later (from to : IntegrationLifecycle) : bool :=
  match from with
  | il_queued => true
  | il_prepared => negb (bool_decide (to = il_queued))
  | il_verified => bool_decide (to ∈ [il_verified; il_integrated; il_reconciliation_required])
  | il_reconciliation_required => bool_decide (to ∈ [il_reconciliation_required; il_integrated])
  | il_integrated => bool_decide (to = il_integrated)
  | il_failed => bool_decide (to = il_failed)
  end.

Definition finished (l : IntegrationLifecycle) : Prop := l ∈ [il_integrated; il_failed].

(** The entry has reached the branches, or is on its way there. *)
Definition begun (l : IntegrationLifecycle) : Prop := l ∈ [il_prepared; il_verified; il_integrated].

Definition entry_key (e : LedgerEntry) : string * string := (en_runId e, en_taskId e).

Record entry_later (e e' : LedgerEntry) : Prop := {
  el_id : en_integrationId e' = en_integrationId e;
  el_key : entry_key e' = entry_key e;
  el_graph : en_graphRevision e' = en_graphRevision e;
  el_ordinal : en_integrationOrdinal e' = en_integrationOrdinal e;
  el_variant : en_variantId e' = en_variantId e;
  el_lifecycle : later (en_lifecycle e) (en_lifecycle e') = true }.

#[export] Instance entry_later_refl : Reflexive entry_later.
Proof. intros e. split; try done. by destruct (en_lifecycle e). Qed.

#[export] Instance entry_later_trans : Transitive entry_later.
Proof.
  intros e1 e2 e3 [? ? ? ? ? L1] [? ? ? ? ? L2]. split; try congruence.
  destruct (en_lifecycle e1), (en_lifecycle e2), (en_lifecycle e3); done.
Qed.

(** The ledger grows at its end, and its entries move on. *)
Definition ledger_later (l l' : list LedgerEntry) : Prop :=
  exists moved added, l' = moved ++ added /\ Forall2 entry_later l moved.

#[export] Instance ledger_later_refl : Reflexive ledger_later.
Proof. intros l. exists l, []. by rewrite app_nil_r. Qed.

#[export] Instance ledger_later_trans : Transitive ledger_later.
Proof.
  intros l1 l2 l3 (m1 & a1 & -> & F1) (m2 & a2 & -> & F2).
  apply Forall2_app_inv_l in F2 as (m & a & F & _ & ->). exists m, (a ++ a2).
  split; [by rewrite app_assoc|]. by etrans.
Qed.

(** What may happen to the database while a program waits. *)
Record onward (db db' : IntegrationDb) : Prop := {
  ow_tasks : task_steps (ig_waves db) (ig_waves db');
  ow_dispatches : exists added, dispatch_records (ig_waves db') = dispatch_records (ig_waves db) ++ added;
  ow_ledger : ledger_later (ig_ledger db) (ig_ledger db') }.

#[export] Instance onward_refl : Reflexive onward.
Proof. intros db. split; [done| |done]. exists []. by rewrite app_nil_r. Qed.

#[export] Instance onward_trans : Transitive onward.
Proof.
  intros db1 db2 db3 [T1 [a1 D1] L1] [T2 [a2 D2] L2]. split; [by etrans| |by etrans].
  exists (a1 ++ a2). by rewrite D2, D1, app_assoc.
Qed.

(** The verification an entry has had. *)
Definition verified_as (e : LedgerEntry) : Prop :=
  match en_lifecycle e with
  | il_queued | il_prepared => en_verification e = cg_pending
  | il_verified => en_verification e = cg_passed
  | il_failed => en_verification e <> cg_passed
  | il_integrated | il_reconciliation_required => en_verification e <> cg_failed
  end.

(** The gates of its task. *)
Definition expected_gates (e : LedgerEntry) : Gates :=
  match en_lifecycle e with
  | il_queued => no_gates
  | il_prepared | il_verified => mkGates cg_passed ig_pending cg_pending
  | il_integrated => passedGates
  | il_reconciliation_required => mkGates cg_passed ig_reconciliation_required (en_verification e)
  | il_failed =>
      match en_verification e with
      | cg_failed => mkGates cg_passed ig_pending cg_failed
      | _ => no_gates
      end
  end.

(** The phase of its task. *)
Definition expected_phase (e : LedgerEntry) (phase : TaskLifecyclePhase) : Prop :=
  match en_lifecycle e with
  | il_queued => True
  | il_failed =>
      match en_verification e with
      | cg_failed => phase = ph_succeeded
      | _ => phase ∈ [ph_failed; ph_cancelled; ph_blocked]
      end
  | _ => phase = ph_succeeded
  end.

(** It was verified, or a reconciliation integrated it. *)
Definition accounted (recs : list TaskIntegrationReconciliation) (e : LedgerEntry) : Prop :=
  en_lifecycle e = il_integrated ->
  en_verification e = cg_passed \/
  exists r, r ∈ recs /\ rg_integrationId r = en_integrationId e /\ rg_lifecycle r = rc_integrated.

Definition entry_of (d : TaskDispatchRecord) (e : LedgerEntry) : Prop :=
  entry_key e = (ds_runId d, ds_taskId d) /\ en_graphRevision e = ds_graphRevision d.

Record entry_ok (w : WaveDb) (recs : list TaskIntegrationReconciliation) (e : LedgerEntry) : Prop := {
  eo_verification : verified_as e;
  eo_task : exists row, task_at (en_runId e) (en_taskId e) w = Some row /\
    gates_of row = expected_gates e /\ expected_phase e (lp_phase row);
  eo_accounted : accounted recs e;
  eo_dispatch : exists d, d ∈ dispatch_records w /\ entry_of d e }.

Definition run_entries (run : string) (l : list LedgerEntry) : list LedgerEntry :=
  select_where (fun e => str_eqb (en_runId e) run) l.

(** The entry of a reconciliation. *)
Definition reconciles (l : list LedgerEntry) (r : TaskIntegrationReconciliation) : Prop :=
  rg_reconciliationId r = reconciliationIdOf (rg_integrationId r) /\
  exists e, e ∈ l /\ en_integrationId e = rg_integrationId r /\
    en_lifecycle e ∈ [il_reconciliation_required; il_integrated].

Section Service.
Context `{IdGenerator} `{Clock} `{LocaleCompare}.

Record integration_inv (db : IntegrationDb) : Prop := {
  ii_waves : wave_inv (ig_waves db);
  ii_ids : NoDup (map en_integrationId (ig_ledger db));
  ii_keys : NoDup (map entry_key (ig_ledger db));
  ii_ordinals : forall run, map en_integrationOrdinal (run_entries run (ig_ledger db)) =
    seqZ 1 (Z.of_nat (length (run_entries run (ig_ledger db))));
  ii_entries : forall e, e ∈ ig_ledger db -> entry_ok (ig_waves db) (ig_reconciliations db) e;
  ii_serial : forall e e', e ∈ ig_ledger db -> e' ∈ ig_ledger db -> en_runId e' = en_runId e ->
    en_integrationOrdinal e' < en_integrationOrdinal e -> begun (en_lifecycle e) ->
    finished (en_lifecycle e');
  ii_others : forall run task gates, gates_at run task (ig_waves db) = Some gates ->
    (run, task) ∉ map entry_key (ig_ledger db) -> gates = no_gates;
  ii_reconciliations : forall r, r ∈ ig_reconciliations db -> reconciles (ig_ledger db) r }.

Lemma integration_inv_empty runs : integration_inv (in_db (empty_integration runs)).
Proof.
  split; cbn; try done; try apply NoDup_nil_2; try apply wave_inv_empty;
    try (by intros ? ?%elem_of_nil); by intros ? ? ?%elem_of_nil.
Qed.

(** What the invariant is about. *)
Lemma inv_same db db' :
  ig_waves db' = ig_waves db -> ig_ledger db' = ig_ledger db ->
  ig_reconciliations db' = ig_reconciliations db -> integration_inv db ->
  integration_inv db' /\ onward db db'.
Proof.
  intros Ew El Er [I1 I2 I3 I4 I5 I6 I7 I8]. split.
  - split; rewrite ?Ew, ?El, ?Er; done.
  - split; rewrite ?Ew, ?El; [done| |done]. exists []. by rewrite app_nil_r.
Qed.

Lemma terminal_stays w w' run task row :
  task_steps w w' -> task_at run task w = Some row -> lp_phase row ∈ terminal_phases ->
  exists row', task_at run task w' = Some row' /\ lp_phase row' = lp_phase row.
Proof.
  intros Hs Hat Ht. destruct (Hs _ _ _ Hat) as (row' & Hat' & Hw). exists row'. split; [done|].
  by apply (row_writes_final _ _ Hw).
Qed.

Lemma expected_terminal e phase : en_lifecycle e <> il_queued -> expected_phase e phase -> phase ∈ terminal_phases.
Proof.
  unfold expected_phase, terminal_phases. intros Hq Hp.
  destruct (en_lifecycle e); try done; try (rewrite Hp; set_solver); destruct (en_verification e); set_solver.
Qed.

Lemma expected_phase_later w w' run task row e :
  task_steps w w' -> task_at run task w = Some row -> expected_phase e (lp_phase row) ->
  exists row', task_at run task w' = Some row' /\ expected_phase e (lp_phase row').
Proof.
  intros Hs Hat Hp. destruct (decide (en_lifecycle e = il_queued)) as [E|E].
  - destruct (Hs _ _ _ Hat) as (row' & Hat' & _). exists row'. split; [done|]. unfold expected_phase. by rewrite E.
  - destruct (terminal_stays _ _ _ _ _ Hs Hat (expected_terminal _ _ E Hp)) as (row' & Hat' & Eph).
    exists row'. by rewrite Eph.
Qed.

(** Steps of the scheduler keep the invariant. *)
Lemma inv_waves db w :
  integration_inv db -> wave_inv w -> task_steps (ig_waves db) w -> spared (ig_waves db) w ->
  integration_inv (with_waves w db) /\ onward db (with_waves w db).
Proof.
  intros [I1 I2 I3 I4 I5 I6 I7 I8] Hw Hs [Hg Hd]. split; [|by split]. split; try done.
  - intros e He. destruct (I5 e He) as [V (row & Hat & Eg & Ph) A (d & Hd' & Ed)]. split; try done.
    + destruct (expected_phase_later _ _ _ _ _ _ Hs Hat Ph) as (row' & Hat' & Ph'). exists row'. split_and!; try done.
      destruct (Hg (en_runId e) (en_taskId e)) as [E|[E _]]; unfold gates_at in E; rewrite Hat in E; [|done].
      change (ig_waves (with_waves w db)) with w in Hat'. rewrite Hat' in E. rewrite <-Eg.
      by apply (inj Some) in E.
    + exists d. split; [|done]. destruct Hd as [added E]. cbn. rewrite E. by apply elem_of_app; left.
  - intros run task gates Hat Hn. cbn in *. destruct (Hg run task) as [E|[_ E]]; rewrite E in Hat.
    + by apply (I7 run task).
    + by injection Hat as <-.
Qed.

(** ** Entries of a run *)

Lemma elem_of_run run l e : e ∈ run_entries run l <-> e ∈ l /\ en_runId e = run.
Proof. unfold run_entries. by rewrite elem_of_select, str_eqb_true. Qed.

(** Entries that keep their identities. *)
Lemma later_map {B} (f : LedgerEntry -> B) l l' :
  (forall e e', entry_later e e' -> f e' = f e) -> Forall2 entry_later l l' -> map f l' = map f l.
Proof. intros Hf. induction 1 as [|e e' l l' He _ IH]; cbn; [done|]. by rewrite IH, (Hf _ _ He). Qed.

Lemma later_run run l l' : Forall2 entry_later l l' -> Forall2 entry_later (run_entries run l) (run_entries run l').
Proof.
  unfold run_entries, select_where. induction 1 as [|e e' l l' He _ IH]; cbn; [constructor|].
  pose proof (el_key _ _ He) as [= -> _]. destruct (str_eqb _ _); [by constructor|done].
Qed.

Lemma ordinal_at run db i e :
  integration_inv db -> run_entries run (ig_ledger db) !! i = Some e -> en_integrationOrdinal e = 1 + Z.of_nat i.
Proof.
  intros Hi Hl. assert (map en_integrationOrdinal (run_entries run (ig_ledger db)) !! i = Some (en_integrationOrdinal e)) as E.
  { by rewrite list_lookup_fmap, Hl. }
  rewrite (ii_ordinals _ Hi), lookup_seqZ in E. by destruct E.
Qed.

Lemma same_ordinal db e e' :
  integration_inv db -> e ∈ ig_ledger db -> e' ∈ ig_ledger db -> en_runId e' = en_runId e ->
  en_integrationOrdinal e' = en_integrationOrdinal e -> e' = e.
Proof.
  intros Hi He He' Er Eo.
  assert (e ∈ run_entries (en_runId e) (ig_ledger db)) as [i Hl]%list_elem_of_lookup by by apply elem_of_run.
  assert (e' ∈ run_entries (en_runId e) (ig_ledger db)) as [j Hl']%list_elem_of_lookup by by apply elem_of_run.
  pose proof (ordinal_at _ _ _ _ Hi Hl). pose proof (ordinal_at _ _ _ _ Hi Hl').
  assert (i = j) as -> by lia. congruence.
Qed.

Lemma added_after db moved added e e' :
  integration_inv db -> ig_ledger db = moved ++ added -> e ∈ moved -> e' ∈ added -> en_runId e' = en_runId e ->
  en_integrationOrdinal e < en_integrationOrdinal e'.
Proof.
  intros Hi El He He' Er.
  assert (e ∈ run_entries (en_runId e) moved) as [i Hl]%list_elem_of_lookup by by apply elem_of_run.
  assert (e' ∈ run_entries (en_runId e) added) as [j Hl']%list_elem_of_lookup by by apply elem_of_run.
  pose proof (lookup_lt_Some _ _ _ Hl) as Hlt.
  assert (run_entries (en_runId e) (ig_ledger db) = run_entries (en_runId e) moved ++ run_entries (en_runId e) added) as Ea.
  { rewrite El. apply List.filter_app. }
  rewrite (ordinal_at (en_runId e) db i e), (ordinal_at (en_runId e) db (length (run_entries (en_runId e) moved) + j) e'); try done.
  - lia.
  - rewrite Ea, lookup_app_r by lia. by replace (_ + j - _)%nat with j by lia.
  - rewrite Ea. by apply lookup_app_l_Some.
Qed.

(** An entry the service has read: it may have moved on since. *)
Definition known (db : IntegrationDb) (e : LedgerEntry) : Prop :=
  verified_as e /\ exists e', e' ∈ ig_ledger db /\ entry_later e e'.

(** Those before it are done. *)
Definition lower_done (db : IntegrationDb) (e : LedgerEntry) : Prop :=
  forall e', e' ∈ ig_ledger db -> en_runId e' = en_runId e ->
    en_integrationOrdinal e' < en_integrationOrdinal e -> finished (en_lifecycle e').

Lemma known_elem db e : integration_inv db -> e ∈ ig_ledger db -> known db e.
Proof. intros Hi He. split; [by apply (ii_entries _ Hi)|]. by exists e. Qed.

Lemma later_elem l l' e : Forall2 entry_later l l' -> e ∈ l -> exists e', e' ∈ l' /\ entry_later e e'.
Proof.
  intros F [i Hl]%list_elem_of_lookup. destruct (Forall2_lookup_l _ _ _ _ _ F Hl) as (e' & Hl' & L).
  exists e'. split; [by eapply list_elem_of_lookup_2|done].
Qed.

Lemma earlier_elem l l' e' : Forall2 entry_later l l' -> e' ∈ l' -> exists e, e ∈ l /\ entry_later e e'.
Proof.
  intros F [i Hl]%list_elem_of_lookup. destruct (Forall2_lookup_r _ _ _ _ _ F Hl) as (e & Hl' & L).
  exists e. split; [by eapply list_elem_of_lookup_2|done].
Qed.

Lemma ledger_elem l l' e : ledger_later l l' -> e ∈ l -> exists e', e' ∈ l' /\ entry_later e e'.
Proof.
  intros (moved & added & -> & F) He. destruct (later_elem _ _ _ F He) as (e' & He' & L).
  exists e'. split; [|done]. by apply elem_of_app; left.
Qed.

Lemma known_later db db' e : known db e -> onward db db' -> known db' e.
Proof.
  intros [V (e' & He' & L)] [_ _ Hl]. split; [done|]. destruct (ledger_elem _ _ _ Hl He') as (e2 & He2 & L2).
  exists e2. split; [done|]. by etrans.
Qed.

Lemma finished_later e e' : entry_later e e' -> finished (en_lifecycle e) -> finished (en_lifecycle e').
Proof.
  intros [_ _ _ _ _ L]. unfold finished. destruct (en_lifecycle e), (en_lifecycle e'); try done; set_solver.
Qed.

Lemma lower_later db db' e :
  integration_inv db' -> known db e -> lower_done db e -> onward db db' -> lower_done db' e.
Proof.
  intros Hi' [_ (e0 & He0 & L0)] Hd [_ _ (moved & added & El & F)] e' He' Er Ho.
  rewrite El in He'. apply elem_of_app in He' as [He'|He'].
  - destruct (earlier_elem _ _ _ F He') as (e1 & He1 & L1). eapply finished_later; [exact L1|].
    pose proof (el_key _ _ L1) as [= E1 _]. pose proof (el_ordinal _ _ L1).
    apply Hd; [done|congruence|lia].
  - destruct (later_elem _ _ _ F He0) as (e1 & He1 & L1).
    pose proof (el_key _ _ L0) as [= E0 _]. pose proof (el_key _ _ L1) as [= E1 _].
    pose proof (el_ordinal _ _ L0). pose proof (el_ordinal _ _ L1).
    enough (en_integrationOrdinal e1 < en_integrationOrdinal e') by lia.
    apply (added_after db' moved added); congruence.
Qed.

(** ** Writes of the ledger *)

Lemma entry_is_true id e : entry_is id e = true <-> en_integrationId e = id.
Proof. apply str_eqb_true. Qed.

Lemma readEntry_Some db id e : readEntry db id = Some e -> e ∈ ig_ledger db /\ en_integrationId e = id.
Proof. intros [He Ee]%select_one_Some. by rewrite entry_is_true in Ee. Qed.

Lemma same_id db e e' :
  integration_inv db -> e ∈ ig_ledger db -> e' ∈ ig_ledger db ->
  en_integrationId e' = en_integrationId e -> e' = e.
Proof. intros Hi He He' E. by apply (NoDup_map_inj en_integrationId (ig_ledger db)); [apply Hi|..]. Qed.

(** The ledger with one entry replaced. *)
Definition replaced (e e' : LedgerEntry) (l : list LedgerEntry) : list LedgerEntry :=
  update_where (entry_is (en_integrationId e)) (fun _ => e') l.

Lemma elem_of_replaced db e e' x :
  integration_inv db -> e ∈ ig_ledger db -> x ∈ replaced e e' (ig_ledger db) ->
  x = e' \/ (x ∈ ig_ledger db /\ en_integrationId x <> en_integrationId e).
Proof.
  intros Hi He [[Hx Hn]|(x0 & _ & _ & ->)]%update_elem_1; [right|by left]. split; [done|].
  intros E. by rewrite (proj2 (entry_is_true _ _) E) in Hn.
Qed.

Lemma replaced_later db e e' :
  integration_inv db -> e ∈ ig_ledger db -> entry_later e e' ->
  Forall2 entry_later (ig_ledger db) (replaced e e' (ig_ledger db)).
Proof.
  intros Hi He L. apply Forall2_fmap_r, Forall_Forall2_diag, Forall_forall. intros x Hx.
  cbn. destruct (entry_is (en_integrationId e) x) eqn:E; [|reflexivity]. apply entry_is_true in E.
  by rewrite (same_id _ _ _ Hi He Hx E).
Qed.

Lemma entry_ok_recs w recs recs' e :
  (forall r, r ∈ recs -> rg_lifecycle r = rc_integrated -> r ∈ recs') ->
  entry_ok w recs e -> entry_ok w recs' e.
Proof.
  intros Hr [V T A D]. split; try done. intros Hl. destruct (A Hl) as [?|(r & Hin & Er & El)]; [by left|].
  right. exists r. auto.
Qed.

(** An entry moves on, with the gates of its task. *)
Lemma inv_move e e' db db' :
  integration_inv db -> e ∈ ig_ledger db -> entry_later e e' ->
  ig_ledger db' = replaced e e' (ig_ledger db) ->
  wave_inv (ig_waves db') -> task_steps (ig_waves db) (ig_waves db') ->
  dispatch_records (ig_waves db') = dispatch_records (ig_waves db) ->
  (forall run task, (run, task) <> entry_key e -> gates_at run task (ig_waves db') = gates_at run task (ig_waves db)) ->
  entry_ok (ig_waves db') (ig_reconciliations db') e' ->
  (begun (en_lifecycle e') -> lower_done db e) -> ~ finished (en_lifecycle e) ->
  (forall r, r ∈ ig_reconciliations db' -> exists r0, r0 ∈ ig_reconciliations db /\
     rg_reconciliationId r = rg_reconciliationId r0 /\ rg_integrationId r = rg_integrationId r0) ->
  (forall r, r ∈ ig_reconciliations db -> rg_lifecycle r = rc_integrated -> r ∈ ig_reconciliations db') ->
  integration_inv db' /\ onward db db'.
Proof.
  intros Hi He L El Hw Hs Hd Hg Hok Hlow Hnf Hr Hr'. pose proof (replaced_later _ _ _ Hi He L) as F.
  rewrite <-El in F. assert (forall x, x ∈ ig_ledger db' -> x = e' \/
    (x ∈ ig_ledger db /\ en_integrationId x <> en_integrationId e)) as Hel.
  { intros x. rewrite El. by apply elem_of_replaced. }
  split; [|split; [done| |]].
  2:{ exists []. by rewrite app_nil_r. }
  2:{ exists (ig_ledger db'), []. by rewrite app_nil_r. }
  split; try done.
  - rewrite (later_map en_integrationId _ _ (fun _ _ => el_id _ _) F). apply Hi.
  - rewrite (later_map entry_key _ _ (fun _ _ => el_key _ _) F). apply Hi.
  - intros run. pose proof (later_run run _ _ F) as Fr.
    rewrite (later_map en_integrationOrdinal _ _ (fun _ _ => el_ordinal _ _) Fr), <-(Forall2_length _ _ _ Fr). apply Hi.
  - intros x [->|[Hx Hn]]%Hel; [done|]. apply (entry_ok_recs _ (ig_reconciliations db)); [done|].
    destruct (ii_entries _ Hi x Hx) as [V (row & Hat & Eg & Ph) A D].
    split; [done| |done|by rewrite Hd].
    destruct (expected_phase_later _ _ _ _ _ _ Hs Hat Ph) as (row' & Hat' & Ph'). exists row'. split_and!; try done.
    assert ((en_runId x, en_taskId x) <> entry_key e) as Hk.
    { intros Ek. apply Hn. f_equal. by apply (NoDup_map_inj entry_key (ig_ledger db)); [apply Hi|..]. }
    specialize (Hg _ _ Hk). unfold gates_at in Hg. rewrite Hat, Hat' in Hg. rewrite <-Eg. by apply (inj Some) in Hg.
  - intros x y Hx Hy Er Ho Hb. apply Hel in Hx as [->|[Hx Hn]], Hy as [->|[Hy Hm]].
    + lia.
    + pose proof (el_key _ _ L) as [= Ek _]. pose proof (el_ordinal _ _ L). apply (Hlow Hb); [done|congruence|lia].
    + destruct Hnf. pose proof (el_key _ _ L) as [= Ek _]. pose proof (el_ordinal _ _ L).
      apply (ii_serial _ Hi x e Hx He); [congruence|lia|done].
    + by apply (ii_serial _ Hi x y).
  - intros run task gates Hat. rewrite (later_map entry_key _ _ (fun _ _ => el_key _ _) F). intros Hn.
    apply (ii_others _ Hi run task); [|done]. rewrite <-Hat. symmetry. apply Hg. intros Ek. apply Hn.
    rewrite Ek. by apply list_elem_of_fmap_2.
  - intros r Hin. destruct (Hr r Hin) as (r0 & Hin0 & E1 & E2).
    destruct (ii_reconciliations _ Hi r0 Hin0) as [Eid (x & Hx & Ex & Lx)]. split; [congruence|].
    destruct (later_elem _ _ _ F Hx) as (x' & Hx' & L'). exists x'. split_and!; [done|by rewrite (el_id _ _ L'), Ex, E2|].
    pose proof (el_lifecycle _ _ L') as Hl. destruct (en_lifecycle x); try (exfalso; clear -Lx; set_solver);
      destruct (en_lifecycle x'); try done; set_solver.
Qed.

(** A new entry at the end. *)
Lemma inv_added e db db' :
  integration_inv db -> ig_ledger db' = ig_ledger db ++ [e] -> ig_reconciliations db' = ig_reconciliations db ->
  wave_inv (ig_waves db') -> lifecycles (ig_waves db') = lifecycles (ig_waves db) ->
  dispatch_records (ig_waves db') = dispatch_records (ig_waves db) ->
  (forall x, x ∈ ig_ledger db -> en_integrationId x <> en_integrationId e) ->
  (forall x, x ∈ ig_ledger db -> entry_key x <> entry_key e) ->
  en_integrationOrdinal e = Z.of_nat (length (run_entries (en_runId e) (ig_ledger db))) + 1 ->
  en_lifecycle e = il_queued -> en_verification e = cg_pending ->
  is_Some (task_at (en_runId e) (en_taskId e) (ig_waves db)) ->
  (exists d, d ∈ dispatch_records (ig_waves db) /\ entry_of d e) ->
  integration_inv db' /\ onward db db'.
Proof.
  intros Hi El Er Hw Ec Ed Hid Hkey Ho Hl Hv [row Hat] Hd.
  assert (forall run task, task_at run task (ig_waves db') = task_at run task (ig_waves db)) as Hta
    by (intros; unfold task_at; by rewrite Ec).
  split; [|split].
  2:{ by apply steps_same. }
  2:{ exists []. by rewrite app_nil_r. }
  2:{ rewrite El. by exists (ig_ledger db), [e]. }
  split; rewrite ?El, ?Er; try done.
  - apply snoc_NoDup; [apply Hi|done].
  - apply snoc_NoDup; [apply Hi|done].
  - intros run. unfold run_entries, select_where. rewrite List.filter_app. cbn.
    fold (select_where (fun x => str_eqb (en_runId x) run) (ig_ledger db)). fold (run_entries run (ig_ledger db)).
    destruct (str_eqb (en_runId e) run) eqn:E; [|rewrite app_nil_r; apply Hi].
    apply str_eqb_true in E. subst run. rewrite map_app, (ii_ordinals _ Hi), length_app. cbn.
    rewrite Nat2Z.inj_add. replace (Z.of_nat 1) with 1 by done. rewrite seqZ_app by lia. f_equal. cbn.
    by rewrite Ho, Z.add_comm.
  - intros x [Hx| ->]%elem_of_snoc.
    + destruct (ii_entries _ Hi x Hx) as [V T A D]. split; [done| |done|by rewrite Ed]. by rewrite Hta.
    + split.
      * unfold verified_as. by rewrite Hl.
      * exists row. rewrite Hta. split; [done|]. unfold expected_gates, expected_phase. rewrite Hl. split; [|done].
        apply (ii_others _ Hi (en_runId e) (en_taskId e)); [unfold gates_at; by rewrite Hat|].
        intros (x & Ex & Hx)%list_elem_of_fmap. by apply (Hkey x).
      * intros E. congruence.
      * by rewrite Ed.
  - intros x y [Hx| ->]%elem_of_snoc [Hy| ->]%elem_of_snoc Eru Hlt Hb.
    + by apply (ii_serial _ Hi x y).
    + assert (x ∈ run_entries (en_runId e) (ig_ledger db)) as [i Hlk]%list_elem_of_lookup by by apply elem_of_run.
      pose proof (ordinal_at _ _ _ _ Hi Hlk). pose proof (lookup_lt_Some _ _ _ Hlk). lia.
    + unfold begun in Hb. rewrite Hl in Hb. set_solver.
    + lia.
  - intros run task gates Hg Hn. apply (ii_others _ Hi run task).
    + rewrite <-Hg. unfold gates_at. by rewrite Hta.
    + intros Hin. apply Hn. rewrite map_app. apply elem_of_app. by left.
  - intros r Hin. destruct (ii_reconciliations _ Hi r Hin) as [Eid (x & Hx & Ex)]. split; [done|].
    exists x. split; [|done]. apply elem_of_app. by left.
Qed.

(** ** Runs of the operations *)

(** Operations that write neither entries nor reconciliations nor tasks. *)
Record still_step (db db' : IntegrationDb) : Prop := {
  ss_ledger : ig_ledger db' = ig_ledger db;
  ss_reconciliations : ig_reconciliations db' = ig_reconciliations db;
  ss_lifecycles : lifecycles (ig_waves db') = lifecycles (ig_waves db);
  ss_dispatches : dispatch_records (ig_waves db') = dispatch_records (ig_waves db);
  ss_waves : wave_inv (ig_waves db) -> wave_inv (ig_waves db') }.

#[local] Instance still_refl : Reflexive still_step.
Proof. by split. Qed.

#[local] Instance still_trans : Transitive still_step.
Proof. intros db1 db2 db3 [] []. split; try congruence. auto. Qed.

Definition still {A} (m : IOp A) : Prop := forall db a db', m db = inr (a, db') -> still_step db db'.

Lemma still_inv db db' : still_step db db' -> integration_inv db -> integration_inv db' /\ onward db db'.
Proof.
  intros [El Er Ec Ed Hw] Hi. specialize (Hw (ii_waves _ Hi)).
  destruct (inv_waves db (ig_waves db') Hi Hw) as [Hi1 O1]; [by apply steps_same|by apply spared_same|].
  destruct (inv_same (with_waves (ig_waves db') db) db') as [Hi2 O2]; try done. split; [done|]. by etrans.
Qed.

Lemma still_ret {A} (a : A) : still (ret a).
Proof. by intros db b db' [_ ->]%ret_run. Qed.
Lemma still_throw {A} e : still (A := A) (throw e).
Proof. done. Qed.
Lemma still_get : still get.
Proof. by intros db b db' [_ ->]%get_run. Qed.
Lemma still_ensure b e : still (ensure b e).
Proof. by intros db u db' [_ ->]%ensure_run. Qed.
Lemma still_orThrow {A} e (o : option A) : still (orThrow e o).
Proof. by intros db u db' [_ ->]%orThrow_run. Qed.

Lemma still_bind {A B} (m : IOp A) (k : A -> IOp B) : still m -> (forall a, still (k a)) -> still (bind m k).
Proof. intros Hm Hk db b db' (a & db1 & E1 & E2)%bind_run. etrans; [by eapply Hm|by eapply Hk]. Qed.

Lemma still_forM {A} (f : A -> IOp unit) l : (forall x, still (f x)) -> still (forM l f).
Proof. intros Hf. induction l as [|x l IH]; cbn; [apply still_ret|]. by apply still_bind; [|intros _]. Qed.

Lemma still_modify f : (forall db, still_step db (f db)) -> still (modify f).
Proof. intros Hf db u db' ->%modify_run. apply Hf. Qed.

Lemma still_now : still iNow.
Proof.
  intros db a db'. unfold iNow, onWaves. destruct (nowIso _) as [|[t w]] eqn:E; [done|]. intros [= <- <-].
  pose proof E as E'. apply nowIso_run in E as ->. split; try done. by apply (inv_now _ _ _ E').
Qed.

#[local] Hint Resolve still_ret still_throw still_get still_ensure still_orThrow still_now : spares.

Ltac stay :=
  repeat first
    [ progress (eauto with spares nocore)
    | apply still_bind; [|intros ?]
    | apply still_forM; intros ?
    | apply still_modify; intros ?; by split
    | progress cbv zeta
    | case_match ].

Lemma still_initializeBranch input : still (initializeBranch input).
Proof. unfold initializeBranch, insertBranch, updateBranches. stay. Qed.

Lemma still_advanceBranch run now r : still (advanceBranch run now r).
Proof. unfold advanceBranch, updateBranches. stay. Qed.

Lemma still_resolveBranch run now r : still (resolveBranch run now r).
Proof. unfold resolveBranch, updateBranches. stay. Qed.

Lemma still_appendTrace t : still (appendTrace t).
Proof. unfold appendTrace, insertTrace. stay. Qed.

Lemma still_appendObservation o : still (appendReconciliationObservation o).
Proof. unfold appendReconciliationObservation, insertObservation. stay. Qed.
#[local] Hint Resolve still_initializeBranch still_advanceBranch still_resolveBranch still_appendTrace
  still_appendObservation : spares.

(** The gates of a succeeded task are written, and nothing else. *)
Record gates_written (run task : string) (g : Gates) (w w' : WaveDb) : Prop := {
  gw_row : exists row, task_at run task w' = Some row /\ lp_phase row = ph_succeeded /\ gates_of row = g;
  gw_others : forall run' task', (run', task') <> (run, task) -> task_at run' task' w' = task_at run' task' w;
  gw_dispatches : dispatch_records w' = dispatch_records w;
  gw_steps : task_steps w w';
  gw_inv : wave_inv w' }.

Lemma writeGates_written now run task g w u w' :
  wave_inv w ->
  writeGatesAt now run task (gt_completionContract g) (gt_integration g) (gt_combinedVerification g) w = inr (u, w') ->
  gates_written run task g w w'.
Proof.
  intros Hi Hr. destruct (keeps_writeGatesAt _ _ _ _ _ _ _ _ _ Hr Hi) as [Hi' Hs]. unfold writeGatesAt in Hr.
  run_inv Hr. match goal with E : updateLifecycles _ _ _ = _ |- _ => rename E into Hup end.
  destruct (updateTask_run run task _ _ _ _ _ (task_from_updates run task [ph_succeeded] (setGates _ _ _ now)
    (fun _ => eq_refl)) (wi_keys _ Hi) Hup) as (-> & Hrow & Hother).
  destruct Hrow as [(-> & _)|(_ & row & Hat & [_ Hph]%task_from_true & Hat' & _)]; [done|].
  apply list_elem_of_singleton in Hph. split; try done. eexists. split; [exact Hat'|]. by destruct g.
Qed.

Lemma updateEntry_run existing next db u db' :
  integration_inv db -> existing ∈ ig_ledger db -> en_integrationId next = en_integrationId existing ->
  updateEntry existing next db = inr (u, db') ->
  db' = with_ledger (replaced existing next) db /\ ~ finished (en_lifecycle existing).
Proof.
  intros Hi He Eid Hr. unfold updateEntry in Hr. run_inv Hr.
  match goal with E : forallb _ _ = true |- _ => rewrite forallb_elem in E; rename E into Hall end.
  match goal with E : existing ∈ ig_ledger ?d |- _ => set (db0 := d) in * end.
  assert (forall e, e ∈ ig_ledger db0 -> entry_is (en_integrationId next) e && (en_revision e =? en_revision existing) =
    entry_is (en_integrationId existing) e) as Hhit.
  { intros e Hin. rewrite Eid. destruct (entry_is _ e) eqn:E; [|done]. apply entry_is_true in E.
    rewrite (same_id _ _ _ Hi He Hin E). by rewrite Z.eqb_refl. }
  split.
  - unfold with_ledger. f_equal. apply map_ext_in. intros e Hin%list_elem_of_In. cbv beta. by rewrite Hhit.
  - assert (existing ∈ select_where (fun e => entry_is (en_integrationId next) e && (en_revision e =? en_revision existing))
      (ig_ledger db0)) as Hsel.
    { apply elem_of_select. split; [done|]. rewrite Hhit by done. by apply entry_is_true. }
    specialize (Hall _ Hsel). cbv beta in Hall. by apply negb_true_iff, bool_decide_eq_false in Hall.
Qed.

(** What a transition writes beside the entry. *)
Definition tasks_written (e : LedgerEntry) (gates : option Gates) (w w' : WaveDb) : Prop :=
  match gates with
  | None => lifecycles w' = lifecycles w /\ dispatch_records w' = dispatch_records w /\ wave_inv w'
  | Some g => gates_written (en_runId e) (en_taskId e) g w w'
  end.

Lemma tasks_written_after e gates w1 w w' :
  lifecycles w = lifecycles w1 -> dispatch_records w = dispatch_records w1 ->
  tasks_written e gates w w' -> tasks_written e gates w1 w'.
Proof.
  intros El Ed. destruct gates as [g|]; cbn.
  - intros [R O D S I]. assert (forall run task, task_at run task w = task_at run task w1) as Hat
      by (intros; unfold task_at; by rewrite El).
    split; try done; [|congruence|].
    + intros run task Hn. by rewrite O, Hat.
    + intros run task row E. apply S. by rewrite Hat.
  - intros (-> & -> & ?). done.
Qed.

Lemma transition_run input db r db' :
  integration_inv db -> transition input db = inr (r, db') ->
  exists e, e ∈ ig_ledger db /\ en_integrationId e = tn_integrationId input /\
  ((r = e /\ db' = db /\ en_lifecycle e = tn_lifecycle input) \/
   (en_lifecycle e = tn_expectedLifecycle input /\ ~ finished (en_lifecycle e) /\
    ig_ledger db' = replaced e r (ig_ledger db) /\ ig_reconciliations db' = ig_reconciliations db /\
    (exists now, r = transitioned input now e) /\
    tasks_written e (tn_gates input) (ig_waves db) (ig_waves db'))).
Proof.
  intros Hi Hr. unfold transition in Hr. run_inv Hr.
  match goal with E : readEntry _ _ = Some ?x |- _ => apply readEntry_Some in E as [He Eid]; rename x into e end.
  exists e. split; [done|]. split; [done|].
  destruct (bool_decide_reflect (en_lifecycle e = tn_expectedLifecycle input)) as [Ex|_]; cbn [negb] in Hr.
  2:{ destruct (bool_decide_reflect (en_lifecycle e = tn_lifecycle input)); [|discriminate Hr]. run_inv Hr. by left. }
  right. apply bind_run in Hr as (now & s & Enow & (u1 & s1 & Eup & (u2 & s0 & Ebr &
    (u3 & s2 & Eg & [-> ->]%ret_run)%bind_run)%bind_run)%bind_run).
  apply still_now in Enow. destruct (still_inv _ _ Enow Hi) as [Hi1 _].
  assert (e ∈ ig_ledger s) as He1 by by rewrite (ss_ledger _ _ Enow).
  eapply (updateEntry_run e) in Eup as [-> Hnf]; [|done..].
  assert (still_step (with_ledger (replaced e (transitioned input now e)) s) s0) as Hbr.
  { revert Ebr. apply (fun H => H : still _). stay. }
  destruct Hbr as [Bl Br Bc Bd Bw], Enow as [Nl Nr Nc Nd Nw]. cbn in *.
  assert (wave_inv (ig_waves s0)) as Hw0 by (apply Bw, Nw, Hi).
  unfold writeEntryGates in Eg. split; [done|]. split; [done|].
  assert (ig_ledger s2 = ig_ledger s0 /\ ig_reconciliations s2 = ig_reconciliations s0 /\
    tasks_written e (tn_gates input) (ig_waves s0) (ig_waves s2)) as (-> & -> & Ht).
  { destruct (tn_gates input) as [g|]; [|run_inv Eg; done]. unfold onWaves in Eg.
    destruct (writeGatesAt _ _ _ _ _ _ _) as [|[v w]] eqn:E; [done|]. injection Eg as _ <-.
    split_and!; try done. by eapply writeGates_written. }
  split_and!; [by rewrite Bl, Nl|congruence|by exists now|]. eapply tasks_written_after; [| |exact Ht]; congruence.
Qed.

Definition dropped_phases : list TaskLifecyclePhase := [ph_failed; ph_cancelled; ph_blocked].

(** The transitions the service asks for: the lifecycles, the verification and the
    gates. *)
Inductive legal (w : WaveDb) (x : LedgerEntry) :
    IntegrationLifecycle -> IntegrationLifecycle -> option CompletionGate -> option Gates -> Prop :=
  | lg_prepare : legal w x il_queued il_prepared None (Some (mkGates cg_passed ig_pending cg_pending))
  | lg_verify : legal w x il_prepared il_verified (Some cg_passed) None
  | lg_reject : legal w x il_prepared il_failed (Some cg_failed) (Some (mkGates cg_passed ig_pending cg_failed))
  | lg_integrate : legal w x il_verified il_integrated None (Some passedGates)
  | lg_reconcile l v : (l, v) ∈ [(il_queued, cg_pending); (il_prepared, cg_pending); (il_verified, cg_passed)] ->
      legal w x l il_reconciliation_required None (Some (mkGates cg_passed ig_reconciliation_required v))
  | lg_abandon l row : task_at (en_runId x) (en_taskId x) w = Some row -> lp_phase row ∈ dropped_phases ->
      legal w x l il_failed None None.

Lemma known_same db x e :
  integration_inv db -> known db x -> e ∈ ig_ledger db -> en_integrationId e = en_integrationId x -> entry_later x e.
Proof.
  intros Hi [_ (e' & He' & L)] He Eid. replace e with e'; [done|]. apply (same_id db); [done..|].
  by rewrite (el_id _ _ L).
Qed.

Lemma lower_same db x e : entry_later x e -> lower_done db x -> lower_done db e.
Proof.
  intros [_ [= Er _] _ Eo _ _] Hl e' He' Er' Ho. apply Hl; [done|congruence|lia].
Qed.

Lemma legal_ok w x l l' v g e e' w' recs :
  entry_ok w recs e -> legal w x l l' v g -> entry_later x e -> en_lifecycle e = l -> ~ finished l ->
  en_integrationId e' = en_integrationId e -> entry_key e' = entry_key e ->
  en_lifecycle e' = l' -> en_verification e' = default (en_verification e) v ->
  tasks_written e g w w' -> dispatch_records w' = dispatch_records w -> en_graphRevision e' = en_graphRevision e ->
  later l l' = true /\ entry_ok w' recs e'.
Proof.
  intros [V (row & Hat & Eg & Ph) A D] Hlegal Hxe El Hnf Eid [= Er Et] El' Ev Hw Hd Egr.
  assert (exists d, d ∈ dispatch_records w' /\ entry_of d e') as D'.
  { destruct D as (d & Hin & [Ek Egd]). exists d. rewrite Hd. split; [done|]. split; [|congruence].
    unfold entry_key in *. congruence. }
  assert (exists row', task_at (en_runId e') (en_taskId e') w' = Some row' /\
    match g with Some g => gates_of row' = g /\ lp_phase row' = ph_succeeded | None => row' = row end) as (row' & Hat' & Hrow).
  { rewrite Er, Et. destruct g as [g|]; cbn in Hw.
    - destruct Hw as [(row' & ? & ? & ?) _ _ _ _]. by exists row'.
    - exists row. split; [|done]. unfold task_at. by rewrite (proj1 Hw). }
  clear Hw. destruct (Hxe) as [_ [= Exr Ext] _ _ _ _]. unfold verified_as, expected_gates, expected_phase in *. rewrite El in *.
  enough (later l l' = true /\ verified_as e' /\ gates_of row' = expected_gates e' /\
    expected_phase e' (lp_phase row') /\ accounted recs e') as (? & ? & ? & ? & ?).
  { split; [done|]. split; try done. by exists row'. }
  unfold verified_as, expected_gates, expected_phase, accounted. rewrite El', Ev.
  destruct Hlegal as [| | | |l v Hin|l row0 Hat0 Hdrop]; cbn in Hrow |- *.
  - destruct Hrow as [-> ->]. by split_and!.
  - subst row'. by split_and!.
  - destruct Hrow as [-> ->]. by split_and!.
  - destruct Hrow as [-> ->]. rewrite V. split_and!; try done. by left.
  - destruct Hrow as [-> ->]. assert (v = en_verification e /\ v <> cg_failed /\ later l il_reconciliation_required = true)
      as (-> & ? & ?); [|by split_and!].
    repeat (apply elem_of_cons in Hin as [[= -> ->]|Hin]; [by rewrite V|]). by apply elem_of_nil in Hin.
  - subst row'. assert (lp_phase row ∈ dropped_phases) as Hdr.
    { assert (row0 = row) as -> by congruence. done. }
    assert (l = il_queued) as ->.
    { destruct l; try done; try (exfalso; rewrite Ph in Hdr; clear -Hdr; set_solver). destruct Hnf. set_solver. }
    rewrite V. by split_and!.
Qed.

Lemma transition_known x input db r db' :
  integration_inv db -> known db x -> tn_integrationId input = en_integrationId x ->
  transition input db = inr (r, db') ->
  legal (ig_waves db) x (tn_expectedLifecycle input) (tn_lifecycle input) (tn_verification input) (tn_gates input) ->
  (begun (tn_lifecycle input) -> lower_done db x) ->
  integration_inv db' /\ onward db db' /\ r ∈ ig_ledger db' /\ entry_later x r /\
  en_lifecycle r = tn_lifecycle input.
Proof.
  intros Hi Hk Eid Hr Hlegal Hlow.
  destruct (transition_run _ _ _ _ Hi Hr) as (e & He & Ee & [(-> & -> & El)|(El & Hnf & Hl & Hrec & [now Er] & Ht)]).
  { split_and!; try done. apply (known_same db); [done..|]. congruence. }
  assert (entry_later x e) as L by (apply (known_same db); [done..|congruence]).
  assert (dispatch_records (ig_waves db') = dispatch_records (ig_waves db) /\ wave_inv (ig_waves db') /\
    task_steps (ig_waves db) (ig_waves db') /\ forall run task, (run, task) <> entry_key e ->
      gates_at run task (ig_waves db') = gates_at run task (ig_waves db)) as (Hd & Hw & Hs & Hg).
  { destruct (tn_gates input) as [g|]; cbn in Ht.
    - destruct Ht as [? Ho ? ? ?]. split_and!; try done. intros run task Hn. unfold gates_at. by rewrite Ho.
    - destruct Ht as (Ec & ? & ?). split_and!; try done; [by apply steps_same|].
      intros run task _. unfold gates_at, task_at. by rewrite Ec. }
  rewrite <-El in Hlegal.
  destruct (legal_ok _ _ _ _ _ _ e r (ig_waves db') _ (ii_entries _ Hi e He) Hlegal L eq_refl) as [Hlt Hok];
    try (by subst r); try done.
  assert (entry_later e r) as L' by (subst r; by split).
  destruct (inv_move e r db db') as [Hi' O]; try done.
  - by rewrite Hrec.
  - intros Hb. apply (lower_same _ x); [done|]. apply Hlow. by subst r.
  - intros r0 Hin. exists r0. by rewrite <-Hrec.
  - intros r0 Hin _. by rewrite Hrec.
  - split_and!; try done; [|by etrans|by subst r]. rewrite Hl. apply (update_elem_hit _ (fun _ => r) _ e He).
    by apply entry_is_true.
Qed.

(** *** Reconciliations *)

Lemma inv_recs db db' :
  integration_inv db -> wave_inv (ig_waves db') -> lifecycles (ig_waves db') = lifecycles (ig_waves db) ->
  dispatch_records (ig_waves db') = dispatch_records (ig_waves db) -> ig_ledger db' = ig_ledger db ->
  (forall r, r ∈ ig_reconciliations db' -> reconciles (ig_ledger db) r) ->
  (forall r, r ∈ ig_reconciliations db -> rg_lifecycle r = rc_integrated -> r ∈ ig_reconciliations db') ->
  integration_inv db' /\ onward db db'.
Proof.
  intros Hi Hw Ec Ed El Hr Hk.
  destruct (inv_waves db (ig_waves db') Hi Hw) as [[I1 I2 I3 I4 I5 I6 I7 I8] [O1 O2 O3]];
    [by apply steps_same|by apply spared_same|]. split; [|split; [done|done|by rewrite El]].
  split; rewrite ?El; try done. intros e He. apply (entry_ok_recs _ (ig_reconciliations db)); [done|]. by apply I5.
Qed.

Lemma reconciliation_is_true id r : reconciliation_is id r = true <-> rg_reconciliationId r = id.
Proof. apply str_eqb_true. Qed.

Lemma readReconciliation_Some db id r :
  readReconciliation db id = Some r -> r ∈ ig_reconciliations db /\ rg_reconciliationId r = id.
Proof. intros [Hr Er]%select_one_Some. by rewrite reconciliation_is_true in Er. Qed.

Lemma startReconciliation_known x trigger db r db' :
  integration_inv db -> known db x -> en_lifecycle x = il_reconciliation_required ->
  startReconciliation x trigger db = inr (r, db') ->
  integration_inv db' /\ onward db db' /\ rg_reconciliationId r = reconciliationIdOf (en_integrationId x).
Proof.
  intros Hi [_ (e & He & L)] Hx Hr. unfold startReconciliation in Hr. run_inv Hr.
  match type of He with _ ∈ ig_ledger ?d => set (db0 := d) in * end.
  destruct (readReconciliation db0 _) as [r0|] eqn:Er.
  { run_inv Hr. apply readReconciliation_Some in Er as [_ Er]. by split_and!. }
  apply bind_run in Hr as (now & s & [El Erc Ec Ed Ew]%still_now & (u & s1 & Ein & [-> ->]%ret_run)%bind_run).
  enough (integration_inv s1 /\ onward db0 s1) as [? ?] by done. unfold insertReconciliation in Ein. run_inv Ein.
  apply inv_recs; cbn; try done; rewrite ?Erc; [by apply Ew, Hi| |].
  - intros r0 [Hin| ->]%elem_of_snoc; [by apply (ii_reconciliations _ Hi)|]. split; [done|].
    exists e. split_and!; [done|by rewrite (el_id _ _ L)|]. pose proof (el_lifecycle _ _ L) as Hl. rewrite Hx in Hl.
    by apply bool_decide_eq_true in Hl.
  - intros r0 Hin _. apply elem_of_app. by left.
Qed.

Lemma updateReconciliation_run existing next db u db' :
  existing ∈ ig_reconciliations db -> rg_reconciliationId next = rg_reconciliationId existing ->
  updateReconciliation existing next db = inr (u, db') ->
  (exists f, db' = with_reconciliations f db) /\ next ∈ ig_reconciliations db' /\
  (forall r, r ∈ ig_reconciliations db' -> r = next \/ r ∈ ig_reconciliations db) /\
  (forall r, r ∈ ig_reconciliations db -> rg_lifecycle r = rc_integrated -> r ∈ ig_reconciliations db').
Proof.
  intros He Eid Hr. unfold updateReconciliation in Hr. run_inv Hr.
  match goal with E : forallb _ _ = true |- _ => rewrite forallb_elem in E; rename E into Hall end.
  match type of He with _ ∈ ig_reconciliations ?d => set (db0 := d) in * end.
  split; [by eexists|]. cbn. split_and!.
  - apply (update_elem_hit _ (fun _ => next) _ existing He). rewrite (proj2 (reconciliation_is_true _ _)) by done.
    cbn. apply Z.eqb_refl.
  - intros r [[Hin _]|(_ & _ & _ & ->)]%update_elem_1; auto.
  - intros r Hin Hl. apply update_elem_miss; [done|]. apply not_true_iff_false. intros Hp.
    assert (r ∈ select_where (fun r => reconciliation_is (rg_reconciliationId next) r &&
      (rg_revision r =? rg_revision existing)) (ig_reconciliations db0)) as Hs by by apply elem_of_select.
    specialize (Hall r Hs). cbv beta in Hall. rewrite Hl, bool_decide_true in Hall; [done|set_solver].
Qed.

Lemma advanceReconciliation_inv input db r db' :
  integration_inv db -> advanceReconciliation input db = inr (r, db') -> integration_inv db' /\ onward db db'.
Proof.
  intros Hi Hr. unfold advanceReconciliation in Hr. run_inv Hr.
  match goal with E : readReconciliation _ _ = Some ?x |- _ => apply readReconciliation_Some in E as [Hin Eid]; rename x into r0 end.
  destruct (bool_decide (rg_lifecycle r0 = _)); cbn [negb] in Hr.
  2:{ destruct (bool_decide _); [|discriminate Hr]. by run_inv Hr. }
  apply bind_run in Hr as (now & s & [El Erc Ec Ed Ew]%still_now & (u & s1 & Eup & [-> ->]%ret_run)%bind_run).
  rewrite <-Erc in Hin. apply updateReconciliation_run in Eup as ([f ->] & _ & Hel & Hk); [|done..].
  apply inv_recs; cbn in *; try done; [by apply Ew, Hi| |by rewrite <-Erc].
  intros r [->|Hr]%Hel; rewrite Erc in *; [|by apply (ii_reconciliations _ Hi)].
  apply (ii_reconciliations _ Hi r0 Hin).
Qed.

Lemma append_inj s t u : s +:+ u = t +:+ u -> s = t.
Proof.
  intros E. assert (String.length s = String.length t) as El.
  { apply (f_equal String.length) in E. rewrite !str_length_app in E. lia. }
  revert t E El. induction s as [|c s IH]; intros [|c' t] E El; try done. injection E as -> E. injection El as El.
  f_equal. by apply IH.
Qed.

Lemma resolveReconciliation_inv x repositories resolution db r db' :
  integration_inv db -> known db x -> lower_done db x -> en_lifecycle x = il_reconciliation_required ->
  resolveReconciliation (reconciliationIdOf (en_integrationId x)) repositories resolution db = inr (r, db') ->
  integration_inv db' /\ onward db db'.
Proof.
  intros Hi Hk Hlow Hx Hr. unfold resolveReconciliation in Hr. run_inv Hr.
  match goal with E : readReconciliation _ _ = Some ?y |- _ => apply readReconciliation_Some in E as [Hin Eid]; rename y into r0 end.
  destruct (bool_decide (rg_lifecycle r0 = rc_integrated)); [by run_inv Hr|].
  apply bind_run in Hr as (u0 & s0 & [_ ->]%ensure_run & (e & s1 & [Ee ->]%orThrow_run & (now & s2 & Enow &
    (u1 & s3 & Ebr & (u2 & s4 & Eup & (u3 & s5 & Eg & (u4 & s6 & Erec & [-> ->]%ret_run)%bind_run)%bind_run)%bind_run)%bind_run)%bind_run)%bind_run).
  apply readEntry_Some in Ee as [He Ee].
  match type of Hi with integration_inv ?d => set (db0 := d) in * end.
  destruct (ii_reconciliations _ Hi r0 Hin) as [Erid _]. rewrite Eid in Erid. apply append_inj in Erid.
  assert (entry_later x e) as L by (apply (known_same db0); [done..|congruence]).
  assert (still_step db0 s3) as Hst.
  { etrans; [by apply still_now in Enow|]. revert Ebr. apply (fun H => H : still _). stay. }
  destruct (still_inv _ _ Hst Hi) as [Hi3 _]. destruct Hst as [Sl Sr Sc Sd Sw].
  apply updateEntry_run in Eup as [-> Hnf]; [|done|by rewrite Sl|done].
  unfold onWaves in Eg. cbn in Eg. destruct (writeGatesAt _ _ _ _ _ _ _) as [|[v w]] eqn:Ew; [done|].
  injection Eg as _ <-. apply (writeGates_written _ _ _ passedGates) in Ew; [|apply Hi3].
  apply updateReconciliation_run in Erec as ([f ->] & Hnext & Hel & Hkeep); [|by cbn; rewrite Sr|done]. cbn in *.
  apply (tasks_written_after _ (Some passedGates) (ig_waves db0)) in Ew as [Gr Go Gd Gs Gi]; [|done..].
  assert (en_lifecycle e = il_reconciliation_required) as Ele.
  { pose proof (el_lifecycle _ _ L) as Hl. rewrite Hx in Hl. apply bool_decide_eq_true in Hl. unfold finished in Hnf.
    destruct (en_lifecycle e); set_solver. }
  destruct (ii_entries _ Hi e He) as [V _ _ D].
  apply (inv_move e (resolvedEntry repositories now e)); cbn; try done.
  - split; try done. by rewrite Ele.
  - by rewrite Sl.
  - intros run task Hn. unfold gates_at. by rewrite Go.
  - destruct Gr as (row & Hat & Eph & Eg). split; cbn.
    + unfold verified_as in *. rewrite Ele in V. done.
    + exists row. by split_and!.
    + intros _. right. eexists. split; [exact Hnext|]. by cbn.
    + rewrite Gd. done.
  - intros _. by apply (lower_same _ x).
  - intros r [->|Hr]%Hel; [by exists r0|]. rewrite Sr in Hr. by exists r.
  - intros r Hr Hl. apply Hkeep; [by rewrite Sr|done].
Qed.

(** *** New entries *)

Lemma dispatched_once db d d' :
  wave_inv db -> d ∈ dispatch_records db -> d' ∈ dispatch_records db ->
  (ds_runId d', ds_taskId d') = (ds_runId d, ds_taskId d) -> d' = d.
Proof.
  intros Hi Hd Hd' Ek.
  assert (forall x, x ∈ dispatch_records db -> (ds_runId x, ds_taskId x) = (ds_runId d, ds_taskId d) ->
    x ∈ task_dispatches (ds_runId d) (ds_taskId d) db) as Hin.
  { intros x Hx Ex. apply elem_of_select. split; [done|]. by apply dispatched_true. }
  pose proof (Hin d Hd eq_refl) as H2. pose proof (Hin d' Hd' Ek) as H3.
  pose proof (wi_tasks _ Hi (ds_runId d) (ds_taskId d)) as Ht. unfold task_ok in Ht.
  destruct (_ ≫= _).
  - destruct Ht as (d0 & E & _). rewrite E in H2, H3. apply list_elem_of_singleton in H2, H3. congruence.
  - destruct Ht as [_ E]. rewrite E in H2. by apply elem_of_nil in H2.
Qed.

(** The entries of the dispatches before it are there. *)
Lemma enqueue_inv (i : nat) d db e db' :
  integration_inv db -> d ∈ dispatch_records (ig_waves db) ->
  (i <= length (run_entries (ds_runId d) (ig_ledger db)))%nat ->
  enqueue (queueInput (Z.of_nat i, d)) db = inr (e, db') ->
  integration_inv db' /\ onward db db' /\ (i < length (run_entries (ds_runId d) (ig_ledger db')))%nat.
Proof.
  intros Hi Hd Hlen Hr. unfold enqueue in Hr. run_inv Hr.
  match type of Hi with integration_inv ?x => set (db0 := x) in * end.
  destruct (readEntry db0 _) as [e0|] eqn:Ee.
  { run_inv Hr. apply readEntry_Some in Ee as [He _]. split_and!; try done.
    match goal with E : sameIdentity _ _ = true |- _ => unfold sameIdentity in E; cbn in E;
      rewrite !andb_true_iff, !str_eqb_true, !Z.eqb_eq in E; destruct E as [[[[[Er _] _] _] Eo] _] end.
    assert (e0 ∈ run_entries (ds_runId d) (ig_ledger db0)) as [j Hl]%list_elem_of_lookup by by apply elem_of_run.
    pose proof (ordinal_at _ _ _ _ Hi Hl). pose proof (lookup_lt_Some _ _ _ Hl). lia. }
  apply bind_run in Hr as (now & s & [El Erc Ec Ed Ew]%still_now & (u & s1 & Ein & [-> ->]%ret_run)%bind_run).
  unfold insertEntry in Ein. run_inv Ein.
  repeat match goal with E : negb (exists_where _ _) = true |- _ => apply negb_true_iff in E; rewrite exists_where_false in E end.
  cbn in *. rewrite El in *.
  set (n := newEntry _ now) in *.
  assert (length (run_entries (ds_runId d) (ig_ledger db0)) = i) as Hlen'.
  { destruct (decide (i < length (run_entries (ds_runId d) (ig_ledger db0)))%nat) as [Hlt|]; [|lia].
    apply lookup_lt_is_Some in Hlt as [x Hx]. pose proof (ordinal_at _ _ _ _ Hi Hx) as Eo.
    apply list_elem_of_lookup_2, elem_of_run in Hx as [Hx Er].
    repeat match goal with E : forall r, r ∈ _ -> _ = false |- _ => specialize (E x Hx) end.
    exfalso. match goal with E : str_eqb (en_runId x) _ && (en_integrationOrdinal x =? _) = false |- _ =>
      rewrite Er, str_eqb_refl, andb_true_l, Z.eqb_neq in E; lia end. }
  assert (is_Some (task_at (ds_runId d) (ds_taskId d) (ig_waves db0))) as Htask.
  { unfold task_exists in E3. rewrite Ec in E3. apply exists_where_true in E3 as (row & Hrow & Hp).
    by apply (select_one_is_Some _ _ row). }
  assert (forall x, x ∈ ig_ledger db0 -> entry_key x <> (ds_runId d, ds_taskId d)) as Hkey.
  { intros x Hx Ek. destruct (eo_dispatch _ _ _ (ii_entries _ Hi x Hx)) as (d' & Hd' & [Ek' Eg]).
    rewrite Ek' in Ek. pose proof (dispatched_once _ d d' (ii_waves _ Hi) Hd Hd' Ek) as ->.
    unfold entry_key in Ek'. injection Ek' as Er Et. specialize (E1 x Hx).
    by rewrite Er, Et, Eg, !str_eqb_refl, Z.eqb_refl in E1. }
  match goal with |- ?P /\ ?O /\ ?L => enough ((P /\ O) /\ L) as [[? ?] ?] by done end. split.
  - apply (inv_added n); cbn; try done; rewrite ?El; try done.
    + by apply Ew, Hi.
    + intros x Hx Ex. specialize (E0 x Hx). by rewrite (proj2 (entry_is_true _ _) Ex) in E0.
    + by rewrite Hlen'.
    + exists d. done.
  - rewrite List.filter_app, length_app. cbn. rewrite str_eqb_refl. cbn. unfold run_entries, select_where in Hlen'. lia.
Qed.

(** ** Safe programs *)

Fixpoint safe {A} (Q : IntegrationDb -> A -> Prop) (m : Svc A) (db : IntegrationDb) : Prop :=
  match m with
  | Done a => Q db a
  | Thrown _ => True
  | Sync op k =>
      match op db with
      | inl _ => True
      | inr (x, db') => integration_inv db' /\ onward db db' /\ safe Q (k x) db'
      end
  | Ask q k => forall answer db', integration_inv db' -> onward db db' -> safe Q (k answer) db'
  end.

(** One program after another; what holds of the database in between is what the
    first one and the others have left. *)
Lemma safe_seq {A B} (Q1 : IntegrationDb -> A -> Prop) (Q : IntegrationDb -> B -> Prop) m k db :
  integration_inv db -> safe Q1 m db ->
  (forall db' a, integration_inv db' -> onward db db' -> Q1 db' a -> safe Q (k a) db') ->
  safe Q (sbind m k) db.
Proof.
  revert db. induction m as [a|e|X op k' IH|q k' IH]; intros db Hi Hm Hk; cbn in *; [by apply Hk|done| |].
  - destruct (op db) as [|[x db1]]; [done|]. destruct Hm as (Hi1 & O1 & Hm). split_and!; try done.
    apply IH; try done. intros db' a Hi' O' HQ. apply Hk; try done. by etrans.
  - intros r db1 Hi1 O1. apply IH; [done|by apply Hm|]. intros db' a Hi' O' HQ. apply Hk; try done. by etrans.
Qed.

Lemma safe_then {A} (Q Q' : IntegrationDb -> A -> Prop) m db :
  integration_inv db -> safe Q m db ->
  (forall db' a, integration_inv db' -> onward db db' -> Q db' a -> Q' db' a) -> safe Q' m db.
Proof.
  revert db. induction m as [a|e|X op k IH|q k IH]; intros db Hi Hm HQ; cbn in *; [by apply HQ|done| |].
  - destruct (op db) as [|[x db1]]; [done|]. destruct Hm as (Hi1 & O1 & Hm). split_and!; try done.
    apply IH; try done. intros db' a Hi' O'. apply HQ; [done|]. by etrans.
  - intros r db1 Hi1 O1. apply IH; [done|by apply Hm|]. intros db' a Hi' O'. apply HQ; [done|]. by etrans.
Qed.

Lemma safe_call {X} (Q : IntegrationDb -> X -> Prop) (op : IOp X) db :
  (forall x db', op db = inr (x, db') -> integration_inv db' /\ onward db db' /\ Q db' x) -> safe Q (call op) db.
Proof. intros Hop. cbn. destruct (op db) as [|[x db']]; [done|]. by apply Hop. Qed.

Lemma safe_still {X} (op : IOp X) db : integration_inv db -> still op -> safe (fun _ _ => True) (call op) db.
Proof.
  intros Hi Hop. apply safe_call. intros x db' E. destruct (still_inv db db') as [? ?]; [by eapply Hop|done|done].
Qed.

Lemma safe_reading {X} (f : IntegrationDb -> X) db :
  integration_inv db -> safe (fun db' x => x = f db' /\ db' = db) (reading f) db.
Proof. intros Hi. cbn. by split_and!. Qed.

Lemma safe_await q db : safe (fun _ _ => True) (await q) db.
Proof. intros [m|a] db' Hi O; done. Qed.

Lemma safe_forS {X} (f : X -> Svc unit) l db :
  integration_inv db -> (forall x db', x ∈ l -> integration_inv db' -> safe (fun _ _ => True) (f x) db') ->
  safe (fun _ _ => True) (forS l f) db.
Proof.
  revert db. induction l as [|x l IH]; intros db Hi Hf; [done|]. cbn.
  apply (safe_seq (fun _ _ => True)); [done|apply Hf; [by left|done]|]. intros db' _ Hi' _ _.
  apply IH; [done|]. intros y db2 Hy. apply Hf. by right.
Qed.

Lemma safe_mapS {X Y} (f : X -> Svc Y) l db :
  integration_inv db -> (forall x db', x ∈ l -> integration_inv db' -> safe (fun _ _ => True) (f x) db') ->
  safe (fun _ _ => True) (mapS l f) db.
Proof.
  revert db. induction l as [|x l IH]; intros db Hi Hf; [done|]. cbn.
  apply (safe_seq (fun _ _ => True)); [done|apply Hf; [by left|done]|]. intros db' y Hi' _ _.
  apply (safe_seq (fun _ _ => True)); [done| |done].
  apply IH; [done|]. intros z db2 Hz. apply Hf. by right.
Qed.

(** What a program leaves when it waits again. *)
Lemma safe_run {A} (m : Svc A) db :
  integration_inv db -> safe (fun _ _ => True) m db ->
  let '(m', db') := runSync m db in
  integration_inv db' /\ onward db db' /\
  (forall db2, integration_inv db2 -> onward db' db2 -> safe (fun _ _ => True) m' db2).
Proof.
  revert db. induction m as [a|e|X op k IH|q k IH]; intros db Hi Hm; cbn in *; try by split_and!.
  - destruct (op db) as [|[x db1]]; [by split_and!|]. destruct Hm as (Hi1 & O1 & Hm).
    specialize (IH x db1 Hi1 Hm). destruct (runSync (k x) db1) as [m' db']. destruct IH as (? & ? & ?).
    split_and!; try done. by etrans.
  - split_and!; try done. intros db2 Hi2 O2 r db3 Hi3 O3. apply Hm; [done|]. by etrans.
Qed.

(** ** The service is safe *)

(** The next step of the program, when nothing is asked of its result. *)
Ltac next_step := apply (safe_seq (fun _ _ => True)); [done| |].

Lemma safe_trace e v db : integration_inv db -> safe (fun _ _ => True) (trace e v) db.
Proof.
  intros Hi. unfold trace. eapply safe_seq; [done|by apply safe_reading|]. intros db1 ts Hi1 _ _.
  destruct (existsb _ _); [done|]. next_step; [by apply safe_still, still_now|]. intros db2 t Hi2 _ _.
  next_step; [by apply safe_still, still_appendTrace|]. done.
Qed.

Lemma safe_recordRepositories e phase rs db : integration_inv db -> safe (fun _ _ => True) (recordRepositories e phase rs) db.
Proof. intros Hi. apply safe_forS; [done|]. intros r db' _ Hi'. by apply safe_trace. Qed.

(** Facts about an entry that was read survive what others do. *)
Ltac carry :=
  repeat match goal with
  | Hk : known ?db ?e, O : onward ?db ?db', Hi : integration_inv ?db' |- _ =>
      lazymatch goal with K : known db' e |- _ => fail | _ => pose proof (known_later _ _ _ Hk O) end
  | Hl : lower_done ?db ?e, Hk : known ?db ?e, O : onward ?db ?db', Hi : integration_inv ?db' |- _ =>
      lazymatch goal with K : lower_done db' e |- _ => fail | _ => pose proof (lower_later _ _ _ Hi Hk Hl O) end
  end.

Lemma safe_transition x input db :
  integration_inv db -> known db x -> tn_integrationId input = en_integrationId x ->
  legal (ig_waves db) x (tn_expectedLifecycle input) (tn_lifecycle input) (tn_verification input) (tn_gates input) ->
  (begun (tn_lifecycle input) -> lower_done db x) ->
  safe (fun db' r => r ∈ ig_ledger db' /\ entry_later x r /\ en_lifecycle r = tn_lifecycle input)
    (call (transition input)) db.
Proof.
  intros Hi Hk Eid Hl Hlow. apply safe_call. intros r db' E.
  destruct (transition_known x _ _ _ _ Hi Hk Eid E Hl Hlow) as (? & ? & ? & ? & ?). by split_and!.
Qed.

Lemma begun_not l : l ∈ [il_queued; il_failed; il_reconciliation_required] -> ~ begun l.
Proof. unfold begun. intros Hl. destruct l; set_solver. Qed.

Lemma safe_reconcile e classification rs trigger db :
  integration_inv db -> known db e -> terminal (en_lifecycle e) = false ->
  safe (fun _ r => en_lifecycle r = il_reconciliation_required)
    (reconcile e (en_lifecycle e) classification rs trigger) db.
Proof.
  intros Hi Hk Ht. unfold reconcile. next_step; [by apply safe_trace|]. intros db1 _ Hi1 O1 _. carry.
  eapply safe_seq; [done|apply (safe_transition e); try done|].
  - apply lg_reconcile. destruct Hk as [V _]. unfold verified_as in V. destruct (en_lifecycle e); try done; rewrite V; set_solver.
  - intros Hb. by apply begun_not in Hb; [|set_solver].
  - intros db2 r Hi2 O2 (Hr & _ & El). cbn in El. apply (safe_seq (fun _ _ => True)); [done| |done].
    apply safe_call. intros x db3 Es. destruct (startReconciliation_known r trigger db2 x db3) as (? & ? & _); try done.
    by apply known_elem.
Qed.

(** What [process] and its parts return: an entry that is integrated is in the
    ledger. *)
Definition returned (e : LedgerEntry) (db : IntegrationDb) (r : LedgerEntry) : Prop :=
  en_lifecycle r = il_integrated -> r ∈ ig_ledger db /\ entry_later e r.

Definition stepped (e : LedgerEntry) (l : IntegrationLifecycle) (db : IntegrationDb)
    (r : LedgerEntry + LedgerEntry) : Prop :=
  match r with
  | inl r => en_lifecycle r <> il_integrated
  | inr r => r ∈ ig_ledger db /\ entry_later e r /\ en_lifecycle r = l
  end.

Lemma safe_stepped {A B} (Q : IntegrationDb -> A -> Prop) (Q' : IntegrationDb -> B -> Prop) (m : Svc A) (f : A -> B) db :
  integration_inv db -> safe Q m db -> (forall db' a, Q db' a -> Q' db' (f a)) ->
  safe Q' (sbind m (fun a => Done (f a))) db.
Proof. intros Hi Hm HQ. eapply safe_seq; [done|done|]. intros db' a _ _ Ha. by apply HQ. Qed.

Lemma safe_prepare e w db :
  integration_inv db -> known db e -> lower_done db e -> en_lifecycle e = il_queued ->
  safe (stepped e il_prepared) (prepareEntry e w) db.
Proof.
  intros Hi Hk Hl El. unfold prepareEntry.
  assert (forall db c rs t, integration_inv db -> known db e ->
    safe (stepped e il_prepared) (sbind (reconcile e il_queued c rs t) (fun r => Done (inl r))) db) as Hrec.
  { intros db1 c rs t Hi1 Hk1. eapply safe_stepped; [done| |].
    - rewrite <-El. apply safe_reconcile; [done..|by rewrite El].
    - cbn. intros _ r ->. done. }
  next_step; [by apply safe_trace|]. intros db1 _ Hi1 O1 _.
  next_step; [apply safe_await|]. intros db2 inventory Hi2 O2 _. carry.
  case_match; [by apply Hrec|]. next_step; [case_match; [done|apply safe_await]|].
  intros db3 [c rs] Hi3 O3 _. carry. cbv beta iota. case_match; [by apply Hrec|].
  next_step; [by apply safe_recordRepositories|]. intros db4 _ Hi4 O4 _. carry.
  eapply safe_stepped; [done|apply (safe_transition e); try done; apply lg_prepare|]. by intros db' r.
Qed.

Lemma safe_verify e w db :
  integration_inv db -> known db e -> lower_done db e -> safe (stepped e il_verified) (verifyEntry e w) db.
Proof.
  intros Hi Hk Hl. unfold verifyEntry. next_step; [by apply safe_trace|]. intros db1 _ Hi1 O1 _.
  next_step; [apply safe_await|]. intros db2 verification Hi2 O2 _.
  next_step; [by apply safe_trace|]. intros db3 _ Hi3 O3 _. carry. case_match.
  - eapply safe_stepped; [done|apply (safe_transition e); try done; apply lg_reject|].
    intros db' r (_ & _ & E). cbn in *. by rewrite E.
  - eapply safe_stepped; [done|apply (safe_transition e); try done; apply lg_verify|]. by intros db' r.
Qed.

Lemma safe_publish e w db :
  integration_inv db -> known db e -> lower_done db e -> en_lifecycle e = il_verified ->
  safe (returned e) (publishEntry e w) db.
Proof.
  intros Hi Hk Hl El. unfold publishEntry.
  assert (forall db c rs t, integration_inv db -> known db e ->
    safe (returned e) (reconcile e il_verified c rs t) db) as Hrec.
  { intros db1 c rs t Hi1 Hk1. rewrite <-El. eapply safe_then; [done|apply safe_reconcile; [done..|by rewrite El]|].
    intros db' r _ _ E1 E2. congruence. }
  assert (forall db rs, integration_inv db -> known db e -> lower_done db e ->
    safe (returned e) (call (transition (mkTransition (en_integrationId e) il_verified il_integrated rs None None
      (Some passedGates)))) db) as Hint.
  { intros db1 rs Hi1 Hk1 Hl1. eapply safe_then; [done|apply (safe_transition e); try done; apply lg_integrate|].
    intros db' r _ _ (? & ? & ?) _. done. }
  destruct (en_repositories e) as [|r0 rs0].
  - next_step; [by apply safe_trace|]. intros db1 _ Hi1 O1 _. carry. by apply Hint.
  - next_step; [by apply safe_trace|]. intros db1 _ Hi1 O1 _. carry. intros [m|[c rs]] db2 Hi2 O2; carry.
    + by apply Hrec.
    + next_step; [by apply safe_recordRepositories|]. intros db3 _ Hi3 O3 _. carry. case_match; [by apply Hrec|].
      next_step; [by apply safe_trace|]. intros db4 _ Hi4 O4 _. carry. by apply Hint.
Qed.

Lemma later_known db e r : integration_inv db -> r ∈ ig_ledger db -> entry_later e r ->
  lower_done db e -> known db r /\ lower_done db r.
Proof. intros Hi Hr L Hl. split; [by apply known_elem|by apply (lower_same _ e)]. Qed.

Lemma returned_later e r db x : entry_later e r -> returned r db x -> returned e db x.
Proof. intros L Hx E. destruct (Hx E) as [? ?]. split; [done|]. by etrans. Qed.

Lemma safe_process e d db :
  integration_inv db -> known db e -> lower_done db e -> terminal (en_lifecycle e) = false ->
  safe (returned e) (process e d) db.
Proof.
  intros Hi Hk Hl Ht. unfold process.
  assert (forall db, integration_inv db -> known db e -> safe (returned e) (reconcile e (en_lifecycle e)
    "missing_task_binding" (en_repositories e) rt_recovery_required) db) as Hrec.
  { intros db1 Hi1 Hk1. eapply safe_then; [done|by apply safe_reconcile|]. intros db' r _ _ E1 E2. congruence. }
  next_step; [apply safe_await|]. intros db1 [w|] Hi1 O1 _; carry; [|by apply Hrec].
  case_match; [by apply Hrec|].
  apply (safe_seq (fun db' r => match r with
    | inl r => en_lifecycle r <> il_integrated
    | inr r => known db' r /\ lower_done db' r /\ entry_later e r /\ terminal (en_lifecycle r) = false
    end)); [done| |].
  { case_match eqn:Eq; [|by split_and!]. apply bool_decide_eq_true in Eq.
    pose proof (safe_prepare e w db1 Hi1) as Hp. specialize (Hp ltac:(done) ltac:(done) Eq).
    eapply safe_then; [done|exact Hp|]. intros db2 [r|r] Hi2 O2 Hr; carry; [done|].
    destruct Hr as (Hr & L & El). destruct (later_known db2 e r) as [? ?]; try done. cbn. by rewrite El. }
  intros db2 [r|e1] Hi2 O2 H1'; [by intros E|]. destruct H1' as (Hk1 & Hl1 & L1 & Ht1).
  apply (safe_seq (fun db' r => match r with
    | inl r => en_lifecycle r <> il_integrated
    | inr r => known db' r /\ lower_done db' r /\ entry_later e1 r /\ terminal (en_lifecycle r) = false
    end)); [done| |].
  { case_match; [|by split_and!].
    eapply safe_then; [done|by apply safe_verify|].
    intros db3 [r|r] Hi3 O3 Hr; carry; [done|].
    destruct Hr as (Hr & L & El). destruct (later_known db3 e1 r) as [? ?]; try done. cbn. by rewrite El. }
  intros db3 [r|e2] Hi3 O3 H2'; [by intros E|]. destruct H2' as (Hk2 & Hl2 & L2 & Ht2).
  case_match eqn:Eq.
  - apply bool_decide_eq_true in Eq. eapply safe_then; [done|by apply safe_publish|]. intros db' x _ _. apply returned_later. by etrans.
  - intros E. by rewrite E in Ht2.
Qed.

Lemma safe_block id expected rs b db : integration_inv db -> safe (fun _ _ => True) (blockReconciliation id expected rs b) db.
Proof.
  intros Hi. unfold blockReconciliation. next_step; [|done]. apply safe_call. intros x db' E.
  destruct (advanceReconciliation_inv _ _ _ _ Hi E). done.
Qed.

Lemma safe_blocked id expected rs b (e : LedgerEntry) db :
  integration_inv db -> safe (fun _ _ => True) (sbind (blockReconciliation id expected rs b) (fun _ => Done e)) db.
Proof. intros Hi. next_step; [by apply safe_block|done]. Qed.

Lemma safe_advance input db : integration_inv db -> safe (fun _ _ => True) (call (advanceReconciliation input)) db.
Proof.
  intros Hi. apply safe_call. intros x db' E. by destruct (advanceReconciliation_inv _ _ _ _ Hi E).
Qed.

Lemma safe_reconcilePass e d again db :
  integration_inv db -> known db e -> lower_done db e -> en_lifecycle e = il_reconciliation_required ->
  (forall next db', again = Some next -> integration_inv db' -> known db' e -> lower_done db' e ->
     safe (fun _ _ => True) next db') ->
  safe (fun _ _ => True) (reconcilePass e d again) db.
Proof.
  intros Hi Hk Hl El Hagain. unfold reconcilePass. next_step; [apply safe_await|]. intros db1 work Hi1 O1 _. carry.
  eapply (safe_seq (fun _ r => rg_reconciliationId r = reconciliationIdOf (en_integrationId e))); [done| |].
  { apply safe_call. intros x db' E. destruct (startReconciliation_known e _ _ _ _ Hi1 ltac:(done) El E) as (? & ? & ?). done. }
  intros db2 r Hi2 O2 ->. carry. cbv zeta. case_match; [done|].
  destruct work as [w|]; [|by apply safe_blocked]. destruct (en_repositories e) as [|r0 rs0] eqn:Ers; [by apply safe_blocked|].
  case_match; [|by apply safe_blocked]. next_step; [by apply safe_advance|]. intros db3 _ Hi3 O3 _. carry.
  next_step; [by intros [m|o] db' _ _|]. intros db4 observed Hi4 O4 _. carry.
  eapply safe_seq; [done|by apply safe_reading|]. intros db5 count Hi5 O5 _. carry.
  next_step.
  { apply safe_mapS; [done|]. intros [i x] db' _ Hi'. unfold recordObservation. next_step; [by apply safe_still, still_now|].
    intros db6 t Hi6 _ _. next_step; [by apply safe_still, still_appendObservation|done]. }
  intros db6 projected Hi6 O6 _. carry. case_match; [by apply safe_blocked|]. case_match.
  - next_step.
    { apply safe_call. intros x db' E. by eapply resolveReconciliation_inv in E as [? ?]. }
    intros db7 _ Hi7 O7 _. eapply safe_seq; [done|by apply safe_reading|]. done.
  - destruct again as [next|]; [|by apply safe_blocked]. next_step; [by apply safe_advance|].
    intros db7 _ Hi7 O7 _. carry. intros [m|a] db8 Hi8 O8; carry; [done|]. by apply Hagain.
Qed.

Lemma safe_reconcileEntry e d db :
  integration_inv db -> known db e -> lower_done db e -> en_lifecycle e = il_reconciliation_required ->
  safe (fun _ _ => True) (reconcileEntry e d) db.
Proof.
  intros Hi Hk Hl El. apply safe_reconcilePass; try done. intros next db' [= <-] Hi' Hk' Hl'.
  by apply safe_reconcilePass.
Qed.

(** *** A tick *)

(** What the scheduler has passed to the tick. *)
Record input_ok (input : TaskIntegrationTickInput) (db : IntegrationDb) : Prop := {
  io_tasks : forall row, row ∈ it_tasks input -> lp_runId row = it_runId input /\
    exists row', task_at (lp_runId row) (lp_taskId row) (ig_waves db) = Some row' /\
      (lp_phase row ∈ terminal_phases -> lp_phase row' = lp_phase row);
  io_dispatches : forall d, d ∈ it_dispatches input ->
    ds_runId d = it_runId input /\ d ∈ dispatch_records (ig_waves db) }.

Lemma input_later input db db' : input_ok input db -> onward db db' -> input_ok input db'.
Proof.
  intros [Ht Hd] [Os [added Od] _]. split.
  - intros row Hrow. destruct (Ht row Hrow) as [Er (row1 & Hat & Hph)]. split; [done|].
    destruct (Os _ _ _ Hat) as (row2 & Hat2 & Hw). exists row2. split; [done|]. intros Hterm.
    rewrite <-(Hph Hterm). apply (row_writes_final _ _ Hw). by rewrite (Hph Hterm).
  - intros d Hin. destruct (Hd d Hin) as [Er Hin']. split; [done|]. rewrite Od. apply elem_of_app. by left.
Qed.

Lemma input_started run dag db : integration_inv db -> input_ok (tickInput run dag (ig_waves db)) db.
Proof.
  intros Hi. split; cbn.
  - intros row [Hin Er%str_eqb_true]%elem_of_sort_key%elem_of_select. split; [done|]. exists row. split; [|done].
    apply task_at_elem; [apply Hi|done|done].
  - intros d [Hin Er%str_eqb_true]%elem_of_sort_by%elem_of_select. done.
Qed.

Lemma taskPhase_at input db task phase :
  input_ok input db -> taskPhase (it_tasks input) task = Some phase -> phase ∈ terminal_phases ->
  exists row, task_at (it_runId input) task (ig_waves db) = Some row /\ lp_phase row = phase.
Proof.
  intros [Ht _] Hp Hterm. unfold taskPhase in Hp. destruct (List.find _ _) as [row|] eqn:Ef; [|done].
  injection Hp as <-. apply find_some in Ef as [Hin%list_elem_of_In Et%str_eqb_true].
  destruct (Ht row Hin) as [Er (row' & Hat & Hph)]. exists row'. rewrite <-Er, <-Et. auto.
Qed.

Fixpoint consecutive (es : list LedgerEntry) : Prop :=
  match es with
  | e :: ((e' :: _) as rest) => en_integrationOrdinal e' = en_integrationOrdinal e + 1 /\ consecutive rest
  | _ => True
  end.

Lemma lower_next db e e' x :
  integration_inv db -> lower_done db e -> en_runId e' = en_runId e ->
  en_integrationOrdinal e' = en_integrationOrdinal e + 1 ->
  x ∈ ig_ledger db -> entry_later e x -> finished (en_lifecycle x) -> lower_done db e'.
Proof.
  intros Hi Hl Er Eo Hx L Hf y Hy Ery Hlt. destruct (decide (en_integrationOrdinal y = en_integrationOrdinal e)) as [E|E].
  - pose proof (el_key _ _ L) as [= Erx _]. pose proof (el_ordinal _ _ L).
    replace y with x; [done|]. apply (same_ordinal db); [done..|congruence|congruence].
  - apply Hl; [done|congruence|lia].
Qed.

Lemma numbered es k :
  map en_integrationOrdinal es = seqZ k (Z.of_nat (length es)) ->
  StronglySorted (not_after entry_lt) es /\ consecutive es /\
  (forall e, e ∈ es -> k <= en_integrationOrdinal e) /\ (forall e rest, es = e :: rest -> en_integrationOrdinal e = k).
Proof.
  revert k. induction es as [|e es IH]; intros k E.
  { split_and!; try done; [constructor|]. by intros e ?%elem_of_nil. }
  rewrite seqZ_cons in E by (cbn; lia). injection E as Ek E.
  replace (Z.pred _) with (Z.of_nat (length es)) in E by (cbn; lia).
  destruct (IH _ E) as (Hs & Hc & Hle & Hhd). split_and!.
  - constructor; [done|]. apply Forall_forall. intros x Hx. specialize (Hle x Hx). apply Z.ltb_ge. lia.
  - destruct es as [|e' es]; [done|]. split; [|done]. rewrite (Hhd _ _ eq_refl). lia.
  - intros x [->|Hx]%elem_of_cons; [lia|]. specialize (Hle x Hx). lia.
  - intros x rest [= <- <-]. done.
Qed.

Lemma entries_run db run : integration_inv db -> entries db run = run_entries run (ig_ledger db).
Proof. intros Hi. apply sort_by_id. by apply (numbered _ 1), Hi. Qed.

Lemma safe_loop input ds es db :
  integration_inv db -> input_ok input db -> (forall e, e ∈ es -> en_runId e = it_runId input /\ known db e) ->
  consecutive es -> (forall e rest, es = e :: rest -> lower_done db e) ->
  safe (fun _ _ => True) (integrateLoop input ds es) db.
Proof.
  revert db. induction es as [|e es IH]; intros db Hi Hin Hk Hc Hl; [done|]. cbn [integrateLoop].
  destruct (Hk e) as [Er Hke]; [by left|]. specialize (Hl e es eq_refl).
  assert (forall db' x, integration_inv db' -> onward db db' -> x ∈ ig_ledger db' -> entry_later e x ->
    finished (en_lifecycle x) -> safe (fun _ _ => True) (integrateLoop input ds es) db') as Hnext.
  { intros db' x Hi' O Hx L Hf. pose proof (lower_later _ _ _ Hi' Hke Hl O) as Hl'. apply IH; [done|by eapply input_later| | |].
    - intros y Hy. destruct (Hk y) as [? ?]; [by right|]. split; [done|]. by eapply known_later.
    - by destruct es; [|destruct Hc].
    - intros e' rest ->. destruct Hc as [Eo _]. destruct (Hk e') as [Er' _]; [by right; left|].
      by apply (lower_next db' e e' x); [..|congruence|done|done|done|done]. }
  case_match eqn:Erec.
  { apply bool_decide_eq_true in Erec. case_match; [|done]. next_step; [by apply safe_reconcileEntry|done]. }
  case_match eqn:Et.
  { destruct Hke as [_ (x & Hx & L)]. apply (Hnext db x); try done. eapply finished_later; [done|].
    apply bool_decide_eq_false in Erec. unfold finished. destruct (en_lifecycle e); try done; set_solver. }
  destruct (taskPhase _ _) as [phase|] eqn:Eph; [|done].
  assert (phase ∈ dropped_phases -> safe (fun _ _ => True) (sbind (call (transition (mkTransition (en_integrationId e)
    (en_lifecycle e) il_failed None None None None))) (fun _ => integrateLoop input ds es)) db) as Hdrop.
  { intros Hd. destruct (taskPhase_at _ _ _ _ Hin Eph) as (row & Hat & Erow).
    { unfold dropped_phases, terminal_phases in *. set_solver. }
    eapply safe_seq; [done|apply (safe_transition e); try done|].
    - apply (lg_abandon _ _ _ row); [by rewrite Er|by rewrite Erow].
    - intros db' r Hi' O (Hr & L & El). cbn in El. apply (Hnext db' r); try done. rewrite El. unfold finished. set_solver. }
  destruct phase; try done; try (apply Hdrop; unfold dropped_phases; set_solver).
  case_match; [|done]. eapply safe_seq; [done|by apply safe_process|]. intros db' r Hi' O Hr. case_match eqn:Ei; [|done].
  apply bool_decide_eq_true in Ei. destruct (Hr Ei) as [Hin' L]. apply (Hnext db' r); try done. rewrite Ei. unfold finished. set_solver.
Qed.

Lemma safe_drift input observed db : integration_inv db -> safe (fun _ _ => True) (reconcileDrift input observed) db.
Proof.
  intros Hi. unfold reconcileDrift. case_match; [done|]. eapply safe_seq; [done|by apply safe_reading|].
  intros db1 es Hi1 O1 [-> _]. cbv zeta. destruct (List.find _ _) as [e|] eqn:Ef; [|done]. case_match; [done|].
  apply find_some in Ef as [He%list_elem_of_In [Ht%negb_true_iff _]%andb_prop].
  rewrite entries_run in He by done. apply elem_of_run in He as [He _]. eapply safe_seq; [done|apply safe_reconcile; try done|done].
  by apply known_elem.
Qed.

(** The entries of the ordered dispatches are queued one after the other. *)
Lemma safe_enqueue run ds done_ rest db :
  integration_inv db -> ds = done_ ++ rest -> (forall d, d ∈ ds -> ds_runId d = run /\ d ∈ dispatch_records (ig_waves db)) ->
  (length done_ <= length (run_entries run (ig_ledger db)))%nat ->
  safe (fun _ _ => True) (forS (zip (map Z.of_nat (seq (length done_) (length rest))) rest)
    (fun item => sbind (call (enqueue (queueInput item))) (fun _ => Done tt))) db.
Proof.
  revert done_ db. induction rest as [|d rest IH]; intros front db Hi Eds Hd Hlen; [done|]. cbn [length seq map zip zip_with forS].
  destruct (Hd d) as [Er Hin]; [subst ds; apply elem_of_app; right; by left|].
  apply (safe_seq (fun db' _ => (length front < length (run_entries run (ig_ledger db')))%nat)); [done| |].
  - eapply safe_seq; [done| |intros db' e Hi' O Hlt; exact Hlt]. apply safe_call. intros e db' E. rewrite <-Er in *.
    destruct (enqueue_inv _ _ _ _ _ Hi Hin Hlen E) as (? & ? & ?). done.
  - intros db' _ Hi' O Hlt. specialize (IH (front ++ [d]) db' Hi'). rewrite length_app, Nat.add_1_r in IH. apply IH.
    + by rewrite <-app_assoc.
    + intros x Hx. destruct (Hd x Hx) as [? Hx']. split; [done|]. destruct O as [_ [added ->] _]. apply elem_of_app. by left.
    + lia.
Qed.

Lemma safe_tick input db : integration_inv db -> input_ok input db -> safe (fun _ _ => True) (tick input) db.
Proof.
  intros Hi Hin. unfold tick, tickWith. next_step; [apply safe_await|]. intros db1 obs Hi1 O1 _.
  next_step; [apply safe_mapS; [done|]; intros b db' _ Hi'; by apply safe_still, still_initializeBranch|].
  intros db2 observed Hi2 O2 _. assert (input_ok input db2) as Hin2 by (eapply input_later; [done|]; by etrans).
  cbv zeta. next_step.
  { apply (safe_enqueue (it_runId input) (orderedDispatches input) [] (orderedDispatches input)); try done; [|cbn; lia].
    intros d Hd%elem_of_sort_by. by apply Hin2. }
  intros db3 _ Hi3 O3 _. next_step; [by apply safe_drift|]. intros db4 _ Hi4 O4 _.
  assert (input_ok input db4) as Hin4 by (eapply input_later; [done|]; by etrans).
  eapply safe_seq; [done|by apply safe_reading|]. intros db5 es Hi5 O5 [-> ->].
  rewrite entries_run by done. destruct (numbered _ 1 (ii_ordinals _ Hi4 (it_runId input))) as (_ & Hc & Hle & Hhd).
  next_step; [|intros db6 _ Hi6 _ _; by eapply safe_then; [|by apply safe_reading|]].
  apply safe_loop; try done.
  - intros e [He Er]%elem_of_run. split; [done|]. by apply known_elem.
  - intros e rest E e' He' Er' Hlt. assert (e ∈ run_entries (it_runId input) (ig_ledger db4)) as [_ Er]%elem_of_run by (rewrite E; by left).
    assert (e' ∈ run_entries (it_runId input) (ig_ledger db4)) as Hin' by (apply elem_of_run; split; [done|congruence]).
    specialize (Hle _ Hin'). rewrite (Hhd _ _ E) in Hlt. lia.
Qed.

(** ** Any interleaving *)

(** The gates are written by the service only. *)
Definition scheduled (event : IntegrationEvent) : bool :=
  match event with IWave s => scheduling s | _ => true end.

Record system_ok (s : Integrating) : Prop := {
  sk_db : integration_inv (in_db s);
  sk_ticks : forall m, m ∈ in_ticks s -> forall db', integration_inv db' -> onward (in_db s) db' ->
    safe (fun _ _ => True) m db' }.

Lemma step_ok event s :
  scheduled event = true -> system_ok s ->
  system_ok (integration_step event s) /\ onward (in_db s) (in_db (integration_step event s)).
Proof.
  intros He [Hi Hm]. destruct event as [stretch|run dag|i driver]; cbn.
  - destruct (run_stretch_keeps stretch _ (ii_waves _ Hi)) as [Hw Hs].
    destruct (inv_waves _ _ Hi Hw Hs (stretch_spared _ _ He)) as [Hi' O]. split; [|done]. split; [done|].
    intros m Hin db' Hi2 O2. apply (Hm m Hin db' Hi2). by etrans.
  - split; [|done]. split; [done|]. intros m [Hin| ->]%elem_of_snoc db' Hi' O; [by apply Hm|].
    apply safe_tick; [done|]. eapply input_later; [|done]. by apply input_started.
  - destruct (in_ticks s !! i) as [m|] eqn:El; [|by split; [split|]].
    destruct m as [| | |q k]; try (by split; [split|]).
    pose proof (Hm _ (list_elem_of_lookup_2 _ _ _ El) _ Hi (onward_refl _)) as Hs.
    specialize (Hs (driver q) _ Hi (onward_refl _)).
    pose proof (safe_run _ _ Hi Hs) as Hr. destruct (runSync _ _) as [m' db']. destruct Hr as (Hi' & O & Hm').
    split; [|done]. split; [done|]. cbn. intros m2 Hin db2 Hi2 O2.
    apply list_elem_of_lookup in Hin as [j Hj]. apply list_lookup_insert_Some in Hj as [(_ & <- & _)|[_ Hj]].
    + by apply Hm'.
    + apply (Hm m2); [by eapply list_elem_of_lookup_2|done|]. by etrans.
Qed.

Lemma after_ok events s :
  Forall (fun event => scheduled event = true) events -> system_ok s ->
  system_ok (integration_after events s) /\ onward (in_db s) (in_db (integration_after events s)).
Proof.
  revert s. induction events as [|event events IH]; intros s Hs Hk; [done|].
  inversion Hs as [|? ? H2 H3]; subst. destruct (step_ok event s H2 Hk) as [Hk' O].
  destruct (IH _ H3 Hk') as [? ?]. split; [done|]. cbn. by etrans.
Qed.

Lemma empty_ok runs : system_ok (empty_integration runs).
Proof. split; [apply integration_inv_empty|]. by intros m ?%elem_of_nil. Qed.

Lemma integration_reached events runs :
  Forall (fun event => scheduled event = true) events ->
  integration_inv (in_db (integration_after events (empty_integration runs))).
Proof. intros Hs. apply (after_ok events _ Hs (empty_ok runs)). Qed.

(** C11: Tasks are integrated one at a time, in the order of their ordinals. Whatever
    the scheduler, overlapping ticks of the service and the answers of its driver
    do, the entries of a run are numbered from one without gaps, each belongs to a
    dispatch, and once an entry has been prepared every entry before it is
    integrated or failed. *)
Theorem integration_in_order runs events run :
  Forall (fun event => scheduled event = true) events ->
  let db := in_db (integration_after events (empty_integration runs)) in
  map en_integrationOrdinal (entries db run) = seqZ 1 (Z.of_nat (length (entries db run))) /\
  (forall e, e ∈ entries db run -> exists d, d ∈ dispatch_records (ig_waves db) /\ entry_of d e) /\
  (forall i j e e', entries db run !! i = Some e -> entries db run !! j = Some e' -> (i < j)%nat ->
     begun (en_lifecycle e') -> finished (en_lifecycle e)).
Proof.
  intros Hs db. pose proof (integration_reached events runs Hs) as Hi. fold db in Hi. rewrite entries_run by done.
  split; [apply Hi|]. split.
  - intros e [He _]%elem_of_run. apply (ii_entries _ Hi e He).
  - intros i j e e' Hl Hl' Hlt Hb. pose proof (ordinal_at _ _ _ _ Hi Hl). pose proof (ordinal_at _ _ _ _ Hi Hl').
    apply list_elem_of_lookup_2, elem_of_run in Hl as [He Er]. apply list_elem_of_lookup_2, elem_of_run in Hl' as [He' Er'].
    apply (ii_serial _ Hi e' e); [done..|congruence|lia|done].
Qed.

(** The entry of a task. *)
Definition entry_for (db : IntegrationDb) (run task : string) : option LedgerEntry :=
  select_one (fun e => str_eqb (en_taskId e) task) (entries db run).

(** C12: The gates of a task say where its integration is. In every state, a task
    without an entry has pending gates, and the gates and the phase of one with an
    entry are those of the entry's lifecycle: the integration gate is passed exactly
    when the entry is integrated, and only succeeded tasks are integrated. An
    integrated entry has passed the verification or was integrated by a
    reconciliation. *)
Theorem gates_follow_ledger runs events run task row :
  Forall (fun event => scheduled event = true) events ->
  let db := in_db (integration_after events (empty_integration runs)) in
  task_at run task (ig_waves db) = Some row ->
  match entry_for db run task with
  | None => gates_of row = no_gates
  | Some e => gates_of row = expected_gates e /\ expected_phase e (lp_phase row) /\
      (lp_integration row = ig_passed <-> en_lifecycle e = il_integrated) /\
      accounted (ig_reconciliations db) e
  end.
Proof.
  intros Hs db Hat. pose proof (integration_reached events runs Hs) as Hi. fold db in Hi.
  unfold entry_for. rewrite entries_run by done. destruct (select_one _ _) as [e|] eqn:Ef.
  - apply select_one_Some in Ef as [[He Er]%elem_of_run Et%str_eqb_true].
    destruct (ii_entries _ Hi e He) as [_ (row' & Hat' & Eg & Ph) A _]. rewrite Er, Et in Hat'.
    assert (row' = row) as -> by congruence. split_and!; try done.
    change (lp_integration row) with (gt_integration (gates_of row)). rewrite Eg. unfold expected_gates.
    destruct (en_lifecycle e); cbn; try done; by destruct (en_verification e).
  - apply (ii_others _ Hi run task); [unfold gates_at; by rewrite Hat|]. intros (e & Ek & He)%list_elem_of_fmap.
    injection Ek as Er Et. assert (e ∈ run_entries run (ig_ledger db)) as Hin by by apply elem_of_run.
    pose proof (select_one_None _ _ _ Ef Hin) as Hn. cbv beta in Hn. by rewrite <-Et, str_eqb_refl in Hn.
Qed.

(** C13: An entry of the ledger is never lost and never goes back. However ticks overlap
    with each other and with the scheduler and whatever their drivers answer (gates
    being written by the service alone), from any state the service reaches to any
    later one every entry of a run keeps its id, its task, its graph revision, its
    ordinal and its variant, its lifecycle only moves forward, and once it is
    integrated or failed it stays so. *)
Theorem integration_final runs before after run e :
  Forall (fun event => scheduled event = true) (before ++ after) ->
  let s := integration_after before (empty_integration runs) in
  let s' := integration_after after s in
  e ∈ entries (in_db s) run ->
  exists e', e' ∈ entries (in_db s') run /\ entry_later e e' /\
    (finished (en_lifecycle e) -> en_lifecycle e' = en_lifecycle e).
Proof.
  intros [Hb Ha]%Forall_app s s' He. destruct (after_ok before _ Hb (empty_ok runs)) as [Hk _].
  destruct (after_ok after s Ha Hk) as [Hk' [_ _ Hl]]. fold s' in Hk', Hl.
  rewrite entries_run in He by apply Hk. rewrite entries_run by apply Hk'. apply elem_of_run in He as [He Er].
  destruct (ledger_elem _ _ _ Hl He) as (e' & He' & L). exists e'. split_and!; [|done|].
  - apply elem_of_run. split; [done|]. pose proof (el_key _ _ L) as [= -> _]. done.
  - pose proof (el_lifecycle _ _ L) as Hlt. unfold finished.
    destruct (en_lifecycle e), (en_lifecycle e'); try done; set_solver.
Qed.

(** ** A tick that cannot go on *)

(** The program ends or throws before it asks its driver. *)
Definition ends {A} (T : IntegrationDb -> Prop) (P : A -> IntegrationDb -> Prop) (m : Svc A) (db : IntegrationDb) : Prop :=
  match runSync m db with
  | (Done a, db') => P a db'
  | (Thrown _, db') => T db'
  | _ => False
  end.

Lemma runSync_bind {A B} (m : Svc A) (k : A -> Svc B) db :
  runSync (sbind m k) db =
  match runSync m db with
  | (Done a, db') => runSync (k a) db'
  | (m', db') => (sbind m' k, db')
  end.
Proof.
  revert db. induction m as [a|e|X op k' IH|q k' IH]; intros db; cbn; try done.
  destruct (op db) as [|[x db']]; [done|]. apply IH.
Qed.

Lemma ends_bind {A B} T (P : A -> IntegrationDb -> Prop) (Q : B -> IntegrationDb -> Prop) m k db :
  ends T P m db -> (forall a db', P a db' -> ends T Q (k a) db') -> ends T Q (sbind m k) db.
Proof.
  intros Hm Hk. unfold ends in *. rewrite runSync_bind. destruct (runSync m db) as [[a|e|X op k'|q k'] db']; try done.
  by apply Hk.
Qed.

Lemma ends_call {X} T (P : X -> IntegrationDb -> Prop) (op : IOp X) db :
  T db -> (forall x db', op db = inr (x, db') -> P x db') -> ends T P (call op) db.
Proof. intros HT HP. unfold ends. cbn. destruct (op db) as [|[x db']]; [done|]. by apply HP. Qed.

(** A loop of operations that keep something. *)
Lemma ends_mapS {X Y} (T : IntegrationDb -> Prop) (f : X -> IOp Y) l db :
  T db -> (forall x db y db', T db -> f x db = inr (y, db') -> T db') ->
  ends T (fun _ => T) (mapS l (fun x => call (f x))) db.
Proof.
  intros HT Hf. revert db HT. induction l as [|x l IH]; intros db HT; [done|]. cbn [mapS].
  apply (ends_bind _ (fun _ => T)); [apply ends_call; eauto|]. intros y db1 H2.
  apply (ends_bind _ (fun _ => T)); [by apply IH|]. done.
Qed.

(** Only queued entries are added. *)
Definition only_queued (db db' : IntegrationDb) : Prop :=
  exists added, ig_ledger db' = ig_ledger db ++ added /\ Forall (fun e => en_lifecycle e = il_queued) added.

Lemma only_queued_read db db' id e : only_queued db db' -> readEntry db id = Some e -> readEntry db' id = Some e.
Proof.
  intros (added & El & _). unfold readEntry, select_one. rewrite El. clear El. induction (ig_ledger db) as [|x l IH]; [done|].
  cbn. destruct (entry_is id x); [done|]. apply IH.
Qed.

Lemma only_queued_still db db1 db2 : only_queued db db1 -> still_step db1 db2 -> only_queued db db2.
Proof. intros (added & El & Hq) [Sl _ _ _ _]. exists added. by rewrite Sl. Qed.

Lemma only_queued_enqueue db db1 input e db2 :
  only_queued db db1 -> enqueue input db1 = inr (e, db2) -> only_queued db db2.
Proof.
  intros (added & El & Hq) Hr. unfold enqueue in Hr. run_inv Hr. destruct (readEntry _ _).
  { run_inv Hr. by exists added. }
  apply bind_run in Hr as (now & s & [Sl _ _ _ _]%still_now & (u & s1 & Ein & [-> ->]%ret_run)%bind_run).
  unfold insertEntry in Ein. run_inv Ein. exists (added ++ [newEntry input now]). cbn. rewrite Sl, El, app_assoc.
  split; [done|]. apply Forall_app. split; [done|]. by constructor.
Qed.

(** A conflict among the dispatches to queue. *)
Lemma enqueue_conflict db0 front d rest e n db :
  only_queued db0 db -> readEntry db0 (qi_integrationId (queueInput (0, d))) = Some e ->
  en_integrationOrdinal e <> Z.of_nat (n + length front) + 1 ->
  ends (only_queued db0) (fun _ _ => False)
    (forS (zip (map Z.of_nat (seq n (length (front ++ d :: rest)))) (front ++ d :: rest))
      (fun item => sbind (call (enqueue (queueInput item))) (fun _ => Done tt))) db.
Proof.
  intros Hq He Ho. revert n db Hq Ho. induction front as [|d' front IH]; intros n db Hq Ho.
  - cbn [app length seq map zip zip_with forS]. apply (ends_bind _ (fun _ _ => False)); [|done].
    apply (ends_bind _ (fun _ _ => False)); [|done]. apply ends_call; [done|]. intros x db' Hr. unfold enqueue in Hr. run_inv Hr.
    rewrite (only_queued_read _ _ (qi_integrationId (queueInput (Z.of_nat n, d))) e Hq He) in Hr. run_inv Hr.
    match goal with E : sameIdentity _ _ = true |- _ => unfold sameIdentity in E; cbn in E;
      rewrite !andb_true_iff, !Z.eqb_eq in E; destruct E as [[_ Eo] _] end.
    apply Ho. cbn. rewrite Eo. lia.
  - cbn [app length seq map zip zip_with forS]. apply (ends_bind _ (fun _ => only_queued db0)).
    + apply (ends_bind _ (fun _ => only_queued db0)); [|done]. apply ends_call; [done|]. intros x db' Hr.
      by eapply only_queued_enqueue.
    + intros _ db' Hq'. apply IH; [done|]. cbn in Ho. by replace (S n + length front)%nat with (n + S (length front))%nat by lia.
Qed.

(** C39: A change of the order of the dispatches stops the integration of a run. The
    place of a dispatch is where it comes among the dispatches of its wave in the
    order of the tasks of the current graph, and a task the graph no longer has
    comes last. When a dispatch that has an entry comes to another place, every
    tick throws before it looks at an entry, whatever the branches are: it adds
    queued entries at most. *)
Theorem order_change_rejected input observations db i d e :
  orderedDispatches input !! i = Some d ->
  readEntry db (qi_integrationId (queueInput (Z.of_nat i, d))) = Some e ->
  en_integrationOrdinal e <> Z.of_nat i + 1 ->
  exists error db', runSync (tickWith input observations) db = (Thrown error, db') /\ only_queued db db'.
Proof.
  intros Hd He Ho.
  enough (ends (only_queued db) (fun _ _ => False) (tickWith input observations) db) as Hends.
  { unfold ends in Hends. destruct (runSync _ db) as [[|error| |] db']; try done. by exists error, db'. }
  unfold tickWith. apply (ends_bind _ (fun _ => only_queued db)).
  - apply (ends_mapS _ initializeBranch); [by exists []; rewrite app_nil_r|]. intros b db1 y db2 Hq Hr.
    eapply only_queued_still; [done|]. by eapply still_initializeBranch.
  - intros observed db1 Hq. apply (ends_bind _ (fun _ _ => False)); [|done].
    destruct (list_elem_of_split_length _ _ _ Hd) as (front & rest & Els & Elen). rewrite Els.
    apply (enqueue_conflict db front d rest e 0); [done|done|]. rewrite <-Elen. exact Ho.
Qed.
End Service.

(** ** Concrete runs *)

#[local] Existing Instance tallyIds.
#[local] Existing Instance still_clock.
#[local] Existing Instance code_units.

Definition seen_branch (local : string) (remote : option string) : InitializeEpicBranchInput :=
  mkBranchInput "run" "repo" "refs/heads/epic" "origin" "main" "base" local remote.

Definition a_candidate (result : option string) : IntegrationRepository :=
  mkTarget "repo" "source" "base" (Some "candidate") result
    (if present result then Some "integrated" else None).

(** A driver of one repository: the branch it sees, the result of the verification
    and the commit the branch is at. *)
Definition simple_driver (seen : InitializeEpicBranchInput) (verification : Outcome VerificationResult)
    (observed : string) : forall call, Outcome (answer call) := fun call =>
  match call with
  | ObserveBranches _ => inr [seen]
  | Resolve d => inr (Some (mkWork ("task-variant:run:1:" +:+ ds_taskId d)))
  | Inventory _ => inr iv_ready
  | Prepare _ => inr (pp_prepared, [a_candidate None])
  | Verify _ _ => verification
  | Observe _ _ => inr [mkRepositoryObservation "repo" (Some observed) oc_observed None]
  | Publish _ _ => inr (pb_integrated, [a_candidate (Some "candidate")])
  end.

Definition a_succeeded : list IntegrationEvent := map IWave (dispatched_a ++ settled_a settled_succeeded).

Definition passing : forall call, Outcome (answer call) :=
  simple_driver (seen_branch "base" None) (inr (mkVerification true "report")) "base".

(** A tick integrates task [a]. *)
Definition a_ticked (answers : nat) : list IntegrationEvent :=
  a_succeeded ++ ITick "run" two_tasks :: repeat (IAnswer 0 passing) answers.

Definition reached_integration (events : list IntegrationEvent) : IntegrationDb :=
  in_db (integration_after events (empty_integration ["run"])).

Example a_integrated :
  map en_lifecycle (entries (reached_integration (a_ticked 6)) "run") = [il_integrated] /\
  map br_expectedLocalSha (branches (reached_integration (a_ticked 6)) "run") = ["candidate"].
Proof. vm_compute. done. Qed.

(** The verification of [a] is interrupted, then the remote branch is found to have
    moved; the reconciliation publishes what was prepared. *)
Definition interrupted : forall call, Outcome (answer call) :=
  simple_driver (seen_branch "base" None) (inl (Some "interrupted")) "base".

Definition a_reconciled : list IntegrationEvent :=
  a_succeeded ++ ITick "run" two_tasks :: repeat (IAnswer 0 interrupted) 5 ++
  [ITick "run" two_tasks;
   IAnswer 1 (simple_driver (seen_branch "base" (Some "moved")) (inl None) "base")] ++
  repeat (IAnswer 1 interrupted) 4 ++
  [IAnswer 1 (simple_driver (seen_branch "base" None) (inl None) "candidate")].

(** The answer of the event, if it is one to a verification, is a rejection. *)
Definition rejects_verification (event : IntegrationEvent) : Prop :=
  match event with
  | IAnswer _ driver => forall work entry, exists error, driver (Verify work entry) = inl error
  | _ => True
  end.

(** A reconciliation publishes what was never verified, and reports it as verified.
    In [a_reconciled] every answer to a verification is a rejection; after it the
    branch is found to have moved and the prepared entry is reconciled. The
    reconciliation forwards the candidate: the entry is integrated without a
    verification report, the epic branch is expected at the candidate, and the
    combined verification gate of the task is passed. *)
Example unverified_integrated :
  Forall rejects_verification a_reconciled /\
  let db := reached_integration a_reconciled in
  map (fun r => (rg_trigger r, rg_lifecycle r, rg_resolution r)) (ig_reconciliations db) =
    [(rt_branch_drift, rc_integrated, Some rs_forward_published)] /\
  map (fun e => (en_lifecycle e, en_verification e, en_verificationReportId e)) (entries db "run") =
    [(il_integrated, cg_pending, None)] /\
  map br_expectedLocalSha (branches db "run") = ["candidate"] /\
  lp_combinedVerification <$> task_at "run" "a" (ig_waves db) = Some cg_passed.
Proof. split; [by repeat constructor; eexists|]. vm_compute. done. Qed.

Lemma integration_in_order_witness :
  map en_integrationOrdinal (entries (reached_integration (a_ticked 6)) "run") = [1].
Proof.
  destruct (integration_in_order ["run"] (a_ticked 6) "run") as [E _].
  - by repeat constructor.
  - exact E.
Defined.

Definition a_row (events : list IntegrationEvent) : TaskLifecycleProjection :=
  default no_row (task_at "run" "a" (ig_waves (reached_integration events))).

Lemma gates_follow_ledger_witness :
  match entry_for (reached_integration (a_ticked 6)) "run" "a" with
  | None => gates_of (a_row (a_ticked 6)) = no_gates
  | Some e => gates_of (a_row (a_ticked 6)) = expected_gates e /\ expected_phase e (lp_phase (a_row (a_ticked 6))) /\
      (lp_integration (a_row (a_ticked 6)) = ig_passed <-> en_lifecycle e = il_integrated) /\
      accounted (ig_reconciliations (reached_integration (a_ticked 6))) e
  end.
Proof.
  apply (gates_follow_ledger ["run"] (a_ticked 6) "run" "a" (a_row (a_ticked 6))).
  - by repeat constructor.
  - vm_compute. reflexivity.
Defined.

(** [a] is integrated before the tick is over, and stays so. *)
Lemma integration_final_witness :
  exists e', e' ∈ entries (in_db (integration_after (repeat (IAnswer 0 passing) 3)
      (integration_after (a_ticked 3) (empty_integration ["run"])))) "run" /\ en_taskId e' = "a".
Proof.
  destruct (integration_final ["run"] (a_ticked 3) (repeat (IAnswer 0 passing) 3) "run"
    (default (newEntry (mkQueueInput "" "" "" 0 0 0 "") "") (entry_for (reached_integration (a_ticked 3)) "run" "a")))
    as (e' & He' & L & _).
  - by repeat constructor.
  - vm_compute. left.
  - exists e'. split; [exact He'|]. transitivity (snd (entry_key e')); [reflexivity|].
    rewrite (el_key _ _ L). vm_compute. reflexivity.
Defined.

(** Tasks [a] and [b] are dispatched and queued; then [c] replaces [a]. *)
Definition own_repo (id : string) : TaskDagNodeV2 :=
  mkNode (mkTask id 1 ("hash-of-" +:+ id) None "packet" "packet-hash" "objective" "why" ("repo-" +:+ id)
    ["repo-" +:+ id] [] [] [] [] [] "2026-01-01T00:00:00Z") "pipeline" "profile" None.

Definition side_by_side : TaskDagV2 := small_dag 1 [own_repo "a"; own_repo "b"].

Definition both_queued : list IntegrationEvent :=
  [IWave (SInitialize "run" side_by_side);
   IWave (SDispatch (mkTickInput "run" side_by_side 2 [{| pcap_profileId := "profile"; pcap_available := true |}]
                       [] None None None));
   ITick "run" side_by_side; IAnswer 0 passing].

Definition b_and_c : TaskIntegrationTickInput :=
  tickInput "run" (small_dag 2 [own_repo "b"; own_repo "c"]) (ig_waves (reached_integration both_queued)).

Lemma order_change_rejected_witness :
  map en_integrationOrdinal (entries (reached_integration both_queued) "run") = [1; 2] /\
  exists error db', runSync (tickWith b_and_c [seen_branch "base" None]) (reached_integration both_queued) = (Thrown error, db').
Proof.
  split; [vm_compute; reflexivity|].
  destruct (order_change_rejected b_and_c [seen_branch "base" None] (reached_integration both_queued) 0
    (default (mkDispatch "" "" "" 0 0 "" "" "" None "" [] "") (head (orderedDispatches b_and_c)))
    (default (newEntry (mkQueueInput "" "" "" 0 0 0 "") "") (entry_for (reached_integration both_queued) "run" "b")))
    as (error & db' & E & _).
  - vm_compute. reflexivity.
  - vm_compute. reflexivity.
  - vm_compute. discriminate.
  - exists error, db'. exact E.
Defined.
