(* ===== verification/Replan.v ===== *)
(** * Replanning around hidden dependencies

    [packages/state/src/task-graph/replanning-store.ts] with the tables of
    migration 26 ([migrations/hidden-dependency-replanning.ts]), and the daemon's
    coordinator ([packages/daemon/src/runtime/epic-runtime-coordinator.ts]) over
    this store, the store of revisions ([GraphStore]) and the wave scheduler
    ([WaveService]).

    A finding reports that running tasks need something their graph does not say.
    It is recorded with the proposal of a new graph, the affected tasks are
    cancelled (quiescing), the proposal is submitted (revising), and the run goes
    on with the new graph (resumed) or stops (blocked).

    The coordinator waits for the scheduler between stretches of synchronous code.
    What a stretch has committed stays when it throws afterwards, so its
    operations return the databases in either case. *)

From stdpp Require Import gmap.
From S2P Require Import Prelude Recovery TaskDag TaskWave SqlList Revise GraphStore WaveStore WaveService Integration.

Local Open Scope Z_scope.
Local Open Scope st_scope.

(** ** Contracts *)

Inductive ReplanLifecycle := rl_quiescing | rl_revising | rl_resumed | rl_blocked.

#[export] Instance ReplanLifecycle_eq : EqDecision ReplanLifecycle.
Proof. solve_decision. Defined.

Definition replan_lifecycle_text (l : ReplanLifecycle) : string :=
  match l with
  | rl_quiescing => "quiescing" | rl_revising => "revising" | rl_resumed => "resumed"
  | rl_blocked => "blocked"
  end.

Inductive ReplanBlocker :=
  | rb_cancellation_unconfirmed | rb_prerequisite_unsatisfied
  | rb_integration_reconciliation_required | rb_revision_rejected | rb_missing_evidence.

Record HiddenDependencyReplan := mkReplan {
  hr_replanId : string;
  hr_finding : HiddenDependencyFinding;
  hr_proposal : TaskGraphRevisionProposal;
  hr_lifecycle : ReplanLifecycle;
  hr_interruptedTaskIds : list string;
  hr_replacementTaskIds : list string;
  hr_decisionId : option string;
  hr_resultingGraphRevision : option Z;
  hr_blocker : option ReplanBlocker;
  hr_revision : Z;
  hr_createdAt : string;
  hr_updatedAt : string }.

(** ** The schema *)

(** A row of [hidden_dependency_finding]. *)
Record FindingRow := mkFindingRow {
  fr_finding_id : string;
  fr_run_id : string;
  fr_graph_id : string;
  fr_graph_revision : Z;
  fr_revision_sha256 : string;
  fr_reporter_task_id : string;
  fr_finding : HiddenDependencyFinding;
  fr_discovered_at : string }.

(** A row of [hidden_dependency_replan]. *)
Record ReplanRow := mkReplanRow {
  rn_replan_id : string;
  rn_finding_id : string;
  rn_run_id : string;
  rn_lifecycle : ReplanLifecycle;
  rn_proposal : TaskGraphRevisionProposal;
  rn_replan : HiddenDependencyReplan;
  rn_revision : Z;
  rn_created_at : string;
  rn_updated_at : string }.

(** The tables, the ids of [run_projection] they refer to, and how many times have
    been read. *)
Record ReplanDb := mkReplanDb {
  replan_runs : list string;
  finding_rows : list FindingRow;
  replan_rows : list ReplanRow;
  replan_times : nat }.

Definition with_findings f (db : ReplanDb) : ReplanDb :=
  mkReplanDb (replan_runs db) (f (finding_rows db)) (replan_rows db) (replan_times db).
Definition with_replans f (db : ReplanDb) : ReplanDb :=
  mkReplanDb (replan_runs db) (finding_rows db) (f (replan_rows db)) (replan_times db).

Definition ROp (A : Type) : Type := ST ReplanDb string A.

#[export] Instance ExcludedRepository_eq : EqDecision ExcludedRepository.
Proof. solve_decision. Defined.
#[export] Instance TaskArtifactRequirement_eq : EqDecision TaskArtifactRequirement.
Proof. solve_decision. Defined.
#[export] Instance VerifyCheck_eq : EqDecision VerifyCheck.
Proof. solve_decision. Defined.
#[export] Instance TaskVerificationCheck_eq : EqDecision TaskVerificationCheck.
Proof. solve_decision. Defined.
#[export] Instance ExecutionTaskRevision_eq : EqDecision ExecutionTaskRevision.
Proof. solve_decision. Defined.
#[export] Instance TaskDagNodeV2_eq : EqDecision TaskDagNodeV2.
Proof. solve_decision. Defined.
#[export] Instance TaskDagV2_eq : EqDecision TaskDagV2.
Proof. solve_decision. Defined.
#[export] Instance TaskGraphChange_eq : EqDecision TaskGraphChange.
Proof. solve_decision. Defined.
#[export] Instance TaskRequirementMapping_eq : EqDecision TaskRequirementMapping.
Proof. solve_decision. Defined.
#[export] Instance HiddenDependencyRevisionTrigger_eq : EqDecision HiddenDependencyRevisionTrigger.
Proof. solve_decision. Defined.
#[export] Instance TaskGraphRevisionProposal_eq : EqDecision TaskGraphRevisionProposal.
Proof. solve_decision. Defined.
#[export] Instance HiddenDependencyFinding_eq : EqDecision HiddenDependencyFinding.
Proof. solve_decision. Defined.

(** [INSERT INTO hidden_dependency_finding]. *)
Definition insertFinding (row : FindingRow) : ROp unit :=
  let* db := get in
  ensure ((1 <=? fr_graph_revision row) && sha_text (fr_revision_sha256 row)) "CHECK" ;;;
  ensure (negb (exists_where (fun f => str_eqb (fr_finding_id f) (fr_finding_id row)) (finding_rows db)))
    "hidden_dependency_finding.finding_id" ;;;
  ensure (set_has (replan_runs db) (fr_run_id row)) "FOREIGN KEY" ;;;
  modify (with_findings (fun rows => rows ++ [row])).

Definition unfinished (l : ReplanLifecycle) : bool :=
  match l with rl_quiescing | rl_revising => true | rl_resumed | rl_blocked => false end.

(** The index [hidden_dependency_replan_active]. *)
Definition one_unfinished (rows : list ReplanRow) : bool :=
  bool_decide (NoDup (map rn_run_id (List.filter (fun r => unfinished (rn_lifecycle r)) rows))).

Definition replan_is (replanId : string) (row : ReplanRow) : bool := str_eqb (rn_replan_id row) replanId.

Definition finding_is (findingId : string) (row : ReplanRow) : bool := str_eqb (rn_finding_id row) findingId.

(** [INSERT INTO hidden_dependency_replan]. *)
Definition insertReplan (row : ReplanRow) : ROp unit :=
  let* db := get in
  ensure (1 <=? rn_revision row) "CHECK" ;;;
  ensure (negb (exists_where (replan_is (rn_replan_id row)) (replan_rows db)))
    "hidden_dependency_replan.replan_id" ;;;
  ensure (negb (exists_where (finding_is (rn_finding_id row)) (replan_rows db)))
    "hidden_dependency_replan.finding_id" ;;;
  ensure (one_unfinished (replan_rows db ++ [row])) "hidden_dependency_replan_active" ;;;
  ensure (set_has (replan_runs db) (rn_run_id row) &&
          exists_where (fun f => str_eqb (fr_finding_id f) (rn_finding_id row)) (finding_rows db))
    "FOREIGN KEY" ;;;
  modify (with_replans (fun rows => rows ++ [row])).

Definition canAdvance (from to : ReplanLifecycle) : bool :=
  match from, to with
  | rl_quiescing, (rl_revising | rl_blocked) | rl_revising, (rl_resumed | rl_blocked) => true
  | _, _ => false
  end.

(** The trigger [hidden_dependency_replan_causal_update]. *)
Definition causal_replan (old new : ReplanRow) : bool :=
  str_eqb (rn_replan_id new) (rn_replan_id old) && str_eqb (rn_finding_id new) (rn_finding_id old) &&
  str_eqb (rn_run_id new) (rn_run_id old) && bool_decide (rn_proposal new = rn_proposal old) &&
  str_eqb (rn_created_at new) (rn_created_at old) && (rn_revision new =? rn_revision old + 1).

(** [UPDATE hidden_dependency_replan SET f WHERE p], with its [changes].  The
    triggers [lifecycle_order] and [terminal] are [canAdvance]. *)
Definition updateReplans (p : ReplanRow -> bool) (f : ReplanRow -> ReplanRow) : ROp Z :=
  let* db := get in
  let hits := select_where p (replan_rows db) in
  ensure (forallb (fun row => causal_replan row (f row)) hits)
    "hidden dependency replan must advance causally" ;;;
  ensure (forallb (fun row => canAdvance (rn_lifecycle row) (rn_lifecycle (f row))) hits)
    "hidden dependency replan lifecycle is out of order" ;;;
  ensure (forallb (fun row => 1 <=? rn_revision (f row)) hits) "CHECK" ;;;
  ensure (one_unfinished (update_where p f (replan_rows db))) "hidden_dependency_replan_active" ;;;
  modify (with_replans (update_where p f)) ;;;
  ret (count_where p (replan_rows db)).

(** ** The store *)

Definition readReplan (replanId : string) : ROp HiddenDependencyReplan :=
  let* db := get in
  let* row := orThrow ("unknown hidden dependency replan " +:+ replanId)
                (select_one (replan_is replanId) (replan_rows db)) in
  ret (rn_replan row).

(** The replan a report creates. *)
Definition newReplan (replanId : string) (finding : HiddenDependencyFinding)
    (proposal : TaskGraphRevisionProposal) (trigger : HiddenDependencyRevisionTrigger)
    (replacementTaskIds : list string) : HiddenDependencyReplan :=
  mkReplan replanId finding proposal rl_quiescing (sort_strings (ht_interruptedTaskIds trigger))
    (sort_strings replacementTaskIds) None None None 1 (hf_discoveredAt finding)
    (hf_discoveredAt finding).

Definition recordFinding (finding : HiddenDependencyFinding) : ROp unit :=
  let* db := get in
  match select_one (fun f => str_eqb (fr_finding_id f) (hf_findingId finding)) (finding_rows db) with
  | Some existing =>
      ensure (bool_decide (fr_finding existing = finding))
        "hidden dependency finding replay does not match persisted evidence"
  | None =>
      insertFinding (mkFindingRow (hf_findingId finding) (hf_runId finding) (hf_graphId finding)
        (hf_graphRevision finding) (hf_revisionSha256 finding) (hf_reporterTaskId finding) finding
        (hf_discoveredAt finding))
  end.

(** A proposal without a trigger is not one this operation is given: reading the
    trigger would throw. *)
Definition recordReplan (replanId : string) (finding : HiddenDependencyFinding)
    (proposal : TaskGraphRevisionProposal) (replacementTaskIds : list string)
    : ROp HiddenDependencyReplan :=
  let* trigger := orThrow "TypeError" (pr_trigger proposal) in
  ensure (str_eqb (ht_findingId trigger) (hf_findingId finding))
    "hidden dependency proposal cites a different finding" ;;;
  ensure (str_eqb (pr_runId proposal) (hf_runId finding) &&
          str_eqb (pr_graphId proposal) (hf_graphId finding) &&
          (pr_expectedGraphRevision proposal =? hf_graphRevision finding) &&
          str_eqb (pr_expectedRevisionSha256 proposal) (hf_revisionSha256 finding))
    "hidden dependency proposal does not cite the finding baseline" ;;;
  recordFinding finding ;;;
  let* db := get in
  let replan := newReplan replanId finding proposal trigger replacementTaskIds in
  match select_one (finding_is (hf_findingId finding)) (replan_rows db) with
  | Some existing =>
      let persisted := rn_replan existing in
      ensure (bool_decide (rn_proposal existing = proposal) &&
              str_eqb (hr_replanId persisted) replanId &&
              bool_decide (hr_replacementTaskIds persisted = hr_replacementTaskIds replan) &&
              bool_decide (hr_interruptedTaskIds persisted = hr_interruptedTaskIds replan))
        "hidden dependency replan replay does not match persisted state" ;;;
      ret persisted
  | None =>
      insertReplan (mkReplanRow replanId (hf_findingId finding) (hf_runId finding) rl_quiescing
        proposal replan 1 (hr_createdAt replan) (hr_updatedAt replan)) ;;;
      ret replan
  end.

(** [undefined] fields of the input keep what the replan has. *)
Record AdvanceInput := mkAdvance {
  ad_replanId : string;
  ad_expectedLifecycle : ReplanLifecycle;
  ad_lifecycle : ReplanLifecycle;
  ad_decisionId : option (option string);
  ad_resultingGraphRevision : option (option Z);
  ad_blocker : option (option ReplanBlocker) }.

Definition advancedReplan (input : AdvanceInput) (now : string) (current : HiddenDependencyReplan)
    : HiddenDependencyReplan :=
  mkReplan (hr_replanId current) (hr_finding current) (hr_proposal current) (ad_lifecycle input)
    (hr_interruptedTaskIds current) (hr_replacementTaskIds current)
    (default (hr_decisionId current) (ad_decisionId input))
    (default (hr_resultingGraphRevision current) (ad_resultingGraphRevision input))
    (default (hr_blocker current) (ad_blocker input)) (hr_revision current + 1)
    (hr_createdAt current) now.

(** [SET lifecycle = ?, replan_json = ?, revision = ?, updated_at = ?]. *)
Definition setReplan (next : HiddenDependencyReplan) (row : ReplanRow) : ReplanRow :=
  mkReplanRow (rn_replan_id row) (rn_finding_id row) (rn_run_id row) (hr_lifecycle next)
    (rn_proposal row) next (hr_revision next) (rn_created_at row) (hr_updatedAt next).

Section Store.
Context `{Clock}.

Definition replanTime : ROp string :=
  let* db := get in
  modify (fun db => mkReplanDb (replan_runs db) (finding_rows db) (replan_rows db) (S (replan_times db))) ;;;
  ret (clock_text (replan_times db)).

Definition advanceReplan (input : AdvanceInput) : ROp HiddenDependencyReplan :=
  let* current := readReplan (ad_replanId input) in
  let message := "invalid hidden dependency transition " +:+
    replan_lifecycle_text (hr_lifecycle current) +:+ " -> " +:+
    replan_lifecycle_text (ad_lifecycle input) in
  if negb (bool_decide (hr_lifecycle current = ad_expectedLifecycle input)) then
    if bool_decide (hr_lifecycle current = ad_lifecycle input) then ret current
    else throw message
  else
    ensure (canAdvance (hr_lifecycle current) (ad_lifecycle input)) message ;;;
    let* now := replanTime in
    let next := advancedReplan input now current in
    let* changes := updateReplans
      (fun row => replan_is (hr_replanId next) row &&
                  bool_decide (rn_lifecycle row = ad_expectedLifecycle input)) (setReplan next) in
    ensure (changes =? 1) "hidden dependency compare-and-set failed" ;;;
    ret next.

Definition activeReplan (db : ReplanDb) (runId : string) : option HiddenDependencyReplan :=
  rn_replan <$> select_one (fun row => str_eqb (rn_run_id row) runId && unfinished (rn_lifecycle row))
                  (replan_rows db).

Definition replan_lt (l r : ReplanRow) : bool :=
  if str_eqb (rn_created_at l) (rn_created_at r) then str_ltb (rn_replan_id l) (rn_replan_id r)
  else str_ltb (rn_created_at l) (rn_created_at r).

Definition replans (db : ReplanDb) (runId : string) : list HiddenDependencyReplan :=
  map rn_replan (sort_by replan_lt
    (select_where (fun row => str_eqb (rn_run_id row) runId) (replan_rows db))).

Definition finding_lt (l r : FindingRow) : bool :=
  if str_eqb (fr_discovered_at l) (fr_discovered_at r) then str_ltb (fr_finding_id l) (fr_finding_id r)
  else str_ltb (fr_discovered_at l) (fr_discovered_at r).

Definition findings (db : ReplanDb) (runId : string) : list HiddenDependencyFinding :=
  map fr_finding (sort_by finding_lt
    (select_where (fun row => str_eqb (fr_run_id row) runId) (finding_rows db))).
End Store.

(** ** The coordinator *)

(** The databases of a run, which are tables of one database file. *)
Record EpicDb := mkEpicDb {
  ep_graphs : GraphDb;
  ep_waves : WaveDb;
  ep_replans : ReplanDb }.

(** A stretch of the coordinator: what it returns or throws, and the databases. *)
Definition EOp (A : Type) : Type := EpicDb -> (string + A) * EpicDb.

Definition eret {A} (a : A) : EOp A := fun db => (inr a, db).
Definition ethrow {A} (message : string) : EOp A := fun db => (inl message, db).

Definition ebind {A B} (m : EOp A) (k : A -> EOp B) : EOp B := fun db =>
  match m db with
  | (inl message, db') => (inl message, db')
  | (inr a, db') => k a db'
  end.

(** Operations of the stores, each a transaction of its own. *)
Definition onReplans {A} (m : ROp A) : EOp A := fun db =>
  match m (ep_replans db) with
  | inl message => (inl message, db)
  | inr (a, replans) => (inr a, mkEpicDb (ep_graphs db) (ep_waves db) replans)
  end.

Definition onGraphs {A} (m : GOp A) : EOp A := fun db =>
  match m (ep_graphs db) with
  | inl message => (inl message, db)
  | inr (a, graphs) => (inr a, mkEpicDb graphs (ep_waves db) (ep_replans db))
  end.

Record EpicRuntimeTickInput := mkEpicInput {
  et_runId : string;
  et_maxConcurrentWorkers : Z;
  et_profiles : list ProfileCapacity;
  et_accounts : list AccountCapacity;
  et_externalActiveWorkers : option Z;
  et_unavailableRepositoryIds : option (list string);
  et_maxGraphRevisions : Z }.

(** What the coordinator passes to the scheduler. *)
Definition schedulerInput (input : EpicRuntimeTickInput) (dag : TaskDagV2) (unresolved : bool)
    : TaskWaveSchedulerTickInput :=
  mkTickInput (et_runId input) dag (et_maxConcurrentWorkers input) (et_profiles input)
    (et_accounts input) (Some unresolved) (et_externalActiveWorkers input)
    (et_unavailableRepositoryIds input).

Definition reconciling (status : option TaskIntegrationStatus) : bool :=
  match status with
  | None => false
  | Some s =>
      existsb (fun e => bool_decide (en_lifecycle e = il_reconciliation_required)) (is_entries s) ||
      existsb (fun r => bool_decide (rg_lifecycle r ∈ [rc_blocked; rc_forwarding])) (is_reconciliations s)
  end.

(** [planningStates] of the coordinator, over the rows of a status. *)
Definition statusStates (tasks : list TaskLifecycleProjection) (activeTaskIds : list string)
    : list TaskPlanningState :=
  map planningState (List.filter (fun t => set_has (set_of activeTaskIds) (lp_taskId t)) tasks).

Definition findTask (tasks : list TaskLifecycleProjection) (taskId : string)
    : option TaskLifecycleProjection := List.find (fun t => str_eqb (lp_taskId t) taskId) tasks.

(** An interrupted task whose cancellation will not come. *)
Definition unconfirmed (task : option TaskLifecycleProjection) : bool :=
  match task with
  | None => true
  | Some t => phase_in [ph_recovery_required; ph_failed] (lp_phase t)
  end.

Definition unsatisfied (task : option TaskLifecycleProjection) : bool :=
  match task with
  | None => true
  | Some t => phase_in [ph_failed; ph_cancelled; ph_blocked; ph_recovery_required] (lp_phase t)
  end.

(** A prerequisite that is not yet integrated. *)
Definition awaitingIntegrated (task : option TaskLifecycleProjection) : bool :=
  match task with
  | None => false
  | Some t =>
      negb (bool_decide (lp_phase t = ph_succeeded)) ||
      negb (bool_decide (lp_completionContract t = cg_passed)) ||
      negb (bool_decide (lp_integration t = ig_passed)) ||
      negb (bool_decide (lp_combinedVerification t = cg_passed))
  end.

Definition confirmed (task : option TaskLifecycleProjection) : bool :=
  match task with None => false | Some t => bool_decide (lp_phase t = ph_cancelled) end.

(** [decision.record === null] with diagnostics about the evidence. *)
Definition missingEvidence (decision : TaskGraphRevisionDecision) : bool :=
  existsb (fun d => String.prefix "task-graph-revision.hidden-dependency-evidence" (dg_code d))
    (dn_diagnostics decision).

(** How the first part of a coordinator's tick ends: with a status, with the
    result of the tick, or with another tick of the scheduler on the new graph. *)
Inductive TickEnd :=
  | te_status
  | te_result
  | te_again (graph : TaskGraphRevisionRecord).

Declare Scope epic_scope.
Notation "'let!' x ':=' m 'in' k" := (ebind m (fun x => k))
  (at level 200, x pattern, m at level 100, k at level 200) : epic_scope.
Local Open Scope epic_scope.

Section Coordinator.
Context `{Sha256} `{IdGenerator} `{Clock} `{LocaleCompare}.

Definition blockReplan (replan : HiddenDependencyReplan) (blocker : ReplanBlocker)
    : EOp HiddenDependencyReplan :=
  onReplans (advanceReplan (mkAdvance (hr_replanId replan) (hr_lifecycle replan) rl_blocked None None
    (Some (Some blocker)))).

(** The replan after the part for [quiescing]; [None] when the tick returns. *)
Definition quiesce (replan : HiddenDependencyReplan) (tasks : list TaskLifecycleProjection)
    (integration : option TaskIntegrationStatus) : EOp (option HiddenDependencyReplan) :=
  let interrupted := map (findTask tasks) (hr_interruptedTaskIds replan) in
  let prerequisites := map (findTask tasks) (hf_prerequisiteTaskIds (hr_finding replan)) in
  if existsb unconfirmed interrupted then
    let! _ := blockReplan replan rb_cancellation_unconfirmed in eret None
  else if reconciling integration then
    let! _ := blockReplan replan rb_integration_reconciliation_required in eret None
  else if existsb unsatisfied prerequisites then
    let! _ := blockReplan replan rb_prerequisite_unsatisfied in eret None
  else if forallb confirmed interrupted && negb (existsb awaitingIntegrated prerequisites) then
    let! next := onReplans (advanceReplan (mkAdvance (hr_replanId replan) rl_quiescing rl_revising
                   None None None)) in
    eret (Some next)
  else eret (Some replan).

Definition resume (replan : HiddenDependencyReplan) (decisionId : option string) (revision : Z)
    : EOp HiddenDependencyReplan :=
  onReplans (advanceReplan (mkAdvance (hr_replanId replan) rl_revising rl_resumed (Some decisionId)
    (Some (Some revision)) None)).

(** The part for [revising]; the decision's id and time are what the service
    reads when it submits. *)
Definition revise (input : EpicRuntimeTickInput) (replan : HiddenDependencyReplan)
    (tasks : list TaskLifecycleProjection) (decisionId decidedAt : string) : EOp TickEnd := fun db =>
  match active (ep_graphs db) (et_runId input) with
  | None => (inl "task graph is not initialized", db)
  | Some graph =>
      if (rr_graphRevision graph =? dag_graphRevision (pr_proposedDag (hr_proposal replan))) &&
         match rr_trigger graph with
         | Some t => str_eqb (ht_findingId t) (hf_findingId (hr_finding replan))
         | None => false
         end
      then (let! _ := resume replan (rr_decisionId graph) (rr_graphRevision graph) in
            eret (te_again graph)) db
      else
        (let! outcome := onGraphs (submit (mkPropose (hr_proposal replan)
           (statusStates tasks (map taskId (dag_nodes (rr_dag graph)))) (et_maxGraphRevisions input)
           decisionId decidedAt (Some (hr_finding replan)))) in
         match oc_record outcome with
         | None =>
             let! _ := blockReplan replan
               (if missingEvidence (oc_decision outcome) then rb_missing_evidence
                else rb_revision_rejected) in
             eret te_status
         | Some record =>
             let! _ := resume replan (Some (dn_decisionId (oc_decision outcome)))
                         (rr_graphRevision record) in
             eret (te_again record)
         end) db
  end.

(** The stretch of [tick] after the scheduler's tick has returned [tasks];
    [replan] was read before. *)
Definition continueTick (input : EpicRuntimeTickInput) (replan : option HiddenDependencyReplan)
    (tasks : list TaskLifecycleProjection) (integration : option TaskIntegrationStatus)
    (decisionId decidedAt : string) : EOp TickEnd :=
  match replan with
  | None => eret te_result
  | Some r =>
      let! next := if bool_decide (hr_lifecycle r = rl_quiescing) then quiesce r tasks integration
                   else eret (Some r) in
      match next with
      | None => eret te_status
      | Some r' =>
          if bool_decide (hr_lifecycle r' = rl_revising)
          then revise input r' tasks decisionId decidedAt else eret te_result
      end
  end.

(** The stretch of [tick] before the scheduler's tick: its input, and the replan. *)
Definition startTick (input : EpicRuntimeTickInput) (db : EpicDb)
    : string + (TaskWaveSchedulerTickInput * option HiddenDependencyReplan) :=
  match active (ep_graphs db) (et_runId input) with
  | None => inl ("task graph is not initialized for " +:+ et_runId input)
  | Some graph =>
      let replan := activeReplan (ep_replans db) (et_runId input) in
      inr (schedulerInput input (rr_dag graph) (present replan), replan)
  end.

Definition supersedes_one (taskId : string) (change : TaskGraphChange) : bool :=
  is_supersede change && bool_decide (gc_beforeTaskIds change = [taskId]) &&
  (length (gc_afterTaskIds change) =? 1)%nat.

(** Why a new report may not interrupt the task. *)
Definition interruptible (tasks : list TaskLifecycleProjection) (changes : list TaskGraphChange)
    (taskId : string) : option string :=
  if negb match findTask tasks taskId with
          | None => false
          | Some t => phase_in [ph_dispatching; ph_active; ph_retrying; ph_cancelling] (lp_phase t)
          end
  then Some ("hidden dependency interrupted task " +:+ taskId +:+ " is not active")
  else if negb (existsb (supersedes_one taskId) changes)
  then Some ("hidden dependency interrupted task " +:+ taskId +:+ " has no replacement")
  else None.

(** [reportHiddenDependency] up to the first cancellation it waits for. *)
Definition reportHiddenDependency (finding : HiddenDependencyFinding)
    (proposal : TaskGraphRevisionProposal) : EOp HiddenDependencyReplan := fun db =>
  let run := hf_runId finding in
  let fail message : (string + HiddenDependencyReplan) * EpicDb := (inl message, db) in
  match active (ep_graphs db) run, pr_trigger proposal with
  | None, _ => fail ("task graph is not initialized for " +:+ run)
  | Some graph, trigger =>
      if negb (str_eqb (rr_graphId graph) (hf_graphId finding) &&
               (rr_graphRevision graph =? hf_graphRevision finding) &&
               str_eqb (rr_revisionSha256 graph) (hf_revisionSha256 finding))
      then fail "hidden dependency finding does not cite the active graph"
      else if negb (set_has (hf_affectedTaskIds finding) (hf_reporterTaskId finding))
      then fail "hidden dependency reporter must be included in affected tasks"
      else
        match trigger with
        | None => fail "TypeError"
        | Some t =>
            if negb (length (ht_interruptedTaskIds t) =? length (hf_affectedTaskIds finding))%nat ||
               negb (forallb (set_has (hf_affectedTaskIds finding)) (ht_interruptedTaskIds t))
            then fail "hidden dependency interrupted tasks must match affected tasks"
            else if negb (forallb (set_has (set_of (map taskId (dag_nodes (rr_dag graph)))))
                            (hf_prerequisiteTaskIds finding))
            then fail "hidden dependency prerequisite is not in the active graph"
            else
              let existing := List.find (fun r => str_eqb (hf_findingId (hr_finding r)) (hf_findingId finding))
                                (replans (ep_replans db) run) in
              let refusals :=
                match existing with
                | Some _ => []
                | None => omap (interruptible (projections (ep_waves db) run) (pr_changes proposal))
                            (ht_interruptedTaskIds t)
                end in
              match refusals with
              | message :: _ => fail message
              | [] =>
                  onReplans (recordReplan
                    ("hidden-dependency-replan:" +:+ run +:+ ":" +:+ hf_findingId finding) finding
                    proposal
                    (flat_map gc_afterTaskIds (List.filter is_supersede (pr_changes proposal)))) db
              end
        end
  end.

(** ** Interleavings *)

(** Ticks that wait for the scheduler, with the replan they read when they
    started; then with the rows the scheduler has returned. *)
Inductive Waiting :=
  | WScheduling (input : EpicRuntimeTickInput) (replan : option HiddenDependencyReplan)
  | WReturned (input : EpicRuntimeTickInput) (replan : option HiddenDependencyReplan)
      (tasks : list TaskLifecycleProjection).

Record Epic := mkEpic {
  epic_db : EpicDb;
  epic_waiting : list Waiting }.

(** What can happen next: a call of the revision service, a report, a stretch of
    the scheduler (of a tick of the coordinator or of another caller), the start
    of a tick, the return of its scheduler's tick, and its continuation. *)
Inductive Event :=
  | EInitialize (input : InitialRevisionInput)
  | ESubmit (input : ProposeInput)
  | EReport (finding : HiddenDependencyFinding) (proposal : TaskGraphRevisionProposal)
  | EWave (stretch : Stretch)
  | EStart (input : EpicRuntimeTickInput)
  | EReturn (i : nat)
  | EContinue (i : nat) (integration : option TaskIntegrationStatus) (decisionId decidedAt : string).

Definition epic_step (event : Event) (e : Epic) : Epic :=
  let db := epic_db e in
  let waiting := epic_waiting e in
  match event with
  | EInitialize input => mkEpic (snd (onGraphs (initializeGraph input) db)) waiting
  | ESubmit input => mkEpic (snd (onGraphs (submit input) db)) waiting
  | EReport finding proposal => mkEpic (snd (reportHiddenDependency finding proposal db)) waiting
  | EWave stretch =>
      mkEpic (mkEpicDb (ep_graphs db) (run_stretch stretch (ep_waves db)) (ep_replans db)) waiting
  | EStart input =>
      match startTick input db with
      | inl _ => e
      | inr (_, replan) => mkEpic db (waiting ++ [WScheduling input replan])
      end
  | EReturn i =>
      match waiting !! i with
      | Some (WScheduling input replan) =>
          mkEpic db (<[i := WReturned input replan (projections (ep_waves db) (et_runId input))]> waiting)
      | _ => e
      end
  | EContinue i integration decisionId decidedAt =>
      match waiting !! i with
      | Some (WReturned input replan tasks) =>
          mkEpic (snd (continueTick input replan tasks integration decisionId decidedAt db))
            (delete i waiting)
      | _ => e
      end
  end.

Definition epic_after (events : list Event) (e : Epic) : Epic :=
  fold_left (fun e event => epic_step event e) events e.

Definition empty_epic (runs : list string) : Epic :=
  mkEpic (mkEpicDb (mkGraphDb runs [] [] []) (empty_waves runs) (mkReplanDb runs [] [] 0)) [].
End Coordinator.
