(* ===== verification/ReplanProps.v ===== *)
(** * Replanning around hidden dependencies: the claims

    Every state the coordinator reaches, however its ticks, reports and the
    scheduler's stretches interleave, satisfies an invariant: replans are recorded
    with their findings, advance along their lifecycle, and a resumed one names a
    revision of the run's graph that its finding asked for.  A tick that waits
    holds a replan and rows that are earlier versions of the stored ones. *)

From stdpp Require Import gmap.
From S2P Require Import Prelude Recovery SqlList TaskDag TaskWave TaskProps Revise ReviseSpec ReviseProps GraphStore GraphStoreProps WaveStore WaveService WaveInv WaveProps WavePropagate Replan.

Local Open Scope Z_scope.

(** ** How a replan advances *)

Definition replan_step (old new : HiddenDependencyReplan) : Prop :=
  exists input now, canAdvance (hr_lifecycle old) (ad_lifecycle input) = true /\
    new = advancedReplan input now old.

Definition replan_later : relation HiddenDependencyReplan := rtc replan_step.

Lemma advance_unfinished from to : canAdvance from to = true -> unfinished from = true /\ to <> rl_quiescing.
Proof. by destruct from, to. Qed.

(** What stays, and that finished replans are final. *)
Record later_facts (r r' : HiddenDependencyReplan) : Prop := {
  lf_id : hr_replanId r' = hr_replanId r;
  lf_finding : hr_finding r' = hr_finding r;
  lf_proposal : hr_proposal r' = hr_proposal r;
  lf_interrupted : hr_interruptedTaskIds r' = hr_interruptedTaskIds r;
  lf_final : unfinished (hr_lifecycle r) = false -> r' = r;
  lf_quiescing : hr_lifecycle r' = rl_quiescing -> r' = r
}.

Lemma replan_later_facts r r' : replan_later r r' -> later_facts r r'.
Proof.
  induction 1 as [r|r r1 r2 (input & now & Hc & ->) _ [E1 E2 E3 E4 E5 E6]]; [done|].
  destruct (advance_unfinished _ _ Hc) as [Hu Hq]. split; cbn in *; try done.
  - rewrite Hu. done.
  - intros E. specialize (E6 E). rewrite E6 in E. done.
Qed.

(** ** The invariant of the store *)

(** The outcome a replan reports, by its lifecycle. *)
Definition outcome_ok (graphs : GraphDb) (r : HiddenDependencyReplan) : Prop :=
  match hr_lifecycle r with
  | rl_quiescing | rl_revising =>
      hr_decisionId r = None /\ hr_resultingGraphRevision r = None /\ hr_blocker r = None
  | rl_resumed =>
      hr_blocker r = None /\
      exists revision t, revision_row revision ∈ graph_revisions graphs /\
        rr_runId revision = hf_runId (hr_finding r) /\
        hr_resultingGraphRevision r = Some (rr_graphRevision revision) /\
        hr_decisionId r = rr_decisionId revision /\
        rr_trigger revision = Some t /\ ht_findingId t = hf_findingId (hr_finding r)
  | rl_blocked =>
      is_Some (hr_blocker r) /\ hr_decisionId r = None /\ hr_resultingGraphRevision r = None
  end.

(** The proposal cites the finding and its baseline. *)
Record cites (r : HiddenDependencyReplan) : Prop := {
  ci_trigger : exists t, pr_trigger (hr_proposal r) = Some t /\
    ht_findingId t = hf_findingId (hr_finding r) /\
    hr_interruptedTaskIds r = sort_strings (ht_interruptedTaskIds t);
  ci_run : pr_runId (hr_proposal r) = hf_runId (hr_finding r);
  ci_graph : pr_graphId (hr_proposal r) = hf_graphId (hr_finding r);
  ci_revision : pr_expectedGraphRevision (hr_proposal r) = hf_graphRevision (hr_finding r);
  ci_sha : pr_expectedRevisionSha256 (hr_proposal r) = hf_revisionSha256 (hr_finding r)
}.

(** The columns of a row are those of the replan it holds. *)
Record columns_ok (row : ReplanRow) : Prop := {
  cr_id : hr_replanId (rn_replan row) = rn_replan_id row;
  cr_finding : hf_findingId (hr_finding (rn_replan row)) = rn_finding_id row;
  cr_run : hf_runId (hr_finding (rn_replan row)) = rn_run_id row;
  cr_lifecycle : hr_lifecycle (rn_replan row) = rn_lifecycle row;
  cr_proposal : hr_proposal (rn_replan row) = rn_proposal row;
  cr_revision : hr_revision (rn_replan row) = rn_revision row;
  cr_positive : 1 <= rn_revision row;
  cr_cites : cites (rn_replan row)
}.

Record replan_inv (graphs : GraphDb) (db : ReplanDb) : Prop := {
  ri_rows : forall row, row ∈ replan_rows db -> columns_ok row /\ outcome_ok graphs (rn_replan row);
  ri_ids : NoDup (map rn_replan_id (replan_rows db));
  ri_findings : NoDup (map rn_finding_id (replan_rows db));
  ri_one : one_unfinished (replan_rows db) = true;
  ri_recorded : forall row, row ∈ replan_rows db -> exists f, f ∈ finding_rows db /\
    fr_finding f = hr_finding (rn_replan row);
  ri_baseline : forall f, f ∈ finding_rows db ->
    1 <= hf_graphRevision (fr_finding f) /\ fr_run_id f = hf_runId (fr_finding f)
}.

(** Replans only advance. *)
Definition replans_later (db db' : ReplanDb) : Prop :=
  forall row, row ∈ replan_rows db -> exists row', row' ∈ replan_rows db' /\
    replan_later (rn_replan row) (rn_replan row').

#[export] Instance replans_later_refl : Reflexive replans_later.
Proof. intros db row Hr. by exists row. Qed.

#[export] Instance replans_later_trans : Transitive replans_later.
Proof.
  intros db1 db2 db3 H1 H2 row Hr. destruct (H1 _ Hr) as (row2 & Hr2 & L2).
  destruct (H2 _ Hr2) as (row3 & Hr3 & L3). exists row3. split; [done|]. by etrans.
Qed.

Lemma kept_later db db' : (forall row, row ∈ replan_rows db -> row ∈ replan_rows db') -> replans_later db db'.
Proof. intros Hk row Hr. exists row. split; [by apply Hk|done]. Qed.

Lemma outcome_mono graphs graphs' r :
  (forall row, row ∈ graph_revisions graphs -> row ∈ graph_revisions graphs') ->
  outcome_ok graphs r -> outcome_ok graphs' r.
Proof.
  intros Hsub. unfold outcome_ok. destruct (hr_lifecycle r); try done.
  intros (? & revision & t & Hin & Ho). split; [done|]. exists revision, t. split; [by apply Hsub|done].
Qed.

Lemma replan_inv_mono graphs graphs' db :
  (forall row, row ∈ graph_revisions graphs -> row ∈ graph_revisions graphs') ->
  replan_inv graphs db -> replan_inv graphs' db.
Proof.
  intros Hsub [H1 H2 H3 H4 H5 H6]. split; try done. intros row Hr. destruct (H1 _ Hr) as [Hok Ho].
  split; [done|]. by eapply outcome_mono.
Qed.

(** ** Recording *)

Lemma recordFinding_run finding db u db' :
  recordFinding finding db = inr (u, db') ->
  (forall f, f ∈ finding_rows db -> 1 <= hf_graphRevision (fr_finding f) /\ fr_run_id f = hf_runId (fr_finding f)) ->
  replan_rows db' = replan_rows db /\ replan_runs db' = replan_runs db /\
  (forall f, f ∈ finding_rows db -> f ∈ finding_rows db') /\
  (exists f, f ∈ finding_rows db' /\ fr_finding f = finding) /\
  (forall f, f ∈ finding_rows db' -> 1 <= hf_graphRevision (fr_finding f) /\ fr_run_id f = hf_runId (fr_finding f)).
Proof.
  unfold recordFinding. intros Hr Hf. run_inv Hr.
  destruct (select_one _ _) as [existing|] eqn:Es.
  - run_inv Hr. apply bool_decide_eq_true in Hr. apply select_one_Some in Es as [Hin _].
    split_and!; try done. by exists existing.
  - unfold insertFinding in Hr. run_inv Hr. apply andb_prop in E as [E _]. apply Z.leb_le in E. cbn.
    split_and!; try done.
    + intros f Hin. apply elem_of_app. by left.
    + eexists. split; [apply elem_of_app; right; by left|done].
    + intros f [Hin| ->]%elem_of_snoc; [by apply Hf|]. done.
Qed.

Lemma insertReplan_run row db u db' :
  insertReplan row db = inr (u, db') ->
  db' = with_replans (fun rows => rows ++ [row]) db /\ 1 <= rn_revision row /\
  (forall r, r ∈ replan_rows db -> rn_replan_id r <> rn_replan_id row) /\
  (forall r, r ∈ replan_rows db -> rn_finding_id r <> rn_finding_id row) /\
  one_unfinished (replan_rows db ++ [row]) = true.
Proof.
  unfold insertReplan. intros Hr. run_inv Hr. apply Z.leb_le in E. apply negb_true_iff in E0, E1.
  split_and!; try done; intros r Hr; apply str_eqb_false.
  - apply (proj1 (exists_where_false _ _) E0 r Hr).
  - apply (proj1 (exists_where_false _ _) E1 r Hr).
Qed.

(** A report adds a replan or finds the one of its finding. *)
Lemma recordReplan_run graphs id finding proposal replacements db r db' :
  recordReplan id finding proposal replacements db = inr (r, db') ->
  replan_inv graphs db ->
  replan_inv graphs db' /\ forall row, row ∈ replan_rows db -> row ∈ replan_rows db'.
Proof.
  unfold recordReplan. intros Hr [H1 H2 H3 H4 H5 H6]. run_inv Hr. rename a into t, E0 into Ecite, E1 into Ebase.
  match goal with E : recordFinding _ _ = inr _ |- _ =>
    apply recordFinding_run in E as (Erows & _ & Hkeep & Hnew & Hbase); [|exact H6] end.
  assert (forall row, row ∈ replan_rows db -> exists f, f ∈ finding_rows s /\
    fr_finding f = hr_finding (rn_replan row)) as Hrec.
  { intros row Hrow. destruct (H5 _ Hrow) as (f & Hf & E'). exists f. split; [by apply Hkeep|done]. }
  destruct (select_one (finding_is _) _) as [existing|] eqn:Es.
  - run_inv Hr. split; [split|]; rewrite ?Erows; try done.
  - run_step Hr. apply insertReplan_run in E0 as (-> & _ & Hid & Hfid & Hone). run_inv Hr. rewrite Erows in *.
    repeat match goal with E : _ && _ = true |- _ => apply andb_prop in E as [E ?] end.
    repeat match goal with E : str_eqb _ _ = true |- _ => apply str_eqb_true in E end.
    match goal with E : (_ =? _) = true |- _ => apply Z.eqb_eq in E end. split.
    + split; cbn; rewrite ?Erows; try done; [|by apply snoc_NoDup..|].
      * intros row [Hrow| ->]%elem_of_snoc; [by apply H1|]. split; [|done]. split; try done.
        split; try done. cbn. by exists t.
      * intros row [Hrow| ->]%elem_of_snoc; [by apply Hrec|]. done.
    + intros row Hrow. cbn. rewrite Erows. apply elem_of_app. by left.
Qed.

(** ** Advancing *)

Lemma replan_unique id db row row' :
  NoDup (map rn_replan_id (replan_rows db)) -> row ∈ replan_rows db -> row' ∈ replan_rows db ->
  rn_replan_id row = id -> rn_replan_id row' = id -> row = row'.
Proof.
  intros Hn Hr Hr' E E'. apply (NoDup_map_inj rn_replan_id (replan_rows db)); congruence.
Qed.

Section Advance.
Context `{Clock}.

Lemma updateReplans_run p f db c db' :
  updateReplans p f db = inr (c, db') ->
  db' = with_replans (update_where p f) db /\ one_unfinished (update_where p f (replan_rows db)) = true.
Proof. unfold updateReplans. intros Hr. run_inv Hr. done. Qed.

Lemma replanTime_run db now db' :
  replanTime db = inr (now, db') -> replan_rows db' = replan_rows db /\ finding_rows db' = finding_rows db.
Proof. unfold replanTime. intros Hr. run_inv Hr. done. Qed.

Lemma advanceReplan_run graphs input db r db' :
  advanceReplan input db = inr (r, db') -> replan_inv graphs db ->
  exists row, row ∈ replan_rows db /\ rn_replan_id row = ad_replanId input /\
    ((r = rn_replan row /\ db' = db /\ hr_lifecycle r = ad_lifecycle input) \/
     (hr_lifecycle (rn_replan row) = ad_expectedLifecycle input /\
      canAdvance (ad_expectedLifecycle input) (ad_lifecycle input) = true /\
      (exists now, r = advancedReplan input now (rn_replan row)) /\
      replan_rows db' = update_where (replan_is (ad_replanId input)) (setReplan r) (replan_rows db) /\
      finding_rows db' = finding_rows db /\ one_unfinished (replan_rows db') = true)).
Proof.
  unfold advanceReplan, readReplan. intros Hr Hi. run_step Hr. run_inv E. rename E1 into Es, a0 into row.
  apply select_one_Some in Es as [Hin Hid%str_eqb_true].
  exists row. split; [done|]. split; [done|]. destruct (ri_rows _ _ Hi _ Hin) as [Hok _].
  destruct (bool_decide _) eqn:Ee; cbn [negb] in Hr.
  - right. apply bool_decide_eq_true in Ee. run_inv Hr.
    match goal with E : replanTime _ = inr _ |- _ => apply replanTime_run in E as [Er1 Er2] end.
    match goal with E : updateReplans _ _ _ = inr _ |- _ => apply updateReplans_run in E as [-> Hone] end.
    rewrite Er1 in Hone. rewrite Ee in *.
    match type of Hone with one_unfinished (update_where ?p ?f ?rows) = true =>
      assert (update_where p f rows = update_where (replan_is (ad_replanId input)) f rows) as Eu end.
    { apply map_ext_in. intros x Hx%list_elem_of_In. cbn [advancedReplan hr_replanId]. rewrite (cr_id _ Hok), Hid.
      destruct (replan_is (ad_replanId input) x) eqn:Ex; [|done]. apply str_eqb_true in Ex.
      rewrite <-(replan_unique _ _ row x (ri_ids _ _ Hi) Hin Hx Hid Ex), <-(cr_lifecycle _ Hok), Ee.
      by rewrite bool_decide_true by done. }
    cbn [with_replans replan_rows finding_rows]. rewrite Er1, Er2, Eu.
    split_and!; try done; [by eexists|]. by rewrite <-Eu.
  - left. destruct (bool_decide (_ = ad_lifecycle input)) eqn:E2; run_inv Hr. by apply bool_decide_eq_true in E2.
Qed.

(** The advanced replan takes the place of the old one. *)
Lemma inv_advance graphs input db r db' :
  advanceReplan input db = inr (r, db') -> replan_inv graphs db ->
  (forall row now, row ∈ replan_rows db -> rn_replan_id row = ad_replanId input ->
     hr_lifecycle (rn_replan row) = ad_expectedLifecycle input ->
     canAdvance (ad_expectedLifecycle input) (ad_lifecycle input) = true ->
     outcome_ok graphs (advancedReplan input now (rn_replan row))) ->
  replan_inv graphs db' /\ replans_later db db' /\ hr_lifecycle r = ad_lifecycle input /\
  exists row', row' ∈ replan_rows db' /\ rn_replan row' = r /\ rn_replan_id row' = ad_replanId input.
Proof.
  intros Hr Hi Hout. destruct (advanceReplan_run graphs _ _ _ _ Hr Hi)
    as (row & Hin & Hid & [(-> & -> & El)|(El & Hc & [now ->] & Erows & Ef & Hone)]).
  - split_and!; try done. by exists row.
  - specialize (Hout _ now Hin Hid El Hc). set (next := advancedReplan _ _ _) in *.
    destruct Hi as [H1 H2 H3 H4 H5 H6]. destruct (H1 _ Hin) as [Hok _].
    assert (forall x, x ∈ replan_rows db -> replan_is (ad_replanId input) x = true -> x = row) as Huniq.
    { intros x Hx Ex%str_eqb_true. symmetry. by eapply replan_unique. }
    assert (columns_ok (setReplan next row)) as Hnew.
    { destruct Hok as [E1 E2 E3 E4 E5 E6 E7 [C1 C2 C3 C4 C5]]. split; cbn; try done. lia. }
    assert (replan_step (rn_replan row) next) as Hstep by (exists input, now; by rewrite El).
    split_and!; [| |done|].
    + split; try done.
      * intros x Hx. rewrite Erows in Hx. apply update_elem_1 in Hx as [[Hx _]|(x0 & Hx & Ex & ->)]; [by apply H1|].
        rewrite (Huniq _ Hx Ex). done.
      * rewrite Erows, update_map by done. done.
      * rewrite Erows, update_map by done. done.
      * intros x Hx. rewrite Ef. rewrite Erows in Hx.
        apply update_elem_1 in Hx as [[Hx _]|(x0 & Hx & Ex & ->)]; [by apply H5|].
        rewrite (Huniq _ Hx Ex). apply (H5 _ Hin).
      * by rewrite Ef.
    + intros x Hx. destruct (replan_is (ad_replanId input) x) eqn:Ex.
      * rewrite (Huniq _ Hx Ex). exists (setReplan next row). split; [|by apply rtc_once].
        rewrite Erows. apply update_elem_hit; [done|]. by rewrite <-Hid; apply str_eqb_refl.
      * exists x. split; [|done]. rewrite Erows. by apply update_elem_miss.
    + exists (setReplan next row). split; [|done]. rewrite Erows. apply update_elem_hit; [done|].
      by rewrite <-Hid; apply str_eqb_refl.
Qed.
End Advance.

(** ** The databases together *)

Section Coordinator.
Context `{Sha256} `{IdGenerator} `{Clock} `{LocaleCompare}.

Record db_inv (db : EpicDb) : Prop := {
  eb_graphs : graph_inv created (ep_graphs db);
  eb_known : runs_known (ep_graphs db);
  eb_waves : wave_inv (ep_waves db);
  eb_replans : replan_inv (ep_graphs db) (ep_replans db)
}.

(** Tasks move along their lifecycle and replans along theirs. *)
Definition db_later (db db' : EpicDb) : Prop :=
  task_steps (ep_waves db) (ep_waves db') /\ replans_later (ep_replans db) (ep_replans db').

#[export] Instance db_later_refl : Reflexive db_later.
Proof. by split. Qed.

#[export] Instance db_later_trans : Transitive db_later.
Proof. intros db1 db2 db3 [T1 R1] [T2 R2]. split; by etrans. Qed.

(** *** Calls of the revision service *)

Lemma graph_step_grows op db row :
  graph_inv created db -> row ∈ graph_revisions db -> row ∈ graph_revisions (graph_step op db).
Proof.
  intros Hi Hrow. destruct op as [input|input]; cbn [graph_step].
  - destruct (initializeGraph input db) as [e|[r db']] eqn:E; [done|].
    apply initializeGraph_run in E as (record & _ & E). unfold GraphStore.initialize, insertRecord in E. run_inv E.
    repeat match goal with E : require _ _ _ = inr _ |- _ => apply require_run in E as [E ?]; subst end.
    match goal with E : insertRevisionRow _ _ = inr _ |- _ => apply insertRevisionRow_run in E as -> end.
    match goal with E : insertProjectionRow _ _ = inr _ |- _ => apply insertProjectionRow_run in E as -> end.
    apply elem_of_app. by left.
  - destruct (submit input db) as [e|[o db']] eqn:E; [done|].
    destruct (propose_inv created _ _ _ _ E Hi) as (_ & current & _ & _ & _ & Hrows).
    destruct (oc_record o); [rewrite Hrows; apply elem_of_app; by left|]. destruct Hrows as [-> _]. done.
Qed.

Lemma inv_graphs op db :
  db_inv db -> db_inv (mkEpicDb (graph_step op (ep_graphs db)) (ep_waves db) (ep_replans db)).
Proof.
  intros [G1 G2 G3 G4]. split; cbn; [by apply graph_step_inv|by apply graph_step_known|done|].
  eapply replan_inv_mono; [|exact G4]. intros row. by apply graph_step_grows.
Qed.

Lemma onGraphs_step {A} (m : GOp A) op db :
  (forall graphs, graph_step op graphs = match m graphs with inr (_, graphs') => graphs' | inl _ => graphs end) ->
  snd (onGraphs m db) = mkEpicDb (graph_step op (ep_graphs db)) (ep_waves db) (ep_replans db).
Proof. intros Hm. rewrite Hm. unfold onGraphs. destruct (m _) as [e|[a g]]; [by destruct db|done]. Qed.

(** A submission that is accepted makes its record the active revision. *)
Lemma submit_accepted input db o db' r :
  submit input db = inr (o, db') -> graph_inv created db -> oc_record o = Some r ->
  active db' (pr_runId (pi_proposal input)) = Some r /\ revision_row r ∈ graph_revisions db' /\
  rr_runId r = pr_runId (pi_proposal input) /\ rr_trigger r = pr_trigger (pi_proposal input) /\
  rr_graphRevision r = dag_graphRevision (pr_proposedDag (pi_proposal input)) /\
  rr_decisionId r = Some (pi_decisionId input) /\ dn_decisionId (oc_decision o) = pi_decisionId input.
Proof.
  intros E Hi Er. pose proof (propose_inv created _ _ _ _ E Hi) as (Hi' & current & Ha & Hv & _ & Hrows).
  rewrite Er in Hrows. change revision_validator with validateTaskGraphRevision in Hv.
  destruct (decision_fields _ _ _ Hv) as [Hd _]. destruct (accepted_spec _ _ _ Hv) as (_ & _ & Hrec).
  destruct (proj1 (Hrec r) Er) as [_ Es].
  pose proof (active_spec created db (pr_runId (pi_proposal input)) Hi) as Hs. rewrite Ha in Hs.
  destruct Hs as (rs & j & _ & Hro & _).
  assert (rr_runId r = pr_runId (pi_proposal input)) as Erun by by rewrite Es.
  split_and!; try (by rewrite Es); [| |done].
  - destruct (rows_of_active (pr_runId (pi_proposal input)) r (current :: rs) db' Hi') as [Hact _]; [|exact Hact].
    unfold rows_of, select_where in *. rewrite Hrows, List.filter_app, Hro. cbn [List.filter revision_row v_run_id].
    rewrite Erun, str_eqb_refl. cbn [rev]. by rewrite !map_app.
  - rewrite Hrows. apply elem_of_app. right. by left.
Qed.

(** *** Advances of a replan *)

Lemma onReplans_advance input db res db' :
  onReplans (advanceReplan input) db = (res, db') -> db_inv db ->
  (forall row now, row ∈ replan_rows (ep_replans db) -> rn_replan_id row = ad_replanId input ->
     hr_lifecycle (rn_replan row) = ad_expectedLifecycle input ->
     canAdvance (ad_expectedLifecycle input) (ad_lifecycle input) = true ->
     outcome_ok (ep_graphs db) (advancedReplan input now (rn_replan row))) ->
  db_inv db' /\ db_later db db' /\ ep_graphs db' = ep_graphs db /\ ep_waves db' = ep_waves db /\
  (forall r, res = inr r -> hr_lifecycle r = ad_lifecycle input /\
     exists row, row ∈ replan_rows (ep_replans db') /\ rn_replan row = r /\ rn_replan_id row = ad_replanId input).
Proof.
  unfold onReplans. intros E Hi Hout. destruct (advanceReplan input _) as [e|[r replans]] eqn:Ea;
    injection E as <- <-; [by split_and!|].
  destruct Hi as [G1 G2 G3 G4].
  destruct (inv_advance _ _ _ _ _ Ea G4 Hout) as (Hi' & Hl & El & row & Hrow & Er & Eid).
  split_and!; try done. intros r' [= <-]. split; [done|]. by exists row.
Qed.

Lemma blockReplan_inv replan blocker db res db' :
  blockReplan replan blocker db = (res, db') -> db_inv db ->
  db_inv db' /\ db_later db db' /\ ep_graphs db' = ep_graphs db /\ ep_waves db' = ep_waves db.
Proof.
  intros E Hi. destruct (onReplans_advance _ _ _ _ E Hi) as (? & ? & ? & ? & _); [|done].
  intros row now Hrow _ El Hc. cbn [ad_expectedLifecycle ad_lifecycle] in *.
  destruct (ri_rows _ _ (eb_replans _ Hi) _ Hrow) as [_ Ho]. unfold outcome_ok in *. cbn.
  apply advance_unfinished in Hc as [Hu _]. rewrite El in Ho.
  destruct (hr_lifecycle replan); try done; destruct Ho as (-> & -> & _); by split_and!.
Qed.

Lemma resume_inv replan decisionId revision db res db' :
  resume replan decisionId revision db = (res, db') -> db_inv db ->
  (forall row, row ∈ replan_rows (ep_replans db) -> rn_replan_id row = hr_replanId replan ->
     exists record t, revision_row record ∈ graph_revisions (ep_graphs db) /\
       rr_runId record = hf_runId (hr_finding (rn_replan row)) /\ revision = rr_graphRevision record /\
       decisionId = rr_decisionId record /\ rr_trigger record = Some t /\
       ht_findingId t = hf_findingId (hr_finding (rn_replan row))) ->
  db_inv db' /\ db_later db db' /\ ep_graphs db' = ep_graphs db /\ ep_waves db' = ep_waves db.
Proof.
  intros E Hi Hrec. destruct (onReplans_advance _ _ _ _ E Hi) as (? & ? & ? & ? & _); [|done].
  intros row now Hrow Eid El Hc. cbn [ad_expectedLifecycle ad_lifecycle ad_replanId] in *.
  destruct (ri_rows _ _ (eb_replans _ Hi) _ Hrow) as [_ Ho]. unfold outcome_ok in *. cbn. rewrite El in Ho.
  destruct Ho as (_ & _ & ->). split; [done|].
  destruct (Hrec _ Hrow Eid) as (record & t & ? & ? & -> & -> & ? & ?). by exists record, t.
Qed.

(** ** The stretches of the coordinator *)

(** A replan that was read earlier. *)
Definition replan_read (db : EpicDb) (run : string) (r : HiddenDependencyReplan) : Prop :=
  hf_runId (hr_finding r) = run /\
  exists row, row ∈ replan_rows (ep_replans db) /\ replan_later r (rn_replan row).

Lemma replan_read_later db db' run r : db_later db db' -> replan_read db run r -> replan_read db' run r.
Proof.
  intros [_ Hl] [Hr (row & Hrow & L)]. split; [done|]. destruct (Hl _ Hrow) as (row' & Hrow' & L').
  exists row'. split; [done|]. by etrans.
Qed.

(** The row of a replan that was read is its later version. *)
Lemma replan_read_row db run r row :
  db_inv db -> replan_read db run r -> row ∈ replan_rows (ep_replans db) ->
  rn_replan_id row = hr_replanId r -> replan_later r (rn_replan row).
Proof.
  intros Hi [_ (row' & Hrow' & L)] Hrow Eid. pose proof (eb_replans _ Hi) as Hr.
  rewrite (replan_unique (hr_replanId r) _ row row' (ri_ids _ _ Hr)); try done.
  destruct (ri_rows _ _ Hr _ Hrow') as [Hok _]. rewrite <-(cr_id _ Hok). apply (lf_id _ _ (replan_later_facts _ _ L)).
Qed.

Lemma quiesce_inv replan tasks integration db res db' run :
  quiesce replan tasks integration db = (res, db') -> db_inv db -> replan_read db run replan ->
  db_inv db' /\ db_later db db' /\ ep_graphs db' = ep_graphs db /\ ep_waves db' = ep_waves db /\
  (forall next, res = inr (Some next) -> replan_read db' run next /\ hr_replanId next = hr_replanId replan /\
     (next = replan \/
      (hr_lifecycle next = rl_revising /\ forallb confirmed (map (findTask tasks) (hr_interruptedTaskIds replan)) = true))).
Proof.
  unfold quiesce. intros E Hi Hr.
  assert (forall b, ebind (blockReplan replan b) (fun _ => eret None) db = (res, db') ->
    db_inv db' /\ db_later db db' /\ ep_graphs db' = ep_graphs db /\ ep_waves db' = ep_waves db /\
    (forall next, res = inr (Some next) -> False)) as Hblock.
  { intros b Eb. unfold ebind, eret in Eb. destruct (blockReplan replan b db) as [x db1] eqn:Ex.
    destruct (blockReplan_inv _ _ _ _ _ Ex Hi) as (? & ? & ? & ?).
    destruct x; injection Eb as <- <-; by split_and!. }
  destruct (existsb unconfirmed _); [destruct (Hblock _ E) as (? & ? & ? & ? & Hno); split_and!; try done; by intros ? ?%Hno|].
  destruct (reconciling _); [destruct (Hblock _ E) as (? & ? & ? & ? & Hno); split_and!; try done; by intros ? ?%Hno|].
  destruct (existsb unsatisfied _); [destruct (Hblock _ E) as (? & ? & ? & ? & Hno); split_and!; try done; by intros ? ?%Hno|].
  destruct (_ && _) eqn:Ec; [|injection E as <- <-; split_and!; try done; intros next [= <-]; split_and!; [done|done|by left]].
  apply andb_prop in Ec as [Ec _]. unfold ebind, eret in E.
  destruct (onReplans _ db) as [x db1] eqn:Ex.
  destruct (onReplans_advance _ _ _ _ Ex Hi) as (Hi' & Hl & Eg & Ew & Hx).
  { intros row now Hrow _ El _. destruct (ri_rows _ _ (eb_replans _ Hi) _ Hrow) as [_ Ho].
    unfold outcome_ok in *. by rewrite El in Ho. }
  destruct x as [e|r]; injection E as <- <-; split_and!; try done. intros next [= <-].
  destruct (Hx r eq_refl) as [El (row & Hrow & <- & Eid)].
  pose proof (replan_read_row _ _ _ _ Hi' (replan_read_later _ _ _ _ Hl Hr) Hrow Eid) as L.
  destruct (replan_later_facts _ _ L) as [Fi Ff _ _ _ _]. split_and!; [|done|by right].
  split; [|by exists row]. rewrite Ff. apply Hr.
Qed.

Lemma revise_inv input replan tasks decisionId decidedAt db res db' :
  revise input replan tasks decisionId decidedAt db = (res, db') -> db_inv db ->
  replan_read db (et_runId input) replan ->
  db_inv db' /\ db_later db db' /\ ep_waves db' = ep_waves db.
Proof.
  unfold revise. intros E Hi Hr. destruct (active _ _) as [graph|] eqn:Ea; [|by injection E as <- <-].
  pose proof (fun db1 Hi1 Hl1 row Hrow Eid =>
    replan_later_facts _ _ (replan_read_row db1 _ _ row Hi1 (replan_read_later _ _ _ _ Hl1 Hr) Hrow Eid)) as Hsame.
  destruct (_ && _) eqn:Ec.
  - apply andb_prop in Ec as [_ Ec]. destruct (rr_trigger graph) as [t|] eqn:Et; [|done].
    apply str_eqb_true in Ec. unfold ebind, eret in E. destruct (resume _ _ _ db) as [x db1] eqn:Ex.
    destruct (resume_inv _ _ _ _ _ _ Ex Hi) as (? & ? & _ & ?); [|destruct x; injection E as <- <-; by split_and!].
    intros row Hrow Eid. pose proof (Hsame db Hi (reflexivity db) row Hrow Eid) as Hf.
    pose proof (active_spec created _ (et_runId input) (eb_graphs _ Hi)) as Hs. rewrite Ea in Hs.
    destruct Hs as (rs & j & _ & Hrows & _ & _ & _ & Erun). exists graph, t. rewrite (lf_finding _ _ Hf).
    split_and!; try done; [|by rewrite (proj1 Hr)]. eapply rows_of_history; [exact Hrows|left].
  - unfold ebind at 1, onGraphs in E. destruct (submit _ _) as [e|[o graphs]] eqn:Es; [by injection E as <- <-|].
    set (proposed := mkPropose _ _ _ _ _ _) in Es.
    pose proof (inv_graphs (GSubmit proposed) db Hi) as Hi1. cbn [graph_step] in Hi1. rewrite Es in Hi1.
    set (db1 := mkEpicDb graphs _ _) in *. assert (db_later db db1) as Hl1 by done.
    destruct (oc_record o) as [record|] eqn:Eo; unfold ebind, eret in E.
    + destruct (resume _ _ _ db1) as [x db2] eqn:Ex.
      destruct (resume_inv _ _ _ _ _ _ Ex Hi1) as (? & Hl2 & _ & ?);
        [|destruct x; injection E as <- <-; split_and!; try done; by etrans].
      intros row Hrow Eid. pose proof (Hsame db1 Hi1 Hl1 row Hrow Eid) as Hf.
      destruct (submit_accepted _ _ _ _ _ Es (eb_graphs _ Hi) Eo) as (_ & Hin & Erun & Etr & _ & Ed & Edn).
      destruct (ri_rows _ _ (eb_replans _ Hi1) _ Hrow) as [Hok _].
      destruct (cr_cites _ Hok) as [(t & Et & Ef & _) Cr _ _ _]. exists record, t.
      rewrite (lf_proposal _ _ Hf) in Et, Cr. split_and!; try done; [by rewrite Erun, <-Cr|by rewrite Ed, Edn|by rewrite Etr].
    + destruct (blockReplan _ _ db1) as [x db2] eqn:Ex.
      destruct (blockReplan_inv _ _ _ _ _ Ex Hi1) as (? & Hl2 & _ & ?).
      destruct x; injection E as <- <-; split_and!; try done; by etrans.
Qed.

Lemma continue_inv input replan tasks integration decisionId decidedAt db res db' :
  continueTick input replan tasks integration decisionId decidedAt db = (res, db') -> db_inv db ->
  (forall r, replan = Some r -> replan_read db (et_runId input) r) ->
  db_inv db' /\ db_later db db' /\ ep_waves db' = ep_waves db.
Proof.
  unfold continueTick. intros E Hi Hr. destruct replan as [r|]; [|by injection E as <- <-].
  specialize (Hr r eq_refl). unfold ebind at 1 in E.
  assert (exists x db1, (if bool_decide (hr_lifecycle r = rl_quiescing) then quiesce r tasks integration
      else eret (Some r)) db = (x, db1) /\ db_inv db1 /\ db_later db db1 /\ ep_waves db1 = ep_waves db /\
      (forall next, x = inr (Some next) -> replan_read db1 (et_runId input) next)) as (x & db1 & Ex & Hi1 & Hl1 & Ew1 & Hn).
  { case_bool_decide.
    - destruct (quiesce r tasks integration db) as [x db1] eqn:Eq. exists x, db1. split; [done|].
      destruct (quiesce_inv _ _ _ _ _ _ _ Eq Hi Hr) as (? & ? & _ & ? & Hx). split_and!; try done.
      intros next Enext. by apply Hx.
    - exists (inr (Some r)), db. split_and!; try done. by intros next [= <-]. }
  rewrite Ex in E. clear Ex. destruct x as [e|[next|]]; [by injection E as <- <-| |by injection E as <- <-].
  case_bool_decide; [|by injection E as <- <-].
  destruct (revise_inv _ _ _ _ _ _ _ _ E Hi1 (Hn _ eq_refl)) as (? & ? & ?). split_and!; try done; by etrans.
Qed.

Lemma record_inv id finding proposal replacements db :
  let db' := snd (onReplans (recordReplan id finding proposal replacements) db) in
  db_inv db -> db_inv db' /\ db_later db db' /\
  forall row, row ∈ replan_rows (ep_replans db) -> row ∈ replan_rows (ep_replans db').
Proof.
  intros db' Hi. unfold db', onReplans. destruct (recordReplan _ _ _ _ _) as [e|[r replans]] eqn:E; [done|]. cbn.
  destruct Hi as [G1 G2 G3 G4]. destruct (recordReplan_run _ _ _ _ _ _ _ _ E G4) as [Hi' Hk].
  split; [done|]. split; [|done]. split; [done|]. by apply kept_later.
Qed.

Lemma report_inv finding proposal db :
  let db' := snd (reportHiddenDependency finding proposal db) in
  db_inv db -> db_inv db' /\ db_later db db' /\
  forall row, row ∈ replan_rows (ep_replans db) -> row ∈ replan_rows (ep_replans db').
Proof.
  intros db' Hi. unfold db', reportHiddenDependency. by repeat case_match; first [done|apply record_inv].
Qed.

(** ** Every state the coordinator reaches *)

(** Rows that were read earlier. *)
Definition rows_read (db : EpicDb) (run : string) (tasks : list TaskLifecycleProjection) : Prop :=
  forall task row, findTask tasks task = Some row ->
    exists row', task_at run task (ep_waves db) = Some row' /\ rtc row_write row row'.

Definition waiting_ok (db : EpicDb) (w : Waiting) : Prop :=
  match w with
  | WScheduling input replan => forall r, replan = Some r -> replan_read db (et_runId input) r
  | WReturned input replan tasks =>
      (forall r, replan = Some r -> replan_read db (et_runId input) r) /\
      rows_read db (et_runId input) tasks
  end.

Lemma rows_read_later db db' run tasks : db_later db db' -> rows_read db run tasks -> rows_read db' run tasks.
Proof.
  intros [Hs _] Hr task row Hf. destruct (Hr _ _ Hf) as (row1 & Hat & L1).
  destruct (Hs _ _ _ Hat) as (row2 & Hat2 & L2). exists row2. split; [done|]. by etrans.
Qed.

Lemma waiting_later db db' w : db_later db db' -> waiting_ok db w -> waiting_ok db' w.
Proof.
  intros Hl. destruct w as [input replan|input replan tasks]; cbn.
  - intros Hr r E. by eapply replan_read_later; [|apply Hr].
  - intros [Hr Ht]. split; [|by eapply rows_read_later]. intros r E. by eapply replan_read_later; [|apply Hr].
Qed.

Record epic_inv (e : Epic) : Prop := {
  ev_db : db_inv (epic_db e);
  ev_waiting : Forall (waiting_ok (epic_db e)) (epic_waiting e)
}.

Definition epic_later (e e' : Epic) : Prop := db_later (epic_db e) (epic_db e').

Lemma findTask_at db run task row :
  wave_inv db -> findTask (projections db run) task = Some row <-> task_at run task db = Some row.
Proof.
  intros Hi. split.
  - intros [Hin E%str_eqb_true]%select_one_Some. apply elem_of_projections in Hin as [Hin Er].
    apply task_at_elem; [apply Hi|done|]. unfold row_key. by rewrite E, Er.
  - intros [Hin [= Er Et]]%task_at_Some. apply (select_one_key lp_taskId); [by apply projections_ids| | |].
    + intros x Hx%str_eqb_true. congruence.
    + by apply elem_of_projections.
    + by rewrite Et, str_eqb_refl.
Qed.

Lemma activeReplan_Some db run r :
  activeReplan db run = Some r -> exists row, row ∈ replan_rows db /\ rn_replan row = r /\
    rn_run_id row = run /\ unfinished (rn_lifecycle row) = true.
Proof.
  unfold activeReplan. destruct (select_one _ _) as [row|] eqn:E; [|done]. intros [= <-].
  apply select_one_Some in E as [Hin [E1 E2]%andb_prop]. apply str_eqb_true in E1. by exists row.
Qed.

Lemma epic_moved e db : epic_inv e -> db_inv db -> db_later (epic_db e) db -> epic_inv (mkEpic db (epic_waiting e)).
Proof.
  intros [Hi Hw] Hi' Hl. split; [done|]. eapply Forall_impl; [exact Hw|]. intros w. by apply waiting_later.
Qed.

Lemma epic_step_inv event e : epic_inv e -> epic_inv (epic_step event e) /\ epic_later e (epic_step event e).
Proof.
  intros Hi. pose proof Hi as [Hdb Hw]. unfold epic_later.
  destruct event as [input|input|finding proposal|stretch|input|i|i integration decisionId decidedAt]; cbn [epic_step].
  - rewrite (onGraphs_step _ (GInitialize input)) by done. split; [|done]. by apply epic_moved; [|apply inv_graphs|].
  - rewrite (onGraphs_step _ (GSubmit input)) by done. split; [|done]. by apply epic_moved; [|apply inv_graphs|].
  - destruct (report_inv finding proposal _ Hdb) as (? & ? & _). split; [|done]. by apply epic_moved.
  - destruct (run_stretch_keeps stretch _ (eb_waves _ Hdb)) as [Hi' Hs]. split; [|by split].
    apply epic_moved; [done| |by split]. destruct Hdb. by split.
  - unfold startTick. destruct (active _ _) as [graph|]; [|done]. split; [|done]. split; [done|]. cbn.
    apply Forall_app. split; [done|]. constructor; [|constructor].
    intros r (row & Hrow & <- & Erun & _)%activeReplan_Some.
    destruct (ri_rows _ _ (eb_replans _ Hdb) _ Hrow) as [Hok _].
    split; [by rewrite (cr_run _ Hok)|]. by exists row.
  - destruct (epic_waiting e !! i) as [[input replan|]|] eqn:Ei; [|done..]. split; [|done]. split; [done|]. cbn.
    apply Forall_insert; [done|]. pose proof (Forall_lookup_1 _ _ _ _ Hw Ei) as Hr. split; [exact Hr|].
    intros task row Hf%findTask_at; [|apply Hdb]. by exists row.
  - destruct (epic_waiting e !! i) as [[|input replan tasks]|] eqn:Ei; [done| |done].
    pose proof (Forall_lookup_1 _ _ _ _ Hw Ei) as [Hr Ht].
    destruct (continueTick _ _ _ _ _ _ _) as [res db'] eqn:E. cbn.
    destruct (continue_inv _ _ _ _ _ _ _ _ _ E Hdb Hr) as (Hdb' & Hl & _). split; [|done].
    split; [done|]. cbn. apply list.Forall_delete. eapply Forall_impl; [exact Hw|]. intros w. by apply waiting_later.
Qed.

Lemma epic_after_inv events e : epic_inv e -> epic_inv (epic_after events e) /\ epic_later e (epic_after events e).
Proof.
  revert e. induction events as [|event events IH]; intros e Hi; [done|]. cbn.
  destruct (epic_step_inv event e Hi) as [Hi1 Hl1]. destruct (IH _ Hi1) as [Hi2 Hl2]. split; [done|].
  unfold epic_later in *. by etrans.
Qed.

Lemma reached_inv events runs : epic_inv (epic_after events (empty_epic runs)).
Proof.
  apply epic_after_inv. split; [|constructor]. split; cbn.
  - apply (graph_after_inv [] runs).
  - apply (graph_after_known [] runs).
  - apply wave_inv_empty.
  - split; cbn; try (by intros ? ?%elem_of_nil); try constructor.
Qed.

(** ** Replans are sound *)

(** What the store promises about a replan of the run. *)
Record replan_sound_in (db : EpicDb) (run : string) (r : HiddenDependencyReplan) : Prop := {
  rs_run : hf_runId (hr_finding r) = run;
  rs_finding : hr_finding r ∈ findings (ep_replans db) run;
  rs_cites : cites r;
  rs_outcome :
    match hr_lifecycle r with
    | rl_quiescing | rl_revising =>
        activeReplan (ep_replans db) run = Some r /\ hr_decisionId r = None /\
        hr_resultingGraphRevision r = None /\ hr_blocker r = None
    | rl_resumed =>
        hr_blocker r = None /\
        exists revision t, revision ∈ revisions (ep_graphs db) run /\
          hr_resultingGraphRevision r = Some (rr_graphRevision revision) /\
          hr_decisionId r = rr_decisionId revision /\
          rr_trigger revision = Some t /\ ht_findingId t = hf_findingId (hr_finding r)
    | rl_blocked =>
        is_Some (hr_blocker r) /\ hr_decisionId r = None /\ hr_resultingGraphRevision r = None
    end
}.

Lemma elem_of_replans db run r :
  r ∈ replans db run <-> exists row, row ∈ replan_rows db /\ rn_run_id row = run /\ rn_replan row = r.
Proof.
  unfold replans. rewrite list_elem_of_fmap. setoid_rewrite elem_of_sort_by. setoid_rewrite elem_of_select.
  setoid_rewrite str_eqb_true. naive_solver.
Qed.

Lemma revision_stored graphs run r :
  revision_row r ∈ graph_revisions graphs -> rr_runId r = run -> r ∈ revisions graphs run.
Proof.
  intros Hin Er. unfold revisions. apply list_elem_of_fmap. exists (revision_row r). split; [done|].
  apply elem_of_sort_by, elem_of_select. split; [done|]. cbn. by rewrite Er, str_eqb_refl.
Qed.

(** The unfinished replan of a run is the one [activeReplan] finds. *)
Lemma unfinished_active graphs db row :
  replan_inv graphs db -> row ∈ replan_rows db -> unfinished (rn_lifecycle row) = true ->
  activeReplan db (rn_run_id row) = Some (rn_replan row).
Proof.
  intros Hi Hrow Hu. unfold activeReplan. pose proof (ri_one _ _ Hi) as Hone. apply bool_decide_eq_true in Hone.
  rewrite <-(select_one_filter _ (fun r => unfinished (rn_lifecycle r))) by (intros x [_ Hx]%andb_prop; done).
  rewrite (select_one_key rn_run_id _ _ row); [done|exact Hone| | |].
  - intros x [Hx _]%andb_prop. by apply str_eqb_true in Hx.
  - by apply elem_of_select.
  - by rewrite str_eqb_refl, Hu.
Qed.

Lemma row_sound db row :
  db_inv db -> row ∈ replan_rows (ep_replans db) -> replan_sound_in db (rn_run_id row) (rn_replan row).
Proof.
  intros Hi Hrow. pose proof (eb_replans _ Hi) as Hr. destruct (ri_rows _ _ Hr _ Hrow) as [Hok Ho].
  split; [apply (cr_run _ Hok)| |apply (cr_cites _ Hok)|].
  - destruct (ri_recorded _ _ Hr _ Hrow) as (f & Hf & E). unfold findings. apply list_elem_of_fmap.
    exists f. split; [done|]. apply elem_of_sort_by, elem_of_select. split; [done|].
    apply str_eqb_true. rewrite (proj2 (ri_baseline _ _ Hr _ Hf)), E. apply (cr_run _ Hok).
  - unfold outcome_ok in Ho. pose proof (cr_lifecycle _ Hok) as El.
    destruct (hr_lifecycle (rn_replan row)) eqn:E.
    + split; [|done]. eapply unfinished_active; [done..|]. by rewrite <-El.
    + split; [|done]. eapply unfinished_active; [done..|]. by rewrite <-El.
    + destruct Ho as (? & revision & t & Hin & Er & ?). split; [done|]. exists revision, t.
      split; [|done]. apply revision_stored; [done|]. rewrite Er. apply (cr_run _ Hok).
    + done.
Qed.

(** C14: Replans are sound, however calls interleave. In every state the coordinator
    reaches, a run has at most one replan that is not finished and a finding at
    most one replan. Each is recorded with its finding, and its proposal cites the
    finding and the revision the finding was made of. One that is not finished is
    the active replan of its run and reports no outcome; a blocked one says why
    and names no revision; a resumed one names the decision and the number of a
    revision of the run's graph whose trigger is the finding. *)
Theorem replan_sound runs events run :
  let db := epic_db (epic_after events (empty_epic runs)) in
  (forall r, r ∈ replans (ep_replans db) run -> replan_sound_in db run r) /\
  (forall r r', r ∈ replans (ep_replans db) run -> r' ∈ replans (ep_replans db) run ->
     hf_findingId (hr_finding r) = hf_findingId (hr_finding r') \/
     unfinished (hr_lifecycle r) = true /\ unfinished (hr_lifecycle r') = true -> r = r').
Proof.
  intros db. pose proof (ev_db _ (reached_inv events runs)) as Hi. fold db in Hi.
  pose proof (eb_replans _ Hi) as Hr. split.
  - intros r (row & Hrow & <- & <-)%elem_of_replans. by apply row_sound.
  - intros r r' (row & Hrow & E & <-)%elem_of_replans (row' & Hrow' & E' & <-)%elem_of_replans.
    destruct (ri_rows _ _ Hr _ Hrow) as [Hok _], (ri_rows _ _ Hr _ Hrow') as [Hok' _]. intros [Hf|[Hu Hu']].
    + rewrite (cr_finding _ Hok), (cr_finding _ Hok') in Hf. f_equal.
      pose proof (ri_findings _ _ Hr) as Hn. by apply (NoDup_map_inj rn_finding_id (replan_rows (ep_replans db))).
    + rewrite (cr_lifecycle _ Hok) in Hu. rewrite (cr_lifecycle _ Hok') in Hu'.
      pose proof (unfinished_active _ _ _ Hr Hrow Hu) as Ha. pose proof (unfinished_active _ _ _ Hr Hrow' Hu') as Ha'.
      congruence.
Qed.

Lemma active_read db run r : db_inv db -> activeReplan (ep_replans db) run = Some r -> replan_read db run r.
Proof.
  intros Hi (row & Hrow & <- & Erun & _)%activeReplan_Some.
  destruct (ri_rows _ _ (eb_replans _ Hi) _ Hrow) as [Hok _].
  split; [by rewrite (cr_run _ Hok)|]. by exists row.
Qed.

(** ** A crash between the revision and the resumption *)

Lemma continue_revising input r tasks integration decisionId decidedAt db :
  hr_lifecycle r = rl_revising ->
  continueTick input (Some r) tasks integration decisionId decidedAt db =
  revise input r tasks decisionId decidedAt db.
Proof.
  intros El. unfold continueTick, ebind, eret. rewrite bool_decide_false by (by rewrite El).
  by rewrite bool_decide_true.
Qed.

Lemma onReplans_same {A} (m : ROp A) db res db' :
  onReplans m db = (res, db') -> ep_graphs db' = ep_graphs db /\ ep_waves db' = ep_waves db.
Proof. unfold onReplans. destruct (m _) as [e|[a replans]]; by intros [= <- <-]. Qed.

(** The trigger of a replan's proposal names its finding. *)
Lemma read_cites db run r : db_inv db -> replan_read db run r -> cites r.
Proof.
  intros Hi [_ (row & Hrow & L)]. destruct (ri_rows _ _ (eb_replans _ Hi) _ Hrow) as [Hok _].
  destruct (cr_cites _ Hok) as [Ct Cr Cg Cn Cs], (replan_later_facts _ _ L) as [_ Ef Ep Et _ _].
  rewrite Ef, Ep in *. split; try done. by rewrite Et in Ct.
Qed.

(** The call that makes a replan revising, where it is not yet: the replan and
    the table as they are when the revision starts. *)
Definition madeRevising (r : HiddenDependencyReplan) : ROp HiddenDependencyReplan :=
  if bool_decide (hr_lifecycle r = rl_quiescing)
  then advanceReplan (mkAdvance (hr_replanId r) rl_quiescing rl_revising None None None)
  else ret r.

Lemma quiesce_revising r tasks integration db next db' :
  quiesce r tasks integration db = (inr (Some next), db') ->
  hr_lifecycle r = rl_quiescing -> hr_lifecycle next = rl_revising ->
  madeRevising r (ep_replans db) = inr (next, ep_replans db') /\
  db' = mkEpicDb (ep_graphs db) (ep_waves db) (ep_replans db').
Proof.
  intros E Eq El. unfold madeRevising. rewrite Eq, bool_decide_true by done. unfold quiesce, ebind, eret in E.
  destruct (existsb unconfirmed _); [by destruct (blockReplan _ _ _) as [[]]|].
  destruct (reconciling _); [by destruct (blockReplan _ _ _) as [[]]|].
  destruct (existsb unsatisfied _); [by destruct (blockReplan _ _ _) as [[]]|].
  destruct (_ && _); [|congruence]. unfold onReplans in E.
  destruct (advanceReplan _ _) as [e|[x replans]]; by simplify_eq.
Qed.

(** A continuation that ends with another tick revised the graph for the
    run's replan, which was then revising. *)
Lemma continue_again input r tasks integration decisionId decidedAt db graph db1 :
  continueTick input (Some r) tasks integration decisionId decidedAt db = (inr (te_again graph), db1) ->
  db_inv db -> activeReplan (ep_replans db) (et_runId input) = Some r ->
  exists r' replans, let mid := mkEpicDb (ep_graphs db) (ep_waves db) replans in
    madeRevising r (ep_replans db) = inr (r', replans) /\ hr_lifecycle r' = rl_revising /\
    db_inv mid /\ replan_read mid (et_runId input) r' /\
    activeReplan replans (et_runId input) = Some r' /\
    revise input r' tasks decisionId decidedAt mid = (inr (te_again graph), db1).
Proof.
  intros E Hi Hr. pose proof (active_read _ _ _ Hi Hr) as Hread. unfold continueTick, ebind at 1 in E.
  case_bool_decide as Eq.
  - destruct (quiesce r tasks integration db) as [[e|[next|]] db2] eqn:Eqq; [done| |done].
    case_bool_decide as El; [|done]. destruct (quiesce_revising _ _ _ _ _ _ Eqq Eq El) as [Em Edb].
    destruct (quiesce_inv _ _ _ _ _ _ _ Eqq Hi Hread) as (Hi2 & _ & _ & _ & Hn).
    destruct (Hn next eq_refl) as (Hread2 & _ & _). exists next, (ep_replans db2). rewrite <-Edb.
    split_and!; try done. unfold madeRevising in Em. rewrite bool_decide_true in Em by done.
    destruct Hi as [_ _ _ G4]. pose proof (eb_replans _ Hi2) as G4'.
    destruct (inv_advance _ _ _ _ _ Em G4) as (_ & _ & _ & row & Hrow & Er & _).
    { intros row now Hrow _ El' _. destruct (ri_rows _ _ G4 _ Hrow) as [_ Ho]. unfold outcome_ok in *. by rewrite El' in Ho. }
    destruct (ri_rows _ _ G4' _ Hrow) as [Hok _]. rewrite <-(proj1 Hread2), <-Er, (cr_run _ Hok).
    apply (unfinished_active _ _ _ G4' Hrow). by rewrite <-(cr_lifecycle _ Hok), Er, El.
  - unfold eret in E. case_bool_decide as El; [|done]. exists r, (ep_replans db).
    unfold madeRevising. rewrite bool_decide_false by done.
    assert (mkEpicDb (ep_graphs db) (ep_waves db) (ep_replans db) = db) as -> by by destruct db.
    by split_and!.
Qed.

Lemma resume_elsewhere r decisionId revision graphs waves waves' replans x db1 :
  resume r decisionId revision (mkEpicDb graphs waves replans) = (inr x, db1) ->
  ep_graphs db1 = graphs /\
  resume r decisionId revision (mkEpicDb graphs waves' replans) = (inr x, mkEpicDb graphs waves' (ep_replans db1)).
Proof. unfold resume, onReplans. cbn. destruct (advanceReplan _ _) as [e|[a replans']]; [done|]. by intros [= -> <-]. Qed.

(** A revision that is in the graphs already is recognised. *)
Lemma revise_repeated input r tasks decisionId decidedAt graphs waves replans graph db1 :
  let mid := mkEpicDb graphs waves replans in
  revise input r tasks decisionId decidedAt mid = (inr (te_again graph), db1) ->
  db_inv mid -> replan_read mid (et_runId input) r ->
  forall waves' input' tasks' decisionId' decidedAt', et_runId input' = et_runId input ->
  revise input' r tasks' decisionId' decidedAt' (mkEpicDb (ep_graphs db1) waves' replans) =
  (inr (te_again graph), mkEpicDb (ep_graphs db1) waves' (ep_replans db1)).
Proof.
  intros mid E Hi Hread waves' input' tasks' decisionId' decidedAt' Erun'. unfold revise in E |- *. rewrite Erun'.
  subst mid. cbn [ep_graphs] in *. destruct (active graphs (et_runId input)) as [current|] eqn:Ea; [|done].
  destruct (_ && _) eqn:Ec.
  - unfold ebind, eret in E. destruct (resume _ _ _ _) as [[|x] db2] eqn:Ex; [done|]. injection E as -> ->.
    apply (resume_elsewhere _ _ _ _ _ waves') in Ex as [-> Ex]. rewrite Ea, Ec. unfold ebind, eret. by rewrite Ex.
  - unfold ebind at 1, onGraphs in E. destruct (submit _ _) as [e|[o graphs']] eqn:Es; [done|].
    destruct (oc_record o) as [record|] eqn:Eo; unfold ebind, eret in E; [|by destruct (blockReplan _ _ _) as [[]]].
    destruct (resume _ _ _ _) as [[|x] db2] eqn:Ex; [done|]. injection E as -> ->.
    destruct (submit_accepted _ _ _ _ _ Es (eb_graphs _ Hi) Eo) as (Hact & _ & Erun & Etr & Erev & Ed & Edn).
    cbn [pi_proposal pi_decisionId] in *. destruct (read_cites _ _ _ Hi Hread) as [(t & Et & Ef & _) Cr _ _ _].
    cbn [ep_waves ep_replans] in Ex. apply (resume_elsewhere _ _ _ _ _ waves') in Ex as [-> Ex].
    rewrite <-(proj1 Hread), <-Cr, Hact, Etr, Et, Erev, Z.eqb_refl, Ef, str_eqb_refl. cbn [andb].
    unfold ebind, eret. rewrite Ed. rewrite Edn, Erev in Ex. by rewrite Ex.
Qed.

(** C16: A crash while the graph is revised is repaired. Take any continuation of a
    tick that revises the graph, from any state the coordinator reaches and with the
    run's active replan: the one that finds it quiescing, makes it revising and
    submits in one go, or the one that finds it revising. If the process stops after
    the new revision is committed and before the replan is resumed, the replan is
    revising and still the active one of its run. Unless the graphs or the replans
    are written in between, the continuation of any later tick of that run,
    whatever its input, tasks and decision and whatever the waves have become, does
    not submit the proposal again: it recognises the revision and ends with the same
    graph and with the graphs and replans the first one would have left (the
    resumption bears the clock's next reading in both). *)
Theorem replan_crash_repaired runs events input r tasks integration decisionId decidedAt graph db1 :
  let db := epic_db (epic_after events (empty_epic runs)) in
  activeReplan (ep_replans db) (et_runId input) = Some r ->
  continueTick input (Some r) tasks integration decisionId decidedAt db = (inr (te_again graph), db1) ->
  exists r' replans,
    madeRevising r (ep_replans db) = inr (r', replans) /\ hr_lifecycle r' = rl_revising /\
    activeReplan replans (et_runId input) = Some r' /\
    forall waves input' tasks' integration' decisionId' decidedAt', et_runId input' = et_runId input ->
    continueTick input' (Some r') tasks' integration' decisionId' decidedAt'
      (mkEpicDb (ep_graphs db1) waves replans) =
    (inr (te_again graph), mkEpicDb (ep_graphs db1) waves (ep_replans db1)).
Proof.
  intros db Hr E. pose proof (ev_db _ (reached_inv events runs)) as Hi. fold db in Hi.
  destruct (continue_again _ _ _ _ _ _ _ _ _ E Hi Hr) as (r' & replans & Em & El & Hmid & Hread & Ha & Erev).
  exists r', replans. split_and!; try done. intros waves input' tasks' integration' decisionId' decidedAt' Erun.
  rewrite continue_revising by done. by eapply revise_repeated.
Qed.

(** ** A replan whose interrupted task succeeds *)

(** Continuing a tick touches no replan but its own. *)
Lemma advance_other input db res db' row :
  onReplans (advanceReplan input) db = (res, db') -> db_inv db ->
  row ∈ replan_rows (ep_replans db) -> rn_replan_id row <> ad_replanId input ->
  row ∈ replan_rows (ep_replans db').
Proof.
  unfold onReplans. intros E Hi Hrow Hid. destruct (advanceReplan input _) as [e|[r replans]] eqn:Ea;
    injection E as <- <-; [done|]. cbn.
  destruct (advanceReplan_run _ _ _ _ _ Ea (eb_replans _ Hi)) as (row0 & _ & _ & [(_ & -> & _)|(_ & _ & _ & -> & _)]); [done|].
  apply update_elem_miss; [done|]. by apply str_eqb_false.
Qed.

Lemma continue_other input r tasks integration decisionId decidedAt db res db' row :
  continueTick input (Some r) tasks integration decisionId decidedAt db = (res, db') -> db_inv db ->
  replan_read db (et_runId input) r -> row ∈ replan_rows (ep_replans db) ->
  rn_replan_id row <> hr_replanId r -> row ∈ replan_rows (ep_replans db').
Proof.
  intros E Hi Hr Hrow Hid. unfold continueTick, ebind at 1 in E.
  assert (exists x db1, (if bool_decide (hr_lifecycle r = rl_quiescing) then quiesce r tasks integration
      else eret (Some r)) db = (x, db1) /\ db_inv db1 /\ row ∈ replan_rows (ep_replans db1) /\
      (forall next, x = inr (Some next) -> hr_replanId next = hr_replanId r)) as (x & db1 & Ex & Hi1 & Hrow1 & Hn).
  { case_bool_decide; [|exists (inr (Some r)), db; split_and!; try done; by intros next [= <-]].
    destruct (quiesce r tasks integration db) as [x db1] eqn:Eq. exists x, db1. split; [done|].
    destruct (quiesce_inv _ _ _ _ _ _ _ Eq Hi Hr) as (Hi1 & _ & _ & _ & Hx). split; [done|].
    split; [|intros next Enext; by apply Hx]. unfold quiesce in Eq.
    destruct (existsb unconfirmed _); [|destruct (reconciling _); [|destruct (existsb unsatisfied _);
      [|destruct (_ && _)]]]; unfold ebind, eret in Eq;
      first [by injection Eq as <- <-
            |match type of Eq with context [let (_, _) := ?m in _] => destruct m as [y db2] eqn:Ey end;
             destruct y; injection Eq as <- <-; by eapply advance_other]. }
  rewrite Ex in E. clear Ex. destruct x as [e|[next|]]; [by injection E as <- <-| |by injection E as <- <-].
  case_bool_decide; [|by injection E as <- <-]. specialize (Hn next eq_refl). rewrite <-Hn in Hid.
  unfold revise in E. destruct (active _ _) as [graph|]; [|by injection E as <- <-].
  destruct (_ && _); unfold ebind, eret in E.
  - destruct (resume _ _ _ _) as [y db2] eqn:Ey. destruct y; injection E as <- <-; by eapply advance_other.
  - unfold onGraphs in E. destruct (submit _ _) as [e|[o graphs]] eqn:Es; [by injection E as <- <-|].
    match type of Es with submit ?p _ = _ => pose proof (inv_graphs (GSubmit p) db1 Hi1) as Hi2 end.
    cbn [graph_step] in Hi2. rewrite Es in Hi2.
    destruct (oc_record o); [destruct (resume _ _ _ _) as [y db2] eqn:Ey|destruct (blockReplan _ _ _) as [y db2] eqn:Ey];
      destruct y; injection E as <- <-; by eapply advance_other.
Qed.

(** The replan [row] waits for a task that has succeeded, or is blocked. *)
Record stranded (db : EpicDb) (r : HiddenDependencyReplan) (d : string) : Prop := {
  sd_row : exists row, row ∈ replan_rows (ep_replans db) /\ rn_replan row = r;
  sd_state : hr_lifecycle r = rl_quiescing \/ hr_lifecycle r = rl_blocked;
  sd_task : d ∈ hr_interruptedTaskIds r;
  sd_succeeded : exists row, task_at (hf_runId (hr_finding r)) d (ep_waves db) = Some row /\
    lp_phase row = ph_succeeded
}.

Lemma succeeded_later db db' run d row :
  task_steps db db' -> task_at run d db = Some row -> lp_phase row = ph_succeeded ->
  exists row', task_at run d db' = Some row' /\ lp_phase row' = ph_succeeded.
Proof.
  intros Hs Hat Hp. destruct (Hs _ _ _ Hat) as (row' & Hat' & L). exists row'. split; [done|].
  rewrite <-Hp. apply (row_writes_final _ _ L). rewrite Hp. by left.
Qed.

(** Rows read earlier do not show the task as cancelled. *)
Lemma not_confirmed db run tasks d row :
  rows_read db run tasks -> task_at run d (ep_waves db) = Some row -> lp_phase row = ph_succeeded ->
  confirmed (findTask tasks d) = false.
Proof.
  intros Hr Hat Hp. destruct (findTask tasks d) as [old|] eqn:Ef; [|done]. cbn.
  apply bool_decide_eq_false. intros Eold. destruct (Hr _ _ Ef) as (row' & Hat' & L).
  assert (lp_phase row' = lp_phase old) as E; [|congruence].
  apply (row_writes_final _ _ L). rewrite Eold. right. right. by left.
Qed.

(** Continuing the tick of a quiescing replan then only blocks it. *)
Lemma continue_stranded input r tasks integration decisionId decidedAt db res db' d :
  continueTick input (Some r) tasks integration decisionId decidedAt db = (res, db') -> db_inv db ->
  replan_read db (et_runId input) r -> rows_read db (et_runId input) tasks ->
  stranded db r d -> hr_lifecycle r = rl_quiescing ->
  exists r', replan_later r r' /\ stranded db' r' d.
Proof.
  intros E Hi Hr Ht Hs El. destruct Hs as [(row & Hrow & Er) _ Hd (t & Hat & Hp)].
  rewrite (proj1 Hr) in Hat.
  assert (forallb confirmed (map (findTask tasks) (hr_interruptedTaskIds r)) = false) as Hc.
  { apply not_true_iff_false. rewrite forallb_forall. intros Hall.
    assert (In (findTask tasks d) (map (findTask tasks) (hr_interruptedTaskIds r))) as Hin
      by (apply in_map; by apply list_elem_of_In).
    specialize (Hall _ Hin). rewrite (not_confirmed _ _ _ _ _ Ht Hat Hp) in Hall. done. }
  assert (stranded db r d) as Hs.
  { split; [by exists row|by left|done|]. rewrite (proj1 Hr). by exists t. }
  unfold continueTick in E. rewrite bool_decide_true in E by done. unfold ebind at 1 in E.
  unfold quiesce in E. rewrite Hc in E. cbn [andb] in E.
  assert (forall b x db1, blockReplan r b db = (x, db1) -> exists r', replan_later r r' /\ stranded db1 r' d) as Hb.
  { intros b x db1 Eb. pose proof Eb as Ea. apply onReplans_advance in Ea as (Hi1 & Hl & _ & Ew & Hx); [|done|].
    2:{ intros row1 now Hrow1 _ El1 _. destruct (ri_rows _ _ (eb_replans _ Hi) _ Hrow1) as [_ Ho].
        cbn [ad_expectedLifecycle] in El1. unfold outcome_ok in *. rewrite El1, El in Ho. cbn. destruct Ho as (-> & -> & _).
        by split_and!. }
    destruct x as [e|r']; [exists r; split; [done|]; unfold blockReplan, onReplans in Eb; destruct (advanceReplan _ _) as [|[]]; [by injection Eb as _ <-|done]|].
    destruct (Hx r' eq_refl) as (El' & row' & Hrow' & <- & Eid). cbn [ad_lifecycle ad_replanId] in *.
    pose proof (replan_read_row _ _ _ _ Hi1 (replan_read_later _ _ _ _ Hl Hr) Hrow' Eid) as L. exists (rn_replan row').
    split; [done|]. destruct (replan_later_facts _ _ L) as [_ Ff _ Fi _ _].
    split; [by exists row'|by right|by rewrite Fi|]. rewrite Ff, (proj1 Hr), Ew. by exists t. }
  destruct (existsb unconfirmed _); [|destruct (reconciling _); [|destruct (existsb unsatisfied _)]]; unfold ebind, eret in E.
  1-3: destruct (blockReplan r _ db) as [x db1] eqn:Ex; destruct x; injection E as <- <-; by eapply Hb.
  rewrite bool_decide_false in E by (by rewrite El). injection E as <- <-. by exists r.
Qed.

Lemma stranded_step event e r d :
  epic_inv e -> stranded (epic_db e) r d ->
  exists r', replan_later r r' /\ stranded (epic_db (epic_step event e)) r' d.
Proof.
  intros Hi Hs. destruct (epic_step_inv event e Hi) as [_ [Htasks Hreplans]].
  destruct Hs as [(row & Hrow & Er) Hst Hd (t & Hat & Hp)].
  assert (forall row', row' ∈ replan_rows (ep_replans (epic_db (epic_step event e))) -> rn_replan row' = r ->
    exists r', replan_later r r' /\ stranded (epic_db (epic_step event e)) r' d) as Hkept.
  { intros row' Hrow' Er'. exists r. split; [done|]. split; [by exists row'|done|done|]. by eapply succeeded_later. }
  destruct Hst as [El|El].
  2:{ destruct (Hreplans _ Hrow) as (row' & Hrow' & L). apply (Hkept row' Hrow').
      rewrite Er in L. apply (lf_final _ _ (replan_later_facts _ _ L)). by rewrite El. }
  pose proof Hi as [Hdb Hw].
  destruct event as [input|input|finding proposal|stretch|input|i|i integration decisionId decidedAt]; cbn [epic_step] in *.
  - rewrite (onGraphs_step _ (GInitialize input)) in * by done. by apply (Hkept row).
  - rewrite (onGraphs_step _ (GSubmit input)) in * by done. by apply (Hkept row).
  - apply (Hkept row); [|done]. by apply (report_inv finding proposal _ Hdb).
  - by apply (Hkept row).
  - destruct (startTick _ _) as [|[]]; by apply (Hkept row).
  - destruct (epic_waiting e !! i) as [[]|]; by apply (Hkept row).
  - destruct (epic_waiting e !! i) as [[|input replan tasks]|] eqn:Ei; [by apply (Hkept row)| |by apply (Hkept row)].
    pose proof (Forall_lookup_1 _ _ _ _ Hw Ei) as [Hread Ht]. destruct replan as [r0|]; [|by apply (Hkept row)].
    specialize (Hread r0 eq_refl). destruct (continueTick _ _ _ _ _ _ _) as [res db'] eqn:E. cbn in *.
    destruct (decide (rn_replan_id row = hr_replanId r0)) as [Eid|Hne].
    + pose proof (replan_read_row _ _ _ _ Hdb Hread Hrow Eid) as L. rewrite Er in L.
      rewrite <-(lf_quiescing _ _ (replan_later_facts _ _ L) El) in E, Hread.
      eapply (continue_stranded _ r); try done. split; [by exists row|by left|done|by exists t].
    + apply (Hkept row); [|done]. by eapply continue_other.
Qed.

Lemma stranded_after events e r d :
  epic_inv e -> stranded (epic_db e) r d ->
  exists r', replan_later r r' /\ stranded (epic_db (epic_after events e)) r' d.
Proof.
  revert e r. induction events as [|event events IH]; intros e r Hi Hs; [by exists r|].
  destruct (stranded_step event e r d Hi Hs) as (r1 & L1 & Hs1).
  destruct (IH _ _ (proj1 (epic_step_inv event e Hi)) Hs1) as (r2 & L2 & Hs2).
  exists r2. split; [by etrans|done].
Qed.

(** While a graph revision is pending no task is dispatched. *)
Lemma plan_unresolved snapshot plan :
  planTaskWave snapshot = Some plan -> ws_unresolvedGraphRevision snapshot = true ->
  wp_selectedTaskIds plan = [].
Proof.
  intros Hp Hu. destruct (tv_valid (wp_validation plan)) eqn:Hv.
  - destruct (plan_valid _ _ Hp Hv) as (_ & _ & _ & s & Hok & -> & _).
    destruct (wv_selected s) as [|t rest] eqn:E; [done|]. destruct (wo_selected _ _ _ Hok t) as [_ Hst].
    { rewrite E. by left. }
    destruct Hst as (n & st & _ & _ & _ & _ & Hg). pose proof (gr_revision _ _ Hg). congruence.
  - destruct (plan_outcome snapshot) as (plan' & Hp' & _ & _ & Hinv). rewrite Hp in Hp'. injection Hp' as <-.
    by apply Hinv.
Qed.

Lemma unresolved_dispatches_nothing input waves accepted waves' :
  ti_unresolvedGraphRevision input = Some true ->
  planAndDispatch input waves = inr (accepted, waves') -> accepted = [].
Proof.
  intros Hu Hr. unfold planAndDispatch in Hr. run_inv Hr. rename E1 into Ep.
  apply plan_unresolved in Ep; [|cbn; by rewrite Hu]. rewrite Ep in Hr. by run_inv Hr.
Qed.

(** C38: A run is stranded when an interrupted task succeeds. A task may still succeed
    after its cancellation was requested. From then on its replan is never revised
    nor resumed, whatever happens: it stays quiescing or is blocked for another
    reason. And while it is quiescing, every tick that starts plans with a pending
    revision and dispatches nothing. *)
Theorem replan_stranded runs events run r d row :
  let e := epic_after events (empty_epic runs) in
  activeReplan (ep_replans (epic_db e)) run = Some r -> hr_lifecycle r = rl_quiescing ->
  d ∈ hr_interruptedTaskIds r -> task_at run d (ep_waves (epic_db e)) = Some row ->
  lp_phase row = ph_succeeded ->
  forall later,
  let db := epic_db (epic_after later e) in
  exists r', r' ∈ replans (ep_replans db) run /\ replan_later r r' /\
    (hr_lifecycle r' = rl_blocked \/
     hr_lifecycle r' = rl_quiescing /\
     forall input tick replan waves accepted waves', et_runId input = run ->
       startTick input db = inr (tick, replan) ->
       planAndDispatch tick waves = inr (accepted, waves') -> replan = Some r' /\ accepted = []).
Proof.
  intros e Ha El Hd Hat Hp later. pose proof (reached_inv events runs) as Hi. fold e in Hi.
  destruct (activeReplan_Some _ _ _ Ha) as (row0 & Hrow0 & Er0 & Erun & _).
  destruct (active_read _ _ _ (ev_db _ Hi) Ha) as [Ef _].
  assert (stranded (epic_db e) r d) as Hs.
  { split; [by exists row0|by left|done|]. rewrite Ef. by exists row. }
  destruct (stranded_after later e r d Hi Hs) as (r' & L & Hs').
  intros db. pose proof (ev_db _ (proj1 (epic_after_inv later e Hi))) as Hdb. fold db in Hs', Hdb. destruct Hs' as [(row' & Hrow' & Er') Hst _ _].
  destruct (ri_rows _ _ (eb_replans _ Hdb) _ Hrow') as [Hok _].
  assert (rn_run_id row' = run) as Erun'.
  { rewrite <-(cr_run _ Hok), Er', (lf_finding _ _ (replan_later_facts _ _ L)). done. }
  exists r'. split; [apply elem_of_replans; by exists row'|]. split; [done|].
  destruct Hst as [Eq|Eq]; [right|by left]. split; [done|].
  intros input tick replan waves accepted waves' <- Hst Hplan. unfold startTick in Hst.
  pose proof (unfinished_active _ _ _ (eb_replans _ Hdb) Hrow') as Hact.
  rewrite <-(cr_lifecycle _ Hok), Er', Eq, Erun' in Hact. specialize (Hact eq_refl).
  destruct (active _ _) as [graph|]; [|done]. injection Hst as <- <-. rewrite Hact in *. split; [done|].
  eapply unresolved_dispatches_nothing; [|exact Hplan]. done.
Qed.

(** ** A quiet replan is decided *)

Lemma one_unfinished_update p f rows :
  one_unfinished rows = true ->
  (forall row, row ∈ rows -> p row = true -> rn_run_id (f row) = rn_run_id row /\
     (unfinished (rn_lifecycle (f row)) = true -> unfinished (rn_lifecycle row) = true)) ->
  one_unfinished (update_where p f rows) = true.
Proof.
  unfold one_unfinished. intros Hn%bool_decide_eq_true Hf. apply bool_decide_eq_true.
  assert (forall rows', (forall row, row ∈ rows' -> row ∈ rows) ->
    sublist (map rn_run_id (List.filter (fun r => unfinished (rn_lifecycle r)) (update_where p f rows')))
      (map rn_run_id (List.filter (fun r => unfinished (rn_lifecycle r)) rows'))) as Hsub.
  { induction rows' as [|x rows' IH]; intros Hin; [done|]. cbn.
    assert (forall row, row ∈ rows' -> row ∈ rows) as Hin' by (intros; apply Hin; by right).
    destruct (p x) eqn:Ep.
    - destruct (Hf x (Hin x ltac:(left)) Ep) as [Er Hu].
      destruct (unfinished (rn_lifecycle (f x))) eqn:Ef.
      + rewrite (Hu eq_refl). cbn. rewrite Er. apply sublist_skip, IH, Hin'.
      + destruct (unfinished (rn_lifecycle x)); cbn; [apply sublist_cons|]; by apply IH.
    - destruct (unfinished (rn_lifecycle x)); cbn; [apply sublist_skip|]; by apply IH. }
  eapply sublist_NoDup; [exact Hn|]. by apply Hsub.
Qed.

(** A permitted advance of a stored replan goes through. *)
Lemma onReplans_ok input db row :
  db_inv db -> row ∈ replan_rows (ep_replans db) -> rn_replan_id row = ad_replanId input ->
  hr_lifecycle (rn_replan row) = ad_expectedLifecycle input ->
  canAdvance (ad_expectedLifecycle input) (ad_lifecycle input) = true ->
  exists now db', onReplans (advanceReplan input) db = (inr (advancedReplan input now (rn_replan row)), db').
Proof.
  intros Hi Hrow Hid El Hc. pose proof (eb_replans _ Hi) as Hr. destruct (ri_rows _ _ Hr _ Hrow) as [Hok _].
  destruct Hok as [C1 C2 C3 C4 C5 C6 C7 _]. unfold onReplans.
  enough (exists now replans, advanceReplan input (ep_replans db) =
    inr (advancedReplan input now (rn_replan row), replans)) as (now & replans & ->) by by eexists now, _.
  unfold advanceReplan, readReplan.
  assert (select_one (replan_is (ad_replanId input)) (replan_rows (ep_replans db)) = Some row) as Es.
  { apply (select_one_key rn_replan_id); [apply Hr| |done|by rewrite <-Hid; apply str_eqb_refl].
    intros x Hx%str_eqb_true. congruence. }
  erewrite bind_eq; [|erewrite bind_eq; [|reflexivity]; rewrite Es; reflexivity].
  rewrite bool_decide_true by done. cbn [negb].
  erewrite bind_eq; [|rewrite El, Hc; reflexivity]. erewrite bind_eq; [|reflexivity].
  set (now := clock_text _). set (next := advancedReplan input now (rn_replan row)).
  set (db1 := mkReplanDb _ _ _ _). exists now.
  set (p := fun row0 : ReplanRow => _ && _).
  assert (forall x, x ∈ replan_rows (ep_replans db) -> p x = true -> x = row) as Huniq.
  { intros x Hx [Ex _]%andb_prop. apply str_eqb_true in Ex. cbn in Ex.
    apply (replan_unique (rn_replan_id row) (ep_replans db)); try done; [apply Hr|congruence]. }
  assert (p row = true) as Hhit.
  { unfold p, replan_is. cbn. by rewrite C1, str_eqb_refl, <-C4, bool_decide_true by done. }
  assert (updateReplans p (setReplan next) db1 = inr (1, with_replans (update_where p (setReplan next)) db1)) as Eu.
  { unfold updateReplans. erewrite bind_eq; [|reflexivity].
    assert (forall b : ReplanRow -> bool, b row = true -> forallb b (select_where p (replan_rows db1)) = true) as Hall.
    { intros b Hb. apply forallb_forall. intros x Hx%list_elem_of_In. apply elem_of_select in Hx as [Hx Ex].
      by rewrite (Huniq _ Hx Ex). }
    erewrite bind_eq; [|rewrite Hall; [reflexivity|]]; [|unfold causal_replan; cbn].
    2:{ rewrite !str_eqb_refl, C6, Z.eqb_refl, bool_decide_true by done. done. }
    erewrite bind_eq; [|rewrite Hall; [reflexivity|]]; [|cbn; by rewrite <-C4, El].
    erewrite bind_eq; [|rewrite Hall; [reflexivity|]]; [|cbn; apply Z.leb_le; lia].
    erewrite bind_eq; [|rewrite one_unfinished_update; [reflexivity|apply Hr|]].
    2:{ intros x Hx Ex. rewrite (Huniq _ Hx Ex). split; [done|]. intros _. rewrite <-C4, El.
        by apply advance_unfinished in Hc as [Hu _]. }
    erewrite bind_eq; [|reflexivity]. unfold ret. f_equal. f_equal. apply Z.le_antisymm.
    - apply (count_where_key rn_replan_id); [apply Hr|]. intros x x' [Ex _]%andb_prop [Ex' _]%andb_prop.
      apply str_eqb_true in Ex, Ex'. congruence.
    - by eapply count_where_pos. }
  eexists. erewrite bind_eq; [|exact Eu]. reflexivity.
Qed.

(** What the service is asked when the replan is revised. *)
Definition submission (input : EpicRuntimeTickInput) (r : HiddenDependencyReplan)
    (graph : TaskGraphRevisionRecord) (waves : WaveDb) (decisionId decidedAt : string) : ProposeInput :=
  mkPropose (hr_proposal r)
    (planningStates waves (et_runId input) (Some (map taskId (dag_nodes (rr_dag graph)))))
    (et_maxGraphRevisions input) decisionId decidedAt (Some (hr_finding r)).

(** The replan after its proposal was decided. *)
Definition decided (run : string) (context : TaskGraphRevisionValidationContext) (r r' : HiddenDependencyReplan)
    (graphs : GraphDb) : Prop :=
  (revision_ok context (hr_proposal r) /\ hr_lifecycle r' = rl_resumed /\
   hr_decisionId r' = Some (cx_decisionId context) /\
   hr_resultingGraphRevision r' = Some (rr_graphRevision (successor context (hr_proposal r))) /\
   active graphs run = Some (successor context (hr_proposal r))) \/
  (~ revision_ok context (hr_proposal r) /\ hr_lifecycle r' = rl_blocked /\
   hr_blocker r' ∈ [Some rb_revision_rejected; Some rb_missing_evidence] /\
   active graphs run = Some (cx_current context)).

(** A stored replan as a row, with what its advance needs. *)
Lemma read_row db run r :
  db_inv db -> r ∈ replans (ep_replans db) run -> exists row, row ∈ replan_rows (ep_replans db) /\
    rn_replan row = r /\ rn_replan_id row = hr_replanId r /\ replan_read db run r.
Proof.
  intros Hi (row & Hrow & Erun & Er)%elem_of_replans. exists row.
  destruct (ri_rows _ _ (eb_replans _ Hi) _ Hrow) as [Hok _]. rewrite <-Er.
  split_and!; try done; [symmetry; apply (cr_id _ Hok)|]. split; [by rewrite (cr_run _ Hok)|]. by exists row.
Qed.

(** The advanced replan is stored. *)
Lemma advanced_stored input db r db' run :
  db_inv db' -> r ∈ replans (ep_replans db) run -> db_inv db -> db_later db db' ->
  hr_replanId r = ad_replanId input ->
  forall next, (exists row, row ∈ replan_rows (ep_replans db') /\ rn_replan row = next /\ rn_replan_id row = ad_replanId input) ->
  next ∈ replans (ep_replans db') run /\ replan_later r next.
Proof.
  intros Hi' Hr Hi Hl Hid next (row' & Hrow' & <- & Eid').
  destruct (read_row _ _ _ Hi Hr) as (row & Hrow & Er & Eid & Hread).
  pose proof (replan_read_row _ _ _ _ Hi' (replan_read_later _ _ _ _ Hl Hread) Hrow' ltac:(congruence)) as L.
  split; [|done]. apply elem_of_replans. exists row'. split; [done|]. split; [|done].
  destruct (ri_rows _ _ (eb_replans _ Hi') _ Hrow') as [Hok _]. rewrite <-(cr_run _ Hok).
  rewrite (lf_finding _ _ (replan_later_facts _ _ L)). apply Hread.
Qed.

Lemma revise_decided input r graph db decisionId decidedAt :
  let run := et_runId input in
  let s := submission input r graph (ep_waves db) decisionId decidedAt in
  let context := propose_context graph s in
  db_inv db -> r ∈ replans (ep_replans db) run -> hr_lifecycle r = rl_revising ->
  active (ep_graphs db) run = Some graph ->
  rr_graphRevision graph <> dag_graphRevision (pr_proposedDag (hr_proposal r)) ->
  (forall text, sha_text (sha256_hex text) = true) ->
  decisionId ∉ map w_decision_id (graph_decisions (ep_graphs db)) ->
  rr_revisionSha256 (successor context (hr_proposal r)) ∉ map rr_revisionSha256 (revisions (ep_graphs db) run) ->
  exists ends db' r', revise input r (projections (ep_waves db) run) decisionId decidedAt db = (inr ends, db') /\
    r' ∈ replans (ep_replans db') run /\ replan_later r r' /\ decided run context r r' (ep_graphs db').
Proof.
  intros run s context Hi Hr El Ha Hne Hsha Hid Hfresh.
  destruct (read_row _ _ _ Hi Hr) as (row & Hrow & Er & Eid & Hread).
  pose proof (read_cites _ _ _ Hi Hread) as [(t & Et & Ef & _) Cr _ Cn _].
  assert (pr_runId (pi_proposal s) = run) as Erun by (cbn; by rewrite Cr, (proj1 Hread)).
  destruct (ri_recorded _ _ (eb_replans _ Hi) _ Hrow) as (f & Hf & Eff). rewrite Er in Eff.
  destruct (submission_decided (ep_graphs db) s graph) as (o & graphs & Es & _ & Hcase);
    [apply Hi|apply Hi|by rewrite Erun|done| |done|by rewrite Erun|].
  { cbn. rewrite Cn, <-Eff. apply (ri_baseline _ _ (eb_replans _ Hi) _ Hf). }
  rewrite Erun in Hcase. unfold revise. fold run. rewrite Ha.
  assert (rr_graphRevision graph =? dag_graphRevision (pr_proposedDag (hr_proposal r)) = false) as ->
    by by apply Z.eqb_neq.
  cbn [andb]. unfold ebind at 1, onGraphs.
  change (mkPropose _ _ _ _ _ _) with s. rewrite Es.
  pose proof (inv_graphs (GSubmit s) db Hi) as Hi1. cbn [graph_step] in Hi1. rewrite Es in Hi1.
  set (db1 := mkEpicDb graphs _ _) in *.
  pose proof (propose_inv created _ _ _ _ Es (eb_graphs _ Hi)) as (_ & current & Ha' & Hv & _).
  rewrite Erun, Ha in Ha'. injection Ha' as <-. change revision_validator with validateTaskGraphRevision in Hv.
  destruct (accepted_spec _ _ _ Hv) as (_ & _ & Hrec). destruct (decision_fields _ _ _ Hv) as [Hdn _].
  change (pi_proposal s) with (hr_proposal r) in *. fold context in Hrec, Hcase, Hdn.
  assert (forall adv, ad_replanId adv = hr_replanId r -> ad_expectedLifecycle adv = rl_revising ->
    canAdvance rl_revising (ad_lifecycle adv) = true ->
    (forall now, outcome_ok graphs (advancedReplan adv now r)) ->
    exists now db', onReplans (advanceReplan adv) db1 = (inr (advancedReplan adv now r), db') /\
      advancedReplan adv now r ∈ replans (ep_replans db') run /\ replan_later r (advancedReplan adv now r) /\
      ep_graphs db' = graphs) as Hadv.
  { intros adv A1 A2 A3 A4. destruct (onReplans_ok adv db1 row) as (now & db' & E); try done; [congruence|congruence|congruence|].
    rewrite Er in E. exists now, db'. split; [done|].
    destruct (onReplans_advance _ _ _ _ E Hi1) as (Hi' & Hl & Eg & _ & Hx).
    { intros row0 now0 Hrow0 Eid0 _ _. rewrite (replan_unique _ (ep_replans db1) row0 row (ri_ids _ _ (eb_replans _ Hi1)) Hrow0 Hrow Eid0), Er; [done|congruence]. }
    destruct (Hx _ eq_refl) as [_ Hst].
    destruct (advanced_stored adv db1 r db' run Hi' Hr Hi1 Hl (eq_sym A1) _ Hst) as [? ?]. done. }
  destruct (oc_record o) as [record|] eqn:Eo.
  - destruct (proj1 (Hrec record) eq_refl) as [Hok Esucc].
    destruct Hcase as [(_ & Hact & _)|[Hno _]]; [|done].
    destruct (submit_accepted _ _ _ _ _ Es (eb_graphs _ Hi) Eo) as (_ & Hin & Err & Etr & _ & Edec & Edn).
    destruct (Hadv (mkAdvance (hr_replanId r) rl_revising rl_resumed (Some (Some (dn_decisionId (oc_decision o))))
      (Some (Some (rr_graphRevision record))) None)) as (now & db' & E & Hst & L & Eg); try done.
    { intros now. pose proof (rs_outcome _ _ _ (row_sound _ _ Hi Hrow)) as Ho. rewrite Er, El in Ho. cbn.
      destruct Ho as (_ & _ & _ & Hb). split; [done|]. exists record, t.
      split_and!; try done; [rewrite Err; exact Cr|by rewrite Edec, Edn|rewrite Etr; exact Et]. }
    eexists _, db', _. unfold resume, ebind, eret. rewrite E. split; [done|]. split; [exact Hst|]. split; [exact L|].
    left. split_and!; try done; cbn; [by rewrite Hdn|by rewrite Esucc|by rewrite Eg].
  - destruct Hcase as [(Hok & _ & _)|(Hno & _ & _ & Hact)];
      [pose proof (proj2 (Hrec _) (conj Hok eq_refl)); done|].
    set (b := if missingEvidence _ then _ else _).
    destruct (Hadv (mkAdvance (hr_replanId r) rl_revising rl_blocked None None (Some (Some b))))
      as (now & db' & E & Hst & L & Eg); try done.
    { intros now. pose proof (rs_outcome _ _ _ (row_sound _ _ Hi Hrow)) as Ho. rewrite Er, El in Ho. cbn.
      destruct Ho as (_ & -> & -> & _). by split_and!. }
    eexists _, db', _. unfold blockReplan, ebind, eret. rewrite El, E. split; [done|]. split; [exact Hst|].
    split; [exact L|]. right. split_and!; try done; [|by rewrite Eg]. cbn. unfold b. destruct (missingEvidence _); set_solver.
Qed.

(** All interrupted tasks are cancelled and all prerequisites integrated. *)
Record quiet (waves : WaveDb) (run : string) (r : HiddenDependencyReplan) : Prop := {
  qu_cancelled : forall d, d ∈ hr_interruptedTaskIds r ->
    exists row, task_at run d waves = Some row /\ lp_phase row = ph_cancelled;
  qu_integrated : forall p, p ∈ hf_prerequisiteTaskIds (hr_finding r) ->
    exists row, task_at run p waves = Some row /\ lp_phase row = ph_succeeded /\
      lp_completionContract row = cg_passed /\ lp_integration row = ig_passed /\
      lp_combinedVerification row = cg_passed
}.

(** A quiet replan becomes revising. *)
Lemma quiesce_quiet waves run r tasks integration :
  wave_inv waves -> quiet waves run r -> tasks = projections waves run -> reconciling integration = false ->
  quiesce r tasks integration =
  ebind (onReplans (advanceReplan (mkAdvance (hr_replanId r) rl_quiescing rl_revising None None None)))
    (fun next => eret (Some next)).
Proof.
  intros Hi [Hc Hp] -> Hrec. unfold quiesce. rewrite Hrec.
  assert (forall d, d ∈ hr_interruptedTaskIds r -> exists row,
    findTask (projections waves run) d = Some row /\ lp_phase row = ph_cancelled) as Hc'.
  { intros d Hd. destruct (Hc d Hd) as (row & Hat & E). exists row. split; [by apply findTask_at|done]. }
  assert (forall p, p ∈ hf_prerequisiteTaskIds (hr_finding r) -> exists row,
    findTask (projections waves run) p = Some row /\ lp_phase row = ph_succeeded /\
    awaitingIntegrated (Some row) = false) as Hp'.
  { intros p Hin. destruct (Hp p Hin) as (row & Hat & E1 & E2 & E3 & E4). exists row.
    split_and!; [by apply findTask_at|done|]. cbn. rewrite E1, E2, E3, E4. by rewrite !bool_decide_true. }
  rewrite !existsb_none, (proj2 (forallb_forall confirmed _)); [done| | | |].
  - intros x Hx%list_elem_of_In. apply list_elem_of_fmap in Hx as (d & -> & Hd).
    destruct (Hc' d Hd) as (row & -> & E). cbn. by rewrite E, bool_decide_true.
  - intros x (p & -> & Hin)%list_elem_of_fmap. by destruct (Hp' p Hin) as (row & -> & _ & E).
  - intros x (p & -> & Hin)%list_elem_of_fmap. destruct (Hp' p Hin) as (row & -> & E & _). cbn. by rewrite E.
  - intros x (d & -> & Hd)%list_elem_of_fmap. destruct (Hc' d Hd) as (row & -> & E). cbn. by rewrite E.
Qed.

(** C15: A quiet replan is decided. Take a state the coordinator reaches in which a run
    has an unfinished replan whose interrupted tasks are cancelled and whose
    prerequisites are integrated, with nothing left to reconcile, and a graph that
    is not yet the one the replan asks for. Then the continuation of a tick returns.
    The replan is resumed with its decision and the new revision, which becomes the
    active one, when the proposal is an acceptable revision of the graph in the
    states the tasks are in; otherwise it is blocked, and the graph stays. (The
    digests have the form the schema asks for, and the decision's id and the new
    revision's hash are not used yet.) *)
Theorem replan_decided runs events input r graph integration decisionId decidedAt :
  let run := et_runId input in
  let db := epic_db (epic_after events (empty_epic runs)) in
  let context := propose_context graph (submission input r graph (ep_waves db) decisionId decidedAt) in
  activeReplan (ep_replans db) run = Some r -> quiet (ep_waves db) run r -> reconciling integration = false ->
  active (ep_graphs db) run = Some graph ->
  rr_graphRevision graph <> dag_graphRevision (pr_proposedDag (hr_proposal r)) ->
  (forall text, sha_text (sha256_hex text) = true) ->
  decisionId ∉ map w_decision_id (graph_decisions (ep_graphs db)) ->
  rr_revisionSha256 (successor context (hr_proposal r)) ∉ map rr_revisionSha256 (revisions (ep_graphs db) run) ->
  exists ends db' r',
    continueTick input (Some r) (projections (ep_waves db) run) integration decisionId decidedAt db = (inr ends, db') /\
    r' ∈ replans (ep_replans db') run /\ replan_later r r' /\ decided run context r r' (ep_graphs db').
Proof.
  intros run db context Hact Hq Hrec Ha Hne Hsha Hid Hfresh.
  pose proof (ev_db _ (reached_inv events runs)) as Hi. fold db in Hi.
  destruct (activeReplan_Some _ _ _ Hact) as (row & Hrow & Er & Erun & Hu).
  assert (r ∈ replans (ep_replans db) run) as Hr by (apply elem_of_replans; by exists row).
  destruct (ri_rows _ _ (eb_replans _ Hi) _ Hrow) as [Hok Ho]. rewrite <-(cr_lifecycle _ Hok), Er in Hu.
  assert (rn_replan_id row = hr_replanId r) as Eid by by rewrite <-(cr_id _ Hok), Er.
  destruct (hr_lifecycle r) eqn:El; try done.
  2:{ rewrite continue_revising by done. by apply revise_decided. }
  set (adv := mkAdvance (hr_replanId r) rl_quiescing rl_revising None None None).
  destruct (onReplans_ok adv db row) as (now & db1 & E); try done; [by rewrite Er|]. rewrite Er in E.
  set (next := advancedReplan adv now r) in *.
  destruct (onReplans_advance _ _ _ _ E Hi) as (Hi1 & Hl & Eg & Ew & Hx).
  { intros row0 now0 Hrow0 Eid0 El0 _. destruct (ri_rows _ _ (eb_replans _ Hi) _ Hrow0) as [_ Ho0].
    unfold outcome_ok in *. by rewrite El0 in Ho0. }
  destruct (Hx _ eq_refl) as [_ Hst].
  destruct (advanced_stored adv db r db1 run Hi1 Hr Hi Hl eq_refl _ Hst) as [Hn L].
  destruct (revise_decided input next graph db1 decisionId decidedAt) as (ends & db' & r' & Erev & Hr' & L' & Hd);
    try done; [by rewrite Eg|by rewrite Eg| |].
  { rewrite Eg, Ew. exact Hfresh. }
  exists ends, db', r'. split; [|split; [done|]; split; [by etrans|]].
  - unfold continueTick, ebind at 1. rewrite El, bool_decide_true by done.
    rewrite (quiesce_quiet (ep_waves db) run) by (done || apply Hi). unfold ebind at 1. fold adv. rewrite E.
    cbn. rewrite Ew in Erev. exact Erev.
  - rewrite Ew in Hd. exact Hd.
Qed.
End Coordinator.

(** ** A concrete run *)

#[local] Existing Instance digit_digest.
#[local] Existing Instance tallyIds.
#[local] Existing Instance still_clock.
#[local] Existing Instance code_units.

(** Task [a] is integrated and [b], which depends on it, runs. *)
Definition one_worker : EpicRuntimeTickInput :=
  mkEpicInput "run" 1 [{| pcap_profileId := "profile"; pcap_available := true |}] [] None None 5.

Definition the_dag : TaskDagV2 := rr_dag stored_revision.

Definition wave_row (events : list Event) (task : string) : TaskLifecycleProjection :=
  default no_row (task_at "run" task (ep_waves (epic_db (epic_after events (empty_epic ["run"]))))).

Definition a_dispatched : list Event :=
  [EInitialize first_input; EWave (SInitialize "run" the_dag);
   EWave (SDispatch (schedulerInput one_worker the_dag false))].

Definition b_runs : list Event :=
  let settled := a_dispatched ++ [EWave (SObserve "run" (wave_row a_dispatched "a") (st_settled settled_succeeded));
    EWave (SGates "run" "a" cg_passed ig_passed cg_passed);
    EWave (SDispatch (schedulerInput one_worker the_dag false))] in
  settled ++ [EWave (SObserve "run" (wave_row settled "b") st_running)].

(** [b] finds that it needs more of [a], and is to be replaced by [b2]. *)
Definition b_finding : HiddenDependencyFinding :=
  mkFinding "finding" "run" "graph" 1 (rr_revisionSha256 stored_revision) "b" ["a"] ["b"]
    "b needs more of a" ["evidence"] "2026-01-02T00:00:00Z".

Definition b_proposal : TaskGraphRevisionProposal :=
  mkProposal "run" "graph" 1 (rr_revisionSha256 stored_revision)
    (small_dag 2 [small_node "a" 1 None []; small_node "b2" 1 None ["a"]])
    [mkChange change_supersede ["b"] ["b2"] "replaced" ["evidence"]]
    [mkMapping "item" "R1" ["b"] ["b2"] "b2 instead"] "hidden dependency" ["evidence"]
    "2026-01-02T00:00:00Z" (Some (mkTrigger "finding" ["b"])).

Definition b_reported : list Event := b_runs ++ [EReport b_finding b_proposal; EWave (SCancel "run" "b")].

Definition b_settled (phase : SettledPhase) : list Event :=
  b_reported ++ [EWave (SObserve "run" (wave_row b_reported "b") (st_settled phase))].

Definition reached (events : list Event) : Epic := epic_after events (empty_epic ["run"]).

Definition b_replan (events : list Event) : HiddenDependencyReplan :=
  default (mkReplan "" b_finding b_proposal rl_blocked [] [] None None None 0 "" "")
    (activeReplan (ep_replans (epic_db (reached events))) "run").

(** A whole tick resumes the replan on the second revision. *)
Example b_resumed :
  let db := epic_db (reached (b_settled settled_cancelled ++
    [EStart one_worker; EReturn 0; EContinue 0 None "decision-1" "2026-01-03T00:00:00Z"])) in
  map hr_lifecycle (replans (ep_replans db) "run") = [rl_resumed] /\
  map hr_resultingGraphRevision (replans (ep_replans db) "run") = [Some 2] /\
  rr_graphRevision <$> active (ep_graphs db) "run" = Some 2.
Proof. vm_compute. done. Qed.

Lemma replan_decided_witness :
  exists ends db' r',
    continueTick one_worker (Some (b_replan (b_settled settled_cancelled)))
      (projections (ep_waves (epic_db (reached (b_settled settled_cancelled)))) "run") None "decision-1"
      "2026-01-03T00:00:00Z" (epic_db (reached (b_settled settled_cancelled))) = (inr ends, db') /\
    r' ∈ replans (ep_replans db') "run".
Proof.
  destruct (replan_decided ["run"] (b_settled settled_cancelled) one_worker (b_replan (b_settled settled_cancelled))
    stored_revision None "decision-1" "2026-01-03T00:00:00Z") as (ends & db' & r' & E & Hr & _).
  - vm_compute. reflexivity.
  - split; intros d Hd; apply list_elem_of_In in Hd; vm_compute in Hd; destruct Hd as [<-|[]]; eexists; vm_compute; done.
  - reflexivity.
  - vm_compute. reflexivity.
  - vm_compute. discriminate.
  - exact digit_digest_hex.
  - vm_compute. intros Hin. inversion Hin.
  - rewrite list_elem_of_In. vm_compute. intros [E|[]]. discriminate E.
  - exists ends, db', r'. split; [exact E|exact Hr].
Defined.

(** A tick makes the replan revising and revises the graph; what it leaves. *)
Definition b_continued : (string + TickEnd) * EpicDb :=
  continueTick one_worker (Some (b_replan (b_settled settled_cancelled)))
    (projections (ep_waves (epic_db (reached (b_settled settled_cancelled)))) "run")
    None "decision-1" "2026-01-04T00:00:00Z" (epic_db (reached (b_settled settled_cancelled))).

Lemma replan_crash_repaired_witness :
  hr_lifecycle (b_replan (b_settled settled_cancelled)) = rl_quiescing /\
  exists r' replans graph,
    activeReplan replans "run" = Some r' /\
    continueTick one_worker (Some r') [] None "decision-2" "2026-01-05T00:00:00Z"
      (mkEpicDb (ep_graphs (snd b_continued)) (empty_waves []) replans) =
    (inr (te_again graph), mkEpicDb (ep_graphs (snd b_continued)) (empty_waves []) (ep_replans (snd b_continued))).
Proof.
  split; [vm_compute; reflexivity|].
  destruct (replan_crash_repaired ["run"] (b_settled settled_cancelled) one_worker (b_replan (b_settled settled_cancelled))
    (projections (ep_waves (epic_db (reached (b_settled settled_cancelled)))) "run") None "decision-1"
    "2026-01-04T00:00:00Z" (default no_record (active (ep_graphs (snd b_continued)) "run")) (snd b_continued))
    as (r' & replans & _ & _ & Ha & Hc).
  - vm_compute. reflexivity.
  - vm_compute. reflexivity.
  - exists r', replans, (default no_record (active (ep_graphs (snd b_continued)) "run")).
    split; [exact Ha|]. by apply Hc.
Defined.

Lemma replan_stranded_witness :
  exists r', r' ∈ replans (ep_replans (epic_db (epic_after [EStart one_worker; EReturn 0; EContinue 0 None "d" "t"]
    (reached (b_settled settled_succeeded))))) "run" /\ hr_lifecycle r' <> rl_resumed.
Proof.
  destruct (replan_stranded ["run"] (b_settled settled_succeeded) "run" (b_replan (b_settled settled_succeeded)) "b"
    (wave_row (b_settled settled_succeeded) "b")) with (later := [EStart one_worker; EReturn 0; EContinue 0 None "d" "t"])
    as (r' & Hr & _ & [E|[E _]]).
  - vm_compute. reflexivity.
  - vm_compute. reflexivity.
  - vm_compute. left.
  - vm_compute. reflexivity.
  - vm_compute. reflexivity.
  - exists r'. split; [exact Hr|]. by rewrite E.
  - exists r'. split; [exact Hr|]. by rewrite E.
Defined.
